(* ===== verification/_CoqProject ===== *)
-Q . S2P
Prelude.v
Addresses.v
Words.v
Extents.v
Regions.v
Requests.v
FreeLists.v
FreeListFacts.v
FreeListMerge.v
Aggregators.v
Admission.v
AdmissionLaws.v
AdmissionSweep.v
Persistence.v
StartMap.v
Indexed.v
IndexedFacts.v
Paged.v
PagedEdits.v
PagedFacts.v
PageAdmissionFacts.v
PagedCommitFacts.v
PagedTailFacts.v
PersistFacts.v
Snapshots.v
Sessions.v
SessionFacts.v
Samples.v
FreeListTheorems.v
AdmissionTheorems.v
PagedTheorems.v
PagedCommitTheorems.v
SessionTheorems.v
ByteFields.v
ByteFieldFacts.v
Checksums.v
FileRegions.v
FreeSpaceManagers.v
FreeSpaceManagerFacts.v
FreeSpaceManagerParse.v
FileSpaceMessages.v
FilterErrors.v
Lzf.v
ByteFilters.v
FilterMasks.v
FilterBuffers.v
Floats.v
ScaleOffset.v
BitPacking.v
ScaleOffsetFacts.v
Deflate.v
FilterPipelines.v
FilterPipelineFacts.v
Utf8.v
FilterMessages.v
Dataspaces.v
Superblocks.v
SuperblockSearch.v
SuperblockFacts.v
FillValues.v
InfoMessages.v
GroupInfos.v
LinkMessages.v
Datatypes.v
DatatypeFacts.v
DatatypeReads.v
ObjectHeaders.v
ObjectHeaderFacts.v
ObjectHeaderCodec.v
ObjectHeaderSource.v
Journals.v
GlobalHeaps.v
GlobalHeapFacts.v
SymbolTables.v
SymbolTableFacts.v
DatatypeTheorems.v
GlobalHeapTheorems.v
FormatTheorems.v
HeaderTheorems.v
FilterTheorems.v
