(* ===== verification/Prelude.v ===== *)
(** * A verification of the core of hdf5-pure

    hdf5-pure reads and edits HDF5 files in Rust.  This library models three parts
    of it.  File space: which bytes of a file are free, which are handed out and what
    a commit publishes; the whole crate [crates/hdf5-pure-space] and the coordinate
    types of [crates/hdf5-pure-core] it is built on.  The format: the fields, checksums,
    superblock, object headers, their messages, the heaps and B-trees of older groups and the
    global heaps of [crates/hdf5-pure-format], and the code of the facade crate that opens a
    file, lists such a group, reads objects of a global heap and compacts it.  The filters: the chunk codecs and pipelines of [crates/hdf5-pure-filter].  A mistake in
    these parts corrupts files silently: a byte handed out twice, a live byte published
    as free, a message that reads back as another, a chunk that is not restored.

    ** The program and its model

    An editing session ([session.rs], [SessionSpace]) keeps the reusable space of
    its strategy: one flat list, PAGE lists, or nothing.  A request ([allocation.rs], [reservation.rs]) is placed by scanning
    a free list ([list/mod.rs]), by an indexed free list in a reservation batch
    ([list/indexed.rs]), by an aggregator window ([aggregator.rs]) or by the PAGE
    lists ([paged/mod.rs]).  A commit returns a batch of extents, which threshold
    admission ([admission/], [list/admission/], [paged/admission.rs]) records or
    drops, and persists the lists as managers ([persistence.rs]).

    - [Addresses]: [hdf5-pure-core]: address.rs, address_range.rs, width.rs,
      quantity/mod.rs, file_space_info.rs.
    - [Extents]: extent.rs.  [Regions]: no code; lists of extents as sets of
      addresses, the invariants [canonical] and [ordered].
    - [Requests]: allocation.rs, requests and placement of reservation.rs.
    - [FreeLists] with [FreeListFacts], [FreeListMerge] (merging and placement):
      list/mod.rs.
    - [Aggregators]: aggregator.rs, and a step relation for
      sequences of its operations.
    - [Admission]: admission/mod.rs, admission/batch.rs, list/admission/mod.rs.
      [AdmissionLaws] is the contract of the [TrackedSpace] trait as a class, discharged
      there for [FreeList] and in [PageAdmissionFacts] for [PagedPostFree].
      [AdmissionSweep]: the flat sweep and the ordered collections of returns.
    - [StartMap], [Indexed], [IndexedFacts]: list/indexed.rs.
    - [Persistence], [PersistFacts]: persistence.rs and the reload.
    - [Paged] (post-free states, promotion, page admission) and [PagedEdits]
      (sessions and commit plans): paged/mod.rs, paged/admission.rs.  Facts in
      [PagedFacts], [PageAdmissionFacts], [PagedCommitFacts], [PagedTailFacts].
    - [Snapshots]: snapshot/mod.rs, snapshot/retained.rs.
    - [Sessions], [SessionFacts]: session.rs and the batches of reservation.rs.
    - [Samples], [FreeListTheorems] (and aggregators), [AdmissionTheorems],
      [PagedTheorems], [PagedCommitTheorems], [SessionTheorems]: the results,
      each with an instance on concrete data.

    The format crate stores what the space crate decides.  Its parsers read fields
    through a bounds-checked cursor ([bytes.rs], [width.rs], [convert.rs]) and verify
    checksums ([checksum.rs]); the free-space managers ([free_space_manager.rs]) and the
    File Space Info message ([file_space_info.rs]) are built on these.

    - [Words]: no code; what the source uses of slices, vectors, [usize] and bytes.
    - [ByteFields], [ByteFieldFacts]: bytes.rs, width.rs, convert.rs.
    - [Checksums]: checksum.rs, with a reference hash.
    - [FileRegions]: region.rs of [hdf5-pure-core].
    - [FreeSpaceManagers], [FreeSpaceManagerFacts], [FreeSpaceManagerParse]:
      free_space_manager.rs.
    - [FileSpaceMessages]: file_space_info.rs of both crates.
    - [FormatTheorems]: the results about these.

    A file is opened by searching its superblock ([src/superblock/mod.rs], the codec in
    [superblock.rs]); the objects in it are described by messages, each a parser and a
    writer over the bytes of one message body.

    - [Utf8]: no code; strings as bytes with UTF-8 validation and lossy decoding.
    - [Superblocks], [SuperblockSearch], [SuperblockFacts]:
      superblock.rs and signature.rs of both crates, userblock_size.rs,
      src/superblock/mod.rs and the byte-slice reader of src/source/backend.rs.
    - [Dataspaces]: dataspace.rs of both crates.
    - [FilterMessages]: filter_pipeline.rs.
    - [FillValues]: fill_value.rs, fill_time.rs.  [InfoMessages]: link_info.rs,
      attribute_info.rs.  [GroupInfos]: group_info.rs.
    - [LinkMessages]: link_message.rs.
    - [FormatTheorems] holds the results about these too.

    The Datatype message describes the elements of a dataset or an attribute: numbers with
    their bit layouts, strings, references, and the compounds, arrays, enumerations and
    variable-length types built from them.

    - [Datatypes]: datatype/mod.rs, datatype/layout/mod.rs and datatype/byte_order.rs of
      [hdf5-pure-core], datatype/mod.rs and datatype/legacy_member.rs of the format crate.
    - [DatatypeFacts] (the bytes of a message and the writer), [DatatypeReads] (reading them
      back, and arbitrary bytes), [DatatypeTheorems] (references in an element, and the results).

    An object header holds the messages of one object: version 1 in eight-byte-aligned
    records with continuations followed depth-first, version 2 in checksummed chunks with
    continuations followed breadth-first.  A header is read from a buffer or through a
    source of metadata, and a filter chooses the messages that are kept.

    - [ObjectHeaders]: object_header/mod.rs, v1.rs, v2/mod.rs, v2/chunk.rs, v2/collector.rs,
      v2/worklist.rs, v2/splice.rs, observation/mod.rs, message_flags.rs, access_mode.rs,
      metadata_source.rs, and message_type.rs of [hdf5-pure-core].
    - [ObjectHeaderFacts] (arbitrary bytes, filtering), [ObjectHeaderCodec] (the encoder and
      the splices), [ObjectHeaderSource] (reading through a source).
    - [HeaderTheorems]: the results about these.

    A group of the older format is a symbol table message: the address of a local heap with
    the names and of a version 1 B-tree whose leaves point to the nodes of entries.  The tree
    is walked depth-first with a stack of pending nodes, a set of visited addresses and a
    limit on the work.  The same tree with other keys indexes the chunks of a dataset.

    - [SymbolTables]: local_heap.rs, symbol_table.rs, btree/v1.rs; src/btree/v1/mod.rs and
      visit.rs, and the resident listings and lookups of src/group/v1/mod.rs, of the facade
      crate.
    - [SymbolTableFacts]: the trees a file describes ([gtree], [describes]), the walk, arbitrary
      bytes, sources, and chunk nodes.
    - [HeaderTheorems] holds the results about these too.

    A global heap collection holds the variable-length data of elements: objects under 16-bit
    indices, each behind a header, and one free space behind the last.  The facade crate reads
    objects by walking the headers through a window, and an edit packs a collection by moving
    the objects that stay towards its start, in place.  Its writes go through a journal of the
    bytes they replace, which is restored when the scope of the writes fails.

    - [Journals]: src/edit/allocation.rs (the state machine that publishes allocations, with
      its theorem over the sessions a step relation [session_step] generates),
      src/edit/commit/rollback.rs and rollback/scoped.rs.  The image of the file is an instance
      of the class [FileImage], the trait of src/image/mod.rs.
    - [GlobalHeaps]: global_heap/mod.rs and global_heap/compaction/mod.rs; src/global_heap.rs
      and src/edit/commit/heap.rs of the facade crate.
    - [GlobalHeapFacts] (the collections a file holds, [heap_at]; the window, the walk, the
      encoder), [GlobalHeapTheorems] (the reader, compaction, the journal over images that may
      fail, [ImageLaws], with an instance in memory that fails where it is told to, and the
      results).

    The filter crate encodes and decodes chunks: [pipeline/mod.rs] runs the filters of a
    pipeline over buffers ([pipeline/buffer.rs]) whose storage it reuses from chunk to
    chunk, with the bounds each stage may grow to.

    - [FilterErrors]: error.rs.  [FilterMasks]: filter_mask.rs of [hdf5-pure-core].
    - [Lzf]: lzf.rs.
    - [ByteFilters]: shuffle and Fletcher32 of pipeline/mod.rs.
    - [Floats]: no code; IEEE arithmetic on bit patterns.  [ScaleOffset], [BitPacking],
      [ScaleOffsetFacts]: scaleoffset/mod.rs.
    - [FilterBuffers]: pipeline/buffer.rs.
    - [Deflate]: the Deflate stage, deflate_level.rs and the scratch
      state; the [flate2] package is the class [Flate2], with the behaviour the code
      relies on in [Flate2Laws], which [FilterTheorems] instantiates.
    - [FilterPipelines], with [FilterPipelineFacts] (each stage is undone,
      whole chunks, arbitrary bytes).
    - [FilterTheorems]: the results about these.

    A definition keeps the name of the function it models, in a Module named
    after the type it is a method of; [&mut self] methods return the new state.
    A [u64] newtype is its [Z] payload, with the checked operations of the
    standard library written out; a [Vec] is a list; a [BTreeMap] from start
    addresses is the list of its values in key order ([StartMap]); a [BTreeSet]
    of pairs is a [gset].  [Result] is [result]; code that can panic ([expect],
    [assert!], indexing) has type [outcome], and every theorem of the form
    [m ⇝ Q] says that [m] returns, without a panic, a value that satisfies [Q].
    [debug_assert!] depends on the build, a [Profile]; the theorems hold for both.  Unchecked
    [usize] arithmetic is [usize_op], which panics in a build with overflow checks and wraps
    in the others.  The binary searches of the standard library are the linear searches they
    agree with on sorted input; the closure of a message filter is a predicate.

    ** What the theorems show

    - Free lists ([FreeListTheorems]): each operation keeps the list canonical
      with its cached total and changes the set of free addresses exactly as
      documented; allocation is best fit and complete; the linear passes
      ([take_ranges], [from_lists], [intersection]) agree with the one-by-one
      definitions; constructors accept exactly valid input and name the first
      offending pair otherwise.
    - Aggregators ([FreeListTheorems]): every operation conserves the available
      space, and along any sequence of operations no byte is handed out twice.
    - Admission ([AdmissionTheorems], [PagedCommitTheorems]): the trait default
      terminates with the least closed set of the batch, for every implementation that
      keeps its contract; the flat sweep and the page queue compute the same set, lists
      and dropped extents.
    - Pages ([PagedTheorems]): promotion moves exactly the wholly free pages;
      allocation and block allocation keep the session invariant and place
      legally; persisting and reloading keeps the free addresses, each in its list but for
      the whole pages, which come back as raw.
    - Commits ([PagedCommitTheorems]): the plan of a tail never publishes live
      bytes, stays below the new end of allocation and cuts the file only over
      free space; errors are justified; adopting the plan restores the
      obligations of the next commit.
    - Sessions ([SessionTheorems]): the indexed free list refines the scalar one
      over any sequence of operations; a reservation batch is indistinguishable
      from scalar allocation; snapshots undo allocations.

    - Format ([FormatTheorems]): managers and messages that are written are read back, the
      header of a manager field by field;
      the writers succeed exactly on what their fields can hold; the parsers never panic
      on any bytes and return only what the header declares; the incremental and the
      zeroing checksum agree with the one-shot function.
    - Superblock and messages ([FormatTheorems]): a written superblock is found behind
      its userblock and read back; every message that is written is read back whatever
      follows it (the paths of an external link hold no NUL), and the writers accept exactly
      what the fields can hold; lookups by
      link name agree with the parser; dimensions and hard-link addresses can be changed in
      place; no bytes make a parser panic, and what it accepts is well formed.
    - Datatypes ([DatatypeTheorems]): the writer accepts exactly the datatypes a message can
      hold and what it writes is read back, at any depth; any bytes are refused or give a
      well-formed datatype; the slots of object references in an element are exact.
    - Object headers ([HeaderTheorems]): reading any bytes ends without a panic, cyclic
      continuations included; an encoded header without continuations is read back less its NIL
      messages, or refused for the first message of an unknown type that must be understood; a filter changes only which
      messages are kept; a source over a buffer gives what the buffer gives; splicing a
      record changes that record alone.
    - Groups ([HeaderTheorems]): the walk of a B-tree returns exactly the leaves of the trees
      of group nodes that hold what they count, with distinct nodes, decreasing levels and a cost
      within the limit, and refuses the others, cycles included; listings and lookups agree on the links of a group; no bytes make
      them panic; a source over a buffer gives what the buffer gives; a chunk node that parses
      has all its entries.
    - Global heaps ([GlobalHeapTheorems]): a walk ends on any bytes and visits exactly the
      records of a collection with distinct indices; encoded objects are read back in any
      order; a compaction keeps exactly the records that were not removed and the bytes outside
      its collection; of a batch each collection is compacted wholly or is as it was, whatever
      operation of the image fails, unless restoring it failed too: then only that collection
      can differ besides, the outcome is reported as uncertain, and the allocations refuse
      further use.
    - Publication ([Journals]): a reference is granted only to a range that was provisioned in
      a generation whose publication was completed, and while no outcome is uncertain.
    - Filters ([FilterTheorems]): every pipeline of shuffle, LZF, Deflate and Fletcher32, also
      behind one integer scale-offset filter, restores its chunk, whatever the scratch state was
      used for before; decoding any bytes returns within the bounds; LZF, shuffle, Fletcher32
      and integer scale-offset are exact; inflating makes progress until it ends.  Two limits of
      the platform are hypotheses of these results, since the code panics beyond them: the
      bounds of Deflate are below [isize::MAX], where [resize_exact] panics, and the bits of a
      scale-offset payload can be counted in a [usize], which a payload of 512 MiB exceeds on a
      32-bit target ([read_past_usize] in [BitPacking]).

    ** Recursion bounds

    Loops that are not structural take fuel: [merge_lists] the number of extents
    of all lists (each step emits one); [sweep] the tracked and returned extents
    (each step consumes one); [release_rounds] the pending extents and one (each
    round but the last records one); [run_queue] three visits per extent and one
    (a visit leaves the queue or records an extent, and a record queues at most
    two); the merging iterators the sum of the lengths of their inputs; [visit_sets] and
    [visit_set] the sections still to be read; the LZF loops the bytes still to be read;
    [streaming_loop] the input, output and window growth that are left, one of which
    every turn uses up ([streaming_fuel]); [search_loop] the 56 candidate addresses of a
    64-bit file; [V1.collect_loop] the bytes of the records and one, and its continuations
    33 levels, one more than the depth the code allows; [V2.records_from] the bytes of the
    region and one; [V2.continuation_loop] 257 turns, one more than the continuations the
    worklist accepts; the walk of a B-tree one turn more than its work limit of 2^24, since
    every turn but the last is charged (the turns are counted in binary, by [turns]);
    [parse_within] the bytes of the message and one, since a datatype inside another starts
    eight bytes later at least; the walks of a global heap [WALK_TURNS] = 65537 turns, one for
    each index an object can have, once, and one for the free space behind them; [copy_loop] the
    bytes of the record; the UTF-8 loops the bytes of the text.  In the format and filter files running out
    of fuel is a panic, so that a result proved with [⇝] needs enough of it.  The
    specification lemmas prove the result for exactly this fuel, so none of the
    theorems is about a run that gave up.

    ** Not modelled

    The facade crate (file I/O, readers, editors, SWMR, repack) but for the superblock
    search, the groups above, of which the listings through a source, the owned links and
    the walk of a chunk tree are left, and the global heaps and journal above, of which the
    failure to reserve memory, the state of a reader after a failed call and the content of an
    image after its pending writes were discarded are left; of the format crate the allocation
    and reference counts of object headers, version 2 B-trees, fractal heaps and chunk indexes,
    the builders of numeric datatypes and the fractal-heap client of the free-space header; of the filter crate ZFP,
    an optional feature with a transform codec of its own, and the capacities of buffers,
    which no result depends on but for the comparison in [recycle_larger], a parameter, and the
    panic of [resize_exact], which is modelled; other failures to allocate memory;
    [Display] and [Error] implementations, but for the messages that are part of an error
    value; the [AdmissionWork] counters, which only tests observe; tests, benches and fuzz
    targets.  The next candidates are the data layout message and the chunk indexes, then
    version 2 B-trees and fractal heaps, on the same field layer.

    ** This file

    Machine integers, [result] and [outcome] with their lemmas, and the tactics
    and hint databases the other files share. *)

From Stdlib Require Export ZArith Lia ZifyBool.
From stdpp Require Export base numbers option list sorting.

#[global] Open Scope Z_scope.

(** ** Machine integers

    A [u64] is a [Z] between [0] and [U64_MAX].  The checked operations are
    the ones of Rust's standard library: [None] on overflow. *)

Definition U64_MAX : Z := 18446744073709551615.

Definition u64 (z : Z) : Prop := 0 ≤ z ≤ U64_MAX.

Definition checked_add (a b : Z) : option Z :=
  if a + b <=? U64_MAX then Some (a + b) else None.

Definition checked_sub (a b : Z) : option Z :=
  if b <=? a then Some (a - b) else None.

Definition checked_mul (a b : Z) : option Z :=
  if a * b <=? U64_MAX then Some (a * b) else None.

Definition checked_next_multiple_of (a b : Z) : option Z :=
  if b =? 0 then None
  else if a mod b =? 0 then Some a
  else checked_add a (b - a mod b).

Definition is_multiple_of (a b : Z) : bool :=
  if b =? 0 then a =? 0 else a mod b =? 0.

Definition saturating_add (a b : Z) : Z := Z.min (a + b) U64_MAX.

(** ** Fallible and panicking computations

    [result] is Rust's [Result].  [outcome] is the result of running code that
    may panic ([expect], [assert!], indexing); [Panic] absorbs everything that
    follows it, as unwinding does. *)

Inductive result (A E : Type) : Type :=
| Ok (a : A)
| Err (e : E).

Arguments Ok {A E} a.
Arguments Err {A E} e.

Inductive outcome (A : Type) : Type :=
| Ret (a : A)
| Panic.

Arguments Ret {A} a.
Arguments Panic {A}.

#[global] Instance outcome_ret : MRet outcome := @Ret.

#[global] Instance outcome_bind : MBind outcome := λ A B f m,
  match m with Ret a => f a | Panic => Panic end.

#[global] Instance outcome_fmap : FMap outcome := λ A B f m,
  match m with Ret a => Ret (f a) | Panic => Panic end.

(** [Option::expect]. *)
Definition expect {A} (o : option A) : outcome A :=
  match o with Some a => Ret a | None => Panic end.

(** [Result::expect]. *)
Definition expect_ok {A E} (r : result A E) : outcome A :=
  match r with Ok a => Ret a | Err _ => Panic end.

(** [assert!]. *)
Definition assert_ (b : bool) : outcome unit :=
  if b then Ret tt else Panic.

(** The build profile: [debug_assert!] is checked in debug builds and absent
    from release builds.  Every operation that uses one is stated for both. *)
Class Profile := debug_assertions : bool.

Definition debug_assert `{Profile} (b : bool) : outcome unit :=
  if debug_assertions then assert_ b else Ret tt.

(** The [?] operator inside a function that returns [Result] and may panic. *)
Definition try_ {A B E} (r : result A E) (k : A → outcome (result B E))
    : outcome (result B E) :=
  match r with Ok a => k a | Err e => Ret (Err e) end.

Definition ok_or {A E} (o : option A) (e : E) : result A E :=
  match o with Some a => Ok a | None => Err e end.

Definition result_map {A B E} (f : A → B) (r : result A E) : result B E :=
  match r with Ok a => Ok (f a) | Err e => Err e end.

Definition result_bind {A B E} (r : result A E) (k : A → result B E) : result B E :=
  match r with Ok a => k a | Err e => Err e end.

Definition result_ok {A E} (r : result A E) : option A :=
  match r with Ok a => Some a | Err _ => None end.

(** [returns m Q]: [m] does not panic and its value satisfies [Q]. *)
Definition returns {A} (m : outcome A) (Q : A → Prop) : Prop :=
  ∃ a, m = Ret a ∧ Q a.

Declare Scope outcome_scope.
Notation "m ⇝ Q" := (returns m Q) (at level 70, no associativity) : outcome_scope.
#[global] Open Scope outcome_scope.

(** ** Lemmas on machine integers *)

Create Rewrite HintDb u64.

Section MachineIntegers.

Lemma checked_add_Some (a b c : Z) :
  checked_add a b = Some c ↔ c = a + b ∧ a + b ≤ U64_MAX.
Proof. unfold checked_add. destruct (a + b <=? U64_MAX) eqn:E; naive_solver lia. Qed.

Lemma checked_add_None (a b : Z) : checked_add a b = None ↔ U64_MAX < a + b.
Proof. unfold checked_add. destruct (a + b <=? U64_MAX) eqn:E; naive_solver lia. Qed.

Lemma checked_sub_Some (a b c : Z) :
  checked_sub a b = Some c ↔ c = a - b ∧ b ≤ a.
Proof. unfold checked_sub. destruct (b <=? a) eqn:E; naive_solver lia. Qed.

Lemma checked_sub_None (a b : Z) : checked_sub a b = None ↔ a < b.
Proof. unfold checked_sub. destruct (b <=? a) eqn:E; naive_solver lia. Qed.

Lemma checked_mul_Some (a b c : Z) :
  checked_mul a b = Some c ↔ c = a * b ∧ a * b ≤ U64_MAX.
Proof. unfold checked_mul. destruct (a * b <=? U64_MAX) eqn:E; naive_solver lia. Qed.

(** The next multiple is the least multiple of [b] at or above [a]. *)
Lemma checked_next_multiple_of_Some (a b c : Z) :
  0 < b → 0 ≤ a →
  checked_next_multiple_of a b = Some c ↔
  a ≤ c < a + b ∧ c mod b = 0 ∧ (a ≤ U64_MAX → c ≤ U64_MAX) ∧ (U64_MAX < a → c = a).
Proof.
  intros Hb Ha. unfold checked_next_multiple_of.
  pose proof (Z.mod_pos_bound a b Hb) as Hm.
  pose proof (Z.div_mod a b ltac:(lia)) as Hd.
  destruct (b =? 0) eqn:E0; [lia|].
  assert (Huniq : ∀ c, a ≤ c < a + b → c mod b = 0 →
    (a mod b = 0 ∧ c = a) ∨ (a mod b ≠ 0 ∧ c = a + (b - a mod b))).
  { intros c' Hc1 Hc2. pose proof (Z.div_mod c' b ltac:(lia)) as Hc3.
    rewrite Hc2 in Hc3.
    destruct (decide (a mod b = 0)) as [e|ne]; [left|right]; split; try done.
    - assert (c' / b = a / b) by nia. lia.
    - assert (c' / b = a / b + 1) by nia. nia. }
  destruct (a mod b =? 0) eqn:E1.
  - split; [intros [= <-]; lia|].
    intros (H1 & H2 & _). destruct (Huniq c H1 H2) as [[_ ->]|[? _]]; [done|lia].
  - rewrite checked_add_Some. split.
    + intros [-> Hle]. split_and!; try lia.
      replace (a + (b - a mod b)) with ((a / b + 1) * b) by lia.
      apply Z.mod_mul. lia.
    + intros (H1 & H2 & H3 & H4).
      destruct (Huniq c H1 H2) as [[? _]|[_ ->]]; [lia|]. split; [done|].
      destruct (Z.le_gt_cases a U64_MAX); [by apply H3|lia].
Qed.

Lemma checked_next_multiple_of_None (a b : Z) :
  0 < b → 0 ≤ a →
  checked_next_multiple_of a b = None ↔ a mod b ≠ 0 ∧ U64_MAX < a + (b - a mod b).
Proof.
  intros Hb Ha. unfold checked_next_multiple_of.
  destruct (b =? 0) eqn:E0; [lia|].
  destruct (a mod b =? 0) eqn:E1; [naive_solver lia|].
  rewrite checked_add_None. lia.
Qed.

Lemma is_multiple_of_true (a b : Z) : 0 < b → is_multiple_of a b = true ↔ a mod b = 0.
Proof. intros Hb. unfold is_multiple_of. destruct (b =? 0) eqn:E; lia. Qed.

(** No multiple of [b] lies strictly between two consecutive ones. *)
Lemma multiple_le_of_lt (a c b : Z) :
  0 < b → a mod b = 0 → c mod b = 0 → a < c → a + b ≤ c.
Proof.
  intros Hb Ha Hc Hlt.
  pose proof (Z.div_mod a b ltac:(lia)) as Ea. pose proof (Z.div_mod c b ltac:(lia)) as Ec.
  rewrite Ha in Ea. rewrite Hc in Ec. assert (a / b < c / b) by nia. nia.
Qed.

Lemma div_mul_multiple (a b : Z) : 0 < b → (a / b * b) mod b = 0.
Proof. intros. apply Z.mod_mul. lia. Qed.

Lemma div_mul_bounds (a b : Z) : 0 < b → a / b * b ≤ a < a / b * b + b.
Proof.
  intros Hb. pose proof (Z.mod_pos_bound a b Hb). pose proof (Z.div_mod a b ltac:(lia)). lia.
Qed.

End MachineIntegers.

#[global] Hint Rewrite checked_add_Some checked_add_None checked_sub_Some
  checked_sub_None checked_mul_Some : u64.

(** ** Lemmas on panicking computations *)

Section Outcomes.
Context {A B E : Type}.

Lemma returns_ret (a : A) (Q : A → Prop) : Q a → Ret a ⇝ Q.
Proof. intros HQ. by exists a. Qed.

Lemma returns_bind (m : outcome A) (k : A → outcome B) P Q :
  m ⇝ P → (∀ a, P a → k a ⇝ Q) → (m ≫= k) ⇝ Q.
Proof. intros (a & -> & HP) Hk. exact (Hk a HP). Qed.

Lemma returns_mono (m : outcome A) (P Q : A → Prop) :
  m ⇝ P → (∀ a, P a → Q a) → m ⇝ Q.
Proof. intros (a & -> & HP) HPQ. exists a. auto. Qed.

Lemma returns_conj (m : outcome A) (P Q : A → Prop) :
  m ⇝ P → m ⇝ Q → m ⇝ (λ a, P a ∧ Q a).
Proof. intros (a & -> & HP) (a' & [= <-] & HQ). by exists a. Qed.

(** One step of execution: what a bind does after its first computation. *)
Lemma step_expect (o : option A) (a : A) (k : A → outcome B) (Q : B → Prop) :
  o = Some a → k a ⇝ Q → (expect o ≫= k) ⇝ Q.
Proof. by intros ->. Qed.

Lemma step_expect_ok (r : result A E) (a : A) (k : A → outcome B) (Q : B → Prop) :
  r = Ok a → k a ⇝ Q → (expect_ok r ≫= k) ⇝ Q.
Proof. by intros ->. Qed.

Lemma step_assert (b : bool) (k : unit → outcome B) (Q : B → Prop) :
  b = true → k tt ⇝ Q → (assert_ b ≫= k) ⇝ Q.
Proof. by intros ->. Qed.

Lemma step_debug `{Profile} (b : bool) (k : unit → outcome B) (Q : B → Prop) :
  (debug_assertions = true → b = true) → k tt ⇝ Q → (debug_assert b ≫= k) ⇝ Q.
Proof.
  intros Hb HQ. unfold debug_assert. destruct debug_assertions; [|done].
  by rewrite (Hb eq_refl).
Qed.

Lemma step_ret (a : A) (k : A → outcome B) (Q : B → Prop) :
  k a ⇝ Q → (Ret a ≫= k) ⇝ Q.
Proof. done. Qed.

Lemma returns_eq (m : outcome A) (a : A) (Q : A → Prop) : m = Ret a → m ⇝ Q → Q a.
Proof. intros -> (a' & [= <-] & HQ). done. Qed.

Lemma returns_Ret_inv (a : A) (Q : A → Prop) : Ret a ⇝ Q → Q a.
Proof. intros (a' & [= <-] & HQ). done. Qed.

End Outcomes.

(** ** Lemmas on lists *)

Section Lists.
Context {A : Type} (R : A → A → Prop).

Lemma StronglySorted_cons_iff (x : A) (l : list A) :
  StronglySorted R (x :: l) ↔ Forall (R x) l ∧ StronglySorted R l.
Proof. split; [by inversion 1|intros []; by constructor]. Qed.

Lemma StronglySorted_app_iff (l1 l2 : list A) :
  StronglySorted R (l1 ++ l2) ↔
  StronglySorted R l1 ∧ StronglySorted R l2 ∧ (∀ x y, x ∈ l1 → y ∈ l2 → R x y).
Proof.
  induction l1 as [|x l1 IH]; simpl.
  - split; [intros; split_and!; [constructor|done|intros ?? []%not_elem_of_nil]|naive_solver].
  - rewrite !StronglySorted_cons_iff, IH, Forall_app, !Forall_forall.
    setoid_rewrite elem_of_cons. naive_solver.
Qed.

End Lists.

(** The elements of a list for which [f] holds up to the first that fails, and
    the rest: a [while] loop that advances an index. *)
Fixpoint span {A} (f : A → bool) (l : list A) : list A * list A :=
  match l with
  | [] => ([], [])
  | x :: l' => if f x then let '(p, q) := span f l' in (x :: p, q) else ([], l)
  end.

Lemma span_spec {A} (f : A → bool) (l p q : list A) :
  span f l = (p, q) →
  l = p ++ q ∧ Forall (λ x, f x = true) p ∧ (∀ x q', q = x :: q' → f x = false).
Proof.
  revert p q. induction l as [|x l IH]; simpl; intros p q.
  - intros [= <- <-]. naive_solver.
  - destruct (f x) eqn:E.
    + destruct (span f l) as [p' q']. intros [= <- <-].
      destruct (IH p' q' eq_refl) as (-> & ? & ?). naive_solver.
    + intros [= <- <-]. split_and!; [done|done|]. by intros ?? [= <- <-].
Qed.

(** Sum of a measure over a list. *)
Definition sum_of {A} (f : A → Z) (l : list A) : Z := foldr (λ x acc, f x + acc) 0 l.

Lemma sum_of_cons {A} (f : A → Z) x l : sum_of f (x :: l) = f x + sum_of f l.
Proof. done. Qed.

Lemma sum_of_app {A} (f : A → Z) l1 l2 : sum_of f (l1 ++ l2) = sum_of f l1 + sum_of f l2.
Proof.
  induction l1 as [|x l1 IH]; [done|].
  rewrite <- app_comm_cons, !sum_of_cons, IH. lia.
Qed.

Lemma sum_of_Permutation {A} (f : A → Z) l1 l2 : l1 ≡ₚ l2 → sum_of f l1 = sum_of f l2.
Proof. induction 1; rewrite ?sum_of_cons; lia. Qed.

Lemma sum_of_nonneg {A} (f : A → Z) l : (∀ x, 0 ≤ f x) → 0 ≤ sum_of f l.
Proof.
  intros Hf. induction l as [|x l IH]; [done|]. rewrite sum_of_cons. specialize (Hf x). lia.
Qed.

(** Rewriting a boolean test into the comparison it decides. *)
Ltac zbool :=
  repeat match goal with
  | H : (_ && _) = true |- _ => apply andb_true_iff in H as [? ?]
  | H : (_ || _) = false |- _ => apply orb_false_iff in H as [? ?]
  | H : context [if ?b then _ else _] |- _ => let E := fresh "E" in destruct b eqn:E
  | |- context [if ?b then _ else _] => let E := fresh "E" in destruct b eqn:E
  end.
