(* ===== verification/Addresses.v ===== *)
(** * Addresses, address ranges and byte quantities

    Models the coordinate and quantity types of [hdf5-pure-core]:
    [address.rs] (stored, physical and base addresses), [address_range.rs]
    (checked intervals), [width.rs] (encoded widths), [quantity/mod.rs] (byte
    lengths) and the file-space configuration of [file_space_info.rs].

    A newtype around [u64] is represented by its [Z] payload; the functions
    that convert between coordinate systems keep the Rust names. *)

From S2P Require Import Prelude.
From stdpp Require Import strings.

Local Open Scope Z_scope.

(** ** Errors *)

(** [core::str::Utf8Error] *)
Record Utf8Error : Type := mkUtf8Error {
  valid_up_to : Z;
  error_len : option Z;
}.

#[global] Instance Utf8Error_eq_dec : EqDecision Utf8Error.
Proof. solve_decision. Defined.

(** [DatatypeByteOrder] and [FloatingPointField] of the datatype module *)
Inductive DatatypeByteOrder : Type := LittleEndian | BigEndian | Vax.

#[global] Instance DatatypeByteOrder_eq_dec : EqDecision DatatypeByteOrder.
Proof. solve_decision. Defined.

Inductive FloatingPointField : Type := FieldSign | FieldExponent | FieldMantissa.

#[global] Instance FloatingPointField_eq_dec : EqDecision FloatingPointField.
Proof. solve_decision. Defined.

(** The constructors of [FormatError] raised by the modelled code. *)
Inductive FormatError : Type :=
| AddressBelowBase (address base : Z)
| AddressTooLarge (address offset_size : Z)
| AttributeFieldTooLong (name : list Z) (field : string) (size limit : Z)
| ChecksumMismatch (expected computed : Z)
| ChunkElementSizeMismatch (datatype layout : Z)
| ChunkedReadError (message : string)
| ComplexSizeOverflow (component_size : Z)
| CompoundArraySizeOverflow (size extent : Z)
| CompoundFieldOutOfBounds (name : list Z) (offset field_size compound_size : Z)
| DefinedAddressIsUndefined (address offset_size : Z)
| DuplicateGlobalHeapObjectIndex (collection_address index : Z)
| ExtensibleArrayBlockCount (expected actual : Z)
| ExtensibleArraySlotBounds (slot slots : Z)
| FileRegionLengthMismatch (range_length bytes_length : Z)
| FixedArrayBlockOverlap (header data_block : Z)
| FixedArrayEntryCount (expected actual : Z)
| GlobalHeapCollectionTooSmall (collection_address size : Z)
| GlobalHeapObjectNotFound (collection_address index : Z)
| GlobalHeapObjectOutsideCollection (address index collection_end : Z)
| InsufficientRegion (required_start required_length provided_start provided_length : Z)
| Internal (message : string)
| InvalidAttributeFlags (flags : Z)
| InvalidAttributeInfoVersion (version : Z)
| InvalidAttributeVersion (version : Z)
| InvalidBTreeNodeType (kind : Z)
| InvalidBTreeSignature
| InvalidBTreeV2Signature
| InvalidBTreeV2Version (version : Z)
| InvalidCharacterSet (code : Z)
| InvalidChunkGeometry (reason : string)
| InvalidChunkIndexType (kind : Z)
| InvalidComplexFlags (flags : Z)
| InvalidComplexParent (class : Z)
| InvalidComplexParentFlags (version flags : Z)
| InvalidComplexSize (size component_size : Z)
| InvalidCompoundV1Extent (dimension : Z)
| InvalidCompoundV1Rank (rank : Z)
| InvalidCustomFilterId (id : Z)
| InvalidDataspaceType (kind : Z)
| InvalidDataspaceVersion (version : Z)
| InvalidDatatypeClass (class : Z)
| InvalidDatatypeVersion (class version : Z)
| InvalidDeflateLevel (level : Z)
| InvalidExtensibleArrayBlockClient (expected actual : Z)
| InvalidExtensibleArrayBlockOffset (expected actual : Z)
| InvalidExtensibleArrayBlockOwner (expected actual : Z)
| InvalidExtensibleArrayClient (client : Z)
| InvalidExtensibleArrayGeometry
| InvalidExtensibleArraySignature
| InvalidExtensibleArrayVersion (version : Z)
| InvalidFileSpacePageSize (size : Z)
| InvalidFileSpaceStrategy (code : Z)
| InvalidFillTime (code : Z)
| InvalidFillValueDefined (value : Z)
| InvalidFillValueFlags (flags : Z)
| InvalidFillValueMessageType (kind : Z)
| InvalidFilterId (id : Z)
| InvalidFilterName (filter_id : Z) (reason : string)
| InvalidFilterParameterCount (filter_id expected actual : Z)
| InvalidFilterPipelineField (field : string) (value maximum : Z)
| InvalidFilterPipelineVersion (version : Z)
| InvalidFixedArrayBlockClient (expected actual : Z)
| InvalidFixedArrayBlockOwner (expected actual : Z)
| InvalidFixedArrayClient (client : Z)
| InvalidFixedArrayGeometry
| InvalidFixedArraySignature
| InvalidFixedArrayVersion (version : Z)
| InvalidFixedPointRange (size bit_offset bit_precision : Z)
| InvalidFloatingPointField (field : FloatingPointField) (location size bit_offset bit_precision : Z)
| InvalidFloatingPointRange (size bit_offset bit_precision : Z)
| InvalidFreeSpaceManager (message : string)
| InvalidFreeSpaceSectionCounts (sections size_groups : Z)
| InvalidGlobalHeapSignature
| InvalidGlobalHeapVersion (version : Z)
| InvalidGroupLeafNodeK
| InvalidLayoutClass (class : Z)
| InvalidLayoutVersion (version : Z)
| InvalidLengthSize (size : Z)
| InvalidLinkInfoVersion (version : Z)
| InvalidLinkType (kind : Z)
| InvalidLinkVersion (version : Z)
| InvalidLocalHeapName (offset : Z) (source : Utf8Error)
| InvalidLocalHeapNameOffset (offset data_segment_size : Z)
| InvalidLocalHeapSignature
| InvalidLocalHeapVersion (version : Z)
| InvalidMantissaNormalization (code : Z)
| InvalidNumericBitRange (class size bit_offset bit_precision : Z)
| InvalidNumericByteOrder (class : Z) (byte_order : DatatypeByteOrder)
| InvalidObjectHeaderMessageSize (size : Z)
| InvalidObjectHeaderSignature
| InvalidObjectHeaderVersion (version : Z)
| InvalidOffsetSize (size : Z)
| InvalidOpaqueReservedBits (bits : Z)
| InvalidOpaqueTagByte (offset byte : Z)
| InvalidOpaqueTagLength (length : Z)
| InvalidOpaqueTagPadding (offset byte : Z)
| InvalidReferenceType (kind : Z)
| InvalidScaleOffsetByteOrder (order : Z)
| InvalidScaleOffsetElementCount (count : Z)
| InvalidScaleOffsetElementSize (size : Z)
| InvalidScaleOffsetFillAvailability (value : Z)
| InvalidScaleOffsetFloatSize (size : Z)
| InvalidScaleOffsetIntegerPrecision (bits element_size : Z)
| InvalidScaleOffsetIntegerSign (sign : Z)
| InvalidScaleOffsetMode (mode class : Z)
| InvalidSharedMessageVersion (version : Z)
| InvalidShuffleElementSize (size : Z)
| InvalidSoftLinkEncoding (source : Utf8Error)
| InvalidSpaceAllocationTime (value : Z)
| InvalidStringPadding (padding : Z)
| InvalidSymbolTableCacheType (cache_type : Z)
| InvalidSymbolTableNodeSignature
| InvalidSymbolTableNodeSymbolCount (symbols capacity : Z)
| InvalidSymbolTableNodeVersion (version : Z)
| InvalidUserblockSize (size : Z)
| InvalidVariableLengthReservedBits (bits : Z)
| InvalidVariableLengthSequenceMetadata (padding charset : Z)
| InvalidVariableLengthSubtype (subtype : Z)
| LengthTooLarge (length length_size : Z)
| MisplacedGlobalHeapFreeSpace (address size collection_end : Z)
| NestingDepthExceeded
| ObjectHeaderMessageTooLarge (message_type size : Z)
| OffsetOverflow (offset length : Z)
| OpaqueTagTooLong (length : Z)
| OverlappingFloatingPointFields (first second : FloatingPointField) (first_location first_size second_location second_size : Z)
| ResourceLimit (limit required : Z)
| SharedMessageMissing (object_header_address message_type : Z)
| SignatureNotFound
| SuperblockStatusFlagsTooWide (bits : Z)
| TruncatedFile (expected_eof actual_len : Z)
| UnalignedGlobalHeapCollection (collection_address size : Z)
| UndefinedContinuationAddress
| UndefinedLocalHeapDataSegment
| UnexpectedEof (expected available : Z)
| UnexpectedSourceEof (expected available : Z)
| UnresolvedSharedMessage (message_type : Z)
| UnsupportedComplexForm (homogeneous : bool) (form : Z)
| UnsupportedCompoundV1Permutation (permutation : Z)
| UnsupportedFileSpaceInfoVersion (version : Z)
| UnsupportedFillValueVersion (version : Z)
| UnsupportedMessage (message_type : Z)
| UnsupportedSohmReference
| UnsupportedVersion (version : Z)
| UnsupportedVirtualLayout
| UnterminatedLocalHeapName (offset : Z)
| ValueTooLargeForPlatform (value : Z) (target : string)
| ValueTooLargeForRepresentation (value : Z) (target : string)
| VlDataError (message : string)
| WrongLayout
| ZeroSizedDatatype (class : Z).

#[global] Instance FormatError_eq_dec : EqDecision FormatError.
Proof. solve_decision. Defined.

(** ** Encoded widths *)

Inductive OffsetWidth : Type := OffsetTwo | OffsetFour | OffsetEight.

Module OffsetWidth.

Definition get (w : OffsetWidth) : Z :=
  match w with OffsetTwo => 2 | OffsetFour => 4 | OffsetEight => 8 end.

Definition try_from (size : Z) : result OffsetWidth FormatError :=
  if size =? 2 then Ok OffsetTwo
  else if size =? 4 then Ok OffsetFour
  else if size =? 8 then Ok OffsetEight
  else Err (InvalidOffsetSize size).

End OffsetWidth.

Inductive LengthWidth : Type := LengthTwo | LengthFour | LengthEight.

Module LengthWidth.

Definition get (w : LengthWidth) : Z :=
  match w with LengthTwo => 2 | LengthFour => 4 | LengthEight => 8 end.

Definition try_from (size : Z) : result LengthWidth FormatError :=
  if size =? 2 then Ok LengthTwo
  else if size =? 4 then Ok LengthFour
  else if size =? 8 then Ok LengthEight
  else Err (InvalidLengthSize size).

End LengthWidth.

(** ** Address arithmetic

    One blanket implementation serves [StoredAddress] and [PhysicalAddress]. *)

Module Address.

Definition checked_add (self length : Z) : result Z FormatError :=
  ok_or (Prelude.checked_add self length) (OffsetOverflow self length).

Definition checked_sub (self length : Z) : option Z := Prelude.checked_sub self length.

Definition distance_from (self earlier : Z) : option Z := Prelude.checked_sub self earlier.

End Address.

Module StoredAddress.

Definition ZERO : Z := 0.

Definition undefined (w : OffsetWidth) : Z :=
  match w with
  | OffsetTwo => 0xFFFF
  | OffsetFour => 0xFFFFFFFF
  | OffsetEight => U64_MAX
  end.

Definition is_undefined (self : Z) (w : OffsetWidth) : bool := self =? undefined w.

End StoredAddress.

Module BaseAddress.

Definition ZERO : Z := 0.

Definition is_zero (self : Z) : bool := self =? 0.

Definition resolve (self stored : Z) : result Z FormatError :=
  ok_or (checked_add stored self) (OffsetOverflow stored self).

Definition relative (self at_ : Z) : result Z FormatError :=
  ok_or (checked_sub at_ self) (AddressBelowBase at_ self).

End BaseAddress.

(** ** Checked intervals *)

(** The endpoints of an [AddressRange] are ordered by construction; the field
    [range_ordered] is the invariant Rust keeps by making the fields private. *)
Record AddressRange : Type := mkAddressRange {
  range_start : Z;
  range_end : Z;
  range_ordered : (range_start <=? range_end) = true;
}.

Module AddressRange.

(** [Some] of the checked interval, [None] when the endpoints are reversed. *)
Definition ordered (s e : Z) : option AddressRange :=
  (if s <=? e as b return (s <=? e) = b → option AddressRange
   then λ H, Some (mkAddressRange s e H) else λ _, None) eq_refl.

Definition new (start length : Z) : outcome (result AddressRange FormatError) :=
  match Address.checked_add start length with
  | Err e => Ret (Err e)
  | Ok end_ => Ok <$> expect (ordered start end_)
  end.

(** The distance is computed with a checked subtraction whose underflow branch
    is a panic; [length_checked_ret] below shows that branch is dead. *)
Definition length_checked (r : AddressRange) : outcome Z :=
  expect (Address.distance_from (range_end r) (range_start r)).

Definition length (r : AddressRange) : Z := range_end r - range_start r.

Definition is_empty (r : AddressRange) : bool := range_start r =? range_end r.

Definition contains (self required : AddressRange) : bool :=
  (range_start self <=? range_start required) && (range_end required <=? range_end self).

Definition overlaps (self other : AddressRange) : bool :=
  negb (is_empty self) && negb (is_empty other)
  && (range_start self <? range_end other) && (range_start other <? range_end self).

Definition intersection (self other : AddressRange) : option AddressRange :=
  let start := Z.max (range_start self) (range_start other) in
  let end_ := Z.min (range_end self) (range_end other) in
  if start <? end_ then ordered start end_ else None.

Definition adjoins (self other : AddressRange) : bool :=
  (range_end self =? range_start other) || (range_end other =? range_start self).

Definition precedes (self other : AddressRange) : bool :=
  range_end self <=? range_start other.

End AddressRange.

(** The test [NonEmptyRange::new] performs on a start and a length: the length
    is a nonzero [u64] and the exclusive end is representable. *)
Definition range_valid (start length : Z) : bool :=
  (0 <=? start) && (0 <? length) && (start + length <=? U64_MAX).

Record NonEmptyRange : Type := mkRange {
  ne_start : Z;
  ne_length : Z;
  ne_valid : range_valid ne_start ne_length = true;
}.

Module NonEmptyRange.

Definition new (start length : Z) : option NonEmptyRange :=
  (if range_valid start length as b return range_valid start length = b → option NonEmptyRange
   then λ H, Some (mkRange start length H) else λ _, None) eq_refl.

(** The end is recomputed with a checked addition whose overflow branch is a
    panic; [end_checked] below shows that branch is dead. *)
Definition end_checked (r : NonEmptyRange) : outcome Z :=
  expect (result_ok (Address.checked_add (ne_start r) (ne_length r))).

Definition end_ (r : NonEmptyRange) : Z := ne_start r + ne_length r.

End NonEmptyRange.

(** ** Byte lengths and counts

    [ByteLength], [ElementCount], [SlotCount] and [ChunkSlot] wrap a [u64]. *)

Module ByteLength.

Definition is_zero (n : Z) : bool := n =? 0.

Definition nonzero (n : Z) : option Z := if n =? 0 then None else Some n.

Definition checked_add (self other : Z) : option Z := Prelude.checked_add self other.

Definition checked_sub (self other : Z) : option Z := Prelude.checked_sub self other.

Definition elements (self size : Z) : option Z :=
  if is_multiple_of self size then Some (self / size) else None.

End ByteLength.

Module ElementCount.

Definition checked_mul (self other : Z) : option Z := Prelude.checked_mul self other.

Definition chunks (self chunk : Z) : Z := (self + chunk - 1) / chunk.

End ElementCount.

Module ElementSize.

Definition byte_length (self count : Z) : option Z := Prelude.checked_mul self count.

End ElementSize.

Module ChunkSlot.

Definition checked_add (self count : Z) : option Z := Prelude.checked_add self count.

Definition checked_distance_from (self earlier : Z) : option Z :=
  Prelude.checked_sub self earlier.

End ChunkSlot.

(** ** File-space configuration *)

Inductive FileSpaceStrategy : Type := FsmAggr | Page | Aggr | NoStrategy.

#[global] Instance FileSpaceStrategy_eq_dec : EqDecision FileSpaceStrategy.
Proof. solve_decision. Defined.

Definition page_size_valid (size : Z) : bool := (512 <=? size) && (size <=? 1073741824).

Record FileSpacePageSize : Type := mkPageSize {
  page_bytes : Z;
  page_valid : page_size_valid page_bytes = true;
}.

Module FileSpacePageSize.

Definition get (p : FileSpacePageSize) : Z := page_bytes p.

Definition MIN : FileSpacePageSize := mkPageSize 512 eq_refl.

Definition MAX : FileSpacePageSize := mkPageSize 1073741824 eq_refl.

Definition DEFAULT : FileSpacePageSize := mkPageSize 4096 eq_refl.

Definition try_from (size : Z) : result FileSpacePageSize FormatError :=
  (if page_size_valid size as b
      return page_size_valid size = b → result FileSpacePageSize FormatError
   then λ H, Ok (mkPageSize size H)
   else λ _, Err (InvalidFileSpacePageSize size)) eq_refl.

End FileSpacePageSize.

Record FileSpaceSettings : Type := mkSettings {
  strategy : FileSpaceStrategy;
  persist : bool;
  threshold : Z;
  page_size : FileSpacePageSize;
}.

Module FileSpaceSettings.

Definition DEFAULT_THRESHOLD : Z := 1.

Definition new (s : FileSpaceStrategy) : FileSpaceSettings :=
  mkSettings s false DEFAULT_THRESHOLD FileSpacePageSize.DEFAULT.

Definition with_persistence (self : FileSpaceSettings) (p : bool) : FileSpaceSettings :=
  mkSettings (strategy self)
    (match strategy self with FsmAggr | Page => p | Aggr | NoStrategy => false end)
    (threshold self) (page_size self).

Definition with_threshold (self : FileSpaceSettings) (t : Z) : FileSpaceSettings :=
  mkSettings (strategy self) (persist self)
    (match strategy self with FsmAggr | Page => t | Aggr | NoStrategy => DEFAULT_THRESHOLD end)
    (page_size self).

Definition with_page_size (self : FileSpaceSettings) (p : FileSpacePageSize)
    : FileSpaceSettings :=
  mkSettings (strategy self) (persist self) (threshold self) p.

End FileSpaceSettings.

(** ** Elementary facts *)

Lemma range_valid_iff (s l : Z) :
  range_valid s l = true ↔ 0 ≤ s ∧ 0 < l ∧ s + l ≤ U64_MAX.
Proof. unfold range_valid. lia. Qed.

Lemma ne_bounds (r : NonEmptyRange) :
  0 ≤ ne_start r ∧ 0 < ne_length r ∧ ne_start r + ne_length r ≤ U64_MAX.
Proof. apply range_valid_iff, ne_valid. Qed.

Lemma bool_eq_pi (b : bool) (H1 H2 : b = true) : H1 = H2.
Proof. apply (proof_irrel (A := b = true)). Qed.

Lemma NonEmptyRange_eq (r1 r2 : NonEmptyRange) :
  ne_start r1 = ne_start r2 → ne_length r1 = ne_length r2 → r1 = r2.
Proof.
  destruct r1 as [s1 l1 H1], r2 as [s2 l2 H2]; simpl. intros -> ->.
  f_equal. apply bool_eq_pi.
Qed.

#[global] Instance NonEmptyRange_eq_dec : EqDecision NonEmptyRange.
Proof.
  intros r1 r2.
  destruct (decide (ne_start r1 = ne_start r2)), (decide (ne_length r1 = ne_length r2));
    [left; by apply NonEmptyRange_eq|right; congruence..].
Defined.

Lemma NonEmptyRange_new_Some (s l : Z) (r : NonEmptyRange) :
  NonEmptyRange.new s l = Some r ↔ ne_start r = s ∧ ne_length r = l.
Proof.
  unfold NonEmptyRange.new. split.
  - generalize (eq_refl (range_valid s l)).
    destruct (range_valid s l) at 2 3; intros H; [|done]. by intros [= <-].
  - intros [<- <-]. pose proof (ne_valid r) as Hv.
    generalize (eq_refl (range_valid (ne_start r) (ne_length r))).
    destruct (range_valid (ne_start r) (ne_length r)) at 2 3; intros H; [|congruence].
    f_equal. by apply NonEmptyRange_eq.
Qed.

Lemma NonEmptyRange_new_None (s l : Z) :
  NonEmptyRange.new s l = None ↔ ¬ (0 ≤ s ∧ 0 < l ∧ s + l ≤ U64_MAX).
Proof.
  rewrite <- range_valid_iff, not_true_iff_false. unfold NonEmptyRange.new.
  generalize (eq_refl (range_valid s l)).
  destruct (range_valid s l) at 2 3; intros H; [|done].
  split; [done|congruence].
Qed.

Lemma page_size_bounds (p : FileSpacePageSize) : 512 ≤ page_bytes p ≤ 1073741824.
Proof. pose proof (page_valid p) as H. unfold page_size_valid in H. lia. Qed.

Lemma page_size_pos (p : FileSpacePageSize) : 0 < page_bytes p.
Proof. pose proof (page_size_bounds p). lia. Qed.

(** The panic in [AddressRange::length] is unreachable. *)
Lemma length_checked_ret (r : AddressRange) :
  AddressRange.length_checked r = Ret (AddressRange.length r).
Proof.
  pose proof (range_ordered r) as Ho.
  unfold AddressRange.length_checked, Address.distance_from, Prelude.checked_sub.
  by rewrite Ho.
Qed.

Lemma AddressRange_ordered_Some (s e : Z) (r : AddressRange) :
  AddressRange.ordered s e = Some r → range_start r = s ∧ range_end r = e.
Proof.
  unfold AddressRange.ordered. generalize (eq_refl (s <=? e)).
  destruct (s <=? e) at 2 3; intros H; [|done]. by intros [= <-].
Qed.

Lemma AddressRange_ordered_is_Some (s e : Z) :
  s ≤ e → is_Some (AddressRange.ordered s e).
Proof.
  intros Hle. unfold AddressRange.ordered. generalize (eq_refl (s <=? e)).
  destruct (s <=? e) at 2 3; intros H; [by eexists|lia].
Qed.

(** The panic in [NonEmptyRange::end] is unreachable: the end is the sum. *)
Lemma end_checked_ret (r : NonEmptyRange) :
  NonEmptyRange.end_checked r = Ret (NonEmptyRange.end_ r).
Proof.
  pose proof (ne_bounds r) as (? & ? & ?).
  unfold NonEmptyRange.end_checked, Address.checked_add, NonEmptyRange.end_.
  unfold Prelude.checked_add. destruct (_ <=? _) eqn:E; [done|lia].
Qed.
