(* ===== verification/Words.v ===== *)
(** * Bytes, little-endian words and slices

    What the format and filter crates use of the language and its standard
    library: a [u8] is a [Z] below 256, a [&[u8]] or [Vec<u8>] a list of them,
    [to_le_bytes] and [from_le_bytes], slicing with and without a panic, and the
    [?] operator in code that may also panic.  No file of the program is modelled
    here. *)

From S2P Require Import Prelude Addresses.

Local Open Scope Z_scope.

(** ** The platform

    [usize] is as wide as the target's pointers. *)
Class Platform := {
  USIZE_MAX : Z;
  usize_bounds : 65535 ≤ USIZE_MAX ≤ U64_MAX;
}.

(** [usize::checked_add] and [usize::checked_mul] *)
Definition usize_checked_add `{Platform} (a b : Z) : option Z :=
  if a + b <=? USIZE_MAX then Some (a + b) else None.

Definition usize_checked_mul `{Platform} (a b : Z) : option Z :=
  if a * b <=? USIZE_MAX then Some (a * b) else None.

(** [usize::saturating_add] and [usize::saturating_mul] *)
Definition usize_saturating_add `{Platform} (a b : Z) : Z := Z.min (a + b) USIZE_MAX.

Definition usize_saturating_mul `{Platform} (a b : Z) : Z := Z.min (a * b) USIZE_MAX.

(** [isize::MAX], the most bytes an allocation can have. *)
Definition ISIZE_MAX `{Platform} : Z := USIZE_MAX / 2.

Lemma isize_bounds `{Platform} : 32767 ≤ ISIZE_MAX < USIZE_MAX.
Proof. unfold ISIZE_MAX. pose proof usize_bounds. pose proof (Z.div_mod USIZE_MAX 2). pose proof (Z.mod_pos_bound USIZE_MAX 2). lia. Qed.

(** An unchecked [usize] operation whose exact value is [v]: it panics in a build with
    overflow checks and wraps in the others. *)
Definition usize_op `{Platform} `{Profile} (v : Z) : outcome Z :=
  if (0 <=? v) && (v <=? USIZE_MAX) then Ret v
  else if debug_assertions then Panic else Ret (v mod (USIZE_MAX + 1)).

Lemma usize_op_in `{Platform} `{Profile} v : 0 ≤ v ≤ USIZE_MAX → usize_op v = Ret v.
Proof. intros Hv. unfold usize_op. by replace ((0 <=? v) && (v <=? USIZE_MAX)) with true by lia. Qed.

(** ** Fallible code that may panic *)

Notation exec A := (outcome (result A FormatError)).

(** [m?] followed by [k]. *)
Definition and_then {A B E} (m : outcome (result A E)) (k : A → outcome (result B E))
    : outcome (result B E) :=
  match m with
  | Ret (Ok a) => k a
  | Ret (Err e) => Ret (Err e)
  | Panic => Panic
  end.

Definition ok {A E} (a : A) : outcome (result A E) := Ret (Ok a).

Definition fail {A E} (e : E) : outcome (result A E) := Ret (Err e).

(** [if cond { return Err(e) }] *)
Definition guard_ {E} (b : bool) (e : E) : outcome (result unit E) :=
  if b then ok tt else fail e.

Notation "x ←? m ; k" := (and_then m (λ x, k))
  (at level 20, m at level 100, k at level 200, only parsing) : outcome_scope.
Notation "' p ←? m ; k" := (and_then m (λ p, k))
  (at level 20, p pattern, m at level 100, k at level 200, only parsing) : outcome_scope.

(** [m] does not panic, and a value it returns satisfies [Q]. *)
Definition sound {A E} (m : outcome (result A E)) (Q : A → Prop) : Prop :=
  m ⇝ (λ r, match r with Ok a => Q a | Err _ => True end).

Notation "m ⇝? Q" := (sound m Q) (at level 70, no associativity) : outcome_scope.

Section Exec.
Context {A B E : Type}.

Lemma and_then_ok (a : A) (k : A → outcome (result B E)) : and_then (ok a) k = k a.
Proof. done. Qed.

Lemma and_then_fail (e : E) (k : A → outcome (result B E)) : and_then (fail e) k = fail e.
Proof. done. Qed.

Lemma and_then_eq (m : outcome (result A E)) (a : A) (k : A → outcome (result B E)) :
  m = ok a → and_then m k = k a.
Proof. by intros ->. Qed.

(** Inversion of a computation that succeeded. *)
Lemma and_then_ok_inv (m : outcome (result A E)) (k : A → outcome (result B E)) (b : B) :
  and_then m k = ok b → ∃ a, m = ok a ∧ k a = ok b.
Proof. destruct m as [[a|e]|]; simpl; [eauto|discriminate..]. Qed.

Lemma guard_ok_inv (b : bool) (e : E) (u : unit) : guard_ b e = ok u → b = true.
Proof. destruct b; [done|discriminate]. Qed.

Lemma sound_ok (a : A) (Q : A → Prop) : Q a → sound (E := E) (ok a) Q.
Proof. intros HQ. by exists (Ok a). Qed.

Lemma sound_fail (e : E) (Q : A → Prop) : sound (fail e) Q.
Proof. by exists (Err e). Qed.

Lemma sound_bind (m : outcome (result A E)) (k : A → outcome (result B E)) P Q :
  m ⇝? P → (∀ a, P a → k a ⇝? Q) → and_then m k ⇝? Q.
Proof. intros ([a|e] & -> & HP) Hk; [exact (Hk a HP)|by exists (Err e)]. Qed.

Lemma sound_mono (m : outcome (result A E)) (P Q : A → Prop) :
  m ⇝? P → (∀ a, P a → Q a) → m ⇝? Q.
Proof. intros ([a|e] & -> & HP) HPQ; [exists (Ok a)|exists (Err e)]; auto. Qed.

Lemma sound_eq (m : outcome (result A E)) (a : A) (Q : A → Prop) : m ⇝? Q → m = ok a → Q a.
Proof. intros (r & -> & HQ) Heq. by injection Heq as ->. Qed.

Lemma sound_guard (b : bool) (e : E) (k : unit → outcome (result B E)) (Q : B → Prop) :
  (b = true → k tt ⇝? Q) → and_then (guard_ b e) k ⇝? Q.
Proof. intros Hk. destruct b; [by apply Hk|by exists (Err e)]. Qed.

Lemma sound_true (m : outcome (result A E)) (Q : A → Prop) : m ⇝? Q → m ⇝? (λ _, True).
Proof. intros H. by apply (sound_mono _ _ _ H). Qed.

End Exec.

(** ** Bytes *)

Definition byte (b : Z) : Prop := 0 ≤ b < 256.

(** [[u8]::len] *)
Definition zlen {A} (l : list A) : Z := Z.of_nat (length l).

(** [u16::to_le_bytes], [u32::to_le_bytes] and [u64::to_le_bytes] for two, four and
    eight bytes. *)
Fixpoint le_bytes (n : nat) (v : Z) : list Z :=
  match n with
  | O => []
  | S n => v mod 256 :: le_bytes n (v / 256)
  end.

(** [from_le_bytes] of an array of any length. *)
Fixpoint le_value (l : list Z) : Z :=
  match l with
  | [] => 0
  | b :: l => b + 256 * le_value l
  end.

Section Slices.
Context {A : Type}.

(** [slice.get(a..b)] *)
Definition get_range (l : list A) (a b : Z) : option (list A) :=
  if (0 <=? a) && (a <=? b) && (b <=? zlen l)
  then Some (take (Z.to_nat (b - a)) (drop (Z.to_nat a) l)) else None.

(** [slice.get(a..)] *)
Definition get_from (l : list A) (a : Z) : option (list A) := get_range l a (zlen l).

(** [slice[i]] *)
Definition index (l : list A) (i : Z) : outcome A :=
  if i <? 0 then Panic else expect (l !! Z.to_nat i).

(** [slice[a..b]] *)
Definition slice (l : list A) (a b : Z) : outcome (list A) := expect (get_range l a b).

(** [Vec::resize] *)
Definition vec_resize (l : list A) (n : nat) (x : A) : list A := take n l ++ replicate (n - length l) x.

(** [slice[pos..pos + n].copy_from_slice(src)] with [n = src.len()]. *)
Definition splice (l : list A) (pos : Z) (src : list A) : outcome (list A) :=
  match get_range l pos (pos + zlen src) with
  | Some _ =>
    Ret (take (Z.to_nat pos) l ++ src ++ drop (Z.to_nat pos + length src) l)
  | None => Panic
  end.

End Slices.

(** ** Lemmas *)

Lemma zlen_nonneg {A} (l : list A) : 0 ≤ zlen l.
Proof. unfold zlen. lia. Qed.

Lemma zlen_app {A} (l1 l2 : list A) : zlen (l1 ++ l2) = zlen l1 + zlen l2.
Proof. unfold zlen. rewrite length_app. lia. Qed.

Lemma zlen_cons {A} (x : A) l : zlen (x :: l) = 1 + zlen l.
Proof. unfold zlen. simpl. lia. Qed.

Lemma zlen_nil {A} : zlen (@nil A) = 0.
Proof. done. Qed.

Lemma zlen_take {A} (n : Z) (l : list A) : 0 ≤ n ≤ zlen l → zlen (take (Z.to_nat n) l) = n.
Proof. unfold zlen. rewrite length_take. lia. Qed.

Lemma zlen_drop {A} (n : Z) (l : list A) :
  0 ≤ n ≤ zlen l → zlen (drop (Z.to_nat n) l) = zlen l - n.
Proof. unfold zlen. rewrite length_drop. lia. Qed.

Lemma zlen_replicate {A} (n : nat) (x : A) : zlen (replicate n x) = Z.of_nat n.
Proof. unfold zlen. by rewrite length_replicate. Qed.

Lemma length_le_bytes n v : length (le_bytes n v) = n.
Proof. revert v. induction n as [|n IH]; intros v; simpl; [done|by rewrite IH]. Qed.

Lemma zlen_le_bytes n v : zlen (le_bytes n v) = Z.of_nat n.
Proof. unfold zlen. by rewrite length_le_bytes. Qed.

Lemma le_bytes_byte n v : Forall byte (le_bytes n v).
Proof.
  revert v. induction n as [|n IH]; intros v; simpl; constructor; [|apply IH].
  apply Z.mod_pos_bound. lia.
Qed.

Lemma pow256_succ (n : nat) : 256 ^ Z.of_nat (S n) = 256 * 256 ^ Z.of_nat n.
Proof. rewrite Nat2Z.inj_succ, Z.pow_succ_r; lia. Qed.

Lemma le_value_bytes_mod n v : le_value (le_bytes n v) = v mod 256 ^ Z.of_nat n.
Proof.
  revert v. induction n as [|n IH]; intros v; simpl le_bytes; simpl le_value.
  - by rewrite Z.mod_1_r.
  - rewrite IH, pow256_succ. symmetry. rewrite Z.rem_mul_r; lia.
Qed.

(** A value that fits its field is read back as written. *)
Lemma le_value_bytes n v : 0 ≤ v < 256 ^ Z.of_nat n → le_value (le_bytes n v) = v.
Proof. intros Hv. rewrite le_value_bytes_mod. by apply Z.mod_small. Qed.

Lemma le_value_bounds l : Forall byte l → 0 ≤ le_value l < 256 ^ zlen l.
Proof.
  unfold byte, zlen. induction 1 as [|b l Hb Hl IH]; [simpl; lia|].
  cbn [length le_value]. rewrite pow256_succ. lia.
Qed.

(** Bytes read as a word are written back unchanged. *)
Lemma le_bytes_value l : Forall byte l → le_bytes (length l) (le_value l) = l.
Proof.
  unfold byte. induction 1 as [|b l Hb Hl IH]; [done|]. cbn [length le_bytes le_value].
  replace (b + 256 * le_value l) with (le_value l * 256 + b) by lia.
  rewrite Z.div_add_l, (Z.div_small b 256), Z.add_0_r, IH by lia.
  rewrite (Z.add_comm _ b), Z.mod_add, Z.mod_small by lia. done.
Qed.

Lemma le_bytes_mod n v : le_bytes n (v mod 256 ^ Z.of_nat n) = le_bytes n v.
Proof.
  pose proof (le_bytes_value (le_bytes n v) (le_bytes_byte n v)) as H.
  by rewrite length_le_bytes, le_value_bytes_mod in H.
Qed.

Lemma take_le_bytes n m v : (m ≤ n)%nat → take m (le_bytes n v) = le_bytes m v.
Proof.
  revert n v. induction m as [|m IH]; intros n v Hle; [done|].
  destruct n as [|n]; [lia|]. simpl. f_equal. apply IH. lia.
Qed.

Lemma le_value_app l1 l2 : le_value (l1 ++ l2) = le_value l1 + 256 ^ zlen l1 * le_value l2.
Proof.
  unfold zlen. induction l1 as [|b l1 IH]; [simpl length; simpl; lia|].
  cbn [length le_value app]. rewrite IH, pow256_succ. lia.
Qed.

Section SliceLemmas.
Context {A : Type}.
Implicit Types (l : list A) (a b : Z).

Lemma get_range_Some l a b s :
  get_range l a b = Some s ↔
  0 ≤ a ≤ b ∧ b ≤ zlen l ∧ s = take (Z.to_nat (b - a)) (drop (Z.to_nat a) l).
Proof. unfold get_range. destruct (_ && _) eqn:E; naive_solver lia. Qed.

Lemma get_range_None l a b : get_range l a b = None ↔ ¬ (0 ≤ a ≤ b ∧ b ≤ zlen l).
Proof. unfold get_range. destruct (_ && _) eqn:E; naive_solver lia. Qed.

Lemma get_range_zlen l a b s : get_range l a b = Some s → zlen s = b - a.
Proof.
  intros (Hab & Hb & ->)%get_range_Some. unfold zlen in *. rewrite length_take, length_drop. lia.
Qed.

Lemma get_range_Forall P l a b s : Forall P l → get_range l a b = Some s → Forall P s.
Proof. intros Hl (_ & _ & ->)%get_range_Some. by apply Forall_take, Forall_drop. Qed.

Lemma get_range_app (p s r : list A) a b :
  a = zlen p → b = zlen p + zlen s → get_range (p ++ s ++ r) a b = Some s.
Proof.
  intros -> ->. unfold get_range. rewrite !zlen_app.
  pose proof (zlen_nonneg p). pose proof (zlen_nonneg s). pose proof (zlen_nonneg r).
  destruct (_ && _) eqn:E; [|lia]. f_equal. unfold zlen.
  replace (Z.to_nat (Z.of_nat (length p) + Z.of_nat (length s) - Z.of_nat (length p)))
    with (length s) by lia.
  rewrite Nat2Z.id, drop_app_length. apply take_app_length.
Qed.

Lemma get_range_prefix (s r : list A) : get_range (s ++ r) 0 (zlen s) = Some s.
Proof. by apply (get_range_app []). Qed.

Lemma get_range_split l a b s :
  get_range l a b = Some s →
  ∃ p r, l = p ++ s ++ r ∧ zlen p = a ∧ zlen s = b - a.
Proof.
  intros H. pose proof (get_range_zlen _ _ _ _ H) as Hs.
  apply get_range_Some in H as (Ha & Hb & ->).
  exists (take (Z.to_nat a) l), (drop (Z.to_nat (b - a)) (drop (Z.to_nat a) l)).
  split_and!; [by rewrite !take_drop|apply zlen_take; lia|done].
Qed.

Lemma index_Ret l i x : 0 ≤ i → l !! Z.to_nat i = Some x → index l i = Ret x.
Proof. intros Hi Hx. unfold index. rewrite Hx. by destruct (i <? 0) eqn:E; [lia|]. Qed.

Lemma splice_app (p s r t : list A) :
  length t = length s → splice (p ++ s ++ r) (zlen p) t = Ret (p ++ t ++ r).
Proof.
  intros Hl. unfold splice. rewrite get_range_app; [|done|unfold zlen; lia].
  unfold zlen. rewrite Nat2Z.id, take_app_length, Hl.
  by rewrite <- drop_drop, drop_app_length, drop_app_length.
Qed.

End SliceLemmas.

Create HintDb exec.
#[export] Hint Resolve sound_ok sound_fail : exec.
Create Rewrite HintDb zlen.
#[export] Hint Rewrite @zlen_app @zlen_cons @zlen_nil @zlen_le_bytes @zlen_replicate : zlen.

(** ** The bytes from a position on *)

Definition bytes_at {A} (l : list A) (pos : Z) (s : list A) : Prop := ∃ p, l = p ++ s ∧ zlen p = pos.

Lemma bytes_at_0 {A} (l : list A) : bytes_at l 0 l.
Proof. by exists []. Qed.

Lemma bytes_at_app {A} (l s r : list A) (pos n : Z) :
  bytes_at l pos (s ++ r) → zlen s = n →
  get_range l pos (pos + n) = Some s ∧ bytes_at l (pos + n) r.
Proof.
  intros (p & -> & <-) <-. split; [by apply get_range_app|].
  exists (p ++ s). by rewrite <- app_assoc, zlen_app.
Qed.

Lemma bytes_at_nonneg {A} (l s : list A) pos : bytes_at l pos s → 0 ≤ pos.
Proof. intros (p & _ & <-). apply zlen_nonneg. Qed.
