(* ===== verification/Extents.v ===== *)
(** * Extents

    Models [crates/hdf5-pure-space/src/extent.rs]: nonempty intervals of stored
    addresses.  The Rust struct wraps one [NonEmptyRange]; the model uses that
    record directly.  The second half gives each operation its arithmetic
    meaning, so that the clients reason with [lia] alone. *)

From S2P Require Import Prelude Addresses.

Local Open Scope Z_scope.

Notation Extent := NonEmptyRange.

Module Extent.

Definition new (start len : Z) : option Extent :=
  if len =? 0 then None else NonEmptyRange.new start len.

Definition between (start end_ : Z) : option Extent :=
  d ← Address.distance_from end_ start; new start d.

Definition start (e : Extent) : Z := ne_start e.

Definition end_ (e : Extent) : Z := NonEmptyRange.end_ e.

Definition len (e : Extent) : Z := ne_length e.

Definition is_empty (e : Extent) : bool := false.

Lemma range_ordered_of (e : Extent) : (start e <=? end_ e) = true.
Proof. pose proof (ne_bounds e). unfold start, end_, NonEmptyRange.end_. lia. Qed.

Definition range (e : Extent) : AddressRange :=
  mkAddressRange (start e) (end_ e) (range_ordered_of e).

Definition adjoins (self other : Extent) : bool :=
  AddressRange.adjoins (range self) (range other).

Definition adjoins_within (self other : Extent) (unit_ : Z) : bool :=
  ((end_ self =? start other) && negb (is_multiple_of (start other) unit_))
  || ((start self =? end_ other) && negb (is_multiple_of (end_ other) unit_)).

Definition adjoins_whole_unit (self other : Extent) (unit_ : Z) : bool :=
  (unit_ <=? len self)
  && (((end_ self =? start other) && is_multiple_of (start other) unit_)
      || ((start self =? end_ other) && is_multiple_of (end_ other) unit_)).

Definition intersection (self other : Extent) : option Extent :=
  common ← AddressRange.intersection (range self) (range other);
  new (range_start common) (AddressRange.length common).

Definition block_capacity (self : Extent) (page_size : FileSpacePageSize) (size : Z) : Z :=
  let page_size := FileSpacePageSize.get page_size in
  let length := len self in
  let head := Z.min length (page_size - start self mod page_size) in
  if size <? page_size then Z.max head (Z.min (length - head) page_size)
  else if start self mod page_size =? 0 then length
  else length - head.

Definition aligned_interior (self : Extent) (align : Z) : option Extent :=
  if align =? 0 then None
  else
    s ← checked_next_multiple_of (start self) align;
    between s (end_ self / align * align).

End Extent.

(** ** What the operations mean *)

(** The address [a] lies in the extent. *)
Definition inside (a : Z) (e : Extent) : Prop := Extent.start e ≤ a < Extent.end_ e.

(** The two extents share no address. *)
Definition apart (e f : Extent) : Prop :=
  Extent.end_ e ≤ Extent.start f ∨ Extent.end_ f ≤ Extent.start e.

(** [p] lies inside [e]. *)
Definition within (p e : Extent) : Prop :=
  Extent.start e ≤ Extent.start p ∧ Extent.end_ p ≤ Extent.end_ e.

#[global] Instance apart_sym : Symmetric apart.
Proof. intros e f [?|?]; [by right|by left]. Qed.

Lemma ext_bounds (e : Extent) :
  0 ≤ Extent.start e ∧ Extent.start e < Extent.end_ e ∧ Extent.end_ e ≤ U64_MAX ∧
  Extent.len e = Extent.end_ e - Extent.start e.
Proof.
  pose proof (ne_bounds e). unfold Extent.start, Extent.end_, Extent.len, NonEmptyRange.end_. lia.
Qed.

Ltac add_bounds e :=
  lazymatch goal with
  | _ : 0 ≤ Extent.start e ∧ _ |- _ => fail
  | _ => pose proof (ext_bounds e)
  end.

(** Adds the bounds of every extent in sight, then calls [lia]. *)
Ltac extents :=
  repeat match goal with
  | e : NonEmptyRange |- _ => add_bounds e
  | |- context [Extent.start ?e] => add_bounds e
  | |- context [Extent.end_ ?e] => add_bounds e
  | _ : context [Extent.start ?e] |- _ => add_bounds e
  | _ : context [Extent.end_ ?e] |- _ => add_bounds e
  end.

Ltac elia := unfold inside, apart, within in *; extents; lia.

Lemma ext_eq (e f : Extent) :
  Extent.start e = Extent.start f → Extent.end_ e = Extent.end_ f → e = f.
Proof.
  unfold Extent.start, Extent.end_, NonEmptyRange.end_.
  intros. apply NonEmptyRange_eq; lia.
Qed.

Lemma ext_new_Some (s l : Z) (e : Extent) :
  Extent.new s l = Some e ↔ Extent.start e = s ∧ Extent.len e = l.
Proof.
  pose proof (ext_bounds e). unfold Extent.new.
  destruct (l =? 0) eqn:E; [split; [done|lia]|]. apply NonEmptyRange_new_Some.
Qed.

Lemma ext_new_None (s l : Z) :
  0 ≤ s → 0 ≤ l → Extent.new s l = None ↔ l = 0 ∨ U64_MAX < s + l.
Proof.
  intros. unfold Extent.new. destruct (l =? 0) eqn:E; [split; [lia|done]|].
  rewrite NonEmptyRange_new_None. lia.
Qed.

Lemma ext_new_ex (s l : Z) :
  0 ≤ s → 0 < l → s + l ≤ U64_MAX →
  ∃ e, Extent.new s l = Some e ∧ Extent.start e = s ∧ Extent.end_ e = s + l.
Proof.
  intros. destruct (Extent.new s l) as [e|] eqn:E.
  - exists e. apply ext_new_Some in E. extents. split_and!; [done|lia..].
  - apply ext_new_None in E; lia.
Qed.

Lemma ext_between_Some (s t : Z) (e : Extent) :
  Extent.between s t = Some e ↔ Extent.start e = s ∧ Extent.end_ e = t.
Proof.
  extents. unfold Extent.between, Address.distance_from, Prelude.checked_sub.
  destruct (s <=? t) eqn:E; simpl; [rewrite ext_new_Some; lia|split; [done|lia]].
Qed.

Lemma ext_between_None (s t : Z) :
  0 ≤ s → t ≤ U64_MAX → Extent.between s t = None ↔ t ≤ s.
Proof.
  intros. unfold Extent.between, Address.distance_from, Prelude.checked_sub.
  destruct (s <=? t) eqn:E; simpl; [|split; [lia|done]].
  rewrite ext_new_None by lia. lia.
Qed.

Lemma ext_between_ex (s t : Z) :
  0 ≤ s → s < t → t ≤ U64_MAX →
  ∃ e, Extent.between s t = Some e ∧ Extent.start e = s ∧ Extent.end_ e = t.
Proof.
  intros. destruct (Extent.between s t) as [e|] eqn:E.
  - exists e. split; [done|]. by apply ext_between_Some.
  - apply ext_between_None in E; lia.
Qed.

(** The addresses of the (possibly empty) interval between two endpoints. *)
Lemma ext_between_inside (s t a : Z) :
  0 ≤ s → t ≤ U64_MAX →
  (∃ e, Extent.between s t = Some e ∧ inside a e) ↔ s ≤ a < t.
Proof.
  intros. split.
  - intros (e & He%ext_between_Some & Ha). elia.
  - intros. destruct (ext_between_ex s t) as (e & -> & ? & ?); [lia..|].
    exists e. split; [done|]. elia.
Qed.

Lemma ext_intersection_Some (e f g : Extent) :
  Extent.intersection e f = Some g ↔
  Extent.start g = Z.max (Extent.start e) (Extent.start f) ∧
  Extent.end_ g = Z.min (Extent.end_ e) (Extent.end_ f).
Proof.
  unfold Extent.intersection, AddressRange.intersection; simpl.
  destruct (_ <? _) eqn:E.
  - destruct (AddressRange_ordered_is_Some
      (Z.max (Extent.start e) (Extent.start f)) (Z.min (Extent.end_ e) (Extent.end_ f)))
      as [r Hr]; [lia|].
    rewrite Hr; simpl. apply AddressRange_ordered_Some in Hr as [Hs He].
    rewrite ext_new_Some. unfold AddressRange.length. rewrite Hs, He. extents. lia.
  - simpl. split; [done|]. extents. lia.
Qed.

Lemma ext_intersection_None (e f : Extent) :
  Extent.intersection e f = None ↔ apart e f.
Proof.
  unfold Extent.intersection, AddressRange.intersection; simpl.
  destruct (_ <? _) eqn:E.
  - destruct (AddressRange_ordered_is_Some
      (Z.max (Extent.start e) (Extent.start f)) (Z.min (Extent.end_ e) (Extent.end_ f)))
      as [r Hr]; [lia|].
    rewrite Hr; simpl. apply AddressRange_ordered_Some in Hr as [Hs He].
    unfold AddressRange.length. rewrite Hs, He, ext_new_None by elia. elia.
  - simpl. split; [|done]. elia.
Qed.

Lemma ext_adjoins_true (e f : Extent) :
  Extent.adjoins e f = true ↔
  Extent.end_ e = Extent.start f ∨ Extent.end_ f = Extent.start e.
Proof. unfold Extent.adjoins, AddressRange.adjoins; simpl. lia. Qed.

(** The aligned interior is bounded by the least multiple of [align] at or
    above the start and the greatest one at or below the end. *)
Lemma ext_aligned_interior_Some (e i : Extent) (align : Z) :
  0 < align →
  Extent.aligned_interior e align = Some i ↔
  Extent.start e ≤ Extent.start i < Extent.start e + align ∧ Extent.start i mod align = 0 ∧
  Extent.end_ e - align < Extent.end_ i ≤ Extent.end_ e ∧ Extent.end_ i mod align = 0.
Proof.
  intros Ha. pose proof (ext_bounds e) as He. pose proof (ext_bounds i) as Hi.
  unfold Extent.aligned_interior.
  destruct (align =? 0) eqn:E0; [lia|].
  pose proof (div_mul_bounds (Extent.end_ e) align Ha) as Hdb.
  pose proof (div_mul_multiple (Extent.end_ e) align Ha) as Hdm.
  assert (Hend : ∀ t, Extent.end_ e - align < t ≤ Extent.end_ e → t mod align = 0 →
    t = Extent.end_ e / align * align).
  { intros t Ht Hm.
    destruct (Z.lt_trichotomy t (Extent.end_ e / align * align)) as [Hlt|[Heq|Hgt]]; [|done|].
    - pose proof (multiple_le_of_lt t _ align Ha Hm Hdm Hlt). lia.
    - pose proof (multiple_le_of_lt _ t align Ha Hdm Hm Hgt). lia. }
  destruct (checked_next_multiple_of (Extent.start e) align) as [s|] eqn:Es; simpl.
  - apply checked_next_multiple_of_Some in Es as (H1 & H2 & _); [|lia..].
    rewrite ext_between_Some. split.
    + intros [-> ->]. lia.
    + intros (H3 & H4 & H5 & H6). split; [|by apply Hend].
      destruct (Z.lt_trichotomy (Extent.start i) s) as [Hlt|[Heq|Hgt]]; [|done|].
      * pose proof (multiple_le_of_lt _ _ align Ha H4 H2 Hlt). lia.
      * pose proof (multiple_le_of_lt _ _ align Ha H2 H4 Hgt). lia.
  - split; [done|]. intros (H3 & H4 & _).
    enough (checked_next_multiple_of (Extent.start e) align = Some (Extent.start i))
      by congruence.
    apply checked_next_multiple_of_Some; [lia..|]. split_and!; lia.
Qed.

(** No aligned interior means no whole unit fits. *)
Lemma ext_aligned_interior_None (e : Extent) (align s : Z) :
  0 < align → Extent.aligned_interior e align = None →
  s mod align = 0 → Extent.start e ≤ s → s + align ≤ Extent.end_ e → False.
Proof.
  intros Ha HN Hs H1 H2. pose proof (ext_bounds e) as He.
  unfold Extent.aligned_interior in HN. destruct (align =? 0) eqn:E0; [lia|].
  pose proof (div_mul_bounds (Extent.end_ e) align Ha) as Hdb.
  pose proof (div_mul_multiple (Extent.end_ e) align Ha) as Hdm.
  destruct (checked_next_multiple_of (Extent.start e) align) as [t|] eqn:Es; simpl in HN.
  - apply checked_next_multiple_of_Some in Es as (H3 & H4 & _); [|lia..].
    apply ext_between_None in HN; [|lia..].
    assert (t ≤ s).
    { destruct (Z.le_gt_cases t s) as [|Hgt]; [done|].
      pose proof (multiple_le_of_lt s t align Ha Hs H4 ltac:(lia)). lia. }
    pose proof (multiple_le_of_lt (Extent.end_ e / align * align) (s + align) align Ha Hdm).
    rewrite Z.add_mod, Hs, Z.mod_same, Z.mod_0_l in H0 by lia. lia.
  - apply checked_next_multiple_of_None in Es as [H3 H4]; [|lia..].
    pose proof (Z.mod_pos_bound (Extent.start e) align Ha).
    pose proof (Z.div_mod (Extent.start e) align ltac:(lia)) as Ed.
    pose proof (multiple_le_of_lt (Extent.start e / align * align) s align Ha
      (div_mul_multiple _ _ Ha) Hs). lia.
Qed.
