(* ===== verification/Regions.v ===== *)
(** * Lists of extents as sets of addresses

    The abstract view every free-space structure is specified against: a list
    of extents denotes the set of addresses it covers.  [canonical] lists
    (sorted, no two regions touch) and [ordered] lists (sorted, disjoint,
    possibly touching) are the two invariants of the implementation.  The main
    result is [canonical_unique]: a canonical list is determined by its set, so
    an equation between free lists can be proved by comparing sets. *)

From S2P Require Import Prelude Addresses Extents.

Local Open Scope Z_scope.

(** The address [a] is covered by the list. *)
Definition mem (a : Z) (l : list Extent) : Prop := ∃ e, e ∈ l ∧ inside a e.

Definition gap (e f : Extent) : Prop := Extent.end_ e < Extent.start f.

Definition before (e f : Extent) : Prop := Extent.end_ e ≤ Extent.start f.

(** Sorted, nonempty, never touching or overlapping. *)
Definition canonical (l : list Extent) : Prop := StronglySorted gap l.

(** Sorted and disjoint; neighbours may touch. *)
Definition ordered (l : list Extent) : Prop := StronglySorted before l.

(** Sum of the region lengths. *)
Definition total (l : list Extent) : Z := sum_of Extent.len l.

(** The two lists cover the same addresses. *)
Definition same_set (l1 l2 : list Extent) : Prop := ∀ a, mem a l1 ↔ mem a l2.

(** No extent of the list meets [e]. *)
Definition clear_of (e : Extent) (l : list Extent) : Prop := Forall (apart e) l.

#[global] Instance same_set_equiv : Equivalence same_set.
Proof.
  split; [by intros l a|intros l1 l2 H a; by rewrite (H a)|].
  intros l1 l2 l3 H1 H2 a. by rewrite (H1 a).
Qed.

#[global] Instance mem_proper (a : Z) : Proper (same_set ==> iff) (mem a).
Proof. intros l1 l2 Hl. apply Hl. Qed.

#[global] Instance mem_perm (a : Z) : Proper (Permutation ==> iff) (mem a).
Proof. intros l1 l2 Hp. unfold mem. by setoid_rewrite Hp. Qed.

(** ** Membership *)

Lemma mem_nil (a : Z) : mem a [] ↔ False.
Proof. split; [intros (e & []%not_elem_of_nil & _)|done]. Qed.

Lemma mem_cons (a : Z) (e : Extent) (l : list Extent) :
  mem a (e :: l) ↔ inside a e ∨ mem a l.
Proof. unfold mem. setoid_rewrite elem_of_cons. naive_solver. Qed.

Lemma mem_app (a : Z) (l1 l2 : list Extent) : mem a (l1 ++ l2) ↔ mem a l1 ∨ mem a l2.
Proof. unfold mem. setoid_rewrite elem_of_app. naive_solver. Qed.

Lemma mem_singleton (a : Z) (e : Extent) : mem a [e] ↔ inside a e.
Proof. rewrite mem_cons, mem_nil. naive_solver. Qed.

Lemma mem_option (a : Z) (o : option Extent) :
  mem a (option_list o) ↔ ∃ e, o = Some e ∧ inside a e.
Proof. destruct o; simpl; [rewrite mem_singleton|rewrite mem_nil]; naive_solver. Qed.

Lemma mem_between (a s t : Z) :
  0 ≤ s → t ≤ U64_MAX → mem a (option_list (Extent.between s t)) ↔ s ≤ a < t.
Proof. intros. rewrite mem_option. by apply ext_between_inside. Qed.

Lemma mem_rev (a : Z) (l : list Extent) : mem a (reverse l) ↔ mem a l.
Proof. unfold mem. by setoid_rewrite elem_of_reverse. Qed.

Lemma clear_of_mem (e : Extent) (l : list Extent) :
  clear_of e l ↔ ∀ a, mem a l → ¬ inside a e.
Proof.
  unfold clear_of. rewrite Forall_forall. split.
  - intros H a (f & Hf & Hin). specialize (H f Hf). elia.
  - intros H f Hf. unfold apart. extents.
    destruct (Z.le_gt_cases (Extent.end_ e) (Extent.start f)); [by left|].
    destruct (Z.le_gt_cases (Extent.end_ f) (Extent.start e)); [by right|].
    destruct (H (Z.max (Extent.start e) (Extent.start f))); [|elia].
    exists f. split; [done|elia].
Qed.

Create Rewrite HintDb mem.
#[global] Hint Rewrite mem_nil mem_cons mem_app mem_singleton mem_rev : mem.

(** ** Sorted lists *)

Lemma canonical_cons (e : Extent) (l : list Extent) :
  canonical (e :: l) ↔ Forall (gap e) l ∧ canonical l.
Proof. apply StronglySorted_cons_iff. Qed.

Lemma canonical_app (l1 l2 : list Extent) :
  canonical (l1 ++ l2) ↔
  canonical l1 ∧ canonical l2 ∧ (∀ x y, x ∈ l1 → y ∈ l2 → gap x y).
Proof. apply StronglySorted_app_iff. Qed.

Lemma ordered_cons (e : Extent) (l : list Extent) :
  ordered (e :: l) ↔ Forall (before e) l ∧ ordered l.
Proof. apply StronglySorted_cons_iff. Qed.

Lemma ordered_app (l1 l2 : list Extent) :
  ordered (l1 ++ l2) ↔
  ordered l1 ∧ ordered l2 ∧ (∀ x y, x ∈ l1 → y ∈ l2 → before x y).
Proof. apply StronglySorted_app_iff. Qed.

Lemma canonical_ordered (l : list Extent) : canonical l → ordered l.
Proof.
  unfold canonical, ordered. induction 1 as [|e l Hl IH HF]; constructor; [done|].
  eapply Forall_impl; [exact HF|]. unfold gap, before. intros; lia.
Qed.

(** Everything the list covers lies above its first region. *)
Lemma ordered_mem_lower (e : Extent) (l : list Extent) (a : Z) :
  ordered (e :: l) → mem a l → Extent.end_ e ≤ a.
Proof.
  rewrite ordered_cons, Forall_forall. intros [HF _] (f & Hf & Hin).
  specialize (HF f Hf). unfold before in HF. elia.
Qed.

Lemma canonical_mem_lower (e : Extent) (l : list Extent) (a : Z) :
  canonical (e :: l) → mem a l → Extent.end_ e < a.
Proof.
  rewrite canonical_cons, Forall_forall. intros [HF _] (f & Hf & Hin).
  specialize (HF f Hf). unfold gap in HF. elia.
Qed.

(** The first region and the rest of an ordered list cover disjoint sets. *)
Lemma ordered_head_disjoint (e : Extent) (l : list Extent) (a : Z) :
  ordered (e :: l) → inside a e → ¬ mem a l.
Proof. intros Ho Hin Hm. pose proof (ordered_mem_lower _ _ _ Ho Hm). elia. Qed.

(** Two disjoint lists: no address is covered by both. *)
Definition disjoint_lists (l1 l2 : list Extent) : Prop := ∀ a, mem a l1 → ¬ mem a l2.

(** ** A canonical list is determined by the set it covers *)

Lemma canonical_head_unique (e1 e2 : Extent) (l1 l2 : list Extent) :
  canonical (e1 :: l1) → canonical (e2 :: l2) → same_set (e1 :: l1) (e2 :: l2) →
  e1 = e2.
Proof.
  intros H1 H2 Hs.
  assert (Hin : ∀ a, inside a e1 ∨ mem a l1 ↔ inside a e2 ∨ mem a l2).
  { intros a. rewrite <- !mem_cons. apply Hs. }
  pose proof (ext_bounds e1) as B1. pose proof (ext_bounds e2) as B2.
  assert (Extent.start e1 = Extent.start e2) as Es.
  { assert (Extent.start e2 ≤ Extent.start e1).
    { destruct (Hin (Extent.start e1)) as [[Hi|Hm] _]; [left; elia|elia|].
      pose proof (canonical_mem_lower _ _ _ H2 Hm). lia. }
    assert (Extent.start e1 ≤ Extent.start e2); [|lia].
    destruct (Hin (Extent.start e2)) as [_ [Hi|Hm]]; [left; elia|elia|].
    pose proof (canonical_mem_lower _ _ _ H1 Hm). lia. }
  apply ext_eq; [done|].
  assert (Extent.end_ e2 ≤ Extent.end_ e1).
  { destruct (Z.le_gt_cases (Extent.end_ e2) (Extent.end_ e1)); [done|].
    destruct (Hin (Extent.end_ e1)) as [_ [Hi|Hm]]; [left; elia|elia|].
    pose proof (canonical_mem_lower _ _ _ H1 Hm). lia. }
  assert (Extent.end_ e1 ≤ Extent.end_ e2); [|lia].
  destruct (Z.le_gt_cases (Extent.end_ e1) (Extent.end_ e2)); [done|].
  destruct (Hin (Extent.end_ e2)) as [[Hi|Hm] _]; [left; elia|elia|].
  pose proof (canonical_mem_lower _ _ _ H2 Hm). lia.
Qed.

Lemma canonical_unique_list (l1 l2 : list Extent) :
  canonical l1 → canonical l2 → same_set l1 l2 → l1 = l2.
Proof.
  revert l2. induction l1 as [|e1 l1 IH]; intros [|e2 l2] H1 H2 Hs; [done| | |].
  - exfalso. apply (mem_nil (Extent.start e2)), Hs, mem_cons. left. elia.
  - exfalso. apply (mem_nil (Extent.start e1)), Hs, mem_cons. left. elia.
  - assert (e1 = e2) as -> by (by eapply canonical_head_unique).
    f_equal. pose proof H1 as [_ C1]%canonical_cons. pose proof H2 as [_ C2]%canonical_cons.
    apply IH; [done..|]. intros a. specialize (Hs a). rewrite !mem_cons in Hs.
    pose proof (canonical_mem_lower _ _ a H1). pose proof (canonical_mem_lower _ _ a H2).
    split; intros Hm; (destruct Hs as [Hs1 Hs2]).
    + destruct Hs1 as [Hi|]; [by right| |done]. specialize (H Hm). elia.
    + destruct Hs2 as [Hi|]; [by right| |done]. specialize (H0 Hm). elia.
Qed.

(** ** Totals *)

Lemma total_nil : total [] = 0.
Proof. done. Qed.

Lemma total_cons (e : Extent) (l : list Extent) : total (e :: l) = Extent.len e + total l.
Proof. apply sum_of_cons. Qed.

Lemma total_app (l1 l2 : list Extent) : total (l1 ++ l2) = total l1 + total l2.
Proof. apply sum_of_app. Qed.

Lemma total_nonneg (l : list Extent) : 0 ≤ total l.
Proof. apply sum_of_nonneg. intros e. elia. Qed.

Lemma total_reverse (l : list Extent) : total (reverse l) = total l.
Proof. apply sum_of_Permutation, reverse_Permutation. Qed.

#[global] Hint Rewrite total_nil total_cons total_app total_reverse : mem.

(** Disjoint regions above [lo] fit between [lo] and the top of the address
    space, so the cached total of a free list never overflows. *)
Lemma ordered_total_bound (l : list Extent) (lo : Z) :
  ordered l → Forall (λ e, lo ≤ Extent.start e) l → lo ≤ U64_MAX → total l ≤ U64_MAX - lo.
Proof.
  revert lo. induction l as [|e l IH]; intros lo Ho HF Hlo; [rewrite total_nil; lia|].
  apply ordered_cons in Ho as [HB Ho]. apply Forall_cons in HF as [He _].
  rewrite total_cons. pose proof (ext_bounds e).
  assert (total l ≤ U64_MAX - Extent.end_ e); [|lia].
  apply IH; [done| |lia]. eapply Forall_impl; [exact HB|]. done.
Qed.

Lemma ordered_total_u64 (l : list Extent) : ordered l → total l ≤ U64_MAX.
Proof.
  intros Ho. assert (total l ≤ U64_MAX - 0); [|lia].
  apply ordered_total_bound; [done| |done]. apply Forall_forall. intros e _. elia.
Qed.

(** ** Replacing regions by parts of them *)

(** The parts of one region. *)
Definition parts_of (ps : list Extent) (r : Extent) : Prop := Forall (λ p, within p r) ps.

Lemma parts_of_mem (ps : list Extent) (r : Extent) (a : Z) :
  parts_of ps r → mem a ps → inside a r.
Proof.
  unfold parts_of. rewrite Forall_forall. intros HP (p & Hp & Ha).
  specialize (HP p Hp). elia.
Qed.

(** Replacing every region of a canonical list by a canonical list of parts of
    it keeps the list canonical. *)
Lemma canonical_concat_map (f : Extent → list Extent) (l : list Extent) :
  canonical l →
  (∀ r, r ∈ l → parts_of (f r) r ∧ canonical (f r)) →
  canonical (l ≫= f).
Proof.
  induction l as [|r l IH]; intros Hc Hf; [constructor|].
  apply canonical_cons in Hc as [HG Hc]. rewrite Forall_forall in HG. cbn.
  apply canonical_app. split_and!.
  - apply Hf. by left.
  - apply IH; [done|]. intros r' Hr'. apply Hf. by right.
  - intros x y Hx Hy. apply list_elem_of_bind in Hy as (r' & Hy & Hr').
    destruct (Hf r) as [HP _]; [by left|]. destruct (Hf r') as [HP' _]; [by right|].
    unfold parts_of in *. rewrite Forall_forall in HP, HP'.
    specialize (HP x Hx). specialize (HP' y Hy). specialize (HG r' Hr').
    unfold gap in *. elia.
Qed.

Lemma mem_concat_map (f : Extent → list Extent) (l : list Extent) (a : Z) :
  mem a (l ≫= f) ↔ ∃ r, r ∈ l ∧ mem a (f r).
Proof. unfold mem. setoid_rewrite list_elem_of_bind. naive_solver. Qed.

(** Replacing one region in the middle. *)
Lemma canonical_replace (pre post ps : list Extent) (r : Extent) :
  canonical (pre ++ r :: post) → parts_of ps r → canonical ps →
  canonical (pre ++ ps ++ post).
Proof.
  unfold parts_of. rewrite Forall_forall. intros Hc HP Hps.
  apply canonical_app in Hc as (Hpre & Hc & Hx).
  apply canonical_cons in Hc as [HG Hpost]. rewrite Forall_forall in HG.
  assert (∀ x, x ∈ pre → gap x r) by (intros; apply Hx; [done|by left]).
  apply canonical_app. split_and!; [done| |].
  - apply canonical_app. split_and!; [done..|]. intros x y Hxp Hy.
    specialize (HP x Hxp). specialize (HG y Hy). unfold gap in *. elia.
  - intros x y Hxp [Hy|Hy]%elem_of_app.
    + specialize (HP y Hy). specialize (H x Hxp). unfold gap in *. elia.
    + apply Hx; [done|by right].
Qed.

Lemma canonical_middle_apart (pre post : list Extent) (r f : Extent) :
  canonical (pre ++ r :: post) → f ∈ pre ++ post → apart r f.
Proof.
  intros Hc Hf. apply canonical_app in Hc as (_ & Hc & Hx).
  apply canonical_cons in Hc as [HG _]. rewrite Forall_forall in HG.
  apply elem_of_app in Hf as [Hf|Hf].
  - specialize (Hx f r Hf ltac:(by left)). unfold gap in Hx. elia.
  - specialize (HG f Hf). unfold gap in HG. elia.
Qed.

(** The set after replacing the region [r] by parts of it: what lies in [r] is
    now what lies in the parts. *)
Lemma mem_replace (pre post ps : list Extent) (r : Extent) (a : Z) :
  canonical (pre ++ r :: post) → parts_of ps r →
  mem a (pre ++ ps ++ post) ↔ mem a (pre ++ r :: post) ∧ (inside a r → mem a ps).
Proof.
  intros Hc HP. pose proof (parts_of_mem _ _ a HP) as HPa.
  assert (Hd : mem a pre ∨ mem a post → ¬ inside a r).
  { rewrite <- mem_app. intros (f & Hf & Hin) Hin'.
    pose proof (canonical_middle_apart _ _ _ _ Hc Hf). elia. }
  rewrite !mem_app, mem_cons. naive_solver.
Qed.
