(* ===== verification/Requests.v ===== *)
(** * Allocation requests and their placement

    Models [allocation.rs], the request types of [reservation.rs] and the page
    classes of [paged/mod.rs].  [ReservationRequest.place_after] decides where a
    request may start; the theorems below show it picks the earliest legal
    address and when it reports an overflow. *)

From S2P Require Import Prelude Addresses Extents.

Local Open Scope Z_scope.

Inductive PageType : Type := Meta | Raw.

#[global] Instance PageType_eq_dec : EqDecision PageType.
Proof. solve_decision. Defined.

Inductive FreeClass : Type := Dead | PageClass (ty : PageType).

#[global] Instance FreeClass_eq_dec : EqDecision FreeClass.
Proof. solve_decision. Defined.

Inductive AllocationClass : Type := Metadata | RawData.

Definition page_type_of (class : AllocationClass) : PageType :=
  match class with Metadata => Meta | RawData => Raw end.

Inductive ReservationKind : Type := Block | Compound.

(** [size] is a [NonZeroByteLength]: the theorems take [0 < size] from it. *)
Record ReservationRequest : Type := mkRequest {
  request_size : Z;
  request_class : AllocationClass;
  request_page_type : PageType;
  request_kind : ReservationKind;
}.

Record ReservationPlacement : Type := mkPlacement {
  placement_request : ReservationRequest;
  placement_extent : Extent;
}.

Module ReservationRequest.

Definition with_page_type (size : Z) (class : AllocationClass) (page_type : PageType)
    : ReservationRequest :=
  mkRequest size class page_type Compound.

Definition new (size : Z) (class : AllocationClass) : ReservationRequest :=
  with_page_type size class (page_type_of class).

Definition for_block (self : ReservationRequest) : ReservationRequest :=
  mkRequest (request_size self) (request_class self) (request_page_type self) Block.

Definition is_block (self : ReservationRequest) : bool :=
  match request_kind self with Block => true | Compound => false end.

(** The start address [place_after] settles on. *)
Definition placed_start (self : ReservationRequest) (start : Z)
    (page_size : option FileSpacePageSize) : result Z FormatError :=
  match (if is_block self then page_size else None) with
  | Some page =>
    let page := FileSpacePageSize.get page in
    let remaining := page - start mod page in
    if negb (start mod page =? 0)
       && ((page <=? request_size self) || (remaining <? request_size self))
    then Address.checked_add start remaining
    else Ok start
  | None => Ok start
  end.

Definition place_after (self : ReservationRequest) (start : Z)
    (page_size : option FileSpacePageSize) : result ReservationPlacement FormatError :=
  result_bind (placed_start self start page_size) (λ start,
  result_map (mkPlacement self)
    (ok_or (Extent.new start (request_size self))
       (OffsetOverflow start (request_size self)))).

End ReservationRequest.

(** ** Legal placements *)

(** A block smaller than a page stays within one page; a longer one starts on
    a page boundary. *)
Definition block_legal (p s n : Z) : Prop :=
  if n <? p then s mod p + n ≤ p else s mod p = 0.

(** Where a request may start under the given page size. *)
Definition legal_start (r : ReservationRequest) (page : option FileSpacePageSize) (s : Z) : Prop :=
  match request_kind r, page with
  | Block, Some p => block_legal (page_bytes p) s (request_size r)
  | _, _ => True
  end.

Lemma placed_start_spec (r : ReservationRequest) (s t : Z) (page : option FileSpacePageSize) :
  0 ≤ s → 0 < request_size r →
  ReservationRequest.placed_start r s page = Ok t →
  s ≤ t ∧ legal_start r page t ∧ (∀ t', s ≤ t' → legal_start r page t' → t ≤ t').
Proof.
  intros Hs Hn. unfold ReservationRequest.placed_start, ReservationRequest.is_block, legal_start.
  destruct (request_kind r); [destruct page as [p|]|]; [|by intros [= <-]..].
  pose proof (page_size_pos p) as Hp. unfold FileSpacePageSize.get, block_legal.
  pose proof (Z.mod_pos_bound s (page_bytes p) Hp) as Hm.
  pose proof (Z.div_mod s (page_bytes p) ltac:(lia)) as Hd.
  set (n := request_size r) in *. set (P := page_bytes p) in *.
  destruct (negb (s mod P =? 0) && ((P <=? n) || (P - s mod P <? n))) eqn:E.
  - unfold Address.checked_add, Prelude.checked_add.
    destruct (s + (P - s mod P) <=? U64_MAX) eqn:E1; [|done]. intros [= <-].
    assert (Ht : s + (P - s mod P) = (s / P + 1) * P) by lia.
    assert (Hz : (s + (P - s mod P)) mod P = 0) by (rewrite Ht; apply Z.mod_mul; lia).
    split_and!; [lia|destruct (n <? P) eqn:E2; lia|].
    intros t' Hle HL. destruct (Z.le_gt_cases (s + (P - s mod P)) t') as [|Hlt]; [done|].
    assert (t' mod P = t' - s / P * P).
    { symmetry. apply (Z.mod_unique_pos t' P (s / P)); lia. }
    destruct (n <? P) eqn:E2; lia.
  - intros [= <-]. split_and!; [lia|destruct (n <? P) eqn:E2; lia|lia].
Qed.

(** When the start is refused, the next legal start is not representable. *)
Lemma placed_start_err (r : ReservationRequest) (s : Z) (page : option FileSpacePageSize) (err : FormatError) :
  0 ≤ s → 0 < request_size r →
  ReservationRequest.placed_start r s page = Err err →
  (∃ o n, err = OffsetOverflow o n) ∧ ∀ t, s ≤ t ≤ U64_MAX → ¬ legal_start r page t.
Proof.
  intros Hs Hn. unfold ReservationRequest.placed_start, ReservationRequest.is_block, legal_start.
  destruct (request_kind r); [destruct page as [p|]|]; [|done..].
  pose proof (page_size_pos p) as Hp. unfold FileSpacePageSize.get, block_legal.
  pose proof (Z.mod_pos_bound s (page_bytes p) Hp) as Hm.
  pose proof (Z.div_mod s (page_bytes p) ltac:(lia)) as Hd.
  set (n := request_size r) in *. set (P := page_bytes p) in *.
  destruct (negb (s mod P =? 0) && ((P <=? n) || (P - s mod P <? n))) eqn:E; [|done].
  unfold Address.checked_add, Prelude.checked_add.
  destruct (s + (P - s mod P) <=? U64_MAX) eqn:E1; [done|]. intros [= <-]. split; [eauto|].
  intros t Ht. assert (t mod P = t - s / P * P).
  { symmetry. apply (Z.mod_unique_pos t P (s / P)); lia. }
  destruct (n <? P) eqn:E2; lia.
Qed.

Lemma place_after_spec (r : ReservationRequest) (s : Z) (page : option FileSpacePageSize) :
  0 ≤ s → 0 < request_size r →
  match ReservationRequest.place_after r s page with
  | Ok pl => placement_request pl = r ∧ Extent.len (placement_extent pl) = request_size r ∧
      s ≤ Extent.start (placement_extent pl) ∧ legal_start r page (Extent.start (placement_extent pl)) ∧
      (∀ t, s ≤ t → legal_start r page t → Extent.start (placement_extent pl) ≤ t)
  | Err e => (∃ o n, e = OffsetOverflow o n) ∧
      ∀ x, s ≤ Extent.start x → Extent.len x = request_size r → ¬ legal_start r page (Extent.start x)
  end.
Proof.
  intros Hs Hn. unfold ReservationRequest.place_after.
  destruct (ReservationRequest.placed_start r s page) as [t|err] eqn:Ep; simpl.
  - destruct (placed_start_spec r s t page Hs Hn Ep) as (Hst & Hleg & Hmin).
    destruct (Extent.new t (request_size r)) as [x|] eqn:Ex; simpl.
    + apply ext_new_Some in Ex as [Hx Hl]. rewrite Hx. by split_and!.
    + split; [eauto|]. intros x Hx Hl Hlx. specialize (Hmin _ Hx Hlx).
      apply ext_new_None in Ex; [elia|lia|lia].
  - destruct (placed_start_err r s page err Hs Hn Ep) as [He Hno]. split; [done|].
    intros x Hx Hl. apply Hno. elia.
Qed.
