(* ===== verification/FreeLists.v ===== *)
(** * The free list: definitions

    Models [crates/hdf5-pure-space/src/list/mod.rs].  A [Vec] under
    construction is kept in its final order; a loop that walks an index is a
    recursion over the remaining elements.  [&mut self] methods return the new
    list.  Panics ([expect], [debug_assert!]) are outcomes. *)

From S2P Require Import Prelude Addresses Extents Regions Requests.

Local Open Scope Z_scope.

Record FreeList : Type := mkFreeList {
  regions : list Extent;
  total_bytes : Z;
}.

Inductive FreeListError : Type :=
| Overlap (previous next : Extent)
| Unsorted (previous next : Extent).

(** [TRAILING_RESERVE_TAILS] of [persistence.rs]. *)
Definition TRAILING_RESERVE_TAILS : Z := 4.

(** Extents by start address: the key of every [sort_unstable_by_key]. *)
Definition start_le (e f : Extent) : Prop := Extent.start e ≤ Extent.start f.

#[global] Instance start_le_dec : RelDecision start_le.
Proof. intros e f. unfold start_le. apply _. Defined.

(** [Iterator::min_by_key] with a strict comparison: the first minimum. *)
Definition min_by {A} (lt : A → A → bool) (l : list A) : option A :=
  foldl (λ best x, match best with
                   | None => Some x
                   | Some b => if lt x b then Some x else best
                   end) None l.

Module FreeList.

Definition new : FreeList := mkFreeList [] 0.

Definition extents (self : FreeList) : list Extent := regions self.

Definition into_extents (self : FreeList) : list Extent := regions self.

Definition is_empty (self : FreeList) : bool :=
  match regions self with [] => true | _ => false end.

(** ** Construction *)

(** The order check between consecutive input extents. *)
Definition order_error (previous : option Extent) (extent : Extent) : option FreeListError :=
  match previous with
  | None => None
  | Some previous =>
    if Extent.start extent <? Extent.start previous then Some (Unsorted previous extent)
    else if Extent.start extent <? Extent.end_ previous then Some (Overlap previous extent)
    else None
  end.

(** One pass over the input.  [acc] is the vector built so far, last region
    first, as [last_mut] and [push] access it. *)
Fixpoint from_sorted_loop (acc : list Extent) (tot : Z) (previous : option Extent)
    (input : list Extent) : outcome (result FreeList FreeListError) :=
  match input with
  | [] => Ret (Ok (mkFreeList (reverse acc) tot))
  | extent :: rest =>
    match order_error previous extent with
    | Some e => Ret (Err e)
    | None =>
      tot ← expect (ByteLength.checked_add tot (Extent.len extent));
      acc ← match acc with
            | last :: init =>
              if Extent.end_ last =? Extent.start extent then
                union ← expect (Extent.between (Extent.start last) (Extent.end_ extent));
                Ret (union :: init)
              else Ret (extent :: acc)
            | [] => Ret [extent]
            end;
      from_sorted_loop acc tot (Some extent) rest
    end
  end.

Definition from_sorted (input : list Extent) : outcome (result FreeList FreeListError) :=
  from_sorted_loop [] 0 None input.

(** The list whose first extent starts lowest, the first one on a tie. *)
Definition next_list (lists : list (list Extent)) : option (nat * Extent) :=
  min_by (λ x y, Extent.start x.2 <? Extent.start y.2)
    (omap (λ x : nat * list Extent, e ← head x.2; Some (x.1, e)) (imap pair lists)).

(** The merging iterator of [from_lists_observed]; the fuel is the number of
    extents left, so it runs out exactly when the iterator ends. *)
Fixpoint merge_lists (fuel : nat) (lists : list (list Extent)) : list Extent :=
  match fuel with
  | O => []
  | S fuel =>
    match next_list lists with
    | None => []
    | Some (index, extent) => extent :: merge_lists fuel (alter tail index lists)
    end
  end.

Definition from_lists (lists : list FreeList) : outcome (result FreeList FreeListError) :=
  let slices := regions <$> lists in
  from_sorted (merge_lists (length (mjoin slices)) slices).

(** ** Recording free space *)

Section Profiled.
Context `{Profile}.

(** The run of regions that touch or overlap the freed extent. *)
Fixpoint free_absorb (extent : Extent) (rest : list Extent) (merged_start merged_end tot : Z)
    : outcome (Z * Z * Z * list Extent) :=
  match rest with
  | [] => Ret (merged_start, merged_end, tot, [])
  | region :: rest' =>
    if Extent.start region <=? merged_end then
      _ ← debug_assert ((Extent.end_ extent <=? Extent.start region)
                        || (Extent.end_ region <=? Extent.start extent));
      tot ← expect (ByteLength.checked_sub tot (Extent.len region));
      free_absorb extent rest' (Z.min merged_start (Extent.start region))
        (Z.max merged_end (Extent.end_ region)) tot
    else Ret (merged_start, merged_end, tot, rest)
  end.

Definition free (self : FreeList) (extent : Extent) : outcome FreeList :=
  let '(lower, rest) := span (λ r, Extent.end_ r <? Extent.start extent) (regions self) in
  '(merged_start, merged_end, tot, upper) ←
    free_absorb extent rest (Extent.start extent) (Extent.end_ extent) (total_bytes self);
  merged ← expect (Extent.between merged_start merged_end);
  tot ← expect (ByteLength.checked_add tot (Extent.len merged));
  Ret (mkFreeList (lower ++ merged :: upper) tot).

End Profiled.

(** ** Allocation *)

(** The scan of [alloc] and [alloc_whole_units]: the smallest candidate of at
    least [n] bytes, the first one on a tie, with its region's index. *)
Fixpoint best_fit (candidate : Extent → option Extent) (n : Z) (i : nat)
    (best : option (nat * Extent)) (l : list Extent) : option (nat * Extent) :=
  match l with
  | [] => best
  | e :: l' =>
    let best' :=
      match candidate e with
      | Some c =>
        if (n <=? Extent.len c)
           && match best with None => true | Some (_, b) => Extent.len c <? Extent.len b end
        then Some (i, c) else best
      | None => best
      end in
    best_fit candidate n (S i) best' l'
  end.

Definition subtract_bytes (self : FreeList) (length : Z) : outcome FreeList :=
  tot ← expect (ByteLength.checked_sub (total_bytes self) length);
  Ret (mkFreeList (regions self) tot).

Definition alloc (self : FreeList) (len : Z) : outcome (option Extent * FreeList) :=
  if ByteLength.is_zero len then Ret (None, self)
  else match best_fit Some len 0 None (regions self) with
  | None => Ret (None, self)
  | Some (i, region) =>
    allocation ← expect (Extent.new (Extent.start region) len);
    regions' ← (if Extent.end_ allocation =? Extent.end_ region
                then Ret (delete i (regions self))
                else remainder ← expect (Extent.between (Extent.end_ allocation) (Extent.end_ region));
                     Ret (<[i := remainder]> (regions self)));
    self ← subtract_bytes (mkFreeList regions' (total_bytes self)) len;
    Ret (Some allocation, self)
  end.

Section Profiled.
Context `{Profile}.

Definition alloc_whole_units (self : FreeList) (len align : Z)
    : outcome (option Extent * FreeList) :=
  if ByteLength.is_zero len || ByteLength.is_zero align then Ret (None, self)
  else
    _ ← debug_assert (len mod align =? 0);
    match best_fit (λ r, Extent.aligned_interior r align) len 0 None (regions self) with
    | None => Ret (None, self)
    | Some (i, interior) =>
      region ← expect (regions self !! i);
      allocation ← expect (Extent.new (Extent.start interior) len);
      lower ← (if Extent.start region <? Extent.start allocation
               then e ← expect (Extent.between (Extent.start region) (Extent.start allocation)); Ret [e]
               else Ret []);
      upper ← (if Extent.end_ allocation <? Extent.end_ region
               then e ← expect (Extent.between (Extent.end_ allocation) (Extent.end_ region)); Ret [e]
               else Ret []);
      self ← subtract_bytes
        (mkFreeList (take i (regions self) ++ (lower ++ upper) ++ drop (S i) (regions self))
           (total_bytes self)) len;
      Ret (Some allocation, self)
    end.

End Profiled.

(** ** Removing ranges *)

(** One region of [take_range]: what lies below and above the range. *)
Definition take_range_parts (region extent : Extent) : outcome (list Extent) :=
  lower ← (if Extent.start region <? Extent.start extent
           then e ← expect (Extent.between (Extent.start region) (Extent.start extent)); Ret [e]
           else Ret []);
  upper ← (if Extent.end_ extent <? Extent.end_ region
           then e ← expect (Extent.between (Extent.end_ extent) (Extent.end_ region)); Ret [e]
           else Ret []);
  Ret (lower ++ upper).

Fixpoint take_range_loop (extent : Extent) (tot : Z) (l : list Extent)
    : outcome (list Extent * Z) :=
  match l with
  | [] => Ret ([], tot)
  | region :: rest =>
    match Extent.intersection region extent with
    | None =>
      '(out, tot) ← take_range_loop extent tot rest;
      Ret (region :: out, tot)
    | Some overlap =>
      tot ← expect (ByteLength.checked_sub tot (Extent.len overlap));
      parts ← take_range_parts region extent;
      '(out, tot) ← take_range_loop extent tot rest;
      Ret (parts ++ out, tot)
    end
  end.

Definition take_range (self : FreeList) (extent : Extent) : outcome FreeList :=
  '(out, tot) ← take_range_loop extent (total_bytes self) (regions self);
  Ret (mkFreeList out tot).

(** The inner loop of [take_ranges] over the removals that meet one region:
    the pieces kept, the position reached, the removals left, the total. *)
Fixpoint take_within (region : Extent) (start : Z) (removed : list Extent) (tot : Z)
    : outcome (list Extent * Z * list Extent * Z) :=
  match removed with
  | [] => Ret ([], start, [], tot)
  | range :: rest =>
    if Extent.end_ region <=? Extent.start range then Ret ([], start, removed, tot)
    else
      let head := option_list (Extent.between start (Extent.start range)) in
      let end_ := Z.min (Extent.end_ range) (Extent.end_ region) in
      overlap ← expect (Extent.between (Z.max start (Extent.start range)) end_);
      tot ← expect (ByteLength.checked_sub tot (Extent.len overlap));
      if Extent.end_ region <=? Extent.end_ range then Ret (head, end_, removed, tot)
      else
        '(out, start, removed, tot) ← take_within region end_ rest tot;
        Ret (head ++ out, start, removed, tot)
  end.

Fixpoint take_ranges_loop (l removed : list Extent) (tot : Z) : outcome (list Extent * Z) :=
  match l with
  | [] => Ret ([], tot)
  | region :: rest =>
    let removed := (span (λ r, Extent.end_ r <=? Extent.start region) removed).2 in
    '(out, start, removed, tot) ← take_within region (Extent.start region) removed tot;
    '(out', tot) ← take_ranges_loop rest removed tot;
    Ret (out ++ option_list (Extent.between start (Extent.end_ region)) ++ out', tot)
  end.

Definition take_ranges (self ranges : FreeList) : outcome FreeList :=
  if is_empty self || is_empty ranges then Ret self
  else
    '(out, tot) ← take_ranges_loop (regions self) (regions ranges) (total_bytes self);
    Ret (mkFreeList out tot).

(** The overlaps of one region with the regions of the other list, and the
    regions of the other list left for the next one. *)
Fixpoint intersect_within (own : Extent) (others : list Extent) : list Extent * list Extent :=
  match others with
  | [] => ([], [])
  | range :: rest =>
    if Extent.end_ own <=? Extent.start range then ([], others)
    else
      let here := option_list (Extent.intersection own range) in
      if Extent.end_ own <=? Extent.end_ range then (here, others)
      else let '(out, others) := intersect_within own rest in (here ++ out, others)
  end.

Fixpoint intersect_loop (l others : list Extent) : list Extent :=
  match l with
  | [] => []
  | own :: rest =>
    let others := (span (λ r, Extent.end_ r <=? Extent.start own) others).2 in
    let '(out, others) := intersect_within own others in
    out ++ intersect_loop rest others
  end.

Definition intersection (self other : FreeList) : outcome FreeList :=
  r ← from_sorted (intersect_loop (regions self) (regions other));
  expect_ok r.

(** ** Bounded, block and trailing operations *)

(** The filter of [alloc_below]. *)
Definition fits_below (len limit : Z) (e : Extent) : bool :=
  (len <=? Extent.len e)
  && match Address.checked_add (Extent.start e) len with
     | Ok end_ => end_ <=? limit
     | Err _ => false
     end.

Definition alloc_below (self : FreeList) (len limit : Z) : outcome (option Extent * FreeList) :=
  match min_by (λ x y, Extent.len x <? Extent.len y)
          (filter (λ e, fits_below len limit e = true) (regions self)) with
  | None => Ret (None, self)
  | Some extent =>
    match Extent.new (Extent.start extent) len with
    | None => Ret (None, self)
    | Some allocation =>
      self ← take_range self allocation;
      Ret (Some allocation, self)
    end
  end.

(** The candidate of one region for a block: its capacity and the placement. *)
Definition block_candidate (request : ReservationRequest) (page_size : FileSpacePageSize)
    (region : Extent) : option (Z * Extent) :=
  let capacity := Extent.block_capacity region page_size (request_size request) in
  if capacity <? request_size request then None
  else
    placement ← result_ok
      (ReservationRequest.place_after request (Extent.start region) (Some page_size));
    Some (capacity, placement_extent placement).

Definition alloc_block (self : FreeList) (request : ReservationRequest)
    (page_size : FileSpacePageSize) : outcome (option Extent * FreeList) :=
  match min_by (λ x y : Z * Extent, (x.1 <? y.1)
                  || ((x.1 =? y.1) && (Extent.start x.2 <? Extent.start y.2)))
          (omap (block_candidate request page_size) (regions self)) with
  | None => Ret (None, self)
  | Some (_, allocation) =>
    self ← take_range self allocation;
    Ret (Some allocation, self)
  end.

(** The descending walk of [trailing_run_start]. *)
Fixpoint run_down (start : Z) (descending : list Extent) : Z :=
  match descending with
  | [] => start
  | e :: rest =>
    if Extent.end_ e <? start then start else run_down (Z.min start (Extent.start e)) rest
  end.

Definition trailing_run_start (lists : list FreeList) (eof : Z) : Z :=
  run_down eof (reverse (merge_sort start_le (mjoin (regions <$> lists)))).

Definition release_trailing_run (self : FreeList) (eoa tail_len : Z) : outcome (Z * FreeList) :=
  let run_start := trailing_run_start [self] eoa in
  match checked_mul TRAILING_RESERVE_TAILS tail_len with
  | None => Ret (eoa, self)
  | Some keep =>
    match checked_mul keep 2 with
    | None => Ret (eoa, self)
    | Some release_min =>
      match Address.distance_from eoa run_start with
      | None => Ret (eoa, self)
      | Some length =>
        if length <? release_min then Ret (eoa, self)
        else match Address.checked_add run_start keep with
        | Err _ => Ret (eoa, self)
        | Ok cut =>
          match Extent.between cut eoa with
          | None => Ret (eoa, self)
          | Some released =>
            self ← take_range self released;
            Ret (cut, self)
          end
        end
      end
    end
  end.

Definition take_trailing (self : FreeList) (eof : Z) : outcome (option Z * FreeList) :=
  match last (regions self) with
  | Some e =>
    if Extent.end_ e =? eof then
      self ← subtract_bytes self (Extent.len e);
      Ret (Some (Extent.start e),
           mkFreeList (take (length (regions self) - 1) (regions self)) (total_bytes self))
    else Ret (None, self)
  | None => Ret (None, self)
  end.

(** ** Queries *)

(** [binary_search_by_key(..).is_ok()] on the sorted regions: one of them has
    the key. *)
Definition adjoins (self : FreeList) (extent : Extent) : bool :=
  existsb (λ r, Extent.end_ r =? Extent.start extent) (regions self)
  || existsb (λ r, Extent.start r =? Extent.end_ extent) (regions self).

Definition adjoins_within (self : FreeList) (extent : Extent) (unit_ : Z) : bool :=
  existsb (λ r, Extent.adjoins_within r extent unit_) (regions self).

Definition adjoins_whole_unit (self : FreeList) (extent : Extent) (unit_ : Z) : bool :=
  existsb (λ r, Extent.adjoins_whole_unit r extent unit_) (regions self).

(** The [u64] sum; its overflow behaviour is irrelevant on canonical lists,
    where [covered_len_bound] bounds the sum by the length of [extent]. *)
Definition covered_len (self : FreeList) (extent : Extent) : Z :=
  total (omap (λ r, Extent.intersection r extent) (regions self)).

Definition largest (self : FreeList) : Z :=
  foldr Z.max 0 (Extent.len <$> regions self).

Definition largest_whole_units (self : FreeList) (align : Z) : Z :=
  foldr Z.max 0 (Extent.len <$> omap (λ r, Extent.aligned_interior r align) (regions self)).

End FreeList.
