(* ===== verification/FreeListFacts.v ===== *)
(** * The free list: invariant and specification lemmas

    Each operation of [FreeLists] is specified against the set of addresses the
    list covers: it does not panic on a well-formed list, keeps the list
    well-formed, and changes the set as documented. *)

From S2P Require Import Prelude Addresses Extents Regions Requests FreeLists.

Local Open Scope Z_scope.

(** The invariant every method upholds: canonical regions and an exact total. *)
Definition wf (l : FreeList) : Prop :=
  canonical (regions l) ∧ total_bytes l = total (regions l).

(** The address is free in the list. *)
Definition free_at (l : FreeList) (a : Z) : Prop := mem a (regions l).

Lemma wf_new : wf FreeList.new.
Proof. split; [constructor|done]. Qed.

Lemma wf_total_u64 (l : FreeList) : wf l → u64 (total_bytes l).
Proof.
  intros [Hc ->]. split; [apply total_nonneg|].
  by apply ordered_total_u64, canonical_ordered.
Qed.

Lemma wf_unique (l1 l2 : FreeList) :
  wf l1 → wf l2 → (∀ a, free_at l1 a ↔ free_at l2 a) → l1 = l2.
Proof.
  destruct l1 as [r1 t1], l2 as [r2 t2]. intros [H1 T1] [H2 T2] Hs.
  simpl in *. assert (r1 = r2) as -> by (by apply canonical_unique_list). congruence.
Qed.

(** ** Construction from sorted input *)

Lemma canonical_snoc (l : list Extent) (e f : Extent) :
  canonical (l ++ [e]) → Extent.start f = Extent.start e → canonical (l ++ [f]).
Proof.
  rewrite !canonical_app. intros (H1 & _ & H3) Hs. split_and!; [done| |].
  - repeat constructor.
  - intros x y Hx Hy%list_elem_of_singleton. subst y.
    specialize (H3 x e Hx ltac:(by left)). unfold gap in *. lia.
Qed.

Lemma canonical_snoc_gap (l : list Extent) (e f : Extent) :
  canonical (l ++ [e]) → gap e f → canonical ((l ++ [e]) ++ [f]).
Proof.
  intros Hc Hg. apply canonical_app. split_and!; [done|repeat constructor|].
  intros x y Hx ->%list_elem_of_singleton.
  apply elem_of_app in Hx as [Hx| ->%list_elem_of_singleton]; [|done].
  apply canonical_app in Hc as (_ & _ & H3).
  specialize (H3 x e Hx ltac:(by left)). unfold gap in *. elia.
Qed.

(** The state of the construction after the extent [p]: the vector [acc] is
    canonical, ends where [p] ends and has the cached total. *)
Definition build_inv (acc : list Extent) (tot : Z) (previous : option Extent) : Prop :=
  canonical (reverse acc) ∧ tot = total acc ∧
  match previous, acc with
  | None, [] => True
  | Some p, last :: _ => Extent.end_ last = Extent.end_ p
  | _, _ => False
  end.

(** Adding the next extent of an ordered input keeps the invariant. *)
Lemma from_sorted_step acc tot previous e rest :
  build_inv acc tot previous →
  FreeList.order_error previous e = None →
  ∃ acc' tot', build_inv acc' tot' (Some e) ∧
    (∀ a, mem a acc' ↔ mem a acc ∨ inside a e) ∧
    FreeList.from_sorted_loop acc tot previous (e :: rest) =
    FreeList.from_sorted_loop acc' tot' (Some e) rest.
Proof.
  intros (Hc & Ht & Hp) Hoe. cbn [FreeList.from_sorted_loop]. rewrite Hoe.
  assert (Hend : match acc with [] => True | last :: _ => Extent.end_ last ≤ Extent.start e end).
  { destruct previous as [p|], acc as [|last init]; try done. rewrite Hp.
    unfold FreeList.order_error in Hoe. zbool; [done..|lia]. }
  assert (Hsum : total acc + Extent.len e ≤ U64_MAX).
  { rewrite <- total_reverse.
    enough (ordered (reverse acc ++ [e])) as Ho%ordered_total_u64.
    { rewrite total_app, total_cons, total_nil in Ho. lia. }
    destruct acc as [|last init]; [repeat constructor|].
    rewrite reverse_cons in *. apply ordered_app. split_and!.
    - by apply canonical_ordered.
    - repeat constructor.
    - intros x y Hx ->%list_elem_of_singleton. unfold before.
      apply elem_of_app in Hx as [Hx| ->%list_elem_of_singleton]; [|done].
      apply canonical_app in Hc as (_ & _ & H3).
      specialize (H3 x last Hx ltac:(by left)). unfold gap in H3. elia. }
  assert (Hadd : ByteLength.checked_add tot (Extent.len e) = Some (tot + Extent.len e)).
  { apply checked_add_Some. lia. }
  rewrite Hadd. cbn [expect mbind outcome_bind].
  destruct acc as [|last init]; [|destruct (Extent.end_ last =? Extent.start e) eqn:E].
  - exists [e], (tot + Extent.len e). split_and!; [|intros a; autorewrite with mem; tauto|done].
    split_and!; [repeat constructor|rewrite total_cons; lia|done].
  - destruct (ext_between_ex (Extent.start last) (Extent.end_ e)) as (u & Hu & Us & Ue); [elia..|].
    rewrite Hu. exists (u :: init), (tot + Extent.len e). split_and!; [split_and!| |done].
    + rewrite reverse_cons in *. by eapply canonical_snoc.
    + rewrite total_cons in *. elia.
    + done.
    + intros a. rewrite !mem_cons. unfold inside. rewrite Us, Ue. extents.
      enough (Extent.start last ≤ a < Extent.end_ e ↔
        Extent.start last ≤ a < Extent.end_ last ∨ Extent.start e ≤ a < Extent.end_ e) by tauto.
      lia.
  - exists (e :: last :: init), (tot + Extent.len e). split_and!; [split_and!| |done].
    + rewrite reverse_cons, reverse_cons in *. apply canonical_snoc_gap; [done|].
      unfold gap. lia.
    + rewrite !total_cons in *. lia.
    + done.
    + intros a. rewrite !mem_cons. tauto.
Qed.

(** Running the construction over an input whose consecutive extents are in
    order consumes it without a panic. *)
Lemma from_sorted_loop_prefix pre rest acc tot previous :
  build_inv acc tot previous →
  ordered (option_list previous ++ pre) →
  ∃ acc' tot', build_inv acc' tot' (match last pre with Some p => Some p | None => previous end) ∧
    (∀ a, mem a acc' ↔ mem a acc ∨ mem a pre) ∧
    FreeList.from_sorted_loop acc tot previous (pre ++ rest) =
    FreeList.from_sorted_loop acc' tot'
      (match last pre with Some p => Some p | None => previous end) rest.
Proof.
  revert acc tot previous. induction pre as [|e pre IH]; intros acc tot previous Hinv Ho.
  - exists acc, tot. split_and!; [done| |done]. intros a. autorewrite with mem. tauto.
  - assert (Hoe : FreeList.order_error previous e = None).
    { destruct previous as [p|]; [|done]. simpl in Ho. apply ordered_cons in Ho as [HF _].
      apply Forall_cons in HF as [Hb _]. unfold before in Hb. unfold FreeList.order_error.
      destruct (Extent.start e <? Extent.start p) eqn:E1; [elia|].
      destruct (Extent.start e <? Extent.end_ p) eqn:E2; [lia|done]. }
    destruct (from_sorted_step acc tot previous e (pre ++ rest) Hinv Hoe)
      as (acc1 & tot1 & Hinv1 & Hm1 & Heq1).
    destruct (IH acc1 tot1 (Some e)) as (acc2 & tot2 & Hinv2 & Hm2 & Heq2); [done| |].
    { destruct previous; simpl in *; [by apply ordered_cons in Ho as [_ Ho]|done]. }
    exists acc2, tot2. rewrite <- app_comm_cons, Heq1.
    assert (Hlast : match last (e :: pre) with Some p => Some p | None => previous end =
      match last pre with Some p => Some p | None => Some e end).
    { rewrite last_cons. by destruct (last pre). }
    rewrite Hlast. split_and!; [done| |done].
    intros a. rewrite Hm2, Hm1, mem_cons. tauto.
Qed.

Lemma from_sorted_ok (input : list Extent) :
  ordered input →
  FreeList.from_sorted input ⇝ λ r, ∃ l, r = Ok l ∧ wf l ∧ same_set (regions l) input.
Proof.
  intros Ho. unfold FreeList.from_sorted.
  destruct (from_sorted_loop_prefix input [] [] 0 None) as (acc & tot & Hinv & Hm & Heq).
  { split_and!; [constructor|done|done]. }
  { done. }
  rewrite app_nil_r in Heq. rewrite Heq. apply returns_ret.
  destruct Hinv as (Hc & Ht & _). eexists. split; [done|]. split; [split; simpl|].
  - done.
  - by rewrite total_reverse.
  - intros a. simpl. rewrite mem_rev, Hm. autorewrite with mem. tauto.
Qed.

(** The error names the first consecutive pair out of order. *)
Lemma from_sorted_err (pre post : list Extent) (p n : Extent) :
  ordered (pre ++ [p]) → Extent.start n < Extent.end_ p →
  FreeList.from_sorted (pre ++ p :: n :: post) =
  Ret (Err (if Extent.start n <? Extent.start p then Unsorted p n else Overlap p n)).
Proof.
  intros Ho Hlt. unfold FreeList.from_sorted.
  destruct (from_sorted_loop_prefix (pre ++ [p]) (n :: post) [] 0 None)
    as (acc & tot & Hinv & Hm & Heq).
  { split_and!; [constructor|done|done]. }
  { done. }
  rewrite <- app_assoc in Heq. simpl in Heq. rewrite Heq, last_snoc.
  cbn [FreeList.from_sorted_loop FreeList.order_error].
  destruct (Extent.start n <? Extent.start p) eqn:E1; [done|].
  destruct (Extent.start n <? Extent.end_ p) eqn:E2; [done|lia].
Qed.

(** Every input is ordered or has a first offending pair. *)
Lemma ordered_or_violation (input : list Extent) :
  ordered input ∨
  ∃ pre p n post, input = pre ++ p :: n :: post ∧ ordered (pre ++ [p]) ∧
    Extent.start n < Extent.end_ p.
Proof.
  induction input as [|x input IH] using rev_ind; [left; constructor|].
  destruct IH as [Ho|(pre & p & n & post & -> & Ho & Hlt)].
  - destruct (last input) as [p|] eqn:El.
    + apply last_Some in El as [init ->].
      destruct (Z.le_gt_cases (Extent.end_ p) (Extent.start x)) as [Hle|Hgt].
      * left. apply ordered_app. split_and!; [done|repeat constructor|].
        intros y z Hy ->%list_elem_of_singleton. unfold before.
        apply elem_of_app in Hy as [Hy| ->%list_elem_of_singleton]; [|done].
        apply ordered_app in Ho as (_ & _ & H3).
        specialize (H3 y p Hy ltac:(by left)). unfold before in H3. elia.
      * right. exists init, p, x, []. rewrite <- app_assoc. split_and!; [done|done|lia].
    + apply last_None in El as ->. left. repeat constructor.
  - right. exists pre, p, n, (post ++ [x]). rewrite <- app_assoc. done.
Qed.

(** ** Recording free space *)

Lemma free_absorb_spec `{Profile} ext rest ms me tot :
  canonical rest → Forall (λ r, ms ≤ Extent.end_ r) rest →
  0 ≤ ms < me → me ≤ U64_MAX → total rest ≤ tot →
  (debug_assertions = true → clear_of ext rest) →
  FreeList.free_absorb ext rest ms me tot ⇝ λ '(ms', me', tot', upper),
    ∃ mid, rest = mid ++ upper ∧ 0 ≤ ms' ≤ ms ∧ me ≤ me' ≤ U64_MAX ∧
      tot' = tot - total mid ∧ Forall (λ r, me' < Extent.start r) upper ∧
      (∀ a, ms' ≤ a < me' ↔ ms ≤ a < me ∨ mem a mid) ∧
      (∀ x, x < ms → Forall (λ r, x < Extent.start r) rest → x < ms').
Proof.
  revert ms me tot. induction rest as [|r rest IH]; intros ms me tot Hc HF Hm HM Ht Hd.
  { apply returns_ret. exists []. split_and!; rewrite ?total_nil; try (done || lia).
    intros a. rewrite mem_nil. tauto. }
  cbn [FreeList.free_absorb]. destruct (Extent.start r <=? me) eqn:E.
  - apply canonical_cons in Hc as [HG Hc]. apply Forall_cons in HF as [Hr HF].
    rewrite total_cons in Ht. pose proof (total_nonneg rest).
    apply step_debug.
    { intros Hdbg. specialize (Hd Hdbg). apply Forall_cons in Hd as [Ha _]. elia. }
    apply (step_expect _ (tot - Extent.len r)); [apply checked_sub_Some; lia|].
    eapply returns_mono.
    { apply IH; [done| |elia|elia|lia|].
      - eapply Forall_impl; [exact HG|]. unfold gap. intros x Hx. elia.
      - intros Hdbg. specialize (Hd Hdbg). by apply Forall_cons in Hd as [_ Hd]. }
    intros [[[ms' me'] tot'] upper] (mid & -> & Hms & Hme & -> & HU & Hset & Hlow).
    exists (r :: mid). rewrite total_cons. split_and!; try (done || lia).
    + intros a. rewrite Hset, mem_cons. pose proof (ext_bounds r).
      enough (Z.min ms (Extent.start r) ≤ a < Z.max me (Extent.end_ r) ↔
              ms ≤ a < me ∨ inside a r) by tauto.
      unfold inside. lia.
    + intros x Hx HL. apply Forall_cons in HL as [HL1 HL2]. apply Hlow; [lia|done].
  - apply returns_ret. exists []. split_and!; rewrite ?total_nil; try (done || lia).
    + apply canonical_cons in Hc as [HG _]. constructor; [lia|].
      eapply Forall_impl; [exact HG|]. unfold gap. intros x Hx. elia.
    + intros a. rewrite mem_nil. tauto.
Qed.

Lemma free_spec `{Profile} (l : FreeList) (e : Extent) :
  wf l → (debug_assertions = true → clear_of e (regions l)) →
  FreeList.free l e ⇝ λ l', wf l' ∧ ∀ a, free_at l' a ↔ free_at l a ∨ inside a e.
Proof.
  intros [Hc Ht] Hd. unfold FreeList.free.
  destruct (span _ (regions l)) as [lower rest] eqn:Es.
  apply span_spec in Es as (Hl & HL & Hrest). rewrite Hl in *.
  apply canonical_app in Hc as (Hc1 & Hc2 & Hx).
  rewrite total_app in Ht. pose proof (total_nonneg lower). pose proof (ext_bounds e) as Be.
  eapply returns_bind.
  { apply (free_absorb_spec e rest); [done| |elia|elia|lia|].
    - destruct rest as [|r rest]; [constructor|]. specialize (Hrest r rest eq_refl).
      apply canonical_cons in Hc2 as [HG _]. constructor; [elia|].
      eapply Forall_impl; [exact HG|]. unfold gap. intros x Hg. elia.
    - intros Hdbg. specialize (Hd Hdbg). unfold clear_of in *.
      by apply Forall_app in Hd as [_ Hd]. }
  intros [[[ms me] tot] upper] (mid & -> & Hms & Hme & -> & HU & Hset & Hlow).
  destruct (ext_between_ex ms me) as (m & Hm & Ms & Me); [lia..|].
  apply (step_expect _ m); [done|].
  rewrite total_app in Ht. pose proof (total_nonneg upper).
  assert (Hlt : ∀ x, x ∈ lower → Extent.end_ x < ms).
  { intros x Hxl. apply Hlow.
    - rewrite Forall_forall in HL. specialize (HL x Hxl). cbv beta in HL. lia.
    - apply Forall_forall. intros r Hr. exact (Hx x r Hxl Hr). }
  assert (Hcan : canonical (lower ++ m :: upper)).
  { apply canonical_app. apply canonical_app in Hc2 as (_ & Hcu & _). split_and!; [done| |].
    - apply canonical_cons. split; [|done]. eapply Forall_impl; [exact HU|].
      unfold gap. intros; lia.
    - intros x y Hxl [->|Hy]%elem_of_cons; [unfold gap; rewrite Ms; by apply Hlt|].
      apply Hx; [done|]. apply elem_of_app. by right. }
  pose proof (ordered_total_u64 _ (canonical_ordered _ Hcan)) as Hbound.
  rewrite total_app, total_cons in Hbound.
  apply (step_expect _ (total_bytes l - total mid + Extent.len m));
    [apply checked_add_Some; lia|].
  apply returns_ret. split; [split; simpl; [done|]|].
  - rewrite total_app, total_cons. lia.
  - intros a. unfold free_at. rewrite Hl. simpl. rewrite !mem_app, mem_cons.
    specialize (Hset a). unfold inside. rewrite Ms, Me, Hset. tauto.
Qed.

(** ** Best fit *)

(** The scan starting from a given best candidate. *)
Lemma best_fit_gen f n i best l j c :
  FreeList.best_fit f n i best l = Some (j, c) →
  (best = Some (j, c) ∧ ∀ e c', e ∈ l → f e = Some c' → n ≤ Extent.len c' → Extent.len c ≤ Extent.len c') ∨
  (∃ pre e post, l = pre ++ e :: post ∧ j = (i + length pre)%nat ∧ f e = Some c ∧ n ≤ Extent.len c ∧
     (∀ k b, best = Some (k, b) → Extent.len c < Extent.len b) ∧
     (∀ e' c', e' ∈ pre → f e' = Some c' → n ≤ Extent.len c' → Extent.len c < Extent.len c') ∧
     (∀ e' c', e' ∈ post → f e' = Some c' → n ≤ Extent.len c' → Extent.len c ≤ Extent.len c')).
Proof.
  revert i best. induction l as [|x l IH]; intros i best; simpl.
  { intros ->. left. split; [done|]. by intros ?? []%not_elem_of_nil. }
  set (best' := match f x with Some _ => _ | None => _ end).
  intros [[Hb HF]|(pre & e & post & -> & -> & Hf & Hn & Hbest & Hpre & Hpost)]%IH.
  - unfold best' in Hb. destruct (f x) as [cx|] eqn:Ex.
    + destruct ((n <=? Extent.len cx) && _) eqn:E in Hb.
      * injection Hb as <- <-. apply andb_true_iff in E as [E1 E2]. right.
        exists [], x, l. split_and!; [done|simpl; lia|done|lia| | |done].
        -- intros k b ->. cbn in E2. lia.
        -- by intros ?? []%not_elem_of_nil.
      * left. split; [done|]. intros e c' [->|He]%elem_of_cons Hf' Hn; [|by eapply HF].
        rewrite Hb in E. simplify_eq. lia.
    + left. split; [done|]. intros e c' [->|He]%elem_of_cons Hf' Hn; [congruence|by eapply HF].
  - right. exists (x :: pre), e, post. split_and!; [done|simpl; lia|done|done| | |done].
    + intros k b ->. destruct best' as [[k' b']|] eqn:Eb; [|unfold best' in Eb].
      * specialize (Hbest k' b' eq_refl). unfold best' in Eb.
        destruct (f x) as [cx|]; [|simplify_eq; lia].
        destruct ((n <=? Extent.len cx) && _) eqn:E in Eb; simplify_eq; lia.
      * destruct (f x); [|done]. destruct (_ && _) in Eb; done.
    + intros e' c' [->|He']%elem_of_cons Hf' Hn'; [|by eapply Hpre].
      unfold best' in Hbest. rewrite Hf' in Hbest.
      destruct ((n <=? Extent.len c') && _) eqn:E in Hbest; [by eapply Hbest|].
      destruct best as [[k b]|]; [|lia]. specialize (Hbest k b eq_refl). lia.
Qed.

Lemma best_fit_Some f n l j c :
  FreeList.best_fit f n 0 None l = Some (j, c) →
  ∃ pre e post, l = pre ++ e :: post ∧ j = length pre ∧ f e = Some c ∧ n ≤ Extent.len c ∧
    (∀ e' c', e' ∈ pre → f e' = Some c' → n ≤ Extent.len c' → Extent.len c < Extent.len c') ∧
    (∀ e' c', e' ∈ post → f e' = Some c' → n ≤ Extent.len c' → Extent.len c ≤ Extent.len c').
Proof.
  intros [[? _]|(pre & e & post & ? & ? & ? & ? & _ & ? & ?)]%best_fit_gen; [done|].
  by exists pre, e, post.
Qed.

Lemma best_fit_None f n i best l :
  FreeList.best_fit f n i best l = None →
  best = None ∧ ∀ e c, e ∈ l → f e = Some c → Extent.len c < n.
Proof.
  revert i best. induction l as [|x l IH]; intros i best; simpl.
  { intros ->. split; [done|]. by intros ?? []%not_elem_of_nil. }
  intros [Hb HF]%IH. destruct (f x) as [cx|] eqn:Ex.
  - destruct best as [[k b]|]; [by destruct (_ && _) in Hb|].
    destruct ((n <=? Extent.len cx) && true) eqn:E in Hb; [done|]. split; [done|].
    intros e c [->|He]%elem_of_cons Hf; [simplify_eq; lia|by eapply HF].
  - split; [done|]. intros e c [->|He]%elem_of_cons Hf; [congruence|by eapply HF].
Qed.

(** ** Carving an allocation out of a region *)

(** Replacing the region [r] by what an allocation [x] inside it leaves. *)
Lemma carve_wf (l : FreeList) (pre post ps : list Extent) (r x : Extent) :
  wf l → regions l = pre ++ r :: post →
  parts_of ps r → canonical ps → total ps = Extent.len r - Extent.len x →
  wf (mkFreeList (pre ++ ps ++ post) (total_bytes l - Extent.len x)).
Proof.
  intros [Hc Ht] Hl HP Hps Htot. rewrite Hl in *. split; simpl.
  - by eapply canonical_replace.
  - rewrite Ht, !total_app, total_cons. lia.
Qed.

Lemma carve_set (l : FreeList) (pre post ps : list Extent) (r x : Extent) (t a : Z) :
  wf l → regions l = pre ++ r :: post → within x r →
  parts_of ps r → (∀ b, mem b ps ↔ inside b r ∧ ¬ inside b x) →
  free_at (mkFreeList (pre ++ ps ++ post) t) a ↔ free_at l a ∧ ¬ inside a x.
Proof.
  intros [Hc _] Hl Hx HP Hps. unfold free_at. simpl. rewrite Hl in *.
  rewrite (mem_replace _ _ _ _ a Hc HP), Hps.
  assert (inside a r → mem a (pre ++ r :: post)).
  { intros. rewrite mem_app, mem_cons. tauto. }
  assert (inside a x → inside a r) by elia. tauto.
Qed.

(** The total of a list covers every region of it. *)
Lemma total_region (l : FreeList) (pre post : list Extent) (r : Extent) :
  wf l → regions l = pre ++ r :: post → Extent.len r ≤ total_bytes l.
Proof.
  intros [_ ->] ->. rewrite total_app, total_cons.
  pose proof (total_nonneg pre). pose proof (total_nonneg post). lia.
Qed.

(** What the two-sided remainder of [x] in [r] is. *)
Definition remainders (r x : Extent) : list Extent :=
  option_list (Extent.between (Extent.start r) (Extent.start x)) ++
  option_list (Extent.between (Extent.end_ x) (Extent.end_ r)).

Lemma mem_remainders (r x : Extent) (a : Z) :
  within x r → mem a (remainders r x) ↔ inside a r ∧ ¬ inside a x.
Proof.
  intros Hx. unfold remainders. rewrite mem_app, !mem_between by elia. elia.
Qed.

Lemma elem_of_between (e : Extent) (s t : Z) :
  e ∈ option_list (Extent.between s t) ↔ Extent.start e = s ∧ Extent.end_ e = t.
Proof.
  rewrite <- ext_between_Some. destruct (Extent.between s t); simpl.
  - rewrite list_elem_of_singleton. split; congruence.
  - split; [intros []%not_elem_of_nil|done].
Qed.

Lemma parts_of_between (s t : Z) (r : Extent) :
  Extent.start r ≤ s → t ≤ Extent.end_ r → parts_of (option_list (Extent.between s t)) r.
Proof.
  intros. apply Forall_forall. intros p Hp%elem_of_between. elia.
Qed.

Lemma canonical_between (s t : Z) : canonical (option_list (Extent.between s t)).
Proof. destruct (Extent.between s t); repeat constructor. Qed.

Lemma total_between (s t : Z) :
  0 ≤ s → t ≤ U64_MAX → total (option_list (Extent.between s t)) = Z.max 0 (t - s).
Proof.
  intros. destruct (Extent.between s t) as [e|] eqn:E; simpl; rewrite ?total_cons, ?total_nil.
  - apply ext_between_Some in E. elia.
  - apply ext_between_None in E; lia.
Qed.

Lemma remainders_parts (r x : Extent) : within x r → parts_of (remainders r x) r.
Proof. intros. apply Forall_app. split; apply parts_of_between; elia. Qed.

Lemma remainders_canonical (r x : Extent) : within x r → canonical (remainders r x).
Proof.
  intros. apply canonical_app. split_and!; [apply canonical_between..|].
  intros e f He%elem_of_between Hf%elem_of_between. unfold gap. elia.
Qed.

Lemma remainders_total (r x : Extent) :
  within x r → total (remainders r x) = Extent.len r - Extent.len x.
Proof. intros. unfold remainders. rewrite total_app, !total_between by elia. elia. Qed.

(** A prefix leaves only a suffix. *)
Lemma remainders_prefix (r x : Extent) :
  Extent.start x = Extent.start r →
  remainders r x = option_list (Extent.between (Extent.end_ x) (Extent.end_ r)).
Proof.
  intros Hs. unfold remainders. rewrite Hs.
  destruct (Extent.between (Extent.start r) (Extent.start r)) as [e|] eqn:E; [|done].
  apply ext_between_Some in E. elia.
Qed.

Lemma between_guard (s t : Z) :
  0 ≤ s → t ≤ U64_MAX →
  (if s <? t then e ← expect (Extent.between s t); Ret [e] else Ret []) =
  Ret (option_list (Extent.between s t)).
Proof.
  intros. destruct (s <? t) eqn:E.
  - destruct (ext_between_ex s t) as (e & -> & _); [lia..|]. done.
  - destruct (Extent.between s t) as [e|] eqn:Eb; [|done].
    apply ext_between_Some in Eb. elia.
Qed.

Lemma take_drop_middle_parts (pre post ps : list Extent) (r : Extent) :
  take (length pre) (pre ++ r :: post) ++ ps ++ drop (S (length pre)) (pre ++ r :: post) =
  pre ++ ps ++ post.
Proof.
  rewrite take_app_length, drop_app_ge by lia.
  replace (S (length pre) - length pre)%nat with 1%nat by lia. done.
Qed.

Lemma subtract_bytes_ret (l : FreeList) (n : Z) :
  n ≤ total_bytes l →
  FreeList.subtract_bytes l n = Ret (mkFreeList (regions l) (total_bytes l - n)).
Proof.
  intros. unfold FreeList.subtract_bytes, ByteLength.checked_sub.
  by rewrite (proj2 (checked_sub_Some (total_bytes l) n (total_bytes l - n))).
Qed.

(** ** Allocation *)

(** The region chosen for [n] bytes of a candidate [c]: no other candidate that
    fits is shorter, and earlier ones are longer. *)
Definition best_choice (f : Extent → option Extent) (n : Z) (l : FreeList)
    (r c : Extent) : Prop :=
  ∃ pre post, regions l = pre ++ r :: post ∧ f r = Some c ∧ n ≤ Extent.len c ∧
    (∀ e c', e ∈ pre → f e = Some c' → n ≤ Extent.len c' → Extent.len c < Extent.len c') ∧
    (∀ e c', e ∈ post → f e = Some c' → n ≤ Extent.len c' → Extent.len c ≤ Extent.len c').

Lemma alloc_spec (l : FreeList) (n : Z) :
  wf l → 0 ≤ n →
  FreeList.alloc l n ⇝ λ '(o, l'), wf l' ∧
    match o with
    | None => l' = l ∧ (n = 0 ∨ ∀ e, e ∈ regions l → Extent.len e < n)
    | Some x => Extent.len x = n ∧ n ≠ 0 ∧
        (∃ r, best_choice Some n l r r ∧ Extent.start x = Extent.start r) ∧
        (∀ a, free_at l' a ↔ free_at l a ∧ ¬ inside a x)
    end.
Proof.
  intros Hwf Hn. unfold FreeList.alloc, ByteLength.is_zero.
  destruct (n =? 0) eqn:E0.
  { apply returns_ret. split; [done|]. split; [done|]. left. lia. }
  destruct (FreeList.best_fit _ _ _ _ _) as [[i r]|] eqn:Eb.
  2:{ apply best_fit_None in Eb as [_ Hno]. apply returns_ret. split; [done|].
      split; [done|]. right. intros e He. by apply (Hno e e). }
  apply best_fit_Some in Eb as (pre & r' & post & Hl & -> & [= ->] & Hfit & Hpre & Hpost).
  destruct (ext_new_ex (Extent.start r) n) as (x & Hx & Xs & Xe); [elia..|].
  apply (step_expect _ x); [done|].
  assert (Hwx : within x r) by elia.
  assert (Hxl : Extent.len x = n) by elia.
  pose proof (total_region l pre post r Hwf Hl).
  eapply (returns_bind _ _ (λ rs, rs = pre ++ remainders r x ++ post)).
  { rewrite remainders_prefix by done. destruct (Extent.end_ x =? Extent.end_ r) eqn:Ee.
    - apply returns_ret. rewrite Hl, delete_middle.
      replace (Extent.between _ _) with (@None Extent); [done|].
      symmetry. apply ext_between_None; elia.
    - destruct (ext_between_ex (Extent.end_ x) (Extent.end_ r)) as (rem & Hr & _); [elia..|].
      rewrite Hr. apply (step_expect _ rem); [done|]. apply returns_ret.
      rewrite Hl, insert_app_r_alt, Nat.sub_diag by lia. done. }
  intros rs ->. rewrite subtract_bytes_ret by (simpl; lia).
  apply returns_ret. rewrite <- Hxl. split_and!; [|done|lia| |].
  - by apply (carve_wf l pre post _ r);
      [..|apply remainders_parts|apply remainders_canonical|apply remainders_total].
  - exists r. split; [|done]. exists pre, post. split_and!; try done; [lia|..];
      rewrite Hxl; done.
  - intros a. apply (carve_set l pre post _ r x); [done..|by apply remainders_parts|].
    intros b. by apply mem_remainders.
Qed.

Lemma alloc_whole_units_spec `{Profile} (l : FreeList) (n align : Z) :
  wf l → 0 ≤ n → 0 ≤ align → (debug_assertions = true → align ≠ 0 → n mod align = 0) →
  FreeList.alloc_whole_units l n align ⇝ λ '(o, l'), wf l' ∧
    match o with
    | None => l' = l ∧ (n = 0 ∨ align = 0 ∨
        ∀ e i, e ∈ regions l → Extent.aligned_interior e align = Some i → Extent.len i < n)
    | Some x => Extent.len x = n ∧ 0 < n ∧ 0 < align ∧
        (∃ r i, best_choice (λ e, Extent.aligned_interior e align) n l r i ∧
           Extent.start x = Extent.start i ∧ within x i ∧ within i r) ∧
        (∀ a, free_at l' a ↔ free_at l a ∧ ¬ inside a x)
    end.
Proof.
  intros Hwf Hn Ha Hd. unfold FreeList.alloc_whole_units, ByteLength.is_zero.
  destruct ((n =? 0) || (align =? 0)) eqn:E0.
  { apply returns_ret. split; [done|]. split; [done|]. lia. }
  apply orb_false_iff in E0 as [E0 E1].
  apply step_debug; [intros Hdbg; specialize (Hd Hdbg); lia|].
  destruct (FreeList.best_fit _ _ _ _ _) as [[j i]|] eqn:Eb.
  2:{ apply best_fit_None in Eb as [_ Hno]. apply returns_ret. split; [done|].
      split; [done|]. right. right. intros e i. by apply Hno. }
  apply best_fit_Some in Eb as (pre & r & post & Hl & -> & Hi & Hfit & Hpre & Hpost).
  apply (step_expect _ r); [rewrite Hl; by apply list_lookup_middle|].
  assert (Hir : within i r).
  { apply ext_aligned_interior_Some in Hi; [|lia]. elia. }
  destruct (ext_new_ex (Extent.start i) n) as (x & Hx & Xs & Xe); [elia..|].
  apply (step_expect _ x); [done|].
  assert (Hxi : within x i) by elia. assert (Hwx : within x r) by elia.
  assert (Hxl : Extent.len x = n) by elia.
  pose proof (total_region l pre post r Hwf Hl).
  rewrite !between_guard by elia. cbn [mbind outcome_bind].
  rewrite Hl, take_drop_middle_parts. fold (remainders r x).
  rewrite subtract_bytes_ret by (simpl; elia).
  apply returns_ret. rewrite <- Hxl. split_and!; [|done|lia|lia| |].
  - by apply (carve_wf l pre post _ r);
      [..|apply remainders_parts|apply remainders_canonical|apply remainders_total].
  - exists r, i. split_and!; try done. exists pre, post. rewrite Hxl. done.
  - intros a. apply (carve_set l pre post _ r x); [done..|by apply remainders_parts|].
    intros b. by apply mem_remainders.
Qed.

(** ** Removing one range *)

(** What is left of the region [r] without the range [x]. *)
Definition minus (r x : Extent) : list Extent :=
  match Extent.intersection r x with None => [r] | Some _ => remainders r x end.

Lemma minus_spec (r x : Extent) :
  parts_of (minus r x) r ∧ canonical (minus r x) ∧
  (∀ a, mem a (minus r x) ↔ inside a r ∧ ¬ inside a x).
Proof.
  unfold minus. destruct (Extent.intersection r x) as [o|] eqn:E.
  - apply ext_intersection_Some in E. extents. split_and!.
    + apply Forall_app. split; apply parts_of_between; elia.
    + apply canonical_app. split_and!; [apply canonical_between..|].
      intros e f He%elem_of_between Hf%elem_of_between. unfold gap. elia.
    + intros a. unfold remainders. rewrite mem_app, !mem_between by elia. elia.
  - apply ext_intersection_None in E. split_and!.
    + repeat constructor; elia.
    + repeat constructor.
    + intros a. rewrite mem_singleton. elia.
Qed.

Lemma minus_total (r x o : Extent) :
  Extent.intersection r x = Some o → total (minus r x) = Extent.len r - Extent.len o.
Proof.
  intros E. unfold minus. rewrite E. apply ext_intersection_Some in E.
  unfold remainders. rewrite total_app, !total_between by elia. elia.
Qed.

Lemma take_range_loop_spec (x : Extent) (l : list Extent) (tot : Z) :
  total l ≤ tot →
  FreeList.take_range_loop x tot l ⇝ λ '(out, tot'),
    out = l ≫= (λ r, minus r x) ∧ tot' = tot - total l + total out.
Proof.
  revert tot. induction l as [|r l IH]; intros tot Ht.
  { apply returns_ret. rewrite total_nil. split; [done|lia]. }
  rewrite total_cons in Ht. cbn [FreeList.take_range_loop].
  pose proof (total_nonneg l). pose proof (ext_bounds r).
  destruct (Extent.intersection r x) as [o|] eqn:E.
  - pose proof (minus_total _ _ _ E) as Hmt.
    assert (Hm : minus r x = remainders r x) by (unfold minus; by rewrite E).
    assert (Ho : Extent.len o ≤ Extent.len r) by (apply ext_intersection_Some in E; elia).
    apply (step_expect _ (tot - Extent.len o)); [apply checked_sub_Some; lia|].
    eapply (returns_bind _ _ (λ ps, ps = minus r x)).
    { unfold FreeList.take_range_parts. rewrite !between_guard by elia. by apply returns_ret. }
    intros ps ->. eapply returns_bind; [apply IH; lia|].
    intros [out tot'] [-> ->]. apply returns_ret. split; [done|].
    rewrite total_cons, total_app. lia.
  - eapply returns_bind; [apply IH; lia|].
    intros [out tot'] [-> ->]. apply returns_ret.
    assert (Hm : minus r x = [r]) by (unfold minus; by rewrite E).
    split; [cbn; by rewrite Hm|]. rewrite !total_cons. lia.
Qed.

Lemma take_range_spec (l : FreeList) (x : Extent) :
  wf l →
  FreeList.take_range l x ⇝ λ l', wf l' ∧ ∀ a, free_at l' a ↔ free_at l a ∧ ¬ inside a x.
Proof.
  intros [Hc Ht]. unfold FreeList.take_range.
  eapply returns_bind; [apply take_range_loop_spec; lia|].
  intros [out tot] [-> ->]. apply returns_ret. split; [split; simpl|].
  - apply canonical_concat_map; [done|]. intros r _.
    pose proof (minus_spec r x). tauto.
  - lia.
  - intros a. unfold free_at. simpl. rewrite mem_concat_map. split.
    + intros (r & Hr & Hm). apply minus_spec in Hm as [Hi Hn]. split; [by exists r|done].
    + intros [(r & Hr & Hi) Hn]. exists r. split; [done|]. by apply minus_spec.
Qed.

(** ** Removing many ranges in one sweep *)

Lemma take_within_spec (region : Extent) (s tot : Z) (removed : list Extent) :
  Extent.start region ≤ s < Extent.end_ region → canonical removed →
  Forall (λ r, s < Extent.end_ r) removed → Extent.end_ region - s ≤ tot →
  FreeList.take_within region s removed tot ⇝ λ '(out, s', removed', tot'),
    s ≤ s' ≤ Extent.end_ region ∧ canonical out ∧
    Forall (λ p, s ≤ Extent.start p ∧ Extent.end_ p < s') out ∧
    (∀ a, s ≤ a < Extent.end_ region → (mem a out ∨ s' ≤ a) ↔ ¬ mem a removed) ∧
    (∃ d, removed = d ++ removed' ∧ Forall (λ r, Extent.end_ r ≤ Extent.end_ region) d) ∧
    tot' = tot - (Extent.end_ region - s) + total out + (Extent.end_ region - s').
Proof.
  revert s tot. induction removed as [|r removed IH]; intros s tot Hs Hc HF Htot.
  { apply returns_ret. split_and!; [lia|lia|constructor|constructor| |by exists []|].
    - intros a Ha. rewrite !mem_nil. lia.
    - rewrite total_nil. lia. }
  cbn [FreeList.take_within]. pose proof Hc as [HG Hc']%canonical_cons.
  pose proof HF as [HFr HF']%Forall_cons. pose proof (ext_bounds r). pose proof (ext_bounds region).
  destruct (Extent.end_ region <=? Extent.start r) eqn:E1.
  { apply returns_ret. split_and!; [lia|lia|constructor|constructor| |by exists []|].
    - intros a Ha. rewrite mem_nil, mem_cons. split; [|lia]. intros _ [Hi|Hm]; [elia|].
      pose proof (canonical_mem_lower _ _ _ Hc Hm). lia.
    - rewrite total_nil. lia. }
  destruct (ext_between_ex (Z.max s (Extent.start r)) (Z.min (Extent.end_ r) (Extent.end_ region)))
    as (o & Ho & Os & Oe); [elia..|].
  apply (step_expect _ o); [done|]. pose proof (ext_bounds o).
  apply (step_expect _ (tot - Extent.len o)); [apply checked_sub_Some; lia|].
  set (head := option_list (Extent.between s (Extent.start r))).
  assert (Hhm : ∀ a, mem a head ↔ s ≤ a < Extent.start r) by (intros; apply mem_between; lia).
  assert (Hht : total head = Z.max 0 (Extent.start r - s)) by (apply total_between; lia).
  assert (Hhe : ∀ p, p ∈ head → Extent.start p = s ∧ Extent.end_ p = Extent.start r).
  { intros p. apply elem_of_between. }
  destruct (Extent.end_ region <=? Extent.end_ r) eqn:E2.
  - apply returns_ret. split_and!; [lia|lia|apply canonical_between| | |by exists []|lia].
    + apply Forall_forall. intros p Hp%Hhe. lia.
    + intros a Ha. rewrite Hhm, mem_cons. split.
      * intros Hor [Hi|Hm]; [elia|]. pose proof (canonical_mem_lower _ _ _ Hc Hm). lia.
      * intros Hn. left. assert (¬ inside a r) by tauto. elia.
  - replace (Z.min (Extent.end_ r) (Extent.end_ region)) with (Extent.end_ r) in * by lia.
    eapply returns_bind.
    { apply IH; [lia|done| |lia]. eapply Forall_impl; [exact HG|]. unfold gap. intros; elia. }
    intros [[[out s'] removed'] tot'] (Hs' & Hco & HFo & Hset & (d & -> & Hd) & ->).
    apply returns_ret. rewrite Forall_forall in HFo.
    split_and!; [lia|lia| | | | |].
    + apply canonical_app. split_and!; [apply canonical_between|done|].
      intros p q Hp%Hhe Hq%HFo. unfold gap. lia.
    + apply Forall_app. split; apply Forall_forall; [intros p Hp%Hhe|intros p Hp%HFo]; elia.
    + intros a Ha. rewrite mem_app, Hhm, mem_cons.
      destruct (Z.le_gt_cases (Extent.end_ r) a).
      * specialize (Hset a ltac:(lia)). unfold inside.
        assert (¬ (s ≤ a < Extent.start r)) by lia.
        assert (¬ (Extent.start r ≤ a < Extent.end_ r)) by lia. tauto.
      * assert (¬ mem a out). { intros (p & Hp%HFo & Hi). elia. }
        assert (¬ mem a (d ++ removed')).
        { intros Hm. pose proof (canonical_mem_lower _ _ _ Hc Hm). lia. }
        unfold inside. split; [intros [[?|?]|?] [?|?]; done || lia|].
        intros Hn. left. left.
        assert (¬ (Extent.start r ≤ a < Extent.end_ r)) by tauto. lia.
    + exists (r :: d). split; [done|]. constructor; [lia|done].
    + rewrite total_app, Hht. lia.
Qed.

(** Skipping the removals that end at or below a position loses nothing above it. *)
Lemma skip_mem (s : Z) (l : list Extent) (a : Z) :
  s ≤ a → mem a (span (λ r, Extent.end_ r <=? s) l).2 ↔ mem a l.
Proof.
  intros Ha. destruct (span _ l) as [p q] eqn:E. apply span_spec in E as (-> & HF & _). simpl.
  rewrite mem_app. split; [tauto|]. intros [(e & He & Hi)|?]; [|done].
  rewrite Forall_forall in HF. specialize (HF e He). cbv beta in HF. elia.
Qed.

Lemma skip_canonical (s : Z) (l : list Extent) :
  canonical l → canonical (span (λ r, Extent.end_ r <=? s) l).2 ∧
  Forall (λ r, s < Extent.end_ r) (span (λ r, Extent.end_ r <=? s) l).2.
Proof.
  destruct (span _ l) as [p q] eqn:E. apply span_spec in E as (-> & _ & Hq). simpl.
  rewrite canonical_app. intros (_ & Hc & _). split; [done|].
  destruct q as [|r q]; [constructor|]. specialize (Hq r q eq_refl). cbv beta in Hq.
  apply canonical_cons in Hc as [HG _]. constructor; [lia|].
  eapply Forall_impl; [exact HG|]. unfold gap. intros; elia.
Qed.

Lemma take_ranges_loop_spec (l removed : list Extent) (tot : Z) :
  canonical l → canonical removed → total l ≤ tot →
  FreeList.take_ranges_loop l removed tot ⇝ λ '(out, tot'),
    canonical out ∧ (∀ a, mem a out ↔ mem a l ∧ ¬ mem a removed) ∧
    (∀ x, Forall (λ r, x < Extent.start r) l → Forall (λ p, x < Extent.start p) out) ∧
    tot' = tot - total l + total out.
Proof.
  revert removed tot. induction l as [|r l IH]; intros removed tot Hc Hcr Ht.
  { apply returns_ret. split_and!; [constructor| |by constructor|rewrite total_nil; lia].
    intros a. rewrite !mem_nil. tauto. }
  cbn [FreeList.take_ranges_loop]. pose proof (ext_bounds r).
  pose proof Hc as [HG Hc']%canonical_cons. rewrite total_cons in Ht.
  pose proof (total_nonneg l). destruct (skip_canonical (Extent.start r) removed Hcr) as [Hs1 Hs2].
  pose proof (skip_mem (Extent.start r) removed) as Hsm.
  set (removed1 := (span _ removed).2) in *.
  eapply returns_bind; [apply (take_within_spec r (Extent.start r)); [lia|done|done|lia]|].
  intros [[[out s'] removed2] tot1] (Hs & Hco & HFo & Hset & (d & Hd & HFd) & ->).
  rewrite Forall_forall in HFo, HFd. pose proof (total_nonneg out).
  assert (Hcr2 : canonical removed2) by (rewrite Hd, canonical_app in Hs1; tauto).
  assert (Hup : ∀ a, Extent.end_ r ≤ a → mem a removed2 ↔ mem a removed).
  { intros a Ha. rewrite <- (Hsm a) by lia. rewrite Hd, mem_app.
    split; [tauto|]. intros [(e & He%HFd & Hi)|?]; [elia|done]. }
  eapply returns_bind; [apply IH; [done|done|lia]|].
  intros [out2 tot2] (Hc2 & Hset2 & Hlow2 & ->). apply returns_ret.
  set (tail_ := option_list (Extent.between s' (Extent.end_ r))).
  assert (Htm : ∀ a, mem a tail_ ↔ s' ≤ a < Extent.end_ r) by (intros; apply mem_between; lia).
  assert (Htt : total tail_ = Z.max 0 (Extent.end_ r - s')) by (apply total_between; lia).
  assert (Hte : ∀ p, p ∈ tail_ → Extent.start p = s' ∧ Extent.end_ p = Extent.end_ r).
  { intros p. apply elem_of_between. }
  pose proof (Hlow2 (Extent.end_ r) HG) as Hl2. rewrite Forall_forall in Hl2.
  split_and!.
  - apply canonical_app. split_and!; [done| |].
    + apply canonical_app. split_and!; [apply canonical_between|done|].
      intros p q Hp%Hte Hq%Hl2. unfold gap. lia.
    + intros p q Hp%HFo [Hq%Hte|Hq%Hl2]%elem_of_app; unfold gap; lia.
  - intros a. rewrite !mem_app, Htm, Hset2, mem_cons.
    destruct (decide (inside a r)) as [Hi|Hni].
    + specialize (Hset a ltac:(elia)). rewrite (Hsm a) in Hset by elia.
      assert (¬ mem a l) by (intros Hm; pose proof (canonical_mem_lower _ _ _ Hc Hm); elia).
      assert (Extent.start r ≤ a < Extent.end_ r) by elia.
      assert (s' ≤ a < Extent.end_ r ↔ s' ≤ a) by lia. tauto.
    + assert (¬ mem a out) by (intros (p & Hp%HFo & Hi); elia).
      assert (¬ s' ≤ a < Extent.end_ r) by elia.
      assert (mem a l → mem a removed2 ↔ mem a removed); [|tauto].
      intros Hm. apply Hup. pose proof (canonical_mem_lower _ _ _ Hc Hm). lia.
  - intros x HF. apply Forall_cons in HF as [Hx HF]. rewrite !Forall_app. split_and!.
    + apply Forall_forall. intros p Hp%HFo. lia.
    + apply Forall_forall. intros p Hp%Hte. lia.
    + by apply Hlow2.
  - rewrite !total_app, total_cons, Htt. lia.
Qed.

Lemma take_ranges_spec (l ranges : FreeList) :
  wf l → wf ranges →
  FreeList.take_ranges l ranges ⇝ λ l', wf l' ∧
    ∀ a, free_at l' a ↔ free_at l a ∧ ¬ free_at ranges a.
Proof.
  intros [Hc Ht] [Hcr _]. unfold FreeList.take_ranges.
  destruct (FreeList.is_empty l || FreeList.is_empty ranges) eqn:E.
  - apply returns_ret. split; [done|]. intros a. unfold free_at, FreeList.is_empty in *.
    apply orb_true_iff in E as [E|E].
    + destruct (regions l); [|done]. rewrite mem_nil. tauto.
    + destruct (regions ranges); [|done]. rewrite mem_nil. tauto.
  - eapply returns_bind; [apply take_ranges_loop_spec; [done..|lia]|].
    intros [out tot] (? & ? & _ & ->). apply returns_ret. split; [split; simpl; [done|lia]|done].
Qed.

(** ** Intersection *)

Lemma intersect_within_spec (own : Extent) (others out others' : list Extent) :
  canonical others → FreeList.intersect_within own others = (out, others') →
  ordered out ∧ parts_of out own ∧ (∀ a, mem a out ↔ inside a own ∧ mem a others) ∧
  (∃ d, others = d ++ others' ∧ Forall (λ r, Extent.end_ r ≤ Extent.end_ own) d).
Proof.
  revert out others'. induction others as [|r others IH]; simpl; intros out others' Hc.
  { intros [= <- <-]. split_and!; [constructor|constructor| |by exists []].
    intros a. rewrite !mem_nil. tauto. }
  pose proof Hc as [HG Hc']%canonical_cons. pose proof (canonical_mem_lower r others) as Hlow.
  set (here := option_list (Extent.intersection own r)).
  assert (Hh : ∀ p, p ∈ here → within p own ∧ within p r).
  { intros p Hp. destruct (Extent.intersection own r) as [o|] eqn:Eo.
    - apply list_elem_of_singleton in Hp as ->. apply ext_intersection_Some in Eo. elia.
    - by apply not_elem_of_nil in Hp. }
  assert (Hhm : ∀ a, mem a here ↔ inside a own ∧ inside a r).
  { intros a. unfold here. rewrite mem_option.
    destruct (Extent.intersection own r) as [o|] eqn:Eo.
    - apply ext_intersection_Some in Eo. split.
      + intros (e & [= <-] & Hi). elia.
      + intros. exists o. split; [done|elia].
    - apply ext_intersection_None in Eo. split; [intros (e & ? & _); done|elia]. }
  assert (Hho : ordered here) by (unfold here; destruct (Extent.intersection own r); repeat constructor).
  destruct (Extent.end_ own <=? Extent.start r) eqn:E1; [|destruct (Extent.end_ own <=? Extent.end_ r) eqn:E2].
  - intros [= <- <-]. split_and!; [constructor|constructor| |by exists []].
    intros a. rewrite mem_nil, mem_cons. split; [done|].
    intros [Ho [Hi|Hm]]; [elia|]. specialize (Hlow a Hc Hm). elia.
  - intros [= <- <-]. split_and!; [done| | |by exists []].
    + apply Forall_forall. intros p Hp. by apply Hh.
    + intros a. rewrite Hhm, mem_cons. split; [tauto|].
      intros [Ho [Hi|Hm]]; [done|]. specialize (Hlow a Hc Hm). elia.
  - destruct (FreeList.intersect_within own others) as [out2 others2] eqn:E. intros [= <- <-].
    destruct (IH _ _ Hc' eq_refl) as (Ho2 & HP2 & Hm2 & d & -> & Hd).
    split_and!.
    + apply ordered_app. split_and!; [done|done|]. intros p q Hp Hq. unfold before.
      destruct (Hh p Hp) as [_ Hpr].
      assert (Hmq : mem (Extent.start q) (d ++ others2)).
      { apply (Hm2 (Extent.start q)). exists q. split; [done|elia]. }
      specialize (Hlow _ Hc Hmq). elia.
    + apply Forall_app. split; [|done]. apply Forall_forall. intros p Hp. by apply Hh.
    + intros a. rewrite mem_app, Hhm, Hm2, mem_cons. tauto.
    + exists (r :: d). split; [done|]. constructor; [lia|done].
Qed.

Lemma intersect_loop_spec (l others : list Extent) :
  canonical l → canonical others →
  ordered (FreeList.intersect_loop l others) ∧
  (∀ a, mem a (FreeList.intersect_loop l others) ↔ mem a l ∧ mem a others).
Proof.
  revert others. induction l as [|r l IH]; intros others Hc Hco; cbn [FreeList.intersect_loop].
  { split; [constructor|]. intros a. rewrite !mem_nil. tauto. }
  pose proof Hc as [HG Hc']%canonical_cons.
  destruct (skip_canonical (Extent.start r) others Hco) as [Hs1 _].
  pose proof (skip_mem (Extent.start r) others) as Hsm. set (others1 := (span _ others).2) in *.
  destruct (FreeList.intersect_within r others1) as [out others2] eqn:E.
  apply intersect_within_spec in E as (Ho & HP & Hm & d & Hd & HFd); [|done].
  assert (Hc2 : canonical others2) by (rewrite Hd, canonical_app in Hs1; tauto).
  destruct (IH others2 Hc' Hc2) as [Ho2 Hm2]. split.
  - apply ordered_app. split_and!; [done..|]. intros p q Hp Hq. unfold before.
    unfold parts_of in HP. rewrite Forall_forall in HP. specialize (HP p Hp).
    assert (Hmq : mem (Extent.start q) l) by (apply (Hm2 (Extent.start q)); exists q; split; [done|elia]).
    pose proof (canonical_mem_lower _ _ _ Hc Hmq). elia.
  - intros a. rewrite mem_app, Hm, Hm2, mem_cons.
    assert (inside a r → mem a others1 ↔ mem a others) by (intros; apply Hsm; elia).
    assert (mem a l → mem a others2 ↔ mem a others); [|tauto].
    intros Hl. pose proof (canonical_mem_lower _ _ _ Hc Hl).
    rewrite <- (Hsm a) by elia. rewrite Hd, mem_app. rewrite Forall_forall in HFd.
    split; [tauto|]. intros [(e & He%HFd & Hi)|?]; [elia|done].
Qed.

Lemma intersection_spec (l1 l2 : FreeList) :
  wf l1 → wf l2 →
  FreeList.intersection l1 l2 ⇝ λ l, wf l ∧ ∀ a, free_at l a ↔ free_at l1 a ∧ free_at l2 a.
Proof.
  intros [Hc1 _] [Hc2 _]. unfold FreeList.intersection.
  destruct (intersect_loop_spec _ _ Hc1 Hc2) as [Ho Hm].
  eapply returns_bind; [by apply from_sorted_ok|]. intros r (l & -> & Hwf & Hs).
  exists l. split; [done|]. split; [done|]. intros a. unfold free_at. by rewrite (Hs a), Hm.
Qed.
