(* ===== verification/FreeListMerge.v ===== *)
(** * Merging free lists and trailing runs

    Specification lemmas for [FreeList::from_lists], [trailing_run_start],
    [take_trailing], [release_trailing_run], [alloc_below] and [alloc_block]. *)

From S2P Require Import Prelude Addresses Extents Regions Requests FreeLists FreeListFacts.

Local Open Scope Z_scope.

(** ** The first minimum *)

Section MinBy.
Context {A : Type} (lt : A → A → bool).
Context (lt_irrefl : ∀ x, lt x x = false).
Context (lt_trans : ∀ x y z, lt x y = true → lt y z = true → lt x z = true).
Context (lt_cotrans : ∀ x y z, lt x z = true → lt x y = true ∨ lt y z = true).

Lemma min_by_snoc (l : list A) (x : A) :
  min_by lt (l ++ [x]) =
  match min_by lt l with None => Some x | Some b => if lt x b then Some x else Some b end.
Proof. unfold min_by. rewrite foldl_app. simpl. by destruct (foldl _ _ _). Qed.

Lemma min_by_None (l : list A) : min_by lt l = None ↔ l = [].
Proof.
  induction l as [|x l IH] using rev_ind; [done|]. rewrite min_by_snoc.
  split; [|by destruct l]. destruct (min_by lt l) as [b|]; [by destruct (lt x b)|done].
Qed.

Lemma min_by_Some (l : list A) (m : A) :
  min_by lt l = Some m →
  ∃ pre post, l = pre ++ m :: post ∧
    (∀ y, y ∈ pre → lt m y = true) ∧ (∀ y, y ∈ post → lt y m = false).
Proof.
  revert m. induction l as [|x l IH] using rev_ind; intros m; [done|].
  rewrite min_by_snoc. destruct (min_by lt l) as [b|] eqn:Eb.
  - destruct (IH b eq_refl) as (pre & post & -> & Hpre & Hpost).
    destruct (lt x b) eqn:Exb; intros [= <-].
    + exists (pre ++ b :: post), []. split_and!; [done| |by intros ? []%not_elem_of_nil].
      intros y [Hy|[->|Hy]%elem_of_cons]%elem_of_app; [|done|].
      * by eapply lt_trans, Hpre.
      * destruct (lt_cotrans x y b Exb) as [|Hyb]; [done|]. rewrite (Hpost y Hy) in Hyb. done.
    + exists pre, (post ++ [x]). rewrite <- app_assoc. split_and!; [done|done|].
      intros y [Hy| ->%list_elem_of_singleton]%elem_of_app; [by apply Hpost|done].
  - apply min_by_None in Eb as ->. intros [= <-].
    exists [], []. split_and!; [done|by intros ? []%not_elem_of_nil..].
Qed.

Lemma min_by_least (l : list A) (m : A) :
  min_by lt l = Some m → m ∈ l ∧ ∀ y, y ∈ l → lt y m = false.
Proof.
  intros (pre & post & -> & Hpre & Hpost)%min_by_Some. split; [apply elem_of_app; right; by left|].
  intros y [Hy|[->|Hy]%elem_of_cons]%elem_of_app; [|done|by apply Hpost].
  destruct (lt y m) eqn:E; [|done].
  pose proof (lt_trans m y m (Hpre y Hy) E) as Ht. by rewrite lt_irrefl in Ht.
Qed.

End MinBy.

(** ** Pairwise disjoint extents *)

Definition all_apart (l : list Extent) : Prop := StronglySorted apart l.

Lemma all_apart_cons (e : Extent) (l : list Extent) :
  all_apart (e :: l) ↔ clear_of e l ∧ all_apart l.
Proof. apply StronglySorted_cons_iff. Qed.

Lemma all_apart_app (l1 l2 : list Extent) :
  all_apart (l1 ++ l2) ↔ all_apart l1 ∧ all_apart l2 ∧ (∀ e f, e ∈ l1 → f ∈ l2 → apart e f).
Proof. apply StronglySorted_app_iff. Qed.

Lemma all_apart_perm (l1 l2 : list Extent) : l1 ≡ₚ l2 → all_apart l1 → all_apart l2.
Proof.
  induction 1 as [|x l1 l2 Hp IH|x y l|l1 l2 l3 _ IH1 _ IH2]; [done| | |tauto].
  - rewrite !all_apart_cons. intros [Hcl Ha]. split; [|by apply IH].
    unfold clear_of in *. by rewrite <- Hp.
  - rewrite !all_apart_cons. unfold clear_of. rewrite !Forall_cons.
    intros ((? & ?) & ? & ?). split_and!; [|done..]. by symmetry.
Qed.

Lemma ordered_all_apart (l : list Extent) : ordered l → all_apart l.
Proof.
  unfold ordered, all_apart. induction 1 as [|e l Hl IH HF]; constructor; [done|].
  eapply Forall_impl; [exact HF|]. unfold before, apart. tauto.
Qed.

Lemma sorted_apart_ordered (l : list Extent) :
  StronglySorted start_le l → all_apart l → ordered l.
Proof.
  induction 1 as [|e l Hl IH HF]; [constructor|].
  rewrite all_apart_cons. intros [Hcl Ha]. apply ordered_cons. split; [|by apply IH].
  unfold clear_of in Hcl. rewrite Forall_forall in *. intros f Hf. specialize (HF f Hf).
  specialize (Hcl f Hf). unfold start_le, before in *. elia.
Qed.

Lemma ordered_sorted (l : list Extent) : ordered l → StronglySorted start_le l.
Proof.
  unfold ordered. induction 1 as [|e l Hl IH HF]; constructor; [done|].
  eapply Forall_impl; [exact HF|]. unfold before, start_le. intros f Hb. elia.
Qed.

#[global] Instance start_le_trans : Transitive start_le.
Proof. intros e f g. unfold start_le. lia. Qed.

#[global] Instance start_le_total : Total start_le.
Proof. intros e f. unfold start_le. lia. Qed.

(** Sorting a pairwise disjoint list by start puts it in order. *)
Lemma merge_sort_ordered (l : list Extent) :
  all_apart l → ordered (merge_sort start_le l).
Proof.
  intros Ha. apply sorted_apart_ordered; [apply StronglySorted_merge_sort; apply _|].
  eapply all_apart_perm; [|exact Ha]. by rewrite merge_sort_Permutation.
Qed.

Lemma all_apart_disjoint (l1 l2 : list Extent) :
  all_apart l1 → all_apart l2 → disjoint_lists l1 l2 → all_apart (l1 ++ l2).
Proof.
  intros H1 H2 Hd. apply all_apart_app. split_and!; [done..|]. intros e f He Hf.
  assert (clear_of e l2) as Hcl.
  { apply clear_of_mem. intros a Ha Hi. apply (Hd a); [by exists e|done]. }
  unfold clear_of in Hcl. rewrite Forall_forall in Hcl. by apply Hcl.
Qed.

(** ** Merging *)

Lemma next_list_None (lists : list (list Extent)) :
  FreeList.next_list lists = None → mjoin lists = [].
Proof.
  unfold FreeList.next_list. rewrite min_by_None. intros Hn.
  assert (∀ i l, lists !! i = Some l → l = []) as Hall.
  { intros i l Hi. destruct l as [|e t]; [done|].
    assert ((i, e) ∈ omap (λ x : nat * list Extent, e ← head x.2; Some (x.1, e)) (imap pair lists))
      as Hin.
    { apply list_elem_of_omap. exists (i, e :: t). split; [|done].
      apply list_elem_of_lookup. exists i. rewrite list_lookup_imap, Hi. done. }
    rewrite Hn in Hin. by apply not_elem_of_nil in Hin. }
  clear Hn. induction lists as [|l lists IH]; [done|]. cbn.
  rewrite (Hall 0%nat l eq_refl). simpl. apply IH. intros i. apply (Hall (S i)).
Qed.

Lemma next_list_Some (lists : list (list Extent)) (i : nat) (e : Extent) :
  FreeList.next_list lists = Some (i, e) →
  (∃ t, lists !! i = Some (e :: t)) ∧
  (∀ j f t, lists !! j = Some (f :: t) → start_le e f).
Proof.
  unfold FreeList.next_list. intros Hm.
  assert (Hin : ∀ j f, (j, f) ∈ omap (λ x : nat * list Extent, e ← head x.2; Some (x.1, e)) (imap pair lists)
    ↔ ∃ t, lists !! j = Some (f :: t)).
  { intros j f. rewrite list_elem_of_omap. split.
    - intros ([k l] & Hk & Hh). apply list_elem_of_lookup in Hk as [k' Hk].
      rewrite list_lookup_imap in Hk. destruct (lists !! k') as [l'|] eqn:El; [|done].
      simpl in Hk. injection Hk as <- <-. destruct l' as [|f' t]; [done|].
      simpl in Hh. injection Hh as <- <-. by exists t.
    - intros [t Ht]. exists (j, f :: t). split; [|done].
      apply list_elem_of_lookup. exists j. rewrite list_lookup_imap, Ht. done. }
  apply min_by_least in Hm as [Hi Hleast].
  - split; [by apply Hin|]. intros j f t Hj. unfold start_le.
    specialize (Hleast (j, f)). simpl in Hleast.
    assert ((Extent.start f <? Extent.start e) = false); [|lia].
    apply Hleast, Hin. by exists t.
  - intros x. lia.
  - intros x y z. lia.
  - intros x y z. lia.
Qed.

Lemma mjoin_alter_tail (lists : list (list Extent)) (i : nat) (e : Extent) (t : list Extent) :
  lists !! i = Some (e :: t) → mjoin lists ≡ₚ e :: mjoin (alter tail i lists).
Proof.
  revert i. induction lists as [|l lists IH]; intros [|i] Hi; try done; simpl in Hi.
  - injection Hi as ->. done.
  - cbn. rewrite (IH i Hi). by rewrite <- Permutation_middle.
Qed.

Lemma merge_lists_spec (fuel : nat) (lists : list (list Extent)) :
  fuel = length (mjoin lists) → Forall (StronglySorted start_le) lists →
  StronglySorted start_le (FreeList.merge_lists fuel lists) ∧
  FreeList.merge_lists fuel lists ≡ₚ mjoin lists.
Proof.
  revert lists. induction fuel as [|fuel IH]; intros lists Hf HF.
  { symmetry in Hf. apply nil_length_inv in Hf as ->. split; [constructor|done]. }
  cbn [FreeList.merge_lists]. destruct (FreeList.next_list lists) as [[i e]|] eqn:En.
  2:{ apply next_list_None in En. rewrite En in Hf. done. }
  apply next_list_Some in En as [[t Ht] Hmin].
  pose proof (mjoin_alter_tail _ _ _ _ Ht) as Hp.
  assert (HF' : Forall (StronglySorted start_le) (alter tail i lists)).
  { apply Forall_alter; [done|]. rewrite Ht. intros l [= <-]. 
    intros [_ Hs]%StronglySorted_cons_iff. exact Hs. }
  destruct (IH (alter tail i lists)) as [Hs Hperm]; [|done|].
  { rewrite Hp in Hf. simpl in Hf. lia. }
  split; [|by rewrite Hperm, Hp]. constructor; [done|]. rewrite Hperm.
  apply Forall_forall. intros f Hfin.
  assert (Hfl : f ∈ mjoin lists) by (rewrite Hp; by right).
  apply list_elem_of_join in Hfl as (l & Hfl & Hl).
  apply list_elem_of_lookup in Hl as [j Hj]. destruct l as [|g u]; [by apply not_elem_of_nil in Hfl|].
  pose proof (Hmin j g u Hj) as Hg. apply elem_of_cons in Hfl as [->|Hfu]; [done|].
  rewrite Forall_lookup in HF. specialize (HF j _ Hj).
  apply StronglySorted_cons_iff in HF as [HF _]. rewrite Forall_forall in HF.
  etrans; [exact Hg|by apply HF].
Qed.

(** Merging pairwise disjoint free lists gives their union. *)
Lemma from_lists_spec (lists : list FreeList) :
  Forall wf lists → all_apart (mjoin (regions <$> lists)) →
  FreeList.from_lists lists ⇝ λ r, ∃ l, r = Ok l ∧ wf l ∧
    ∀ a, free_at l a ↔ ∃ l', l' ∈ lists ∧ free_at l' a.
Proof.
  intros HF Ha. unfold FreeList.from_lists.
  destruct (merge_lists_spec (length (mjoin (regions <$> lists))) (regions <$> lists))
    as [Hs Hp]; [done| |].
  { apply Forall_fmap. eapply Forall_impl; [exact HF|]. intros l [Hc _].
    by apply ordered_sorted, canonical_ordered. }
  eapply returns_mono.
  { apply from_sorted_ok, sorted_apart_ordered; [done|].
    eapply all_apart_perm; [by symmetry|done]. }
  intros r (l & -> & Hwf & Hset). exists l. split_and!; [done|done|].
  intros a. unfold free_at. rewrite (Hset a), Hp. unfold mem.
  setoid_rewrite list_elem_of_join. setoid_rewrite list_elem_of_fmap. naive_solver.
Qed.

(** ** The free run that reaches the end of the file *)

Lemma run_down_spec (s : Z) (l : list Extent) :
  ordered l → Forall (λ e, Extent.end_ e ≤ s) l →
  let t := FreeList.run_down s (reverse l) in
  t ≤ s ∧ (∀ a, t ≤ a < s → mem a l) ∧ ¬ mem (t - 1) l.
Proof.
  revert s. induction l as [|e l IH] using rev_ind; intros s Ho HF; cbv zeta.
  { simpl. split_and!; [lia|lia|]. rewrite mem_nil; tauto. }
  rewrite reverse_snoc. cbn [FreeList.run_down].
  apply Forall_app in HF as [HF He]. rewrite Forall_singleton in He.
  apply ordered_app in Ho as (Ho & _ & Hx).
  assert (Hb : ∀ f, f ∈ l → Extent.end_ f ≤ Extent.start e).
  { intros f Hf. apply (Hx f e Hf). by left. }
  destruct (Extent.end_ e <? s) eqn:E.
  - split_and!; [lia|lia|]. rewrite mem_app, mem_singleton.
    intros [(f & Hf%Hb & Hi)|Hi]; elia.
  - replace (Z.min s (Extent.start e)) with (Extent.start e) by elia.
    destruct (IH (Extent.start e) Ho) as (H1 & H2 & H3); [by apply Forall_forall|].
    split_and!; [elia| |].
    + intros a Ha. rewrite mem_app, mem_singleton.
      destruct (Z.le_gt_cases (Extent.start e) a); [right; elia|left; apply H2; lia].
    + rewrite mem_app, mem_singleton. intros [?|?]; [done|elia].
Qed.

(** Everything from the run's start up to the end of the file is free, and the
    byte below it is not. *)
Lemma trailing_run_start_spec (lists : list FreeList) (eof : Z) :
  all_apart (mjoin (regions <$> lists)) →
  Forall (λ e, Extent.end_ e ≤ eof) (mjoin (regions <$> lists)) →
  let s := FreeList.trailing_run_start lists eof in
  s ≤ eof ∧ (∀ a, s ≤ a < eof → mem a (mjoin (regions <$> lists))) ∧
  ¬ mem (s - 1) (mjoin (regions <$> lists)).
Proof.
  intros Ha HF. unfold FreeList.trailing_run_start.
  set (all := mjoin (regions <$> lists)) in *.
  pose proof (merge_sort_Permutation start_le all) as Hp.
  assert (HF' : Forall (λ e, Extent.end_ e ≤ eof) (merge_sort start_le all)) by by rewrite Hp.
  destruct (run_down_spec eof _ (merge_sort_ordered all Ha) HF') as (H1 & H2 & H3).
  cbv zeta. split_and!; [done| |].
  - intros a Hi. rewrite <- Hp. by apply H2.
  - intros Hm. apply H3. by apply (mem_perm _ _ _ Hp).
Qed.

Lemma canonical_last_max (l : list Extent) (e f : Extent) :
  canonical (l ++ [e]) → f ∈ l ++ [e] → Extent.end_ f ≤ Extent.end_ e.
Proof.
  intros Hc [Hf| ->%list_elem_of_singleton]%elem_of_app; [|lia].
  apply canonical_app in Hc as (_ & _ & Hx).
  specialize (Hx f e Hf ltac:(by left)). unfold gap in Hx. elia.
Qed.

Lemma take_trailing_spec (l : FreeList) (eof : Z) :
  wf l →
  FreeList.take_trailing l eof ⇝ λ '(o, l'), wf l' ∧
    match o with
    | Some s => (∃ e, e ∈ regions l ∧ Extent.start e = s ∧ Extent.end_ e = eof) ∧
        (∀ a, free_at l' a ↔ free_at l a ∧ a < s)
    | None => l' = l ∧ ∀ e, last (regions l) = Some e → Extent.end_ e ≠ eof
    end.
Proof.
  intros Hwf. unfold FreeList.take_trailing.
  destruct (last (regions l)) as [e|] eqn:El.
  2:{ apply returns_ret. by split. }
  destruct (Extent.end_ e =? eof) eqn:Ee.
  2:{ apply returns_ret. split_and!; [done|done|]. intros f [= <-]. lia. }
  apply last_Some in El as [init Hl].
  pose proof (total_region l init [] e Hwf Hl) as Ht.
  rewrite subtract_bytes_ret by done. cbn [mbind outcome_bind regions total_bytes].
  rewrite Hl, length_app. replace (length init + length [e] - 1)%nat with (length init) by (simpl; lia).
  rewrite take_app_length. apply returns_ret. split; [|split].
  - pose proof (carve_wf l init [] [] e e Hwf Hl) as Hw. rewrite !app_nil_r in Hw.
    apply Hw; [constructor|constructor|rewrite total_nil; lia].
  - exists e. split_and!; [apply elem_of_app; right; by left|done|lia].
  - intros a. unfold free_at. rewrite Hl. simpl. rewrite mem_app, mem_singleton.
    destruct Hwf as [Hc _]. rewrite Hl in Hc. pose proof Hc as (_ & _ & Hx)%canonical_app.
    assert (mem a init → a < Extent.start e); [|unfold inside; extents; split; [intuition lia|intros [[?|?] ?]; [done|lia]]].
    intros (f & Hf & Hi). specialize (Hx f e Hf ltac:(by left)). unfold gap in Hx. elia.
Qed.

(** ** Releasing a trailing run *)

Lemma release_trailing_run_spec (l : FreeList) (eoa tail_len : Z) :
  wf l → u64 eoa → u64 tail_len → Forall (λ e, Extent.end_ e ≤ eoa) (regions l) →
  FreeList.release_trailing_run l eoa tail_len ⇝ λ '(eoa', l'), wf l' ∧ eoa' ≤ eoa ∧
    (∀ a, eoa' ≤ a < eoa → free_at l a) ∧
    (∀ a, free_at l' a ↔ free_at l a ∧ a < eoa') ∧
    (eoa' < eoa →
       eoa' = FreeList.trailing_run_start [l] eoa + TRAILING_RESERVE_TAILS * tail_len ∧
       TRAILING_RESERVE_TAILS * tail_len ≤ eoa - eoa').
Proof.
  intros Hwf Heoa Htl HF. pose proof Hwf as [Hc _]. unfold FreeList.release_trailing_run.
  assert (Hj : mjoin (regions <$> [l]) = regions l) by (cbn; by rewrite app_nil_r).
  destruct (trailing_run_start_spec [l] eoa) as (Hr1 & Hr2 & _); rewrite ?Hj;
    [by apply ordered_all_apart, canonical_ordered|done|].
  rewrite Hj in Hr2. set (rs := FreeList.trailing_run_start [l] eoa) in *.
  assert (Hsame : ∀ P : Prop, wf l ∧ eoa ≤ eoa ∧ (∀ a, eoa ≤ a < eoa → free_at l a) ∧
    (∀ a, free_at l a ↔ free_at l a ∧ a < eoa) ∧ (eoa < eoa → P)).
  { intros P. split_and!; [done|lia|lia| |lia]. intros a. split; [|tauto].
    intros Hm. split; [done|]. destruct Hm as (e & He & Hi).
    rewrite Forall_forall in HF. specialize (HF e He). elia. }
  destruct (checked_mul TRAILING_RESERVE_TAILS tail_len) as [keep|] eqn:E1; [|apply returns_ret, Hsame].
  apply checked_mul_Some in E1 as [-> E1].
  destruct (checked_mul _ 2) as [rm|] eqn:E2; [|apply returns_ret, Hsame].
  apply checked_mul_Some in E2 as [-> E2].
  destruct (Address.distance_from eoa rs) as [len|] eqn:E3; [|apply returns_ret, Hsame].
  apply checked_sub_Some in E3 as [-> E3].
  destruct (_ <? _) eqn:E4; [apply returns_ret, Hsame|].
  destruct (Address.checked_add rs _) as [cut|] eqn:E5; [|apply returns_ret, Hsame].
  unfold Address.checked_add, Prelude.checked_add in E5. destruct (_ <=? _) eqn:E6 in E5; [|done].
  injection E5 as <-. destruct (Extent.between _ eoa) as [x|] eqn:E7; [|apply returns_ret, Hsame].
  apply ext_between_Some in E7. unfold u64, TRAILING_RESERVE_TAILS in *.
  eapply returns_bind; [by apply take_range_spec|]. intros l' [Hwf' Hset].
  apply returns_ret. split_and!; [done|elia| | |lia].
  - intros a Ha. apply Hr2. lia.
  - intros a. rewrite Hset. split.
    + intros [Hm Hn]. split; [done|]. destruct Hm as (e & He & Hi).
      rewrite Forall_forall in HF. specialize (HF e He). elia.
    + intros [Hm Hlt]. split; [done|elia].
Qed.

(** ** The free list: bounded and block allocation, and the queries

    [alloc_below] and [alloc_block] of [list/mod.rs] pick a region through a
    predicate and remove the chosen range.  The lemmas say which ranges they
    can choose and that they fail only when no legal range exists. *)

(** ** Block capacity *)

(** A region of enough capacity holds the request at the place [place_after]
    picks. *)
Lemma block_capacity_sound (r : ReservationRequest) (p : FileSpacePageSize) (e : Extent) :
  0 < request_size r →
  request_size r ≤ Extent.block_capacity e p (request_size r) →
  ∃ t, ReservationRequest.placed_start r (Extent.start e) (Some p) = Ok t ∧
    t + request_size r ≤ Extent.end_ e.
Proof.
  intros Hn. unfold Extent.block_capacity, ReservationRequest.placed_start, FileSpacePageSize.get.
  pose proof (page_size_pos p) as Hp.
  pose proof (Z.mod_pos_bound (Extent.start e) (page_bytes p) Hp) as Hm. extents.
  set (n := request_size r) in *. set (P := page_bytes p) in *. set (m := Extent.start e mod P) in *.
  intros Hc. destruct (ReservationRequest.is_block r).
  - fold P. fold m. destruct (negb (m =? 0) && ((P <=? n) || (P - m <? n))) eqn:E.
    + unfold Address.checked_add, Prelude.checked_add.
      destruct (Extent.start e + (P - m) <=? U64_MAX) eqn:E1; [|exfalso; zbool; lia].
      eexists. split; [done|]. zbool; lia.
    + exists (Extent.start e). split; [done|]. zbool; lia.
  - exists (Extent.start e). split; [done|]. zbool; lia.
Qed.

(** A region that holds a legal block has the capacity for it. *)
Lemma block_capacity_complete (p : FileSpacePageSize) (e : Extent) (s n : Z) :
  0 < n → block_legal (page_bytes p) s n → Extent.start e ≤ s → s + n ≤ Extent.end_ e →
  n ≤ Extent.block_capacity e p n.
Proof.
  intros Hn Hl Hs He. unfold Extent.block_capacity, FileSpacePageSize.get, block_legal in *.
  pose proof (page_size_pos p) as Hp. set (P := page_bytes p) in *.
  pose proof (Z.mod_pos_bound (Extent.start e) P Hp) as Hm.
  pose proof (Z.mod_pos_bound s P Hp) as Hms.
  pose proof (Z.div_mod (Extent.start e) P ltac:(lia)) as Hd.
  pose proof (Z.div_mod s P ltac:(lia)) as Hds. extents.
  assert (Extent.start e / P ≤ s / P) by (apply Z.div_le_mono; lia).
  destruct (n <? P) eqn:E.
  - destruct (decide (s / P = Extent.start e / P)); [nia|].
    assert (Extent.start e / P + 1 ≤ s / P) by lia. nia.
  - destruct (Extent.start e mod P =? 0) eqn:E1; [lia|].
    assert (Extent.start e / P + 1 ≤ s / P); [|nia].
    destruct (decide (s / P = Extent.start e / P)); [|lia]. nia.
Qed.

Lemma block_candidate_Some (r : ReservationRequest) (p : FileSpacePageSize) (e x : Extent) (c : Z) :
  0 < request_size r →
  FreeList.block_candidate r p e = Some (c, x) →
  c = Extent.block_capacity e p (request_size r) ∧
  within x e ∧ Extent.len x = request_size r ∧ legal_start r (Some p) (Extent.start x).
Proof.
  intros Hn. unfold FreeList.block_candidate.
  destruct (_ <? _) eqn:E; [done|].
  destruct (block_capacity_sound r p e Hn) as (t & Ht & Hle); [lia|].
  pose proof (ext_bounds e).
  destruct (placed_start_spec r (Extent.start e) t (Some p)) as (H1 & H2 & _); [lia|done|done|].
  unfold ReservationRequest.place_after. rewrite Ht. simpl.
  destruct (ext_new_ex t (request_size r)) as (y & -> & Hy1 & Hy2); [lia..|]. simpl.
  intros [= <- <-]. split_and!; [done|elia|elia|by rewrite Hy1].
Qed.

Lemma block_candidate_None (r : ReservationRequest) (p : FileSpacePageSize) (e : Extent) (s : Z) :
  0 < request_size r → request_kind r = Block →
  FreeList.block_candidate r p e = None →
  Extent.start e ≤ s → s + request_size r ≤ Extent.end_ e → ¬ legal_start r (Some p) s.
Proof.
  intros Hn Hk HN Hs He Hl. unfold legal_start in Hl. rewrite Hk in Hl.
  pose proof (block_capacity_complete p e s _ Hn Hl Hs He) as Hc.
  unfold FreeList.block_candidate in HN. destruct (_ <? _) eqn:E in HN; [lia|].
  destruct (block_capacity_sound r p e Hn Hc) as (t & Ht & Hle). pose proof (ext_bounds e).
  destruct (placed_start_spec r (Extent.start e) t (Some p)) as (H1 & _); [lia|done|done|].
  unfold ReservationRequest.place_after in HN. rewrite Ht in HN. simpl in HN.
  by destruct (ext_new_ex t (request_size r)) as (y & Hy & _); [lia..|]; rewrite Hy in HN.
Qed.

(** ** Allocation below a limit *)

Lemma fits_below_true (n limit : Z) (e : Extent) :
  FreeList.fits_below n limit e = true ↔
  n ≤ Extent.len e ∧ Extent.start e + n ≤ limit ∧ Extent.start e + n ≤ U64_MAX.
Proof.
  unfold FreeList.fits_below, Address.checked_add, Prelude.checked_add.
  destruct (_ <=? U64_MAX) eqn:E; simpl; lia.
Qed.

Lemma taken_range_spec (l : FreeList) (x e : Extent) :
  wf l → e ∈ regions l → within x e →
  FreeList.take_range l x ⇝ λ l', wf l' ∧ (∀ a, inside a x → free_at l a) ∧
    ∀ a, free_at l' a ↔ free_at l a ∧ ¬ inside a x.
Proof.
  intros Hwf He Hx. eapply returns_mono; [by apply take_range_spec|].
  intros l' [H1 H2]. split_and!; [done| |done].
  intros a Ha. exists e. split; [done|elia].
Qed.

Lemma alloc_below_spec (l : FreeList) (n limit : Z) :
  wf l → 0 < n →
  FreeList.alloc_below l n limit ⇝ λ '(o, l'), wf l' ∧
    match o with
    | None => l' = l ∧ ∀ e, e ∈ regions l → n ≤ Extent.len e → limit < Extent.start e + n
    | Some x => Extent.len x = n ∧ Extent.end_ x ≤ limit ∧ (∀ a, inside a x → free_at l a) ∧
        (∀ a, free_at l' a ↔ free_at l a ∧ ¬ inside a x) ∧
        ∃ r, r ∈ regions l ∧ Extent.start x = Extent.start r ∧
          ∀ r', r' ∈ regions l → n ≤ Extent.len r' → Extent.start r' + n ≤ limit →
            Extent.len r ≤ Extent.len r'
    end.
Proof.
  intros Hwf Hn. unfold FreeList.alloc_below.
  assert (Hin : ∀ e, e ∈ filter (λ e, FreeList.fits_below n limit e = true) (regions l) ↔
    e ∈ regions l ∧ n ≤ Extent.len e ∧ Extent.start e + n ≤ limit).
  { intros e. rewrite list_elem_of_filter, fits_below_true. extents. intuition lia. }
  destruct (min_by _ _) as [r|] eqn:Em.
  - apply min_by_least in Em as [Hr Hleast]; [|intros; lia..].
    apply Hin in Hr as (Hr & Hl & Hlim). pose proof (ext_bounds r).
    destruct (ext_new_ex (Extent.start r) n) as (x & -> & Hx1 & Hx2); [lia..|].
    eapply returns_bind; [apply (taken_range_spec l x r); [done|done|elia]|].
    intros l' (Hwf' & H1 & H2). apply returns_ret. split_and!; [done|elia|elia|done|done|].
    exists r. split_and!; [done|done|]. intros r' Hr' Hlr' Hlim'.
    assert (Hn' := Hleast r' ltac:(by apply Hin)). simpl in Hn'. lia.
  - apply returns_ret. split_and!; [done|done|]. intros e He Hle.
    apply min_by_None in Em. destruct (Z.le_gt_cases (Extent.start e + n) limit) as [|]; [|done].
    assert (Hc : e ∈ filter (λ e, FreeList.fits_below n limit e = true) (regions l)) by by apply Hin.
    rewrite Em in Hc. by apply not_elem_of_nil in Hc.
Qed.

(** ** Block allocation *)

(** A block allocation succeeds exactly when some free region holds a legal
    placement, and then takes it from a region of least capacity. *)
Lemma alloc_block_spec (l : FreeList) (r : ReservationRequest) (p : FileSpacePageSize) :
  wf l → 0 < request_size r →
  FreeList.alloc_block l r p ⇝ λ '(o, l'), wf l' ∧
    match o with
    | None => l' = l ∧ (request_kind r = Block → ∀ e s, e ∈ regions l → Extent.start e ≤ s →
        s + request_size r ≤ Extent.end_ e → ¬ legal_start r (Some p) s)
    | Some x => Extent.len x = request_size r ∧ legal_start r (Some p) (Extent.start x) ∧
        (∀ a, inside a x → free_at l a) ∧
        (∀ a, free_at l' a ↔ free_at l a ∧ ¬ inside a x) ∧
        ∃ e, e ∈ regions l ∧ within x e ∧
          ∀ e' c' x', e' ∈ regions l → FreeList.block_candidate r p e' = Some (c', x') →
            Extent.block_capacity e p (request_size r) ≤ c'
    end.
Proof.
  intros Hwf Hn. unfold FreeList.alloc_block. destruct (min_by _ _) as [[c x]|] eqn:Em.
  - apply min_by_least in Em as [Hx Hleast]; [|intros; lia..].
    apply list_elem_of_omap in Hx as (e & He & Hc).
    destruct (block_candidate_Some _ _ _ _ _ Hn Hc) as (-> & H1 & H2 & H3).
    eapply returns_bind; [by apply (taken_range_spec l x e)|].
    intros l' (Hwf' & H4 & H5). apply returns_ret. split_and!; [done..|].
    exists e. split_and!; [done|done|]. intros e' c' x' He' Hc'.
    assert (Hl := Hleast (c', x') ltac:(apply list_elem_of_omap; by exists e')). simpl in Hl. lia.
  - apply min_by_None in Em. apply returns_ret. split_and!; [done|done|]. intros Hk e s He.
    apply block_candidate_None; [done..|].
    destruct (FreeList.block_candidate r p e) as [y|] eqn:Ec; [|done].
    assert (Hy : y ∈ omap (FreeList.block_candidate r p) (regions l))
      by (apply list_elem_of_omap; by exists e).
    rewrite Em in Hy. by apply not_elem_of_nil in Hy.
Qed.

(** ** Queries *)

Lemma list_adjoins_true (l : FreeList) (e : Extent) :
  FreeList.adjoins l e = true ↔ ∃ r, r ∈ regions l ∧ Extent.adjoins r e = true.
Proof.
  unfold FreeList.adjoins. rewrite orb_true_iff, !existsb_exists.
  setoid_rewrite ext_adjoins_true. setoid_rewrite <- list_elem_of_In. setoid_rewrite Z.eqb_eq.
  split.
  - intros [(r & ? & ?)|(r & ? & ?)]; exists r; auto.
  - intros (r & ? & [?|?]); [left|right]; exists r; auto.
Qed.

(** On a canonical list the sum of [covered_len] cannot exceed the extent. *)
Lemma covered_len_bound (l : FreeList) (x : Extent) :
  wf l → 0 ≤ FreeList.covered_len l x ≤ Extent.len x.
Proof.
  intros [Hc _]. split; [apply total_nonneg|]. unfold FreeList.covered_len.
  enough (Hg : ∀ lo, Forall (λ r, lo ≤ Extent.start r) (regions l) →
    total (omap (λ r, Extent.intersection r x) (regions l))
      ≤ Z.max 0 (Extent.end_ x - Z.max lo (Extent.start x))).
  { specialize (Hg 0). rewrite Forall_forall in Hg. extents. specialize (Hg ltac:(intros; elia)). lia. }
  revert Hc. generalize (regions l) as rs. induction rs as [|r rs IH]; intros Hc lo HF.
  { unfold total; simpl; lia. }
  apply canonical_cons in Hc as [HG Hc]. apply Forall_cons in HF as [Hr _]. cbn.
  assert (HI := IH Hc (Extent.end_ r)).
  assert (HF : Forall (λ f, Extent.end_ r ≤ Extent.start f) rs).
  { eapply Forall_impl; [exact HG|]. unfold gap. intros; lia. }
  specialize (HI HF). destruct (Extent.intersection r x) as [o|] eqn:E.
  - apply ext_intersection_Some in E. rewrite total_cons. elia.
  - apply ext_intersection_None in E. etrans; [exact HI|elia].
Qed.

(** The list covers the whole extent exactly when [covered_len] is its length:
    stated as the two facts the page bookkeeping uses. *)
Lemma covered_len_disjoint (l : FreeList) (x : Extent) :
  clear_of x (regions l) → FreeList.covered_len l x = 0.
Proof.
  unfold FreeList.covered_len, clear_of. induction 1 as [|r rs Hr _ IH]; [done|]. cbn.
  assert (Extent.intersection r x = None) as ->; [|done].
  apply ext_intersection_None. by symmetry.
Qed.

Lemma foldr_max_le (l : list Z) (z : Z) : z ∈ l → z ≤ foldr Z.max 0 l.
Proof.
  induction l as [|y l IH]; [by intros ?%not_elem_of_nil|].
  intros [->|Hz]%elem_of_cons; simpl; [lia|]. specialize (IH Hz). lia.
Qed.

(** An allocation succeeds exactly up to the size [largest] reports. *)
Lemma largest_alloc (l : FreeList) (n : Z) :
  0 < n → (∃ e, e ∈ regions l ∧ n ≤ Extent.len e) ↔ n ≤ FreeList.largest l.
Proof.
  intros Hn. unfold FreeList.largest. split.
  - intros (e & He & Hle). etrans; [exact Hle|]. apply foldr_max_le.
    apply list_elem_of_fmap. by exists e.
  - induction (regions l) as [|r rs IH]; [simpl; lia|]. rewrite fmap_cons. cbn [foldr]. intros Hle.
    destruct (Z.le_gt_cases n (Extent.len r)); [exists r; split; [by left|done]|].
    destruct IH as (e & He & Hl); [lia|]. exists e. split; [by right|done].
Qed.
