(* ===== verification/Aggregators.v ===== *)
(** * Metadata and raw aggregates

    Models [crates/hdf5-pure-space/src/aggregator.rs]: two windows of reserved
    space at the end of the file, one per allocation class, that satisfy small
    requests.  The specification is a conservation law: an address is
    _available_ when a window has it unused or when it lies at or above the end
    of allocation, and every operation only moves addresses out of that set into
    the allocation or the released extent it returns. *)

From stdpp Require Import relations.
From S2P Require Import Prelude Addresses Extents Regions Requests FreeListMerge.

Local Open Scope Z_scope.

Definition AGGREGATE_BLOCK_SIZE : Z := 2048.

Record Aggregate : Type := mkAggregate {
  agg_range : Extent;
  agg_cursor : Z;
}.

Record ClassicAggregators : Type := mkAggregators {
  agg_metadata : option Aggregate;
  agg_raw : option Aggregate;
}.

Record AggregationAllocation : Type := mkAllocation {
  allocation_extent : Extent;
  allocation_eoa : Z;
  allocation_released : option Extent;
}.

Record AggregationRelease : Type := mkRelease {
  release_metadata : option Extent;
  release_raw : option Extent;
  release_eoa : Z;
}.

Inductive AggregationError : Type :=
| EndOfAllocationTooSmall (eoa minimum : Z)
| AggregateOverflow (offset length : Z).

Module Aggregate.

Section Profiled.
Context `{Profile}.

Definition take (self : Aggregate) (size : Z)
    : outcome (result (Extent * Aggregate) AggregationError) :=
  match Extent.new (agg_cursor self) size with
  | None => Ret (Err (AggregateOverflow (agg_cursor self) size))
  | Some extent =>
    _ ← debug_assert (Extent.end_ extent <=? Extent.end_ (agg_range self));
    Ret (Ok (extent, mkAggregate (agg_range self) (Extent.end_ extent)))
  end.

End Profiled.

Definition unused (self : Aggregate) : option Extent :=
  Extent.between (agg_cursor self) (Extent.end_ (agg_range self)).

End Aggregate.

Module ClassicAggregators.

Definition new : ClassicAggregators := mkAggregators None None.

(** The class's own window and the other one, and back. *)
Definition windows (self : ClassicAggregators) (class : AllocationClass)
    : option Aggregate * option Aggregate :=
  match class with
  | Metadata => (agg_metadata self, agg_raw self)
  | RawData => (agg_raw self, agg_metadata self)
  end.

Definition with_windows (class : AllocationClass) (own other : option Aggregate)
    : ClassicAggregators :=
  match class with
  | Metadata => mkAggregators own other
  | RawData => mkAggregators other own
  end.

Definition unused (self : ClassicAggregators) (class : AllocationClass) : option Extent :=
  window ← match class with Metadata => agg_metadata self | RawData => agg_raw self end;
  Aggregate.unused window.

(** [map(end).max().unwrap_or(ZERO)] over the windows that are present. *)
Definition window_end (window : option Aggregate) : Z :=
  match window with Some w => Extent.end_ (agg_range w) | None => StoredAddress.ZERO end.

Definition minimum_eoa (self : ClassicAggregators) : Z :=
  Z.max (window_end (agg_metadata self)) (window_end (agg_raw self)).

(** The other window gives its tail back after it supplied a full block. *)
Definition release_other (eoa : Z) (other : option Aggregate) : Z * option Aggregate :=
  match other with
  | None => (eoa, other)
  | Some window =>
    if (Extent.end_ (agg_range window) =? eoa)
       && match Address.distance_from (agg_cursor window) (Extent.start (agg_range window)) with
          | Some length => AGGREGATE_BLOCK_SIZE <=? length
          | None => false
          end
    then match Aggregate.unused window with
         | Some unused => (Extent.start unused, None)
         | None => (eoa, other)
         end
    else (eoa, other)
  end.

Section Profiled.
Context `{Profile}.

(** Placement at the end of allocation, when the own window cannot serve. *)
Definition reserve_at_eoa (own other : option Aggregate) (eoa size : Z) (class : AllocationClass)
    : outcome (result (AggregationAllocation * ClassicAggregators) AggregationError) :=
  let '(eoa, other) := release_other eoa other in
  if AGGREGATE_BLOCK_SIZE <=? size then
    match Extent.new eoa size with
    | None => Ret (Err (AggregateOverflow eoa size))
    | Some extent =>
      Ret (Ok (mkAllocation extent (Extent.end_ extent) None, with_windows class own other))
    end
  else
    match Extent.new eoa AGGREGATE_BLOCK_SIZE with
    | None => Ret (Err (AggregateOverflow eoa AGGREGATE_BLOCK_SIZE))
    | Some range =>
      let released := own ≫= Aggregate.unused in
      r ← Aggregate.take (mkAggregate range eoa) size;
      try_ r (λ '(extent, window),
        Ret (Ok (mkAllocation extent (Extent.end_ range) released,
                 with_windows class (Some window) other)))
    end.

Definition reserve (self : ClassicAggregators) (eoa size : Z) (class : AllocationClass)
    : outcome (result (AggregationAllocation * ClassicAggregators) AggregationError) :=
  let '(own, other) := windows self class in
  match own with
  | None => reserve_at_eoa own other eoa size class
  | Some window =>
    if size <=? match Aggregate.unused window with Some u => Extent.len u | None => 0 end then
      r ← Aggregate.take window size;
      try_ r (λ '(extent, window),
        Ret (Ok (mkAllocation extent eoa None, with_windows class (Some window) other)))
    else if Extent.end_ (agg_range window) =? eoa then
      let growth := if AGGREGATE_BLOCK_SIZE <=? size then size else AGGREGATE_BLOCK_SIZE in
      match Address.checked_add eoa growth with
      | Err _ => Ret (Err (AggregateOverflow eoa growth))
      | Ok end_ =>
        range ← expect (Extent.between (Extent.start (agg_range window)) end_);
        r ← Aggregate.take (mkAggregate range (agg_cursor window)) size;
        try_ r (λ '(extent, window),
          Ret (Ok (mkAllocation extent end_ None, with_windows class (Some window) other)))
      end
    else reserve_at_eoa own other eoa size class
  end.

(** The state is replaced only on success. *)
Definition allocate (self : ClassicAggregators) (eoa size : Z) (class : AllocationClass)
    : outcome (result AggregationAllocation AggregationError * ClassicAggregators) :=
  let minimum := minimum_eoa self in
  if eoa <? minimum then Ret (Err (EndOfAllocationTooSmall eoa minimum), self)
  else
    r ← reserve self eoa size class;
    match r with
    | Err e => Ret (Err e, self)
    | Ok (allocation, next) => Ret (Ok allocation, next)
    end.

End Profiled.

(** One iteration of the loop over the two windows. *)
Definition release_window (eoa : Z) (window : option Aggregate) : Z * option Aggregate :=
  match window ≫= Aggregate.unused with
  | Some unused => if Extent.end_ unused =? eoa then (Extent.start unused, None) else (eoa, window)
  | None => (eoa, window)
  end.

Definition release_tail (self : ClassicAggregators) (eoa : Z)
    : result Z AggregationError * ClassicAggregators :=
  let minimum := minimum_eoa self in
  if eoa <? minimum then (Err (EndOfAllocationTooSmall eoa minimum), self)
  else
    let '(eoa, metadata) := release_window eoa (agg_metadata self) in
    let '(eoa, raw) := release_window eoa (agg_raw self) in
    (Ok eoa, mkAggregators metadata raw).

Definition reset (self : ClassicAggregators) (eoa : Z)
    : result AggregationRelease AggregationError * ClassicAggregators :=
  match release_tail self eoa with
  | (Err e, _) => (Err e, self)
  | (Ok eoa, next) => (Ok (mkRelease (unused next Metadata) (unused next RawData) eoa), new)
  end.

(** A window that still has unused space keeps its end in the minimum. *)
Definition unused_end (window : option Aggregate) : Z :=
  match window with
  | Some w => if Aggregate.unused w then Extent.end_ (agg_range w) else StoredAddress.ZERO
  | None => StoredAddress.ZERO
  end.

Definition forget_beyond (eoa : Z) (window : option Aggregate) : option Aggregate :=
  match window with
  | Some w => if eoa <? Extent.end_ (agg_range w) then None else window
  | None => None
  end.

Definition reconcile_eoa (self : ClassicAggregators) (eoa : Z)
    : result unit AggregationError * ClassicAggregators :=
  let minimum := Z.max (unused_end (agg_metadata self)) (unused_end (agg_raw self)) in
  if eoa <? minimum then (Err (EndOfAllocationTooSmall eoa minimum), self)
  else (Ok tt, mkAggregators (forget_beyond eoa (agg_metadata self))
                 (forget_beyond eoa (agg_raw self))).

End ClassicAggregators.

Module AggregationRelease.

Definition released (self : AggregationRelease) (class : AllocationClass) : option Extent :=
  match class with Metadata => release_metadata self | RawData => release_raw self end.

End AggregationRelease.

(** ** Invariant *)

Definition window_ok (w : Aggregate) : Prop :=
  Extent.start (agg_range w) ≤ agg_cursor w ≤ Extent.end_ (agg_range w).

Definition window_inv (o : option Aggregate) : Prop :=
  match o with Some w => window_ok w | None => True end.

Definition windows_apart (o1 o2 : option Aggregate) : Prop :=
  match o1, o2 with
  | Some w1, Some w2 => apart (agg_range w1) (agg_range w2)
  | _, _ => True
  end.

#[global] Instance windows_apart_sym : Symmetric windows_apart.
Proof. intros [w1|] [w2|]; simpl; [by symmetry|done..]. Qed.

(** Each cursor stays in its window and the windows do not overlap. *)
Definition agg_inv (s : ClassicAggregators) : Prop :=
  window_inv (agg_metadata s) ∧ window_inv (agg_raw s) ∧
  windows_apart (agg_metadata s) (agg_raw s).

(** The address is reserved by the window and not handed out yet. *)
Definition window_unused (o : option Aggregate) (a : Z) : Prop :=
  match o with
  | Some w => agg_cursor w ≤ a < Extent.end_ (agg_range w)
  | None => False
  end.

Definition unused_at (s : ClassicAggregators) (a : Z) : Prop :=
  window_unused (agg_metadata s) a ∨ window_unused (agg_raw s) a.

(** The address may still be handed out. *)
Definition available (s : ClassicAggregators) (eoa a : Z) : Prop :=
  unused_at s a ∨ eoa ≤ a.

Definition in_option (a : Z) (o : option Extent) : Prop :=
  match o with Some e => inside a e | None => False end.

(** ** The windows of a class *)

Section Windows.
Implicit Types (own other : option Aggregate) (class : AllocationClass).

Lemma windows_with (s : ClassicAggregators) class own other :
  ClassicAggregators.windows s class = (own, other) →
  s = ClassicAggregators.with_windows class own other.
Proof. destruct s, class; simpl; congruence. Qed.

Lemma with_windows_inv class own other :
  agg_inv (ClassicAggregators.with_windows class own other) ↔
  window_inv own ∧ window_inv other ∧ windows_apart own other.
Proof.
  unfold agg_inv. destruct class; simpl; [done|].
  assert (windows_apart other own ↔ windows_apart own other); [|tauto].
  split; by symmetry.
Qed.

Lemma with_windows_available class own other eoa a :
  available (ClassicAggregators.with_windows class own other) eoa a ↔
  window_unused own a ∨ window_unused other a ∨ eoa ≤ a.
Proof. unfold available, unused_at. destruct class; simpl; tauto. Qed.

Lemma with_windows_minimum class own other :
  ClassicAggregators.minimum_eoa (ClassicAggregators.with_windows class own other) =
  Z.max (ClassicAggregators.window_end own) (ClassicAggregators.window_end other).
Proof. unfold ClassicAggregators.minimum_eoa. destruct class; simpl; lia. Qed.

Lemma aggregate_unused_in (w : Aggregate) (a : Z) :
  window_ok w → in_option a (Aggregate.unused w) ↔ window_unused (Some w) a.
Proof.
  unfold window_ok, Aggregate.unused. intros Hw. pose proof (ext_bounds (agg_range w)).
  destruct (Extent.between _ _) as [u|] eqn:E; simpl.
  - apply ext_between_Some in E. unfold inside. lia.
  - apply ext_between_None in E; lia.
Qed.

Lemma own_unused_in own (a : Z) :
  window_inv own → in_option a (own ≫= Aggregate.unused) ↔ window_unused own a.
Proof. destruct own as [w|]; simpl; [apply aggregate_unused_in|done]. Qed.

End Windows.

(** ** Metadata and raw aggregates: conservation of available space

    Specification lemmas of [Aggregators]: each operation keeps the invariant,
    leaves the state alone on error and partitions the available addresses.
    The last section runs the operations in sequence and shows that no byte is
    handed out twice. *)

(** What one allocation may do to the available addresses [av]: afterwards each
    of them is still available, or in the allocation, or released. *)
Definition splits (av av' : Z → Prop) (x : Extent) (released : option Extent) : Prop :=
  (∀ a, av a ↔ av' a ∨ inside a x ∨ in_option a released) ∧
  (∀ a, inside a x → ¬ av' a ∧ ¬ in_option a released) ∧
  (∀ a, in_option a released → ¬ av' a).

(** A successful reservation. *)
Definition reserved (s s' : ClassicAggregators) (eoa size : Z) (r : AggregationAllocation) : Prop :=
  agg_inv s' ∧ ClassicAggregators.minimum_eoa s' ≤ allocation_eoa r ≤ U64_MAX ∧
  Extent.len (allocation_extent r) = size ∧
  Extent.end_ (allocation_extent r) ≤ allocation_eoa r ∧
  splits (available s eoa) (available s' (allocation_eoa r))
    (allocation_extent r) (allocation_released r).

Section Reserve.
Context `{Profile}.
Implicit Types (own other : option Aggregate) (class : AllocationClass).

Lemma take_spec (w : Aggregate) (size : Z) :
  window_ok w → 0 < size → agg_cursor w + size ≤ Extent.end_ (agg_range w) →
  Aggregate.take w size ⇝ λ r, ∃ x,
    r = Ok (x, mkAggregate (agg_range w) (agg_cursor w + size)) ∧
    Extent.start x = agg_cursor w ∧ Extent.end_ x = agg_cursor w + size.
Proof.
  unfold window_ok. intros Hw Hs Hle. unfold Aggregate.take. pose proof (ext_bounds (agg_range w)).
  destruct (ext_new_ex (agg_cursor w) size) as (x & -> & Hx1 & Hx2); [lia..|].
  apply step_debug; [intros _; lia|]. apply returns_ret. exists x. by rewrite Hx2.
Qed.

(** Dropping the other window's tail moves its addresses above the end. *)
Lemma release_other_spec own other (eoa eoa' : Z) other' :
  window_inv other → windows_apart own other →
  ClassicAggregators.window_end own ≤ eoa → ClassicAggregators.window_end other ≤ eoa →
  u64 eoa → window_inv own →
  ClassicAggregators.release_other eoa other = (eoa', other') →
  u64 eoa' ∧ eoa' ≤ eoa ∧ window_inv other' ∧ windows_apart own other' ∧
  ClassicAggregators.window_end own ≤ eoa' ∧ ClassicAggregators.window_end other' ≤ eoa' ∧
  (∀ a, window_unused other a ∨ eoa ≤ a ↔ window_unused other' a ∨ eoa' ≤ a).
Proof.
  intros Ho Ha He1 He2 Hu Hw. unfold ClassicAggregators.release_other.
  destruct other as [w|]; [|by intros [= <- <-]].
  destruct (_ && _) eqn:E; [|by intros [= <- <-]].
  destruct (Aggregate.unused w) as [u|] eqn:Eu; [|by intros [= <- <-]].
  unfold Aggregate.unused in Eu. apply ext_between_Some in Eu. intros [= <- <-].
  simpl in *. unfold window_ok, u64 in *. apply andb_true_iff in E as [E _].
  pose proof (ext_bounds (agg_range w)). pose proof (ext_bounds u).
  split_and!; [lia|lia|lia|done| | | |].
  - destruct own as [w'|]; done.
  - destruct own as [w'|]; simpl in *; [|unfold StoredAddress.ZERO; lia].
    pose proof (ext_bounds (agg_range w')). unfold apart in Ha. lia.
  - unfold StoredAddress.ZERO. lia.
  - intros a. lia.
Qed.

Lemma reserve_at_eoa_spec own other (eoa size : Z) class :
  window_inv own → window_inv other → windows_apart own other →
  ClassicAggregators.window_end own ≤ eoa → ClassicAggregators.window_end other ≤ eoa →
  u64 eoa → 0 < size →
  ClassicAggregators.reserve_at_eoa own other eoa size class ⇝ λ r,
    match r with
    | Ok (al, s') =>
      reserved (ClassicAggregators.with_windows class own other) s' eoa size al
    | Err e => ∃ o n, e = AggregateOverflow o n ∧ o ≤ eoa ∧ n ≤ Z.max size AGGREGATE_BLOCK_SIZE ∧
        U64_MAX < o + n
    end.
Proof.
  intros Ho Ht Ha He1 He2 Hu Hs. unfold ClassicAggregators.reserve_at_eoa.
  destruct (ClassicAggregators.release_other eoa other) as [eoa' other'] eqn:Er.
  apply (release_other_spec own) in Er as (Hu' & Hle & Ht' & Ha' & He1' & He2' & Hav); [|done..].
  unfold u64, AGGREGATE_BLOCK_SIZE in *.
  destruct (2048 <=? size) eqn:Eb.
  - destruct (Extent.new eoa' size) as [x|] eqn:En; apply returns_ret.
    2:{ apply ext_new_None in En as [?|?]; [lia| |lia..]. exists eoa', size. split_and!; [done|lia..]. }
    apply ext_new_Some in En. pose proof (ext_bounds x).
    unfold reserved. rewrite with_windows_inv, with_windows_minimum. cbn.
    split_and!; [done..|lia|lia|lia|lia|]. unfold splits. cbn. setoid_rewrite with_windows_available.
    split_and!; [|intros a Hi; split; [|tauto]|tauto].
    + intros a. specialize (Hav a).
      assert (eoa' ≤ a ↔ Extent.end_ x ≤ a ∨ inside a x) by (unfold inside; lia). tauto.
    + intros Hc. destruct own as [w|], other' as [w'|]; cbn in *; unfold window_ok in *; elia.
  - destruct (Extent.new eoa' 2048) as [range|] eqn:En.
    2:{ apply returns_ret. apply ext_new_None in En as [?|?]; [lia| |lia..].
        exists eoa', 2048. split_and!; [done|lia..]. }
    apply ext_new_Some in En. pose proof (ext_bounds range).
    eapply returns_bind; [apply take_spec; unfold window_ok; cbn; lia|]. cbn.
    intros r (x & -> & Hx1 & Hx2). apply returns_ret. pose proof (own_unused_in own) as Hown.
    unfold reserved. rewrite with_windows_inv, with_windows_minimum. cbn. unfold window_ok. cbn.
    pose proof (ext_bounds x).
    split_and!; [lia|lia|done| |lia|lia|lia|lia|].
    { destruct other' as [w'|]; [|done]. cbn in *. elia. }
    unfold splits. cbn. setoid_rewrite with_windows_available. cbn.
    split_and!.
    + intros a. specialize (Hav a). specialize (Hown a Ho).
      assert (eoa' ≤ a ↔ eoa' + size ≤ a < Extent.end_ range ∨ Extent.end_ range ≤ a ∨ inside a x)
        by (unfold inside; lia). tauto.
    + intros a Hi. rewrite (Hown a Ho). destruct own as [w|], other' as [w'|]; cbn in *; unfold window_ok in *; elia.
    + intros a. rewrite (Hown a Ho). destruct own as [w|], other' as [w'|]; cbn in *; unfold window_ok in *; elia.
Qed.

Lemma reserve_spec (s : ClassicAggregators) (eoa size : Z) class :
  agg_inv s → ClassicAggregators.minimum_eoa s ≤ eoa → u64 eoa → 0 < size →
  ClassicAggregators.reserve s eoa size class ⇝ λ r,
    match r with
    | Ok (al, s') => reserved s s' eoa size al
    | Err e => ∃ o n, e = AggregateOverflow o n ∧ o ≤ eoa ∧ n ≤ Z.max size AGGREGATE_BLOCK_SIZE ∧
        U64_MAX < o + n
    end.
Proof.
  intros Hinv Hmin Hu Hs. unfold ClassicAggregators.reserve.
  destruct (ClassicAggregators.windows s class) as [own other] eqn:Ew.
  apply windows_with in Ew as ->. rewrite with_windows_minimum in Hmin.
  apply with_windows_inv in Hinv as (Ho & Ht & Ha).
  destruct own as [w|]; [|apply reserve_at_eoa_spec; [done..|lia|lia|done|done]].
  destruct (_ <=? _) eqn:E1; [|destruct (_ =? _) eqn:E2].
  - assert (agg_cursor w + size ≤ Extent.end_ (agg_range w)) as Hfit.
    { destruct (Aggregate.unused w) as [u|] eqn:Eu; [|lia].
      unfold Aggregate.unused in Eu. apply ext_between_Some in Eu. elia. }
    eapply returns_bind; [by apply take_spec|]. intros r (x & -> & Hx1 & Hx2). apply returns_ret.
    unfold reserved. rewrite with_windows_inv, with_windows_minimum. cbn in *. unfold window_ok in *.
    cbn in *. unfold u64 in Hu. pose proof (ext_bounds x).
    split_and!; [lia|lia|done|done|lia|lia|lia|lia|]. unfold splits. cbn.
    setoid_rewrite with_windows_available. cbn. split_and!; [|intros a Hi; split; [|tauto]|tauto].
    + intros a. assert (agg_cursor w ≤ a < Extent.end_ (agg_range w) ↔
        agg_cursor w + size ≤ a < Extent.end_ (agg_range w) ∨ inside a x) by (unfold inside; lia). tauto.
    + destruct other as [w'|]; cbn in *; unfold window_ok in *; elia.
  - set (growth := if AGGREGATE_BLOCK_SIZE <=? size then size else AGGREGATE_BLOCK_SIZE).
    assert (Hg : size ≤ growth ∧ 0 < growth ≤ Z.max size AGGREGATE_BLOCK_SIZE).
    { unfold growth, AGGREGATE_BLOCK_SIZE. zbool; lia. }
    unfold Address.checked_add, Prelude.checked_add. clearbody growth.
    destruct (eoa + growth <=? U64_MAX) eqn:Eo; cbn [ok_or].
    2:{ apply returns_ret. exists eoa, growth. split_and!; [done|lia|lia|lia]. }
    cbn in Ho. unfold window_ok in Ho. pose proof (ext_bounds (agg_range w)).
    destruct (ext_between_ex (Extent.start (agg_range w)) (eoa + growth)) as (range & Hr & Hr1 & Hr2);
      [lia..|]. apply (step_expect _ range); [done|].
    eapply returns_bind; [apply take_spec; unfold window_ok; cbn; lia|]. cbn.
    intros r (x & -> & Hx1 & Hx2). apply returns_ret. pose proof (ext_bounds x).
    unfold reserved. rewrite with_windows_inv, with_windows_minimum. cbn in *. unfold window_ok, u64 in *.
    cbn in *. split_and!; [lia|lia|done| |lia|lia|lia|lia|].
    { destruct other as [w'|]; [|done]. cbn in *. pose proof (ext_bounds (agg_range w')). elia. }
    unfold splits. cbn. setoid_rewrite with_windows_available. cbn.
    split_and!; [|intros a Hi; split; [|tauto]|tauto].
    + intros a. assert (agg_cursor w ≤ a < Extent.end_ (agg_range w) ∨ eoa ≤ a ↔
        agg_cursor w + size ≤ a < Extent.end_ range ∨ eoa + growth ≤ a ∨ inside a x)
        by (unfold inside; lia). tauto.
    + destruct other as [w'|]; cbn in *; unfold window_ok in *; elia.
  - apply reserve_at_eoa_spec; [done..|lia|lia|done|done].
Qed.

End Reserve.

(** ** The public operations *)

Lemma allocate_Ok_inv `{Profile} (s s' : ClassicAggregators) (eoa size : Z) class al :
  agg_inv s → u64 eoa → 0 < size →
  ClassicAggregators.allocate s eoa size class = Ret (Ok al, s') → reserved s s' eoa size al.
Proof.
  intros Hinv Hu Hs. unfold ClassicAggregators.allocate. destruct (_ <? _) eqn:E; [done|].
  destruct (reserve_spec s eoa size class Hinv ltac:(lia) Hu Hs) as (r & -> & HQ). cbn.
  destruct r as [[al' next]|e]; [|done]. by intros [= <- <-].
Qed.

Lemma release_window_spec (o1 o2 : option Aggregate) (eoa eoa' : Z) (o1' : option Aggregate) :
  window_inv o1 → window_inv o2 → windows_apart o2 o1 → u64 eoa →
  ClassicAggregators.window_end o1 ≤ eoa → ClassicAggregators.window_end o2 ≤ eoa →
  ClassicAggregators.release_window eoa o1 = (eoa', o1') →
  u64 eoa' ∧ eoa' ≤ eoa ∧ window_inv o1' ∧ windows_apart o2 o1' ∧
  ClassicAggregators.window_end o1' ≤ eoa' ∧ ClassicAggregators.window_end o2 ≤ eoa' ∧
  (∀ a, window_unused o1 a ∨ eoa ≤ a ↔ window_unused o1' a ∨ eoa' ≤ a).
Proof.
  intros H1 H2 Ha Hu He1 He2. unfold ClassicAggregators.release_window.
  destruct o1 as [w|]; simpl; [|by intros [= <- <-]].
  destruct (Aggregate.unused w) as [u|] eqn:Eu; [|by intros [= <- <-]].
  unfold Aggregate.unused in Eu. apply ext_between_Some in Eu.
  destruct (Extent.end_ u =? eoa) eqn:E; intros [= <- <-]; [|done].
  simpl in *. unfold window_ok, u64, StoredAddress.ZERO in *.
  pose proof (ext_bounds (agg_range w)). pose proof (ext_bounds u).
  split_and!; [lia|lia|lia|done| |lia| |intros a; lia].
  - by destruct o2.
  - destruct o2 as [w'|]; simpl in *; [|unfold StoredAddress.ZERO; lia]. elia.
Qed.

(** Releasing tails only trades a window's tail for a lower end of allocation. *)
Lemma release_tail_Ok_inv (s s' : ClassicAggregators) (eoa eoa' : Z) :
  agg_inv s → u64 eoa → ClassicAggregators.release_tail s eoa = (Ok eoa', s') →
  agg_inv s' ∧ u64 eoa' ∧ eoa' ≤ eoa ∧ ClassicAggregators.minimum_eoa s' ≤ eoa' ∧
  (∀ a, available s eoa a ↔ available s' eoa' a).
Proof.
  intros (Hm & Hr & Ha) Hu. unfold ClassicAggregators.release_tail.
  unfold ClassicAggregators.minimum_eoa. destruct (_ <? _) eqn:E; [done|].
  assert (Ha' : windows_apart (agg_raw s) (agg_metadata s)) by by symmetry.
  destruct (ClassicAggregators.release_window eoa (agg_metadata s)) as [e1 m'] eqn:E1.
  apply (release_window_spec _ (agg_raw s)) in E1 as (Hu1 & Hl1 & Hm' & Ha1 & Hw1 & Hw2 & Hav1);
    [|done..|lia|lia].
  assert (Ha1' : windows_apart m' (agg_raw s)) by by symmetry.
  destruct (ClassicAggregators.release_window e1 (agg_raw s)) as [e2 r'] eqn:E2.
  apply (release_window_spec _ m') in E2 as (Hu2 & Hl2 & Hr' & Ha2 & Hw3 & Hw4 & Hav2);
    [|done..|lia]. intros [= <- <-]. simpl.
  split_and!; [done|done|lia|lia|]. intros a. unfold available, unused_at. simpl.
  specialize (Hav1 a). specialize (Hav2 a). tauto.
Qed.

Lemma reset_Ok_inv (s s' : ClassicAggregators) (eoa : Z) (r : AggregationRelease) :
  agg_inv s → u64 eoa → ClassicAggregators.reset s eoa = (Ok r, s') →
  s' = ClassicAggregators.new ∧ u64 (release_eoa r) ∧ release_eoa r ≤ eoa ∧
  (∀ a, available s eoa a ↔
     in_option a (release_metadata r) ∨ in_option a (release_raw r) ∨ release_eoa r ≤ a) ∧
  (∀ a, in_option a (release_metadata r) → ¬ in_option a (release_raw r) ∧ a < release_eoa r) ∧
  (∀ a, in_option a (release_raw r) → a < release_eoa r).
Proof.
  intros Hinv Hu. unfold ClassicAggregators.reset.
  destruct (ClassicAggregators.release_tail s eoa) as [[eoa'|] next] eqn:E; [|done].
  apply release_tail_Ok_inv in E as ((Hm & Hr & Ha) & Hu' & Hle & Hmin & Hav); [|done..].
  intros [= <- <-]. simpl. unfold ClassicAggregators.minimum_eoa, ClassicAggregators.unused in *.
  pose proof (own_unused_in (agg_metadata next)) as HM.
  pose proof (own_unused_in (agg_raw next)) as HR.
  split_and!; [done|done|done| | |].
  - intros a. rewrite (Hav a), (HM a Hm), (HR a Hr). unfold available, unused_at. tauto.
  - intros a. rewrite (HM a Hm), (HR a Hr).
    destruct (agg_metadata next) as [w|], (agg_raw next) as [w'|]; simpl in *; unfold window_ok in *; elia.
  - intros a. rewrite (HR a Hr).
    destruct (agg_raw next) as [w'|]; simpl in *; unfold window_ok in *; elia.
Qed.

Lemma forget_beyond_spec (o : option Aggregate) (eoa a : Z) :
  window_inv o → ClassicAggregators.unused_end o ≤ eoa →
  window_inv (ClassicAggregators.forget_beyond eoa o) ∧
  (window_unused (ClassicAggregators.forget_beyond eoa o) a ↔ window_unused o a) ∧
  (0 ≤ eoa → ClassicAggregators.window_end (ClassicAggregators.forget_beyond eoa o) ≤ eoa).
Proof.
  destruct o as [w|]; simpl; [|by unfold StoredAddress.ZERO].
  intros Hw He. unfold window_ok in Hw. pose proof (ext_bounds (agg_range w)).
  destruct (eoa <? _) eqn:E; simpl; [|split_and!; [done|done|lia]].
  destruct (Aggregate.unused w) as [u|] eqn:Eu; [lia|].
  unfold Aggregate.unused in Eu. apply ext_between_None in Eu; [|lia..].
  unfold StoredAddress.ZERO. lia.
Qed.

Lemma reconcile_Ok_inv (s s' : ClassicAggregators) (eoa : Z) :
  agg_inv s → 0 ≤ eoa → ClassicAggregators.reconcile_eoa s eoa = (Ok tt, s') →
  agg_inv s' ∧ ClassicAggregators.minimum_eoa s' ≤ eoa ∧ ∀ a, unused_at s' a ↔ unused_at s a.
Proof.
  intros (Hm & Hr & Ha) He. unfold ClassicAggregators.reconcile_eoa.
  destruct (_ <? _) eqn:E; [done|]. intros [= <-].
  assert (HM := λ a, forget_beyond_spec (agg_metadata s) eoa a Hm ltac:(lia)).
  assert (HR := λ a, forget_beyond_spec (agg_raw s) eoa a Hr ltac:(lia)).
  unfold ClassicAggregators.minimum_eoa, agg_inv, unused_at. simpl.
  destruct (HM 0) as (? & _ & ?), (HR 0) as (? & _ & ?).
  split_and!; [done|done| |lia|].
  - unfold ClassicAggregators.forget_beyond.
    destruct (agg_metadata s) as [w|], (agg_raw s) as [w'|]; simpl; zbool; done.
  - intros a. destruct (HM a) as (_ & -> & _), (HR a) as (_ & -> & _). done.
Qed.

(** ** Sequences of operations *)

(** The aggregates, the end of allocation and every extent that left the
    aggregates: the allocations and the released interiors, which the caller
    records elsewhere. *)
Record agg_world : Type := mkWorld {
  world_aggs : ClassicAggregators;
  world_eoa : Z;
  world_live : list Extent;
}.

Section Traces.
Context `{Profile}.

Inductive agg_step : agg_world → agg_world → Prop :=
| agg_step_allocate s s' eoa live size class al :
    0 < size →
    ClassicAggregators.allocate s eoa size class = Ret (Ok al, s') →
    agg_step (mkWorld s eoa live)
      (mkWorld s' (allocation_eoa al)
         (allocation_extent al :: option_list (allocation_released al) ++ live))
| agg_step_release_tail s s' eoa eoa' live :
    ClassicAggregators.release_tail s eoa = (Ok eoa', s') →
    agg_step (mkWorld s eoa live) (mkWorld s' eoa' live)
| agg_step_reset s s' eoa r live :
    ClassicAggregators.reset s eoa = (Ok r, s') →
    agg_step (mkWorld s eoa live)
      (mkWorld s' (release_eoa r)
         (option_list (release_metadata r) ++ option_list (release_raw r) ++ live))
| agg_step_reconcile s s' eoa eoa' live live' :
    (* the caller drops extents and may shorten the file below them *)
    live' `sublist_of` live → 0 ≤ eoa' ≤ eoa → Forall (λ e, Extent.end_ e ≤ eoa') live' →
    ClassicAggregators.reconcile_eoa s eoa' = (Ok tt, s') →
    agg_step (mkWorld s eoa live) (mkWorld s' eoa' live')
| agg_step_grow s eoa eoa' live :
    (* the caller appends on its own *)
    eoa ≤ eoa' ≤ U64_MAX →
    agg_step (mkWorld s eoa live) (mkWorld s eoa' live).

Definition world_inv (w : agg_world) : Prop :=
  agg_inv (world_aggs w) ∧ ClassicAggregators.minimum_eoa (world_aggs w) ≤ world_eoa w ∧
  u64 (world_eoa w) ∧ all_apart (world_live w) ∧
  (∀ a, mem a (world_live w) → ¬ available (world_aggs w) (world_eoa w) a).

Lemma mem_in_option (a : Z) (o : option Extent) : mem a (option_list o) ↔ in_option a o.
Proof. destruct o; simpl; [apply mem_singleton|apply mem_nil]. Qed.

Lemma all_apart_option (o : option Extent) : all_apart (option_list o).
Proof. destruct o; repeat constructor. Qed.

Lemma all_apart_sublist (l1 l2 : list Extent) : l1 `sublist_of` l2 → all_apart l2 → all_apart l1.
Proof.
  induction 1 as [|e l1 l2 Hs IH|e l1 l2 Hs IH]; [done|..]; rewrite !all_apart_cons.
  - intros [Hc Ha]. split; [|by apply IH]. unfold clear_of in *.
    rewrite Forall_forall in *. intros f Hf. apply Hc. by eapply elem_of_sublist.
  - intros [_ Ha]. by apply IH.
Qed.

(** Reserving keeps the handed-out extents disjoint. *)
Lemma reserved_world (s s' : ClassicAggregators) eoa size al live :
  world_inv (mkWorld s eoa live) → reserved s s' eoa size al →
  world_inv (mkWorld s' (allocation_eoa al)
    (allocation_extent al :: option_list (allocation_released al) ++ live)).
Proof.
  intros (Hinv & Hmin & Hu & Hap & Hlive) (Hinv' & Hmin' & Hlen & Hend & Hav & Hx & Hrel). simpl in *.
  split_and!; simpl; [done|lia| | |].
  - pose proof (ext_bounds (allocation_extent al)). unfold u64. lia.
  - apply (all_apart_disjoint [_] (_ ++ _)); [repeat constructor| |].
    + apply all_apart_disjoint; [apply all_apart_option|done|].
      intros a Ha%mem_in_option Hl. apply (Hlive a Hl), Hav. tauto.
    + intros a Ha%mem_singleton. rewrite mem_app, mem_in_option. intros [Hr|Hl].
      * by apply (Hx a).
      * apply (Hlive a Hl), Hav. tauto.
  - intros a. rewrite mem_cons, mem_app, mem_in_option. intros [Ha|[Ha|Ha]].
    + by apply Hx.
    + by apply Hrel.
    + intros Hc. apply (Hlive a Ha), Hav. tauto.
Qed.

Lemma agg_step_inv (w w' : agg_world) : world_inv w → agg_step w w' → world_inv w'.
Proof.
  intros Hw Hstep. destruct Hstep as [s s' eoa live size class al Hs Hal|s s' eoa eoa' live Hr|
    s s' eoa r live Hr|s s' eoa eoa' live live' Hsub He HF Hr|s eoa eoa' live He].
  - eapply reserved_world; [done|]. destruct Hw as (? & _ & ? & _). by eapply allocate_Ok_inv.
  - destruct Hw as (Hinv & Hmin & Hu & Hap & Hlive). simpl in *.
    apply release_tail_Ok_inv in Hr as (? & ? & ? & ? & Hav); [|done..].
    split_and!; simpl; [done..|]. intros a Ha. rewrite <- (Hav a). by apply Hlive.
  - destruct Hw as (Hinv & Hmin & Hu & Hap & Hlive). simpl in *.
    apply reset_Ok_inv in Hr as (-> & Hu' & Hle & Hav & Hm & Hra); [|done..].
    split_and!; simpl; [done|unfold u64, ClassicAggregators.minimum_eoa, StoredAddress.ZERO in *; simpl; unfold StoredAddress.ZERO; lia|done| |].
    + apply all_apart_disjoint; [apply all_apart_option| |].
      * apply all_apart_disjoint; [apply all_apart_option|done|].
        intros a Ha%mem_in_option Hl. apply (Hlive a Hl), Hav. tauto.
      * intros a Ha%mem_in_option. rewrite mem_app, mem_in_option. intros [?|Hl].
        { by apply (Hm a Ha). }
        apply (Hlive a Hl), Hav. tauto.
    + intros a. rewrite !mem_app, !mem_in_option. unfold available, unused_at. simpl.
      intros [Ha|[Ha|Ha]] [[?|?]|?]; try done.
      * specialize (Hm a Ha). lia.
      * specialize (Hra a Ha). lia.
      * apply (Hlive a Ha), Hav. tauto.
  - destruct Hw as (Hinv & Hmin & Hu & Hap & Hlive). simpl in *.
    apply reconcile_Ok_inv in Hr as (? & ? & Hun); [|done|lia]. unfold u64 in *.
    split_and!; simpl; [done|done|unfold u64; lia|by eapply all_apart_sublist|].
    intros a (e & He' & Hi). unfold available. rewrite (Hun a).
    rewrite Forall_forall in HF. specialize (HF e He'). intros [Hc|Hc]; [|elia].
    apply (Hlive a); [|by left]. exists e. split; [by eapply elem_of_sublist|done].
  - destruct Hw as (Hinv & Hmin & Hu & Hap & Hlive). simpl in *. unfold u64 in *.
    split_and!; simpl; [done|lia|unfold u64; lia|done|].
    intros a Ha Hc. apply (Hlive a Ha). unfold available in *. intuition lia.
Qed.

Lemma agg_reachable_inv (w w' : agg_world) : world_inv w → rtc agg_step w w' → world_inv w'.
Proof. intros Hw Hr. induction Hr; [done|]. eauto using agg_step_inv. Qed.

Lemma agg_initial_inv (eoa : Z) : u64 eoa → world_inv (mkWorld ClassicAggregators.new eoa []).
Proof.
  intros Hu. split_and!; simpl; [done|unfold u64, ClassicAggregators.minimum_eoa, StoredAddress.ZERO in *; simpl; unfold StoredAddress.ZERO; lia|done|constructor|].
  intros a Ha%mem_nil. done.
Qed.

End Traces.
