(* ===== verification/Admission.v ===== *)
(** * Threshold admission of returned extents: definitions

    Models [admission/mod.rs], [admission/batch.rs] and [list/admission/mod.rs]:
    the ordered batch of returned allocations, the [TrackedSpace] trait with its
    default iteration, and the single sweep that replaces it for flat lists.
    Counters of [AdmissionWork] exist only in tests and are left out. *)

From S2P Require Import Prelude Addresses Extents Regions Requests FreeLists.

Local Open Scope Z_scope.

(** ** Returned allocations *)

Record ReturnedExtents : Type := mkReturned {
  returned_entries : list (Extent * FreeClass);
}.

(** The order check on consecutive extents ([windows(2)]). *)
Fixpoint check_order {C} (l : list (Extent * C)) : option FreeListError :=
  match l with
  | (previous, _) :: (((next, _) :: _) as rest) =>
    if Extent.start next <? Extent.start previous then Some (Unsorted previous next)
    else if Extent.start next <? Extent.end_ previous then Some (Overlap previous next)
    else check_order rest
  | _ => None
  end.

Module ReturnedExtents.

Definition from_sorted (entries : list (Extent * FreeClass))
    : result ReturnedExtents FreeListError :=
  match check_order entries with
  | Some e => Err e
  | None => Ok (mkReturned entries)
  end.

(** [partition_point] splits the entries at the insertion index. *)
Definition insert (self : ReturnedExtents) (extent : Extent) (class : FreeClass)
    : result unit FreeListError * ReturnedExtents :=
  let '(lower, upper) :=
    span (λ '(entry, _), Extent.start entry <? Extent.start extent) (returned_entries self) in
  match last lower with
  | Some (previous, _) =>
    if Extent.start extent <? Extent.end_ previous then (Err (Overlap previous extent), self)
    else match upper with
         | (next, _) :: _ =>
           if Extent.start next <? Extent.end_ extent then (Err (Overlap extent next), self)
           else (Ok tt, mkReturned (lower ++ (extent, class) :: upper))
         | [] => (Ok tt, mkReturned (lower ++ (extent, class) :: upper))
         end
  | None =>
    match upper with
    | (next, _) :: _ =>
      if Extent.start next <? Extent.end_ extent then (Err (Overlap extent next), self)
      else (Ok tt, mkReturned (lower ++ (extent, class) :: upper))
    | [] => (Ok tt, mkReturned (lower ++ (extent, class) :: upper))
    end
  end.

Definition remove (self : ReturnedExtents) (index : nat)
    : outcome (Extent * FreeClass * ReturnedExtents) :=
  entry ← expect (returned_entries self !! index);
  Ret (entry, mkReturned (delete index (returned_entries self))).

Definition is_empty (self : ReturnedExtents) : bool :=
  match returned_entries self with [] => true | _ => false end.

End ReturnedExtents.

(** ** Ordering a batch *)

Definition entry_le {C} (x y : Extent * C) : Prop := start_le x.1 y.1.

#[global] Instance entry_le_dec {C} : RelDecision (@entry_le C).
Proof. intros x y. unfold entry_le. apply _. Defined.

Fixpoint starts_ordered {C} (l : list (Extent * C)) : bool :=
  match l with
  | x :: ((y :: _) as rest) => (Extent.start x.1 <=? Extent.start y.1) && starts_ordered rest
  | _ => true
  end.

Fixpoint check_overlap {C} (l : list (Extent * C)) : option FreeListError :=
  match l with
  | x :: ((y :: _) as rest) =>
    if Extent.start y.1 <? Extent.end_ x.1 then Some (Overlap x.1 y.1) else check_overlap rest
  | _ => None
  end.

Module OrderedReturns.

(** Input already in order is kept as it is. *)
Definition new {C} (entries : list (Extent * C)) : result (list (Extent * C)) FreeListError :=
  let entries := if starts_ordered entries then entries else merge_sort entry_le entries in
  match check_overlap entries with
  | Some e => Err e
  | None => Ok entries
  end.

End OrderedReturns.

(** ** The trait *)

Inductive Release : Type := DropIt | MergeIt | TrackIt.

#[global] Instance Release_eq_dec : EqDecision Release.
Proof. solve_decision. Defined.

(** What an implementation supplies: where an extent merges and how it is
    recorded. *)
Class TrackedSpace (T C : Type) : Type := {
  ts_merges : T → Extent → bool;
  ts_track : T → Extent → C → outcome T;
}.

Module TrackedSpace.
Section Trait.
Context {T C : Type} `{TrackedSpace T C}.

Definition release (self : T) (threshold : Z) (extent : Extent) (class : C)
    : outcome (Release * T) :=
  let release :=
    if threshold <=? Extent.len extent then TrackIt
    else if ts_merges self extent then MergeIt
    else DropIt in
  match release with
  | DropIt => Ret (release, self)
  | _ => self ← ts_track self extent class; Ret (release, self)
  end.

Fixpoint track_all (self : T) (l : list (Extent * C)) : outcome T :=
  match l with
  | [] => Ret self
  | (extent, class) :: rest => self ← ts_track self extent class; track_all self rest
  end.

(** [pending.retain(..)]: offers each extent once and keeps the dropped ones. *)
Fixpoint retain_dropped (self : T) (threshold : Z) (pending : list (Extent * C))
    : outcome (list (Extent * C) * T) :=
  match pending with
  | [] => Ret ([], self)
  | (extent, class) :: rest =>
    '(r, self) ← release self threshold extent class;
    '(kept, self) ← retain_dropped self threshold rest;
    Ret (match r with DropIt => (extent, class) :: kept | _ => kept end, self)
  end.

(** The loop stops when a round drops everything it was offered; each other
    round shortens [pending], so [length pending + 1] rounds are enough. *)
Fixpoint release_rounds (fuel : nat) (self : T) (threshold : Z) (pending : list (Extent * C))
    : outcome (list (Extent * C) * T) :=
  match fuel with
  | O => Panic
  | S fuel =>
    '(kept, self) ← retain_dropped self threshold pending;
    if Nat.eqb (length kept) (length pending) then Ret (kept, self)
    else release_rounds fuel self threshold kept
  end.

Definition release_each (self : T) (threshold : Z) (extents : list (Extent * C))
    : outcome (list (Extent * C) * T) :=
  let pending := filter (λ x, (Extent.len x.1 <? threshold) = true) extents in
  let eligible := filter (λ x, (Extent.len x.1 <? threshold) = false) extents in
  self ← track_all self eligible;
  release_rounds (length pending + 1) self threshold pending.

End Trait.
End TrackedSpace.

#[global] Instance FreeList_tracked `{Profile} : TrackedSpace FreeList unit := {|
  ts_merges := FreeList.adjoins;
  ts_track := λ self extent _, FreeList.free self extent;
|}.

(** ** The single sweep over a flat list *)

Record FlatAdmission : Type := mkFlat {
  flat_admitted : list Extent;
  flat_dropped : list (Extent * unit);
  flat_run : option Extent;
  flat_seeded : bool;
  flat_pending_start : nat;
}.

Module FlatAdmission.

Definition default : FlatAdmission := mkFlat [] [] None false 0.

Definition finish_run (self : FlatAdmission) : FlatAdmission :=
  let '(admitted, dropped) :=
    match flat_run self with
    | Some run =>
      if flat_seeded self
      then (flat_admitted self ++ [run], take (flat_pending_start self) (flat_dropped self))
      else (flat_admitted self, flat_dropped self)
    | None => (flat_admitted self, flat_dropped self)
    end in
  mkFlat admitted dropped None false (length dropped).

Definition push (self : FlatAdmission) (extent : Extent) (seed returned : bool)
    : outcome FlatAdmission :=
  let self :=
    match flat_run self with
    | Some run => if Extent.end_ run <? Extent.start extent then finish_run self else self
    | None => self
    end in
  run ← match flat_run self with
        | Some run =>
          _ ← assert_ (Extent.end_ run =? Extent.start extent);
          expect (Extent.between (Extent.start run) (Extent.end_ extent))
        | None => Ret extent
        end;
  let '(dropped, seeded) :=
    if seed && negb (flat_seeded self)
    then (take (flat_pending_start self) (flat_dropped self), true)
    else (flat_dropped self, flat_seeded self) in
  let dropped := if returned && negb seeded then dropped ++ [(extent, tt)] else dropped in
  Ret (mkFlat (flat_admitted self) dropped (Some run) seeded (flat_pending_start self)).

End FlatAdmission.

Module FlatRelease.

(** The merging loop; the fuel counts the extents of both iterators. *)
Fixpoint sweep (fuel : nat) (threshold : Z) (tracked : list Extent)
    (returned : list (Extent * unit)) (admission : FlatAdmission) : outcome FlatAdmission :=
  match fuel with
  | O => Ret admission
  | S fuel =>
    match tracked, returned with
    | [], [] => Ret admission
    | extent :: tracked', [] =>
      admission ← FlatAdmission.push admission extent true false;
      sweep fuel threshold tracked' returned admission
    | [], (extent, _) :: returned' =>
      admission ← FlatAdmission.push admission extent (threshold <=? Extent.len extent) true;
      sweep fuel threshold tracked returned' admission
    | extent :: tracked', (next, _) :: returned' =>
      if Extent.start extent <? Extent.start next then
        admission ← FlatAdmission.push admission extent true false;
        sweep fuel threshold tracked' returned admission
      else
        admission ← FlatAdmission.push admission next (threshold <=? Extent.len next) true;
        sweep fuel threshold tracked returned' admission
    end
  end.

Section Profiled.
Context `{Profile}.

Definition release_batch (self : FreeList) (threshold : Z) (extents : list (Extent * unit))
    : outcome (list (Extent * unit) * FreeList) :=
  match extents with
  | [] => Ret ([], self)
  | [first] =>
    '(r, self) ← TrackedSpace.release self threshold first.1 tt;
    Ret (match r with DropIt => [first] | _ => [] end, self)
  | _ =>
    returned ← expect_ok (OrderedReturns.new extents);
    admission ← sweep (length (regions self) + length returned) threshold (regions self) returned
      FlatAdmission.default;
    let admission := FlatAdmission.finish_run admission in
    r ← FreeList.from_sorted (flat_admitted admission);
    self ← expect_ok r;
    Ret (flat_dropped admission, self)
  end.

(** [FreeList] overrides the trait's default with the sweep. *)
Definition release_each (self : FreeList) (threshold : Z) (extents : list (Extent * unit))
    : outcome (list (Extent * unit) * FreeList) :=
  release_batch self threshold extents.

(** Dropped extents by descending start; each that ends the allocation lowers it. *)
Definition shrink_eoa (eoa : Z) (descending : list Extent) : Z :=
  foldl (λ eoa e, if Extent.end_ e =? eoa then Extent.start e else eoa) eoa descending.

Definition release_all (self : FreeList) (threshold eoa : Z) (extents : list Extent)
    : outcome (Z * FreeList) :=
  '(dropped, self) ← release_each self threshold ((λ e, (e, tt)) <$> extents);
  Ret (shrink_eoa eoa (reverse (merge_sort start_le (fst <$> dropped))), self).

End Profiled.
End FlatRelease.
