(* ===== verification/AdmissionLaws.v ===== *)
(** * The contract of a tracked space

    What threshold admission needs from an implementation of [TrackedSpace]:
    recording an extent adds it to what is tracked, and whether a pending extent
    merges depends only, and monotonically, on what was recorded so far.  From
    these laws alone the trait's default [release_each] terminates and computes
    the least closed set of extents, which no other strategy can disagree with. *)

From S2P Require Import Prelude Addresses Extents Regions Requests FreeLists FreeListFacts.
From S2P Require Import FreeListMerge Admission.

Local Open Scope Z_scope.

(** [state s K]: the space [s] is the initial one with the extents [K] of the
    batch [X] recorded.  [joins Q x]: with the extents of [Q] recorded, [x]
    touches tracked space. *)
Class AdmissionLaws {T C : Type} `{TrackedSpace T C} (X : list (Extent * C))
    (state : T → list (Extent * C) → Prop) (joins : (Extent * C → Prop) → Extent * C → Prop) : Prop := {
  law_nodup : NoDup X;
  law_mono (Q Q' : Extent * C → Prop) x : (∀ y, Q y → Q' y) → joins Q x → joins Q' x;
  law_track s K x : state s K → x ∈ X → x ∉ K → ts_track s x.1 x.2 ⇝ λ s', state s' (x :: K);
  law_merges s K x : state s K → x ∈ X → x ∉ K → ts_merges s x.1 = true ↔ joins (.∈ K) x;
}.

(** ** Closed sets *)

Section Closure.
Context {C : Type} (t : Z) (X : list (Extent * C)) (joins : (Extent * C → Prop) → Extent * C → Prop).

(** Every extent that is long enough or touches tracked space is in [Q]. *)
Definition closed (Q : Extent * C → Prop) : Prop :=
  ∀ x, x ∈ X → t ≤ Extent.len x.1 ∨ joins Q x → Q x.

Definition forced (K : list (Extent * C)) : Prop := ∀ Q, closed Q → ∀ x, x ∈ K → Q x.

(** The batch splits into the least closed set [K] and the dropped rest [D]. *)
Definition splits_batch (K D : list (Extent * C)) : Prop := X ≡ₚ K ++ D ∧ closed (.∈ K) ∧ forced K.

Lemma splits_batch_unique (K1 K2 D1 D2 : list (Extent * C)) :
  NoDup X → splits_batch K1 D1 → splits_batch K2 D2 → K1 ≡ₚ K2 ∧ D1 ≡ₚ D2.
Proof.
  intros Hnd (Hp1 & Hc1 & Hf1) (Hp2 & Hc2 & Hf2).
  assert (HK : K1 ≡ₚ K2).
  { apply NoDup_Permutation.
    - rewrite Hp1 in Hnd. by apply NoDup_app in Hnd as [? _].
    - rewrite Hp2 in Hnd. by apply NoDup_app in Hnd as [? _].
    - intros x. split; [by apply (Hf1 (.∈ K2))|by apply (Hf2 (.∈ K1))]. }
  split; [done|]. apply (Permutation_app_inv_l K1). rewrite <- Hp1, Hp2. by rewrite HK.
Qed.

(** Adding an extent that every closed set has. *)
Lemma forced_cons (K : list (Extent * C)) (x : Extent * C) :
  (∀ Q Q' : Extent * C → Prop, (∀ y, Q y → Q' y) → joins Q x → joins Q' x) →
  forced K → x ∈ X → t ≤ Extent.len x.1 ∨ joins (.∈ K) x → forced (x :: K).
Proof.
  intros Hmono Hf Hx Hj Q Hc y [->|Hy]%elem_of_cons; [|by apply (Hf Q)].
  apply Hc; [done|]. destruct Hj as [|Hj]; [by left|right]. eapply Hmono; [by apply (Hf Q)|done].
Qed.

Lemma forced_nil : forced [].
Proof. intros Q _ x Hx. by apply not_elem_of_nil in Hx. Qed.

End Closure.

(** ** The default iteration *)

Section Default.
Context {T C : Type} `{AdmissionLaws T C X state joins}.
Context (t : Z).

(** [K] is recorded and [P] is still offered. *)
Definition offered (s : T) (K P : list (Extent * C)) : Prop :=
  state s K ∧ X ≡ₚ K ++ P ∧ forced t X joins K.

Lemma offered_in (s : T) (K P : list (Extent * C)) (x : Extent * C) :
  offered s K P → x ∈ P → x ∈ X ∧ x ∉ K.
Proof.
  intros (_ & Hp & _) Hx. pose proof law_nodup as Hnd. rewrite Hp in Hnd.
  apply NoDup_app in Hnd as (_ & Hd & _). split; [rewrite Hp; apply elem_of_app; by right|].
  intros HK. by apply (Hd x).
Qed.

Lemma offered_track (s : T) (K P1 P2 : list (Extent * C)) (x : Extent * C) :
  offered s K (P1 ++ x :: P2) → t ≤ Extent.len x.1 ∨ ts_merges s x.1 = true →
  ts_track s x.1 x.2 ⇝ λ s', offered s' (x :: K) (P1 ++ P2).
Proof.
  intros Hoff Hj. destruct (offered_in s K _ x Hoff) as [Hx Hn]; [apply elem_of_app; right; by left|].
  pose proof Hoff as (Hs & Hp & Hf). eapply returns_mono; [by apply law_track|].
  intros s' Hs'. split_and!; [done| |].
  - rewrite Hp, <- !Permutation_middle. done.
  - apply forced_cons; [intros; by eapply law_mono|done|done|]. destruct Hj as [|Hj]; [by left|right].
    by apply (law_merges s K x).
Qed.

Lemma offered_track_all (eligible : list (Extent * C)) (s : T) (K P : list (Extent * C)) :
  offered s K (eligible ++ P) → Forall (λ x, t ≤ Extent.len x.1) eligible →
  TrackedSpace.track_all s eligible ⇝ λ s', ∃ K', offered s' K' P.
Proof.
  revert s K. induction eligible as [|[e c] eligible IH]; intros s K Hoff HF.
  { apply returns_ret. by exists K. }
  apply Forall_cons in HF as [He HF].
  eapply returns_bind; [apply (offered_track s K [] (eligible ++ P) (e, c) Hoff); by left|].
  intros s' Hoff'. exact (IH s' _ Hoff' HF).
Qed.

(** One round over the pending extents. *)
Lemma offered_round (pending kept : list (Extent * C)) (s : T) (K : list (Extent * C)) :
  offered s K (kept ++ pending) →
  TrackedSpace.retain_dropped s t pending ⇝ λ '(kept', s'),
    (∃ K', offered s' K' (kept ++ kept')) ∧ (length kept' ≤ length pending)%nat ∧
    (length kept' = length pending → kept' = pending ∧ s' = s ∧
       Forall (λ x, Extent.len x.1 < t ∧ ts_merges s x.1 = false) pending).
Proof.
  revert kept s K. induction pending as [|[e c] pending IH]; intros kept s K Hoff.
  { apply returns_ret. split_and!; [by exists K|done|done]. }
  cbn [TrackedSpace.retain_dropped]. unfold TrackedSpace.release.
  assert (Htrack : (t ≤ Extent.len e ∨ ts_merges s e = true) → ∀ r, r ≠ DropIt →
    (s' ← ts_track s e c; Ret (r, s')) ≫= (λ '(r, s'),
      '(kept', s') ← TrackedSpace.retain_dropped s' t pending;
      Ret (match r with DropIt => (e, c) :: kept' | _ => kept' end, s')) ⇝ λ '(kept', s'),
    (∃ K', offered s' K' (kept ++ kept')) ∧ (length kept' ≤ length ((e, c) :: pending))%nat ∧
    (length kept' = length ((e, c) :: pending) → kept' = (e, c) :: pending ∧ s' = s ∧
       Forall (λ x, Extent.len x.1 < t ∧ ts_merges s x.1 = false) ((e, c) :: pending))).
  { intros Hj r Hr. destruct (offered_track s K kept pending (e, c) Hoff Hj) as (s1 & Hs1 & Hoff1).
    cbn [fst snd] in Hs1. rewrite Hs1. cbn [mbind outcome_bind].
    eapply returns_bind; [exact (IH kept s1 _ Hoff1)|]. intros [kept' s'] (HK & Hle & _).
    apply returns_ret. destruct r; try done; (split_and!; [done|simpl; lia|simpl; lia]). }
  destruct (t <=? Extent.len e) eqn:E1; [apply Htrack; [left; lia|done]|].
  destruct (ts_merges s e) eqn:E2; [apply Htrack; [by right|done]|].
  apply step_ret. eapply returns_bind.
  { apply (IH (kept ++ [(e, c)]) s K). by rewrite <- app_assoc. }
  intros [kept' s'] ((K' & HK') & Hle & Hall). apply returns_ret. simpl. split_and!; [exists K'|lia|].
  - by rewrite <- app_assoc in HK'.
  - intros Hlen. destruct Hall as (-> & -> & HF); [lia|]. split_and!; [done|done|].
    constructor; [|done]. simpl. split; [lia|exact E2].
Qed.

(** When nothing offered merges, what is recorded is closed. *)
Lemma offered_closed (s : T) (K P : list (Extent * C)) :
  offered s K P → Forall (λ x, Extent.len x.1 < t ∧ ts_merges s x.1 = false) P → closed t X joins (.∈ K).
Proof.
  intros Hoff HF x Hx Hj. pose proof Hoff as (Hs & Hp & _). rewrite Hp in Hx.
  apply elem_of_app in Hx as [|HP]; [done|]. exfalso. rewrite Forall_forall in HF.
  destruct (HF x HP) as [Hlen Hm]. destruct (offered_in s K P x Hoff HP) as [Hx Hn].
  destruct Hj as [|Hj]; [lia|]. apply (law_merges s K x Hs Hx Hn) in Hj. congruence.
Qed.

Lemma offered_rounds (fuel : nat) (pending : list (Extent * C)) (s : T) (K : list (Extent * C)) :
  (length pending < fuel)%nat → offered s K pending →
  TrackedSpace.release_rounds fuel s t pending ⇝ λ '(D, s'), ∃ K', state s' K' ∧ splits_batch t X joins K' D.
Proof.
  revert pending s K. induction fuel as [|fuel IH]; intros pending s K Hf Hoff; [lia|].
  cbn [TrackedSpace.release_rounds].
  eapply returns_bind; [exact (offered_round pending [] s K Hoff)|].
  intros [kept s'] ((K' & HK') & Hle & Hall). simpl in HK'.
  destruct (Nat.eqb (length kept) (length pending)) eqn:E.
  - apply Nat.eqb_eq in E. destruct (Hall E) as (-> & -> & HF). apply returns_ret.
    exists K'. pose proof HK' as (Hs & Hp & Hfo). split_and!; [done|]. split_and!; [done| |done].
    by eapply offered_closed.
  - apply Nat.eqb_neq in E. eapply IH; [lia|done].
Qed.

(** The trait's default terminates with the least closed set recorded. *)
Lemma laws_release_each (s : T) :
  state s [] → TrackedSpace.release_each s t X ⇝ λ '(D, s'), ∃ K, state s' K ∧ splits_batch t X joins K D.
Proof.
  intros Hs. unfold TrackedSpace.release_each.
  set (pending := filter (λ x : Extent * C, (Extent.len x.1 <? t) = true) X).
  set (eligible := filter (λ x : Extent * C, (Extent.len x.1 <? t) = false) X).
  assert (Hp : X ≡ₚ eligible ++ pending).
  { unfold eligible, pending. clear. induction X as [|x xs IH]; [done|].
    rewrite !filter_cons. destruct (Extent.len x.1 <? t); simpl; [|by rewrite <- IH].
    rewrite <- Permutation_middle. by rewrite <- IH. }
  eapply returns_bind; [apply (offered_track_all eligible s [] pending)|].
  - split_and!; [done|done|apply forced_nil].
  - apply Forall_forall. intros x [Hx _]%list_elem_of_filter. lia.
  - intros s' [K HK]. eapply offered_rounds; [lia|exact HK].
Qed.

(** A single extent. *)
Lemma laws_release_one (s : T) (x : Extent * C) :
  X = [x] → state s [] →
  TrackedSpace.release s t x.1 x.2 ⇝ λ '(r, s'), ∃ K, state s' K ∧
    splits_batch t X joins K (match r with DropIt => [x] | _ => [] end).
Proof.
  intros HX Hs. assert (Hoff : offered s [] [x]) by (split_and!; [done|by rewrite HX|apply forced_nil]).
  assert (Hin : t ≤ Extent.len x.1 ∨ ts_merges s x.1 = true → ∀ r, r ≠ DropIt →
    (s' ← ts_track s x.1 x.2; Ret (r, s')) ⇝ λ '(r, s'), ∃ K, state s' K ∧
      splits_batch t X joins K (match r with DropIt => [x] | _ => [] end)).
  { intros Hj r Hr. eapply returns_bind; [exact (offered_track s [] [] [] x Hoff Hj)|].
    intros s' (Hs' & Hp & Hf). apply returns_ret. exists [x]. split; [done|].
    assert (match r with DropIt => [x] | _ => [] end = @nil (Extent * C)) as -> by by destruct r.
    split_and!; [done| |done]. intros y Hy _. by rewrite HX in Hy. }
  unfold TrackedSpace.release. destruct (t <=? Extent.len x.1) eqn:E1; [apply Hin; [left; lia|done]|].
  destruct (ts_merges s x.1) eqn:E2; [apply Hin; [by right|done]|].
  apply returns_ret. exists []. split; [done|]. split_and!; [by rewrite HX| |apply forced_nil].
  eapply offered_closed; [exact Hoff|]. repeat constructor; [simpl; lia|done].
Qed.

End Default.

(** ** Threshold admission: the specification for a flat list

    [admitted] is the least set of returned extents that contains the ones of at
    least the threshold and is closed under touching tracked space or an
    admitted extent.  A free list satisfies the contract of [AdmissionLaws], and
    the least closed set of the contract is this set. *)

(** ** The specification *)

Inductive admitted (F : list Extent) (t : Z) (X : list Extent) : Extent → Prop :=
| admitted_size e : e ∈ X → t ≤ Extent.len e → admitted F t X e
| admitted_tracked e f : e ∈ X → f ∈ F → Extent.adjoins f e = true → admitted F t X e
| admitted_chain e f : e ∈ X → admitted F t X f → Extent.adjoins f e = true → admitted F t X e.

(** The batch [X] splits into the admitted extents [K], which join the free
    space, and the dropped ones [D]. *)
Definition admission (l : FreeList) (t : Z) (X D : list Extent) (l' : FreeList) : Prop :=
  wf l' ∧ ∃ K, X ≡ₚ K ++ D ∧ (∀ e, e ∈ K → admitted (regions l) t X e) ∧
    (∀ e, e ∈ D → ¬ admitted (regions l) t X e) ∧
    (∀ a, free_at l' a ↔ free_at l a ∨ mem a K).

(** The obligation of every caller: disjoint extents outside the free space. *)
Definition returnable (l : FreeList) (X : list Extent) : Prop :=
  all_apart X ∧ Forall (λ e, clear_of e (regions l)) X.

Lemma all_apart_NoDup (l : list Extent) : all_apart l → NoDup l.
Proof.
  induction l as [|e l IH]; [constructor|]. rewrite all_apart_cons. intros [Hc Ha].
  constructor; [|by apply IH]. intros He. unfold clear_of in Hc. rewrite Forall_forall in Hc.
  specialize (Hc e He). elia.
Qed.

(** Two different entries of a disjoint batch share no address. *)
Lemma all_apart_pair {C} (X : list (Extent * C)) (x y : Extent * C) :
  all_apart (X.*1) → x ∈ X → y ∈ X → x ≠ y → apart x.1 y.1.
Proof.
  intros Ha Hx Hy Hne. apply list_elem_of_split in Hx as (pre & post & ->).
  rewrite fmap_app, fmap_cons in Ha. eapply all_apart_perm in Ha; [|by rewrite <- Permutation_middle].
  apply all_apart_cons in Ha as [Hcl _]. unfold clear_of in Hcl. rewrite Forall_forall in Hcl.
  apply Hcl. rewrite <- fmap_app. apply list_elem_of_fmap_2.
  apply elem_of_app in Hy as [Hy|[->|Hy]%elem_of_cons]; [|done|]; apply elem_of_app; tauto.
Qed.

Lemma admitted_in (F : list Extent) (t : Z) (X : list Extent) (e : Extent) :
  admitted F t X e → e ∈ X.
Proof. by destruct 1. Qed.

(** The result of an admission is determined up to the order of the dropped. *)
Lemma admission_unique (l l1 l2 : FreeList) (t : Z) (X D1 D2 : list Extent) :
  all_apart X → admission l t X D1 l1 → admission l t X D2 l2 → D1 ≡ₚ D2 ∧ l1 = l2.
Proof.
  intros Hap (W1 & K1 & P1 & A1 & N1 & S1) (W2 & K2 & P2 & A2 & N2 & S2).
  apply all_apart_NoDup in Hap. split.
  - apply NoDup_Permutation.
    + rewrite P1 in Hap. by apply NoDup_app in Hap as (_ & _ & ?).
    + rewrite P2 in Hap. by apply NoDup_app in Hap as (_ & _ & ?).
    + intros e. split; intros He.
      * assert (e ∈ X) as Hx by (rewrite P1; apply elem_of_app; by right).
        rewrite P2 in Hx. apply elem_of_app in Hx as [Hx|Hx]; [|done].
        exfalso. by apply (N1 e He), A2.
      * assert (e ∈ X) as Hx by (rewrite P2; apply elem_of_app; by right).
        rewrite P1 in Hx. apply elem_of_app in Hx as [Hx|Hx]; [|done].
        exfalso. by apply (N2 e He), A1.
  - assert (Hk : ∀ e, e ∈ K1 ↔ e ∈ K2).
    { intros e. split; intros He.
      - assert (e ∈ X) as Hx by (rewrite P1; apply elem_of_app; by left).
        rewrite P2 in Hx. apply elem_of_app in Hx as [Hx|Hx]; [done|].
        exfalso. by apply (N2 e Hx), A1.
      - assert (e ∈ X) as Hx by (rewrite P2; apply elem_of_app; by left).
        rewrite P1 in Hx. apply elem_of_app in Hx as [Hx|Hx]; [done|].
        exfalso. by apply (N1 e Hx), A2. }
    apply wf_unique; [done..|]. intros a. rewrite S1, S2. unfold mem. by setoid_rewrite Hk.
Qed.

(** ** Touching free space *)

(** A region touches an extent outside the list exactly when the byte below or
    above the extent is free. *)
Lemma adjoins_free (l : FreeList) (e : Extent) :
  clear_of e (regions l) →
  FreeList.adjoins l e = true ↔ free_at l (Extent.start e - 1) ∨ free_at l (Extent.end_ e).
Proof.
  intros Hc. rewrite list_adjoins_true. setoid_rewrite ext_adjoins_true.
  unfold clear_of in Hc. rewrite Forall_forall in Hc. unfold free_at, mem. split.
  - intros (r & Hr & [He|He]); [left|right]; exists r; (split; [done|elia]).
  - intros [(r & Hr & Hi)|(r & Hr & Hi)]; exists r; (split; [done|]);
      specialize (Hc r Hr); [left|right]; elia.
Qed.

(** An extent of a disjoint list that covers the byte below or above [e]
    touches [e]. *)
Lemma covers_neighbour (f e : Extent) :
  apart f e → inside (Extent.start e - 1) f ∨ inside (Extent.end_ e) f →
  Extent.adjoins f e = true.
Proof. intros Ha Hi. apply ext_adjoins_true. elia. Qed.

(** ** A free list satisfies the contract *)

Section Default.
Context `{Profile}.
Context (l : FreeList) (t : Z) (X : list (Extent * unit)).
Hypothesis Hwf : wf l.
Hypothesis Hret : returnable l (X.*1).

(** [K] has joined the free space. *)
Definition flat_state (l' : FreeList) (K : list (Extent * unit)) : Prop :=
  K ⊆ X ∧ wf l' ∧ ∀ a, free_at l' a ↔ free_at l a ∨ mem a (K.*1).

Definition flat_joins (Q : Extent * unit → Prop) (x : Extent * unit) : Prop :=
  ∃ f, (f ∈ regions l ∨ Q (f, tt)) ∧ Extent.adjoins f x.1 = true.

Lemma flat_init : flat_state l [].
Proof. split_and!; [apply list_subseteq_nil|done|]. intros a. rewrite fmap_nil, mem_nil. tauto. Qed.

Lemma flat_nodup : NoDup X.
Proof. destruct Hret as [Ha _]. apply all_apart_NoDup in Ha. by apply NoDup_fmap_1 in Ha. Qed.

(** A returned extent is apart from the list and from the other ones. *)
Lemma flat_apart (K : list (Extent * unit)) (x : Extent * unit) (f : Extent) :
  K ⊆ X → x ∈ X → x ∉ K → f ∈ regions l ∨ (f, tt) ∈ K → apart f x.1.
Proof.
  intros HK Hx Hn Hf. destruct Hret as [Ha Hcl]. symmetry. destruct Hf as [Hf|Hf].
  - rewrite Forall_forall in Hcl. specialize (Hcl x.1 (list_elem_of_fmap_2 fst X x Hx)).
    unfold clear_of in Hcl. rewrite Forall_forall in Hcl. by apply Hcl.
  - apply (all_apart_pair X x (f, tt) Ha Hx); [by apply HK|]. intros ->. done.
Qed.

Lemma elem_units (K : list (Extent * unit)) (f : Extent) : f ∈ K.*1 ↔ (f, tt) ∈ K.
Proof.
  rewrite list_elem_of_fmap. split; [by intros ([? []] & -> & ?)|]. intros Hf. by exists (f, tt).
Qed.

Lemma flat_clear (l' : FreeList) (K : list (Extent * unit)) (x : Extent * unit) :
  flat_state l' K → x ∈ X → x ∉ K → clear_of x.1 (regions l').
Proof.
  intros (HK & _ & Hs) Hx Hn. apply clear_of_mem. intros a Ha Hi. apply Hs in Ha.
  assert (Hf : ∃ f, (f ∈ regions l ∨ (f, tt) ∈ K) ∧ inside a f).
  { destruct Ha as [(f & Hf & Hi')|(f & Hf & Hi')]; exists f; rewrite <- elem_units; tauto. }
  destruct Hf as (f & Hf & Hi'). pose proof (flat_apart K x f HK Hx Hn Hf). elia.
Qed.

Lemma flat_merges (l' : FreeList) (K : list (Extent * unit)) (x : Extent * unit) :
  flat_state l' K → x ∈ X → x ∉ K → FreeList.adjoins l' x.1 = true ↔ flat_joins (.∈ K) x.
Proof.
  intros Hst Hx Hn. rewrite (adjoins_free l' x.1 (flat_clear l' K x Hst Hx Hn)).
  destruct Hst as (HK & _ & Hs). rewrite !Hs. unfold flat_joins. split.
  - intros Hm. assert (Hf : ∃ f, (f ∈ regions l ∨ (f, tt) ∈ K) ∧
      (inside (Extent.start x.1 - 1) f ∨ inside (Extent.end_ x.1) f)).
    { setoid_rewrite <- elem_units. unfold free_at, mem in Hm. naive_solver. }
    destruct Hf as (f & Hf & Hi). exists f. split; [done|]. apply covers_neighbour; [|done]. by eapply flat_apart.
  - intros (f & Hf & Hadj). apply ext_adjoins_true in Hadj. rewrite <- elem_units in Hf. unfold free_at, mem.
    destruct Hadj, Hf as [Hf|Hf]; [left; left|left; right|right; left|right; right];
      exists f; (split; [done|elia]).
Qed.

#[local] Instance flat_laws : AdmissionLaws X flat_state flat_joins.
Proof.
  split.
  - apply flat_nodup.
  - intros Q Q' x HQ (f & Hf & Ha). exists f. naive_solver.
  - intros l' K x Hst Hx Hn. pose proof (flat_clear l' K x Hst Hx Hn) as Hc. destruct Hst as (HK & Hw & Hs).
    eapply returns_mono; [by apply free_spec|]. intros l'' [Hw' Hs']. split_and!; [|done|].
    + intros y [->|Hy]%elem_of_cons; [done|by apply HK].
    + intros a. rewrite Hs', Hs, fmap_cons, mem_cons. tauto.
  - intros l' K x Hst Hx Hn. by apply flat_merges.
Qed.

(** The least closed set is the set of admitted extents. *)
Lemma flat_admission (l' : FreeList) (K D : list (Extent * unit)) :
  flat_state l' K → splits_batch t X flat_joins K D → admission l t (X.*1) (D.*1) l'.
Proof.
  intros (_ & Hw & Hs) (Hp & Hc & Hf).
  assert (HK : ∀ x, x ∈ K → admitted (regions l) t (X.*1) x.1).
  { apply (Hf (λ x, admitted (regions l) t (X.*1) x.1)). intros [e []] Hx Hj. simpl in *.
    assert (e ∈ X.*1) by by apply elem_units.
    destruct Hj as [|(f & [Hf'|Hf'] & Hadj)]; [by apply admitted_size| |].
    - by eapply admitted_tracked. - by eapply admitted_chain. }
  assert (Hall : ∀ e, admitted (regions l) t (X.*1) e → (e, tt) ∈ K).
  { induction 1 as [e Hx Hsz|e f Hx Hf' Hadj|e f Hx _ IH Hadj]; apply elem_units in Hx; apply (Hc (e, tt) Hx).
    - by left. - right. exists f. split; [by left|done]. - right. exists f. split; [by right|done]. }
  split; [done|]. exists (K.*1). split_and!; [by rewrite Hp, fmap_app| | |done].
  - intros e He%elem_units. exact (HK _ He).
  - intros e He%elem_units Ha%Hall. pose proof flat_nodup as Hnd. rewrite Hp in Hnd.
    apply NoDup_app in Hnd as (_ & Hd & _). by apply (Hd (e, tt)).
Qed.

(** The trait's default terminates and computes the admission. *)
Lemma default_release_each_spec :
  TrackedSpace.release_each l t X ⇝ λ '(D, l'), admission l t (X.*1) (D.*1) l'.
Proof.
  eapply returns_mono; [apply (laws_release_each t l flat_init)|].
  intros [D l'] (K & Hst & Hsp). by eapply flat_admission.
Qed.

(** So does the release of a single extent. *)
Lemma release_one_spec (x : Extent * unit) :
  X = [x] → TrackedSpace.release l t x.1 x.2 ⇝ λ '(r, l'),
    admission l t (X.*1) ((match r with DropIt => [x] | _ => [] end).*1) l'.
Proof.
  intros HX. eapply returns_mono; [apply (laws_release_one t l x HX flat_init)|].
  intros [r l'] (K & Hst & Hsp). by eapply flat_admission.
Qed.

End Default.
