(* ===== verification/AdmissionSweep.v ===== *)
(** * Threshold admission: the flat sweep

    The sweep of [FlatAdmission] cuts the merged sequence of tracked and
    returned extents into runs.  [flat_inv] describes its state after any prefix
    as the list of completed runs and the run under examination; the results
    below read the admission off the completed runs. *)

From S2P Require Import Prelude Addresses Extents Regions Requests FreeLists FreeListFacts.
From S2P Require Import FreeListMerge Admission AdmissionLaws.

Local Open Scope Z_scope.

(** An extent of the sweep, with a mark on the returned ones. *)
Notation item := (Extent * bool)%type.

Section Sweep.
Context (t : Z).

(** Tracked space and returns of at least the threshold seed their run. *)
Definition is_seed (x : item) : bool := negb x.2 || (t <=? Extent.len x.1).

Definition has_seed (R : list item) : bool := existsb is_seed R.

Definition returned_of (R : list item) : list (Extent * unit) :=
  omap (λ x : item, if x.2 then Some (x.1, tt) else None) R.

Fixpoint push_all (adm : FlatAdmission) (M : list item) : outcome FlatAdmission :=
  match M with
  | [] => Ret adm
  | x :: M' => adm ← FlatAdmission.push adm x.1 (is_seed x) x.2; push_all adm M'
  end.

(** ** The sweep pushes the merge of its two inputs *)

Definition tagged (tracked : list Extent) (returned : list (Extent * unit)) : list item :=
  ((λ e, (e, false)) <$> tracked) ++ ((λ x, (x.1, true)) <$> returned).

Lemma sweep_push_all (fuel : nat) (tracked : list Extent) (returned : list (Extent * unit)) adm :
  StronglySorted start_le tracked → StronglySorted entry_le returned →
  fuel = (length tracked + length returned)%nat →
  ∃ M, FlatRelease.sweep fuel t tracked returned adm = push_all adm M ∧
    StronglySorted entry_le M ∧ M ≡ₚ tagged tracked returned.
Proof.
  revert tracked returned adm.
  induction fuel as [|fuel IH]; intros tracked returned adm Ht Hr Hf.
  { destruct tracked, returned; simpl in Hf; try lia. exists []. by split_and!; [|constructor|]. }
  assert (Hpush : ∀ x tracked' returned',
    StronglySorted start_le tracked' → StronglySorted entry_le returned' →
    fuel = (length tracked' + length returned')%nat →
    x :: tagged tracked' returned' ≡ₚ tagged tracked returned →
    (∀ y, y ∈ tagged tracked' returned' → start_le x.1 y.1) →
    ∃ M, (adm ← FlatAdmission.push adm x.1 (is_seed x) x.2;
          FlatRelease.sweep fuel t tracked' returned' adm) = push_all adm M ∧
      StronglySorted entry_le M ∧ M ≡ₚ tagged tracked returned).
  { intros x tracked' returned' Ht' Hr' Hf' Hp Hmin.
    destruct (FlatAdmission.push adm x.1 (is_seed x) x.2) as [adm'|] eqn:E.
    - destruct (IH tracked' returned' adm' Ht' Hr' Hf') as (M & HM & Hs & HP). exists (x :: M).
      cbn [push_all]. rewrite E. split_and!; [done| |by rewrite HP].
      constructor; [done|]. rewrite HP. apply Forall_forall. intros y Hy. by apply Hmin.
    - destruct (IH tracked' returned' adm Ht' Hr' Hf') as (M & HM & Hs & HP). exists (x :: M).
      cbn [push_all]. rewrite E. split_and!; [done| |by rewrite HP].
      constructor; [done|]. rewrite HP. apply Forall_forall. intros y Hy. by apply Hmin. }
  assert (Htag : ∀ y ts rs, y ∈ tagged ts rs ↔ (y.2 = false ∧ y.1 ∈ ts) ∨ (y.2 = true ∧ ∃ z, z ∈ rs ∧ y.1 = z.1)).
  { intros [y b] ts rs. unfold tagged. rewrite elem_of_app, !list_elem_of_fmap. simpl. naive_solver. }
  cbn [FlatRelease.sweep].
  destruct tracked as [|e tracked], returned as [|[n []] returned].
  - done.
  - apply (Hpush (n, true) [] returned); [done|by inversion Hr|simpl in *; lia|done|].
    intros y [[_ []%not_elem_of_nil]|(_ & z & Hz & ->)]%Htag. simpl.
    apply StronglySorted_cons_iff in Hr as [HF _]. rewrite Forall_forall in HF. exact (HF z Hz).
  - apply (Hpush (e, false) tracked []); [by inversion Ht|done|simpl in *; lia|done|].
    intros y [[_ Hy]|(_ & z & []%not_elem_of_nil & _)]%Htag. simpl.
    apply StronglySorted_cons_iff in Ht as [HF _]. rewrite Forall_forall in HF. exact (HF _ Hy).
  - pose proof Ht as [HFt Ht']%StronglySorted_cons_iff. rewrite Forall_forall in HFt.
    pose proof Hr as [HFr Hr']%StronglySorted_cons_iff. rewrite Forall_forall in HFr.
    destruct (Extent.start e <? Extent.start n) eqn:E.
    + apply (Hpush (e, false) tracked ((n, tt) :: returned)); [done|done|simpl in *; lia|done|].
      intros y [[_ Hy]|(_ & z & [->|Hz]%elem_of_cons & ->)]%Htag; [exact (HFt _ Hy)| |].
      * unfold start_le. simpl. lia.
      * specialize (HFr z Hz). unfold entry_le, start_le in *. simpl in *. lia.
    + apply (Hpush (n, true) (e :: tracked) returned); [done|done|simpl in *; lia| |].
      { unfold tagged. apply Permutation_middle. }
      intros y [[_ [->|Hy]%elem_of_cons]|(_ & z & Hz & ->)]%Htag.
      * unfold start_le. simpl. lia.
      * specialize (HFt _ Hy). unfold start_le in *. simpl in *. lia.
      * exact (HFr z Hz).
Qed.

(** ** Runs *)

(** [u] is the union of the touching extents of [R]. *)
Inductive run_of : list item → Extent → Prop :=
| run_one x : run_of [x] x.1
| run_snoc R u x v :
    run_of R u → Extent.end_ u = Extent.start x.1 →
    Extent.start v = Extent.start u → Extent.end_ v = Extent.end_ x.1 → run_of (R ++ [x]) v.

Lemma run_of_mem (R : list item) (u : Extent) (a : Z) :
  run_of R u → inside a u ↔ mem a (R.*1).
Proof.
  induction 1 as [x|R u x v HR IH H1 H2 H3].
  - simpl. by rewrite mem_singleton.
  - rewrite fmap_app, mem_app, <- IH. simpl. rewrite mem_singleton. elia.
Qed.

Lemma run_of_within (R : list item) (u : Extent) (x : item) :
  run_of R u → x ∈ R → within x.1 u.
Proof.
  induction 1 as [y|R u y v HR IH H1 H2 H3].
  - intros ->%list_elem_of_singleton. elia.
  - intros [Hx| ->%list_elem_of_singleton]%elem_of_app; [|elia]. specialize (IH Hx). elia.
Qed.

Lemma run_of_last (R : list item) (u : Extent) :
  run_of R u → ∃ y, y ∈ R ∧ Extent.end_ y.1 = Extent.end_ u.
Proof.
  destruct 1 as [x|R u x v HR H1 H2 H3]; exists x; (split; [|done]); [by left|].
  apply elem_of_app. right. by left.
Qed.

(** ** The state of the sweep *)

(** The results of the completed runs. *)
Definition runs_admitted (runs : list (list item * Extent)) : list Extent :=
  (filter (λ r, has_seed r.1 = true) runs).*2.

Definition runs_dropped (runs : list (list item * Extent)) : list (Extent * unit) :=
  mjoin ((λ r, returned_of r.1) <$> filter (λ r, has_seed r.1 = false) runs).

Definition flat_inv (P : list item) (adm : FlatAdmission) : Prop :=
  ∃ runs, Forall (λ r, run_of r.1 r.2) runs ∧
    canonical (runs.*2 ++ option_list (flat_run adm)) ∧
    flat_admitted adm = runs_admitted runs ∧
    flat_pending_start adm = length (runs_dropped runs) ∧
    match flat_run adm with
    | None => P = mjoin (runs.*1) ∧ flat_seeded adm = false ∧ flat_dropped adm = runs_dropped runs
    | Some u => ∃ cur, P = mjoin (runs.*1) ++ cur ∧ run_of cur u ∧
        flat_seeded adm = has_seed cur ∧
        flat_dropped adm = runs_dropped runs ++ (if has_seed cur then [] else returned_of cur)
    end.

Lemma runs_admitted_snoc runs R u :
  runs_admitted (runs ++ [(R, u)]) = runs_admitted runs ++ (if has_seed R then [u] else []).
Proof.
  unfold runs_admitted. rewrite filter_app, fmap_app. f_equal.
  destruct (has_seed R) eqn:E; [by rewrite filter_cons_True|by rewrite filter_cons_False by (simpl; congruence)].
Qed.

Lemma runs_dropped_snoc runs R u :
  runs_dropped (runs ++ [(R, u)]) = runs_dropped runs ++ (if has_seed R then [] else returned_of R).
Proof.
  unfold runs_dropped. rewrite filter_app, fmap_app, join_app. f_equal.
  destruct (has_seed R) eqn:E; [by rewrite filter_cons_False by (simpl; congruence)|].
  rewrite filter_cons_True by done. simpl. by rewrite app_nil_r.
Qed.

Lemma finish_run_inv (P : list item) (adm : FlatAdmission) :
  flat_inv P adm →
  flat_inv P (FlatAdmission.finish_run adm) ∧ flat_run (FlatAdmission.finish_run adm) = None.
Proof.
  intros (runs & HF & Hc & Hadm & Hps & Hst). unfold FlatAdmission.finish_run.
  destruct (flat_run adm) as [u|].
  - destruct Hst as (cur & -> & Hcur & Hseed & Hdrop).
    assert (HF' : Forall (λ r : list item * Extent, run_of r.1 r.2) (runs ++ [(cur, u)])).
    { apply Forall_app. split; [done|]. by constructor. }
    assert (Hc' : canonical ((runs ++ [(cur, u)]).*2 ++ [])) by (rewrite fmap_app, app_nil_r; exact Hc).
    assert (Hj : mjoin (runs.*1) ++ cur = mjoin ((runs ++ [(cur, u)]).*1)).
    { rewrite fmap_app, join_app. simpl. by rewrite app_nil_r. }
    assert (Hd : (if has_seed cur then (flat_admitted adm ++ [u], take (flat_pending_start adm) (flat_dropped adm))
      else (flat_admitted adm, flat_dropped adm)) = (runs_admitted (runs ++ [(cur, u)]), runs_dropped (runs ++ [(cur, u)]))).
    { rewrite runs_admitted_snoc, runs_dropped_snoc, Hadm, Hdrop, Hps.
      destruct (has_seed cur); by rewrite ?take_app_length, ?app_nil_r. }
    rewrite Hseed, Hd. split; [|done]. exists (runs ++ [(cur, u)]). by rewrite Hj.
  - destruct Hst as (-> & Hseed & Hdrop). simpl. split; [|done]. exists runs. simpl.
    rewrite Hdrop. done.
Qed.

Lemma returned_of_snoc (R : list item) (x : item) :
  returned_of (R ++ [x]) = returned_of R ++ (if x.2 then [(x.1, tt)] else []).
Proof. unfold returned_of. rewrite omap_app. simpl. by destruct (x.2). Qed.

Lemma has_seed_snoc (R : list item) (x : item) : has_seed (R ++ [x]) = has_seed R || is_seed x.
Proof. unfold has_seed. rewrite existsb_app. simpl. by rewrite orb_false_r. Qed.

(** Everything processed so far ends at or below the end of the current run. *)
Lemma flat_inv_below (P : list item) (adm : FlatAdmission) (u x : Extent) :
  flat_inv P adm → flat_run adm = Some u → Extent.end_ u < Extent.start x →
  Forall (λ y : item, gap y.1 x) P.
Proof.
  intros (runs & HF & Hc & _ & _ & Hst) Hu Hlt. rewrite Hu in *.
  destruct Hst as (cur & -> & Hcur & _). apply canonical_app in Hc as (_ & _ & Hx).
  apply Forall_app. split; apply Forall_forall; intros y Hy.
  - apply list_elem_of_join in Hy as (R & Hy & HR). apply list_elem_of_fmap in HR as ([R' v] & -> & HR).
    rewrite Forall_forall in HF. specialize (HF _ HR). simpl in *.
    pose proof (run_of_within _ _ _ HF Hy).
    assert (gap v u) by (apply Hx; [apply list_elem_of_fmap; by exists (R', v)|by left]).
    unfold gap in *. elia.
  - pose proof (run_of_within _ _ _ Hcur Hy). unfold gap. elia.
Qed.

Lemma runs_below (runs : list (list item * Extent)) (u x : Extent) :
  Forall (λ r, run_of r.1 r.2) runs → Forall (λ y : item, gap y.1 x) (mjoin (runs.*1)) →
  u ∈ runs.*2 → gap u x.
Proof.
  rewrite !Forall_forall. intros HF HG ([R v] & -> & HR)%list_elem_of_fmap.
  specialize (HF _ HR). simpl in *. destruct (run_of_last _ _ HF) as (y & Hy & He).
  assert (gap y.1 x); [|unfold gap in *; lia].
  apply HG, list_elem_of_join. exists R. split; [done|]. apply list_elem_of_fmap. by exists (R, v).
Qed.

(** Extending a run, or starting one, after the gap test. *)
Lemma push_inv (P : list item) (adm : FlatAdmission) (x : item) :
  flat_inv P adm → (flat_run adm = None → P = []) → Forall (λ y, before y.1 x.1) P →
  FlatAdmission.push adm x.1 (is_seed x) x.2 ⇝ λ adm', flat_inv (P ++ [x]) adm' ∧ flat_run adm' ≠ None.
Proof.
  intros Hinv H0 HP. unfold FlatAdmission.push.
  set (adm1 := match flat_run adm with Some run => _ | None => _ end).
  assert (H1 : flat_inv P adm1 ∧ match flat_run adm1 with
    | Some u => Extent.start x.1 ≤ Extent.end_ u | None => Forall (λ y, gap y.1 x.1) P end).
  { unfold adm1. destruct (flat_run adm) as [u|] eqn:Eu; [|rewrite Eu, (H0 eq_refl) in *; by split].
    destruct (Extent.end_ u <? Extent.start x.1) eqn:E; [|rewrite Eu; split; [done|lia]].
    split; [by apply finish_run_inv|]. pose proof (finish_run_inv _ _ Hinv) as [_ ->].
    apply (flat_inv_below P adm u); [done|done|lia]. }
  clearbody adm1. clear Hinv H0. destruct H1 as [(runs & HF & Hc & Hadm & Hps & Hst) Hu].
  destruct (flat_run adm1) as [u|] eqn:Eu.
  - destruct Hst as (cur & -> & Hcur & Hseed & Hdrop).
    destruct (run_of_last _ _ Hcur) as (y & Hy & Hye).
    assert (Hend : Extent.end_ u = Extent.start x.1).
    { rewrite Forall_forall in HP. specialize (HP y). rewrite elem_of_app in HP.
      specialize (HP (or_intror Hy)). unfold before in HP. lia. }
    destruct (ext_between_ex (Extent.start u) (Extent.end_ x.1)) as (v & Hv & Hv1 & Hv2); [elia..|].
    eapply returns_bind; [apply step_assert; [lia|]; rewrite Hv; exists v; split; [reflexivity|]; exact eq_refl|].
    intros ? <-.
    set (new := if is_seed x && negb (flat_seeded adm1) then _ else _).
    assert (Hnew : new = (runs_dropped runs ++ (if has_seed cur || is_seed x then [] else returned_of cur),
                          has_seed cur || is_seed x)).
    { unfold new. rewrite Hseed, Hdrop, Hps. destruct (is_seed x), (has_seed cur); simpl;
        rewrite ?take_app_length, ?app_nil_r; done. }
    rewrite Hnew. apply returns_ret. split; [|done]. exists runs. simpl.
    split_and!; [done| |done|done|].
    + apply canonical_snoc with (e := u); [done|lia].
    + exists (cur ++ [x]). rewrite has_seed_snoc, returned_of_snoc. split_and!.
      * by rewrite app_assoc.
      * by eapply run_snoc.
      * done.
      * destruct (has_seed cur || is_seed x), (x.2); simpl; rewrite ?app_nil_r, ?app_assoc; done.
  - destruct Hst as (-> & Hseed & Hdrop). apply step_ret.
    set (new := if is_seed x && negb (flat_seeded adm1) then _ else _).
    assert (Hnew : new = (runs_dropped runs, is_seed x)).
    { unfold new. rewrite Hseed, Hdrop, Hps. destruct (is_seed x); simpl; by rewrite ?firstn_all. }
    rewrite Hnew. apply returns_ret. split; [|done]. exists runs. simpl.
    split_and!; [done| |done|done|].
    + rewrite app_nil_r in Hc. apply canonical_app. split_and!; [done|repeat constructor|].
      intros u y Hui ->%list_elem_of_singleton. by eapply runs_below.
    + exists [x]. split_and!; [done|constructor|unfold has_seed; simpl; by rewrite orb_false_r|].
      unfold has_seed, returned_of. simpl. rewrite orb_false_r.
      destruct (is_seed x), (x.2); simpl; rewrite ?app_nil_r; done.
Qed.

Lemma push_all_inv (M P : list item) (adm : FlatAdmission) :
  flat_inv P adm → (flat_run adm = None → P = []) → ordered ((P ++ M).*1) →
  push_all adm M ⇝ λ adm', flat_inv (P ++ M) adm'.
Proof.
  revert P adm. induction M as [|x M IH]; intros P adm Hinv H0 Ho.
  { apply returns_ret. by rewrite app_nil_r. }
  eapply returns_bind.
  { apply (push_inv P); [done..|]. apply Forall_forall. intros y Hy.
    rewrite fmap_app in Ho. apply ordered_app in Ho as (_ & _ & Hx).
    apply Hx; [apply list_elem_of_fmap; by exists y|by left]. }
  intros adm' [Hinv' Hn]. rewrite (cons_middle x P M), app_assoc in Ho |- *.
  apply IH; [done|by intros ?|done].
Qed.

(** ** Reading the admission off the runs *)

Section Runs.
Context (runs : list (list item * Extent)).
Hypothesis Hruns : Forall (λ r, run_of r.1 r.2) runs.
Hypothesis Hcan : canonical (runs.*2).

Lemma run_elem (R : list item) (u : Extent) : (R, u) ∈ runs → run_of R u.
Proof. rewrite Forall_forall in Hruns. intros H. exact (Hruns _ H). Qed.

(** Touching extents lie in the same run. *)
Lemma same_run (R R' : list item) (u u' : Extent) (x y : item) :
  (R, u) ∈ runs → (R', u') ∈ runs → x ∈ R → y ∈ R' → Extent.adjoins x.1 y.1 = true → R = R'.
Proof.
  intros HR HR' Hx Hy Hadj. pose proof (run_of_within _ _ _ (run_elem _ _ HR) Hx).
  pose proof (run_of_within _ _ _ (run_elem _ _ HR') Hy). apply ext_adjoins_true in Hadj.
  apply list_elem_of_split in HR as (pre & post & Hrs). rewrite Hrs in HR', Hcan.
  rewrite fmap_app, fmap_cons in Hcan. simpl in Hcan.
  apply elem_of_app in HR' as [HR'|[HR'|HR']%elem_of_cons]; [|congruence|].
  - apply canonical_app in Hcan as (_ & _ & Hx').
    assert (gap u' u) by (apply Hx'; [apply list_elem_of_fmap; by exists (R', u')|by left]).
    unfold gap in *. elia.
  - apply canonical_app in Hcan as (_ & Hc & _). apply canonical_cons in Hc as [HG _].
    rewrite Forall_forall in HG.
    assert (gap u u') by (apply HG, list_elem_of_fmap; by exists (R', u')).
    unfold gap in *. elia.
Qed.

Context (F X : list Extent).
Hypothesis Hall : ∀ (e : Extent) (b : bool), (e, b) ∈ mjoin (runs.*1) ↔ (if b then e ∈ X else e ∈ F).

Lemma in_some_run (x : item) : x ∈ mjoin (runs.*1) → ∃ R u, (R, u) ∈ runs ∧ x ∈ R.
Proof.
  intros (R & Hx & HR)%list_elem_of_join. apply list_elem_of_fmap in HR as ([R' u] & -> & HR).
  by exists R', u.
Qed.

Lemma run_member (R : list item) (u : Extent) (x : item) :
  (R, u) ∈ runs → x ∈ R → x ∈ mjoin (runs.*1).
Proof.
  intros HR Hx. apply list_elem_of_join. exists R. split; [done|].
  apply list_elem_of_fmap. by exists (R, u).
Qed.

Lemma has_seed_true (R : list item) : has_seed R = true ↔ ∃ x, x ∈ R ∧ is_seed x = true.
Proof. unfold has_seed. rewrite existsb_exists. by setoid_rewrite list_elem_of_In. Qed.

(** An admitted extent lies in a seeded run. *)
Lemma admitted_seeded (e : Extent) :
  admitted F t X e → ∀ R u, (R, u) ∈ runs → (e, true) ∈ R → has_seed R = true.
Proof.
  induction 1 as [e Hx Hs|e f Hx Hf Hadj|e f Hx Hf IH Hadj]; intros R u HR He.
  - apply has_seed_true. exists (e, true). split; [done|]. unfold is_seed. simpl. lia.
  - destruct (in_some_run (f, false)) as (R' & u' & HR' & Hf'); [by apply Hall|].
    rewrite <- (same_run _ _ _ _ _ _ HR' HR Hf' He Hadj).
    apply has_seed_true. by exists (f, false).
  - destruct (in_some_run (f, true)) as (R' & u' & HR' & Hf').
    { apply Hall. by eapply admitted_in. }
    rewrite <- (same_run _ _ _ _ _ _ HR' HR Hf' He Hadj). by eapply IH.
Qed.

(** Tracked or admitted. *)
Definition good (x : item) : Prop := if x.2 then admitted F t X x.1 else x.1 ∈ F.

Lemma good_adjoins (x y : item) :
  (if y.2 then y.1 ∈ X else y.1 ∈ F) → good x → Extent.adjoins x.1 y.1 = true → good y.
Proof.
  destruct x as [x bx], y as [y []]; unfold good; simpl; [|done]. intros Hy Hx Hadj.
  destruct bx; [by eapply admitted_chain|by eapply admitted_tracked].
Qed.

Lemma run_good (R : list item) (u : Extent) :
  run_of R u → (∀ x : item, x ∈ R → (if x.2 then x.1 ∈ X else x.1 ∈ F : Prop)) →
  (∃ x, x ∈ R ∧ good x) → ∀ x, x ∈ R → good x.
Proof.
  induction 1 as [x|R u x v HR IH H1 H2 H3]; intros Hin (z & Hz & Hg) y Hy.
  { apply list_elem_of_singleton in Hz as ->. by apply list_elem_of_singleton in Hy as ->. }
  destruct (run_of_last _ _ HR) as (w & Hw & Hwe).
  assert (Hadj : Extent.adjoins w.1 x.1 = true) by (apply ext_adjoins_true; lia).
  assert (Hadj' : Extent.adjoins x.1 w.1 = true) by (apply ext_adjoins_true; lia).
  assert (HinR : ∀ x : item, x ∈ R → (if x.2 then x.1 ∈ X else x.1 ∈ F : Prop)).
  { intros x' Hx'. apply Hin, elem_of_app. by left. }
  assert (HallR : ∀ y, y ∈ R → good y).
  { apply IH; [done|]. apply elem_of_app in Hz as [Hz| ->%list_elem_of_singleton]; [by exists z|].
    exists w. split; [done|]. eapply good_adjoins; [by apply HinR|exact Hg|done]. }
  apply elem_of_app in Hy as [Hy| ->%list_elem_of_singleton]; [by apply HallR|].
  eapply good_adjoins; [apply Hin, elem_of_app; right; by left|by apply HallR|done].
Qed.

Lemma seeded_admitted (R : list item) (u : Extent) (x : item) :
  (R, u) ∈ runs → has_seed R = true → x ∈ R → good x.
Proof.
  intros HR (s & Hs & Hseed)%has_seed_true. eapply run_good; [by apply run_elem| |].
  - intros [y b] Hy. apply Hall. by eapply run_member.
  - exists s. split; [done|]. destruct s as [s b].
    pose proof (run_member _ _ _ HR Hs) as Hm. apply Hall in Hm. unfold is_seed, good in *.
    simpl in *. destruct b; [|done]. apply admitted_size; [done|]. simpl in Hseed. lia.
Qed.

(** The returned extents of the seeded runs. *)
Definition runs_kept : list (Extent * unit) :=
  mjoin ((λ r, returned_of r.1) <$> filter (λ r, has_seed r.1 = true) runs).

Lemma returned_of_split : returned_of (mjoin (runs.*1)) ≡ₚ runs_kept ++ runs_dropped runs.
Proof.
  unfold runs_kept, runs_dropped. clear. induction runs as [|[R u] rs IH]; [done|].
  assert (Hj : returned_of (mjoin (((R, u) :: rs).*1)) = returned_of R ++ returned_of (mjoin (rs.*1))).
  { cbn. unfold returned_of. by rewrite omap_app. }
  rewrite Hj, IH. destruct (has_seed R) eqn:E.
  - rewrite (filter_cons_True _ (R, u)) by done. rewrite (filter_cons_False _ (R, u)) by (simpl; congruence).
    cbn. by rewrite app_assoc.
  - rewrite (filter_cons_False (λ r, has_seed r.1 = true) (R, u)) by (simpl; congruence).
    rewrite (filter_cons_True (λ r, has_seed r.1 = false) (R, u)) by done.
    cbn. rewrite !app_assoc. apply Permutation_app_tail, Permutation_app_comm.
Qed.

Lemma elem_runs_returned (b : bool) (e : Extent) :
  (e, tt) ∈ mjoin ((λ r : list item * Extent, returned_of r.1) <$> filter (λ r, has_seed r.1 = b) runs)
  ↔ ∃ R u, (R, u) ∈ runs ∧ has_seed R = b ∧ (e, true) ∈ R.
Proof.
  rewrite list_elem_of_join. split.
  - intros (l' & He & Hl). apply list_elem_of_fmap in Hl as ([R u] & -> & HR).
    apply list_elem_of_filter in HR as [Hs HR]. apply list_elem_of_omap in He as ([y []] & Hy & Heq); [|done].
    injection Heq as ->. by exists R, u.
  - intros (R & u & HR & Hs & He). exists (returned_of R). split.
    + apply list_elem_of_omap. by exists (e, true).
    + apply list_elem_of_fmap. exists (R, u). split; [done|]. by apply list_elem_of_filter.
Qed.

Lemma mem_runs_admitted (a : Z) :
  mem a (runs_admitted runs) ↔ mem a F ∨ mem a (runs_kept.*1).
Proof.
  split.
  - intros (u & Hu & Hi). apply list_elem_of_fmap in Hu as ([R u'] & -> & HR).
    apply list_elem_of_filter in HR as [Hs HR]. simpl in *.
    apply (run_of_mem R) in Hi; [|by apply run_elem].
    destruct Hi as (e & He & Hi). apply list_elem_of_fmap in He as ([e' b] & -> & He). simpl in *.
    destruct b; [right|left].
    + exists e'. split; [|done]. apply list_elem_of_fmap. exists (e', tt). split; [done|].
      apply elem_runs_returned. by exists R, u'.
    + exists e'. split; [|done]. apply (Hall e' false). by eapply run_member.
  - assert (Hin : ∀ e b R u, (R, u) ∈ runs → has_seed R = true → (e, b) ∈ R → inside a e →
      mem a (runs_admitted runs)).
    { intros e b R u HR Hs He Hi. exists u. split.
      - apply list_elem_of_fmap. exists (R, u). split; [done|]. by apply list_elem_of_filter.
      - apply (run_of_mem R); [by apply run_elem|]. exists e. split; [|done].
        apply list_elem_of_fmap. by exists (e, b). }
    intros [(e & He & Hi)|(e & He & Hi)].
    + destruct (in_some_run (e, false)) as (R & u & HR & Hx); [by apply Hall|].
      apply (Hin e false R u); [done| |done|done]. apply has_seed_true. by exists (e, false).
    + apply list_elem_of_fmap in He as ([e' []] & -> & He). apply elem_runs_returned in He as (R & u & HR & Hs & He).
      by apply (Hin e' true R u).
Qed.

End Runs.
End Sweep.

(** ** Threshold admission: batches

    Ordering a batch, the specification of [release_batch] and [release_all] of
    the flat list, and the ordered batch of returned extents. *)

(** ** Ordering a batch *)

Section Ordering.
Context {C : Type}.
Implicit Type l : list (Extent * C).

#[local] Instance entry_le_trans : Transitive (@entry_le C).
Proof. intros x y z. unfold entry_le, start_le. lia. Qed.

#[local] Instance entry_le_total : Total (@entry_le C).
Proof. intros x y. unfold entry_le, start_le. lia. Qed.

Lemma starts_ordered_true l : starts_ordered l = true ↔ StronglySorted entry_le l.
Proof.
  induction l as [|x l IH]; [split; [constructor|done]|].
  destruct l as [|y l]; [split; [repeat constructor|done]|]. cbn [starts_ordered].
  rewrite andb_true_iff, IH, (StronglySorted_cons_iff _ x). split.
  - intros [Hxy Hs]. split; [|done]. pose proof Hs as [HF _]%StronglySorted_cons_iff.
    assert (entry_le x y) by (unfold entry_le, start_le; lia). constructor; [done|].
    eapply Forall_impl; [exact HF|]. intros z Hz. by etrans.
  - intros [HF Hs]. apply Forall_cons in HF as [Hxy _]. unfold entry_le, start_le in Hxy. split; [lia|done].
Qed.

Lemma check_overlap_None l : check_overlap l = None ↔ ordered (l.*1).
Proof.
  induction l as [|x l IH]; [split; [constructor|done]|].
  destruct l as [|y l]; [split; [repeat constructor|done]|]. cbn [check_overlap].
  destruct (_ <? _) eqn:E.
  - split; [done|]. rewrite !fmap_cons, ordered_cons, Forall_cons. unfold before. intros [[? _] _]. lia.
  - rewrite IH. rewrite (fmap_cons _ x), (ordered_cons x.1). split; [|tauto].
    intros Ho. split; [|done]. rewrite fmap_cons in Ho |- *. apply ordered_cons in Ho as [HF _].
    constructor; [unfold before; lia|]. eapply Forall_impl; [exact HF|]. unfold before. intros; elia.
Qed.

Lemma entries_sorted l : StronglySorted entry_le l → StronglySorted start_le (l.*1).
Proof.
  induction 1 as [|x l Hs IH HF]; [constructor|]. rewrite fmap_cons. constructor; [done|].
  apply Forall_fmap. exact HF.
Qed.

Lemma ordered_entries l : ordered (l.*1) → StronglySorted entry_le l.
Proof.
  intros Ho%ordered_sorted. induction l as [|x l IH]; [constructor|].
  rewrite fmap_cons in Ho. apply StronglySorted_cons_iff in Ho as [HF Hs].
  constructor; [by apply IH|]. apply Forall_forall. intros y Hy.
  rewrite Forall_forall in HF. apply (HF y.1), list_elem_of_fmap. by exists y.
Qed.

(** Ordering succeeds exactly on disjoint allocations, and permutes them. *)
Lemma ordered_returns_spec (entries : list (Extent * C)) :
  match OrderedReturns.new entries with
  | Ok l => l ≡ₚ entries ∧ ordered (l.*1)
  | Err _ => ¬ all_apart (entries.*1)
  end.
Proof.
  unfold OrderedReturns.new.
  set (l := if starts_ordered entries then entries else merge_sort entry_le entries).
  assert (l ≡ₚ entries ∧ StronglySorted entry_le l) as [Hp Hs].
  { unfold l. destruct (starts_ordered entries) eqn:E; [by apply starts_ordered_true in E|].
    split; [apply merge_sort_Permutation|apply StronglySorted_merge_sort; apply _]. }
  clearbody l. destruct (check_overlap l) as [e|] eqn:Ec.
  - intros Ha. assert (check_overlap l = None); [|congruence]. apply check_overlap_None.
    apply sorted_apart_ordered; [by apply entries_sorted|].
    eapply all_apart_perm; [|exact Ha]. by rewrite Hp.
  - split; [done|]. by apply check_overlap_None.
Qed.

End Ordering.

(** ** The batch *)

Section Batch.
Context `{Profile}.

Lemma fst_unit (l : list (Extent * unit)) : (λ x : Extent, (x, tt)) <$> l.*1 = l.
Proof. induction l as [|[e []] l IH]; [done|]. rewrite !fmap_cons. by rewrite IH. Qed.

Lemma runs_admitted_canonical t (runs : list (list (Extent * bool) * Extent)) :
  canonical (runs.*2) → canonical (runs_admitted t runs).
Proof.
  unfold runs_admitted. induction runs as [|[R u] runs IH]; [done|].
  rewrite fmap_cons. intros [HF Hc]%canonical_cons. rewrite filter_cons. case_decide; [|by apply IH].
  rewrite fmap_cons. apply canonical_cons. split; [|by apply IH].
  rewrite Forall_forall in *. intros v Hv. apply HF. apply list_elem_of_fmap in Hv as (r & -> & Hr).
  apply list_elem_of_filter in Hr as [_ Hr]. apply list_elem_of_fmap. by exists r.
Qed.

Lemma returned_of_tagged (M : list (Extent * bool)) (F : list Extent) (returned : list (Extent * unit)) :
  M ≡ₚ tagged F returned → returned_of M ≡ₚ returned.
Proof.
  intros HM. unfold returned_of. rewrite HM. unfold tagged. rewrite omap_app.
  assert (omap (λ x : Extent * bool, if x.2 then Some (x.1, tt) else None) ((λ e, (e, false)) <$> F) = [])
    as -> by (clear; induction F as [|x F IH]; [done|exact IH]).
  assert (omap (λ x : Extent * bool, if x.2 then Some (x.1, tt) else None) ((λ x, (x.1, true)) <$> returned)
    = returned) as ->; [|done].
  clear. induction returned as [|[e []] returned IH]; [done|]. cbn. by f_equal.
Qed.

(** The sweep over the merged input. *)
Lemma sweep_spec (l : FreeList) (t : Z) (returned : list (Extent * unit)) :
  wf l → ordered (returned.*1) → returnable l (returned.*1) →
  FlatRelease.sweep (length (regions l) + length returned) t (regions l) returned
    FlatAdmission.default ⇝ λ adm,
  let adm := FlatAdmission.finish_run adm in
  canonical (flat_admitted adm) ∧ ∃ K, returned.*1 ≡ₚ K ++ (flat_dropped adm).*1 ∧
    (∀ e, e ∈ K → admitted (regions l) t (returned.*1) e) ∧
    (∀ e, e ∈ (flat_dropped adm).*1 → ¬ admitted (regions l) t (returned.*1) e) ∧
    (∀ a, mem a (flat_admitted adm) ↔ free_at l a ∨ mem a K).
Proof.
  intros [Hc _] Ho [Ha Hcl]. set (F := regions l). set (X := returned.*1).
  destruct (sweep_push_all t (length F + length returned) F returned FlatAdmission.default)
    as (M & -> & HMs & HMp);
    [by apply ordered_sorted, canonical_ordered|by apply ordered_entries|done|].
  assert (HMord : ordered (M.*1)).
  { apply sorted_apart_ordered; [by apply entries_sorted|].
    eapply all_apart_perm; [by rewrite HMp|]. unfold tagged. rewrite fmap_app, <- !list_fmap_compose.
    change (all_apart ((id <$> F) ++ X)). rewrite list_fmap_id.
    apply all_apart_disjoint; [by apply ordered_all_apart, canonical_ordered|done|].
    intros a Hf (x & Hx & Hi). rewrite Forall_forall in Hcl. specialize (Hcl x Hx).
    rewrite clear_of_mem in Hcl. by apply (Hcl a). }
  assert (Hdef : flat_inv t [] FlatAdmission.default) by (exists []; split_and!; by try constructor).
  destruct (push_all_inv t M [] FlatAdmission.default Hdef ltac:(done) HMord) as (adm & -> & Hadm).
  apply returns_ret. apply finish_run_inv in Hadm as [(runs & HF & Hcan & Hadm & Hps & Hst) Hnone].
  cbv zeta. set (adm' := FlatAdmission.finish_run adm) in *. rewrite Hnone in *.
  destruct Hst as (HM & _ & Hdrop). simpl in HM. rewrite app_nil_r in Hcan.
  assert (Hall : ∀ (e : Extent) (b : bool), (e, b) ∈ mjoin (runs.*1) ↔ (if b then e ∈ X else e ∈ F)).
  { intros e b. rewrite <- HM, HMp. unfold tagged, X. rewrite elem_of_app, !list_elem_of_fmap.
    destruct b; split.
    - intros [(y & [=] & _)|(y & [= ->] & Hy)]. apply list_elem_of_fmap. by exists y.
    - intros (y & -> & Hy)%list_elem_of_fmap. right. by exists y.
    - intros [(y & [= ->] & Hy)|(y & [=] & _)]. done.
    - intros Hy. left. by exists e. }
  rewrite Hadm, Hdrop. split; [by apply runs_admitted_canonical|]. exists ((runs_kept t runs).*1).
  split_and!.
  - rewrite <- fmap_app, <- returned_of_split, <- HM. unfold X. by rewrite (returned_of_tagged _ _ _ HMp).
  - intros e ([e' []] & -> & He)%list_elem_of_fmap.
    apply elem_runs_returned in He as (R & u & HR & Hs & He).
    exact (seeded_admitted t runs HF F X Hall R u (e', true) HR Hs He).
  - intros e ([e' []] & -> & He)%list_elem_of_fmap Hadmit.
    apply elem_runs_returned in He as (R & u & HR & Hs & He).
    rewrite (admitted_seeded t runs HF Hcan F X Hall e' Hadmit R u HR He) in Hs. done.
  - intros a. by apply (mem_runs_admitted t runs HF F X Hall).
Qed.

Lemma admitted_perm (F : list Extent) (t : Z) (X Y : list Extent) (e : Extent) :
  X ≡ₚ Y → admitted F t X e → admitted F t Y e.
Proof.
  intros Hp. induction 1 as [e Hx Hs|e f Hx Hf Hadj|e f Hx Hf IH Hadj]; rewrite Hp in Hx.
  - by apply admitted_size.
  - by eapply admitted_tracked.
  - by eapply admitted_chain.
Qed.

(** The batch computes the admission. *)
Lemma release_batch_spec (l : FreeList) (t : Z) (extents : list (Extent * unit)) :
  wf l → returnable l (extents.*1) →
  FlatRelease.release_batch l t extents ⇝ λ '(D, l'), admission l t (extents.*1) (D.*1) l'.
Proof.
  intros Hwf Hr. unfold FlatRelease.release_batch.
  destruct extents as [|x [|y extents]].
  - apply returns_ret. split; [done|]. exists []. split_and!; [done|by intros ? ?%not_elem_of_nil..|].
    intros a. rewrite mem_nil. tauto.
  - eapply returns_bind; [by apply release_one_spec|]. intros [r l'] Ha. apply returns_ret.
    by destruct r.
  - set (all := x :: y :: extents) in *. pose proof (ordered_returns_spec all) as Ho.
    destruct Hr as [Hap Hcl]. destruct (OrderedReturns.new all) as [returned|e]; [|done].
    destruct Ho as [Hp Ho].
    assert (Hp' : returned.*1 ≡ₚ all.*1) by by rewrite Hp.
    apply (step_expect_ok _ returned); [done|].
    eapply returns_bind; [apply (sweep_spec l t returned); [done|done|]|].
    { split; [by eapply all_apart_perm; [symmetry|]|by rewrite Hp']. }
    intros adm (Hc & K & HK & Hadm & Hdrop & Hmem). cbv zeta in *.
    eapply returns_bind; [by apply from_sorted_ok, canonical_ordered|].
    intros r (l' & -> & Hwf' & Hset). apply (step_expect_ok _ l'); [done|]. apply returns_ret.
    split; [done|]. exists K. split_and!.
    + by rewrite <- Hp'.
    + intros e He. eapply admitted_perm; [exact Hp'|]. by apply Hadm.
    + intros e He Ha. apply (Hdrop e He). exact (admitted_perm _ _ _ _ _ (Permutation_sym Hp') Ha).
    + intros a. unfold free_at. by rewrite (Hset a), Hmem.
Qed.

(** ** Shrinking the allocation by the dropped extents *)

(** The dropped extents that end the allocation form one run below it. *)
Lemma shrink_eoa_spec (D : list Extent) (eoa : Z) :
  ordered D → Forall (λ e, Extent.end_ e ≤ eoa) D →
  let eoa' := FlatRelease.shrink_eoa eoa (reverse D) in
  eoa' ≤ eoa ∧ (∀ a, eoa' ≤ a < eoa → mem a D) ∧ ¬ mem (eoa' - 1) D.
Proof.
  unfold FlatRelease.shrink_eoa. revert eoa.
  induction D as [|e D IH] using rev_ind; intros eoa Ho HF; cbv zeta.
  { simpl. split_and!; [lia|lia|]. rewrite mem_nil. tauto. }
  rewrite reverse_snoc. cbn [foldl].
  apply Forall_app in HF as [HF He]. rewrite Forall_singleton in He.
  apply ordered_app in Ho as (Ho & _ & Hx).
  assert (Hb : Forall (λ f, Extent.end_ f ≤ Extent.start e) D).
  { apply Forall_forall. intros f Hf. apply (Hx f e Hf). by left. }
  destruct (Extent.end_ e =? eoa) eqn:E.
  - destruct (IH (Extent.start e) Ho Hb) as (H1 & H2 & H3). split_and!; [elia| |].
    + intros a Ha. rewrite mem_app, mem_singleton.
      destruct (Z.le_gt_cases (Extent.start e) a); [right; elia|left; apply H2; lia].
    + rewrite mem_app, mem_singleton. intros [?|?]; [done|elia].
  - assert (Hsame : foldl (λ eoa e, if Extent.end_ e =? eoa then Extent.start e else eoa) eoa (reverse D) = eoa).
    { assert (HG : Forall (λ f, Extent.end_ f < eoa) (reverse D)).
      { apply Forall_forall. intros f Hf. rewrite elem_of_reverse in Hf. rewrite Forall_forall in Hb.
        specialize (Hb f Hf). elia. }
      revert HG. generalize (reverse D) as R. induction R as [|f R IHR]; [done|].
      intros [Hf HR]%Forall_cons. simpl. destruct (Extent.end_ f =? eoa) eqn:Ef; [lia|by apply IHR]. }
    rewrite Hsame. split_and!; [lia|lia|]. rewrite mem_app, mem_singleton.
    intros [(f & Hf & Hi)|Hi]; [|elia]. rewrite Forall_forall in Hb. specialize (Hb f Hf). elia.
Qed.

Lemma release_all_spec (l : FreeList) (t eoa : Z) (X : list Extent) :
  wf l → returnable l X → Forall (λ e, Extent.end_ e ≤ eoa) X →
  FlatRelease.release_all l t eoa X ⇝ λ '(eoa', l'), ∃ D, admission l t X D l' ∧
    eoa' ≤ eoa ∧ (∀ a, eoa' ≤ a < eoa → mem a D) ∧ ¬ mem (eoa' - 1) D.
Proof.
  intros Hwf Hr HF. unfold FlatRelease.release_all, FlatRelease.release_each.
  assert (HX : ((λ e, (e, tt)) <$> X).*1 = X) by (rewrite <- list_fmap_compose; apply list_fmap_id).
  eapply returns_bind; [apply release_batch_spec; [done|by rewrite HX]|].
  intros [D l'] Hadm. rewrite HX in Hadm. apply returns_ret. exists (D.*1). split; [done|].
  destruct Hadm as (_ & K & Hp & _). destruct Hr as [Hap _].
  eapply all_apart_perm in Hap; [|exact Hp]. apply all_apart_app in Hap as (_ & Hap & _).
  rewrite Hp in HF. apply Forall_app in HF as [_ HF].
  pose proof (merge_sort_Permutation start_le (D.*1)) as Hs.
  destruct (shrink_eoa_spec (merge_sort start_le (D.*1)) eoa) as (H1 & H2 & H3).
  { by apply merge_sort_ordered. }
  { by rewrite Hs. }
  split_and!; [done| |].
  - intros a Ha. rewrite <- Hs. by apply H2.
  - intros Hm. apply H3. by apply (mem_perm _ _ _ Hs).
Qed.

End Batch.

(** ** The ordered collection of returned allocations

    [ReturnedExtents] keeps its entries sorted and disjoint: construction
    accepts exactly such input, and an insertion is accepted exactly when the
    extent meets no entry. *)

Definition returned_ok (x : ReturnedExtents) : Prop := ordered ((returned_entries x).*1).

Lemma check_order_None {C} (l : list (Extent * C)) : check_order l = None ↔ ordered (l.*1).
Proof.
  induction l as [|[x cx] l IH]; [split; [constructor|done]|].
  destruct l as [|[y cy] l]; [split; [repeat constructor|done]|].
  change (check_order ((x, cx) :: (y, cy) :: l)) with
    (if Extent.start y <? Extent.start x then Some (Unsorted x y)
     else if Extent.start y <? Extent.end_ x then Some (Overlap x y) else check_order ((y, cy) :: l)).
  rewrite !fmap_cons, ordered_cons, <- fmap_cons, <- IH. cbn [fst].
  destruct (Extent.start y <? Extent.start x) eqn:E1; [|destruct (Extent.start y <? Extent.end_ x) eqn:E2].
  - split; [done|]. intros [[Hb _]%Forall_cons _]. unfold before in Hb. simpl in Hb. elia.
  - split; [done|]. intros [[Hb _]%Forall_cons _]. unfold before in Hb. simpl in Hb. elia.
  - split; [|tauto]. intros Hn. split; [|done]. apply IH in Hn. rewrite fmap_cons in Hn |- *.
    apply ordered_cons in Hn as [Hy _]. apply Forall_cons. simpl in *. split; [unfold before; elia|].
    eapply Forall_impl; [exact Hy|]. unfold before. intros z Hz. elia.
Qed.

(** The error of a rejected construction names two consecutive entries. *)
Lemma check_order_Some {C} (l : list (Extent * C)) (err : FreeListError) :
  check_order l = Some err → ∃ pre x y post, l = pre ++ x :: y :: post ∧
    Extent.start y.1 < Extent.end_ x.1 ∧
    err = if Extent.start y.1 <? Extent.start x.1 then Unsorted x.1 y.1 else Overlap x.1 y.1.
Proof.
  induction l as [|[x cx] [|[y cy] l] IH]; [done|done|].
  change (check_order ((x, cx) :: (y, cy) :: l)) with
    (if Extent.start y <? Extent.start x then Some (Unsorted x y)
     else if Extent.start y <? Extent.end_ x then Some (Overlap x y) else check_order ((y, cy) :: l)).
  destruct (Extent.start y <? Extent.start x) eqn:E1; [|destruct (Extent.start y <? Extent.end_ x) eqn:E2].
  - intros [= <-]. exists [], (x, cx), (y, cy), l. simpl. rewrite E1. split_and!; [done|elia|done].
  - intros [= <-]. exists [], (x, cx), (y, cy), l. simpl. rewrite E1. split_and!; [done|lia|done].
  - intros He. destruct (IH He) as (pre & u & v & post & Hl & ? & ?).
    exists ((x, cx) :: pre), u, v, post. rewrite Hl. done.
Qed.

(** Splitting the entries at an extent's start. *)
Lemma insert_split (l lower upper : list (Extent * FreeClass)) (x : Extent) :
  ordered (l.*1) → span (λ '(entry, _), Extent.start entry <? Extent.start x) l = (lower, upper) →
  l = lower ++ upper ∧ Forall (λ y, Extent.start y.1 < Extent.start x) lower ∧
  Forall (λ y, Extent.start x ≤ Extent.start y.1) upper.
Proof.
  intros Ho Hs. apply span_spec in Hs as (-> & Hlo & Hhi). split_and!; [done| |].
  - eapply Forall_impl; [exact Hlo|]. intros [y c]. simpl. lia.
  - destruct upper as [|[y c] upper]; [constructor|]. specialize (Hhi _ _ eq_refl). simpl in Hhi.
    rewrite fmap_app, fmap_cons in Ho. apply ordered_app in Ho as (_ & Ho & _). apply ordered_cons in Ho as [Hy _].
    apply Forall_cons. split; [simpl; lia|]. rewrite Forall_fmap in Hy. eapply Forall_impl; [exact Hy|].
    intros z Hz. unfold before in Hz. simpl in *. elia.
Qed.

(** The neighbours of the insertion point bound all the other entries. *)
Section Neighbours.
Context (lower upper : list (Extent * FreeClass)) (x : Extent).
Hypothesis Hord : ordered ((lower ++ upper).*1).
Hypothesis Hlo : Forall (λ y, Extent.start y.1 < Extent.start x) lower.
Hypothesis Hhi : Forall (λ y, Extent.start x ≤ Extent.start y.1) upper.

Lemma insert_previous :
  match last lower with
  | None => Forall (λ z, before z x) (lower.*1)
  | Some (y, _) => y ∈ (lower ++ upper).*1 ∧ Extent.start y < Extent.start x ∧
      (Extent.end_ y ≤ Extent.start x → Forall (λ z, before z x) (lower.*1))
  end.
Proof.
  destruct (last lower) as [[y cy]|] eqn:Hl; [|apply last_None in Hl as ->; constructor].
  apply last_Some in Hl as [lo ->]. pose proof Hlo as [_ [Hy _]%Forall_cons]%Forall_app.
  rewrite !fmap_app in *. split_and!; [|exact Hy|].
  - apply elem_of_app. left. apply elem_of_app. right. by left.
  - intros Hend. pose proof Hord as ((_ & _ & Hol)%ordered_app & _)%ordered_app.
    apply Forall_app. split; [|by repeat constructor].
    apply Forall_forall. intros z Hz. specialize (Hol z y Hz ltac:(by left)). unfold before in *. elia.
Qed.

Lemma insert_next :
  match upper with
  | [] => Forall (before x) (upper.*1)
  | (y, _) :: _ => y ∈ (lower ++ upper).*1 ∧ Extent.start x ≤ Extent.start y ∧
      (Extent.end_ x ≤ Extent.start y → Forall (before x) (upper.*1))
  end.
Proof.
  destruct upper as [|[y cy] rest]; [constructor|]. pose proof Hhi as [Hy _]%Forall_cons.
  rewrite fmap_app in *. split_and!; [apply elem_of_app; right; by left|exact Hy|].
  intros Hend. pose proof Hord as (_ & Hou & _)%ordered_app. rewrite fmap_cons in Hou |- *.
  apply ordered_cons in Hou as [Hall _]. apply Forall_cons. split; [done|].
  eapply Forall_impl; [exact Hall|]. unfold before. intros z Hz. simpl in *. elia.
Qed.

Lemma insert_between (c : FreeClass) :
  Forall (λ z, before z x) (lower.*1) → Forall (before x) (upper.*1) →
  ordered ((lower ++ (x, c) :: upper).*1) ∧ clear_of x ((lower ++ upper).*1) ∧
  lower ++ (x, c) :: upper ≡ₚ (x, c) :: lower ++ upper.
Proof.
  intros Hb Ha. rewrite fmap_app in Hord. pose proof Hord as (Hol & Hou & Hlu)%ordered_app. split_and!.
  - rewrite fmap_app, fmap_cons. apply ordered_app. split_and!; [done|by apply ordered_cons|].
    intros u v Hu Hv. apply elem_of_cons in Hv as [->|Hv]; [by rewrite Forall_forall in Hb; apply Hb|by apply Hlu].
  - unfold clear_of. rewrite fmap_app. apply Forall_app.
    split; (eapply Forall_impl; [eassumption|]); unfold before; intros z Hz; simpl in Hz; elia.
  - symmetry. apply Permutation_middle.
Qed.

End Neighbours.

Lemma returned_insert_spec (s : ReturnedExtents) (x : Extent) (c : FreeClass) :
  returned_ok s →
  let '(r, s') := ReturnedExtents.insert s x c in
  returned_ok s' ∧
  match r with
  | Ok _ => clear_of x ((returned_entries s).*1) ∧ returned_entries s' ≡ₚ (x, c) :: returned_entries s
  | Err err => s' = s ∧ ∃ y, y ∈ (returned_entries s).*1 ∧ ¬ apart x y ∧ (err = Overlap y x ∨ err = Overlap x y)
  end.
Proof.
  intros Hok. destruct s as [l]. unfold returned_ok, ReturnedExtents.insert in *. cbn [returned_entries] in *.
  destruct (span _ l) as [lower upper] eqn:Es. destruct (insert_split l lower upper x Hok Es) as (-> & Hlo & Hhi).
  pose proof (insert_previous lower upper x Hok Hlo) as Hprev.
  pose proof (insert_next lower upper x Hok Hhi) as Hnext.
  pose proof (insert_between lower upper x Hok c) as Hins. clear Es.
  destruct (last lower) as [[previous cp]|].
  - destruct Hprev as (Hin & Hst & Hall). destruct (Extent.start x <? Extent.end_ previous) eqn:E1.
    { split_and!; [done|done|]. exists previous. split_and!; [done|elia|by left]. }
    specialize (Hall ltac:(lia)). destruct upper as [|[next cn] rest]; [by destruct (Hins Hall Hnext)|].
    destruct Hnext as (Hin2 & Hst2 & Hall2). destruct (Extent.start next <? Extent.end_ x) eqn:E2.
    { split_and!; [done|done|]. exists next. split_and!; [done|elia|by right]. }
    by destruct (Hins Hall (Hall2 ltac:(lia))).
  - destruct upper as [|[next cn] rest]; [by destruct (Hins Hprev Hnext)|].
    destruct Hnext as (Hin2 & Hst2 & Hall2). destruct (Extent.start next <? Extent.end_ x) eqn:E2.
    { split_and!; [done|done|]. exists next. split_and!; [done|elia|by right]. }
    by destruct (Hins Hprev (Hall2 ltac:(lia))).
Qed.
