(* ===== verification/Persistence.v ===== *)
(** * Splitting free space into the managers of a file

    Models [crates/hdf5-pure-space/src/persistence.rs]: an extent splits into its
    partial edge pages and its aligned interior, and the PAGE lists into the
    small metadata, small raw and generic-large managers.  The lemmas show that
    the split is a partition and that every piece has the shape its manager
    requires. *)

From S2P Require Import Prelude Addresses Extents Regions Requests FreeLists FreeListFacts FreeListMerge.

Local Open Scope Z_scope.

Inductive ManagerKind : Type := ManagerFlat | PagedLargeGeneric | PagedSmallMetadata | PagedSmallRaw.

#[global] Instance ManagerKind_eq_dec : EqDecision ManagerKind.
Proof. solve_decision. Defined.

Record PageParts : Type := mkParts {
  leading : option Extent;
  interior : option Extent;
  trailing : option Extent;
}.

Module PageParts.

Definition new (extent : Extent) (page_size : FileSpacePageSize) : PageParts :=
  match Extent.aligned_interior extent (FileSpacePageSize.get page_size) with
  | Some interior =>
    mkParts (Extent.between (Extent.start extent) (Extent.start interior)) (Some interior)
      (Extent.between (Extent.end_ interior) (Extent.end_ extent))
  | None =>
    let boundary :=
      Z.min (match Address.checked_add (Extent.start extent)
                     (FileSpacePageSize.get page_size
                      - Extent.start extent mod FileSpacePageSize.get page_size) with
             | Ok a => a
             | Err _ => Extent.end_ extent
             end) (Extent.end_ extent) in
    mkParts (Extent.between (Extent.start extent) boundary) None
      (Extent.between boundary (Extent.end_ extent))
  end.

Definition edges (self : PageParts) : list Extent :=
  option_list (leading self) ++ option_list (trailing self).

Definition count (self : PageParts) : nat :=
  length (option_list (leading self)) + length (option_list (interior self))
  + length (option_list (trailing self)).

End PageParts.

Record ManagerSections : Type := mkManager {
  manager_kind : ManagerKind;
  manager_sections : list Extent;
}.

(** Three borrowed lists of a PAGE state. *)
Record PagedSections : Type := mkSections {
  sections_metadata : list Extent;
  sections_raw : list Extent;
  sections_unclassified : list Extent;
}.

Module ManagerSections.

Definition flat (sections : list Extent) : list ManagerSections :=
  match sections with
  | [] => []
  | _ => [mkManager ManagerFlat sections]
  end.

(** The typed small sections and the generic ones, in the order they are
    pushed. *)
Definition split_typed (sections : list Extent) (page_size : FileSpacePageSize)
    : list Extent * list Extent :=
  (sections ≫= (λ e, PageParts.edges (PageParts.new e page_size)),
   sections ≫= (λ e, option_list (interior (PageParts.new e page_size)))).

(** [windows(2).all(start < start)] *)
Fixpoint starts_increasing (l : list Extent) : bool :=
  match l with
  | x :: ((y :: _) as rest) => (Extent.start x <? Extent.start y) && starts_increasing rest
  | _ => true
  end.

Section Profiled.
Context `{Profile}.

Definition paged_lists (metadata_extents raw_extents unclassified : list Extent)
    (page_size : FileSpacePageSize) : outcome (list ManagerSections) :=
  let '(metadata, generic1) := split_typed metadata_extents page_size in
  let '(raw, generic2) := split_typed raw_extents page_size in
  let generic := merge_sort start_le (generic1 ++ generic2 ++ unclassified) in
  _ ← debug_assert (starts_increasing generic);
  Ret (omap (λ '(kind, sections),
               match sections with [] => None | _ => Some (mkManager kind sections) end)
         [(PagedSmallMetadata, metadata); (PagedSmallRaw, raw); (PagedLargeGeneric, generic)]).

Definition paged (sections : PagedSections) (page_size : FileSpacePageSize)
    : outcome (list ManagerSections) :=
  paged_lists (sections_metadata sections) (sections_raw sections)
    (sections_unclassified sections) page_size.

End Profiled.
End ManagerSections.

(** ** The split is a partition *)

(** Both ends of the extent lie in one page. *)
Definition in_one_page (p : FileSpacePageSize) (e : Extent) : Prop :=
  Extent.start e / page_bytes p = (Extent.end_ e - 1) / page_bytes p.

Definition page_aligned (p : FileSpacePageSize) (e : Extent) : Prop :=
  Extent.start e mod page_bytes p = 0 ∧ Extent.end_ e mod page_bytes p = 0.

(** The pieces in address order. *)
Definition pieces (q : PageParts) : list Extent :=
  option_list (leading q) ++ option_list (interior q) ++ option_list (trailing q).

Section Parts.
Context (p : FileSpacePageSize).
Let P := page_bytes p.

Lemma page_of_range (s t k : Z) : k * P ≤ s → s < t → t ≤ k * P + P → s / P = (t - 1) / P.
Proof.
  intros H1 H2 H3. pose proof (page_size_pos p) as Hp. fold P in Hp.
  rewrite <- (Z.div_unique s P k (s - P * k)) by lia.
  rewrite <- (Z.div_unique (t - 1) P k (t - 1 - P * k)) by lia. done.
Qed.

Lemma between_one_page (s t k : Z) (f : Extent) :
  Extent.between s t = Some f → k * P ≤ s → t ≤ k * P + P → in_one_page p f.
Proof.
  intros [Hs Ht]%ext_between_Some H1 H2. unfold in_one_page. fold P.
  pose proof (ext_bounds f). apply (page_of_range _ _ k); lia.
Qed.

Lemma parts_mem (e : Extent) (a : Z) : mem a (pieces (PageParts.new e p)) ↔ inside a e.
Proof.
  unfold PageParts.new, pieces. pose proof (ext_bounds e) as He. pose proof (page_size_pos p) as Hp.
  destruct (Extent.aligned_interior _ _) as [i|] eqn:Ei; simpl.
  - apply ext_aligned_interior_Some in Ei; [|done]. pose proof (ext_bounds i).
    rewrite mem_app, mem_cons, !mem_between by lia. unfold inside. lia.
  - rewrite mem_app. unfold Address.checked_add, Prelude.checked_add, FileSpacePageSize.get.
    pose proof (Z.mod_pos_bound (Extent.start e) (page_bytes p) Hp).
    destruct (_ <=? U64_MAX) eqn:E; simpl; rewrite !mem_between by lia; unfold inside; lia.
Qed.

Lemma ordered_pieces (e : Extent) : ordered (pieces (PageParts.new e p)).
Proof.
  unfold PageParts.new, pieces. pose proof (ext_bounds e) as He. pose proof (page_size_pos p) as Hp.
  assert (Hcat : ∀ s t u v, 0 ≤ s → t ≤ u → v ≤ U64_MAX →
    ordered (option_list (Extent.between s t) ++ option_list (Extent.between u v))).
  { intros s t u v Hs Htu Hv. destruct (Extent.between s t) as [f|] eqn:E1,
      (Extent.between u v) as [g|] eqn:E2; simpl; try (repeat constructor).
    apply ext_between_Some in E1, E2. unfold before. lia. }
  destruct (Extent.aligned_interior _ _) as [i|] eqn:Ei; simpl.
  - apply ext_aligned_interior_Some in Ei; [|done]. pose proof (ext_bounds i).
    apply ordered_app. split_and!.
    + destruct (Extent.between _ _); repeat constructor.
    + apply ordered_cons. split; [|destruct (Extent.between _ _); repeat constructor].
      apply Forall_forall. intros f Hf. apply elem_of_between in Hf. unfold before. lia.
    + intros f g Hf%elem_of_between [->|Hg]%elem_of_cons; [unfold before; lia|].
      apply elem_of_between in Hg. unfold before. lia.
  - apply Hcat; lia.
Qed.

(** Every edge stays inside one page. *)
Lemma edges_in_one_page (e f : Extent) :
  f ∈ PageParts.edges (PageParts.new e p) → in_one_page p f.
Proof.
  unfold PageParts.new, PageParts.edges. pose proof (ext_bounds e) as He.
  pose proof (page_size_pos p) as Hp. fold P in Hp. unfold FileSpacePageSize.get. fold P.
  pose proof (Z.mod_pos_bound (Extent.start e) P Hp) as Hm.
  pose proof (Z.div_mod (Extent.start e) P ltac:(lia)) as Hd.
  set (k := Extent.start e / P) in *.
  destruct (Extent.aligned_interior e P) as [i|] eqn:Ei; simpl.
  - pose proof (ext_bounds i). apply ext_aligned_interior_Some in Ei as (H1 & H2 & H3 & H4); [|done].
    assert (Hi : Extent.start i ≤ k * P + P).
    { destruct (Z.le_gt_cases (Extent.start i) (k * P + P)) as [|Hgt]; [done|].
      pose proof (multiple_le_of_lt (k * P + P) (Extent.start i) P Hp). 
      rewrite <- Z.mul_succ_l, Z.mod_mul in H0 by lia. lia. }
    intros [Hf|Hf]%elem_of_app.
    + destruct (Extent.between _ _) as [g|] eqn:Eg in Hf; [|by apply not_elem_of_nil in Hf].
      apply list_elem_of_singleton in Hf as ->. eapply (between_one_page _ _ k); [exact Eg|lia|lia].
    + destruct (Extent.between _ _) as [g|] eqn:Eg in Hf; [|by apply not_elem_of_nil in Hf].
      apply list_elem_of_singleton in Hf as ->.
      pose proof (Z.div_mod (Extent.end_ i) P ltac:(lia)) as Hdi.
      eapply (between_one_page _ _ (Extent.end_ i / P)); [exact Eg|lia|lia].
  - assert (Hend : Extent.end_ e ≤ (k + 2) * P).
    { destruct (Z.le_gt_cases (Extent.end_ e) ((k + 2) * P)) as [|Hgt]; [done|].
      exfalso. eapply (ext_aligned_interior_None e P ((k + 1) * P)); [done|done|apply Z.mod_mul; lia|lia|lia]. }
    set (b := Z.min _ _).
    assert (Hb : b ≤ k * P + P ∧ (b = k * P + P ∨ b = Extent.end_ e)).
    { unfold b, Address.checked_add, Prelude.checked_add.
      destruct (Extent.start e + (P - Extent.start e mod P) <=? U64_MAX) eqn:E; simpl; lia. }
    clearbody b. intros [Hf|Hf]%elem_of_app;
      (destruct (Extent.between _ _) as [g|] eqn:Eg in Hf; [|by apply not_elem_of_nil in Hf]);
      apply list_elem_of_singleton in Hf as ->.
    + eapply (between_one_page _ _ k); [exact Eg|lia|lia].
    + pose proof Eg as Hg%ext_between_Some. pose proof (ext_bounds g).
      eapply (between_one_page _ _ (k + 1)); [exact Eg|lia|lia].
Qed.

Lemma interior_aligned (e i : Extent) :
  interior (PageParts.new e p) = Some i → page_aligned p i ∧ within i e.
Proof.
  unfold PageParts.new, FileSpacePageSize.get.
  destruct (Extent.aligned_interior e (page_bytes p)) as [j|] eqn:Ei; [|done].
  apply ext_aligned_interior_Some in Ei; [|apply page_size_pos]. intros [= <-].
  unfold page_aligned, within. lia.
Qed.

Lemma count_pieces (e : Extent) : PageParts.count (PageParts.new e p) = length (pieces (PageParts.new e p)).
Proof. unfold PageParts.count, pieces. rewrite !length_app. lia. Qed.

Lemma edges_interior_perm (e : Extent) :
  PageParts.edges (PageParts.new e p) ++ option_list (interior (PageParts.new e p))
  ≡ₚ pieces (PageParts.new e p).
Proof.
  unfold PageParts.edges, pieces. rewrite <- app_assoc. apply Permutation_app_head.
  apply Permutation_app_comm.
Qed.

(** ** Splitting a whole list *)

Lemma split_typed_mem (l : list Extent) (a : Z) :
  mem a (ManagerSections.split_typed l p).1 ∨ mem a (ManagerSections.split_typed l p).2 ↔ mem a l.
Proof.
  unfold ManagerSections.split_typed. simpl. rewrite !mem_concat_map. split.
  - intros [(r & Hr & Hm)|(r & Hr & Hm)]; exists r; (split; [done|]); apply parts_mem;
      rewrite <- edges_interior_perm, mem_app; auto.
  - intros (r & Hr & Hi). apply parts_mem in Hi. rewrite <- edges_interior_perm, mem_app in Hi.
    destruct Hi; [left|right]; by exists r.
Qed.

Lemma split_typed_perm (l : list Extent) :
  (ManagerSections.split_typed l p).1 ++ (ManagerSections.split_typed l p).2
  ≡ₚ l ≫= (λ e, pieces (PageParts.new e p)).
Proof.
  unfold ManagerSections.split_typed. simpl. induction l as [|e l IH]; [done|].
  cbn. rewrite <- IH, <- edges_interior_perm. 
  rewrite <- !app_assoc. apply Permutation_app_head. rewrite !app_assoc.
  apply Permutation_app_tail, Permutation_app_comm.
Qed.

Lemma pieces_within (e f : Extent) : f ∈ pieces (PageParts.new e p) → within f e.
Proof.
  intros Hf. assert (Hm : ∀ a, inside a f → inside a e).
  { intros a Ha. apply parts_mem. by exists f. }
  pose proof (ext_bounds f). pose proof (Hm (Extent.start f)). pose proof (Hm (Extent.end_ f - 1)).
  unfold inside, within in *. lia.
Qed.

Lemma all_apart_pieces (l : list Extent) :
  all_apart l → all_apart (l ≫= (λ e, pieces (PageParts.new e p))).
Proof.
  induction l as [|e l IH]; [done|]. rewrite all_apart_cons. intros [Hc Ha]. cbn.
  apply all_apart_app. split_and!; [by apply ordered_all_apart, ordered_pieces|by apply IH|].
  intros f g Hf Hg. apply list_elem_of_bind in Hg as (e' & Hg & He').
  apply pieces_within in Hf, Hg. unfold clear_of in Hc. rewrite Forall_forall in Hc.
  specialize (Hc e' He'). elia.
Qed.

End Parts.
