(* ===== verification/StartMap.v ===== *)
(** * Ordered maps of extents by start address

    The [BTreeMap<StoredAddress, Extent>] of [list/indexed.rs] and
    [paged/admission.rs] maps the start of each extent to the extent.  The model
    is the list of its values in key order; [range], [get], [remove] and
    [insert] split it at a key. *)

From S2P Require Import Prelude Addresses Extents Regions FreeLists FreeListFacts.

Local Open Scope Z_scope.

Module StartMap.

(** The entries with a key below [a], and the others. *)
Definition below (a : Z) (l : list Extent) : list Extent :=
  (span (λ r, Extent.start r <? a) l).1.

Definition from (a : Z) (l : list Extent) : list Extent :=
  (span (λ r, Extent.start r <? a) l).2.

(** [range(..a).next_back()] *)
Definition prev (a : Z) (l : list Extent) : option Extent := last (below a l).

(** [range(a..).next()] *)
Definition next (a : Z) (l : list Extent) : option Extent := head (from a l).

Definition get (a : Z) (l : list Extent) : option Extent :=
  r ← next a l; if Extent.start r =? a then Some r else None.

(** The entries above the key [a], without the one at [a]. *)
Definition above (a : Z) (l : list Extent) : list Extent :=
  match from a l with
  | r :: t => if Extent.start r =? a then t else r :: t
  | [] => []
  end.

Definition remove (a : Z) (l : list Extent) : list Extent := below a l ++ above a l.

Definition insert (e : Extent) (l : list Extent) : list Extent :=
  below (Extent.start e) l ++ e :: above (Extent.start e) l.

End StartMap.

(** ** Splitting a sorted map at a key *)

Section Facts.

Lemma startmap_split (a : Z) (lo hi : list Extent) :
  Forall (λ r, Extent.start r < a) lo → Forall (λ r, a ≤ Extent.start r) hi →
  StartMap.below a (lo ++ hi) = lo ∧ StartMap.from a (lo ++ hi) = hi.
Proof.
  unfold StartMap.below, StartMap.from. intros Hlo Hhi.
  assert (span (λ r, Extent.start r <? a) (lo ++ hi) = (lo, hi)) as ->; [|done].
  induction Hlo as [|r lo Hr Hlo IH]; simpl.
  - destruct Hhi as [|r hi Hr Hhi]; [done|]. simpl.
    destruct (Extent.start r <? a) eqn:E; [lia|done].
  - destruct (Extent.start r <? a) eqn:E; [by rewrite IH|lia].
Qed.

(** Every canonical list splits at any key. *)
Lemma canonical_split (a : Z) (l : list Extent) :
  canonical l → ∃ lo hi, l = lo ++ hi ∧ Forall (λ r, Extent.start r < a) lo ∧
    Forall (λ r, a ≤ Extent.start r) hi.
Proof.
  induction l as [|r l IH]; [by exists [], []|]. intros [HG Hc]%canonical_cons.
  destruct (Z.lt_ge_cases (Extent.start r) a) as [Hlt|Hge].
  - destruct (IH Hc) as (lo & hi & -> & Hlo & Hhi). exists (r :: lo), hi. by split_and!; [|constructor|].
  - exists [], (r :: l). split_and!; [done|constructor|]. constructor; [done|].
    eapply Forall_impl; [exact HG|]. unfold gap. intros; elia.
Qed.

Lemma canonical_split_elem (pre post : list Extent) (r : Extent) :
  canonical (pre ++ r :: post) →
  Forall (λ x, Extent.start x < Extent.start r) pre ∧
  Forall (λ x, Extent.start r < Extent.start x) post.
Proof.
  intros (_ & Hc & Hx)%canonical_app. apply canonical_cons in Hc as [HG _].
  split; apply Forall_forall; intros x Hxin.
  - specialize (Hx x r Hxin ltac:(by left)). unfold gap in Hx. elia.
  - rewrite Forall_forall in HG. specialize (HG x Hxin). unfold gap in HG. elia.
Qed.

Lemma startmap_remove (pre post : list Extent) (r : Extent) :
  canonical (pre ++ r :: post) →
  StartMap.remove (Extent.start r) (pre ++ r :: post) = pre ++ post.
Proof.
  intros [H1 H2]%canonical_split_elem.
  destruct (startmap_split (Extent.start r) pre (r :: post)) as [Hb Hf]; [done| |].
  { constructor; [lia|]. eapply Forall_impl; [exact H2|]. simpl. lia. }
  unfold StartMap.remove, StartMap.above. rewrite Hb, Hf. by rewrite Z.eqb_refl.
Qed.

Lemma startmap_get (pre post : list Extent) (r : Extent) :
  canonical (pre ++ r :: post) →
  StartMap.get (Extent.start r) (pre ++ r :: post) = Some r.
Proof.
  intros [H1 H2]%canonical_split_elem.
  destruct (startmap_split (Extent.start r) pre (r :: post)) as [_ Hf]; [done| |].
  { constructor; [lia|]. eapply Forall_impl; [exact H2|]. simpl. lia. }
  unfold StartMap.get, StartMap.next. rewrite Hf. simpl. by rewrite Z.eqb_refl.
Qed.

Lemma startmap_insert (lo hi : list Extent) (e : Extent) :
  Forall (λ r, Extent.start r < Extent.start e) lo →
  Forall (λ r, Extent.start e < Extent.start r) hi →
  StartMap.insert e (lo ++ hi) = lo ++ e :: hi.
Proof.
  intros Hlo Hhi. destruct (startmap_split (Extent.start e) lo hi) as [Hb Hf]; [done| |].
  { eapply Forall_impl; [exact Hhi|]. simpl. lia. }
  unfold StartMap.insert, StartMap.above. rewrite Hb, Hf. do 2 f_equal.
  destruct Hhi as [|r hi Hr _]; [done|]. destruct (_ =? _) eqn:E; [lia|done].
Qed.

Lemma startmap_get_Some (a : Z) (l : list Extent) (r : Extent) :
  canonical l → StartMap.get a l = Some r → r ∈ l ∧ Extent.start r = a.
Proof.
  intros Hc. unfold StartMap.get, StartMap.next, StartMap.from.
  destruct (span _ l) as [p q] eqn:E. apply span_spec in E as (-> & _ & _). simpl.
  destruct q as [|x q]; [done|]. simpl. destruct (_ =? _) eqn:E; [|done].
  intros [= <-]. split; [apply elem_of_app; right; by left|lia].
Qed.

Lemma startmap_get_elem (l : list Extent) (r : Extent) :
  canonical l → r ∈ l → StartMap.get (Extent.start r) l = Some r.
Proof. intros Hc (pre & post & ->)%list_elem_of_split. by apply startmap_get. Qed.

(** ** Joining an extent with its neighbours *)

(** The three parts of a canonical list around an extent outside it: what lies
    below and does not touch, the touching neighbours, and what lies above. *)
Lemma around (l : list Extent) (e : Extent) :
  canonical l → clear_of e l →
  ∃ lo hi, l = lo ++ hi ∧
    Forall (λ r, Extent.end_ r ≤ Extent.start e) lo ∧ Forall (λ r, Extent.end_ e ≤ Extent.start r) hi ∧
    StartMap.below (Extent.start e) l = lo ∧ StartMap.from (Extent.start e) l = hi.
Proof.
  intros Hc Hcl. destruct (canonical_split (Extent.start e) l Hc) as (lo & hi & -> & Hlo & Hhi).
  destruct (startmap_split _ _ _ Hlo Hhi) as [Hb Hf]. exists lo, hi.
  unfold clear_of in Hcl. apply Forall_app in Hcl as [Hcl1 Hcl2].
  rewrite Forall_forall in Hlo, Hhi, Hcl1, Hcl2.
  split_and!; [done| | |done|done]; apply Forall_forall; intros r Hr.
  - specialize (Hlo r Hr). specialize (Hcl1 r Hr). elia.
  - specialize (Hhi r Hr). specialize (Hcl2 r Hr). elia.
Qed.

End Facts.
