(* ===== verification/Indexed.v ===== *)
(** * The indexed free list: definitions

    Models [crates/hdf5-pure-space/src/list/indexed.rs] and the work counters of
    [reservation.rs].  The address map is a [StartMap]; a [BTreeSet] of
    [(length, start)] pairs is a [gset] whose range query picks the least pair
    at or above a bound.  The borrowed owner is a field: [new] empties it and
    [restore] writes the remaining extents back. *)

From stdpp Require Import gmap.
From S2P Require Import Prelude Addresses Extents Regions Requests FreeLists StartMap.

Local Open Scope Z_scope.

(** ** Work counters *)

Record ReservationWork : Type := mkWork {
  indexed_extents : Z;
  lookups : Z;
  removed_extents : Z;
  inserted_extents : Z;
  restored_extents : Z;
}.

Module ReservationWork.

Definition default : ReservationWork := mkWork 0 0 0 0 0.

Definition bump (z : Z) : Z := saturating_add z 1.

Definition add_indexed (w : ReservationWork) : ReservationWork :=
  mkWork (bump (indexed_extents w)) (lookups w) (removed_extents w) (inserted_extents w)
    (restored_extents w).

Definition add_lookup (w : ReservationWork) : ReservationWork :=
  mkWork (indexed_extents w) (bump (lookups w)) (removed_extents w) (inserted_extents w)
    (restored_extents w).

Definition add_removed (w : ReservationWork) : ReservationWork :=
  mkWork (indexed_extents w) (lookups w) (bump (removed_extents w)) (inserted_extents w)
    (restored_extents w).

Definition add_inserted (w : ReservationWork) : ReservationWork :=
  mkWork (indexed_extents w) (lookups w) (removed_extents w) (bump (inserted_extents w))
    (restored_extents w).

Definition add_restored (w : ReservationWork) : ReservationWork :=
  mkWork (indexed_extents w) (lookups w) (removed_extents w) (inserted_extents w)
    (bump (restored_extents w)).

Definition combine (self other : ReservationWork) : ReservationWork :=
  mkWork (saturating_add (indexed_extents self) (indexed_extents other))
    (saturating_add (lookups self) (lookups other))
    (saturating_add (removed_extents self) (removed_extents other))
    (saturating_add (inserted_extents self) (inserted_extents other))
    (saturating_add (restored_extents self) (restored_extents other)).

End ReservationWork.

(** ** Ordered sets of (length, start) pairs *)

Definition pair_lt (x y : Z * Z) : bool := (x.1 <? y.1) || ((x.1 =? y.1) && (x.2 <? y.2)).

(** [range((size, 0)..).next()] *)
Definition least_from (size : Z) (s : gset (Z * Z)) : option (Z * Z) :=
  min_by pair_lt (filter (λ x, pair_lt x (size, 0) = false) (elements s)).

(** ** The PAGE block index *)

Record BlockIndex : Type := mkBlocks {
  block_page_size : FileSpacePageSize;
  block_small : gset (Z * Z);
  block_large : gset (Z * Z);
}.

Module BlockIndex.

Definition new (page_size : FileSpacePageSize) : BlockIndex := mkBlocks page_size ∅ ∅.

Definition small_key (p : FileSpacePageSize) (e : Extent) : Z * Z :=
  (Extent.block_capacity e p 1, Extent.start e).

Definition large_key (p : FileSpacePageSize) (e : Extent) : Z * Z :=
  (Extent.block_capacity e p (FileSpacePageSize.get p), Extent.start e).

Definition find (self : BlockIndex) (size : Z) : option Z :=
  let index := if size <? FileSpacePageSize.get (block_page_size self)
               then block_small self else block_large self in
  snd <$> least_from size index.

Definition insert (self : BlockIndex) (extent : Extent) : BlockIndex :=
  mkBlocks (block_page_size self)
    ({[small_key (block_page_size self) extent]} ∪ block_small self)
    ({[large_key (block_page_size self) extent]} ∪ block_large self).

Definition remove (self : BlockIndex) (extent : Extent) : BlockIndex :=
  mkBlocks (block_page_size self)
    (block_small self ∖ {[small_key (block_page_size self) extent]})
    (block_large self ∖ {[large_key (block_page_size self) extent]}).

End BlockIndex.

(** ** The index *)

Record IndexedFreeList : Type := mkIndexed {
  ix_owner : FreeList;
  ix_regions : list Extent;
  ix_sizes : gset (Z * Z);
  ix_interiors : gset (Z * Z);
  ix_alignment : option Z;
  ix_blocks : option BlockIndex;
  ix_buffer : list Extent;
  ix_total : Z;
  ix_work : ReservationWork;
  ix_restored : bool;
}.

Module IndexedFreeList.

Definition interior_of (alignment : option Z) (extent : Extent) : option Extent :=
  alignment ← alignment; Extent.aligned_interior extent alignment.

Definition with_work (self : IndexedFreeList) (w : ReservationWork) : IndexedFreeList :=
  mkIndexed (ix_owner self) (ix_regions self) (ix_sizes self) (ix_interiors self)
    (ix_alignment self) (ix_blocks self) (ix_buffer self) (ix_total self) w (ix_restored self).

Definition with_total (self : IndexedFreeList) (t : Z) : IndexedFreeList :=
  mkIndexed (ix_owner self) (ix_regions self) (ix_sizes self) (ix_interiors self)
    (ix_alignment self) (ix_blocks self) (ix_buffer self) t (ix_work self) (ix_restored self).

Definition with_blocks (self : IndexedFreeList) (b : option BlockIndex) : IndexedFreeList :=
  mkIndexed (ix_owner self) (ix_regions self) (ix_sizes self) (ix_interiors self)
    (ix_alignment self) b (ix_buffer self) (ix_total self) (ix_work self) (ix_restored self).

Definition insert (self : IndexedFreeList) (extent : Extent) : IndexedFreeList :=
  mkIndexed (ix_owner self)
    (StartMap.insert extent (ix_regions self))
    ({[(Extent.len extent, Extent.start extent)]} ∪ ix_sizes self)
    (match interior_of (ix_alignment self) extent with
     | Some interior => {[(Extent.len interior, Extent.start extent)]} ∪ ix_interiors self
     | None => ix_interiors self
     end)
    (ix_alignment self)
    ((λ blocks, BlockIndex.insert blocks extent) <$> ix_blocks self)
    (ix_buffer self) (ix_total self) (ReservationWork.add_inserted (ix_work self)) (ix_restored self).

Definition remove (self : IndexedFreeList) (start : Z) : outcome (Extent * IndexedFreeList) :=
  extent ← expect (StartMap.get start (ix_regions self));
  Ret (extent, mkIndexed (ix_owner self)
    (StartMap.remove start (ix_regions self))
    (ix_sizes self ∖ {[(Extent.len extent, start)]})
    (match interior_of (ix_alignment self) extent with
     | Some interior => ix_interiors self ∖ {[(Extent.len interior, start)]}
     | None => ix_interiors self
     end)
    (ix_alignment self)
    ((λ blocks, BlockIndex.remove blocks extent) <$> ix_blocks self)
    (ix_buffer self) (ix_total self) (ReservationWork.add_removed (ix_work self)) (ix_restored self)).

(** [if let Some(extent) = .. { self.insert(extent) }] *)
Definition insert_some (self : IndexedFreeList) (o : option Extent) : IndexedFreeList :=
  match o with Some e => insert self e | None => self end.

Definition new (owner : FreeList) (alignment : option Z) : IndexedFreeList :=
  let empty := mkIndexed (mkFreeList [] 0) [] ∅ ∅ alignment None [] (total_bytes owner)
                 ReservationWork.default false in
  foldl (λ indexed extent,
           let indexed := insert indexed extent in
           with_work indexed (ReservationWork.add_indexed (ix_work indexed)))
    empty (regions owner).

Definition subtract_total (self : IndexedFreeList) (length : Z) : outcome IndexedFreeList :=
  tot ← expect (ByteLength.checked_sub (ix_total self) length);
  Ret (with_total self tot).

Definition count_lookup (self : IndexedFreeList) : IndexedFreeList :=
  with_work self (ReservationWork.add_lookup (ix_work self)).

Definition allocate (self : IndexedFreeList) (size : Z)
    : outcome (option Extent * IndexedFreeList) :=
  let self := count_lookup self in
  match least_from size (ix_sizes self) with
  | None => Ret (None, self)
  | Some (_, start) =>
    '(region, self) ← remove self start;
    allocation ← expect (Extent.new (Extent.start region) size);
    let self := insert_some self (Extent.between (Extent.end_ allocation) (Extent.end_ region)) in
    self ← subtract_total self (Extent.len allocation);
    Ret (Some allocation, self)
  end.

(** The block indexes are built from the address map on first use. *)
Definition get_blocks (self : IndexedFreeList) (page_size : FileSpacePageSize)
    : BlockIndex * IndexedFreeList :=
  match ix_blocks self with
  | Some blocks => (blocks, self)
  | None =>
    let blocks := foldl BlockIndex.insert (BlockIndex.new page_size) (ix_regions self) in
    (blocks, with_blocks self (Some blocks))
  end.

Definition allocate_block (self : IndexedFreeList) (request : ReservationRequest)
    (page_size : FileSpacePageSize) : outcome (option Extent * IndexedFreeList) :=
  let self := count_lookup self in
  let '(blocks, self) := get_blocks self page_size in
  match BlockIndex.find blocks (request_size request) with
  | None => Ret (None, self)
  | Some start =>
    match StartMap.get start (ix_regions self) with
    | None => Ret (None, self)
    | Some region =>
      match ReservationRequest.place_after request (Extent.start region) (Some page_size) with
      | Err _ => Ret (None, self)
      | Ok placement =>
        let allocation := placement_extent placement in
        '(_, self) ← remove self start;
        let self := insert_some self (Extent.between (Extent.start region) (Extent.start allocation)) in
        let self := insert_some self (Extent.between (Extent.end_ allocation) (Extent.end_ region)) in
        self ← subtract_total self (Extent.len allocation);
        Ret (Some allocation, self)
      end
    end
  end.

Section Profiled.
Context `{Profile}.

Definition allocate_whole_units (self : IndexedFreeList) (size : Z)
    : outcome (option Extent * IndexedFreeList) :=
  let self := count_lookup self in
  match ix_alignment self with
  | None => Ret (None, self)
  | Some alignment =>
    _ ← debug_assert (size mod alignment =? 0);
    match least_from size (ix_interiors self) with
    | None => Ret (None, self)
    | Some (_, start) =>
      '(region, self) ← remove self start;
      interior ← expect (Extent.aligned_interior region alignment);
      allocation ← expect (Extent.new (Extent.start interior) size);
      let self := insert_some self (Extent.between (Extent.start region) (Extent.start allocation)) in
      let self := insert_some self (Extent.between (Extent.end_ allocation) (Extent.end_ region)) in
      self ← subtract_total self (Extent.len allocation);
      Ret (Some allocation, self)
    end
  end.

End Profiled.

Definition free (self : IndexedFreeList) (extent : Extent) : outcome IndexedFreeList :=
  let start := Extent.start extent in
  let end_ := Extent.end_ extent in
  '(start, self) ←
    match StartMap.prev start (ix_regions self) with
    | Some region =>
      _ ← assert_ (Extent.end_ region <=? start);
      if Extent.end_ region =? start then
        '(removed, self) ← remove self (Extent.start region);
        Ret (Extent.start removed, self)
      else Ret (start, self)
    | None => Ret (start, self)
    end;
  '(end_, self) ←
    match StartMap.next start (ix_regions self) with
    | Some region =>
      _ ← assert_ (end_ <=? Extent.start region);
      if end_ =? Extent.start region then
        '(removed, self) ← remove self (Extent.start region);
        Ret (Extent.end_ removed, self)
      else Ret (end_, self)
    | None => Ret (end_, self)
    end;
  merged ← expect (Extent.between start end_);
  let self := insert self merged in
  tot ← expect (ByteLength.checked_add (ix_total self) (Extent.len extent));
  Ret (with_total self tot).

(** The trait methods: an extent merges when a region ends where it starts or
    starts where it ends. *)
Definition merges (self : IndexedFreeList) (extent : Extent) : bool :=
  match StartMap.prev (Extent.start extent) (ix_regions self) with
  | Some previous => Extent.end_ previous =? Extent.start extent
  | None => false
  end
  || match StartMap.get (Extent.end_ extent) (ix_regions self) with Some _ => true | None => false end.

Definition restore (self : IndexedFreeList) : IndexedFreeList :=
  if ix_restored self then self
  else
    let work := foldl (λ w _, ReservationWork.add_restored w) (ix_work self) (ix_regions self) in
    mkIndexed (mkFreeList (ix_buffer self ++ ix_regions self) (ix_total self))
      [] ∅ ∅ (ix_alignment self) None [] 0 work true.

End IndexedFreeList.
