(* ===== verification/IndexedFacts.v ===== *)
(** * The indexed free list refines the scalar one

    [represents ix l] relates an index to the free list it stands for: the same
    regions, the same total and lookup sets that list every region.  Each
    operation of [IndexedFreeList] simulates the operation of [FreeList]: same
    answer, related states.  A sequence of reservations through the index and a
    final [restore] therefore leaves the owner as the scalar operations would. *)

From stdpp Require Import gmap.
From S2P Require Import Prelude Addresses Extents Regions Requests FreeLists FreeListFacts.
From S2P Require Import FreeListMerge StartMap Indexed.

Local Open Scope Z_scope.

(** ** Lookup sets *)

(** The set lists, for each extent of [l] with a key, the key and its start. *)
Definition lists_keys (f : Extent → option Z) (l : list Extent) (s : gset (Z * Z)) : Prop :=
  ∀ n a, (n, a) ∈ s ↔ ∃ e, e ∈ l ∧ Extent.start e = a ∧ f e = Some n.

Definition add_key (f : Extent → option Z) (e : Extent) (s : gset (Z * Z)) : gset (Z * Z) :=
  match f e with Some n => {[(n, Extent.start e)]} ∪ s | None => s end.

Definition drop_key (f : Extent → option Z) (e : Extent) (s : gset (Z * Z)) : gset (Z * Z) :=
  match f e with Some n => s ∖ {[(n, Extent.start e)]} | None => s end.

Section Keys.
Context (f : Extent → option Z).

Lemma lists_keys_add (lo hi : list Extent) (e : Extent) (s : gset (Z * Z)) :
  lists_keys f (lo ++ hi) s → lists_keys f (lo ++ e :: hi) (add_key f e s).
Proof.
  intros Hs n a. unfold add_key.
  assert (Hin : (∃ x, x ∈ lo ++ e :: hi ∧ Extent.start x = a ∧ f x = Some n) ↔
    (Extent.start e = a ∧ f e = Some n) ∨ (n, a) ∈ s).
  { rewrite (Hs n a). setoid_rewrite elem_of_app. setoid_rewrite elem_of_cons. naive_solver. }
  rewrite Hin. destruct (f e) as [m|]; [|intuition congruence].
  rewrite elem_of_union, elem_of_singleton. intuition congruence.
Qed.

Lemma lists_keys_drop (pre post : list Extent) (e : Extent) (s : gset (Z * Z)) :
  canonical (pre ++ e :: post) → lists_keys f (pre ++ e :: post) s →
  lists_keys f (pre ++ post) (drop_key f e s).
Proof.
  intros Hc Hs n a. apply canonical_split_elem in Hc as [H1 H2]. rewrite Forall_forall in H1, H2.
  assert (Hne : ∀ x, x ∈ pre ++ post → Extent.start x ≠ Extent.start e).
  { intros x [Hx|Hx]%elem_of_app; [specialize (H1 x Hx)|specialize (H2 x Hx)]; lia. }
  assert (Hin : (∃ x, x ∈ pre ++ post ∧ Extent.start x = a ∧ f x = Some n) ↔
    (n, a) ∈ s ∧ a ≠ Extent.start e).
  { rewrite (Hs n a). split.
    - intros (x & Hx & <- & Hf). split; [|by apply Hne]. exists x. split_and!; [|done|done].
      apply elem_of_app in Hx as [Hx|Hx]; apply elem_of_app; [by left|right; by right].
    - intros [(x & Hx & <- & Hf) Hn]. exists x. split_and!; [|done|done].
      apply elem_of_app in Hx as [Hx|[->|Hx]%elem_of_cons]; [|done|]; apply elem_of_app; auto. }
  rewrite Hin. unfold drop_key. destruct (f e) as [m|] eqn:Ef.
  - rewrite elem_of_difference, elem_of_singleton. split; [|intuition congruence].
    intros [Hm Hn]. split; [done|]. intros ->. apply Hn.
    destruct (proj1 (Hs n (Extent.start e)) Hm) as (x & Hx & Hxs & Hf).
    apply elem_of_app in Hx as [Hx|[->|Hx]%elem_of_cons].
    + specialize (H1 x Hx). lia.
    + congruence.
    + specialize (H2 x Hx). lia.
  - split; [|tauto]. intros Hm. split; [done|]. intros ->.
    destruct (proj1 (Hs n (Extent.start e)) Hm) as (x & Hx & Hxs & Hf).
    apply elem_of_app in Hx as [Hx|[->|Hx]%elem_of_cons].
    + specialize (H1 x Hx). lia.
    + congruence.
    + specialize (H2 x Hx). lia.
Qed.

Lemma pair_lt_laws :
  (∀ x, pair_lt x x = false) ∧ (∀ x y z, pair_lt x y = true → pair_lt y z = true → pair_lt x z = true) ∧
  (∀ x y z, pair_lt x z = true → pair_lt x y = true ∨ pair_lt y z = true).
Proof. unfold pair_lt. split_and!; intros; lia. Qed.

(** The query: the least key at or above the bound, the lowest start on a tie. *)
Lemma least_from_Some (l : list Extent) (s : gset (Z * Z)) (size n a : Z) :
  lists_keys f l s → least_from size s = Some (n, a) →
  ∃ e, e ∈ l ∧ Extent.start e = a ∧ f e = Some n ∧ size ≤ n ∧
    ∀ e' n', e' ∈ l → f e' = Some n' → size ≤ n' → n < n' ∨ (n = n' ∧ a ≤ Extent.start e').
Proof.
  intros Hs Hl. unfold least_from in Hl. apply min_by_least in Hl as [Hin Hleast];
    [|unfold pair_lt; intros; lia..].
  apply list_elem_of_filter in Hin as [Hge Hin]. rewrite elem_of_elements in Hin.
  apply Hs in Hin as (e & He & Hst & Hf). exists e. split_and!; [done|done|done| |].
  - unfold pair_lt in Hge. simpl in Hge. lia.
  - intros e' n' He' Hf' Hle'. assert (Hl' : pair_lt (n', Extent.start e') (n, a) = false).
    { apply Hleast, list_elem_of_filter. split.
      - unfold pair_lt. simpl. pose proof (ext_bounds e'). lia.
      - apply elem_of_elements, Hs. by exists e'. }
    unfold pair_lt in Hl'. simpl in Hl'. lia.
Qed.

Lemma least_from_None (l : list Extent) (s : gset (Z * Z)) (size : Z) :
  lists_keys f l s → least_from size s = None → ∀ e n, e ∈ l → f e = Some n → n < size.
Proof.
  intros Hs Hl e n He Hf. unfold least_from in Hl. apply min_by_None in Hl.
  destruct (Z.lt_ge_cases n size) as [|Hge]; [done|].
  assert (Hin : (n, Extent.start e) ∈ filter (λ x, pair_lt x (size, 0) = false) (elements s)).
  { apply list_elem_of_filter. split.
    - unfold pair_lt. simpl. pose proof (ext_bounds e). lia.
    - apply elem_of_elements, Hs. by exists e. }
  rewrite Hl in Hin. by apply not_elem_of_nil in Hin.
Qed.

End Keys.

(** ** Consistent indexes *)

Definition size_key (e : Extent) : option Z := Some (Extent.len e).

Definition interior_key (alignment : option Z) (e : Extent) : option Z :=
  Extent.len <$> IndexedFreeList.interior_of alignment e.

Definition small_capacity (p : FileSpacePageSize) (e : Extent) : option Z :=
  Some (Extent.block_capacity e p 1).

Definition large_capacity (p : FileSpacePageSize) (e : Extent) : option Z :=
  Some (Extent.block_capacity e p (FileSpacePageSize.get p)).

Definition blocks_ok (l : list Extent) (b : BlockIndex) : Prop :=
  lists_keys (small_capacity (block_page_size b)) l (block_small b) ∧
  lists_keys (large_capacity (block_page_size b)) l (block_large b).

(** The lookup sets describe exactly the regions [l]. *)
Definition index_ok (ix : IndexedFreeList) (l : list Extent) : Prop :=
  ix_regions ix = l ∧ canonical l ∧
  lists_keys size_key l (ix_sizes ix) ∧
  lists_keys (interior_key (ix_alignment ix)) l (ix_interiors ix) ∧
  match ix_blocks ix with Some b => blocks_ok l b | None => True end.

(** The parts of the state [insert] and [remove] leave alone. *)
Definition same_frame (ix ix' : IndexedFreeList) : Prop :=
  ix_owner ix' = ix_owner ix ∧ ix_alignment ix' = ix_alignment ix ∧
  ix_buffer ix' = ix_buffer ix ∧ ix_restored ix' = ix_restored ix ∧
  (block_page_size <$> ix_blocks ix') = (block_page_size <$> ix_blocks ix).

#[local] Instance same_frame_trans : Transitive same_frame.
Proof. intros a b c (? & ? & ? & ? & ?) (? & ? & ? & ? & ?). split_and!; congruence. Qed.

Lemma insert_ok (ix : IndexedFreeList) (lo hi : list Extent) (e : Extent) :
  index_ok ix (lo ++ hi) → canonical (lo ++ e :: hi) →
  index_ok (IndexedFreeList.insert ix e) (lo ++ e :: hi) ∧
  same_frame ix (IndexedFreeList.insert ix e) ∧ ix_total (IndexedFreeList.insert ix e) = ix_total ix.
Proof.
  intros (Hr & Hc & Hs & Hi & Hb) Hc'. split; [|by destruct ix as [????? []]].
  pose proof (canonical_split_elem _ _ _ Hc') as [Hlo Hhi].
  split_and!; simpl; [|done| | |].
  - rewrite Hr. by apply startmap_insert.
  - apply (lists_keys_add size_key). done.
  - pose proof (lists_keys_add (interior_key (ix_alignment ix)) lo hi e _ Hi) as Ha.
    unfold add_key, interior_key in Ha. by destruct (IndexedFreeList.interior_of _ e).
  - destruct (ix_blocks ix) as [b|]; [|done]. simpl. destruct Hb as [Hb1 Hb2]. split; simpl.
    + by apply (lists_keys_add (small_capacity (block_page_size b))).
    + by apply (lists_keys_add (large_capacity (block_page_size b))).
Qed.

Lemma remove_ok (ix : IndexedFreeList) (pre post : list Extent) (r : Extent) :
  index_ok ix (pre ++ r :: post) →
  IndexedFreeList.remove ix (Extent.start r) ⇝ λ '(e, ix'), e = r ∧ index_ok ix' (pre ++ post) ∧
    same_frame ix ix' ∧ ix_total ix' = ix_total ix.
Proof.
  intros (Hr & Hc & Hs & Hi & Hb). unfold IndexedFreeList.remove.
  apply (step_expect _ r); [rewrite Hr; by apply startmap_get|]. apply returns_ret.
  split_and!; [done| |by destruct ix as [????? []]|done].
  split_and!; simpl.
  - rewrite Hr. by apply startmap_remove.
  - pose proof (canonical_replace pre post [] r Hc) as Hcr. apply Hcr; constructor.
  - by apply (lists_keys_drop size_key).
  - pose proof (lists_keys_drop (interior_key (ix_alignment ix)) pre post r _ Hc Hi) as Hd.
    unfold drop_key, interior_key in Hd. by destruct (IndexedFreeList.interior_of _ r).
  - destruct (ix_blocks ix) as [b|]; [|done]. simpl. destruct Hb as [Hb1 Hb2]. split; simpl.
    + by apply (lists_keys_drop (small_capacity (block_page_size b))).
    + by apply (lists_keys_drop (large_capacity (block_page_size b))).
Qed.

(** Putting a remainder back where its region was. *)
Lemma insert_some_ok (ix : IndexedFreeList) (lo hi : list Extent) (o : option Extent) :
  index_ok ix (lo ++ hi) → canonical (lo ++ option_list o ++ hi) →
  index_ok (IndexedFreeList.insert_some ix o) (lo ++ option_list o ++ hi) ∧
  same_frame ix (IndexedFreeList.insert_some ix o) ∧
  ix_total (IndexedFreeList.insert_some ix o) = ix_total ix.
Proof.
  destruct o as [e|]; simpl; [apply insert_ok|]. intros. split_and!; done.
Qed.

(** Carving the allocation [x] out of the region [r]. *)
Lemma carve_ok (ix : IndexedFreeList) (pre post : list Extent) (r x : Extent) :
  index_ok ix (pre ++ post) → canonical (pre ++ r :: post) → within x r →
  let ix1 := IndexedFreeList.insert_some ix (Extent.between (Extent.start r) (Extent.start x)) in
  let ix2 := IndexedFreeList.insert_some ix1 (Extent.between (Extent.end_ x) (Extent.end_ r)) in
  index_ok ix2 (pre ++ remainders r x ++ post) ∧ same_frame ix ix2 ∧ ix_total ix2 = ix_total ix.
Proof.
  intros Hix Hc Hx. cbv zeta. set (h := Extent.between _ (Extent.start x)).
  set (t := Extent.between (Extent.end_ x) _).
  assert (Hcr : canonical (pre ++ remainders r x ++ post)).
  { apply (canonical_replace _ _ _ r); [done|by apply remainders_parts|by apply remainders_canonical]. }
  assert (Hch : canonical (pre ++ option_list h ++ post)).
  { apply (canonical_replace _ _ _ r); [done|apply parts_of_between; elia|apply canonical_between]. }
  destruct (insert_some_ok ix pre post h Hix Hch) as (H1 & F1 & T1).
  rewrite app_assoc in H1.
  destruct (insert_some_ok _ (pre ++ option_list h) post t H1) as (H2 & F2 & T2).
  { unfold remainders in Hcr. fold h t in Hcr. by rewrite <- !app_assoc in *. }
  split_and!.
  - unfold remainders. fold h t. by rewrite <- !app_assoc in *.
  - by etrans.
  - lia.
Qed.

(** ** Representation *)

Definition represents (ix : IndexedFreeList) (l : FreeList) : Prop :=
  wf l ∧ index_ok ix (regions l) ∧ ix_total ix = total_bytes l ∧
  ix_restored ix = false ∧ ix_buffer ix = [].

Lemma count_lookup_represents (ix : IndexedFreeList) (l : FreeList) :
  represents ix l → represents (IndexedFreeList.count_lookup ix) l.
Proof. done. Qed.

Lemma represents_carve (ix ix' : IndexedFreeList) (l l' : FreeList) (pre post : list Extent) (r x : Extent) :
  represents ix l → wf l' → regions l = pre ++ r :: post → within x r →
  (∀ a, free_at l' a ↔ free_at l a ∧ ¬ inside a x) →
  index_ok ix' (pre ++ remainders r x ++ post) → same_frame ix ix' → ix_total ix' = ix_total ix →
  IndexedFreeList.subtract_total ix' (Extent.len x) ⇝ λ ix'', represents ix'' l' ∧ same_frame ix ix''.
Proof.
  intros (Hwf & Hix & Ht & Hres & Hbuf) Hwf' Hl Hx Hset Hix' (F1 & F2 & F3 & F4 & F5) Ht'.
  pose proof (total_region l pre post r Hwf Hl) as Htr.
  unfold IndexedFreeList.subtract_total.
  apply (step_expect _ (total_bytes l - Extent.len x)).
  { apply checked_sub_Some. rewrite Ht', Ht. elia. }
  apply returns_ret. set (l2 := mkFreeList (pre ++ remainders r x ++ post) (total_bytes l - Extent.len x)).
  assert (Hwf2 : wf l2).
  { apply (carve_wf l pre post _ r); [done|done|by apply remainders_parts|by apply remainders_canonical|].
    by apply remainders_total. }
  assert (l' = l2) as ->.
  { apply wf_unique; [done..|]. intros a. rewrite Hset.
    symmetry. apply (carve_set l pre post _ r x); [done..|by apply remainders_parts|].
    intros b. by apply mem_remainders. }
  split; [|done]. split_and!; simpl; [done|done|done|by rewrite F4|by rewrite F3].
Qed.

(** The region a lookup set picks is the best choice of the scalar scan. *)
Lemma best_choice_unique (f : Extent → option Extent) (n : Z) (l : FreeList) (r c r' c' : Extent) :
  wf l → best_choice f n l r c →
  r' ∈ regions l → f r' = Some c' → n ≤ Extent.len c' →
  (∀ e d, e ∈ regions l → f e = Some d → n ≤ Extent.len d →
     Extent.len c' < Extent.len d ∨ (Extent.len c' = Extent.len d ∧ Extent.start r' ≤ Extent.start e)) →
  r = r'.
Proof.
  intros [Hc _] (pre & post & Hl & Hf & Hn & Hpre & Hpost) Hr' Hf' Hn' Hmin.
  assert (Hr : r ∈ regions l) by (rewrite Hl; apply elem_of_app; right; by left).
  destruct (Hmin r c Hr Hf Hn) as [Hlt|[Heq Hle]].
  - rewrite Hl in Hr'. apply elem_of_app in Hr' as [Hp|[->|Hp]%elem_of_cons].
    + specialize (Hpre r' c' Hp Hf' Hn'). lia.
    + done.
    + specialize (Hpost r' c' Hp Hf' Hn'). lia.
  - rewrite Hl in Hr'. apply elem_of_app in Hr' as [Hp|[->|Hp]%elem_of_cons].
    + specialize (Hpre r' c' Hp Hf' Hn'). lia.
    + done.
    + rewrite Hl in Hc. apply canonical_split_elem in Hc as [_ H2]. rewrite Forall_forall in H2.
      specialize (H2 r' Hp). lia.
Qed.

(** ** Simulation of the allocations *)

(** Both computations give the same answer and related states; the frame of the
    index is kept. *)
Definition simulates (ix : IndexedFreeList) (m1 : outcome (option Extent * IndexedFreeList))
    (m2 : outcome (option Extent * FreeList)) : Prop :=
  ∃ o ix' l', m1 = Ret (o, ix') ∧ m2 = Ret (o, l') ∧ represents ix' l' ∧ same_frame ix ix'.

Lemma represents_intro (ix : IndexedFreeList) (l : FreeList) (r x : Extent) (pre post : list Extent) :
  represents ix l → regions l = pre ++ r :: post → within x r →
  ∀ l', wf l' → (∀ a, free_at l' a ↔ free_at l a ∧ ¬ inside a x) →
  ('(region, ix) ← IndexedFreeList.remove ix (Extent.start r);
   let ix := IndexedFreeList.insert_some ix (Extent.between (Extent.start region) (Extent.start x)) in
   let ix := IndexedFreeList.insert_some ix (Extent.between (Extent.end_ x) (Extent.end_ region)) in
   ix ← IndexedFreeList.subtract_total ix (Extent.len x);
   Ret (Some x, ix)) ⇝ λ '(o, ix'), o = Some x ∧ represents ix' l' ∧ same_frame ix ix'.
Proof.
  intros Hrep Hl Hx l' Hwf' Hset. pose proof Hrep as (Hwf & Hix & _).
  pose proof Hwf as [Hc _]. rewrite Hl in Hc, Hix.
  eapply returns_bind; [by apply remove_ok|]. intros [region ix1] (-> & Hix1 & HF1 & HT1).
  destruct (carve_ok ix1 pre post r x Hix1 Hc Hx) as (Hix2 & HF2 & HT2).
  eapply returns_bind.
  { apply (represents_carve ix _ l l' pre post r x); [done..| |lia]. by etrans. }
  intros ix3 [Hrep3 HF3]. by apply returns_ret.
Qed.

Lemma same_frame_refl (ix : IndexedFreeList) : same_frame ix ix.
Proof. by split_and!. Qed.

(** A prefix allocation only leaves a suffix, so the head insertion is absent
    in [allocate]. *)
Lemma insert_some_head (ix : IndexedFreeList) (r x : Extent) :
  Extent.start x = Extent.start r →
  IndexedFreeList.insert_some ix (Extent.between (Extent.start r) (Extent.start x)) = ix.
Proof.
  intros Hs. destruct (Extent.between _ _) as [e|] eqn:E; [|done].
  apply ext_between_Some in E. elia.
Qed.

Lemma allocate_sim (ix : IndexedFreeList) (l : FreeList) (n : Z) :
  represents ix l → 0 < n →
  simulates ix (IndexedFreeList.allocate ix n) (FreeList.alloc l n).
Proof.
  intros Hrep Hn. pose proof Hrep as (Hwf & (Hr & Hc & Hs & _) & _).
  destruct (alloc_spec l n Hwf ltac:(lia)) as ([o l'] & Hal & Hwf' & Ho).
  unfold IndexedFreeList.allocate. set (ix0 := IndexedFreeList.count_lookup ix).
  assert (Hrep0 : represents ix0 l) by by apply count_lookup_represents.
  change (ix_sizes ix0) with (ix_sizes ix).
  destruct (least_from n (ix_sizes ix)) as [[m a]|] eqn:El.
  - apply (least_from_Some size_key (regions l)) in El as (r & Hrin & <- & [= <-] & Hle & Hmin); [|done].
    destruct o as [x|].
    2:{ destruct Ho as [_ [?|Hno]]; [lia|]. specialize (Hno r Hrin). lia. }
    destruct Ho as (Hlen & _ & (r' & Hbest & Hxs) & Hset).
    assert (r' = r) as ->.
    { apply (best_choice_unique Some n l r' r' r r Hwf Hbest); [done|done|lia|].
      intros e d He [= <-] Hd. exact (Hmin e _ He eq_refl Hd). }
    apply list_elem_of_split in Hrin as (pre & post & Hl).
    assert (Hx : within x r) by (unfold within; elia).
    destruct (represents_intro ix0 l r x pre post Hrep0 Hl Hx l' Hwf' Hset) as ([o ix'] & Heq & -> & Hrep' & HF).
    exists (Some x), ix', l'. split_and!; [|done|done|done].
    destruct (IndexedFreeList.remove ix0 (Extent.start r)) as [[region ix1]|] eqn:Er; [|done].
    cbn [mbind outcome_bind] in Heq |- *.
    assert (region = r) as ->.
    { unfold IndexedFreeList.remove in Er. change (ix_regions ix0) with (ix_regions ix) in Er.
      rewrite Hr, Hl, startmap_get in Er by (by rewrite <- Hl). by injection Er. }
    assert (Extent.new (Extent.start r) n = Some x) as -> by (apply ext_new_Some; by rewrite Hxs).
    cbn [expect mbind outcome_bind]. rewrite insert_some_head in Heq by done. exact Heq.
  - destruct o as [x|].
    + exfalso. destruct Ho as (_ & _ & (r & (pre & post & Hl & _ & Hle & _) & _) & _).
      assert (r ∈ regions l) as Hrin by (rewrite Hl; apply elem_of_app; right; by left).
      pose proof (least_from_None size_key _ _ _ Hs El r _ Hrin eq_refl). lia.
    + destruct Ho as [-> _]. exists None, ix0, l. split_and!; [done|done|done|]. by split_and!.
Qed.

Lemma allocate_whole_units_sim `{Profile} (ix : IndexedFreeList) (l : FreeList) (n align : Z) :
  represents ix l → ix_alignment ix = Some align → 0 < n → 0 < align → n mod align = 0 →
  simulates ix (IndexedFreeList.allocate_whole_units ix n) (FreeList.alloc_whole_units l n align).
Proof.
  intros Hrep Hal0 Hn Ha Hmod. pose proof Hrep as (Hwf & (Hr & Hc & _ & Hs & _) & _).
  destruct (alloc_whole_units_spec l n align Hwf) as ([o l'] & Hal & Hwf' & Ho); [lia..|done|].
  unfold IndexedFreeList.allocate_whole_units. set (ix0 := IndexedFreeList.count_lookup ix).
  assert (Hrep0 : represents ix0 l) by by apply count_lookup_represents.
  change (ix_alignment ix0) with (ix_alignment ix). change (ix_interiors ix0) with (ix_interiors ix).
  rewrite Hal0 in *.
  assert (debug_assert (n mod align =? 0) = Ret tt) as ->.
  { unfold debug_assert, assert_. destruct debug_assertions; [|done]. by rewrite Hmod. }
  cbn [mbind outcome_bind].
  assert (Hkey : ∀ e m, interior_key (Some align) e = Some m ↔
    ∃ i, Extent.aligned_interior e align = Some i ∧ Extent.len i = m).
  { intros e m. unfold interior_key, IndexedFreeList.interior_of. simpl.
    destruct (Extent.aligned_interior e align) as [i|]; simpl; split.
    - intros [= <-]. by exists i.
    - intros (i' & [= <-] & <-). done.
    - done.
    - intros (i' & ? & _). done. }
  destruct (least_from n (ix_interiors ix)) as [[m a]|] eqn:El.
  - apply (least_from_Some (interior_key (Some align)) (regions l)) in El
      as (r & Hrin & <- & (i & Hi & <-)%Hkey & Hle & Hmin); [|done].
    destruct o as [x|].
    2:{ destruct Ho as [_ [?|[?|Hno]]]; [lia..|]. specialize (Hno r i Hrin Hi). lia. }
    destruct Ho as (Hlen & _ & _ & (r' & i' & Hbest & Hxs & Hxi & Hir) & Hset).
    assert (r' = r) as ->.
    { apply (best_choice_unique _ n l r' i' r i Hwf Hbest); [done|done|lia|].
      intros e d He Hd Hdn. apply (Hmin e (Extent.len d) He); [|done]. apply Hkey. by exists d. }
    assert (i' = i) as ->. { destruct Hbest as (? & ? & _ & Hf & _). congruence. }
    apply list_elem_of_split in Hrin as (pre & post & Hl).
    assert (Hx : within x r) by (unfold within in *; lia).
    destruct (represents_intro ix0 l r x pre post Hrep0 Hl Hx l' Hwf' Hset) as ([o ix'] & Heq & -> & Hrep' & HF).
    exists (Some x), ix', l'. split_and!; [|done|done|done].
    destruct (IndexedFreeList.remove ix0 (Extent.start r)) as [[region ix1]|] eqn:Er; [|done].
    cbn [mbind outcome_bind] in Heq |- *.
    assert (region = r) as ->.
    { unfold IndexedFreeList.remove in Er. change (ix_regions ix0) with (ix_regions ix) in Er.
      rewrite Hr, Hl, startmap_get in Er by (by rewrite <- Hl). by injection Er. }
    rewrite Hi. cbn [expect mbind outcome_bind].
    assert (Extent.new (Extent.start i) n = Some x) as -> by (apply ext_new_Some; by rewrite Hxs).
    exact Heq.
  - destruct o as [x|].
    + exfalso. destruct Ho as (_ & _ & _ & (r & i & (pre & post & Hl & Hf & Hle & _) & _) & _).
      assert (r ∈ regions l) as Hrin by (rewrite Hl; apply elem_of_app; right; by left).
      pose proof (least_from_None _ _ _ _ Hs El r (Extent.len i) Hrin) as Hno.
      rewrite Hkey in Hno. specialize (Hno (ex_intro _ i (conj Hf eq_refl))). lia.
    + destruct Ho as [-> _]. exists None, ix0, l. split_and!; [done|done|done|]. by split_and!.
Qed.

(** ** Simulation of block allocation *)

Lemma block_capacity_small (e : Extent) (p : FileSpacePageSize) (n : Z) :
  n < page_bytes p → Extent.block_capacity e p n = Extent.block_capacity e p 1.
Proof.
  intros Hn. unfold Extent.block_capacity, FileSpacePageSize.get. pose proof (page_size_bounds p).
  destruct (n <? page_bytes p) eqn:E1; [|lia]. destruct (1 <? page_bytes p) eqn:E2; [done|lia].
Qed.

Lemma block_capacity_large (e : Extent) (p : FileSpacePageSize) (n : Z) :
  page_bytes p ≤ n → Extent.block_capacity e p n = Extent.block_capacity e p (page_bytes p).
Proof.
  intros Hn. unfold Extent.block_capacity, FileSpacePageSize.get.
  destruct (n <? page_bytes p) eqn:E1; [lia|]. by rewrite Z.ltb_irrefl.
Qed.

Lemma build_blocks_ok (p : FileSpacePageSize) (l : list Extent) :
  blocks_ok l (foldl BlockIndex.insert (BlockIndex.new p) l) ∧
  block_page_size (foldl BlockIndex.insert (BlockIndex.new p) l) = p.
Proof.
  induction l as [|e l [[H1 H2] H3]] using rev_ind.
  { split; [|done]. split; intros n a; simpl; rewrite elem_of_empty; (split; [done|]);
      intros (e & He & _); by apply not_elem_of_nil in He. }
  rewrite foldl_app. simpl. split; [|done].
  set (b := foldl BlockIndex.insert (BlockIndex.new p) l) in *.
  assert (Hb : ∀ f s, lists_keys f l s → lists_keys f (l ++ [e]) (add_key f e s)).
  { intros f s Hs. apply (lists_keys_add f l []). by rewrite app_nil_r. }
  split; simpl.
  - by apply (Hb (small_capacity (block_page_size b))).
  - by apply (Hb (large_capacity (block_page_size b))).
Qed.

(** The index was built for this page size. *)
Definition page_ok (ix : IndexedFreeList) (p : FileSpacePageSize) : Prop :=
  match ix_blocks ix with Some b => block_page_size b = p | None => True end.

Lemma get_blocks_ok (ix ix' : IndexedFreeList) (l : FreeList) (p : FileSpacePageSize) (b : BlockIndex) :
  represents ix l → page_ok ix p → IndexedFreeList.get_blocks ix p = (b, ix') →
  represents ix' l ∧ blocks_ok (regions l) b ∧ block_page_size b = p ∧
  ix_blocks ix' = Some b ∧ ix_alignment ix' = ix_alignment ix ∧ ix_owner ix' = ix_owner ix.
Proof.
  intros (Hwf & (Hr & Hc & Hs & Hi & Hb) & Ht & Hres & Hbuf) Hp. unfold IndexedFreeList.get_blocks, page_ok in *.
  destruct (ix_blocks ix) as [b0|] eqn:Eb.
  - intros [= <- <-]. split_and!; [|done..]. split_and!; [done| |done..].
    split_and!; [done..|]. by rewrite Eb.
  - intros [= <- <-]. rewrite Hr. destruct (build_blocks_ok p (regions l)) as [H1 H2].
    split_and!; [|done..]. split_and!; [done| |done..]. split_and!; simpl; done.
Qed.

(** What [find] returns: a region of least sufficient capacity, lowest first. *)
Lemma find_Some (l : list Extent) (b : BlockIndex) (n a : Z) :
  blocks_ok l b → BlockIndex.find b n = Some a →
  ∃ e, e ∈ l ∧ Extent.start e = a ∧ n ≤ Extent.block_capacity e (block_page_size b) n ∧
    ∀ e', e' ∈ l → n ≤ Extent.block_capacity e' (block_page_size b) n →
      Extent.block_capacity e (block_page_size b) n < Extent.block_capacity e' (block_page_size b) n ∨
      (Extent.block_capacity e (block_page_size b) n = Extent.block_capacity e' (block_page_size b) n
       ∧ a ≤ Extent.start e').
Proof.
  intros [H1 H2]. unfold BlockIndex.find, FileSpacePageSize.get. set (p := block_page_size b) in *.
  destruct (n <? page_bytes p) eqn:E; intros ([m a'] & Hl & [= <-])%fmap_Some.
  - apply (least_from_Some (small_capacity p) l) in Hl as (e & He & Hs & [= <-] & Hle & Hmin); [|done].
    exists e. setoid_rewrite (λ e, block_capacity_small e p n ltac:(lia)).
    split_and!; [done|done|done|]. intros e' He' Hle'. by apply (Hmin e').
  - apply (least_from_Some (large_capacity p) l) in Hl as (e & He & Hs & [= <-] & Hle & Hmin); [|done].
    exists e. setoid_rewrite (λ e, block_capacity_large e p n ltac:(lia)).
    split_and!; [done|done|done|]. intros e' He' Hle'. by apply (Hmin e').
Qed.

Lemma find_None (l : list Extent) (b : BlockIndex) (n : Z) :
  blocks_ok l b → BlockIndex.find b n = None →
  ∀ e, e ∈ l → Extent.block_capacity e (block_page_size b) n < n.
Proof.
  intros [H1 H2]. unfold BlockIndex.find, FileSpacePageSize.get. set (p := block_page_size b) in *.
  destruct (n <? page_bytes p) eqn:E; intros Hl%fmap_None e He.
  - rewrite block_capacity_small by lia. by apply (least_from_None (small_capacity p) l _ _ H1 Hl e).
  - rewrite block_capacity_large by lia. by apply (least_from_None (large_capacity p) l _ _ H2 Hl e).
Qed.

(** The scalar scan picks the same region. *)
Lemma alloc_block_choice (l : FreeList) (r : ReservationRequest) (p : FileSpacePageSize) (e x : Extent) (c : Z) :
  wf l → 0 < request_size r → e ∈ regions l → FreeList.block_candidate r p e = Some (c, x) →
  (∀ e', e' ∈ regions l → request_size r ≤ Extent.block_capacity e' p (request_size r) →
     c < Extent.block_capacity e' p (request_size r) ∨
     (c = Extent.block_capacity e' p (request_size r) ∧ Extent.start e ≤ Extent.start e')) →
  FreeList.alloc_block l r p =
  (l' ← FreeList.take_range l x; Ret (Some x, l')).
Proof.
  intros [Hc _] Hn He Hcand Hmin. unfold FreeList.alloc_block.
  destruct (min_by _ _) as [[c' x']|] eqn:Em.
  2:{ apply min_by_None in Em. assert (Hy : (c, x) ∈ omap (FreeList.block_candidate r p) (regions l))
        by (apply list_elem_of_omap; by exists e).
      rewrite Em in Hy. by apply not_elem_of_nil in Hy. }
  apply min_by_least in Em as [Hx' Hleast]; [|intros; lia..].
  apply list_elem_of_omap in Hx' as (e' & He' & Hcand').
  destruct (block_candidate_Some _ _ _ _ _ Hn Hcand) as (Hcc & Hxe & _).
  destruct (block_candidate_Some _ _ _ _ _ Hn Hcand') as (Hcc' & Hxe' & _).
  assert (Hge : request_size r ≤ c').
  { unfold FreeList.block_candidate in Hcand'. destruct (_ <? _) eqn:E; [done|]. lia. }
  assert (Hl := Hleast (c, x) ltac:(apply list_elem_of_omap; by exists e)). simpl in Hl.
  specialize (Hmin e' He' ltac:(lia)).
  assert (Heq : e' = e).
  { destruct (list_elem_of_split _ _ He) as (pre & post & Hsp). rewrite Hsp in Hc, He'.
    apply canonical_app in Hc as (_ & Hc2 & Hx). apply canonical_cons in Hc2 as [HG _].
    rewrite Forall_forall in HG.
    apply elem_of_app in He' as [Hp|[->|Hp]%elem_of_cons]; [|done|].
    - specialize (Hx e' e Hp ltac:(by left)). unfold gap in Hx. elia.
    - specialize (HG e' Hp). unfold gap in HG. elia. }
  subst e'. rewrite Hcand in Hcand'. by injection Hcand' as -> ->.
Qed.

Lemma allocate_block_sim (ix : IndexedFreeList) (l : FreeList) (r : ReservationRequest) (p : FileSpacePageSize) :
  represents ix l → page_ok ix p → 0 < request_size r →
  ∃ o ix' l', IndexedFreeList.allocate_block ix r p = Ret (o, ix') ∧
    FreeList.alloc_block l r p = Ret (o, l') ∧ represents ix' l' ∧ page_ok ix' p ∧
    ix_alignment ix' = ix_alignment ix ∧ ix_owner ix' = ix_owner ix.
Proof.
  intros Hrep Hp Hn. pose proof Hrep as (Hwf & _ & _).
  destruct (alloc_block_spec l r p Hwf Hn) as ([o l'] & Hal & Hwf' & Ho).
  unfold IndexedFreeList.allocate_block. set (ix0 := IndexedFreeList.count_lookup ix).
  destruct (IndexedFreeList.get_blocks ix0 p) as [b ix1] eqn:Eg.
  apply (get_blocks_ok ix0 ix1 l) in Eg as (Hrep1 & Hb & Hbp & Hbs & Hal1 & How1); [|done..].
  pose proof Hrep1 as (_ & (Hr & Hc & _) & _).
  destruct (BlockIndex.find b (request_size r)) as [a|] eqn:Ef.
  - apply (find_Some (regions l)) in Ef as (e & He & <- & Hcap & Hmin); [|done]. rewrite Hbp in Hcap, Hmin.
    rewrite Hr, (startmap_get_elem _ _ Hc He).
    destruct (block_capacity_sound r p e Hn Hcap) as (t & Ht & Hte). pose proof (ext_bounds e) as Be.
    destruct (placed_start_spec r (Extent.start e) t (Some p)) as (Hts & _); [lia|done|done|].
    destruct (ext_new_ex t (request_size r)) as (x & Hx & Hx1 & Hx2); [lia..|].
    assert (Hplace : ReservationRequest.place_after r (Extent.start e) (Some p) = Ok (mkPlacement r x)).
    { unfold ReservationRequest.place_after. rewrite Ht. simpl. by rewrite Hx. }
    rewrite Hplace. cbn [placement_extent].
    assert (Hcand : FreeList.block_candidate r p e = Some (Extent.block_capacity e p (request_size r), x)).
    { unfold FreeList.block_candidate. destruct (_ <? _) eqn:E; [lia|]. by rewrite Hplace. }
    pose proof (alloc_block_choice l r p e x _ Hwf Hn He Hcand Hmin) as Hscan.
    assert (Hxe : within x e) by (unfold within; lia).
    destruct (taken_range_spec l x e Hwf He Hxe) as (l2 & Htake & Hwf2 & _ & Hset2).
    rewrite Htake in Hscan. cbn in Hscan.
    apply list_elem_of_split in He as (pre & post & Hl).
    destruct (represents_intro ix1 l e x pre post Hrep1 Hl Hxe l2 Hwf2 Hset2) as ([o2 ix2] & Heq & -> & Hrep2 & HF).
    exists (Some x), ix2, l2. split_and!; [|done|done| | |].
    + destruct (IndexedFreeList.remove ix1 (Extent.start e)) as [[region ix3]|] eqn:Er; [|done].
      cbn [mbind outcome_bind] in Heq |- *.
      assert (region = e) as ->; [|exact Heq].
      unfold IndexedFreeList.remove in Er. rewrite Hr, Hl, startmap_get in Er by (by rewrite <- Hl).
      by injection Er.
    + destruct HF as (_ & _ & _ & _ & HF). unfold page_ok. rewrite Hbs in HF. simpl in HF.
      destruct (ix_blocks ix2) as [b2|]; [|done]. simpl in HF. congruence.
    + destruct HF as (_ & HF & _). by rewrite HF.
    + destruct HF as (HF & _). by rewrite HF.
  - pose proof (find_None _ _ _ Hb Ef) as Hno. rewrite Hbp in Hno.
    destruct o as [x|].
    + exfalso. destruct Ho as (_ & _ & _ & _ & e & He & _ & Hmin). specialize (Hno e He).
      unfold FreeList.alloc_block in Hal.
      destruct (min_by _ _) as [[c y]|] eqn:Em; [|done].
      apply min_by_least in Em as [Hin _]; [|intros; lia..].
      apply list_elem_of_omap in Hin as (e2 & He2 & Hc2).
      pose proof (find_None _ _ _ Hb Ef e2 He2) as Hno2. rewrite Hbp in Hno2.
      unfold FreeList.block_candidate in Hc2. destruct (_ <? _) eqn:E in Hc2; [done|lia].
    + destruct Ho as [-> _]. exists None, ix1, l. split_and!; [done|done|done| |done|done].
      unfold page_ok. by rewrite Hbs.
Qed.

(** ** Simulation of [free] *)

(** Joining with the region below: [s'] is where the merged extent starts. *)
Lemma join_below (ix : IndexedFreeList) (lo hi : list Extent) (s : Z) :
  index_ok ix (lo ++ hi) → Forall (λ r, Extent.end_ r ≤ s) lo → Forall (λ r, s ≤ Extent.start r) hi →
  (match StartMap.prev s (ix_regions ix) with
   | Some region =>
     _ ← assert_ (Extent.end_ region <=? s);
     if Extent.end_ region =? s then
       '(removed, ix) ← IndexedFreeList.remove ix (Extent.start region); Ret (Extent.start removed, ix)
     else Ret (s, ix)
   | None => Ret (s, ix)
   end) ⇝ λ '(s', ix'), ∃ lo', index_ok ix' (lo' ++ hi) ∧ same_frame ix ix' ∧ ix_total ix' = ix_total ix ∧
    s' ≤ s ∧ (lo ≠ [] → 0 ≤ s') ∧ (lo = [] → s' = s) ∧ Forall (λ r, Extent.end_ r < s') lo' ∧
    (∀ a, mem a lo ↔ mem a lo' ∨ s' ≤ a < s) ∧ total lo = total lo' + (s - s').
Proof.
  intros Hix Hlo Hhi. pose proof Hix as (Hr & Hc & _).
  assert (Hb : StartMap.prev s (ix_regions ix) = last lo).
  { unfold StartMap.prev. rewrite Hr. f_equal. apply startmap_split; [|done].
    eapply Forall_impl; [exact Hlo|]. simpl. intros; elia. }
  rewrite Hb. destruct (last lo) as [r|] eqn:El.
  2:{ apply last_None in El as ->. apply returns_ret. exists []. split_and!; [done|apply same_frame_refl|done|lia|done|done|constructor| |rewrite total_nil; lia].
      intros a. rewrite mem_nil. lia. }
  apply last_Some in El as [lo' ->]. apply Forall_app in Hlo as [Hlo Hlr].
  rewrite Forall_singleton in Hlr. rewrite <- app_assoc in Hix, Hc. simpl in Hix, Hc.
  assert (Hbelow : Forall (λ x, Extent.end_ x < Extent.start r) lo').
  { apply canonical_app in Hc as (_ & _ & Hx). apply Forall_forall. intros x Hxin. apply Hx; [done|by left]. }
  apply step_assert; [lia|]. pose proof (ext_bounds r) as Br. destruct (Extent.end_ r =? s) eqn:E.
  - eapply returns_bind; [by apply remove_ok|]. intros [removed ix'] (-> & Hix' & HF & HT). apply returns_ret.
    exists lo'. split_and!; [done|done|done|lia|lia|by destruct lo'|done| |].
    2:{ rewrite total_app, total_cons, total_nil. lia. }
    intros a. rewrite mem_app, mem_singleton.
    assert (inside a r ↔ Extent.start r ≤ a < s) by elia. tauto.
  - apply returns_ret. exists (lo' ++ [r]). rewrite <- app_assoc. simpl.
    split_and!; [done|apply same_frame_refl|done|lia|lia|by destruct lo'| | |lia].
    + apply Forall_app. split; [|constructor; [lia|constructor]].
      eapply Forall_impl; [exact Hbelow|]. simpl. intros; lia.
    + intros a. split; [tauto|]. intros [?|?]; [done|lia].
Qed.

(** Joining with the region above: [t'] is where the merged extent ends. *)
Lemma join_above (ix : IndexedFreeList) (lo hi : list Extent) (s t : Z) :
  index_ok ix (lo ++ hi) → Forall (λ r, Extent.end_ r < s) lo → Forall (λ r, t ≤ Extent.start r) hi →
  s < t → t ≤ U64_MAX →
  (match StartMap.next s (ix_regions ix) with
   | Some region =>
     _ ← assert_ (t <=? Extent.start region);
     if t =? Extent.start region then
       '(removed, ix) ← IndexedFreeList.remove ix (Extent.start region); Ret (Extent.end_ removed, ix)
     else Ret (t, ix)
   | None => Ret (t, ix)
   end) ⇝ λ '(t', ix'), ∃ hi', index_ok ix' (lo ++ hi') ∧ same_frame ix ix' ∧ ix_total ix' = ix_total ix ∧
    t ≤ t' ≤ U64_MAX ∧ Forall (λ r, t' < Extent.start r) hi' ∧ (∀ a, mem a hi ↔ mem a hi' ∨ t ≤ a < t') ∧
    total hi = total hi' + (t' - t).
Proof.
  intros Hix Hlo Hhi Hst Ht. pose proof Hix as (Hr & Hc & _).
  assert (Hb : StartMap.next s (ix_regions ix) = head hi).
  { unfold StartMap.next. rewrite Hr. f_equal. apply startmap_split.
    - eapply Forall_impl; [exact Hlo|]. simpl. intros; elia.
    - eapply Forall_impl; [exact Hhi|]. simpl. intros; lia. }
  rewrite Hb. destruct hi as [|r hi]; cbn [head].
  { apply returns_ret. exists []. split_and!; [done|apply same_frame_refl|done|lia|lia|by apply Forall_nil| |rewrite total_nil; lia].
    intros a. rewrite mem_nil. lia. }
  apply Forall_cons in Hhi as [Hrt Hhi]. pose proof (ext_bounds r) as Br.
  assert (Habove : Forall (λ x, Extent.end_ r < Extent.start x) hi).
  { apply canonical_app in Hc as (_ & Hc & _). by apply canonical_cons in Hc as [? _]. }
  apply step_assert; [lia|]. destruct (t =? Extent.start r) eqn:E.
  - eapply returns_bind; [by apply remove_ok|]. intros [removed ix'] (-> & Hix' & HF & HT). apply returns_ret.
    exists hi. split_and!; [done|done|done|lia|lia|done| |rewrite total_cons; lia].
    intros a. rewrite mem_cons. assert (inside a r ↔ t ≤ a < Extent.end_ r) by elia. tauto.
  - apply returns_ret. exists (r :: hi). split_and!; [done|apply same_frame_refl|done|lia|lia| | |lia].
    + constructor; [lia|]. eapply Forall_impl; [exact Habove|]. simpl. intros; lia.
    + intros a. split; [tauto|]. intros [?|?]; [done|lia].
Qed.

Lemma free_sim `{Profile} (ix : IndexedFreeList) (l : FreeList) (e : Extent) :
  represents ix l → clear_of e (regions l) →
  ∃ ix' l', IndexedFreeList.free ix e = Ret ix' ∧ FreeList.free l e = Ret l' ∧
    represents ix' l' ∧ same_frame ix ix'.
Proof.
  intros (Hwf & Hix & Ht & Hres & Hbuf) Hcl. pose proof Hwf as [Hc Htot].
  destruct (free_spec l e Hwf (λ _, Hcl)) as (l' & Hfree & Hwf' & Hset).
  destruct (around (regions l) e Hc Hcl) as (lo & hi & Hl & Hlo & Hhi & _ & _).
  assert (Hgoal : IndexedFreeList.free ix e ⇝ λ ix', represents ix' l' ∧ same_frame ix ix').
  2:{ destruct Hgoal as (ix' & ? & ? & ?). by exists ix', l'. }
  rewrite Hl in Hix. pose proof (ext_bounds e) as Be. unfold IndexedFreeList.free.
  eapply returns_bind.
  { apply (join_below ix lo hi); [done|done|]. eapply Forall_impl; [exact Hhi|]. simpl. intros; elia. }
  intros [s' ix1] (lo' & Hix1 & HF1 & HT1 & Hs' & Hs0 & Hs1 & Hlo' & Hmlo & Htlo).
  eapply returns_bind; [apply (join_above ix1 lo' hi); [done|done|done|lia|lia]|].
  intros [t' ix2] (hi' & Hix2 & HF2 & HT2 & Ht' & Hhi' & Hmhi & Hthi).
  assert (0 ≤ s') by (destruct lo; [rewrite Hs1 by done; lia|by apply Hs0]).
  destruct (ext_between_ex s' t') as (m & Hm & Hm1 & Hm2); [lia..|].
  apply (step_expect _ m); [done|].
  assert (Hcm : canonical (lo' ++ m :: hi')).
  { pose proof Hix2 as (_ & Hc2 & _). apply canonical_app in Hc2 as (? & ? & ?).
    rewrite Forall_forall in Hlo', Hhi'.
    apply canonical_app. split_and!; [done| |].
    - apply canonical_cons. split; [|done]. apply Forall_forall. intros x Hx. unfold gap. rewrite Hm2.
      by apply Hhi'.
    - intros x y Hx [->|Hy]%elem_of_cons; [unfold gap; rewrite Hm1; by apply Hlo'|auto]. }
  destruct (insert_ok ix2 lo' hi' m Hix2 Hcm) as (Hix3 & HF3 & HT3).
  assert (HR : regions l' = lo' ++ m :: hi').
  { destruct Hwf' as [Hc' _]. apply canonical_unique_list; [done|done|]. intros a.
    change (mem a (regions l')) with (free_at l' a). rewrite Hset. unfold free_at. rewrite Hl, !mem_app, mem_cons.
    rewrite Hmlo, Hmhi. unfold inside. rewrite Hm1, Hm2.
    assert (s' ≤ a < t' ↔ s' ≤ a < Extent.start e ∨ Extent.start e ≤ a < Extent.end_ e ∨ Extent.end_ e ≤ a < t') by lia.
    tauto. }
  assert (HTot : total_bytes l' = total_bytes l + Extent.len e).
  { destruct Hwf' as [_ ->]. rewrite HR, Htot, Hl, !total_app, total_cons. pose proof (ext_bounds m). lia. }
  pose proof (wf_total_u64 l' Hwf') as Hu. unfold u64 in Hu.
  apply (step_expect _ (total_bytes l')).
  { apply checked_add_Some. rewrite HT3, HT2, HT1, Ht. lia. }
  apply returns_ret. split.
  - destruct HF1 as (? & ? & HB1 & HR1 & ?), HF2 as (? & ? & HB2 & HR2 & ?), HF3 as (? & ? & HB3 & HR3 & ?).
    split_and!; simpl; [done|rewrite HR; exact Hix3|done|congruence|congruence].
  - etrans; [exact HF1|]. etrans; [exact HF2|]. exact HF3.
Qed.

(** ** Building and restoring *)

Lemma build_index_ok (alignment : option Z) (t : Z) (l : list Extent) :
  canonical l →
  let ix := foldl (λ indexed extent,
      let indexed := IndexedFreeList.insert indexed extent in
      IndexedFreeList.with_work indexed (ReservationWork.add_indexed (ix_work indexed)))
    (mkIndexed (mkFreeList [] 0) [] ∅ ∅ alignment None [] t ReservationWork.default false) l in
  index_ok ix l ∧ ix_total ix = t ∧ ix_restored ix = false ∧ ix_buffer ix = [] ∧
  ix_alignment ix = alignment ∧ ix_blocks ix = None.
Proof.
  induction l as [|e l IH] using rev_ind; intros Hc; cbv zeta.
  { split_and!; try done. split_and!; simpl; [done|constructor| | |done]; intros n a; rewrite elem_of_empty;
      (split; [done|]); intros (e & He & _); by apply not_elem_of_nil in He. }
  pose proof Hc as (Hc1 & _ & _)%canonical_app.
  destruct (IH Hc1) as (Hix & Ht & Hr & Hb & Ha & Hbl). rewrite foldl_app. cbn [foldl].
  set (ix := foldl _ _ l) in *. rewrite <- (app_nil_r l) in Hix.
  destruct (insert_ok ix l [] e Hix Hc) as (Hix' & (_ & HFa & HFb & HFr & HFbl) & HT).
  split_and!; simpl; [exact Hix'|done..|]. by rewrite Hbl.
Qed.

Lemma new_represents (l : FreeList) (alignment : option Z) :
  wf l → represents (IndexedFreeList.new l alignment) l ∧
    ix_alignment (IndexedFreeList.new l alignment) = alignment ∧
    ix_blocks (IndexedFreeList.new l alignment) = None.
Proof.
  intros Hwf. pose proof Hwf as [Hc _].
  destruct (build_index_ok alignment (total_bytes l) (regions l) Hc) as (? & ? & ? & ? & ? & ?).
  by split_and!; [split_and!|..].
Qed.

(** Restoring writes the represented list into the owner. *)
Lemma restore_owner (ix : IndexedFreeList) (l : FreeList) :
  represents ix l → ix_owner (IndexedFreeList.restore ix) = l ∧
    ix_restored (IndexedFreeList.restore ix) = true.
Proof.
  intros (_ & (Hr & _) & Ht & Hres & Hbuf). unfold IndexedFreeList.restore. rewrite Hres. simpl.
  rewrite Hbuf, Hr, Ht. by destruct l.
Qed.

(** The index merges an extent exactly when the list does. *)
Lemma merges_sim (ix : IndexedFreeList) (l : FreeList) (e : Extent) :
  represents ix l → clear_of e (regions l) →
  IndexedFreeList.merges ix e = FreeList.adjoins l e.
Proof.
  intros (Hwf & (Hr & Hc & _) & _) Hcl. unfold IndexedFreeList.merges. rewrite Hr.
  destruct (around (regions l) e Hc Hcl) as (lo & hi & Hl & Hlo & Hhi & Hb & Hf).
  unfold StartMap.prev. rewrite Hb. apply eq_true_iff_eq. rewrite orb_true_iff, list_adjoins_true.
  setoid_rewrite ext_adjoins_true. rewrite Forall_forall in Hlo, Hhi. split.
  - intros [Hp|Hn].
    + destruct (last lo) as [r|] eqn:El; [|done]. apply last_Some in El as [lo' ->].
      exists r. split; [|left; lia]. rewrite Hl. apply elem_of_app. left. apply elem_of_app. right. by left.
    + destruct (StartMap.get _ _) as [r|] eqn:Eg; [|done].
      apply startmap_get_Some in Eg as [Hrin Hrs]; [|done]. exists r. split; [done|]. by right.
  - intros (r & Hrin & [He|He]).
    + left. rewrite Hl in Hrin. apply elem_of_app in Hrin as [Hrin|Hrin]; [|specialize (Hhi r Hrin); elia].
      apply list_elem_of_split in Hrin as (pre & post & ->).
      destruct post as [|x post _] using rev_ind; [rewrite last_snoc; lia|].
      rewrite app_comm_cons, app_assoc, last_snoc.
      rewrite Hl, <- !app_assoc in Hc. apply canonical_app in Hc as (_ & Hc & _).
      apply canonical_cons in Hc as [Hc _]. rewrite Forall_forall in Hc.
      assert (Hx : gap r x).
      { apply Hc. rewrite !elem_of_app. auto using list_elem_of_here. }
      unfold gap in Hx.
      assert (x ∈ pre ++ r :: post ++ [x]) as Hxin.
      { apply elem_of_app. right. right. apply elem_of_app. right. by left. }
      specialize (Hlo x Hxin). elia.
    + right. by rewrite He, startmap_get_elem.
Qed.
