(* ===== verification/Paged.v ===== *)
(** * PAGE free space: definitions

    Models [crates/hdf5-pure-space/src/paged/mod.rs] and [paged/admission.rs]:
    the per-class free lists of a paged editing session, the post-free state a
    commit publishes, and the queue-driven admission of returned extents.
    [PagedEdit] and [PagedPostFree] are records of free lists; [&mut self]
    methods return the new state.  Counters of [AdmissionWork] are left out. *)

From stdpp Require Import strings pretty.
From S2P Require Import Prelude Addresses Extents Regions Requests FreeLists.
From S2P Require Import Admission Persistence StartMap.

Local Open Scope Z_scope.

(** ** Data *)

Inductive PageTransition : Type :=
| Pad (extent : Extent) (track_as : option PageType)
| Unchanged.

Record PagedEdit : Type := mkPagedEdit {
  pe_page_size : FileSpacePageSize;
  pe_meta : FreeList;
  pe_raw : FreeList;
  pe_unclassified : FreeList;
  pe_dead : FreeList;
  pe_last : option PageType;
  pe_meta_pad : list Extent;
  pe_raw_pad : list Extent;
}.

Record PagedPostFree : Type := mkPostFree {
  pf_page_size : FileSpacePageSize;
  pf_meta : FreeList;
  pf_raw : FreeList;
  pf_dead : FreeList;
  pf_unclassified : FreeList;
}.

Record PagedAllocationSnapshot : Type := mkAllocationSnapshot {
  snapshot_meta : FreeList;
  snapshot_raw : FreeList;
}.

Record PagedAppendSnapshot : Type := mkAppendSnapshot {
  snapshot_paged : PagedEdit;
}.

Record PagedTail : Type := mkTail {
  tail_allocation : Extent;
  tail_post : PagedPostFree;
  tail_final_eoa : Z;
  tail_appended : bool;
  tail_request : ReservationRequest;
}.

Record PagedAppend : Type := mkAppend {
  append_eoa : Z;
  append_post : PagedPostFree;
}.

Inductive RetainedKind : Type := RetainedDead | RetainedPadding (ty : PageType) | RetainedUnclassified.

Record RetainedExtent : Type := mkRetained {
  retained_extent : Extent;
  retained_kind : RetainedKind;
}.

(** The text of a [FreeListError], which one error message embeds. *)
Definition free_list_error_text (e : FreeListError) : string :=
  let text (kind : string) (previous next : Extent) : string :=
    kind +:+ " free extents [" +:+ pretty (Extent.start previous) +:+ ", "
    +:+ pretty (Extent.end_ previous) +:+ ") and [" +:+ pretty (Extent.start next) +:+ ", "
    +:+ pretty (Extent.end_ next) +:+ ")" in
  match e with
  | Overlap previous next => text "overlapping" previous next
  | Unsorted previous next => text "out-of-order" previous next
  end.

(** ** Promotion of whole free pages *)

Module PageLists.
Section Profiled.
Context `{Profile}.

Definition route_free (meta raw dead : FreeList) (extent : Extent) (class : FreeClass)
    : outcome (FreeList * FreeList * FreeList) :=
  match class with
  | Dead => dead ← FreeList.free dead extent; Ret (meta, raw, dead)
  | PageClass Meta => meta ← FreeList.free meta extent; Ret (meta, raw, dead)
  | PageClass Raw => raw ← FreeList.free raw extent; Ret (meta, raw, dead)
  end.

End Profiled.

Definition promote_whole_free_pages (meta raw dead : FreeList) (page_size : FileSpacePageSize)
    : outcome (FreeList * FreeList * FreeList) :=
  r ← FreeList.from_lists [meta; raw; dead];
  runs ← expect_ok r;
  r ← FreeList.from_sorted
        (omap (λ e, Extent.aligned_interior e (FileSpacePageSize.get page_size)) (regions runs));
  whole_pages ← expect_ok r;
  meta ← FreeList.take_ranges meta whole_pages;
  raw ← FreeList.take_ranges raw whole_pages;
  dead ← FreeList.take_ranges dead whole_pages;
  r ← FreeList.from_lists [raw; whole_pages];
  raw ← expect_ok r;
  Ret (meta, raw, dead).

End PageLists.

(** ** The class index of an admission batch *)

Inductive AdmissionState : Type := Admitted_ | Pending | Queued.

#[global] Instance AdmissionState_eq_dec : EqDecision AdmissionState.
Proof. solve_decision. Defined.

Record PendingReturn : Type := mkPending {
  pending_extent : Extent;
  pending_class : FreeClass;
  pending_state : AdmissionState;
}.

Module ClassIndex.

Definition new (l : FreeList) : list Extent := regions l.

Definition insert (self : list Extent) (extent : Extent) : outcome (Extent * list Extent) :=
  let start := Extent.start extent in
  let end_ := Extent.end_ extent in
  '(start, self) ←
    match StartMap.prev start self with
    | Some previous =>
      _ ← assert_ (Extent.end_ previous <=? start);
      Ret (if Extent.end_ previous =? start
           then (Extent.start previous, StartMap.remove (Extent.start previous) self)
           else (start, self))
    | None => Ret (start, self)
    end;
  '(end_, self) ←
    match StartMap.next start self with
    | Some next =>
      _ ← assert_ (end_ <=? Extent.start next);
      Ret (if end_ =? Extent.start next
           then (Extent.end_ next, StartMap.remove (Extent.start next) self)
           else (end_, self))
    | None => Ret (end_, self)
    end;
  run ← expect (Extent.between start end_);
  Ret (run, StartMap.insert run self).

Definition merges (self : list Extent) (extent : Extent) (page_size : FileSpacePageSize) : bool :=
  let page_size := FileSpacePageSize.get page_size in
  existsb (λ region,
      if Extent.len extent <? page_size then Extent.adjoins_within region extent page_size
      else Extent.adjoins_whole_unit region extent page_size)
    (option_list (StartMap.prev (Extent.start extent) self)
     ++ option_list (StartMap.get (Extent.end_ extent) self)).

Definition into_list (self : list Extent) : outcome FreeList :=
  r ← FreeList.from_sorted self; expect_ok r.

End ClassIndex.

(** The three class indexes, in the order metadata, raw, dead. *)
Record Classes : Type := mkClasses {
  class_meta : list Extent;
  class_raw : list Extent;
  class_dead : list Extent;
}.

Module Classes.

Definition get (self : Classes) (class : FreeClass) : list Extent :=
  match class with
  | PageClass Meta => class_meta self
  | PageClass Raw => class_raw self
  | Dead => class_dead self
  end.

Definition set (self : Classes) (class : FreeClass) (l : list Extent) : Classes :=
  match class with
  | PageClass Meta => mkClasses l (class_raw self) (class_dead self)
  | PageClass Raw => mkClasses (class_meta self) l (class_dead self)
  | Dead => mkClasses (class_meta self) (class_raw self) l
  end.

(** [classes[slot(class)].insert(extent)] *)
Definition insert (self : Classes) (class : FreeClass) (extent : Extent)
    : outcome (Extent * Classes) :=
  '(run, l) ← ClassIndex.insert (get self class) extent;
  Ret (run, set self class l).

Definition merges (self : Classes) (extent : Extent) (page_size : FileSpacePageSize) : bool :=
  ClassIndex.merges (class_meta self) extent page_size
  || ClassIndex.merges (class_raw self) extent page_size
  || ClassIndex.merges (class_dead self) extent page_size.

End Classes.

Record PageAdmission : Type := mkAdmission {
  adm_page_size : FileSpacePageSize;
  adm_classes : Classes;
  adm_unclassified : FreeList;
  adm_returned : list PendingReturn;
  adm_queue : list nat;
}.

Module PageAdmission.

(** One entry of the batch. *)
Fixpoint enter (classes : Classes) (threshold : Z) (entries : list PendingReturn)
    (queue : list nat) (returned : list (Extent * FreeClass))
    : outcome (Classes * list PendingReturn * list nat) :=
  match returned with
  | [] => Ret (classes, entries, queue)
  | (extent, class) :: rest =>
    if threshold <=? Extent.len extent then
      '(_, classes) ← Classes.insert classes class extent;
      enter classes threshold (entries ++ [mkPending extent class Admitted_]) queue rest
    else
      enter classes threshold (entries ++ [mkPending extent class Queued])
        (queue ++ [length entries]) rest
  end.

Definition new (post : PagedPostFree) (threshold : Z) (returned : list (Extent * FreeClass))
    : outcome PageAdmission :=
  '(classes, entries, queue) ←
    enter (mkClasses (ClassIndex.new (pf_meta post)) (ClassIndex.new (pf_raw post))
             (ClassIndex.new (pf_dead post))) threshold [] [] returned;
  Ret (mkAdmission (pf_page_size post) classes (pf_unclassified post) entries queue).

(** [binary_search_by_key]: the position of the entry with this end or start;
    the entries are disjoint and sorted, so at most one matches. *)
Definition position (f : PendingReturn → bool) (l : list PendingReturn) : option nat :=
  fst <$> list_find (λ x, f x = true) l.

Definition set_state (l : list PendingReturn) (i : nat) (s : AdmissionState) : list PendingReturn :=
  alter (λ x, mkPending (pending_extent x) (pending_class x) s) i l.

(** Queues the neighbour at an end of the changed run when it is pending. *)
Definition requeue (neighbor : option nat) (returned : list PendingReturn) (queue : list nat)
    : list PendingReturn * list nat :=
  match neighbor with
  | None => (returned, queue)
  | Some i =>
    match returned !! i with
    | Some x =>
      if decide (pending_state x = Pending) then (set_state returned i Queued, queue ++ [i])
      else (returned, queue)
    | None => (returned, queue)
    end
  end.

Section Profiled.
Context `{Profile}.

(** The queue loop.  Every visit leaves the queue or admits an extent, and an
    admission queues at most two extents, so three visits per extent and one
    per queued entry bound the fuel. *)
Fixpoint run_queue (fuel : nat) (page_size : FileSpacePageSize) (unclassified : FreeList)
    (classes : Classes) (returned : list PendingReturn) (queue : list nat)
    : outcome (Classes * list PendingReturn) :=
  match queue with
  | [] => Ret (classes, returned)
  | index :: queue =>
    match fuel with
    | O => Panic
    | S fuel =>
      entry ← expect (returned !! index);
      _ ← debug_assert (bool_decide (pending_state entry = Queued));
      let returned := set_state returned index Pending in
      let extent := pending_extent entry in
      let class := pending_class entry in
      let unclassified_merge :=
        if FileSpacePageSize.get page_size <=? Extent.len extent
        then FreeList.adjoins unclassified extent else false in
      if negb unclassified_merge && negb (Classes.merges classes extent page_size)
      then run_queue fuel page_size unclassified classes returned queue
      else
        let returned := set_state returned index Admitted_ in
        '(run, classes) ← Classes.insert classes class extent;
        let left_ := position (λ x, Extent.end_ (pending_extent x) =? Extent.start run) returned in
        let right_ := position (λ x, Extent.start (pending_extent x) =? Extent.end_ run) returned in
        let '(returned, queue) := requeue left_ returned queue in
        let '(returned, queue) := requeue right_ returned queue in
        run_queue fuel page_size unclassified classes returned queue
    end
  end.

(** The extents still pending when the queue is empty. *)
Definition dropped_of (returned : list PendingReturn) : list (Extent * FreeClass) :=
  omap (λ x, if bool_decide (pending_state x = Pending)
             then Some (pending_extent x, pending_class x) else None) returned.

Definition run (self : PageAdmission)
    : outcome (FreeList * FreeList * FreeList * list (Extent * FreeClass)) :=
  '(classes, returned) ←
    run_queue (3 * length (adm_returned self) + 1) (adm_page_size self) (adm_unclassified self)
      (adm_classes self) (adm_returned self) (adm_queue self);
  meta ← ClassIndex.into_list (class_meta classes);
  raw ← ClassIndex.into_list (class_raw classes);
  dead ← ClassIndex.into_list (class_dead classes);
  Ret (meta, raw, dead, dropped_of returned).

End Profiled.
End PageAdmission.

(** ** The state a commit publishes *)

Module PagedPostFree.

Definition sections (self : PagedPostFree) : PagedSections :=
  mkSections (regions (pf_meta self)) (regions (pf_raw self)) (regions (pf_unclassified self)).

Definition with_lists (self : PagedPostFree) (l : FreeList * FreeList * FreeList) : PagedPostFree :=
  let '(meta, raw, dead) := l in
  mkPostFree (pf_page_size self) meta raw dead (pf_unclassified self).

Definition merges (self : PagedPostFree) (extent : Extent) : bool :=
  let page_size := FileSpacePageSize.get (pf_page_size self) in
  let typed := [pf_meta self; pf_raw self; pf_dead self] in
  if Extent.len extent <? page_size then
    existsb (λ l, FreeList.adjoins_within l extent page_size) typed
  else
    existsb (λ l, FreeList.adjoins_whole_unit l extent page_size) typed
    || FreeList.adjoins (pf_unclassified self) extent.

Section Profiled.
Context `{Profile}.

Definition track (self : PagedPostFree) (extent : Extent) (class : FreeClass)
    : outcome PagedPostFree :=
  l ← PageLists.route_free (pf_meta self) (pf_raw self) (pf_dead self) extent class;
  Ret (with_lists self l).

#[export] Instance tracked : TrackedSpace PagedPostFree FreeClass := {|
  ts_merges := merges;
  ts_track := track;
|}.

Definition release_batch (self : PagedPostFree) (threshold : Z)
    (extents : list (Extent * FreeClass)) : outcome (list (Extent * FreeClass) * PagedPostFree) :=
  match extents with
  | [] => Ret ([], self)
  | [first] =>
    '(r, self) ← TrackedSpace.release self threshold first.1 first.2;
    Ret (match r with DropIt => [first] | _ => [] end, self)
  | _ =>
    returned ← expect_ok (OrderedReturns.new extents);
    admission ← PageAdmission.new self threshold returned;
    '(meta, raw, dead, dropped) ← PageAdmission.run admission;
    Ret (dropped, with_lists self (meta, raw, dead))
  end.

Definition release_each (self : PagedPostFree) (threshold : Z)
    (extents : list (Extent * FreeClass)) : outcome (list (Extent * FreeClass) * PagedPostFree) :=
  release_batch self threshold extents.

(** Releases the trailing run of whole pages, keeping the tail reserve. *)
Definition release_trailing (self : PagedPostFree) (eoa tail_len : Z)
    : outcome (Z * PagedPostFree) :=
  let start := FreeList.trailing_run_start
    [pf_meta self; pf_raw self; pf_dead self; pf_unclassified self] eoa in
  let page_size := FileSpacePageSize.get (pf_page_size self) in
  match checked_next_multiple_of start page_size with
  | None => Ret (eoa, self)
  | Some cut =>
    if eoa <=? cut then Ret (eoa, self)
    else match (reserve ← checked_mul TRAILING_RESERVE_TAILS tail_len;
                checked_next_multiple_of reserve page_size) with
    | None => Ret (eoa, self)
    | Some keep =>
      match checked_mul keep 2 with
      | None => Ret (eoa, self)
      | Some release_min =>
        if match Address.distance_from eoa cut with
           | None => true
           | Some length => length <? release_min
           end
        then Ret (eoa, self)
        else match Address.checked_add cut keep with
        | Err _ => Ret (eoa, self)
        | Ok published_eoa =>
          released ← expect (Extent.between published_eoa eoa);
          meta ← FreeList.take_range (pf_meta self) released;
          raw ← FreeList.take_range (pf_raw self) released;
          dead ← FreeList.take_range (pf_dead self) released;
          unclassified ← FreeList.take_range (pf_unclassified self) released;
          Ret (published_eoa, mkPostFree (pf_page_size self) meta raw dead unclassified)
        end
      end
    end
  end.

(** The page starts at the two ends of an admitted fragment shorter than a page. *)
Definition candidate_pages (page_size : Z) (dropped : list (Extent * FreeClass))
    (extents : list (Extent * FreeClass)) : list Extent :=
  extents ≫= λ '(extent, _),
    if (1 <=? Extent.len extent) && (Extent.len extent <? page_size)
       && bool_decide (extent ∉ dropped.*1)
    then omap (λ addr, Extent.new (addr / page_size * page_size) page_size)
           [Extent.start extent; Extent.end_ extent - 1]
    else [].

(** The candidates a run covers, in ascending order; both iterators advance
    together. *)
Fixpoint covered_pages (runs pages : list Extent) : list Extent :=
  match pages with
  | [] => []
  | page :: rest =>
    let runs := (span (λ run, Extent.end_ run <=? Extent.start page) runs).2 in
    let covered := match runs with
                   | run :: _ => (Extent.start run <=? Extent.start page)
                                 && (Extent.end_ page <=? Extent.end_ run)
                   | [] => false
                   end in
    if covered then page :: covered_pages runs rest else covered_pages runs rest
  end.

(** A [BTreeSet] of extents of one length: ascending by start, no duplicates. *)
Definition page_set (pages : list Extent) : list Extent :=
  merge_sort start_le (remove_dups pages).

Definition pages_completed_by_merges (self : PagedPostFree)
    (extents dropped : list (Extent * FreeClass)) : outcome (list Extent) :=
  let page_size := FileSpacePageSize.get (pf_page_size self) in
  let candidates := page_set (candidate_pages page_size dropped extents) in
  r ← FreeList.from_lists [pf_meta self; pf_raw self; pf_dead self];
  runs ← expect_ok r;
  Ret (covered_pages (regions runs) candidates).

Definition release_pages (self : PagedPostFree) (threshold : Z) (pages : list Extent)
    : outcome (list (Extent * FreeClass) * PagedPostFree) :=
  r ← FreeList.from_sorted pages;
  removed ← expect_ok r;
  meta ← FreeList.take_ranges (pf_meta self) removed;
  raw ← FreeList.take_ranges (pf_raw self) removed;
  dead ← FreeList.take_ranges (pf_dead self) removed;
  release_batch (with_lists self (meta, raw, dead)) threshold
    ((λ page, (page, PageClass Raw)) <$> pages).

(** The descending walk over the dropped extents that end the allocation. *)
Fixpoint give_back_walk (start : Z) (head : option FreeClass) (l : list (Extent * FreeClass))
    : Z * option FreeClass :=
  match l with
  | [] => (start, head)
  | (extent, class) :: rest =>
    if Extent.end_ extent =? start then give_back_walk (Extent.start extent) (Some class) rest
    else (start, head)
  end.

Definition give_back (self : PagedPostFree) (eoa : Z) (dropped : list (Extent * FreeClass))
    : outcome (Z * PagedPostFree) :=
  let page_size := FileSpacePageSize.get (pf_page_size self) in
  let dropped := filter (λ x, (page_size <=? Extent.len x.1) = true) dropped in
  let '(start, head) := give_back_walk eoa None (reverse (merge_sort entry_le dropped)) in
  match checked_next_multiple_of start page_size with
  | None => Ret (eoa, self)
  | Some aligned =>
    match (if start =? aligned then None else head) with
    | Some class =>
      head ← expect (Extent.between start aligned);
      self ← track self head class;
      Ret (aligned, self)
    | None => Ret (aligned, self)
    end
  end.

Definition release_all (self : PagedPostFree) (threshold eoa : Z)
    (extents : list (Extent * FreeClass)) : outcome (Z * PagedPostFree) :=
  '(dropped, self) ← release_batch self threshold extents;
  '(dropped, self) ←
    (if FileSpacePageSize.get (pf_page_size self) <? threshold then
       completed ← pages_completed_by_merges self extents dropped;
       '(more, self) ← release_pages self threshold completed;
       Ret (dropped ++ more, self)
     else Ret (dropped, self));
  give_back self eoa dropped.

End Profiled.
End PagedPostFree.
