(* ===== verification/PagedEdits.v ===== *)
(** * PAGE editing sessions: definitions

    The [PagedEdit], [PagedTail] and [PagedAppend] operations of
    [crates/hdf5-pure-space/src/paged/mod.rs]: seeding from persisted sections,
    allocation, padding, snapshots and the planning of a commit. *)

From stdpp Require Import strings.
From S2P Require Import Prelude Addresses Extents Regions Requests FreeLists.
From S2P Require Import Admission Persistence Paged.

Local Open Scope Z_scope.

Module PagedEdit.

Definition new (page_size : FileSpacePageSize) : PagedEdit :=
  mkPagedEdit page_size FreeList.new FreeList.new FreeList.new FreeList.new None [] [].

(** The record updates the methods need. *)
Definition set_lists (self : PagedEdit) (meta raw unclassified dead : FreeList) : PagedEdit :=
  mkPagedEdit (pe_page_size self) meta raw unclassified dead (pe_last self) (pe_meta_pad self)
    (pe_raw_pad self).

Definition set_last (self : PagedEdit) (last : option PageType) : PagedEdit :=
  mkPagedEdit (pe_page_size self) (pe_meta self) (pe_raw self) (pe_unclassified self)
    (pe_dead self) last (pe_meta_pad self) (pe_raw_pad self).

Definition set_pads (self : PagedEdit) (meta_pad raw_pad : list Extent) : PagedEdit :=
  mkPagedEdit (pe_page_size self) (pe_meta self) (pe_raw self) (pe_unclassified self)
    (pe_dead self) (pe_last self) meta_pad raw_pad.

(** ** Seeding *)

Definition persisted_parts (page_size : FileSpacePageSize) (kind : option ManagerKind)
    (extent : Extent) : list (Extent * option PageType) :=
  match kind with
  | Some PagedSmallMetadata => [(extent, Some Meta)]
  | Some PagedSmallRaw => [(extent, Some Raw)]
  | Some PagedLargeGeneric =>
    match Extent.aligned_interior extent (FileSpacePageSize.get page_size) with
    | None => [(extent, None)]
    | Some pages =>
      ((λ e, (e, None)) <$> option_list (Extent.between (Extent.start extent) (Extent.start pages)))
      ++ [(pages, Some Raw)]
      ++ ((λ e, (e, None)) <$> option_list (Extent.between (Extent.end_ pages) (Extent.end_ extent)))
    end
  | Some ManagerFlat | None => [(extent, None)]
  end.

(** The parts of one established page type, in the order they are pushed. *)
Definition parts_typed (ty : option PageType) (parts : list (Extent * option PageType))
    : list Extent :=
  (filter (λ x, x.2 = ty) parts).*1.

(** The section loop: the first order violation, or every part. *)
Fixpoint persisted_loop (page_size : FileSpacePageSize) (previous : option Extent)
    (sections : list (option ManagerKind * Extent))
    : result (list (Extent * option PageType)) FreeListError :=
  match sections with
  | [] => Ok []
  | (kind, extent) :: rest =>
    match FreeList.order_error previous extent with
    | Some e => Err e
    | None =>
      result_map (app (persisted_parts page_size kind extent))
        (persisted_loop page_size (Some extent) rest)
    end
  end.

Definition finish_seed (self : PagedEdit) : outcome PagedEdit :=
  '(meta, raw, dead) ← PageLists.promote_whole_free_pages (pe_meta self) (pe_raw self)
    (pe_dead self) (pe_page_size self);
  Ret (set_lists self meta raw (pe_unclassified self) dead).

Definition from_persisted (page_size : FileSpacePageSize)
    (sections : list (option ManagerKind * Extent)) : outcome (result PagedEdit FreeListError) :=
  match persisted_loop page_size None sections with
  | Err e => Ret (Err e)
  | Ok parts =>
    r ← FreeList.from_sorted (parts_typed (Some Meta) parts);
    try_ r (λ meta,
    r ← FreeList.from_sorted (parts_typed (Some Raw) parts);
    try_ r (λ raw,
    r ← FreeList.from_sorted (parts_typed None parts);
    try_ r (λ unclassified,
      paged ← finish_seed (set_lists (new page_size) meta raw unclassified FreeList.new);
      Ret (Ok paged))))
  end.

Section Profiled.
Context `{Profile}.

Definition track (self : PagedEdit) (extent : Extent) (class : FreeClass) : outcome PagedEdit :=
  '(meta, raw, dead) ← PageLists.route_free (pe_meta self) (pe_raw self) (pe_dead self) extent class;
  Ret (set_lists self meta raw (pe_unclassified self) dead).

Definition seed (self : PagedEdit) (extent : Extent) (ty : option PageType) : outcome PagedEdit :=
  match ty with
  | Some ty => track self extent (PageClass ty)
  | None =>
    unclassified ← FreeList.free (pe_unclassified self) extent;
    Ret (set_lists self (pe_meta self) (pe_raw self) unclassified (pe_dead self))
  end.

Fixpoint seed_parts (self : PagedEdit) (parts : list (Extent * option PageType))
    : outcome PagedEdit :=
  match parts with
  | [] => Ret self
  | (part, ty) :: rest => self ← seed self part ty; seed_parts self rest
  end.

Definition seed_persisted (self : PagedEdit) (kind : option ManagerKind) (extent : Extent)
    : outcome PagedEdit :=
  seed_parts self (persisted_parts (pe_page_size self) kind extent).

End Profiled.

(** ** Views *)

Definition sections (self : PagedEdit) : PagedSections :=
  mkSections (regions (pe_meta self)) (regions (pe_raw self)) (regions (pe_unclassified self)).

Definition pending_padding (self : PagedEdit) (ty : PageType) : list Extent :=
  match ty with Meta => pe_meta_pad self | Raw => pe_raw_pad self end.

Definition retained_extents (self : PagedEdit) : list RetainedExtent :=
  ((λ e, mkRetained e RetainedDead) <$> regions (pe_dead self))
  ++ ((λ e, mkRetained e RetainedUnclassified) <$> regions (pe_unclassified self))
  ++ ((λ e, mkRetained e (RetainedPadding Meta)) <$> pe_meta_pad self)
  ++ ((λ e, mkRetained e (RetainedPadding Raw)) <$> pe_raw_pad self).

Definition trailing_run_start (self : PagedEdit) (eoa : Z) : Z :=
  FreeList.trailing_run_start [pe_meta self; pe_raw self; pe_dead self; pe_unclassified self] eoa.

(** ** Padding *)

Definition plan_transition (self : PagedEdit) (eoa : Z) (ty : PageType)
    : result PageTransition FormatError :=
  let page_size := FileSpacePageSize.get (pe_page_size self) in
  if (eoa mod page_size =? 0) || bool_decide (pe_last self = Some ty) then Ok Unchanged
  else
    let pad_len := page_size - eoa mod page_size in
    result_map (λ extent, Pad extent (pe_last self))
      (ok_or (Extent.new eoa pad_len) (OffsetOverflow eoa pad_len)).

Definition page_padding (self : PagedEdit) (eoa : Z) : result (option PageTransition) FormatError :=
  let page_size := FileSpacePageSize.get (pe_page_size self) in
  if eoa mod page_size =? 0 then Ok None
  else
    let pad_len := page_size - eoa mod page_size in
    result_map (λ extent, Some (Pad extent (pe_last self)))
      (ok_or (Extent.new eoa pad_len) (OffsetOverflow eoa pad_len)).

Definition record_padding (self : PagedEdit) (extent : Extent) (track_as : option PageType)
    : PagedEdit :=
  match track_as with
  | Some Meta => set_pads self (pe_meta_pad self ++ [extent]) (pe_raw_pad self)
  | Some Raw => set_pads self (pe_meta_pad self) (pe_raw_pad self ++ [extent])
  | None => self
  end.

Definition record_page_padding (self : PagedEdit) (transition : PageTransition) : PagedEdit :=
  match transition with
  | Pad extent track_as => record_padding self extent track_as
  | Unchanged => self
  end.

Definition record_transition (self : PagedEdit) (ty : PageType) (transition : PageTransition)
    : PagedEdit :=
  set_last (record_page_padding self transition) (Some ty).

(** ** Allocation *)

(** The list of the page type and the other one, and back. *)
Definition own_other (self : PagedEdit) (ty : PageType) : FreeList * FreeList :=
  match ty with Meta => (pe_meta self, pe_raw self) | Raw => (pe_raw self, pe_meta self) end.

Definition with_own_other (self : PagedEdit) (ty : PageType) (own other : FreeList) : PagedEdit :=
  match ty with
  | Meta => set_lists self own other (pe_unclassified self) (pe_dead self)
  | Raw => set_lists self other own (pe_unclassified self) (pe_dead self)
  end.

Section Profiled.
Context `{Profile}.

Definition allocate (self : PagedEdit) (len : Z) (ty : PageType)
    : outcome (option Extent * PagedEdit) :=
  let page_size := FileSpacePageSize.get (pe_page_size self) in
  let '(own, other) := own_other self ty in
  '(o, own) ← FreeList.alloc own len;
  match o with
  | Some extent => Ret (Some extent, with_own_other self ty own other)
  | None =>
    match checked_next_multiple_of len page_size with
    | None => Ret (None, with_own_other self ty own other)
    | Some span =>
      '(claimed, other) ← FreeList.alloc_whole_units other span page_size;
      match claimed with
      | None => Ret (None, with_own_other self ty own other)
      | Some claimed =>
        if span =? len then Ret (Some claimed, with_own_other self ty own other)
        else
          allocation ← expect (Extent.new (Extent.start claimed) len);
          remainder ← expect (Extent.new (Extent.end_ allocation) (span - len));
          own ← FreeList.free own remainder;
          Ret (Some allocation, with_own_other self ty own other)
      end
    end
  end.

Definition allocate_block (self : PagedEdit) (request : ReservationRequest)
    : outcome (option Extent * PagedEdit) :=
  let page_size := FileSpacePageSize.get (pe_page_size self) in
  let ty := request_page_type request in
  let '(own, other) := own_other self ty in
  '(o, own) ← FreeList.alloc_block own request (pe_page_size self);
  match o with
  | Some extent => Ret (Some extent, with_own_other self ty own other)
  | None =>
    match checked_next_multiple_of (request_size request) page_size with
    | None => Ret (None, with_own_other self ty own other)
    | Some span =>
      '(claimed, other) ← FreeList.alloc_whole_units other span page_size;
      match claimed with
      | None => Ret (None, with_own_other self ty own other)
      | Some claimed =>
        placement ← expect_ok
          (ReservationRequest.place_after request (Extent.start claimed) (Some (pe_page_size self)));
        let allocation := placement_extent placement in
        own ← match Extent.between (Extent.end_ allocation) (Extent.end_ claimed) with
              | Some remainder => FreeList.free own remainder
              | None => Ret own
              end;
        Ret (Some allocation, with_own_other self ty own other)
      end
    end
  end.

Definition return_allocation (self : PagedEdit) (extent : Extent) (ty : PageType)
    : outcome PagedEdit :=
  track self extent (PageClass ty).

End Profiled.

Definition largest (self : PagedEdit) (ty : PageType) : Z :=
  let '(own, other) := own_other self ty in
  Z.max (FreeList.largest own)
    (FreeList.largest_whole_units other (FileSpacePageSize.get (pe_page_size self))).

(** ** Snapshots *)

Definition allocation_snapshot (self : PagedEdit) : PagedAllocationSnapshot :=
  mkAllocationSnapshot (pe_meta self) (pe_raw self).

Definition restore_allocation (self : PagedEdit) (snapshot : PagedAllocationSnapshot) : PagedEdit :=
  set_lists self (snapshot_meta snapshot) (snapshot_raw snapshot) (pe_unclassified self) (pe_dead self).

Definition append_snapshot (self : PagedEdit) : PagedAppendSnapshot := mkAppendSnapshot self.

Definition restore_append (self : PagedEdit) (snapshot : PagedAppendSnapshot) : PagedEdit :=
  snapshot_paged snapshot.

(** ** Section count *)

(** [try_fold] with a checked [usize] addition; [usize_max] is the platform's
    largest index. *)
Fixpoint count_pieces (usize_max count : Z) (l : list Z) : result Z FormatError :=
  match l with
  | [] => Ok count
  | pieces :: rest =>
    if count + pieces <=? usize_max then count_pieces usize_max (count + pieces) rest
    else Err (ValueTooLargeForPlatform (saturating_add count pieces) "PAGE persistence section count")
  end.

Definition tail_section_limit (usize_max : Z) (self : PagedEdit) (extents : list Extent)
    : result Z FormatError :=
  count_pieces usize_max 0
    (((λ e, Z.of_nat (PageParts.count (PageParts.new e (pe_page_size self)))) <$>
        (regions (pe_meta self) ++ regions (pe_raw self) ++ regions (pe_dead self)
         ++ pe_meta_pad self ++ pe_raw_pad self ++ extents))
     ++ ((λ _, 1) <$> regions (pe_unclassified self))).

(** ** Post-free states *)

Section Profiled.
Context `{Profile}.

(** Merges already admitted padding into a copy of a list. *)
Definition with_padding (l : FreeList) (padding : list Extent) : outcome FreeList :=
  match padding with
  | [] => Ret l
  | [extent] => FreeList.free l extent
  | _ =>
    padding ← expect_ok (OrderedReturns.new ((λ e, (e, tt)) <$> padding));
    r ← FreeList.from_sorted (padding.*1);
    padding ← expect_ok r;
    r ← FreeList.from_lists [l; padding];
    expect_ok r
  end.

Definition post_free (self : PagedEdit) (threshold eoa : Z) (freed : list (Extent * FreeClass))
    (old_blocks : list Extent) : outcome (PagedPostFree * Z) :=
  meta ← with_padding (pe_meta self) (pe_meta_pad self);
  raw ← with_padding (pe_raw self) (pe_raw_pad self);
  let post := mkPostFree (pe_page_size self) meta raw (pe_dead self) (pe_unclassified self) in
  '(eoa, post) ← PagedPostFree.release_all post threshold eoa
    (freed ++ ((λ e, (e, PageClass Meta)) <$> old_blocks));
  l ← PageLists.promote_whole_free_pages (pf_meta post) (pf_raw post) (pf_dead post) (pf_page_size post);
  Ret (PagedPostFree.with_lists post l, eoa).

Definition adopt_post_free (self : PagedEdit) (post : PagedPostFree) (appended_metadata : bool)
    (appended_tail : option Extent) : outcome PagedEdit :=
  meta ← match appended_tail with
         | Some tail => FreeList.free (pf_meta post) tail
         | None => Ret (pf_meta post)
         end;
  Ret (mkPagedEdit (pe_page_size self) meta (pf_raw post) (pf_unclassified post) (pf_dead post)
         (if appended_metadata then Some Meta else pe_last self) [] []).

(** ** Planning a commit *)

(** The next page boundary must be representable. *)
Definition check_boundary (page_size eoa : Z) : result unit FormatError :=
  match checked_next_multiple_of eoa page_size with
  | Some _ => Ok tt
  | None => Err (OffsetOverflow eoa page_size)
  end.

(** So must twice the tail reserve of the capacity. *)
Definition check_reserve (page_size capacity : Z) : result unit FormatError :=
  match (reserve ← checked_mul capacity (TRAILING_RESERVE_TAILS * 2);
         checked_next_multiple_of reserve page_size) with
  | Some _ => Ok tt
  | None => Err (OffsetOverflow capacity (TRAILING_RESERVE_TAILS * 2))
  end.

Definition plan_append (self : PagedEdit) (threshold eoa : Z) (freed : list (Extent * FreeClass))
    (old_blocks : list Extent) : outcome (result PagedAppend FormatError) :=
  try_ (check_boundary (FileSpacePageSize.get (pe_page_size self)) eoa) (λ _,
  '(post, released_eoa) ← post_free self threshold eoa freed old_blocks;
  post ← match Extent.between released_eoa eoa with
         | Some restored => PagedPostFree.track post restored (PageClass Raw)
         | None => Ret post
         end;
  Ret (Ok (mkAppend eoa post))).

Definition plan_reusable_tail (self : PagedEdit) (threshold eoa : Z)
    (freed : list (Extent * FreeClass)) (old_blocks : list Extent) (request : ReservationRequest)
    : outcome (result (option PagedTail) FormatError) :=
  let page_size := FileSpacePageSize.get (pe_page_size self) in
  try_ (check_boundary page_size eoa) (λ _,
  let capacity := request_size request in
  try_ (check_reserve page_size capacity) (λ _,
  '(allocation, available) ←
    (if ReservationRequest.is_block request then allocate_block self request
     else allocate self capacity (request_page_type request));
  match allocation with
  | None => Ret (Ok None)
  | Some allocation =>
    '(post, released_eoa) ← post_free available threshold eoa freed old_blocks;
    '(final_eoa, post) ← PagedPostFree.release_trailing post released_eoa capacity;
    Ret (Ok (Some (mkTail allocation post final_eoa false request)))
  end)).

End Profiled.
End PagedEdit.

(** ** Reserving an append *)

Module PagedAppend.
Section Profiled.
Context `{Profile}.

Definition reserve (self : PagedAppend) (capacity : Z) : outcome (result PagedTail FormatError) :=
  let eoa := append_eoa self in
  let post := append_post self in
  let page_size := FileSpacePageSize.get (pf_page_size post) in
  try_ (PagedEdit.check_reserve page_size capacity) (λ _,
  try_ (ok_or (ByteLength.nonzero capacity) (OffsetOverflow eoa capacity)) (λ size,
  let request := ReservationRequest.new size Metadata in
  try_ (ReservationRequest.place_after request eoa None) (λ placement,
  let allocation := placement_extent placement in
  let end_ := Extent.end_ allocation in
  try_ (ok_or (checked_next_multiple_of end_ page_size) (OffsetOverflow end_ page_size)) (λ final_eoa,
  post ← match Extent.between end_ final_eoa with
         | Some tail => PagedPostFree.track post tail (PageClass Meta)
         | None => Ret post
         end;
  Ret (Ok (mkTail allocation post final_eoa true request)))))).

End Profiled.
End PagedAppend.

Module PagedTailPlan.
Section Profiled.
Context `{Profile}.

Definition plan_tail (self : PagedEdit) (threshold eoa : Z) (freed : list (Extent * FreeClass))
    (old_blocks : list Extent) (capacity : Z) (appended : bool)
    : outcome (result (option PagedTail) FormatError) :=
  let page_size := FileSpacePageSize.get (pe_page_size self) in
  try_ (PagedEdit.check_boundary page_size eoa) (λ _,
  try_ (PagedEdit.check_reserve page_size capacity) (λ _,
  if appended then
    r ← PagedEdit.plan_append self threshold eoa freed old_blocks;
    try_ r (λ append, r ← PagedAppend.reserve append capacity; Ret (result_map Some r))
  else
    match ByteLength.nonzero capacity with
    | None => Ret (Ok None)
    | Some capacity =>
      PagedEdit.plan_reusable_tail self threshold eoa freed old_blocks
        (ReservationRequest.new capacity Metadata)
    end)).

End Profiled.
End PagedTailPlan.

Module PagedTail.

(** The free region at or above the padding, when it starts inside it. *)
Definition overlaps_free (l : FreeList) (extent : Extent) : bool :=
  match (span (λ f, Extent.end_ f <=? Extent.start extent) (regions l)).2 with
  | free :: _ => Extent.start free <? Extent.end_ extent
  | [] => false
  end.

Definition invalid_padding (e : FreeListError) : FormatError :=
  Internal ("invalid PAGE allocation padding: " +:+ free_list_error_text e).

(** The first violation among the padding extents. *)
Fixpoint check_padding (allocation : Extent) (lists : list FreeList) (padding : list Extent)
    : result unit FormatError :=
  match padding with
  | [] => Ok tt
  | extent :: rest =>
    if negb (AddressRange.contains (Extent.range allocation) (Extent.range extent))
    then Err (Internal "PAGE allocation padding is outside its reservation")
    else if existsb (λ l, overlaps_free l extent) lists
    then Err (Internal "PAGE allocation padding overlaps free space")
    else check_padding allocation lists rest
  end.

Definition with_metadata_padding (self : PagedTail) (padding : list Extent)
    : outcome (result PagedTail FormatError) :=
  match padding with
  | [] => Ret (Ok self)
  | _ =>
    let post := tail_post self in
    r ← FreeList.from_sorted padding;
    match r with
    | Err e => Ret (Err (invalid_padding e))
    | Ok padding =>
      try_ (check_padding (tail_allocation self)
              [pf_meta post; pf_raw post; pf_dead post; pf_unclassified post] (regions padding)) (λ _,
      r ← FreeList.from_lists [pf_meta post; padding];
      match r with
      | Err e => Ret (Err (invalid_padding e))
      | Ok meta =>
        l ← PageLists.promote_whole_free_pages meta (pf_raw post) (pf_dead post) (pf_page_size post);
        Ret (Ok (mkTail (tail_allocation self) (PagedPostFree.with_lists post l) (tail_final_eoa self)
                   (tail_appended self) (tail_request self)))
      end)
    end
  end.

End PagedTail.
