(* ===== verification/PagedFacts.v ===== *)
(** * PAGE free space: promotion and allocation

    The PAGE lists are pairwise disjoint.  Promotion keeps their union and moves
    exactly the wholly free pages to the raw list; allocation takes the extent
    it returns out of the union and nothing else. *)

From stdpp Require Import strings.
From S2P Require Import Prelude Addresses Extents Regions Requests FreeLists FreeListFacts.
From S2P Require Import FreeListMerge Admission AdmissionLaws AdmissionSweep Persistence Paged.
From S2P Require Import PagedEdits.

Local Open Scope Z_scope.

(** ** Disjoint lists *)

Definition lists_ok (ls : list FreeList) : Prop :=
  Forall wf ls ∧ all_apart (mjoin (regions <$> ls)).

(** The address is free in one of the lists. *)
Definition free_in (ls : list FreeList) (a : Z) : Prop := ∃ l, l ∈ ls ∧ free_at l a.

Lemma free_in_nil (a : Z) : free_in [] a ↔ False.
Proof. split; [intros (l & []%not_elem_of_nil & _)|done]. Qed.

Lemma free_in_cons (l : FreeList) (ls : list FreeList) (a : Z) :
  free_in (l :: ls) a ↔ free_at l a ∨ free_in ls a.
Proof.
  unfold free_in. split.
  - intros (l' & [->|Hl]%elem_of_cons & Hf); [by left|right; by exists l'].
  - intros [Hf|(l' & Hl & Hf)]; [exists l|exists l']; (split; [|done]); [by left|by right].
Qed.

Lemma free_in_join (ls : list FreeList) (a : Z) :
  free_in ls a ↔ mem a (mjoin (regions <$> ls)).
Proof.
  induction ls as [|l ls IH]; [by rewrite free_in_nil, mem_nil|].
  rewrite free_in_cons, IH, fmap_cons. cbn. by rewrite mem_app.
Qed.

#[global] Hint Rewrite free_in_nil free_in_cons : mem.

Lemma wf_apart (l : FreeList) : wf l → all_apart (regions l).
Proof. intros [Hc _]. by apply ordered_all_apart, canonical_ordered. Qed.

(** Disjointness of a list of lists, by addresses. *)
Lemma lists_ok_cons (l : FreeList) (ls : list FreeList) :
  lists_ok (l :: ls) ↔ wf l ∧ lists_ok ls ∧ ∀ a, free_at l a → ¬ free_in ls a.
Proof.
  unfold lists_ok. rewrite Forall_cons, fmap_cons. cbn. split.
  - intros [[Hw HF] Ha]. apply all_apart_app in Ha as (_ & Ha & Hx). split_and!; [done..|].
    intros a (e & He & Hi) Hf. apply free_in_join in Hf as (f & Hf & Hi').
    specialize (Hx e f He Hf). elia.
  - intros (Hw & [HF Ha] & Hd). split_and!; [done..|].
    apply all_apart_disjoint; [by apply wf_apart|done|].
    intros a Hl Hf. apply (Hd a Hl). by apply free_in_join.
Qed.

Lemma lists_ok_nil : lists_ok [].
Proof. split; constructor. Qed.

Lemma lists_ok_wf (ls : list FreeList) : lists_ok ls → Forall wf ls.
Proof. by intros [? _]. Qed.

Lemma from_lists_ok (ls : list FreeList) :
  lists_ok ls →
  (r ← FreeList.from_lists ls; expect_ok r) ⇝ λ l, wf l ∧ ∀ a, free_at l a ↔ free_in ls a.
Proof.
  intros [HF Ha]. eapply returns_bind; [by apply from_lists_spec|].
  intros r (l & -> & Hw & Hs). by exists l.
Qed.

Lemma inside_dec (a : Z) (e : Extent) : Decision (inside a e).
Proof. unfold inside. apply _. Defined.

Lemma free_at_dec (l : FreeList) (a : Z) : free_at l a ∨ ¬ free_at l a.
Proof.
  unfold free_at, mem. induction (regions l) as [|e rs [IH|IH]].
  - right. intros (e & He & _). by apply not_elem_of_nil in He.
  - left. destruct IH as (f & Hf & Hi). exists f. split; [by right|done].
  - destruct (inside_dec a e) as [Hi|Hi]; [left; exists e; split; [by left|done]|].
    right. intros (f & [->|Hf]%elem_of_cons & Hi'); [done|]. apply IH. by exists f.
Qed.

(** The run of free space that ends the file, over several lists. *)
Lemma trailing_run_lists (lists : list FreeList) (eof : Z) :
  lists_ok lists → (∀ a, free_in lists a → a < eof) →
  let s := FreeList.trailing_run_start lists eof in
  s ≤ eof ∧ (∀ a, s ≤ a < eof → free_in lists a) ∧ ¬ free_in lists (s - 1).
Proof.
  intros [_ Hap] Hlt. cbv zeta. setoid_rewrite free_in_join. apply trailing_run_start_spec; [done|].
  apply Forall_forall. intros e He. pose proof (ext_bounds e). specialize (Hlt (Extent.end_ e - 1)).
  assert (Hf : free_in lists (Extent.end_ e - 1)); [|specialize (Hlt Hf); lia]. rewrite free_in_join. exists e. split; [done|elia].
Qed.

(** ** Wholly free pages *)

(** A canonical list covers an interval only inside one region. *)
Lemma interval_in_region (l : list Extent) (s t : Z) :
  canonical l → s < t → (∀ a, s ≤ a < t → mem a l) →
  ∃ r, r ∈ l ∧ Extent.start r ≤ s ∧ t ≤ Extent.end_ r.
Proof.
  intros Hc Hst Hall. destruct (Hall s ltac:(lia)) as (r & Hr & Hi). exists r.
  split_and!; [done|elia|]. destruct (Z.le_gt_cases t (Extent.end_ r)) as [|Hgt]; [done|].
  exfalso. destruct (Hall (Extent.end_ r) ltac:(elia)) as (r' & Hr' & Hi').
  apply list_elem_of_split in Hr as (pre & post & ->).
  apply canonical_app in Hc as (_ & Hc & Hx). apply canonical_cons in Hc as [HG _].
  rewrite Forall_forall in HG.
  apply elem_of_app in Hr' as [Hp|[->|Hp]%elem_of_cons].
  - specialize (Hx r' r Hp ltac:(by left)). unfold gap in Hx. elia.
  - elia.
  - specialize (HG r' Hp). unfold gap in HG. elia.
Qed.

Section Pages.
Context (p : FileSpacePageSize).

(** The page of [a] lies entirely in the set. *)
Definition whole_page (free : Z → Prop) (a : Z) : Prop :=
  ∀ b, b / page_bytes p = a / page_bytes p → free b.

Lemma whole_page_self (free : Z → Prop) (a : Z) : whole_page free a → free a.
Proof. intros H. by apply H. Qed.

Lemma same_page (a b : Z) :
  b / page_bytes p = a / page_bytes p ↔
  a / page_bytes p * page_bytes p ≤ b < a / page_bytes p * page_bytes p + page_bytes p.
Proof.
  pose proof (page_size_pos p) as Hp. split.
  - intros <-. apply div_mul_bounds. done.
  - intros Hb. symmetry. apply (Z.div_unique b (page_bytes p) _ (b - page_bytes p * (a / page_bytes p))); lia.
Qed.

(** The aligned interiors of a canonical list are its whole pages. *)
Lemma interiors_whole_pages (l : list Extent) (a : Z) :
  canonical l →
  mem a (omap (λ e, Extent.aligned_interior e (page_bytes p)) l) ↔ whole_page (λ b, mem b l) a.
Proof.
  intros Hc. pose proof (page_size_pos p) as Hp. split.
  - intros (i & Hi & Hin). apply list_elem_of_omap in Hi as (r & Hr & Hi).
    apply ext_aligned_interior_Some in Hi as (H1 & H2 & H3 & H4); [|done].
    intros b [Hb1 Hb2]%same_page. exists r. split; [done|].
    pose proof (div_mul_bounds a (page_bytes p) Hp) as Ha.
    pose proof (div_mul_multiple a (page_bytes p) Hp) as Hm.
    set (k := a / page_bytes p * page_bytes p) in *.
    assert (Extent.start i ≤ k).
    { destruct (Z.le_gt_cases (Extent.start i) k) as [|Hgt]; [done|].
      pose proof (multiple_le_of_lt k (Extent.start i) (page_bytes p) Hp Hm H2 ltac:(lia)). elia. }
    assert (k + page_bytes p ≤ Extent.end_ i).
    { destruct (Z.le_gt_cases (k + page_bytes p) (Extent.end_ i)) as [|Hgt]; [done|].
      pose proof (multiple_le_of_lt k (Extent.end_ i) (page_bytes p) Hp Hm H4 ltac:(elia)). lia. }
    elia.
  - intros Hw. pose proof (div_mul_bounds a (page_bytes p) Hp) as Ha.
    pose proof (div_mul_multiple a (page_bytes p) Hp) as Hm.
    set (k := a / page_bytes p * page_bytes p) in *.
    destruct (interval_in_region l k (k + page_bytes p) Hc ltac:(lia)) as (r & Hr & Hr1 & Hr2).
    { intros b Hb. by apply Hw, same_page. }
    destruct (Extent.aligned_interior r (page_bytes p)) as [i|] eqn:Ei.
    + exists i. split; [apply list_elem_of_omap; by exists r|].
      apply ext_aligned_interior_Some in Ei as (H1 & H2 & H3 & H4); [|done].
      assert (Extent.start i ≤ k).
      { destruct (Z.le_gt_cases (Extent.start i) k) as [|Hgt]; [done|].
        pose proof (multiple_le_of_lt k (Extent.start i) (page_bytes p) Hp Hm H2 ltac:(lia)). elia. }
      assert (k + page_bytes p ≤ Extent.end_ i); [|elia].
      destruct (Z.le_gt_cases (k + page_bytes p) (Extent.end_ i)) as [|Hgt]; [done|].
      assert (Hk : (k + page_bytes p) mod page_bytes p = 0).
      { rewrite Z.add_mod, Hm, Z.mod_same, Z.mod_0_l by lia. done. }
      pose proof (multiple_le_of_lt (Extent.end_ i) (k + page_bytes p) (page_bytes p) Hp H4 Hk ltac:(lia)). elia.
    + exfalso. by eapply (ext_aligned_interior_None r (page_bytes p) k).
Qed.

Lemma interiors_ordered (l : list Extent) :
  canonical l → canonical (omap (λ e, Extent.aligned_interior e (page_bytes p)) l).
Proof.
  intros Hc. pose proof (page_size_pos p) as Hp.
  induction l as [|r l IH]; [constructor|]. apply canonical_cons in Hc as [HG Hc]. cbn.
  destruct (Extent.aligned_interior r (page_bytes p)) as [i|] eqn:Ei; [|by apply IH].
  apply canonical_cons. split; [|by apply IH]. apply Forall_forall. intros j Hj.
  apply list_elem_of_omap in Hj as (r' & Hr' & Hj). rewrite Forall_forall in HG. specialize (HG r' Hr').
  apply ext_aligned_interior_Some in Ei, Hj; [|done..]. unfold gap in *. lia.
Qed.

(** Promotion: the whole pages [W] of the union leave every list and join the
    raw one. *)
Lemma promote_spec (meta raw dead : FreeList) :
  lists_ok [meta; raw; dead] →
  PageLists.promote_whole_free_pages meta raw dead p ⇝ λ '(meta', raw', dead'),
    lists_ok [meta'; raw'; dead'] ∧
    let W := whole_page (free_in [meta; raw; dead]) in
    (∀ a, free_at meta' a ↔ free_at meta a ∧ ¬ W a) ∧
    (∀ a, free_at raw' a ↔ free_at raw a ∨ W a) ∧
    (∀ a, free_at dead' a ↔ free_at dead a ∧ ¬ W a).
Proof.
  intros Hok. pose proof (lists_ok_wf _ Hok) as HF.
  apply Forall_cons in HF as [Hwm HF]. apply Forall_cons in HF as [Hwr HF].
  apply Forall_cons in HF as [Hwd _]. unfold PageLists.promote_whole_free_pages.
  destruct (from_lists_ok _ Hok) as (runs & Hruns & Hwruns & Hsruns).
  destruct (FreeList.from_lists [meta; raw; dead]) as [r|]; [|done]. cbn [mbind outcome_bind] in Hruns |- *.
  rewrite Hruns. cbn [mbind outcome_bind]. pose proof Hwruns as [Hcr _].
  destruct (from_sorted_ok _ (canonical_ordered _ (interiors_ordered _ Hcr)))
    as (r2 & Hr2 & W & -> & HwW & HsW). unfold FileSpacePageSize.get. rewrite Hr2. cbn [mbind outcome_bind expect_ok].
  assert (HW : ∀ a, free_at W a ↔ whole_page (free_in [meta; raw; dead]) a).
  { intros a. unfold free_at. rewrite (HsW a), interiors_whole_pages by done.
    unfold whole_page. change (λ b, mem b (regions runs)) with (free_at runs). by setoid_rewrite Hsruns. }
  assert (Hdec : ∀ a, free_at W a ∨ ¬ free_at W a) by apply free_at_dec.
  destruct (take_ranges_spec meta W Hwm HwW) as (meta' & -> & Hwm' & Hsm').
  destruct (take_ranges_spec raw W Hwr HwW) as (raw1 & -> & Hwr1 & Hsr1).
  destruct (take_ranges_spec dead W Hwd HwW) as (dead' & -> & Hwd' & Hsd').
  cbn [mbind outcome_bind].
  assert (Hok2 : lists_ok [raw1; W]).
  { apply lists_ok_cons. split_and!; [done| |].
    - apply lists_ok_cons. split_and!; [done|apply lists_ok_nil|]. intros a _. rewrite free_in_nil; tauto.
    - intros a [_ Hn]%Hsr1. rewrite free_in_cons, free_in_nil. tauto. }
  destruct (from_lists_ok _ Hok2) as (raw' & Hraw' & Hwr' & Hsr').
  destruct (FreeList.from_lists [raw1; W]) as [r3|]; [|done]. cbn [mbind outcome_bind] in Hraw' |- *.
  rewrite Hraw'. cbn [mbind outcome_bind]. apply returns_ret.
  assert (Hsraw : ∀ a, free_at raw' a ↔ free_at raw a ∨ free_at W a).
  { intros a. rewrite Hsr', free_in_cons, free_in_cons, free_in_nil, Hsr1. destruct (Hdec a); tauto. }
  apply lists_ok_cons in Hok as (_ & Hok & Hd1). apply lists_ok_cons in Hok as (_ & Hok & Hd2).
  cbv zeta. setoid_rewrite <- HW. split; [|by split_and!].
  apply lists_ok_cons. split_and!; [done| |].
  - apply lists_ok_cons. split_and!; [done| |].
    + apply lists_ok_cons. split_and!; [done|apply lists_ok_nil|]. intros a _. rewrite free_in_nil; tauto.
    + intros a Ha. rewrite free_in_cons, free_in_nil. intros [[Hd Hn]%Hsd'|[]].
      apply Hsraw in Ha as [Ha|Ha]; [|done]. apply (Hd2 a Ha). rewrite free_in_cons. tauto.
  - intros a [Hm Hn]%Hsm'. rewrite !free_in_cons, free_in_nil.
    intros [Ha|[[Ha _]%Hsd'|[]]]; apply (Hd1 a Hm); rewrite !free_in_cons; [|tauto].
    apply Hsraw in Ha. tauto.
Qed.

End Pages.

(** ** PAGE allocation and the session invariant *)

Lemma lists_ok_perm (ls ls' : list FreeList) : ls ≡ₚ ls' → lists_ok ls → lists_ok ls'.
Proof.
  induction 1 as [|l ls ls' Hp IH|l1 l2 ls|ls1 ls2 ls3 _ IH1 _ IH2]; [done| | |tauto].
  - rewrite !lists_ok_cons. intros (Hw & Hok & Hd). split_and!; [done|by apply IH|].
    intros a Ha (l' & Hl' & Hf). apply (Hd a Ha). exists l'. by rewrite Hp.
  - rewrite !lists_ok_cons. intros (Hw2 & (Hw1 & Hok & Hd1) & Hd2).
    split_and!; [done..| |].
    + intros a Ha Hf. apply (Hd2 a Ha). rewrite free_in_cons. by right.
    + intros a Ha. rewrite free_in_cons. intros [Hf|Hf]; [|by apply (Hd1 a Ha)].
      apply (Hd2 a Hf). rewrite free_in_cons. by left.
Qed.

(** A list inside a disjoint family may shrink, or grow by addresses no other
    list has. *)
Lemma lists_ok_replace (l l' : FreeList) (ls : list FreeList) :
  lists_ok (l :: ls) → wf l' → (∀ a, free_at l' a → free_at l a ∨ ¬ free_in ls a) →
  lists_ok (l' :: ls).
Proof.
  rewrite !lists_ok_cons. intros (Hw & Hok & Hd) Hw' Hs. split_and!; [done..|].
  intros a Ha Hf. destruct (Hs a Ha) as [Hl|Hn]; [by apply (Hd a Hl)|done].
Qed.

(** ** Taking from the own list, or whole pages from the other *)

(** The list of the requested type and the other one, disjoint from the rest. *)
Section OwnOther.
Context `{Profile}.
Context (p : FileSpacePageSize) (rest : list FreeList).

(** What an allocation from the two lists may do. *)
Definition taken (own other own' other' : FreeList) (x : Extent) : Prop :=
  lists_ok (own' :: other' :: rest) ∧
  (∀ a, inside a x → free_at own a ∨ free_at other a) ∧
  (∀ a, free_at own' a ∨ free_at other' a ↔ (free_at own a ∨ free_at other a) ∧ ¬ inside a x).

Lemma take_own (own other own' : FreeList) (x : Extent) :
  lists_ok (own :: other :: rest) → wf own' → (∀ a, inside a x → free_at own a) →
  (∀ a, free_at own' a ↔ free_at own a ∧ ¬ inside a x) → taken own other own' other x.
Proof.
  intros Hok Hw Hx Hs. split_and!.
  - eapply lists_ok_replace; [exact Hok|done|]. intros a Ha%Hs. tauto.
  - intros a Ha. left. by apply Hx.
  - apply lists_ok_cons in Hok as (_ & _ & Hd). intros a. rewrite Hs.
    assert (inside a x → ¬ free_at other a); [|tauto].
    intros Hi%Hx Ho. apply (Hd a Hi). rewrite free_in_cons. by left.
Qed.

(** Whole pages claimed from the other list: the allocation is a prefix of the
    claim and the remainder joins the own list. *)
Lemma claim_pages (own other other' : FreeList) (claimed x : Extent) :
  lists_ok (own :: other :: rest) → wf other' →
  (∀ a, inside a claimed → free_at other a) →
  (∀ a, free_at other' a ↔ free_at other a ∧ ¬ inside a claimed) →
  Extent.start x = Extent.start claimed → Extent.end_ x ≤ Extent.end_ claimed →
  (match Extent.between (Extent.end_ x) (Extent.end_ claimed) with
   | Some remainder => FreeList.free own remainder
   | None => Ret own
   end) ⇝ λ own', taken own other own' other' x.
Proof.
  intros Hok Hw' Hc Hs Hxs Hxe. pose proof Hok as (Hwo & Hok2 & Hd1)%lists_ok_cons.
  pose proof Hok2 as (Hwt & Hokr & Hd2)%lists_ok_cons.
  assert (Hok' : lists_ok (own :: other' :: rest)).
  { apply (lists_ok_perm (other' :: own :: rest)); [constructor|].
    eapply lists_ok_replace; [|done|intros a Ha%Hs; left; apply Ha].
    eapply lists_ok_perm; [|exact Hok]. constructor. }
  pose proof (ext_bounds x). pose proof (ext_bounds claimed).
  assert (Hsub : ∀ a, inside a x → inside a claimed) by (intros; elia).
  assert (Hown : ∀ a, inside a claimed → ¬ free_at own a).
  { intros a Ha%Hc Ho. apply (Hd1 a Ho). rewrite free_in_cons. by left. }
  destruct (Extent.between _ _) as [r|] eqn:Eb.
  - apply ext_between_Some in Eb. 
    assert (Hr : ∀ a, inside a claimed ↔ inside a x ∨ inside a r) by (intros; elia).
    assert (Hxr : ∀ a, inside a x → ¬ inside a r) by (intros; elia).
    eapply returns_mono.
    { apply free_spec; [done|]. intros _. apply clear_of_mem. intros a Ha Hi. apply (Hown a); [|done]. apply Hr. by right. }
    intros own' [Hwo' Hso']. split_and!.
    + eapply lists_ok_replace; [exact Hok'|done|]. intros a [Ha|Ha]%Hso'; [by left|right].
      rewrite free_in_cons, Hs. intros [[_ Hn]|Hf]; [apply Hn, Hr; by right|].
      apply (Hd2 a); [apply Hc, Hr; by right|done].
    + intros a Ha. right. apply Hc. by apply Hsub.
    + intros a. rewrite Hso', Hs. pose proof (Hr a). pose proof (Hc a). pose proof (Hown a).
      pose proof (Hxr a). pose proof (inside_dec a x) as [?|?]; pose proof (inside_dec a r) as [?|?]; tauto.
  - apply ext_between_None in Eb; [|lia..]. assert (Extent.end_ x = Extent.end_ claimed) by lia.
    assert (Hr : ∀ a, inside a claimed ↔ inside a x) by (intros; elia).
    apply returns_ret. split_and!; [done| |].
    + intros a Ha. right. by apply Hc, Hr.
    + intros a. rewrite Hs, Hr. pose proof (Hr a). pose proof (Hown a). tauto.
Qed.

(** A claimed extent starts on a page boundary and is free in the other list. *)
Lemma claimed_pages (other other' : FreeList) (n : Z) (claimed : Extent) :
  wf other → 0 ≤ n → n mod page_bytes p = 0 →
  FreeList.alloc_whole_units other n (page_bytes p) = Ret (Some claimed, other') →
  wf other' ∧ Extent.len claimed = n ∧ Extent.start claimed mod page_bytes p = 0 ∧
  (∀ a, inside a claimed → free_at other a) ∧
  (∀ a, free_at other' a ↔ free_at other a ∧ ¬ inside a claimed).
Proof.
  intros Hw Hn Hm He. pose proof (page_size_pos p) as Hp.
  pose proof (alloc_whole_units_spec other n (page_bytes p) Hw Hn ltac:(lia) (λ _ _, Hm)) as Hspec.
  rewrite He in Hspec. apply returns_Ret_inv in Hspec as (Hw' & Hlen & _ & _ & (r & i & Hb & Hs & Hxi & Hir) & Hset).
  destruct Hb as (pre & post & Hl & Hi & _). apply ext_aligned_interior_Some in Hi; [|done].
  split_and!; [done|done|rewrite Hs; tauto| |done].
  intros a Ha. exists r. split; [rewrite Hl; apply elem_of_app; right; by left|elia].
Qed.

End OwnOther.

(** ** The session invariant *)

(** The lists in the order of a request's page type. *)
Definition other_lists (e : PagedEdit) : list FreeList := [pe_unclassified e; pe_dead e].

Definition edit_lists (e : PagedEdit) : list FreeList :=
  pe_meta e :: pe_raw e :: other_lists e.

(** Metadata or raw space, which allocation may hand out. *)
Definition reusable (e : PagedEdit) (a : Z) : Prop :=
  free_at (pe_meta e) a ∨ free_at (pe_raw e) a.

(** Disjoint lists, and padding disjoint from itself and from the lists. *)
Definition edit_ok (e : PagedEdit) : Prop :=
  lists_ok (edit_lists e) ∧ all_apart (pe_meta_pad e ++ pe_raw_pad e) ∧
  (∀ a, mem a (pe_meta_pad e ++ pe_raw_pad e) → ¬ free_in (edit_lists e) a).

(** Only the two reusable lists changed. *)
Definition reusable_changed (e e' : PagedEdit) : Prop :=
  e' = PagedEdit.set_lists e (pe_meta e') (pe_raw e') (pe_unclassified e) (pe_dead e).

Lemma own_other_ok (e : PagedEdit) (ty : PageType) (own other : FreeList) :
  PagedEdit.own_other e ty = (own, other) →
  (lists_ok (edit_lists e) ↔ lists_ok (own :: other :: other_lists e)) ∧
  (∀ a, reusable e a ↔ free_at own a ∨ free_at other a).
Proof.
  unfold PagedEdit.own_other, reusable, edit_lists. destruct ty; intros [= <- <-].
  - done.
  - split; [|tauto]. split; apply lists_ok_perm; constructor.
Qed.

Lemma with_own_other_ok (e : PagedEdit) (ty : PageType) (own other own' other' : FreeList) (x : Extent) :
  edit_ok e → PagedEdit.own_other e ty = (own, other) →
  taken (other_lists e) own other own' other' x →
  let e' := PagedEdit.with_own_other e ty own' other' in
  edit_ok e' ∧ reusable_changed e e' ∧
  (∀ a, inside a x → reusable e a) ∧ (∀ a, reusable e' a ↔ reusable e a ∧ ¬ inside a x).
Proof.
  intros (Hok & Hpad & Hpd) Ho (Hok' & Hx & Hs). destruct (own_other_ok e ty own other Ho) as [_ Hreu].
  cbv zeta. set (e' := PagedEdit.with_own_other e ty own' other').
  assert (Ho' : PagedEdit.own_other e' ty = (own', other')) by (unfold e'; by destruct ty).
  destruct (own_other_ok e' ty own' other' Ho') as [Hok2 Hreu2].
  assert (Hother : other_lists e' = other_lists e) by (unfold e'; by destruct ty).
  assert (Hset : ∀ a, reusable e' a ↔ reusable e a ∧ ¬ inside a x).
  { intros a. by rewrite Hreu2, Hreu, Hs. }
  assert (Hfree : ∀ a, free_in (edit_lists e') a → free_in (edit_lists e) a).
  { intros a. unfold edit_lists. rewrite Hother, !free_in_cons. specialize (Hset a). unfold reusable in Hset. tauto. }
  split; [split_and!|split_and!].
  - apply Hok2. by rewrite Hother.
  - unfold e'. by destruct ty.
  - intros a Ha Hf. apply (Hpd a); [|by apply Hfree]. unfold e' in Ha. by destruct ty.
  - unfold reusable_changed, e'. by destruct ty.
  - intros a Ha. by apply Hreu, Hx.
  - done.
Qed.

Lemma with_own_other_same (e : PagedEdit) (ty : PageType) (own other : FreeList) :
  PagedEdit.own_other e ty = (own, other) → PagedEdit.with_own_other e ty own other = e.
Proof. destruct e, ty; simpl; intros [= <- <-]; done. Qed.

Section Allocate.
Context `{Profile}.

(** No region of the own list holds [n] bytes, and no region of the other list
    holds the whole pages they need. *)
Definition no_fit (e : PagedEdit) (ty : PageType) (n : Z) : Prop :=
  let '(own, other) := PagedEdit.own_other e ty in
  (∀ r, r ∈ regions own → Extent.len r < n) ∧
  (∀ r i span, r ∈ regions other → Extent.aligned_interior r (page_bytes (pe_page_size e)) = Some i →
     checked_next_multiple_of n (page_bytes (pe_page_size e)) = Some span → Extent.len i < span).

Lemma span_facts (p : FileSpacePageSize) (n span : Z) :
  0 < n → checked_next_multiple_of n (page_bytes p) = Some span →
  n ≤ span ∧ span mod page_bytes p = 0.
Proof.
  intros Hn Hs. apply checked_next_multiple_of_Some in Hs; [|apply page_size_pos|lia]. lia.
Qed.

Lemma paged_allocate_spec (e : PagedEdit) (n : Z) (ty : PageType) :
  edit_ok e → 0 < n →
  PagedEdit.allocate e n ty ⇝ λ '(o, e'), edit_ok e' ∧
    match o with
    | Some x => Extent.len x = n ∧ reusable_changed e e' ∧ (∀ a, inside a x → reusable e a) ∧
        (∀ a, reusable e' a ↔ reusable e a ∧ ¬ inside a x)
    | None => e' = e ∧ no_fit e ty n
    end.
Proof.
  intros Hok Hn. unfold PagedEdit.allocate, no_fit, FileSpacePageSize.get. pose proof (page_size_pos (pe_page_size e)) as Hp.
  destruct (PagedEdit.own_other e ty) as [own other] eqn:Eo.
  pose proof (with_own_other_same e ty own other Eo) as Hsame.
  destruct (own_other_ok e ty own other Eo) as [Hlo _]. pose proof (proj1 Hlo (proj1 Hok)) as Hl.
  pose proof Hl as (Hwo & (Hwt & _ & _)%lists_ok_cons & _)%lists_ok_cons.
  destruct (alloc_spec own n Hwo ltac:(lia)) as ([o own'] & -> & Hwo' & Ho). cbn [mbind outcome_bind].
  destruct o as [x|].
  { destruct Ho as (Hlen & _ & (r & (pre & post & Hr & _ & Hle & _) & Hxs) & Hset). apply returns_ret.
    edestruct (with_own_other_ok e ty own other own' other x) as (? & ? & ? & ?); [done|done| |by split_and!].
    apply take_own; [done|done| |done]. intros a Ha. exists r.
    split; [rewrite Hr; apply elem_of_app; right; by left|elia]. }
  destruct Ho as [-> [?|Hno]]; [lia|].
  destruct (checked_next_multiple_of n _) as [span|] eqn:Es.
  2:{ apply returns_ret. rewrite Hsame. split_and!; [done..|]. intros r i s _ _. done. }
  destruct (span_facts _ _ _ Hn Es) as [Hsp Hmod].
  destruct (alloc_whole_units_spec other span (page_bytes (pe_page_size e)) Hwt) as ([claimed other'] & Hal & Hwt' & Hcl);
    [lia|lia|done|]. rewrite Hal. cbn [mbind outcome_bind].
  destruct claimed as [claimed|].
  2:{ destruct Hcl as [-> Hcl]. apply returns_ret. rewrite Hsame. split_and!; [done..|].
      intros r i s Hr Hi [= <-]. destruct Hcl as [?|[?|Hcl]]; [lia..|]. by apply (Hcl r). }
  destruct (claimed_pages (pe_page_size e) other other' span claimed Hwt ltac:(lia) Hmod Hal)
    as (_ & Hclen & _ & Hcfree & Hcset).
  pose proof (ext_bounds claimed) as Bc.
  destruct (ext_new_ex (Extent.start claimed) n) as (x & Hx & Hx1 & Hx2); [lia..|].
  pose proof (claim_pages (other_lists e) own other other' claimed x Hl Hwt' Hcfree Hcset Hx1 ltac:(lia)) as Hclaim.
  assert (Hlenx : Extent.len x = n) by elia.
  destruct (span =? n) eqn:Esn.
  - apply returns_ret. assert (claimed = x) as -> by (apply ext_eq; lia).
    assert (Extent.between (Extent.end_ x) (Extent.end_ x) = None) as Hb by (apply ext_between_None; lia).
    rewrite Hb in Hclaim. apply returns_Ret_inv in Hclaim.
    destruct (with_own_other_ok e ty own other own other' x Hok Eo Hclaim) as (? & ? & ? & ?). by split_and!.
  - apply (step_expect _ x); [done|].
    destruct (ext_new_ex (Extent.end_ x) (span - n)) as (r & Hr & Hr1 & Hr2); [lia..|].
    apply (step_expect _ r); [done|].
    assert (Extent.between (Extent.end_ x) (Extent.end_ claimed) = Some r) as Hb
      by (apply ext_between_Some; lia).
    rewrite Hb in Hclaim. eapply returns_bind; [exact Hclaim|]. intros own' Htaken. apply returns_ret.
    destruct (with_own_other_ok e ty own other own' other' x Hok Eo Htaken) as (? & ? & ? & ?). by split_and!.
Qed.

Lemma paged_allocate_block_spec (e : PagedEdit) (r : ReservationRequest) :
  edit_ok e → 0 < request_size r →
  PagedEdit.allocate_block e r ⇝ λ '(o, e'), edit_ok e' ∧
    match o with
    | Some x => Extent.len x = request_size r ∧ legal_start r (Some (pe_page_size e)) (Extent.start x) ∧
        reusable_changed e e' ∧ (∀ a, inside a x → reusable e a) ∧
        (∀ a, reusable e' a ↔ reusable e a ∧ ¬ inside a x)
    | None => e' = e
    end.
Proof.
  intros Hok Hn. unfold PagedEdit.allocate_block, FileSpacePageSize.get.
  pose proof (page_size_pos (pe_page_size e)) as Hp. set (ty := request_page_type r).
  destruct (PagedEdit.own_other e ty) as [own other] eqn:Eo.
  pose proof (with_own_other_same e ty own other Eo) as Hsame.
  destruct (own_other_ok e ty own other Eo) as [Hlo _]. pose proof (proj1 Hlo (proj1 Hok)) as Hl.
  pose proof Hl as (Hwo & (Hwt & _ & _)%lists_ok_cons & _)%lists_ok_cons.
  destruct (alloc_block_spec own r (pe_page_size e) Hwo Hn) as ([o own'] & -> & Hwo' & Ho). cbn [mbind outcome_bind].
  destruct o as [x|].
  { destruct Ho as (Hlen & Hleg & Hfree & Hset & _). apply returns_ret.
    edestruct (with_own_other_ok e ty own other own' other x) as (? & ? & ? & ?); [done|done| |by split_and!].
    by apply take_own. }
  destruct Ho as [-> _].
  destruct (checked_next_multiple_of (request_size r) _) as [span|] eqn:Es.
  2:{ apply returns_ret. by rewrite Hsame. }
  destruct (span_facts _ _ _ Hn Es) as [Hsp Hmod].
  destruct (alloc_whole_units_spec other span (page_bytes (pe_page_size e)) Hwt) as ([claimed other'] & Hal & Hwt' & Hcl);
    [lia|lia|done|]. rewrite Hal. cbn [mbind outcome_bind].
  destruct claimed as [claimed|].
  2:{ destruct Hcl as [-> _]. apply returns_ret. by rewrite Hsame. }
  destruct (claimed_pages (pe_page_size e) other other' span claimed Hwt ltac:(lia) Hmod Hal)
    as (_ & Hclen & Hcal & Hcfree & Hcset).
  pose proof (ext_bounds claimed) as Bc.
  assert (Hplaced : ReservationRequest.placed_start r (Extent.start claimed) (Some (pe_page_size e)) = Ok (Extent.start claimed)).
  { unfold ReservationRequest.placed_start, FileSpacePageSize.get.
    destruct (ReservationRequest.is_block r); [by rewrite Hcal|done]. }
  destruct (placed_start_spec r (Extent.start claimed) _ _ ltac:(lia) Hn Hplaced) as (_ & Hleg & _).
  destruct (ext_new_ex (Extent.start claimed) (request_size r)) as (x & Hx & Hx1 & Hx2); [lia..|].
  apply (step_expect_ok _ (mkPlacement r x)).
  { unfold ReservationRequest.place_after. rewrite Hplaced. simpl. by rewrite Hx. }
  cbn [placement_extent]. assert (Hlenx : Extent.len x = request_size r) by elia.
  eapply returns_bind.
  { apply (claim_pages (other_lists e) own other other' claimed x); [done..|lia]. }
  intros own' Htaken. apply returns_ret.
  destruct (with_own_other_ok e ty own other own' other' x Hok Eo Htaken) as (? & ? & ? & ?).
  split_and!; [done|done|by rewrite Hx1|done..].
Qed.

End Allocate.

(** ** PAGE padding: planning, recording and merging

    Padding fills a page when the allocation type changes at the end of the
    file.  The lemmas show what is planned, that recording it keeps the session
    invariant, and that merging it into the lists frees exactly the padding. *)

(** ** Planning *)

(** The padding of an end of allocation inside a page: it starts there and ends
    at the next page boundary. *)
Definition pads_page (p : FileSpacePageSize) (eoa : Z) (x : Extent) : Prop :=
  Extent.start x = eoa ∧ Extent.end_ x mod page_bytes p = 0 ∧ Extent.len x < page_bytes p.

(** The distance to the next boundary. *)
Lemma pad_extent (p : FileSpacePageSize) (eoa : Z) (x : Extent) :
  0 ≤ eoa → eoa mod page_bytes p ≠ 0 →
  Extent.new eoa (page_bytes p - eoa mod page_bytes p) = Some x ↔ pads_page p eoa x.
Proof.
  intros He Hm. pose proof (page_size_pos p) as HP. pose proof (Z.mod_pos_bound eoa _ HP) as Hb.
  pose proof (Z.div_mod eoa (page_bytes p) ltac:(lia)) as Hd. pose proof (ext_bounds x) as Bx.
  rewrite ext_new_Some. unfold pads_page. split.
  - intros [Hs Hl]. split_and!; [done| |lia].
    replace (Extent.end_ x) with ((eoa / page_bytes p + 1) * page_bytes p) by lia. apply Z.mod_mul. lia.
  - intros (Hs & He2 & Hl). split; [done|]. apply Z.mod_divide in He2 as [k Hk]; [|lia].
    assert (eoa / page_bytes p < k) by (apply (Z.mul_lt_mono_pos_r (page_bytes p)); lia).
    assert (k < eoa / page_bytes p + 2) by (apply (Z.mul_lt_mono_pos_r (page_bytes p)); lia).
    assert (k = eoa / page_bytes p + 1) as -> by lia. lia.
Qed.

Lemma pad_new_None (p : FileSpacePageSize) (eoa : Z) :
  0 ≤ eoa → eoa mod page_bytes p ≠ 0 →
  Extent.new eoa (page_bytes p - eoa mod page_bytes p) = None →
  ∀ x, ¬ pads_page p eoa x.
Proof. intros He Hm HN x Hx. apply pad_extent in Hx; [congruence|done..]. Qed.

Lemma plan_transition_spec (e : PagedEdit) (eoa : Z) (ty : PageType) :
  0 ≤ eoa →
  match PagedEdit.plan_transition e eoa ty with
  | Ok Unchanged => eoa mod page_bytes (pe_page_size e) = 0 ∨ pe_last e = Some ty
  | Ok (Pad x track_as) => pe_last e ≠ Some ty ∧ track_as = pe_last e ∧ pads_page (pe_page_size e) eoa x
  | Err err => err = OffsetOverflow eoa (page_bytes (pe_page_size e) - eoa mod page_bytes (pe_page_size e)) ∧
      ∀ x, ¬ pads_page (pe_page_size e) eoa x
  end.
Proof.
  intros He. unfold PagedEdit.plan_transition, FileSpacePageSize.get.
  destruct (eoa mod _ =? 0) eqn:E; simpl; [left; lia|]. case_bool_decide as Hl; simpl; [by right|].
  destruct (Extent.new _ _) as [x|] eqn:Ex; simpl.
  - split_and!; [done|done|]. by apply pad_extent; [|lia|].
  - split; [done|]. apply pad_new_None; [done|lia|done].
Qed.

(** Recording padding outside the free space keeps the session invariant. *)
Lemma record_transition_ok (e : PagedEdit) (ty : PageType) (t : PageTransition) :
  edit_ok e →
  match t with
  | Pad x (Some _) => ∀ a, inside a x → ¬ free_in (edit_lists e) a ∧ ¬ mem a (pe_meta_pad e ++ pe_raw_pad e)
  | _ => True
  end →
  edit_ok (PagedEdit.record_transition e ty t).
Proof.
  intros (Hl & Hpad & Hd) Ht. destruct t as [x track|]; [|done]. destruct track as [k|]; [|done].
  assert (Hap : all_apart (x :: pe_meta_pad e ++ pe_raw_pad e)).
  { apply all_apart_cons. split; [|done]. apply clear_of_mem. intros a Ha Hi. by apply (Ht a Hi). }
  assert (Hperm : pe_meta_pad (PagedEdit.record_transition e ty (Pad x (Some k)))
      ++ pe_raw_pad (PagedEdit.record_transition e ty (Pad x (Some k)))
      ≡ₚ x :: pe_meta_pad e ++ pe_raw_pad e).
  { destruct k; simpl.
    - rewrite <- app_assoc. symmetry. apply Permutation_middle.
    - rewrite app_assoc. symmetry. apply Permutation_cons_append. }
  assert (Hlists : edit_lists (PagedEdit.record_transition e ty (Pad x (Some k))) = edit_lists e) by by destruct k.
  split_and!; [by rewrite Hlists|eapply all_apart_perm; [symmetry; exact Hperm|done]|].
  intros a (f & Hf & Hi). rewrite Hlists. rewrite Hperm in Hf. apply elem_of_cons in Hf as [->|Hf]; [by apply Ht|].
  apply Hd. by exists f.
Qed.

(** ** Merging padding into a list *)

Lemma with_padding_spec `{Profile} (l : FreeList) (padding : list Extent) :
  wf l → returnable l padding →
  PagedEdit.with_padding l padding ⇝ λ l', wf l' ∧ ∀ a, free_at l' a ↔ free_at l a ∨ mem a padding.
Proof.
  intros Hw [Hap Hcl]. unfold PagedEdit.with_padding. destruct padding as [|x [|y padding]].
  - apply returns_ret. split; [done|]. intros a. rewrite mem_nil. tauto.
  - apply Forall_cons in Hcl as [Hcl _]. eapply returns_mono; [by apply free_spec|].
    intros l' [Hw' Hs]. split; [done|]. intros a. by rewrite mem_singleton.
  - set (P := x :: y :: padding) in *. pose proof (ordered_returns_spec ((λ e, (e, tt)) <$> P)) as Ho.
    assert (HP : ((λ e, (e, tt)) <$> P).*1 = P) by (rewrite <- list_fmap_compose; apply list_fmap_id).
    destruct (OrderedReturns.new _) as [l2|err]; [|by rewrite HP in Ho]. destruct Ho as [Hperm Hord].
    cbn [expect_ok mbind outcome_bind].
    assert (Hperm2 : l2.*1 ≡ₚ P) by (rewrite <- HP; by apply fmap_Permutation).
    destruct (from_sorted_ok _ Hord) as (r & -> & pl & -> & Hwp & Hsp). cbn [expect_ok mbind outcome_bind].
    assert (Hset : ∀ a, free_at pl a ↔ mem a P).
    { intros a. unfold free_at. rewrite Hsp. unfold mem. by setoid_rewrite Hperm2. }
    eapply returns_mono; [apply (from_lists_ok [l; pl])|].
    + apply lists_ok_cons. split_and!; [done|apply lists_ok_cons; split_and!; [done|apply lists_ok_nil|]|].
      * intros a _. rewrite free_in_nil. tauto.
      * intros a Ha. rewrite free_in_cons, free_in_nil, Hset. intros [(f & Hf & Hi)|[]].
        rewrite Forall_forall in Hcl. specialize (Hcl f Hf). rewrite clear_of_mem in Hcl. by apply (Hcl a Ha).
    + intros l' [Hw' Hs]. split; [done|]. intros a. rewrite Hs, !free_in_cons, free_in_nil, Hset. tauto.
Qed.

(** ** Padding inside a planned allocation *)

Lemma overlaps_free_true (l : FreeList) (x : Extent) :
  canonical (regions l) →
  PagedTail.overlaps_free l x = true ↔ ∃ a, inside a x ∧ free_at l a.
Proof.
  intros Hc. unfold PagedTail.overlaps_free, free_at.
  destruct (skip_canonical (Extent.start x) (regions l) Hc) as [Hc2 Hf2].
  assert (Hm : ∀ a, inside a x → mem a (regions l) ↔
    mem a (span (λ f, Extent.end_ f <=? Extent.start x) (regions l)).2).
  { intros a Ha. symmetry. apply skip_mem. elia. }
  destruct (span _ _).2 as [|f rest].
  { split; [done|]. intros (a & Ha & Hmem). apply (Hm a Ha), mem_nil in Hmem. done. }
  apply Forall_cons in Hf2 as [Hend _]. split.
  - intros Hlt%Z.ltb_lt. exists (Z.max (Extent.start f) (Extent.start x)). split; [elia|].
    apply Hm; [elia|]. apply mem_cons. left. elia.
  - intros (a & Ha & Hmem). apply (Hm a Ha) in Hmem. apply mem_cons in Hmem as [Hin|Hin]; [apply Z.ltb_lt; elia|].
    pose proof (canonical_mem_lower f rest a Hc2 Hin). apply Z.ltb_lt. elia.
Qed.

(** The padding lies in the allocation and meets no free space. *)
Definition padding_fits (allocation : Extent) (ls : list FreeList) (padding : list Extent) : Prop :=
  ∀ a, mem a padding → inside a allocation ∧ ¬ free_in ls a.

Lemma within_inside (x y : Extent) : (∀ a, inside a x → inside a y) ↔ within x y.
Proof.
  split; [|intros Hw a Ha; elia]. intros Hin. pose proof (ext_bounds x).
  pose proof (Hin (Extent.start x) ltac:(elia)). pose proof (Hin (Extent.end_ x - 1) ltac:(elia)). elia.
Qed.

Lemma check_padding_spec (allocation : Extent) (ls : list FreeList) (padding : list Extent) :
  Forall wf ls →
  match PagedTail.check_padding allocation ls padding with
  | Ok _ => padding_fits allocation ls padding
  | Err _ => ¬ padding_fits allocation ls padding
  end.
Proof.
  intros Hw. induction padding as [|x padding IH]; simpl.
  { intros a Ha. by apply mem_nil in Ha. }
  unfold AddressRange.contains. simpl. destruct (_ && _) eqn:Ec; simpl.
  2:{ intros Hfit. assert (within x allocation); [|elia].
      apply within_inside. intros a Ha. apply (Hfit a). apply mem_cons. by left. }
  destruct (existsb _ ls) eqn:Eo.
  - apply existsb_exists in Eo as (l & Hl%list_elem_of_In & Ho). rewrite Forall_forall in Hw.
    apply overlaps_free_true in Ho as (a & Ha & Hf); [|by apply Hw]. intros Hfit.
    apply (Hfit a); [apply mem_cons; by left|]. by exists l.
  - assert (Hx : ∀ a, inside a x → inside a allocation ∧ ¬ free_in ls a).
    { intros a Ha. split; [elia|]. intros (l & Hl & Hf).
      assert (existsb (λ l, PagedTail.overlaps_free l x) ls = true); [|congruence].
      apply existsb_exists. exists l. split; [by apply list_elem_of_In|].
      rewrite Forall_forall in Hw. apply overlaps_free_true; [by apply Hw|eauto]. }
    destruct (PagedTail.check_padding _ _ _) as [u|err].
    + intros a Ha. apply mem_cons in Ha as [Ha|Ha]; [by apply Hx|by apply IH].
    + intros Hfit. apply IH. intros a Ha. apply (Hfit a). apply mem_cons. by right.
Qed.

(** The four lists of a post-free state. *)
Definition post_lists (post : PagedPostFree) : list FreeList :=
  [pf_meta post; pf_raw post; pf_dead post; pf_unclassified post].

Lemma promote_post (post : PagedPostFree) (meta : FreeList) :
  lists_ok [meta; pf_raw post; pf_dead post; pf_unclassified post] →
  PageLists.promote_whole_free_pages meta (pf_raw post) (pf_dead post) (pf_page_size post) ⇝ λ l,
    lists_ok (post_lists (PagedPostFree.with_lists post l)) ∧
    ∀ a, free_in (post_lists (PagedPostFree.with_lists post l)) a ↔
         free_in [meta; pf_raw post; pf_dead post; pf_unclassified post] a.
Proof.
  intros Hok.
  assert (Hrot : lists_ok (pf_unclassified post :: [meta; pf_raw post; pf_dead post])).
  { eapply lists_ok_perm; [|exact Hok]. apply (Permutation_app_comm [meta; pf_raw post; pf_dead post] [_]). }
  apply lists_ok_cons in Hrot as (Hwu & Hok3 & Hdis).
  eapply returns_mono; [by apply promote_spec|]. intros [[m r] d] (Hok' & Hm & Hr & Hd).
  assert (Hset : ∀ a, free_in [m; r; d] a ↔ free_in [meta; pf_raw post; pf_dead post] a).
  { intros a. pose proof (whole_page_self (pf_page_size post)
      (free_in [meta; pf_raw post; pf_dead post]) a) as Hself. revert Hself.
    rewrite !free_in_cons, !free_in_nil, Hm, Hr, Hd.
    destruct (free_at_dec meta a), (free_at_dec (pf_dead post) a), (free_at_dec (pf_raw post) a); try tauto.
    - assert (Hdec : free_at r a ∨ ¬ free_at r a) by apply free_at_dec. rewrite Hr in Hdec. tauto.
    - assert (Hdec : free_at r a ∨ ¬ free_at r a) by apply free_at_dec. rewrite Hr in Hdec. tauto.
    - assert (Hdec : free_at r a ∨ ¬ free_at r a) by apply free_at_dec. rewrite Hr in Hdec. tauto. }
  unfold post_lists. simpl. split.
  - eapply lists_ok_perm; [symmetry; apply (Permutation_app_comm [m; r; d] [pf_unclassified post])|].
    apply lists_ok_cons. split_and!; [done|done|]. intros a Ha Hf. apply (Hdis a Ha). by apply Hset.
  - intros a. specialize (Hset a). rewrite !free_in_cons, !free_in_nil in *. tauto.
Qed.

Lemma with_metadata_padding_spec (t : PagedTail) (padding : list Extent) :
  padding ≠ [] → lists_ok (post_lists (tail_post t)) →
  let valid := ordered padding ∧ padding_fits (tail_allocation t) (post_lists (tail_post t)) padding in
  PagedTail.with_metadata_padding t padding ⇝ λ r,
  match r with
  | Err _ => ¬ valid
  | Ok t' => valid ∧ lists_ok (post_lists (tail_post t')) ∧
      (∀ a, free_in (post_lists (tail_post t')) a ↔ free_in (post_lists (tail_post t)) a ∨ mem a padding) ∧
      tail_allocation t' = tail_allocation t ∧ tail_final_eoa t' = tail_final_eoa t ∧
      tail_appended t' = tail_appended t ∧ tail_request t' = tail_request t
  end.
Proof.
  intros Hne Hok. cbv zeta. unfold PagedTail.with_metadata_padding.
  destruct padding as [|x padding]; [done|]. set (pad := x :: padding) in *. clearbody pad. clear Hne x padding.
  set (post := tail_post t) in *.
  destruct (ordered_or_violation pad) as [Hord|(pre & p & n & rest & -> & Ho & Hlt)].
  2:{ rewrite (from_sorted_err _ _ _ _ Ho Hlt). cbn [mbind outcome_bind]. apply returns_ret. intros [Hord _].
      apply ordered_app in Hord as (_ & Hord & _). apply ordered_cons in Hord as [Hp _].
      apply Forall_cons in Hp as [Hp _]. unfold before in Hp. lia. }
  destruct (from_sorted_ok pad Hord) as (r & -> & pl & -> & Hwp & Hsp). cbn [mbind outcome_bind].
  assert (Hset : ∀ a, free_at pl a ↔ mem a pad) by (intros a; apply Hsp).
  pose proof (check_padding_spec (tail_allocation t) (post_lists post) (regions pl) (lists_ok_wf _ Hok)) as Hchk.
  fold (post_lists post). destruct (PagedTail.check_padding _ _ _) as [u|err]; simpl.
  2:{ apply returns_ret. intros [_ Hfit]. apply Hchk. intros a Ha. apply Hfit. by apply Hset. }
  assert (Hfit : padding_fits (tail_allocation t) (post_lists post) pad) by (intros a Ha; by apply Hchk, Hset).
  pose proof Hok as (Hwm & Hrest & Hdis)%lists_ok_cons.
  assert (Hpair : lists_ok [pf_meta post; pl]).
  { apply lists_ok_cons. split_and!; [done|apply lists_ok_cons; split_and!; [done|apply lists_ok_nil|]|].
    - intros a _. rewrite free_in_nil. tauto.
    - intros a Ha. rewrite free_in_cons, free_in_nil, Hset. intros [Hp|[]]. apply (Hfit a Hp).
      unfold post_lists. rewrite free_in_cons. by left. }
  destruct (from_lists_spec [pf_meta post; pl] (lists_ok_wf _ Hpair) (proj2 Hpair)) as (r & -> & meta & -> & Hwm' & Hsm).
  cbn [mbind outcome_bind].
  assert (Hmeta : ∀ a, free_at meta a ↔ free_at (pf_meta post) a ∨ mem a pad).
  { intros a. rewrite Hsm. change (free_in [pf_meta post; pl] a ↔ free_at (pf_meta post) a ∨ mem a pad).
    rewrite !free_in_cons, free_in_nil, Hset. tauto. }
  assert (Hok2 : lists_ok [meta; pf_raw post; pf_dead post; pf_unclassified post]).
  { eapply lists_ok_replace; [exact Hok|done|]. intros a [Ha|Ha]%Hmeta; [by left|right].
    intros Hf. apply (Hfit a Ha). unfold post_lists. rewrite free_in_cons. by right. }
  eapply returns_bind; [by apply promote_post|]. intros l [Hl Hs]. apply returns_ret.
  cbn [tail_post tail_allocation tail_final_eoa tail_appended tail_request].
  split_and!; try done. intros a. rewrite Hs, free_in_cons, Hmeta. unfold post_lists. rewrite (free_in_cons (pf_meta post)).
  tauto.
Qed.
