(* ===== verification/PageAdmissionFacts.v ===== *)
(** * Page admission: merging and the class indexes

    Whether an extent merges into paged free space is expressed on the sets of
    free addresses ([page_joins]); the two implementations of the test, the scan
    over the lists and the index lookup, both decide it.  An insertion into a
    class index keeps it canonical and returns the run the extent joined. *)

From S2P Require Import Prelude Addresses Extents Regions Requests FreeLists FreeListFacts.
From S2P Require Import FreeListMerge Admission AdmissionLaws AdmissionSweep Persistence StartMap.
From S2P Require Import IndexedFacts Paged PagedFacts.

Local Open Scope Z_scope.

Section Joins.
Context (p : FileSpacePageSize).
Let P := page_bytes p.

(** A fragment merges at a point inside a page; whole pages merge at a page
    boundary with a run of at least a page, or with unclassified space. *)
Definition page_joins (S_ : FreeClass → Z → Prop) (U : Z → Prop) (e : Extent) : Prop :=
  if Extent.len e <? P then
    ∃ c, (S_ c (Extent.start e - 1) ∧ Extent.start e mod P ≠ 0) ∨
         (S_ c (Extent.end_ e) ∧ Extent.end_ e mod P ≠ 0)
  else
    (∃ c, ((∀ b, Extent.start e - P ≤ b < Extent.start e → S_ c b) ∧ Extent.start e mod P = 0) ∨
          ((∀ b, Extent.end_ e ≤ b < Extent.end_ e + P → S_ c b) ∧ Extent.end_ e mod P = 0)) ∨
    U (Extent.start e - 1) ∨ U (Extent.end_ e).

Lemma page_joins_mono (S1 S2 : FreeClass → Z → Prop) (U : Z → Prop) (e : Extent) :
  (∀ c a, S1 c a → S2 c a) → page_joins S1 U e → page_joins S2 U e.
Proof.
  intros Hm. unfold page_joins. destruct (_ <? _).
  - intros (c & [[? ?]|[? ?]]); exists c; [left|right]; auto.
  - intros [(c & [[? ?]|[? ?]])|?]; [left; exists c; left; auto|left; exists c; right; auto|by right].
Qed.

Lemma multiple_test (a : Z) : is_multiple_of a P = (a mod P =? 0).
Proof.
  pose proof (page_size_pos p) as HP. fold P in HP. unfold is_multiple_of. destruct (P =? 0) eqn:E; [lia|done].
Qed.

(** ** One list *)

Section OneList.
Context (l : list Extent) (e : Extent).
Hypothesis Hc : canonical l.
Hypothesis Hcl : clear_of e l.

(** The region that covers an address next to the extent ends or starts there. *)
Lemma touching_below (r : Extent) : r ∈ l → inside (Extent.start e - 1) r → Extent.end_ r = Extent.start e.
Proof.
  intros Hr Hi. unfold clear_of in Hcl. rewrite Forall_forall in Hcl. specialize (Hcl r Hr). elia.
Qed.

Lemma touching_above (r : Extent) : r ∈ l → inside (Extent.end_ e) r → Extent.start r = Extent.end_ e.
Proof.
  intros Hr Hi. unfold clear_of in Hcl. rewrite Forall_forall in Hcl. specialize (Hcl r Hr). elia.
Qed.

Lemma within_test :
  existsb (λ r, Extent.adjoins_within r e P) l = true ↔
  (mem (Extent.start e - 1) l ∧ Extent.start e mod P ≠ 0) ∨ (mem (Extent.end_ e) l ∧ Extent.end_ e mod P ≠ 0).
Proof.
  rewrite existsb_exists. unfold Extent.adjoins_within. setoid_rewrite multiple_test. split.
  - intros (r & Hr%list_elem_of_In & Ha). apply orb_true_iff in Ha as [Ha|Ha]; [left|right];
      (split; [exists r; split; [done|elia]|lia]).
  - intros [[(r & Hr & Hi) Hm]|[(r & Hr & Hi) Hm]]; exists r; (split; [by apply list_elem_of_In|]).
    + pose proof (touching_below r Hr Hi). lia.
    + pose proof (touching_above r Hr Hi). lia.
Qed.

Lemma whole_unit_test :
  existsb (λ r, Extent.adjoins_whole_unit r e P) l = true ↔
  ((∀ b, Extent.start e - P ≤ b < Extent.start e → mem b l) ∧ Extent.start e mod P = 0) ∨
  ((∀ b, Extent.end_ e ≤ b < Extent.end_ e + P → mem b l) ∧ Extent.end_ e mod P = 0).
Proof.
  pose proof (page_size_pos p) as HP. fold P in HP.
  rewrite existsb_exists. unfold Extent.adjoins_whole_unit. setoid_rewrite multiple_test. split.
  - intros (r & Hr%list_elem_of_In & Ha). apply andb_true_iff in Ha as [Hl Ha].
    apply orb_true_iff in Ha as [Ha|Ha]; [left|right]; (split; [|lia]); intros b Hb; exists r; (split; [done|elia]).
  - intros [[Hall Hm]|[Hall Hm]].
    + destruct (interval_in_region l (Extent.start e - P) (Extent.start e) Hc) as (r & Hr & H1 & H2); [lia|done|].
      exists r. split; [by apply list_elem_of_In|]. pose proof (touching_below r Hr ltac:(elia)). elia.
    + destruct (interval_in_region l (Extent.end_ e) (Extent.end_ e + P) Hc) as (r & Hr & H1 & H2); [lia|done|].
      exists r. split; [by apply list_elem_of_In|]. pose proof (touching_above r Hr ltac:(elia)). elia.
Qed.

(** The index looks only at the neighbours. *)
Lemma class_merges_scan :
  ClassIndex.merges l e p =
  existsb (λ r, if Extent.len e <? P then Extent.adjoins_within r e P else Extent.adjoins_whole_unit r e P) l.
Proof.
  unfold ClassIndex.merges, FileSpacePageSize.get. fold P.
  destruct (around l e Hc Hcl) as (lo & hi & Hl & Hlo & Hhi & Hb & Hf). unfold StartMap.prev.
  apply eq_true_iff_eq. rewrite !existsb_exists. split.
  - intros (r & Hr%list_elem_of_In & Ht). exists r. split; [|done]. apply list_elem_of_In.
    apply elem_of_app in Hr as [Hr|Hr].
    + rewrite Hb in Hr. destruct (last lo) as [r'|] eqn:El; [|by apply not_elem_of_nil in Hr].
      apply list_elem_of_singleton in Hr as ->.
      apply last_Some in El as [lo' ->]. rewrite Hl. apply elem_of_app. left. apply elem_of_app. right. by left.
    + destruct (StartMap.get (Extent.end_ e) l) as [r'|] eqn:Eg; [|by apply not_elem_of_nil in Hr].
      apply list_elem_of_singleton in Hr as ->. by apply startmap_get_Some in Eg as [? _].
  - intros (r & Hr%list_elem_of_In & Ht). exists r. split; [|done]. apply list_elem_of_In.
    assert (Htouch : Extent.end_ r = Extent.start e ∨ Extent.start r = Extent.end_ e).
    { unfold Extent.adjoins_within, Extent.adjoins_whole_unit in Ht. destruct (_ <? _); lia. }
    destruct Htouch as [Ht'|Ht'].
    + apply elem_of_app. left. rewrite Hb. rewrite Hl in Hr. apply elem_of_app in Hr as [Hr|Hr].
      2:{ rewrite Forall_forall in Hhi. specialize (Hhi r Hr). elia. }
      destruct (last lo) as [r'|] eqn:El; [|apply last_None in El; rewrite El in Hr; by apply not_elem_of_nil in Hr].
      apply list_elem_of_singleton. apply last_Some in El as [lo' ->].
      apply elem_of_app in Hr as [Hr|Hr]; [|by apply list_elem_of_singleton in Hr].
      exfalso. rewrite Hl in Hc. apply canonical_app in Hc as (Hc1 & _ & _).
      apply canonical_app in Hc1 as (_ & _ & Hg). specialize (Hg r r' Hr ltac:(by left)). unfold gap in Hg.
      apply Forall_app in Hlo as [_ Hlo]. apply Forall_cons in Hlo as [Hlo _]. elia.
    + apply elem_of_app. right. rewrite <- Ht', (startmap_get_elem l r Hc Hr). by left.
Qed.

End OneList.
End Joins.

(** ** Insertion into a class index *)

Section Insert.

(** The merged run starts at [s']. *)
Lemma class_join_below (lo hi : list Extent) (s : Z) :
  canonical (lo ++ hi) → 0 ≤ s → Forall (λ r, Extent.end_ r ≤ s) lo → Forall (λ r, s ≤ Extent.start r) hi →
  (match StartMap.prev s (lo ++ hi) with
   | Some previous =>
     _ ← assert_ (Extent.end_ previous <=? s);
     Ret (if Extent.end_ previous =? s
          then (Extent.start previous, StartMap.remove (Extent.start previous) (lo ++ hi))
          else (s, lo ++ hi))
   | None => Ret (s, lo ++ hi)
   end) ⇝ λ '(s', l'), ∃ lo', l' = lo' ++ hi ∧ canonical (lo' ++ hi) ∧ 0 ≤ s' ≤ s ∧
     Forall (λ r, Extent.end_ r < s') lo' ∧ (∀ a, mem a lo ↔ mem a lo' ∨ s' ≤ a < s).
Proof.
  intros Hc Hs Hlo Hhi.
  assert (StartMap.prev s (lo ++ hi) = last lo) as ->.
  { unfold StartMap.prev. f_equal. apply startmap_split; [|done].
    eapply Forall_impl; [exact Hlo|]. simpl. intros; elia. }
  destruct (last lo) as [r|] eqn:El.
  2:{ apply last_None in El as ->. apply returns_ret. exists []. split_and!; [done|done|lia|lia|constructor|].
      intros a. rewrite mem_nil. lia. }
  apply last_Some in El as [lo' ->]. apply Forall_app in Hlo as [Hlo Hlr].
  rewrite Forall_singleton in Hlr. rewrite <- app_assoc in Hc |- *. simpl in Hc |- *.
  pose proof (canonical_app lo' (r :: hi)) as [(Hc1 & Hc2 & Hx) _]; [done|].
  apply step_assert; [lia|]. pose proof (ext_bounds r) as Br. apply returns_ret.
  destruct (Extent.end_ r =? s) eqn:E.
  - rewrite startmap_remove by done. exists lo'. split_and!; [done| |lia|lia| |].
    + apply canonical_app. split_and!; [done|by apply canonical_cons in Hc2 as [_ ?]|].
      intros x y Hxin Hy. apply Hx; [done|by right].
    + apply Forall_forall. intros x Hxin. apply Hx; [done|by left].
    + intros a. rewrite mem_app, mem_singleton.
      assert (inside a r ↔ Extent.start r ≤ a < s) by elia. tauto.
  - exists (lo' ++ [r]). rewrite <- app_assoc. simpl. split_and!; [done|done|lia|lia| |].
    + apply Forall_app. split; [|constructor; [lia|constructor]].
      apply Forall_forall. intros x Hxin. specialize (Hx x r Hxin ltac:(by left)). unfold gap in Hx. lia.
    + intros a. split; [tauto|]. intros [?|?]; [done|lia].
Qed.

(** The merged run ends at [t']. *)
Lemma class_join_above (lo hi : list Extent) (s t : Z) :
  canonical (lo ++ hi) → Forall (λ r, Extent.end_ r < s) lo → Forall (λ r, t ≤ Extent.start r) hi →
  s < t → t ≤ U64_MAX →
  (match StartMap.next s (lo ++ hi) with
   | Some next =>
     _ ← assert_ (t <=? Extent.start next);
     Ret (if t =? Extent.start next
          then (Extent.end_ next, StartMap.remove (Extent.start next) (lo ++ hi))
          else (t, lo ++ hi))
   | None => Ret (t, lo ++ hi)
   end) ⇝ λ '(t', l'), ∃ hi', l' = lo ++ hi' ∧ canonical (lo ++ hi') ∧ t ≤ t' ≤ U64_MAX ∧
     Forall (λ r, t' < Extent.start r) hi' ∧ (∀ a, mem a hi ↔ mem a hi' ∨ t ≤ a < t').
Proof.
  intros Hc Hlo Hhi Hst Ht.
  assert (StartMap.next s (lo ++ hi) = head hi) as ->.
  { unfold StartMap.next. f_equal. apply startmap_split.
    - eapply Forall_impl; [exact Hlo|]. simpl. intros; elia.
    - eapply Forall_impl; [exact Hhi|]. simpl. intros; lia. }
  destruct hi as [|r hi]; cbn [head].
  { apply returns_ret. exists []. split_and!; [done|done|lia|lia|by apply Forall_nil|].
    intros a. rewrite mem_nil. lia. }
  apply Forall_cons in Hhi as [Hrt Hhi]. pose proof (ext_bounds r) as Br.
  pose proof (canonical_app lo (r :: hi)) as [(Hc1 & Hc2 & Hx) _]; [done|].
  apply canonical_cons in Hc2 as [Habove Hc2].
  apply step_assert; [lia|]. apply returns_ret. destruct (t =? Extent.start r) eqn:E.
  - rewrite startmap_remove by done. exists hi. split_and!; [done| |lia|lia|done|].
    + apply canonical_app. split_and!; [done|done|]. intros x y Hxin Hy. apply Hx; [done|by right].
    + intros a. rewrite mem_cons. assert (inside a r ↔ t ≤ a < Extent.end_ r) by elia. tauto.
  - exists (r :: hi). split_and!; [done|done|lia|lia| |].
    + constructor; [lia|]. eapply Forall_impl; [exact Habove|]. unfold gap. simpl. intros; lia.
    + intros a. split; [tauto|]. intros [?|?]; [done|lia].
Qed.

(** An insertion returns the region of the new list that holds the extent. *)
Lemma class_insert_spec (l : list Extent) (e : Extent) :
  canonical l → clear_of e l →
  ClassIndex.insert l e ⇝ λ '(run, l'), canonical l' ∧ run ∈ l' ∧ within e run ∧
    ∀ a, mem a l' ↔ mem a l ∨ inside a e.
Proof.
  intros Hc Hcl. destruct (around l e Hc Hcl) as (lo & hi & -> & Hlo & Hhi & _ & _).
  pose proof (ext_bounds e) as Be. unfold ClassIndex.insert.
  eapply returns_bind.
  { apply class_join_below; [done|lia|done|]. eapply Forall_impl; [exact Hhi|]. simpl. intros; elia. }
  intros [s l1] (lo' & -> & Hc1 & Hs & Hlo' & Hmlo).
  eapply returns_bind; [apply class_join_above; [done|done|done|lia|lia]|].
  intros [t l2] (hi' & -> & Hc2 & Ht & Hhi' & Hmhi).
  destruct (ext_between_ex s t) as (m & Hm & Hm1 & Hm2); [lia..|].
  apply (step_expect _ m); [done|]. apply returns_ret.
  rewrite startmap_insert; cycle 1.
  { eapply Forall_impl; [exact Hlo'|]. simpl. intros; elia. }
  { eapply Forall_impl; [exact Hhi'|]. simpl. intros; elia. }
  apply canonical_app in Hc2 as (HcA & HcB & HX). rewrite Forall_forall in Hlo', Hhi'. split_and!.
  - apply canonical_app. split_and!; [done| |].
    + apply canonical_cons. split; [|done]. apply Forall_forall. intros x Hx. unfold gap. rewrite Hm2. by apply Hhi'.
    + intros x y Hx [->|Hy]%elem_of_cons; [|by apply HX]. unfold gap. rewrite Hm1. by apply Hlo'.
  - apply elem_of_app. right. by left.
  - unfold within. lia.
  - intros a. rewrite !mem_app, mem_cons, Hmlo, Hmhi.
    assert (inside a m ↔ s ≤ a < Extent.start e ∨ inside a e ∨ Extent.end_ e ≤ a < t) by elia. tauto.
Qed.

End Insert.

(** ** Page admission: the queue computes the default iteration

    [PagedPostFree] satisfies the contract of [AdmissionLaws], so the default
    [release_each] records the least closed set of the batch.  The queue of
    [PageAdmission] maintains: what is recorded is forced, every extent that
    is neither recorded nor queued does not join, and only an extent at an end
    of the changed run can start to join.  When the queue is empty the recorded
    set is closed, hence it is the same set. *)

(** ** The state of an admission batch *)

Definition class_list (post : PagedPostFree) (c : FreeClass) : FreeList :=
  match c with
  | PageClass Meta => pf_meta post
  | PageClass Raw => pf_raw post
  | Dead => pf_dead post
  end.

(** Returned extents are disjoint and lie outside the recorded free space. *)
Definition page_returnable (post : PagedPostFree) (X : list (Extent * FreeClass)) : Prop :=
  all_apart (X.*1) ∧ ∀ x l, x ∈ X → l ∈ post_lists post → clear_of x.1 (regions l).

Lemma class_list_in (post : PagedPostFree) (c : FreeClass) : class_list post c ∈ post_lists post.
Proof. unfold post_lists. rewrite !elem_of_cons. destruct c as [|[]]; simpl; tauto. Qed.

Lemma free_in_post (s : PagedPostFree) (a : Z) :
  free_in (post_lists s) a ↔ (∃ c, free_at (class_list s c) a) ∨ free_at (pf_unclassified s) a.
Proof.
  unfold post_lists. rewrite !free_in_cons, free_in_nil. split.
  - intros [?|[?|[?|[?|[]]]]]; [left; by exists (PageClass Meta)|left; by exists (PageClass Raw)|left; by exists Dead|by right].
  - intros [[[|[]] ?]|?]; tauto.
Qed.

(** Disjointness of the lists, class by class. *)
Lemma post_lists_ok (s : PagedPostFree) :
  lists_ok (post_lists s) ↔
  (∀ c, wf (class_list s c)) ∧ wf (pf_unclassified s) ∧
  (∀ c c' a, free_at (class_list s c) a → free_at (class_list s c') a → c = c') ∧
  (∀ c a, free_at (class_list s c) a → ¬ free_at (pf_unclassified s) a).
Proof.
  unfold post_lists. rewrite !lists_ok_cons. setoid_rewrite free_in_cons. setoid_rewrite free_in_cons.
  setoid_rewrite free_in_cons. setoid_rewrite free_in_nil. split.
  - intros (Hw1 & (Hw2 & (Hw3 & (Hw4 & _ & _) & H3) & H2) & H1). split_and!; [by intros [|[]]|done| |].
    + intros [|[]] [|[]] a Ha Ha'; simpl in *; try done; exfalso; naive_solver.
    + intros [|[]] a Ha HU; simpl in *; naive_solver.
  - intros (Hw & HwU & Hd & HU). pose proof (λ c, HU c) as HU'.
    split_and!; [exact (Hw (PageClass Meta))|exact (Hw (PageClass Raw))|exact (Hw Dead)|done|apply lists_ok_nil|..].
    + tauto.
    + intros a Ha. pose proof (HU Dead a Ha). tauto.
    + intros a Ha. pose proof (HU (PageClass Raw) a Ha). pose proof (Hd (PageClass Raw) Dead a Ha). simpl in *.
      intros [?|[?|?]]; naive_solver.
    + intros a Ha. pose proof (HU (PageClass Meta) a Ha). pose proof (Hd (PageClass Meta) Dead a Ha).
      pose proof (Hd (PageClass Meta) (PageClass Raw) a Ha). simpl in *. intros [?|[?|[?|?]]]; naive_solver.
Qed.

Lemma region_unique (l : list Extent) (r r' : Extent) (a : Z) :
  canonical l → r ∈ l → r' ∈ l → inside a r → inside a r' → r = r'.
Proof.
  intros Hc (l1 & l2 & ->)%list_elem_of_split Hr' Hi Hi'.
  apply elem_of_app in Hr' as [Hr'|[->|Hr']%elem_of_cons]; [|done|]; exfalso;
    (assert (apart r r') by (apply (canonical_middle_apart l1 l2); [done|apply elem_of_app; tauto])); elia.
Qed.

#[local] Existing Instance PagedPostFree.tracked.

Section Batch.
Context `{Profile} (post : PagedPostFree) (X : list (Extent * FreeClass)).
Hypothesis Hwf : Forall wf (post_lists post).
Hypothesis HX : page_returnable post X.
Let p := pf_page_size post.
Let U := pf_unclassified post.

(** The free addresses of a class after the extents of [Q] were recorded. *)
Definition class_of (Q : Extent * FreeClass → Prop) (c : FreeClass) (a : Z) : Prop :=
  free_at (class_list post c) a ∨ ∃ x, Q x ∧ x.2 = c ∧ inside a x.1.

Notation class_at K := (class_of (.∈ K)).

Lemma class_of_mono (Q Q' : Extent * FreeClass → Prop) (c : FreeClass) (a : Z) :
  (∀ x, Q x → Q' x) → class_of Q c a → class_of Q' c a.
Proof. intros HQ [?|(x & ? & ?)]; [by left|right]. exists x. split; [by apply HQ|done]. Qed.

Lemma class_at_cons (K : list (Extent * FreeClass)) (x : Extent * FreeClass) (c : FreeClass) (a : Z) :
  class_at (x :: K) c a ↔ class_at K c a ∨ (x.2 = c ∧ inside a x.1).
Proof.
  unfold class_of. split.
  - intros [?|(y & [->|Hy]%elem_of_cons & ?)]; [by do 2 left|by right|left; right; by exists y].
  - intros [[?|(y & Hy & ?)]|?]; [by left|right; exists y; split; [by right|done]|].
    right. exists x. split; [by left|done].
Qed.

Lemma class_at_outside (K : list (Extent * FreeClass)) (x : Extent * FreeClass) (c : FreeClass) (a : Z) :
  K ⊆ X → x ∈ X → x ∉ K → inside a x.1 → ¬ class_at K c a.
Proof.
  intros HK Hx Hn Hi. destruct HX as [Ha Hcl]. intros [(r & Hr & Hi')|(y & Hy & _ & Hi')].
  - specialize (Hcl x _ Hx (class_list_in post c)). unfold clear_of in Hcl. rewrite Forall_forall in Hcl.
    specialize (Hcl r Hr). elia.
  - assert (x ≠ y) by (intros ->; done).
    pose proof (all_apart_pair X x y Ha Hx (HK y Hy) ltac:(done)). elia.
Qed.

(** A list with the addresses of a class is clear of the extents not recorded. *)
Lemma class_clear (K : list (Extent * FreeClass)) (x : Extent * FreeClass) (c : FreeClass) (l : list Extent) :
  K ⊆ X → x ∈ X → x ∉ K → (∀ a, mem a l ↔ class_at K c a) → clear_of x.1 l.
Proof.
  intros HK Hx Hn Hl. apply clear_of_mem. intros a Hm Hi.
  apply Hl in Hm. revert Hm. by apply (class_at_outside K x).
Qed.

Definition joins (Q : Extent * FreeClass → Prop) (x : Extent * FreeClass) : Prop :=
  page_joins p (class_of Q) (free_at U) x.1.

(** The lists, one per class, that hold the space recorded so far. *)
Definition holds (f : FreeClass → list Extent) (K : list (Extent * FreeClass)) : Prop :=
  K ⊆ X ∧ ∀ c, canonical (f c) ∧ ∀ a, mem a (f c) ↔ class_at K c a.

Lemma class_exists (P : FreeClass → Prop) :
  (∃ c, P c) ↔ P (PageClass Meta) ∨ P (PageClass Raw) ∨ P Dead.
Proof. split; [intros [[|[]] ?]; tauto|intros [?|[?|?]]; by eexists]. Qed.

(** The scan of the three lists and the unclassified list decides [joins]. *)
Lemma scan_joins (f : FreeClass → list Extent) (K : list (Extent * FreeClass)) (x : Extent * FreeClass) :
  holds f K → x ∈ X → x ∉ K →
  joins (.∈ K) x ↔
  (∃ c, existsb (λ r, if Extent.len x.1 <? page_bytes p then Extent.adjoins_within r x.1 (page_bytes p)
                      else Extent.adjoins_whole_unit r x.1 (page_bytes p)) (f c) = true) ∨
  (page_bytes p ≤ Extent.len x.1 ∧ FreeList.adjoins U x.1 = true).
Proof.
  intros [HK Hf] Hx Hn. unfold joins, page_joins.
  assert (HU : clear_of x.1 (regions U)).
  { apply HX; [done|]. unfold post_lists, U. rewrite !elem_of_cons. tauto. }
  assert (Hclear : ∀ c, clear_of x.1 (f c)) by (intros c; apply (class_clear K x c); [done..|apply Hf]).
  destruct (Extent.len x.1 <? page_bytes p) eqn:E.
  - assert (Hno : (page_bytes p ≤ Extent.len x.1 ∧ FreeList.adjoins U x.1 = true) ↔ False) by lia.
    rewrite Hno. split.
    + intros [c Hc]. left. exists c. apply within_test; [done|]. by rewrite !(proj2 (Hf c)).
    + intros [[c Hc]|[]]. exists c. apply within_test in Hc; [|done]. by rewrite !(proj2 (Hf c)) in Hc.
  - rewrite (adjoins_free U x.1 HU). split.
    + intros [[c Hc]|?]; [left|right; split; [lia|done]]. exists c. apply whole_unit_test; [apply Hf|done|].
      setoid_rewrite (proj2 (Hf c)). done.
    + intros [[c Hc]|[_ ?]]; [left|by right]. exists c. apply whole_unit_test in Hc; [|apply Hf|done].
      setoid_rewrite (proj2 (Hf c)) in Hc. done.
Qed.

(** ** [PagedPostFree] satisfies the contract *)

Definition page_state (s : PagedPostFree) (K : list (Extent * FreeClass)) : Prop :=
  pf_page_size s = p ∧ pf_unclassified s = U ∧ (∀ c, wf (class_list s c)) ∧
  holds (λ c, regions (class_list s c)) K.

Lemma page_state_init : page_state post [].
Proof.
  assert (Hw : ∀ c, wf (class_list post c)).
  { intros c. rewrite Forall_forall in Hwf. apply Hwf, class_list_in. }
  split_and!; [done|done|done|]. split; [apply list_subseteq_nil|]. intros c. split; [apply Hw|].
  intros a. unfold class_of. split; [by left|]. intros [?|(x & []%not_elem_of_nil & _)]. done.
Qed.

Lemma page_merges (s : PagedPostFree) (K : list (Extent * FreeClass)) (x : Extent * FreeClass) :
  page_state s K → x ∈ X → x ∉ K → PagedPostFree.merges s x.1 = true ↔ joins (.∈ K) x.
Proof.
  intros (Hp & HU & _ & Hh) Hx Hn. rewrite (scan_joins _ K x Hh Hx Hn), class_exists.
  unfold PagedPostFree.merges, FreeList.adjoins_within, FreeList.adjoins_whole_unit, FileSpacePageSize.get.
  rewrite Hp, HU. cbn [existsb class_list]. destruct (Extent.len x.1 <? page_bytes p) eqn:E.
  - rewrite !orb_true_iff. intuition lia.
  - rewrite !orb_true_iff. intuition lia.
Qed.

(** Recording changes the list of one class. *)
Lemma track_class (s : PagedPostFree) (e : Extent) (cls : FreeClass) (l' : FreeList) :
  FreeList.free (class_list s cls) e = Ret l' →
  PagedPostFree.track s e cls ⇝ λ s', pf_page_size s' = pf_page_size s ∧
    pf_unclassified s' = pf_unclassified s ∧
    ∀ c, class_list s' c = if decide (c = cls) then l' else class_list s c.
Proof.
  intros Hfree. unfold PagedPostFree.track, PageLists.route_free.
  destruct cls as [|[]]; simpl in Hfree; rewrite Hfree; apply returns_ret;
    (split_and!; [done|done|]; intros [|[]]; by case_decide).
Qed.

Lemma page_track (s : PagedPostFree) (K : list (Extent * FreeClass)) (x : Extent * FreeClass) :
  page_state s K → x ∈ X → x ∉ K → PagedPostFree.track s x.1 x.2 ⇝ λ s', page_state s' (x :: K).
Proof.
  intros (Hp & HU & Hw & HK & Hh) Hx Hn.
  assert (Hcl : clear_of x.1 (regions (class_list s x.2))) by (apply (class_clear K x x.2); [done..|apply Hh]).
  destruct (free_spec (class_list s x.2) x.1 (Hw _) (λ _, Hcl)) as (l' & Hfree & Hw' & Hset).
  eapply returns_mono; [by apply track_class|]. intros s' (Hp' & HU' & Hc').
  split_and!; [congruence|congruence| |].
  - intros c. rewrite Hc'. by case_decide.
  - split; [intros y [->|Hy]%elem_of_cons; [done|by apply HK]|].
    intros c. rewrite Hc'. case_decide as Hd.
    + split; [apply Hw'|]. intros a. rewrite class_at_cons. fold (free_at l' a). rewrite Hset.
      unfold free_at. rewrite <- Hd, (proj2 (Hh c)). naive_solver.
    + split; [apply Hh|]. intros a. rewrite class_at_cons, (proj2 (Hh c)). naive_solver.
Qed.

Lemma batch_nodup : NoDup X.
Proof. destruct HX as [Ha _]. apply all_apart_NoDup in Ha. by apply NoDup_fmap_1 in Ha. Qed.

#[local] Instance page_laws : AdmissionLaws X page_state joins.
Proof.
  split.
  - apply batch_nodup.
  - intros Q Q' x HQ. apply page_joins_mono. intros c a. by apply class_of_mono.
  - intros s K x Hs Hx Hn. by apply page_track.
  - intros s K x Hs Hx Hn. by apply page_merges.
Qed.

(** ** The class indexes *)

Lemma classes_get_set (cl : Classes) (c c' : FreeClass) (l : list Extent) :
  Classes.get (Classes.set cl c l) c' = if decide (c' = c) then l else Classes.get cl c'.
Proof. destruct c as [|[]], c' as [|[]]; by case_decide. Qed.

Lemma classes_insert (cl : Classes) (K : list (Extent * FreeClass)) (x : Extent * FreeClass) :
  holds (Classes.get cl) K → x ∈ X → x ∉ K →
  Classes.insert cl x.2 x.1 ⇝ λ '(run, cl'), holds (Classes.get cl') (x :: K) ∧
    run ∈ Classes.get cl' x.2 ∧ within x.1 run.
Proof.
  intros [HK Hh] Hx Hn.
  assert (Hcl : clear_of x.1 (Classes.get cl x.2)) by (apply (class_clear K x x.2); [done..|apply Hh]).
  eapply returns_bind; [apply class_insert_spec; [apply Hh|done]|].
  intros [run l'] (Hc & Hr & Hw & Hset). apply returns_ret. split_and!; [|by rewrite classes_get_set, decide_True|done].
  split; [intros y [->|Hy]%elem_of_cons; [done|by apply HK]|].
  intros c. rewrite classes_get_set. case_decide as Hd.
  - split; [done|]. intros a. rewrite class_at_cons, Hset, <- Hd, (proj2 (Hh c)). naive_solver.
  - split; [apply Hh|]. intros a. rewrite class_at_cons, (proj2 (Hh c)). naive_solver.
Qed.

(** The test of the queue loop decides [joins]. *)
Lemma queue_test (cl : Classes) (K : list (Extent * FreeClass)) (x : Extent * FreeClass) :
  holds (Classes.get cl) K → x ∈ X → x ∉ K →
  negb (if FileSpacePageSize.get p <=? Extent.len x.1 then FreeList.adjoins U x.1 else false)
  && negb (Classes.merges cl x.1 p) = false ↔ joins (.∈ K) x.
Proof.
  intros Hh Hx Hn. rewrite (scan_joins _ K x Hh Hx Hn), class_exists. destruct Hh as [HK Hh].
  assert (Hclear : ∀ c, clear_of x.1 (Classes.get cl c)).
  { intros c. apply (class_clear K x c); [done..|apply Hh]. }
  unfold Classes.merges. change (class_meta cl) with (Classes.get cl (PageClass Meta)).
  change (class_raw cl) with (Classes.get cl (PageClass Raw)). change (class_dead cl) with (Classes.get cl Dead).
  rewrite !class_merges_scan by (done || apply Hh). unfold FileSpacePageSize.get.
  rewrite andb_false_iff, !negb_false_iff, !orb_true_iff.
  destruct (page_bytes p <=? Extent.len x.1) eqn:E; intuition lia.
Qed.

(** Recording [x] makes another extent join only at the ends of the run of [x]. *)
Lemma joins_changed (f : FreeClass → list Extent) (K : list (Extent * FreeClass)) (x y : Extent * FreeClass)
    (run : Extent) :
  holds f (x :: K) → run ∈ f x.2 → within x.1 run → y ∈ X → y ∉ x :: K → joins (.∈ x :: K) y →
  joins (.∈ K) y ∨ Extent.end_ y.1 = Extent.start run ∨ Extent.start y.1 = Extent.end_ run.
Proof.
  intros [HK Hh] Hrun Hin Hy Hn.
  assert (Hclear : ∀ c, clear_of y.1 (f c)).
  { intros c. apply (class_clear (x :: K) y c); [done..|apply Hh]. }
  assert (Hin_run : ∀ a, inside a x.1 → inside a run) by (intros a Ha; elia).
  assert (Hspan : ∀ c s t, s < t → (∀ b, s ≤ b < t → class_at (x :: K) c b) →
    (∀ b, s ≤ b < t → class_at K c b) ∨ (c = x.2 ∧ Extent.start run ≤ s ∧ t ≤ Extent.end_ run)).
  { intros c s t Hst Hall. destruct (Hh c) as [Hc Hset].
    destruct (interval_in_region (f c) s t Hc Hst) as (r & Hr & Hr1 & Hr2); [intros; apply Hset; auto|].
    destruct (decide (c = x.2 ∧ Extent.start run ≤ s ∧ t ≤ Extent.end_ run)) as [|Hno]; [by right|left].
    intros b Hb. specialize (Hall b Hb). apply class_at_cons in Hall as [|[Hcx Hi]]; [done|]. exfalso.
    assert (r = run) as ->; [|apply Hno; split_and!; done].
    rewrite Hcx in Hrun. apply (region_unique (f c) r run b Hc); [done|done|elia|by apply Hin_run]. }
  assert (Hlow : inside (Extent.start y.1 - 1) run → Extent.start y.1 = Extent.end_ run).
  { intros Hi. symmetry. by apply (touching_below p (f x.2) y.1 (Hclear _) run). }
  assert (Hhigh : inside (Extent.end_ y.1) run → Extent.end_ y.1 = Extent.start run).
  { intros Hi. symmetry. by apply (touching_above p (f x.2) y.1 (Hclear _) run). }
  pose proof (page_size_pos p) as Hpos. unfold joins, page_joins.
  destruct (Extent.len y.1 <? page_bytes p).
  - intros (c & [[Ha Hm]|[Ha Hm]]); apply class_at_cons in Ha as [Ha|[_ Hi]].
    + left. exists c. by left.
    + right. right. apply Hlow. by apply Hin_run.
    + left. exists c. by right.
    + right. left. apply Hhigh. by apply Hin_run.
  - intros [(c & [[Ha Hm]|[Ha Hm]])|Hu]; [| |left; by right].
    + destruct (Hspan c (Extent.start y.1 - page_bytes p) (Extent.start y.1)) as [HKc|(_ & H1 & H2)]; [lia|done| |].
      * left. left. exists c. by left.
      * right. right. apply Hlow. elia.
    + destruct (Hspan c (Extent.end_ y.1) (Extent.end_ y.1 + page_bytes p)) as [HKc|(_ & H1 & H2)]; [lia|done| |].
      * left. left. exists c. by right.
      * right. left. apply Hhigh. elia.
Qed.

(** ** The worklist *)

Context (t : Z).

Definition key (x : PendingReturn) : Extent * FreeClass := (pending_extent x, pending_class x).

(** [entries] are the extents read so far and [R] the ones to come; a pending
    extent does not join, unless it is [exempt]. *)
Record queue_inv (exempt : Extent → Prop) (cl : Classes) (entries : list PendingReturn) (queue : list nat)
    (K R : list (Extent * FreeClass)) : Prop := {
  inv_holds : holds (Classes.get cl) K;
  inv_forced : forced t X joins K;
  inv_nodup : NoDup K;
  inv_keys : (key <$> entries) ++ R ≡ₚ X;
  inv_known : K ⊆ key <$> entries;
  inv_queue : NoDup queue;
  inv_bound : Forall (λ i, i < length entries)%nat queue;
  inv_state i x : entries !! i = Some x →
    (pending_state x = Admitted_ ↔ key x ∈ K) ∧ (pending_state x = Queued ↔ i ∈ queue) ∧
    (pending_state x = Pending → joins (.∈ K) (key x) → exempt (pending_extent x)) ∧
    (pending_state x ≠ Admitted_ → Extent.len (pending_extent x) < t);
}.

Section Inv.
Context (exempt : Extent → Prop) (cl : Classes) (entries : list PendingReturn) (queue : list nat).
Context (K R : list (Extent * FreeClass)).
Hypothesis Hinv : queue_inv exempt cl entries queue K R.

Lemma inv_entry (i : nat) (x : PendingReturn) : entries !! i = Some x → key x ∈ X.
Proof.
  intros Hi. rewrite <- (inv_keys _ _ _ _ _ _ Hinv). apply elem_of_app. left.
  apply list_elem_of_fmap_2. by eapply list_elem_of_lookup_2.
Qed.

Lemma inv_unique (i j : nat) (x y : PendingReturn) :
  entries !! i = Some x → entries !! j = Some y → key x = key y → i = j.
Proof.
  intros Hi Hj Hk. pose proof batch_nodup as Hnd. rewrite <- (inv_keys _ _ _ _ _ _ Hinv) in Hnd.
  apply NoDup_app in Hnd as [Hnd _]. eapply NoDup_lookup; [exact Hnd| |].
  - rewrite list_lookup_fmap, Hi. simpl. reflexivity.
  - rewrite list_lookup_fmap, Hj. simpl. by rewrite Hk.
Qed.

(** Two entries that share an address are one. *)
Lemma inv_apart (i j : nat) (x y : PendingReturn) (a : Z) :
  entries !! i = Some x → entries !! j = Some y →
  inside a (pending_extent x) → inside a (pending_extent y) → i = j.
Proof.
  intros Hi Hj Hx Hy. destruct (decide (key x = key y)) as [Hk|Hk]; [by apply (inv_unique i j x y)|].
  destruct HX as [Ha _].
  assert (apart (pending_extent x) (pending_extent y))
    by exact (all_apart_pair X _ _ Ha (inv_entry i x Hi) (inv_entry j y Hj) Hk). elia.
Qed.

Lemma inv_queue_length : (length queue ≤ length X)%nat.
Proof.
  assert (Hsub : queue ⊆+ seq 0 (length entries)).
  { apply NoDup_submseteq; [apply Hinv|]. intros i Hi. pose proof (inv_bound _ _ _ _ _ _ Hinv) as HF.
    rewrite Forall_forall in HF. apply elem_of_seq. specialize (HF i Hi). simpl in HF. lia. }
  apply submseteq_length in Hsub. rewrite length_seq in Hsub.
  rewrite <- (inv_keys _ _ _ _ _ _ Hinv), length_app, length_fmap. lia.
Qed.

Lemma inv_recorded_length : (length K ≤ length X)%nat.
Proof.
  apply submseteq_length, NoDup_submseteq; [apply Hinv|]. apply (inv_holds _ _ _ _ _ _ Hinv).
Qed.

End Inv.

Lemma set_state_keys (l : list PendingReturn) (i : nat) (st : AdmissionState) :
  key <$> PageAdmission.set_state l i st = key <$> l.
Proof.
  unfold PageAdmission.set_state. revert i. induction l as [|x l IH]; [done|]. intros [|i]; [done|].
  simpl. f_equal. apply IH.
Qed.

Lemma set_state_length (l : list PendingReturn) (i : nat) (st : AdmissionState) :
  length (PageAdmission.set_state l i st) = length l.
Proof. apply length_alter. Qed.

Lemma set_state_lookup (l : list PendingReturn) (i j : nat) (st : AdmissionState) (y : PendingReturn) :
  PageAdmission.set_state l i st !! j = Some y →
  ∃ x, l !! j = Some x ∧ key y = key x ∧ pending_extent y = pending_extent x ∧
    pending_state y = if decide (i = j) then st else pending_state x.
Proof.
  unfold PageAdmission.set_state. case_decide as Hd.
  - subst j. rewrite list_lookup_alter_eq. intros (x & -> & Hx)%fmap_Some. exists x. by subst y.
  - rewrite list_lookup_alter_ne by done. intros Hj. by exists y.
Qed.

(** A visited extent that does not join leaves the queue. *)
Lemma pop_inv (cl : Classes) (entries : list PendingReturn) (queue : list nat) (K R : list (Extent * FreeClass))
    (index : nat) (x : PendingReturn) :
  queue_inv (λ _, False) cl entries (index :: queue) K R → entries !! index = Some x → ¬ joins (.∈ K) (key x) →
  queue_inv (λ _, False) cl (PageAdmission.set_state entries index Pending) queue K R.
Proof.
  intros Hinv Hi Hj. pose proof Hinv as [Hh Hf Hnd Hk Hkn Hq Hb Hst].
  apply NoDup_cons in Hq as [Hnq Hq]. apply Forall_cons in Hb as [_ Hb].
  split; [done|done|done|by rewrite set_state_keys|by rewrite set_state_keys|done|by rewrite set_state_length|].
  intros j y (x' & Hx' & Hky & He & Hs)%set_state_lookup. destruct (Hst j x' Hx') as (H1 & H2 & H3 & H4).
  rewrite Hky, He, Hs. case_decide as Hd.
  - subst j. rewrite Hi in Hx'. injection Hx' as <-. destruct (Hst index x Hi) as (_ & HQ & _).
    assert (HQ' : pending_state x = Queued) by (apply HQ; by left).
    rewrite HQ' in H1, H4. split_and!; [|done|done|intros _; by apply H4].
    split; [done|]. intros HK. by apply H1 in HK.
  - rewrite elem_of_cons in H2. naive_solver.
Qed.

(** A visited extent that joins is recorded; the extents at the ends of its run
    are exempt until they are queued. *)
Lemma admit_inv (cl cl' : Classes) (entries : list PendingReturn) (queue : list nat)
    (K R : list (Extent * FreeClass)) (index : nat) (x : PendingReturn) (run : Extent) :
  queue_inv (λ _, False) cl entries (index :: queue) K R → entries !! index = Some x → joins (.∈ K) (key x) →
  holds (Classes.get cl') (key x :: K) → run ∈ Classes.get cl' (key x).2 → within (key x).1 run →
  queue_inv (λ e, Extent.end_ e = Extent.start run ∨ Extent.start e = Extent.end_ run) cl'
    (PageAdmission.set_state (PageAdmission.set_state entries index Pending) index Admitted_) queue (key x :: K) R.
Proof.
  intros Hinv Hi Hj Hh' Hrun Hin. pose proof Hinv as [Hh Hf Hnd Hk Hkn Hq Hb Hst].
  apply NoDup_cons in Hq as [Hnq Hq]. apply Forall_cons in Hb as [_ Hb].
  pose proof (inv_entry _ _ _ _ _ _ Hinv index x Hi) as HxX.
  destruct (Hst index x Hi) as (HA & HQ & _).
  assert (HQ' : pending_state x = Queued) by (apply HQ; by left).
  assert (Hn : key x ∉ K) by (intros HK; apply HA in HK; congruence).
  split; [done| | |by rewrite !set_state_keys| |done|by rewrite !set_state_length|].
  - apply forced_cons; [intros; by eapply law_mono|done|done|by right].
  - by constructor.
  - rewrite !set_state_keys. intros y [->|Hy]%elem_of_cons; [|by apply Hkn].
    apply list_elem_of_fmap_2. by eapply list_elem_of_lookup_2.
  - intros j y (y' & (x' & Hx' & Hky' & He' & Hs')%set_state_lookup & Hky & He & Hs)%set_state_lookup.
    destruct (Hst j x' Hx') as (H1 & H2 & H3 & H4). rewrite Hs, Hs', Hky, Hky', He, He'. case_decide as Hd.
    + subst j. rewrite Hi in Hx'. injection Hx' as <-.
      split_and!; [split; [by left|done]|split; [done|]|done|done]. intros Hin'. by destruct Hnq.
    + assert (Hne : key x' ≠ key x) by (intros E; by apply Hd, (inv_unique _ _ _ _ _ _ Hinv index j x x')).
      rewrite !elem_of_cons in *. split_and!; [naive_solver|naive_solver| |done].
      intros HP Hj'.
      assert (Hnot : key x' ∉ key x :: K).
      { intros [|HK]%elem_of_cons; [done|]. apply H1 in HK. congruence. }
      destruct (joins_changed _ K (key x) (key x') run Hh' Hrun Hin) as [Hold|Hend]; [|done|done| |done].
      * by eapply inv_entry.
      * by destruct (H3 HP Hold).
Qed.

(** Queueing the entry that [g] selects lifts its exemption. *)
Lemma requeue_inv (exempt : Extent → Prop) (g : Extent → bool) (cl : Classes) (entries : list PendingReturn)
    (queue : list nat) (K R : list (Extent * FreeClass)) :
  queue_inv exempt cl entries queue K R →
  (∀ i j x y, entries !! i = Some x → entries !! j = Some y →
     g (pending_extent x) = true → g (pending_extent y) = true → i = j) →
  let '(entries', queue') :=
    PageAdmission.requeue (PageAdmission.position (λ x, g (pending_extent x)) entries) entries queue in
  queue_inv (λ e, exempt e ∧ g e = false) cl entries' queue' K R ∧
  (length queue' ≤ length queue + 1)%nat.
Proof.
  intros Hinv Hu. pose proof Hinv as [Hh Hf Hnd Hk Hkn Hq Hb Hst].
  (** When no pending entry is selected the invariant holds as it is. *)
  assert (Hsame : (∀ i x, entries !! i = Some x → pending_state x = Pending → g (pending_extent x) = false) →
    queue_inv (λ e, exempt e ∧ g e = false) cl entries queue K R).
  { intros Hg. split; [done..|]. intros i x Hi. destruct (Hst i x Hi) as (H1 & H2 & H3 & H4).
    split_and!; [done|done| |done]. intros HP Hj. split; [by apply H3|by apply (Hg i x)]. }
  unfold PageAdmission.position. destruct (list_find _ entries) as [[i x]|] eqn:E; simpl.
  2:{ split; [|lia]. apply Hsame. intros i x Hi _. apply list_find_None in E. rewrite Forall_forall in E.
      apply not_true_iff_false, E. by eapply list_elem_of_lookup_2. }
  apply list_find_Some in E as (Hi & Hg & _). rewrite Hi. case_decide as HP.
  2:{ split; [|lia]. apply Hsame. intros j y Hj HPy. apply not_true_iff_false. intros Hgy.
      assert (i = j) as -> by by apply (Hu i j x y). congruence. }
  assert (Hnot : i ∉ queue) by (intros HQ; apply (Hst i x Hi) in HQ; congruence).
  split; [|rewrite length_app; simpl; lia].
  split; [done|done|done|by rewrite set_state_keys|by rewrite set_state_keys| | |].
  - apply NoDup_app. split_and!; [done| |apply NoDup_singleton]. intros j Hj ->%list_elem_of_singleton. done.
  - rewrite set_state_length. apply Forall_app. split; [done|]. constructor; [|constructor].
    by apply lookup_lt_Some in Hi.
  - intros j y (x' & Hx' & Hky & He & Hs)%set_state_lookup. destruct (Hst j x' Hx') as (H1 & H2 & H3 & H4).
    rewrite Hky, He, Hs, elem_of_app, list_elem_of_singleton. case_decide as Hd.
    + subst j. rewrite Hi in Hx'. injection Hx' as <-. rewrite HP in H1, H4.
      split_and!; [split; [done|intros HK; by apply H1 in HK]|by split; [right|]|done|intros _; by apply H4].
    + split_and!; [done|rewrite H2; naive_solver| |done]. intros HPy Hj. split; [by apply H3|].
      apply not_true_iff_false. intros Hgy. by apply Hd, (Hu i j x x').
Qed.

Lemma requeue_keys (neighbor : option nat) (entries : list PendingReturn) (queue : list nat) :
  key <$> (PageAdmission.requeue neighbor entries queue).1 = key <$> entries.
Proof.
  destruct neighbor as [i|]; [|done]. simpl. destruct (entries !! i) as [x|]; [|done].
  case_decide; [apply set_state_keys|done].
Qed.

(** The position depends on the extents only. *)
Lemma position_keys (g : Extent → bool) (l1 l2 : list PendingReturn) :
  key <$> l2 = key <$> l1 →
  PageAdmission.position (λ x, g (pending_extent x)) l1 = PageAdmission.position (λ x, g (pending_extent x)) l2.
Proof.
  unfold PageAdmission.position. revert l2. induction l1 as [|x1 l1 IH]; intros [|x2 l2] Hk; try done.
  simpl in Hk. injection Hk as He _ Hk. simpl. rewrite He. specialize (IH l2 Hk).
  case_decide; [done|]. destruct (list_find _ l1) as [[]|], (list_find _ l2) as [[]|]; simpl in *; congruence.
Qed.

Lemma exempt_none (exempt : Extent → Prop) (cl : Classes) (entries : list PendingReturn)
    (queue : list nat) (K R : list (Extent * FreeClass)) :
  (∀ e, ¬ exempt e) → queue_inv exempt cl entries queue K R → queue_inv (λ _, False) cl entries queue K R.
Proof.
  intros He [Hh Hf Hnd Hk Hkn Hq Hb Hst]. split; [done..|]. intros i x Hi.
  destruct (Hst i x Hi) as (H1 & H2 & H3 & H4). split_and!; [done|done| |done].
  intros HP Hj. by apply (He (pending_extent x)), H3.
Qed.

(** Both ends of the changed run. *)
Lemma requeue_ends (cl : Classes) (entries : list PendingReturn) (queue : list nat)
    (K R : list (Extent * FreeClass)) (run : Extent) :
  queue_inv (λ e, Extent.end_ e = Extent.start run ∨ Extent.start e = Extent.end_ run) cl entries queue K R →
  let '(entries1, queue1) := PageAdmission.requeue
    (PageAdmission.position (λ x, Extent.end_ (pending_extent x) =? Extent.start run) entries) entries queue in
  let '(entries2, queue2) := PageAdmission.requeue
    (PageAdmission.position (λ x, Extent.start (pending_extent x) =? Extent.end_ run) entries) entries1 queue1 in
  queue_inv (λ _, False) cl entries2 queue2 K R ∧ (length queue2 ≤ length queue + 2)%nat.
Proof.
  intros Hinv.
  pose proof (requeue_inv _ (λ e, Extent.end_ e =? Extent.start run) cl entries queue K R Hinv) as H1.
  destruct (PageAdmission.requeue _ entries queue) as [entries1 queue1] eqn:E1.
  destruct H1 as [Hinv1 Hl1].
  { intros i j x y Hi Hj Hx Hy. apply (inv_apart _ _ _ _ _ _ Hinv i j x y (Extent.start run - 1) Hi Hj); elia. }
  pose proof (requeue_inv _ (λ e, Extent.start e =? Extent.end_ run) cl entries1 queue1 K R Hinv1) as H2.
  match type of E1 with PageAdmission.requeue ?n _ _ = _ => pose proof (requeue_keys n entries queue) as Hk end.
  rewrite E1 in Hk. pose proof (position_keys (λ e, Extent.start e =? Extent.end_ run) entries entries1 Hk) as Hpos.
  cbn beta in Hpos. rewrite Hpos.
  destruct (PageAdmission.requeue _ entries1 queue1) as [entries2 queue2]. destruct H2 as [Hinv2 Hl2].
  { intros i j x y Hi Hj Hx Hy. apply (inv_apart _ _ _ _ _ _ Hinv1 i j x y (Extent.end_ run) Hi Hj); elia. }
  split; [|lia]. eapply exempt_none; [|exact Hinv2]. simpl. intros e. lia.
Qed.

(** The loop ends with an empty queue: every visit shortens the queue or records
    an extent, and a record queues at most two. *)
Lemma run_queue_spec (fuel : nat) (cl : Classes) (entries : list PendingReturn) (queue : list nat)
    (K : list (Extent * FreeClass)) :
  queue_inv (λ _, False) cl entries queue K [] →
  (length queue + 2 * (length X - length K) ≤ fuel)%nat →
  PageAdmission.run_queue fuel p U cl entries queue ⇝ λ '(cl', entries'),
    ∃ K', queue_inv (λ _, False) cl' entries' [] K' [].
Proof.
  revert cl entries queue K. induction fuel as [|fuel IH]; intros cl entries [|index queue] K Hinv Hfuel;
    [apply returns_ret; by exists K|simpl in Hfuel; lia|apply returns_ret; by exists K|].
  cbn [PageAdmission.run_queue]. pose proof (inv_bound _ _ _ _ _ _ Hinv) as Hb.
  apply Forall_cons in Hb as [Hb _]. destruct (lookup_lt_is_Some_2 entries index Hb) as [x Hi].
  destruct (inv_state _ _ _ _ _ _ Hinv index x Hi) as (HA & HQ & _ & _).
  assert (HQ' : pending_state x = Queued) by (apply HQ; by left).
  assert (Hn : key x ∉ K) by (intros HK; apply HA in HK; congruence).
  assert (Hx : key x ∈ X) by by eapply inv_entry.
  apply (step_expect _ x); [done|]. apply step_debug; [intros _; by apply bool_decide_eq_true|].
  pose proof (queue_test cl K (key x) (inv_holds _ _ _ _ _ _ Hinv) Hx Hn) as Htest. cbn [key fst] in Htest.
  destruct (negb _ && negb _) eqn:E.
  - apply (IH _ _ _ K); [|simpl in Hfuel; lia]. apply (pop_inv _ _ _ _ _ _ x); [done|done|].
    intros Hj. apply Htest in Hj. done.
  - eapply returns_bind; [apply (classes_insert cl K (key x)); [apply Hinv|done|done]|].
    intros [run cl'] (Hh' & Hrun & Hin).
    pose proof (admit_inv _ cl' _ _ _ _ _ _ run Hinv Hi (proj1 Htest eq_refl) Hh' Hrun Hin) as Hadm.
    pose proof (requeue_ends _ _ _ _ _ _ Hadm) as Hends. cbv zeta.
    destruct (PageAdmission.requeue _ _ queue) as [entries1 queue1].
    destruct (PageAdmission.requeue _ entries1 queue1) as [entries2 queue2]. destruct Hends as [Hinv2 Hl2].
    apply (IH _ _ _ (key x :: K)); [done|]. pose proof (inv_recorded_length _ _ _ _ _ _ Hinv2).
    simpl in *. lia.
Qed.

(** *** Reading the batch *)

(** While the batch is read no extent is pending. *)
Definition enter_inv (cl : Classes) (entries : list PendingReturn) (queue : list nat)
    (K R : list (Extent * FreeClass)) : Prop :=
  queue_inv (λ _, False) cl entries queue K R ∧ Forall (λ x, pending_state x ≠ Pending) entries.

Section Enter.
Context (cl : Classes) (entries : list PendingReturn) (queue : list nat) (K R : list (Extent * FreeClass)).
Context (e : Extent) (c : FreeClass).
Hypothesis Hinv : enter_inv cl entries queue K ((e, c) :: R).

Lemma enter_new : (e, c) ∈ X ∧ (e, c) ∉ key <$> entries ∧ (e, c) ∉ K.
Proof.
  destruct Hinv as [[_ _ _ Hk Hkn _ _ _] _].
  assert (Hnew : (e, c) ∉ key <$> entries).
  { pose proof batch_nodup as HndX. rewrite <- Hk in HndX. apply NoDup_app in HndX as (_ & Hd & _).
    intros Hin. apply (Hd _ Hin). by left. }
  split_and!; [rewrite <- Hk; apply elem_of_app; right; by left|done|].
  intros HK. by apply Hnew, Hkn.
Qed.

Lemma enter_old (i : nat) (x : PendingReturn) : entries !! i = Some x → key x ≠ (e, c).
Proof.
  intros Hi Heq. destruct enter_new as (_ & Hnew & _). apply Hnew. rewrite <- Heq.
  apply list_elem_of_fmap_2. by eapply list_elem_of_lookup_2.
Qed.

Lemma enter_keys (st : AdmissionState) : (key <$> entries ++ [mkPending e c st]) ++ R ≡ₚ X.
Proof. destruct Hinv as [[_ _ _ Hk _ _ _ _] _]. rewrite fmap_app, <- app_assoc. done. Qed.

Lemma enter_bound (st : AdmissionState) : Forall (λ i, i < length (entries ++ [mkPending e c st]))%nat queue.
Proof.
  destruct Hinv as [[_ _ _ _ _ _ Hb _] _]. eapply Forall_impl; [exact Hb|]. intros i.
  rewrite length_app. simpl. lia.
Qed.

Lemma enter_not_queued : length entries ∉ queue.
Proof.
  destruct Hinv as [[_ _ _ _ _ _ Hb _] _]. rewrite Forall_forall in Hb. intros Hin.
  specialize (Hb _ Hin). simpl in Hb. lia.
Qed.

(** An extent at the threshold is recorded at once. *)
Lemma enter_long (cl' : Classes) :
  t ≤ Extent.len e → holds (Classes.get cl') ((e, c) :: K) →
  enter_inv cl' (entries ++ [mkPending e c Admitted_]) queue ((e, c) :: K) R.
Proof.
  intros Hlen Hh'. destruct enter_new as (Hx & _ & Hn). pose proof Hinv as [[_ Hf Hnd _ Hkn Hq _ Hst] HP].
  split; [|apply Forall_app; split; [done|by repeat constructor]].
  split; [done| |by constructor|apply enter_keys| |done|apply enter_bound|].
  - apply forced_cons; [intros; by eapply law_mono|done|done|by left].
  - rewrite fmap_app. intros y [->|Hy]%elem_of_cons; apply elem_of_app; [right; by left|left; by apply Hkn].
  - intros i x [Hi|[Hge Hi]]%lookup_app_Some.
    + destruct (Hst i x Hi) as (H1 & H2 & _ & H4). pose proof (enter_old i x Hi).
      rewrite Forall_lookup in HP. rewrite elem_of_cons. split_and!; [naive_solver|done| |done].
      intros HP'. by destruct (HP i x Hi).
    + apply list_lookup_singleton_Some in Hi as [Hi <-]. split_and!; [split; [by left|done]| |done|done].
      split; [done|]. intros Hin. assert (i = length entries) as -> by lia. by destruct enter_not_queued.
Qed.

(** A shorter one is queued. *)
Lemma enter_short :
  Extent.len e < t →
  enter_inv cl (entries ++ [mkPending e c Queued]) (queue ++ [length entries]) K R.
Proof.
  intros Hlen. destruct enter_new as (Hx & _ & Hn). pose proof Hinv as [[Hh Hf Hnd _ Hkn Hq _ Hst] HP].
  split; [|apply Forall_app; split; [done|by repeat constructor]].
  split; [done|done|done|apply enter_keys| | | |].
  - rewrite fmap_app. intros y Hy. apply elem_of_app. left. by apply Hkn.
  - apply NoDup_app. split_and!; [done| |apply NoDup_singleton]. intros j Hj ->%list_elem_of_singleton.
    by destruct enter_not_queued.
  - apply Forall_app. split; [apply enter_bound|]. constructor; [|constructor]. rewrite length_app. simpl. lia.
  - intros i x [Hi|[Hge Hi]]%lookup_app_Some; rewrite elem_of_app, list_elem_of_singleton.
    + destruct (Hst i x Hi) as (H1 & H2 & H3 & H4). apply lookup_lt_Some in Hi.
      split_and!; [done|rewrite H2; intuition lia|done|done].
    + apply list_lookup_singleton_Some in Hi as [Hi <-].
      split_and!; [done|split; [right; lia|done]|done|done].
Qed.

End Enter.

Lemma enter_spec (R : list (Extent * FreeClass)) (cl : Classes) (entries : list PendingReturn)
    (queue : list nat) (K : list (Extent * FreeClass)) :
  enter_inv cl entries queue K R →
  PageAdmission.enter cl t entries queue R ⇝ λ '(cl', entries', queue'),
    ∃ K', queue_inv (λ _, False) cl' entries' queue' K' [].
Proof.
  revert cl entries queue K. induction R as [|[e c] R IH]; intros cl entries queue K Hinv.
  { apply returns_ret. exists K. apply Hinv. }
  cbn [PageAdmission.enter]. destruct (t <=? Extent.len e) eqn:E.
  - destruct (enter_new _ _ _ _ _ _ _ Hinv) as (Hx & _ & Hn).
    eapply returns_bind; [exact (classes_insert cl K (e, c) (inv_holds _ _ _ _ _ _ (proj1 Hinv)) Hx Hn)|].
    intros [run cl'] (Hh' & _ & _). apply (IH _ _ _ ((e, c) :: K)). apply (enter_long cl); [done|lia|done].
  - apply (IH _ _ _ K). apply enter_short; [done|lia].
Qed.

(** ** The result *)

Lemma dropped_elem (entries : list PendingReturn) (y : Extent * FreeClass) :
  y ∈ PageAdmission.dropped_of entries ↔ ∃ x, x ∈ entries ∧ key x = y ∧ pending_state x = Pending.
Proof.
  unfold PageAdmission.dropped_of. rewrite list_elem_of_omap. split.
  - intros (x & Hx & Hy). case_bool_decide as HP; [|done]. injection Hy as <-. by exists x.
  - intros (x & Hx & <- & HP). exists x. split; [done|]. by rewrite bool_decide_eq_true_2.
Qed.

Lemma dropped_nodup (entries : list PendingReturn) :
  NoDup (key <$> entries) → NoDup (PageAdmission.dropped_of entries).
Proof.
  induction entries as [|x entries IH]; [intros; constructor|]. rewrite fmap_cons, NoDup_cons. intros [Hn Hnd].
  unfold PageAdmission.dropped_of. simpl. case_bool_decide; [|by apply IH].
  constructor; [|by apply IH]. intros (y & Hy & Hk & _)%dropped_elem. apply Hn. rewrite <- Hk at 1.
  by apply list_elem_of_fmap_2.
Qed.

(** With an empty queue what is recorded is the least closed set. *)
Lemma queue_empty_splits (cl : Classes) (entries : list PendingReturn) (K : list (Extent * FreeClass)) :
  queue_inv (λ _, False) cl entries [] K [] → splits_batch t X joins K (PageAdmission.dropped_of entries).
Proof.
  intros [Hh Hf Hnd Hk Hkn _ _ Hst]. rewrite app_nil_r in Hk.
  assert (Hcase : ∀ x, x ∈ entries →
    (key x ∈ K ∧ pending_state x ≠ Pending) ∨
    (key x ∉ K ∧ pending_state x = Pending ∧ Extent.len (pending_extent x) < t ∧ ¬ joins (.∈ K) (key x))).
  { intros x [i Hi]%list_elem_of_lookup_1. destruct (Hst i x Hi) as (H1 & H2 & H3 & H4).
    destruct (pending_state x) eqn:E.
    - left. split; [by apply H1|done].
    - right. split_and!; [intros HK; by apply H1 in HK|done|by apply H4|intros Hj; by apply H3].
    - pose proof (proj1 H2 eq_refl) as Hin. by apply not_elem_of_nil in Hin. }
  assert (Helem : ∀ y, y ∈ X ↔ ∃ x, x ∈ entries ∧ key x = y).
  { intros y. rewrite <- Hk, list_elem_of_fmap. split; intros (x & ? & ?); by exists x. }
  split_and!; [|intros y Hy Hj|done].
  - apply NoDup_Permutation; [apply batch_nodup| |].
    + apply NoDup_app. split_and!; [done| |].
      * intros y Hy (x & Hx & <- & HP)%dropped_elem. destruct (Hcase x Hx) as [[_ ?]|[? _]]; done.
      * apply dropped_nodup. rewrite Hk. apply batch_nodup.
    + intros y. rewrite elem_of_app, dropped_elem, Helem. split.
      * intros (x & Hx & <-). destruct (Hcase x Hx) as [[? _]|(_ & ? & _)]; [by left|right; by exists x].
      * intros [HK|(x & Hx & ? & _)]; [|by exists x]. apply Helem. by apply (proj1 Hh).
  - apply Helem in Hy as (x & Hx & <-). destruct (Hcase x Hx) as [[? _]|(_ & _ & Hlen & Hnj)]; [done|].
    destruct Hj as [Hj|Hj]; [simpl in Hj; lia|done].
Qed.

Lemma holds_perm (f : FreeClass → list Extent) (K K' : list (Extent * FreeClass)) :
  K ≡ₚ K' → holds f K → holds f K'.
Proof.
  intros HK [Hs Hh]. split; [by rewrite <- HK|]. intros c. split; [apply Hh|]. intros a.
  rewrite (proj2 (Hh c)). unfold class_of. by setoid_rewrite HK.
Qed.

Lemma page_state_unique (s1 s2 : PagedPostFree) (K1 K2 : list (Extent * FreeClass)) :
  K1 ≡ₚ K2 → page_state s1 K1 → page_state s2 K2 → s1 = s2.
Proof.
  intros HK (Hp1 & HU1 & Hw1 & Hh1) (Hp2 & HU2 & Hw2 & Hh2).
  apply (holds_perm _ _ _ HK) in Hh1.
  assert (Hc : ∀ c, class_list s1 c = class_list s2 c).
  { intros c. apply wf_unique; [apply Hw1|apply Hw2|]. intros a. unfold free_at.
    rewrite (proj2 (proj2 Hh1 c)), (proj2 (proj2 Hh2 c)). done. }
  pose proof (Hc Dead). pose proof (Hc (PageClass Meta)). pose proof (Hc (PageClass Raw)).
  destruct s1, s2. simpl in *. congruence.
Qed.

(** What a strategy must compute. *)
Definition page_admission (D : list (Extent * FreeClass)) (s : PagedPostFree) : Prop :=
  ∃ K, page_state s K ∧ splits_batch t X joins K D.

Lemma page_admission_unique (D1 D2 : list (Extent * FreeClass)) (s1 s2 : PagedPostFree) :
  page_admission D1 s1 → page_admission D2 s2 → D1 ≡ₚ D2 ∧ s1 = s2.
Proof.
  intros (K1 & Hs1 & Hb1) (K2 & Hs2 & Hb2).
  destruct (splits_batch_unique _ _ _ _ _ _ _ batch_nodup Hb1 Hb2) as [HK HD].
  split; [done|]. exact (page_state_unique s1 s2 K1 K2 HK Hs1 Hs2).
Qed.

Lemma into_list_spec (l : list Extent) :
  canonical l → ClassIndex.into_list l ⇝ λ l', wf l' ∧ ∀ a, mem a (regions l') ↔ mem a l.
Proof.
  intros Hc. eapply returns_bind; [by apply from_sorted_ok, canonical_ordered|].
  intros r (l' & -> & Hw & Hs). by exists l'.
Qed.

(** The lists built from the class indexes are a state. *)
Lemma rebuilt_state (cl : Classes) (K : list (Extent * FreeClass)) (meta raw dead : FreeList) :
  holds (Classes.get cl) K →
  (wf meta ∧ ∀ a, mem a (regions meta) ↔ mem a (class_meta cl)) →
  (wf raw ∧ ∀ a, mem a (regions raw) ↔ mem a (class_raw cl)) →
  (wf dead ∧ ∀ a, mem a (regions dead) ↔ mem a (class_dead cl)) →
  page_state (PagedPostFree.with_lists post (meta, raw, dead)) K.
Proof.
  intros [HK Hh] [Hw1 Hs1] [Hw2 Hs2] [Hw3 Hs3]. split_and!; [done|done|intros [|[]]; done|].
  split; [done|]. intros c. pose proof (proj2 (Hh c)) as Hset.
  destruct c as [|[]]; (split; [apply Hw1 || apply Hw2 || apply Hw3|]); intros a; simpl in *;
    rewrite <- Hset; done.
Qed.

(** An ordered batch goes through the queue. *)
Lemma run_batch_spec (returned : list (Extent * FreeClass)) :
  returned ≡ₚ X →
  (admission ← PageAdmission.new post t returned;
   '(meta, raw, dead, dropped) ← PageAdmission.run admission;
   Ret (dropped, PagedPostFree.with_lists post (meta, raw, dead))) ⇝ λ '(D, s), page_admission D s.
Proof.
  intros Hperm. pose proof page_state_init as (_ & _ & _ & Hh0).
  eapply returns_bind.
  { eapply returns_bind; [apply (enter_spec returned _ [] [] [])|].
    - split; [|constructor]. split; [|apply forced_nil|constructor|done|done|constructor|constructor|done].
      destruct Hh0 as [Hs Hc]. split; [done|]. intros c. specialize (Hc c). by destruct c as [|[]].
    - intros [[cl entries] queue] [K Hinv]. apply returns_ret.
      instantiate (1 := λ adm, adm_page_size adm = p ∧ adm_unclassified adm = U ∧
        ∃ K, queue_inv (λ _, False) (adm_classes adm) (adm_returned adm) (adm_queue adm) K []).
      split_and!; [done|done|]. by exists K. }
  intros adm (Hp & HU & K & Hinv). unfold PageAdmission.run. rewrite Hp, HU.
  pose proof (inv_keys _ _ _ _ _ _ Hinv) as Hkeys. apply Permutation_length in Hkeys.
  rewrite app_nil_r, length_fmap in Hkeys. rewrite Hkeys.
  eapply returns_bind.
  { eapply returns_bind; [apply (run_queue_spec _ _ _ _ K Hinv)|].
    { pose proof (inv_queue_length _ _ _ _ _ _ Hinv). lia. }
    intros [cl entries] [K' Hinv']. pose proof (inv_holds _ _ _ _ _ _ Hinv') as Hh. pose proof Hh as [_ Hc].
    eapply returns_bind; [exact (into_list_spec _ (proj1 (Hc (PageClass Meta))))|]. intros meta Hmeta.
    eapply returns_bind; [exact (into_list_spec _ (proj1 (Hc (PageClass Raw))))|]. intros raw Hraw.
    eapply returns_bind; [exact (into_list_spec _ (proj1 (Hc Dead)))|]. intros dead Hdead. apply returns_ret.
    instantiate (1 := λ '(meta, raw, dead, D), page_admission D (PagedPostFree.with_lists post (meta, raw, dead))).
    exists K'. split; [by eapply rebuilt_state|by eapply queue_empty_splits]. }
  intros [[[meta raw] dead] D] HD. by apply returns_ret.
Qed.

Lemma default_page_spec : TrackedSpace.release_each post t X ⇝ λ '(D, s), page_admission D s.
Proof. apply (laws_release_each t post). apply page_state_init. Qed.

(** The recorded lists stay disjoint. *)
Lemma page_state_lists_ok (s : PagedPostFree) (K : list (Extent * FreeClass)) :
  lists_ok (post_lists post) → page_state s K → lists_ok (post_lists s).
Proof.
  rewrite !post_lists_ok. intros (_ & HwU & Hd & HdU) (_ & HU & Hw & HK & Hh). rewrite HU.
  destruct HX as [Ha Hcl].
  assert (Hout : ∀ x l a, x ∈ X → l ∈ post_lists post → inside a x.1 → ¬ free_at l a).
  { intros x l a Hx Hl Hi. specialize (Hcl x l Hx Hl). intros Hm. rewrite clear_of_mem in Hcl. by apply (Hcl a). }
  split_and!; [done|done| |].
  - intros c c' a Hc%(proj2 (Hh c)) Hc'%(proj2 (Hh c')).
    destruct Hc as [Hc|(x & Hx & <- & Hi)], Hc' as [Hc'|(y & Hy & <- & Hi')].
    + by apply (Hd c c' a).
    + by destruct (Hout y _ a (HK y Hy) (class_list_in post c) Hi').
    + by destruct (Hout x _ a (HK x Hx) (class_list_in post c') Hi).
    + destruct (decide (x = y)) as [->|Hne]; [done|].
      pose proof (all_apart_pair X x y Ha (HK x Hx) (HK y Hy) Hne). elia.
  - intros c a [Hc|(x & Hx & _ & Hi)]%(proj2 (Hh c)); [by apply (HdU c)|].
    apply (Hout x); [by apply HK| |done]. unfold post_lists, U. rewrite !elem_of_cons. tauto.
Qed.

(** Together they hold the old free space and what was recorded. *)
Lemma page_state_free (s : PagedPostFree) (K : list (Extent * FreeClass)) (a : Z) :
  page_state s K → free_in (post_lists s) a ↔ free_in (post_lists post) a ∨ mem a (K.*1).
Proof.
  intros (_ & HU & _ & _ & Hh). rewrite !free_in_post, HU. fold U.
  assert (Hmem : mem a (K.*1) ↔ ∃ c x, x ∈ K ∧ x.2 = c ∧ inside a x.1).
  { unfold mem. split.
    - intros (e & (x & -> & Hx)%list_elem_of_fmap & Hi). by exists x.2, x.
    - intros (c & x & Hx & _ & Hi). exists x.1. split; [by apply list_elem_of_fmap_2|done]. }
  rewrite Hmem. split.
  - intros [[c [Hc|Hx]%(proj2 (Hh c))]|?]; [left; left; by exists c|right; by exists c|by left; right].
  - intros [[[c Hc]|?]|[c Hx]]; [left|by right|left]; exists c; apply (proj2 (Hh c)); [by left|by right].
Qed.

End Batch.

(** ** The batch *)

Section Release.
Context `{Profile} (post : PagedPostFree) (t : Z).

Lemma page_release_each_spec (X : list (Extent * FreeClass)) :
  Forall wf (post_lists post) → page_returnable post X →
  PagedPostFree.release_each post t X ⇝ λ '(D, s), page_admission post X t D s.
Proof.
  intros Hwf HX. unfold PagedPostFree.release_each, PagedPostFree.release_batch.
  destruct X as [|x [|y X]].
  - apply returns_ret. exists []. split; [by apply page_state_init|].
    split_and!; [done|intros x Hx; by apply not_elem_of_nil in Hx|apply forced_nil].
  - pose proof (page_laws post [x] HX) as Hlaws.
    eapply returns_bind; [exact (laws_release_one (H0 := Hlaws) t post x eq_refl (page_state_init post [x] Hwf))|].
    intros [r s] HK. by apply returns_ret.
  - pose proof (ordered_returns_spec (x :: y :: X)) as Hord.
    destruct (OrderedReturns.new (x :: y :: X)) as [returned|err].
    + apply (step_expect_ok _ returned); [done|]. exact (run_batch_spec post _ Hwf HX t returned (proj1 Hord)).
    + by destruct Hord, HX.
Qed.

End Release.
