(* ===== verification/PagedCommitFacts.v ===== *)
(** * PAGE commits: releasing a batch and giving space back

    The steps of [PagedPostFree::release_all]: admission of the batch, the
    reconsideration of pages that merges completed, and the shrinking of the
    file over dropped extents at its end. *)

From S2P Require Import Prelude Addresses Extents Regions Requests FreeLists FreeListFacts.
From S2P Require Import FreeListMerge Admission AdmissionLaws AdmissionSweep Persistence StartMap.
From S2P Require Import Paged PagedEdits PagedFacts PageAdmissionFacts.

Local Open Scope Z_scope.

(** ** Sets of the post-free state *)

(** Only the three class lists change. *)
Definition same_frame_post (s s' : PagedPostFree) : Prop :=
  pf_page_size s' = pf_page_size s ∧ pf_unclassified s' = pf_unclassified s.

Lemma same_frame_post_trans (s1 s2 s3 : PagedPostFree) :
  same_frame_post s1 s2 → same_frame_post s2 s3 → same_frame_post s1 s3.
Proof. intros [? ?] [? ?]. split; congruence. Qed.

(** An extent outside every list. *)
Definition outside (s : PagedPostFree) (e : Extent) : Prop :=
  ∀ a, inside a e → ¬ free_in (post_lists s) a.

Lemma outside_clear (s : PagedPostFree) (e : Extent) (l : FreeList) :
  outside s e → l ∈ post_lists s → clear_of e (regions l).
Proof. intros Ho Hl. apply clear_of_mem. intros a Ha Hi. apply (Ho a Hi). by exists l. Qed.

Lemma returnable_outside (s : PagedPostFree) (X : list (Extent * FreeClass)) :
  page_returnable s X ↔ all_apart (X.*1) ∧ ∀ a, mem a (X.*1) → ¬ free_in (post_lists s) a.
Proof.
  unfold page_returnable. split; intros [Ha Hcl]; (split; [done|]).
  - intros a (e & (x & -> & Hx)%list_elem_of_fmap & Hi) (l & Hl & Hf).
    specialize (Hcl x l Hx Hl). rewrite clear_of_mem in Hcl. by apply (Hcl a).
  - intros x l Hx Hl. apply (outside_clear s); [|done]. intros a Hi. apply Hcl.
    exists x.1. split; [by apply list_elem_of_fmap_2|done].
Qed.

Section Profiled.
Context `{Profile}.

(** Recording an extent that lies outside. *)
Lemma track_spec (s : PagedPostFree) (e : Extent) (c : FreeClass) :
  lists_ok (post_lists s) → outside s e →
  PagedPostFree.track s e c ⇝ λ s', lists_ok (post_lists s') ∧ same_frame_post s s' ∧
    ∀ a, free_in (post_lists s') a ↔ free_in (post_lists s) a ∨ inside a e.
Proof.
  intros Hok Ho. pose proof (lists_ok_wf _ Hok) as Hwf.
  assert (HX : page_returnable s [(e, c)]).
  { apply returnable_outside. split; [repeat constructor|]. intros a Ha. apply Ho. by apply mem_singleton in Ha. }
  eapply returns_mono; [apply (page_track s [(e, c)] HX s [] (e, c)); [by apply page_state_init|by left|by apply not_elem_of_nil]|].
  intros s' Hs. split_and!; [exact (page_state_lists_ok s _ HX s' _ Hok Hs)|split; apply Hs|].
  intros a. rewrite (page_state_free s [(e, c)] s' _ a Hs). by rewrite fmap_cons, fmap_nil, mem_singleton.
Qed.

(** A batch splits into what is recorded and what is dropped. *)
Lemma release_batch_sets (s : PagedPostFree) (t : Z) (X : list (Extent * FreeClass)) :
  lists_ok (post_lists s) → page_returnable s X →
  PagedPostFree.release_batch s t X ⇝ λ '(D, s'), lists_ok (post_lists s') ∧ same_frame_post s s' ∧
    ∃ K, X ≡ₚ K ++ D ∧ ∀ a, free_in (post_lists s') a ↔ free_in (post_lists s) a ∨ mem a (K.*1).
Proof.
  intros Hok HX. pose proof (lists_ok_wf _ Hok) as Hwf.
  eapply returns_mono; [exact (page_release_each_spec s t X Hwf HX)|].
  intros [D s'] (K & Hs & Hp & _). split_and!; [exact (page_state_lists_ok s X HX s' K Hok Hs)|split; apply Hs|].
  exists K. split; [done|]. intros a. by apply (page_state_free s X).
Qed.

End Profiled.

(** ** Completed pages *)

Section Completed.
Context (p : FileSpacePageSize).
Let P := page_bytes p.

Definition is_page (e : Extent) : Prop := Extent.start e mod P = 0 ∧ Extent.len e = P.

Lemma candidate_is_page (dropped extents : list (Extent * FreeClass)) (e : Extent) :
  e ∈ PagedPostFree.candidate_pages P dropped extents → is_page e.
Proof.
  unfold PagedPostFree.candidate_pages. intros ([x c] & He & Hx)%list_elem_of_bind.
  destruct (_ && _ && _); [|by apply not_elem_of_nil in He].
  apply list_elem_of_omap in He as (a & _ & Hn). apply ext_new_Some in Hn as [H1 H2]. split; [|done].
  rewrite H1. apply div_mul_multiple, page_size_pos.
Qed.

Lemma pages_apart (e f : Extent) : is_page e → is_page f → e ≠ f → apart e f.
Proof.
  intros [He1 He2] [Hf1 Hf2] Hne. pose proof (page_size_pos p) as Hpos. fold P in Hpos.
  destruct (Z.lt_trichotomy (Extent.start e) (Extent.start f)) as [Hlt|[Heq|Hgt]].
  - pose proof (multiple_le_of_lt _ _ P Hpos He1 Hf1 Hlt). elia.
  - destruct Hne. by apply ext_eq; [|elia].
  - pose proof (multiple_le_of_lt _ _ P Hpos Hf1 He1 Hgt). elia.
Qed.

Lemma page_set_ordered (pages : list Extent) :
  Forall is_page pages →
  ordered (PagedPostFree.page_set pages) ∧ ∀ e, e ∈ PagedPostFree.page_set pages ↔ e ∈ pages.
Proof.
  intros HF. unfold PagedPostFree.page_set. split.
  - apply merge_sort_ordered. pose proof (NoDup_remove_dups pages) as Hnd.
    assert (HF' : Forall is_page (remove_dups pages)).
    { rewrite Forall_forall in *. intros e He. by apply HF, elem_of_remove_dups. }
    induction Hnd as [|e l Hn Hnd IH]; [constructor|]. apply Forall_cons in HF' as [He HF'].
    apply all_apart_cons. split; [|by apply IH]. unfold clear_of. rewrite Forall_forall in *.
    intros f Hf. apply pages_apart; [done|by apply HF'|]. intros ->. done.
  - intros e. rewrite merge_sort_Permutation. apply elem_of_remove_dups.
Qed.

End Completed.

(** After the skip only the first run can cover a page. *)
Definition covers (runs : list Extent) (e : Extent) : bool :=
  match runs with
  | run :: _ => (Extent.start run <=? Extent.start e) && (Extent.end_ e <=? Extent.end_ run)
  | [] => false
  end.

Lemma head_covers (runs : list Extent) (e : Extent) :
  canonical runs → Forall (λ r, Extent.start e < Extent.end_ r) runs →
  covers runs e = true ↔ ∀ a, inside a e → mem a runs.
Proof.
  intros Hc Hskip. split.
  - destruct runs as [|r runs]; [done|]. intros Hr a Ha. exists r. split; [by left|]. unfold covers in Hr. elia.
  - intros Hall. destruct (interval_in_region runs (Extent.start e) (Extent.end_ e) Hc) as (r & Hr & H1 & H2).
    { pose proof (ext_bounds e). lia. }
    { intros a Ha. by apply Hall. }
    destruct runs as [|r' runs]; [by apply not_elem_of_nil in Hr|]. unfold covers.
    apply elem_of_cons in Hr as [->|Hr]; [lia|]. apply canonical_cons in Hc as [HG _].
    rewrite Forall_forall in HG. specialize (HG r Hr). apply Forall_cons in Hskip as [Hs _]. unfold gap in HG. elia.
Qed.

(** The two-pointer walk keeps exactly the covered pages. *)
Lemma covered_pages_spec (pages runs : list Extent) :
  ordered pages → canonical runs →
  ordered (PagedPostFree.covered_pages runs pages) ∧
  ∀ e, e ∈ PagedPostFree.covered_pages runs pages ↔ e ∈ pages ∧ ∀ a, inside a e → mem a runs.
Proof.
  revert runs. induction pages as [|e pages IH]; intros runs Ho Hc.
  { split; [constructor|]. intros e. simpl. split; [by intros []%not_elem_of_nil|by intros [[]%not_elem_of_nil _]]. }
  apply ordered_cons in Ho as [Hb Ho]. cbn [PagedPostFree.covered_pages].
  destruct (skip_canonical (Extent.start e) runs Hc) as [Hc' Hskip].
  pose proof (skip_mem (Extent.start e) runs) as Hmem.
  set (runs' := (span (λ run, Extent.end_ run <=? Extent.start e) runs).2) in *.
  destruct (IH runs' Ho Hc') as [IHo IHe].
  assert (Hlater : ∀ f, f ∈ pages → (∀ a, inside a f → mem a runs') ↔ (∀ a, inside a f → mem a runs)).
  { intros f Hf. rewrite Forall_forall in Hb. specialize (Hb f Hf). unfold before in Hb.
    split; intros Hall a Ha; apply Hmem; auto; elia. }
  pose proof (head_covers runs' e Hc' Hskip) as Hcov.
  assert (Heq : (∀ a, inside a e → mem a runs') ↔ (∀ a, inside a e → mem a runs)).
  { split; intros Hall a Ha; apply Hmem; auto; elia. }
  rewrite Heq in Hcov. clear Heq. fold (covers runs' e). destruct (covers runs' e).
  - split.
    + apply ordered_cons. split; [|done]. rewrite Forall_forall in *. intros f Hf. apply Hb. by apply IHe in Hf as [? _].
    + intros f. rewrite !elem_of_cons, IHe. split.
      * intros [->|[Hf Hall]]; [split; [by left|by apply Hcov]|]. split; [by right|by apply Hlater].
      * intros [[->|Hf] Hall]; [by left|right]. split; [done|by apply Hlater].
  - split; [done|]. intros f. rewrite elem_of_cons, IHe. split.
    + intros [Hf Hall]. split; [by right|by apply Hlater].
    + intros [[->|Hf] Hall]; [by apply Hcov in Hall|]. split; [done|by apply Hlater].
Qed.


(** ** Reconsidering completed pages *)

Definition class_lists (s : PagedPostFree) : list FreeList := [pf_meta s; pf_raw s; pf_dead s].

Lemma class_lists_ok (s : PagedPostFree) : lists_ok (post_lists s) → lists_ok (class_lists s).
Proof.
  intros Hok. assert (Hperm : post_lists s ≡ₚ pf_unclassified s :: class_lists s).
  { unfold post_lists, class_lists. rewrite (Permutation_cons_append [pf_meta s; pf_raw s; pf_dead s] (pf_unclassified s)). done. }
  apply (lists_ok_perm _ _ Hperm) in Hok. by apply lists_ok_cons in Hok as (_ & ? & _).
Qed.

Lemma free_in_classes (s : PagedPostFree) (a : Z) :
  free_in (post_lists s) a ↔ free_in (class_lists s) a ∨ free_at (pf_unclassified s) a.
Proof. unfold post_lists, class_lists. rewrite !free_in_cons, free_in_nil. tauto. Qed.

Lemma class_unclassified (s : PagedPostFree) (a : Z) :
  lists_ok (post_lists s) → free_in (class_lists s) a → ¬ free_at (pf_unclassified s) a.
Proof.
  intros (_ & _ & _ & HdU)%post_lists_ok. unfold class_lists. rewrite !free_in_cons, free_in_nil.
  intros [?|[?|[?|[]]]]; [by apply (HdU (PageClass Meta))|by apply (HdU (PageClass Raw))|by apply (HdU Dead)].
Qed.

Lemma mem_dec (a : Z) (l : list Extent) : mem a l ∨ ¬ mem a l.
Proof. exact (free_at_dec (mkFreeList l 0) a). Qed.

(** The candidates that the three classes together cover. *)
Lemma pages_completed_spec (s : PagedPostFree) (extents dropped : list (Extent * FreeClass)) :
  lists_ok (post_lists s) →
  PagedPostFree.pages_completed_by_merges s extents dropped ⇝ λ pages, ordered pages ∧
    ∀ e, e ∈ pages ↔ e ∈ PagedPostFree.candidate_pages (page_bytes (pf_page_size s)) dropped extents ∧
      ∀ a, inside a e → free_in (class_lists s) a.
Proof.
  intros Hok. unfold PagedPostFree.pages_completed_by_merges, FileSpacePageSize.get.
  destruct (from_lists_ok _ (class_lists_ok s Hok)) as (runs & Heq & Hw & Hset).
  destruct (FreeList.from_lists _) as [r|] eqn:Er; [|done]. cbn [mbind outcome_bind] in Heq |- *. rewrite Heq.
  cbn [mbind outcome_bind]. apply returns_ret.
  destruct (page_set_ordered (pf_page_size s)
    (PagedPostFree.candidate_pages (page_bytes (pf_page_size s)) dropped extents)) as [Ho He].
  { apply Forall_forall. intros e. apply candidate_is_page. }
  destruct (covered_pages_spec _ _ Ho (proj1 Hw)) as [Ho' He'].
  split; [done|]. intros e. rewrite He', He. unfold free_at in Hset. by setoid_rewrite Hset.
Qed.

Lemma take_ranges_classes (s : PagedPostFree) (removed : FreeList) :
  lists_ok (post_lists s) → wf removed →
  (meta ← FreeList.take_ranges (pf_meta s) removed;
   raw ← FreeList.take_ranges (pf_raw s) removed;
   dead ← FreeList.take_ranges (pf_dead s) removed;
   Ret (PagedPostFree.with_lists s (meta, raw, dead))) ⇝ λ s', lists_ok (post_lists s') ∧ same_frame_post s s' ∧
     (∀ a, free_in (class_lists s') a ↔ free_in (class_lists s) a ∧ ¬ free_at removed a).
Proof.
  intros Hok Hr. pose proof Hok as (Hw & HwU & Hd & HdU)%post_lists_ok.
  eapply returns_bind; [exact (take_ranges_spec _ _ (Hw (PageClass Meta)) Hr)|]. intros meta [Hw1 H1].
  eapply returns_bind; [exact (take_ranges_spec _ _ (Hw (PageClass Raw)) Hr)|]. intros raw [Hw2 H2].
  eapply returns_bind; [exact (take_ranges_spec _ _ (Hw Dead) Hr)|]. intros dead [Hw3 H3]. apply returns_ret.
  assert (Hsub : ∀ c a, free_at (class_list (PagedPostFree.with_lists s (meta, raw, dead)) c) a →
    free_at (class_list s c) a) by (intros [|[]] a; simpl; naive_solver).
  split_and!; [|done|].
  - apply post_lists_ok. split_and!; [intros [|[]]; done|done| |].
    + intros c c' a Hc%Hsub Hc'%Hsub. by eapply Hd.
    + intros c a Hc%Hsub. by eapply HdU.
  - intros a. unfold class_lists. simpl. rewrite !free_in_cons, free_in_nil, H1, H2, H3. tauto.
Qed.

Lemma split_disjoint {C} (X K D : list (Extent * C)) (a : Z) :
  all_apart (X.*1) → X ≡ₚ K ++ D → mem a (X.*1) ↔ (mem a (K.*1) ∨ mem a (D.*1)) ∧ (mem a (K.*1) → ¬ mem a (D.*1)).
Proof.
  intros Ha Hp. assert (Hp' : X.*1 ≡ₚ K.*1 ++ D.*1) by by rewrite Hp, fmap_app.
  apply (all_apart_perm _ _ Hp') in Ha. apply all_apart_app in Ha as (_ & _ & Hx). rewrite Hp', mem_app.
  split; [|tauto]. intros Hm. split; [done|]. intros (e & He & Hi) (f & Hf & Hi'). specialize (Hx e f He Hf). elia.
Qed.

Lemma split_dropped {C} (X K D : list (Extent * C)) :
  all_apart (X.*1) → X ≡ₚ K ++ D → all_apart (D.*1) ∧ ∀ a, mem a (D.*1) → mem a (X.*1).
Proof.
  intros Ha Hp. assert (Hp' : X.*1 ≡ₚ K.*1 ++ D.*1) by by rewrite Hp, fmap_app.
  split; [|intros a; rewrite Hp', mem_app; by right].
  apply (all_apart_perm _ _ Hp') in Ha. by apply all_apart_app in Ha as (_ & ? & _).
Qed.

Section Releases.
Context `{Profile}.

(** Pages taken out of the lists are offered again. *)
Lemma release_taken (s s1 : PagedPostFree) (t : Z) (pages : list Extent) (X : list (Extent * FreeClass)) :
  lists_ok (post_lists s) → ordered pages → X.*1 = pages → (∀ a, mem a pages → free_in (class_lists s) a) →
  lists_ok (post_lists s1) → same_frame_post s s1 →
  (∀ a, free_in (class_lists s1) a ↔ free_in (class_lists s) a ∧ ¬ mem a pages) →
  PagedPostFree.release_batch s1 t X ⇝ λ '(D, s'), lists_ok (post_lists s') ∧ same_frame_post s s' ∧
    all_apart (D.*1) ∧ (∀ a, mem a (D.*1) → mem a pages) ∧
    ∀ a, free_in (post_lists s') a ↔ free_in (post_lists s) a ∧ ¬ mem a (D.*1).
Proof.
  intros Hok Ho <- Hfree Hok1 HF1 Hset1.
  assert (Hapart : all_apart (X.*1)) by by apply ordered_all_apart.
  assert (HU : ∀ a, mem a (X.*1) → ¬ free_at (pf_unclassified s) a).
  { intros a Ha%Hfree. by apply class_unclassified. }
  eapply returns_mono; [apply (release_batch_sets s1 t X Hok1)|].
  - apply returnable_outside. split; [done|]. intros a Ha. rewrite free_in_classes, Hset1, (proj2 HF1).
    specialize (HU a Ha). tauto.
  - intros [D s'] (Hok' & HF' & K & Hp & Hset'). pose proof (split_dropped X K D Hapart Hp) as [HaD HD].
    split_and!; [done|by eapply same_frame_post_trans|done|done|].
    intros a. rewrite Hset', !free_in_classes, Hset1, (proj2 HF1).
    pose proof (split_disjoint X K D a Hapart Hp) as Hsd. specialize (HU a). specialize (Hfree a). specialize (HD a).
    destruct (mem_dec a (X.*1)) as [Hm|Hm]; tauto.
Qed.

(** The pages leave the lists; the ones dropped do not come back. *)
Lemma release_pages_spec (s : PagedPostFree) (t : Z) (pages : list Extent) :
  lists_ok (post_lists s) → ordered pages → (∀ a, mem a pages → free_in (class_lists s) a) →
  PagedPostFree.release_pages s t pages ⇝ λ '(D, s'), lists_ok (post_lists s') ∧ same_frame_post s s' ∧
    all_apart (D.*1) ∧ (∀ a, mem a (D.*1) → mem a pages) ∧
    ∀ a, free_in (post_lists s') a ↔ free_in (post_lists s) a ∧ ¬ mem a (D.*1).
Proof.
  intros Hok Ho Hfree. unfold PagedPostFree.release_pages.
  eapply returns_bind; [by apply from_sorted_ok|]. intros r (removed & -> & Hw & Hs).
  apply (step_expect_ok _ removed); [done|].
  destruct (take_ranges_classes s removed Hok Hw) as (s1 & Heq & Hok1 & HF1 & Hset1).
  assert (Hset1' : ∀ a, free_in (class_lists s1) a ↔ free_in (class_lists s) a ∧ ¬ mem a pages).
  { intros a. by rewrite Hset1, (Hs a : free_at removed a ↔ mem a pages). }
  pose proof (release_taken s s1 t pages ((λ page, (page, PageClass Raw)) <$> pages) Hok Ho
    ltac:(rewrite <- list_fmap_compose; apply list_fmap_id) Hfree Hok1 HF1 Hset1') as Hrel.
  revert Heq Hrel. clear.
  destruct (FreeList.take_ranges (pf_meta s) removed) as [m|]; [|done]. cbn [mbind outcome_bind].
  destruct (FreeList.take_ranges (pf_raw s) removed) as [r|]; [|done]. cbn [mbind outcome_bind].
  destruct (FreeList.take_ranges (pf_dead s) removed) as [d|]; [|done]. cbn [mbind outcome_bind].
  intros [= <-]. done.
Qed.

(** ** Giving the end of the file back *)

(** A lower address rounds up no higher. *)
Lemma next_multiple_mono (a b P top : Z) :
  0 < P → 0 ≤ a ≤ b → checked_next_multiple_of b P = Some top → top ≤ U64_MAX →
  ∃ m, checked_next_multiple_of a P = Some m ∧ a ≤ m < a + P ∧ m mod P = 0 ∧ m ≤ top.
Proof.
  intros HP Hab Htop H64. apply checked_next_multiple_of_Some in Htop as (Ht1 & Ht2 & _ & _); [|lia..].
  assert (Hleast : ∀ m, m < a + P → m mod P = 0 → m ≤ top).
  { intros m Hm Hm0. destruct (Z.le_gt_cases m top) as [|Hgt]; [done|].
    pose proof (multiple_le_of_lt top m P HP Ht2 Hm0 Hgt). lia. }
  destruct (checked_next_multiple_of a P) as [m|] eqn:E.
  - apply checked_next_multiple_of_Some in E as (H1 & H2 & _ & _); [|lia..]. exists m. split_and!; [done|lia|lia|done|].
    apply Hleast; [lia|done].
  - exfalso. apply checked_next_multiple_of_None in E as [H1 H2]; [|lia..].
    pose proof (Z.mod_pos_bound a P HP). pose proof (Z.div_mod a P ltac:(lia)).
    assert (a + (P - a mod P) ≤ top); [|lia]. apply Hleast; [lia|].
    replace (a + (P - a mod P)) with ((a / P + 1) * P) by lia. apply Z.mod_mul. lia.
Qed.

(** The walk over descending extents: [start] is where the run that ends at the
    end of allocation begins and [head] the class of its first extent. *)
Lemma give_back_walk_spec (l : list (Extent * FreeClass)) (eoa start : Z) (head : option FreeClass) :
  PagedPostFree.give_back_walk eoa None l = (start, head) →
  start ≤ eoa ∧ (∀ a, start ≤ a < eoa → mem a (l.*1)) ∧
  match head with
  | None => start = eoa
  | Some c => ∃ x, x ∈ l ∧ Extent.start x.1 = start ∧ Extent.end_ x.1 ≤ eoa
  end.
Proof.
  assert (Hgen : ∀ l at_ h start head, PagedPostFree.give_back_walk at_ h l = (start, head) →
    start ≤ at_ ∧ (∀ a, start ≤ a < at_ → mem a (l.*1)) ∧
    ((start = at_ ∧ head = h) ∨ ∃ x, x ∈ l ∧ Extent.start x.1 = start ∧ Extent.end_ x.1 ≤ at_ ∧ head ≠ None)).
  { clear. intros l. induction l as [|[e c] l IH]; intros at_ h start head; cbn [PagedPostFree.give_back_walk].
    { intros [= -> ->]. split_and!; [lia|lia|by left]. }
    destruct (Extent.end_ e =? at_) eqn:E.
    2:{ intros [= -> ->]. split_and!; [lia|lia|by left]. }
    intros Hw. destruct (IH _ _ _ _ Hw) as (Hle & Hall & Hcase). pose proof (ext_bounds e) as Be.
    split_and!; [lia| |].
    - intros a Ha. rewrite fmap_cons, mem_cons. destruct (Z.lt_ge_cases a (Extent.start e)) as [Hlt|Hge].
      + right. apply Hall. lia.
      + left. simpl. elia.
    - right. destruct Hcase as [[-> ->]|(x & Hx & H1 & H2 & H3)].
      + exists (e, c). simpl. split_and!; [by left|done|lia|done].
      + exists x. split_and!; [by right|done|lia|done]. }
  intros Hw. destruct (Hgen _ _ _ _ _ Hw) as (Hle & Hall & Hcase). split_and!; [done|done|].
  destruct Hcase as [[-> ->]|(x & Hx & H1 & H2 & H3)]; [done|]. destruct head; [by exists x|done].
Qed.

(** Space is given back only over dropped extents; of the page that the run
    starts in, the head is recorded again. *)
Lemma give_back_spec (s : PagedPostFree) (eoa top : Z) (D : list (Extent * FreeClass)) :
  let P := page_bytes (pf_page_size s) in
  lists_ok (post_lists s) → 0 ≤ eoa → checked_next_multiple_of eoa P = Some top → top ≤ U64_MAX →
  (∀ a, mem a (D.*1) → ¬ free_in (post_lists s) a) →
  PagedPostFree.give_back s eoa D ⇝ λ '(eoa', s'), lists_ok (post_lists s') ∧ same_frame_post s s' ∧
    eoa' mod P = 0 ∧ 0 ≤ eoa' ≤ top ∧ (∀ a, eoa' ≤ a < eoa → mem a (D.*1) ∧ ¬ free_in (post_lists s') a) ∧
    (∀ a, free_in (post_lists s) a → free_in (post_lists s') a) ∧
    (∀ a, free_in (post_lists s') a → free_in (post_lists s) a ∨ mem a (D.*1)).
Proof.
  intros P Hok Heoa Htop Htop64 Hout. pose proof (page_size_pos (pf_page_size s)) as HP. fold P in HP.
  unfold PagedPostFree.give_back, FileSpacePageSize.get. fold P.
  set (D' := filter (λ x : Extent * FreeClass, (P <=? Extent.len x.1) = true) D).
  set (walked := reverse (merge_sort entry_le D')).
  assert (HD' : ∀ x, x ∈ walked → x ∈ D ∧ P ≤ Extent.len x.1).
  { intros x. unfold walked. rewrite elem_of_reverse, merge_sort_Permutation. unfold D'.
    rewrite list_elem_of_filter. intros [? ?]. split; [done|lia]. }
  assert (Hmem : ∀ a, mem a (walked.*1) → mem a (D.*1)).
  { intros a (e & (x & -> & Hx)%list_elem_of_fmap & Hi). exists x.1. split; [|done].
    apply list_elem_of_fmap_2. by apply HD'. }
  destruct (PagedPostFree.give_back_walk eoa None walked) as [start head] eqn:Ew.
  destruct (give_back_walk_spec _ _ _ _ Ew) as (Hle & Hall & Hhead).
  assert (0 ≤ start) as Hs0.
  { destruct head; [destruct Hhead as (x & _ & <- & _); pose proof (ext_bounds x.1); lia|lia]. }
  destruct (next_multiple_mono start eoa P top) as (aligned & -> & Ha1 & Ha2 & Ha3); [lia|lia|done|done|].
  (** Giving back from [aligned] when nothing more is recorded. *)
  assert (Hsame : Ret (aligned, s) ⇝ λ '(eoa', s'), lists_ok (post_lists s') ∧ same_frame_post s s' ∧
    eoa' mod P = 0 ∧ 0 ≤ eoa' ≤ top ∧ (∀ a, eoa' ≤ a < eoa → mem a (D.*1) ∧ ¬ free_in (post_lists s') a) ∧
    (∀ a, free_in (post_lists s) a → free_in (post_lists s') a) ∧
    (∀ a, free_in (post_lists s') a → free_in (post_lists s) a ∨ mem a (D.*1))).
  { apply returns_ret. split_and!; [done|done|done|lia|done| |done|by left].
    intros a Ha. assert (mem a (D.*1)) by (apply Hmem, Hall; lia). auto. }
  destruct (start =? aligned) eqn:E; [done|]. destruct head as [c|]; [|done].
  destruct Hhead as (x & Hx & Hx1 & Hx2). destruct (HD' x Hx) as [HxD HxP]. pose proof (ext_bounds x.1) as Bx.
  destruct (ext_between_ex start aligned) as (h & Hh & Hh1 & Hh2); [lia..|].
  apply (step_expect _ h); [done|].
  assert (Hin : ∀ a, inside a h → mem a (D.*1)).
  { intros a Ha. exists x.1. split; [by apply list_elem_of_fmap_2|elia]. }
  eapply returns_bind; [apply (track_spec s h c Hok); intros a Ha; by apply Hout, Hin|].
  intros s' (Hok' & HF' & Hset'). apply returns_ret. split_and!; [done|done|done|lia|done| | |].
  - intros a Ha. assert (mem a (D.*1)) by (apply Hmem, Hall; lia). split; [done|]. rewrite Hset'.
    intros [?|?]; [by apply (Hout a)|elia].
  - intros a Ha. apply Hset'. by left.
  - intros a [?|?]%Hset'; [by left|right; auto].
Qed.

(** ** Releasing a batch *)

(** What a release of the batch [X] may do to the published space [free] and the
    end of allocation: only free space is published, all of it below the new end;
    only free space is cut off. *)
Definition releases (free : Z → Prop) (P eoa top : Z) (s' : PagedPostFree) (eoa' : Z) : Prop :=
  lists_ok (post_lists s') ∧ eoa' mod P = 0 ∧ 0 ≤ eoa' ≤ top ∧
  (∀ a, free_in (post_lists s') a → free a ∧ a < eoa') ∧ (∀ a, eoa' ≤ a < eoa → free a).

(** The first two steps: admission and completed pages. *)
Lemma admit_and_complete (s : PagedPostFree) (t : Z) (X : list (Extent * FreeClass)) :
  lists_ok (post_lists s) → page_returnable s X →
  ('(dropped, s1) ← PagedPostFree.release_batch s t X;
   if FileSpacePageSize.get (pf_page_size s1) <? t then
     completed ← PagedPostFree.pages_completed_by_merges s1 X dropped;
     '(more, s2) ← PagedPostFree.release_pages s1 t completed;
     Ret (dropped ++ more, s2)
   else Ret (dropped, s1)) ⇝ λ '(D, s'), lists_ok (post_lists s') ∧ same_frame_post s s' ∧
     (∀ a, free_in (post_lists s') a ∨ mem a (D.*1) ↔ free_in (post_lists s) a ∨ mem a (X.*1)) ∧
     (∀ a, mem a (D.*1) → ¬ free_in (post_lists s') a) ∧
     (t ≤ page_bytes (pf_page_size s) → ∀ a, free_in (post_lists s) a → free_in (post_lists s') a).
Proof.
  intros Hok HX. pose proof HX as [Hapart Hout]%returnable_outside.
  eapply returns_bind; [by apply release_batch_sets|]. intros [D s1] (Hok1 & HF1 & K & Hp & Hset1).
  assert (Hsets : ∀ a, (free_in (post_lists s1) a ∨ mem a (D.*1) ↔ free_in (post_lists s) a ∨ mem a (X.*1)) ∧
    (mem a (D.*1) → ¬ free_in (post_lists s1) a)).
  { intros a. pose proof (split_disjoint X K D a Hapart Hp) as Hsd. pose proof (split_dropped X K D Hapart Hp) as [_ HD].
    specialize (Hset1 a). specialize (Hout a). specialize (HD a).
    assert (mem a (K.*1) → mem a (X.*1)).
    { intros Hk. assert (X.*1 ≡ₚ K.*1 ++ D.*1) as -> by by rewrite Hp, fmap_app. apply mem_app. by left. }
    tauto. }
  unfold FileSpacePageSize.get. rewrite (proj1 HF1). destruct (page_bytes (pf_page_size s) <? t) eqn:E.
  - eapply returns_bind; [by apply pages_completed_spec|]. intros pages [Ho Hpages].
    eapply returns_bind.
    { apply (release_pages_spec s1 t pages Hok1 Ho). intros a (e & He & Hi). by apply (proj1 (Hpages e) He). }
    intros [more s2] (Hok2 & HF2 & _ & Hsub & Hset2). apply returns_ret.
    assert (Hin : ∀ a, mem a (more.*1) → free_in (post_lists s1) a).
    { intros a (e & He & Hi)%Hsub. apply free_in_classes. left. by apply (proj1 (Hpages e) He). }
    split_and!; [done|by eapply same_frame_post_trans| | |lia]; intros a; rewrite fmap_app, mem_app;
      specialize (Hsets a); specialize (Hset2 a); specialize (Hin a).
    + destruct (mem_dec a (more.*1)); tauto.
    + tauto.
  - apply returns_ret. split_and!; [done|done|intros a; apply Hsets|intros a; apply Hsets|].
    intros _ a Ha. apply Hset1. by left.
Qed.

Lemma paged_release_all_spec (s : PagedPostFree) (t eoa top : Z) (X : list (Extent * FreeClass)) :
  let P := page_bytes (pf_page_size s) in
  let free a := free_in (post_lists s) a ∨ mem a (X.*1) in
  lists_ok (post_lists s) → page_returnable s X → 0 ≤ eoa →
  checked_next_multiple_of eoa P = Some top → top ≤ U64_MAX → (∀ a, free a → a < eoa) →
  PagedPostFree.release_all s t eoa X ⇝ λ '(eoa', s'), releases free P eoa top s' eoa' ∧ same_frame_post s s' ∧
    (t ≤ P → ∀ a, free_in (post_lists s) a → free_in (post_lists s') a).
Proof.
  intros P free Hok HX Heoa Htop H64 Hbelow.
  destruct (admit_and_complete s t X Hok HX) as ([D s1] & Heq & Hok1 & HF1 & Hsets & HD & Hkeep).
  assert (PagedPostFree.release_all s t eoa X = PagedPostFree.give_back s1 eoa D) as ->.
  { unfold PagedPostFree.release_all. destruct (PagedPostFree.release_batch s t X) as [[D0 s0]|]; [|done].
    cbn [mbind outcome_bind] in Heq |- *. by rewrite Heq. }
  eapply returns_mono; [apply (give_back_spec s1 eoa top D Hok1); rewrite ?(proj1 HF1); done|].
  intros [eoa' s'] (Hok' & HF' & Hmod & [Hle0 Hle] & Hcut & Hmono & Hfrom). rewrite (proj1 HF1) in Hmod.
  assert (Hfree : ∀ a, free_in (post_lists s') a → free a).
  { intros a Ha. apply Hsets. by apply Hfrom. }
  split_and!; [split_and!|by eapply same_frame_post_trans|]; try done.
  - intros a Ha. split; [by apply Hfree|]. destruct (Z.lt_ge_cases a eoa') as [|Hge]; [done|].
    specialize (Hbelow a (Hfree a Ha)). by destruct (Hcut a ltac:(lia)).
  - intros a Ha. apply Hsets. right. by apply Hcut.
  - intros Ht a Ha. apply Hmono. by apply Hkeep.
Qed.
End Releases.
