(* ===== verification/PagedTailFacts.v ===== *)
(** * PAGE commits: the planned tail

    [PagedEdit::post_free] builds the free space a commit publishes, and
    [plan_tail] reserves the tail block in it or past the end of the file.  The
    facts follow one set of addresses through the plan: published space was free,
    lies below the new end of allocation, and misses the tail. *)

From stdpp Require Import strings.
From S2P Require Import Prelude Addresses Extents Regions Requests FreeLists FreeListFacts.
From S2P Require Import FreeListMerge Admission AdmissionLaws AdmissionSweep Persistence Paged.
From S2P Require Import PagedEdits PagedFacts PageAdmissionFacts PagedCommitFacts.

Local Open Scope Z_scope.

(** The space an editing session accounts for: its lists and the padding it
    skipped. *)
Definition edit_space (e : PagedEdit) (a : Z) : Prop :=
  free_in (edit_lists e) a ∨ mem a (pe_meta_pad e ++ pe_raw_pad e).

(** What a commit may hand to the plan: disjoint extents below the end of
    allocation that the session does not hold. *)
Record commit_ok (e : PagedEdit) (eoa : Z) (X : list (Extent * FreeClass)) : Prop := {
  commit_edit : edit_ok e;
  commit_apart : all_apart (X.*1);
  commit_fresh a : mem a (X.*1) → ¬ edit_space e a;
  commit_below a : edit_space e a ∨ mem a (X.*1) → a < eoa;
}.

Definition returned_batch (freed : list (Extent * FreeClass)) (old_blocks : list Extent)
    : list (Extent * FreeClass) :=
  freed ++ ((λ e, (e, PageClass Meta)) <$> old_blocks).

Section Profiled.
Context `{Profile}.

(** The lists with the padding merged in. *)
Lemma padded_lists (e : PagedEdit) :
  edit_ok e →
  (meta ← PagedEdit.with_padding (pe_meta e) (pe_meta_pad e);
   raw ← PagedEdit.with_padding (pe_raw e) (pe_raw_pad e);
   Ret (mkPostFree (pe_page_size e) meta raw (pe_dead e) (pe_unclassified e))) ⇝ λ post,
   lists_ok (post_lists post) ∧ (∀ a, free_in (post_lists post) a ↔ edit_space e a) ∧
   pf_page_size post = pe_page_size e ∧ pf_unclassified post = pe_unclassified e.
Proof.
  intros (Hok & Hap & Hpd). pose proof Hok as [HF _].
  assert (Hw : wf (pe_meta e) ∧ wf (pe_raw e) ∧ wf (pe_unclassified e) ∧ wf (pe_dead e)).
  { unfold edit_lists, other_lists in HF. rewrite !Forall_cons in HF. naive_solver. }
  destruct Hw as (Hw1 & Hw2 & Hw3 & Hw4).
  pose proof Hap as (Hap1 & Hap2 & Hx)%all_apart_app.
  assert (Hret : ∀ l pad, l ∈ edit_lists e → pad ⊆ pe_meta_pad e ++ pe_raw_pad e → all_apart pad → returnable l pad).
  { intros l pad Hl Hsub Ha. split; [done|]. apply Forall_forall. intros x Hxin. apply clear_of_mem.
    intros a Ha' Hi. apply (Hpd a); [exists x; split; [by apply Hsub|done]|by exists l]. }
  eapply returns_bind; [apply with_padding_spec; [done|]; apply Hret; [by left|by apply list_subseteq_app_l|done]|].
  intros meta [Hwm Hm].
  eapply returns_bind; [apply with_padding_spec; [done|]; apply Hret; [right; by left|by apply list_subseteq_app_r|done]|].
  intros raw [Hwr Hr]. apply returns_ret.
  unfold edit_lists, other_lists in Hok. rewrite !lists_ok_cons in Hok.
  destruct Hok as (_ & (_ & (_ & _ & H3) & H2) & H1).
  assert (Hxd : ∀ a, mem a (pe_meta_pad e) → ¬ mem a (pe_raw_pad e)).
  { intros a (f & Hf & Hi) (g & Hg & Hi'). specialize (Hx f g Hf Hg). elia. }
  assert (Hdis : ∀ a, (free_at meta a → ¬ (free_at raw a ∨ free_at (pe_dead e) a ∨ free_at (pe_unclassified e) a)) ∧
    (free_at raw a → ¬ (free_at (pe_dead e) a ∨ free_at (pe_unclassified e) a)) ∧
    (free_at (pe_dead e) a → ¬ free_at (pe_unclassified e) a)).
  { intros a. specialize (H1 a). specialize (H2 a). specialize (H3 a). specialize (Hxd a). specialize (Hpd a).
    unfold edit_lists, other_lists in Hpd. rewrite !free_in_cons, !free_in_nil in *. rewrite mem_app in Hpd.
    rewrite Hm, Hr. tauto. }
  split_and!; [| |done|done]; unfold post_lists; simpl.
  - rewrite !lists_ok_cons. split_and!; try done; [apply lists_ok_nil|..]; intros a Ha; specialize (Hdis a);
      rewrite ?free_in_cons, free_in_nil; tauto.
  - intros a. unfold edit_space, edit_lists, other_lists. rewrite !free_in_cons, !free_in_nil, mem_app, Hm, Hr. tauto.
Qed.

(** Promotion keeps the published space and moves every wholly free page to the
    raw list. *)
Lemma promote_published (post : PagedPostFree) :
  lists_ok (post_lists post) →
  (l ← PageLists.promote_whole_free_pages (pf_meta post) (pf_raw post) (pf_dead post) (pf_page_size post);
   Ret (PagedPostFree.with_lists post l)) ⇝ λ post', lists_ok (post_lists post') ∧ same_frame_post post post' ∧
     (∀ a, free_in (post_lists post') a ↔ free_in (post_lists post) a) ∧
     (∀ a, whole_page (pf_page_size post) (free_in (class_lists post')) a → free_at (pf_raw post') a).
Proof.
  intros Hok. eapply returns_bind.
  { apply returns_conj; [exact (promote_post post (pf_meta post) Hok)|].
    exact (promote_spec (pf_page_size post) _ _ _ (class_lists_ok post Hok)). }
  intros [[m r] d] ([Hok' Hset] & _ & _ & Hr & _). apply returns_ret. split_and!; [done|done|done|].
  intros a Hwhole. simpl. apply Hr. right. intros b Hb. specialize (Hwhole b Hb).
  pose proof (class_unclassified _ b Hok' Hwhole) as HU. simpl in HU.
  assert (Hin : free_in (post_lists post) b) by (apply Hset, free_in_classes; by left).
  apply free_in_classes in Hin as [Hin|Hin]; [exact Hin|done].
Qed.

Section PostFree.
Context (e : PagedEdit) (t eoa top : Z) (freed : list (Extent * FreeClass)) (old_blocks : list Extent).
Let P := page_bytes (pe_page_size e).
Let X := returned_batch freed old_blocks.
Hypothesis Hok : commit_ok e eoa X.
Hypothesis Heoa : 0 ≤ eoa.
Hypothesis Htop : checked_next_multiple_of eoa P = Some top.
Hypothesis H64 : top ≤ U64_MAX.

(** Space that is free once the commit is done. *)
Definition commit_free (a : Z) : Prop := edit_space e a ∨ mem a (X.*1).

Lemma post_free_spec :
  PagedEdit.post_free e t eoa freed old_blocks ⇝ λ '(post, eoa'),
    releases commit_free P eoa top post eoa' ∧ pf_page_size post = pe_page_size e ∧
    (t ≤ P → ∀ a, edit_space e a → free_in (post_lists post) a) ∧
    (∀ a, whole_page (pe_page_size e) (free_in (class_lists post)) a → free_at (pf_raw post) a).
Proof.
  destruct (padded_lists e (commit_edit _ _ _ Hok)) as (post & Heq & Hok1 & Hset & Hp & HU).
  assert (HX : page_returnable post X).
  { apply returnable_outside. split; [apply Hok|]. intros a Ha. rewrite Hset. by apply Hok. }
  pose proof (paged_release_all_spec post t eoa top X Hok1 HX Heoa) as Hrel. cbv zeta in Hrel. rewrite Hp in Hrel.
  destruct (Hrel Htop H64) as ([eoa' s] & Hr & Hs & HF & Hkeep).
  { intros a. rewrite Hset. apply Hok. }
  pose proof Hs as (Hok2 & Hmod & [Hle0 Hle] & Hfree & Hcut).
  destruct (promote_published s Hok2) as (post' & Heq' & Hok3 & HF' & Hset' & Hwhole).
  assert (PagedEdit.post_free e t eoa freed old_blocks = Ret (post', eoa')) as ->.
  { unfold PagedEdit.post_free. revert Heq Heq'.
    destruct (PagedEdit.with_padding (pe_meta e) _) as [m|]; [|done]. cbn [mbind outcome_bind].
    destruct (PagedEdit.with_padding (pe_raw e) _) as [r|]; [|done]. cbn [mbind outcome_bind].
    intros [= ->]. fold (returned_batch freed old_blocks). fold X. rewrite Hr. cbn [mbind outcome_bind].
    destruct (PageLists.promote_whole_free_pages _ _ _ _) as [l|]; [|done]. intros Hpost. injection Hpost as <-. done. }
  apply returns_ret. rewrite (proj1 HF), Hp in Hwhole. split_and!; [|rewrite (proj1 HF'), (proj1 HF); done| |done].
  - split_and!; [done|done|done|done| |].
    + intros a Ha. apply Hset' in Ha. destruct (Hfree a Ha) as [Hc Hlt]. split; [|done]. unfold commit_free. by rewrite <- Hset.
    + intros a Ha. unfold commit_free. rewrite <- Hset. by apply Hcut.
  - intros Ht a Ha. apply Hset', Hkeep; [done|]. by apply Hset.
Qed.

End PostFree.
End Profiled.

(** ** Releasing trailing pages *)

Lemma take_range_all (s : PagedPostFree) (x : Extent) :
  lists_ok (post_lists s) →
  (meta ← FreeList.take_range (pf_meta s) x;
   raw ← FreeList.take_range (pf_raw s) x;
   dead ← FreeList.take_range (pf_dead s) x;
   unclassified ← FreeList.take_range (pf_unclassified s) x;
   Ret (mkPostFree (pf_page_size s) meta raw dead unclassified)) ⇝ λ s',
   lists_ok (post_lists s') ∧ pf_page_size s' = pf_page_size s ∧
   ∀ a, free_in (post_lists s') a ↔ free_in (post_lists s) a ∧ ¬ inside a x.
Proof.
  intros (Hw & HwU & Hd & HdU)%post_lists_ok.
  eapply returns_bind; [exact (take_range_spec _ x (Hw (PageClass Meta)))|]. intros meta [Hw1 H1].
  eapply returns_bind; [exact (take_range_spec _ x (Hw (PageClass Raw)))|]. intros raw [Hw2 H2].
  eapply returns_bind; [exact (take_range_spec _ x (Hw Dead))|]. intros dead [Hw3 H3].
  eapply returns_bind; [exact (take_range_spec _ x HwU)|]. intros unclassified [Hw4 H4]. apply returns_ret.
  assert (Hsub : ∀ c a, free_at (class_list (mkPostFree (pf_page_size s) meta raw dead unclassified) c) a →
    free_at (class_list s c) a) by (intros [|[]] a; simpl; naive_solver).
  split_and!; [|done|].
  - apply post_lists_ok. split_and!; [intros [|[]]; done|done| |].
    + intros c c' a Hc%Hsub Hc'%Hsub. by eapply Hd.
    + intros c a Hc%Hsub HU. simpl in HU. apply (HdU c a Hc). by apply H4.
  - intros a. unfold post_lists. simpl. rewrite !free_in_cons, !free_in_nil, H1, H2, H3, H4. tauto.
Qed.

Lemma free_in_nonneg (ls : list FreeList) (a : Z) : free_in ls a → 0 ≤ a.
Proof. intros (l & _ & e & _ & Hi). pose proof (ext_bounds e). elia. Qed.

(** What [release_trailing] may do. *)
Definition trailing_released (s : PagedPostFree) (eoa eoa' : Z) (s' : PagedPostFree) : Prop :=
  lists_ok (post_lists s') ∧ pf_page_size s' = pf_page_size s ∧ eoa' ≤ eoa ∧
  (eoa mod page_bytes (pf_page_size s) = 0 → eoa' mod page_bytes (pf_page_size s) = 0) ∧
  (∀ a, free_in (post_lists s') a ↔ free_in (post_lists s) a ∧ a < eoa') ∧
  (∀ a, eoa' ≤ a < eoa → free_in (post_lists s) a).

(** Cutting the lists at [cut]. *)
Lemma cut_trailing (s : PagedPostFree) (eoa cut : Z) (x : Extent) :
  lists_ok (post_lists s) → (∀ a, free_in (post_lists s) a → a < eoa) →
  (∀ a, cut ≤ a < eoa → free_in (post_lists s) a) → cut mod page_bytes (pf_page_size s) = 0 →
  Extent.start x = cut → Extent.end_ x = eoa →
  (meta ← FreeList.take_range (pf_meta s) x;
   raw ← FreeList.take_range (pf_raw s) x;
   dead ← FreeList.take_range (pf_dead s) x;
   unclassified ← FreeList.take_range (pf_unclassified s) x;
   Ret (cut, mkPostFree (pf_page_size s) meta raw dead unclassified)) ⇝ λ '(eoa', s'),
   trailing_released s eoa eoa' s'.
Proof.
  intros Hok Hbelow Hfree Hmod Hx1 Hx2. destruct (take_range_all s x Hok) as (s' & Heq & Hok' & Hp' & Hset').
  assert (Hrel : trailing_released s eoa cut s').
  { pose proof (ext_bounds x). split_and!; [done|done|lia|done| |done]. intros a. rewrite Hset'. split.
    - intros [Ha Hn]. split; [done|]. specialize (Hbelow a Ha). elia.
    - intros [Ha Hlt]. split; [done|]. elia. }
  revert Heq Hrel. clear.
  destruct (FreeList.take_range (pf_meta s) x) as [m|]; [|done]. cbn [mbind outcome_bind].
  destruct (FreeList.take_range (pf_raw s) x) as [r|]; [|done]. cbn [mbind outcome_bind].
  destruct (FreeList.take_range (pf_dead s) x) as [d|]; [|done]. cbn [mbind outcome_bind].
  destruct (FreeList.take_range (pf_unclassified s) x) as [u|]; [|done]. cbn [mbind outcome_bind].
  intros [= <-] Hrel. by apply returns_ret.
Qed.

(** Whole pages at the end of the file are released, down to the reserve kept
    for the next tails. *)
Lemma release_trailing_spec (s : PagedPostFree) (eoa n : Z) :
  lists_ok (post_lists s) → 0 ≤ eoa ≤ U64_MAX → 0 ≤ n → (∀ a, free_in (post_lists s) a → a < eoa) →
  PagedPostFree.release_trailing s eoa n ⇝ λ '(eoa', s'), trailing_released s eoa eoa' s'.
Proof.
  intros Hok Heoa Hn Hbelow. pose proof (page_size_pos (pf_page_size s)) as HP.
  assert (Hsame : Ret (eoa, s) ⇝ λ '(eoa', s'), trailing_released s eoa eoa' s').
  { apply returns_ret. split_and!; [done|done|lia|done| |lia]. intros a. specialize (Hbelow a). tauto. }
  unfold PagedPostFree.release_trailing, FileSpacePageSize.get. fold (post_lists s).
  destruct (trailing_run_lists (post_lists s) eoa Hok Hbelow) as (Hs1 & Hs2 & Hs3).
  set (start := FreeList.trailing_run_start (post_lists s) eoa) in *.
  set (P := page_bytes (pf_page_size s)) in *.
  destruct (checked_next_multiple_of start P) as [cut|] eqn:Ecut; [|exact Hsame].
  assert (Hpos : 0 ≤ start).
  { destruct (Z.le_gt_cases 0 start) as [|Hlt]; [done|]. apply (free_in_nonneg (post_lists s)), Hs2. lia. }
  apply checked_next_multiple_of_Some in Ecut as (Hc1 & Hc2 & _ & _); [|lia..].
  destruct (eoa <=? cut) eqn:E1; [exact Hsame|].
  destruct (checked_mul TRAILING_RESERVE_TAILS n ≫= _) as [keep|] eqn:Ekeep; [|exact Hsame].
  assert (Hkeep : 0 ≤ keep ∧ keep mod P = 0).
  { apply bind_Some in Ekeep as (reserve & [-> _]%checked_mul_Some & Ek).
    unfold TRAILING_RESERVE_TAILS in Ek. apply checked_next_multiple_of_Some in Ek as (? & ? & _); lia. }
  destruct (checked_mul keep 2) as [release_min|] eqn:Emin; [|exact Hsame].
  apply checked_mul_Some in Emin as [-> _].
  destruct (Address.distance_from eoa cut) as [d|] eqn:Ed; [|exact Hsame].
  apply checked_sub_Some in Ed as [-> _]. destruct (eoa - cut <? keep * 2) eqn:E2; [exact Hsame|].
  unfold Address.checked_add, Prelude.checked_add. destruct (cut + keep <=? U64_MAX) eqn:E3; [|exact Hsame].
  destruct (ext_between_ex (cut + keep) eoa) as (x & Hx & Hx1 & Hx2); [lia..|].
  apply (step_expect _ x); [done|]. apply cut_trailing; [done|done| | |done|done].
  - intros a Ha. apply Hs2. lia.
  - fold P. rewrite Z.add_mod by lia. destruct Hkeep as [_ ->]. by rewrite Hc2.
Qed.

(** ** The planned tail *)

(** A plan never publishes live bytes: the published lists are disjoint, hold
    only space that is free after the commit or lies past the old end, miss the
    reserved tail and end at the new end of allocation, which is a page boundary;
    the file is cut only over free space. *)
Record planned (e : PagedEdit) (eoa n : Z) (freed : list (Extent * FreeClass)) (old_blocks : list Extent)
    (tail : PagedTail) : Prop := {
  planned_lists : lists_ok (post_lists (tail_post tail));
  planned_len : Extent.len (tail_allocation tail) = n;
  planned_private a : inside a (tail_allocation tail) → ¬ free_in (post_lists (tail_post tail)) a;
  planned_published a : free_in (post_lists (tail_post tail)) a →
    a < tail_final_eoa tail ∧ (commit_free e freed old_blocks a ∨ eoa ≤ a);
  planned_end : Extent.end_ (tail_allocation tail) ≤ tail_final_eoa tail;
  planned_page : tail_final_eoa tail mod page_bytes (pe_page_size e) = 0;
  planned_cut a : tail_final_eoa tail ≤ a < eoa → commit_free e freed old_blocks a;
  planned_source : if tail_appended tail then eoa ≤ Extent.start (tail_allocation tail)
    else ∀ a, inside a (tail_allocation tail) → reusable e a;
}.

(** Recording what lies between two addresses, if anything. *)
Lemma track_gap `{Profile} (s : PagedPostFree) (lo hi : Z) (c : FreeClass) :
  lists_ok (post_lists s) → 0 ≤ lo → hi ≤ U64_MAX → (∀ a, lo ≤ a < hi → ¬ free_in (post_lists s) a) →
  (match Extent.between lo hi with
   | Some x => PagedPostFree.track s x c
   | None => Ret s
   end) ⇝ λ s', lists_ok (post_lists s') ∧ pf_page_size s' = pf_page_size s ∧
     ∀ a, free_in (post_lists s') a ↔ free_in (post_lists s) a ∨ lo ≤ a < hi.
Proof.
  intros Hl Hlo Hhi Hout. destruct (Extent.between lo hi) as [x|] eqn:Ex.
  - apply ext_between_Some in Ex as [Hx1 Hx2]. eapply returns_mono.
    { apply (track_spec s x c Hl). intros a Ha. apply Hout. elia. }
    intros s' (Hl' & HF' & Hset'). split_and!; [done|apply HF'|]. intros a. rewrite Hset'.
    assert (inside a x ↔ lo ≤ a < hi) by elia. tauto.
  - apply ext_between_None in Ex; [|done..]. apply returns_ret. split_and!; [done|done|]. intros a.
    assert (¬ (lo ≤ a < hi)) by lia. tauto.
Qed.

Section Plans.
Context `{Profile} (e : PagedEdit) (t eoa : Z) (freed : list (Extent * FreeClass)) (old_blocks : list Extent).
Let P := page_bytes (pe_page_size e).
Let X := returned_batch freed old_blocks.
Hypothesis Heoa : u64 eoa.

Lemma boundary_top (top : Z) :
  checked_next_multiple_of eoa P = Some top → eoa ≤ top ≤ U64_MAX ∧ top mod P = 0.
Proof.
  pose proof (page_size_pos (pe_page_size e)) as HP. fold P in HP. unfold u64 in Heoa.
  intros Ht. apply checked_next_multiple_of_Some in Ht as (H1 & H2 & H3 & _); [|lia..].
  split; [|done]. split; [lia|apply H3; lia].
Qed.

Lemma plan_append_spec :
  commit_ok e eoa X →
  PagedEdit.plan_append e t eoa freed old_blocks ⇝ λ r,
  match r with
  | Err err => err = OffsetOverflow eoa P ∧ checked_next_multiple_of eoa P = None
  | Ok ap => append_eoa ap = eoa ∧ pf_page_size (append_post ap) = pe_page_size e ∧
      lists_ok (post_lists (append_post ap)) ∧
      ∀ a, free_in (post_lists (append_post ap)) a → commit_free e freed old_blocks a
  end.
Proof.
  intros Hok. unfold PagedEdit.plan_append, PagedEdit.check_boundary, FileSpacePageSize.get. fold P.
  destruct (checked_next_multiple_of eoa P) as [top|] eqn:Etop; [|by apply returns_ret].
  pose proof (boundary_top top Etop) as [Htop _]. unfold u64 in Heoa. cbn [try_].
  eapply returns_bind; [apply (post_free_spec e t eoa top freed old_blocks Hok); [lia|exact Etop|lia]|].
  intros [post eoa'] ((Hl & Hmod & Hle & Hfree & Hcut) & Hp & _ & _).
  eapply returns_bind; [apply (track_gap post eoa' eoa (PageClass Raw) Hl); [lia|lia|]|].
  { intros a Ha Hf. apply Hfree in Hf as [_ Hlt]. lia. }
  intros post' (Hl' & Hp' & Hset'). apply returns_ret. simpl. split_and!; [done|by rewrite Hp'|done|].
  intros a [Hf|Hi]%Hset'; [by apply Hfree|by apply Hcut].
Qed.

(** A failed reserve check. *)
Lemma check_reserve_Err (n : Z) (err : FormatError) :
  0 ≤ n → PagedEdit.check_reserve P n = Err err → U64_MAX < 8 * n + P ∧ ∃ o m, err = OffsetOverflow o m.
Proof.
  intros Hn. pose proof (page_size_pos (pe_page_size e)) as HP. fold P in HP.
  unfold PagedEdit.check_reserve, TRAILING_RESERVE_TAILS.
  destruct (checked_mul n (4 * 2)) as [reserve|] eqn:Em; cbn [mbind option_bind].
  - destruct (checked_next_multiple_of reserve P) eqn:Ek; [done|]. intros [= <-]. split; [|by eexists _, _].
    apply checked_mul_Some in Em as [-> _]. apply checked_next_multiple_of_None in Ek as [_ Hk]; [|lia..].
    pose proof (Z.mod_pos_bound (n * (4 * 2)) P HP). lia.
  - intros [= <-]. split; [|by eexists _, _]. unfold checked_mul in Em. destruct (_ <=? _) eqn:E; [done|]. lia.
Qed.

Lemma append_reserve_spec (ap : PagedAppend) (n : Z) :
  commit_ok e eoa X → 0 ≤ n → append_eoa ap = eoa → pf_page_size (append_post ap) = pe_page_size e →
  lists_ok (post_lists (append_post ap)) →
  (∀ a, free_in (post_lists (append_post ap)) a → commit_free e freed old_blocks a) →
  PagedAppend.reserve ap n ⇝ λ r,
  match r with
  | Err err => (∃ o m, err = OffsetOverflow o m) ∧ (n = 0 ∨ U64_MAX < 8 * n + P ∨ U64_MAX < eoa + n + P)
  | Ok tail => planned e eoa n freed old_blocks tail ∧ tail_appended tail = true
  end.
Proof.
  intros Hok Hn He Hp Hl Hfree. unfold PagedAppend.reserve, FileSpacePageSize.get. rewrite He, Hp. fold P.
  pose proof (page_size_pos (pe_page_size e)) as HP. fold P in HP. unfold u64 in Heoa.
  destruct (PagedEdit.check_reserve P n) as [u|err] eqn:Ec; cbn [try_].
  2:{ apply returns_ret. apply check_reserve_Err in Ec as [? ?]; [|done]. split; [done|]. right. by left. }
  unfold ByteLength.nonzero. destruct (n =? 0) eqn:En; cbn [ok_or try_].
  { apply returns_ret. split; [by eexists _, _|left; lia]. }
  unfold ReservationRequest.place_after. cbn [ReservationRequest.placed_start ReservationRequest.is_block
    request_kind ReservationRequest.new ReservationRequest.with_page_type result_bind request_size].
  destruct (Extent.new eoa n) as [x|] eqn:Ex; cbn [ok_or result_map try_ placement_extent].
  2:{ apply returns_ret. apply ext_new_None in Ex; [|lia..]. split; [by eexists _, _|]. right. right. lia. }
  apply ext_new_Some in Ex as [Hx1 Hx2]. pose proof (ext_bounds x) as Bx.
  destruct (checked_next_multiple_of (Extent.end_ x) P) as [final|] eqn:Ef; cbn [ok_or try_].
  2:{ apply returns_ret. split; [by eexists _, _|]. right. right.
      apply checked_next_multiple_of_None in Ef as [_ Ef]; [|lia..].
      pose proof (Z.mod_pos_bound (Extent.end_ x) P HP). lia. }
  apply checked_next_multiple_of_Some in Ef as (Hf1 & Hf2 & Hf3 & _); [|lia..].
  assert (Hbelow : ∀ a, free_in (post_lists (append_post ap)) a → a < eoa) by (intros a Ha; by apply Hok, Hfree).
  eapply returns_bind; [apply (track_gap (append_post ap) (Extent.end_ x) final (PageClass Meta) Hl); [lia|lia|]|].
  { intros a Ha Hf. specialize (Hbelow a Hf). lia. }
  intros post' (Hl' & _ & Hset'). apply returns_ret. split; [|done].
  split; cbn [tail_post tail_allocation tail_final_eoa tail_appended]; [done|done| | |lia|done|lia|lia].
  - intros a Ha [Hf|?]%Hset'; [specialize (Hbelow a Hf)|]; elia.
  - intros a [Hf|?]%Hset'; [|lia]. split; [specialize (Hbelow a Hf); lia|left; by apply Hfree].
Qed.

(** Taking the tail out of the reusable space leaves a commit. *)
Lemma allocated_commit (e' : PagedEdit) (x : Extent) :
  commit_ok e eoa X → edit_ok e' → reusable_changed e e' → (∀ a, inside a x → reusable e a) →
  (∀ a, reusable e' a ↔ reusable e a ∧ ¬ inside a x) →
  commit_ok e' eoa X ∧ pe_page_size e' = pe_page_size e ∧ (∀ a, edit_space e' a → edit_space e a) ∧
  (∀ a, inside a x → edit_space e a ∧ ¬ edit_space e' a).
Proof.
  intros Hok Hed Hch Hin Hset. pose proof (commit_edit _ _ _ Hok) as (Hl & _ & Hpd).
  assert (Hspace : ∀ e a, edit_space e a ↔ reusable e a ∨ free_at (pe_unclassified e) a ∨
    free_at (pe_dead e) a ∨ mem a (pe_meta_pad e ++ pe_raw_pad e)).
  { intros e0 a. unfold edit_space, reusable, edit_lists, other_lists. rewrite !free_in_cons, !free_in_nil. tauto. }
  assert (Hothers : pe_unclassified e' = pe_unclassified e ∧ pe_dead e' = pe_dead e ∧
    pe_meta_pad e' = pe_meta_pad e ∧ pe_raw_pad e' = pe_raw_pad e ∧ pe_page_size e' = pe_page_size e).
  { rewrite Hch. done. }
  destruct Hothers as (HU & HD & HM & HR & Hpg).
  assert (Hsub : ∀ a, edit_space e' a → edit_space e a).
  { intros a. rewrite !Hspace, HU, HD, HM, HR, Hset. tauto. }
  split_and!; [|done|done|].
  - split; [done|apply Hok| |].
    + intros a Ha Hs. by apply (commit_fresh _ _ _ Hok a Ha), Hsub.
    + intros a [Hs|Ha]; apply (commit_below _ _ _ Hok); [left; by apply Hsub|by right].
  - intros a Hi. specialize (Hin a Hi). rewrite !Hspace, HU, HD, HM, HR, Hset. split; [by left|].
    specialize (Hpd a). unfold edit_lists, other_lists in Hl, Hpd. rewrite !lists_ok_cons in Hl.
    destruct Hl as (_ & (_ & _ & H2) & H1). specialize (H1 a). specialize (H2 a).
    rewrite !free_in_cons, !free_in_nil in *. unfold reusable in Hin. tauto.
Qed.

(** The tail taken from reusable space: what follows the allocation. *)
Lemma reused_tail (e' : PagedEdit) (request : ReservationRequest) (x : Extent) (top : Z) :
  commit_ok e eoa X → edit_ok e' → reusable_changed e e' → (∀ a, inside a x → reusable e a) →
  (∀ a, reusable e' a ↔ reusable e a ∧ ¬ inside a x) → Extent.len x = request_size request →
  checked_next_multiple_of eoa P = Some top →
  ('(post, released_eoa) ← PagedEdit.post_free e' t eoa freed old_blocks;
   '(final_eoa, post) ← PagedPostFree.release_trailing post released_eoa (request_size request);
   Ret (Ok (Some (mkTail x post final_eoa false request)))) ⇝ λ r,
   ∃ tail, r = @Ok _ FormatError (Some tail) ∧ planned e eoa (request_size request) freed old_blocks tail ∧
     tail_allocation tail = x ∧ tail_appended tail = false ∧ tail_request tail = request.
Proof.
  intros Hok Hed Hch Hin Hset Hlen Htop.
  destruct (allocated_commit e' x Hok Hed Hch Hin Hset) as (Hok' & Hpg & Hsub & Hx).
  pose proof (boundary_top top Htop) as [Ht _]. unfold u64 in Heoa. pose proof (ext_bounds x) as Bx.
  assert (Hfsub : ∀ a, commit_free e' freed old_blocks a → commit_free e freed old_blocks a).
  { intros a [Ha|Ha]; [left; by apply Hsub|by right]. }
  assert (Hxfree : ∀ a, inside a x → ¬ commit_free e' freed old_blocks a).
  { intros a Hi [Hs|Hm]; [by apply (Hx a Hi)|]. apply (commit_fresh _ _ _ Hok a Hm). by apply Hx. }
  eapply returns_bind.
  { apply (post_free_spec e' t eoa top freed old_blocks Hok'); [lia|by rewrite Hpg|lia]. }
  intros [post eoa1] ((Hl1 & Hmod1 & Hle1 & Hfree1 & Hcut1) & Hp1 & _ & _). rewrite Hpg in Hmod1, Hp1.
  eapply returns_bind; [apply (release_trailing_spec post eoa1); [done|lia|lia|intros a Ha; by apply Hfree1]|].
  intros [eoa2 post2] (Hl2 & _ & Hle2 & Hmod2 & Hset2 & Hcut2). rewrite Hp1 in Hmod2. apply returns_ret.
  assert (Hcut : ∀ a, eoa2 ≤ a < eoa → commit_free e' freed old_blocks a).
  { intros a Ha. destruct (Z.lt_ge_cases a eoa1) as [Hlt|Hge]; [apply Hfree1, Hcut2; lia|apply Hcut1; lia]. }
  eexists. split_and!; [done| |done|done|done].
  split; cbn [tail_post tail_allocation tail_final_eoa tail_appended]; [done|done| | | |by apply Hmod2| |done].
  - intros a Hi Hf. apply Hset2 in Hf as [Hf _]. apply (Hxfree a Hi). by apply Hfree1.
  - intros a [Hf Hlt]%Hset2. split; [done|]. left. by apply Hfsub, Hfree1.
  - destruct (Z.le_gt_cases (Extent.end_ x) eoa2) as [|Hgt]; [done|]. exfalso.
    apply (Hxfree (Extent.end_ x - 1)); [elia|]. apply Hcut. split; [lia|].
    apply (commit_below _ _ _ Hok). left. apply Hx. elia.
  - intros a Ha. by apply Hfsub, Hcut.
Qed.

(** Why a plan is refused. *)
Definition plan_refused (n : Z) : Prop :=
  checked_next_multiple_of eoa P = None ∨ U64_MAX < 8 * n + P.

Lemma plan_reusable_tail_spec (request : ReservationRequest) :
  commit_ok e eoa X → 0 < request_size request →
  PagedEdit.plan_reusable_tail e t eoa freed old_blocks request ⇝ λ r,
  match r with
  | Err err => (∃ o m, err = OffsetOverflow o m) ∧ plan_refused (request_size request)
  | Ok None => ReservationRequest.is_block request = false → no_fit e (request_page_type request) (request_size request)
  | Ok (Some tail) => planned e eoa (request_size request) freed old_blocks tail ∧
      tail_appended tail = false ∧ tail_request tail = request ∧
      legal_start request (Some (pe_page_size e)) (Extent.start (tail_allocation tail))
  end.
Proof.
  intros Hok Hn. unfold PagedEdit.plan_reusable_tail, FileSpacePageSize.get. fold P.
  unfold PagedEdit.check_boundary. destruct (checked_next_multiple_of eoa P) as [top|] eqn:Etop; cbn [try_].
  2:{ apply returns_ret. split; [by eexists _, _|by left]. }
  destruct (PagedEdit.check_reserve P (request_size request)) as [u|err] eqn:Ec; cbn [try_].
  2:{ apply returns_ret. apply check_reserve_Err in Ec as [? ?]; [|lia]. split; [done|by right]. }
  pose proof (commit_edit _ _ _ Hok) as Hed.
  (** Either allocator serves the request legally or leaves nothing. *)
  assert (Halloc : (if ReservationRequest.is_block request then PagedEdit.allocate_block e request
      else PagedEdit.allocate e (request_size request) (request_page_type request)) ⇝ λ '(o, e'), edit_ok e' ∧
    match o with
    | Some x => Extent.len x = request_size request ∧
        legal_start request (Some (pe_page_size e)) (Extent.start x) ∧ reusable_changed e e' ∧
        (∀ a, inside a x → reusable e a) ∧ (∀ a, reusable e' a ↔ reusable e a ∧ ¬ inside a x)
    | None => ReservationRequest.is_block request = false → no_fit e (request_page_type request) (request_size request)
    end).
  { destruct (ReservationRequest.is_block request) eqn:Eb.
    - eapply returns_mono; [by apply paged_allocate_block_spec|]. intros [[x|] e']; [done|]. by intros [? _].
    - eapply returns_mono; [by apply paged_allocate_spec|]. intros [[x|] e']; [|naive_solver].
      intros (? & ? & ? & ? & ?). split_and!; try done.
      unfold legal_start, ReservationRequest.is_block in *. by destruct (request_kind request). }
  eapply returns_bind; [exact Halloc|]. intros [[x|] e'] [Hed' Hx]; [|by apply returns_ret].
  destruct Hx as (Hlen & Hleg & Hch & Hin & Hset).
  eapply returns_mono; [by apply (reused_tail e' request x top)|].
  intros r (tail & -> & Hplan & Ha & Hap & Hr). rewrite Ha. by split_and!.
Qed.

(** The whole plan of a tail. *)
Lemma plan_tail_spec (n : Z) (appended : bool) :
  commit_ok e eoa X → 0 ≤ n →
  PagedTailPlan.plan_tail e t eoa freed old_blocks n appended ⇝ λ r,
  match r with
  | Err err => (∃ o m, err = OffsetOverflow o m) ∧
      (plan_refused n ∨ appended = true ∧ (n = 0 ∨ U64_MAX < eoa + n + P))
  | Ok None => appended = false ∧ (n = 0 ∨ no_fit e Meta n)
  | Ok (Some tail) => planned e eoa n freed old_blocks tail ∧ tail_appended tail = appended
  end.
Proof.
  intros Hok Hn. unfold PagedTailPlan.plan_tail, FileSpacePageSize.get. fold P.
  destruct (PagedEdit.check_boundary P eoa) as [u|err] eqn:Eb; cbn [try_].
  2:{ unfold PagedEdit.check_boundary in Eb. destruct (checked_next_multiple_of eoa P) eqn:Et; [done|].
      injection Eb as <-. apply returns_ret. split; [by eexists _, _|left; by left]. }
  destruct (PagedEdit.check_reserve P n) as [u'|err] eqn:Ec; cbn [try_].
  2:{ apply returns_ret. apply check_reserve_Err in Ec as [? ?]; [|done]. split; [done|left; by right]. }
  destruct appended.
  - eapply returns_bind; [exact (plan_append_spec Hok)|]. intros [ap|err]; cbn [try_].
    + intros (He & Hp & Hl & Hfree). eapply returns_bind; [exact (append_reserve_spec ap n Hok Hn He Hp Hl Hfree)|].
      intros [tail|err] Hr; apply returns_ret; simpl; [done|]. destruct Hr as [? Hr]. split; [done|].
      unfold plan_refused. tauto.
    + intros [-> Hnone]. apply returns_ret. split; [by eexists _, _|left; by left].
  - unfold ByteLength.nonzero. destruct (n =? 0) eqn:En; [apply returns_ret; split; [done|left; lia]|].
    eapply returns_mono; [apply (plan_reusable_tail_spec (ReservationRequest.new n Metadata) Hok); simpl; lia|].
    intros [[tail|]|err]; simpl.
    + intros (? & ? & _). done.
    + intros Hno. split; [done|right; by apply Hno].
    + intros [? ?]. split; [done|by left].
Qed.
End Plans.

(** ** Adopting the published state *)

(** A session that adopts a post-free state holds the published space and the
    unused part of an appended tail, and has no padding left. *)
Lemma adopt_post_free_spec `{Profile} (e : PagedEdit) (post : PagedPostFree) (appended : bool) (tail : option Extent) :
  lists_ok (post_lists post) → (∀ x, tail = Some x → outside post x) →
  PagedEdit.adopt_post_free e post appended tail ⇝ λ e', edit_ok e' ∧
    (∀ a, edit_space e' a ↔ free_in (post_lists post) a ∨ mem a (option_list tail)) ∧
    pe_page_size e' = pe_page_size e ∧ pe_last e' = (if appended then Some Meta else pe_last e).
Proof.
  intros Hok Hout. pose proof Hok as (Hw & HwU & Hd & HdU)%post_lists_ok. unfold PagedEdit.adopt_post_free.
  eapply returns_bind with (P := λ meta, wf meta ∧ ∀ a, free_at meta a ↔ free_at (pf_meta post) a ∨ mem a (option_list tail)).
  { destruct tail as [x|]; simpl.
    - eapply returns_mono.
      { apply (free_spec _ x (Hw (PageClass Meta))). intros _.
        apply (outside_clear post x); [by apply Hout|]. apply (class_list_in post (PageClass Meta)). }
      intros meta [Hwm Hs]. split; [done|]. intros a. by rewrite Hs, mem_singleton.
    - apply returns_ret. split; [exact (Hw (PageClass Meta))|]. intros a. rewrite mem_nil. tauto. }
  intros meta [Hwm Hset]. apply returns_ret.
  assert (Hex : ∀ a, mem a (option_list tail) → ¬ free_in (post_lists post) a).
  { intros a Ha. destruct tail as [x|]; [|by apply mem_nil in Ha]. apply mem_singleton in Ha. by apply (Hout x). }
  split_and!; [split_and!| |done|done]; [|constructor|by intros a Ha%mem_nil|].
  - unfold edit_lists, other_lists; simpl. rewrite !lists_ok_cons.
    assert (Hdis : ∀ a, (free_at meta a → ¬ (free_at (pf_raw post) a ∨ free_at (pf_unclassified post) a ∨ free_at (pf_dead post) a)) ∧
      (free_at (pf_raw post) a → ¬ (free_at (pf_unclassified post) a ∨ free_at (pf_dead post) a)) ∧
      (free_at (pf_unclassified post) a → ¬ free_at (pf_dead post) a)).
    { intros a. rewrite Hset. specialize (Hex a). rewrite free_in_post, class_exists in Hex.
      pose proof (HdU (PageClass Meta) a). pose proof (HdU (PageClass Raw) a). pose proof (HdU Dead a).
      pose proof (Hd (PageClass Meta) (PageClass Raw) a). pose proof (Hd (PageClass Meta) Dead a).
      pose proof (Hd (PageClass Raw) Dead a). simpl in *. intuition congruence. }
    split_and!; [done|exact (Hw (PageClass Raw))|done|exact (Hw Dead)|apply lists_ok_nil|..]; intros a Ha;
      specialize (Hdis a); rewrite ?free_in_cons, free_in_nil; tauto.
  - intros a. unfold edit_space, edit_lists, other_lists, post_lists. simpl.
    rewrite !free_in_cons, !free_in_nil, mem_nil, Hset. tauto.
Qed.
