(* ===== verification/PersistFacts.v ===== *)
(** * Persisting and reloading PAGE free space

    [ManagerSections::paged_lists] partitions the free space into managers and
    [PagedEdit::from_persisted] rebuilds the session lists from sorted sections.
    Composing them keeps the set of free addresses and moves only whole pages, to raw. *)

From S2P Require Import Prelude Addresses Extents Regions Requests FreeLists FreeListFacts.
From S2P Require Import FreeListMerge Admission Persistence Paged PagedEdits PagedFacts.

Local Open Scope Z_scope.

(** ** Writing *)

Lemma starts_increasing_ordered (l : list Extent) :
  ordered l → ManagerSections.starts_increasing l = true.
Proof.
  induction l as [|x [|y l] IH]; [done..|]. intros [HF Ho]%ordered_cons.
  cbn [ManagerSections.starts_increasing]. apply andb_true_iff. split; [|by apply IH].
  apply Forall_cons in HF as [Hb _]. unfold before in Hb. elia.
Qed.

Section Writing.
Context `{Profile} (p : FileSpacePageSize).

(** The three section lists before empty ones are filtered out. *)
Definition split_lists (m r u : list Extent) : list Extent * list Extent * list Extent :=
  let '(metadata, g1) := ManagerSections.split_typed m p in
  let '(raw, g2) := ManagerSections.split_typed r p in
  (metadata, raw, merge_sort start_le (g1 ++ g2 ++ u)).

Definition manager_list (m r u : list Extent) : list ManagerSections :=
  let '(metadata, raw, generic) := split_lists m r u in
  omap (λ '(kind, sections),
          match sections with [] => None | _ => Some (mkManager kind sections) end)
    [(PagedSmallMetadata, metadata); (PagedSmallRaw, raw); (PagedLargeGeneric, generic)].

(** All sections of all managers, each with its manager. *)
Definition tagged_sections (ms : list ManagerSections) : list (option ManagerKind * Extent) :=
  ms ≫= λ x, (λ e, (Some (manager_kind x), e)) <$> manager_sections x.

Lemma split_lists_perm (m r u metadata raw generic : list Extent) :
  split_lists m r u = (metadata, raw, generic) →
  metadata ++ raw ++ generic ≡ₚ
    (m ≫= (λ e, pieces (PageParts.new e p))) ++ (r ≫= (λ e, pieces (PageParts.new e p))) ++ u.
Proof.
  unfold split_lists. pose proof (split_typed_perm p m) as Hm. pose proof (split_typed_perm p r) as Hr.
  destruct (ManagerSections.split_typed m p) as [m1 g1], (ManagerSections.split_typed r p) as [r1 g2].
  simpl in Hm, Hr. intros [= <- <- <-]. rewrite merge_sort_Permutation, <- Hm, <- Hr.
  rewrite <- !app_assoc. apply Permutation_app_head. rewrite !app_assoc. apply Permutation_app_tail.
  rewrite <- !app_assoc, (Permutation_app_comm r1), <- !app_assoc. apply Permutation_app_head.
  apply Permutation_app_comm.
Qed.

Lemma split_lists_apart (m r u metadata raw generic : list Extent) :
  all_apart (m ++ r ++ u) → split_lists m r u = (metadata, raw, generic) →
  all_apart (metadata ++ raw ++ generic).
Proof.
  intros Ha Hs. eapply all_apart_perm; [symmetry; by apply split_lists_perm|].
  apply all_apart_app in Ha as (Hm & Hru & Hx). apply all_apart_app in Hru as (Hr & Hu & Hy).
  assert (Hin : ∀ l e, e ∈ l ≫= (λ e, pieces (PageParts.new e p)) → ∃ f, f ∈ l ∧ within e f).
  { intros l e (f & He & Hf)%list_elem_of_bind. exists f. split; [done|by eapply pieces_within]. }
  apply all_apart_app. split_and!; [by apply all_apart_pieces| |].
  - apply all_apart_app. split_and!; [by apply all_apart_pieces|done|].
    intros e f (e' & He' & Hw)%Hin Hf. specialize (Hy e' f He' Hf). elia.
  - intros e f (e' & He' & Hw)%Hin [(f' & Hf' & Hw')%Hin|Hf]%elem_of_app.
    + specialize (Hx e' f' He'). rewrite elem_of_app in Hx. specialize (Hx (or_introl Hf')). elia.
    + specialize (Hx e' f He'). rewrite elem_of_app in Hx. specialize (Hx (or_intror Hf)). elia.
Qed.

(** On disjoint lists the debug check passes. *)
Lemma paged_lists_ret (m r u : list Extent) :
  all_apart (m ++ r ++ u) → ManagerSections.paged_lists m r u p = Ret (manager_list m r u).
Proof.
  intros Ha. destruct (split_lists m r u) as [[metadata raw] generic] eqn:Es.
  pose proof (split_lists_apart _ _ _ _ _ _ Ha Es) as Hap.
  unfold manager_list. rewrite Es. unfold split_lists in Es. unfold ManagerSections.paged_lists.
  destruct (ManagerSections.split_typed m p) as [m1 g1], (ManagerSections.split_typed r p) as [r1 g2].
  injection Es as <- <- <-. cbv zeta.
  assert (Ho : ordered (merge_sort start_le (g1 ++ g2 ++ u))).
  { apply all_apart_app in Hap as (_ & Hap & _). apply all_apart_app in Hap as (_ & Hap & _).
    apply merge_sort_ordered. eapply all_apart_perm; [|exact Hap]. apply merge_sort_Permutation. }
  unfold debug_assert. rewrite (starts_increasing_ordered _ Ho). by destruct debug_assertions.
Qed.

Lemma tagged_sections_list (m r u metadata raw generic : list Extent) :
  split_lists m r u = (metadata, raw, generic) →
  tagged_sections (manager_list m r u) =
    ((λ e, (Some PagedSmallMetadata, e)) <$> metadata) ++ ((λ e, (Some PagedSmallRaw, e)) <$> raw)
    ++ ((λ e, (Some PagedLargeGeneric, e)) <$> generic).
Proof.
  intros Hs. unfold manager_list. rewrite Hs. unfold tagged_sections.
  destruct metadata, raw, generic; simpl; rewrite ?app_nil_r, ?fmap_app; simpl; rewrite <- ?app_assoc, ?app_nil_r; done.
Qed.

(** Every manager is nonempty; the small ones hold pieces of one page, and the
    generic one is sorted. *)
Lemma manager_list_shape (m r u : list Extent) (x : ManagerSections) :
  all_apart (m ++ r ++ u) → x ∈ manager_list m r u →
  manager_sections x ≠ [] ∧
  match manager_kind x with
  | PagedLargeGeneric => ordered (manager_sections x)
  | PagedSmallMetadata | PagedSmallRaw => Forall (in_one_page p) (manager_sections x)
  | ManagerFlat => False
  end.
Proof.
  intros Ha. destruct (split_lists m r u) as [[metadata raw] generic] eqn:Es.
  pose proof (split_lists_apart _ _ _ _ _ _ Ha Es) as Hap.
  unfold manager_list. rewrite Es. intros Hx. apply list_elem_of_omap in Hx as ([k l] & Hin & Hx).
  destruct l as [|e l]; [done|]. injection Hx as <-. simpl. split; [done|].
  unfold split_lists in Es. unfold ManagerSections.split_typed in Es. injection Es as Em Er Eg.
  assert (Hedge : ∀ l, Forall (in_one_page p) (l ≫= (λ e, PageParts.edges (PageParts.new e p)))).
  { intros l'. apply Forall_forall. intros f (e' & Hf & _)%list_elem_of_bind. by eapply edges_in_one_page. }
  repeat (apply elem_of_cons in Hin as [[= -> Hl]|Hin]); [| | |by apply not_elem_of_nil in Hin]; simpl; rewrite Hl.
  - rewrite <- Em. apply Hedge.
  - rewrite <- Er. apply Hedge.
  - rewrite <- Eg. apply merge_sort_ordered.
    apply all_apart_app in Hap as (_ & Hap & _). apply all_apart_app in Hap as (_ & Hap & _).
    eapply all_apart_perm; [|exact Hap]. rewrite <- Eg. apply merge_sort_Permutation.
Qed.

End Writing.

(** ** Reading *)

Section Reading.
Context (p : FileSpacePageSize).

Lemma persisted_parts_within (k : option ManagerKind) (e : Extent) :
  ordered ((PagedEdit.persisted_parts p k e).*1) ∧
  Forall (λ f, within f e) ((PagedEdit.persisted_parts p k e).*1) ∧
  (∀ a, mem a ((PagedEdit.persisted_parts p k e).*1) ↔ inside a e).
Proof.
  pose proof (ext_bounds e) as Be. pose proof (page_size_pos p) as Hp.
  assert (Hone : ordered [e] ∧ Forall (λ f, within f e) [e] ∧ ∀ a, mem a [e] ↔ inside a e).
  { split_and!; [repeat constructor|constructor; [elia|constructor]|intros; apply mem_singleton]. }
  destruct k as [[]|]; simpl; try exact Hone.
  destruct (Extent.aligned_interior e _) as [i|] eqn:Ei; simpl; [|exact Hone].
  pose proof (ext_bounds i) as Bi. apply ext_aligned_interior_Some in Ei; [|done].
  rewrite !fmap_app, <- !list_fmap_compose.
  change ((fst ∘ (λ e0 : Extent, (e0, None : option PageType))) <$> ?l) with (id <$> l).
  assert (Hid : ∀ l : list Extent, (fst ∘ (λ e0, (e0, None : option PageType))) <$> l = l).
  { intros l. apply list_fmap_id. }
  rewrite fmap_cons, <- list_fmap_compose, !Hid. simpl.
  split_and!.
  - apply ordered_app. split_and!.
    + destruct (Extent.between _ _); repeat constructor.
    + apply ordered_cons. split; [|destruct (Extent.between _ _); repeat constructor].
      apply Forall_forall. intros f Hf%elem_of_between. unfold before. lia.
    + intros f g Hf%elem_of_between [->|Hg%elem_of_between]%elem_of_cons; unfold before; lia.
  - apply Forall_app. split; [|constructor; [elia|]]; apply parts_of_between; lia.
  - intros a. rewrite mem_app, mem_cons, !mem_between by lia. elia.
Qed.

Lemma order_error_ordered (previous : option Extent) (e : Extent) :
  ordered (option_list previous ++ [e]) → FreeList.order_error previous e = None.
Proof.
  destruct previous as [q|]; [|done]. simpl. intros [HF _]%ordered_cons.
  apply Forall_cons in HF as [Hb _]. unfold before in Hb. pose proof (ext_bounds q).
  destruct (Extent.start e <? Extent.start q) eqn:E1; [lia|].
  destruct (Extent.start e <? Extent.end_ q) eqn:E2; [lia|done].
Qed.

Lemma persisted_loop_ok (previous : option Extent) (sections : list (option ManagerKind * Extent)) :
  ordered (option_list previous ++ sections.*2) →
  PagedEdit.persisted_loop p previous sections =
  Ok (sections ≫= λ x, PagedEdit.persisted_parts p x.1 x.2).
Proof.
  revert previous. induction sections as [|[k e] sections IH]; intros previous Ho; [done|].
  cbn [PagedEdit.persisted_loop]. rewrite fmap_cons in Ho.
  assert (FreeList.order_error previous e = None) as ->.
  { apply order_error_ordered. apply ordered_app in Ho as (Ho1 & Ho2 & Hx).
    apply ordered_app. split_and!; [done|repeat constructor|].
    intros a b Ha ->%list_elem_of_singleton. apply Hx; [done|by left]. }
  rewrite IH; [done|]. simpl. apply ordered_app in Ho as (_ & Ho & _). exact Ho.
Qed.

(** The first pair out of order is reported. *)
Lemma persisted_loop_err (pre post : list (option ManagerKind * Extent)) (x y : option ManagerKind * Extent) :
  ordered (pre.*2 ++ [x.2]) → Extent.start y.2 < Extent.end_ x.2 →
  PagedEdit.persisted_loop p None (pre ++ x :: y :: post) =
  Err (if Extent.start y.2 <? Extent.start x.2 then Unsorted x.2 y.2 else Overlap x.2 y.2).
Proof.
  intros Ho Hlt.
  enough (Hg : ∀ previous, ordered (option_list previous ++ pre.*2 ++ [x.2]) →
    PagedEdit.persisted_loop p previous (pre ++ x :: y :: post) =
    Err (if Extent.start y.2 <? Extent.start x.2 then Unsorted x.2 y.2 else Overlap x.2 y.2)).
  { by apply Hg. }
  pose proof order_error_ordered as Hstep.
  clear Ho. induction pre as [|[k e] pre IH]; intros previous Ho.
  - destruct x as [kx ex], y as [ky ey]. simpl in *. rewrite Hstep by exact Ho.
    destruct (Extent.start ey <? Extent.start ex) eqn:E1; [done|].
    destruct (Extent.start ey <? Extent.end_ ex) eqn:E2; [done|lia].
  - cbn [PagedEdit.persisted_loop app]. rewrite fmap_cons in Ho. rewrite Hstep.
    + rewrite IH; [done|]. simpl. by apply ordered_app in Ho as (_ & Ho & _).
    + apply ordered_app in Ho as (Ho1 & Ho2 & Hx). apply ordered_app. split_and!; [done|repeat constructor|].
      intros a b Ha ->%list_elem_of_singleton. apply Hx; [done|by left].
Qed.

(** All parts, in address order. *)
Lemma parts_ordered (sections : list (option ManagerKind * Extent)) :
  ordered (sections.*2) →
  let parts := sections ≫= λ x, PagedEdit.persisted_parts p x.1 x.2 in
  ordered (parts.*1) ∧ (∀ a, mem a (parts.*1) ↔ mem a (sections.*2)) ∧
  Forall (λ f, ∃ x, x ∈ sections ∧ within f x.2) (parts.*1).
Proof.
  intros Ho. cbv zeta. induction sections as [|x sections IH].
  { split_and!; [constructor| |constructor]. intros a. done. }
  rewrite fmap_cons in Ho. apply ordered_cons in Ho as [HF Ho]. destruct (IH Ho) as (H1 & H2 & H3).
  destruct (persisted_parts_within x.1 x.2) as (P1 & P2 & P3). cbn. rewrite fmap_app.
  rewrite Forall_forall in HF, H3, P2. split_and!.
  - apply ordered_app. split_and!; [done..|]. intros f g Hf%P2 Hg%H3. destruct Hg as (y & Hy & Hw).
    assert (before x.2 y.2) by (apply HF, list_elem_of_fmap; by exists y). unfold before in *. elia.
  - intros a. rewrite mem_app, mem_cons, P3, H2. done.
  - apply Forall_app. split; apply Forall_forall; intros f Hf.
    + exists x. split; [by left|by apply P2].
    + destruct (H3 f Hf) as (y & Hy & Hw). exists y. split; [by right|done].
Qed.

Lemma parts_typed_ordered (ty : option PageType) (parts : list (Extent * option PageType)) :
  ordered (parts.*1) → ordered (PagedEdit.parts_typed ty parts).
Proof.
  unfold PagedEdit.parts_typed. induction parts as [|x parts IH]; [done|].
  rewrite fmap_cons, filter_cons. intros [HF Ho]%ordered_cons. case_decide; [|by apply IH].
  rewrite fmap_cons. apply ordered_cons. split; [|by apply IH]. rewrite Forall_forall in *.
  intros f Hf. apply list_elem_of_fmap in Hf as (y & -> & Hy). apply list_elem_of_filter in Hy as [_ Hy].
  apply HF, list_elem_of_fmap. by exists y.
Qed.

Lemma mem_parts_typed (ty : option PageType) (parts : list (Extent * option PageType)) (a : Z) :
  mem a (PagedEdit.parts_typed ty parts) ↔ ∃ e, (e, ty) ∈ parts ∧ inside a e.
Proof.
  unfold PagedEdit.parts_typed, mem. split.
  - intros (e & He & Hi). apply list_elem_of_fmap in He as ([f t] & -> & Hf).
    apply list_elem_of_filter in Hf as [Ht Hf]. simpl in *. subst t. by exists f.
  - intros (e & He & Hi). exists e. split; [|done]. apply list_elem_of_fmap. exists (e, ty).
    split; [done|]. by apply list_elem_of_filter.
Qed.

(** An address lies in one part only. *)
Lemma part_unique (parts : list (Extent * option PageType)) (a : Z) (e f : Extent) (t u : option PageType) :
  ordered (parts.*1) → (e, t) ∈ parts → (f, u) ∈ parts → inside a e → inside a f → t = u.
Proof.
  induction parts as [|x parts IH]; [by intros _ ?%not_elem_of_nil|].
  rewrite fmap_cons. intros [HF Ho]%ordered_cons. rewrite Forall_forall in HF.
  assert (Hin : ∀ y, y ∈ parts → before x.1 y.1) by (intros y Hy; apply HF, list_elem_of_fmap; by exists y).
  intros [He|He]%elem_of_cons [Hf|Hf]%elem_of_cons Hie Hif.
  - congruence.
  - specialize (Hin _ Hf). rewrite <- He in Hin. simpl in Hin. unfold before in Hin. elia.
  - specialize (Hin _ He). rewrite <- Hf in Hin. simpl in Hin. unfold before in Hin. elia.
  - by apply IH.
Qed.

Lemma from_persisted_ok (sections : list (option ManagerKind * Extent)) :
  ordered (sections.*2) →
  PagedEdit.from_persisted p sections ⇝ λ r, ∃ e, r = Ok e ∧ edit_ok e ∧ pe_page_size e = p ∧
    pe_dead e = FreeList.new ∧ pe_last e = None ∧
    let parts := sections ≫= λ x, PagedEdit.persisted_parts p x.1 x.2 in
    let typed ty a := ∃ f, (f, ty) ∈ parts ∧ inside a f in
    let W := whole_page p (λ a, typed (Some Meta) a ∨ typed (Some Raw) a) in
    (∀ a, free_at (pe_meta e) a ↔ typed (Some Meta) a ∧ ¬ W a) ∧
    (∀ a, free_at (pe_raw e) a ↔ typed (Some Raw) a ∨ W a) ∧
    (∀ a, free_at (pe_unclassified e) a ↔ typed None a).
Proof.
  intros Ho. unfold PagedEdit.from_persisted. rewrite (persisted_loop_ok None) by exact Ho.
  destruct (parts_ordered sections Ho) as (Hpo & _ & _). cbv zeta.
  set (parts := sections ≫= _) in *.
  assert (Hsort : ∀ ty, FreeList.from_sorted (PagedEdit.parts_typed ty parts) ⇝ λ r, ∃ l, r = Ok l ∧ wf l ∧
    ∀ a, free_at l a ↔ ∃ f, (f, ty) ∈ parts ∧ inside a f).
  { intros ty. eapply returns_mono; [by apply from_sorted_ok, parts_typed_ordered|].
    intros r (l & -> & Hw & Hs). exists l. split_and!; [done..|]. intros a. unfold free_at.
    by rewrite (Hs a), mem_parts_typed. }
  destruct (Hsort (Some Meta)) as (? & -> & meta & -> & Hwm & Hsm).
  destruct (Hsort (Some Raw)) as (? & -> & raw & -> & Hwr & Hsr).
  destruct (Hsort None) as (? & -> & unc & -> & Hwu & Hsu). cbn [mbind outcome_bind try_].
  assert (Hdisj : ∀ l1 l2 t1 t2 a, t1 ≠ t2 →
    (∀ a, free_at l1 a ↔ ∃ f, (f, t1) ∈ parts ∧ inside a f) →
    (∀ a, free_at l2 a ↔ ∃ f, (f, t2) ∈ parts ∧ inside a f) → free_at l1 a → ¬ free_at l2 a).
  { intros l1 l2 t1 t2 a Hne Hl1 Hl2 (f & Hf & Hi)%Hl1 (g & Hg & Hi')%Hl2. apply Hne.
    by eapply (part_unique parts a f g). }
  assert (Hlok : lists_ok [meta; raw; FreeList.new]).
  { rewrite !lists_ok_cons. split_and!; [done|done|apply wf_new|apply lists_ok_nil|..].
    - intros a _. rewrite free_in_nil. tauto.
    - intros a Ha. rewrite free_in_cons, free_in_nil. intros [Hn|[]]. by apply (mem_nil a) in Hn.
    - intros a Ha. rewrite !free_in_cons, free_in_nil. intros [Hr|[Hn|[]]]; [|by apply (mem_nil a) in Hn].
      by apply (Hdisj meta raw (Some Meta) (Some Raw) a). }
  unfold PagedEdit.finish_seed. simpl.
  destruct (promote_spec p meta raw FreeList.new Hlok) as ([[meta' raw'] dead'] & -> & Hlok' & Hm' & Hr' & Hd').
  cbn [mbind outcome_bind]. apply returns_ret. eexists. split; [done|]. simpl.
  apply lists_ok_cons in Hlok' as (Hwm' & Hlok' & Hx1). apply lists_ok_cons in Hlok' as (Hwr' & Hlok' & Hx2).
  apply lists_ok_cons in Hlok' as (Hwd' & _ & _).
  assert (dead' = FreeList.new) as ->.
  { apply wf_unique; [done|apply wf_new|]. intros a. rewrite Hd'. split; [tauto|]. intros Hn. by apply (mem_nil a) in Hn. }
  assert (HW : ∀ a, whole_page p (free_in [meta; raw; FreeList.new]) a ↔ whole_page p (λ a,
    (∃ f, (f, Some Meta) ∈ parts ∧ inside a f) ∨ (∃ f, (f, Some Raw) ∈ parts ∧ inside a f)) a).
  { intros a. unfold whole_page. split; intros Hw b Hb; specialize (Hw b Hb).
    - rewrite !free_in_cons, free_in_nil in Hw. rewrite <- Hsm, <- Hsr.
      destruct Hw as [?|[?|[Hn|[]]]]; [tauto|tauto|by apply (mem_nil b) in Hn].
    - rewrite !free_in_cons, free_in_nil, Hsm, Hsr. tauto. }
  split_and!; [|done..| | |done].
  - split_and!; simpl; [|constructor|intros a Hn; by apply mem_nil in Hn].
    unfold edit_lists, other_lists. simpl. rewrite !lists_ok_cons.
    assert (Hun : ∀ a, free_at unc a → ¬ free_at meta a ∧ ¬ free_at raw a).
    { intros a Hu. split; [by apply (Hdisj unc meta None (Some Meta) a)|by apply (Hdisj unc raw None (Some Raw) a)]. }
    assert (Hwpage : ∀ a, whole_page p (free_in [meta; raw; FreeList.new]) a → free_at meta a ∨ free_at raw a).
    { intros a Hw%whole_page_self. rewrite !free_in_cons, free_in_nil in Hw.
      destruct Hw as [?|[?|[Hn|[]]]]; [tauto|tauto|by apply (mem_nil a) in Hn]. }
    split_and!; [done|done|done|apply wf_new|apply lists_ok_nil|..]; intros a Ha; rewrite ?free_in_cons, ?free_in_nil.
    + tauto.
    + intros [Hn|[]]. by apply (mem_nil a) in Hn.
    + intros [Hu|[Hn|[]]]; [|by apply (mem_nil a) in Hn]. apply Hr' in Ha.
      destruct (Hun a Hu). destruct Ha as [?|Hw%Hwpage]; tauto.
    + intros [Hr|[Hu|[Hn|[]]]]; [|apply Hm' in Ha; destruct (Hun a Hu); tauto|by apply (mem_nil a) in Hn].
      apply (Hx1 a Ha). rewrite free_in_cons. by left.
  - intros a. by rewrite Hm', Hsm, HW.
  - intros a. by rewrite Hr', Hsr, HW.
Qed.

End Reading.

(** ** Round trip *)

Section RoundTrip.
Context (p : FileSpacePageSize).

Lemma aligned_interior_self (i : Extent) :
  page_aligned p i → Extent.aligned_interior i (page_bytes p) = Some i.
Proof.
  intros [H1 H2]. pose proof (page_size_pos p). apply ext_aligned_interior_Some; [done|]. elia.
Qed.

(** The whole pages inside the extents of a list. *)
Notation interiors l := (omap (λ e, Extent.aligned_interior e (page_bytes p)) l).

Lemma mem_interiors (l : list Extent) (a : Z) :
  mem a (interiors l) ↔ ∃ e i, e ∈ l ∧ Extent.aligned_interior e (page_bytes p) = Some i ∧ inside a i.
Proof.
  split.
  - intros (i & Hi & Ha). apply list_elem_of_omap in Hi as (e & He & Hi). eauto.
  - intros (e & i & He & Hi & Ha). exists i. split; [|done]. apply list_elem_of_omap. eauto.
Qed.

Lemma interior_list (l : list Extent) :
  (l ≫= λ e, option_list (interior (PageParts.new e p))) = interiors l.
Proof.
  induction l as [|e l IH]; [done|]. rewrite bind_cons, IH. cbn. unfold PageParts.new, FileSpacePageSize.get.
  by destruct (Extent.aligned_interior e (page_bytes p)).
Qed.

Lemma whole_page_dec (l : FreeList) (a : Z) : wf l → whole_page p (free_at l) a ∨ ¬ whole_page p (free_at l) a.
Proof.
  intros Hw. unfold free_at. rewrite <- interiors_whole_pages by apply Hw.
  exact (free_at_dec (mkFreeList (interiors (regions l)) 0) a).
Qed.

Lemma inside_unique (l : list Extent) (a : Z) (e f : Extent) :
  ordered l → e ∈ l → f ∈ l → inside a e → inside a f → e = f.
Proof.
  induction l as [|x l IH]; [by intros _ ?%not_elem_of_nil|]. intros [HF Ho]%ordered_cons. rewrite Forall_forall in HF.
  intros [->|He]%elem_of_cons [->|Hf]%elem_of_cons Hie Hif; [done| | |by apply IH].
  - specialize (HF _ Hf). unfold before in HF. elia.
  - specialize (HF _ He). unfold before in HF. elia.
Qed.

(** The small sections of a typed list are what is left of it beside its whole pages. *)
Lemma mem_edges (l : FreeList) (a : Z) :
  wf l →
  mem a (regions l ≫= (λ e, PageParts.edges (PageParts.new e p))) ↔
  free_at l a ∧ ¬ whole_page p (free_at l) a.
Proof.
  intros Hw. pose proof (split_typed_perm p (regions l)) as Hperm. unfold ManagerSections.split_typed in Hperm. cbn [fst snd] in Hperm.
  rewrite interior_list in Hperm. pose proof (all_apart_pieces p _ (wf_apart _ Hw)) as Hap.
  eapply all_apart_perm in Hap; [|symmetry; exact Hperm]. apply all_apart_app in Hap as (_ & _ & Hx).
  assert (Hmem : free_at l a ↔ mem a (regions l ≫= (λ e, PageParts.edges (PageParts.new e p))) ∨ mem a (interiors (regions l))).
  { rewrite <- mem_app, Hperm, mem_concat_map. by setoid_rewrite parts_mem. }
  unfold free_at at 2. rewrite <- interiors_whole_pages, Hmem by apply Hw. split; [|tauto]. intros Ha. split; [by left|].
  destruct Ha as (e & He & Hie). intros (i & Hi & Hii). specialize (Hx e i He Hi). elia.
Qed.

(** What the parts of a section of the generic manager are. *)
Lemma generic_parts (e : Extent) (a : Z) :
  let part ty := ∃ f, (f, ty) ∈ PagedEdit.persisted_parts p (Some PagedLargeGeneric) e ∧ inside a f in
  let whole := ∃ i, Extent.aligned_interior e (page_bytes p) = Some i ∧ inside a i in
  (part (Some Raw) ↔ whole) ∧ (part None ↔ inside a e ∧ ¬ whole) ∧ ¬ part (Some Meta).
Proof.
  destruct (persisted_parts_within p (Some PagedLargeGeneric) e) as (_ & _ & Hmem). specialize (Hmem a). cbv zeta.
  destruct (persisted_parts_within p (Some PagedLargeGeneric) e) as (Ho & _ & _).
  pose proof (λ f g t u, part_unique _ a f g t u Ho) as Huniq.
  assert (Hall : inside a e ↔ ∃ ty f, (f, ty) ∈ PagedEdit.persisted_parts p (Some PagedLargeGeneric) e ∧ inside a f).
  { rewrite <- Hmem. split.
    - intros (f & Hf & Hi). apply list_elem_of_fmap in Hf as ([f' ty] & -> & Hf). eauto.
    - intros (ty & f & Hf & Hi). exists f. split; [|done]. apply list_elem_of_fmap. by exists (f, ty). }
  assert (Hraw : (∃ f, (f, Some Raw) ∈ PagedEdit.persisted_parts p (Some PagedLargeGeneric) e ∧ inside a f) ↔
    ∃ i, Extent.aligned_interior e (page_bytes p) = Some i ∧ inside a i).
  { cbn [PagedEdit.persisted_parts]. unfold FileSpacePageSize.get. destruct (Extent.aligned_interior e (page_bytes p)) as [i|]; split.
    - intros (f & Hf & Hi). rewrite !elem_of_app, !list_elem_of_fmap, list_elem_of_singleton in Hf.
      destruct Hf as [(? & ? & _)|[[= ->]|(? & ? & _)]]; [done|by exists i|done].
    - intros (? & [= <-] & Hi). exists i. split; [|done]. rewrite !elem_of_app, list_elem_of_singleton. auto.
    - intros (f & Hf%list_elem_of_singleton & Hi). done.
    - by intros (? & ? & _). }
  assert (Hmeta : ∀ f, (f, Some Meta) ∉ PagedEdit.persisted_parts p (Some PagedLargeGeneric) e).
  { intros f. cbn [PagedEdit.persisted_parts]. destruct (Extent.aligned_interior e _) as [i|].
    - rewrite !elem_of_app, !list_elem_of_fmap, list_elem_of_singleton. intros [(? & ? & _)|[?|(? & ? & _)]]; done.
    - by intros ?%list_elem_of_singleton. }
  split; [done|]. split; [|intros (f & Hf & _); by apply (Hmeta f)]. rewrite <- Hraw, Hall. split.
  - intros (f & Hf & Hi). split; [eauto|]. intros (g & Hg & Hi'). by specialize (Huniq _ _ _ _ Hf Hg Hi Hi').
  - intros [([[]|] & f & Hf & Hi) Hno]; [by destruct (Hmeta f)|destruct Hno; eauto|eauto].
Qed.

(** The whole pages of whole pages are themselves. *)
Lemma interiors_again (l : list Extent) : interiors (interiors l) = interiors l.
Proof.
  induction l as [|e l IH]; [done|]. cbn. destruct (Extent.aligned_interior e (page_bytes p)) as [i|] eqn:Ei; [|done]. cbn.
  rewrite aligned_interior_self, IH; [done|]. apply ext_aligned_interior_Some in Ei; [|apply page_size_pos]. unfold page_aligned. lia.
Qed.

(** The class each address is read back with, before whole pages are promoted. *)
Definition part_class (sections : list (option ManagerKind * Extent)) (ty : option PageType) (a : Z) : Prop :=
  ∃ f, (f, ty) ∈ (sections ≫= λ x, PagedEdit.persisted_parts p x.1 x.2) ∧ inside a f.

Lemma part_class_in sections ty a :
  part_class sections ty a ↔ ∃ k e, (k, e) ∈ sections ∧ ∃ f, (f, ty) ∈ PagedEdit.persisted_parts p k e ∧ inside a f.
Proof.
  unfold part_class. setoid_rewrite list_elem_of_bind. split.
  - intros (f & ([k e] & Hf & Hs) & Hi). eauto 10.
  - intros (k & e & Hs & f & Hf & Hi). exists f. split; [|done]. by exists (k, e).
Qed.

Lemma part_classes (m r u : FreeList) (sections : list (option ManagerKind * Extent)) (a : Z) :
  lists_ok [m; r; u] →
  sections ≡ₚ tagged_sections (manager_list p (regions m) (regions r) (regions u)) →
  let W l := whole_page p (free_at l) a in
  (part_class sections (Some Meta) a ↔ free_at m a ∧ ¬ W m) ∧
  (part_class sections (Some Raw) a ↔ free_at r a ∨ W m ∨ W u) ∧
  (part_class sections None a ↔ free_at u a ∧ ¬ W u).
Proof.
  intros Hok Hperm W. apply lists_ok_cons in Hok as (Hwm & Hok & _). apply lists_ok_cons in Hok as (Hwr & Hok & _).
  apply lists_ok_cons in Hok as (Hwu & _).
  pose proof (tagged_sections_list p (regions m) (regions r) (regions u) _ _ _ eq_refl) as Htag.
  rewrite Htag in Hperm. clear Htag. rewrite !interior_list in Hperm.
  set (metadata := regions m ≫= _) in Hperm. set (raw := regions r ≫= _) in Hperm. set (generic := merge_sort _ _) in Hperm.
  assert (Hsec : ∀ k e, (k, e) ∈ sections ↔ (k = Some PagedSmallMetadata ∧ e ∈ metadata) ∨
    (k = Some PagedSmallRaw ∧ e ∈ raw) ∨ (k = Some PagedLargeGeneric ∧ e ∈ generic)).
  { intros k e. rewrite Hperm, !elem_of_app, !list_elem_of_fmap. split.
    - intros [(f & [= -> ->] & Hf)|[(f & [= -> ->] & Hf)|(f & [= -> ->] & Hf)]]; auto.
    - intros [[-> He]|[[-> He]|[-> He]]]; eauto. }
  assert (HW : ∀ l, wf l → whole_page p (free_at l) a ↔ mem a (interiors (regions l))).
  { intros l Hw. symmetry. apply interiors_whole_pages. apply Hw. }
  assert (Hgen : ∀ e, e ∈ generic ↔ e ∈ interiors (regions m) ∨ e ∈ interiors (regions r) ∨ e ∈ regions u).
  { intros e. unfold generic. by rewrite merge_sort_Permutation, !elem_of_app. }
  assert (Hint : mem a (interiors generic) ↔ W m ∨ whole_page p (free_at r) a ∨ W u).
  { unfold W. rewrite !HW by done. rewrite <- (interiors_again (regions m)), <- (interiors_again (regions r)), !mem_interiors.
    setoid_rewrite Hgen. naive_solver. }
  rewrite !part_class_in. setoid_rewrite Hsec. split; [|split].
  - unfold W. rewrite <- (mem_edges m a Hwm). fold metadata. split.
    + intros (k & e & [[-> He]|[[-> He]|[-> He]]] & f & Hf & Hi).
      * apply list_elem_of_singleton in Hf as [= ->]. by exists e.
      * by apply list_elem_of_singleton in Hf.
      * destruct (generic_parts e a) as (_ & _ & []). eauto.
    + intros (e & He & Hi). exists (Some PagedSmallMetadata), e. split; [by left|]. exists e. split; [|done]. by left.
  - transitivity (mem a raw ∨ mem a (interiors generic)).
    + rewrite mem_interiors. split.
      * intros (k & e & [[-> He]|[[-> He]|[-> He]]] & Hf).
        -- by destruct Hf as (f & Hf%list_elem_of_singleton & _).
        -- destruct Hf as (f & Hf & Hi). apply list_elem_of_singleton in Hf as [= ->]. left. by exists e.
        -- apply generic_parts in Hf as (i & Hi & Ha). eauto 10.
      * intros [(e & He & Hi)|(e & i & He & Hi & Ha)].
        -- exists (Some PagedSmallRaw), e. split; [by right; left|]. exists e. split; [|done]. by left.
        -- exists (Some PagedLargeGeneric), e. split; [by right; right|]. apply generic_parts. eauto.
    + unfold raw. rewrite (mem_edges r a Hwr), Hint. pose proof (whole_page_self p (free_at r) a) as Hself.
      pose proof (whole_page_dec r a Hwr). tauto.
  - transitivity (∃ e, e ∈ regions u ∧ inside a e ∧ ¬ ∃ i, Extent.aligned_interior e (page_bytes p) = Some i ∧ inside a i).
    + split.
      * intros (k & e & [[-> He]|[[-> He]|[-> He]]] & Hf).
        -- by destruct Hf as (f & Hf%list_elem_of_singleton & _).
        -- by destruct Hf as (f & Hf%list_elem_of_singleton & _).
        -- apply generic_parts in Hf as [Hi Hno]. apply Hgen in He.
           assert (Hbad : ∀ l : list Extent, e ∈ (interiors l : list Extent) → False).
           { intros l He'. apply Hno. exists e. split; [|done]. apply aligned_interior_self.
             apply list_elem_of_omap in He' as (g & _ & Hg). apply ext_aligned_interior_Some in Hg; [|apply page_size_pos]. unfold page_aligned. lia. }
           destruct He as [He|[He|He]]; [by destruct (Hbad _ He)|by destruct (Hbad _ He)|]. by exists e.
      * intros (e & He & Hi & Hno). exists (Some PagedLargeGeneric), e. split; [right; right; split; [done|]; apply Hgen; auto|].
        by apply generic_parts.
    + unfold W. rewrite HW, mem_interiors by done. split.
      * intros (e & He & Hi & Hno). split; [by exists e|]. intros (g & i & Hg & Hgi & Ha). apply Hno. exists i. split; [|done].
        assert (e = g) as -> by (eapply (inside_unique (regions u)); [by apply canonical_ordered, Hwu|done|done|done|];
          apply ext_aligned_interior_Some in Hgi; [|apply page_size_pos]; elia). done.
      * intros [(e & He & Hi) Hno]. exists e. split_and!; [done|done|]. intros (i & Hi' & Ha). apply Hno. eauto.
Qed.

(** What is read back, and in which class: the whole pages of the typed lists taken together,
    and those of the unclassified list, become raw, and nothing else changes. *)
Lemma reload_spec (m r u : FreeList) (sections : list (option ManagerKind * Extent)) :
  lists_ok [m; r; u] →
  sections ≡ₚ tagged_sections (manager_list p (regions m) (regions r) (regions u)) →
  ordered (sections.*2) →
  PagedEdit.from_persisted p sections ⇝ λ res, ∃ e, res = Ok e ∧ edit_ok e ∧
    let W a := whole_page p (free_in [m; r]) a in
    let U a := whole_page p (free_at u) a in
    (∀ a, free_at (pe_meta e) a ↔ free_at m a ∧ ¬ W a) ∧
    (∀ a, free_at (pe_raw e) a ↔ free_at r a ∨ W a ∨ U a) ∧
    (∀ a, free_at (pe_unclassified e) a ↔ free_at u a ∧ ¬ U a).
Proof.
  intros Hok Hperm Ho. pose proof (λ a, part_classes m r u sections a Hok Hperm) as Hpc. cbv zeta in Hpc.
  assert (Hdis : ∀ a, free_at u a → free_at m a ∨ free_at r a → False).
  { apply lists_ok_cons in Hok as (_ & Hok & H1). apply lists_ok_cons in Hok as (_ & _ & H2). intros a Hu [Hm|Hr].
    - apply (H1 a Hm). rewrite !free_in_cons. auto.
    - apply (H2 a Hr). rewrite !free_in_cons. auto. }
  eapply returns_mono; [by apply from_persisted_ok|].
  intros res (e & -> & Heok & _ & _ & _ & Hm & Hr & Hu). cbv zeta in Hm, Hr, Hu. exists e. split; [done|]. split; [done|]. cbv zeta.
  fold (part_class sections (Some Meta)) in Hm. fold (part_class sections (Some Raw)) in Hr. fold (part_class sections None) in Hu.
  assert (Hfree : ∀ a, free_in [m; r] a ↔ free_at m a ∨ free_at r a) by (intros a; rewrite !free_in_cons, free_in_nil; tauto).
  assert (HU : ∀ a b, b / page_bytes p = a / page_bytes p → whole_page p (free_at u) b → whole_page p (free_at u) a).
  { intros a b Hb Hw c Hc. apply Hw. by rewrite Hb. }
  assert (HWm : ∀ a, whole_page p (free_at m) a → whole_page p (free_in [m; r]) a).
  { intros a Hw b Hb. apply Hfree. left. by apply Hw. }
  assert (HW : ∀ a, whole_page p (λ a, part_class sections (Some Meta) a ∨ part_class sections (Some Raw) a) a ↔
    whole_page p (free_in [m; r]) a ∨ whole_page p (free_at u) a).
  { intros a. split.
    - intros Hw. destruct (Hw a eq_refl) as [Ha|Ha]; apply Hpc in Ha; 
      [destruct Ha as [Ha _]|destruct Ha as [Ha|[Ha|Ha]]; [|left; by apply HWm|by right]]; left; intros b Hb; apply Hfree;
      (destruct (Hw b Hb) as [Hb'|Hb']; apply Hpc in Hb'; [tauto|]; destruct Hb' as [?|[Hb'|Hb']];
        [tauto|left; by apply whole_page_self in Hb'|exfalso; apply (Hdis a); [apply (Hb' a); by rewrite Hb|tauto]]).
    - intros [Hw|Hw] b Hb.
      + destruct (Hpc b) as (Hb1 & Hb2 & _). rewrite Hb1, Hb2. specialize (Hw b Hb). apply Hfree in Hw.
        destruct Hw as [Hbm|Hbr]; [|tauto]. assert (Hdec : whole_page p (free_at m) b ∨ ¬ whole_page p (free_at m) b); [|tauto].
        apply whole_page_dec. by apply lists_ok_cons in Hok as [? _].
      + destruct (Hpc b) as (_ & -> & _). right. right. right. by apply (HU b a). }
  split_and!; intros a; destruct (Hpc a) as (H1 & H2 & H3).
  - rewrite Hm, HW, H1. split; [tauto|]. intros [Ha Hno]. split_and!; [done| |].
    + intros Hw. by apply Hno, HWm.
    + intros [?|Hw%whole_page_self]; [done|]. apply (Hdis a); auto.
  - rewrite Hr, HW, H2. specialize (HWm a). tauto.
  - by rewrite Hu, H3.
Qed.

End RoundTrip.
