(* ===== verification/Snapshots.v ===== *)
(** * Borrowed free-space views

    Models [crates/hdf5-pure-space/src/snapshot/mod.rs], the merging iterator of
    [session.rs] and [ManagerSections::from_snapshot].  A snapshot borrows up to
    three free lists; its iterators are modelled by the lists they produce. *)

From S2P Require Import Prelude Addresses Extents Regions Requests FreeLists FreeListFacts.
From S2P Require Import FreeListMerge Persistence PagedFacts.

Local Open Scope Z_scope.

(** ** The two-way merge *)

Module MergeExtents.
Section Profiled.
Context `{Profile}.

(** One element per step; the fuel counts the elements of both iterators. *)
Fixpoint collect (fuel : nat) (first second : list Extent) : outcome (list Extent) :=
  match fuel with
  | O => Ret []
  | S fuel =>
    match first, second with
    | x :: first', y :: second' =>
      if Extent.start x <=? Extent.start y then
        _ ← debug_assert (Extent.end_ x <=? Extent.start y);
        rest ← collect fuel first' second;
        Ret (x :: rest)
      else
        _ ← debug_assert (Extent.end_ y <=? Extent.start x);
        rest ← collect fuel first second';
        Ret (y :: rest)
    | x :: first', [] => rest ← collect fuel first' []; Ret (x :: rest)
    | [], y :: second' => rest ← collect fuel [] second'; Ret (y :: rest)
    | [], [] => Ret []
    end
  end.

Definition run (first second : list Extent) : outcome (list Extent) :=
  collect (length first + length second) first second.

End Profiled.
End MergeExtents.

(** ** The snapshot *)

Record AdmittedFreeSnapshot : Type := mkSnapshot {
  snap_first : option FreeList;
  snap_second : option FreeList;
  snap_third : option FreeList;
  snap_page_size : option FileSpacePageSize;
  snap_enabled : bool;
}.

Inductive PageClassEvidence : Type :=
| Conflict
| Known (ty : PageType)
| Unknown.

#[global] Instance PageClassEvidence_eq_dec : EqDecision PageClassEvidence.
Proof. solve_decision. Defined.

Module PageClassEvidence.

Definition combine (self other : PageClassEvidence) : PageClassEvidence :=
  match self, other with
  | Conflict, _ => Conflict
  | _, Conflict => Conflict
  | Unknown, _ => Unknown
  | _, Unknown => Unknown
  | Known first, Known second => if decide (first = second) then Known first else Conflict
  end.

End PageClassEvidence.

Module PartialPageClasses.

(** Whether the first extent that ends above the page's start has an edge in
    the page. *)
Definition has_fragment (page_size : FileSpacePageSize) (page : Z) (extents : list Extent) : bool :=
  let start := page * FileSpacePageSize.get page_size in
  match (span (λ e, Extent.end_ e <=? start) extents).2 with
  | [] => false
  | extent :: _ =>
    existsb (λ edge, Extent.start edge / FileSpacePageSize.get page_size =? page)
      (PageParts.edges (PageParts.new extent page_size))
  end.

Definition in_page (metadata raw : list Extent) (page_size : FileSpacePageSize) (page : Z)
    : PageClassEvidence :=
  match has_fragment page_size page metadata, has_fragment page_size page raw with
  | true, true => Conflict
  | true, false => Known Meta
  | false, true => Known Raw
  | false, false => Unknown
  end.

Definition classify (metadata raw : list Extent) (page_size : FileSpacePageSize) (extent : Extent)
    : PageClassEvidence :=
  let page edge := Extent.start edge / FileSpacePageSize.get page_size in
  match PageParts.edges (PageParts.new extent page_size) with
  | [] => Unknown
  | first :: rest =>
    foldl (λ evidence edge,
             PageClassEvidence.combine evidence (in_page metadata raw page_size (page edge)))
      (in_page metadata raw page_size (page first)) rest
  end.

End PartialPageClasses.

Module AdmittedFreeSnapshot.

Definition disabled : AdmittedFreeSnapshot := mkSnapshot None None None None false.

Definition flat (free : FreeList) : AdmittedFreeSnapshot := mkSnapshot (Some free) None None None true.

Definition paged (page_size : FileSpacePageSize) (metadata raw unclassified : FreeList)
    : AdmittedFreeSnapshot :=
  mkSnapshot (Some metadata) (Some raw) (Some unclassified) (Some page_size) true.

(** [map_or(&[], FreeList::extents)] *)
Definition extents_of (o : option FreeList) : list Extent :=
  match o with Some l => regions l | None => [] end.

(** [map_or(0, FreeList::total_bytes)] *)
Definition bytes_of (o : option FreeList) : Z :=
  match o with Some l => total_bytes l | None => 0 end.

Definition lists (self : AdmittedFreeSnapshot) : list Extent * list Extent * list Extent :=
  (extents_of (snap_first self), extents_of (snap_second self), extents_of (snap_third self)).

Definition partial_page_class (self : AdmittedFreeSnapshot) (extent : Extent) : PageClassEvidence :=
  match snap_page_size self with
  | None => Unknown
  | Some page_size =>
    PartialPageClasses.classify (extents_of (snap_first self)) (extents_of (snap_second self))
      page_size extent
  end.

Definition reusable_bytes (self : AdmittedFreeSnapshot) : result Z FormatError :=
  let first := bytes_of (snap_first self) in
  let second := bytes_of (snap_second self) in
  ok_or (ByteLength.checked_add first second) (OffsetOverflow first second).

Definition unclassified_bytes (self : AdmittedFreeSnapshot) : Z := bytes_of (snap_third self).

(** The next of the three class iterators: lowest start, first list on a tie. *)
Definition next_section (lists : list (list Extent * FreeClass)) : option (nat * Extent * FreeClass) :=
  min_by (λ x y, Extent.start x.1.2 <? Extent.start y.1.2)
    (omap (λ x : nat * (list Extent * FreeClass), e ← head x.2.1; Some (x.1, e, x.2.2))
       (imap pair lists)).

Fixpoint merge_sections (fuel : nat) (lists : list (list Extent * FreeClass))
    : list (Extent * FreeClass) :=
  match fuel with
  | O => []
  | S fuel =>
    match next_section lists with
    | None => []
    | Some (index, extent, class) =>
      (extent, class) :: merge_sections fuel (alter (λ x, (tail x.1, x.2)) index lists)
    end
  end.

Definition sections (self : AdmittedFreeSnapshot) : list (Extent * FreeClass) :=
  let metadata := extents_of (snap_first self) in
  let raw := extents_of (snap_second self) in
  let first_class := if snap_page_size self then PageClass Meta else Dead in
  let unclassified := extents_of (snap_third self) in
  merge_sections (length metadata + length raw + length unclassified)
    [(metadata, first_class); (raw, PageClass Raw); (unclassified, Dead)].

Section Profiled.
Context `{Profile}.

Definition reusable_sections (self : AdmittedFreeSnapshot) : outcome (list Extent) :=
  MergeExtents.run (extents_of (snap_first self)) (extents_of (snap_second self)).

Fixpoint free_all (free : FreeList) (extents : list Extent) : outcome FreeList :=
  match extents with
  | [] => Ret free
  | e :: rest => free ← FreeList.free free e; free_all free rest
  end.

Definition reusable_sections_with_raw (self : AdmittedFreeSnapshot) (raw_extents : list Extent)
    : outcome (list Extent) :=
  if negb (snap_enabled self) then MergeExtents.run [] []
  else
    let '(first, second) :=
      if snap_page_size self then (extents_of (snap_first self), snap_second self)
      else ([], snap_first self) in
    free ← free_all (default FreeList.new second) raw_extents;
    MergeExtents.run first (regions free).

End Profiled.
End AdmittedFreeSnapshot.

Section Profiled.
Context `{Profile}.

(** [ManagerSections::from_snapshot] *)
Definition managers_from_snapshot (snapshot : AdmittedFreeSnapshot) : outcome (list ManagerSections) :=
  let '(metadata, raw, unclassified) := AdmittedFreeSnapshot.lists snapshot in
  match snap_page_size snapshot with
  | Some page_size => ManagerSections.paged_lists metadata raw unclassified page_size
  | None => Ret (ManagerSections.flat metadata)
  end.

End Profiled.

(** ** Free-space views: what the iterators and the page evidence say

    The merging iterator yields the two lists in address order; the byte count
    agrees with it; and the page evidence finds exactly the partly free pages. *)

Section Merge.
Context `{Profile}.

Lemma collect_spec (fuel : nat) (first second : list Extent) :
  fuel = (length first + length second)%nat →
  ordered first → ordered second → all_apart (first ++ second) →
  MergeExtents.collect fuel first second ⇝ λ l, l ≡ₚ first ++ second ∧ ordered l.
Proof.
  revert first second. induction fuel as [|fuel IH]; intros first second Hlen H1 H2 Hap.
  { destruct first, second; simpl in Hlen; try lia. apply returns_ret. split; [done|constructor]. }
  destruct first as [|x first], second as [|y second]; simpl in Hlen; [lia| | |].
  - simpl. apply ordered_cons in H2 as [Hy H2]. simpl in Hap. apply all_apart_cons in Hap as [_ Hap].
    eapply returns_bind; [by apply (IH [] second); [simpl; lia|constructor|..]|].
    intros l [Hp Ho]. apply returns_ret. split; [by rewrite Hp|].
    apply ordered_cons. split; [|done]. by rewrite Hp.
  - simpl. apply ordered_cons in H1 as [Hx H1]. simpl in Hap. apply all_apart_cons in Hap as [_ Hap].
    eapply returns_bind; [by apply (IH first []); [simpl; lia| |constructor|]|].
    intros l [Hp Ho]. apply returns_ret. split; [by rewrite Hp|].
    apply ordered_cons. split; [|done]. rewrite Hp. by rewrite app_nil_r.
  - cbn [MergeExtents.collect]. pose proof Hap as (_ & _ & Hxy)%all_apart_app.
    assert (Hapart : apart x y) by (apply Hxy; by left).
    destruct (Extent.start x <=? Extent.start y) eqn:E.
    + apply ordered_cons in H1 as [Hx H1].
      apply step_debug; [intros _; elia|].
      eapply returns_bind; [apply (IH first (y :: second)); [simpl; lia|done|done|]|].
      { simpl in Hap. by apply all_apart_cons in Hap as [_ ?]. }
      intros l [Hp Ho]. apply returns_ret. split; [by rewrite Hp|].
      apply ordered_cons. split; [|done]. rewrite Hp. apply Forall_app. split; [done|].
      apply ordered_cons in H2 as [Hy _]. apply Forall_cons. split; [unfold before; elia|].
      eapply Forall_impl; [exact Hy|]. unfold before. intros z Hz. elia.
    + apply ordered_cons in H2 as [Hy H2].
      apply step_debug; [intros _; elia|].
      eapply returns_bind; [apply (IH (x :: first) second); [simpl; lia|done|done|]|].
      { eapply all_apart_perm in Hap; [|symmetry; apply Permutation_middle].
        by apply all_apart_cons in Hap as [_ ?]. }
      intros l [Hp Ho]. apply returns_ret. split; [rewrite Hp; apply Permutation_middle|].
      apply ordered_cons. split; [|done]. rewrite Hp. apply Forall_app. split; [|done].
      apply ordered_cons in H1 as [Hx _]. apply Forall_cons. split; [unfold before; elia|].
      eapply Forall_impl; [exact Hx|]. unfold before. intros z Hz. elia.
Qed.

Lemma merge_run_spec (first second : list Extent) :
  ordered first → ordered second → all_apart (first ++ second) →
  MergeExtents.run first second ⇝ λ l, l ≡ₚ first ++ second ∧ ordered l.
Proof. by apply collect_spec. Qed.

End Merge.

(** ** Byte counts *)

Lemma total_perm (l1 l2 : list Extent) : l1 ≡ₚ l2 → total l1 = total l2.
Proof. apply sum_of_Permutation. Qed.

(** Two disjoint lists: the sum is representable and is the number of bytes the
    iterator shows. *)
Lemma reusable_views `{Profile} (m r : FreeList) (third : option FreeList)
    (p : option FileSpacePageSize) (enabled : bool) :
  lists_ok [m; r] →
  let snapshot := mkSnapshot (Some m) (Some r) third p enabled in
  AdmittedFreeSnapshot.reusable_sections snapshot ⇝ λ l,
    ordered l ∧ l ≡ₚ regions m ++ regions r ∧ (∀ a, mem a l ↔ free_at m a ∨ free_at r a) ∧
    AdmittedFreeSnapshot.reusable_bytes snapshot = Ok (total l).
Proof.
  intros Hok. cbv zeta. pose proof Hok as [Hw Hap]. simpl in Hap. rewrite app_nil_r in Hap.
  apply Forall_cons in Hw as [[Hcm Htm] Hw]. apply Forall_cons in Hw as [[Hcr Htr] _].
  eapply returns_mono; [apply (merge_run_spec (regions m) (regions r));
    [by apply canonical_ordered|by apply canonical_ordered|done]|].
  intros l [Hp Ho]. split_and!; [done|done| |].
  - intros a. unfold free_at. rewrite <- mem_app. unfold mem. by setoid_rewrite Hp.
  - unfold AdmittedFreeSnapshot.reusable_bytes, ByteLength.checked_add, checked_add. simpl.
    pose proof (ordered_total_u64 l Ho) as Hu. rewrite Htm, Htr, <- total_app, <- (total_perm _ _ Hp).
    destruct (_ <=? _) eqn:E; [done|lia].
Qed.

(** ** Page evidence *)

Section Fragments.
Context (p : FileSpacePageSize).
Let P := page_bytes p.

Lemma page_iff (a k : Z) : a / P = k ↔ k * P ≤ a < k * P + P.
Proof.
  pose proof (page_size_pos p) as HP. fold P in HP. split.
  - intros <-. pose proof (Z.div_mod a P ltac:(lia)). pose proof (Z.mod_pos_bound a P HP). lia.
  - intros. symmetry. apply (Z.div_unique_pos a P k (a - k * P)); lia.
Qed.

(** An edge of the split never covers a whole page. *)
Lemma edge_not_whole (e f : Extent) (k : Z) :
  f ∈ PageParts.edges (PageParts.new e p) → Extent.start f / P = k →
  ∃ a, a / P = k ∧ ¬ inside a e.
Proof.
  intros Hf Hk. pose proof (page_size_pos p) as HP. fold P in HP.
  destruct (decide (inside (k * P) e)) as [Hs|]; [|exists (k * P); split; [apply page_iff; lia|done]].
  destruct (decide (inside (k * P + (P - 1)) e)) as [He|].
  2:{ exists (k * P + (P - 1)). split; [apply page_iff; lia|done]. }
  exfalso. unfold inside in Hs, He.
  assert (Hw : within f e).
  { apply (pieces_within p). rewrite <- edges_interior_perm. apply elem_of_app. by left. }
  destruct (Extent.aligned_interior e P) as [i|] eqn:Ei.
  - pose proof Ei as Hi. apply ext_aligned_interior_Some in Hi; [|done]. destruct Hi as (H1 & H2 & H3 & H4).
    assert (Hin : Extent.start i ≤ k * P ∧ k * P + P ≤ Extent.end_ i).
    { apply Z.mod_divide in H2 as [x Hx]; [|lia]. apply Z.mod_divide in H4 as [y Hy]; [|lia].
      assert (x < k + 1) by (apply (Z.mul_lt_mono_pos_r P); lia).
      assert (k < y) by (apply (Z.mul_lt_mono_pos_r P); lia).
      pose proof (Z.mul_le_mono_pos_r x k P HP). pose proof (Z.mul_le_mono_pos_r (k + 1) y P HP). lia. }
    apply page_iff in Hk. unfold PageParts.edges, PageParts.new in Hf. unfold FileSpacePageSize.get in Hf. fold P in Hf. rewrite Ei in Hf.
    cbn [leading trailing] in Hf. apply elem_of_app in Hf as [Hf|Hf]; apply elem_of_between in Hf as [??]; elia.
  - apply (ext_aligned_interior_None e P (k * P) HP Ei); [by apply Z.mod_mul; lia|lia|lia].
Qed.

(** A partly free page holds an edge of the extent that reaches into it. *)
Lemma partial_has_edge (e : Extent) (a b k : Z) :
  inside a e → a / P = k → b / P = k → ¬ inside b e →
  ∃ f, f ∈ PageParts.edges (PageParts.new e p) ∧ Extent.start f / P = k.
Proof.
  intros Ha Hak Hbk Hb. pose proof (page_size_pos p) as HP. fold P in HP.
  pose proof (proj2 (parts_mem p e a) Ha) as (f & Hf & Hfa).
  rewrite <- edges_interior_perm in Hf. apply elem_of_app in Hf as [Hf|Hf].
  - exists f. split; [done|]. pose proof (edges_in_one_page p e f Hf) as Hone. unfold in_one_page in Hone. fold P in Hone.
    pose proof (Z.div_le_mono (Extent.start f) a P HP ltac:(elia)).
    pose proof (Z.div_le_mono a (Extent.end_ f - 1) P HP ltac:(elia)). lia.
  - exfalso. destruct (interior (PageParts.new e p)) as [i|] eqn:Ei; [|by apply not_elem_of_nil in Hf].
    apply list_elem_of_singleton in Hf as ->. destruct (interior_aligned p e i Ei) as [[H1 H2] Hw].
    fold P in H1, H2. apply Z.mod_divide in H1 as [x Hx]; [|lia]. apply Z.mod_divide in H2 as [y Hy]; [|lia].
    apply Hb. pose proof (Z.div_mod a P ltac:(lia)). pose proof (Z.mod_pos_bound a P HP).
    pose proof (Z.div_mod b P ltac:(lia)). pose proof (Z.mod_pos_bound b P HP).
    assert (x ≤ k < y) by (unfold inside in Hfa; nia). unfold inside, within in *. nia.
Qed.

(** [has_fragment] finds exactly the pages the list covers in part. *)
Lemma has_fragment_spec (k : Z) (l : list Extent) :
  canonical l →
  PartialPageClasses.has_fragment p k l = true ↔
  (∃ a, a / P = k ∧ mem a l) ∧ (∃ b, b / P = k ∧ ¬ mem b l).
Proof.
  intros Hc. unfold PartialPageClasses.has_fragment, FileSpacePageSize.get. fold P.
  pose proof (page_size_pos p) as HP. fold P in HP.
  destruct (skip_canonical (k * P) l Hc) as [Hc2 Hf2].
  assert (Hmem : ∀ a, a / P = k → mem a l ↔ mem a (span (λ e, Extent.end_ e <=? k * P) l).2).
  { intros a Ha. symmetry. apply skip_mem. pose proof (Z.div_mod a P ltac:(lia)).
    pose proof (Z.mod_pos_bound a P HP). nia. }
  assert (Heq : (∃ a, a / P = k ∧ mem a l) ∧ (∃ b, b / P = k ∧ ¬ mem b l) ↔
    (∃ a, a / P = k ∧ mem a (span (λ e, Extent.end_ e <=? k * P) l).2) ∧
    (∃ b, b / P = k ∧ ¬ mem b (span (λ e, Extent.end_ e <=? k * P) l).2)).
  { split; intros [(a & Ha & Hma) (b & Hb & Hmb)]; split; [exists a|exists b|exists a|exists b];
      (split; [done|]); first [by apply (Hmem a Ha)|by rewrite <- (Hmem b Hb)|by rewrite (Hmem b Hb)]. }
  rewrite Heq. clear Heq Hmem. destruct (span _ l).2 as [|e rest].
  { split; [done|]. intros [(a & _ & Ha) _]. by apply mem_nil in Ha. }
  apply Forall_cons in Hf2 as [Hend _]. rewrite existsb_exists. split.
  - intros (f & Hf%list_elem_of_In & Hk%Z.eqb_eq).
    assert (Hw : within f e).
    { apply (pieces_within p). rewrite <- edges_interior_perm. apply elem_of_app. by left. }
    split.
    + exists (Extent.start f). split; [done|]. apply mem_cons. left. elia.
    + apply page_iff in Hk as Hk'. destruct (edge_not_whole e f k Hf Hk) as (b & Hb & Hbe).
      apply page_iff in Hb as Hb'. unfold inside in Hbe. unfold within in Hw.
      destruct (Z.lt_ge_cases b (Extent.start e)).
      * exists b. split; [done|]. rewrite mem_cons. intros [?|Hin]; [done|].
        pose proof (canonical_mem_lower e rest b Hc2 Hin). elia.
      * exists (Extent.end_ e). split; [apply page_iff; elia|]. rewrite mem_cons. intros [?|Hin]; [elia|].
        pose proof (canonical_mem_lower e rest _ Hc2 Hin). lia.
  - intros [(a & Ha & Hma) (b & Hb & Hmb)]. rewrite mem_cons in Hmb.
    assert (∃ a', a' / P = k ∧ inside a' e) as (a' & Ha' & Hin).
    { apply mem_cons in Hma as [?|Hin]; [by exists a|]. apply page_iff in Ha.
      pose proof (canonical_mem_lower e rest a Hc2 Hin). exists (Z.max (k * P) (Extent.start e)).
      split; [apply page_iff|]; elia. }
    destruct (partial_has_edge e a' b k Hin Ha' Hb) as (f & Hf & Hk); [tauto|].
    exists f. split; [by apply list_elem_of_In|by apply Z.eqb_eq].
Qed.

End Fragments.

(** The evidence of one page from two disjoint lists. *)
Lemma in_page_spec (p : FileSpacePageSize) (meta raw : list Extent) (k : Z) :
  canonical meta → canonical raw →
  let part l := (∃ a, a / page_bytes p = k ∧ mem a l) ∧ (∃ b, b / page_bytes p = k ∧ ¬ mem b l) in
  match PartialPageClasses.in_page meta raw p k with
  | Conflict => part meta ∧ part raw
  | Known Meta => part meta ∧ ¬ part raw
  | Known Raw => part raw ∧ ¬ part meta
  | Unknown => ¬ part meta ∧ ¬ part raw
  end.
Proof.
  intros Hm Hr. cbv zeta. pose proof (has_fragment_spec p k meta Hm) as H1.
  pose proof (has_fragment_spec p k raw Hr) as H2. unfold PartialPageClasses.in_page.
  destruct (PartialPageClasses.has_fragment p k meta), (PartialPageClasses.has_fragment p k raw);
    intuition congruence.
Qed.
