(* ===== verification/Sessions.v ===== *)
(** * Session space and reservation batches: definitions

    Models [crates/hdf5-pure-space/src/session.rs] and the batches of
    [reservation.rs].  [SessionSpace] is the strategy-dependent free space of an
    editing session; a [ReservationBatch] borrows it, and [finish] returns the
    session together with the work counts. *)

From stdpp Require Import strings gmap.
From S2P Require Import Prelude Addresses Extents Regions Requests FreeLists.
From S2P Require Import Admission Persistence Paged PagedEdits Snapshots StartMap Indexed.

Local Open Scope Z_scope.

(** ** Data *)

Record FlatSpace : Type := mkFlatSpace {
  flat_free : FreeList;
  flat_threshold : Z;
}.

Record PagedSpace : Type := mkPagedSpace {
  space_paged : PagedEdit;
  paged_threshold : Z;
}.

Inductive SessionSpace : Type :=
| SessionDisabled
| SessionFlat (space : FlatSpace)
| SessionPaged (space : PagedSpace).

Inductive SessionSpaceSnapshot : Type :=
| SnapshotDisabled
| SnapshotFlat (free : FreeList)
| SnapshotPaged (paged : PagedAllocationSnapshot).

Inductive SessionAppendSnapshot : Type :=
| AppendDisabled
| AppendFlat (free : FreeList)
| AppendPaged (paged : PagedAppendSnapshot).

(** The error of the PAGE planners on another strategy. *)
Definition not_paged_error : FormatError := Internal "PAGE persistence requires PAGE session space".

Module SessionSpace.

Definition from_strategy (strategy : option FileSpaceStrategy) (threshold : Z)
    (page_size : FileSpacePageSize) : SessionSpace :=
  match strategy with
  | Some FsmAggr => SessionFlat (mkFlatSpace FreeList.new threshold)
  | Some Page => SessionPaged (mkPagedSpace (PagedEdit.new page_size) threshold)
  | Some Aggr | Some NoStrategy | None => SessionDisabled
  end.

Definition from_persisted (strategy : option FileSpaceStrategy) (threshold : Z)
    (page_size : FileSpacePageSize) (sections : list (option ManagerKind * Extent))
    : outcome (result SessionSpace FreeListError) :=
  match strategy with
  | Some FsmAggr =>
    r ← FreeList.from_sorted (sections.*2);
    Ret (result_map (λ free, SessionFlat (mkFlatSpace free threshold)) r)
  | Some Page =>
    r ← PagedEdit.from_persisted page_size sections;
    Ret (result_map (λ paged, SessionPaged (mkPagedSpace paged threshold)) r)
  | Some Aggr | Some NoStrategy | None => Ret (Ok SessionDisabled)
  end.

Definition is_enabled (self : SessionSpace) : bool :=
  match self with SessionDisabled => false | _ => true end.

Definition is_paged (self : SessionSpace) : bool :=
  match self with SessionPaged _ => true | _ => false end.

Definition page_size (self : SessionSpace) : option FileSpacePageSize :=
  match self with
  | SessionPaged space => Some (pe_page_size (space_paged space))
  | SessionDisabled | SessionFlat _ => None
  end.

Definition object_header_free_class (self : SessionSpace) (address length : Z) : FreeClass :=
  match page_size self with
  | Some page =>
    if is_multiple_of address (FileSpacePageSize.get page) && (FileSpacePageSize.get page <=? length)
    then Dead else PageClass Meta
  | None => PageClass Meta
  end.

Section Profiled.
Context `{Profile}.

Definition seed_persisted (self : SessionSpace) (kind : option ManagerKind) (extent : Extent)
    : outcome SessionSpace :=
  match self with
  | SessionDisabled => Ret self
  | SessionFlat space =>
    free ← FreeList.free (flat_free space) extent;
    Ret (SessionFlat (mkFlatSpace free (flat_threshold space)))
  | SessionPaged space =>
    paged ← PagedEdit.seed_persisted (space_paged space) kind extent;
    Ret (SessionPaged (mkPagedSpace paged (paged_threshold space)))
  end.

Definition finish_seed (self : SessionSpace) : outcome SessionSpace :=
  match self with
  | SessionPaged space =>
    paged ← PagedEdit.finish_seed (space_paged space);
    Ret (SessionPaged (mkPagedSpace paged (paged_threshold space)))
  | _ => Ret self
  end.

(** ** Allocation *)

Definition allocate_with_page_type (self : SessionSpace) (len : Z) (class : AllocationClass)
    (page_type : PageType) : outcome (option Extent * SessionSpace) :=
  match self with
  | SessionDisabled => Ret (None, self)
  | SessionFlat space =>
    '(o, free) ← FreeList.alloc (flat_free space) len;
    Ret (o, SessionFlat (mkFlatSpace free (flat_threshold space)))
  | SessionPaged space =>
    '(o, paged) ← PagedEdit.allocate (space_paged space) len page_type;
    Ret (o, SessionPaged (mkPagedSpace paged (paged_threshold space)))
  end.

Definition allocate (self : SessionSpace) (len : Z) (class : AllocationClass)
    : outcome (option Extent * SessionSpace) :=
  allocate_with_page_type self len class (page_type_of class).

Definition allocate_flat_below (self : SessionSpace) (len limit : Z)
    : outcome (option Extent * SessionSpace) :=
  match self with
  | SessionFlat space =>
    '(o, free) ← FreeList.alloc_below (flat_free space) len limit;
    Ret (o, SessionFlat (mkFlatSpace free (flat_threshold space)))
  | _ => Ret (None, self)
  end.

Definition allocate_request (self : SessionSpace) (request : ReservationRequest)
    : outcome (option Extent * SessionSpace) :=
  match self with
  | SessionPaged space =>
    if ReservationRequest.is_block request then
      '(o, paged) ← PagedEdit.allocate_block (space_paged space) request;
      Ret (o, SessionPaged (mkPagedSpace paged (paged_threshold space)))
    else allocate_with_page_type self (request_size request) (request_class request)
           (request_page_type request)
  | _ => allocate_with_page_type self (request_size request) (request_class request)
           (request_page_type request)
  end.

Definition return_allocation_with_page_type (self : SessionSpace) (extent : Extent)
    (class : AllocationClass) (page_type : PageType) : outcome SessionSpace :=
  match self with
  | SessionDisabled => Ret self
  | SessionFlat space =>
    free ← FreeList.free (flat_free space) extent;
    Ret (SessionFlat (mkFlatSpace free (flat_threshold space)))
  | SessionPaged space =>
    paged ← PagedEdit.return_allocation (space_paged space) extent page_type;
    Ret (SessionPaged (mkPagedSpace paged (paged_threshold space)))
  end.

Definition return_allocation (self : SessionSpace) (extent : Extent) (class : AllocationClass)
    : outcome SessionSpace :=
  return_allocation_with_page_type self extent class (page_type_of class).

End Profiled.

Definition largest (self : SessionSpace) (class : AllocationClass) : Z :=
  match self with
  | SessionDisabled => 0
  | SessionFlat space => FreeList.largest (flat_free space)
  | SessionPaged space => PagedEdit.largest (space_paged space) (page_type_of class)
  end.

(** ** Views *)

Definition admitted_snapshot (self : SessionSpace) : AdmittedFreeSnapshot :=
  match self with
  | SessionDisabled => AdmittedFreeSnapshot.disabled
  | SessionFlat space => AdmittedFreeSnapshot.flat (flat_free space)
  | SessionPaged space =>
    let paged := space_paged space in
    AdmittedFreeSnapshot.paged (pe_page_size paged) (pe_meta paged) (pe_raw paged) (pe_unclassified paged)
  end.

Definition reusable_bytes (self : SessionSpace) : result Z FormatError :=
  AdmittedFreeSnapshot.reusable_bytes (admitted_snapshot self).

Definition retained_extents (self : SessionSpace) : list RetainedExtent :=
  match self with
  | SessionPaged space => PagedEdit.retained_extents (space_paged space)
  | SessionDisabled | SessionFlat _ => []
  end.

Definition trailing_run_start (self : SessionSpace) (eoa : Z) : Z :=
  match self with
  | SessionDisabled => eoa
  | SessionFlat space => FreeList.trailing_run_start [flat_free space] eoa
  | SessionPaged space => PagedEdit.trailing_run_start (space_paged space) eoa
  end.

(** ** Releasing *)

Section Profiled.
Context `{Profile}.

Definition reusable_sections (self : SessionSpace) : outcome (list Extent) :=
  AdmittedFreeSnapshot.reusable_sections (admitted_snapshot self).

Definition reusable_sections_with_raw (self : SessionSpace) (raw_extents : list Extent)
    : outcome (list Extent) :=
  AdmittedFreeSnapshot.reusable_sections_with_raw (admitted_snapshot self) raw_extents.

Definition release_freed (self : SessionSpace) (eof : Z) (extents : list Extent)
    : outcome (option Z * SessionSpace) :=
  match self with
  | SessionFlat space =>
    '(eoa, free) ← FlatRelease.release_all (flat_free space) (flat_threshold space) eof extents;
    '(o, free) ← FreeList.take_trailing free eoa;
    let eoa := default eoa o in
    Ret (if eoa <? eof then Some eoa else None,
         SessionFlat (mkFlatSpace free (flat_threshold space)))
  | _ => Ret (None, self)
  end.

Definition record_freed (self : SessionSpace) (eoa : Z) (extent : Extent) (class : FreeClass)
    : outcome SessionSpace :=
  match self with
  | SessionDisabled => Ret self
  | SessionFlat space =>
    '(_, free) ← TrackedSpace.release (flat_free space) (flat_threshold space) extent tt;
    Ret (SessionFlat (mkFlatSpace free (flat_threshold space)))
  | SessionPaged space =>
    '(post, _) ← PagedEdit.post_free (space_paged space) (paged_threshold space) eoa
      [(extent, class)] [];
    paged ← PagedEdit.adopt_post_free (space_paged space) post false None;
    Ret (SessionPaged (mkPagedSpace paged (paged_threshold space)))
  end.

Definition flat_post_free (self : SessionSpace) (eof : Z) (extents : list Extent)
    : outcome (option (FreeList * Z)) :=
  match self with
  | SessionFlat space =>
    '(eoa, post) ← FlatRelease.release_all (flat_free space) (flat_threshold space) eof extents;
    Ret (Some (post, eoa))
  | _ => Ret None
  end.

Definition adopt_flat_post_free (self : SessionSpace) (post : FreeList) : outcome SessionSpace :=
  match self with
  | SessionFlat space => Ret (SessionFlat (mkFlatSpace post (flat_threshold space)))
  | _ => _ ← debug_assert false; Ret self
  end.

Definition paged_post_free (self : SessionSpace) (eoa : Z) (freed : list (Extent * FreeClass))
    (old_blocks : list Extent) : outcome (option (PagedPostFree * Z)) :=
  match self with
  | SessionPaged space =>
    r ← PagedEdit.post_free (space_paged space) (paged_threshold space) eoa freed old_blocks;
    Ret (Some r)
  | _ => Ret None
  end.

Definition paged_tail_section_limit (usize_max : Z) (self : SessionSpace) (extents : list Extent)
    : result Z FormatError :=
  match self with
  | SessionPaged space => PagedEdit.tail_section_limit usize_max (space_paged space) extents
  | _ => Err not_paged_error
  end.

Definition plan_paged_tail (self : SessionSpace) (eoa : Z) (freed : list (Extent * FreeClass))
    (old_blocks : list Extent) (capacity : Z) (appended : bool)
    : outcome (result (option PagedTail) FormatError) :=
  match self with
  | SessionPaged space =>
    PagedTailPlan.plan_tail (space_paged space) (paged_threshold space) eoa freed old_blocks
      capacity appended
  | _ => Ret (Err not_paged_error)
  end.

Definition plan_paged_block_tail (self : SessionSpace) (eoa : Z) (freed : list (Extent * FreeClass))
    (old_blocks : list Extent) (capacity : Z) : outcome (result (option PagedTail) FormatError) :=
  match self with
  | SessionPaged space =>
    PagedEdit.plan_reusable_tail (space_paged space) (paged_threshold space) eoa freed old_blocks
      (ReservationRequest.for_block (ReservationRequest.new capacity Metadata))
  | _ => Ret (Err not_paged_error)
  end.

Definition plan_paged_append (self : SessionSpace) (eoa : Z) (freed : list (Extent * FreeClass))
    (old_blocks : list Extent) : outcome (result PagedAppend FormatError) :=
  match self with
  | SessionPaged space =>
    PagedEdit.plan_append (space_paged space) (paged_threshold space) eoa freed old_blocks
  | _ => Ret (Err not_paged_error)
  end.

Definition adopt_paged_post_free (self : SessionSpace) (post : PagedPostFree)
    (appended_metadata : bool) (appended_tail : option Extent) : outcome SessionSpace :=
  match self with
  | SessionPaged space =>
    paged ← PagedEdit.adopt_post_free (space_paged space) post appended_metadata appended_tail;
    Ret (SessionPaged (mkPagedSpace paged (paged_threshold space)))
  | _ => _ ← debug_assert false; Ret self
  end.

End Profiled.

(** ** Padding *)

Definition plan_transition (self : SessionSpace) (eoa : Z) (ty : PageType)
    : result (option PageTransition) FormatError :=
  match self with
  | SessionPaged space => result_map Some (PagedEdit.plan_transition (space_paged space) eoa ty)
  | SessionDisabled | SessionFlat _ => Ok None
  end.

Definition record_transition (self : SessionSpace) (ty : PageType) (transition : PageTransition)
    : SessionSpace :=
  match self with
  | SessionPaged space =>
    SessionPaged (mkPagedSpace (PagedEdit.record_transition (space_paged space) ty transition)
                    (paged_threshold space))
  | _ => self
  end.

Definition page_padding (self : SessionSpace) (eoa : Z) : result (option PageTransition) FormatError :=
  match self with
  | SessionPaged space => PagedEdit.page_padding (space_paged space) eoa
  | SessionDisabled | SessionFlat _ => Ok None
  end.

Definition record_page_padding (self : SessionSpace) (transition : PageTransition) : SessionSpace :=
  match self with
  | SessionPaged space =>
    SessionPaged (mkPagedSpace (PagedEdit.record_page_padding (space_paged space) transition)
                    (paged_threshold space))
  | _ => self
  end.

(** ** Snapshots *)

Definition allocation_snapshot (self : SessionSpace) : SessionSpaceSnapshot :=
  match self with
  | SessionDisabled => SnapshotDisabled
  | SessionFlat space => SnapshotFlat (flat_free space)
  | SessionPaged space => SnapshotPaged (PagedEdit.allocation_snapshot (space_paged space))
  end.

Definition append_snapshot (self : SessionSpace) : SessionAppendSnapshot :=
  match self with
  | SessionDisabled => AppendDisabled
  | SessionFlat space => AppendFlat (flat_free space)
  | SessionPaged space => AppendPaged (PagedEdit.append_snapshot (space_paged space))
  end.

Section Profiled.
Context `{Profile}.

Definition restore_allocation (self : SessionSpace) (snapshot : SessionSpaceSnapshot)
    : outcome SessionSpace :=
  match self, snapshot with
  | SessionDisabled, SnapshotDisabled => Ret self
  | SessionFlat space, SnapshotFlat free => Ret (SessionFlat (mkFlatSpace free (flat_threshold space)))
  | SessionPaged space, SnapshotPaged paged =>
    Ret (SessionPaged (mkPagedSpace (PagedEdit.restore_allocation (space_paged space) paged)
                         (paged_threshold space)))
  | _, _ => _ ← debug_assert false; Ret self
  end.

Definition restore_append (self : SessionSpace) (snapshot : SessionAppendSnapshot)
    : outcome SessionSpace :=
  match self, snapshot with
  | SessionDisabled, AppendDisabled => Ret self
  | SessionFlat space, AppendFlat free => Ret (SessionFlat (mkFlatSpace free (flat_threshold space)))
  | SessionPaged space, AppendPaged paged =>
    Ret (SessionPaged (mkPagedSpace (PagedEdit.restore_append (space_paged space) paged)
                         (paged_threshold space)))
  | _, _ => _ ← debug_assert false; Ret self
  end.

End Profiled.

Definition paged_sections (self : SessionSpace) : option PagedSections :=
  match self with
  | SessionPaged space => Some (PagedEdit.sections (space_paged space))
  | SessionDisabled | SessionFlat _ => None
  end.

Definition paged_tail_type (self : SessionSpace) : option (option PageType) :=
  match self with
  | SessionPaged space => Some (pe_last (space_paged space))
  | SessionDisabled | SessionFlat _ => None
  end.

Definition pending_padding (self : SessionSpace) (ty : PageType) : option (list Extent) :=
  match self with
  | SessionPaged space => Some (PagedEdit.pending_padding (space_paged space) ty)
  | SessionDisabled | SessionFlat _ => None
  end.

End SessionSpace.

(** ** Reservation batches *)

(** The state of a batch: what it moved out of the session, or the session
    itself. *)
Inductive ReservationState : Type :=
| StateDisabled
| StateFlat (free : IndexedFreeList) (threshold : Z)
| StatePaged (meta raw : IndexedFreeList) (page_size : FileSpacePageSize)
| StateScalar (space : SessionSpace).

Module ReservationBatch.

Definition flat (free : FreeList) (threshold : Z) : ReservationState :=
  StateFlat (IndexedFreeList.new free None) threshold.

Definition paged (meta raw : FreeList) (page_size : FileSpacePageSize) : outcome ReservationState :=
  alignment ← expect (ByteLength.nonzero (FileSpacePageSize.get page_size));
  Ret (StatePaged (IndexedFreeList.new meta (Some alignment)) (IndexedFreeList.new raw (Some alignment))
         page_size).

(** [SessionSpace::reservation_batch] *)
Definition reservation_batch (space : SessionSpace) (requests : Z) : outcome ReservationState :=
  let scalar := (requests <=? 1)
    || match space with
       | SessionDisabled => true
       | SessionFlat s => Z.of_nat (length (regions (flat_free s))) <=? 1
       | SessionPaged _ => false
       end in
  if scalar then Ret (StateScalar space)
  else match space with
  | SessionDisabled => Ret StateDisabled
  | SessionFlat s => Ret (flat (flat_free s) (flat_threshold s))
  | SessionPaged s =>
    paged (pe_meta (space_paged s)) (pe_raw (space_paged s)) (pe_page_size (space_paged s))
  end.

(** [SessionSpace::reservation_batch_with_returns] *)
Definition reservation_batch_with_returns (space : SessionSpace) (requests : Z)
    : outcome ReservationState :=
  if requests <=? 1 then reservation_batch space requests
  else match space with
  | SessionFlat s => Ret (flat (flat_free s) (flat_threshold s))
  | _ => reservation_batch space requests
  end.

Definition page_size (state : ReservationState) : option FileSpacePageSize :=
  match state with
  | StateScalar space => SessionSpace.page_size space
  | StatePaged _ _ p => Some p
  | StateDisabled | StateFlat _ _ => None
  end.

Section Profiled.
Context `{Profile}.

(** The PAGE branch of [reserve]: the own list first, then whole pages of the
    other. *)
Definition reserve_paged (own other : IndexedFreeList) (p : FileSpacePageSize)
    (request : ReservationRequest) : outcome (option Extent * IndexedFreeList * IndexedFreeList) :=
  let size := request_size request in
  '(extent, own) ← match request_kind request with
                   | Block => IndexedFreeList.allocate_block own request p
                   | Compound => IndexedFreeList.allocate own size
                   end;
  match extent with
  | Some extent => Ret (Some extent, own, other)
  | None =>
    match (span ← checked_next_multiple_of size (FileSpacePageSize.get p); ByteLength.nonzero span) with
    | None => Ret (None, own, other)
    | Some span =>
      '(claimed, other) ← IndexedFreeList.allocate_whole_units other span;
      match claimed with
      | None => Ret (None, own, other)
      | Some claimed =>
        extent ← expect (Extent.new (Extent.start claimed) size);
        own ← match Extent.between (Extent.end_ extent) (Extent.end_ claimed) with
              | Some remainder => IndexedFreeList.free own remainder
              | None => Ret own
              end;
        Ret (Some extent, own, other)
      end
    end
  end.

(** The extent a request gets, by state. *)
Definition select (state : ReservationState) (request : ReservationRequest)
    : outcome (option Extent * ReservationState) :=
  match state with
  | StateDisabled => Ret (None, state)
  | StateScalar space =>
    '(o, space) ← SessionSpace.allocate_request space request;
    Ret (o, StateScalar space)
  | StateFlat free threshold =>
    '(o, free) ← IndexedFreeList.allocate free (request_size request);
    Ret (o, StateFlat free threshold)
  | StatePaged meta raw p =>
    match request_page_type request with
    | Meta =>
      '(o, meta, raw) ← reserve_paged meta raw p request; Ret (o, StatePaged meta raw p)
    | Raw =>
      '(o, raw, meta) ← reserve_paged raw meta p request; Ret (o, StatePaged meta raw p)
    end
  end.

Definition reserve (state : ReservationState) (request : ReservationRequest)
    : outcome (option ReservationPlacement * ReservationState) :=
  let p := page_size state in
  '(o, state) ← select state request;
  match o with
  | None => Ret (None, state)
  | Some extent =>
    placement ← expect_ok (ReservationRequest.place_after request (Extent.start extent) p);
    _ ← debug_assert (bool_decide (placement_extent placement = extent));
    Ret (Some placement, state)
  end.

#[export] Instance indexed_tracked : TrackedSpace IndexedFreeList unit := {|
  ts_merges := IndexedFreeList.merges;
  ts_track := λ self extent _, IndexedFreeList.free self extent;
|}.

Definition release_aggregate (state : ReservationState) (eoa : Z) (extent : Extent)
    : outcome (bool * ReservationState) :=
  match state with
  | StateFlat free threshold =>
    '(_, free) ← TrackedSpace.release free threshold extent tt;
    Ret (true, StateFlat free threshold)
  | StateScalar space =>
    if negb (SessionSpace.is_paged space) && SessionSpace.is_enabled space then
      space ← SessionSpace.record_freed space eoa extent Dead;
      Ret (true, StateScalar space)
    else Ret (false, state)
  | StateDisabled | StatePaged _ _ _ => Ret (false, state)
  end.

End Profiled.

Definition work (state : ReservationState) : ReservationWork :=
  match state with
  | StateDisabled | StateScalar _ => ReservationWork.default
  | StateFlat free _ => ix_work free
  | StatePaged meta raw _ => ReservationWork.combine (ix_work meta) (ix_work raw)
  end.

Definition restore (state : ReservationState) : ReservationState :=
  match state with
  | StateDisabled | StateScalar _ => state
  | StateFlat free threshold => StateFlat (IndexedFreeList.restore free) threshold
  | StatePaged meta raw p => StatePaged (IndexedFreeList.restore meta) (IndexedFreeList.restore raw) p
  end.

(** The session after the borrow ends: the owners the indexes wrote back into,
    inside the session [space] they were taken from. *)
Definition released_session (space : SessionSpace) (state : ReservationState) : SessionSpace :=
  match state, space with
  | StateScalar space, _ => space
  | StateFlat free _, SessionFlat s => SessionFlat (mkFlatSpace (ix_owner free) (flat_threshold s))
  | StatePaged meta raw _, SessionPaged s =>
    SessionPaged (mkPagedSpace
      (PagedEdit.set_lists (space_paged s) (ix_owner meta) (ix_owner raw)
         (pe_unclassified (space_paged s)) (pe_dead (space_paged s))) (paged_threshold s))
  | _, _ => space
  end.

Definition finish (space : SessionSpace) (state : ReservationState) : SessionSpace * ReservationWork :=
  let state := restore state in
  (released_session space state, work state).

End ReservationBatch.
