(* ===== verification/SessionFacts.v ===== *)
(** * Reservation batches agree with scalar allocation

    A batch moves the session's free lists into indexes and serves many
    requests.  The theorem of this file: any sequence of requests gets the same
    placements as one scalar allocation after another, and finishing the batch
    leaves the session the scalar allocations would leave. *)

From stdpp Require Import gmap.
From S2P Require Import Prelude Addresses Extents Regions Requests FreeLists FreeListFacts.
From S2P Require Import FreeListMerge Admission Persistence StartMap Indexed IndexedFacts Paged.
From S2P Require Import PagedEdits PagedFacts Snapshots Sessions.

Local Open Scope Z_scope.

(** ** The session invariant *)

Definition session_ok (s : SessionSpace) : Prop :=
  match s with
  | SessionDisabled => True
  | SessionFlat f => wf (flat_free f)
  | SessionPaged g => edit_ok (space_paged g)
  end.

(** The addresses a session may hand out. *)
Definition session_free (s : SessionSpace) (a : Z) : Prop :=
  match s with
  | SessionDisabled => False
  | SessionFlat f => free_at (flat_free f) a
  | SessionPaged g => reusable (space_paged g) a
  end.

Section Scalar.
Context `{Profile}.

(** A request either gets a legal extent out of the free addresses, or leaves
    the session as it was. *)
Lemma allocate_request_spec (s : SessionSpace) (r : ReservationRequest) :
  session_ok s → 0 < request_size r →
  SessionSpace.allocate_request s r ⇝ λ '(o, s'), session_ok s' ∧
    SessionSpace.page_size s' = SessionSpace.page_size s ∧
    match o with
    | None => s' = s
    | Some x => Extent.len x = request_size r ∧
        legal_start r (SessionSpace.page_size s) (Extent.start x) ∧
        (∀ a, inside a x → session_free s a) ∧
        (∀ a, session_free s' a ↔ session_free s a ∧ ¬ inside a x)
    end.
Proof.
  intros Hok Hn. destruct s as [|[free t]|[e t]]; simpl in Hok.
  - by apply returns_ret.
  - unfold SessionSpace.allocate_request. simpl.
    eapply returns_bind; [apply alloc_spec; [done|lia]|]. intros [o free'] [Hw Ho]. apply returns_ret.
    split_and!; [done|done|]. destruct o as [x|]; [|by destruct Ho as [-> _]].
    destruct Ho as (Hlen & _ & (q & (pre & post & Hl & _ & Hle & _) & Hxs) & Hset).
    split_and!; [done| | |done].
    + unfold legal_start. simpl. by destruct (request_kind r).
    + intros a Ha. exists q. split; [rewrite Hl; apply elem_of_app; right; by left|elia].
  - unfold SessionSpace.allocate_request, ReservationRequest.is_block.
    destruct (request_kind r) eqn:Ek; simpl.
    + eapply returns_bind; [by apply paged_allocate_block_spec|]. intros [o e'] [Hok' Ho]. apply returns_ret.
      destruct o as [x|]; [|by subst e'].
      destruct Ho as (Hlen & Hleg & Hch & Hx & Hset). split_and!; try done. simpl. by rewrite Hch.
    + eapply returns_bind; [by apply paged_allocate_spec|]. intros [o e'] [Hok' Ho]. apply returns_ret.
      destruct o as [x|]; [|by destruct Ho as [-> _]].
      destruct Ho as (Hlen & Hch & Hx & Hset). split_and!; try done; simpl; [by rewrite Hch|].
      unfold legal_start. by rewrite Ek.
Qed.

(** A legal start is where [place_after] puts the request. *)
Lemma place_legal (r : ReservationRequest) (page : option FileSpacePageSize) (x : Extent) :
  0 < request_size r → Extent.len x = request_size r → legal_start r page (Extent.start x) →
  ReservationRequest.place_after r (Extent.start x) page = Ok (mkPlacement r x).
Proof.
  intros Hn Hlen Hleg. pose proof (ext_bounds x) as Bx. unfold ReservationRequest.place_after.
  assert (ReservationRequest.placed_start r (Extent.start x) page = Ok (Extent.start x)) as ->.
  { unfold ReservationRequest.placed_start, ReservationRequest.is_block, legal_start, block_legal in *.
    destruct (request_kind r); [|done]. destruct page as [p|]; [|done]. unfold FileSpacePageSize.get.
    pose proof (page_size_pos p) as Hp. pose proof (Z.mod_pos_bound (Extent.start x) (page_bytes p) Hp).
    destruct (_ && _) eqn:E; [|done]. exfalso.
    destruct (request_size r <? page_bytes p) eqn:E1; lia. }
  simpl. assert (Extent.new (Extent.start x) (request_size r) = Some x) as ->; [|done].
  by apply ext_new_Some.
Qed.

(** A scalar reservation never panics. *)
Lemma reserve_scalar_spec (s : SessionSpace) (r : ReservationRequest) :
  session_ok s → 0 < request_size r →
  ∃ o s', SessionSpace.allocate_request s r = Ret (o, s') ∧ session_ok s' ∧
    ReservationBatch.reserve (StateScalar s) r = Ret (mkPlacement r <$> o, StateScalar s').
Proof.
  intros Hok Hn. destruct (allocate_request_spec s r Hok Hn) as ([o s'] & Hal & Hok' & _ & Ho).
  exists o, s'. split_and!; [done..|]. unfold ReservationBatch.reserve. simpl. rewrite Hal.
  cbn [mbind outcome_bind]. destruct o as [x|]; [|done]. destruct Ho as (Hlen & Hleg & _).
  rewrite (place_legal r _ x Hn Hlen Hleg). cbn [expect_ok mbind outcome_bind placement_extent].
  rewrite bool_decide_true by done. unfold debug_assert. by destruct debug_assertions.
Qed.

End Scalar.

(** ** The simulation relation *)

(** The batch [state], taken from the session [s0], stands for the session [s]. *)
Definition batch_rel (s0 : SessionSpace) (state : ReservationState) (s : SessionSpace) : Prop :=
  match state, s0, s with
  | StateScalar s1, _, _ => s1 = s
  | StateFlat ix t, SessionFlat f0, SessionFlat f =>
      represents ix (flat_free f) ∧ t = flat_threshold f ∧ flat_threshold f = flat_threshold f0
  | StatePaged mi ri p, SessionPaged g0, SessionPaged g =>
      represents mi (pe_meta (space_paged g)) ∧ represents ri (pe_raw (space_paged g)) ∧
      page_ok mi p ∧ page_ok ri p ∧
      ix_alignment mi = Some (page_bytes p) ∧ ix_alignment ri = Some (page_bytes p) ∧
      p = pe_page_size (space_paged g) ∧ reusable_changed (space_paged g0) (space_paged g) ∧
      paged_threshold g = paged_threshold g0
  | StateDisabled, SessionDisabled, SessionDisabled => True
  | _, _, _ => False
  end.

Section Simulation.
Context `{Profile}.

Lemma same_frame_page_ok (ix ix' : IndexedFreeList) (p : FileSpacePageSize) :
  same_frame ix ix' → page_ok ix p → page_ok ix' p.
Proof.
  intros (_ & _ & _ & _ & Hf). unfold page_ok.
  destruct (ix_blocks ix) as [b|], (ix_blocks ix') as [b'|]; simpl in Hf; try done.
  injection Hf as ->. done.
Qed.

(** An index pair with what the operations keep. *)
Definition pair_ok (p : FileSpacePageSize) (ix : IndexedFreeList) (l : FreeList) : Prop :=
  represents ix l ∧ page_ok ix p ∧ ix_alignment ix = Some (page_bytes p).

Lemma pair_ok_frame (p : FileSpacePageSize) (ix ix' : IndexedFreeList) (l l' : FreeList) :
  pair_ok p ix l → represents ix' l' → same_frame ix ix' → pair_ok p ix' l'.
Proof.
  intros (_ & Hp & Ha) Hr Hf. split_and!; [done|by eapply same_frame_page_ok|].
  destruct Hf as (_ & Hf & _). by rewrite Hf.
Qed.

(** The own list: index and scan choose the same extent. *)
Lemma own_alloc_sim (p : FileSpacePageSize) (r : ReservationRequest) (own : FreeList) (oi : IndexedFreeList) :
  0 < request_size r → pair_ok p oi own →
  ∃ o oi' own', match request_kind r with
      | Block => IndexedFreeList.allocate_block oi r p
      | Compound => IndexedFreeList.allocate oi (request_size r) end = Ret (o, oi') ∧
    (if ReservationRequest.is_block r then FreeList.alloc_block own r p
     else FreeList.alloc own (request_size r)) = Ret (o, own') ∧ pair_ok p oi' own' ∧
    (o = None → own' = own).
Proof.
  intros Hn Hoi. pose proof Hoi as (Hro & Hpo & Hao). pose proof Hro as [Hwo _].
  unfold ReservationRequest.is_block. destruct (request_kind r).
  - destruct (allocate_block_sim oi own r p Hro Hpo Hn) as (o & oi' & own' & H1 & H2 & H3 & H4 & H5 & _).
    exists o, oi', own'. split_and!; [done..| |]; [split_and!; [done|done|by rewrite H5]|].
    intros ->. pose proof (alloc_block_spec own r p Hwo Hn) as Hs. rewrite H2 in Hs.
    by apply returns_Ret_inv in Hs as (_ & -> & _).
  - destruct (allocate_sim oi own (request_size r) Hro Hn) as (o & oi' & own' & H1 & H2 & H3 & H4).
    exists o, oi', own'. split_and!; [done..|exact (pair_ok_frame _ _ _ _ _ Hoi H3 H4)|].
    intros ->. pose proof (alloc_spec own (request_size r) Hwo ltac:(lia)) as Hs. rewrite H2 in Hs.
    by apply returns_Ret_inv in Hs as (_ & -> & _).
Qed.

(** The unused rest of claimed pages is freed into both. *)
Lemma remainder_sim (p : FileSpacePageSize) (own : FreeList) (oi : IndexedFreeList) (s t : Z) :
  pair_ok p oi own → (∀ a, s ≤ a < t → ¬ free_at own a) →
  ∃ oi' own', match Extent.between s t with
      | Some remainder => IndexedFreeList.free oi remainder | None => Ret oi end = Ret oi' ∧
    match Extent.between s t with
      | Some remainder => FreeList.free own remainder | None => Ret own end = Ret own' ∧
    pair_ok p oi' own'.
Proof.
  intros Hpair Hout. destruct (Extent.between s t) as [rem|] eqn:Eb; [|by exists oi, own].
  apply ext_between_Some in Eb.
  assert (Hcl : clear_of rem (regions own)).
  { apply clear_of_mem. intros a Ha Hi. apply (Hout a); [elia|done]. }
  destruct (free_sim oi own rem (proj1 Hpair) Hcl) as (oi2 & own2 & ? & ? & G1 & G2).
  exists oi2, own2. split_and!; [done..|]. exact (pair_ok_frame _ _ _ _ _ Hpair G1 G2).
Qed.

(** The scalar compound path writes the same rest as a difference of lengths. *)
Lemma compound_remainder (e : PagedEdit) (ty : PageType) (n span : Z) (claimed x : Extent) (own own2 other' : FreeList) :
  0 < n ≤ span → Extent.len claimed = span → Extent.start x = Extent.start claimed → Extent.len x = n →
  match Extent.between (Extent.end_ x) (Extent.end_ claimed) with
  | Some remainder => FreeList.free own remainder | None => Ret own end = Ret own2 →
  (if span =? n then Ret (Some claimed, PagedEdit.with_own_other e ty own other')
   else
     remainder ← expect (Extent.new (Extent.end_ x) (span - n));
     own ← FreeList.free own remainder;
     Ret (Some x, PagedEdit.with_own_other e ty own other')) =
  Ret (Some x, PagedEdit.with_own_other e ty own2 other').
Proof.
  intros Hn Hc Hx1 Hx2 HF2. pose proof (ext_bounds claimed) as Bc. pose proof (ext_bounds x) as Bx.
  destruct (span =? n) eqn:Esn.
  - assert (claimed = x) as -> by (apply ext_eq; lia).
    assert (Extent.between (Extent.end_ x) (Extent.end_ x) = None) as Hb by (apply ext_between_None; lia).
    rewrite Hb in HF2. by injection HF2 as ->.
  - destruct (ext_new_ex (Extent.end_ x) (span - n)) as (rem & Hr & Hr1 & Hr2); [lia..|].
    rewrite Hr. cbn [expect mbind outcome_bind].
    assert (Extent.between (Extent.end_ x) (Extent.end_ claimed) = Some rem) as Hb by (apply ext_between_Some; lia).
    rewrite Hb in HF2. by rewrite HF2.
Qed.

(** The PAGE branch: the same extent and related lists as the scalar session. *)
Lemma reserve_paged_sim (e : PagedEdit) (r : ReservationRequest) (own other : FreeList)
    (oi ti : IndexedFreeList) :
  edit_ok e → 0 < request_size r →
  PagedEdit.own_other e (request_page_type r) = (own, other) →
  pair_ok (pe_page_size e) oi own → pair_ok (pe_page_size e) ti other →
  ∃ o oi' ti' own' other',
    ReservationBatch.reserve_paged oi ti (pe_page_size e) r = Ret (o, oi', ti') ∧
    (if ReservationRequest.is_block r then PagedEdit.allocate_block e r
     else PagedEdit.allocate e (request_size r) (request_page_type r)) =
      Ret (o, PagedEdit.with_own_other e (request_page_type r) own' other') ∧
    pair_ok (pe_page_size e) oi' own' ∧ pair_ok (pe_page_size e) ti' other'.
Proof.
  intros Hok Hn Eo Hoi Hti. pose proof (page_size_pos (pe_page_size e)) as Hp.
  destruct (own_other_ok e _ own other Eo) as [Hlo _]. pose proof (proj1 Hlo (proj1 Hok)) as Hl.
  pose proof Hl as (Hwo & (Hwt & _ & _)%lists_ok_cons & Hdis)%lists_ok_cons.
  pose proof Hoi as (Hro & Hpo & Hao). pose proof Hti as (Hrt & Hpt & Hat).
  destruct (own_alloc_sim (pe_page_size e) r own oi Hn Hoi) as (o & oi' & own' & HI & HS & Hpair & Hnone).
  unfold ReservationBatch.reserve_paged, PagedEdit.allocate_block, PagedEdit.allocate, FileSpacePageSize.get.
  rewrite HI, !Eo. cbn [mbind outcome_bind].
  assert (Hscalar : ∀ k1 k2 : option Extent * FreeList → outcome (option Extent * PagedEdit),
    (if ReservationRequest.is_block r then FreeList.alloc_block own r (pe_page_size e) ≫= k1
     else FreeList.alloc own (request_size r) ≫= k2) =
    (if ReservationRequest.is_block r then k1 (o, own') else k2 (o, own'))).
  { intros k1 k2. destruct (ReservationRequest.is_block r); by rewrite HS. }
  rewrite Hscalar. clear Hscalar. destruct o as [x|].
  { exists (Some x), oi', ti, own', other. split_and!; [done| |done|done]. by destruct (ReservationRequest.is_block r). }
  specialize (Hnone eq_refl) as ->.
  destruct (checked_next_multiple_of (request_size r) (page_bytes (pe_page_size e))) as [span|] eqn:Es; simpl.
  2:{ exists None, oi', ti, own, other. split_and!; [done| |done|done]. by destruct (ReservationRequest.is_block r). }
  destruct (span_facts _ _ _ Hn Es) as [Hsp Hmod].
  assert (ByteLength.nonzero span = Some span) as ->.
  { unfold ByteLength.nonzero. destruct (span =? 0) eqn:E; [lia|done]. }
  destruct (allocate_whole_units_sim ti other span (page_bytes (pe_page_size e)) Hrt Hat ltac:(lia) Hp Hmod)
    as (claimed & ti' & other' & HTI & HTS & HTR & HTF).
  rewrite HTI, HTS. cbn [mbind outcome_bind].
  pose proof (pair_ok_frame _ _ _ _ _ Hti HTR HTF) as Hti'.
  destruct claimed as [claimed|].
  2:{ exists None, oi', ti', own, other'. split_and!; [done| |done|done]. by destruct (ReservationRequest.is_block r). }
  destruct (claimed_pages (pe_page_size e) other other' span claimed Hwt ltac:(lia) Hmod HTS)
    as (_ & Hclen & Hcal & Hcfree & Hcset).
  pose proof (ext_bounds claimed) as Bc.
  destruct (ext_new_ex (Extent.start claimed) (request_size r)) as (x & Hx & Hx1 & Hx2); [lia..|].
  assert (Hlenx : Extent.len x = request_size r) by elia.
  rewrite Hx. cbn [expect mbind outcome_bind].
  assert (Hplace : ReservationRequest.place_after r (Extent.start claimed) (Some (pe_page_size e)) = Ok (mkPlacement r x)).
  { rewrite <- Hx1. apply place_legal; [done|done|]. rewrite Hx1. unfold legal_start, block_legal.
    destruct (request_kind r); [|done]. rewrite Hcal. destruct (_ <? _) eqn:E; lia. }
  rewrite Hplace. cbn [expect_ok mbind outcome_bind placement_extent].
  destruct (remainder_sim (pe_page_size e) own oi' (Extent.end_ x) (Extent.end_ claimed) Hpair)
    as (oi2 & own2 & HF1 & HF2 & HF3).
  { intros a Ha Hf. apply (Hdis a Hf). rewrite free_in_cons. left. apply Hcfree. elia. }
  exists (Some x), oi2, ti', own2, other'. rewrite HF1. split_and!; [done| |done|done].
  destruct (ReservationRequest.is_block r).
  - by rewrite HF2.
  - by apply (compound_remainder e _ (request_size r) span claimed); [lia|..].
Qed.

Lemma batch_page_size (s0 s : SessionSpace) (st : ReservationState) :
  batch_rel s0 st s → ReservationBatch.page_size st = SessionSpace.page_size s.
Proof.
  destruct st as [|ix t|mi ri p|s1], s0 as [|f0|g0], s as [|f|g]; simpl; try done; try (by intros ->).
  by intros (_ & _ & _ & _ & _ & _ & -> & _).
Qed.

(** One request: the batch takes the extent the scalar session takes. *)
Lemma select_sim (s0 s : SessionSpace) (st : ReservationState) (r : ReservationRequest) :
  batch_rel s0 st s → session_ok s → 0 < request_size r →
  ∃ o st' s', ReservationBatch.select st r = Ret (o, st') ∧
    SessionSpace.allocate_request s r = Ret (o, s') ∧ batch_rel s0 st' s'.
Proof.
  intros Hrel Hok Hn. destruct st as [|ix t|mi ri p|s1].
  - destruct s0, s; try done. by exists None, StateDisabled, SessionDisabled.
  - destruct s0 as [|f0|], s as [|f|]; try done. destruct Hrel as (Hrep & Ht & Hf).
    destruct (allocate_sim ix (flat_free f) (request_size r) Hrep Hn) as (o & ix' & l' & H1 & H2 & H3 & _).
    exists o, (StateFlat ix' t), (SessionFlat (mkFlatSpace l' (flat_threshold f))).
    simpl. rewrite H1. unfold SessionSpace.allocate_request, SessionSpace.allocate_with_page_type. by rewrite H2.
  - destruct s0 as [| |g0], s as [| |[e t]]; try done.
    destruct Hrel as (Hm & Hr & Hpm & Hpr & Ham & Har & -> & Hch & Ht).
    simpl in Hm, Hr, Hpm, Hpr, Ham, Har, Hch, Ht, Hok. cbn [ReservationBatch.select space_paged].
    destruct (PagedEdit.own_other e (request_page_type r)) as [own other] eqn:Eo.
    assert (Hpm' : pair_ok (pe_page_size e) mi (pe_meta e)) by by split_and!.
    assert (Hpr' : pair_ok (pe_page_size e) ri (pe_raw e)) by by split_and!.
    assert (Hsc : ∀ o e', (if ReservationRequest.is_block r then PagedEdit.allocate_block e r
        else PagedEdit.allocate e (request_size r) (request_page_type r)) = Ret (o, e') →
      SessionSpace.allocate_request (SessionPaged (mkPagedSpace e t)) r = Ret (o, SessionPaged (mkPagedSpace e' t))).
    { intros o e'. unfold SessionSpace.allocate_request, SessionSpace.allocate_with_page_type. simpl.
      destruct (ReservationRequest.is_block r); by intros ->. }
    unfold reusable_changed in Hch. destruct (request_page_type r) eqn:Et; injection Eo as <- <-.
    + destruct (reserve_paged_sim e r (pe_meta e) (pe_raw e) mi ri Hok Hn) as
        (o & mi' & ri' & m' & r' & H1 & H2 & (? & ? & ?) & (? & ? & ?)); [by rewrite Et|done..|].
      rewrite Et in H2. rewrite H1. do 3 eexists. split; [done|]. split; [exact (Hsc _ _ H2)|].
      simpl. split_and!; try done. unfold reusable_changed. rewrite Hch. done.
    + destruct (reserve_paged_sim e r (pe_raw e) (pe_meta e) ri mi Hok Hn) as
        (o & ri' & mi' & r' & m' & H1 & H2 & (? & ? & ?) & (? & ? & ?)); [by rewrite Et|done..|].
      rewrite Et in H2. rewrite H1. do 3 eexists. split; [done|]. split; [exact (Hsc _ _ H2)|].
      simpl. split_and!; try done. unfold reusable_changed. rewrite Hch. done.
  - simpl in Hrel. subst s1. destruct (allocate_request_spec s r Hok Hn) as ([o s'] & Hal & _).
    exists o, (StateScalar s'), s'. simpl. by rewrite Hal.
Qed.

(** ** Sequences of batch operations *)

(** A batch serves requests and takes back unused aggregate space. *)
Inductive batch_op : Type :=
| OpReserve (request : ReservationRequest)
| OpRelease (eoa : Z) (extent : Extent).

Definition run_op (st : ReservationState) (op : batch_op)
    : outcome ((option ReservationPlacement + bool) * ReservationState) :=
  match op with
  | OpReserve r => '(o, st) ← ReservationBatch.reserve st r; Ret (inl o, st)
  | OpRelease eoa e => '(b, st) ← ReservationBatch.release_aggregate st eoa e; Ret (inr b, st)
  end.

Fixpoint run_ops (st : ReservationState) (ops : list batch_op)
    : outcome (list (option ReservationPlacement + bool) * ReservationState) :=
  match ops with
  | [] => Ret ([], st)
  | op :: rest =>
    '(res, st) ← run_op st op;
    '(results, st) ← run_ops st rest;
    Ret (res :: results, st)
  end.

(** What the callers respect: requests are not empty, and only space that is
    not already free is released. *)
Definition op_ok (s : SessionSpace) (op : batch_op) : Prop :=
  match op with
  | OpReserve r => 0 < request_size r
  | OpRelease _ e => ∀ a, inside a e → ¬ session_free s a
  end.

Fixpoint ops_ok (s : SessionSpace) (ops : list batch_op) : Prop :=
  match ops with
  | [] => True
  | op :: rest => op_ok s op ∧
      ∀ res s', run_op (StateScalar s) op = Ret (res, StateScalar s') → ops_ok s' rest
  end.

Lemma reserve_sim (s0 s : SessionSpace) (st : ReservationState) (r : ReservationRequest) :
  batch_rel s0 st s → session_ok s → 0 < request_size r →
  ∃ o st' s', ReservationBatch.reserve st r = Ret (o, st') ∧
    ReservationBatch.reserve (StateScalar s) r = Ret (o, StateScalar s') ∧
    batch_rel s0 st' s' ∧ session_ok s'.
Proof.
  intros Hrel Hok Hn. destruct (select_sim s0 s st r Hrel Hok Hn) as (o & st' & s' & Hsel & Hal & Hrel').
  destruct (reserve_scalar_spec s r Hok Hn) as (o2 & s2 & Hal2 & Hok2 & Hres).
  rewrite Hal in Hal2. injection Hal2 as <- <-.
  exists (mkPlacement r <$> o), st', s'. split_and!; [|done..].
  revert Hres. unfold ReservationBatch.reserve.
  rewrite Hsel. cbn [mbind outcome_bind ReservationBatch.select]. rewrite Hal.
  cbn [mbind outcome_bind ReservationBatch.page_size]. rewrite (batch_page_size _ _ _ Hrel).
  destruct o as [x|]; [|done].
  destruct (ReservationRequest.place_after _ _ _) as [pl|]; [|done]. cbn [expect_ok mbind outcome_bind].
  destruct (debug_assert _); [|done]. cbn [mbind outcome_bind]. congruence.
Qed.

Lemma release_sim (s0 s : SessionSpace) (st : ReservationState) (eoa : Z) (e : Extent) :
  batch_rel s0 st s → session_ok s → (∀ a, inside a e → ¬ session_free s a) →
  ∃ b st' s', ReservationBatch.release_aggregate st eoa e = Ret (b, st') ∧
    ReservationBatch.release_aggregate (StateScalar s) eoa e = Ret (b, StateScalar s') ∧
    batch_rel s0 st' s' ∧ session_ok s'.
Proof.
  intros Hrel Hok Hout.
  assert (Hflat : ∀ l t, wf l → (∀ a, inside a e → ¬ free_at l a) →
    ∃ rel l', TrackedSpace.release l t e tt = Ret (rel, l') ∧ wf l').
  { intros l t Hw Ho. unfold TrackedSpace.release. cbn [ts_merges ts_track FreeList_tracked].
    assert (Hcl : clear_of e (regions l)) by (apply clear_of_mem; intros a Ha Hi; by apply (Ho a Hi)).
    destruct (free_spec l e Hw (λ _, Hcl)) as (l' & Hf & Hw' & _). rewrite Hf. cbn [mbind outcome_bind].
    destruct (t <=? _); [|destruct (FreeList.adjoins _ _)]; eauto. }
  assert (Hscalar : ∃ b s', ReservationBatch.release_aggregate (StateScalar s) eoa e = Ret (b, StateScalar s')
      ∧ session_ok s').
  { destruct s as [|f|g]; simpl; [by eexists _, _| |by eexists _, _].
    destruct (Hflat (flat_free f) (flat_threshold f) Hok Hout) as (rel & l' & -> & Hw'). by eexists _, _. }
  destruct st as [|ix t|mi ri p|s1].
  - destruct s0, s; try done. by exists false, StateDisabled, SessionDisabled.
  - destruct s0 as [|f0|], s as [|f|]; try done. destruct Hrel as (Hrep & -> & Hf). simpl in Hok, Hout.
    destruct (Hflat (flat_free f) (flat_threshold f) Hok Hout) as (rel & l' & Hl & Hw').
    assert (Hcl : clear_of e (regions (flat_free f)))
      by (apply clear_of_mem; intros a Ha Hi; by apply (Hout a Hi)).
    destruct (free_sim ix (flat_free f) e Hrep Hcl) as (ix' & l2 & H1 & H2 & H3 & _).
    simpl. rewrite Hl. revert Hl. unfold TrackedSpace.release.
    cbn [ts_merges ts_track FreeList_tracked ReservationBatch.indexed_tracked].
    rewrite (merges_sim ix (flat_free f) e Hrep Hcl), H1, H2. cbn [mbind outcome_bind].
    destruct (flat_threshold f <=? _); [|destruct (FreeList.adjoins _ _)]; intros [= <- <-];
      cbn [mbind outcome_bind]; eexists _, _, _; repeat (split; [done|]); done.
  - destruct s0 as [| |g0], s as [| |g]; try done.
    by exists false, (StatePaged mi ri p), (SessionPaged g).
  - simpl in Hrel. subst s1. destruct Hscalar as (b & s' & Hs & Hok'). exists b, (StateScalar s'), s'. done.
Qed.

Lemma run_op_sim (s0 s : SessionSpace) (st : ReservationState) (op : batch_op) :
  batch_rel s0 st s → session_ok s → op_ok s op →
  ∃ res st' s', run_op st op = Ret (res, st') ∧ run_op (StateScalar s) op = Ret (res, StateScalar s') ∧
    batch_rel s0 st' s' ∧ session_ok s'.
Proof.
  intros Hrel Hok Hop. destruct op as [r|eoa e]; unfold run_op.
  - destruct (reserve_sim s0 s st r Hrel Hok Hop) as (o & st' & s' & -> & -> & ? & ?). by eexists _, _, _.
  - destruct (release_sim s0 s st eoa e Hrel Hok Hop) as (o & st' & s' & -> & -> & ? & ?). by eexists _, _, _.
Qed.

Lemma run_ops_sim (s0 s : SessionSpace) (st : ReservationState) (ops : list batch_op) :
  batch_rel s0 st s → session_ok s → ops_ok s ops →
  ∃ results st' s', run_ops st ops = Ret (results, st') ∧
    run_ops (StateScalar s) ops = Ret (results, StateScalar s') ∧
    batch_rel s0 st' s' ∧ session_ok s'.
Proof.
  revert s st. induction ops as [|op ops IH]; intros s st Hrel Hok Hops.
  { by exists [], st, s. }
  destruct Hops as [Hop Hrest].
  destruct (run_op_sim s0 s st op Hrel Hok Hop) as (res & st1 & s1 & H1 & H2 & Hrel1 & Hok1).
  destruct (IH s1 st1 Hrel1 Hok1 (Hrest _ _ H2)) as (results & st' & s' & H3 & H4 & ? & ?).
  exists (res :: results), st', s'. cbn [run_ops]. rewrite H1, H2. cbn [mbind outcome_bind].
  by rewrite H3, H4.
Qed.

(** ** Opening and finishing a batch *)

Lemma reservation_batch_rel (s : SessionSpace) (n : Z) :
  session_ok s → ∃ st, ReservationBatch.reservation_batch s n = Ret st ∧ batch_rel s st s.
Proof.
  intros Hok. unfold ReservationBatch.reservation_batch. destruct (_ || _); [by exists (StateScalar s)|].
  destruct s as [|f|g]; [by exists StateDisabled| |].
  - eexists. split; [done|]. simpl. split_and!; [|done..]. by apply new_represents.
  - unfold ReservationBatch.paged, FileSpacePageSize.get, ByteLength.nonzero.
    pose proof (page_size_pos (pe_page_size (space_paged g))) as Hp.
    destruct (_ =? 0) eqn:E; [lia|]. eexists. split; [done|]. simpl.
    destruct Hok as [(Hm & (Hr & _ & _)%lists_ok_cons & _)%lists_ok_cons _].
    destruct (new_represents (pe_meta (space_paged g)) (Some (page_bytes (pe_page_size (space_paged g)))) Hm) as (? & ? & Hb).
    destruct (new_represents (pe_raw (space_paged g)) (Some (page_bytes (pe_page_size (space_paged g)))) Hr) as (? & ? & Hb').
    split_and!; try done; [by unfold page_ok; rewrite Hb|by unfold page_ok; rewrite Hb'|].
    unfold reusable_changed. by destruct (space_paged g).
Qed.

Lemma reservation_batch_with_returns_rel (s : SessionSpace) (n : Z) :
  session_ok s → ∃ st, ReservationBatch.reservation_batch_with_returns s n = Ret st ∧ batch_rel s st s.
Proof.
  intros Hok. unfold ReservationBatch.reservation_batch_with_returns.
  destruct (n <=? 1); [by apply reservation_batch_rel|].
  destruct s as [|f|g]; [by apply reservation_batch_rel| |by apply reservation_batch_rel].
  eexists. split; [done|]. simpl. split_and!; [|done..]. by apply new_represents.
Qed.

(** Finishing the batch puts the scalar session back. *)
Lemma finish_rel (s0 s : SessionSpace) (st : ReservationState) :
  batch_rel s0 st s → (ReservationBatch.finish s0 st).1 = s.
Proof.
  unfold ReservationBatch.finish. destruct st as [|ix t|mi ri p|s1], s0 as [|f0|g0], s as [|f|g]; try done.
  - simpl. intros (Hrep & _ & Ht). destruct (restore_owner ix _ Hrep) as [-> _]. rewrite <- Ht. by destruct f.
  - simpl. intros (Hm & Hr & _ & _ & _ & _ & _ & Hch & Ht).
    destruct (restore_owner mi _ Hm) as [-> _]. destruct (restore_owner ri _ Hr) as [-> _].
    rewrite <- Ht, <- Hch. by destruct g.
Qed.

(** ** Undoing allocations *)

(** The sessions differ in the lists allocation takes from, and nowhere else. *)
Definition same_shell (s s' : SessionSpace) : Prop :=
  match s, s' with
  | SessionDisabled, SessionDisabled => True
  | SessionFlat f, SessionFlat f' => flat_threshold f' = flat_threshold f
  | SessionPaged g, SessionPaged g' =>
      reusable_changed (space_paged g) (space_paged g') ∧ paged_threshold g' = paged_threshold g
  | _, _ => False
  end.

Lemma reusable_changed_refl (e : PagedEdit) : reusable_changed e e.
Proof. by destruct e. Qed.

Lemma same_shell_refl (s : SessionSpace) : same_shell s s.
Proof. destruct s; [done|done|]. split; [apply reusable_changed_refl|done]. Qed.

Lemma same_shell_trans (s1 s2 s3 : SessionSpace) : same_shell s1 s2 → same_shell s2 s3 → same_shell s1 s3.
Proof.
  destruct s1, s2, s3; try done; simpl; [congruence|]. unfold reusable_changed.
  intros [H12 Ht12] [H23 Ht23]. split; [|congruence]. rewrite H12 in H23. exact H23.
Qed.

Lemma allocate_request_shell (s s' : SessionSpace) (r : ReservationRequest) (o : option Extent) :
  session_ok s → 0 < request_size r → SessionSpace.allocate_request s r = Ret (o, s') → same_shell s s'.
Proof.
  intros Hok Hn. destruct s as [|f|[e t]]; simpl in Hok.
  - by intros [= <- <-].
  - unfold SessionSpace.allocate_request. simpl. destruct (FreeList.alloc _ _) as [[o' l]|]; simpl; [|done].
    by intros [= <- <-].
  - unfold SessionSpace.allocate_request, SessionSpace.allocate_with_page_type. cbn [space_paged].
    destruct (ReservationRequest.is_block r).
    + destruct (paged_allocate_block_spec e r Hok Hn) as ([o' e'] & -> & _ & Ho). simpl. intros [= <- <-].
      split; [|done]. destruct o'; [by destruct Ho as (_ & _ & ? & _)|subst e'; apply reusable_changed_refl].
    + destruct (paged_allocate_spec e (request_size r) (request_page_type r) Hok Hn) as ([o' e'] & -> & _ & Ho).
      simpl. intros [= <- <-]. split; [|done].
      destruct o'; [by destruct Ho as (_ & ? & _)|destruct Ho as [-> _]; apply reusable_changed_refl].
Qed.

Lemma restore_shell (s s' : SessionSpace) :
  same_shell s s' → SessionSpace.restore_allocation s' (SessionSpace.allocation_snapshot s) = Ret s.
Proof.
  destruct s as [|f|g], s' as [|f'|g']; try done; simpl.
  - intros ->. by destruct f.
  - unfold reusable_changed. intros [-> ->]. by destruct g as [[]].
Qed.

Lemma reserve_all_shell (s : SessionSpace) (rs : list ReservationRequest) :
  session_ok s → Forall (λ r, 0 < request_size r) rs →
  run_ops (StateScalar s) (OpReserve <$> rs) ⇝ λ '(_, st'), ∃ s', st' = StateScalar s' ∧
    session_ok s' ∧ same_shell s s'.
Proof.
  revert s. induction rs as [|r rs IH]; intros s Hok Hrs.
  { apply returns_ret. exists s. split_and!; [done|done|apply same_shell_refl]. }
  apply Forall_cons in Hrs as [Hr Hrs]. cbn [fmap list_fmap run_ops].
  destruct (reserve_scalar_spec s r Hok Hr) as (o & s1 & Hal & Hok1 & Hres).
  unfold run_op at 1. rewrite Hres. cbn [mbind outcome_bind].
  eapply returns_bind; [by apply IH|]. intros [results st'] (s' & -> & Hok' & Hsh). apply returns_ret.
  exists s'. split_and!; [done|done|]. eapply same_shell_trans; [|exact Hsh]. by eapply allocate_request_shell.
Qed.

End Simulation.
