(* ===== verification/Samples.v ===== *)
(** * Sample states

    Small concrete free lists, requests and sessions.  The theorems of the
    following files are instantiated on them; the lemmas here show that the
    samples satisfy the invariants. *)

From S2P Require Import Prelude Addresses Extents Regions Requests FreeLists FreeListFacts.
From S2P Require Import FreeListMerge Admission AdmissionLaws Persistence Paged PagedEdits.
From S2P Require Import PagedFacts Snapshots Sessions SessionFacts.

Local Open Scope Z_scope.

(** A build with debug assertions. *)
Definition debug_build : Profile := true.

(** [100, 132), [4096, 8192), [8448, 8704) *)
Definition ext_a : Extent := mkRange 100 32 eq_refl.
Definition ext_b : Extent := mkRange 4096 4096 eq_refl.
Definition ext_c : Extent := mkRange 8448 256 eq_refl.

(** Extents outside them: one joins [ext_b] and [ext_c], the others are loose. *)
Definition ext_gap : Extent := mkRange 8192 256 eq_refl.
Definition ext_high : Extent := mkRange 20000 8 eq_refl.
Definition ext_next : Extent := mkRange 20008 8 eq_refl.

Definition sample_list : FreeList := mkFreeList [ext_a; ext_b; ext_c] 4384.
Definition other_list : FreeList := mkFreeList [ext_gap; ext_high] 264.

Definition page512 : FileSpacePageSize := mkPageSize 512 eq_refl.

Definition block_request : ReservationRequest :=
  ReservationRequest.for_block (ReservationRequest.new 300 Metadata).
Definition compound_request : ReservationRequest := ReservationRequest.new 40 RawData.

(** Deciding the invariants of closed terms. *)
Ltac closed_list :=
  repeat first [apply SSorted_nil | apply SSorted_cons | apply List.Forall_nil | apply List.Forall_cons];
  unfold gap, before, apart; vm_compute; intuition congruence.

Lemma sample_list_wf : wf sample_list.
Proof. split; [unfold canonical; closed_list|reflexivity]. Qed.

Lemma other_list_wf : wf other_list.
Proof. split; [unfold canonical; closed_list|reflexivity]. Qed.

Lemma gap_clear : clear_of ext_gap (regions sample_list).
Proof. unfold clear_of. closed_list. Qed.

Lemma sample_lists_ok : lists_ok [sample_list; other_list].
Proof.
  split; [repeat constructor; first [apply sample_list_wf|apply other_list_wf]|].
  unfold all_apart. simpl. closed_list.
Qed.
