(* ===== verification/FreeListTheorems.v ===== *)
(** * Theorems about the free list and request placement

    The statements a caller of [FreeList] relies on, each with an instance on a
    sample list.  [wf] is the representation invariant, [free_at] the set of
    free addresses; an operation is specified by its effect on that set. *)

From stdpp Require Import relations.
From S2P Require Import Prelude Addresses Extents Regions Requests FreeLists FreeListFacts.
From S2P Require Import FreeListMerge Aggregators PagedFacts Samples.

Local Open Scope Z_scope.

(** ** Recording and removing *)

(** C35: [FreeList::free] of an extent that meets no free region returns without
    panicking, keeps the list sorted, coalesced and correctly totalled, and adds
    exactly the extent's addresses to the free set; in a release build, where
    the overlap assertion is compiled out, the same holds for any extent. *)
Theorem free_correct `{Profile} (l : FreeList) (e : Extent) :
  wf l → (debug_assertions = true → clear_of e (regions l)) →
  FreeList.free l e ⇝ λ l', wf l' ∧ ∀ a, free_at l' a ↔ free_at l a ∨ inside a e.
Proof. apply free_spec. Qed.

Lemma free_correct_witness :
  wf sample_list ∧ FreeList.free (H := debug_build) sample_list ext_gap ⇝ λ l',
    wf l' ∧ ∀ a, free_at l' a ↔ free_at sample_list a ∨ inside a ext_gap.
Proof.
  split; [apply sample_list_wf|].
  apply (free_correct (H := debug_build) sample_list ext_gap sample_list_wf (λ _, gap_clear)).
Defined.

(** Freeing is independent of order: two disjoint extents outside the free
    space give the same list, regions and total, whichever is freed first. *)
Lemma free_commutes `{Profile} (l : FreeList) (e f : Extent) :
  wf l → clear_of e (regions l) → clear_of f (regions l) → apart e f →
  ∃ l', (l1 ← FreeList.free l e; FreeList.free l1 f) = Ret l' ∧
        (l1 ← FreeList.free l f; FreeList.free l1 e) = Ret l' ∧ wf l'.
Proof.
  intros Hw He Hf Hap.
  assert (Htwo : ∀ x y, clear_of x (regions l) → clear_of y (regions l) → apart x y →
    (l1 ← FreeList.free l x; FreeList.free l1 y) ⇝ λ l', wf l' ∧
      ∀ a, free_at l' a ↔ free_at l a ∨ inside a x ∨ inside a y).
  { intros x y Hx Hy Hxy. eapply returns_bind; [by apply free_spec|]. intros l1 [Hw1 Hs1].
    eapply returns_mono; [apply free_spec; [done|]|].
    - intros _. apply clear_of_mem. intros a Ha Hi. apply Hs1 in Ha as [Ha|Ha]; [|elia].
      rewrite clear_of_mem in Hy. by apply (Hy a Ha).
    - intros l' [Hw' Hs']. split; [done|]. intros a. rewrite Hs', Hs1. tauto. }
  destruct (Htwo e f He Hf Hap) as (l1 & -> & Hw1 & Hs1).
  destruct (Htwo f e Hf He ltac:(elia)) as (l2 & -> & Hw2 & Hs2).
  exists l1. split_and!; [done| |done]. f_equal. apply wf_unique; [done..|]. intros a. rewrite Hs1, Hs2. tauto.
Qed.

(** C36: [FreeList::alloc] is best fit.  It takes the requested number of bytes
    from the start of the smallest region that holds them, the lowest such
    region on a tie, and removes exactly those addresses; it refuses, leaving the
    list as it was, only when the request is empty or no region is long enough. *)
Theorem alloc_correct (l : FreeList) (n : Z) :
  wf l → 0 ≤ n →
  FreeList.alloc l n ⇝ λ '(o, l'), wf l' ∧
    match o with
    | None => l' = l ∧ (n = 0 ∨ ∀ e, e ∈ regions l → Extent.len e < n)
    | Some x => Extent.len x = n ∧ n ≠ 0 ∧
        (∃ r, best_choice Some n l r r ∧ Extent.start x = Extent.start r) ∧
        (∀ a, free_at l' a ↔ free_at l a ∧ ¬ inside a x)
    end.
Proof. apply alloc_spec. Qed.

Lemma alloc_correct_witness :
  wf sample_list ∧ FreeList.alloc sample_list 40 ⇝ λ '(o, l'), wf l' ∧
    match o with
    | None => l' = sample_list ∧ (40 = 0 ∨ ∀ e, e ∈ regions sample_list → Extent.len e < 40)
    | Some x => Extent.len x = 40 ∧ 40 ≠ 0 ∧
        (∃ r, best_choice Some 40 sample_list r r ∧ Extent.start x = Extent.start r) ∧
        (∀ a, free_at l' a ↔ free_at sample_list a ∧ ¬ inside a x)
    end.
Proof. split; [apply sample_list_wf|]. apply (alloc_correct sample_list 40 sample_list_wf). lia. Defined.

(** Freeing an allocation restores the list exactly: regions, their
    boundaries and the byte total, whatever split the allocation made. *)
Lemma alloc_free_roundtrip `{Profile} (l l' : FreeList) (n : Z) (x : Extent) :
  wf l → 0 < n → FreeList.alloc l n = Ret (Some x, l') → FreeList.free l' x = Ret l.
Proof.
  intros Hw Hn Hal. pose proof (alloc_spec l n Hw ltac:(lia)) as Hs. rewrite Hal in Hs.
  apply returns_Ret_inv in Hs as (Hw' & Hlen & _ & (r & (pre & post & Hr & _ & Hle & _) & Hst) & Hset).
  assert (Hin : ∀ a, inside a x → free_at l a).
  { intros a Ha. exists r. split; [rewrite Hr; apply elem_of_app; right; by left|elia]. }
  assert (Hcl : clear_of x (regions l')) by (apply clear_of_mem; intros a Ha%Hset Hi; tauto).
  destruct (free_spec l' x Hw' (λ _, Hcl)) as (l2 & -> & Hw2 & Hs2). f_equal.
  apply wf_unique; [done..|]. intros a. rewrite Hs2, Hset.
  assert (inside a x ∨ ¬ inside a x) as Hd by (unfold inside; lia). specialize (Hin a). tauto.
Qed.

(** [take_range] for each range in turn. *)
Fixpoint take_each (l : FreeList) (ranges : list Extent) : outcome FreeList :=
  match ranges with
  | [] => Ret l
  | x :: ranges => l ← FreeList.take_range l x; take_each l ranges
  end.

(** The linear merge of [FreeList::take_ranges] computes what removing the
    ranges one after the other with [take_range] computes, the same regions and
    the same total, which is the list without the ranges' addresses. *)
Lemma take_ranges_equivalent (l ranges : FreeList) :
  wf l → wf ranges →
  ∃ l', FreeList.take_ranges l ranges = Ret l' ∧ take_each l (regions ranges) = Ret l' ∧ wf l' ∧
    ∀ a, free_at l' a ↔ free_at l a ∧ ¬ free_at ranges a.
Proof.
  intros Hw Hr. destruct (take_ranges_spec l ranges Hw Hr) as (l' & Ht & Hw' & Hs). exists l'.
  assert (Heach : take_each l (regions ranges) ⇝ λ l2, wf l2 ∧
    ∀ a, free_at l2 a ↔ free_at l a ∧ ¬ mem a (regions ranges)).
  { clear -Hw. generalize (regions ranges). intros xs. revert l Hw. induction xs as [|x xs IH]; intros l Hw; simpl.
    - apply returns_ret. split; [done|]. intros a. rewrite mem_nil. tauto.
    - eapply returns_bind; [by apply take_range_spec|]. intros l1 [Hw1 Hs1].
      eapply returns_mono; [by apply IH|]. intros l2 [Hw2 Hs2]. split; [done|].
      intros a. rewrite Hs2, Hs1, mem_cons. tauto. }
  destruct Heach as (l2 & -> & Hw2 & Hs2). split_and!; [done| |done|done].
  f_equal. apply wf_unique; [done..|]. intros a. by rewrite Hs2, Hs.
Qed.

(** ** Construction and combination *)

(** [FreeList::from_sorted] accepts exactly the sorted disjoint inputs.  An
    accepted input gives a well-formed list of the same addresses, touching
    extents merged; a rejected one gives the error that names the first
    offending pair, [Unsorted] when the starts are out of order and [Overlap]
    otherwise.  It never panics. *)
Lemma from_sorted_decides (input : list Extent) :
  FreeList.from_sorted input ⇝ λ r,
  match r with
  | Ok l => ordered input ∧ wf l ∧ (∀ a, free_at l a ↔ mem a input)
  | Err e => ∃ pre p n post, input = pre ++ p :: n :: post ∧ ordered (pre ++ [p]) ∧
      Extent.start n < Extent.end_ p ∧
      e = if Extent.start n <? Extent.start p then Unsorted p n else Overlap p n
  end.
Proof.
  destruct (ordered_or_violation input) as [Ho|(pre & p & n & post & -> & Ho & Hlt)].
  - eapply returns_mono; [by apply from_sorted_ok|]. intros r (l & -> & Hw & Hs). by split_and!.
  - rewrite (from_sorted_err _ _ _ _ Ho Hlt). apply returns_ret. by exists pre, p, n, post.
Qed.

(** [FreeList::from_lists] merges any number of well-formed lists that
    share no address into one well-formed list of all their addresses; the
    merging iterator visits every extent, so no fuel or order error remains. *)
Lemma from_lists_correct (lists : list FreeList) :
  lists_ok lists →
  FreeList.from_lists lists ⇝ λ r, ∃ l, r = Ok l ∧ wf l ∧ ∀ a, free_at l a ↔ free_in lists a.
Proof. intros [Hw Hap]. by apply from_lists_spec. Qed.

(** [FreeList::intersection] returns the well-formed list of the addresses
    free in both lists. *)
Lemma intersection_correct (l1 l2 : FreeList) :
  wf l1 → wf l2 →
  FreeList.intersection l1 l2 ⇝ λ l, wf l ∧ ∀ a, free_at l a ↔ free_at l1 a ∧ free_at l2 a.
Proof. apply intersection_spec. Qed.

(** ** Constrained allocation *)

(** [FreeList::alloc_whole_units] takes whole aligned units: the
    allocation is the start of the shortest aligned interior that holds it, lies
    inside one region, and exactly its addresses leave the list; it refuses only
    an empty request or when no interior is long enough. *)
Lemma alloc_whole_units_correct `{Profile} (l : FreeList) (n align : Z) :
  wf l → 0 ≤ n → 0 ≤ align → (debug_assertions = true → align ≠ 0 → n mod align = 0) →
  FreeList.alloc_whole_units l n align ⇝ λ '(o, l'), wf l' ∧
    match o with
    | None => l' = l ∧ (n = 0 ∨ align = 0 ∨
        ∀ e i, e ∈ regions l → Extent.aligned_interior e align = Some i → Extent.len i < n)
    | Some x => Extent.len x = n ∧ 0 < n ∧ 0 < align ∧ Extent.start x mod align = 0 ∧
        (∃ r i, best_choice (λ e, Extent.aligned_interior e align) n l r i ∧
           Extent.start x = Extent.start i ∧ within x i ∧ within i r) ∧
        (∀ a, free_at l' a ↔ free_at l a ∧ ¬ inside a x)
    end.
Proof.
  intros Hw Hn Ha Hd. eapply returns_mono; [by apply alloc_whole_units_spec|].
  intros [[x|] l'] [Hw' Ho]; [|done]. destruct Ho as (H1 & H2 & H3 & Hb & Hs). split_and!; try done.
  destruct Hb as (r & i & (pre & post & _ & Hi & _) & -> & _). apply ext_aligned_interior_Some in Hi; tauto.
Qed.

(** [FreeList::alloc_below] never crosses its limit: the allocation ends
    at or below it, comes from the shortest region whose start leaves room below
    the limit, and it fails only when no region has room. *)
Lemma alloc_below_correct (l : FreeList) (n limit : Z) :
  wf l → 0 < n →
  FreeList.alloc_below l n limit ⇝ λ '(o, l'), wf l' ∧
    match o with
    | None => l' = l ∧ ∀ e, e ∈ regions l → n ≤ Extent.len e → limit < Extent.start e + n
    | Some x => Extent.len x = n ∧ Extent.end_ x ≤ limit ∧ (∀ a, inside a x → free_at l a) ∧
        (∀ a, free_at l' a ↔ free_at l a ∧ ¬ inside a x) ∧
        ∃ r, r ∈ regions l ∧ Extent.start x = Extent.start r ∧
          ∀ r', r' ∈ regions l → n ≤ Extent.len r' → Extent.start r' + n ≤ limit →
            Extent.len r ≤ Extent.len r'
    end.
Proof. apply alloc_below_spec. Qed.

(** [FreeList::alloc_block] is sound and complete for page placement: the
    allocation has the requested length, starts where the request may start (a
    block shorter than a page stays in one page, a longer one starts on a page
    boundary), comes from a region of least block capacity, and exactly its
    addresses leave the list; when it refuses a block, no free region has a legal
    start for it. *)
Lemma alloc_block_correct (l : FreeList) (r : ReservationRequest) (p : FileSpacePageSize) :
  wf l → 0 < request_size r →
  FreeList.alloc_block l r p ⇝ λ '(o, l'), wf l' ∧
    match o with
    | None => l' = l ∧ (request_kind r = Block → ∀ e s, e ∈ regions l → Extent.start e ≤ s →
        s + request_size r ≤ Extent.end_ e → ¬ legal_start r (Some p) s)
    | Some x => Extent.len x = request_size r ∧ legal_start r (Some p) (Extent.start x) ∧
        (∀ a, inside a x → free_at l a) ∧
        (∀ a, free_at l' a ↔ free_at l a ∧ ¬ inside a x) ∧
        ∃ e, e ∈ regions l ∧ within x e ∧
          ∀ e' c' x', e' ∈ regions l → FreeList.block_candidate r p e' = Some (c', x') →
            Extent.block_capacity e p (request_size r) ≤ c'
    end.
Proof. apply alloc_block_spec. Qed.

(** ** The end of the file *)

(** [FreeList::release_trailing_run] only shortens the file over free
    space: every address between the new and the old end of allocation was free,
    the remaining free space is what lies below the new end, and when it does
    shorten, it keeps the reserve of [TRAILING_RESERVE_TAILS] tails above the
    start of the free run and gives back at least as much. *)
Lemma release_trailing_run_correct (l : FreeList) (eoa tail_len : Z) :
  wf l → u64 eoa → u64 tail_len → Forall (λ e, Extent.end_ e ≤ eoa) (regions l) →
  FreeList.release_trailing_run l eoa tail_len ⇝ λ '(eoa', l'), wf l' ∧ eoa' ≤ eoa ∧
    (∀ a, eoa' ≤ a < eoa → free_at l a) ∧
    (∀ a, free_at l' a ↔ free_at l a ∧ a < eoa') ∧
    (eoa' < eoa →
       eoa' = FreeList.trailing_run_start [l] eoa + TRAILING_RESERVE_TAILS * tail_len ∧
       TRAILING_RESERVE_TAILS * tail_len ≤ eoa - eoa').
Proof. apply release_trailing_run_spec. Qed.

(** [FreeList::trailing_run_start] over several disjoint lists is the
    lowest address from which everything up to the end of the file is free in
    one of them: the run it delimits is entirely free and cannot be extended. *)
Lemma trailing_run_start_correct (lists : list FreeList) (eof : Z) :
  lists_ok lists → (∀ a, free_in lists a → a < eof) →
  let s := FreeList.trailing_run_start lists eof in
  s ≤ eof ∧ (∀ a, s ≤ a < eof → free_in lists a) ∧ ¬ free_in lists (s - 1).
Proof. apply trailing_run_lists. Qed.

(** [FreeList::take_trailing] gives up the free region that ends at the
    end of the file, with everything from its start, and reports that start;
    otherwise the list is unchanged and its last region ends elsewhere. *)
Lemma take_trailing_correct (l : FreeList) (eof : Z) :
  wf l →
  FreeList.take_trailing l eof ⇝ λ '(o, l'), wf l' ∧
    match o with
    | Some s => (∃ e, e ∈ regions l ∧ Extent.start e = s ∧ Extent.end_ e = eof) ∧
        (∀ a, free_at l' a ↔ free_at l a ∧ a < s)
    | None => l' = l ∧ ∀ e, last (regions l) = Some e → Extent.end_ e ≠ eof
    end.
Proof. apply take_trailing_spec. Qed.

(** ** Placement and coordinates *)

(** [ReservationRequest::place_after] picks the earliest legal start at or
    after the given address, for any page size or none; its error is an overflow
    and means that no representable extent of the requested size starts legally
    at or after it. *)
Lemma place_after_earliest (r : ReservationRequest) (s : Z) (page : option FileSpacePageSize) :
  0 ≤ s → 0 < request_size r →
  match ReservationRequest.place_after r s page with
  | Ok pl => placement_request pl = r ∧ Extent.len (placement_extent pl) = request_size r ∧
      s ≤ Extent.start (placement_extent pl) ∧ legal_start r page (Extent.start (placement_extent pl)) ∧
      (∀ t, s ≤ t → legal_start r page t → Extent.start (placement_extent pl) ≤ t)
  | Err e => (∃ o n, e = OffsetOverflow o n) ∧
      ∀ x, s ≤ Extent.start x → Extent.len x = request_size r → ¬ legal_start r page (Extent.start x)
  end.
Proof. apply place_after_spec. Qed.

(** stored and physical addresses correspond: on [u64] values, resolving a
    stored address against a base and making the physical address relative to it
    are inverse, a resolution fails exactly when the sum is not representable and
    a relative address exactly when it lies below the base. *)
Lemma base_address_roundtrip (base stored physical : Z) :
  u64 base → u64 stored → u64 physical →
  (BaseAddress.resolve base stored = Ok physical ↔ BaseAddress.relative base physical = Ok stored) ∧
  (BaseAddress.resolve base stored = Err (OffsetOverflow stored base) ↔ U64_MAX < stored + base) ∧
  (BaseAddress.relative base physical = Err (AddressBelowBase physical base) ↔ physical < base).
Proof.
  unfold u64, BaseAddress.resolve, BaseAddress.relative, checked_add, checked_sub. intros.
  destruct (stored + base <=? U64_MAX) eqn:E1, (base <=? physical) eqn:E2; simpl;
    split_and!; split; intros; try done; try lia; simplify_eq; f_equal; lia.
Qed.

(** ** Theorems about the classic aggregators

    The two windows of [ClassicAggregators] carve allocations from blocks at the
    end of the file.  The theorems: one allocation conserves the available
    space on every branch; returning the windows gives back what they still
    hold; and along any sequence of operations nothing is handed out twice. *)

(** A metadata window with 1024 of 2048 bytes left, ending the file. *)
Definition sample_window : Aggregate := mkAggregate (mkRange 4096 2048 eq_refl) 5120.
Definition sample_aggregators : ClassicAggregators := mkAggregators (Some sample_window) None.

Lemma sample_aggregators_inv : agg_inv sample_aggregators.
Proof. split_and!; vm_compute; intuition congruence. Qed.

(** [ClassicAggregators::allocate] on every branch.  A success keeps the
    windows valid and splits what was available (unused window space and
    everything past the end of the file) into the allocation, of the requested
    size, the window remainder it gives up, and what stays available; an error
    leaves the windows untouched and is either an end of allocation below a
    window or an arithmetic overflow that really happens. *)
Lemma aggregate_allocate_correct `{Profile} (s : ClassicAggregators) (eoa size : Z) (class : AllocationClass) :
  agg_inv s → u64 eoa → 0 < size →
  ClassicAggregators.allocate s eoa size class ⇝ λ '(r, s'),
    match r with
    | Ok al => reserved s s' eoa size al
    | Err (EndOfAllocationTooSmall e m) =>
        s' = s ∧ e = eoa ∧ m = ClassicAggregators.minimum_eoa s ∧ eoa < m
    | Err (AggregateOverflow o n) =>
        s' = s ∧ o ≤ eoa ∧ n ≤ Z.max size AGGREGATE_BLOCK_SIZE ∧ U64_MAX < o + n
    end.
Proof.
  intros Hinv Hu Hn. unfold ClassicAggregators.allocate.
  destruct (eoa <? ClassicAggregators.minimum_eoa s) eqn:E; [apply returns_ret; split_and!; [done..|lia]|].
  eapply returns_bind; [apply (reserve_spec s eoa size class Hinv); [lia|done|done]|].
  intros [[al s']|err] Hr; apply returns_ret; [done|]. destruct Hr as (o & n & -> & ? & ? & ?). by split_and!.
Qed.

(** [ClassicAggregators::reset] returns all unused window space: exactly
    the available addresses are in the metadata remainder, in the raw remainder
    or at or past the new end of allocation, the three are disjoint, and the
    windows are gone.  It fails, unchanged, only below a window's end. *)
Lemma aggregate_reset_correct (s : ClassicAggregators) (eoa : Z) :
  agg_inv s → u64 eoa →
  let '(r, s') := ClassicAggregators.reset s eoa in
  match r with
  | Ok r => s' = ClassicAggregators.new ∧ release_eoa r ≤ eoa ∧
      (∀ a, available s eoa a ↔
         in_option a (release_metadata r) ∨ in_option a (release_raw r) ∨ release_eoa r ≤ a) ∧
      (∀ a, in_option a (release_metadata r) → ¬ in_option a (release_raw r) ∧ a < release_eoa r) ∧
      (∀ a, in_option a (release_raw r) → a < release_eoa r)
  | Err e => s' = s ∧ e = EndOfAllocationTooSmall eoa (ClassicAggregators.minimum_eoa s) ∧
      eoa < ClassicAggregators.minimum_eoa s
  end.
Proof.
  intros Hinv Hu. destruct (ClassicAggregators.reset s eoa) as [[r|e] s'] eqn:E.
  - destruct (reset_Ok_inv s s' eoa r Hinv Hu E) as (? & _ & ? & ? & ? & ?). by split_and!.
  - revert E. unfold ClassicAggregators.reset, ClassicAggregators.release_tail.
    destruct (eoa <? ClassicAggregators.minimum_eoa s) eqn:Elt.
    + intros [= <- <-]. split_and!; [done|done|lia].
    + destruct (ClassicAggregators.release_window _ _) as [x m].
      destruct (ClassicAggregators.release_window _ _) as [y n]. done.
Qed.

(** C38: along any interleaving of allocations, tail releases, resets,
    reconciliations and appends by the caller, from fresh aggregators on a file
    of any size, no two extents that were handed out or released overlap, all
    lie below the end of allocation, and none of their addresses can be handed
    out again. *)
Theorem aggregate_trace_safe `{Profile} (eoa : Z) (w : agg_world) :
  u64 eoa → rtc agg_step (mkWorld ClassicAggregators.new eoa []) w →
  all_apart (world_live w) ∧ ClassicAggregators.minimum_eoa (world_aggs w) ≤ world_eoa w ∧
  ∀ a, mem a (world_live w) → a < world_eoa w ∧ ¬ unused_at (world_aggs w) a.
Proof.
  intros Hu Hsteps. destruct (agg_reachable_inv _ _ (agg_initial_inv eoa Hu) Hsteps)
    as (Hinv & Hmin & Hu' & Hap & Hlive).
  split_and!; [done|done|]. intros a Ha. specialize (Hlive a Ha). unfold available in Hlive.
  split; [lia|tauto].
Qed.

(** One small and one large metadata allocation on a 4096-byte file. *)
Definition sample_trace_end : agg_world :=
  mkWorld (mkAggregators (Some (mkAggregate (mkRange 4096 5048 eq_refl) 7196)) None) 9144
    [mkRange 4196 3000 eq_refl; mkRange 4096 100 eq_refl].

Lemma aggregate_trace_safe_witness :
  all_apart (world_live sample_trace_end) ∧
  ClassicAggregators.minimum_eoa (world_aggs sample_trace_end) ≤ world_eoa sample_trace_end ∧
  ∀ a, mem a (world_live sample_trace_end) →
    a < world_eoa sample_trace_end ∧ ¬ unused_at (world_aggs sample_trace_end) a.
Proof.
  apply (aggregate_trace_safe (H := debug_build) 4096); [unfold u64, U64_MAX; lia|].
  eapply rtc_l.
  { eapply (agg_step_allocate (H := debug_build) _ _ 4096 [] 100 Metadata); [lia|]. vm_compute. reflexivity. }
  eapply rtc_l.
  { eapply (agg_step_allocate (H := debug_build) _ _ _ _ 3000 Metadata); [lia|]. vm_compute. reflexivity. }
  apply rtc_refl.
Defined.
