(* ===== verification/AdmissionTheorems.v ===== *)
(** * Theorems about threshold admission

    A batch of returned extents is admitted into the free space when it is long
    enough, or touches free space, or touches an admitted extent; the rest is
    dropped.  [admitted] states that closure; the theorems show that the
    repeated default of the [TrackedSpace] trait computes it and that the single
    sweep used for flat lists computes the same. *)

From S2P Require Import Prelude Addresses Extents Regions Requests FreeLists FreeListFacts.
From S2P Require Import FreeListMerge Admission AdmissionLaws AdmissionSweep Samples.

Local Open Scope Z_scope.

(** Three loose extents: one touches the sample list, two touch each other. *)
Definition sample_returns : list Extent := [ext_next; ext_gap; ext_high].

Lemma sample_returnable : returnable sample_list sample_returns.
Proof.
  split; [unfold all_apart; closed_list|].
  repeat first [apply List.Forall_nil | apply List.Forall_cons]; unfold clear_of; closed_list.
Qed.

Definition entries (X : list Extent) : list (Extent * unit) := (λ e, (e, tt)) <$> X.

Lemma entries_fst (X : list Extent) : (entries X).*1 = X.
Proof. unfold entries. rewrite <- list_fmap_compose. apply list_fmap_id. Qed.

(** The single sweep [FreeList::release_each], which visits tracked and
    returned extents once in address order, agrees with the default iteration on
    every batch of disjoint extents outside the free space: the same final list
    and the same dropped extents. *)
Lemma sweep_release_each_equivalent `{Profile} (l : FreeList) (t : Z) (X : list Extent) :
  wf l → returnable l X →
  ∃ D1 D2 l', TrackedSpace.release_each l t (entries X) = Ret (D1, l') ∧
    FlatRelease.release_each l t (entries X) = Ret (D2, l') ∧ D1 ≡ₚ D2 ∧ admission l t X (D1.*1) l'.
Proof.
  intros Hw Hr.
  pose proof (default_release_each_spec l t (entries X) Hw) as Hdef. rewrite entries_fst in Hdef.
  destruct (Hdef Hr) as ([D1 l1] & -> & H1).
  pose proof (release_batch_spec l t (entries X) Hw) as Hb. rewrite entries_fst in Hb.
  destruct (Hb Hr) as ([D2 l2] & H2eq & H2). unfold FlatRelease.release_each. rewrite H2eq.
  destruct (admission_unique l l1 l2 t X _ _ (proj1 Hr) H1 H2) as [HD <-].
  exists D1, D2, l1. split_and!; [done|done| |done].
  rewrite <- (fst_unit D1), <- (fst_unit D2). by apply fmap_Permutation.
Qed.

(** C34: the default [TrackedSpace::release_each], which offers the pending
    extents round after round, ends within one round more than there are
    extents below the threshold, for every implementation whose [track] records
    the extent and whose [merges] depends only, and monotonically, on what was
    recorded: the batch splits into the dropped extents and the least set that
    has every extent that is long enough or touches tracked or admitted space,
    and exactly that set is recorded.  A free list is such an implementation:
    there the default and the single sweep that overrides it both leave the
    free space with exactly the [admitted] extents added, the same list, and
    drop the same others. *)
Theorem default_release_each_closure `{Profile} (t : Z) :
  (∀ (T C : Type) (space : TrackedSpace T C) (X : list (Extent * C))
     (state : T → list (Extent * C) → Prop) (joins : (Extent * C → Prop) → Extent * C → Prop),
   AdmissionLaws X state joins → ∀ s, state s [] →
   TrackedSpace.release_each s t X ⇝ λ '(D, s'), ∃ K, state s' K ∧ splits_batch t X joins K D) ∧
  ∀ (l : FreeList) (X : list Extent), wf l → returnable l X →
  ∃ D1 D2 l', TrackedSpace.release_each l t (entries X) = Ret (D1, l') ∧
    FlatRelease.release_each l t (entries X) = Ret (D2, l') ∧ D1 ≡ₚ D2 ∧ admission l t X (D1.*1) l'.
Proof.
  split; [intros T C space X state joins Hlaws s Hs; by apply laws_release_each|].
  intros l X. apply sweep_release_each_equivalent.
Qed.

Lemma default_release_each_closure_witness :
  (TrackedSpace.release_each (H := FreeList_tracked (H := debug_build)) sample_list 16 (entries sample_returns)
    ⇝ λ '(D, l'), ∃ K, flat_state sample_list (entries sample_returns) l' K ∧
        splits_batch 16 (entries sample_returns) (flat_joins sample_list) K D) ∧
  ∃ D1 D2 l',
    TrackedSpace.release_each (H := FreeList_tracked (H := debug_build)) sample_list 16 (entries sample_returns) = Ret (D1, l') ∧
    FlatRelease.release_each (H := debug_build) sample_list 16 (entries sample_returns) = Ret (D2, l') ∧ D1 ≡ₚ D2 ∧
    admission sample_list 16 sample_returns (D1.*1) l'.
Proof.
  destruct (default_release_each_closure (H := debug_build) 16) as [Hdefault Hflat]. split.
  - apply Hdefault; [apply flat_laws; rewrite entries_fst; apply sample_returnable|].
    apply flat_init, sample_list_wf.
  - apply Hflat; [apply sample_list_wf|apply sample_returnable].
Defined.

(** [FlatRelease::release_all] admits the batch and then lowers the end of
    allocation over dropped extents only: everything between the new and the old
    end was dropped, and the extent just below the new end, if any, was not. *)
Lemma release_all_correct `{Profile} (l : FreeList) (t eoa : Z) (X : list Extent) :
  wf l → returnable l X → Forall (λ e, Extent.end_ e ≤ eoa) X →
  FlatRelease.release_all l t eoa X ⇝ λ '(eoa', l'), ∃ D, admission l t X D l' ∧
    eoa' ≤ eoa ∧ (∀ a, eoa' ≤ a < eoa → mem a D) ∧ ¬ mem (eoa' - 1) D.
Proof. apply release_all_spec. Qed.

(** [OrderedReturns::new] accepts a batch only in address order: the result
    is a rearrangement of the input that is sorted and disjoint, and an error
    means that two extents of the input really overlap. *)
Lemma ordered_returns_correct {C : Type} (batch : list (Extent * C)) :
  match OrderedReturns.new batch with
  | Ok l => l ≡ₚ batch ∧ ordered (l.*1)
  | Err _ => ¬ all_apart (batch.*1)
  end.
Proof. apply ordered_returns_spec. Qed.

(** [ReturnedExtents::insert] keeps the collection sorted and disjoint.  It
    accepts an extent exactly when it meets no entry, adding that one entry, and
    otherwise leaves the collection alone and names an entry it overlaps. *)
Lemma returned_insert_correct (s : ReturnedExtents) (x : Extent) (c : FreeClass) :
  returned_ok s →
  let '(r, s') := ReturnedExtents.insert s x c in
  returned_ok s' ∧
  match r with
  | Ok _ => clear_of x ((returned_entries s).*1) ∧ returned_entries s' ≡ₚ (x, c) :: returned_entries s
  | Err err => s' = s ∧ ∃ y, y ∈ (returned_entries s).*1 ∧ ¬ apart x y ∧ (err = Overlap y x ∨ err = Overlap x y)
  end.
Proof. apply returned_insert_spec. Qed.
