(* ===== verification/PagedTheorems.v ===== *)
(** * Theorems about paged free space

    PAGE files keep metadata and raw free space apart and move whole free pages
    between them.  The theorems cover the page split, promotion of whole pages,
    allocation, padding, and the round trip through the persisted managers. *)

From stdpp Require Import strings.
From S2P Require Import Prelude Addresses Extents Regions Requests FreeLists FreeListFacts.
From S2P Require Import FreeListMerge Admission AdmissionLaws Persistence Paged PagedEdits.
From S2P Require Import PagedFacts PersistFacts Snapshots Samples.

Local Open Scope Z_scope.

(** ** Samples *)

Definition sample_edit : PagedEdit :=
  mkPagedEdit page512 sample_list other_list FreeList.new FreeList.new (Some Meta) [] [].

Lemma sample_edit_ok : edit_ok sample_edit.
Proof.
  split_and!; [|constructor|intros a Ha; by apply mem_nil in Ha].
  split; [|exact (proj2 sample_lists_ok)].
  repeat constructor; first [apply sample_list_wf|apply other_list_wf|apply wf_new].
Qed.

Lemma sample_three_ok : lists_ok [sample_list; other_list; FreeList.new].
Proof.
  split; [|exact (proj2 sample_lists_ok)].
  repeat constructor; first [apply sample_list_wf|apply other_list_wf|apply wf_new].
Qed.

(** ** The page split *)

(** [PageParts::new] is a partition of the extent: its pieces are in
    address order, cover exactly the extent, the edges each lie inside one page
    and the interior is page aligned; [count] is the number of pieces. *)
Lemma page_parts_partition (p : FileSpacePageSize) (e : Extent) :
  let q := PageParts.new e p in
  ordered (pieces q) ∧ (∀ a, mem a (pieces q) ↔ inside a e) ∧
  (∀ f, f ∈ PageParts.edges q → in_one_page p f) ∧
  (∀ i, interior q = Some i → page_aligned p i) ∧
  PageParts.count q = length (pieces q).
Proof.
  cbv zeta. split_and!; [apply ordered_pieces|apply parts_mem|apply edges_in_one_page| |apply count_pieces].
  intros i Hi. by apply interior_aligned in Hi as [? _].
Qed.

(** [promote_whole_free_pages] moves every page that is free across the
    metadata, raw and dead lists taken together into the raw list, and nothing
    else: the three lists stay well formed and disjoint, and each address moves
    exactly when its whole page is free. *)
Lemma promote_whole_pages_correct (p : FileSpacePageSize) (meta raw dead : FreeList) :
  lists_ok [meta; raw; dead] →
  PageLists.promote_whole_free_pages meta raw dead p ⇝ λ '(meta', raw', dead'),
    lists_ok [meta'; raw'; dead'] ∧
    let W := whole_page p (free_in [meta; raw; dead]) in
    (∀ a, free_at meta' a ↔ free_at meta a ∧ ¬ W a) ∧
    (∀ a, free_at raw' a ↔ free_at raw a ∨ W a) ∧
    (∀ a, free_at dead' a ↔ free_at dead a ∧ ¬ W a).
Proof. apply promote_spec. Qed.

(** ** Allocation *)

(** [PagedEdit::allocate] serves a request of one page type from its own
    list, or else claims whole pages of the other list, the unused rest joining
    the own list: the reusable space loses exactly the allocation, only the two
    reusable lists change and the session invariant holds; it fails, unchanged,
    only when the own list has no long enough region and the other one no long
    enough run of whole pages. *)
Lemma paged_allocate_correct `{Profile} (e : PagedEdit) (n : Z) (ty : PageType) :
  edit_ok e → 0 < n →
  PagedEdit.allocate e n ty ⇝ λ '(o, e'), edit_ok e' ∧
    match o with
    | Some x => Extent.len x = n ∧ reusable_changed e e' ∧ (∀ a, inside a x → reusable e a) ∧
        (∀ a, reusable e' a ↔ reusable e a ∧ ¬ inside a x)
    | None => e' = e ∧ no_fit e ty n
    end.
Proof. apply paged_allocate_spec. Qed.

(** [PagedEdit::allocate_block] does the same for a request that may be a
    block: the extent also starts where a block of that size may start. *)
Lemma paged_allocate_block_correct `{Profile} (e : PagedEdit) (r : ReservationRequest) :
  edit_ok e → 0 < request_size r →
  PagedEdit.allocate_block e r ⇝ λ '(o, e'), edit_ok e' ∧
    match o with
    | Some x => Extent.len x = request_size r ∧ legal_start r (Some (pe_page_size e)) (Extent.start x) ∧
        reusable_changed e e' ∧ (∀ a, inside a x → reusable e a) ∧
        (∀ a, reusable e' a ↔ reusable e a ∧ ¬ inside a x)
    | None => e' = e
    end.
Proof. apply paged_allocate_block_spec. Qed.

(** ** Persistence *)

Lemma tagged_snd (ms : list ManagerSections) : (tagged_sections ms).*2 = ms ≫= manager_sections.
Proof.
  induction ms as [|x ms IH]; [done|]. unfold tagged_sections in *. rewrite !bind_cons, fmap_app, IH. f_equal.
  rewrite <- list_fmap_compose. apply list_fmap_id.
Qed.

Lemma managers_perm (p : FileSpacePageSize) (m r u : list Extent) :
  manager_list p m r u ≫= manager_sections ≡ₚ
    (m ≫= (λ e, pieces (PageParts.new e p))) ++ (r ≫= (λ e, pieces (PageParts.new e p))) ++ u.
Proof.
  destruct (split_lists p m r u) as [[metadata raw] generic] eqn:Es.
  rewrite <- tagged_snd, (tagged_sections_list p m r u _ _ _ Es), <- (split_lists_perm p m r u _ _ _ Es).
  rewrite !fmap_app, <- !list_fmap_compose. by rewrite !list_fmap_id.
Qed.

Lemma mem_pieces_bind (p : FileSpacePageSize) (l : list Extent) (a : Z) :
  mem a (l ≫= (λ e, pieces (PageParts.new e p))) ↔ mem a l.
Proof.
  rewrite mem_concat_map. setoid_rewrite parts_mem. done.
Qed.

(** The persisted managers of a PAGE file hold exactly the free space: the
    sections written are disjoint and cover the three lists' addresses, no
    manager is empty, the small managers hold sections that stay inside one page
    and the generic manager's sections are in address order (its debug
    assertion holds). *)
Lemma paged_managers_correct `{Profile} (p : FileSpacePageSize) (m r u : list Extent) :
  all_apart (m ++ r ++ u) →
  ManagerSections.paged_lists m r u p ⇝ λ ms,
    all_apart (ms ≫= manager_sections) ∧
    (∀ a, mem a (ms ≫= manager_sections) ↔ mem a (m ++ r ++ u)) ∧
    ∀ x, x ∈ ms → manager_sections x ≠ [] ∧
      match manager_kind x with
      | PagedLargeGeneric => ordered (manager_sections x)
      | PagedSmallMetadata | PagedSmallRaw => Forall (in_one_page p) (manager_sections x)
      | ManagerFlat => False
      end.
Proof.
  intros Hap. rewrite (paged_lists_ret p m r u Hap). apply returns_ret.
  pose proof (managers_perm p m r u) as Hperm. split_and!.
  - destruct (split_lists p m r u) as [[metadata raw] generic] eqn:Es.
    eapply all_apart_perm; [|exact (split_lists_apart p m r u _ _ _ Hap Es)].
    rewrite Hperm. apply (split_lists_perm p m r u _ _ _ Es).
  - intros a. transitivity (mem a ((m ≫= (λ e, pieces (PageParts.new e p)))
      ++ (r ≫= (λ e, pieces (PageParts.new e p))) ++ u)).
    + unfold mem. by setoid_rewrite Hperm.
    + rewrite !mem_app, !mem_pieces_bind. done.
  - intros x Hx. by eapply manager_list_shape.
Qed.

(** C32: persisting and reloading PAGE free space loses nothing and moves only whole pages.
    The sections of the managers written for three disjoint lists, read back in address order,
    give a session with the same free addresses, each in the list it came from, except that a
    page all of whose addresses are free in the metadata and raw lists together, or in the
    unclassified list alone, comes back as raw. *)
Theorem persist_reload_roundtrip `{Profile} (p : FileSpacePageSize) (m r u : FreeList) :
  lists_ok [m; r; u] →
  ∃ ms, ManagerSections.paged_lists (regions m) (regions r) (regions u) p = Ret ms ∧
  ∀ sections, sections ≡ₚ tagged_sections ms → ordered (sections.*2) →
  PagedEdit.from_persisted p sections ⇝ λ res, ∃ e, res = Ok e ∧ edit_ok e ∧
    (∀ a, free_in [pe_meta e; pe_raw e; pe_unclassified e] a ↔ free_in [m; r; u] a) ∧
    let W a := whole_page p (free_in [m; r]) a in
    let U a := whole_page p (free_at u) a in
    (∀ a, free_at (pe_meta e) a ↔ free_at m a ∧ ¬ W a) ∧
    (∀ a, free_at (pe_raw e) a ↔ free_at r a ∨ W a ∨ U a) ∧
    (∀ a, free_at (pe_unclassified e) a ↔ free_at u a ∧ ¬ U a).
Proof.
  intros Hok. pose proof Hok as [_ Hap]. simpl in Hap. rewrite app_nil_r in Hap.
  exists (manager_list p (regions m) (regions r) (regions u)). split; [by apply paged_lists_ret|].
  intros sections Hp Ho. eapply returns_mono; [by apply (reload_spec p m r u sections)|].
  intros res (e & -> & Heok & Hm & Hr & Hu). exists e. split_and!; [done|done| |done]. intros a.
  pose proof (whole_page_self p (free_in [m; r]) a) as Hself1. pose proof (whole_page_self p (free_at u) a) as Hself2.
  pose proof (free_at_dec (pe_raw e) a) as Hdec. rewrite Hr in Hdec.
  rewrite !free_in_cons, !free_in_nil in *. rewrite Hm, Hr, Hu. tauto.
Qed.

(** The sections of the sample lists in address order. *)
Definition sample_sections : list (option ManagerKind * Extent) :=
  [(Some PagedSmallMetadata, ext_a); (Some PagedLargeGeneric, ext_b); (Some PagedSmallRaw, ext_gap);
   (Some PagedSmallMetadata, ext_c); (Some PagedSmallRaw, ext_high)].

Lemma persist_reload_roundtrip_witness :
  ∃ e, PagedEdit.from_persisted page512 sample_sections = Ret (Ok e) ∧ edit_ok e ∧
    ∀ a, free_in [pe_meta e; pe_raw e; pe_unclassified e] a ↔
         free_in [sample_list; other_list; FreeList.new] a.
Proof.
  destruct (persist_reload_roundtrip (H := debug_build) page512 sample_list other_list FreeList.new sample_three_ok)
    as (ms & Heq & Hall).
  destruct (Hall sample_sections) as (res & Hres & e & -> & Hok & Hset & _).
  - vm_compute in Heq. injection Heq as <-. simpl.
    apply perm_skip. etransitivity; [apply Permutation_cons_append|]. apply perm_swap.
  - unfold ordered. simpl. closed_list.
  - exists e. split_and!; [exact Hres|exact Hok|exact Hset].
Defined.

(** C39: [PagedEdit::from_persisted] accepts exactly the sorted disjoint
    sections.  An accepted file gives a valid session whose free space is the
    sections'; a rejected one gives the error that names the first offending
    pair.  It never panics. *)
Theorem from_persisted_decides (p : FileSpacePageSize) (sections : list (option ManagerKind * Extent)) :
  PagedEdit.from_persisted p sections ⇝ λ res,
  match res with
  | Ok e => ordered (sections.*2) ∧ edit_ok e ∧ pe_page_size e = p ∧
      ∀ a, free_in (edit_lists e) a ↔ mem a (sections.*2)
  | Err err => ∃ pre x y post, sections = pre ++ x :: y :: post ∧ ordered (pre.*2 ++ [x.2]) ∧
      Extent.start y.2 < Extent.end_ x.2 ∧
      err = if Extent.start y.2 <? Extent.start x.2 then Unsorted x.2 y.2 else Overlap x.2 y.2
  end.
Proof.
  destruct (ordered_or_violation (sections.*2)) as [Ho|(pre & x & y & post & Hs & Ho & Hlt)].
  - eapply returns_mono; [by apply from_persisted_ok|].
    intros res (e & -> & Hok & Hp & Hd & _ & Hm & Hr & Hu). split_and!; [done..|]. intros a.
    destruct (parts_ordered p sections Ho) as (_ & Hmem & _). rewrite <- Hmem.
    unfold edit_lists, other_lists. rewrite !free_in_cons, free_in_nil, Hd.
    assert (Hnew : free_at FreeList.new a ↔ False) by apply mem_nil. rewrite Hnew.
    set (parts := sections ≫= _) in *.
    assert (Hparts : mem a (parts.*1) ↔ ∃ ty f, (f, ty) ∈ parts ∧ inside a f).
    { split; [intros (f & Hf & Hi); apply list_elem_of_fmap in Hf as ([f' ty] & -> & Hf); eauto|].
      intros (ty & f & Hf & Hi). exists f. split; [apply list_elem_of_fmap; by exists (f, ty)|done]. }
    rewrite Hparts. split.
    + intros [Ha|[Ha|[Ha|Hno]]].
      * apply Hm in Ha as [(f & ? & ?) _]. eauto.
      * apply Hr in Ha as [(f & ? & ?)|Ha%whole_page_self]; [eauto|]. destruct Ha as [(f & ? & ?)|(f & ? & ?)]; eauto.
      * apply Hu in Ha as (f & ? & ?). eauto.
      * tauto.
    + intros (ty & f & Hf & Hi). assert (Hdec := free_at_dec (pe_raw e) a). rewrite Hr in Hdec.
      destruct ty as [[]|]; [|right; left; apply Hr; left; eauto|right; right; left; apply Hu; eauto].
      rewrite Hm, Hr. destruct Hdec as [Hd2|Hd2]; [right; by left|]. left. split; [eauto|tauto].
  - assert (∃ pre' x' y' post', sections = pre' ++ x' :: y' :: post' ∧ pre'.*2 = pre ∧ x'.2 = x ∧ y'.2 = y)
      as (pre' & x' & y' & post' & -> & <- & <- & <-).
    { apply fmap_app_inv in Hs as (pre' & rest & -> & Hrest & ->).
      destruct rest as [|x' [|y' post']]; try done. injection Hrest as -> -> _. by exists pre', x', y', post'. }
    unfold PagedEdit.from_persisted. rewrite (persisted_loop_err p pre' post' x' y' Ho Hlt). apply returns_ret.
    by exists pre', x', y', post'.
Qed.

(** ** Padding and views *)

(** [PagedEdit::plan_transition] pads exactly when the end of allocation
    lies inside a page of the other type (or of unknown type): the padding starts
    there, ends at the next page boundary and is tracked as the page's last type.
    The error is an overflow and means that no such padding is representable. *)
Lemma plan_transition_correct (e : PagedEdit) (eoa : Z) (ty : PageType) :
  0 ≤ eoa →
  match PagedEdit.plan_transition e eoa ty with
  | Ok Unchanged => eoa mod page_bytes (pe_page_size e) = 0 ∨ pe_last e = Some ty
  | Ok (Pad x track_as) => pe_last e ≠ Some ty ∧ track_as = pe_last e ∧ pads_page (pe_page_size e) eoa x
  | Err err => err = OffsetOverflow eoa (page_bytes (pe_page_size e) - eoa mod page_bytes (pe_page_size e)) ∧
      ∀ x, ¬ pads_page (pe_page_size e) eoa x
  end.
Proof. apply plan_transition_spec. Qed.

(** [PagedTail::with_metadata_padding] accepts padding exactly when it is
    sorted and disjoint, lies inside the planned allocation and meets no free
    space.  Accepted padding becomes free, and nothing else does; the lists stay
    valid and the rest of the plan is unchanged. *)
Lemma metadata_padding_correct (t : PagedTail) (padding : list Extent) :
  padding ≠ [] → lists_ok (post_lists (tail_post t)) →
  let valid := ordered padding ∧ padding_fits (tail_allocation t) (post_lists (tail_post t)) padding in
  PagedTail.with_metadata_padding t padding ⇝ λ r,
  match r with
  | Err _ => ¬ valid
  | Ok t' => valid ∧ lists_ok (post_lists (tail_post t')) ∧
      (∀ a, free_in (post_lists (tail_post t')) a ↔ free_in (post_lists (tail_post t)) a ∨ mem a padding) ∧
      tail_allocation t' = tail_allocation t ∧ tail_final_eoa t' = tail_final_eoa t ∧
      tail_appended t' = tail_appended t ∧ tail_request t' = tail_request t
  end.
Proof. apply with_metadata_padding_spec. Qed.

Definition sample_tail : PagedTail :=
  mkTail (mkRange 30000 1000 eq_refl) (mkPostFree page512 sample_list other_list FreeList.new FreeList.new)
    31000 true compound_request.

(** the page evidence of a snapshot is exact: a list has a fragment in a
    page precisely when it covers part of the page and not all of it, so
    [Known] names the only list that does, [Conflict] means both do and
    [Unknown] that neither does. *)
Lemma page_evidence_correct (p : FileSpacePageSize) (meta raw : list Extent) (k : Z) :
  canonical meta → canonical raw →
  let part l := (∃ a, a / page_bytes p = k ∧ mem a l) ∧ (∃ b, b / page_bytes p = k ∧ ¬ mem b l) in
  match PartialPageClasses.in_page meta raw p k with
  | Conflict => part meta ∧ part raw
  | Known Meta => part meta ∧ ¬ part raw
  | Known Raw => part raw ∧ ¬ part meta
  | Unknown => ¬ part meta ∧ ¬ part raw
  end.
Proof. apply in_page_spec. Qed.

(** the views of a session's free space agree: the merged iterator shows
    the regions of both reusable lists once each, in address order, and the
    reported number of reusable bytes is their total, which is representable. *)
Lemma reusable_views_agree `{Profile} (p : FileSpacePageSize) (m r u : FreeList) :
  lists_ok [m; r] →
  let snapshot := AdmittedFreeSnapshot.paged p m r u in
  AdmittedFreeSnapshot.reusable_sections snapshot ⇝ λ l,
    ordered l ∧ l ≡ₚ regions m ++ regions r ∧ (∀ a, mem a l ↔ free_at m a ∨ free_at r a) ∧
    AdmittedFreeSnapshot.reusable_bytes snapshot = Ok (total l).
Proof. apply reusable_views. Qed.
