(* ===== verification/PagedCommitTheorems.v ===== *)
(** * Theorems about PAGE commits

    Admission of a batch through the queue, release of a batch, and the plan of
    the tail block: what a commit publishes as free space. *)

From stdpp Require Import strings.
From S2P Require Import Prelude Addresses Extents Regions Requests FreeLists FreeListFacts.
From S2P Require Import FreeListMerge Admission AdmissionLaws Persistence Paged PagedEdits.
From S2P Require Import PagedFacts PageAdmissionFacts PagedCommitFacts PagedTailFacts Samples.

Local Open Scope Z_scope.

#[local] Existing Instance PagedPostFree.tracked.

(** ** Samples *)

Definition commit_post : PagedPostFree :=
  mkPostFree page512 sample_list other_list FreeList.new FreeList.new.

Definition commit_edit_sample : PagedEdit :=
  mkPagedEdit page512 sample_list other_list FreeList.new FreeList.new (Some Meta) [] [].

(** [80, 90) joins only after [90, 100), which touches the list; [30000, 30010)
    touches nothing. *)
Definition commit_batch : list (Extent * FreeClass) :=
  [(mkRange 80 10 eq_refl, PageClass Raw); (mkRange 90 10 eq_refl, PageClass Meta);
   (mkRange 30000 10 eq_refl, Dead)].

Lemma commit_post_ok : lists_ok (post_lists commit_post).
Proof.
  split; [|exact (proj2 sample_lists_ok)].
  repeat constructor; first [apply sample_list_wf|apply other_list_wf|apply wf_new].
Qed.

Lemma commit_edit_sample_ok : edit_ok commit_edit_sample.
Proof.
  split_and!; [|constructor|intros a Ha; by apply mem_nil in Ha].
  split; [|exact (proj2 sample_lists_ok)].
  repeat constructor; first [apply sample_list_wf|apply other_list_wf|apply wf_new].
Qed.

(** Disjointness of addresses from disjointness of extents. *)
Lemma apart_lists (l1 l2 : list Extent) (a : Z) : all_apart (l1 ++ l2) → mem a l1 → ¬ mem a l2.
Proof. intros (_ & _ & Hx)%all_apart_app (e & He & Hi) (f & Hf & Hi'). specialize (Hx e f He Hf). elia. Qed.

Lemma below_lists (l : list Extent) (a eoa : Z) : Forall (λ e, Extent.end_ e ≤ eoa) l → mem a l → a < eoa.
Proof. rewrite Forall_forall. intros Hl (e & He & Hi). specialize (Hl e He). elia. Qed.

Lemma commit_batch_apart : all_apart (commit_batch.*1 ++ mjoin (regions <$> post_lists commit_post)).
Proof. unfold all_apart. simpl. closed_list. Qed.

Lemma commit_batch_returnable : page_returnable commit_post commit_batch.
Proof.
  apply returnable_outside. split; [by pose proof commit_batch_apart as (? & _)%all_apart_app|].
  intros a Ha. rewrite free_in_join. by apply (apart_lists _ _ _ commit_batch_apart).
Qed.

Lemma commit_post_below (a : Z) : free_in (post_lists commit_post) a ∨ mem a (commit_batch.*1) → a < 40960.
Proof.
  rewrite free_in_join. intros [Ha|Ha]; revert Ha; apply below_lists; simpl; closed_list.
Qed.

Lemma commit_sample_ok : commit_ok commit_edit_sample 40960 (returned_batch commit_batch []).
Proof.
  unfold returned_batch. rewrite fmap_nil, app_nil_r.
  assert (Hspace : ∀ a, edit_space commit_edit_sample a → free_in (post_lists commit_post) a).
  { intros a [Ha|Ha]; [exact Ha|by apply mem_nil in Ha]. }
  split; [apply commit_edit_sample_ok|apply commit_batch_returnable| |].
  - intros a Ha Hs%Hspace. revert Hs. by apply (proj2 (proj1 (returnable_outside _ _) commit_batch_returnable)).
  - intros a Ha. apply commit_post_below. destruct Ha as [Ha|Ha]; [left; by apply Hspace|by right].
Qed.

(** ** Admission *)

(** C16: The queue of [PageAdmission], which revisits only the extents at the ends
    of a run that changed, is the trait's default [release_each]: for any batch
    of disjoint extents outside the recorded space both return, leave the same
    metadata, raw, dead and unclassified lists and drop the same extents, and
    what they record is the least set of extents that contains every extent at
    the threshold and every extent that merges with recorded space.  The queue
    loop ends within three visits per extent. *)
Theorem paged_release_each_equivalent `{Profile} (post : PagedPostFree) (t : Z) (X : list (Extent * FreeClass)) :
  lists_ok (post_lists post) → page_returnable post X →
  ∃ D D' post', PagedPostFree.release_each post t X = Ret (D, post') ∧
    TrackedSpace.release_each post t X = Ret (D', post') ∧ D ≡ₚ D' ∧
    lists_ok (post_lists post') ∧ page_admission post X t D post'.
Proof.
  intros Hok HX. pose proof (lists_ok_wf _ Hok) as Hwf.
  destruct (page_release_each_spec post t X Hwf HX) as ([D s] & Heq & HD).
  destruct (default_page_spec post X Hwf HX t) as ([D' s'] & Heq' & HD').
  destruct (page_admission_unique post X HX t D D' s s' HD HD') as [Hp <-].
  exists D, D', s. split_and!; [done|done|done| |done].
  destruct HD as (K & HK & _). exact (page_state_lists_ok post X HX s K Hok HK).
Qed.

Lemma paged_release_each_equivalent_witness :
  ∃ D D' post', PagedPostFree.release_each (H := debug_build) commit_post 100 commit_batch = Ret (D, post') ∧
    TrackedSpace.release_each (H := PagedPostFree.tracked (H := debug_build)) commit_post 100 commit_batch = Ret (D', post') ∧
    D ≡ₚ D' ∧ D = [(mkRange 30000 10 eq_refl, Dead)].
Proof.
  destruct (paged_release_each_equivalent (H := debug_build) commit_post 100 commit_batch
    commit_post_ok commit_batch_returnable) as (D & D' & post' & H1 & H2 & H3 & _ & _).
  exists D, D', post'. split_and!; [exact H1|exact H2|exact H3|]. vm_compute in H1. congruence.
Defined.

(** ** Release of a batch *)

(** C37: [PagedPostFree::release_all] returns for any batch of disjoint extents
    outside the recorded space and below the end of allocation.  The lists stay
    well formed and disjoint; what they publish was recorded or returned and
    lies below the new end of allocation, a page boundary no higher than the one
    at or above the old end; the file is shortened only over recorded or
    returned space; and unless the threshold exceeds the page size no recorded
    address is forgotten. *)
Theorem paged_release_all_correct `{Profile} (post : PagedPostFree) (t eoa top : Z) (X : list (Extent * FreeClass)) :
  let P := page_bytes (pf_page_size post) in
  let free a := free_in (post_lists post) a ∨ mem a (X.*1) in
  lists_ok (post_lists post) → page_returnable post X → 0 ≤ eoa →
  checked_next_multiple_of eoa P = Some top → top ≤ U64_MAX → (∀ a, free a → a < eoa) →
  PagedPostFree.release_all post t eoa X ⇝ λ '(eoa', post'), releases free P eoa top post' eoa' ∧
    same_frame_post post post' ∧
    (t ≤ P → ∀ a, free_in (post_lists post) a → free_in (post_lists post') a).
Proof. exact (paged_release_all_spec post t eoa top X). Qed.

Lemma paged_release_all_correct_witness :
  ∃ eoa' post', PagedPostFree.release_all (H := debug_build) commit_post 100 40960 commit_batch = Ret (eoa', post') ∧
    eoa' mod 512 = 0 ∧ lists_ok (post_lists post') ∧
    (∀ a, free_in (post_lists commit_post) a → free_in (post_lists post') a).
Proof.
  destruct (paged_release_all_correct (H := debug_build) commit_post 100 40960 40960 commit_batch
    commit_post_ok commit_batch_returnable ltac:(lia) eq_refl ltac:(unfold U64_MAX; lia) commit_post_below)
    as ([eoa' post'] & Heq & (Hl & Hmod & _) & _ & Hkeep).
  exists eoa', post'. split_and!; [exact Heq|exact Hmod|exact Hl|]. apply Hkeep. vm_compute. congruence.
Defined.

(** [PagedEdit::post_free] merges the skipped padding, releases the batch and
    promotes whole pages: the published lists satisfy the guarantees of a
    release, and every page that is free across the metadata, raw and dead lists
    is in the raw list. *)
Lemma post_free_correct `{Profile} (e : PagedEdit) (t eoa top : Z) (freed : list (Extent * FreeClass))
    (old_blocks : list Extent) :
  let P := page_bytes (pe_page_size e) in
  commit_ok e eoa (returned_batch freed old_blocks) → 0 ≤ eoa →
  checked_next_multiple_of eoa P = Some top → top ≤ U64_MAX →
  PagedEdit.post_free e t eoa freed old_blocks ⇝ λ '(post, eoa'),
    releases (commit_free e freed old_blocks) P eoa top post eoa' ∧ pf_page_size post = pe_page_size e ∧
    (t ≤ P → ∀ a, edit_space e a → free_in (post_lists post) a) ∧
    (∀ a, whole_page (pe_page_size e) (free_in (class_lists post)) a → free_at (pf_raw post) a).
Proof. exact (post_free_spec e t eoa top freed old_blocks). Qed.

(** [PagedPostFree::release_trailing] shortens the file only over free space,
    removes exactly the addresses at or above the new end from the four lists,
    and keeps a page-aligned end page aligned. *)
Lemma paged_release_trailing_correct (post : PagedPostFree) (eoa n : Z) :
  lists_ok (post_lists post) → 0 ≤ eoa ≤ U64_MAX → 0 ≤ n → (∀ a, free_in (post_lists post) a → a < eoa) →
  PagedPostFree.release_trailing post eoa n ⇝ λ '(eoa', post'), trailing_released post eoa eoa' post'.
Proof. apply release_trailing_spec. Qed.

(** The runs of two lists form one trailing run [4096, 8704). *)
Definition trailing_post : PagedPostFree :=
  mkPostFree page512 sample_list (mkFreeList [ext_gap] 256) FreeList.new FreeList.new.

(** ** The tail of a commit *)

(** C2: [PagedEdit::plan_tail] never publishes live bytes.  For a session that
    satisfies its invariant and returned extents it does not hold, the plan
    returns; a planned tail has the requested length, lies in reusable space or
    past the old end of allocation, ends at or below the new end, a page
    boundary, and shares no address with the published lists, which are
    disjoint, lie below the new end and hold only space that is free after the
    commit or lies past the old end; the file is cut only over free space.  No
    tail is planned only when nothing fits, and every error is an arithmetic
    overflow of the boundary, the reserve or the appended tail, or an empty
    appended tail. *)
Theorem plan_tail_correct `{Profile} (e : PagedEdit) (t eoa n : Z) (freed : list (Extent * FreeClass))
    (old_blocks : list Extent) (appended : bool) :
  u64 eoa → 0 ≤ n → commit_ok e eoa (returned_batch freed old_blocks) →
  PagedTailPlan.plan_tail e t eoa freed old_blocks n appended ⇝ λ r,
  match r with
  | Ok (Some tail) => planned e eoa n freed old_blocks tail ∧ tail_appended tail = appended
  | Ok None => appended = false ∧ (n = 0 ∨ no_fit e Meta n)
  | Err err => (∃ o m, err = OffsetOverflow o m) ∧
      (plan_refused e eoa n ∨ appended = true ∧ (n = 0 ∨ U64_MAX < eoa + n + page_bytes (pe_page_size e)))
  end.
Proof. intros Heoa Hn Hok. exact (plan_tail_spec e t eoa freed old_blocks Heoa n appended Hok Hn). Qed.

Lemma plan_tail_correct_witness :
  ∃ tail, PagedTailPlan.plan_tail (H := debug_build) commit_edit_sample 100 40960 commit_batch [] 64 false
      = Ret (Ok (Some tail)) ∧ planned commit_edit_sample 40960 64 commit_batch [] tail.
Proof.
  destruct (plan_tail_correct (H := debug_build) commit_edit_sample 100 40960 64 commit_batch [] false
    ltac:(unfold u64, U64_MAX; lia) ltac:(lia) commit_sample_ok) as ([[tail|]|err] & Heq & Hr);
    [|exfalso; vm_compute in Heq; congruence..].
  exists tail. split; [exact Heq|apply Hr].
Defined.

(** C15: Commits compose.  When a session adopts the state its planned tail
    published, the session invariant holds again, it holds only space below the
    new end of allocation that was free after the commit or lies past the old
    end, and the next commit may return the tail block: the obligations of
    [plan_tail] hold at the new end with the tail among the returned extents. *)
Theorem commit_cycle `{Profile} (e : PagedEdit) (t eoa n : Z) (freed : list (Extent * FreeClass))
    (old_blocks : list Extent) (appended : bool) (tail : PagedTail) :
  u64 eoa → 0 ≤ n → commit_ok e eoa (returned_batch freed old_blocks) →
  PagedTailPlan.plan_tail e t eoa freed old_blocks n appended = Ret (Ok (Some tail)) →
  PagedEdit.adopt_post_free e (tail_post tail) appended None ⇝ λ e',
    commit_ok e' (tail_final_eoa tail) (returned_batch [] [tail_allocation tail]) ∧
    (∀ a, edit_space e' a → commit_free e freed old_blocks a ∨ eoa ≤ a).
Proof.
  intros Heoa Hn Hok Hplan. pose proof (plan_tail_spec e t eoa freed old_blocks Heoa n appended Hok Hn) as Hspec.
  apply (returns_eq _ _ _ Hplan) in Hspec as [[Hl _ Hpriv Hpub Hend _ _ _] _].
  eapply returns_mono; [by apply (adopt_post_free_spec e (tail_post tail) appended None)|].
  intros e' (Hed & Hspace & _ & _).
  assert (Hin : ∀ a, edit_space e' a → free_in (post_lists (tail_post tail)) a).
  { intros a Ha. apply Hspace in Ha as [Ha|Ha]; [done|by apply mem_nil in Ha]. }
  assert (Hone : ∀ a, mem a ((returned_batch [] [tail_allocation tail]).*1) ↔ inside a (tail_allocation tail)).
  { intros a. apply mem_singleton. }
  split; [split; [done|repeat constructor| |]|].
  - intros a Ha%Hone Hs%Hin. by apply (Hpriv a).
  - intros a [Hs%Hin|Ha%Hone]; [by apply Hpub|elia].
  - intros a Ha%Hin. by apply Hpub.
Qed.

Lemma commit_cycle_witness :
  ∃ tail e', PagedTailPlan.plan_tail (H := debug_build) commit_edit_sample 100 40960 commit_batch [] 64 true
      = Ret (Ok (Some tail)) ∧
    PagedEdit.adopt_post_free (H := debug_build) commit_edit_sample (tail_post tail) true None = Ret e' ∧
    commit_ok e' (tail_final_eoa tail) (returned_batch [] [tail_allocation tail]).
Proof.
  destruct (PagedTailPlan.plan_tail (H := debug_build) commit_edit_sample 100 40960 commit_batch [] 64 true)
    as [[[tail|]|err]|] eqn:Heq; [|exfalso; vm_compute in Heq; congruence..].
  destruct (commit_cycle (H := debug_build) commit_edit_sample 100 40960 64 commit_batch [] true tail
    ltac:(unfold u64, U64_MAX; lia) ltac:(lia) commit_sample_ok Heq) as (e' & Hadopt & Hok & _).
  exists tail, e'. split_and!; [reflexivity|exact Hadopt|exact Hok].
Defined.
