(* ===== verification/SessionTheorems.v ===== *)
(** * Theorems about indexes, sessions and reservation batches

    The size-indexed free list refines the scalar one operation by operation;
    a reservation batch, which works on indexes, is indistinguishable from
    scalar allocation; and snapshots undo allocations. *)

From stdpp Require Import gmap.
From S2P Require Import Prelude Addresses Extents Regions Requests FreeLists FreeListFacts.
From S2P Require Import FreeListMerge Admission Persistence StartMap Indexed IndexedFacts Paged.
From S2P Require Import PagedEdits PagedFacts Snapshots Sessions SessionFacts Samples PagedTheorems.

Local Open Scope Z_scope.

(** ** The index refines the list *)

(** The operations of an index built for one page size. *)
Inductive index_op : Type :=
| IxAllocate (n : Z)
| IxUnits (n : Z)
| IxBlock (request : ReservationRequest)
| IxFree (extent : Extent).

Section IndexOps.
Context `{Profile} (p : FileSpacePageSize).

Definition run_index_op (ix : IndexedFreeList) (op : index_op) : outcome (option Extent * IndexedFreeList) :=
  match op with
  | IxAllocate n => IndexedFreeList.allocate ix n
  | IxUnits n => IndexedFreeList.allocate_whole_units ix n
  | IxBlock r => IndexedFreeList.allocate_block ix r p
  | IxFree e => ix ← IndexedFreeList.free ix e; Ret (None, ix)
  end.

Definition run_list_op (l : FreeList) (op : index_op) : outcome (option Extent * FreeList) :=
  match op with
  | IxAllocate n => FreeList.alloc l n
  | IxUnits n => FreeList.alloc_whole_units l n (page_bytes p)
  | IxBlock r => FreeList.alloc_block l r p
  | IxFree e => l ← FreeList.free l e; Ret (None, l)
  end.

(** Requests are not empty, units are whole pages, and only extents outside the
    free space are freed. *)
Definition index_op_ok (l : FreeList) (op : index_op) : Prop :=
  match op with
  | IxAllocate n => 0 < n
  | IxUnits n => 0 < n ∧ n mod page_bytes p = 0
  | IxBlock r => 0 < request_size r
  | IxFree e => clear_of e (regions l)
  end.

Fixpoint run_index_ops (ix : IndexedFreeList) (ops : list index_op)
    : outcome (list (option Extent) * IndexedFreeList) :=
  match ops with
  | [] => Ret ([], ix)
  | op :: rest =>
    '(o, ix) ← run_index_op ix op;
    '(os, ix) ← run_index_ops ix rest;
    Ret (o :: os, ix)
  end.

Fixpoint run_list_ops (l : FreeList) (ops : list index_op) : outcome (list (option Extent) * FreeList) :=
  match ops with
  | [] => Ret ([], l)
  | op :: rest =>
    '(o, l) ← run_list_op l op;
    '(os, l) ← run_list_ops l rest;
    Ret (o :: os, l)
  end.

Fixpoint index_ops_ok (l : FreeList) (ops : list index_op) : Prop :=
  match ops with
  | [] => True
  | op :: rest => index_op_ok l op ∧ ∀ o l', run_list_op l op = Ret (o, l') → index_ops_ok l' rest
  end.

Lemma index_op_sim (ix : IndexedFreeList) (l : FreeList) (op : index_op) :
  pair_ok p ix l → index_op_ok l op →
  ∃ o ix' l', run_index_op ix op = Ret (o, ix') ∧ run_list_op l op = Ret (o, l') ∧ pair_ok p ix' l'.
Proof.
  intros Hp Hop. pose proof Hp as (Hr & Hpg & Ha). pose proof (page_size_pos p) as HP.
  destruct op as [n|n|r|e]; simpl in *.
  - destruct (allocate_sim ix l n Hr Hop) as (o & ix' & l' & H1 & H2 & H3 & H4).
    exists o, ix', l'. split_and!; [done..|exact (pair_ok_frame _ _ _ _ _ Hp H3 H4)].
  - destruct Hop as [Hn Hm].
    destruct (allocate_whole_units_sim ix l n (page_bytes p) Hr Ha ltac:(lia) HP Hm) as (o & ix' & l' & H1 & H2 & H3 & H4).
    exists o, ix', l'. split_and!; [done..|exact (pair_ok_frame _ _ _ _ _ Hp H3 H4)].
  - destruct (allocate_block_sim ix l r p Hr Hpg Hop) as (o & ix' & l' & H1 & H2 & H3 & H4 & H5 & _).
    exists o, ix', l'. split_and!; [done..|]. split_and!; [done|done|by rewrite H5].
  - destruct (free_sim ix l e Hr Hop) as (ix' & l' & -> & -> & H3 & H4).
    exists None, ix', l'. split_and!; [done..|exact (pair_ok_frame _ _ _ _ _ Hp H3 H4)].
Qed.

Lemma index_ops_sim (ix : IndexedFreeList) (l : FreeList) (ops : list index_op) :
  pair_ok p ix l → index_ops_ok l ops →
  ∃ os ix' l', run_index_ops ix ops = Ret (os, ix') ∧ run_list_ops l ops = Ret (os, l') ∧ pair_ok p ix' l'.
Proof.
  revert ix l. induction ops as [|op ops IH]; intros ix l Hp Hops; [by exists [], ix, l|].
  destruct Hops as [Hop Hrest]. destruct (index_op_sim ix l op Hp Hop) as (o & ix1 & l1 & H1 & H2 & Hp1).
  destruct (IH ix1 l1 Hp1 (Hrest _ _ H2)) as (os & ix' & l' & H3 & H4 & Hp').
  exists (o :: os), ix', l'. cbn [run_index_ops run_list_ops]. rewrite H1, H2. cbn [mbind outcome_bind].
  by rewrite H3, H4.
Qed.

End IndexOps.

(** C33: [IndexedFreeList] refines [FreeList]: on any sequence of allocations,
    whole-page claims, block allocations and frees, an index built from a list
    returns the same extents as the linear scans of the list, in the same order,
    and [restore] writes back exactly the list those scans would leave. *)
Theorem index_refines_list `{Profile} (p : FileSpacePageSize) (l : FreeList) (ops : list index_op) :
  wf l → index_ops_ok p l ops →
  ∃ os ix' l', run_index_ops p (IndexedFreeList.new l (Some (page_bytes p))) ops = Ret (os, ix') ∧
    run_list_ops p l ops = Ret (os, l') ∧ wf l' ∧ ix_owner (IndexedFreeList.restore ix') = l'.
Proof.
  intros Hw Hops. destruct (new_represents l (Some (page_bytes p)) Hw) as (Hr & Ha & Hb).
  assert (Hp : pair_ok p (IndexedFreeList.new l (Some (page_bytes p))) l)
    by (split_and!; [done|by unfold page_ok; rewrite Hb|done]).
  destruct (index_ops_sim p _ l ops Hp Hops) as (os & ix' & l' & H1 & H2 & Hr' & _).
  exists os, ix', l'. split_and!; [done|done|by destruct Hr'|by apply restore_owner].
Qed.

Definition sample_index_ops : list index_op := [IxBlock block_request; IxUnits 1024; IxAllocate 40].

Lemma index_refines_list_witness :
  ∃ os ix' l', run_index_ops (H := debug_build) page512 (IndexedFreeList.new sample_list (Some 512)) sample_index_ops
      = Ret (os, ix') ∧
    run_list_ops (H := debug_build) page512 sample_list sample_index_ops = Ret (os, l') ∧ wf l' ∧
    ix_owner (IndexedFreeList.restore ix') = l'.
Proof.
  apply (index_refines_list (H := debug_build) page512 sample_list sample_index_ops sample_list_wf).
  split; [simpl; lia|]. intros o1 l1 _. split; [split; [lia|reflexivity]|]. intros o2 l2 _.
  split; [simpl; lia|]. done.
Defined.

(** ** Sessions *)

Definition sample_session : SessionSpace := SessionPaged (mkPagedSpace sample_edit 1).

(** [SessionSpace::allocate_request], under every strategy, either gives an
    extent of the requested size at a legal start, taken out of the free
    addresses and removing exactly itself from them, or leaves the session
    unchanged; the session invariant and page size are kept and nothing panics. *)
Lemma allocate_request_correct `{Profile} (s : SessionSpace) (r : ReservationRequest) :
  session_ok s → 0 < request_size r →
  SessionSpace.allocate_request s r ⇝ λ '(o, s'), session_ok s' ∧
    SessionSpace.page_size s' = SessionSpace.page_size s ∧
    match o with
    | None => s' = s
    | Some x => Extent.len x = request_size r ∧
        legal_start r (SessionSpace.page_size s) (Extent.start x) ∧
        (∀ a, inside a x → session_free s a) ∧
        (∀ a, session_free s' a ↔ session_free s a ∧ ¬ inside a x)
    end.
Proof. apply allocate_request_spec. Qed.

(** C1: a reservation batch is indistinguishable from scalar allocation.  For
    any session, any declared number of requests and any sequence of
    reservations and aggregate releases, the batch of either constructor gives
    the placements and answers the scalar session gives, never panics, and
    finishing it leaves exactly the session the scalar operations would leave. *)
Theorem batch_refines_scalar `{Profile} (s : SessionSpace) (n : Z) (ops : list batch_op) (with_returns : bool) :
  session_ok s → ops_ok s ops →
  ∃ st results st' s',
    (if with_returns then ReservationBatch.reservation_batch_with_returns s n
     else ReservationBatch.reservation_batch s n) = Ret st ∧
    run_ops st ops = Ret (results, st') ∧
    run_ops (StateScalar s) ops = Ret (results, StateScalar s') ∧
    (ReservationBatch.finish s st').1 = s' ∧ session_ok s'.
Proof.
  intros Hok Hops.
  assert (∃ st, (if with_returns then ReservationBatch.reservation_batch_with_returns s n
     else ReservationBatch.reservation_batch s n) = Ret st ∧ batch_rel s st s) as (st & Hst & Hrel).
  { destruct with_returns; [by apply reservation_batch_with_returns_rel|by apply reservation_batch_rel]. }
  destruct (run_ops_sim s s st ops Hrel Hok Hops) as (results & st' & s' & H1 & H2 & Hrel' & Hok').
  exists st, results, st', s'. split_and!; [done..|by apply finish_rel|done].
Qed.

Definition sample_batch : list batch_op := [OpReserve block_request; OpReserve compound_request; OpReserve block_request].

Lemma batch_refines_scalar_witness :
  ∃ st results st' s',
    ReservationBatch.reservation_batch sample_session 3 = Ret st ∧
    run_ops (H := debug_build) st sample_batch = Ret (results, st') ∧
    run_ops (H := debug_build) (StateScalar sample_session) sample_batch = Ret (results, StateScalar s') ∧
    (ReservationBatch.finish sample_session st').1 = s' ∧ session_ok s'.
Proof.
  apply (batch_refines_scalar (H := debug_build) sample_session 3 sample_batch false sample_edit_ok).
  split; [simpl; lia|]. intros o1 s1 _. split; [simpl; lia|]. intros o2 s2 _. split; [simpl; lia|]. done.
Defined.

(** [restore_allocation] undoes any sequence of scalar reservations: with
    the snapshot taken before them, the session is exactly what it was. *)
Lemma restore_allocation_undoes `{Profile} (s : SessionSpace) (rs : list ReservationRequest) :
  session_ok s → Forall (λ r, 0 < request_size r) rs →
  run_ops (StateScalar s) (OpReserve <$> rs) ⇝ λ '(_, st'), ∃ s', st' = StateScalar s' ∧
    SessionSpace.restore_allocation s' (SessionSpace.allocation_snapshot s) = Ret s.
Proof.
  intros Hok Hrs. eapply returns_mono; [by apply reserve_all_shell|].
  intros [results st'] (s' & -> & _ & Hsh). exists s'. split; [done|by apply restore_shell].
Qed.
