(* ===== verification/ByteFields.v ===== *)
(** * Bounds-checked fields of the format

    Models [crates/hdf5-pure-format/src/]: [width.rs] (the widths of addresses,
    lengths and flag-selected integers), [convert.rs] (narrowing conversions) and
    [bytes.rs] (reads and writes of little-endian fields, and the cursor [Fields]),
    with [DecodedStoredAddress] of [hdf5-pure-core]. *)

From stdpp Require Import strings.
From S2P Require Import Prelude Addresses Words.

Local Open Scope Z_scope.

(** How the crate is built: the target, whether [debug_assert!] is checked and
    whether the [checksum] feature is enabled. *)
Class Build := {
  build_platform :: Platform;
  build_profile :: Profile;
  feature_checksum : bool;
}.

(** A 64-bit debug build with checksums, for concrete evaluations. *)
Definition build64 : Build := {|
  build_platform := {| USIZE_MAX := U64_MAX; usize_bounds := ltac:(unfold U64_MAX; lia) |};
  build_profile := true;
  feature_checksum := true;
|}.

(** [u64::checked_shr] *)
Definition checked_shr (v k : Z) : option Z := if k <? 64 then Some (Z.shiftr v k) else None.

(** [u64::leading_zeros] *)
Definition leading_zeros (v : Z) : Z := if v =? 0 then 64 else 63 - Z.log2 v.

Definition div_ceil (a b : Z) : Z := (a + b - 1) / b.

(** ** Decoded addresses *)

Inductive DecodedStoredAddress : Type :=
| Defined (address : Z)
| Undefined.

#[global] Instance DecodedStoredAddress_eq_dec : EqDecision DecodedStoredAddress.
Proof. solve_decision. Defined.

(** ** Widths *)

Record FormatWidths : Type := mkWidths {
  offsets : OffsetWidth;
  lengths : LengthWidth;
}.

Module FormatWidths.

Definition from_sizes (offset_size length_size : Z) : result FormatWidths FormatError :=
  result_bind (OffsetWidth.try_from offset_size) (λ o,
  result_bind (LengthWidth.try_from length_size) (λ l, Ok (mkWidths o l))).

End FormatWidths.

Definition encoded_unsigned_width (value : Z) : Z :=
  Z.max (div_ceil (64 - leading_zeros value) 8) 1.

Definition offset_width_max (w : OffsetWidth) : Z := Z.shiftr U64_MAX (64 - 8 * OffsetWidth.get w).

Definition offset_width_holds (w : OffsetWidth) (address : Z) : bool :=
  (address =? U64_MAX)
  || match checked_shr address (8 * OffsetWidth.get w) with Some high => high =? 0 | None => true end.

Definition length_width_holds (w : LengthWidth) (length : Z) : bool :=
  match checked_shr length (8 * LengthWidth.get w) with Some high => high =? 0 | None => true end.

Definition length_width_max (w : LengthWidth) : Z := Z.shiftr U64_MAX (64 - 8 * LengthWidth.get w).

Inductive UintWidth : Type := UintOne | UintTwo | UintFour | UintEight.

#[global] Instance UintWidth_eq_dec : EqDecision UintWidth.
Proof. solve_decision. Defined.

Module UintWidth.

Definition WIDTH_FLAG_MASK : Z := 0x03.

Definition from_flags (flags : Z) : UintWidth :=
  let k := Z.land flags WIDTH_FLAG_MASK in
  if k =? 0 then UintOne else if k =? 1 then UintTwo else if k =? 2 then UintFour else UintEight.

Definition smallest_for_value (value : Z) : UintWidth :=
  if value <=? 0xFFFFFFFF then
    if value <=? 0xFF then UintOne
    else if value <=? 0xFFFF then UintTwo
    else UintFour
  else UintEight.

Definition smallest_for_len (len : Z) : UintWidth := smallest_for_value len.

Definition get (w : UintWidth) : Z :=
  match w with UintOne => 1 | UintTwo => 2 | UintFour => 4 | UintEight => 8 end.

Definition flag_bits (w : UintWidth) : Z :=
  match w with UintOne => 0 | UintTwo => 1 | UintFour => 2 | UintEight => 3 end.

(** The assertion of [write] as a condition. *)
Definition holds (w : UintWidth) (value : Z) : bool :=
  match checked_shr value (8 * get w) with Some high => high =? 0 | None => true end.

Definition write (w : UintWidth) (buf : list Z) (value : Z) : outcome (list Z) :=
  _ ← assert_ (holds w value);
  Ret (buf ++ match w with
              | UintOne => [value mod 2 ^ 8]
              | UintTwo => le_bytes 2 (value mod 2 ^ 16)
              | UintFour => le_bytes 4 (value mod 2 ^ 32)
              | UintEight => le_bytes 8 value
              end).

End UintWidth.

Section Fields.
Context `{B : Build}.

(** ** Narrowing conversions

    [Narrow::to_usize] and [Narrow::narrow] to [u32]. *)
Definition to_usize (value : Z) : result Z FormatError :=
  if value <=? USIZE_MAX then Ok value else Err (ValueTooLargeForPlatform value "usize").

Definition narrow_u32 (value : Z) : result Z FormatError :=
  if value <=? 0xFFFFFFFF then Ok value else Err (ValueTooLargeForRepresentation value "u32").

(** ** Reads *)

Definition ensure_len (data : list Z) (offset needed : Z) : result unit FormatError :=
  if (offset + needed <=? USIZE_MAX) && (offset + needed <=? zlen data) then Ok tt
  else Err (UnexpectedEof (usize_saturating_add offset needed) (zlen data)).

(** The bytes [data[pos]], ..., [data[pos + n - 1]]. *)
Fixpoint index_bytes (data : list Z) (pos : Z) (n : nat) : outcome (list Z) :=
  match n with
  | O => Ret []
  | S n => b ← index data pos; rest ← index_bytes data (pos + 1) n; Ret (b :: rest)
  end.

Definition read_le (data : list Z) (pos width : Z) : outcome Z :=
  if width =? 1 then index data pos
  else if width =? 2 then le_value <$> index_bytes data pos 2
  else if width =? 4 then le_value <$> index_bytes data pos 4
  else if width =? 8 then le_value <$> index_bytes data pos 8
  else _ ← debug_assert false; Ret 0.

Definition read_offset_width (data : list Z) (pos : Z) (w : OffsetWidth) : exec Z :=
  try_ (ensure_len data pos (OffsetWidth.get w)) (λ _, Ok <$> read_le data pos (OffsetWidth.get w)).

Definition read_length_width (data : list Z) (pos : Z) (w : LengthWidth) : exec Z :=
  try_ (ensure_len data pos (LengthWidth.get w)) (λ _, Ok <$> read_le data pos (LengthWidth.get w)).

Definition read_uint_width (data : list Z) (pos : Z) (w : UintWidth) : exec Z :=
  try_ (ensure_len data pos (UintWidth.get w)) (λ _, Ok <$> read_le data pos (UintWidth.get w)).

Definition read_optional_offset_width (data : list Z) (pos : Z) (w : OffsetWidth)
    : exec (option Z) :=
  addr ←? read_offset_width data pos w;
  ok (if StoredAddress.is_undefined addr w then None else Some addr).

Definition decode_stored_address (w : OffsetWidth) (data : list Z) (pos : Z)
    : exec DecodedStoredAddress :=
  stored ←? read_offset_width data pos w;
  ok (if StoredAddress.is_undefined stored w then Undefined else Defined stored).

(** ** Writes

    A function that appends to [buf] returns the new buffer. *)

Definition write_offset (buf : list Z) (val : Z) (w : OffsetWidth) : outcome (list Z) :=
  _ ← assert_ (offset_width_holds w val);
  Ret (buf ++ match w with
              | OffsetTwo => le_bytes 2 (val mod 2 ^ 16)
              | OffsetFour => le_bytes 4 (val mod 2 ^ 32)
              | OffsetEight => le_bytes 8 val
              end).

Definition write_length (buf : list Z) (val : Z) (w : LengthWidth) : outcome (list Z) :=
  _ ← assert_ (length_width_holds w val);
  Ret (buf ++ match w with
              | LengthTwo => le_bytes 2 (val mod 2 ^ 16)
              | LengthFour => le_bytes 4 (val mod 2 ^ 32)
              | LengthEight => le_bytes 8 val
              end).

Definition require_defined_offset (val : Z) (w : OffsetWidth) : result unit FormatError :=
  let undefined := offset_width_max w in
  if undefined <? val then Err (AddressTooLarge val (OffsetWidth.get w))
  else if val =? undefined then Err (DefinedAddressIsUndefined val (OffsetWidth.get w))
  else Ok tt.

Definition require_length (val : Z) (w : LengthWidth) : result unit FormatError :=
  if negb (length_width_holds w val) then Err (LengthTooLarge val (LengthWidth.get w)) else Ok tt.

Definition try_write_offset (buf : list Z) (val : Z) (w : OffsetWidth) : exec (list Z) :=
  if negb (offset_width_holds w val) then fail (AddressTooLarge val (OffsetWidth.get w))
  else Ok <$> write_offset buf val w.

Definition try_write_length (buf : list Z) (val : Z) (w : LengthWidth) : exec (list Z) :=
  try_ (require_length val w) (λ _, Ok <$> write_length buf val w).

Definition try_write_defined_offset (buf : list Z) (val : Z) (w : OffsetWidth) : exec (list Z) :=
  try_ (require_defined_offset val w) (λ _, Ok <$> write_offset buf val w).

Definition try_write_decoded_address (buf : list Z) (addr : DecodedStoredAddress)
    (w : OffsetWidth) : exec (list Z) :=
  match addr with
  | Undefined => Ok <$> write_offset buf (StoredAddress.undefined w) w
  | Defined addr => try_write_defined_offset buf addr w
  end.

(** [buf[pos..pos + len].copy_from_slice(&value.to_le_bytes()[..len])] *)
Definition write_stored_address_at (buf : list Z) (pos addr : Z) (w : OffsetWidth)
    : exec (list Z) :=
  if negb (offset_width_holds w addr) then fail (AddressTooLarge addr (OffsetWidth.get w))
  else
    let len := OffsetWidth.get w in
    try_ (ensure_len buf pos len)
      (λ _, Ok <$> splice buf pos (take (Z.to_nat len) (le_bytes 8 addr))).

Definition write_defined_stored_address_at (buf : list Z) (pos address : Z) (w : OffsetWidth)
    : exec (list Z) :=
  try_ (require_defined_offset address w) (λ _, write_stored_address_at buf pos address w).

Definition write_length_at (buf : list Z) (pos value : Z) (w : LengthWidth) : exec (list Z) :=
  try_ (require_length value w) (λ _,
  let len := LengthWidth.get w in
  try_ (ensure_len buf pos len)
    (λ _, Ok <$> splice buf pos (take (Z.to_nat len) (le_bytes 8 value)))).

End Fields.

(** ** The cursor over the fields of a block *)

Record Fields : Type := mkFields {
  fields_data : list Z;
  fields_pos : Z;
}.

Module Fields.
Section Cursor.
Context `{B : Build}.

Definition new (data : list Z) (pos : Z) : Fields := mkFields data pos.

Definition pos (self : Fields) : Z := fields_pos self.

Definition advance (self : Fields) (n : Z) : Fields :=
  mkFields (fields_data self) (fields_pos self + n).

(** [self.data.get(self.pos..).and_then(|rest| rest.first_chunk::<N>())] *)
Definition array (n : Z) (self : Fields) : exec (list Z * Fields) :=
  match get_from (fields_data self) (fields_pos self) with
  | Some rest =>
    match get_range rest 0 n with
    | Some value => ok (value, advance self n)
    | None => fail (UnexpectedEof (usize_saturating_add (fields_pos self) n) (zlen (fields_data self)))
    end
  | None => fail (UnexpectedEof (usize_saturating_add (fields_pos self) n) (zlen (fields_data self)))
  end.

Definition u8 (self : Fields) : exec (Z * Fields) :=
  '(value, self) ←? array 1 self; ok (le_value value, self).

Definition u16 (self : Fields) : exec (Z * Fields) :=
  '(value, self) ←? array 2 self; ok (le_value value, self).

Definition u32 (self : Fields) : exec (Z * Fields) :=
  '(value, self) ←? array 4 self; ok (le_value value, self).

Definition length (w : LengthWidth) (self : Fields) : exec (Z * Fields) :=
  value ←? read_length_width (fields_data self) (fields_pos self) w;
  ok (value, advance self (LengthWidth.get w)).

Definition offset (w : OffsetWidth) (self : Fields) : exec (Z * Fields) :=
  value ←? read_offset_width (fields_data self) (fields_pos self) w;
  ok (value, advance self (OffsetWidth.get w)).

Definition address (w : OffsetWidth) (self : Fields) : exec (Z * Fields) := offset w self.

Definition decoded_address (w : OffsetWidth) (self : Fields)
    : exec (DecodedStoredAddress * Fields) :=
  value ←? decode_stored_address w (fields_data self) (fields_pos self);
  ok (value, advance self (OffsetWidth.get w)).

Definition uint (len : Z) (self : Fields) : exec (Z * Fields) :=
  match get_from (fields_data self) (fields_pos self) with
  | Some rest =>
    match get_range rest 0 len with
    | Some bytes =>
      if len <=? 8 then
        ok (le_value (bytes ++ replicate (8 - Z.to_nat len) 0), advance self len)
      else fail (Internal "an integer field is wider than 8 bytes")
    | None => fail (UnexpectedEof (usize_saturating_add (fields_pos self) len) (zlen (fields_data self)))
    end
  | None => fail (UnexpectedEof (usize_saturating_add (fields_pos self) len) (zlen (fields_data self)))
  end.

End Cursor.
End Fields.
