(* ===== verification/ByteFieldFacts.v ===== *)
(** * Facts about the fields of the format

    Every read of [ByteFields] is one equation on the bytes under the cursor, and
    every write appends the little-endian bytes of its value exactly when the value
    fits.  The lemmas named [read_*] run a reader over bytes a writer produced, the
    ones named [safe_*] say that a reader does not panic on any bytes. *)

From stdpp Require Import strings.
From S2P Require Import Prelude Addresses Words ByteFields.

Local Open Scope Z_scope.

(** The bytes a field of width [w] takes. *)
Notation obytes w v := (le_bytes (Z.to_nat (OffsetWidth.get w)) v).
Notation lbytes w v := (le_bytes (Z.to_nat (LengthWidth.get w)) v).

Definition fits (n v : Z) : Prop := 0 ≤ v < 256 ^ n.

(** ** Widths *)

Lemma offset_get_cases w : OffsetWidth.get w = 2 ∨ OffsetWidth.get w = 4 ∨ OffsetWidth.get w = 8.
Proof. destruct w; simpl; lia. Qed.

Lemma length_get_cases w : LengthWidth.get w = 2 ∨ LengthWidth.get w = 4 ∨ LengthWidth.get w = 8.
Proof. destruct w; simpl; lia. Qed.

Lemma uint_get_cases w :
  UintWidth.get w = 1 ∨ UintWidth.get w = 2 ∨ UintWidth.get w = 4 ∨ UintWidth.get w = 8.
Proof. destruct w; simpl; lia. Qed.

Lemma shiftr_zero (v k : Z) : 0 ≤ v → 0 ≤ k → (Z.shiftr v k =? 0) = true ↔ v < 2 ^ k.
Proof.
  intros Hv Hk. rewrite Z.shiftr_div_pow2, Z.eqb_eq by done.
  assert (0 < 2 ^ k) by (apply Z.pow_pos_nonneg; lia).
  split; intros H'.
  - apply Z.div_small_iff in H'; lia.
  - apply Z.div_small. lia.
Qed.

Lemma pow_256_8 (n : Z) : 0 ≤ n → 256 ^ n = 2 ^ (8 * n).
Proof. intros Hn. rewrite Z.pow_mul_r by lia. done. Qed.

Lemma fits_8 v : u64 v ↔ fits 8 v.
Proof. unfold u64, U64_MAX, fits. lia. Qed.

(** The common shape of the three width tests. *)
Lemma shr_holds (v n : Z) :
  u64 v → n = 1 ∨ n = 2 ∨ n = 4 ∨ n = 8 →
  match checked_shr v (8 * n) with Some high => high =? 0 | None => true end = true ↔ fits n v.
Proof.
  unfold checked_shr, fits, u64, U64_MAX. intros Hv Hn.
  destruct (8 * n <? 64) eqn:E.
  - rewrite shiftr_zero by lia. rewrite pow_256_8 by lia. lia.
  - assert (n = 8) as -> by lia. simpl. lia.
Qed.

Lemma length_holds w v : u64 v → length_width_holds w v = true ↔ fits (LengthWidth.get w) v.
Proof.
  intros Hv. unfold length_width_holds. apply shr_holds; [done|]. destruct w; simpl; lia.
Qed.

Lemma offset_holds w v :
  u64 v → offset_width_holds w v = true ↔ fits (OffsetWidth.get w) v ∨ v = U64_MAX.
Proof.
  intros Hv. unfold offset_width_holds. rewrite orb_true_iff, Z.eqb_eq.
  rewrite (shr_holds v (OffsetWidth.get w)) by (done || destruct w; simpl; lia). tauto.
Qed.

Lemma uint_holds w v : u64 v → UintWidth.holds w v = true ↔ fits (UintWidth.get w) v.
Proof.
  intros Hv. unfold UintWidth.holds. apply shr_holds; [done|]. destruct w; simpl; lia.
Qed.

Lemma offset_width_max_eq w : offset_width_max w = 256 ^ OffsetWidth.get w - 1.
Proof. by destruct w. Qed.

Lemma length_width_max_eq w : length_width_max w = 256 ^ LengthWidth.get w - 1.
Proof. by destruct w. Qed.

Lemma undefined_eq w : StoredAddress.undefined w = 256 ^ OffsetWidth.get w - 1.
Proof. by destruct w. Qed.

Lemma fits_undefined w : fits (OffsetWidth.get w) (StoredAddress.undefined w).
Proof. rewrite undefined_eq. unfold fits. destruct w; simpl; lia. Qed.

Lemma fits_u64 n v : n = 1 ∨ n = 2 ∨ n = 4 ∨ n = 8 → fits n v → u64 v.
Proof. unfold fits, u64, U64_MAX. intros [->|[->|[->| ->]]]; lia. Qed.

Lemma offset_fits_u64 w v : fits (OffsetWidth.get w) v → u64 v.
Proof. apply fits_u64. destruct w; simpl; lia. Qed.

Lemma length_fits_u64 w v : fits (LengthWidth.get w) v → u64 v.
Proof. apply fits_u64. destruct w; simpl; lia. Qed.

(** Two bytes. *)
Lemma le_bytes_2 v : le_bytes 2 v = [v mod 256; v / 256 mod 256].
Proof. done. Qed.

Lemma le_value_2 v : fits 2 v → le_value [v mod 256; v / 256 mod 256] = v.
Proof. intros Hv. rewrite <- le_bytes_2. by apply le_value_bytes. Qed.

Lemma fits_pair a b : byte a → byte b → fits 2 (le_value [a; b]).
Proof. unfold byte, fits. simpl. lia. Qed.

(** A flag byte selects the width whose bits were stored in it. *)
Lemma uint_flags_roundtrip w flags :
  0 ≤ flags → Z.land flags 3 = 0 →
  UintWidth.from_flags (Z.lor flags (UintWidth.flag_bits w)) = w.
Proof.
  intros Hf H0. unfold UintWidth.from_flags, UintWidth.WIDTH_FLAG_MASK.
  rewrite Z.land_lor_distr_l, H0, Z.lor_0_l. by destruct w.
Qed.

(** The smallest width holds the value, and no narrower one does. *)
Lemma uint_smallest_holds v : u64 v → UintWidth.holds (UintWidth.smallest_for_value v) v = true.
Proof.
  intros Hv. rewrite uint_holds by done. unfold UintWidth.smallest_for_value, fits.
  unfold u64, U64_MAX in Hv. zbool; simpl; lia.
Qed.

Lemma uint_smallest_least v w :
  u64 v → UintWidth.holds w v = true →
  UintWidth.get (UintWidth.smallest_for_value v) ≤ UintWidth.get w.
Proof.
  intros Hv. rewrite uint_holds by done. unfold UintWidth.smallest_for_value, fits.
  destruct w; zbool; simpl; lia.
Qed.

Lemma bit_length_fits (v : Z) (n : Z) :
  u64 v → 1 ≤ n ≤ 8 → fits n v ↔ div_ceil (64 - leading_zeros v) 8 ≤ n.
Proof.
  unfold fits, u64, leading_zeros, div_ceil. intros Hv Hn. rewrite pow_256_8 by lia.
  destruct (v =? 0) eqn:E.
  - replace ((64 - 64 + 8 - 1) / 8) with 0 by done.
    assert (0 < 2 ^ (8 * n)) by (apply Z.pow_pos_nonneg; lia). lia.
  - pose proof (Z.log2_lt_pow2 v (8 * n) ltac:(lia)) as Hl.
    pose proof (Z.log2_nonneg v).
    replace (64 - (63 - Z.log2 v) + 8 - 1) with (Z.log2 v + 8) by lia.
    pose proof (Z.div_mod (Z.log2 v + 8) 8 ltac:(lia)).
    pose proof (Z.mod_pos_bound (Z.log2 v + 8) 8 ltac:(lia)). lia.
Qed.

(** [encoded_unsigned_width] is the fewest bytes, at least one, that hold a value. *)
Lemma encoded_width_spec v :
  u64 v → 1 ≤ encoded_unsigned_width v ≤ 8 ∧ fits (encoded_unsigned_width v) v ∧
  ∀ n, 1 ≤ n ≤ 8 → fits n v → encoded_unsigned_width v ≤ n.
Proof.
  intros Hv. unfold encoded_unsigned_width.
  pose proof (bit_length_fits v) as Hb.
  assert (H8 : div_ceil (64 - leading_zeros v) 8 ≤ 8).
  { apply Hb; [done|lia|]. by apply fits_8. }
  split_and!; [lia..| |].
  - apply Hb; [done|lia|lia].
  - intros n Hn Hf. apply Hb in Hf; [lia|done|lia].
Qed.

(** ** Reads *)

Section Reads.
Context `{B : Build}.

Lemma index_bytes_range data pos n s :
  get_range data pos (pos + Z.of_nat n) = Some s → index_bytes data pos n = Ret s.
Proof.
  revert pos s. induction n as [|n IH]; intros pos s Hs.
  - apply get_range_Some in Hs as (? & ? & ->).
    by replace (Z.to_nat (pos + Z.of_nat 0 - pos)) with 0%nat by lia.
  - apply get_range_split in Hs as (p & r & -> & Hp & Hl).
    destruct s as [|b s]; [unfold zlen in Hl; simpl in Hl; lia|]. simpl.
    rewrite (index_Ret _ _ b); [|pose proof (zlen_nonneg p); lia|].
    2:{ rewrite <- Hp. unfold zlen. rewrite Nat2Z.id.
        rewrite lookup_app_r by lia. by rewrite Nat.sub_diag. }
    simpl. rewrite (IH _ s); [done|].
    change ((b :: s) ++ r) with ([b] ++ s ++ r). rewrite (app_assoc p [b]).
    rewrite zlen_cons in Hl. apply get_range_app; rewrite zlen_app, zlen_cons, zlen_nil; lia.
Qed.

Lemma read_le_range data pos w s :
  w = 1 ∨ w = 2 ∨ w = 4 ∨ w = 8 →
  get_range data pos (pos + w) = Some s → read_le data pos w = Ret (le_value s).
Proof.
  intros Hw Hs. pose proof (index_bytes_range data pos (Z.to_nat w) s) as Hi.
  rewrite Z2Nat.id in Hi by lia. specialize (Hi Hs). unfold read_le.
  destruct Hw as [->|[->|[->| ->]]].
  - change (1 =? 1) with true; cbn [negb]. simpl in Hi.
    destruct (index data pos) as [b|]; simpl in Hi; [|done]. injection Hi as <-.
    simpl. f_equal. lia.
  - change (Z.to_nat 2) with 2%nat in Hi. cbn [Z.eqb Pos.eqb]. by rewrite Hi.
  - change (Z.to_nat 4) with 4%nat in Hi. cbn [Z.eqb Pos.eqb]. by rewrite Hi.
  - change (Z.to_nat 8) with 8%nat in Hi. cbn [Z.eqb Pos.eqb]. by rewrite Hi.
Qed.

(** What every fixed-width read does: the word under the position, or the end of
    the data. *)
Definition read_word (data : list Z) (pos n : Z) : exec Z :=
  match get_range data pos (pos + n) with
  | Some s => ok (le_value s)
  | None => fail (UnexpectedEof (usize_saturating_add pos n) (zlen data))
  end.

Lemma read_checked data pos n :
  n = 1 ∨ n = 2 ∨ n = 4 ∨ n = 8 → 0 ≤ pos → zlen data ≤ USIZE_MAX →
  try_ (ensure_len data pos n) (λ _, Ok <$> read_le data pos n) = read_word data pos n.
Proof.
  intros Hn Hp Hd. unfold ensure_len, read_word.
  destruct (get_range data pos (pos + n)) as [s|] eqn:Es.
  - rewrite (read_le_range _ _ _ s) by done.
    apply get_range_Some in Es as (? & ? & _).
    destruct (_ && _) eqn:E; [done|lia].
  - apply get_range_None in Es. destruct (_ && _) eqn:E; [|done]. lia.
Qed.

Lemma read_offset_width_eq data pos w :
  0 ≤ pos → zlen data ≤ USIZE_MAX →
  read_offset_width data pos w = read_word data pos (OffsetWidth.get w).
Proof. intros. apply read_checked; [destruct w; simpl; lia|done|done]. Qed.

Lemma read_length_width_eq data pos w :
  0 ≤ pos → zlen data ≤ USIZE_MAX →
  read_length_width data pos w = read_word data pos (LengthWidth.get w).
Proof. intros. apply read_checked; [destruct w; simpl; lia|done|done]. Qed.

Lemma read_uint_width_eq data pos w :
  0 ≤ pos → zlen data ≤ USIZE_MAX →
  read_uint_width data pos w = read_word data pos (UintWidth.get w).
Proof. intros. apply read_checked; [destruct w; simpl; lia|done|done]. Qed.

(** The bytes at and after the cursor. *)
Definition cursor (f : Fields) (l : list Z) : Prop :=
  zlen (fields_data f) ≤ USIZE_MAX ∧ 0 ≤ fields_pos f ≤ zlen (fields_data f) ∧
  drop (Z.to_nat (fields_pos f)) (fields_data f) = l.

(** The state after reading [n] bytes from [f]. *)
Definition after (f : Fields) (n : Z) (f' : Fields) : Prop :=
  fields_data f' = fields_data f ∧ fields_pos f' = fields_pos f + n.

Lemma cursor_new data : zlen data ≤ USIZE_MAX → cursor (Fields.new data 0) data.
Proof. intros H. split_and!; simpl; [done|lia|apply zlen_nonneg|done]. Qed.

Lemma cursor_new_at p data :
  zlen (p ++ data) ≤ USIZE_MAX → cursor (Fields.new (p ++ data) (zlen p)) data.
Proof.
  intros H. pose proof (zlen_nonneg p). split_and!; simpl; [done|lia|rewrite zlen_app|].
  - pose proof (zlen_nonneg data). lia.
  - unfold zlen. by rewrite Nat2Z.id, drop_app_length.
Qed.

Lemma cursor_range f s r :
  cursor f (s ++ r) →
  get_range (fields_data f) (fields_pos f) (fields_pos f + zlen s) = Some s ∧
  cursor (Fields.advance f (zlen s)) r.
Proof.
  destruct f as [data pos]. unfold cursor. simpl. intros (Hd & Hp & Hr).
  pose proof (zlen_nonneg s). pose proof (zlen_nonneg r).
  assert (Hz : zlen data = pos + zlen s + zlen r).
  { rewrite <- (take_drop (Z.to_nat pos) data), zlen_app, Hr, zlen_app, zlen_take by lia. lia. }
  split; [|split_and!; [done|lia|lia|]].
  - apply get_range_Some. split_and!; [lia|lia|lia|].
    replace (pos + zlen s - pos) with (zlen s) by lia. rewrite Hr. unfold zlen.
    by rewrite Nat2Z.id, take_app_length.
  - replace (Z.to_nat (pos + zlen s)) with (Z.to_nat pos + length s)%nat by (unfold zlen; lia).
    by rewrite <- drop_drop, Hr, drop_app_length.
Qed.

Lemma read_word_cursor f s r :
  cursor f (s ++ r) →
  read_word (fields_data f) (fields_pos f) (zlen s) = ok (le_value s).
Proof. intros [H _]%cursor_range. unfold read_word. by rewrite H. Qed.

Section Readers.
Context {T : Type} (k : Z * Fields → exec T) (res : exec T).

Lemma read_array (n : Z) f s r (j : list Z * Fields → exec T) :
  cursor f (s ++ r) → zlen s = n →
  (∀ f', cursor f' r → after f n f' → j (s, f') = res) → and_then (Fields.array n f) j = res.
Proof.
  intros Hc <- Hk. pose proof Hc as (_ & Hp & Hr).
  apply cursor_range in Hc as [Hg Hc']. unfold Fields.array, get_from.
  destruct (get_range (fields_data f) (fields_pos f) (zlen (fields_data f))) as [rest|] eqn:E.
  - apply get_range_Some in E as (_ & _ & ->).
    rewrite take_ge by (unfold zlen; rewrite length_drop; lia).
    rewrite Hr, get_range_prefix. apply Hk; [done|]. by split.
  - apply get_range_None in E. lia.
Qed.

Lemma read_word_field n f s r :
  cursor f (s ++ r) → zlen s = n →
  (∀ f', cursor f' r → after f n f' → k (le_value s, f') = res) →
  and_then (value ←? read_word (fields_data f) (fields_pos f) n; ok (value, Fields.advance f n)) k
  = res.
Proof.
  intros Hc <- Hk. rewrite (read_word_cursor f s r Hc). simpl.
  apply Hk; [by apply cursor_range in Hc as [_ ?]|by split].
Qed.

Lemma read_u8 f b r :
  cursor f (b :: r) → (∀ f', cursor f' r → after f 1 f' → k (b, f') = res) →
  and_then (Fields.u8 f) k = res.
Proof.
  intros Hc Hk. unfold Fields.u8.
  assert (Hb : and_then (Fields.array 1 f) (λ '(value, f'), k (le_value value, f')) = res).
  { apply (read_array 1 f [b] r); [done|done|]. intros f' Hc' Ha. simpl.
    rewrite Z.add_0_r. auto. }
  by destruct (Fields.array 1 f) as [[[v f']|e]|].
Qed.

Lemma read_u16 f v r :
  cursor f (le_bytes 2 v ++ r) → fits 2 v →
  (∀ f', cursor f' r → after f 2 f' → k (v, f') = res) → and_then (Fields.u16 f) k = res.
Proof.
  intros Hc Hv Hk. unfold Fields.u16.
  assert (Hb : and_then (Fields.array 2 f) (λ '(value, f'), k (le_value value, f')) = res).
  { apply (read_array 2 f (le_bytes 2 v) r); [done|done|]. intros f' Hc' Ha.
    rewrite le_value_bytes by done. auto. }
  by destruct (Fields.array 2 f) as [[[v' f']|e]|].
Qed.

Lemma read_u32 f v r :
  cursor f (le_bytes 4 v ++ r) → fits 4 v →
  (∀ f', cursor f' r → after f 4 f' → k (v, f') = res) → and_then (Fields.u32 f) k = res.
Proof.
  intros Hc Hv Hk. unfold Fields.u32.
  assert (Hb : and_then (Fields.array 4 f) (λ '(value, f'), k (le_value value, f')) = res).
  { apply (read_array 4 f (le_bytes 4 v) r); [done|done|]. intros f' Hc' Ha.
    rewrite le_value_bytes by done. auto. }
  by destruct (Fields.array 4 f) as [[[v' f']|e]|].
Qed.

Lemma read_length w f v r :
  cursor f (lbytes w v ++ r) → fits (LengthWidth.get w) v →
  (∀ f', cursor f' r → after f (LengthWidth.get w) f' → k (v, f') = res) →
  and_then (Fields.length w f) k = res.
Proof.
  intros Hc Hv Hk. pose proof Hc as (Hd & Hp & _). unfold Fields.length.
  rewrite read_length_width_eq by lia.
  eapply read_word_field; [exact Hc|rewrite zlen_le_bytes; destruct w; done|].
  rewrite le_value_bytes; [done|]. unfold fits in Hv. by destruct w.
Qed.

Lemma read_offset w f v r :
  cursor f (obytes w v ++ r) → fits (OffsetWidth.get w) v →
  (∀ f', cursor f' r → after f (OffsetWidth.get w) f' → k (v, f') = res) →
  and_then (Fields.offset w f) k = res.
Proof.
  intros Hc Hv Hk. pose proof Hc as (Hd & Hp & _). unfold Fields.offset.
  rewrite read_offset_width_eq by lia.
  eapply read_word_field; [exact Hc|rewrite zlen_le_bytes; destruct w; done|].
  rewrite le_value_bytes; [done|]. unfold fits in Hv. by destruct w.
Qed.

Lemma read_uint n f v r :
  cursor f (le_bytes (Z.to_nat n) v ++ r) → 0 ≤ n ≤ 8 → fits n v →
  (∀ f', cursor f' r → after f n f' → k (v, f') = res) → and_then (Fields.uint n f) k = res.
Proof.
  intros Hc Hn Hv Hk.
  assert (Hz : zlen (le_bytes (Z.to_nat n) v) = n) by (rewrite zlen_le_bytes; lia).
  pose proof Hc as (_ & Hp & Hr). pose proof (cursor_range _ _ _ Hc) as [_ Hc'].
  rewrite Hz in Hc'. unfold Fields.uint, get_from.
  destruct (get_range (fields_data f) (fields_pos f) (zlen (fields_data f))) as [rest|] eqn:E.
  2:{ apply get_range_None in E. lia. }
  apply get_range_Some in E as (_ & _ & ->).
  rewrite take_ge by (unfold zlen; rewrite length_drop; lia).
  pose proof (get_range_prefix (le_bytes (Z.to_nat n) v) r) as Hg. rewrite Hz in Hg.
  rewrite Hr, Hg.
  destruct (n <=? 8) eqn:E8; [|lia]. simpl. rewrite le_value_app.
  assert (H0 : le_value (replicate (8 - Z.to_nat n) 0) = 0).
  { generalize (8 - Z.to_nat n)%nat. intros m. induction m; simpl; lia. }
  rewrite H0, Z.mul_0_r, Z.add_0_r, le_value_bytes by (unfold fits in Hv; by rewrite Z2Nat.id by lia).
  apply Hk; [done|]. by split.
Qed.

End Readers.

(** The bytes of a decoded address. *)
Definition stored_bits (w : OffsetWidth) (a : DecodedStoredAddress) : Z :=
  match a with Defined a => a | Undefined => StoredAddress.undefined w end.

(** A decoded address of the width: defined below the marker. *)
Definition address_fits (w : OffsetWidth) (a : DecodedStoredAddress) : Prop :=
  match a with Defined a => 0 ≤ a < StoredAddress.undefined w | Undefined => True end.

Lemma stored_bits_fits w a : address_fits w a → fits (OffsetWidth.get w) (stored_bits w a).
Proof.
  destruct a as [a|]; simpl; [|intros _; apply fits_undefined].
  rewrite undefined_eq. unfold fits. lia.
Qed.

Lemma decode_bits w a :
  address_fits w a →
  (if StoredAddress.is_undefined (stored_bits w a) w then Undefined else Defined (stored_bits w a))
  = a.
Proof.
  unfold StoredAddress.is_undefined. destruct a as [a|]; simpl; intros Ha.
  - by destruct (a =? _) eqn:E; [lia|].
  - by rewrite Z.eqb_refl.
Qed.

Lemma decode_stored_address_read w f a r :
  cursor f (obytes w (stored_bits w a) ++ r) → address_fits w a →
  decode_stored_address w (fields_data f) (fields_pos f) = ok a.
Proof.
  intros Hc Ha. pose proof Hc as (Hd & Hp & _). unfold decode_stored_address.
  rewrite read_offset_width_eq by lia. pose proof (stored_bits_fits _ _ Ha) as Hf.
  pose proof (read_word_cursor f _ _ Hc) as Hw. rewrite zlen_le_bytes in Hw.
  rewrite Z2Nat.id in Hw by (destruct w; simpl; lia). rewrite Hw. simpl.
  rewrite le_value_bytes.
  - unfold ok. by rewrite decode_bits.
  - rewrite Z2Nat.id by (destruct w; simpl; lia). done.
Qed.

Lemma read_decoded {T} (k : DecodedStoredAddress * Fields → exec T) res w f a r :
  cursor f (obytes w (stored_bits w a) ++ r) → address_fits w a →
  (∀ f', cursor f' r → after f (OffsetWidth.get w) f' → k (a, f') = res) →
  and_then (Fields.decoded_address w f) k = res.
Proof.
  intros Hc Ha Hk. unfold Fields.decoded_address.
  rewrite (decode_stored_address_read w f a r Hc Ha). simpl.
  apply Hk; [|by split]. apply cursor_range in Hc as [_ Hc].
  rewrite zlen_le_bytes, Z2Nat.id in Hc by (destruct w; simpl; lia). done.
Qed.

End Reads.

(** ** Readers on arbitrary bytes *)

Section Safety.
Context `{B : Build}.

(** A cursor over bytes of a buffer the platform can hold. *)
Definition valid (f : Fields) : Prop :=
  Forall byte (fields_data f) ∧ zlen (fields_data f) ≤ USIZE_MAX ∧ 0 ≤ fields_pos f.

(** [n] bytes were read. *)
Definition consumed (f : Fields) (n : Z) (f' : Fields) : Prop :=
  after f n f' ∧ fields_pos f' ≤ zlen (fields_data f').

Lemma valid_new data pos :
  Forall byte data → zlen data ≤ USIZE_MAX → 0 ≤ pos → valid (Fields.new data pos).
Proof. by intros. Qed.

Lemma valid_after f n f' : valid f → 0 ≤ n → after f n f' → valid f'.
Proof. unfold valid. intros (? & ? & ?) ? [-> ->]. split_and!; [done|done|lia]. Qed.

Lemma read_word_sound data pos n :
  Forall byte data → read_word data pos n ⇝? (λ v, fits n v ∧ pos + n ≤ zlen data).
Proof.
  intros Hb. unfold read_word. destruct (get_range _ _ _) as [s|] eqn:E; [|apply sound_fail].
  apply sound_ok. pose proof (get_range_zlen _ _ _ _ E) as Hz.
  pose proof (le_value_bounds s (get_range_Forall _ _ _ _ _ Hb E)).
  apply get_range_Some in E as (? & ? & _). unfold fits.
  by replace (zlen s) with n in * by lia.
Qed.

Lemma array_sound n f :
  valid f → 0 ≤ n →
  Fields.array n f ⇝? (λ '(s, f'), Forall byte s ∧ zlen s = n ∧ valid f' ∧ consumed f n f').
Proof.
  intros Hv Hn. pose proof Hv as (Hb & Hd & Hp). unfold Fields.array, get_from.
  destruct (get_range (fields_data f) _ _) as [rest|] eqn:E; [|apply sound_fail].
  destruct (get_range rest 0 n) as [s|] eqn:E'; [|apply sound_fail].
  pose proof (get_range_zlen _ _ _ _ E) as Hz. pose proof (get_range_zlen _ _ _ _ E') as Hz'.
  pose proof (get_range_Forall _ _ _ _ _ Hb E) as Hb'. apply sound_ok.
  refine (conj _ (conj _ (conj _ (conj _ _)))).
  - exact (get_range_Forall _ _ _ _ _ Hb' E').
  - lia.
  - by apply (valid_after f n).
  - by split.
  - apply get_range_Some in E' as (? & ? & _). simpl. lia.
Qed.

Section Continuations.
Context {T : Type} (k : Z * Fields → exec T) (Q : T → Prop).

Lemma safe_array n f (j : list Z * Fields → exec T) :
  valid f → 0 ≤ n →
  (∀ s f', Forall byte s → zlen s = n → valid f' → consumed f n f' → j (s, f') ⇝? Q) →
  and_then (Fields.array n f) j ⇝? Q.
Proof.
  intros Hv Hn Hk. eapply sound_bind; [by apply array_sound|].
  intros [s f'] (? & ? & ? & ?). by apply Hk.
Qed.

Lemma safe_word n f m :
  valid f → 0 ≤ n →
  m = (value ←? read_word (fields_data f) (fields_pos f) n; ok (value, Fields.advance f n)) →
  (∀ v f', fits n v → valid f' → consumed f n f' → k (v, f') ⇝? Q) → and_then m k ⇝? Q.
Proof.
  intros Hv Hn -> Hk. pose proof Hv as (Hb & _ & _).
  eapply sound_bind with (P := λ '(v, f'), fits n v ∧ valid f' ∧ consumed f n f').
  - eapply sound_bind; [by apply read_word_sound|]. intros v [Hf Hle]. apply sound_ok.
    refine (conj Hf (conj _ (conj _ Hle))); [by apply (valid_after f n)|by split].
  - intros [v f'] (? & ? & ?). by apply Hk.
Qed.

Lemma safe_bytes n f m :
  valid f → 0 ≤ n →
  m = ('(value, f') ←? Fields.array n f; ok (le_value value, f')) →
  (∀ v f', fits n v → valid f' → consumed f n f' → k (v, f') ⇝? Q) → and_then m k ⇝? Q.
Proof.
  intros Hv Hn -> Hk.
  eapply sound_bind with (P := λ '(v, f'), fits n v ∧ valid f' ∧ consumed f n f').
  - eapply sound_bind; [by apply array_sound|].
    intros [s f'] (Hs & <- & ? & ?). apply sound_ok. refine (conj _ (conj _ _)); [|done..].
    by apply le_value_bounds.
  - intros [v f'] (? & ? & ?). by apply Hk.
Qed.

Lemma safe_u8 f :
  valid f → (∀ v f', fits 1 v → valid f' → consumed f 1 f' → k (v, f') ⇝? Q) →
  and_then (Fields.u8 f) k ⇝? Q.
Proof. intros Hv. by apply safe_bytes. Qed.

Lemma safe_u16 f :
  valid f → (∀ v f', fits 2 v → valid f' → consumed f 2 f' → k (v, f') ⇝? Q) →
  and_then (Fields.u16 f) k ⇝? Q.
Proof. intros Hv. by apply safe_bytes. Qed.

Lemma safe_u32 f :
  valid f → (∀ v f', fits 4 v → valid f' → consumed f 4 f' → k (v, f') ⇝? Q) →
  and_then (Fields.u32 f) k ⇝? Q.
Proof. intros Hv. by apply safe_bytes. Qed.

Lemma safe_length w f :
  valid f →
  (∀ v f', fits (LengthWidth.get w) v → valid f' → consumed f (LengthWidth.get w) f' →
     k (v, f') ⇝? Q) →
  and_then (Fields.length w f) k ⇝? Q.
Proof.
  intros Hv. pose proof Hv as (_ & ? & ?). apply safe_word; [done|by destruct w|].
  unfold Fields.length. by rewrite read_length_width_eq.
Qed.

Lemma safe_offset w f :
  valid f →
  (∀ v f', fits (OffsetWidth.get w) v → valid f' → consumed f (OffsetWidth.get w) f' →
     k (v, f') ⇝? Q) →
  and_then (Fields.offset w f) k ⇝? Q.
Proof.
  intros Hv. pose proof Hv as (_ & ? & ?). apply safe_word; [done|by destruct w|].
  unfold Fields.offset. by rewrite read_offset_width_eq.
Qed.

Lemma decode_sound w data pos :
  Forall byte data → zlen data ≤ USIZE_MAX → 0 ≤ pos →
  decode_stored_address w data pos ⇝? (λ a, address_fits w a ∧ pos + OffsetWidth.get w ≤ zlen data).
Proof.
  intros Hb Hd Hp. unfold decode_stored_address. rewrite read_offset_width_eq by done.
  eapply sound_bind; [by apply read_word_sound|]. intros v [Hf Hle]. apply sound_ok.
  split; [|done]. unfold StoredAddress.is_undefined, fits in *.
  destruct (v =? _) eqn:E; simpl; [done|]. rewrite undefined_eq in *. lia.
Qed.

Lemma safe_decoded w f (j : DecodedStoredAddress * Fields → exec T) :
  valid f →
  (∀ a f', address_fits w a → valid f' → consumed f (OffsetWidth.get w) f' → j (a, f') ⇝? Q) →
  and_then (Fields.decoded_address w f) j ⇝? Q.
Proof.
  intros Hv Hk. pose proof Hv as (? & ? & ?).
  eapply sound_bind with
    (P := λ '(a, f'), address_fits w a ∧ valid f' ∧ consumed f (OffsetWidth.get w) f').
  - eapply sound_bind; [by apply decode_sound|]. intros a [Ha Hle]. apply sound_ok.
    refine (conj Ha (conj _ (conj _ Hle))); [|by split].
    apply (valid_after f (OffsetWidth.get w)); [done|by destruct w|by split].
  - intros [a f'] (? & ? & ?). by apply Hk.
Qed.

Lemma safe_uint n f :
  valid f → 0 ≤ n →
  (∀ v f', fits n v → n ≤ 8 → valid f' → consumed f n f' → k (v, f') ⇝? Q) →
  and_then (Fields.uint n f) k ⇝? Q.
Proof.
  intros Hv Hn Hk. pose proof Hv as (Hb & Hd & Hp). unfold Fields.uint, get_from.
  destruct (get_range (fields_data f) _ _) as [rest|] eqn:E; [|apply sound_fail].
  destruct (get_range rest 0 n) as [s|] eqn:E'; [|apply sound_fail].
  destruct (n <=? 8) eqn:E8; [|apply sound_fail].
  pose proof (get_range_zlen _ _ _ _ E) as Hz. pose proof (get_range_zlen _ _ _ _ E') as Hz'.
  pose proof (get_range_Forall _ _ _ _ _ Hb E) as Hb'.
  pose proof (get_range_Forall _ _ _ _ _ Hb' E') as Hs.
  apply get_range_Some in E' as (? & ? & _). simpl. apply Hk.
  - rewrite le_value_app.
    replace (le_value (replicate _ 0)) with 0.
    + pose proof (le_value_bounds s Hs). unfold fits. replace (zlen s) with n in * by lia. lia.
    + generalize (8 - Z.to_nat n)%nat. intros m. induction m; simpl; lia.
  - lia.
  - by apply (valid_after f n).
  - split; [by split|]. simpl. lia.
Qed.

End Continuations.
End Safety.

(** ** Writes *)

Section Writes.
Context `{B : Build}.
Implicit Types (buf : list Z).

Lemma low_bytes_2 v : le_bytes 2 (v mod 2 ^ 16) = le_bytes 2 v.
Proof. exact (le_bytes_mod 2 v). Qed.

Lemma low_bytes_4 v : le_bytes 4 (v mod 2 ^ 32) = le_bytes 4 v.
Proof. exact (le_bytes_mod 4 v). Qed.

Lemma write_length_eq buf v w :
  u64 v → fits (LengthWidth.get w) v → write_length buf v w = Ret (buf ++ lbytes w v).
Proof.
  intros Hu Hv. unfold write_length. apply length_holds in Hv as ->; [|done]. cbn [assert_ mbind outcome_bind].
  destruct w; [by rewrite low_bytes_2|by rewrite low_bytes_4|done].
Qed.

Lemma write_offset_eq buf v w :
  u64 v → fits (OffsetWidth.get w) v ∨ v = U64_MAX → write_offset buf v w = Ret (buf ++ obytes w v).
Proof.
  intros Hu Hv. unfold write_offset. apply offset_holds in Hv as ->; [|done]. cbn [assert_ mbind outcome_bind].
  destruct w; [by rewrite low_bytes_2|by rewrite low_bytes_4|done].
Qed.

Lemma uint_write_eq buf v w :
  u64 v → fits (UintWidth.get w) v →
  UintWidth.write w buf v = Ret (buf ++ le_bytes (Z.to_nat (UintWidth.get w)) v).
Proof.
  intros Hu Hv. unfold UintWidth.write. apply uint_holds in Hv as ->; [|done]. cbn [assert_ mbind outcome_bind].
  destruct w; [done|by rewrite low_bytes_2|by rewrite low_bytes_4|done].
Qed.

(** The undefined address of a width is the truncation of [u64::MAX]. *)
Lemma obytes_max w : obytes w U64_MAX = obytes w (StoredAddress.undefined w).
Proof. by destruct w. Qed.

(** A length field is appended exactly when the value fits. *)
Lemma try_write_length_cases buf v w :
  u64 v →
  (fits (LengthWidth.get w) v ∧ try_write_length buf v w = ok (buf ++ lbytes w v)) ∨
  (¬ fits (LengthWidth.get w) v ∧
   try_write_length buf v w = fail (LengthTooLarge v (LengthWidth.get w))).
Proof.
  intros Hu. unfold try_write_length, require_length.
  destruct (length_width_holds w v) eqn:E; simpl.
  - left. apply length_holds in E; [|done]. split; [done|]. by rewrite write_length_eq.
  - right. split; [|done]. rewrite <- (length_holds w v Hu), E. done.
Qed.

Lemma try_write_offset_cases buf v w :
  u64 v →
  ((fits (OffsetWidth.get w) v ∨ v = U64_MAX) ∧ try_write_offset buf v w = ok (buf ++ obytes w v)) ∨
  (¬ fits (OffsetWidth.get w) v ∧ v ≠ U64_MAX ∧
   try_write_offset buf v w = fail (AddressTooLarge v (OffsetWidth.get w))).
Proof.
  intros Hu. unfold try_write_offset. pose proof (offset_holds w v Hu) as Ho.
  destruct (offset_width_holds w v) eqn:E; simpl.
  - left. assert (Hv : fits (OffsetWidth.get w) v ∨ v = U64_MAX) by by apply Ho.
    split; [done|]. by rewrite write_offset_eq.
  - right. assert (Hn : ¬ (fits (OffsetWidth.get w) v ∨ v = U64_MAX)).
    { intros Hn%Ho. discriminate. }
    split_and!; [tauto|tauto|done].
Qed.

Lemma try_write_length_ok buf v w :
  fits (LengthWidth.get w) v → try_write_length buf v w = ok (buf ++ lbytes w v).
Proof.
  intros Hf. destruct (try_write_length_cases buf v w) as [[_ H]|[H _]]; [|done|done].
  by apply length_fits_u64 in Hf.
Qed.

Lemma try_write_length_inv buf buf' v w :
  u64 v → try_write_length buf v w = ok buf' →
  fits (LengthWidth.get w) v ∧ buf' = buf ++ lbytes w v.
Proof.
  intros Hu Hok. destruct (try_write_length_cases buf v w Hu) as [[Hf H]|[_ H]];
    rewrite H in Hok; [|discriminate]. by injection Hok as <-.
Qed.

Lemma try_write_offset_inv buf buf' v w :
  u64 v → try_write_offset buf v w = ok buf' →
  (fits (OffsetWidth.get w) v ∨ v = U64_MAX) ∧ buf' = buf ++ obytes w v.
Proof.
  intros Hu Hok. destruct (try_write_offset_cases buf v w Hu) as [[Hf H]|(_ & _ & H)];
    rewrite H in Hok; [|discriminate]. by injection Hok as <-.
Qed.

Lemma require_defined_cases v w :
  u64 v →
  (0 ≤ v < StoredAddress.undefined w ∧ require_defined_offset v w = Ok tt) ∨
  (v = StoredAddress.undefined w ∧
   require_defined_offset v w = Err (DefinedAddressIsUndefined v (OffsetWidth.get w))) ∨
  (StoredAddress.undefined w < v ∧
   require_defined_offset v w = Err (AddressTooLarge v (OffsetWidth.get w))).
Proof.
  unfold u64, require_defined_offset. rewrite offset_width_max_eq, undefined_eq. intros Hu.
  destruct (_ <? v) eqn:E1; [right; right; split; [lia|done]|].
  destruct (v =? _) eqn:E2; [right; left|left]; split; (done || lia).
Qed.

(** A decoded address is appended exactly when it is undefined or below the marker
    of the width. *)
Lemma try_write_decoded_cases buf a w :
  match a with Defined a => u64 a | Undefined => True end →
  (address_fits w a ∧ try_write_decoded_address buf a w = ok (buf ++ obytes w (stored_bits w a))) ∨
  (¬ address_fits w a ∧ ∃ e, try_write_decoded_address buf a w = fail e).
Proof.
  destruct a as [a|]; intros Ha; simpl.
  - unfold try_write_defined_offset.
    destruct (require_defined_cases a w Ha) as [[Hd ->]|[[Hd ->]|[Hd ->]]]; simpl.
    + left. split; [done|]. rewrite write_offset_eq; [done|done|left].
      exact (stored_bits_fits w (Defined a) Hd).
    + right. split; [lia|]. by eexists.
    + right. split; [lia|]. by eexists.
  - left. split; [done|]. rewrite write_offset_eq; [done| |].
    + apply (offset_fits_u64 w), fits_undefined.
    + left. apply fits_undefined.
Qed.

Lemma try_write_decoded_inv buf buf' a w :
  match a with Defined a => u64 a | Undefined => True end →
  try_write_decoded_address buf a w = ok buf' →
  address_fits w a ∧ buf' = buf ++ obytes w (stored_bits w a).
Proof.
  intros Hu Hok. destruct (try_write_decoded_cases buf a w Hu) as [[Hf H]|[_ [e H]]];
    rewrite H in Hok; [|discriminate]. by injection Hok as <-.
Qed.

End Writes.

(** ** Words at a position

    The messages whose parsers keep a position [pos] in the body check the length of a
    field with [ensure_len] and then index its bytes: the words of two, four and eight
    bytes, and the lemmas on reading them.  No file of the program is modelled here. *)

(** [&slice[a..]] *)
Definition slice_from (l : list Z) (a : Z) : outcome (list Z) := expect (get_from l a).

(** [u16::from_le_bytes([data[pos], data[pos + 1]])] and its wider counterparts *)
Definition u16_at (data : list Z) (pos : Z) : outcome Z := le_value <$> index_bytes data pos 2.

Definition u32_at (data : list Z) (pos : Z) : outcome Z := le_value <$> index_bytes data pos 4.

Definition u64_at (data : list Z) (pos : Z) : outcome Z := le_value <$> index_bytes data pos 8.

Section Positions.
Context `{B : Build}.

Lemma ensure_len_cases data pos n :
  zlen data ≤ USIZE_MAX →
  (ensure_len data pos n = Ok tt ∧ pos + n ≤ zlen data) ∨ (∃ e, ensure_len data pos n = Err e).
Proof.
  intros Hd. unfold ensure_len. destruct (_ && _) eqn:E; [left; split; [done|lia]|right; by eexists].
Qed.

Lemma ensure_len_at data pos s r n :
  zlen data ≤ USIZE_MAX → bytes_at data pos (s ++ r) → zlen s = n → ensure_len data pos n = Ok tt.
Proof.
  intros Hd (p & -> & <-) <-. unfold ensure_len. rewrite !zlen_app in *.
  pose proof (zlen_nonneg r). by replace (_ && _) with true by lia.
Qed.

(** A little-endian word of [n] bytes that lies within the data. *)
Lemma word_at data pos (n : nat) v r :
  bytes_at data pos (le_bytes n v ++ r) → fits (Z.of_nat n) v →
  le_value <$> index_bytes data pos n = Ret v.
Proof.
  intros Hat Hv. apply (bytes_at_app _ _ _ _ (Z.of_nat n)) in Hat as [Hg _]; [|by rewrite zlen_le_bytes].
  rewrite (index_bytes_range _ _ _ _ Hg). simpl. by rewrite le_value_bytes.
Qed.

Lemma word_within data pos (n : nat) :
  Forall byte data → 0 ≤ pos → pos + Z.of_nat n ≤ zlen data →
  ∃ v, le_value <$> index_bytes data pos n = Ret v ∧ fits (Z.of_nat n) v.
Proof.
  intros Hb Hp Hn. destruct (get_range data pos (pos + Z.of_nat n)) as [s|] eqn:E.
  - exists (le_value s). rewrite (index_bytes_range _ _ _ _ E). split; [done|].
    pose proof (le_value_bounds s (get_range_Forall _ _ _ _ _ Hb E)) as H'.
    rewrite (get_range_zlen _ _ _ _ E) in H'. unfold fits. by replace (pos + _ - pos) with (Z.of_nat n) in H' by lia.
  - apply get_range_None in E. lia.
Qed.

Lemma u16_at_ok data pos v r : bytes_at data pos (le_bytes 2 v ++ r) → fits 2 v → u16_at data pos = Ret v.
Proof. apply (word_at data pos 2). Qed.

Lemma u16_at_within data pos :
  Forall byte data → 0 ≤ pos → pos + 2 ≤ zlen data → ∃ v, u16_at data pos = Ret v ∧ fits 2 v.
Proof. apply (word_within data pos 2). Qed.

Lemma bytes_at_skip {A} (l s r : list A) pos n :
  bytes_at l pos (s ++ r) → zlen s = n → bytes_at l (pos + n) r.
Proof. intros H1 H2. exact (proj2 (bytes_at_app _ _ _ _ _ H1 H2)). Qed.

Lemma index_at {A} (l : list A) pos x r : bytes_at l pos (x :: r) → index l pos = Ret x.
Proof.
  intros (p & -> & <-). apply index_Ret; [apply zlen_nonneg|].
  unfold zlen. by rewrite Nat2Z.id, lookup_app_r, Nat.sub_diag by lia.
Qed.

(** One word is read and the position moves behind it. *)
Lemma u16_next data pos v r :
  bytes_at data pos (le_bytes 2 v ++ r) → fits 2 v → u16_at data pos = Ret v ∧ bytes_at data (pos + 2) r.
Proof. intros Hat Hv. split; [by apply (u16_at_ok _ _ _ _ Hat)|by apply (bytes_at_skip _ _ _ _ 2) in Hat]. Qed.

Lemma u64_next data pos v r :
  bytes_at data pos (le_bytes 8 v ++ r) → fits 8 v → u64_at data pos = Ret v ∧ bytes_at data (pos + 8) r.
Proof.
  intros Hat Hv. split; [by apply (word_at data pos 8 v _ Hat)|by apply (bytes_at_skip _ _ _ _ 8) in Hat].
Qed.

(** A word within the data is read whatever it holds. *)
Lemma within_u16 {T E} data pos (k : Z → outcome (result T E)) Q :
  Forall byte data → 0 ≤ pos → pos + 2 ≤ zlen data → (∀ v, fits 2 v → k v ⇝? Q) →
  mbind k (u16_at data pos) ⇝? Q.
Proof.
  intros Hb Hp Hl Hk. destruct (u16_at_within data pos Hb Hp Hl) as (v & -> & Hv).
  cbn [mbind outcome_bind]. by apply Hk.
Qed.

Lemma within_u64 {T E} data pos (k : Z → outcome (result T E)) Q :
  Forall byte data → 0 ≤ pos → pos + 8 ≤ zlen data → (∀ v, fits 8 v → k v ⇝? Q) →
  mbind k (u64_at data pos) ⇝? Q.
Proof.
  intros Hb Hp Hl Hk. destruct (word_within data pos 8 Hb Hp Hl) as (v & Hr & Hv).
  unfold u64_at. rewrite Hr. cbn [mbind outcome_bind]. by apply Hk.
Qed.

(** The check of a field's length, in a parser that returns [FormatError]s. *)
Lemma within_ensure {T} data pos n (k : unit → exec T) Q :
  zlen data ≤ USIZE_MAX → (pos + n ≤ zlen data → k tt ⇝? Q) → try_ (ensure_len data pos n) k ⇝? Q.
Proof.
  intros Hu Hk. destruct (ensure_len_cases data pos n Hu) as [[-> Hle]|[e ->]];
    [by apply Hk|apply sound_fail].
Qed.

Lemma slice_app (p s r : list Z) : slice (p ++ s ++ r) (zlen p) (zlen p + zlen s) = Ret s.
Proof.
  unfold slice. destruct (bytes_at_app (p ++ s ++ r) s r (zlen p) (zlen s)) as [-> _]; [by exists p|done|done].
Qed.

Lemma slice_from_app (p r : list Z) : slice_from (p ++ r) (zlen p) = Ret r.
Proof.
  unfold slice_from, get_from. rewrite zlen_app. pose proof (zlen_nonneg p). pose proof (zlen_nonneg r).
  destruct (bytes_at_app (p ++ r) r [] (zlen p) (zlen r)) as [Hg _]; [exists p; by rewrite app_nil_r|done|].
  by rewrite Hg.
Qed.

Lemma slice_within (l : list Z) a b :
  0 ≤ a ≤ b → b ≤ zlen l → ∃ s, slice l a b = Ret s.
Proof.
  intros Ha Hb. unfold slice. destruct (get_range l a b) as [s|] eqn:E; [by exists s|].
  apply get_range_None in E. lia.
Qed.

Lemma within_index {T} data pos (k : Z → exec T) Q :
  Forall byte data →
  0 ≤ pos → pos + 1 ≤ zlen data → (∀ v, byte v → k v ⇝? Q) → mbind k (index data pos) ⇝? Q.
Proof.
  intros Hb Hp Hl Hk. destruct (lookup_lt_is_Some_2 data (Z.to_nat pos)) as [v Hv]; [unfold zlen in Hl; lia|].
  rewrite (index_Ret _ _ v) by done. cbn [mbind outcome_bind]. apply Hk.
  by apply (Forall_lookup_1 _ _ _ _ Hb Hv).
Qed.

Lemma within_u32 {T} data pos (k : Z → exec T) Q :
  Forall byte data → 0 ≤ pos → pos + 4 ≤ zlen data → (∀ v, fits 4 v → k v ⇝? Q) →
  mbind k (u32_at data pos) ⇝? Q.
Proof.
  intros Hb Hp Hl Hk. destruct (word_within data pos 4 Hb Hp Hl) as (v & Hr & Hv).
  unfold u32_at. rewrite Hr. cbn [mbind outcome_bind]. by apply Hk.
Qed.

Lemma within_slice {T} data a b (k : list Z → exec T) Q :
  Forall byte data → 0 ≤ a ≤ b → b ≤ zlen data →
  (∀ s, Forall byte s → zlen s = b - a → k s ⇝? Q) → mbind k (slice data a b) ⇝? Q.
Proof.
  intros Hb Ha Hl Hk. unfold slice. destruct (get_range data a b) as [s|] eqn:E.
  - cbn [expect mbind outcome_bind]. apply Hk; [by apply (get_range_Forall _ _ _ _ _ Hb E)|].
    by apply (get_range_zlen _ _ _ _ E).
  - apply get_range_None in E. lia.
Qed.

Lemma within_slice_from {T} data a (k : list Z → exec T) Q :
  Forall byte data → 0 ≤ a ≤ zlen data →
  (∀ s, Forall byte s → zlen s = zlen data - a → k s ⇝? Q) → mbind k (slice_from data a) ⇝? Q.
Proof. intros Hb Ha Hk. apply within_slice; [done|lia|lia|done]. Qed.

Lemma within_try {A T} (r : result A FormatError) (k : A → exec T) Q :
  (∀ a, r = Ok a → k a ⇝? Q) → try_ r k ⇝? Q.
Proof. intros Hk. destruct r as [a|e]; [by apply Hk|apply sound_fail]. Qed.

End Positions.
