(* ===== verification/Checksums.v ===== *)
(** * Metadata checksums

    Models [crates/hdf5-pure-format/src/checksum.rs]: Jenkins' lookup3 in one pass
    ([hashlittle]), with a zeroed field ([hashlittle_zeroed]) and over successive
    slices ([JenkinsLookup3]), and the checks of trailing and embedded checksums.
    The facts relate all of them to one reference definition on byte lists. *)

From stdpp Require Import strings.
From S2P Require Import Prelude Addresses Words ByteFields ByteFieldFacts.

Local Open Scope Z_scope.

(** ** The mixing functions

    [u32] arithmetic wraps. *)

Definition wrapping_add (a b : Z) : Z := (a + b) mod 2 ^ 32.

Definition wrapping_sub (a b : Z) : Z := (a - b) mod 2 ^ 32.

(** [u32::rotate_left] *)
Definition rot (x k : Z) : Z := Z.lor (Z.shiftl x k mod 2 ^ 32) (Z.shiftr x (32 - k)).

(** The three words of the state. *)
Definition words : Type := Z * Z * Z.

Definition mix : words → words := λ '(a, b, c),
  let a := wrapping_sub a c in
  let a := Z.lxor a (rot c 4) in
  let c := wrapping_add c b in
  let b := wrapping_sub b a in
  let b := Z.lxor b (rot a 6) in
  let a := wrapping_add a c in
  let c := wrapping_sub c b in
  let c := Z.lxor c (rot b 8) in
  let b := wrapping_add b a in
  let a := wrapping_sub a c in
  let a := Z.lxor a (rot c 16) in
  let c := wrapping_add c b in
  let b := wrapping_sub b a in
  let b := Z.lxor b (rot a 19) in
  let a := wrapping_add a c in
  let c := wrapping_sub c b in
  let c := Z.lxor c (rot b 4) in
  let b := wrapping_add b a in
  (a, b, c).

Definition final_mix : words → words := λ '(a, b, c),
  let c := Z.lxor c b in
  let c := wrapping_sub c (rot b 14) in
  let a := Z.lxor a c in
  let a := wrapping_sub a (rot c 11) in
  let b := Z.lxor b a in
  let b := wrapping_sub b (rot a 25) in
  let c := Z.lxor c b in
  let c := wrapping_sub c (rot b 16) in
  let a := Z.lxor a c in
  let a := wrapping_sub a (rot c 4) in
  let b := Z.lxor b a in
  let b := wrapping_sub b (rot a 14) in
  let c := Z.lxor c b in
  let c := wrapping_sub c (rot b 24) in
  (a, b, c).

Definition add_words (s w : words) : words :=
  let '(a, b, c) := s in
  let '(x, y, z) := w in
  (wrapping_add a x, wrapping_add b y, wrapping_add c z).

(** ** One pass over the data *)

Definition byte_at (ZERO : bool) (data : list Z) (offset zero_at : Z) : outcome Z :=
  if ZERO && (zero_at <=? offset) && (offset - zero_at <? 4) then Ret 0 else index data offset.

Definition read_u32_le (ZERO : bool) (data : list Z) (offset zero_at : Z) : outcome Z :=
  b0 ← byte_at ZERO data offset zero_at;
  b1 ← byte_at ZERO data (offset + 1) zero_at;
  b2 ← byte_at ZERO data (offset + 2) zero_at;
  b3 ← byte_at ZERO data (offset + 3) zero_at;
  Ret (le_value [b0; b1; b2; b3]).

(** The 12-byte blocks before the tail: the state and the offset of the tail. *)
Fixpoint hash_blocks (fuel : nat) (ZERO : bool) (data : list Z) (zero_at offset : Z) (s : words)
    : outcome (words * Z) :=
  match fuel with
  | O => Ret (s, offset)
  | S fuel =>
    if 12 <? zlen data - offset then
      x ← read_u32_le ZERO data offset zero_at;
      y ← read_u32_le ZERO data (offset + 4) zero_at;
      z ← read_u32_le ZERO data (offset + 8) zero_at;
      hash_blocks fuel ZERO data zero_at (offset + 12) (mix (add_words s (x, y, z)))
    else Ret (s, offset)
  end.

(** One word of the tail: [n] bytes at [offset] or-ed into [word] from bit [8 * i]. *)
Fixpoint tail_word (n : nat) (ZERO : bool) (data : list Z) (zero_at offset i word : Z)
    : outcome Z :=
  match n with
  | O => Ret word
  | S n =>
    b ← byte_at ZERO data (offset + i) zero_at;
    tail_word n ZERO data zero_at offset (i + 1) (Z.lor word (Z.shiftl b (8 * i)))
  end.

(** The length of the chunk [word_index] of [tail.chunks(4)], zero when there is
    none. *)
Definition chunk_len (tail_len word_index : Z) : nat :=
  Z.to_nat (Z.min 4 (tail_len - word_index * 4)).

Definition hashlittle_zeroed (ZERO : bool) (data : list Z) (initval zero_at : Z) : outcome Z :=
  let length := zlen data in
  let a := wrapping_add (wrapping_add 0xdeadbeef (length mod 2 ^ 32)) initval in
  '(s, offset) ← hash_blocks (Z.to_nat length) ZERO data zero_at 0 (a, a, a);
  let tail_len := length - offset in
  if tail_len =? 0 then Ret s.2
  else
    x ← tail_word (chunk_len tail_len 0) ZERO data zero_at offset 0 0;
    y ← tail_word (chunk_len tail_len 1) ZERO data zero_at (offset + 4) 0 0;
    z ← tail_word (chunk_len tail_len 2) ZERO data zero_at (offset + 8) 0 0;
    Ret (final_mix (add_words s (x, y, z))).2.

Definition hashlittle (data : list Z) (initval : Z) : outcome Z :=
  hashlittle_zeroed false data initval 0.

Definition jenkins_lookup3 (data : list Z) : outcome Z := hashlittle data 0.

(** ** Successive slices *)

Definition LOOKUP3_BLOCK_LEN : Z := 12.

Definition LOOKUP3_SEED : Z := 0xdeadbeef.

Record JenkinsLookup3 : Type := mkLookup3 {
  l3_words : words;
  l3_remaining : Z;
  l3_pending : list Z;
  l3_pending_len : Z;
}.

Module JenkinsLookup3.

Definition new (total_len : Z) : JenkinsLookup3 :=
  let seed := wrapping_add LOOKUP3_SEED (total_len mod 2 ^ 32) in
  mkLookup3 (seed, seed, seed) total_len (replicate 12 0) 0.

(** The loop of [update]: each iteration fills the pending block from the data. *)
Fixpoint update_loop (fuel : nat) (self : JenkinsLookup3) (data : list Z)
    : outcome JenkinsLookup3 :=
  match data, fuel with
  | [], _ | _, O => Ret self
  | _ :: _, S fuel =>
    let len := Z.min (LOOKUP3_BLOCK_LEN - l3_pending_len self) (zlen data) in
    head ← slice data 0 len;
    pending ← splice (l3_pending self) (l3_pending_len self) head;
    let pending_len := l3_pending_len self + len in
    let remaining := l3_remaining self - len in
    data ← slice data len (zlen data);
    if (pending_len =? LOOKUP3_BLOCK_LEN) && negb (remaining =? 0) then
      x ← read_u32_le false pending 0 0;
      y ← read_u32_le false pending 4 0;
      z ← read_u32_le false pending 8 0;
      update_loop fuel
        (mkLookup3 (mix (add_words (l3_words self) (x, y, z))) remaining pending 0) data
    else update_loop fuel (mkLookup3 (l3_words self) remaining pending pending_len) data
  end.

Definition update (self : JenkinsLookup3) (data : list Z) : exec JenkinsLookup3 :=
  if l3_remaining self <? zlen data then
    fail (Internal "checksum input exceeds its declared length")
  else Ok <$> update_loop (length data) self data.

(** [for (i, byte) in bytes.iter().enumerate() { *word |= u32::from( *byte) << (8 * i) }] *)
Fixpoint or_bytes (i word : Z) (bytes : list Z) : Z :=
  match bytes with
  | [] => word
  | b :: bytes => or_bytes (i + 1) (Z.lor word (Z.shiftl b (8 * i))) bytes
  end.

Definition finish (self : JenkinsLookup3) : exec Z :=
  if negb (l3_remaining self =? 0) then
    fail (Internal "checksum input is shorter than its declared length")
  else if l3_pending_len self =? 0 then ok (l3_words self).2
  else
    bytes ← slice (l3_pending self) 0 (l3_pending_len self);
    let w := (or_bytes 0 0 (take 4 bytes), or_bytes 0 0 (take 4 (drop 4 bytes)),
              or_bytes 0 0 (take 4 (drop 8 bytes))) in
    ok (final_mix (add_words (l3_words self) w)).2.

End JenkinsLookup3.

(** ** Stored checksums *)

Section Verify.
Context `{B : Build}.

Definition verify_trailing_required (block : list Z) : exec unit :=
  if zlen block <? 4 then fail (UnexpectedEof 4 (zlen block))
  else
    let body := take (length block - 4) block in
    let stored := le_value (drop (length block - 4) block) in
    computed ← jenkins_lookup3 body;
    if negb (computed =? stored) then fail (ChecksumMismatch stored computed) else ok tt.

Definition verify_trailing (block : list Z) : exec unit :=
  if feature_checksum then verify_trailing_required block else ok tt.

Definition verify_zeroed (block : list Z) (checksum_at : Z) : exec unit :=
  '(stored, _) ←? Fields.u32 (Fields.new block checksum_at);
  if feature_checksum then
    computed ← hashlittle_zeroed true block 0 checksum_at;
    if negb (stored =? computed) then fail (ChecksumMismatch stored computed) else ok tt
  else ok tt.

Definition verify_zeroed_required (block : list Z) (checksum_at : Z) : exec unit :=
  '(stored, _) ←? Fields.u32 (Fields.new block checksum_at);
  computed ← hashlittle_zeroed true block 0 checksum_at;
  if negb (stored =? computed) then fail (ChecksumMismatch stored computed) else ok tt.

End Verify.

(** ** The reference definition *)

(** The words of up to 12 bytes. *)
Definition block_words (l : list Z) : words :=
  (le_value (take 4 l), le_value (take 4 (drop 4 l)), le_value (take 4 (drop 8 l))).

(** The checksum of the remaining bytes from state [s]: whole blocks are mixed in
    while more bytes follow them, the last one to twelve bytes get the final mix. *)
Fixpoint lookup3_from (n : nat) (s : words) (l : list Z) : Z :=
  match n with
  | O => s.2
  | S n =>
    if (12 <? length l)%nat then lookup3_from n (mix (add_words s (block_words (take 12 l)))) (drop 12 l)
    else match l with [] => s.2 | _ => (final_mix (add_words s (block_words l))).2 end
  end.

Definition lookup3_rest (s : words) (l : list Z) : Z := lookup3_from (S (length l)) s l.

Definition lookup3_seed (n initval : Z) : Z :=
  wrapping_add (wrapping_add 0xdeadbeef (n mod 2 ^ 32)) initval.

Definition lookup3 (l : list Z) : Z :=
  let a := lookup3_seed (zlen l) 0 in lookup3_rest (a, a, a) l.

(** [l] with the four bytes at [at_] zeroed. *)
Definition zero_field (at_ : Z) (l : list Z) : list Z :=
  imap (λ i b, if (at_ <=? Z.of_nat i) && (Z.of_nat i <? at_ + 4) then 0 else b) l.

(** ** Facts *)

Example lookup3_tests :
  jenkins_lookup3 [] = Ret 0xdeadbeef ∧ jenkins_lookup3 [1] = Ret 0x04ec883b ∧
  jenkins_lookup3 [1; 8; 15; 22; 29; 36; 43; 50; 57; 64; 71; 78] = Ret 0x38919c27 ∧
  jenkins_lookup3 [1; 8; 15; 22; 29; 36; 43; 50; 57; 64; 71; 78; 85; 92] = Ret 0x49ef0328.
Proof. vm_compute. done. Qed.

(** ** Facts about the metadata checksums

    The one-pass hash computes the reference [lookup3] of the bytes, of the bytes
    with the field zeroed in the zeroed variant; the incremental state after any
    updates continues to the same value; the checks accept exactly the blocks that
    carry that value. *)

(** ** Bytes or-ed into a word *)

Lemma testbit_small (w k n : Z) : 0 ≤ w < 2 ^ k → k ≤ n → Z.testbit w n = false.
Proof.
  intros Hw Hn. destruct (decide (0 ≤ k)) as [Hk|Hk].
  - rewrite <- (Z.mod_small w (2 ^ k)) by done. by apply Z.mod_pow2_bits_high.
  - rewrite Z.pow_neg_r in Hw; lia.
Qed.

Lemma lor_shiftl_add (w b k : Z) :
  0 ≤ k → 0 ≤ w < 2 ^ k → Z.lor w (Z.shiftl b k) = w + 2 ^ k * b.
Proof.
  intros Hk Hw.
  assert (Hl : Z.land w (Z.shiftl b k) = 0).
  { apply Z.bits_inj'. intros n Hn. rewrite Z.land_spec, Z.bits_0.
    destruct (decide (n < k)).
    - rewrite (Z.shiftl_spec_low b k n) by done. apply andb_false_r.
    - rewrite (testbit_small w k) by lia. done. }
  rewrite <- Z.lxor_lor, <- Z.add_nocarry_lxor by done.
  rewrite Z.shiftl_mul_pow2 by done. lia.
Qed.

Lemma or_bytes_value (l : list Z) (i word : Z) :
  0 ≤ i → 0 ≤ word < 256 ^ i → Forall byte l →
  JenkinsLookup3.or_bytes i word l = word + 256 ^ i * le_value l.
Proof.
  intros Hi Hw Hl. revert i word Hi Hw.
  induction Hl as [|b l Hb Hl IH]; intros i word Hi Hw; simpl; [lia|].
  unfold byte in Hb. rewrite !pow_256_8 in * by lia.
  rewrite lor_shiftl_add by lia.
  assert (Hp : 256 ^ (i + 1) = 256 * 256 ^ i) by (rewrite Z.pow_add_r by lia; lia).
  rewrite pow_256_8 in Hp by lia. rewrite (pow_256_8 i) in Hp by lia.
  rewrite IH; [|lia|rewrite pow_256_8 by lia; nia].
  rewrite (pow_256_8 (i + 1)) by lia. nia.
Qed.

Lemma or_bytes_le l : Forall byte l → JenkinsLookup3.or_bytes 0 0 l = le_value l.
Proof. intros Hl. rewrite or_bytes_value by (done || lia). lia. Qed.

(** ** The bytes the hash sees *)

Definition seen (ZERO : bool) (at_ : Z) (l : list Z) : list Z :=
  if ZERO then zero_field at_ l else l.

Lemma zlen_zero_field at_ l : zlen (zero_field at_ l) = zlen l.
Proof. unfold zlen, zero_field. by rewrite length_imap. Qed.

Lemma length_seen ZERO at_ l : length (seen ZERO at_ l) = length l.
Proof. destruct ZERO; [|done]. apply length_imap. Qed.

Lemma seen_byte ZERO at_ l : Forall byte l → Forall byte (seen ZERO at_ l).
Proof.
  intros Hl. destruct ZERO; [|done]. apply Forall_lookup. intros i b Hb.
  unfold seen, zero_field in Hb. rewrite list_lookup_imap in Hb.
  destruct (l !! i) as [b'|] eqn:E; simplify_eq/=.
  destruct (_ && _); [unfold byte; lia|]. by eapply Forall_lookup in Hl.
Qed.

Lemma byte_at_seen ZERO data offset zero_at b :
  0 ≤ offset → seen ZERO zero_at data !! Z.to_nat offset = Some b →
  byte_at ZERO data offset zero_at = Ret b.
Proof.
  intros Ho Hb. unfold byte_at. destruct ZERO; simpl in *.
  - unfold zero_field in Hb. rewrite list_lookup_imap in Hb.
    destruct (data !! Z.to_nat offset) as [b'|] eqn:E; simplify_eq/=.
    rewrite Z2Nat.id by done.
    replace (offset - zero_at <? 4) with (offset <? zero_at + 4) by lia.
    destruct (_ && _); [done|]. by apply index_Ret.
  - by apply index_Ret.
Qed.

(** A stretch of the seen bytes from an offset. *)
Definition seen_at (ZERO : bool) (zero_at : Z) (data : list Z) (offset : Z) (s : list Z) : Prop :=
  0 ≤ offset ∧ ∃ r, drop (Z.to_nat offset) (seen ZERO zero_at data) = s ++ r.

Lemma seen_at_head ZERO zero_at data offset b s :
  seen_at ZERO zero_at data offset (b :: s) →
  byte_at ZERO data offset zero_at = Ret b ∧ seen_at ZERO zero_at data (offset + 1) s.
Proof.
  intros (Ho & r & Hr). split.
  - apply byte_at_seen; [done|]. rewrite <- (Nat.add_0_r (Z.to_nat offset)).
    rewrite <- lookup_drop, Hr. done.
  - split; [lia|]. exists r. rewrite Z2Nat.inj_add by lia.
    rewrite <- drop_drop, Hr. done.
Qed.

Lemma read_u32_seen ZERO zero_at data offset b0 b1 b2 b3 s :
  seen_at ZERO zero_at data offset (b0 :: b1 :: b2 :: b3 :: s) →
  read_u32_le ZERO data offset zero_at = Ret (le_value [b0; b1; b2; b3]) ∧
  seen_at ZERO zero_at data (offset + 4) s.
Proof.
  intros [H0 Hs]%seen_at_head. apply seen_at_head in Hs as [H1 Hs].
  apply seen_at_head in Hs as [H2 Hs]. apply seen_at_head in Hs as [H3 Hs].
  unfold read_u32_le. rewrite H0. simpl.
  replace (offset + 1 + 1) with (offset + 2) in * by lia.
  replace (offset + 2 + 1) with (offset + 3) in * by lia.
  replace (offset + 3 + 1) with (offset + 4) in * by lia.
  rewrite H1. simpl. rewrite H2. simpl. rewrite H3. done.
Qed.

Lemma seen_at_app ZERO zero_at data offset s1 s2 :
  seen_at ZERO zero_at data offset (s1 ++ s2) →
  seen_at ZERO zero_at data offset s1 ∧ seen_at ZERO zero_at data (offset + zlen s1) s2.
Proof.
  intros (Ho & r & Hr). split; [split; [done|exists (s2 ++ r)]; by rewrite Hr, app_assoc|].
  pose proof (zlen_nonneg s1). split; [lia|]. exists r.
  rewrite Z2Nat.inj_add, <- drop_drop, Hr by lia. unfold zlen.
  rewrite Nat2Z.id, <- app_assoc. apply drop_app_length.
Qed.

Lemma tail_word_seen ZERO zero_at data offset (s : list Z) i word :
  0 ≤ offset → 0 ≤ i → seen_at ZERO zero_at data (offset + i) s →
  tail_word (length s) ZERO data zero_at offset i word = Ret (JenkinsLookup3.or_bytes i word s).
Proof.
  intros Ho. revert i word. induction s as [|b s IH]; intros i word Hi Hs; [done|].
  apply seen_at_head in Hs as [Hb Hs]. simpl. rewrite Hb. simpl.
  apply IH; [lia|]. by rewrite Z.add_assoc.
Qed.

(** ** The blocks *)

Lemma lookup3_from_enough n m s l :
  (length l < n)%nat → (length l < m)%nat → lookup3_from n s l = lookup3_from m s l.
Proof.
  revert m s l. induction n as [|n IH]; intros m s l Hn Hm; [lia|].
  destruct m as [|m]; [lia|]. simpl. destruct (12 <? length l)%nat eqn:E; [|done].
  apply IH; rewrite length_drop; lia.
Qed.

Lemma lookup3_rest_block s b l :
  length b = 12%nat → l ≠ [] →
  lookup3_rest s (b ++ l) = lookup3_rest (mix (add_words s (block_words b))) l.
Proof.
  intros Hb Hl. unfold lookup3_rest at 1. cbn [lookup3_from].
  rewrite length_app, Hb. destruct l as [|x l]; [done|].
  destruct (12 <? 12 + length (x :: l))%nat eqn:E; [|simpl in E; lia].
  rewrite take_app_length', drop_app_length' by done.
  apply lookup3_from_enough; simpl; lia.
Qed.

Lemma lookup3_rest_tail s l :
  l ≠ [] → (length l ≤ 12)%nat → lookup3_rest s l = (final_mix (add_words s (block_words l))).2.
Proof.
  intros Hl Hle. unfold lookup3_rest. cbn [lookup3_from].
  destruct (12 <? length l)%nat eqn:E; [lia|]. by destruct l.
Qed.

(** Three words of a block of twelve bytes. *)
Lemma block_12 (b : list Z) :
  length b = 12%nat →
  ∃ b0 b1 b2 b3 b4 b5 b6 b7 b8 b9 b10 b11,
    b = [b0; b1; b2; b3; b4; b5; b6; b7; b8; b9; b10; b11].
Proof. intros Hb. do 12 (destruct b as [|? b]; [done|]). destruct b; [|done]. by repeat eexists. Qed.

Lemma read_block ZERO zero_at data offset b {T} (k : Z → Z → Z → outcome T) :
  length b = 12%nat → seen_at ZERO zero_at data offset b →
  (x ← read_u32_le ZERO data offset zero_at;
   y ← read_u32_le ZERO data (offset + 4) zero_at;
   z ← read_u32_le ZERO data (offset + 8) zero_at; k x y z)
  = let '(x, y, z) := block_words b in k x y z.
Proof.
  intros Hb Hs. destruct (block_12 b Hb) as (b0&b1&b2&b3&b4&b5&b6&b7&b8&b9&b10&b11&->).
  apply read_u32_seen in Hs as [Hx Hs]. apply read_u32_seen in Hs as [Hy Hs].
  replace (offset + 4 + 4) with (offset + 8) in Hs by lia.
  apply read_u32_seen in Hs as [Hz _]. rewrite Hx. cbn [mbind outcome_bind].
  rewrite Hy. cbn [mbind outcome_bind]. by rewrite Hz.
Qed.

(** Where the block loop stops, and what the rest of the hash computes from there. *)
Lemma hash_blocks_spec fuel ZERO zero_at data offset s l :
  0 ≤ offset → drop (Z.to_nat offset) (seen ZERO zero_at data) = l → offset ≤ zlen data →
  (length l ≤ fuel)%nat →
  ∃ s' offset' l',
    hash_blocks fuel ZERO data zero_at offset s = Ret (s', offset') ∧
    0 ≤ offset' ≤ zlen data ∧ drop (Z.to_nat offset') (seen ZERO zero_at data) = l' ∧
    (length l' ≤ 12)%nat ∧ lookup3_rest s' l' = lookup3_rest s l.
Proof.
  revert offset s l. induction fuel as [|fuel IH]; intros offset s l Ho Hl Hd Hf.
  - exists s, offset, l. split_and!; (done || lia).
  - assert (Hz : zlen data - offset = zlen l).
    { unfold zlen in *. rewrite <- Hl, length_drop, length_seen. lia. }
    simpl. destruct (12 <? zlen data - offset) eqn:E.
    2:{ exists s, offset, l. split_and!; (done || lia || unfold zlen in *; lia). }
    rewrite Hz in E. unfold zlen in E.
    rewrite (read_block ZERO zero_at data offset (take 12 l)
               (λ x y z, hash_blocks fuel ZERO data zero_at (offset + 12) (mix (add_words s (x, y, z))))).
    + destruct (IH (offset + 12) (mix (add_words s (block_words (take 12 l)))) (drop 12 l))
        as (s' & o' & l' & H1 & H2 & H3 & H4 & H5).
      * lia.
      * rewrite Z2Nat.inj_add by lia. by rewrite <- drop_drop, Hl.
      * unfold zlen in *. lia.
      * rewrite length_drop. lia.
      * exists s', o', l'. refine (conj H1 (conj H2 (conj H3 (conj H4 _)))). rewrite H5.
        rewrite <- (take_drop 12 l) at 3. rewrite lookup3_rest_block; [done| |].
        -- rewrite length_take. lia.
        -- intros Hn%(f_equal length). rewrite length_drop in Hn. simpl in Hn. lia.
    + rewrite length_take. lia.
    + split; [done|]. exists (drop 12 l). by rewrite take_drop, Hl.
Qed.

Lemma chunk_split (l : list Z) (k : nat) :
  length (take 4 (drop (k * 4) l)) = chunk_len (zlen l) (Z.of_nat k).
Proof. unfold chunk_len, zlen. rewrite length_take, length_drop. lia. Qed.

Lemma seen_at_chunk ZERO zero_at data offset l (k : nat) :
  0 ≤ offset → drop (Z.to_nat offset) (seen ZERO zero_at data) = l →
  seen_at ZERO zero_at data (offset + Z.of_nat k) (take 4 (drop k l)).
Proof.
  intros Ho Hl. split; [lia|]. exists (drop 4 (drop k l)).
  rewrite take_drop, Z2Nat.inj_add, Nat2Z.id, <- drop_drop, Hl by lia. done.
Qed.

(** The one-pass hash is the reference hash of the bytes it sees. *)
Lemma hashlittle_zeroed_ret ZERO data initval zero_at :
  Forall byte data →
  hashlittle_zeroed ZERO data initval zero_at =
  Ret (let a := lookup3_seed (zlen data) initval in lookup3_rest (a, a, a) (seen ZERO zero_at data)).
Proof.
  intros Hb. unfold hashlittle_zeroed. fold (lookup3_seed (zlen data) initval).
  set (a := lookup3_seed (zlen data) initval).
  destruct (hash_blocks_spec (Z.to_nat (zlen data)) ZERO zero_at data 0 (a, a, a)
              (seen ZERO zero_at data)) as (s & o & l & -> & Ho & Hl & H12 & Hr).
  - lia.
  - done.
  - apply zlen_nonneg.
  - rewrite length_seen. unfold zlen. lia.
  - cbn [mbind outcome_bind]. rewrite <- Hr.
    assert (Hz : zlen data - o = zlen l).
    { unfold zlen in *. rewrite <- Hl, length_drop, length_seen. lia. }
    rewrite Hz. destruct (zlen l =? 0) eqn:E.
    { destruct l; [done|rewrite zlen_cons in E; pose proof (zlen_nonneg l); lia]. }
    assert (Hlb : Forall byte l) by (rewrite <- Hl; by apply Forall_drop, seen_byte).
    assert (Hw : ∀ k : nat, tail_word (chunk_len (zlen l) (Z.of_nat k)) ZERO data zero_at
                (o + Z.of_nat (k * 4)) 0 0 = Ret (le_value (take 4 (drop (k * 4) l)))).
    { intros k. rewrite <- chunk_split, tail_word_seen.
      - rewrite or_bytes_le; [done|]. by apply Forall_take, Forall_drop.
      - lia.
      - lia.
      - rewrite Z.add_0_r. apply seen_at_chunk; [lia|done]. }
    pose proof (Hw 0%nat) as H0. pose proof (Hw 1%nat) as H1. pose proof (Hw 2%nat) as H2.
    change (tail_word (chunk_len (zlen l) 0) ZERO data zero_at (o + 0) 0 0
            = Ret (le_value (take 4 l))) in H0.
    change (tail_word (chunk_len (zlen l) 1) ZERO data zero_at (o + 4) 0 0
            = Ret (le_value (take 4 (drop 4 l)))) in H1.
    change (tail_word (chunk_len (zlen l) 2) ZERO data zero_at (o + 8) 0 0
            = Ret (le_value (take 4 (drop 8 l)))) in H2.
    rewrite Z.add_0_r in H0. rewrite H0. cbn [mbind outcome_bind].
    rewrite H1. cbn [mbind outcome_bind]. rewrite H2. cbn [mbind outcome_bind].
    rewrite lookup3_rest_tail; [done| |done]. intros ->. done.
Qed.

Lemma jenkins_lookup3_ret data : Forall byte data → jenkins_lookup3 data = Ret (lookup3 data).
Proof. intros Hb. apply (hashlittle_zeroed_ret false data 0 0 Hb). Qed.

(** ** The hash is a [u32] *)

Lemma wrapping_sub_u32 a b : 0 ≤ wrapping_sub a b < 2 ^ 32.
Proof. apply Z.mod_pos_bound. lia. Qed.

Lemma wrapping_add_u32 a b : 0 ≤ wrapping_add a b < 2 ^ 32.
Proof. apply Z.mod_pos_bound. lia. Qed.

Lemma final_mix_u32 s : fits 4 (final_mix s).2.
Proof. destruct s as [[a b] c]. unfold fits. cbn [final_mix snd]. apply wrapping_sub_u32. Qed.

Lemma lookup3_from_u32 n s l :
  l ≠ [] ∨ fits 4 s.2 → (length l < n)%nat → fits 4 (lookup3_from n s l).
Proof.
  revert s l. induction n as [|n IH]; intros s l Hs Hn; [lia|]. simpl.
  destruct (12 <? length l)%nat eqn:E.
  - apply IH; [left|rewrite length_drop; lia].
    intros H%(f_equal length). rewrite length_drop in H. simpl in H. lia.
  - destruct l; [by destruct Hs|]. apply final_mix_u32.
Qed.

Lemma lookup3_u32 l : fits 4 (lookup3 l).
Proof. apply lookup3_from_u32; [right; apply wrapping_add_u32|lia]. Qed.

(** ** Successive slices *)

(** The state of a checksum whose unhashed bytes are [todo], of which the first are
    pending. *)
Definition lookup3_state (st : JenkinsLookup3) (todo : list Z) (h : Z) : Prop :=
  length (l3_pending st) = 12%nat ∧ 0 ≤ l3_pending_len st ≤ 12 ∧
  Forall byte (l3_pending st) ∧ l3_remaining st = zlen todo ∧
  (todo ≠ [] → l3_pending_len st < 12) ∧
  lookup3_rest (l3_words st) (take (Z.to_nat (l3_pending_len st)) (l3_pending st) ++ todo) = h.

Lemma lookup3_state_new l : Forall byte l → lookup3_state (JenkinsLookup3.new (zlen l)) l (lookup3 l).
Proof.
  intros Hl. split_and!; simpl; try (done || lia).
  - repeat (constructor; [unfold byte; lia|]). constructor.
  - unfold lookup3, lookup3_seed. f_equal.
    assert (H : ∀ z, wrapping_add (wrapping_add z (zlen l mod 4294967296)) 0
                     = wrapping_add z (zlen l mod 4294967296)).
    { intros z. unfold wrapping_add. rewrite Z.add_0_r. by rewrite Z.mod_mod. }
    change (2 ^ 32) with 4294967296. by rewrite H.
Qed.

Lemma pending_filled (pl len : Z) (pending head : list Z) :
  length pending = 12%nat → 0 ≤ pl → zlen head = len → pl + len ≤ 12 →
  ∃ p', splice pending pl head = Ret p' ∧ length p' = 12%nat ∧
    take (Z.to_nat (pl + len)) p' = take (Z.to_nat pl) pending ++ head ∧
    (Forall byte pending → Forall byte head → Forall byte p').
Proof.
  intros Hp Hpl Hh Hle. pose proof (zlen_nonneg head). unfold splice, zlen in *.
  destruct (get_range _ _ _) as [g|] eqn:E.
  2:{ apply get_range_None in E. unfold zlen in E. lia. }
  eexists. split; [done|].
  set (q := take (Z.to_nat pl) pending).
  assert (Hq : length q = Z.to_nat pl) by (unfold q; rewrite length_take; lia).
  split_and!.
  - rewrite !length_app, length_drop. lia.
  - rewrite app_assoc, take_app_length'; [done|]. rewrite length_app. lia.
  - intros H1 H2. repeat apply Forall_app_2; [by apply Forall_take|done|by apply Forall_drop].
Qed.

Lemma seen_at_whole (l : list Z) : seen_at false 0 l 0 l.
Proof. split; [done|]. exists []. by rewrite app_nil_r. Qed.

(** One iteration of the update loop. *)
Lemma update_step fuel st data rest h :
  lookup3_state st (data ++ rest) h → Forall byte data → data ≠ [] →
  ∃ st' n, JenkinsLookup3.update_loop (S fuel) st data
           = JenkinsLookup3.update_loop fuel st' (drop n data) ∧
    (0 < n)%nat ∧ lookup3_state st' (drop n data ++ rest) h.
Proof.
  intros (Hp & Hpl & Hpb & Hrem & Hlt & Hh) Hb Hne.
  assert (Hlt' : l3_pending_len st < 12) by (apply Hlt; by destruct data).
  assert (H1 : 1 ≤ zlen data) by (destruct data; [done|rewrite zlen_cons; pose proof (zlen_nonneg data); lia]).
  set (len := Z.min (12 - l3_pending_len st) (zlen data)).
  assert (Hlen : 0 < len ≤ zlen data ∧ l3_pending_len st + len ≤ 12) by lia.
  set (n := Z.to_nat len). set (head := take n data).
  assert (Hhead : zlen head = len) by (apply zlen_take; lia).
  destruct (pending_filled (l3_pending_len st) len (l3_pending st) head)
    as (p' & Hs & Hp' & Ht & Hb'); [done|lia|done|lia|].
  assert (Hbp : Forall byte p') by (apply Hb'; [done|by apply Forall_take]).
  assert (Htodo : zlen (drop n data ++ rest) = l3_remaining st - len).
  { rewrite Hrem, !zlen_app. unfold n. rewrite zlen_drop by lia. lia. }
  assert (Hcat : take (Z.to_nat (l3_pending_len st + len)) p' ++ drop n data ++ rest
                 = take (Z.to_nat (l3_pending_len st)) (l3_pending st) ++ data ++ rest).
  { rewrite Ht, <- app_assoc. f_equal. rewrite app_assoc. unfold head. by rewrite take_drop. }
  assert (Hsl1 : slice data 0 len = Ret head).
  { unfold slice. rewrite (proj2 (get_range_Some data 0 len head)); [done|].
    split_and!; [lia..|]. unfold head, n. by rewrite Z.sub_0_r. }
  assert (Hsl2 : slice data len (zlen data) = Ret (drop n data)).
  { unfold slice. rewrite (proj2 (get_range_Some data len (zlen data) (drop n data))); [done|].
    split_and!; [lia..|]. rewrite take_ge; [done|]. unfold zlen, n in *. rewrite length_drop. lia. }
  destruct ((l3_pending_len st + len =? 12) && negb (l3_remaining st - len =? 0)) eqn:E.
  - exists (mkLookup3 (mix (add_words (l3_words st) (block_words p'))) (l3_remaining st - len) p' 0), n.
    assert (H12 : l3_pending_len st + len = 12) by lia.
    rewrite H12 in Hcat. change (Z.to_nat 12) with 12%nat in Hcat.
    rewrite take_ge in Hcat by lia.
    assert (Hne' : drop n data ++ rest ≠ []).
    { intros H0%(f_equal zlen). rewrite Htodo, zlen_nil in H0. lia. }
    refine (conj _ (conj _ _)); [|lia|split_and!; simpl; try (done || lia)].
    + destruct data as [|d data]; [done|]. cbn [JenkinsLookup3.update_loop].
      change LOOKUP3_BLOCK_LEN with 12. fold len. rewrite Hsl1. cbn [mbind outcome_bind].
      rewrite Hs. cbn [mbind outcome_bind]. rewrite Hsl2. cbn [mbind outcome_bind]. rewrite E.
      exact (read_block false 0 p' 0 p'
        (λ x y z, JenkinsLookup3.update_loop fuel (mkLookup3 (mix (add_words (l3_words st) (x, y, z)))
           (l3_remaining st - len) p' 0) (drop n (d :: data))) Hp' (seen_at_whole p')).
    + rewrite <- Hh, <- Hcat. by rewrite (lookup3_rest_block _ p').
  - exists (mkLookup3 (l3_words st) (l3_remaining st - len) p' (l3_pending_len st + len)), n.
    refine (conj _ (conj _ _)); [|lia|split_and!; simpl; try (done || lia)].
    + destruct data as [|d data]; [done|]. cbn [JenkinsLookup3.update_loop].
      change LOOKUP3_BLOCK_LEN with 12. fold len. rewrite Hsl1. cbn [mbind outcome_bind].
      rewrite Hs. cbn [mbind outcome_bind]. rewrite Hsl2. cbn [mbind outcome_bind]. by rewrite E.
    + intros Hne'. assert (zlen (drop n data ++ rest) ≠ 0).
      { destruct (drop n data ++ rest) as [|x l]; [done|].
        rewrite zlen_cons. pose proof (zlen_nonneg l). lia. }
      lia.
    + by rewrite Hcat.
Qed.

Lemma update_loop_state fuel st data rest h :
  lookup3_state st (data ++ rest) h → Forall byte data → (length data ≤ fuel)%nat →
  ∃ st', JenkinsLookup3.update_loop fuel st data = Ret st' ∧ lookup3_state st' rest h.
Proof.
  revert st data. induction fuel as [|fuel IH]; intros st data Hst Hb Hf.
  - destruct data; [|simpl in Hf; lia]. by exists st.
  - destruct (decide (data = [])) as [->|Hne]; [by exists st|].
    destruct (update_step fuel st data rest h Hst Hb Hne) as (st' & n & -> & Hn & Hst').
    apply (IH _ _ Hst'); [by apply Forall_drop|rewrite length_drop; lia].
Qed.

Lemma update_ok st data rest h :
  lookup3_state st (data ++ rest) h → Forall byte data →
  ∃ st', JenkinsLookup3.update st data = ok st' ∧ lookup3_state st' rest h.
Proof.
  intros Hst Hb. destruct (update_loop_state (length data) st data rest h Hst Hb) as (st' & Hu & Hst').
  { done. }
  exists st'. split; [|done]. unfold JenkinsLookup3.update.
  destruct Hst as (_ & _ & _ & Hrem & _). rewrite zlen_app in Hrem.
  pose proof (zlen_nonneg rest). destruct (_ <? _) eqn:E; [lia|]. by rewrite Hu.
Qed.

Lemma finish_ok st h : lookup3_state st [] h → JenkinsLookup3.finish st = ok h.
Proof.
  intros (Hp & Hpl & Hpb & Hrem & _ & Hh). unfold JenkinsLookup3.finish.
  rewrite Hrem. simpl. rewrite app_nil_r in Hh.
  destruct (l3_pending_len st =? 0) eqn:E.
  - apply Z.eqb_eq in E. rewrite E in Hh. simpl in Hh. by rewrite <- Hh.
  - assert (Hs : get_range (l3_pending st) 0 (l3_pending_len st)
                 = Some (take (Z.to_nat (l3_pending_len st)) (l3_pending st))).
    { apply get_range_Some. rewrite Z.sub_0_r. unfold zlen. split_and!; (done || lia). }
    unfold slice. rewrite Hs. simpl. rewrite <- Hh.
    set (l := take _ _) in *.
    assert (Hl : Forall byte l) by by apply Forall_take.
    assert (Hll : length l = Z.to_nat (l3_pending_len st)) by (unfold l; rewrite length_take; lia).
    rewrite lookup3_rest_tail; [|intros H0; rewrite H0 in Hll; simpl in Hll; lia|lia].
    unfold block_words. by rewrite !or_bytes_le by auto using Forall_take, Forall_drop.
Qed.

(** Updating with the slices of a list in order. *)
Fixpoint updates (st : JenkinsLookup3) (slices : list (list Z)) : exec JenkinsLookup3 :=
  match slices with
  | [] => ok st
  | data :: slices => st ←? JenkinsLookup3.update st data; updates st slices
  end.

Lemma updates_ok st slices rest h :
  lookup3_state st (concat slices ++ rest) h → Forall (Forall byte) slices →
  ∃ st', updates st slices = ok st' ∧ lookup3_state st' rest h.
Proof.
  revert st. induction slices as [|d slices IH]; intros st Hst Hb; simpl in *; [by exists st|].
  inversion_clear Hb. rewrite <- app_assoc in Hst.
  destruct (update_ok st d _ h Hst) as (st' & -> & Hst'); [done|]. by apply IH.
Qed.

(** ** Checks *)

Section Verify.
Context `{B : Build}.

(** A trailing checksum is accepted exactly when it is the checksum of the body. *)
Lemma verify_trailing_required_app body stored :
  Forall byte body → fits 4 stored →
  verify_trailing_required (body ++ le_bytes 4 stored) =
  if lookup3 body =? stored then ok tt else fail (ChecksumMismatch stored (lookup3 body)).
Proof.
  intros Hb Hs. unfold verify_trailing_required.
  destruct (zlen _ <? 4) eqn:E.
  { rewrite zlen_app, zlen_le_bytes in E. pose proof (zlen_nonneg body). lia. }
  rewrite length_app, length_le_bytes. replace (length body + 4 - 4)%nat with (length body) by lia.
  rewrite take_app_length, drop_app_length, le_value_bytes by done.
  rewrite jenkins_lookup3_ret by done. simpl. by destruct (lookup3 body =? stored).
Qed.

Lemma verify_trailing_app body :
  Forall byte body → verify_trailing (body ++ le_bytes 4 (lookup3 body)) = ok tt.
Proof.
  intros Hb. unfold verify_trailing. destruct feature_checksum; [|done].
  rewrite verify_trailing_required_app by (done || apply lookup3_u32). by rewrite Z.eqb_refl.
Qed.

(** Any block of at least four bytes is a body and a stored checksum. *)
Lemma block_split (block : list Z) :
  Forall byte block → 4 ≤ zlen block →
  ∃ body stored, block = body ++ le_bytes 4 stored ∧ Forall byte body ∧ fits 4 stored.
Proof.
  intros Hb Hl. unfold zlen in Hl.
  assert (Hd : length (drop (length block - 4) block) = 4%nat) by (rewrite length_drop; lia).
  assert (Hdb : Forall byte (drop (length block - 4) block)) by by apply Forall_drop.
  exists (take (length block - 4) block), (le_value (drop (length block - 4) block)).
  split_and!; [|by apply Forall_take|].
  - rewrite <- (take_drop (length block - 4) block) at 1. f_equal.
    pose proof (le_bytes_value _ Hdb) as H. rewrite Hd in H. done.
  - pose proof (le_value_bounds _ Hdb) as H. unfold zlen in H. by rewrite Hd in H.
Qed.

Lemma verify_trailing_sound block : Forall byte block → verify_trailing block ⇝? (λ _, True).
Proof.
  intros Hb. unfold verify_trailing. destruct feature_checksum; [|by apply sound_ok].
  destruct (decide (zlen block < 4)) as [Hl|Hl].
  - unfold verify_trailing_required. destruct (_ <? _) eqn:E; [apply sound_fail|lia].
  - destruct (block_split block Hb ltac:(lia)) as (body & stored & -> & H1 & H2).
    rewrite verify_trailing_required_app by done.
    destruct (_ =? _); [by apply sound_ok|apply sound_fail].
Qed.

End Verify.
