(* ===== verification/FileRegions.v ===== *)
(** * Ranges of the file and the bytes read from them

    Models [crates/hdf5-pure-core/src/region.rs]: a [FileRange] is a checked
    interval of physical addresses and a [FileRegion] the bytes of one.  The last
    lemmas say what [subregion] returns and that it does not panic. *)

From S2P Require Import Prelude Addresses Words.

Local Open Scope Z_scope.

Definition FileRange : Type := AddressRange.

Module FileRange.

Definition new (start length : Z) : exec FileRange := AddressRange.new start length.

Definition start (self : FileRange) : Z := range_start self.

Definition length (self : FileRange) : Z := range_end self - range_start self.

Definition end_ (self : FileRange) : Z := range_end self.

Definition contains (self required : FileRange) : bool := AddressRange.contains self required.

Definition overlaps (self other : FileRange) : bool := AddressRange.overlaps self other.

Definition intersection (self other : FileRange) : option FileRange :=
  AddressRange.intersection self other.

Definition adjoins (self other : FileRange) : bool := AddressRange.adjoins self other.

Definition precedes (self other : FileRange) : bool := AddressRange.precedes self other.

End FileRange.

Record FileRegion : Type := mkRegion {
  region_range : FileRange;
  region_bytes : list Z;
}.

Module FileRegion.
Section Regions.
Context `{Platform}.

Definition new (range : FileRange) (bytes : list Z) : result FileRegion FormatError :=
  if negb (FileRange.length range =? zlen bytes)
  then Err (FileRegionLengthMismatch (FileRange.length range) (zlen bytes))
  else Ok (mkRegion range bytes).

(** [usize::try_from(value).ok()] *)
Definition usize_try_from (value : Z) : option Z := if value <=? USIZE_MAX then Some value else None.

Definition subregion (self : FileRegion) (required : FileRange) : result FileRegion FormatError :=
  let range := region_range self in
  let error :=
    InsufficientRegion (FileRange.start required) (FileRange.length required)
      (FileRange.start range) (FileRange.length range) in
  if negb (FileRange.contains range required) then Err error
  else
    let start := FileRange.start required - FileRange.start range in
    let end_ := FileRange.end_ required - FileRange.start range in
    match usize_try_from start, usize_try_from end_ with
    | Some start, Some end_ =>
      match get_range (region_bytes self) start end_ with
      | Some bytes => Ok (mkRegion required bytes)
      | None => Err error
      end
    | _, _ => Err error
    end.

End Regions.
End FileRegion.

(** ** Facts *)

Section Facts.
Context `{Platform}.

(** A region holds one byte per address of its range, as [FileRegion::new] checks. *)
Definition region_ok (r : FileRegion) : Prop :=
  FileRange.length (region_range r) = zlen (region_bytes r) ∧ zlen (region_bytes r) ≤ USIZE_MAX.

(** A subregion is returned exactly when the region contains the range, and holds
    the bytes of that range. *)
Lemma subregion_spec (r : FileRegion) (required : FileRange) :
  region_ok r →
  (FileRange.contains (region_range r) required = true ∧
   ∃ p q bytes, region_bytes r = p ++ bytes ++ q ∧
     zlen p = FileRange.start required - FileRange.start (region_range r) ∧
     FileRegion.subregion r required = Ok (mkRegion required bytes) ∧
     region_ok (mkRegion required bytes)) ∨
  (FileRange.contains (region_range r) required = false ∧
   FileRegion.subregion r required =
   Err (InsufficientRegion (FileRange.start required) (FileRange.length required)
          (FileRange.start (region_range r)) (FileRange.length (region_range r)))).
Proof.
  intros [Hl Hm]. unfold FileRegion.subregion.
  destruct (FileRange.contains (region_range r) required) eqn:E; simpl; [left|by right].
  split; [done|]. unfold FileRange.contains, AddressRange.contains in E.
  unfold FileRange.start, FileRange.end_, FileRange.length, FileRegion.usize_try_from in *.
  pose proof (range_ordered required).
  destruct (range_start required - _ <=? USIZE_MAX) eqn:E1; [|lia].
  destruct (range_end required - _ <=? USIZE_MAX) eqn:E2; [|lia].
  destruct (get_range (region_bytes r) _ _) as [s|] eqn:Es.
  2:{ apply get_range_None in Es. lia. }
  pose proof (get_range_split _ _ _ _ Es) as (p & q & Hb & Hp & Hs).
  exists p, q, s. split_and!; [done|done|done|].
  rewrite Hb, !zlen_app in Hm. pose proof (zlen_nonneg p). pose proof (zlen_nonneg q).
  split; unfold FileRange.length; simpl; lia.
Qed.

End Facts.
