(* ===== verification/FreeSpaceManagers.v ===== *)
(** * Free-space managers on disk

    Models [crates/hdf5-pure-format/src/free_space_manager.rs]: the header ([FSHD])
    and the section list ([FSSE]) of the free-space managers of a file, their
    serializers, parsers and length functions.

    The validation of fractal-heap managers ([fractal_heap_header]) belongs to the
    heap and is not modelled.  A loop that runs out of fuel panics, so the theorems
    that exclude a panic show that the fuel suffices. *)

From stdpp Require Import strings pretty.
From S2P Require Import Prelude Addresses Words ByteFields Checksums FileRegions.

Local Open Scope string_scope.
Local Open Scope Z_scope.

(** ** Messages *)

(** A double quote. *)
Definition quote : string := String (Ascii.ascii_of_nat 34) EmptyString.

Definition hex_digit (d : Z) : Ascii.ascii :=
  Ascii.ascii_of_nat (Z.to_nat (if d <? 10 then 48 + d else 87 + d)).

(** [u8::escape_ascii] *)
Definition escape_byte (b : Z) : string :=
  if b =? 9 then "\t" else if b =? 13 then "\r" else if b =? 10 then "\n"
  else if b =? 39 then "\'" else if b =? 34 then "\" +:+ quote else if b =? 92 then "\\"
  else if (32 <=? b) && (b <=? 126) then String (Ascii.ascii_of_nat (Z.to_nat b)) EmptyString
  else "\x" +:+ String (hex_digit (b / 16)) (String (hex_digit (b mod 16)) EmptyString).

Definition escape_ascii (l : list Z) : string := foldr (λ b s, escape_byte b +:+ s) "" l.

Definition FSHD_SIGNATURE : list Z := [70; 83; 72; 68].
Definition FSSE_SIGNATURE : list Z := [70; 83; 83; 69].
Definition FSHD_VERSION : Z := 0.
Definition FSSE_VERSION : Z := 0.
Definition CHECKSUM_LEN : Z := 4.
Definition SECTION_CLASS_LEN : Z := 1.
Definition FILE_FSM_NUM_CLASSES : Z := 3.
Definition FILE_FSM_SHRINK_PCT : Z := 80.
Definition FILE_FSM_EXPAND_PCT : Z := 120.
Definition FILE_FSM_CLIENT_ID : Z := 1.
Definition FILE_FSM_MAX_SECTION_SIZE : Z := Z.shiftl 1 63 - 1.
Definition SECTION_CLASS_SIMPLE : Z := 0.
Definition SECTION_CLASS_SMALL : Z := 1.
Definition SECTION_CLASS_LARGE : Z := 2.

(** ** Address spaces and the widths of the section fields *)

(** The number of bits, 1 to 64. *)
Definition AddressSpaceBits : Type := Z.

Module AddressSpaceBits.

Definition new (bits : Z) : option AddressSpaceBits :=
  if (bits <=? 255) && (1 <=? bits) && (bits <=? 64) then Some bits else None.

Definition written (offsets : OffsetWidth) : AddressSpaceBits := OffsetWidth.get offsets * 8 - 1.

Definition offset_width (self : AddressSpaceBits) : Z := div_ceil self 8.

End AddressSpaceBits.

Record FreeSection : Type := mkSection {
  section_addr : Z;
  section_size : Z;
}.

#[global] Instance FreeSection_eq_dec : EqDecision FreeSection.
Proof. solve_decision. Defined.

Definition enc_size (value : Z) : Z := Z.max (div_ceil (64 - leading_zeros value) 8) 1.

(** The loop or-s each byte in at its place; a section field has at most eight
    bytes. *)
Definition read_uint_le (bytes : list Z) : Z := JenkinsLookup3.or_bytes 0 0 bytes.

(** [buf.extend_from_slice(&value.to_le_bytes()[..width])] *)
Definition push_uint_le (buf : list Z) (value width : Z) : outcome (list Z) :=
  low ← slice (le_bytes 8 value) 0 width; Ret (buf ++ low)%list.

Definition section_list_prefix_len (offsets : OffsetWidth) : Z := 4 + 1 + OffsetWidth.get offsets.

Definition header_len (widths : FormatWidths) : Z :=
  let os := OffsetWidth.get (offsets widths) in
  let ls := LengthWidth.get (lengths widths) in
  4 + 1 + 1 + 4 * ls + 2 * 4 + ls + os + ls + ls + CHECKSUM_LEN.

Definition free_space_manager_header_len (widths : FormatWidths) : Z := header_len widths.

Definition written_max_section_size (w : LengthWidth) : Z :=
  match w with
  | LengthTwo => length_width_max LengthTwo - 2
  | LengthFour => length_width_max LengthFour - 2
  | LengthEight => FILE_FSM_MAX_SECTION_SIZE
  end.

Record SectionFields : Type := mkSectionFields {
  sf_count : Z;
  sf_size : Z;
  sf_offset : Z;
}.

Module SectionFields.

Definition written (widths : FormatWidths) (sections : Z) : SectionFields :=
  mkSectionFields (enc_size sections) (enc_size (written_max_section_size (lengths widths)))
    (AddressSpaceBits.offset_width (AddressSpaceBits.written (offsets widths))).

Definition set_len (self : SectionFields) : Z := sf_count self + sf_size self.

Definition section_len (self : SectionFields) : Z := sf_offset self + SECTION_CLASS_LEN.

Definition max_sections (self : SectionFields) (offsets : OffsetWidth) (list_len : Z) : Z :=
  let fixed := section_list_prefix_len offsets + sf_count self + sf_size self + CHECKSUM_LEN in
  match checked_sub list_len fixed with
  | Some payload => payload / (sf_offset self + SECTION_CLASS_LEN)
  | None => 0
  end.

Section Visit.
Context {S : Type} (visit : S → FreeSection → S).

(** The field of [width] bytes at [pos], or the error that names it. *)
Definition field (body : list Z) (pos width : Z) (field_name : string) : result Z FormatError :=
  match get_range body pos (pos + width) with
  | Some bytes => Ok (read_uint_le bytes)
  | None =>
    Err (InvalidFreeSpaceManager
           ("the " +:+ field_name +:+ " at byte " +:+ pretty pos
            +:+ " of the section list runs into its checksum at byte " +:+ pretty (zlen body)))
  end.

(** The sections of one set: [count] are left. *)
Fixpoint visit_set (fuel : nat) (self : SectionFields) (body : list Z) (total size count pos emitted : Z)
    (state : S) : exec (Z * Z * S) :=
  match fuel with
  | O => Panic
  | Datatypes.S fuel =>
    if count =? 0 then ok (pos, emitted, state)
    else if emitted =? total then
      fail (InvalidFreeSpaceManager
              ("the sets hold more sections than the header's count of " +:+ pretty total))
    else
      try_ (field body pos (sf_offset self) "offset of a section") (λ addr,
      try_ (field body (pos + sf_offset self) SECTION_CLASS_LEN "class of a section") (λ class,
      if FILE_FSM_NUM_CLASSES <=? class then
        fail (InvalidFreeSpaceManager
                ("the class of the section at byte " +:+ pretty pos +:+ " of the section list is "
                 +:+ pretty class +:+ ", not one of the " +:+ pretty FILE_FSM_NUM_CLASSES
                 +:+ " classes of the file client"))
      else
        visit_set fuel self body total size (count - 1)
          (pos + (sf_offset self + SECTION_CLASS_LEN)) (emitted + 1)
          (visit state (mkSection addr size))))
  end.

(** The sets until [total] sections are emitted.  A set emits at most the sections
    that are missing before it is refused. *)
Fixpoint visit_sets (fuel : nat) (self : SectionFields) (body : list Z) (total pos emitted : Z)
    (state : S) : exec S :=
  if emitted <? total then
    match fuel with
    | O => Panic
    | Datatypes.S fuel =>
      try_ (field body pos (sf_count self) "section count of a set") (λ count,
      if count =? 0 then
        fail (InvalidFreeSpaceManager
                ("the set at byte " +:+ pretty pos +:+ " of the section list holds no sections"))
      else
        try_ (field body (pos + sf_count self) (sf_size self) "section size of a set") (λ size,
        if size =? 0 then
          fail (InvalidFreeSpaceManager
                  ("the set at byte " +:+ pretty pos +:+ " of the section list holds sections of 0 bytes"))
        else
          '(pos, emitted, state) ←?
            visit_set (Z.to_nat (total - emitted) + 2) self body total size count
              (pos + (sf_count self + sf_size self)) emitted state;
          visit_sets fuel self body total pos emitted state))
    end
  else ok state.

End Visit.

Section Encode.
Context `{B : Build}.

(** The sections of one set. *)
Fixpoint encode_set (offsets : OffsetWidth) (addresses : list Z) (class_id : Z) (fsse : list Z)
    : exec (list Z) :=
  match addresses with
  | [] => ok fsse
  | addr :: addresses =>
    fsse ←? try_write_offset fsse addr offsets;
    encode_set offsets addresses class_id (fsse ++ [class_id])%list
  end.

Fixpoint encode_sets (self : SectionFields) (offsets : OffsetWidth) (sets : list (Z * list Z))
    (class_id : Z) (fsse : list Z) : exec (list Z) :=
  match sets with
  | [] => ok fsse
  | (size, addresses) :: sets =>
    fsse ← push_uint_le fsse (zlen addresses) (sf_count self);
    fsse ← push_uint_le fsse size (sf_size self);
    fsse ←? encode_set offsets addresses class_id fsse;
    encode_sets self offsets sets class_id fsse
  end.

Definition encode_list (self : SectionFields) (offsets : OffsetWidth) (fshd_addr : Z)
    (sets : list (Z * list Z)) (class_id : Z) : exec (list Z) :=
  let fsse := (FSSE_SIGNATURE ++ [FSSE_VERSION])%list in
  fsse ←? try_write_offset fsse fshd_addr offsets;
  fsse ←? encode_sets self offsets sets class_id fsse;
  checksum ← jenkins_lookup3 fsse;
  ok (fsse ++ le_bytes 4 checksum)%list.

End Encode.
End SectionFields.

(** [sets.entry(size).or_default().push(addr)] on the map as the list of its entries
    in key order. *)
Fixpoint push_section (sets : list (Z * list Z)) (section : FreeSection) : list (Z * list Z) :=
  match sets with
  | [] => [(section_size section, [section_addr section])]
  | (size, addresses) :: rest =>
    if section_size section <? size then (section_size section, [section_addr section]) :: sets
    else if section_size section =? size then
      (size, addresses ++ [section_addr section])%list :: rest
    else (size, addresses) :: push_section rest section
  end.

Definition size_sets (sections : list FreeSection) : list (Z * list Z) :=
  (λ '(size, addresses), (size, merge_sort Z.le addresses)) <$> foldl push_section [] sections.

(** [collect::<BTreeSet<u64>>().len()] *)
Definition distinct (sizes : list Z) : Z := zlen (remove_dups sizes).

Definition section_list_len (widths : FormatWidths) (sets sections : Z) : Z :=
  let fields := SectionFields.written widths sections in
  section_list_prefix_len (offsets widths) + sets * SectionFields.set_len fields
  + sections * SectionFields.section_len fields + CHECKSUM_LEN.

Definition free_space_manager_len (widths : FormatWidths) (sections : list FreeSection) : Z :=
  match sections with
  | [] => 0
  | _ =>
    free_space_manager_header_len widths
    + section_list_len widths (distinct (section_size <$> sections)) (zlen sections)
  end.

Definition section_info_len (widths : FormatWidths) (section_sizes : list Z) : Z :=
  section_list_len widths (distinct section_sizes) (zlen section_sizes).

Record SectionInfoCounts : Type := mkCounts {
  counts_sections : Z;
  counts_size_groups : Z;
}.

Module SectionInfoCounts.

Definition new (sections size_groups : Z) : result SectionInfoCounts FormatError :=
  if negb (Bool.eqb (sections =? 0) (size_groups =? 0)) || (sections <? size_groups)
  then Err (InvalidFreeSpaceSectionCounts sections size_groups)
  else Ok (mkCounts sections size_groups).

Definition encoded_len (self : SectionInfoCounts) (widths : FormatWidths) : result Z FormatError :=
  let sections := counts_sections self in
  let fields := SectionFields.written widths sections in
  let fixed := section_list_prefix_len (offsets widths) + CHECKSUM_LEN in
  ok_or
    (sets ← checked_mul (counts_size_groups self) (SectionFields.set_len fields);
     payload ← (records ← checked_mul sections (SectionFields.section_len fields);
                checked_add sets records);
     checked_add fixed payload)
    (OffsetOverflow fixed sections).

Definition count_width (self : SectionInfoCounts) : Z := enc_size (counts_sections self).

End SectionInfoCounts.

Definition section_info_capacity (widths : FormatWidths) (max_sections : Z) : result Z FormatError :=
  result_bind (SectionInfoCounts.new max_sections max_sections)
    (λ counts, SectionInfoCounts.encoded_len counts widths).

(** ** Headers *)

Record FreeSpaceManagerHeader : Type := mkHeader {
  fsm_total_space : Z;
  fsm_total_sections : Z;
  fsm_addr_space_bits : AddressSpaceBits;
  fsm_max_section_size : Z;
  fsm_section_list_addr : Z;
  fsm_section_list_used : Z;
  fsm_section_list_allocated : Z;
}.

Record FreeSpaceManagerHeaderFrame : Type := mkFrame {
  frame_client_id : Z;
  frame_total_space : Z;
  frame_total_sections : Z;
  frame_serialized_sections : Z;
  frame_unserialized_sections : Z;
  frame_section_classes : Z;
  frame_shrink_percent : Z;
  frame_expand_percent : Z;
  frame_addr_space_bits : AddressSpaceBits;
  frame_max_section_size : Z;
  frame_section_list_addr : DecodedStoredAddress;
  frame_section_list_used : Z;
  frame_section_list_allocated : Z;
  frame_widths : FormatWidths;
}.

Module FreeSpaceManagerHeader.

Definition section_size_width (self : FreeSpaceManagerHeader) (w : LengthWidth) (offset : Z) : Z :=
  if negb (match w with LengthEight => true | _ => false end)
     && (length_width_max w - 1 <=? fsm_max_section_size self)
  then offset
  else enc_size (fsm_max_section_size self).

Definition section_fields (self : FreeSpaceManagerHeader) (w : LengthWidth) : SectionFields :=
  let offset := AddressSpaceBits.offset_width (fsm_addr_space_bits self) in
  mkSectionFields (enc_size (fsm_total_sections self)) (section_size_width self w offset) offset.

Section Encode.
Context `{B : Build}.

Definition encode (self : FreeSpaceManagerHeader) (widths : FormatWidths) : exec (list Z) :=
  let fshd := (FSHD_SIGNATURE ++ [FSHD_VERSION] ++ [FILE_FSM_CLIENT_ID])%list in
  fshd ←? try_write_length fshd (fsm_total_space self) (lengths widths);
  fshd ←? try_write_length fshd (fsm_total_sections self) (lengths widths);
  fshd ←? try_write_length fshd (fsm_total_sections self) (lengths widths);
  fshd ←? try_write_length fshd 0 (lengths widths);
  let fshd := (fshd ++ le_bytes 2 FILE_FSM_NUM_CLASSES)%list in
  let fshd := (fshd ++ le_bytes 2 FILE_FSM_SHRINK_PCT)%list in
  let fshd := (fshd ++ le_bytes 2 FILE_FSM_EXPAND_PCT)%list in
  let fshd := (fshd ++ le_bytes 2 (fsm_addr_space_bits self))%list in
  fshd ←? try_write_length fshd (fsm_max_section_size self) (lengths widths);
  fshd ←? try_write_offset fshd (fsm_section_list_addr self) (offsets widths);
  fshd ←? try_write_length fshd (fsm_section_list_used self) (lengths widths);
  fshd ←? try_write_length fshd (fsm_section_list_allocated self) (lengths widths);
  checksum ← jenkins_lookup3 fshd;
  ok (fshd ++ le_bytes 4 checksum)%list.

End Encode.
End FreeSpaceManagerHeader.

Definition signature_error (block : string) (signature expected : list Z) : FormatError :=
  InvalidFreeSpaceManager
    ("the " +:+ block +:+ " signature is b" +:+ quote +:+ escape_ascii signature +:+ quote
     +:+ ", not b" +:+ quote +:+ escape_ascii expected +:+ quote).

Definition used_error (used allocated : Z) : FormatError :=
  InvalidFreeSpaceManager
    ("the section list uses " +:+ pretty used +:+ " bytes, more than the " +:+ pretty allocated
     +:+ " bytes allocated to it").

Module FreeSpaceManagerHeaderFrame.
Section Frame.
Context `{B : Build}.

Definition parse (widths : FormatWidths) (data : list Z) : exec FreeSpaceManagerHeaderFrame :=
  match get_range data 0 (header_len widths) with
  | None => fail (UnexpectedEof (header_len widths) (zlen data))
  | Some block =>
    let fields := Fields.new block 0 in
    '(signature, fields) ←? Fields.array 4 fields;
    _ ←? guard_ (bool_decide (signature = FSHD_SIGNATURE))
           (signature_error "header" signature FSHD_SIGNATURE);
    _ ←? verify_trailing block;
    '(version, fields) ←? Fields.u8 fields;
    _ ←? guard_ (version =? FSHD_VERSION) (UnsupportedVersion version);
    '(client_id, fields) ←? Fields.u8 fields;
    '(total_space, fields) ←? Fields.length (lengths widths) fields;
    '(total_sections, fields) ←? Fields.length (lengths widths) fields;
    '(serialized_sections, fields) ←? Fields.length (lengths widths) fields;
    '(unserialized_sections, fields) ←? Fields.length (lengths widths) fields;
    '(section_classes, fields) ←? Fields.u16 fields;
    '(shrink_percent, fields) ←? Fields.u16 fields;
    '(expand_percent, fields) ←? Fields.u16 fields;
    '(bits, fields) ←? Fields.u16 fields;
    try_ (ok_or (AddressSpaceBits.new bits)
            (InvalidFreeSpaceManager
               ("an address space of " +:+ pretty bits +:+ " bits is not 1 to 64 bits wide")))
      (λ addr_space_bits,
    '(max_section_size, fields) ←? Fields.length (lengths widths) fields;
    section_list_addr ←? decode_stored_address (offsets widths) block (Fields.pos fields);
    '(_, fields) ←? Fields.address (offsets widths) fields;
    '(section_list_used, fields) ←? Fields.length (lengths widths) fields;
    '(section_list_allocated, fields) ←? Fields.length (lengths widths) fields;
    if section_list_allocated <? section_list_used then
      fail (used_error section_list_used section_list_allocated)
    else
      ok (mkFrame client_id total_space total_sections serialized_sections unserialized_sections
            section_classes shrink_percent expand_percent addr_space_bits max_section_size
            section_list_addr section_list_used section_list_allocated widths))
  end.

Definition file_header (self : FreeSpaceManagerHeaderFrame) : result FreeSpaceManagerHeader FormatError :=
  let widths := frame_widths self in
  let client_id := frame_client_id self in
  let total_sections := frame_total_sections self in
  let total_space := frame_total_space self in
  let used := frame_section_list_used self in
  if negb (client_id =? FILE_FSM_CLIENT_ID) then
    Err (InvalidFreeSpaceManager
           ("the client ID is " +:+ pretty client_id +:+ ", not " +:+ pretty FILE_FSM_CLIENT_ID
            +:+ ", the ID of the file client"))
  else if negb ((frame_serialized_sections self =? total_sections)
                && (frame_unserialized_sections self =? 0)) then
    Err (InvalidFreeSpaceManager
           ("the header's section count is " +:+ pretty total_sections
            +:+ ", its serialized section count " +:+ pretty (frame_serialized_sections self)
            +:+ " and its unserialized section count " +:+ pretty (frame_unserialized_sections self)
            +:+ ", and the file client serializes every section"))
  else if FILE_FSM_NUM_CLASSES <? frame_section_classes self then
    Err (InvalidFreeSpaceManager
           ("the header registers " +:+ pretty (frame_section_classes self)
            +:+ " section classes, more than the " +:+ pretty FILE_FSM_NUM_CLASSES
            +:+ " of the file client"))
  else
    let header :=
      mkHeader total_space total_sections (frame_addr_space_bits self)
        (frame_max_section_size self)
        (match frame_section_list_addr self with
         | Defined addr => addr
         | Undefined => StoredAddress.undefined (offsets widths)
         end) used (frame_section_list_allocated self) in
    if total_sections =? 0 then
      if negb (total_space =? 0) then
        Err (InvalidFreeSpaceManager
               ("the empty manager tracks " +:+ pretty total_space +:+ " bytes"))
      else Ok header
    else if bool_decide (frame_section_list_addr self = Undefined) then
      Err (InvalidFreeSpaceManager
             ("the header's section count is " +:+ pretty total_sections
              +:+ ", and it stores no section list"))
    else
      let max_sections :=
        SectionFields.max_sections (FreeSpaceManagerHeader.section_fields header (lengths widths))
          (offsets widths) used in
      if max_sections <? total_sections then
        Err (InvalidFreeSpaceManager
               ("the header's section count is " +:+ pretty total_sections
                +:+ ", and a section list of " +:+ pretty used +:+ " bytes holds at most "
                +:+ pretty max_sections))
      else Ok header.

End Frame.
End FreeSpaceManagerHeaderFrame.

Section Parse.
Context `{B : Build}.

(** [FreeSpaceManagerHeader::parse] *)
Definition parse_header (widths : FormatWidths) (data : list Z) : exec FreeSpaceManagerHeader :=
  frame ←? FreeSpaceManagerHeaderFrame.parse widths data;
  Ret (FreeSpaceManagerHeaderFrame.file_header frame).

(** ** Section lists *)

Definition parse_section_list_prefix (offsets : OffsetWidth) (list : list Z) (header_addr : Z)
    : exec unit :=
  let prefix_len := section_list_prefix_len offsets in
  if zlen list <? prefix_len + CHECKSUM_LEN then
    fail (UnexpectedEof (prefix_len + CHECKSUM_LEN) (zlen list))
  else
    let fields := Fields.new list 0 in
    '(signature, fields) ←? Fields.array 4 fields;
    _ ←? guard_ (bool_decide (signature = FSSE_SIGNATURE))
           (signature_error "section list" signature FSSE_SIGNATURE);
    _ ←? verify_trailing list;
    '(version, fields) ←? Fields.u8 fields;
    _ ←? guard_ (version =? FSSE_VERSION) (UnsupportedVersion version);
    decoded ←? decode_stored_address offsets list (Fields.pos fields);
    let owner_addr :=
      match decoded with Defined addr => addr | Undefined => StoredAddress.undefined offsets end in
    if negb (owner_addr =? header_addr) then
      fail (InvalidFreeSpaceManager
              ("the section list belongs to the header at " +:+ pretty owner_addr
               +:+ ", not to the header at " +:+ pretty header_addr))
    else ok tt.

End Parse.

Record SectionInfo : Type := mkInfo {
  info_body : list Z;
  info_fields : SectionFields;
  info_start : Z;
  info_total : Z;
  info_space : Z;
}.

Module SectionInfo.
Section Info.
Context `{B : Build}.

Definition parse (widths : FormatWidths) (data : list Z) (header_addr : Z)
    (header : FreeSpaceManagerHeader) : exec SectionInfo :=
  try_ (to_usize (fsm_section_list_used header)) (λ used,
  match get_range data 0 used with
  | None => fail (UnexpectedEof used (zlen data))
  | Some list =>
    let start := section_list_prefix_len (offsets widths) in
    _ ←? parse_section_list_prefix (offsets widths) list header_addr;
    body ← slice list 0 (zlen list - CHECKSUM_LEN);
    try_ (to_usize (fsm_total_sections header)) (λ total,
    ok (mkInfo body (FreeSpaceManagerHeader.section_fields header (lengths widths)) start total
          (fsm_total_space header)))
  end).

(** The callback folds each section into a state that starts as [state]; the sizes
    are summed in a [u128]. *)
Definition visit {S} (self : SectionInfo) (visit : S → FreeSection → S) (state : S) : exec S :=
  '(space, state) ←?
    SectionFields.visit_sets (λ '(space, state) section, (space + section_size section, visit state section))
      (Datatypes.S (Z.to_nat (info_total self))) (info_fields self) (info_body self) (info_total self)
      (info_start self) 0 (0, state);
  if negb (space =? info_space self) then
    fail (InvalidFreeSpaceManager
            ("the sections sum to " +:+ pretty space +:+ " bytes, not the header's total of "
             +:+ pretty (info_space self)))
  else ok state.

Definition collect (self : SectionInfo) : exec (list FreeSection) :=
  visit self (λ sections section, sections ++ [section])%list [].

End Info.
End SectionInfo.

Section Whole.
Context `{B : Build}.

Definition parse_section_info (widths : FormatWidths) (data : list Z) (header_addr : Z)
    (header : FreeSpaceManagerHeader) : exec (list FreeSection) :=
  info ←? SectionInfo.parse widths data header_addr header;
  SectionInfo.collect info.

Definition visit_section_info {S} (widths : FormatWidths) (data : list Z) (header_addr : Z)
    (header : FreeSpaceManagerHeader) (visit : S → FreeSection → S) (state : S) : exec S :=
  info ←? SectionInfo.parse widths data header_addr header;
  SectionInfo.visit info visit state.

(** [try_fold] with a checked addition. *)
Fixpoint total_size (total : Z) (sections : list FreeSection) : option Z :=
  match sections with
  | [] => Some total
  | section :: sections => t ← checked_add total (section_size section); total_size t sections
  end.

(** ** Serialization *)

Definition serialize_free_space_manager_with_allocation (widths : FormatWidths)
    (sections : list FreeSection) (fshd_addr fsse_addr class_id : Z)
    (section_list_allocated : option Z) : exec (list Z * list Z) :=
  let max_section_size := written_max_section_size (lengths widths) in
  let limit := Z.shiftl 1 (Z.log2 max_section_size) in
  match List.find (λ s, limit <=? section_size s) sections with
  | Some section =>
    fail (InvalidFreeSpaceManager
            ("a free section of " +:+ pretty (section_size section) +:+ " bytes is not below the "
             +:+ pretty limit +:+ "-byte limit of a manager at "
             +:+ pretty (LengthWidth.get (lengths widths)) +:+ "-byte lengths"))
  | None =>
    fsse ←? SectionFields.encode_list (SectionFields.written widths (zlen sections)) (offsets widths)
              fshd_addr (size_sets sections) class_id;
    let section_list_used := zlen fsse in
    let section_list_allocated := default section_list_used section_list_allocated in
    if section_list_allocated <? section_list_used then
      fail (used_error section_list_used section_list_allocated)
    else if negb (length_width_holds (lengths widths) section_list_allocated) then
      fail (LengthTooLarge section_list_allocated (LengthWidth.get (lengths widths)))
    else
      fsse ←?
        (if section_list_used <? section_list_allocated then
           let fsse := take (length fsse - 4) fsse in
           try_ (to_usize section_list_allocated) (λ allocated,
           let fsse := (fsse ++ replicate (Z.to_nat (allocated - CHECKSUM_LEN - zlen fsse)) 0)%list in
           checksum ← jenkins_lookup3 fsse;
           ok (fsse ++ le_bytes 4 checksum)%list)
         else ok fsse);
      try_ (ok_or (total_size 0 sections)
              (Internal ("the sizes of " +:+ pretty (zlen sections)
                         +:+ " free sections sum past u64::MAX"))) (λ total_space,
      let header :=
        mkHeader total_space (zlen sections) (AddressSpaceBits.written (offsets widths))
          max_section_size fsse_addr section_list_allocated section_list_allocated in
      fshd ←? FreeSpaceManagerHeader.encode header widths;
      ok (fshd, fsse))
  end.

Definition serialize_free_space_manager (widths : FormatWidths) (sections : list FreeSection)
    (fshd_addr fsse_addr class_id : Z) : exec (list Z * list Z) :=
  serialize_free_space_manager_with_allocation widths sections fshd_addr fsse_addr class_id None.

End Whole.

(** ** References into the file *)

Record FreeSpaceManagerHeaderRef : Type := mkHeaderRef {
  header_range : FileRange;
  header_widths : FormatWidths;
}.

Record FreeSpaceManagerSectionListRef : Type := mkListRef {
  list_range : FileRange;
  list_parse_range : FileRange;
  list_offsets : OffsetWidth;
  list_header_addr : Z;
}.

Module FreeSpaceManagerHeaderRef.
Section Refs.
Context `{B : Build}.

Definition new (widths : FormatWidths) (address : Z) : exec FreeSpaceManagerHeaderRef :=
  range ←? FileRange.new address (free_space_manager_header_len widths);
  ok (mkHeaderRef range widths).

Definition parse (self : FreeSpaceManagerHeaderRef) (region : FileRegion)
    : exec FreeSpaceManagerHeaderFrame :=
  try_ (FileRegion.subregion region (header_range self)) (λ sub,
  FreeSpaceManagerHeaderFrame.parse (header_widths self) (region_bytes sub)).

Definition parse_checked (self : FreeSpaceManagerHeaderRef) (region : FileRegion)
    : exec FreeSpaceManagerHeaderFrame :=
  _ ←? (if feature_checksum then ok tt
        else try_ (FileRegion.subregion region (header_range self)) (λ sub,
             verify_trailing_required (region_bytes sub)));
  parse self region.

End Refs.
End FreeSpaceManagerHeaderRef.

Module FreeSpaceManagerSectionListRef.
Section Refs.
Context `{B : Build}.

(** [FreeSpaceManagerHeaderFrame::section_list_ref] *)
Definition section_list_ref (self : FreeSpaceManagerHeaderFrame) (header_addr address : Z)
    : exec FreeSpaceManagerSectionListRef :=
  let os := offsets (frame_widths self) in
  let minimum := section_list_prefix_len os + CHECKSUM_LEN in
  if bool_decide (frame_section_list_addr self = Undefined) then
    fail (InvalidFreeSpaceManager "the header stores no section list address")
  else if StoredAddress.undefined os <? header_addr then
    fail (AddressTooLarge header_addr (OffsetWidth.get os))
  else if StoredAddress.is_undefined header_addr os then
    fail (InvalidFreeSpaceManager "the section list's expected header address is undefined")
  else if frame_section_list_used self <? minimum then
    fail (InvalidFreeSpaceManager
            ("the section list uses " +:+ pretty (frame_section_list_used self)
             +:+ " bytes, fewer than its " +:+ pretty minimum +:+ "-byte prefix and checksum"))
  else
    range ←? FileRange.new address (frame_section_list_allocated self);
    parse_range ←? FileRange.new address (frame_section_list_used self);
    ok (mkListRef range parse_range os header_addr).

(** The record bytes, [FreeSpaceManagerSectionListView::records]. *)
Definition parse (self : FreeSpaceManagerSectionListRef) (region : FileRegion) : exec (list Z) :=
  try_ (FileRegion.subregion region (list_parse_range self)) (λ sub,
  let bytes := region_bytes sub in
  _ ←? parse_section_list_prefix (list_offsets self) bytes (list_header_addr self);
  Ret (ok_or (get_range bytes (section_list_prefix_len (list_offsets self)) (zlen bytes - CHECKSUM_LEN))
         (Internal "a parsed section list has no record range"))).

Definition parse_checked (self : FreeSpaceManagerSectionListRef) (region : FileRegion)
    : exec (list Z) :=
  _ ←? (if feature_checksum then ok tt
        else try_ (FileRegion.subregion region (list_parse_range self)) (λ sub,
             verify_trailing_required (region_bytes sub)));
  parse self region.

End Refs.
End FreeSpaceManagerSectionListRef.

(** ** A serialized manager *)

Module Sample.
#[local] Existing Instance build64.

Example serialized_manager :
  let widths := mkWidths OffsetEight LengthEight in
  let sections := [mkSection 4096 64; mkSection 256 32; mkSection 1024 64] in
  (' (header, list) ←? serialize_free_space_manager widths sections 512 594 SECTION_CLASS_SIMPLE;
   h ←? parse_header widths header;
   parse_section_info widths list 512 h)
  = ok [mkSection 256 32; mkSection 1024 64; mkSection 4096 64].
Proof. vm_compute. done. Qed.

End Sample.
