(* ===== verification/FreeSpaceManagerFacts.v ===== *)
(** * Facts about free-space managers on disk

    The bytes the serializer produces, what the parser makes of them, and the
    behaviour of the parser on arbitrary bytes. *)

From stdpp Require Import strings pretty sets.
From S2P Require Import Prelude Addresses Words ByteFields ByteFieldFacts Checksums FileRegions.
From S2P Require Import FreeSpaceManagers.

Local Open Scope Z_scope.

(** ** Sections grouped by size *)

Definition sections_of (sets : list (Z * list Z)) : list FreeSection :=
  sets ≫= λ '(size, addresses), (λ a, mkSection a size) <$> addresses.

(** The sets of a manager: sizes increase strictly and no set is empty. *)
Definition sets_ok (sets : list (Z * list Z)) : Prop :=
  StronglySorted Z.lt sets.*1 ∧ Forall (λ s, s.2 ≠ []) sets.

Lemma push_section_sizes sets section x :
  x ∈ (push_section sets section).*1 ↔ x = section_size section ∨ x ∈ sets.*1.
Proof.
  induction sets as [|[z l] sets IH]; simpl; [set_solver|].
  destruct (_ <? z) eqn:E1; [simpl; set_solver|].
  destruct (_ =? z) eqn:E2; simpl; rewrite ?elem_of_cons; [|rewrite IH; tauto].
  apply Z.eqb_eq in E2. naive_solver.
Qed.

Lemma push_section_ok sets section : sets_ok sets → sets_ok (push_section sets section).
Proof.
  unfold sets_ok. induction sets as [|[z l] sets IH]; simpl.
  { intros _. split; repeat constructor. done. }
  rewrite StronglySorted_cons_iff, Forall_cons. intros [[Hz Hs] [Hl Hf]].
  destruct (_ <? z) eqn:E1; simpl.
  { split; [|by repeat constructor]. repeat (apply StronglySorted_cons_iff; split); try done.
    constructor; [lia|]. eapply Forall_impl; [exact Hz|]. simpl. lia. }
  destruct (_ =? z) eqn:E2; simpl.
  { split; [by apply StronglySorted_cons_iff|]. constructor; [|done]. simpl. by destruct l. }
  destruct IH as [IH1 IH2]; [done|].
  split; [apply StronglySorted_cons_iff; split; [|done]|by constructor].
  apply Forall_forall. intros x [->|Hx]%push_section_sizes; [lia|].
  by eapply Forall_forall in Hz.
Qed.

Lemma push_section_perm sets section :
  sections_of (push_section sets section) ≡ₚ section :: sections_of sets.
Proof.
  unfold sections_of. induction sets as [|[z l] sets IH]; simpl.
  - by destruct section.
  - destruct (_ <? z) eqn:E1; [by destruct section|].
    destruct (_ =? z) eqn:E2; simpl.
    + apply Z.eqb_eq in E2. rewrite fmap_app. simpl. rewrite <- app_assoc. simpl.
      rewrite <- Permutation_middle. subst. by destruct section.
    + rewrite IH. by rewrite <- Permutation_middle.
Qed.

Lemma sort_sets_perm (sets : list (Z * list Z)) :
  sections_of ((λ '(size, addresses), (size, merge_sort Z.le addresses)) <$> sets)
  ≡ₚ sections_of sets.
Proof.
  unfold sections_of. induction sets as [|[z l] sets IH]; simpl; [done|].
  rewrite IH. by rewrite merge_sort_Permutation.
Qed.

Lemma foldl_push sets sections :
  sets_ok sets →
  sets_ok (foldl push_section sets sections) ∧
  sections_of (foldl push_section sets sections) ≡ₚ sections ++ sections_of sets.
Proof.
  revert sets. induction sections as [|s sections IH]; intros sets Hs; simpl; [done|].
  destruct (IH (push_section sets s)) as [H1 H2]; [by apply push_section_ok|].
  split; [done|]. rewrite H2, push_section_perm. by rewrite Permutation_middle.
Qed.

(** The sections of the sets are the sections, by size and then by address. *)
Lemma size_sets_spec sections :
  let sets := size_sets sections in
  sets_ok sets ∧ Forall (λ s, StronglySorted Z.le s.2) sets ∧ sections_of sets ≡ₚ sections.
Proof.
  simpl. unfold size_sets.
  destruct (foldl_push [] sections) as [[H1 H2] H3]; [by repeat constructor|].
  unfold sets_ok. split_and!.
  - rewrite <- list_fmap_compose. erewrite list_fmap_ext; [exact H1|]. by intros i [? ?].
  - apply Forall_fmap. eapply Forall_impl; [exact H2|]. intros [z l] Hl; simpl in *.
    intros H0. apply Hl. apply Permutation_nil_r. rewrite <- H0. by rewrite merge_sort_Permutation.
  - apply Forall_fmap. apply Forall_true. intros [z l]. simpl.
    apply Sorted_StronglySorted; [intros ???; lia|]. apply Sorted_merge_sort; apply _.
  - rewrite sort_sets_perm, H3. simpl. by rewrite app_nil_r.
Qed.

Definition section_lt (a b : FreeSection) : Prop :=
  section_size a < section_size b ∨
  (section_size a = section_size b ∧ section_addr a ≤ section_addr b).

Lemma sections_of_cons z l sets :
  sections_of ((z, l) :: sets) = ((λ a, mkSection a z) <$> l) ++ sections_of sets.
Proof. done. Qed.

Lemma sections_of_sorted sets :
  StronglySorted Z.lt sets.*1 → Forall (λ s, StronglySorted Z.le s.2) sets →
  StronglySorted section_lt (sections_of sets).
Proof.
  induction sets as [|[z l] sets IH]; intros Hs Hf; [constructor|].
  simpl in Hs. apply StronglySorted_cons_iff in Hs as [Hz Hs]. inversion_clear Hf as [|? ? Hl Hf'].
  rewrite sections_of_cons. apply StronglySorted_app_iff. split_and!.
  - simpl in Hl. clear -Hl. induction Hl as [|a l Hl IH Ha]; simpl; constructor; [done|].
    apply Forall_fmap. eapply Forall_impl; [exact Ha|]. intros b Hab. right. simpl. done.
  - by apply IH.
  - intros x y (a & -> & _)%list_elem_of_fmap Hy. left. simpl.
    unfold sections_of in Hy. apply list_elem_of_bind in Hy as ([z' l'] & Hy & Hin).
    apply list_elem_of_fmap in Hy as (b & -> & _). simpl.
    eapply Forall_forall in Hz; [exact Hz|]. apply list_elem_of_fmap. by exists (z', l').
Qed.

(** One set per distinct size. *)
Lemma size_sets_distinct sections :
  zlen (size_sets sections) = distinct (section_size <$> sections).
Proof.
  destruct (size_sets_spec sections) as ([Hs Hne] & _ & Hp). unfold distinct, zlen. f_equal.
  rewrite <- (length_fmap fst). apply Permutation_length, NoDup_Permutation.
  - clear -Hs. induction Hs as [|x l Hs IH Hx]; constructor; [|done].
    intros Hin. eapply Forall_forall in Hx; [|exact Hin]. lia.
  - apply NoDup_remove_dups.
  - assert (Hm : ∀ s, s ∈ sections ↔ s ∈ sections_of (size_sets sections)).
    { intros s. by rewrite Hp. }
    intros x. rewrite elem_of_remove_dups, !list_elem_of_fmap. setoid_rewrite Hm.
    unfold sections_of. setoid_rewrite list_elem_of_bind. split.
    + intros ([z l] & -> & Hin). eapply Forall_forall in Hne; [|exact Hin]. simpl in *.
      destruct l as [|a l]; [done|]. exists (mkSection a z). split; [done|].
      exists (z, a :: l). split; [|done]. apply list_elem_of_fmap. exists a. split; [done|left].
    + intros (s & -> & [z l] & Hs' & Hin). apply list_elem_of_fmap in Hs' as (a & -> & _).
      by exists (z, l).
Qed.

(** ** The encoded sets *)

Lemma Forall_concat_2 {A} (P : A → Prop) (ls : list (list A)) :
  Forall (Forall P) ls → Forall P (concat ls).
Proof. induction 1; simpl; [done|]. by apply Forall_app_2. Qed.

Definition record_bytes (w : OffsetWidth) (class_id a : Z) : list Z := obytes w a ++ [class_id].

Definition set_bytes (fields : SectionFields) (w : OffsetWidth) (class_id : Z) (set : Z * list Z)
    : list Z :=
  le_bytes (Z.to_nat (sf_count fields)) (zlen set.2)
  ++ le_bytes (Z.to_nat (sf_size fields)) set.1
  ++ concat (record_bytes w class_id <$> set.2).

Definition fields_ok (fields : SectionFields) : Prop :=
  1 ≤ sf_count fields ≤ 8 ∧ 1 ≤ sf_size fields ≤ 8 ∧ 1 ≤ sf_offset fields ≤ 8.

Lemma written_max_u64 w : u64 (written_max_section_size w).
Proof. destruct w; unfold u64, U64_MAX; vm_compute; split; discriminate. Qed.

Lemma written_offset w : AddressSpaceBits.offset_width (AddressSpaceBits.written w) = OffsetWidth.get w.
Proof. by destruct w. Qed.

Lemma written_ok widths n :
  u64 n →
  fields_ok (SectionFields.written widths n) ∧
  sf_offset (SectionFields.written widths n) = OffsetWidth.get (offsets widths) ∧
  fits (sf_count (SectionFields.written widths n)) n ∧
  fits (sf_size (SectionFields.written widths n)) (written_max_section_size (lengths widths)).
Proof.
  intros Hn. unfold SectionFields.written, fields_ok. cbn [sf_count sf_size sf_offset].
  rewrite written_offset. change enc_size with encoded_unsigned_width.
  destruct (encoded_width_spec n Hn) as (H1 & H2 & _).
  destruct (encoded_width_spec _ (written_max_u64 (lengths widths))) as (H3 & H4 & _).
  split_and!; try done; try lia; destruct (offsets widths); simpl; lia.
Qed.

Lemma fits_mono n v v' : fits n v → 0 ≤ v' ≤ v → fits n v'.
Proof. unfold fits. lia. Qed.

Lemma push_uint_le_eq buf v w :
  0 ≤ w ≤ 8 → push_uint_le buf v w = Ret (buf ++ le_bytes (Z.to_nat w) v).
Proof.
  intros Hw. unfold push_uint_le, slice.
  rewrite (proj2 (get_range_Some (le_bytes 8 v) 0 w (le_bytes (Z.to_nat w) v))); [done|].
  rewrite zlen_le_bytes. split_and!; [lia..|].
  rewrite drop_0, Z.sub_0_r. rewrite take_le_bytes; [done|lia].
Qed.

Section Encode.
Context `{B : Build}.

Lemma encode_set_inv w addrs class_id buf buf' :
  Forall u64 addrs → SectionFields.encode_set w addrs class_id buf = ok buf' →
  Forall (λ a, fits (OffsetWidth.get w) a ∨ a = U64_MAX) addrs ∧
  buf' = buf ++ concat (record_bytes w class_id <$> addrs).
Proof.
  intros Hu. revert buf. induction Hu as [|a addrs Ha Hu IH]; intros buf; simpl.
  - intros [= <-]. split; [done|by rewrite app_nil_r].
  - intros (b & Hw & Hr)%and_then_ok_inv.
    apply try_write_offset_inv in Hw as [Hf ->]; [|done].
    apply IH in Hr as [Hf' ->]. split; [by constructor|].
    unfold record_bytes. by rewrite <- !app_assoc.
Qed.

Lemma encode_sets_inv fields w sets class_id buf buf' :
  fields_ok fields → Forall (λ s, Forall u64 s.2) sets →
  SectionFields.encode_sets fields w sets class_id buf = ok buf' →
  Forall (λ s, Forall (λ a, fits (OffsetWidth.get w) a ∨ a = U64_MAX) s.2) sets ∧
  buf' = buf ++ concat (set_bytes fields w class_id <$> sets).
Proof.
  intros (Hc & Hz & _) Hu. revert buf. induction Hu as [|[z l] sets Ha Hu IH]; intros buf; simpl.
  - intros [= <-]. split; [done|by rewrite app_nil_r].
  - rewrite !push_uint_le_eq by lia. cbn [mbind outcome_bind].
    rewrite push_uint_le_eq by lia. cbn [mbind outcome_bind].
    intros (b & Hw & Hr)%and_then_ok_inv.
    apply encode_set_inv in Hw as [Hf ->]; [|done].
    apply IH in Hr as [Hf' ->]. split; [by constructor|].
    unfold set_bytes. simpl. by rewrite <- !app_assoc.
Qed.

(** The body of a section list, without its checksum. *)
Definition list_body (fields : SectionFields) (w : OffsetWidth) (fshd_addr class_id : Z)
    (sets : list (Z * list Z)) : list Z :=
  FSSE_SIGNATURE ++ [FSSE_VERSION] ++ obytes w fshd_addr
  ++ concat (set_bytes fields w class_id <$> sets).

Lemma record_bytes_byte w class_id a : byte class_id → Forall byte (record_bytes w class_id a).
Proof. intros Hc. apply Forall_app_2; [apply le_bytes_byte|by apply Forall_singleton]. Qed.

Lemma set_bytes_byte fields w class_id set :
  byte class_id → Forall byte (set_bytes fields w class_id set).
Proof.
  intros Hc. repeat apply Forall_app_2; [apply le_bytes_byte..|].
  apply Forall_concat_2, Forall_fmap, Forall_true. intros a. by apply record_bytes_byte.
Qed.

Lemma list_body_byte fields w a class_id sets :
  byte class_id → Forall byte (list_body fields w a class_id sets).
Proof.
  intros Hc. unfold list_body.
  repeat apply Forall_app_2; [by repeat constructor..|apply le_bytes_byte|].
  apply Forall_concat_2, Forall_fmap, Forall_true. intros set. by apply set_bytes_byte.
Qed.

Lemma encode_list_inv fields w fshd_addr sets class_id buf :
  fields_ok fields → u64 fshd_addr → byte class_id → Forall (λ s, Forall u64 s.2) sets →
  SectionFields.encode_list fields w fshd_addr sets class_id = ok buf →
  (fits (OffsetWidth.get w) fshd_addr ∨ fshd_addr = U64_MAX) ∧
  Forall (λ s, Forall (λ a, fits (OffsetWidth.get w) a ∨ a = U64_MAX) s.2) sets ∧
  let body := list_body fields w fshd_addr class_id sets in
  buf = body ++ le_bytes 4 (lookup3 body).
Proof.
  intros Hok Hu Hc Hs (b & Hw & Hr)%and_then_ok_inv.
  apply try_write_offset_inv in Hw as [Hf ->]; [|done].
  apply and_then_ok_inv in Hr as (b & Hw & Hr).
  apply encode_sets_inv in Hw as [Hf' ->]; [|done..].
  split; [done|]. split; [done|]. simpl.
  rewrite <- !app_assoc in Hr. fold (list_body fields w fshd_addr class_id sets) in Hr.
  rewrite jenkins_lookup3_ret in Hr by by apply list_body_byte.
  by injection Hr as <-.
Qed.

Lemma zlen_concat_fmap {A} (f : A → list Z) (n : Z) (l : list A) :
  Forall (λ x, zlen (f x) = n) l → zlen (concat (f <$> l)) = zlen l * n.
Proof.
  induction 1 as [|x l Hx Hl IH]; [done|].
  change (concat (f <$> x :: l)) with (f x ++ concat (f <$> l)).
  rewrite zlen_app, zlen_cons, IH. lia.
Qed.

Lemma zlen_records w class_id addrs :
  zlen (concat (record_bytes w class_id <$> addrs)) = zlen addrs * (OffsetWidth.get w + 1).
Proof.
  apply zlen_concat_fmap, Forall_true. intros a. unfold record_bytes. autorewrite with zlen.
  rewrite Z2Nat.id by (destruct w; simpl; lia). lia.
Qed.

Lemma zlen_sections_of sets : zlen (sections_of sets) = sum_of (λ s, zlen s.2) sets.
Proof.
  induction sets as [|[z l] sets IH]; [done|].
  rewrite sections_of_cons, zlen_app, IH, sum_of_cons. unfold zlen at 1. rewrite length_fmap. done.
Qed.

Lemma zlen_sets fields w class_id sets :
  fields_ok fields →
  zlen (concat (set_bytes fields w class_id <$> sets)) =
  zlen sets * SectionFields.set_len fields + zlen (sections_of sets) * (OffsetWidth.get w + 1).
Proof.
  intros (Hc & Hz & _). rewrite zlen_sections_of. unfold SectionFields.set_len.
  induction sets as [|[z l] sets IH]; [done|]. rewrite fmap_cons, concat_cons, zlen_app, IH.
  unfold set_bytes. rewrite !zlen_app, zlen_records, !zlen_le_bytes, sum_of_cons, zlen_cons. simpl.
  rewrite !Z2Nat.id by lia. lia.
Qed.

Lemma zlen_list_body fields w a class_id sets :
  fields_ok fields →
  zlen (list_body fields w a class_id sets) =
  section_list_prefix_len w + zlen sets * SectionFields.set_len fields
  + zlen (sections_of sets) * (OffsetWidth.get w + 1).
Proof.
  intros Hok. unfold list_body. rewrite !zlen_app, zlen_sets by done.
  unfold section_list_prefix_len. rewrite zlen_le_bytes, Z2Nat.id by (destruct w; simpl; lia).
  unfold zlen at 1 2. simpl. lia.
Qed.

End Encode.

(** ** Decoding the sets *)

Lemma le_bytes_1 b : byte b → le_bytes 1 b = [b].
Proof. unfold byte. intros Hb. simpl. by rewrite Z.mod_small by lia. Qed.

Lemma read_uint_le_bytes n v : fits (Z.of_nat n) v → read_uint_le (le_bytes n v) = v.
Proof.
  intros Hf. unfold read_uint_le. rewrite or_bytes_le by apply le_bytes_byte.
  by apply le_value_bytes.
Qed.

Lemma field_at body pos n v r name :
  bytes_at body pos (le_bytes (Z.to_nat n) v ++ r) → 0 ≤ n → fits n v →
  SectionFields.field body pos n name = Ok v ∧ bytes_at body (pos + n) r.
Proof.
  intros Hb Hn Hf. apply (bytes_at_app _ _ _ _ n) in Hb as [Hg Hb].
  - unfold SectionFields.field. rewrite Hg. split; [|done].
    rewrite read_uint_le_bytes; [done|]. by rewrite Z2Nat.id.
  - rewrite zlen_le_bytes. lia.
Qed.

Section Visit.
Context {S : Type} (visit : S → FreeSection → S).

Lemma visit_set_spec fuel fields body w total size class_id addrs r pos emitted state :
  sf_offset fields = OffsetWidth.get w → 0 ≤ class_id < 3 →
  Forall (fits (OffsetWidth.get w)) addrs →
  bytes_at body pos (concat (record_bytes w class_id <$> addrs) ++ r) →
  emitted + zlen addrs ≤ total → (length addrs < fuel)%nat →
  ∃ pos', SectionFields.visit_set visit fuel fields body total size (zlen addrs) pos emitted state
          = ok (pos', emitted + zlen addrs,
                foldl visit state ((λ a, mkSection a size) <$> addrs)) ∧
    bytes_at body pos' r.
Proof.
  intros Ho Hc Hf. revert fuel pos emitted state.
  induction Hf as [|a addrs Ha Hf IH]; intros fuel pos emitted state Hb Ht Hfu.
  - destruct fuel as [|fuel]; [simpl in Hfu; lia|]. exists pos. simpl.
    rewrite zlen_nil, Z.add_0_r. done.
  - destruct fuel as [|fuel]; [simpl in Hfu; lia|]. rewrite zlen_cons in *.
    pose proof (zlen_nonneg addrs). simpl in Hb. unfold record_bytes at 1 in Hb.
    rewrite <- !app_assoc in Hb. simpl in Hfu.
    apply (field_at _ _ _ _ _ "offset of a section"%string) in Hb as [Hg Hb];
      [|destruct w; simpl; lia|done].
    rewrite <- Ho in Hg, Hb.
    assert (Hcb : [class_id] = le_bytes (Z.to_nat 1) class_id)
      by (symmetry; apply le_bytes_1; unfold byte; lia).
    rewrite Hcb in Hb.
    apply (field_at _ _ _ _ _ "class of a section"%string) in Hb as [Hg' Hb]; [|lia|unfold fits; lia].
    cbn [SectionFields.visit_set].
    destruct (1 + zlen addrs =? 0) eqn:E0; [lia|]. destruct (emitted =? total) eqn:E1; [lia|].
    rewrite Hg. cbn [try_]. change SECTION_CLASS_LEN with 1. rewrite Hg'. cbn [try_].
    destruct (FILE_FSM_NUM_CLASSES <=? class_id) eqn:E2; [unfold FILE_FSM_NUM_CLASSES in E2; lia|].
    rewrite <- Z.add_assoc in Hb.
    destruct (IH fuel (pos + (sf_offset fields + 1)) (emitted + 1) (visit state (mkSection a size)))
      as (pos' & Hv & Hb'); [done|lia|lia|].
    exists pos'. split; [|done]. replace (1 + zlen addrs - 1) with (zlen addrs) by lia.
    rewrite Hv. simpl. by rewrite Z.add_assoc.
Qed.

(** A set the decoder can read back. *)
Definition set_fits (fields : SectionFields) (w : OffsetWidth) (set : Z * list Z) : Prop :=
  0 < set.1 ∧ fits (sf_size fields) set.1 ∧ set.2 ≠ [] ∧ fits (sf_count fields) (zlen set.2) ∧
  Forall (fits (OffsetWidth.get w)) set.2.

Lemma visit_sets_spec fuel fields body w total class_id sets r pos emitted state :
  fields_ok fields → sf_offset fields = OffsetWidth.get w → 0 ≤ class_id < 3 →
  Forall (set_fits fields w) sets →
  bytes_at body pos (concat (set_bytes fields w class_id <$> sets) ++ r) →
  emitted + zlen (sections_of sets) = total → 0 ≤ emitted → (length sets ≤ fuel)%nat →
  SectionFields.visit_sets visit fuel fields body total pos emitted state
  = ok (foldl visit state (sections_of sets)).
Proof.
  intros Hok Ho Hc Hs. revert fuel pos emitted state.
  induction Hs as [|[z l] sets (Hz & Hzf & Hne & Hcf & Ha) Hs IH];
    intros fuel pos emitted state Hb Ht He Hfu.
  - destruct fuel; simpl; (destruct (emitted <? total) eqn:E; [|done]);
      change (zlen (sections_of [])) with 0 in Ht; lia.
  - simpl in Hz, Hzf, Hne, Hcf, Ha. pose proof Hok as (Hc1 & Hz1 & _).
    rewrite sections_of_cons, zlen_app in Ht. unfold zlen at 1 in Ht. rewrite length_fmap in Ht.
    fold (zlen l) in Ht. pose proof (zlen_nonneg (sections_of sets)).
    assert (Hl : 1 ≤ zlen l) by (destruct l; [done|rewrite zlen_cons; pose proof (zlen_nonneg l); lia]).
    destruct fuel as [|fuel]; [simpl in Hfu; lia|].
    simpl in Hb. unfold set_bytes at 1 in Hb. simpl in Hb. rewrite <- !app_assoc in Hb.
    apply (field_at _ _ _ _ _ "section count of a set"%string) in Hb as [Hg Hb]; [|lia|done].
    apply (field_at _ _ _ _ _ "section size of a set"%string) in Hb as [Hg' Hb]; [|lia|done].
    cbn [SectionFields.visit_sets]. destruct (emitted <? total) eqn:E; [|lia].
    rewrite Hg. cbn [try_]. destruct (zlen l =? 0) eqn:E0; [lia|].
    rewrite Hg'. cbn [try_]. destruct (z =? 0) eqn:E1; [lia|].
    rewrite <- Z.add_assoc in Hb.
    destruct (visit_set_spec (Z.to_nat (total - emitted) + 2) fields body w total z class_id l
      _ (pos + (sf_count fields + sf_size fields)) emitted state Ho Hc Ha Hb) as (pos' & Hv & Hb').
    { lia. } { unfold zlen in *. lia. }
    rewrite Hv. rewrite and_then_ok.
    rewrite IH; [|done|lia|lia|simpl in Hfu; lia].
    by rewrite sections_of_cons, foldl_app.
Qed.

End Visit.

(** ** Headers *)

Section Header.
Context `{B : Build}.
Context (widths : FormatWidths).
Let L := LengthWidth.get (lengths widths).
Let O := OffsetWidth.get (offsets widths).

(** The bytes of a header before its checksum. *)
Definition header_body (h : FreeSpaceManagerHeader) : list Z :=
  FSHD_SIGNATURE ++ [FSHD_VERSION] ++ [FILE_FSM_CLIENT_ID]
  ++ lbytes (lengths widths) (fsm_total_space h) ++ lbytes (lengths widths) (fsm_total_sections h)
  ++ lbytes (lengths widths) (fsm_total_sections h) ++ lbytes (lengths widths) 0
  ++ le_bytes 2 FILE_FSM_NUM_CLASSES ++ le_bytes 2 FILE_FSM_SHRINK_PCT
  ++ le_bytes 2 FILE_FSM_EXPAND_PCT ++ le_bytes 2 (fsm_addr_space_bits h)
  ++ lbytes (lengths widths) (fsm_max_section_size h)
  ++ obytes (offsets widths) (fsm_section_list_addr h)
  ++ lbytes (lengths widths) (fsm_section_list_used h)
  ++ lbytes (lengths widths) (fsm_section_list_allocated h).

Definition header_u64 (h : FreeSpaceManagerHeader) : Prop :=
  u64 (fsm_total_space h) ∧ u64 (fsm_total_sections h) ∧ u64 (fsm_max_section_size h) ∧
  u64 (fsm_section_list_addr h) ∧ u64 (fsm_section_list_used h) ∧ u64 (fsm_section_list_allocated h).

(** The length fields of the header fit the length width. *)
Definition header_fits (h : FreeSpaceManagerHeader) : Prop :=
  fits L (fsm_total_space h) ∧ fits L (fsm_total_sections h) ∧ fits L (fsm_max_section_size h) ∧
  fits L (fsm_section_list_used h) ∧ fits L (fsm_section_list_allocated h).

Lemma lengths_pos : 0 ≤ L.
Proof. unfold L. destruct (lengths widths); simpl; lia. Qed.

Lemma header_body_byte h : Forall byte (header_body h).
Proof.
  unfold header_body.
  repeat apply Forall_app_2; try apply le_bytes_byte; by repeat constructor.
Qed.

Lemma zlen_header_body h : zlen (header_body h) + CHECKSUM_LEN = header_len widths.
Proof.
  unfold header_body, header_len, CHECKSUM_LEN. autorewrite with zlen.
  fold L O. rewrite !Z2Nat.id by (unfold L, O; destruct (lengths widths), (offsets widths); simpl; lia).
  unfold zlen. simpl. lia.
Qed.

Lemma encode_header_inv h buf :
  header_u64 h → FreeSpaceManagerHeader.encode h widths = ok buf →
  header_fits h ∧ (fits O (fsm_section_list_addr h) ∨ fsm_section_list_addr h = U64_MAX) ∧
  buf = header_body h ++ le_bytes 4 (lookup3 (header_body h)).
Proof.
  intros (H1 & H2 & H3 & H4 & H5 & H6) He. unfold FreeSpaceManagerHeader.encode in He.
  repeat (let b := fresh "b" in let Hw := fresh "Hw" in
    apply and_then_ok_inv in He as (b & Hw & He);
    first [apply try_write_length_inv in Hw as [? ->]|apply try_write_offset_inv in Hw as [? ->]];
      [|done || (unfold u64, U64_MAX; lia)]).
  rewrite <- !app_assoc in He. fold (header_body h) in He.
  rewrite jenkins_lookup3_ret in He by apply header_body_byte. injection He as <-.
  by split_and!.
Qed.

(** The frame of a header the file client wrote. *)
Definition frame_of (h : FreeSpaceManagerHeader) (addr : DecodedStoredAddress)
    : FreeSpaceManagerHeaderFrame :=
  mkFrame FILE_FSM_CLIENT_ID (fsm_total_space h) (fsm_total_sections h) (fsm_total_sections h) 0
    FILE_FSM_NUM_CLASSES FILE_FSM_SHRINK_PCT FILE_FSM_EXPAND_PCT (fsm_addr_space_bits h)
    (fsm_max_section_size h) addr (fsm_section_list_used h) (fsm_section_list_allocated h) widths.

Lemma read_guard {T} (b : bool) (e : FormatError) (k : unit → exec T) res :
  b = true → k tt = res → and_then (guard_ b e) k = res.
Proof. by intros ->. Qed.

Lemma frame_parse h a rest :
  header_fits h → address_fits (offsets widths) a →
  fsm_section_list_addr h = stored_bits (offsets widths) a →
  1 ≤ fsm_addr_space_bits h ≤ 64 →
  fsm_section_list_used h ≤ fsm_section_list_allocated h → header_len widths ≤ USIZE_MAX →
  FreeSpaceManagerHeaderFrame.parse widths
    (header_body h ++ le_bytes 4 (lookup3 (header_body h)) ++ rest) = ok (frame_of h a).
Proof.
  intros (H1 & H2 & H3 & H5 & H6) Ha Haddr Hbits Hle Hmax.
  unfold FreeSpaceManagerHeaderFrame.parse.
  rewrite app_assoc. pose proof (get_range_prefix (header_body h ++ le_bytes 4 (lookup3 (header_body h))) rest) as Hg.
  rewrite zlen_app, zlen_le_bytes in Hg. change (Z.of_nat 4) with CHECKSUM_LEN in Hg.
  rewrite zlen_header_body in Hg. rewrite Hg.
  set (block := header_body h ++ le_bytes 4 (lookup3 (header_body h))).
  assert (Hc : cursor (Fields.new block 0) block).
  { apply cursor_new. unfold block. rewrite zlen_app, zlen_le_bytes.
    change (Z.of_nat 4) with CHECKSUM_LEN. by rewrite zlen_header_body. }
  assert (Hv : verify_trailing block = ok tt) by (apply verify_trailing_app, header_body_byte).
  assert (Hdata : fields_data (Fields.new block 0) = block) by done.
  revert Hc Hdata. generalize (Fields.new block 0). intros f0 Hc Hd0.
  unfold block at 1 in Hc. unfold header_body at 1 in Hc. rewrite <- !app_assoc in Hc.
  eapply read_array; [exact Hc|done|]. clear Hc. intros f1 Hc [Hd1 _].
  apply read_guard; [by apply bool_decide_eq_true|]. rewrite Hv. rewrite and_then_ok.
  eapply read_u8; [exact Hc|]. clear Hc. intros f2 Hc [Hd2 _]. apply read_guard; [done|].
  eapply read_u8; [exact Hc|]. clear Hc. intros f3 Hc [Hd3 _].
  eapply read_length; [exact Hc|done|]. clear Hc. intros f4 Hc [Hd4 _].
  eapply read_length; [exact Hc|done|]. clear Hc. intros f5 Hc [Hd5 _].
  eapply read_length; [exact Hc|done|]. clear Hc. intros f6 Hc [Hd6 _].
  eapply read_length; [exact Hc| |].
  { split; [done|]. apply Z.pow_pos_nonneg; [lia|apply lengths_pos]. }
  clear Hc. intros f7 Hc [Hd7 _].
  eapply read_u16; [exact Hc|by vm_compute|]. clear Hc. intros f8 Hc [Hd8 _].
  eapply read_u16; [exact Hc|by vm_compute|]. clear Hc. intros f9 Hc [Hd9 _].
  eapply read_u16; [exact Hc|by vm_compute|]. clear Hc. intros f10 Hc [Hd10 _].
  eapply read_u16; [exact Hc|unfold fits; lia|]. clear Hc. intros f11 Hc [Hd11 _].
  unfold AddressSpaceBits.new. destruct (_ && _ && _) eqn:Eb; [|lia]. cbn [ok_or try_].
  eapply read_length; [exact Hc|done|]. clear Hc. intros f12 Hc [Hd12 _].
  rewrite Haddr in Hc.
  assert (Hdec : decode_stored_address (offsets widths) block (Fields.pos f12) = ok a).
  { replace block with (fields_data f12) by congruence.
    eapply decode_stored_address_read; [exact Hc|done]. }
  rewrite Hdec. rewrite and_then_ok.
  eapply read_offset; [exact Hc|by apply stored_bits_fits|]. clear Hc. intros f13 Hc [Hd13 _].
  eapply read_length; [exact Hc|done|]. clear Hc. intros f14 Hc [Hd14 _].
  eapply read_length; [exact Hc|done|]. clear Hc. intros f15 Hc [Hd15 _].
  destruct (_ <? _) eqn:El; [lia|]. done.
Qed.

End Header.

(** ** The serializers return *)

Section Total.
Context `{B : Build}.

Lemma write_length_sound buf v w : u64 v → try_write_length buf v w ⇝? (λ _, True).
Proof.
  intros Hu. destruct (try_write_length_cases buf v w Hu) as [[_ ->]|[_ ->]];
    [by apply sound_ok|apply sound_fail].
Qed.

Lemma write_offset_sound buf v w : u64 v → try_write_offset buf v w ⇝? (λ _, True).
Proof.
  intros Hu. destruct (try_write_offset_cases buf v w Hu) as [[_ ->]|(_ & _ & ->)];
    [by apply sound_ok|apply sound_fail].
Qed.

Lemma try_write_offset_ok buf v w :
  u64 v → fits (OffsetWidth.get w) v ∨ v = U64_MAX → try_write_offset buf v w = ok (buf ++ obytes w v).
Proof.
  intros Hu Hf. destruct (try_write_offset_cases buf v w Hu) as [[_ H]|(H1 & H2 & _)]; [done|tauto].
Qed.

Lemma encode_set_sound w addrs class_id buf :
  Forall u64 addrs → SectionFields.encode_set w addrs class_id buf ⇝? (λ _, True).
Proof.
  intros Hu. revert buf. induction Hu as [|a addrs Ha Hu IH]; intros buf; simpl.
  - by apply sound_ok.
  - eapply sound_bind; [by apply write_offset_sound|]. intros b _. apply IH.
Qed.

Lemma encode_set_ok w addrs class_id buf :
  Forall u64 addrs → Forall (λ a, fits (OffsetWidth.get w) a ∨ a = U64_MAX) addrs →
  SectionFields.encode_set w addrs class_id buf
  = ok (buf ++ concat (record_bytes w class_id <$> addrs)).
Proof.
  intros Hu. revert buf. induction Hu as [|a addrs Ha Hu IH]; intros buf Hf; simpl.
  - by rewrite app_nil_r.
  - inversion_clear Hf. rewrite try_write_offset_ok by done. rewrite and_then_ok. rewrite IH by done. unfold record_bytes. by rewrite <- !app_assoc.
Qed.

Lemma encode_sets_sound fields w sets class_id buf :
  fields_ok fields → Forall (λ s, Forall u64 s.2) sets →
  SectionFields.encode_sets fields w sets class_id buf ⇝? (λ _, True).
Proof.
  intros (Hc & Hz & _) Hu. revert buf. induction Hu as [|[z l] sets Ha Hu IH]; intros buf; simpl.
  - by apply sound_ok.
  - rewrite push_uint_le_eq by lia. cbn [mbind outcome_bind].
    rewrite push_uint_le_eq by lia. cbn [mbind outcome_bind].
    eapply sound_bind; [by apply encode_set_sound|]. intros b _. apply IH.
Qed.

Lemma encode_sets_ok fields w sets class_id buf :
  fields_ok fields → Forall (λ s, Forall u64 s.2) sets →
  Forall (λ s, Forall (λ a, fits (OffsetWidth.get w) a ∨ a = U64_MAX) s.2) sets →
  SectionFields.encode_sets fields w sets class_id buf
  = ok (buf ++ concat (set_bytes fields w class_id <$> sets)).
Proof.
  intros (Hc & Hz & _) Hu. revert buf.
  induction Hu as [|[z l] sets Ha Hu IH]; intros buf Hf; simpl.
  - by rewrite app_nil_r.
  - inversion_clear Hf. rewrite push_uint_le_eq by lia. cbn [mbind outcome_bind].
    rewrite push_uint_le_eq by lia. cbn [mbind outcome_bind].
    rewrite encode_set_ok by done. rewrite and_then_ok.
    rewrite IH by done. unfold set_bytes. simpl. by rewrite <- !app_assoc.
Qed.

(** The section list is encoded exactly when its addresses fit. *)
Lemma encode_list_cases fields w fshd_addr sets class_id :
  fields_ok fields → u64 fshd_addr → byte class_id → Forall (λ s, Forall u64 s.2) sets →
  let body := list_body fields w fshd_addr class_id sets in
  let P := (fits (OffsetWidth.get w) fshd_addr ∨ fshd_addr = U64_MAX) ∧
           Forall (λ s, Forall (λ a, fits (OffsetWidth.get w) a ∨ a = U64_MAX) s.2) sets in
  (P ∧ SectionFields.encode_list fields w fshd_addr sets class_id
       = ok (body ++ le_bytes 4 (lookup3 body))) ∨
  (¬ P ∧ ∃ e, SectionFields.encode_list fields w fshd_addr sets class_id = fail e).
Proof.
  intros Hok Hu Hc Hs body P.
  assert (Ht : SectionFields.encode_list fields w fshd_addr sets class_id ⇝? (λ _, P)).
  { assert (Hsnd : SectionFields.encode_list fields w fshd_addr sets class_id ⇝? (λ _, True)).
    { unfold SectionFields.encode_list.
      destruct (try_write_offset_cases (FSSE_SIGNATURE ++ [FSSE_VERSION]) fshd_addr w Hu)
        as [[Hf ->]|(_ & _ & ->)]; [|apply sound_fail].
      rewrite and_then_ok.
      destruct (decide (Forall (λ s, Forall (λ a, fits (OffsetWidth.get w) a ∨ a = U64_MAX) s.2) sets))
        as [Hf'|Hn].
      - rewrite encode_sets_ok by done. rewrite and_then_ok.
        rewrite <- !app_assoc. change (FSSE_SIGNATURE ++ [FSSE_VERSION] ++ obytes w fshd_addr ++
          concat (set_bytes fields w class_id <$> sets)) with body.
        rewrite jenkins_lookup3_ret by by apply list_body_byte. by apply sound_ok.
      - destruct (encode_sets_sound fields w sets class_id
          ((FSSE_SIGNATURE ++ [FSSE_VERSION]) ++ obytes w fshd_addr) Hok Hs) as ([b|e] & Hb & _).
        + exfalso. apply Hn. by apply encode_sets_inv in Hb as [? _].
        + rewrite Hb. apply sound_fail. }
    destruct Hsnd as ([b|e] & Hb & _); [|by exists (Err e)].
    exists (Ok b). split; [done|]. apply encode_list_inv in Hb as (? & ? & _); [|done..].
    by split. }
  destruct Ht as ([b|e] & Hb & HP).
  - left. split; [done|]. rewrite Hb. apply encode_list_inv in Hb as (_ & _ & ->); done.
  - right. split; [|by exists e]. intros [Hf Hf'].
    unfold SectionFields.encode_list in Hb.
    rewrite try_write_offset_ok in Hb by done. rewrite and_then_ok in Hb.
    rewrite encode_sets_ok in Hb by done. rewrite and_then_ok in Hb.
    rewrite <- !app_assoc in Hb. change (FSSE_SIGNATURE ++ [FSSE_VERSION] ++ obytes w fshd_addr ++
      concat (set_bytes fields w class_id <$> sets)) with body in Hb.
    rewrite jenkins_lookup3_ret in Hb by by apply list_body_byte. discriminate.
Qed.

Lemma encode_header_cases widths h :
  header_u64 h →
  let P := header_fits widths h ∧
           (fits (OffsetWidth.get (offsets widths)) (fsm_section_list_addr h) ∨
            fsm_section_list_addr h = U64_MAX) in
  (P ∧ FreeSpaceManagerHeader.encode h widths
       = ok (header_body widths h ++ le_bytes 4 (lookup3 (header_body widths h)))) ∨
  (¬ P ∧ ∃ e, FreeSpaceManagerHeader.encode h widths = fail e).
Proof.
  intros Hu P. pose proof Hu as (H1 & H2 & H3 & H4 & H5 & H6).
  assert (H0 : u64 0) by (unfold u64, U64_MAX; lia).
  assert (Hf0 : fits (LengthWidth.get (lengths widths)) 0).
  { split; [done|]. apply Z.pow_pos_nonneg; [lia|]. destruct (lengths widths); simpl; lia. }
  unfold FreeSpaceManagerHeader.encode.
  repeat match goal with
  | |- context [and_then (try_write_length ?b ?v ?w) _] =>
    let Hf := fresh "Hf" in
    destruct (try_write_length_cases b v w) as [[Hf ->]|[Hf ->]];
      [done|rewrite !and_then_ok|right; split; [unfold P, header_fits; cbv zeta; tauto|by eexists]]
  | |- context [and_then (try_write_offset ?b ?v ?w) _] =>
    let Hf := fresh "Hf" in
    destruct (try_write_offset_cases b v w) as [[Hf ->]|(Hf & ? & ->)];
      [done|rewrite !and_then_ok|right; split; [unfold P; tauto|by eexists]]
  end.
  left. split; [unfold P, header_fits; cbv zeta; tauto|].
  rewrite <- !app_assoc. fold (header_body widths h).
  by rewrite jenkins_lookup3_ret by apply header_body_byte.
Qed.

End Total.

(** ** Serialized managers *)

Lemma total_size_Some t sections r :
  Forall (λ s, 0 ≤ section_size s) sections → 0 ≤ t ≤ U64_MAX →
  total_size t sections = Some r ↔ r = t + sum_of section_size sections ∧ r ≤ U64_MAX.
Proof.
  intros Hs. revert t. induction Hs as [|s sections Hs Hf IH]; intros t Ht; cbn [total_size].
  - change (sum_of section_size []) with 0. split; [intros [= <-]; lia|]. intros [-> _]. f_equal. lia.
  - rewrite sum_of_cons.
    assert (Hn : 0 ≤ sum_of section_size sections).
    { clear -Hf. induction Hf; [done|]. rewrite sum_of_cons. lia. }
    destruct (checked_add t (section_size s)) as [t'|] eqn:E; simpl.
    + apply checked_add_Some in E as [-> Hle]. rewrite IH by lia. lia.
    + apply checked_add_None in E. split; [done|]. lia.
Qed.

Section Serialize.
Context `{B : Build}.
Context (widths : FormatWidths) (sections : list FreeSection) (class_id : Z).
Let w := offsets widths.
Let L := LengthWidth.get (lengths widths).
Let O := OffsetWidth.get w.
Let n := zlen sections.
Let fields := SectionFields.written widths n.
Let sets := size_sets sections.

(** Sections the type system allows: addresses and sizes are [u64]. *)
Definition sections_u64 : Prop :=
  Forall (λ s, u64 (section_addr s) ∧ u64 (section_size s)) sections.

Definition section_limit : Z := Z.shiftl 1 (Z.log2 (written_max_section_size (lengths widths))).

Hypothesis Hu : sections_u64.
Hypothesis Hn : u64 n.
Hypothesis Hclass : 0 ≤ class_id < 3.

Lemma class_byte : byte class_id.
Proof. unfold byte. lia. Qed.

Lemma sets_addresses (P : FreeSection → Prop) :
  Forall P sections ↔ Forall (λ s, Forall (λ a, P (mkSection a s.1)) s.2) sets.
Proof.
  destruct (size_sets_spec sections) as (_ & _ & Hp). fold sets in Hp.
  assert (Hiff : Forall P sections ↔ Forall P (sections_of sets)) by by rewrite Hp.
  rewrite Hiff. unfold sections_of. rewrite Forall_bind.
  apply Forall_iff. intros [z l]. exact (Forall_fmap (λ a, mkSection a z) P l).
Qed.

Lemma sets_u64 : Forall (λ s, Forall u64 s.2) sets.
Proof.
  pose proof (proj1 (sets_addresses _) Hu) as Hs. eapply Forall_impl; [exact Hs|].
  intros [z l] Hl. eapply Forall_impl; [exact Hl|]. by intros a [? _].
Qed.

Lemma limit_le_max : section_limit ≤ written_max_section_size (lengths widths).
Proof. unfold section_limit. destruct (lengths widths); vm_compute; discriminate. Qed.

Lemma find_limit :
  List.find (λ s, section_limit <=? section_size s) sections = None ↔
  Forall (λ s, section_size s < section_limit) sections.
Proof.
  rewrite Forall_forall. split.
  - intros Hf s Hs%list_elem_of_In. apply (List.find_none _ _ Hf) in Hs. lia.
  - intros Hf. destruct (List.find _ _) as [s|] eqn:E; [|done].
    apply List.find_some in E as [Hs Hl]. apply list_elem_of_In in Hs. specialize (Hf s Hs). lia.
Qed.

(** The body of the section list, padded to its allocation. *)
Definition list_bytes (fshd_addr allocated : Z) : list Z :=
  let body := list_body fields w fshd_addr class_id sets in
  body ++ replicate (Z.to_nat (allocated - CHECKSUM_LEN - zlen body)) 0.

Lemma list_bytes_byte fshd_addr allocated : Forall byte (list_bytes fshd_addr allocated).
Proof.
  apply Forall_app_2; [apply list_body_byte, class_byte|].
  apply Forall_replicate. unfold byte. lia.
Qed.

Definition used_len : Z := section_info_len widths (section_size <$> sections).

Lemma zlen_body fshd_addr : zlen (list_body fields w fshd_addr class_id sets) + CHECKSUM_LEN = used_len.
Proof.
  destruct (size_sets_spec sections) as (_ & _ & Hp). fold sets in Hp.
  destruct (written_ok widths n Hn) as (Hok & Hoff & _). fold fields in Hok, Hoff.
  unfold used_len, section_info_len, section_list_len.
  rewrite <- size_sets_distinct. fold sets.
  assert (Hl : zlen (section_size <$> sections) = n) by (unfold zlen, n; by rewrite length_fmap).
  rewrite Hl, zlen_list_body by done. fold fields.
  unfold SectionFields.section_len. rewrite Hoff. fold w.
  replace (zlen (sections_of sets)) with n by (unfold zlen, n; by rewrite Hp).
  unfold SECTION_CLASS_LEN, CHECKSUM_LEN. lia.
Qed.

(** The header of the serialized manager. *)
Definition header_of (fsse_addr allocated : Z) : FreeSpaceManagerHeader :=
  mkHeader (sum_of section_size sections) n (AddressSpaceBits.written w)
    (written_max_section_size (lengths widths)) fsse_addr allocated allocated.

(** When the serializer succeeds. *)
Definition serializable (fshd_addr fsse_addr : Z) (alloc : option Z) : Prop :=
  let allocated := default used_len alloc in
  Forall (λ s, section_size s < section_limit) sections ∧
  (fits O fshd_addr ∨ fshd_addr = U64_MAX) ∧
  Forall (λ s, fits O (section_addr s) ∨ section_addr s = U64_MAX) sections ∧
  used_len ≤ allocated ∧ fits L allocated ∧ (used_len < allocated → allocated ≤ USIZE_MAX) ∧
  fits L (sum_of section_size sections) ∧ fits L n ∧
  (fits O fsse_addr ∨ fsse_addr = U64_MAX).

Lemma sizes_nonneg : Forall (λ s, 0 ≤ section_size s) sections.
Proof. eapply Forall_impl; [exact Hu|]. intros s [_ [? _]]. done. Qed.

Lemma sum_nonneg : 0 ≤ sum_of section_size sections.
Proof.
  pose proof sizes_nonneg as Hs. clear -Hs. induction Hs; [done|]. rewrite sum_of_cons. lia.
Qed.

Lemma zlen_list_bytes fshd_addr allocated :
  used_len ≤ allocated → zlen (list_bytes fshd_addr allocated) + CHECKSUM_LEN = allocated.
Proof.
  intros Hle. pose proof (zlen_body fshd_addr) as Hb. unfold list_bytes, CHECKSUM_LEN in *.
  rewrite zlen_app, zlen_replicate. lia.
Qed.

(** The section list after the optional padding. *)
Lemma padded_list fshd_addr allocated {T} (k : list Z → exec T) :
  used_len ≤ allocated → (used_len < allocated → allocated ≤ USIZE_MAX) →
  let body := list_body fields w fshd_addr class_id sets in
  let fsse := body ++ le_bytes 4 (lookup3 body) in
  and_then
    (if zlen fsse <? allocated then
       let fsse := take (length fsse - 4) fsse in
       try_ (to_usize allocated) (λ allocated,
       let fsse := (fsse ++ replicate (Z.to_nat (allocated - CHECKSUM_LEN - zlen fsse)) 0)%list in
       checksum ← jenkins_lookup3 fsse;
       ok (fsse ++ le_bytes 4 checksum)%list)
     else ok fsse) k
  = k (list_bytes fshd_addr allocated ++ le_bytes 4 (lookup3 (list_bytes fshd_addr allocated))).
Proof.
  intros Hle Hplat body fsse. pose proof (zlen_body fshd_addr) as Hb. fold body in Hb.
  assert (Hz : zlen fsse = used_len) by (unfold fsse; rewrite zlen_app, zlen_le_bytes; exact Hb).
  rewrite Hz. destruct (used_len <? allocated) eqn:E.
  - assert (Ht : take (length fsse - 4) fsse = body).
    { unfold fsse. rewrite length_app, length_le_bytes, take_app_length' by lia. done. }
    cbv zeta. rewrite Ht. unfold to_usize. destruct (allocated <=? USIZE_MAX) eqn:E'; [|lia].
    cbn [try_]. change (body ++ replicate (Z.to_nat (allocated - CHECKSUM_LEN - zlen body)) 0)
      with (list_bytes fshd_addr allocated).
    rewrite jenkins_lookup3_ret by apply list_bytes_byte. done.
  - assert (allocated = used_len) as -> by lia.
    unfold list_bytes. fold body. replace (used_len - CHECKSUM_LEN - zlen body) with 0 by lia.
    simpl. rewrite app_nil_r. done.
Qed.

Lemma serialize_decides fshd_addr fsse_addr alloc :
  u64 fshd_addr → u64 fsse_addr → u64 used_len →
  match alloc with Some a => u64 a | None => True end →
  let allocated := default used_len alloc in
  let h := header_of fsse_addr allocated in
  let lst := list_bytes fshd_addr allocated in
  (serializable fshd_addr fsse_addr alloc ∧
   serialize_free_space_manager_with_allocation widths sections fshd_addr fsse_addr class_id alloc
   = ok (header_body widths h ++ le_bytes 4 (lookup3 (header_body widths h)),
         lst ++ le_bytes 4 (lookup3 lst))) ∨
  (¬ serializable fshd_addr fsse_addr alloc ∧
   ∃ e, serialize_free_space_manager_with_allocation widths sections fshd_addr fsse_addr class_id alloc
        = fail e).
Proof.
  intros Hf1 Hf2 Hused Halloc allocated h lst.
  assert (Hall : u64 allocated) by (unfold allocated; by destruct alloc).
  unfold serialize_free_space_manager_with_allocation, serializable. fold section_limit allocated.
  cbv zeta. destruct (List.find _ _) as [s|] eqn:Efind.
  { right. split; [|by eexists]. intros (H' & _). apply find_limit in H'. congruence. }
  pose proof (proj1 find_limit Efind) as Hlim.
  destruct (written_ok widths n Hn) as (Hok & Hoff & _). fold fields in Hok, Hoff.
  pose proof (sets_addresses (λ s, fits O (section_addr s) ∨ section_addr s = U64_MAX)) as Haddr.
  destruct (encode_list_cases fields w fshd_addr sets class_id Hok Hf1 class_byte sets_u64)
    as [[[HP1 HP2] Hl]|[HP [e Hl]]]; fold n fields w sets; rewrite Hl.
  2:{ right. split; [|by exists e]. intros (_ & H1 & H2 & _). apply HP. split; [done|]. by apply Haddr. }
  rewrite !and_then_ok.
  assert (Hz : zlen (list_body fields w fshd_addr class_id sets ++
            le_bytes 4 (lookup3 (list_body fields w fshd_addr class_id sets))) = used_len).
  { rewrite zlen_app, zlen_le_bytes. apply zlen_body. }
  rewrite !Hz. fold allocated.
  destruct (allocated <? used_len) eqn:E1.
  { right. split; [|by eexists]. lia. }
  destruct (length_width_holds (lengths widths) allocated) eqn:E2; cbn [negb].
  2:{ right. split; [|by eexists]. intros (_ & _ & _ & _ & H1 & _).
      apply length_holds in H1; [|done]. congruence. }
  apply length_holds in E2; [|done].
  destruct (decide (used_len < allocated → allocated ≤ USIZE_MAX)) as [Hplat|Hplat].
  2:{ right. split; [tauto|].
      destruct (used_len <? allocated) eqn:E3; [|exfalso; apply Hplat; lia].
      unfold to_usize. destruct (allocated <=? USIZE_MAX) eqn:E4; [exfalso; apply Hplat; lia|].
      by eexists. }
  pose proof (padded_list fshd_addr allocated (T := list Z * list Z)) as Hpad.
  cbv zeta in Hpad. rewrite Hz in Hpad. rewrite !Hpad by (done || lia). clear Hpad. fold lst.
  destruct (total_size 0 sections) as [t|] eqn:Et.
  2:{ right. split; [|by eexists]. intros (_ & _ & _ & _ & _ & _ & H1 & _).
      apply (length_fits_u64 (lengths widths)) in H1 as [H0 H1].
      rewrite (proj2 (total_size_Some 0 sections (sum_of section_size sections) sizes_nonneg
        ltac:(unfold U64_MAX; lia))) in Et; [done|]. lia. }
  apply total_size_Some in Et as [-> Hsum]; [|apply sizes_nonneg|unfold U64_MAX; lia].
  cbn [ok_or try_]. fold w (header_of fsse_addr allocated). rewrite Z.add_0_l in *.
  fold n. change (mkHeader _ _ _ _ _ _ _) with h.
  assert (Hmax : fits L (written_max_section_size (lengths widths))).
  { unfold L, fits. destruct (lengths widths); vm_compute; split; congruence. }
  destruct (encode_header_cases widths h) as [[[(F1 & F2 & _) HP4] He]|[HP3 [e He]]]; rewrite ?He.
  - pose proof sum_nonneg. split_and!; try done; try apply written_max_u64; lia.
  - left. split; [|done]. fold L O. split_and!; try done; try lia. by apply Haddr.
  - right. split; [|by exists e]. intros (_ & _ & _ & _ & _ & _ & H1 & H2 & H3).
    apply HP3. split; [|done]. by split_and!.
Qed.

Lemma header_fits_written fsse_addr allocated :
  fits L allocated → fits L (sum_of section_size sections) → fits L n →
  header_fits widths (header_of fsse_addr allocated).
Proof.
  intros Ha Hs Hl. unfold header_fits, header_of. fold L.
  cbn [fsm_total_space fsm_total_sections fsm_max_section_size fsm_section_list_used fsm_section_list_allocated].
  split_and!; try done. unfold fits, L. destruct (lengths widths); vm_compute; split; discriminate || done.
Qed.

(** The section fields the reader derives are the ones the writer used. *)
Lemma header_section_fields fsse_addr allocated :
  FreeSpaceManagerHeader.section_fields (header_of fsse_addr allocated) (lengths widths) = fields.
Proof.
  unfold FreeSpaceManagerHeader.section_fields, FreeSpaceManagerHeader.section_size_width.
  unfold fields, SectionFields.written. cbn [header_of fsm_total_sections fsm_addr_space_bits fsm_max_section_size].
  f_equal. by destruct (lengths widths).
Qed.

Lemma sets_fit :
  Forall (λ s, 0 < section_size s ∧ section_size s < section_limit ∧ fits O (section_addr s)) sections →
  Forall (set_fits fields w) sets.
Proof.
  intros Hs%sets_addresses. destruct (size_sets_spec sections) as ([_ Hne] & _ & Hp).
  destruct (written_ok widths n Hn) as (_ & _ & Hc & Hz). fold fields sets in Hc, Hz, Hne, Hp.
  assert (Hle : Forall (λ s, zlen s.2 ≤ n) sets).
  { apply Forall_forall. intros [z l] Hin. simpl.
    assert (zlen (sections_of sets) = n) as <- by (unfold zlen, n; by rewrite Hp).
    rewrite zlen_sections_of. clear -Hin. induction sets as [|s ss IH]; [by apply elem_of_nil in Hin|].
    rewrite sum_of_cons. apply elem_of_cons in Hin as [<-|Hin].
    - pose proof (sum_of_nonneg (λ s, zlen s.2) ss (λ s, zlen_nonneg _)). simpl in *. lia.
    - specialize (IH Hin). pose proof (zlen_nonneg s.2). lia. }
  rewrite Forall_forall in *. intros [z l] Hin. specialize (Hs _ Hin). specialize (Hne _ Hin).
  specialize (Hle _ Hin). simpl in *. pose proof (zlen_nonneg l).
  destruct l as [|a l]; [done|]. pose proof Hs as Hs'. inversion_clear Hs' as [|? ? (H1 & H2 & _) _].
  simpl in H1, H2. pose proof limit_le_max. split_and!; simpl; [lia| |done| |].
  - eapply fits_mono; [exact Hz|]. lia.
  - eapply fits_mono; [exact Hc|]. lia.
  - eapply Forall_impl; [exact Hs|]. by intros b (_ & _ & ?).
Qed.

End Serialize.
