(* ===== verification/FreeSpaceManagerParse.v ===== *)
(** * Parsing free-space managers

    The parser run over the bytes the serializer wrote, and over arbitrary bytes. *)

From stdpp Require Import strings pretty.
From S2P Require Import Prelude Addresses Words ByteFields ByteFieldFacts Checksums FileRegions.
From S2P Require Import FreeSpaceManagers FreeSpaceManagerFacts.

Local Open Scope Z_scope.

(** ** Written lists are read back *)

Lemma foldl_sum {S} (visit : S → FreeSection → S) (l : list FreeSection) (space : Z) (state : S) :
  foldl (λ '(space, state) section, (space + section_size section, visit state section))
    (space, state) l = (space + sum_of section_size l, foldl visit state l).
Proof.
  revert space state. induction l as [|s l IH]; intros space state.
  - change (sum_of section_size []) with 0. by rewrite Z.add_0_r.
  - cbn [foldl]. rewrite IH, sum_of_cons. f_equal. lia.
Qed.

Lemma foldl_snoc {A} (l acc : list A) : foldl (λ l x, l ++ [x]) acc l = acc ++ l.
Proof.
  revert acc. induction l as [|x l IH]; intros acc; simpl; [by rewrite app_nil_r|].
  rewrite IH. by rewrite <- app_assoc.
Qed.

Section Prefix.
Context `{B : Build}.

(** A section list that starts with the prefix of the header at [addr] passes the
    framing checks. *)
Lemma prefix_ok w body rest addr :
  Forall byte body → fits (OffsetWidth.get w) addr →
  body = FSSE_SIGNATURE ++ [FSSE_VERSION] ++ obytes w addr ++ rest →
  zlen body + CHECKSUM_LEN ≤ USIZE_MAX →
  parse_section_list_prefix w (body ++ le_bytes 4 (lookup3 body)) addr = ok tt.
Proof.
  intros Hb Hf Hbody Hmax. unfold parse_section_list_prefix.
  set (list := body ++ le_bytes 4 (lookup3 body)).
  assert (Hz : zlen list = zlen body + CHECKSUM_LEN).
  { unfold list. by rewrite zlen_app, zlen_le_bytes. }
  assert (Hge : section_list_prefix_len w ≤ zlen body).
  { rewrite Hbody, !zlen_app, zlen_le_bytes, Z2Nat.id by (destruct w; simpl; lia).
    pose proof (zlen_nonneg rest). unfold section_list_prefix_len, zlen in *. simpl. lia. }
  destruct (zlen list <? _) eqn:E; [lia|].
  assert (Hc : cursor (Fields.new list 0) list) by (apply cursor_new; lia).
  assert (Hd : fields_data (Fields.new list 0) = list) by done.
  revert Hc Hd. generalize (Fields.new list 0). intros f0 Hc Hd0.
  unfold list at 1 in Hc. rewrite Hbody in Hc at 1. rewrite <- !app_assoc in Hc.
  eapply read_array; [exact Hc|done|]. clear Hc. intros f1 Hc [Hd1 _].
  apply read_guard; [by apply bool_decide_eq_true|].
  unfold list at 1. rewrite verify_trailing_app by done. rewrite and_then_ok.
  eapply read_u8; [exact Hc|]. clear Hc. intros f2 Hc [Hd2 _]. apply read_guard; [done|].
  assert (Hbits : ∃ a, address_fits w a ∧ stored_bits w a = addr).
  { destruct (decide (addr = StoredAddress.undefined w)) as [->|Hne]; [by exists Undefined|].
    exists (Defined addr). split; [|done]. unfold fits in Hf. simpl. rewrite undefined_eq in *. lia. }
  destruct Hbits as (a & Ha & <-).
  replace list with (fields_data f2) by congruence.
  unfold Fields.pos. rewrite (decode_stored_address_read w f2 a _ Hc Ha), and_then_ok.
  destruct a as [a|]; simpl; by rewrite Z.eqb_refl.
Qed.

End Prefix.

Section Written.
Context `{B : Build}.
Context (widths : FormatWidths) (sections : list FreeSection) (class_id : Z).
Let w := offsets widths.
Let n := zlen sections.
Let fields := SectionFields.written widths n.
Let sets := size_sets sections.

Hypothesis Hn : u64 n.
Hypothesis Hclass : 0 ≤ class_id < 3.

Lemma list_bytes_prefix fshd_addr allocated :
  list_bytes widths sections class_id fshd_addr allocated =
  FSSE_SIGNATURE ++ [FSSE_VERSION] ++ obytes w fshd_addr
  ++ concat (set_bytes fields w class_id <$> sets)
  ++ replicate (Z.to_nat (allocated - CHECKSUM_LEN
                          - zlen (list_body fields w fshd_addr class_id sets))) 0.
Proof. unfold list_bytes. cbv zeta. unfold list_body at 1. by rewrite <- !app_assoc. Qed.

(** What [SectionInfo::parse] makes of a written list. *)
Definition info_of (fshd_addr allocated : Z) : SectionInfo :=
  mkInfo (list_bytes widths sections class_id fshd_addr allocated) fields
    (section_list_prefix_len w) n (sum_of section_size sections).

Lemma section_info_parse fshd_addr fsse_addr allocated rest :
  fits (OffsetWidth.get w) fshd_addr → used_len widths sections ≤ allocated →
  allocated ≤ USIZE_MAX → n ≤ USIZE_MAX →
  let lst := list_bytes widths sections class_id fshd_addr allocated in
  SectionInfo.parse widths (lst ++ le_bytes 4 (lookup3 lst) ++ rest) fshd_addr
    (header_of widths sections fsse_addr allocated)
  = ok (info_of fshd_addr allocated).
Proof.
  intros Hf Hle Hmax Hn' lst.
  pose proof (zlen_list_bytes widths sections class_id Hn fshd_addr allocated Hle) as Hz.
  fold lst in Hz. unfold SectionInfo.parse, to_usize.
  cbn [header_of fsm_section_list_used fsm_total_sections fsm_total_space].
  destruct (allocated <=? USIZE_MAX) eqn:E1; [|lia]. cbn [try_].
  rewrite app_assoc. pose proof (get_range_prefix (lst ++ le_bytes 4 (lookup3 lst)) rest) as Hg.
  assert (Hz' : zlen (lst ++ le_bytes 4 (lookup3 lst)) = allocated) by (rewrite zlen_app, zlen_le_bytes; exact Hz).
  rewrite Hz' in Hg. rewrite Hg.
  assert (Hpre : parse_section_list_prefix w (lst ++ le_bytes 4 (lookup3 lst)) fshd_addr = ok tt).
  { eapply prefix_ok; [by apply list_bytes_byte|done|apply list_bytes_prefix|fold lst; lia]. }
  fold w. rewrite Hpre, and_then_ok, Hz'. unfold slice.
  pose proof (get_range_prefix lst (le_bytes 4 (lookup3 lst))) as Hg'.
  replace (zlen lst) with (allocated - CHECKSUM_LEN) in Hg' by lia. rewrite Hg'.
  cbn [expect mbind outcome_bind]. fold n. destruct (n <=? USIZE_MAX) eqn:E2; [|lia]. cbn [try_].
  fold fields. unfold ok, info_of. do 3 f_equal. by apply header_section_fields.
Qed.

Lemma visit_written {S} (visit : S → FreeSection → S) state fshd_addr allocated :
  Forall (λ s, 0 < section_size s ∧ section_size s < section_limit widths ∧
               fits (OffsetWidth.get w) (section_addr s)) sections →
  SectionInfo.visit (info_of fshd_addr allocated) visit state
  = ok (foldl visit state (sections_of sets)).
Proof.
  intros Hs. unfold SectionInfo.visit.
  cbn [info_of info_total info_fields info_body info_start info_space].
  destruct (written_ok widths n Hn) as (Hok & Hoff & _).
  destruct (size_sets_spec sections) as (_ & _ & Hp). fold sets in Hp.
  assert (Hlen : zlen (sections_of sets) = n) by (unfold zlen, n; by rewrite Hp).
  assert (Hsum : sum_of section_size (sections_of sets) = sum_of section_size sections)
    by (by apply sum_of_Permutation).
  rewrite (visit_sets_spec _ _ fields _ w n class_id sets
    (replicate (Z.to_nat (allocated - CHECKSUM_LEN
                          - zlen (list_body fields w fshd_addr class_id sets))) 0)); try done.
  - rewrite and_then_ok, foldl_sum. rewrite Hsum, Z.add_0_l, Z.eqb_refl. done.
  - by apply sets_fit.
  - exists (FSSE_SIGNATURE ++ [FSSE_VERSION] ++ obytes w fshd_addr). split.
    + rewrite list_bytes_prefix. by rewrite <- !app_assoc.
    + rewrite !zlen_app, zlen_le_bytes, Z2Nat.id by (destruct w; simpl; lia).
      unfold section_list_prefix_len, zlen. simpl. lia.
  - assert (Hss : (length sets ≤ length (sections_of sets))%nat); [|unfold zlen, n in *; lia].
    destruct (size_sets_spec sections) as ([_ Hne] & _). fold sets in Hne. clear -Hne.
    induction Hne as [|[z l] ss Hl Hne IH]; [simpl; lia|].
    rewrite sections_of_cons, length_app, length_fmap. destruct l; [done|]. cbn [length]. lia.
Qed.

(** The declared sections fit the list the writer sized. *)
Lemma written_max_sections allocated :
  used_len widths sections ≤ allocated → sections ≠ [] → n ≤ SectionFields.max_sections fields w allocated.
Proof.
  intros Hle Hne. pose proof (zlen_body widths sections class_id Hn 0) as Hb. fold w n fields sets in Hb.
  destruct (written_ok widths n Hn) as (Hok & Hoff & _). fold fields w in Hok, Hoff.
  rewrite zlen_list_body in Hb by done. destruct (size_sets_spec sections) as (_ & _ & Hp). fold sets in Hp.
  assert (Hlen : zlen (sections_of sets) = n) by (unfold zlen, n; by rewrite Hp). rewrite Hlen in Hb.
  assert (Hs : 1 ≤ zlen sets).
  { destruct sets; [|rewrite zlen_cons; pose proof (zlen_nonneg sets); unfold zlen; simpl; lia].
    by apply Permutation_nil_l in Hp. }
  destruct Hok as (Hc & Hz & Ho). unfold SectionFields.max_sections, SectionFields.set_len in *.
  set (fixed := section_list_prefix_len w + _ + _ + _).
  assert (Hf : fixed + n * (OffsetWidth.get w + 1) ≤ allocated) by (unfold fixed; nia).
  assert (Hnn : 0 ≤ n) by apply zlen_nonneg. assert (Hw : 1 ≤ OffsetWidth.get w) by (destruct w; simpl; lia).
  unfold checked_sub. destruct (fixed <=? allocated) eqn:E; [|nia]. rewrite Hoff. unfold SECTION_CLASS_LEN.
  apply Z.div_le_lower_bound; lia.
Qed.

Lemma parse_header_written fsse_addr allocated rest :
  let h := header_of widths sections fsse_addr allocated in
  header_fits widths h → address_fits w (Defined fsse_addr) → used_len widths sections ≤ allocated →
  header_len widths ≤ USIZE_MAX → Forall (λ s, 0 ≤ section_size s) sections →
  parse_header widths (header_body widths h ++ le_bytes 4 (lookup3 (header_body widths h)) ++ rest) = ok h.
Proof.
  intros h Hfit Ha Hle Hmax Hs. unfold parse_header.
  rewrite (frame_parse widths h (Defined fsse_addr) rest); try done; [|cbn [h header_of fsm_addr_space_bits]; fold w; destruct w; vm_compute; split; discriminate].
  rewrite and_then_ok. unfold FreeSpaceManagerHeaderFrame.file_header, frame_of.
  cbn [frame_widths frame_client_id frame_total_sections frame_total_space frame_section_list_used
    frame_serialized_sections frame_unserialized_sections frame_section_classes frame_section_list_addr
    frame_addr_space_bits frame_max_section_size frame_section_list_allocated]. cbv zeta.
  rewrite !Z.eqb_refl. cbn [negb andb]. change (FILE_FSM_NUM_CLASSES <? FILE_FSM_NUM_CLASSES) with false. cbv iota.
  destruct (decide (sections = [])) as [He|He].
  - unfold h, header_of. cbn [fsm_total_sections fsm_total_space]. by rewrite He.
  - replace (fsm_total_sections h =? 0) with false.
    2:{ symmetry. apply Z.eqb_neq. cbn [h header_of fsm_total_sections]. unfold n. destruct sections; [done|].
        rewrite zlen_cons. pose proof (zlen_nonneg l). lia. }
    rewrite bool_decide_false by done.
    set (h' := mkHeader _ _ _ _ _ _ _). change h' with h. unfold h at 1. rewrite (header_section_fields widths sections).
    fold w n fields. cbn [h header_of fsm_section_list_used fsm_total_sections].
    pose proof (written_max_sections allocated Hle He). fold n. by replace (_ <? n) with false by lia.
Qed.

End Written.

(** ** Arbitrary bytes *)

Lemma field_sound body pos width name v :
  Forall byte body → SectionFields.field body pos width name = Ok v →
  fits width v ∧ pos + width ≤ zlen body.
Proof.
  intros Hb. unfold SectionFields.field. destruct (get_range _ _ _) as [s|] eqn:E; [|done].
  intros [= <-]. pose proof (get_range_Forall _ _ _ _ _ Hb E) as Hs.
  pose proof (get_range_zlen _ _ _ _ E) as Hz. apply get_range_Some in E as (_ & Hle & _).
  split; [|done]. unfold read_uint_le. rewrite or_bytes_le by done.
  pose proof (le_value_bounds s Hs) as Hv. unfold fits. by replace width with (zlen s) by lia.
Qed.

Section Arbitrary.
Context {S : Type} (visit : S → FreeSection → S) (I : Z → S → Prop).
Context (fields : SectionFields) (body : list Z) (total : Z).
Hypothesis Hbody : Forall byte body.
(** The invariant survives a visit. *)
Hypothesis HI : ∀ e st a size,
  0 < size → fits (sf_size fields) size → fits (sf_offset fields) a → e < total → I e st →
  I (e + 1) (visit st (mkSection a size)).

Lemma visit_set_sound fuel size count pos emitted state :
  0 < size → fits (sf_size fields) size → 0 ≤ count → emitted ≤ total → I emitted state →
  (Z.to_nat (total - emitted) + 1 < fuel)%nat →
  SectionFields.visit_set visit fuel fields body total size count pos emitted state ⇝?
  (λ '(_, emitted', state'),
     I emitted' state' ∧ emitted ≤ emitted' ≤ total ∧ (0 < count → emitted < emitted')).
Proof.
  intros Hsize Hfit. revert count pos emitted state.
  induction fuel as [|fuel IH]; intros count pos emitted state Hc He Hi Hf; [lia|]. simpl.
  destruct (count =? 0) eqn:E0; [apply sound_ok; split_and!; (done || lia)|].
  destruct (emitted =? total) eqn:E1; [apply sound_fail|].
  destruct (SectionFields.field _ _ (sf_offset fields) _) as [a|e] eqn:Ea; [|apply sound_fail].
  destruct (SectionFields.field _ _ SECTION_CLASS_LEN _) as [c|e] eqn:Ec; [|apply sound_fail].
  cbn [try_]. destruct (_ <=? c); [apply sound_fail|].
  apply field_sound in Ea as [Ha _]; [|done].
  eapply sound_mono; [apply IH; [lia|lia|by apply HI; (done || lia)|lia]|].
  intros [[p e'] st'] (? & ? & ?). split_and!; (done || lia).
Qed.

Lemma visit_sets_sound fuel pos emitted state :
  emitted ≤ total → I emitted state → (Z.to_nat (total - emitted) < fuel)%nat →
  SectionFields.visit_sets visit fuel fields body total pos emitted state ⇝? (λ state', I total state').
Proof.
  revert pos emitted state. induction fuel as [|fuel IH]; intros pos emitted state He Hi Hf; [lia|].
  simpl. destruct (emitted <? total) eqn:E.
  2:{ apply sound_ok. by replace total with emitted by lia. }
  destruct (SectionFields.field _ _ (sf_count fields) _) as [c|e] eqn:Ec; [|apply sound_fail].
  cbn [try_]. destruct (c =? 0) eqn:E0; [apply sound_fail|].
  destruct (SectionFields.field _ _ (sf_size fields) _) as [z|e] eqn:Ez; [|apply sound_fail].
  cbn [try_]. destruct (z =? 0) eqn:E1; [apply sound_fail|].
  apply field_sound in Ec as [Hc _]; [|done]. apply field_sound in Ez as [Hz _]; [|done].
  assert (Hc' : 0 ≤ c) by apply Hc. assert (Hz' : 0 ≤ z) by apply Hz.
  eapply sound_bind; [apply visit_set_sound; (done || lia)|].
  intros [[p e'] st'] (Hi' & Hle & Hlt). apply IH; [lia|done|lia].
Qed.

End Arbitrary.

Section ArbitraryParse.
Context `{B : Build}.

Lemma verify_bind {T} block (k : unit → exec T) (Q : T → Prop) :
  Forall byte block → k tt ⇝? Q → (_ ←? verify_trailing block; k tt) ⇝? Q.
Proof.
  intros Hb Hk. eapply sound_bind; [by apply verify_trailing_sound|]. by intros [] _.
Qed.

(** What a parsed frame guarantees, whatever the bytes. *)
Definition frame_ok (frame : FreeSpaceManagerHeaderFrame) : Prop :=
  let L := LengthWidth.get (lengths (frame_widths frame)) in
  1 ≤ frame_addr_space_bits frame ≤ 64 ∧
  fits L (frame_total_space frame) ∧ fits L (frame_total_sections frame) ∧
  fits L (frame_max_section_size frame) ∧
  0 ≤ frame_section_list_used frame ≤ frame_section_list_allocated frame ∧
  fits L (frame_section_list_allocated frame) ∧
  address_fits (offsets (frame_widths frame)) (frame_section_list_addr frame).

Lemma frame_parse_sound widths data :
  Forall byte data → zlen data ≤ USIZE_MAX →
  FreeSpaceManagerHeaderFrame.parse widths data ⇝?
  (λ frame, frame_ok frame ∧ frame_widths frame = widths ∧ header_len widths ≤ zlen data).
Proof.
  intros Hb Hd. unfold FreeSpaceManagerHeaderFrame.parse.
  destruct (get_range data 0 (header_len widths)) as [block|] eqn:E; [|apply sound_fail].
  pose proof (get_range_Forall _ _ _ _ _ Hb E) as Hbb.
  pose proof (get_range_zlen _ _ _ _ E) as Hz. apply get_range_Some in E as (_ & Hle & _).
  assert (Hv : valid (Fields.new block 0)) by (apply valid_new; [done|lia|done]).
  eapply safe_array; [done|lia|]. intros sig f1 _ _ Hv1 _.
  apply sound_guard. intros _. apply (verify_bind block (λ _, _)); [done|].
  eapply safe_u8; [done|]. intros version f2 _ Hv2 _. apply sound_guard. intros _.
  eapply safe_u8; [done|]. intros client f3 _ Hv3 _.
  eapply safe_length; [done|]. intros ts f4 Hts Hv4 _.
  eapply safe_length; [done|]. intros tn f5 Htn Hv5 _.
  eapply safe_length; [done|]. intros sn f6 Hsn Hv6 _.
  eapply safe_length; [done|]. intros un f7 Hun Hv7 _.
  eapply safe_u16; [done|]. intros cl f8 _ Hv8 _.
  eapply safe_u16; [done|]. intros sp f9 _ Hv9 _.
  eapply safe_u16; [done|]. intros ep f10 _ Hv10 _.
  eapply safe_u16; [done|]. intros bits f11 _ Hv11 _.
  unfold AddressSpaceBits.new. destruct (_ && _ && _) eqn:Eb; [|apply sound_fail]. cbn [ok_or try_].
  eapply safe_length; [done|]. intros ms f12 Hms Hv12 _.
  eapply sound_bind; [apply decode_sound; [done|lia|apply Hv12]|]. intros a [Ha _].
  eapply safe_offset; [done|]. intros _a f13 _ Hv13 _.
  eapply safe_length; [done|]. intros us f14 Hus Hv14 _.
  eapply safe_length; [done|]. intros al f15 Hal Hv15 _.
  destruct (al <? us) eqn:El; [apply sound_fail|]. apply sound_ok.
  refine (conj _ (conj eq_refl Hle)). unfold frame_ok.
  cbn [frame_addr_space_bits frame_total_space frame_total_sections frame_max_section_size
       frame_section_list_used frame_section_list_allocated frame_section_list_addr frame_widths].
  unfold fits in *. split_and!; try done; lia.
Qed.

(** A parsed file header, whatever the bytes: the declared sections fit the list. *)
Definition header_ok (widths : FormatWidths) (h : FreeSpaceManagerHeader) : Prop :=
  1 ≤ fsm_addr_space_bits h ≤ 64 ∧
  0 ≤ fsm_section_list_used h ≤ fsm_section_list_allocated h ∧
  0 ≤ fsm_total_space h ∧ 0 ≤ fsm_total_sections h ∧
  (fsm_total_sections h = 0 → fsm_total_space h = 0) ∧
  (0 < fsm_total_sections h →
   fsm_section_list_addr h < StoredAddress.undefined (offsets widths) ∧
   fsm_total_sections h * (AddressSpaceBits.offset_width (fsm_addr_space_bits h) + 1)
   ≤ fsm_section_list_used h).

Lemma file_header_ok frame h :
  frame_ok frame → FreeSpaceManagerHeaderFrame.file_header frame = Ok h →
  header_ok (frame_widths frame) h.
Proof.
  intros (Hb & Hts & Htn & Hms & Hus & Hal & Ha).
  unfold FreeSpaceManagerHeaderFrame.file_header. cbv zeta.
  destruct (negb (_ =? _)); [done|]. destruct (negb (_ && _)); [done|].
  destruct (_ <? frame_section_classes frame); [done|].
  unfold fits in *. destruct (frame_total_sections frame =? 0) eqn:E0.
  - destruct (negb (frame_total_space frame =? 0)) eqn:E1; [done|]. intros [= <-].
    split_and!; simpl; lia.
  - destruct (bool_decide _) eqn:E1; [done|]. apply bool_decide_eq_false in E1.
    destruct (_ <? frame_total_sections frame) eqn:E2; [done|]. intros [= <-].
    split_and!; cbn [fsm_addr_space_bits fsm_section_list_used fsm_section_list_allocated
      fsm_total_space fsm_total_sections fsm_section_list_addr]; try lia.
    intros _. split.
    + destruct (frame_section_list_addr frame) as [a|]; [|done]. simpl in Ha. lia.
    + unfold SectionFields.max_sections in E2. destruct (checked_sub _ _) as [p|] eqn:Ep; [|lia].
      apply checked_sub_Some in Ep as [-> Hp].
      cbn [FreeSpaceManagerHeader.section_fields sf_offset sf_count sf_size fsm_addr_space_bits] in E2, Hp.
      set (o := AddressSpaceBits.offset_width (frame_addr_space_bits frame)) in *.
      assert (Ho : 1 ≤ o).
      { unfold o, AddressSpaceBits.offset_width, div_ceil.
        apply Z.div_le_lower_bound; lia. }
      assert (Hfix : 0 ≤ section_list_prefix_len (offsets (frame_widths frame))
                + enc_size (frame_total_sections frame)
                + FreeSpaceManagerHeader.section_size_width
                    (mkHeader (frame_total_space frame) (frame_total_sections frame)
                       (frame_addr_space_bits frame) (frame_max_section_size frame)
                       (match frame_section_list_addr frame with
                        | Defined addr => addr
                        | Undefined => StoredAddress.undefined (offsets (frame_widths frame))
                        end) (frame_section_list_used frame) (frame_section_list_allocated frame))
                    (lengths (frame_widths frame)) o + CHECKSUM_LEN).
      { unfold FreeSpaceManagerHeader.section_size_width, section_list_prefix_len, enc_size, CHECKSUM_LEN.
        destruct (_ && _); destruct (offsets (frame_widths frame)); simpl; lia. }
      change SECTION_CLASS_LEN with 1 in E2.
      set (fixed := section_list_prefix_len _ + _ + _ + _) in *.
      pose proof (Z.mul_div_le (frame_section_list_used frame - fixed) (o + 1) ltac:(lia)).
      nia.
Qed.

Lemma parse_header_sound widths data :
  Forall byte data → zlen data ≤ USIZE_MAX → parse_header widths data ⇝? header_ok widths.
Proof.
  intros Hb Hd. unfold parse_header. eapply sound_bind; [by apply frame_parse_sound|].
  intros frame (Hok & <- & _). destruct (FreeSpaceManagerHeaderFrame.file_header frame) as [h|e] eqn:E.
  - apply sound_ok. by apply file_header_ok.
  - apply sound_fail.
Qed.

Lemma prefix_sound w list addr :
  Forall byte list → zlen list ≤ USIZE_MAX →
  parse_section_list_prefix w list addr ⇝? (λ _, section_list_prefix_len w + CHECKSUM_LEN ≤ zlen list).
Proof.
  intros Hb Hd. unfold parse_section_list_prefix.
  destruct (zlen list <? _) eqn:E; [apply sound_fail|].
  assert (Hv : valid (Fields.new list 0)) by by apply valid_new.
  eapply safe_array; [done|lia|]. intros sig f1 _ _ Hv1 _.
  apply sound_guard. intros _. apply (verify_bind list (λ _, _)); [done|].
  eapply safe_u8; [done|]. intros version f2 _ Hv2 _. apply sound_guard. intros _.
  eapply sound_bind; [apply decode_sound; [done|lia|apply Hv2]|]. intros a [Ha _].
  destruct (negb _); [apply sound_fail|]. apply sound_ok. lia.
Qed.

(** What a parsed section list guarantees, whatever the bytes. *)
Definition sections_ok (h : FreeSpaceManagerHeader) (sections : list FreeSection) : Prop :=
  zlen sections = fsm_total_sections h ∧ sum_of section_size sections = fsm_total_space h ∧
  Forall (λ s, 0 < section_size s ∧
               fits (AddressSpaceBits.offset_width (fsm_addr_space_bits h)) (section_addr s)) sections.

Lemma parse_section_info_sound widths data addr h :
  Forall byte data → zlen data ≤ USIZE_MAX → header_ok widths h →
  parse_section_info widths data addr h ⇝? sections_ok h.
Proof.
  intros Hb Hd (_ & Hu & Hts & Htn & _). unfold parse_section_info, SectionInfo.parse, to_usize.
  eapply sound_bind with (P := λ info, Forall byte (info_body info) ∧
    info_fields info = FreeSpaceManagerHeader.section_fields h (lengths widths) ∧
    info_total info = fsm_total_sections h ∧ info_space info = fsm_total_space h).
  - destruct (fsm_section_list_used h <=? USIZE_MAX) eqn:E1; [|apply sound_fail]. cbn [try_].
    destruct (get_range data 0 _) as [list|] eqn:E; [|apply sound_fail].
    pose proof (get_range_Forall _ _ _ _ _ Hb E) as Hbl.
    pose proof (get_range_zlen _ _ _ _ E) as Hz. apply get_range_Some in E as (_ & Hle & _).
    eapply sound_bind; [apply prefix_sound; [done|lia]|]. intros [] Hp. unfold slice.
    destruct (get_range list 0 (zlen list - CHECKSUM_LEN)) as [body|] eqn:Eb.
    2:{ apply get_range_None in Eb. unfold section_list_prefix_len, CHECKSUM_LEN in *.
        destruct (offsets widths); simpl in *; lia. }
    cbn [expect mbind outcome_bind]. destruct (fsm_total_sections h <=? USIZE_MAX); [|apply sound_fail].
    apply sound_ok. split_and!; try done. exact (get_range_Forall _ _ _ _ _ Hbl Eb).
  - intros [body fields start total space]; simpl. intros (Hbb & -> & -> & ->).
    unfold SectionInfo.collect, SectionInfo.visit. cbn [info_body info_fields info_start info_total info_space].
    set (F := FreeSpaceManagerHeader.section_fields h (lengths widths)).
    eapply sound_bind; [apply (visit_sets_sound _ (λ e '(space, l), e = zlen l ∧
      space = sum_of section_size l ∧ Forall (λ s, 0 < section_size s ∧ fits (sf_offset F) (section_addr s)) l));
      [done| |lia|done|lia]|].
    + intros e [sp l] a z Hz _ Ha _ (-> & -> & Hl). split_and!.
      * rewrite zlen_app, zlen_cons, zlen_nil. lia.
      * rewrite sum_of_app, sum_of_cons. change (sum_of section_size []) with 0. simpl. lia.
      * apply Forall_app_2; [done|]. by apply Forall_singleton.
    + intros [sp l] (Hl & -> & Hf). destruct (negb _) eqn:E; [apply sound_fail|].
      apply sound_ok. split_and!; [done|lia|exact Hf].
Qed.

End ArbitraryParse.
