(* ===== verification/FileSpaceMessages.v ===== *)
(** * The File Space Info message

    Models [crates/hdf5-pure-format/src/file_space_info.rs] and the record
    [FileSpaceInfo] of [hdf5-pure-core]: the writer of version 1, the parsers of
    versions 0 and 1 and the normalization to version 1, with the facts that the
    parser reads back what the writer wrote and does not panic on any bytes. *)

From stdpp Require Import strings pretty.
From S2P Require Import Prelude Addresses Words ByteFields ByteFieldFacts.

Local Open Scope string_scope.
Local Open Scope Z_scope.

Record FileSpaceInfo : Type := mkFileSpaceInfo {
  info_strategy : FileSpaceStrategy;
  info_persist : bool;
  info_threshold : Z;
  info_page_size : FileSpacePageSize;
  info_page_end_meta_threshold : Z;
  info_eoa_pre_fsm : option DecodedStoredAddress;
  info_manager_addrs : list DecodedStoredAddress;
}.

Module FileSpaceInfo.

Definition VERSION_0 : Z := 0.
Definition VERSION_1 : Z := 1.
Definition FILE_SPACE_ALL_PERSIST : Z := 1.
Definition FILE_SPACE_ALL : Z := 2.
Definition FILE_SPACE_AGGR_VFD : Z := 3.
Definition FILE_SPACE_VFD : Z := 4.
Definition VERSION_0_MANAGERS : nat := 6.
Definition DEFAULT_PAGE_END_META_THRESHOLD : Z := 0.
Definition DEFAULT_THRESHOLD : Z := 1.
Definition NUM_FILE_FSM_MANAGERS : nat := 12.

Definition strategy_code (s : FileSpaceStrategy) : Z :=
  match s with FsmAggr => 0 | Page => 1 | Aggr => 2 | NoStrategy => 3 end.

Definition strategy_from_code (code : Z) : result FileSpaceStrategy FormatError :=
  if code =? 0 then Ok FsmAggr
  else if code =? 1 then Ok Page
  else if code =? 2 then Ok Aggr
  else if code =? 3 then Ok NoStrategy
  else Err (InvalidFileSpaceStrategy code).

Definition fixed_len (widths : FormatWidths) : Z :=
  3 + 2 * LengthWidth.get (lengths widths) + 2 + OffsetWidth.get (offsets widths).

Section Messages.
Context `{B : Build}.

(** [for &addr in manager_addrs { try_write_decoded_address(...)? }] *)
Fixpoint write_addresses (buf : list Z) (addrs : list DecodedStoredAddress) (w : OffsetWidth)
    : exec (list Z) :=
  match addrs with
  | [] => ok buf
  | addr :: addrs => buf ←? try_write_decoded_address buf addr w; write_addresses buf addrs w
  end.

Definition serialize_file_space_info_v1 (widths : FormatWidths) (info : FileSpaceInfo)
    : exec (list Z) :=
  match info_eoa_pre_fsm info with
  | None => fail (UnsupportedFileSpaceInfoVersion VERSION_0)
  | Some eoa_pre_fsm =>
    if info_persist info && negb (Nat.eqb (length (info_manager_addrs info)) NUM_FILE_FSM_MANAGERS) then
      fail (InvalidFreeSpaceManager
              ("a persisting version 1 message requires " +:+ pretty NUM_FILE_FSM_MANAGERS
               +:+ " manager addresses, but " +:+ pretty (length (info_manager_addrs info))
               +:+ " were provided"))
    else
      let manager_addrs := if info_persist info then info_manager_addrs info else [] in
      let buf := [VERSION_1; strategy_code (info_strategy info); if info_persist info then 1 else 0] in
      buf ←? try_write_length buf (info_threshold info) (lengths widths);
      buf ←? try_write_length buf (FileSpacePageSize.get (info_page_size info)) (lengths widths);
      let buf := (buf ++ le_bytes 2 (info_page_end_meta_threshold info))%list in
      buf ←? try_write_decoded_address buf eoa_pre_fsm (offsets widths);
      write_addresses buf manager_addrs (offsets widths)
  end.

(** [(0..n).map(|_| fields.decoded_address(offsets)).collect()] *)
Fixpoint read_addresses (n : nat) (fields : Fields) (w : OffsetWidth)
    : exec (list DecodedStoredAddress) :=
  match n with
  | O => ok []
  | S n =>
    '(addr, fields) ←? Fields.decoded_address w fields;
    addrs ←? read_addresses n fields w;
    ok (addr :: addrs)
  end.

Definition parse_version_0 (widths : FormatWidths) (data : list Z) : exec FileSpaceInfo :=
  let head_len := 2 + LengthWidth.get (lengths widths) in
  try_ (ensure_len data 0 head_len) (λ _,
  let fields := Fields.new data 1 in
  '(strategy_code, fields) ←? Fields.u8 fields;
  '(threshold, fields) ←? Fields.length (lengths widths) fields;
  let build strategy persist threshold manager_addrs :=
    mkFileSpaceInfo strategy persist threshold FileSpacePageSize.DEFAULT
      DEFAULT_PAGE_END_META_THRESHOLD None manager_addrs in
  if strategy_code =? FILE_SPACE_ALL_PERSIST then
    try_ (ensure_len data head_len (Z.of_nat VERSION_0_MANAGERS * OffsetWidth.get (offsets widths)))
      (λ _,
    manager_addrs ←? read_addresses VERSION_0_MANAGERS fields (offsets widths);
    ok (build FsmAggr true threshold manager_addrs))
  else if strategy_code =? FILE_SPACE_ALL then ok (build FsmAggr false threshold [])
  else if strategy_code =? FILE_SPACE_AGGR_VFD then ok (build Aggr false DEFAULT_THRESHOLD [])
  else if strategy_code =? FILE_SPACE_VFD then ok (build NoStrategy false DEFAULT_THRESHOLD [])
  else fail (InvalidFileSpaceStrategy strategy_code)).

Definition parse_version_1 (widths : FormatWidths) (data : list Z) : exec FileSpaceInfo :=
  let fixed := fixed_len widths in
  if zlen data <? fixed then fail (UnexpectedEof fixed (zlen data))
  else
    let head := take (Z.to_nat fixed) data in
    let managers := drop (Z.to_nat fixed) data in
    let fields := Fields.new head 1 in
    '(code, fields) ←? Fields.u8 fields;
    try_ (strategy_from_code code) (λ strategy,
    '(persist, fields) ←? Fields.u8 fields;
    let persist := negb (persist =? 0) in
    '(threshold, fields) ←? Fields.length (lengths widths) fields;
    '(page_size, fields) ←? Fields.length (lengths widths) fields;
    try_ (FileSpacePageSize.try_from page_size) (λ page_size,
    '(page_end_meta_threshold, fields) ←? Fields.u16 fields;
    '(eoa_pre_fsm, fields) ←? Fields.decoded_address (offsets widths) fields;
    manager_addrs ←?
      (if persist then
         try_ (ensure_len managers 0 (Z.of_nat NUM_FILE_FSM_MANAGERS * OffsetWidth.get (offsets widths)))
           (λ _, read_addresses NUM_FILE_FSM_MANAGERS (Fields.new managers 0) (offsets widths))
       else ok []);
    ok (mkFileSpaceInfo strategy persist threshold page_size page_end_meta_threshold
          (Some eoa_pre_fsm) manager_addrs))).

Definition parse_file_space_info (widths : FormatWidths) (data : list Z) : exec FileSpaceInfo :=
  '(version, _) ←? Fields.u8 (Fields.new data 0);
  if version =? VERSION_0 then parse_version_0 widths data
  else if version =? VERSION_1 then parse_version_1 widths data
  else fail (UnsupportedFileSpaceInfoVersion version).

End Messages.

Definition normalize_file_space_info_to_v1 (info : FileSpaceInfo) (eoa : Z) : FileSpaceInfo :=
  match info_eoa_pre_fsm info with
  | Some _ => info
  | None =>
    let '(eoa_pre_fsm, manager_addrs) :=
      if info_persist info then
        (Some (Defined eoa), vec_resize (info_manager_addrs info) NUM_FILE_FSM_MANAGERS Undefined)
      else (Some Undefined, []) in
    mkFileSpaceInfo (info_strategy info) (info_persist info) (info_threshold info)
      (info_page_size info) (info_page_end_meta_threshold info) eoa_pre_fsm manager_addrs
  end.

End FileSpaceInfo.

(** ** Facts *)

Local Open Scope list_scope.

Section Facts.
Context `{B : Build}.
Import FileSpaceInfo.

Definition decoded_u64 (a : DecodedStoredAddress) : Prop :=
  match a with Defined a => u64 a | Undefined => True end.

Lemma write_addresses_cases buf addrs w :
  Forall decoded_u64 addrs →
  (Forall (address_fits w) addrs ∧
   write_addresses buf addrs w = ok (buf ++ concat ((λ a, obytes w (stored_bits w a)) <$> addrs))) ∨
  (¬ Forall (address_fits w) addrs ∧ ∃ e, write_addresses buf addrs w = fail e).
Proof.
  intros Hu. revert buf. induction Hu as [|a addrs Ha Hu IH]; intros buf; simpl.
  - left. split; [done|by rewrite app_nil_r].
  - destruct (try_write_decoded_cases buf a w Ha) as [[Hf ->]|[Hf [e ->]]].
    + rewrite and_then_ok. destruct (IH (buf ++ obytes w (stored_bits w a))) as [[Hf' ->]|[Hf' [e ->]]].
      * left. split; [by constructor|]. by rewrite <- app_assoc.
      * right. split; [by inversion 1|by exists e].
    + right. split; [by inversion 1|by exists e].
Qed.

Lemma read_addresses_ok addrs w f r :
  cursor f (concat ((λ a, obytes w (stored_bits w a)) <$> addrs) ++ r) →
  Forall (address_fits w) addrs → read_addresses (length addrs) f w = ok addrs.
Proof.
  intros Hc Hf. revert f Hc. induction Hf as [|a addrs Ha Hf IH]; intros f Hc; [done|].
  cbn [read_addresses length]. rewrite fmap_cons, concat_cons, <- app_assoc in Hc.
  eapply read_decoded; [exact Hc|done|]. intros f' Hc' _. by rewrite (IH f' Hc').
Qed.

Lemma read_addresses_sound n f w :
  valid f → read_addresses n f w ⇝? (λ addrs, length addrs = n ∧ Forall (address_fits w) addrs).
Proof.
  revert f. induction n as [|n IH]; intros f Hv; simpl; [by apply sound_ok|].
  eapply safe_decoded; [done|]. intros a f' Ha Hv' _.
  eapply sound_bind; [by apply IH|]. intros addrs [<- Hf]. apply sound_ok. split; [done|by constructor].
Qed.

Lemma strategy_roundtrip s : strategy_from_code (strategy_code s) = Ok s.
Proof. by destruct s. Qed.

Lemma page_size_roundtrip p : FileSpacePageSize.try_from (FileSpacePageSize.get p) = Ok p.
Proof.
  destruct p as [z Hz]. unfold FileSpacePageSize.try_from, FileSpacePageSize.get. simpl.
  generalize (eq_refl (page_size_valid z)). destruct (page_size_valid z) at 2 3; intros H;
    [|congruence]. do 2 f_equal. apply bool_eq_pi.
Qed.

(** The fields are values of their Rust types. *)
Definition info_u64 (info : FileSpaceInfo) : Prop :=
  u64 (info_threshold info) ∧ fits 2 (info_page_end_meta_threshold info) ∧
  match info_eoa_pre_fsm info with Some a => decoded_u64 a | None => True end ∧
  Forall decoded_u64 (info_manager_addrs info).

(** What the writer keeps of the manager addresses. *)
Definition written_addrs (info : FileSpaceInfo) : list DecodedStoredAddress :=
  if info_persist info then info_manager_addrs info else [].

(** When a message can be written in a file of these widths. *)
Definition info_writable (widths : FormatWidths) (info : FileSpaceInfo) : Prop :=
  (∃ eoa, info_eoa_pre_fsm info = Some eoa ∧ address_fits (offsets widths) eoa) ∧
  (info_persist info = true → length (info_manager_addrs info) = NUM_FILE_FSM_MANAGERS) ∧
  fits (LengthWidth.get (lengths widths)) (info_threshold info) ∧
  fits (LengthWidth.get (lengths widths)) (page_bytes (info_page_size info)) ∧
  Forall (address_fits (offsets widths)) (written_addrs info).

Definition info_bytes (widths : FormatWidths) (info : FileSpaceInfo) (eoa : DecodedStoredAddress)
    : list Z :=
  [VERSION_1; strategy_code (info_strategy info); if info_persist info then 1 else 0]
  ++ lbytes (lengths widths) (info_threshold info)
  ++ lbytes (lengths widths) (page_bytes (info_page_size info))
  ++ le_bytes 2 (info_page_end_meta_threshold info)
  ++ obytes (offsets widths) (stored_bits (offsets widths) eoa)
  ++ concat ((λ a, obytes (offsets widths) (stored_bits (offsets widths) a)) <$> written_addrs info).

Lemma page_bytes_u64 p : u64 (page_bytes p).
Proof. pose proof (page_size_bounds p). unfold u64, U64_MAX. lia. Qed.

(** The writer succeeds exactly on writable messages. *)
Lemma serialize_info_cases widths info :
  info_u64 info →
  (info_writable widths info ∧ ∃ eoa, info_eoa_pre_fsm info = Some eoa ∧
   serialize_file_space_info_v1 widths info = ok (info_bytes widths info eoa)) ∨
  (¬ info_writable widths info ∧ ∃ e, serialize_file_space_info_v1 widths info = fail e).
Proof.
  intros (Ht & Hp & He & Hm). unfold serialize_file_space_info_v1, info_writable.
  destruct (info_eoa_pre_fsm info) as [eoa|]; [|right; split; [naive_solver|by eexists]].
  destruct (info_persist info && _) eqn:E.
  { right. split; [|by eexists]. intros (_ & H' & _). apply andb_true_iff in E as [E1 E2].
    specialize (H' E1). rewrite H', Nat.eqb_refl in E2. done. }
  assert (Hlen : info_persist info = true → length (info_manager_addrs info) = NUM_FILE_FSM_MANAGERS).
  { intros Hper. rewrite Hper in E. simpl in E. apply negb_false_iff, Nat.eqb_eq in E. done. }
  destruct (try_write_length_cases [VERSION_1; strategy_code (info_strategy info);
     if info_persist info then 1 else 0] (info_threshold info) (lengths widths) Ht) as [[H1 ->]|[H1 ->]].
  2:{ right. split; [tauto|by eexists]. }
  rewrite !and_then_ok. unfold FileSpacePageSize.get.
  match goal with |- context [try_write_length ?b ?v ?w] =>
    destruct (try_write_length_cases b v w (page_bytes_u64 _)) as [[H2 ->]|[H2 ->]] end.
  2:{ right. split; [tauto|by eexists]. }
  rewrite !and_then_ok. cbv zeta.
  match goal with |- context [try_write_decoded_address ?b ?a ?w] =>
    destruct (try_write_decoded_cases b a w He) as [[H3 ->]|[H3 [e ->]]] end.
  2:{ right. split; [naive_solver|by eexists]. }
  rewrite !and_then_ok. fold (written_addrs info).
  assert (Hm' : Forall decoded_u64 (written_addrs info))
    by (unfold written_addrs; by destruct (info_persist info)).
  match goal with |- context [write_addresses ?b ?a ?w] =>
    destruct (write_addresses_cases b a w Hm') as [[H4 ->]|[H4 [e ->]]] end.
  - left. split; [naive_solver|]. exists eoa. split; [done|]. unfold info_bytes.
    by rewrite <- !app_assoc.
  - right. split; [tauto|by eexists].
Qed.

Lemma zlen_info_fixed widths info eoa :
  zlen ([VERSION_1; strategy_code (info_strategy info); if info_persist info then 1 else 0]
  ++ lbytes (lengths widths) (info_threshold info)
  ++ lbytes (lengths widths) (page_bytes (info_page_size info))
  ++ le_bytes 2 (info_page_end_meta_threshold info)
  ++ obytes (offsets widths) (stored_bits (offsets widths) eoa)) = fixed_len widths.
Proof.
  autorewrite with zlen. rewrite !Z2Nat.id by (destruct (lengths widths), (offsets widths); simpl; lia).
  unfold fixed_len. lia.
Qed.

(** A written message is read back, with the manager addresses the writer kept. *)
Lemma parse_written widths info eoa rest :
  info_u64 info → info_writable widths info → info_eoa_pre_fsm info = Some eoa →
  zlen (info_bytes widths info eoa ++ rest) ≤ USIZE_MAX →
  parse_file_space_info widths (info_bytes widths info eoa ++ rest) =
  ok (mkFileSpaceInfo (info_strategy info) (info_persist info) (info_threshold info)
        (info_page_size info) (info_page_end_meta_threshold info) (Some eoa) (written_addrs info)).
Proof.
  intros (Ht & Hp & He & Hm) (Heoa & Hlen & H1 & H2 & H4) Hsome Hmax.
  assert (H3 : address_fits (offsets widths) eoa) by naive_solver.
  unfold parse_file_space_info. eapply read_u8.
  { unfold info_bytes. simpl. apply cursor_new. exact Hmax. }
  intros f' _ _. change (VERSION_1 =? VERSION_0) with false. change (VERSION_1 =? VERSION_1) with true.
  cbv iota. clear f'. unfold parse_version_1.
  pose proof (zlen_info_fixed widths info eoa) as Hz.
  unfold info_bytes in *. set (addr_bytes := concat _) in *.
  replace (_ ++ rest) with
    (([VERSION_1; strategy_code (info_strategy info); if info_persist info then 1 else 0]
      ++ lbytes (lengths widths) (info_threshold info)
      ++ lbytes (lengths widths) (page_bytes (info_page_size info))
      ++ le_bytes 2 (info_page_end_meta_threshold info)
      ++ obytes (offsets widths) (stored_bits (offsets widths) eoa)) ++ addr_bytes ++ rest) in *
    by by rewrite <- !app_assoc.
  set (head := _ ++ _ ++ _ ++ _ ++ obytes _ _) in *.
  rewrite zlen_app in *. pose proof (zlen_nonneg (addr_bytes ++ rest)).
  destruct (_ <? fixed_len widths) eqn:E; [lia|]. cbv zeta.
  assert (Hln : Z.to_nat (fixed_len widths) = length head) by (unfold zlen in Hz; lia).
  rewrite Hln, take_app_length, drop_app_length.
  assert (Hc : cursor (Fields.new head 1) (drop 1 head)).
  { split_and!; simpl; [lia|lia| |done]. rewrite Hz. unfold fixed_len.
    destruct (lengths widths), (offsets widths); simpl; lia. }
  unfold head in Hc at 2. simpl in Hc.
  eapply read_u8; [exact Hc|]. clear Hc. intros f1 Hc _.
  rewrite strategy_roundtrip. cbn [try_].
  eapply read_u8; [exact Hc|]. clear Hc. intros f2 Hc _.
  eapply read_length; [exact Hc|done|]. clear Hc. intros f3 Hc _.
  eapply read_length; [exact Hc|done|]. clear Hc. intros f4 Hc _.
  rewrite page_size_roundtrip. cbn [try_].
  eapply read_u16; [exact Hc|done|]. clear Hc. intros f5 Hc _.
  rewrite <- (app_nil_r (obytes _ _)) in Hc.
  eapply read_decoded; [exact Hc|done|]. clear Hc. intros f6 _ _.
  assert (Hper : negb ((if info_persist info then 1 else 0) =? 0) = info_persist info)
    by by destruct (info_persist info).
  rewrite Hper. unfold addr_bytes, written_addrs in *. destruct (info_persist info).
  - specialize (Hlen eq_refl). unfold ensure_len.
    set (ab := concat _) in *.
    assert (Hab : zlen ab = Z.of_nat NUM_FILE_FSM_MANAGERS * OffsetWidth.get (offsets widths)).
    { unfold ab, zlen. rewrite <- Hlen. clear. induction (info_manager_addrs info) as [|a l IH]; [done|].
      rewrite fmap_cons, concat_cons, length_app, length_le_bytes. cbn [length].
      rewrite Nat2Z.inj_add, IH, Z2Nat.id by (destruct (offsets widths); simpl; lia). lia. }
    pose proof (zlen_nonneg rest). pose proof (zlen_nonneg head).
    rewrite <- Hab, zlen_app in *.
    destruct (_ && _) eqn:El; [|exfalso; apply andb_false_iff in El; lia]. cbn [try_].
    rewrite <- Hlen, (read_addresses_ok _ _ _ rest); [done| |done].
    fold ab. apply cursor_new. rewrite zlen_app. lia.
  - by rewrite and_then_ok.
Qed.

(** The parser on arbitrary bytes. *)
Definition parsed_info_ok (widths : FormatWidths) (info : FileSpaceInfo) : Prop :=
  fits (LengthWidth.get (lengths widths)) (info_threshold info) ∧
  fits 2 (info_page_end_meta_threshold info) ∧
  Forall (address_fits (offsets widths)) (info_manager_addrs info) ∧
  match info_eoa_pre_fsm info with
  | Some eoa =>
    address_fits (offsets widths) eoa ∧
    length (info_manager_addrs info) = if info_persist info then NUM_FILE_FSM_MANAGERS else O
  | None => length (info_manager_addrs info) = if info_persist info then VERSION_0_MANAGERS else O
  end.

Lemma ensure_len_sound {T} data pos n (k : unit → exec T) (Q : T → Prop) :
  k tt ⇝? Q → try_ (ensure_len data pos n) k ⇝? Q.
Proof.
  intros Hk. unfold ensure_len. destruct (_ && _); [done|apply sound_fail].
Qed.

Lemma fits_one w : fits (LengthWidth.get w) 1.
Proof. unfold fits. destruct w; simpl; lia. Qed.

Lemma parse_info_sound widths data :
  Forall byte data → zlen data ≤ USIZE_MAX →
  parse_file_space_info widths data ⇝? parsed_info_ok widths.
Proof.
  intros Hb Hd. unfold parse_file_space_info.
  eapply safe_u8; [by apply valid_new|]. intros version f0 _ _ _.
  destruct (version =? VERSION_0); [|destruct (version =? VERSION_1); [|apply sound_fail]].
  - unfold parse_version_0. apply ensure_len_sound.
    eapply safe_u8; [by apply valid_new|]. intros code f1 _ Hv1 _.
    eapply safe_length; [done|]. intros t f2 Ht Hv2 _. cbv zeta. unfold parsed_info_ok.
    pose proof (fits_one (lengths widths)).
    destruct (code =? FILE_SPACE_ALL_PERSIST).
    { apply ensure_len_sound. eapply sound_bind; [by apply read_addresses_sound|].
      intros addrs [Hl Hf]. apply sound_ok. by split_and!. }
    repeat (match goal with |- context [if ?b then _ else _] => destruct b end;
            [apply sound_ok; by split_and!|]). apply sound_fail.
  - unfold parse_version_1. destruct (_ <? _) eqn:E; [apply sound_fail|]. cbv zeta.
    set (head := take _ _). set (managers := drop _ _).
    assert (Hbh : Forall byte head) by by apply Forall_take.
    assert (Hbm : Forall byte managers) by by apply Forall_drop.
    assert (Hzh : zlen head ≤ zlen data ∧ zlen managers ≤ zlen data).
    { unfold head, managers, zlen. rewrite length_take, length_drop. lia. }
    eapply safe_u8; [apply valid_new; [done|lia|lia]|]. intros code f1 _ Hv1 _.
    destruct (strategy_from_code code) as [s|e]; [|apply sound_fail]. cbn [try_].
    eapply safe_u8; [done|]. intros p f2 _ Hv2 _.
    eapply safe_length; [done|]. intros t f3 Ht Hv3 _.
    eapply safe_length; [done|]. intros ps f4 _ Hv4 _.
    destruct (FileSpacePageSize.try_from ps) as [pg|e]; [|apply sound_fail]. cbn [try_].
    eapply safe_u16; [done|]. intros pe f5 Hpe Hv5 _.
    eapply safe_decoded; [done|]. intros eoa f6 Heoa Hv6 _.
    destruct (negb (p =? 0)).
    + eapply sound_bind; [apply ensure_len_sound, read_addresses_sound, valid_new; (done || lia)|].
      intros addrs [Hl Hf]. apply sound_ok. by split_and!.
    + rewrite and_then_ok. apply sound_ok. by split_and!.
Qed.

(** Normalization gives a version 1 message; a parsed message of either version is
    writable again once normalized. *)
Lemma normalize_writable widths info eoa :
  parsed_info_ok widths info → address_fits (offsets widths) (Defined eoa) →
  fits (LengthWidth.get (lengths widths)) (page_bytes (info_page_size info)) →
  info_writable widths (normalize_file_space_info_to_v1 info eoa).
Proof.
  intros (Ht & _ & Hf & He) Heoa Hp. unfold normalize_file_space_info_to_v1, info_writable, written_addrs.
  destruct (info_eoa_pre_fsm info) as [a|] eqn:Ea.
  - destruct He as [Ha Hl]. rewrite Ea. split_and!; [by exists a| |done|done|by destruct (info_persist info)].
    intros Hper. by rewrite Hper in Hl.
  - destruct (info_persist info); simpl; split_and!; try done; try (by eexists).
    + intros _. unfold vec_resize. rewrite He. rewrite length_app, length_take, length_replicate, He. done.
    + unfold vec_resize. apply Forall_app_2; [by apply Forall_take|by apply Forall_replicate].
Qed.

(** Whatever was parsed is written and parsed again as its normalization. *)
Lemma normalized_reparses widths data info eoa rest :
  Forall byte data → zlen data ≤ USIZE_MAX → parse_file_space_info widths data = ok info →
  address_fits (offsets widths) (Defined eoa) →
  fits (LengthWidth.get (lengths widths)) (page_bytes (info_page_size info)) →
  ∃ bytes, serialize_file_space_info_v1 widths (normalize_file_space_info_to_v1 info eoa) = ok bytes ∧
    (zlen (bytes ++ rest) ≤ USIZE_MAX →
     parse_file_space_info widths (bytes ++ rest) = ok (normalize_file_space_info_to_v1 info eoa)).
Proof.
  intros Hb Hd Hparse Heoa Hpage. pose proof (sound_eq _ _ _ (parse_info_sound widths data Hb Hd) Hparse) as Hok.
  pose proof (normalize_writable widths info eoa Hok Heoa Hpage) as Hw.
  set (info' := normalize_file_space_info_to_v1 info eoa) in *.
  destruct Hok as (Ht & Hpe & Hm & He).
  assert (Hfit : ∀ a, address_fits (offsets widths) a → decoded_u64 a).
  { intros [a|] Ha; [|done]. by apply (offset_fits_u64 (offsets widths)), (stored_bits_fits _ (Defined a)). }
  assert (Hkept : fits 2 (info_page_end_meta_threshold info') ∧ written_addrs info' = info_manager_addrs info' ∧
    u64 (info_threshold info')).
  { assert (Hu : u64 (info_threshold info)) by (by eapply length_fits_u64).
    unfold info', normalize_file_space_info_to_v1, written_addrs. destruct (info_eoa_pre_fsm info).
    - split_and!; try done. destruct (info_persist info); [done|]. destruct He as [_ He]. symmetry. by apply length_zero_iff_nil.
    - destruct (info_persist info) eqn:E; simpl; rewrite ?E; done. }
  destruct Hkept as (Hpe' & Hwr & Hu').
  pose proof Hw as ((a & Hsome & Hfa) & _ & _ & _ & Hfm).
  assert (Hi : info_u64 info').
  { split_and!; [done|done|rewrite Hsome; by apply Hfit|]. rewrite <- Hwr. eapply Forall_impl; [exact Hfm|exact Hfit]. }
  destruct (serialize_info_cases widths info' Hi) as [[_ (a' & Ha' & Hser)]|[Hno _]]; [|done].
  exists (info_bytes widths info' a'). split; [done|]. intros Hz.
  rewrite (parse_written widths info' a' rest Hi Hw Ha' Hz), Hwr. destruct info'; simpl in *. by rewrite Ha'.
Qed.

End Facts.
