(* ===== verification/FilterErrors.v ===== *)
(** * Errors of the filter crate

    Models the constructors of [Error] in
    [crates/hdf5-pure-filter/src/error.rs] that the modelled filters return, and
    [decode_reservation] of [lib.rs].  The constructors of the ZFP feature are left
    out with that feature. *)

From stdpp Require Import strings.
From S2P Require Import Prelude Addresses Words.

Local Open Scope Z_scope.

Inductive FilterError : Type :=
| DataSizeMismatch (expected actual : Z)
| DeflateSizeExceeded (limit required : Z)
| FilterFailure (reason : string)
| Fletcher32Mismatch (expected computed : Z)
| InvalidDeflateLevel (level : Z)
| InvalidLzfStream (reason : string)
| LzfSizeExceeded (limit required : Z)
| Pipeline (error : FormatError)
| ScaleOffsetError (reason : string)
| ScaleOffsetValueTooLargeForPlatform (value : Z) (target : string)
| UnsupportedFilter (id : Z).

#[global] Instance FilterError_eq_dec : EqDecision FilterError.
Proof. solve_decision. Defined.

Notation filtered A := (outcome (result A FilterError)).

Section Reservation.
Context `{Platform}.

Definition decode_reservation (cap : option Z) (in_size max_expansion : Z) : Z :=
  match cap with
  | None => 0
  | Some cap => Z.min cap (Z.min (in_size * max_expansion) USIZE_MAX)
  end.

End Reservation.
