(* ===== verification/Lzf.v ===== *)
(** * The LZF filter

    Models [crates/hdf5-pure-filter/src/lzf.rs]: the raw LZF decoder and the greedy
    single-probe encoder with its hash table.  The capacity reserved for the output
    has no effect on its bytes and is not part of the state. *)

From stdpp Require Import strings.
From S2P Require Import Prelude Addresses Words ByteFields ByteFieldFacts Checksums FilterErrors.

Local Open Scope Z_scope.

Definition MAX_LITERAL_RUN : Z := 32.
Definition MAX_MATCH_LEN : Z := 264.
Definition MAX_MATCH_DISTANCE : Z := Z.shiftl 1 13.
Definition HASH_TABLE_SLOTS : Z := Z.shiftl 1 13.
Definition HASH_TABLE_BITS : Z := 13.
Definition MAX_EXPANSION : Z := MAX_MATCH_LEN / 3.
Definition H5PY_FILTER_LZF_VERSION : Z := 4.
Definition LIBLZF_API_VERSION : Z := 0x0105.

(** [try_fold] with checked multiplications. *)
Fixpoint checked_product (acc : Z) (dims : list Z) : option Z :=
  match dims with
  | [] => Some acc
  | d :: dims => acc ← checked_mul acc d; checked_product acc dims
  end.

Definition h5py_cd_values (element_size : Z) (chunk_dims : list Z) : list Z :=
  let chunk_bytes :=
    match checked_product element_size chunk_dims with
    | Some b => if b <=? 0xFFFFFFFF then b else 0
    | None => 0
    end in
  [H5PY_FILTER_LZF_VERSION; LIBLZF_API_VERSION; chunk_bytes].

(** ** Decoding *)

(** [for i in start..start + len { let byte = out[i]; out.push(byte) }] *)
Fixpoint push_overlapping (len : nat) (i : Z) (out : list Z) : outcome (list Z) :=
  match len with
  | O => Ret out
  | S len => byte ← index out i; push_overlapping len (i + 1) (out ++ [byte])
  end.

Definition copy_match (out : list Z) (distance len : Z) : outcome (list Z) :=
  let start := zlen out - distance in
  if len <=? distance then (copied ← slice out start (start + len); Ret (out ++ copied))
  else push_overlapping (Z.to_nat len) start out.

(** [input.get(ip)] *)
Definition get_byte (input : list Z) (ip : Z) : option Z := input !! Z.to_nat ip.

Section Codec.
Context `{Platform}.

(** The back-reference after control byte [ctrl]: the new output and position. *)
Definition decode_match (input : list Z) (cap ip ctrl : Z) (out : list Z) : filtered (list Z * Z) :=
  let len := Z.shiftr ctrl 5 in
  '(len, ip) ←?
    (if len =? 7 then
       match get_byte input ip with
       | Some b => ok (len + b, ip + 1)
       | None => fail (InvalidLzfStream "truncated match length")
       end
     else ok (len, ip));
  let len := len + 2 in
  match get_byte input ip with
  | None => fail (InvalidLzfStream "truncated match offset")
  | Some low =>
    let ip := ip + 1 in
    let distance := Z.lor (Z.shiftl (Z.land ctrl 0x1f) 8) low + 1 in
    if zlen out <? distance then fail (InvalidLzfStream "match reaches before start of output")
    else if cap <? zlen out + len then fail (LzfSizeExceeded cap (zlen out + len))
    else out ← copy_match out distance len; ok (out, ip)
  end.

(** The output and what the call returns: a decoded prefix stays in the output after
    an error. *)
Fixpoint decompress_loop (fuel : nat) (input : list Z) (cap ip : Z) (out : list Z)
    : outcome (list Z * result unit FilterError) :=
  if ip <? zlen input then
    match fuel with
    | O => Panic
    | S fuel =>
      ctrl ← index input ip;
      let ip := ip + 1 in
      if ctrl <? MAX_LITERAL_RUN then
        let len := ctrl + 1 in
        match get_range input ip (ip + len) with
        | None => Ret (out, Err (InvalidLzfStream "truncated literal run"))
        | Some literals =>
          if cap <? zlen out + len then Ret (out, Err (LzfSizeExceeded cap (zlen out + len)))
          else decompress_loop fuel input cap (ip + len) (out ++ literals)
        end
      else
        r ← decode_match input cap ip ctrl out;
        match r with
        | Ok (out, ip) => decompress_loop fuel input cap ip out
        | Err e => Ret (out, Err e)
        end
    end
  else Ret (out, Ok tt).

Definition decompress_into (input : list Z) (max_output : option Z) (out : list Z)
    : outcome (list Z * result unit FilterError) :=
  decompress_loop (length input) input (default USIZE_MAX max_output) 0 out.

Definition decompress (input : list Z) (max_output : option Z) : filtered (list Z) :=
  '(out, r) ← decompress_into input max_output [];
  match r with Ok _ => ok out | Err e => fail e end.

(** ** Encoding *)

(** The product wraps at the width of [usize]. *)
Definition hash (a b c : Z) : Z :=
  let v := Z.lor (Z.lor (Z.shiftl a 16) (Z.shiftl b 8)) c in
  Z.land (Z.shiftr ((v * 0x9E3779B1) mod (USIZE_MAX + 1)) (32 - HASH_TABLE_BITS)) (HASH_TABLE_SLOTS - 1).

Fixpoint flush_literals (fuel : nat) (out input : list Z) (i to : Z) : outcome (list Z) :=
  if i <? to then
    match fuel with
    | O => Panic
    | S fuel =>
      let n := Z.min (to - i) MAX_LITERAL_RUN in
      literals ← slice input i (i + n);
      flush_literals fuel (out ++ [(n - 1) mod 256] ++ literals) input (i + n) to
    end
  else Ret out.

(** [while len < max_len && input[match_pos + len] == input[ip + len] { len += 1 }] *)
Fixpoint extend_match (fuel : nat) (input : list Z) (match_pos ip max_len len : Z) : outcome Z :=
  if len <? max_len then
    match fuel with
    | O => Panic
    | S fuel =>
      a ← index input (match_pos + len);
      b ← index input (ip + len);
      if a =? b then extend_match fuel input match_pos ip max_len (len + 1) else Ret len
    end
  else Ret len.

(** The token of a match of [len] bytes at [distance]. *)
Definition match_token (distance len : Z) : list Z :=
  let off := distance - 1 in
  let encoded_len := len - 2 in
  (if encoded_len <? 7 then [Z.lor (Z.shiftl encoded_len 5) (Z.shiftr off 8) mod 256]
   else [Z.lor (Z.shiftl 7 5) (Z.shiftr off 8) mod 256; (encoded_len - 7) mod 256])
  ++ [Z.land off 0xff].

(** The match at [ip] the candidate slot offers, if it is one.  The distance is an
    unchecked subtraction, a panic if it underflows. *)
Definition find_match (input : list Z) (candidate ip : Z) : outcome (option (Z * Z)) :=
  if 0 <? candidate then
    let match_pos := candidate - 1 in
    distance ← expect (checked_sub ip match_pos);
    if (1 <=? distance) && (distance <=? MAX_MATCH_DISTANCE) then
      here ← slice input match_pos (match_pos + 3);
      there ← slice input ip (ip + 3);
      if bool_decide (here = there) then
        let max_len := Z.min (zlen input - ip) MAX_MATCH_LEN in
        len ← extend_match (Z.to_nat max_len) input match_pos ip max_len 3;
        Ret (Some (distance, len))
      else Ret None
    else Ret None
  else Ret None.

Fixpoint compress_loop (fuel : nat) (input table : list Z) (ip literal_start : Z) (out : list Z)
    : outcome (list Z) :=
  if ip + 2 <? zlen input then
    match fuel with
    | O => Panic
    | S fuel =>
      a ← index input ip;
      b ← index input (ip + 1);
      c ← index input (ip + 2);
      let slot := hash a b c in
      candidate ← index table slot;
      let table := <[Z.to_nat slot := ip + 1]> table in
      found ← find_match input candidate ip;
      match found with
      | Some (distance, len) =>
        out ← flush_literals (length input) out input literal_start ip;
        compress_loop fuel input table (ip + len) (ip + len) (out ++ match_token distance len)
      | None => compress_loop fuel input table (ip + 1) literal_start out
      end
    end
  else flush_literals (length input) out input literal_start (zlen input).

Definition compress_into (input out : list Z) : outcome (list Z) :=
  compress_loop (length input) input (replicate (Z.to_nat HASH_TABLE_SLOTS) 0) 0 0 out.

Definition compress (input : list Z) : outcome (list Z) := compress_into input [].

End Codec.

(** ** Facts about the LZF filter

    What the decoder does with each token, what the encoder emits, and that decoding
    the encoder's output gives the input back. *)

Section Tokens.
Context `{Platform}.

(** The stream [s] takes a decoder from output [out] to output [out'], wherever it
    stands and whatever follows it. *)
Definition decodes (s out out' : list Z) : Prop :=
  zlen out ≤ zlen out' ∧
  ∀ input p rest cap fuel,
    input = p ++ s ++ rest → (length s + length rest ≤ fuel)%nat → zlen out' ≤ cap →
    ∃ fuel', (length rest ≤ fuel')%nat ∧
      decompress_loop fuel input cap (zlen p) out
      = decompress_loop fuel' input cap (zlen p + zlen s) out'.

Lemma decodes_nil out : decodes [] out out.
Proof.
  split; [done|]. intros input p rest cap fuel -> Hf Hc. exists fuel.
  split; [simpl in Hf; lia|]. by rewrite zlen_nil, Z.add_0_r.
Qed.

Lemma decodes_app s1 s2 out0 out1 out2 :
  decodes s1 out0 out1 → decodes s2 out1 out2 → decodes (s1 ++ s2) out0 out2.
Proof.
  intros [Hl1 H1] [Hl2 H2]. split; [lia|]. intros input p rest cap fuel -> Hf Hc.
  rewrite length_app in Hf.
  destruct (H1 (p ++ (s1 ++ s2) ++ rest) p (s2 ++ rest) cap fuel) as (f1 & Hf1 & E1).
  { by rewrite <- app_assoc. } { rewrite length_app. lia. } { lia. }
  destruct (H2 (p ++ (s1 ++ s2) ++ rest) (p ++ s1) rest cap f1) as (f2 & Hf2 & E2).
  { by rewrite <- !app_assoc. } { rewrite length_app in Hf1. lia. } { lia. }
  exists f2. split; [done|]. rewrite E1. rewrite zlen_app in E2. rewrite E2, zlen_app.
  by rewrite Z.add_assoc.
Qed.

Lemma index_app (p s : list Z) (b : Z) : index (p ++ b :: s) (zlen p) = Ret b.
Proof.
  apply index_Ret; [apply zlen_nonneg|]. unfold zlen. rewrite Nat2Z.id.
  rewrite lookup_app_r by lia. by rewrite Nat.sub_diag.
Qed.

Lemma get_byte_app (p s : list Z) (b : Z) (k : Z) : k = zlen p → get_byte (p ++ b :: s) k = Some b.
Proof.
  intros ->. unfold get_byte, zlen. rewrite Nat2Z.id.
  rewrite lookup_app_r by lia. by rewrite Nat.sub_diag.
Qed.

(** A literal run appends its bytes. *)
Lemma decodes_literals out lits :
  1 ≤ zlen lits ≤ 32 → decodes ([zlen lits - 1] ++ lits) out (out ++ lits).
Proof.
  intros Hn. split; [rewrite zlen_app; lia|]. intros input p rest cap fuel -> Hf Hc.
  simpl in Hf. destruct fuel as [|fuel]; [lia|]. exists fuel.
  split; [lia|]. simpl. set (n := zlen lits) in *.
  destruct (zlen p <? _) eqn:E.
  2:{ rewrite !zlen_app, zlen_cons in E. pose proof (zlen_nonneg (lits ++ rest)).
      rewrite zlen_app in *. lia. }
  rewrite index_app. cbn [mbind outcome_bind].
  destruct (n - 1 <? MAX_LITERAL_RUN) eqn:E1; [|unfold MAX_LITERAL_RUN in E1; lia].
  replace (n - 1 + 1) with n by lia.
  assert (Hg : get_range (p ++ n - 1 :: lits ++ rest) (zlen p + 1) (zlen p + 1 + n) = Some lits).
  { change (p ++ n - 1 :: lits ++ rest) with (p ++ [n - 1] ++ lits ++ rest). rewrite app_assoc.
    apply get_range_app; rewrite zlen_app, zlen_cons, zlen_nil; fold n; lia. }
  rewrite Hg. rewrite zlen_app in Hc. fold n in Hc. destruct (cap <? zlen out + n) eqn:E2; [lia|].
  f_equal. rewrite zlen_cons. fold n. lia.
Qed.

(** What a match token stores. *)
Lemma match_token_parts distance len :
  1 ≤ distance ≤ 8192 → 3 ≤ len ≤ 264 →
  let off := distance - 1 in
  (len ≤ 8 ∧ match_token distance len = [(len - 2) * 32 + off / 256; off mod 256]) ∨
  (9 ≤ len ∧ match_token distance len = [7 * 32 + off / 256; len - 9; off mod 256]).
Proof.
  intros Hd Hl off. unfold match_token. fold off.
  assert (Hoff : 0 ≤ off < 8192) by lia.
  assert (Hhi : 0 ≤ off / 256 < 32) by (split; [apply Z.div_pos|apply Z.div_lt_upper_bound]; lia).
  rewrite Z.shiftr_div_pow2 by lia. change (2 ^ 8) with 256.
  assert (Hlow : Z.land off 255 = off mod 256) by (apply (Z.land_ones off 8); lia).
  rewrite Hlow.
  assert (Hor : ∀ k, 0 ≤ k < 8 → Z.lor (Z.shiftl k 5) (off / 256) mod 256 = k * 32 + off / 256).
  { intros k Hk. rewrite Z.lor_comm, lor_shiftl_add by lia. rewrite Z.mod_small; lia. }
  destruct (len - 2 <? 7) eqn:E.
  - left. split; [lia|]. rewrite Hor by lia. done.
  - right. split; [lia|]. rewrite Hor by lia. rewrite (Z.mod_small (len - 2 - 7)) by lia.
    by replace (len - 2 - 7) with (len - 9) by lia.
Qed.

(** The decoder's reading of the first byte of a match token. *)
Lemma ctrl_parts k h : 0 ≤ k < 8 → 0 ≤ h < 32 →
  Z.shiftr (k * 32 + h) 5 = k ∧ Z.shiftl (Z.land (k * 32 + h) 0x1f) 8 = h * 256.
Proof.
  intros Hk Hh. split.
  - rewrite Z.shiftr_div_pow2 by lia. change (2 ^ 5) with 32.
    rewrite Z.div_add_l, Z.div_small by lia. lia.
  - change 0x1f with (Z.ones 5). rewrite Z.land_ones, Z.shiftl_mul_pow2 by lia.
    change (2 ^ 5) with 32. change (2 ^ 8) with 256.
    rewrite Z.add_comm, Z.mod_add, Z.mod_small by lia. done.
Qed.

Lemma distance_parts off : 0 ≤ off < 8192 → Z.lor (off / 256 * 256) (off mod 256) + 1 = off + 1.
Proof.
  intros Ho. rewrite Z.lor_comm.
  replace (off / 256 * 256) with (Z.shiftl (off / 256) 8) by (rewrite Z.shiftl_mul_pow2; lia).
  rewrite lor_shiftl_add by (try apply Z.mod_pos_bound; lia).
  change (2 ^ 8) with 256. pose proof (Z.div_mod off 256 ltac:(lia)). lia.
Qed.

(** A match token appends the copied bytes. *)
Lemma decodes_match out out' distance len :
  1 ≤ distance ≤ 8192 → 3 ≤ len ≤ 264 → distance ≤ zlen out →
  copy_match out distance len = Ret out' → zlen out' = zlen out + len →
  decodes (match_token distance len) out out'.
Proof.
  intros Hd Hl Hout Hcopy Hlen. split; [lia|]. intros input p rest cap fuel -> Hf Hc.
  set (off := distance - 1). assert (Hoff : 0 ≤ off < 8192) by lia.
  assert (Hhi : 0 ≤ off / 256 < 32) by (split; [apply Z.div_pos|apply Z.div_lt_upper_bound]; lia).
  pose proof (match_token_parts distance len Hd Hl) as Hparts. cbv zeta in Hparts. fold off in Hparts.
  assert (Hdist : Z.lor (off / 256 * 256) (off mod 256) + 1 = distance)
    by (rewrite distance_parts; lia).
  destruct Hparts as [[Hlt Htok]|[Hge Htok]]; rewrite Htok in *; simpl in Hf;
    (destruct fuel as [|fuel]; [lia|]); exists fuel; (split; [lia|]); simpl.
  - destruct (ctrl_parts (len - 2) (off / 256)) as [Hc1 Hc2]; [lia|lia|].
    destruct (zlen p <? _) eqn:E.
    2:{ rewrite zlen_app, !zlen_cons in E. pose proof (zlen_nonneg rest). lia. }
    rewrite index_app. cbn [mbind outcome_bind].
    destruct (_ <? MAX_LITERAL_RUN) eqn:E1; [unfold MAX_LITERAL_RUN in E1; lia|].
    unfold decode_match. rewrite Hc1, Hc2. destruct (len - 2 =? 7) eqn:E7; [lia|].
    rewrite and_then_ok. cbv zeta.
    rewrite (cons_middle _ p), app_assoc.
    rewrite get_byte_app by (rewrite zlen_app, zlen_cons, zlen_nil; lia). rewrite Hdist.
    destruct (zlen out <? distance) eqn:E2; [lia|]. replace (len - 2 + 2) with len by lia.
    destruct (cap <? zlen out + len) eqn:E3; [lia|]. rewrite Hcopy. cbn [mbind outcome_bind].
    unfold ok. cbn [mbind outcome_bind]. rewrite !zlen_cons, zlen_nil. f_equal. lia.
  - destruct (ctrl_parts 7 (off / 256)) as [Hc1 Hc2]; [lia|lia|].
    destruct (zlen p <? _) eqn:E.
    2:{ rewrite zlen_app, !zlen_cons in E. pose proof (zlen_nonneg rest). lia. }
    rewrite index_app. cbn [mbind outcome_bind].
    destruct (_ <? MAX_LITERAL_RUN) eqn:E1; [unfold MAX_LITERAL_RUN in E1; lia|].
    unfold decode_match. change (7 * 32) with 224 in *. rewrite Hc1, Hc2. change (7 =? 7) with true.
    cbv iota. rewrite (cons_middle _ p), app_assoc.
    rewrite get_byte_app by (rewrite zlen_app, zlen_cons, zlen_nil; lia).
    rewrite and_then_ok. cbv zeta.
    rewrite (cons_middle (len - 9)), app_assoc.
    rewrite get_byte_app by (rewrite !zlen_app, !zlen_cons, zlen_nil; lia). rewrite Hdist.
    destruct (zlen out <? distance) eqn:E2; [lia|]. replace (7 + (len - 9) + 2) with len by lia.
    destruct (cap <? zlen out + len) eqn:E3; [lia|]. rewrite Hcopy. cbn [mbind outcome_bind].
    unfold ok. cbn [mbind outcome_bind]. rewrite !zlen_cons, zlen_nil. f_equal. lia.
Qed.

End Tokens.

(** ** Copies *)

(** [len] bytes from [ip] repeat the bytes [distance] before them. *)
Definition repeats (input : list Z) (ip distance len : Z) : Prop :=
  ∀ j, 0 ≤ j < len → input !! Z.to_nat (ip - distance + j) = input !! Z.to_nat (ip + j).

Lemma repeats_weaken input ip distance len len' :
  repeats input ip distance len → len' ≤ len → repeats input ip distance len'.
Proof. intros Hr Hle j Hj. apply Hr. lia. Qed.

Lemma push_overlapping_spec (len : nat) input ip distance :
  1 ≤ distance ≤ ip → ip + Z.of_nat len ≤ zlen input → repeats input ip distance (Z.of_nat len) →
  push_overlapping len (ip - distance) (take (Z.to_nat ip) input)
  = Ret (take (Z.to_nat (ip + Z.of_nat len)) input).
Proof.
  revert ip. induction len as [|len IH]; intros ip Hd Hle Hr; simpl.
  - by rewrite Z.add_0_r.
  - unfold zlen in Hle.
    destruct (lookup_lt_is_Some_2 input (Z.to_nat ip)) as [b Hb]; [lia|].
    assert (Hb' : input !! Z.to_nat (ip - distance) = Some b).
    { rewrite <- Hb. specialize (Hr 0 ltac:(lia)). by rewrite !Z.add_0_r in Hr. }
    rewrite (index_Ret _ _ b); [|lia|rewrite lookup_take_lt by lia; done].
    cbn [mbind outcome_bind]. rewrite <- (take_S_r _ _ _ Hb).
    replace (S (Z.to_nat ip)) with (Z.to_nat (ip + 1)) by lia.
    replace (ip - distance + 1) with (ip + 1 - distance) by lia. rewrite IH.
    + f_equal. f_equal. lia.
    + lia.
    + unfold zlen. lia.
    + intros j Hj. specialize (Hr (j + 1) ltac:(lia)).
      replace (ip + 1 - distance + j) with (ip - distance + (j + 1)) by lia.
      by replace (ip + 1 + j) with (ip + (j + 1)) by lia.
Qed.

Lemma take_drop_ext (l : list Z) (a b n : nat) :
  (∀ j, (j < n)%nat → l !! (a + j)%nat = l !! (b + j)%nat) →
  (a + n ≤ length l)%nat → (b + n ≤ length l)%nat → take n (drop a l) = take n (drop b l).
Proof.
  intros He Ha Hb. apply list_eq. intros j. destruct (decide (j < n)%nat) as [Hj|Hj].
  - rewrite !lookup_take_lt, !lookup_drop by done. by apply He.
  - rewrite !lookup_take_ge by lia. done.
Qed.

(** A back-reference to repeated bytes continues the input. *)
Lemma copy_match_spec input ip distance len :
  1 ≤ distance ≤ ip → 0 ≤ len → ip + len ≤ zlen input → repeats input ip distance len →
  copy_match (take (Z.to_nat ip) input) distance len = Ret (take (Z.to_nat (ip + len)) input).
Proof.
  intros Hd Hl Hle Hr. unfold copy_match. rewrite zlen_take by lia.
  destruct (len <=? distance) eqn:E.
  - unfold slice. destruct (get_range _ _ _) as [s|] eqn:Es.
    2:{ apply get_range_None in Es. rewrite zlen_take in Es by lia. lia. }
    apply get_range_Some in Es as (_ & _ & ->). cbn [expect mbind outcome_bind]. f_equal.
    replace (ip - distance + len - (ip - distance)) with len by lia. unfold zlen in Hle.
    rewrite <- (take_drop (Z.to_nat ip) (take (Z.to_nat (ip + len)) input)).
    rewrite take_take, Nat.min_l by lia. f_equal.
    rewrite !skipn_firstn_comm, take_take, Nat.min_l by lia.
    replace (Z.to_nat (ip + len) - Z.to_nat ip)%nat with (Z.to_nat len) by lia.
    apply take_drop_ext; [|lia|lia]. intros j Hj. specialize (Hr (Z.of_nat j) ltac:(lia)).
    replace (Z.to_nat (ip - distance) + j)%nat with (Z.to_nat (ip - distance + Z.of_nat j)) by lia.
    by replace (Z.to_nat ip + j)%nat with (Z.to_nat (ip + Z.of_nat j)) by lia.
  - pose proof (push_overlapping_spec (Z.to_nat len) input ip distance) as Hp.
    rewrite Z2Nat.id in Hp by lia. by apply Hp.
Qed.

(** ** The encoder *)

Section Encoder.
Context `{Platform}.

(** The bytes from [a] to [b]. *)
Definition segment (input : list Z) (a b : Z) : list Z :=
  take (Z.to_nat (b - a)) (drop (Z.to_nat a) input).

Lemma segment_split (input : list Z) a b c :
  0 ≤ a ≤ b → b ≤ c → segment input a c = segment input a b ++ segment input b c.
Proof.
  intros Hab Hbc. unfold segment.
  rewrite <- (take_drop (Z.to_nat (b - a)) (take (Z.to_nat (c - a)) (drop (Z.to_nat a) input))).
  rewrite take_take, Nat.min_l by lia. f_equal.
  rewrite skipn_firstn_comm, drop_drop. f_equal; [lia|]. f_equal. lia.
Qed.

Lemma segment_nil (input : list Z) a : segment input a a = [].
Proof. unfold segment. by rewrite Z.sub_diag. Qed.

Lemma take_segment (input : list Z) a b :
  0 ≤ a ≤ b → take (Z.to_nat a) input ++ segment input a b = take (Z.to_nat b) input.
Proof.
  intros Hab. pose proof (segment_split input 0 a b) as Hs. unfold segment in *.
  rewrite !Z.sub_0_r, drop_0 in Hs. rewrite Hs by lia. done.
Qed.

(** Literal tokens decode to the bytes they cover and at most double them. *)
Lemma flush_literals_spec fuel input out i to :
  0 ≤ i ≤ to → to ≤ zlen input → (Z.to_nat (to - i) ≤ fuel)%nat → Forall byte input →
  ∃ toks, flush_literals fuel out input i to = Ret (out ++ toks) ∧
    (∀ o, decodes toks o (o ++ segment input i to)) ∧ zlen toks ≤ 2 * (to - i) ∧ Forall byte toks.
Proof.
  intros Hi Hto Hf Hb. revert out i Hi Hf. induction fuel as [|fuel IH]; intros out i Hi Hf; simpl.
  - destruct (i <? to) eqn:E; [lia|]. assert (i = to) as -> by lia. exists [].
    rewrite app_nil_r. split_and!; [done| |rewrite zlen_nil; lia|done].
    intros o. rewrite segment_nil, app_nil_r. apply decodes_nil.
  - destruct (i <? to) eqn:E.
    2:{ assert (i = to) as -> by lia. exists []. rewrite app_nil_r.
        split_and!; [done| |rewrite zlen_nil; lia|done].
        intros o. rewrite segment_nil, app_nil_r. apply decodes_nil. }
    set (n := Z.min (to - i) MAX_LITERAL_RUN). assert (Hn : 1 ≤ n ≤ 32 ∧ n ≤ to - i) by (unfold n, MAX_LITERAL_RUN; lia).
    unfold slice. destruct (get_range input i (i + n)) as [lits|] eqn:Eg.
    2:{ apply get_range_None in Eg. lia. }
    pose proof (get_range_zlen _ _ _ _ Eg) as Hz. pose proof (get_range_Forall _ _ _ _ _ Hb Eg) as Hbl.
    apply get_range_Some in Eg as (_ & _ & Hl).
    cbn [expect mbind outcome_bind]. rewrite Z.mod_small by lia.
    destruct (IH (out ++ (n - 1) :: lits) (i + n)) as (toks & -> & Hd & Hle & Hbt); [lia|lia|].
    exists (([n - 1] ++ lits) ++ toks). split_and!.
    + by rewrite <- !app_assoc.
    + intros o. rewrite (segment_split input i (i + n) to), app_assoc by lia.
      eapply decodes_app; [|apply Hd].
      replace (segment input i (i + n)) with lits by (rewrite Hl; done).
      replace (n - 1) with (zlen lits - 1) by lia. apply decodes_literals. lia.
    + rewrite !zlen_app, zlen_cons, zlen_nil. lia.
    + repeat apply Forall_app_2; try done. apply Forall_singleton. unfold byte. lia.
Qed.

Lemma index_input (input : list Z) i : 0 ≤ i < zlen input →
  ∃ b, index input i = Ret b ∧ input !! Z.to_nat i = Some b.
Proof.
  intros Hi. unfold zlen in Hi.
  destruct (lookup_lt_is_Some_2 input (Z.to_nat i)) as [b Hb]; [lia|].
  exists b. split; [apply index_Ret; [lia|done]|done].
Qed.

Lemma extend_match_spec fuel input match_pos ip max_len len :
  0 ≤ match_pos < ip → ip + max_len ≤ zlen input → 0 ≤ len ≤ max_len →
  (Z.to_nat (max_len - len) ≤ fuel)%nat → repeats input ip (ip - match_pos) len →
  ∃ len', extend_match fuel input match_pos ip max_len len = Ret len' ∧
    len ≤ len' ≤ max_len ∧ repeats input ip (ip - match_pos) len'.
Proof.
  intros Hm Hip. revert len. induction fuel as [|fuel IH]; intros len Hl Hf Hr; simpl.
  - destruct (len <? max_len) eqn:E; [lia|]. exists len. split_and!; (done || lia).
  - destruct (len <? max_len) eqn:E; [|exists len; split_and!; (done || lia)].
    destruct (index_input input (match_pos + len)) as (a & -> & Ha); [lia|]. cbn [mbind outcome_bind].
    destruct (index_input input (ip + len)) as (b & -> & Hb); [lia|]. cbn [mbind outcome_bind].
    destruct (a =? b) eqn:Eab; [|exists len; split_and!; (done || lia)].
    apply Z.eqb_eq in Eab as ->. destruct (IH (len + 1)) as (len' & -> & Hl' & Hr'); [lia|lia| |].
    + intros j Hj. destruct (decide (j = len)) as [->|]; [|apply Hr; lia].
      replace (ip - (ip - match_pos) + len) with (match_pos + len) by lia. by rewrite Ha, Hb.
    + exists len'. split_and!; (done || lia).
Qed.

(** A found match repeats earlier input. *)
Lemma find_match_spec input candidate ip :
  0 ≤ candidate ≤ ip → ip + 2 < zlen input →
  ∃ found, find_match input candidate ip = Ret found ∧
    match found with
    | None => True
    | Some (distance, len) =>
      1 ≤ distance ≤ 8192 ∧ distance ≤ ip ∧ 3 ≤ len ≤ 264 ∧ ip + len ≤ zlen input ∧
      repeats input ip distance len
    end.
Proof.
  intros Hc Hip. unfold find_match. destruct (0 <? candidate) eqn:E0; [|by exists None].
  unfold checked_sub. destruct (candidate - 1 <=? ip) eqn:Es; [|lia]. cbn [expect mbind outcome_bind].
  set (d := ip - (candidate - 1)). destruct ((1 <=? d) && (d <=? MAX_MATCH_DISTANCE)) eqn:Ed; [|by exists None].
  change MAX_MATCH_DISTANCE with 8192 in Ed.
  unfold slice. destruct (get_range input (candidate - 1) (candidate - 1 + 3)) as [here|] eqn:Eh.
  2:{ apply get_range_None in Eh. lia. }
  cbn [expect mbind outcome_bind].
  destruct (get_range input ip (ip + 3)) as [there|] eqn:Et.
  2:{ apply get_range_None in Et. lia. }
  cbn [expect mbind outcome_bind]. destruct (bool_decide (here = there)) eqn:Eb; [|by exists None].
  apply bool_decide_eq_true in Eb as <-.
  apply get_range_Some in Eh as (_ & _ & Hh). apply get_range_Some in Et as (_ & _ & Ht).
  set (max_len := Z.min (zlen input - ip) MAX_MATCH_LEN). change MAX_MATCH_LEN with 264 in max_len.
  destruct (extend_match_spec (Z.to_nat max_len) input (candidate - 1) ip max_len 3)
    as (len & -> & Hl & Hr); [lia|lia|lia|lia| |].
  - intros j Hj.
    assert (Hj1 : input !! Z.to_nat (candidate - 1 + j) = here !! Z.to_nat j).
    { rewrite Hh, lookup_take_lt, lookup_drop by lia. f_equal. lia. }
    assert (Hj2 : input !! Z.to_nat (ip + j) = here !! Z.to_nat j).
    { rewrite Ht, lookup_take_lt, lookup_drop by lia. f_equal. lia. }
    rewrite Hj2, <- Hj1. f_equal. lia.
  - cbn [mbind outcome_bind]. exists (Some (d, len)). split; [done|]. split_and!; (done || lia).
Qed.

Lemma hash_bounds a b c : 0 ≤ hash a b c < 8192.
Proof.
  unfold hash. change (HASH_TABLE_SLOTS - 1) with (Z.ones 13).
  rewrite Z.land_ones by lia. apply Z.mod_pos_bound. lia.
Qed.

Lemma match_token_byte distance len :
  1 ≤ distance ≤ 8192 → 3 ≤ len ≤ 264 → Forall byte (match_token distance len) ∧
  zlen (match_token distance len) ≤ len.
Proof.
  intros Hd Hl. pose proof (match_token_parts distance len Hd Hl) as Hp. cbv zeta in Hp.
  set (off := distance - 1) in *.
  assert (Hhi : 0 ≤ off / 256 < 32) by (split; [apply Z.div_pos|apply Z.div_lt_upper_bound]; lia).
  pose proof (Z.mod_pos_bound off 256 ltac:(lia)).
  destruct Hp as [[? ->]|[? ->]]; split; try (repeat constructor; lia);
    rewrite !zlen_cons, zlen_nil; lia.
Qed.

(** The literals that end the stream. *)
Lemma compress_tail input ls out :
  Forall byte input → 0 ≤ ls ≤ zlen input →
  decodes out [] (take (Z.to_nat ls) input) → zlen out ≤ 2 * ls → Forall byte out →
  ∃ out', flush_literals (length input) out input ls (zlen input) = Ret out' ∧
    decodes out' [] input ∧ zlen out' ≤ 2 * zlen input ∧ Forall byte out'.
Proof.
  intros Hb Hls Hd Hz Hbo.
  destruct (flush_literals_spec (length input) input out ls (zlen input))
    as (toks & -> & Htd & Htz & Htb); [lia|lia|unfold zlen; lia|done|].
  exists (out ++ toks). split_and!; [done| |rewrite zlen_app; lia|by apply Forall_app_2].
  eapply decodes_app; [exact Hd|]. specialize (Htd (take (Z.to_nat ls) input)).
  rewrite take_segment in Htd by lia. by rewrite (take_ge input (Z.to_nat (zlen input))) in Htd by (unfold zlen; lia).
Qed.

(** The state of the encoder at [ip]: the tokens so far decode to the input before
    the pending literals. *)
Lemma compress_loop_spec fuel input table ip literal_start out :
  Forall byte input → 0 ≤ literal_start ≤ ip → ip ≤ zlen input →
  zlen table = HASH_TABLE_SLOTS → Forall (λ c, 0 ≤ c ≤ ip) table → (Z.to_nat (zlen input - ip) ≤ fuel)%nat →
  decodes out [] (take (Z.to_nat literal_start) input) → zlen out ≤ 2 * literal_start →
  Forall byte out →
  ∃ out', compress_loop fuel input table ip literal_start out = Ret out' ∧
    decodes out' [] input ∧ zlen out' ≤ 2 * zlen input ∧ Forall byte out'.
Proof.
  intros Hb. revert table ip literal_start out.
  induction fuel as [|fuel IH]; intros table ip ls out Hls Hip Htl Ht Hf Hd Hz Hbo;
    cbn [compress_loop].
  { destruct (ip + 2 <? zlen input) eqn:E; [lia|]. apply compress_tail; (done || lia). }
  destruct (ip + 2 <? zlen input) eqn:E; [|apply compress_tail; (done || lia)].
  destruct (index_input input ip) as (a & -> & _); [lia|]. cbn [mbind outcome_bind].
  destruct (index_input input (ip + 1)) as (b & -> & _); [lia|]. cbn [mbind outcome_bind].
  destruct (index_input input (ip + 2)) as (c & -> & _); [lia|]. cbn [mbind outcome_bind].
  pose proof (hash_bounds a b c) as Hh. set (slot := hash a b c) in *.
  destruct (lookup_lt_is_Some_2 table (Z.to_nat slot)) as [cand Hcand].
  { unfold zlen in Htl. change HASH_TABLE_SLOTS with 8192 in Htl. lia. }
  rewrite (index_Ret _ _ cand) by (done || lia). cbn [mbind outcome_bind].
  assert (Hc : 0 ≤ cand ≤ ip) by (by eapply Forall_lookup_1 in Ht).
  assert (Ht' : ∀ k, 1 ≤ k → Forall (λ c, 0 ≤ c ≤ ip + k) (<[Z.to_nat slot := ip + 1]> table)).
  { intros k Hk. apply Forall_insert; [|lia]. eapply Forall_impl; [exact Ht|]. simpl. lia. }
  assert (Htl' : zlen (<[Z.to_nat slot := ip + 1]> table) = HASH_TABLE_SLOTS)
    by (unfold zlen; by rewrite length_insert).
  destruct (find_match_spec input cand ip Hc ltac:(lia)) as ([[d len]|] & -> & Hfound);
    cbn [mbind outcome_bind].
  - destruct Hfound as (Hd1 & Hd2 & Hlen & Hle & Hr).
    destruct (flush_literals_spec (length input) input out ls ip) as (toks & -> & Htd & Htz & Htb);
      [lia|lia|unfold zlen in *; lia|done|]. cbn [mbind outcome_bind].
    destruct (match_token_byte d len Hd1 Hlen) as [Hmb Hmz].
    specialize (Htd (take (Z.to_nat ls) input)). rewrite take_segment in Htd by lia.
    apply IH; try done; try lia.
    + apply Ht'. lia.
    + eapply decodes_app; [eapply decodes_app; [exact Hd|exact Htd]|].
      apply decodes_match; try done.
      * rewrite zlen_take; lia.
      * apply copy_match_spec; (done || lia).
      * rewrite !zlen_take; lia.
    + rewrite !zlen_app. lia.
    + apply Forall_app_2; [by apply Forall_app_2|done].
  - apply IH; try done; try lia. apply Ht'. lia.
Qed.

(** Compression returns, at most doubles its input, and the decoder restores it. *)
Lemma compress_spec input :
  Forall byte input →
  ∃ enc, compress input = Ret enc ∧ Forall byte enc ∧ zlen enc ≤ 2 * zlen input ∧
    ∀ cap, zlen input ≤ cap → decompress_into enc (Some cap) [] = Ret (input, Ok tt).
Proof.
  intros Hb. unfold compress, compress_into.
  destruct (compress_loop_spec (length input) input (replicate (Z.to_nat HASH_TABLE_SLOTS) 0) 0 0 [])
    as (enc & He & [_ Hd] & Hz & Hbe).
  - done.
  - lia.
  - apply zlen_nonneg.
  - by rewrite zlen_replicate.
  - apply Forall_replicate. lia.
  - unfold zlen. lia.
  - simpl. apply decodes_nil.
  - done.
  - done.
  - exists enc. split_and!; try done. intros cap Hcap. unfold decompress_into. simpl.
    destruct (Hd enc [] [] cap (length enc)) as (fuel' & _ & Hdec).
    { by rewrite app_nil_r. } { simpl. lia. } { done. }
    simpl in Hdec. rewrite zlen_nil, Z.add_0_l in Hdec. change (Z.of_nat 0) with 0 in Hdec.
    rewrite Hdec. destruct fuel'; simpl; by rewrite Z.ltb_irrefl.
Qed.

End Encoder.

(** ** The decoder on arbitrary bytes *)

Section Decoder.
Context `{Platform}.

Lemma index_sound {T} (l : list Z) i (k : Z → filtered T) (Q : T → Prop) :
  0 ≤ i < zlen l → Forall byte l → (∀ b, byte b → k b ⇝? Q) → (index l i ≫= k) ⇝? Q.
Proof.
  intros Hi Hl Hk. destruct (index_input l i Hi) as (b & -> & Hb). simpl. apply Hk.
  by eapply Forall_lookup_1 in Hl.
Qed.

Lemma push_overlapping_sound len i out :
  0 ≤ i < zlen out → Forall byte out →
  ∃ out', push_overlapping len i out = Ret out' ∧ zlen out' = zlen out + Z.of_nat len ∧ Forall byte out'.
Proof.
  revert i out. induction len as [|len IH]; intros i out Hi Hb; simpl.
  - exists out. split_and!; [done|lia|done].
  - destruct (index_input out i Hi) as (b & -> & Hlk). cbn [mbind outcome_bind].
    destruct (IH (i + 1) (out ++ [b])) as (out' & -> & Hz & Hb').
    + autorewrite with zlen. lia.
    + apply Forall_app_2; [done|]. apply Forall_singleton. by eapply Forall_lookup_1 in Hb.
    + exists out'. autorewrite with zlen in Hz. split_and!; [done|lia|done].
Qed.

Lemma copy_match_sound out distance len :
  1 ≤ distance ≤ zlen out → 0 ≤ len → Forall byte out →
  ∃ out', copy_match out distance len = Ret out' ∧ zlen out' = zlen out + len ∧ Forall byte out'.
Proof.
  intros Hd Hl Hb. unfold copy_match. destruct (len <=? distance) eqn:E.
  - unfold slice. destruct (get_range _ _ _) as [s|] eqn:Es.
    2:{ apply get_range_None in Es. lia. }
    pose proof (get_range_zlen _ _ _ _ Es). pose proof (get_range_Forall _ _ _ _ _ Hb Es).
    simpl. eexists. split_and!; [done|rewrite zlen_app; lia|by apply Forall_app_2].
  - destruct (push_overlapping_sound (Z.to_nat len) (zlen out - distance) out) as (o & -> & ? & ?);
      [lia|done|]. exists o. split_and!; [done|lia|done].
Qed.

Lemma get_byte_sound input ip b :
  Forall byte input → 0 ≤ ip → get_byte input ip = Some b → byte b ∧ ip < zlen input.
Proof.
  intros Hb Hip Hg. unfold get_byte in Hg. split; [by eapply Forall_lookup_1 in Hb|].
  apply lookup_lt_Some in Hg. unfold zlen. lia.
Qed.

Lemma decode_match_sound input cap ip ctrl out :
  Forall byte input → Forall byte out → 0 ≤ ip → 0 ≤ ctrl →
  decode_match input cap ip ctrl out ⇝?
  (λ '(out', ip'), Forall byte out' ∧ zlen out' ≤ cap ∧ ip < ip').
Proof.
  intros Hi Ho Hip Hc. unfold decode_match.
  assert (Hlen : 0 ≤ Z.shiftr ctrl 5) by by apply Z.shiftr_nonneg.
  eapply sound_bind with (P := λ '(len, ip'), 0 ≤ len ∧ ip ≤ ip').
  - destruct (_ =? 7); [|apply sound_ok; lia].
    destruct (get_byte input ip) as [b|] eqn:E; [|apply sound_fail].
    apply get_byte_sound in E as [[? ?] _]; [|done..]. apply sound_ok. lia.
  - intros [len ip'] [Hl Hle]. cbv zeta.
    destruct (get_byte input ip') as [low|] eqn:E; [|apply sound_fail].
    apply get_byte_sound in E as [[Hlow _] _]; [|done|lia].
    assert (Hd : 0 ≤ Z.lor (Z.shiftl (Z.land ctrl 31) 8) low).
    { apply Z.lor_nonneg. split; [|done]. apply Z.shiftl_nonneg, Z.land_nonneg. by left. }
    destruct (zlen out <? _) eqn:E1; [apply sound_fail|].
    destruct (cap <? _) eqn:E2; [apply sound_fail|].
    destruct (copy_match_sound out (Z.lor (Z.shiftl (Z.land ctrl 31) 8) low + 1) (len + 2))
      as (o & -> & Hz & Hb); [lia|lia|done|]. cbn [mbind outcome_bind].
    apply sound_ok. split_and!; [done|lia|lia].
Qed.

Lemma decompress_loop_sound fuel input cap ip out :
  Forall byte input → Forall byte out → zlen out ≤ cap → 0 ≤ ip →
  (Z.to_nat (zlen input - ip) ≤ fuel)%nat →
  decompress_loop fuel input cap ip out ⇝ (λ '(out', _), Forall byte out' ∧ zlen out' ≤ cap).
Proof.
  intros Hi. revert ip out. induction fuel as [|fuel IH]; intros ip out Ho Hz Hip Hf; simpl;
    (destruct (ip <? zlen input) eqn:E; [try lia|by apply returns_ret]).
  destruct (index_input input ip ltac:(lia)) as (ctrl & -> & Hlk). cbn [mbind outcome_bind].
  assert (Hc : byte ctrl) by (by eapply Forall_lookup_1 in Hi). destruct Hc as [Hc0 _].
  destruct (ctrl <? MAX_LITERAL_RUN).
  - destruct (get_range input _ _) as [lits|] eqn:Eg; [|by apply returns_ret].
    pose proof (get_range_Forall _ _ _ _ _ Hi Eg). pose proof (get_range_zlen _ _ _ _ Eg).
    destruct (cap <? _) eqn:Ec; [by apply returns_ret|].
    apply IH; [by apply Forall_app_2|rewrite zlen_app; lia|lia|lia].
  - destruct (decode_match_sound input cap (ip + 1) ctrl out) as ([[out' ip']|e] & -> & Hr);
      [done|done|lia|lia| |]; cbn [mbind outcome_bind]; [|by apply returns_ret].
    destruct Hr as (? & ? & ?). apply IH; (done || lia).
Qed.

(** Decoding arbitrary bytes returns, and what it writes is within the bound. *)
Lemma decompress_into_sound input max_output :
  Forall byte input → match max_output with Some m => 0 ≤ m | None => True end →
  decompress_into input max_output [] ⇝
  (λ '(out, _), Forall byte out ∧ zlen out ≤ default USIZE_MAX max_output).
Proof.
  intros Hi Hm. apply decompress_loop_sound; [done|done| |lia|unfold zlen; lia].
  pose proof usize_bounds. rewrite zlen_nil. destruct max_output; simpl; lia.
Qed.

End Decoder.
