(* ===== verification/ByteFilters.v ===== *)
(** * The shuffle and Fletcher32 filters

    Models the byte filters of [crates/hdf5-pure-filter/src/pipeline/mod.rs]:
    [shuffle_compress_into] and [shuffle_decompress_into] with their specialized
    widths, and [fletcher32_compute] and [fletcher32_verify].  The output buffer of
    the shuffle holds arbitrary bytes of an earlier chunk on entry.  An addition that
    overflows its [u32] is a panic. *)

From stdpp Require Import strings.
From S2P Require Import Prelude Addresses Words ByteFieldFacts Checksums FilterErrors Lzf.

Local Open Scope Z_scope.

(** [slice[i] = x] *)
Definition set_index (l : list Z) (i x : Z) : outcome (list Z) :=
  if (0 <=? i) && (i <? zlen l) then Ret (<[Z.to_nat i := x]> l) else Panic.

(** [for i in start..start + n] *)
Fixpoint for_range {S} (n : nat) (start : Z) (body : Z → S → outcome S) (state : S) : outcome S :=
  match n with
  | O => Ret state
  | Datatypes.S n => state ← body start state; for_range n (start + 1) body state
  end.

(** ** Shuffle *)

(** One write per byte of element [i]: [elem] is the chunk [i] of the data. *)
Definition shuffle_n (N : Z) (data result : list Z) (num_elements : Z) : outcome (list Z) :=
  for_range (Z.to_nat (zlen data / N)) 0 (λ i result,
    elem ← slice data (i * N) (i * N + N);
    for_range (Z.to_nat N) 0 (λ j result,
      b ← index elem j;
      set_index result (j * num_elements + i) b) result) result.

(** The element is gathered first and stored as one chunk of the output. *)
Definition unshuffle_n (N : Z) (data result : list Z) (num_elements : Z) : outcome (list Z) :=
  for_range (Z.to_nat (zlen result / N)) 0 (λ i result,
    elem ← for_range (Z.to_nat N) 0 (λ j elem,
             b ← index data (j * num_elements + i);
             set_index elem j b) (replicate (Z.to_nat N) 0);
    splice result (i * N) elem) result.

(** [result[prefix_len..].copy_from_slice(&data[prefix_len..])] *)
Definition copy_tail (data result : list Z) (prefix_len : Z) : outcome (list Z) :=
  tail ← slice data prefix_len (zlen data);
  splice result prefix_len tail.

Definition specialized (element_size : Z) : bool :=
  (element_size =? 2) || (element_size =? 4) || (element_size =? 8) || (element_size =? 16).

Definition shuffle_decompress_into (data : list Z) (element_size : Z) (result : list Z)
    : outcome (list Z) :=
  if element_size <=? 1 then splice result 0 data
  else
    let num_elements := zlen data / element_size in
    let prefix_len := zlen data - zlen data mod element_size in
    result ← copy_tail data result prefix_len;
    if specialized element_size then unshuffle_n element_size data result num_elements
    else
      for_range (Z.to_nat num_elements) 0 (λ i result,
        for_range (Z.to_nat element_size) 0 (λ j result,
          b ← index data (j * num_elements + i);
          set_index result (i * element_size + j) b) result) result.

Definition shuffle_compress_into (data : list Z) (element_size : Z) (result : list Z)
    : outcome (list Z) :=
  if element_size <=? 1 then splice result 0 data
  else
    let num_elements := zlen data / element_size in
    let prefix_len := zlen data - zlen data mod element_size in
    result ← copy_tail data result prefix_len;
    if specialized element_size then shuffle_n element_size data result num_elements
    else
      for_range (Z.to_nat num_elements) 0 (λ i result,
        for_range (Z.to_nat element_size) 0 (λ j result,
          b ← index data (i * element_size + j);
          set_index result (j * num_elements + i) b) result) result.

(** ** Fletcher32 *)

(** [u32] addition, which panics when it overflows. *)
Definition add_u32 (a b : Z) : outcome Z := if a + b <? 2 ^ 32 then Ret (a + b) else Panic.

(** [(sum & 0xffff) + (sum >> 16)] *)
Definition fold16 (sum : Z) : Z := Z.land sum 0xffff + Z.shiftr sum 16.

(** One word of the data: the new offset and sums. *)
Definition fletcher_word (data : list Z) (s : Z * Z * Z) : outcome (Z * Z * Z) :=
  let '(offset, sum1, sum2) := s in
  hi ← index data offset;
  lo ← index data (offset + 1);
  let val := Z.lor (Z.shiftl hi 8) lo in
  sum1 ← add_u32 sum1 val;
  sum2 ← add_u32 sum2 sum1;
  Ret (offset + 2, sum1, sum2).

Fixpoint fletcher_blocks (fuel : nat) (data : list Z) (words : Z) (s : Z * Z * Z)
    : outcome (Z * Z * Z) :=
  if 0 <? words then
    match fuel with
    | O => Panic
    | S fuel =>
      let tlen := Z.min words 360 in
      s ← for_range (Z.to_nat tlen) 0 (λ _ s, fletcher_word data s) s;
      let '(offset, sum1, sum2) := s in
      fletcher_blocks fuel data (words - tlen) (offset, fold16 sum1, fold16 sum2)
    end
  else Ret s.

Definition fletcher32_compute (data : list Z) : outcome Z :=
  s ← fletcher_blocks (length data) data (zlen data / 2) (0, 0, 0);
  let '(offset, sum1, sum2) := s in
  s ← (if negb (zlen data mod 2 =? 0) then
         b ← index data offset;
         sum1 ← add_u32 sum1 (Z.shiftl b 8);
         sum2 ← add_u32 sum2 sum1;
         Ret (fold16 sum1, fold16 sum2)
       else Ret (sum1, sum2));
  let '(sum1, sum2) := s in
  let sum1 := fold16 sum1 in
  let sum2 := fold16 sum2 in
  Ret (Z.lor (Z.shiftl sum2 16 mod 2 ^ 32) sum1).

Definition fletcher32_verify (data : list Z) : filtered (list Z) :=
  if zlen data <? 4 then fail (FilterFailure "fletcher32: data too short for checksum")
  else
    payload ← slice data 0 (zlen data - 4);
    b0 ← index data (zlen data - 4);
    b1 ← index data (zlen data - 3);
    b2 ← index data (zlen data - 2);
    b3 ← index data (zlen data - 1);
    let stored := le_value [b0; b1; b2; b3] in
    computed ← fletcher32_compute payload;
    if negb (stored =? computed) then fail (Fletcher32Mismatch stored computed) else ok payload.

(** ** Facts about the shuffle and Fletcher32 filters

    The shuffle loops, generic and specialized, write the transposition of the
    complete elements whatever the output buffer held; the Fletcher32 sums do not
    overflow and are the sums of the words modulo 65535. *)

(** ** Loops *)

Lemma for_range_inv {S} (P : Z → S → Prop) (n : nat) start body (s : S) :
  P start s →
  (∀ i s, start ≤ i < start + Z.of_nat n → P i s → body i s ⇝ P (i + 1)) →
  for_range n start body s ⇝ P (start + Z.of_nat n).
Proof.
  revert start s. induction n as [|n IH]; intros start s H0 Hb; simpl.
  - apply returns_ret. by rewrite Z.add_0_r.
  - eapply returns_bind; [apply Hb; [lia|done]|]. intros s' Hs'. simpl.
    eapply returns_mono; [apply IH; [exact Hs'|]|].
    + intros i s'' Hi. apply Hb. lia.
    + intros s''. by replace (start + 1 + Z.of_nat n) with (start + Z.pos (Pos.of_succ_nat n)) by lia.
Qed.

Lemma for_range_ext {S} (n : nat) start (f g : Z → S → outcome S) (s : S) :
  (∀ i s, start ≤ i < start + Z.of_nat n → f i s = g i s) →
  for_range n start f s = for_range n start g s.
Proof.
  revert start s. induction n as [|n IH]; intros start s Hfg; [done|]. simpl.
  rewrite Hfg by lia. destruct (g start s) as [s'|]; [|done]. simpl. apply IH. intros. apply Hfg. lia.
Qed.

(** [Z] positions of a list. *)
Definition at_z (l : list Z) (i : Z) : option Z := if i <? 0 then None else l !! Z.to_nat i.

Lemma at_z_Some l i : 0 ≤ i < zlen l → ∃ b, at_z l i = Some b ∧ index l i = Ret b.
Proof.
  intros Hi. destruct (index_input l i Hi) as (b & Hb & Hlk). exists b. split; [|done].
  unfold at_z. destruct (i <? 0) eqn:E; [lia|done].
Qed.

Lemma list_eq_z l1 l2 :
  zlen l1 = zlen l2 → (∀ p, 0 ≤ p < zlen l1 → at_z l1 p = at_z l2 p) → l1 = l2.
Proof.
  intros Hl He. apply list_eq. intros i. destruct (decide (i < length l1)%nat) as [Hi|Hi].
  - specialize (He (Z.of_nat i) ltac:(unfold zlen; lia)). unfold at_z in He.
    destruct (_ <? 0) eqn:E; [lia|]. by rewrite Nat2Z.id in He.
  - unfold zlen in Hl. rewrite !lookup_ge_None_2 by lia. done.
Qed.

Lemma set_index_spec l i x :
  0 ≤ i < zlen l →
  ∃ l', set_index l i x = Ret l' ∧ zlen l' = zlen l ∧ at_z l' i = Some x ∧
    ∀ p, p ≠ i → at_z l' p = at_z l p.
Proof.
  intros Hi. unfold set_index. destruct (_ && _) eqn:E; [|lia]. eexists. split; [done|].
  unfold zlen, at_z in *. split_and!.
  - by rewrite length_insert.
  - destruct (i <? 0) eqn:E'; [lia|]. apply list_lookup_insert_eq. lia.
  - intros p Hp. destruct (p <? 0) eqn:E'; [done|]. apply list_lookup_insert_ne. lia.
Qed.

Lemma splice_at_z l pos src :
  0 ≤ pos → pos + zlen src ≤ zlen l →
  ∃ l', splice l pos src = Ret l' ∧ zlen l' = zlen l ∧
    (∀ k, 0 ≤ k < zlen src → at_z l' (pos + k) = at_z src k) ∧
    (∀ p, p < pos ∨ pos + zlen src ≤ p → at_z l' p = at_z l p).
Proof.
  intros Hpos Hle. unfold splice. destruct (get_range _ _ _) as [g|] eqn:E.
  2:{ apply get_range_None in E. pose proof (zlen_nonneg src). lia. }
  eexists. split; [done|]. unfold zlen, at_z in *.
  assert (Ht : length (take (Z.to_nat pos) l) = Z.to_nat pos) by (rewrite length_take; lia).
  split_and!.
  - rewrite !length_app, Ht, length_drop. lia.
  - intros k Hk. destruct (pos + k <? 0) eqn:E1; [lia|]. destruct (k <? 0) eqn:E2; [lia|].
    rewrite lookup_app_r by lia. rewrite Ht, lookup_app_l by lia. f_equal. lia.
  - intros p Hp. destruct (p <? 0) eqn:E1; [done|]. destruct Hp as [Hp|Hp].
    + rewrite lookup_app_l by lia. apply lookup_take_lt. lia.
    + rewrite lookup_app_r by lia. rewrite lookup_app_r by lia. rewrite lookup_drop. f_equal. lia.
Qed.

(** ** Scattered writes *)

Section Scatter.
Context (rows cols : Z) (dst : Z → Z → Z) (val : Z → Z → option Z).
Hypothesis Hrows : 0 ≤ rows.
Hypothesis Hcols : 0 ≤ cols.
Hypothesis Hinj : ∀ i j i' j', 0 ≤ i < rows → 0 ≤ j < cols → 0 ≤ i' < rows → 0 ≤ j' < cols →
  dst i j = dst i' j' → i = i' ∧ j = j'.

(** The writes before row [i], column [j] have been made. *)
Definition written (r0 : list Z) (bound i j : Z) (r : list Z) : Prop :=
  zlen r = zlen r0 ∧
  (∀ i' j', 0 ≤ i' → 0 ≤ j' < cols → i' < i ∨ (i' = i ∧ j' < j) → at_z r (dst i' j') = val i' j') ∧
  (∀ p, bound ≤ p → at_z r p = at_z r0 p).

Lemma written_next r0 bound i r : written r0 bound i cols r → written r0 bound (i + 1) 0 r.
Proof.
  intros (Hl & Hw & Hb). split_and!; [done| |done]. intros i' j' Hi' Hj' Hd. apply Hw; lia.
Qed.

Lemma write_one r0 bound i j r b :
  written r0 bound i j r → 0 ≤ i < rows → 0 ≤ j < cols →
  0 ≤ dst i j < bound → dst i j < zlen r0 → val i j = Some b →
  set_index r (dst i j) b ⇝ written r0 bound i (j + 1).
Proof.
  intros (Hl & Hw & Hb) Hi Hj Hd Hd' Hv.
  destruct (set_index_spec r (dst i j) b) as (r' & Hr' & Hz & Hat & Hne); [lia|].
  exists r'. split; [done|]. split_and!; [lia| |].
  - intros i' j' Hi' Hj' Hlt. destruct (decide (i' = i ∧ j' = j)) as [[-> ->]|Hn]; [congruence|].
    rewrite Hne; [apply Hw; lia|]. intros Heq. apply Hinj in Heq as [-> ->]; [tauto|lia..].
  - intros p Hp. rewrite Hne by lia. by apply Hb.
Qed.

End Scatter.

(** ** Shuffle *)

Section Shuffle.
Context (data : list Z) (size : Z).
Hypothesis Hsize : 1 < size.
Let num := zlen data / size.

(** [r] holds byte [j] of element [i] at [j * num + i], and the tail. *)
Definition shuffled (r : list Z) : Prop :=
  zlen r = zlen data ∧
  (∀ i j, 0 ≤ i < num → 0 ≤ j < size → at_z r (j * num + i) = at_z data (i * size + j)) ∧
  (∀ p, num * size ≤ p < zlen data → at_z r p = at_z data p).

Definition unshuffled (r : list Z) : Prop :=
  zlen r = zlen data ∧
  (∀ i j, 0 ≤ i < num → 0 ≤ j < size → at_z r (i * size + j) = at_z data (j * num + i)) ∧
  (∀ p, num * size ≤ p < zlen data → at_z r p = at_z data p).

Lemma num_bounds : 0 ≤ num ∧ num * size ≤ zlen data < num * size + size.
Proof.
  pose proof (zlen_nonneg data). pose proof (div_mul_bounds (zlen data) size ltac:(lia)).
  split; [apply Z.div_pos; lia|]. unfold num. lia.
Qed.

Lemma prefix_eq : zlen data - zlen data mod size = num * size.
Proof. unfold num. pose proof (Z.div_mod (zlen data) size ltac:(lia)). lia. Qed.

Lemma column_bound i j : 0 ≤ i < num → 0 ≤ j < size → 0 ≤ j * num + i < num * size.
Proof. intros Hi Hj. nia. Qed.

Lemma row_bound i j : 0 ≤ i < num → 0 ≤ j < size → 0 ≤ i * size + j < num * size.
Proof. intros Hi Hj. nia. Qed.

Lemma column_inj i j i' j' :
  0 ≤ i < num → 0 ≤ j < size → 0 ≤ i' < num → 0 ≤ j' < size →
  j * num + i = j' * num + i' → i = i' ∧ j = j'.
Proof. intros. assert (j = j') by nia. subst. lia. Qed.

Lemma row_inj i j i' j' :
  0 ≤ i < num → 0 ≤ j < size → 0 ≤ i' < num → 0 ≤ j' < size →
  i * size + j = i' * size + j' → i = i' ∧ j = j'.
Proof. intros. assert (i = i') by nia. subst. lia. Qed.

Lemma copy_tail_spec result :
  zlen result = zlen data →
  copy_tail data result (zlen data - zlen data mod size) ⇝ (λ r,
    zlen r = zlen data ∧ ∀ p, num * size ≤ p < zlen data → at_z r p = at_z data p).
Proof.
  intros Hl. rewrite prefix_eq. pose proof num_bounds as [Hn Hb]. unfold copy_tail, slice.
  destruct (get_range _ _ _) as [t|] eqn:E.
  2:{ apply get_range_None in E. nia. }
  cbn [expect mbind outcome_bind].
  pose proof (get_range_zlen _ _ _ _ E) as Hz. apply get_range_Some in E as (_ & _ & Ht).
  destruct (splice_at_z result (num * size) t) as (r & -> & Hr & Hin & _); [nia|lia|].
  apply returns_ret. split; [lia|]. intros p Hp.
  replace p with (num * size + (p - num * size)) at 1 by lia. rewrite Hin by lia.
  rewrite Ht. unfold at_z, zlen in *. destruct (p - num * size <? 0) eqn:E1; [lia|].
  destruct (p <? 0) eqn:E2; [lia|]. rewrite lookup_take_lt by lia. rewrite lookup_drop. f_equal. nia.
Qed.

(** The nested loops of both directions. *)
Lemma scatter_loops (body : Z → Z → list Z → outcome (list Z)) dst src r0 :
  (∀ i j i' j', 0 ≤ i < num → 0 ≤ j < size → 0 ≤ i' < num → 0 ≤ j' < size →
     dst i j = dst i' j' → i = i' ∧ j = j') →
  (∀ i j, 0 ≤ i < num → 0 ≤ j < size → 0 ≤ dst i j < num * size) →
  (∀ i j, 0 ≤ i < num → 0 ≤ j < size → 0 ≤ src i j < num * size) →
  (∀ i j r, 0 ≤ i < num → 0 ≤ j < size → ∀ b, at_z data (src i j) = Some b →
     body i j r = set_index r (dst i j) b) →
  zlen r0 = zlen data →
  for_range (Z.to_nat num) 0 (λ i r, for_range (Z.to_nat size) 0 (body i) r) r0 ⇝
  (λ r, zlen r = zlen data ∧
     (∀ i j, 0 ≤ i < num → 0 ≤ j < size → at_z r (dst i j) = at_z data (src i j)) ∧
     (∀ p, num * size ≤ p → at_z r p = at_z r0 p)).
Proof.
  intros Hinj Hdst Hsrc Hbody Hl. pose proof num_bounds as [Hn Hb].
  set (W := written size dst (λ i j, at_z data (src i j)) r0 (num * size)).
  eapply returns_mono; [apply (for_range_inv (λ i r, W i 0 r))|].
  - split_and!; [done| |done]. intros i' j' Hi' Hj' Hd. lia.
  - intros i r Hi HW. rewrite Z2Nat.id in Hi by lia.
    eapply returns_mono; [apply (for_range_inv (λ j r, W i j r)); [exact HW|]|].
    + intros j r' Hj HW'. rewrite Z2Nat.id in Hj by lia.
      destruct (at_z_Some data (src i j)) as (b & Hb1 & _).
      { specialize (Hsrc i j ltac:(lia) ltac:(lia)). lia. }
      rewrite (Hbody i j r' ltac:(lia) ltac:(lia) b Hb1).
      apply (write_one num size dst _ Hinj); try done; try lia.
      * by apply Hdst; lia.
      * specialize (Hdst i j ltac:(lia) ltac:(lia)). lia.
    + intros r'. rewrite Z.add_0_l, Z2Nat.id by lia. apply written_next.
  - intros r. rewrite Z.add_0_l, Z2Nat.id by lia. intros (Hz & Hw & Hout).
    split_and!; [lia| |done]. intros i j Hi Hj. apply Hw; lia.
Qed.

Lemma shuffle_compress_spec result :
  zlen result = zlen data → shuffle_compress_into data size result ⇝ shuffled.
Proof.
  intros Hl. unfold shuffle_compress_into. destruct (size <=? 1) eqn:E; [lia|]. fold num.
  eapply returns_bind; [by apply copy_tail_spec|]. intros r1 [Hl1 Ht1].
  pose proof num_bounds as [Hn Hb].
  assert (Hfin : ∀ m, m ⇝ (λ r, zlen r = zlen data ∧
     (∀ i j, 0 ≤ i < num → 0 ≤ j < size → at_z r (j * num + i) = at_z data (i * size + j)) ∧
     (∀ p, num * size ≤ p → at_z r p = at_z r1 p)) → m ⇝ shuffled).
  { intros m Hm. eapply returns_mono; [exact Hm|]. intros r (Hz & Hw & Ho). split_and!; [done|done|].
    intros p Hp. rewrite Ho by lia. by apply Ht1. }
  apply Hfin. destruct (specialized size).
  - unfold shuffle_n. fold num.
    rewrite (for_range_ext _ _ _ (λ i r, for_range (Z.to_nat size) 0
      (λ j r, b ← index data (i * size + j); set_index r (j * num + i) b) r)).
    + apply (scatter_loops (λ i j r, b ← index data (i * size + j); set_index r (j * num + i) b)
               (λ i j, j * num + i) (λ i j, i * size + j)); try done;
        [apply column_inj|apply column_bound|apply row_bound|].
      intros i j r Hi Hj b Hb'. pose proof (row_bound i j Hi Hj).
      destruct (at_z_Some data (i * size + j)) as (b' & Hb1 & ->); [lia|]. by simplify_eq.
    + intros i r Hi. rewrite Z2Nat.id in Hi by lia. unfold slice.
      destruct (get_range data (i * size) (i * size + size)) as [elem|] eqn:Eg.
      2:{ apply get_range_None in Eg. nia. }
      pose proof (get_range_zlen _ _ _ _ Eg) as Hze. apply get_range_Some in Eg as (_ & _ & He).
      cbn [expect mbind outcome_bind]. apply for_range_ext. intros j r' Hj.
      rewrite Z2Nat.id in Hj by lia.
      destruct (index_input elem j ltac:(lia)) as (b & -> & Hb1).
      destruct (index_input data (i * size + j)) as (b' & -> & Hb2); [nia|].
      rewrite He, lookup_take_lt, lookup_drop in Hb1 by lia.
      rewrite <- Z2Nat.inj_add in Hb1 by nia. by simplify_eq.
  - apply (scatter_loops (λ i j r, b ← index data (i * size + j); set_index r (j * num + i) b)
             (λ i j, j * num + i) (λ i j, i * size + j)); try done;
      [apply column_inj|apply column_bound|apply row_bound|].
    intros i j r Hi Hj b Hb'. pose proof (row_bound i j Hi Hj).
    destruct (at_z_Some data (i * size + j)) as (b' & Hb1 & ->); [lia|]. by simplify_eq.
Qed.

(** Gathering one element. *)
Lemma gather_spec i :
  0 ≤ i < num →
  for_range (Z.to_nat size) 0 (λ j elem, b ← index data (j * num + i); set_index elem j b)
    (replicate (Z.to_nat size) 0) ⇝
  (λ elem, zlen elem = size ∧ ∀ j, 0 ≤ j < size → at_z elem j = at_z data (j * num + i)).
Proof.
  intros Hi. pose proof num_bounds as [Hn Hb].
  eapply returns_mono; [apply (for_range_inv (λ k elem, zlen elem = size ∧
    ∀ j, 0 ≤ j < k → at_z elem j = at_z data (j * num + i)))|].
  - rewrite zlen_replicate. split; [lia|]. intros; lia.
  - intros k elem Hk [Hz He]. rewrite Z2Nat.id in Hk by lia.
    pose proof (column_bound i k Hi ltac:(lia)).
    destruct (at_z_Some data (k * num + i)) as (b & Hb1 & ->); [lia|]. cbn [mbind outcome_bind].
    destruct (set_index_spec elem k b) as (e' & -> & Hz' & Hat & Hne); [lia|].
    apply returns_ret. split; [lia|]. intros j Hj. destruct (decide (j = k)) as [->|]; [congruence|].
    rewrite Hne by done. apply He. lia.
  - intros elem. rewrite Z.add_0_l, Z2Nat.id by lia. done.
Qed.

Lemma shuffle_decompress_spec result :
  zlen result = zlen data → shuffle_decompress_into data size result ⇝ unshuffled.
Proof.
  intros Hl. unfold shuffle_decompress_into. destruct (size <=? 1) eqn:E; [lia|]. fold num.
  eapply returns_bind; [by apply copy_tail_spec|]. intros r1 [Hl1 Ht1].
  pose proof num_bounds as [Hn Hb]. destruct (specialized size).
  - unfold unshuffle_n. rewrite Hl1. fold num.
    eapply returns_mono; [apply (for_range_inv (λ i r, zlen r = zlen data ∧
      (∀ i' j, 0 ≤ i' < i → 0 ≤ j < size → at_z r (i' * size + j) = at_z data (j * num + i')) ∧
      (∀ p, num * size ≤ p < zlen data → at_z r p = at_z data p)))|].
    + split_and!; [done|intros; lia|done].
    + intros i r Hi (Hz & Hw & Ho). rewrite Z2Nat.id in Hi by lia.
      eapply returns_bind; [apply gather_spec; lia|]. intros elem [Hze He].
      destruct (splice_at_z r (i * size) elem) as (r' & -> & Hz' & Hin & Hout); [nia|nia|].
      apply returns_ret. split_and!; [lia| |].
      * intros i' j Hi' Hj. destruct (decide (i' = i)) as [->|].
        -- rewrite Hin by lia. by apply He.
        -- rewrite Hout by nia. apply Hw; lia.
      * intros p Hp. rewrite Hout by nia. by apply Ho.
    + intros r. rewrite Z.add_0_l, Z2Nat.id by lia. done.
  - eapply returns_mono.
    + apply (scatter_loops (λ i j r, b ← index data (j * num + i); set_index r (i * size + j) b)
               (λ i j, i * size + j) (λ i j, j * num + i)); try done;
        [apply row_inj|apply row_bound|apply column_bound|].
      intros i j r Hi Hj b Hb'. pose proof (column_bound i j Hi Hj).
      destruct (at_z_Some data (j * num + i)) as (b' & Hb1 & ->); [lia|]. by simplify_eq.
    + intros r (Hz & Hw & Ho). split_and!; [done|done|].
      intros p Hp. rewrite Ho by lia. by apply Ht1.
Qed.

End Shuffle.

(** Unshuffling a shuffled chunk restores it. *)
Lemma unshuffle_shuffled data size r r' :
  1 < size → shuffled data size r → unshuffled r size r' → r' = data.
Proof.
  intros Hs (Hz & Hw & Ho) (Hz' & Hw' & Ho'). rewrite Hz in *.
  pose proof (num_bounds data size Hs) as [Hn Hb]. set (num := zlen data / size) in *.
  apply list_eq_z; [lia|]. intros p Hp. rewrite Hz' in Hp.
  destruct (decide (p < num * size)) as [Hlt|Hge].
  - pose proof (Z.div_mod p size ltac:(lia)) as Hdm.
    pose proof (Z.mod_pos_bound p size ltac:(lia)) as Hm.
    assert (Hdiv : 0 ≤ p / size < num).
    { split; [apply Z.div_pos; lia|]. apply Z.div_lt_upper_bound; [lia|]. nia. }
    replace p with (p / size * size + p mod size) by lia.
    rewrite Hw', Hw by done. done.
  - rewrite Ho', Ho by lia. done.
Qed.

(** Where a shuffled byte comes from. *)
Lemma shuffled_source data size :
  1 < size → ∃ source, (∀ p, 0 ≤ p < zlen data → 0 ≤ source p < zlen data) ∧
    ∀ r, shuffled data size r → ∀ p, 0 ≤ p < zlen data → at_z r p = at_z data (source p).
Proof.
  intros Hs. pose proof (num_bounds data size Hs) as [Hn Hb]. set (num := zlen data / size) in *.
  exists (λ p, if p <? num * size then p mod num * size + p / num else p).
  assert (Hp : ∀ p, 0 ≤ p < num * size → 0 ≤ p mod num < num ∧ 0 ≤ p / num < size ∧ p = p / num * num + p mod num).
  { intros p Hp. assert (0 < num) by nia. pose proof (Z.div_mod p num ltac:(lia)).
    pose proof (Z.mod_pos_bound p num ltac:(lia)). split_and!; try lia; [apply Z.div_pos; lia|].
    apply Z.div_lt_upper_bound; lia. }
  split.
  - intros p Hr. destruct (p <? num * size) eqn:E; [|lia]. destruct (Hp p ltac:(lia)) as (? & ? & ?). nia.
  - intros r (Hz & Hw & Ho) p Hr. destruct (p <? num * size) eqn:E; [|apply Ho; lia].
    destruct (Hp p ltac:(lia)) as (H1 & H2 & H3). rewrite H3 at 1. by apply Hw.
Qed.

Lemma unshuffled_source data size :
  1 < size → ∃ source, (∀ p, 0 ≤ p < zlen data → 0 ≤ source p < zlen data) ∧
    ∀ r, unshuffled data size r → ∀ p, 0 ≤ p < zlen data → at_z r p = at_z data (source p).
Proof.
  intros Hs. pose proof (num_bounds data size Hs) as [Hn Hb]. set (num := zlen data / size) in *.
  exists (λ p, if p <? num * size then p mod size * num + p / size else p).
  assert (Hp : ∀ p, 0 ≤ p < num * size → 0 ≤ p mod size < size ∧ 0 ≤ p / size < num ∧ p = p / size * size + p mod size).
  { intros p Hp. pose proof (Z.div_mod p size ltac:(lia)).
    pose proof (Z.mod_pos_bound p size ltac:(lia)). split_and!; try lia; [apply Z.div_pos; lia|].
    apply Z.div_lt_upper_bound; lia. }
  split.
  - intros p Hr. destruct (p <? num * size) eqn:E; [|lia]. destruct (Hp p ltac:(lia)) as (? & ? & ?). nia.
  - intros r (Hz & Hw & Ho) p Hr. destruct (p <? num * size) eqn:E; [|apply Ho; lia].
    destruct (Hp p ltac:(lia)) as (H1 & H2 & H3). rewrite H3 at 1. by apply Hw.
Qed.

Lemma rearranged_byte data r (source : Z → Z) :
  zlen r = zlen data → (∀ p, 0 ≤ p < zlen data → 0 ≤ source p < zlen data) →
  (∀ p, 0 ≤ p < zlen data → at_z r p = at_z data (source p)) → Forall byte data → Forall byte r.
Proof.
  intros Hz Hs Hr Hb. apply Forall_lookup. intros i b Hi. pose proof (lookup_lt_Some _ _ _ Hi) as Hl.
  assert (Hp : 0 ≤ Z.of_nat i < zlen data) by (unfold zlen in *; lia).
  specialize (Hr _ Hp). specialize (Hs _ Hp). unfold at_z in Hr.
  destruct (Z.of_nat i <? 0) eqn:E; [lia|]. destruct (source _ <? 0) eqn:E2; [lia|].
  rewrite Nat2Z.id, Hi in Hr. symmetry in Hr. by eapply Forall_lookup_1 in Hb.
Qed.

(** The shuffled chunk does not depend on what the buffer held. *)
Lemma shuffled_unique data size r r' : 1 < size → shuffled data size r → shuffled data size r' → r = r'.
Proof.
  intros Hs Hr Hr'. destruct (shuffled_source data size Hs) as (source & _ & Hat).
  pose proof (proj1 Hr) as Hz. pose proof (proj1 Hr') as Hz'.
  apply list_eq_z; [lia|]. intros p Hp. rewrite (Hat r Hr), (Hat r' Hr') by lia. done.
Qed.

Lemma shuffled_byte data size r : 1 < size → shuffled data size r → Forall byte data → Forall byte r.
Proof.
  intros Hs Hr Hb. destruct (shuffled_source data size Hs) as (source & Hin & Hat).
  apply (rearranged_byte data r source (proj1 Hr) Hin (Hat r Hr) Hb).
Qed.

Lemma unshuffled_byte data size r : 1 < size → unshuffled data size r → Forall byte data → Forall byte r.
Proof.
  intros Hs Hr Hb. destruct (unshuffled_source data size Hs) as (source & Hin & Hat).
  apply (rearranged_byte data r source (proj1 Hr) Hin (Hat r Hr) Hb).
Qed.

(** ** Fletcher32 *)

(** The big-endian words of the data; a last odd byte is the high byte of its word. *)
Fixpoint words (l : list Z) : list Z :=
  match l with
  | hi :: lo :: l => hi * 256 + lo :: words l
  | [b] => [b * 256]
  | [] => []
  end.

(** The sum of the words and the sum of its prefixes, in unbounded integers. *)
Definition fletcher_sums (ws : list Z) (s : Z * Z) : Z * Z :=
  foldl (λ s w, (s.1 + w, s.2 + (s.1 + w))) s ws.

(** The representative of a sum modulo 65535 in one's complement: only an empty sum
    is zero. *)
Definition ones_sum (s : Z) : Z := if s =? 0 then 0 else (s - 1) mod 65535 + 1.

Definition word (w : Z) : Prop := 0 ≤ w < 65536.

Lemma words_app (n : nat) l1 l2 : length l1 = (2 * n)%nat → words (l1 ++ l2) = words l1 ++ words l2.
Proof.
  revert l1. induction n as [|n IH]; intros [|a [|b l1]] Hl; simpl in *; try lia; [done|].
  f_equal. apply IH. lia.
Qed.

Lemma words_length (n : nat) l : length l = (2 * n)%nat → length (words l) = n.
Proof.
  revert l. induction n as [|n IH]; intros [|a [|b l]] Hl; simpl in *; try lia. f_equal. apply IH. lia.
Qed.

Lemma words_word l : Forall byte l → Forall word (words l).
Proof.
  unfold byte, word. enough (∀ a, Forall byte l → Forall word (words l) ∧ (byte a → Forall word (words (a :: l)))) as H.
  { intros Hl. by apply (H 0). }
  unfold byte, word. induction l as [|b l IH]; intros a Hl.
  - split; [constructor|]. intros Ha. repeat constructor; lia.
  - apply Forall_cons in Hl as [Hb Hl]. split; [by apply (IH b)|]. intros Ha. cbn [words].
    constructor; [lia|]. by apply (IH 0).
Qed.

(** [a] stands for the sum [s]. *)
Definition folds (a s : Z) : Prop := 0 ≤ a ∧ 0 ≤ s ∧ a mod 65535 = s mod 65535 ∧ (a = 0 ↔ s = 0).

Lemma folds_0 : folds 0 0.
Proof. by unfold folds. Qed.

Lemma folds_add a b s t : folds a s → folds b t → folds (a + b) (s + t).
Proof.
  intros (Ha & Hs & Hm & Hz) (Hb & Ht & Hm' & Hz'). unfold folds. split_and!; [lia..| |lia].
  by rewrite Z.add_mod, Hm, Hm', <- Z.add_mod by lia.
Qed.

Lemma folds_refl w : 0 ≤ w → folds w w.
Proof. unfold folds. intros Hw. by split_and!. Qed.

Lemma fold16_eq a : 0 ≤ a → fold16 a = a mod 65536 + a / 65536.
Proof.
  intros Ha. unfold fold16. rewrite Z.shiftr_div_pow2 by lia.
  change 0xffff with (Z.ones 16). by rewrite Z.land_ones by lia.
Qed.

Lemma folds_fold16 a s : folds a s → folds (fold16 a) s.
Proof.
  intros (Ha & Hs & Hm & Hz). rewrite fold16_eq by done.
  pose proof (Z.div_mod a 65536 ltac:(lia)). pose proof (Z.mod_pos_bound a 65536 ltac:(lia)).
  pose proof (Z.div_pos a 65536 Ha ltac:(lia)).
  unfold folds. split_and!; [lia..| |lia]. rewrite <- Hm.
  replace a with (a mod 65536 + a / 65536 + (a / 65536) * 65535) at 3 by lia.
  by rewrite Z.mod_add by lia.
Qed.

Lemma fold16_le a hi :
  0 ≤ a < (hi + 1) * 65536 → 0 ≤ fold16 a ≤ 65535 + hi.
Proof.
  intros Ha. rewrite fold16_eq by lia.
  pose proof (Z.mod_pos_bound a 65536 ltac:(lia)).
  assert (a / 65536 < hi + 1) by (apply Z.div_lt_upper_bound; lia).
  pose proof (Z.div_pos a 65536 ltac:(lia) ltac:(lia)). lia.
Qed.

Lemma fold16_last a : 0 ≤ a ≤ 131070 → 0 ≤ fold16 a ≤ 65535.
Proof.
  intros Ha. rewrite fold16_eq by lia. pose proof (Z.mod_pos_bound a 65536 ltac:(lia)).
  pose proof (Z.div_mod a 65536 ltac:(lia)).
  assert (a / 65536 < 2) by (apply Z.div_lt_upper_bound; lia).
  pose proof (Z.div_pos a 65536 ltac:(lia) ltac:(lia)). lia.
Qed.

Lemma folds_ones a s : folds a s → a ≤ 65535 → a = ones_sum s.
Proof.
  intros (Ha & Hs & Hm & Hz) Hle. unfold ones_sum. destruct (s =? 0) eqn:E; [lia|].
  assert (Hm' : (a - 1) mod 65535 = (s - 1) mod 65535) by (by rewrite Zminus_mod, Hm, <- Zminus_mod).
  rewrite <- Hm', Z.mod_small; lia.
Qed.

Lemma sums_folds ws a b s t :
  Forall word ws → folds a s → folds b t →
  folds (fletcher_sums ws (a, b)).1 (fletcher_sums ws (s, t)).1 ∧
  folds (fletcher_sums ws (a, b)).2 (fletcher_sums ws (s, t)).2.
Proof.
  intros Hws. revert a b s t. unfold word in Hws.
  induction Hws as [|w ws Hw Hws IH]; intros a b s t Ha Hb; [done|].
  unfold fletcher_sums. cbn [foldl fst snd]. apply IH; repeat apply folds_add; try done; apply folds_refl; lia.
Qed.

Lemma sums_bound ws (a b : Z) :
  Forall word ws → 0 ≤ a → 0 ≤ b →
  0 ≤ (fletcher_sums ws (a, b)).1 ≤ a + zlen ws * 65535 ∧ 0 ≤ (fletcher_sums ws (a, b)).2.
Proof.
  intros Hws. revert a b. unfold word in Hws.
  induction Hws as [|w ws Hw Hws IH]; intros a b Ha Hb; [unfold zlen; simpl; lia|].
  rewrite zlen_cons. unfold fletcher_sums. cbn [foldl fst snd].
  specialize (IH (a + w) (b + (a + w)) ltac:(lia) ltac:(lia)). unfold fletcher_sums in IH. lia.
Qed.

Lemma lor_word hi lo : byte hi → byte lo → Z.lor (Z.shiftl hi 8) lo = hi * 256 + lo.
Proof.
  unfold byte. intros Hh Hl. rewrite Z.lor_comm, lor_shiftl_add by lia. lia.
Qed.

Lemma index_bytes_at {A} (l : list A) pos x r : bytes_at l pos (x :: r) → index l pos = Ret x.
Proof.
  intros (p & -> & <-). apply index_Ret; [apply zlen_nonneg|]. unfold zlen.
  by rewrite Nat2Z.id, list_lookup_middle.
Qed.

Lemma bytes_at_tail {A} (l : list A) pos x r : bytes_at l pos (x :: r) → bytes_at l (pos + 1) r.
Proof. intros H. by apply (bytes_at_app l [x] r pos 1). Qed.

Lemma fletcher_word_ret data off hi lo rest s1 s2 :
  bytes_at data off (hi :: lo :: rest) → byte hi → byte lo →
  s1 + (hi * 256 + lo) < 2 ^ 32 → s2 + (s1 + (hi * 256 + lo)) < 2 ^ 32 →
  fletcher_word data (off, s1, s2) = Ret (off + 2, s1 + (hi * 256 + lo), s2 + (s1 + (hi * 256 + lo))).
Proof.
  intros Hat Hhi Hlo H1 H2. unfold fletcher_word.
  rewrite (index_bytes_at _ _ _ _ Hat). apply bytes_at_tail in Hat. cbn [mbind outcome_bind].
  rewrite (index_bytes_at _ _ _ _ Hat). cbn [mbind outcome_bind]. rewrite lor_word by done.
  unfold add_u32. destruct (s1 + _ <? _) eqn:E1; [|lia]. cbn [mbind outcome_bind].
  destruct (s2 + _ <? _) eqn:E2; [done|lia].
Qed.

(** A block of words whose sums stay below 2^32. *)
Lemma fletcher_run data (n : nat) start l rest off s1 s2 :
  bytes_at data off (l ++ rest) → length l = (2 * n)%nat → Forall byte l →
  0 ≤ s1 → 0 ≤ s2 → s1 + Z.of_nat n * 65535 < 2 ^ 32 →
  2 * (s2 + Z.of_nat n * s1) + 65535 * (Z.of_nat n * (Z.of_nat n + 1)) < 2 ^ 33 →
  for_range n start (λ _ s, fletcher_word data s) (off, s1, s2) =
  Ret (off + 2 * Z.of_nat n, (fletcher_sums (words l) (s1, s2)).1, (fletcher_sums (words l) (s1, s2)).2).
Proof.
  revert l start off s1 s2.
  induction n as [|n IH]; intros [|hi [|lo l]] start off s1 s2 Hat Hlen Hl H1 H2 Hb1 Hb2;
    simpl in Hlen; try lia.
  { cbn [for_range words fletcher_sums foldl]. simpl. by rewrite Z.add_0_r. }
  apply Forall_cons in Hl as [Hhi Hl]. apply Forall_cons in Hl as [Hlo Hl].
  cbn [for_range]. pose proof Hhi as Hhi'. pose proof Hlo as Hlo'. unfold byte in Hhi', Hlo'.
  rewrite Nat2Z.inj_succ in *. rewrite (fletcher_word_ret _ _ hi lo (l ++ rest)) by (done || nia).
  apply bytes_at_tail, bytes_at_tail in Hat. cbn [mbind outcome_bind].
  rewrite <- Z.add_assoc in Hat. rewrite (IH l) by (done || lia || nia).
  cbn [words]. unfold fletcher_sums. cbn [foldl fst snd]. do 3 f_equal. lia.
Qed.

(** The state at a block boundary: [pre] is the prefix of the data that was summed. *)
Definition block_state (pre : list Z) (sum1 sum2 : Z) : Prop :=
  folds sum1 (fletcher_sums (words pre) (0, 0)).1 ∧ sum1 ≤ 65896 ∧
  folds sum2 (fletcher_sums (words pre) (0, 0)).2 ∧ sum2 ≤ 131070.

Lemma fletcher_sums_app l1 l2 s :
  fletcher_sums (l1 ++ l2) s = fletcher_sums l2 (fletcher_sums l1 s).
Proof. apply foldl_app. Qed.

(** Summing [l] from representatives of the sums gives representatives. *)
Lemma sums_step pre l (n : nat) sum1 sum2 :
  folds sum1 (fletcher_sums (words pre) (0, 0)).1 → folds sum2 (fletcher_sums (words pre) (0, 0)).2 →
  length pre = (2 * n)%nat → Forall byte l →
  folds (fletcher_sums (words l) (sum1, sum2)).1 (fletcher_sums (words (pre ++ l)) (0, 0)).1 ∧
  folds (fletcher_sums (words l) (sum1, sum2)).2 (fletcher_sums (words (pre ++ l)) (0, 0)).2.
Proof.
  intros H1 H2 Hlen Hl. rewrite (words_app n), fletcher_sums_app by done.
  destruct (fletcher_sums (words pre) (0, 0)) as [t1 t2]. apply sums_folds; [by apply words_word|done..].
Qed.

Lemma sums_lt ws (a b : Z) :
  Forall word ws → 0 ≤ a → 0 ≤ b →
  2 * (fletcher_sums ws (a, b)).2 ≤ 2 * (b + zlen ws * a) + 65535 * (zlen ws * (zlen ws + 1)).
Proof.
  intros Hws. revert a b. unfold word in Hws.
  induction Hws as [|w ws Hw Hws IH]; intros a b Ha Hb; [unfold zlen; simpl; lia|].
  rewrite zlen_cons. unfold fletcher_sums. cbn [foldl fst snd].
  specialize (IH (a + w) (b + (a + w)) ltac:(lia) ltac:(lia)). unfold fletcher_sums in IH.
  pose proof (zlen_nonneg ws). nia.
Qed.

Lemma fletcher_blocks_ret fuel pre l rest n sum1 sum2 :
  block_state pre sum1 sum2 → length pre = (2 * n)%nat → Forall byte l →
  length l = (2 * Z.to_nat (zlen l / 2))%nat → (Z.to_nat (zlen l / 2) ≤ fuel)%nat →
  fletcher_blocks fuel (pre ++ l ++ rest) (zlen l / 2) (zlen pre, sum1, sum2) ⇝
    λ s, ∃ sum1 sum2, s = (zlen (pre ++ l), sum1, sum2) ∧ block_state (pre ++ l) sum1 sum2.
Proof.
  revert pre l n sum1 sum2.
  induction fuel as [|fuel IH]; intros pre l n sum1 sum2 HS Hpre Hl Hlen Hf;
    (destruct (decide (0 < zlen l / 2)) as [Hp|Hp];
     [|assert (l = []) as -> by (apply length_zero_iff_nil; lia);
       cbn [fletcher_blocks]; apply returns_ret; rewrite app_nil_r; eauto]); [lia|].
  cbn [fletcher_blocks]. destruct (0 <? zlen l / 2) eqn:E0; [|lia].
  set (t := Z.min (zlen l / 2) 360).
  set (m := Z.to_nat t).
  assert (Hm : (m ≤ Z.to_nat (zlen l / 2))%nat ∧ (0 < m)%nat ∧ Z.of_nat m = t ∧ t ≤ 360) by lia.
  rewrite <- (take_drop (2 * m) l). set (l1 := take (2 * m) l). set (l2 := drop (2 * m) l).
  assert (Hl1 : length l1 = (2 * m)%nat) by (subst l1; rewrite length_take; lia).
  assert (Hl2 : length l2 = (length l - 2 * m)%nat) by (subst l2; by rewrite length_drop).
  destruct HS as (Hf1 & Hb1 & Hf2 & Hb2).
  assert (HF1 : Forall byte l1) by (by apply Forall_take).
  assert (HF2 : Forall byte l2) by (by apply Forall_drop).
  pose proof (proj1 Hf1) as Hs1. pose proof (proj1 Hf2) as Hs2.
  assert (Hzl : zlen (words l1) = t) by (unfold zlen; rewrite (words_length m); lia).
  rewrite (fletcher_run _ m _ l1 (l2 ++ rest)); [|exists pre; by rewrite <- app_assoc|done..|nia|nia].
  cbn [mbind outcome_bind].
  destruct (sums_step pre l1 n sum1 sum2 Hf1 Hf2 Hpre HF1) as [Hg1 Hg2].
  pose proof (sums_bound (words l1) sum1 sum2 (words_word _ HF1) Hs1 Hs2) as Hbd.
  pose proof (sums_lt (words l1) sum1 sum2 (words_word _ HF1) Hs1 Hs2) as Hlt.
  rewrite Hzl in Hbd, Hlt.
  set (fs := fletcher_sums (words l1) (sum1, sum2)) in *.
  assert (Hz : zlen l2 / 2 = zlen l / 2 - t).
  { replace (zlen l2) with (zlen l + (- t) * 2) by (unfold zlen in *; lia).
    rewrite Z.div_add by lia. lia. }
  replace (zlen (l1 ++ l2)) with (zlen l) by (unfold l1, l2; by rewrite take_drop).
  rewrite <- Hz. replace (zlen pre + 2 * Z.of_nat m) with (zlen (pre ++ l1)) by (rewrite zlen_app; unfold zlen; lia).
  rewrite <- app_assoc, !(app_assoc pre l1).
  apply (IH (pre ++ l1) l2 (n + m)%nat).
  - unfold block_state. split_and!.
    + by apply folds_fold16.
    + pose proof (fold16_le fs.1 361). nia.
    + by apply folds_fold16.
    + pose proof (fold16_le fs.2 65535). nia.
  - rewrite length_app. lia.
  - done.
  - rewrite Hz. lia.
  - rewrite Hz. lia.
Qed.

(** The Fletcher32 checksum of the data. *)
Definition fletcher32 (data : list Z) : Z :=
  let s := fletcher_sums (words data) (0, 0) in ones_sum s.2 * 65536 + ones_sum s.1.

Lemma ones_sum_bounds s : 0 ≤ ones_sum s ≤ 65535.
Proof. unfold ones_sum. destruct (_ =? _); [lia|]. pose proof (Z.mod_pos_bound (s - 1) 65535). lia. Qed.

Lemma fletcher32_u32 data : 0 ≤ fletcher32 data < 2 ^ 32.
Proof.
  unfold fletcher32. set (s := fletcher_sums _ _). pose proof (ones_sum_bounds s.1).
  pose proof (ones_sum_bounds s.2). lia.
Qed.

Lemma checksum_word sum1 sum2 :
  0 ≤ sum1 ≤ 65535 → 0 ≤ sum2 ≤ 65535 →
  Z.lor (Z.shiftl sum2 16 mod 2 ^ 32) sum1 = sum2 * 65536 + sum1.
Proof.
  intros H1 H2. rewrite Z.mod_small by (rewrite Z.shiftl_mul_pow2 by lia; lia).
  rewrite Z.lor_comm, lor_shiftl_add by lia. lia.
Qed.

(** The blocks of complete words, from the start of the data. *)
Lemma fletcher_blocks_all l rest (n : nat) :
  length l = (2 * n)%nat → Forall byte l →
  ∃ sum1 sum2, fletcher_blocks (length (l ++ rest)) (l ++ rest) (Z.of_nat n) (0, 0, 0)
    = Ret (zlen l, sum1, sum2) ∧ block_state l sum1 sum2.
Proof.
  intros Hlen Hl.
  assert (Hz : zlen l / 2 = Z.of_nat n).
  { replace (zlen l) with (Z.of_nat n * 2) by (unfold zlen; lia). by rewrite Z.div_mul by lia. }
  destruct (fletcher_blocks_ret (length (l ++ rest)) [] l rest 0 0 0) as (s & Hs & sum1 & sum2 & -> & HS).
  { split_and!; [apply folds_0|lia|apply folds_0|lia]. }
  { done. } { done. } { by rewrite Hz, Nat2Z.id. } { rewrite Hz, length_app. lia. }
  rewrite Hz in Hs. exists sum1, sum2. done.
Qed.

(** The sums are folded to 16 bits. *)
Lemma fletcher_result data a b :
  folds a (fletcher_sums (words data) (0, 0)).1 → folds b (fletcher_sums (words data) (0, 0)).2 →
  a ≤ 131070 → b ≤ 131070 →
  Z.lor (Z.shiftl (fold16 b) 16 mod 2 ^ 32) (fold16 a) = fletcher32 data.
Proof.
  intros Ha Hb Hla Hlb. pose proof (fold16_last a ltac:(destruct Ha; lia)).
  pose proof (fold16_last b ltac:(destruct Hb; lia)). rewrite checksum_word by done.
  unfold fletcher32. by rewrite <- (folds_ones _ _ (folds_fold16 _ _ Ha)),
    <- (folds_ones _ _ (folds_fold16 _ _ Hb)) by lia.
Qed.

(** The computation does not overflow and returns the checksum. *)
Lemma fletcher32_compute_ret data : Forall byte data → fletcher32_compute data = Ret (fletcher32 data).
Proof.
  intros Hd. pose proof (Z.div_mod (zlen data) 2 ltac:(lia)) as Hdm.
  pose proof (Z.mod_pos_bound (zlen data) 2 ltac:(lia)) as Hm.
  assert (∃ l r n, data = l ++ r ∧ length l = (2 * n)%nat ∧ Z.of_nat n = zlen data / 2 ∧
    length r = Z.to_nat (zlen data mod 2)) as (l & r & n & Heq & Hlen & Hn & Hr).
  { exists (take (2 * Z.to_nat (zlen data / 2)) data), (drop (2 * Z.to_nat (zlen data / 2)) data),
      (Z.to_nat (zlen data / 2)).
    rewrite take_drop, length_take, length_drop. unfold zlen in *. split_and!; lia || done. }
  unfold fletcher32_compute. rewrite <- Hn. rewrite Heq at 1 2. rewrite Heq in Hd.
  apply Forall_app in Hd as [Hl Hrb].
  destruct (fletcher_blocks_all l r n Hlen Hl) as (sum1 & sum2 & -> & Hf1 & Hb1 & Hf2 & Hb2).
  cbn [mbind outcome_bind]. destruct r as [|b [|]]; simpl in Hr; [| |lia].
  - replace (zlen data mod 2) with 0 by lia. cbn [negb Z.eqb mbind outcome_bind].
    rewrite app_nil_r in Heq. subst data. f_equal. by apply fletcher_result; try lia.
  - replace (zlen data mod 2) with 1 by lia. cbn [negb Z.eqb].
    rewrite (index_bytes_at data (zlen l) b []) by (by exists l). cbn [mbind outcome_bind].
    apply Forall_cons in Hrb as [Hb _]. unfold byte in Hb.
    pose proof (proj1 Hf1). pose proof (proj1 Hf2).
    rewrite Z.shiftl_mul_pow2 by lia. change (2 ^ 8) with 256. unfold add_u32.
    destruct (sum1 + _ <? _) eqn:E1; [|lia]. cbn [mbind outcome_bind].
    destruct (sum2 + _ <? _) eqn:E2; [|lia]. cbn [mbind outcome_bind]. f_equal.
    destruct (sums_step l [b] n sum1 sum2 Hf1 Hf2 Hlen) as [Hg1 Hg2]; [repeat constructor; lia|].
    rewrite <- Heq in Hg1, Hg2. apply fletcher_result.
    + by apply folds_fold16.
    + by apply folds_fold16.
    + pose proof (fold16_le (sum1 + b * 256) 2). lia.
    + pose proof (fold16_le (sum2 + (sum1 + b * 256)) 5). lia.
Qed.

(** What [fletcher32_verify] makes of a payload and four stored bytes. *)
Lemma fletcher32_verify_app payload sum :
  Forall byte payload → Forall byte sum → length sum = 4%nat →
  fletcher32_verify (payload ++ sum) =
    if le_value sum =? fletcher32 payload then ok payload
    else fail (Fletcher32Mismatch (le_value sum) (fletcher32 payload)).
Proof.
  intros Hp Hs Hlen. unfold fletcher32_verify.
  destruct sum as [|b0 [|b1 [|b2 [|b3 [|]]]]]; simpl in Hlen; try lia.
  assert (Hz : zlen (payload ++ [b0; b1; b2; b3]) = zlen payload + 4) by (rewrite zlen_app; done).
  rewrite Hz. pose proof (zlen_nonneg payload). destruct (_ <? 4) eqn:E; [lia|].
  unfold slice. replace (zlen payload + 4 - 4) with (zlen payload) by lia.
  rewrite get_range_prefix. cbn [expect mbind outcome_bind].
  assert (H0 : bytes_at (payload ++ [b0; b1; b2; b3]) (zlen payload) [b0; b1; b2; b3]) by (by exists payload).
  rewrite (index_bytes_at _ _ _ _ H0). apply bytes_at_tail in H0. cbn [mbind outcome_bind].
  replace (zlen payload + 4 - 3) with (zlen payload + 1) by lia.
  rewrite (index_bytes_at _ _ _ _ H0). apply bytes_at_tail in H0. cbn [mbind outcome_bind].
  replace (zlen payload + 4 - 2) with (zlen payload + 1 + 1) by lia.
  rewrite (index_bytes_at _ _ _ _ H0). apply bytes_at_tail in H0. cbn [mbind outcome_bind].
  replace (zlen payload + 4 - 1) with (zlen payload + 1 + 1 + 1) by lia.
  rewrite (index_bytes_at _ _ _ _ H0). cbn [mbind outcome_bind].
  rewrite fletcher32_compute_ret by done. cbn [mbind outcome_bind]. by destruct (_ =? _).
Qed.

(** Every data has a result: it is long enough to split, or refused. *)
Lemma fletcher32_verify_cases data :
  Forall byte data →
  fletcher32_verify data = (
    if zlen data <? 4 then fail (FilterFailure "fletcher32: data too short for checksum")
    else
      let payload := take (length data - 4) data in
      let stored := le_value (drop (length data - 4) data) in
      if stored =? fletcher32 payload then ok payload
      else fail (Fletcher32Mismatch stored (fletcher32 payload))).
Proof.
  intros Hd. destruct (zlen data <? 4) eqn:E.
  - unfold fletcher32_verify. by rewrite E.
  - cbn zeta. rewrite <- (take_drop (length data - 4) data) at 1. apply fletcher32_verify_app.
    + by apply Forall_take.
    + by apply Forall_drop.
    + rewrite length_drop. unfold zlen in E. lia.
Qed.

(** ** Detection *)

(** The first sum, byte by byte. *)
Fixpoint byte_sum (high : bool) (l : list Z) : Z :=
  match l with
  | [] => 0
  | b :: l => (if high then 256 * b else b) + byte_sum (negb high) l
  end.

Lemma sums_byte_sum data s : (fletcher_sums (words data) s).1 = s.1 + byte_sum true data.
Proof.
  revert s. induction data as [[|a [|b l]] IH] using (induction_ltof1 _ length); intros s.
  - simpl. lia.
  - simpl. lia.
  - cbn [words fletcher_sums foldl]. fold (fletcher_sums (words l)). unfold fletcher_sums in IH.
    rewrite IH by (unfold ltof; simpl; lia). cbn [byte_sum negb fst]. lia.
Qed.

Lemma byte_sum_insert high l (i : nat) b b' :
  l !! i = Some b →
  ∃ w, (w = 1 ∨ w = 256) ∧ byte_sum high (<[i:=b']> l) = byte_sum high l + w * (b' - b).
Proof.
  revert high i. induction l as [|x l IH]; intros high [|i] Hi; simplify_eq/=.
  - exists (if high then 256 else 1). destruct high; lia.
  - destruct (IH (negb high) i Hi) as (w & Hw & ->). exists w. lia.
Qed.

Lemma byte_sum_nonneg high l : Forall byte l → 0 ≤ byte_sum high l.
Proof.
  intros Hl. revert high. induction Hl as [|b l Hb Hl IH]; intros high; [done|]. cbn [byte_sum].
  specialize (IH (negb high)). unfold byte in Hb. destruct high; lia.
Qed.

Lemma ones_sum_near s s' : 0 ≤ s → 0 ≤ s' → ones_sum s = ones_sum s' → Z.abs (s - s') < 65535 → s = s'.
Proof.
  unfold ones_sum. intros Hs Hs' Heq Hd.
  pose proof (Z.mod_pos_bound (s - 1) 65535). pose proof (Z.mod_pos_bound (s' - 1) 65535).
  pose proof (Z.div_mod (s - 1) 65535). pose proof (Z.div_mod (s' - 1) 65535).
  destruct (s =? 0) eqn:E, (s' =? 0) eqn:E'; lia.
Qed.

(** A single changed byte changes the checksum. *)
Lemma fletcher32_detects data (i : nat) b b' :
  Forall byte data → data !! i = Some b → byte b' → b' ≠ b → fletcher32 (<[i:=b']> data) ≠ fletcher32 data.
Proof.
  intros Hd Hi Hb' Hne Heq. pose proof (Forall_lookup_1 _ _ _ _ Hd Hi) as Hb.
  assert (Hd' : Forall byte (<[i:=b']> data)) by (by apply Forall_insert).
  unfold fletcher32 in Heq. rewrite !sums_byte_sum in Heq. simpl fst in Heq. rewrite !Z.add_0_l in Heq.
  destruct (byte_sum_insert true data i b b' Hi) as (w & Hw & Hs).
  pose proof (byte_sum_nonneg true _ Hd) as H0. pose proof (byte_sum_nonneg true _ Hd') as H1.
  assert (Ho : ones_sum (byte_sum true (<[i:=b']> data)) = ones_sum (byte_sum true data)).
  { set (x := ones_sum (byte_sum true (<[i:=b']> data))) in *. set (y := ones_sum (byte_sum true data)) in *.
    pose proof (ones_sum_bounds (byte_sum true (<[i:=b']> data))). pose proof (ones_sum_bounds (byte_sum true data)). lia. }
  unfold byte in *. apply ones_sum_near in Ho; try done; rewrite Hs in *; destruct Hw; subst w; lia.
Qed.
