(* ===== verification/FilterMasks.v ===== *)
(** * Recorded filter masks

    Models [crates/hdf5-pure-core/src/filter_mask.rs]: the skip bits recorded for a
    chunk, paired with the checked number of filters of its pipeline. *)

From stdpp Require Import strings.
From S2P Require Import Prelude Addresses Words.

Local Open Scope Z_scope.

Definition FILTER_COUNT_MAX : Z := 32.

Definition U32_MAX : Z := 2 ^ 32 - 1.

(** [FilterMask] wraps the recorded [u32]. *)
Record FilterMask := { raw_bits : Z }.

Definition NONE : FilterMask := {| raw_bits := 0 |}.

Record PipelineFilterMask := { recorded_mask : FilterMask; count : Z }.

Module PipelineFilterMask.

Definition from_raw_bits (bits count : Z) : result PipelineFilterMask FormatError :=
  if FILTER_COUNT_MAX <? count
  then Err (InvalidFilterPipelineField "filter count" count FILTER_COUNT_MAX)
  else Ok {| recorded_mask := {| raw_bits := bits |}; count := count |}.

Definition position_bits (m : PipelineFilterMask) : Z :=
  if count m =? FILTER_COUNT_MAX then U32_MAX else Z.shiftl 1 (count m) - 1.

Definition all_skipped (count : Z) : result PipelineFilterMask FormatError :=
  match from_raw_bits 0 count with
  | Ok mask => Ok {| recorded_mask := {| raw_bits := position_bits mask |};
                     FilterMasks.count := FilterMasks.count mask |}
  | Err e => Err e
  end.

Definition uninterpreted_bits (m : PipelineFilterMask) : Z :=
  Z.land (raw_bits (recorded_mask m)) (Z.lxor U32_MAX (position_bits m)).

(** [self.mask.0 & (1 << index) != 0] *)
Definition skip_bit (m : PipelineFilterMask) (index : Z) : bool :=
  negb (Z.land (raw_bits (recorded_mask m)) (Z.shiftl 1 index) =? 0).

Definition positions (m : PipelineFilterMask) : list (Z * bool) :=
  (λ index, (index, skip_bit m index)) <$> (Z.of_nat <$> seq 0 (Z.to_nat (count m))).

Definition is_skipped (m : PipelineFilterMask) (index : Z) : option bool :=
  if index <? count m then Some (skip_bit m index) else None.

End PipelineFilterMask.

(** ** Facts *)

(** What [from_raw_bits] establishes. *)
Definition mask_ok (m : PipelineFilterMask) : Prop :=
  0 ≤ raw_bits (recorded_mask m) ≤ U32_MAX ∧ 0 ≤ count m ≤ FILTER_COUNT_MAX.

Section Facts.
Import PipelineFilterMask.

Lemma skip_bit_testbit m index :
  0 ≤ index → skip_bit m index = Z.testbit (raw_bits (recorded_mask m)) index.
Proof.
  intros Hi. unfold skip_bit. destruct (Z.testbit _ _) eqn:E.
  - apply negb_true_iff, Z.eqb_neq. intros H0.
    assert (Z.testbit (Z.land (raw_bits (recorded_mask m)) (Z.shiftl 1 index)) index = true) as Hb.
    { rewrite Z.land_spec, E, Z.shiftl_1_l, Z.pow2_bits_true by lia. done. }
    by rewrite H0, Z.bits_0 in Hb.
  - apply negb_false_iff, Z.eqb_eq, Z.bits_inj'. intros k Hk.
    rewrite Z.land_spec, Z.bits_0, Z.shiftl_1_l. destruct (decide (k = index)) as [->|Hn].
    + by rewrite E.
    + rewrite Z.pow2_bits_false by lia. apply andb_false_r.
Qed.

Lemma position_bits_testbit m k :
  mask_ok m → 0 ≤ k < 32 → Z.testbit (position_bits m) k = (k <? count m).
Proof.
  intros [_ Hc] Hk. unfold position_bits, FILTER_COUNT_MAX in *.
  replace (if count m =? 32 then U32_MAX else Z.shiftl 1 (count m) - 1) with (Z.ones (count m)).
  - destruct (k <? count m) eqn:E; [apply Z.ones_spec_low|apply Z.ones_spec_high]; lia.
  - destruct (count m =? 32) eqn:E; [|by rewrite Z.ones_equiv, Z.shiftl_1_l].
    apply Z.eqb_eq in E as ->. done.
Qed.

Lemma positions_length m : 0 ≤ count m → zlen (positions m) = count m.
Proof. intros Hc. unfold positions, zlen. rewrite !length_fmap, length_seq. lia. Qed.

Lemma positions_lookup m (i : nat) :
  positions m !! i = if decide (i < Z.to_nat (count m))%nat
                     then Some (Z.of_nat i, Z.testbit (raw_bits (recorded_mask m)) (Z.of_nat i)) else None.
Proof.
  unfold positions. rewrite !list_lookup_fmap. case_decide as Hd.
  - rewrite lookup_seq_lt by done. simpl. by rewrite skip_bit_testbit by lia.
  - by rewrite lookup_seq_ge by lia.
Qed.

End Facts.
