(* ===== verification/FilterBuffers.v ===== *)
(** * Storage for filter execution

    Models [crates/hdf5-pure-filter/src/pipeline/buffer.rs]: the input or an owned
    allocation with a live range, the spare allocation that is passed from stage to
    stage with whatever it holds, the writable window of a stage and the append
    writer.  The capacity of a vector is not part of the model: which of two
    allocations [recycle_larger] keeps is a parameter of it. *)

From stdpp Require Import strings.
From S2P Require Import Prelude Addresses Words FilterErrors.

Local Open Scope Z_scope.

(** [InitializedBuffer]: the initialized bytes of an allocation. *)
Definition InitializedBuffer : Type := list Z.

Inductive FilterBuffer :=
| Borrowed (bytes : list Z)
| Owned (bytes : InitializedBuffer) (live_start live_end : Z).

(** What a stage that may fail returns, with the spare it leaves. *)
Notation staged A := (outcome (result A FilterError * InitializedBuffer)).

(** ** The writable window *)

Record OutputWindow := { window_bytes : InitializedBuffer; window_end : Z }.

Module OutputWindow.

(** New bytes are zero. *)
Definition resize (w : OutputWindow) (end_ : Z) : OutputWindow :=
  {| window_bytes :=
       if zlen (window_bytes w) <? end_
       then window_bytes w ++ replicate (Z.to_nat (end_ - zlen (window_bytes w))) 0
       else window_bytes w;
     window_end := end_ |}.

(** [Vec::reserve_exact] panics when the vector would exceed [isize::MAX] bytes; no capacity
    does, so the missing capacity is asked for whenever [end_] exceeds it. *)
Definition resize_exact `{Platform} (w : OutputWindow) (end_ : Z) : outcome OutputWindow :=
  if ISIZE_MAX <? end_ then Panic else Ret (resize w end_).

Definition as_mut_slice (w : OutputWindow) : outcome (list Z) :=
  slice (window_bytes w) 0 (window_end w).

(** The window after [as_mut_slice] was overwritten with [l]. *)
Definition overwritten (w : OutputWindow) (l : list Z) : outcome OutputWindow :=
  bytes ← splice (window_bytes w) 0 l;
  Ret {| window_bytes := bytes; window_end := window_end w |}.

Definition len (w : OutputWindow) : Z := window_end w.

Definition finish (w : OutputWindow) (produced : Z) : FilterBuffer + OutputWindow :=
  if window_end w <? produced then inr w else inl (Owned (window_bytes w) 0 produced).

End OutputWindow.

(** ** The append writer *)

Record AppendBuffer := { append_bytes : InitializedBuffer; tail : Z }.

Module AppendBuffer.

Definition new (bytes : InitializedBuffer) : AppendBuffer :=
  {| append_bytes := bytes; tail := zlen bytes |}.

(** [copy_within(live, 0)] *)
Definition from_live (bytes : InitializedBuffer) (live_start live_end : Z) : outcome AppendBuffer :=
  bytes ← (if negb (live_start =? 0)
           then (live ← slice bytes live_start live_end; splice bytes 0 live)
           else Ret bytes);
  tail ← expect (checked_sub (zlen bytes) (live_end - live_start));
  Ret {| append_bytes := bytes; tail := tail |}.

Definition extend_from_slice (a : AppendBuffer) (bytes : list Z) : outcome AppendBuffer :=
  if tail a =? 0 then Ret {| append_bytes := append_bytes a ++ bytes; tail := tail a |}
  else
    let written := zlen (append_bytes a) - tail a in
    let retained := Z.min (tail a) (zlen bytes) in
    prefix ← slice bytes 0 retained;
    storage ← splice (append_bytes a) written prefix;
    storage ← (if retained <? zlen bytes
               then (rest ← slice bytes retained (zlen bytes); Ret (storage ++ rest))
               else Ret storage);
    Ret {| append_bytes := storage; tail := tail a - retained |}.

Definition len (a : AppendBuffer) : Z := zlen (append_bytes a) - tail a.

Definition into_owned (a : AppendBuffer) : list Z := take (Z.to_nat (len a)) (append_bytes a).

Definition finish (a : AppendBuffer) : FilterBuffer := Owned (append_bytes a) 0 (len a).

End AppendBuffer.

(** ** Buffers *)

Module FilterBuffer.

Definition borrowed (bytes : list Z) : FilterBuffer := Borrowed bytes.

Definition owned (bytes : list Z) : FilterBuffer := Owned bytes 0 (zlen bytes).

Definition as_slice (b : FilterBuffer) : outcome (list Z) :=
  match b with
  | Borrowed bytes => Ret bytes
  | Owned bytes live_start live_end => slice bytes live_start live_end
  end.

Definition recycle (b : FilterBuffer) (spare : InitializedBuffer) : InitializedBuffer :=
  match b with
  | Owned bytes _ _ => bytes
  | Borrowed _ => spare
  end.

(** [larger] tells whether the first allocation has the greater capacity. *)
Definition recycle_larger (larger : InitializedBuffer → InitializedBuffer → bool)
    (b : FilterBuffer) (spare : InitializedBuffer) : InitializedBuffer :=
  match b with
  | Owned bytes _ _ => if larger bytes spare then bytes else spare
  | Borrowed _ => spare
  end.

Definition replace (b : FilterBuffer) (spare : InitializedBuffer) (bytes : list Z)
    : FilterBuffer * InitializedBuffer :=
  (owned bytes, recycle b spare).

(** The writer starts with an empty vector; the spare was taken. *)
Definition materialize (b : FilterBuffer) (spare : InitializedBuffer)
    (write : list Z → list Z → outcome (list Z * result unit FilterError)) : staged FilterBuffer :=
  input ← as_slice b;
  '(output, r) ← write input [];
  match r with
  | Err e => Ret (Err e, output)
  | Ok _ => Ret (Ok (owned output), recycle b [])
  end.

(** [X] is what else the writer changes. *)
Definition overwrite {X} (b : FilterBuffer) (spare : InitializedBuffer)
    (write : list Z → OutputWindow → outcome (result Z FilterError * OutputWindow * X))
    : outcome (result FilterBuffer FilterError * InitializedBuffer * X) :=
  input ← as_slice b;
  '(r, output, x) ← write input {| window_bytes := spare; window_end := 0 |};
  match r with
  | Err e => Ret (Err e, window_bytes output, x)
  | Ok produced =>
    match OutputWindow.finish output produced with
    | inl b' => Ret (Ok b', recycle b [], x)
    | inr output =>
      Ret (Err (Pipeline (Internal "filter output count exceeds its writable window")),
           window_bytes output, x)
    end
  end.

Definition narrow (b : FilterBuffer) (range_start range_end : Z) : filtered FilterBuffer :=
  bytes ← as_slice b;
  match get_range bytes range_start range_end with
  | None => fail (Pipeline (Internal "filter view extends beyond its input"))
  | Some _ =>
    match b with
    | Borrowed bytes => view ← slice bytes range_start range_end; ok (Borrowed view)
    | Owned bytes live_start live_end =>
      ok (Owned bytes (live_start + range_start) (live_start + range_end))
    end
  end.

Definition append (b : FilterBuffer) (spare : InitializedBuffer) (suffix : list Z)
    : outcome (FilterBuffer * InitializedBuffer) :=
  '(output, spare) ←
    match b with
    | Borrowed input =>
      output ← AppendBuffer.extend_from_slice (AppendBuffer.new spare) input; Ret (output, [])
    | Owned bytes live_start live_end =>
      output ← AppendBuffer.from_live bytes live_start live_end; Ret (output, spare)
    end;
  output ← AppendBuffer.extend_from_slice output suffix;
  Ret (AppendBuffer.finish output, spare).

Definition into_owned (b : FilterBuffer) : outcome (list Z) :=
  match b with
  | Borrowed bytes => Ret bytes
  | Owned bytes live_start live_end =>
    a ← AppendBuffer.from_live bytes live_start live_end; Ret (AppendBuffer.into_owned a)
  end.

End FilterBuffer.

(** ** Facts *)

(** The live bytes of a buffer. *)
Definition views (b : FilterBuffer) (l : list Z) : Prop := FilterBuffer.as_slice b = Ret l.

Section Facts.
Import FilterBuffer.

Lemma slice_Ret {A} (l : list A) a b s : slice l a b = Ret s ↔ get_range l a b = Some s.
Proof. unfold slice. destruct (get_range l a b); simpl; naive_solver. Qed.

Lemma get_range_0 {A} (l : list A) n : 0 ≤ n ≤ zlen l → get_range l 0 n = Some (take (Z.to_nat n) l).
Proof.
  intros Hn. apply get_range_Some. rewrite Z.sub_0_r, drop_0. split_and!; (done || lia).
Qed.

Lemma get_range_all {A} (l : list A) : get_range l 0 (zlen l) = Some l.
Proof. rewrite <- (app_nil_r l) at 1. apply get_range_prefix. Qed.

Lemma views_borrowed l : views (borrowed l) l.
Proof. done. Qed.

Lemma views_owned l : views (owned l) l.
Proof. unfold views, as_slice, owned. by apply slice_Ret, get_range_all. Qed.

Lemma get_range_sub {A} (l : list A) a b s c d :
  get_range l a b = Some s → get_range s c d = get_range l (a + c) (a + d) ∨ get_range s c d = None.
Proof.
  intros Hs. destruct (get_range s c d) as [t|] eqn:Et; [left|by right].
  apply get_range_split in Hs as (p & r & -> & <- & Hz).
  apply get_range_split in Et as (p' & r' & -> & <- & Hz').
  symmetry. rewrite <- !app_assoc, (app_assoc p). apply get_range_app; rewrite zlen_app; lia.
Qed.

(** A view within the live bytes shows them; another is refused. *)
Lemma narrow_spec b l s e :
  views b l →
  match get_range l s e with
  | Some v => ∃ b', narrow b s e = ok b' ∧ views b' v
  | None => narrow b s e = fail (Pipeline (Internal "filter view extends beyond its input"))
  end.
Proof.
  unfold views, narrow. intros Hv. rewrite Hv. cbn [mbind outcome_bind].
  destruct (get_range l s e) as [v|] eqn:E; [|done].
  destruct b as [bytes|bytes ls le]; cbn [as_slice] in *.
  - injection Hv as ->. unfold slice. rewrite E. simpl. eauto.
  - eexists. split; [done|]. cbn [as_slice]. apply slice_Ret.
    apply slice_Ret in Hv. destruct (get_range_sub bytes ls le l s e Hv) as [H|H]; congruence.
Qed.

(** The written prefix of an append writer. *)
Definition holds_prefix (a : AppendBuffer) (l : list Z) : Prop :=
  0 ≤ tail a ∧ ∃ junk, append_bytes a = l ++ junk ∧ zlen junk = tail a.

Lemma holds_new bytes : holds_prefix (AppendBuffer.new bytes) [].
Proof. split; [apply zlen_nonneg|]. by exists bytes. Qed.

Lemma holds_from_live bytes s e l :
  slice bytes s e = Ret l →
  ∃ a, AppendBuffer.from_live bytes s e = Ret a ∧ holds_prefix a l.
Proof.
  intros Hs. pose proof Hs as Hr. apply slice_Ret, get_range_split in Hr as (p & r & -> & <- & Hz).
  unfold AppendBuffer.from_live. destruct (zlen p =? 0) eqn:E; cbn [negb].
  - assert (p = []) as -> by (destruct p; [done|rewrite zlen_cons in E; pose proof (zlen_nonneg p); lia]).
    cbn [mbind outcome_bind app]. rewrite zlen_nil in *. unfold checked_sub.
    pose proof (zlen_nonneg r). destruct (_ <=? _) eqn:E2; [|rewrite zlen_app in E2; lia].
    simpl. eexists. split; [done|]. split; cbn [tail append_bytes]; [rewrite zlen_app; lia|].
    exists r. split; [done|]. rewrite zlen_app. lia.
  - rewrite Hs. cbn [mbind outcome_bind]. set (bytes := p ++ l ++ r).
    pose proof (zlen_nonneg p). pose proof (zlen_nonneg r). pose proof (zlen_nonneg l).
    assert (Hlen : zlen bytes = zlen p + zlen l + zlen r) by (unfold bytes; rewrite !zlen_app; lia).
    unfold splice. rewrite Z.add_0_l. rewrite get_range_0 by lia.
    cbn [mbind outcome_bind]. change (Z.to_nat 0) with 0%nat. rewrite take_0, Nat.add_0_l, app_nil_l.
    set (junk := drop (length l) bytes).
    assert (Hj : zlen junk = zlen bytes - zlen l).
    { unfold junk, zlen in *. rewrite length_drop. lia. }
    unfold checked_sub. destruct (_ <=? _) eqn:E2; [|rewrite zlen_app in E2; lia].
    simpl. eexists. split; [done|]. split; cbn [tail append_bytes]; [rewrite zlen_app; lia|].
    exists junk. split; [done|]. rewrite zlen_app. lia.
Qed.

Lemma holds_extend a l suffix :
  holds_prefix a l →
  ∃ a', AppendBuffer.extend_from_slice a suffix = Ret a' ∧ holds_prefix a' (l ++ suffix).
Proof.
  intros (Ht & junk & Hb & Hj). unfold AppendBuffer.extend_from_slice. destruct (tail a =? 0) eqn:E.
  - assert (junk = []) as -> by (destruct junk; [done|rewrite zlen_cons in Hj; pose proof (zlen_nonneg junk); lia]).
    eexists. split; [done|]. split; [done|]. exists []. cbn [append_bytes tail].
    by rewrite Hb, !app_nil_r.
  - pose proof (zlen_nonneg suffix) as Hs. cbv zeta.
    set (n := Z.min (tail a) (zlen suffix)).
    rewrite (proj2 (slice_Ret suffix 0 n _) (get_range_0 suffix n ltac:(lia))). cbn [mbind outcome_bind].
    set (pre := take (Z.to_nat n) suffix).
    assert (Hpre : zlen pre = n) by (apply zlen_take; lia).
    replace (zlen (append_bytes a) - tail a) with (zlen l) by (rewrite Hb, zlen_app; lia).
    assert (Hsp : splice (l ++ junk) (zlen l) pre = Ret (l ++ pre ++ drop (Z.to_nat n) junk)).
    { rewrite <- (take_drop (Z.to_nat n) junk) at 1. apply splice_app.
      unfold pre. rewrite !length_take. unfold zlen in *. lia. }
    rewrite Hb, Hsp.
    cbn [mbind outcome_bind]. destruct (n <? zlen suffix) eqn:E1.
    + assert (n = tail a) as Hn by lia.
      unfold slice. rewrite (proj2 (get_range_Some suffix n (zlen suffix) (drop (Z.to_nat n) suffix))).
      2:{ split_and!; [lia|lia|lia|]. rewrite take_ge; [done|]. rewrite length_drop. unfold zlen. lia. }
      cbn [expect mbind outcome_bind]. eexists. split; [done|]. split; cbn [tail append_bytes]; [lia|].
      exists []. assert (drop (Z.to_nat n) junk = []) as -> by (apply drop_ge; unfold zlen in *; lia).
      rewrite !app_nil_r, <- app_assoc. split; [|rewrite zlen_nil; lia]. f_equal. apply take_drop.
    + assert (n = zlen suffix) as Hn by lia. cbn [mbind outcome_bind].
      eexists. split; [done|]. split; cbn [tail append_bytes]; [lia|].
      exists (drop (Z.to_nat n) junk). split.
      * rewrite app_assoc. f_equal. f_equal. unfold pre. apply take_ge. unfold zlen in *. lia.
      * rewrite zlen_drop by lia. lia.
Qed.

Lemma holds_finish a l : holds_prefix a l → views (AppendBuffer.finish a) l.
Proof.
  intros (Ht & junk & Hb & Hj). unfold views, AppendBuffer.finish, AppendBuffer.len. cbn [as_slice].
  apply slice_Ret. rewrite Hb, zlen_app. replace (zlen l + zlen junk - tail a) with (zlen l) by lia.
  apply get_range_prefix.
Qed.

Lemma holds_into_owned a l : holds_prefix a l → AppendBuffer.into_owned a = l.
Proof.
  intros (Ht & junk & Hb & Hj). unfold AppendBuffer.into_owned, AppendBuffer.len.
  rewrite Hb, zlen_app. replace (zlen l + zlen junk - tail a) with (zlen l) by lia.
  unfold zlen. rewrite Nat2Z.id. apply take_app_length.
Qed.

(** Appending never sees what the storage beyond the live bytes holds. *)
Lemma append_spec b l spare suffix :
  views b l → ∃ b' spare', append b spare suffix = Ret (b', spare') ∧ views b' (l ++ suffix).
Proof.
  unfold views. intros Hv. unfold append. destruct b as [bytes|bytes s e]; cbn [as_slice] in Hv.
  - injection Hv as ->. destruct (holds_extend _ [] l (holds_new spare)) as (a & -> & Ha).
    cbn [mbind outcome_bind]. destruct (holds_extend a _ suffix Ha) as (a' & -> & Ha').
    cbn [mbind outcome_bind]. eexists _, _. split; [done|]. by apply holds_finish.
  - destruct (holds_from_live _ _ _ _ Hv) as (a & -> & Ha). cbn [mbind outcome_bind].
    destruct (holds_extend a _ suffix Ha) as (a' & -> & Ha').
    cbn [mbind outcome_bind]. eexists _, _. split; [done|]. by apply holds_finish.
Qed.

Lemma into_owned_spec b l : views b l → into_owned b = Ret l.
Proof.
  unfold views, into_owned. destruct b as [bytes|bytes s e]; cbn [as_slice]; [done|].
  intros Hv. destruct (holds_from_live _ _ _ _ Hv) as (a & -> & Ha). cbn [mbind outcome_bind].
  by rewrite (holds_into_owned _ _ Ha).
Qed.

(** A writer from an empty vector. *)
Lemma materialize_spec b l spare write :
  views b l →
  materialize b spare write =
    '(output, r) ← write l [];
    Ret (match r with Ok _ => Ok (owned output) | Err e => Err e end,
         match r with Ok _ => recycle b [] | Err _ => output end).
Proof.
  unfold views, materialize. intros ->. cbn [mbind outcome_bind].
  destruct (write l []) as [[output [|]]|]; done.
Qed.

(** A writer into a window over arbitrary initialized bytes that leaves [out] in the
    first [zlen out] of them. *)
Definition window_holds (w : OutputWindow) (out : list Z) : Prop :=
  zlen out ≤ window_end w ∧ window_end w ≤ zlen (window_bytes w) ∧
  take (length out) (window_bytes w) = out.

Lemma overwrite_spec {X} b l spare write r w (x : X) :
  views b l → write l {| window_bytes := spare; window_end := 0 |} = Ret (r, w, x) →
  match r with
  | Err e => overwrite b spare write = Ret (Err e, window_bytes w, x)
  | Ok n => ∀ out, window_holds w out → n = zlen out →
    ∃ b' spare', overwrite b spare write = Ret (Ok b', spare', x) ∧ views b' out
  end.
Proof.
  unfold views, overwrite. intros -> Hw. cbn [mbind outcome_bind]. rewrite Hw. cbn [mbind outcome_bind].
  destruct r as [n|e]; [|done]. intros out (Ho & He & Ht) ->. unfold OutputWindow.finish.
  destruct (window_end w <? zlen out) eqn:E; [lia|]. eexists _, _. split; [done|].
  cbn [as_slice]. apply slice_Ret. rewrite get_range_0 by (pose proof (zlen_nonneg out); lia).
  unfold zlen. by rewrite Nat2Z.id, Ht.
Qed.

Lemma resize_window w n :
  0 ≤ n →
  let w' := OutputWindow.resize w n in
  window_end w' = n ∧ n ≤ zlen (window_bytes w') ∧
  take (length (window_bytes w)) (window_bytes w') = window_bytes w ∧
  ∃ l, OutputWindow.as_mut_slice w' = Ret l ∧ zlen l = n ∧
    ∀ l', zlen l' = n → ∃ w'', OutputWindow.overwritten w' l' = Ret w'' ∧ window_holds w'' l' ∧ window_end w'' = n.
Proof.
  intros Hn w'. assert (Hz : n ≤ zlen (window_bytes w') ∧ take (length (window_bytes w)) (window_bytes w') = window_bytes w).
  { unfold w', OutputWindow.resize. cbn [window_bytes]. destruct (_ <? n) eqn:E.
    - rewrite zlen_app, zlen_replicate, take_app_length. split; [lia|done].
    - split; [lia|]. by rewrite take_ge. }
  destruct Hz as [Hz Ht]. split_and!; [done|done|done|].
  unfold OutputWindow.as_mut_slice. change (window_end w') with n.
  exists (take (Z.to_nat n) (window_bytes w')). split_and!.
  - by apply slice_Ret, get_range_0.
  - by apply zlen_take.
  - intros l' Hl'. unfold OutputWindow.overwritten, splice. rewrite Z.add_0_l, Hl', get_range_0 by done.
    cbn [mbind outcome_bind]. eexists. split; [done|]. unfold window_holds. cbn [window_bytes window_end].
    change (Z.to_nat 0) with 0%nat. rewrite take_0, app_nil_l, Nat.add_0_l.
    rewrite take_app_length, zlen_app. change (window_end w') with n. split_and!; try done; [lia|].
    unfold zlen in *. rewrite length_drop. lia.
Qed.

End Facts.
