(* ===== verification/Floats.v ===== *)
(** * IEEE 754 arithmetic on bit patterns

    What the filter crate uses of [f32] and [f64]: a value is its bit pattern, and an
    operation decodes it, computes with the Standard Library's executable
    specification of binary floating point, and encodes the rounded result.  A result
    that is not a number has the quiet pattern; the language leaves its payload
    open.  No file of the program is modelled here. *)

From Stdlib Require Import SpecFloat.
From S2P Require Import Prelude.

Local Open Scope Z_scope.

Record FloatFormat := { mantissa_bits : Z; exponent_bits : Z }.

Definition binary32 : FloatFormat := {| mantissa_bits := 23; exponent_bits := 8 |}.
Definition binary64 : FloatFormat := {| mantissa_bits := 52; exponent_bits := 11 |}.

Section Format.
Context (fmt : FloatFormat).
Let mw := mantissa_bits fmt.
Let ew := exponent_bits fmt.
Definition float_prec : Z := mw + 1.
Definition float_emax : Z := 2 ^ (ew - 1).
(** The exponent of the last bit of a subnormal number. *)
Definition float_emin : Z := 3 - float_emax - float_prec.

(** [from_bits] *)
Definition decode_float (bits : Z) : spec_float :=
  let sign := Z.testbit bits (mw + ew) in
  let e := Z.land (Z.shiftr bits mw) (Z.ones ew) in
  let m := Z.land bits (Z.ones mw) in
  if e =? 0 then
    match m with Z.pos p => S754_finite sign p float_emin | _ => S754_zero sign end
  else if e =? Z.ones ew then
    if m =? 0 then S754_infinity sign else S754_nan
  else
    match m + 2 ^ mw with Z.pos p => S754_finite sign p (float_emin + e - 1) | _ => S754_nan end.

Definition sign_bit (sign : bool) : Z := if sign then 2 ^ (mw + ew) else 0.

(** [to_bits] *)
Definition encode_float (f : spec_float) : Z :=
  match f with
  | S754_zero sign => sign_bit sign
  | S754_infinity sign => sign_bit sign + Z.shiftl (Z.ones ew) mw
  | S754_nan => Z.shiftl (Z.ones ew) mw + 2 ^ (mw - 1)
  | S754_finite sign m e =>
    sign_bit sign +
    (if Z.pos m <? 2 ^ mw then Z.pos m
     else Z.shiftl (e - float_emin + 1) mw + (Z.pos m - 2 ^ mw))
  end.

Definition float_add (a b : Z) : Z :=
  encode_float (SFadd float_prec float_emax (decode_float a) (decode_float b)).
Definition float_sub (a b : Z) : Z :=
  encode_float (SFsub float_prec float_emax (decode_float a) (decode_float b)).
Definition float_mul (a b : Z) : Z :=
  encode_float (SFmul float_prec float_emax (decode_float a) (decode_float b)).
Definition float_div (a b : Z) : Z :=
  encode_float (SFdiv float_prec float_emax (decode_float a) (decode_float b)).
Definition float_neg (a : Z) : Z := encode_float (SFopp (decode_float a)).
Definition float_abs (a : Z) : Z := encode_float (SFabs (decode_float a)).
Definition float_lt (a b : Z) : bool := SFltb (decode_float a) (decode_float b).
Definition float_le (a b : Z) : bool := SFleb (decode_float a) (decode_float b).

(** A literal, or an integer converted with [as]. *)
Definition float_of_Z (n : Z) : Z :=
  encode_float (binary_normalize float_prec float_emax n 0 false).

(** The rounded value of another format. *)
Definition float_convert (f : spec_float) : Z :=
  encode_float
    (match f with
     | S754_finite sign m e => binary_round float_prec float_emax sign m e
     | f => f
     end).

Definition I64_MIN : Z := - 2 ^ 63.
Definition I64_MAX : Z := 2 ^ 63 - 1.

(** [as i64], which truncates and saturates. *)
Definition float_to_i64 (a : Z) : Z :=
  match decode_float a with
  | S754_zero _ | S754_nan => 0
  | S754_infinity sign => if sign then I64_MIN else I64_MAX
  | S754_finite sign m e =>
    let magnitude := Z.shiftl (Z.pos m) e in
    Z.max I64_MIN (Z.min I64_MAX (if sign then - magnitude else magnitude))
  end.

End Format.

(** [f64::from] of an [f32]. *)
Definition f64_of_f32 (a : Z) : Z := float_convert binary64 (decode_float binary32 a).

(** [as f32] of an [f64]. *)
Definition f32_of_f64 (a : Z) : Z := float_convert binary32 (decode_float binary64 a).

Example float_examples :
  float_of_Z binary64 10 = 0x4024000000000000 ∧
  float_div binary64 (float_of_Z binary64 1) (float_of_Z binary64 10) = 0x3fb999999999999a ∧
  f32_of_f64 0x3fb999999999999a = 0x3dcccccd ∧ f64_of_f32 0x3dcccccd = 0x3fb99999a0000000 ∧
  float_sub binary32 0x3f800000 0x40490fdb = 0xc0090fdb ∧
  float_to_i64 binary64 0xc004000000000000 = -2 ∧
  float_lt binary64 0x7ff8000000000000 0 = false ∧
  float_mul binary64 0x1 (float_of_Z binary64 4) = 4.
Proof. vm_compute. done. Qed.
