(* ===== verification/ScaleOffset.v ===== *)
(** * The Scale-Offset filter

    Models [crates/hdf5-pure-filter/src/scaleoffset/mod.rs]: the filter parameters,
    integer and decimal-scale encoding, the bit packing and its reader, and the
    decoder.  An addition that overflows a [u64] is a panic. *)

From stdpp Require Import strings pretty.
From S2P Require Import Prelude Addresses Words ByteFields FilterErrors ByteFilters FilterBuffers Floats.

Local Open Scope string_scope.
Local Open Scope Z_scope.

Definition PARM_SCALETYPE : Z := 0.
Definition PARM_SCALEFACTOR : Z := 1.
Definition PARM_NELMTS : Z := 2.
Definition PARM_CLASS : Z := 3.
Definition PARM_SIZE : Z := 4.
Definition PARM_SIGN : Z := 5.
Definition PARM_ORDER : Z := 6.
Definition PARM_FILAVAIL : Z := 7.
Definition PARM_FILVAL : Z := 8.
Definition TOTAL_NPARMS : Z := 20.
Definition CORE_NPARMS : Z := PARM_FILVAL.
Definition SO_FLOAT_DSCALE : Z := 0.
Definition SO_FLOAT_ESCALE : Z := 1.
Definition SO_INT : Z := 2.
Definition CLS_INTEGER : Z := 0.
Definition CLS_FLOAT : Z := 1.
Definition SGN_NONE : Z := 0.
Definition SGN_2 : Z := 1.
Definition ORDER_LE : Z := 0.
Definition ORDER_BE : Z := 1.
Definition FILL_UNDEFINED : Z := 0.
Definition FILL_DEFINED : Z := 1.
Definition HEADER_LEN : Z := 21.
Definition FILTER_SCALEOFFSET : Z := 6.

(** [as i32] of a [u32] and back. *)
Definition as_i32 (n : Z) : Z := if n <? 2 ^ 31 then n else n - 2 ^ 32.
Definition i32_as_u32 (n : Z) : Z := n mod 2 ^ 32.
Definition as_u64 (n : Z) : Z := n mod 2 ^ 64.

Inductive ScaleOffset :=
| Integer (minbits : Z)
| FloatDScale (decimals : Z).

Inductive ScaleOffsetByteOrder := BigEndian | LittleEndian.

Definition order_code (order : ScaleOffsetByteOrder) : Z :=
  match order with LittleEndian => ORDER_LE | BigEndian => ORDER_BE end.

Record ScaleOffsetType := { type_class : Z; type_sign : Z; type_order : Z }.

Module ScaleOffsetType.

Definition integer (signed : bool) (order : ScaleOffsetByteOrder) : ScaleOffsetType :=
  {| type_class := CLS_INTEGER; type_sign := if signed then SGN_2 else SGN_NONE;
     type_order := order_code order |}.

Definition floating (order : ScaleOffsetByteOrder) : ScaleOffsetType :=
  {| type_class := CLS_FLOAT; type_sign := SGN_NONE; type_order := order_code order |}.

End ScaleOffsetType.

Inductive FillAvailability := FillDefined | FillUndefined.

Inductive ScaleOffsetFill :=
| Defined (bytes : option (list Z))
| Undefined.

(** ** Values *)

(** The bytes are normalized to little-endian in an array of eight. *)
Definition read_value (chunk : list Z) (size order : Z) : outcome Z :=
  bytes ← slice chunk 0 size;
  Ret (le_value (if order =? ORDER_LE then bytes else reverse bytes)).

Definition write_value (out : list Z) (bits size order : Z) : outcome (list Z) :=
  le ← slice (le_bytes 8 bits) 0 size;
  Ret (out ++ (if order =? ORDER_LE then le else reverse le))%list.

Definition as_i64 (bits : Z) : Z := if bits <? 2 ^ 63 then bits else bits - 2 ^ 64.

Definition sign_extend (bits size : Z) : Z :=
  if 8 <=? size then as_i64 bits
  else
    let shift := 64 - size * 8 in
    Z.shiftr (as_i64 (as_u64 (Z.shiftl bits shift))) shift.

Definition sentinel (minbits : Z) : Z := as_u64 (as_u64 (Z.shiftl 1 minbits) - 1).

(** [entry[..take].copy_from_slice(..)] into four zero bytes, one entry per turn. *)
Fixpoint write_fill_loop (fuel : nat) (cd le : list Z) (off idx size : Z) : outcome (list Z) :=
  if off <? size then
    match fuel with
    | O => Panic
    | S fuel =>
      let take := Z.min (size - off) 4 in
      part ← slice le off (off + take);
      entry ← splice (replicate 4 0) 0 part;
      cd ← set_index cd idx (le_value entry);
      write_fill_loop fuel cd le (off + take) (idx + 1) size
    end
  else Ret cd.

Definition write_fill_bits (cd : list Z) (bits size : Z) : outcome (list Z) :=
  write_fill_loop (Z.to_nat size) cd (le_bytes 8 bits) 0 PARM_FILVAL size.

Fixpoint read_fill_loop (fuel : nat) (cd bytes : list Z) (off idx size : Z) : outcome (list Z) :=
  if off <? size then
    match fuel with
    | O => Panic
    | S fuel =>
      let take := Z.min (size - off) 4 in
      entry ← index cd idx;
      part ← slice (le_bytes 4 entry) 0 take;
      bytes ← splice bytes off part;
      read_fill_loop fuel cd bytes (off + take) (idx + 1) size
    end
  else Ret bytes.

Definition read_fill_bits (cd : list Z) (size : Z) : filtered Z :=
  let entries := div_ceil size 4 in
  if zlen cd <? PARM_FILVAL + entries
  then fail (ScaleOffsetError "scaleoffset: cd_values missing fill value")
  else bytes ← read_fill_loop (Z.to_nat size) cd (replicate 8 0) 0 PARM_FILVAL size; ok (le_value bytes).

Fixpoint log2_loop (fuel : nat) (val v lower_bound : Z) : outcome (Z * Z) :=
  match fuel with
  | O => Panic
  | S fuel =>
    let val := Z.shiftr val 1 in
    if val =? 0 then Ret (v, lower_bound)
    else log2_loop fuel val (v + 1) (as_u64 (Z.shiftl lower_bound 1))
  end.

Definition ceil_log2 (num : Z) : outcome Z :=
  '(v, lower_bound) ← log2_loop 64 num 0 1;
  Ret (if num =? lower_bound then v else v + 1).

(** ** Parameters *)

Section Parameters.
Context `{Platform}.

Definition to_usize (value : Z) : filtered Z :=
  if value <=? USIZE_MAX then ok value
  else fail (ScaleOffsetValueTooLargeForPlatform value "usize").

Definition build_cd_values (mode : ScaleOffset) (ty : ScaleOffsetType) (size nelmts : Z)
    (fill : ScaleOffsetFill) : filtered (list Z) :=
  '(scale_type, scale_factor) ←?
    match mode with
    | Integer minbits =>
      if type_class ty =? CLS_INTEGER then ok (SO_INT, minbits)
      else fail (ScaleOffsetError "scaleoffset: integer mode requires an integer dataset")
    | FloatDScale decimals =>
      if type_class ty =? CLS_FLOAT then ok (SO_FLOAT_DSCALE, i32_as_u32 decimals)
      else fail (ScaleOffsetError "scaleoffset: float D-scale mode requires a floating-point dataset")
    end;
  if (size =? 0) || (8 <? size)
  then fail (ScaleOffsetError ("scaleoffset: unsupported datatype size " +:+ pretty size))
  else
    let cd := replicate (Z.to_nat TOTAL_NPARMS) 0 in
    cd ← set_index cd PARM_SCALETYPE scale_type;
    cd ← set_index cd PARM_SCALEFACTOR scale_factor;
    cd ← set_index cd PARM_NELMTS nelmts;
    cd ← set_index cd PARM_CLASS (type_class ty);
    cd ← set_index cd PARM_SIZE size;
    cd ← set_index cd PARM_SIGN (type_sign ty);
    cd ← set_index cd PARM_ORDER (type_order ty);
    match fill with
    | Undefined => cd ← set_index cd PARM_FILAVAIL FILL_UNDEFINED; ok cd
    | Defined bytes =>
      width ←? to_usize size;
      bits ←?
        match bytes with
        | None => ok 0
        | Some b =>
          if zlen b =? width then (bits ← read_value b width (type_order ty); ok bits)
          else fail (ScaleOffsetError ("scaleoffset: fill value is " +:+ pretty (zlen b)
                       +:+ " bytes for a " +:+ pretty width +:+ "-byte datatype"))
        end;
      cd ← set_index cd PARM_FILAVAIL FILL_DEFINED;
      cd ← write_fill_bits cd bits width;
      ok cd
    end.

End Parameters.

Definition scale_offset_mode (cd_values : list Z) : option (ScaleOffset * FillAvailability) :=
  scale_type ← cd_values !! Z.to_nat PARM_SCALETYPE;
  scale_factor ← cd_values !! Z.to_nat PARM_SCALEFACTOR;
  filavail ← cd_values !! Z.to_nat PARM_FILAVAIL;
  fill ← (if filavail =? FILL_UNDEFINED then Some FillUndefined
          else if filavail =? FILL_DEFINED then Some FillDefined else None);
  mode ← (if scale_type =? SO_INT then Some (Integer scale_factor)
          else if scale_type =? SO_FLOAT_DSCALE then Some (FloatDScale (as_i32 scale_factor))
          else None);
  Some (mode, fill).

Definition parse_scale_offset_parameters (values : list Z) : exec (option ScaleOffset) :=
  if negb (zlen values =? TOTAL_NPARMS)
  then fail (InvalidFilterParameterCount FILTER_SCALEOFFSET TOTAL_NPARMS (zlen values))
  else
    nelmts ← index values PARM_NELMTS;
    if nelmts =? 0 then fail (InvalidScaleOffsetElementCount nelmts)
    else
      size ← index values PARM_SIZE;
      if negb ((1 <=? size) && (size <=? 8)) then fail (InvalidScaleOffsetElementSize size)
      else
        order ← index values PARM_ORDER;
        if negb ((order =? ORDER_LE) || (order =? ORDER_BE))
        then fail (InvalidScaleOffsetByteOrder order)
        else
          filavail ← index values PARM_FILAVAIL;
          if negb ((filavail =? FILL_UNDEFINED) || (filavail =? FILL_DEFINED))
          then fail (InvalidScaleOffsetFillAvailability filavail)
          else
            scale_type ← index values PARM_SCALETYPE;
            class ← index values PARM_CLASS;
            sign ← index values PARM_SIGN;
            scale_factor ← index values PARM_SCALEFACTOR;
            if (scale_type =? SO_INT) && (class =? CLS_INTEGER) then
              if negb ((sign =? SGN_NONE) || (sign =? SGN_2))
              then fail (InvalidScaleOffsetIntegerSign sign)
              else if size * 8 <? scale_factor
              then fail (InvalidScaleOffsetIntegerPrecision scale_factor size)
              else ok (Some (Integer scale_factor))
            else if ((scale_type =? SO_FLOAT_DSCALE) || (scale_type =? SO_FLOAT_ESCALE))
                    && (class =? CLS_FLOAT) then
              if negb ((size =? 4) || (size =? 8)) then fail (InvalidScaleOffsetFloatSize size)
              else if scale_type =? SO_FLOAT_ESCALE then ok None
              else ok (Some (FloatDScale (as_i32 scale_factor)))
            else fail (InvalidScaleOffsetMode scale_type class).

Record Parms := {
  scale_type : Z; scale_factor : Z; nelmts : Z; class : Z; size : Z; order : Z; filavail : Z;
}.

Module Parms.
Section Parse.
Context `{Platform}.

Definition parse (cd : list Z) : filtered Parms :=
  if zlen cd <? CORE_NPARMS then fail (ScaleOffsetError "scaleoffset: too few cd_values")
  else
    class ← index cd PARM_CLASS;
    if negb (class =? CLS_INTEGER) && negb (class =? CLS_FLOAT)
    then fail (ScaleOffsetError "scaleoffset: unsupported datatype class")
    else
      size ← index cd PARM_SIZE;
      if (size =? 0) || (8 <? size)
      then fail (ScaleOffsetError "scaleoffset: unsupported datatype size")
      else if (class =? CLS_FLOAT) && negb (size =? 4) && negb (size =? 8)
      then fail (ScaleOffsetError "scaleoffset: float size must be 4 or 8")
      else
        order ← index cd PARM_ORDER;
        if negb (order =? ORDER_LE) && negb (order =? ORDER_BE)
        then fail (ScaleOffsetError "scaleoffset: bad byte order")
        else
          scale_type ← index cd PARM_SCALETYPE;
          scale_factor ← index cd PARM_SCALEFACTOR;
          nelmts ← index cd PARM_NELMTS;
          nelmts ←? to_usize nelmts;
          filavail ← index cd PARM_FILAVAIL;
          ok {| scale_type := scale_type; scale_factor := as_i32 scale_factor; nelmts := nelmts;
                class := class; size := size; order := order; filavail := filavail |}.

End Parse.

Definition width_mask (p : Parms) : Z :=
  if 8 <=? size p then U64_MAX else Z.shiftl 1 (size p * 8) - 1.

End Parms.

Definition integer_scale_factor_is_full_width (p : Parms) : result bool FilterError :=
  if scale_type p =? SO_FLOAT_DSCALE then Ok false
  else
    let type_bits := size p * 8 in
    if type_bits <? scale_factor p
    then Err (ScaleOffsetError ("scaleoffset: requested minimum bit width " +:+ pretty (scale_factor p)
                +:+ " exceeds the " +:+ pretty type_bits +:+ "-bit datatype"))
    else Ok (scale_factor p =? type_bits).

(** ** Header and bit packing *)

Definition write_header (out : list Z) (minbits minval : Z) : list Z :=
  (out ++ le_bytes 4 minbits ++ [8] ++ le_bytes 8 minval ++ replicate (Z.to_nat (HEADER_LEN - 13)) 0)%list.

Definition emit (minbits minval : Z) (payload : list Z) : list Z :=
  (write_header [] minbits minval ++ match payload with [] => [0] | payload => payload end)%list.

Definition emit_raw (full_bits minval : Z) (input : list Z) : list Z :=
  (write_header [] full_bits minval ++ input)%list.

(** [while nbits >= 8 { nbits -= 8; buf.push(((acc >> nbits) & 0xFF) as u8) }] *)
Fixpoint drain (fuel : nat) (acc nbits : Z) (buf : list Z) : outcome (Z * list Z) :=
  if 8 <=? nbits then
    match fuel with
    | O => Panic
    | S fuel =>
      let nbits := nbits - 8 in
      drain fuel acc nbits (buf ++ [Z.land (Z.shiftr acc nbits) 0xFF])%list
    end
  else Ret (nbits, buf).

(** [to_be_bytes] *)
Definition be_bytes (n : nat) (v : Z) : list Z := reverse (le_bytes n v).

(** [from_be_bytes] *)
Definition be_value (l : list Z) : Z := le_value (reverse l).

(** Merges one offset into the accumulator. *)
Definition pack_one (minbits mask v : Z) (s : Z * Z * list Z) : outcome (Z * Z * list Z) :=
  let '(acc, nbits, buf) := s in
  '(nbits, buf) ← drain 9 acc nbits buf;
  let combined := Z.lor (Z.shiftl acc minbits mod 2 ^ 128) (Z.land v mask) in
  let total := nbits + minbits in
  if total <=? 64 then Ret (as_u64 combined, total, buf)
  else
    let drop := total - 64 in
    let top := as_u64 (Z.shiftr combined drop) in
    Ret (as_u64 (Z.land combined (Z.shiftl 1 drop - 1)), drop, (buf ++ be_bytes 8 top)%list).

Fixpoint pack_loop (offsets : list Z) (minbits mask : Z) (s : Z * Z * list Z)
    : outcome (Z * Z * list Z) :=
  match offsets with
  | [] => Ret s
  | v :: offsets => s ← pack_one minbits mask v s; pack_loop offsets minbits mask s
  end.

Section Packing.
Context `{Platform}.

Definition pack_offsets (offsets : list Z) (minbits nelmts : Z) : filtered (list Z) :=
  payload_len ←? to_usize (nelmts * minbits / 8 + 1);
  if minbits =? 0 then ok (replicate (Z.to_nat payload_len) 0)
  else
    let mask := if minbits =? 64 then U64_MAX else Z.shiftl 1 minbits - 1 in
    s ← pack_loop offsets minbits mask (0, 0, []);
    let '(acc, nbits, buf) := s in
    '(nbits, buf) ← drain 9 acc nbits buf;
    let buf := if 0 <? nbits
               then (buf ++ [Z.land (as_u64 (Z.shiftl acc (8 - nbits))) 0xFF])%list else buf in
    ok (buf ++ replicate (Z.to_nat (payload_len - zlen buf)) 0)%list.

End Packing.

Record BitReader := { payload : list Z; bit_pos : Z }.

Module BitReader.
Section Read.
Context `{Platform} `{Profile}.

Definition new (payload : list Z) : BitReader := {| payload := payload; bit_pos := 0 |}.

Definition read (r : BitReader) (minbits : Z) : outcome (Z * BitReader) :=
  _ ← debug_assert ((1 <=? minbits) && (minbits <=? 64));
  let byte := Z.shiftr (bit_pos r) 3 in
  let off := Z.land (bit_pos r) 7 in
  '(hi, lo) ←
    (if byte + 9 <=? zlen (payload r) then
       hi ← slice (payload r) byte (byte + 8);
       lo ← index (payload r) (byte + 8);
       Ret (be_value hi, lo)
     else
       let take := Z.min (Z.max 0 (zlen (payload r) - byte)) 9 in
       part ← slice (payload r) byte (byte + take);
       window ← splice (replicate 9 0) 0 part;
       hi ← slice window 0 8;
       lo ← index window 8;
       Ret (be_value hi, lo));
  let combined :=
    if off =? 0 then hi else Z.lor (as_u64 (Z.shiftl hi off)) (Z.shiftr lo (8 - off)) in
  bit_pos ← usize_op (bit_pos r + minbits);
  Ret (Z.shiftr combined (64 - minbits), {| payload := payload r; bit_pos := bit_pos |}).

End Read.
End BitReader.

(** ** Integers *)

Definition reconstruct_value (filval : option Z) (minbits minval mask d : Z) : Z :=
  match filval with
  | Some fv => if d =? sentinel minbits then fv else Z.land (as_u64 (d + minval)) mask
  | None => Z.land (as_u64 (d + minval)) mask
  end.

(** The loop shared by the integer and the float reconstruction: one element is read,
    turned into its bit pattern and written. *)
Fixpoint reconstruct_loop `{Platform} `{Profile} (n : nat) (value : Z → Z) (minbits size order : Z)
    (reader : BitReader) (out : list Z) : outcome (list Z) :=
  match n with
  | O => Ret out
  | S n =>
    '(d, reader) ← BitReader.read reader minbits;
    out ← write_value out (value d) size order;
    reconstruct_loop n value minbits size order reader out
  end.

(** [if p.filavail == FILL_DEFINED { Some(read_fill_bits(cd, p.size)?) } else { None }] *)
Definition fill_bits (p : Parms) (cd : list Z) : filtered (option Z) :=
  if filavail p =? FILL_DEFINED then (bits ←? read_fill_bits cd (size p); ok (Some bits)) else ok None.

Definition reconstruct_integer `{Platform} `{Profile} (out : list Z) (reader : BitReader) (p : Parms)
    (minbits minval : Z) (cd : list Z) : filtered (list Z) :=
  let mask := Parms.width_mask p in
  filval ←? fill_bits p cd;
  let filval := (λ fv, Z.land fv mask) <$> filval in
  out ← reconstruct_loop (Z.to_nat (nelmts p)) (reconstruct_value filval minbits minval mask)
          minbits (size p) (order p) reader out;
  ok out.

(** Element [i] as an [i128]. *)
Definition read_as_i128 (input : list Z) (p : Parms) (signed : bool) (i : Z) : outcome Z :=
  chunk ← slice input (i * size p) ((i + 1) * size p);
  bits ← read_value chunk (size p) (order p);
  Ret (if signed then sign_extend bits (size p) else bits).

(** [if v < min { min = v } if v > max { max = v }] *)
Definition widen (less : Z → Z → bool) (v : Z) (s : Z * Z) : Z * Z :=
  (if less v s.1 then v else s.1, if less s.2 v then v else s.2).

(** The bounds of the elements from [i] on that are not fill values, with [seen] false
    until the first one. *)
Definition scan_one (less : Z → Z → bool) (is_fill : Z → bool) (v : Z) (s : bool * (Z * Z))
    : bool * (Z * Z) :=
  if is_fill v then s
  else if negb s.1 then (true, (v, v))
  else (true, widen less v s.2).

Definition scan (less : Z → Z → bool) (is_fill : Z → bool) (read : Z → outcome Z) (nelmts zero : Z)
    : outcome (Z * Z) :=
  s ← for_range (Z.to_nat nelmts) 0
        (λ i s, v ← read i; Ret (scan_one less is_fill v s)) (false, (zero, zero));
  Ret s.2.

(** The bounds of all elements, from the first. *)
Definition scan_all (less : Z → Z → bool) (read : Z → outcome Z) (nelmts : Z) : outcome (Z * Z) :=
  first ← read 0;
  for_range (Z.to_nat (nelmts - 1)) 1 (λ i s, v ← read i; Ret (widen less v s)) (first, first).

Definition collect_offsets (read : Z → outcome Z) (offset : Z → Z) (nelmts : Z) : outcome (list Z) :=
  for_range (Z.to_nat nelmts) 0 (λ i offsets, v ← read i; Ret (offsets ++ [offset v])%list) [].

Definition precompress_integer (input : list Z) (p : Parms) (signed : bool) (filval : option Z)
    : outcome (Z * Z * list Z) :=
  let full_bits := size p * 8 in
  let read := read_as_i128 input p signed in
  let filval := (λ bits, if signed then sign_extend bits (size p) else Z.land bits (Parms.width_mask p))
                  <$> filval in
  '(min, max) ← match filval with
                | None => scan_all Z.ltb read (nelmts p)
                | Some fv => scan Z.ltb (λ v, v =? fv) read (nelmts p) 0
                end;
  let minval := as_u64 min in
  let width_max := Parms.width_mask p in
  let spread := max - min in
  if Z.max 0 (width_max - 2) <? spread then
    let schar_quirk := signed && (size p =? 1) && negb (bool_decide (is_Some filval)) in
    Ret (full_bits, if schar_quirk then minval else 0, [])
  else
    let span := spread + 1 in
    minbits ← ceil_log2 (if bool_decide (is_Some filval) then span + 1 else span);
    if full_bits <=? minbits then Ret (full_bits, minval, [])
    else
      offsets ←
        match filval with
        | None => collect_offsets read (λ v, as_u64 (v - min)) (nelmts p)
        | Some fv =>
          collect_offsets read (λ v, if v =? fv then sentinel minbits else as_u64 (v - min)) (nelmts p)
        end;
      Ret (minbits, minval, offsets).

(** ** Floating point *)

Fixpoint pow_loop (n : positive) (result base : Z) : Z :=
  match n with
  | xH => float_mul binary64 result base
  | xO n => pow_loop n result (float_mul binary64 base base)
  | xI n => pow_loop n (float_mul binary64 result base) (float_mul binary64 base base)
  end.

Definition pow10_f64 (exp : Z) : Z :=
  let one := float_of_Z binary64 1 in
  let result := match Z.abs exp with
                | Z.pos n => pow_loop n one (float_of_Z binary64 10)
                | _ => one
                end in
  if exp <? 0 then float_div binary64 one result else result.

Definition pow10_f32 (exp : Z) : Z := f32_of_f64 (pow10_f64 exp).

(** [round_half_away_f64] and [round_half_away_f32], which differ in the format and in
    the first magnitude at which consecutive values are 1 apart. *)
Definition round_half_away (fmt : FloatFormat) (x : Z) : Z :=
  let integral := float_of_Z fmt (2 ^ mantissa_bits fmt) in
  let half := float_div fmt (float_of_Z fmt 1) (float_of_Z fmt 2) in
  if negb (float_lt fmt (float_neg fmt integral) x && float_lt fmt x integral)
  then float_to_i64 fmt x
  else
    let trunc := float_to_i64 fmt x in
    let frac := float_sub fmt x (float_of_Z fmt trunc) in
    if float_le fmt half frac then trunc + 1
    else if float_le fmt frac (float_neg fmt half) then trunc - 1
    else trunc.

Definition reconstruct_float `{Platform} `{Profile} (out : list Z) (reader : BitReader) (p : Parms)
    (minbits minval : Z) (cd : list Z) : filtered (list Z) :=
  let decimals := scale_factor p in
  filval ←? fill_bits p cd;
  let fmt := if size p =? 4 then binary32 else binary64 in
  let width := if size p =? 4 then 4 else 8 in
  let min := if size p =? 4 then minval mod 2 ^ 32 else minval in
  let pow := if size p =? 4 then pow10_f32 decimals else pow10_f64 decimals in
  let value d :=
    match filval with
    | Some fv =>
      if d =? sentinel minbits then fv
      else float_add fmt (float_div fmt (float_of_Z fmt (as_i64 d)) pow) min
    | None => float_add fmt (float_div fmt (float_of_Z fmt (as_i64 d)) pow) min
    end in
  out ← reconstruct_loop (Z.to_nat (nelmts p)) value minbits width (order p) reader out;
  ok out.

(** [u64] addition, which panics when it overflows. *)
Definition add_u64 (a b : Z) : outcome Z := if a + b <? 2 ^ 64 then Ret (a + b) else Panic.

(** One element's bit pattern. *)
Definition read_float (input : list Z) (p : Parms) (width i : Z) : outcome Z :=
  chunk ← slice input (i * width) (i * width + width);
  read_value chunk width (order p).

(** [|v - fill| < tol], with the difference taken in [fmt] and compared after [cast]. *)
Definition near (fmt wide : FloatFormat) (cast : Z → Z) (tol fill v : Z) : bool :=
  float_lt wide (float_abs wide (cast (float_sub fmt v fill))) tol.

(** The part after the scan, for one width.  [limit] is the largest residual that is
    packed, [modify_fill] the test of the second pass. *)
Definition precompress_scaled (fmt : FloatFormat) (limit pow : Z) (read : Z → outcome Z)
    (full_bits nelmts min max : Z) (fill : option Z) (modify_fill : Z → Z → bool)
    : outcome (Z * Z * list Z) :=
  let min_scaled := float_mul fmt min pow in
  let residual := float_sub fmt (float_mul fmt max pow) min_scaled in
  let minval := min in
  if float_lt fmt (float_of_Z fmt limit) residual then Ret (full_bits, 0, [])
  else
    span ← add_u64 (as_u64 (round_half_away fmt residual)) 1;
    num ← (if bool_decide (is_Some fill) then add_u64 span 1 else Ret span);
    minbits ← ceil_log2 num;
    if full_bits <=? minbits then Ret (full_bits, minval, [])
    else
      let offset v := as_u64 (round_half_away fmt (float_sub fmt (float_mul fmt v pow) min_scaled)) in
      offsets ← collect_offsets read
                  (λ v, match fill with
                        | Some fv => if modify_fill fv v then sentinel minbits else offset v
                        | None => offset v
                        end) nelmts;
      Ret (minbits, minval, offsets).

Definition precompress_float (input : list Z) (p : Parms) (filval : option Z)
    : outcome (Z * Z * list Z) :=
  let decimals := scale_factor p in
  let full_bits := size p * 8 in
  if size p =? 4 then
    let read := read_float input p 4 in
    let fill := (λ bits, bits mod 2 ^ 32) <$> filval in
    let scan_tol := pow10_f64 (- decimals) in
    '(min, max) ← match fill with
                  | None => scan_all (float_lt binary32) read (nelmts p)
                  | Some fv =>
                    scan (float_lt binary32) (near binary32 binary64 f64_of_f32 scan_tol fv) read (nelmts p) 0
                  end;
    precompress_scaled binary32 (2 ^ 31) (pow10_f32 decimals) read full_bits (nelmts p) min max fill
      (near binary32 binary32 id (pow10_f32 (- decimals)))
  else
    let read := read_float input p 8 in
    let tol := pow10_f64 (- decimals) in
    '(min, max) ← match filval with
                  | None => scan_all (float_lt binary64) read (nelmts p)
                  | Some fv =>
                    scan (float_lt binary64) (near binary64 binary64 id tol fv) read (nelmts p) 0
                  end;
    precompress_scaled binary64 (2 ^ 63) (pow10_f64 decimals) read full_bits (nelmts p) min max filval
      (near binary64 binary64 id tol).

(** ** Encoding and decoding a chunk *)

Section Codec.
Context `{Platform} `{Profile}.
Import FilterBuffer.

Definition compress (current : FilterBuffer) (cd : list Z) (spare : InitializedBuffer)
    : filtered (FilterBuffer * InitializedBuffer) :=
  input ← as_slice current;
  p ←? Parms.parse cd;
  if (class p =? CLS_INTEGER) && negb (scale_type p =? SO_INT)
  then fail (ScaleOffsetError "scaleoffset: integer class requires integer scale type")
  else if (class p =? CLS_FLOAT) && negb (scale_type p =? SO_FLOAT_DSCALE)
  then fail (ScaleOffsetError "scaleoffset: float class requires D-scale scale type")
  else
    full ←? Ret (integer_scale_factor_is_full_width p);
    if (full : bool) then ok (current, spare)
    else
      expected ←? to_usize (nelmts p * size p);
      if negb (zlen input =? expected)
      then fail (ScaleOffsetError "scaleoffset: chunk size does not match nelmts * datatype size")
      else if nelmts p =? 0 then ok (replace current spare (emit 0 0 []))
      else
        sign ← index cd PARM_SIGN;
        let signed := sign =? SGN_2 in
        let full_bits := size p * 8 in
        filval ←? fill_bits p cd;
        packed ← (if class p =? CLS_INTEGER then precompress_integer input p signed filval
                  else precompress_float input p filval);
        let '(minbits, minval, offsets) := packed in
        if full_bits <=? minbits then ok (replace current spare (emit_raw full_bits minval input))
        else
          payload ←? pack_offsets offsets minbits (nelmts p);
          ok (replace current spare (emit minbits minval payload)).

(** Eight zero bytes with the stored ones copied in front. *)
Definition read_minval (input : list Z) (minval_size : Z) : outcome Z :=
  stored ← slice input 5 (5 + minval_size);
  bytes ← splice (replicate 8 0) 0 stored;
  Ret (le_value bytes).

(** [for _ in 0..p.nelmts { write_value(..) }] *)
Definition repeat_value (bits : Z) (p : Parms) (out : list Z) : outcome (list Z) :=
  for_range (Z.to_nat (nelmts p)) 0 (λ _ out, write_value out bits (size p) (order p)) out.

(** The part of [decompress] after the header was read. *)
Definition decompress_payload (current : FilterBuffer) (cd : list Z) (p : Parms) (input : list Z)
    (size_out minbits minval : Z) (spare : InitializedBuffer)
    : filtered (FilterBuffer * InitializedBuffer) :=
  if minbits =? size p * 8 then
    match (end_ ← usize_checked_add HEADER_LEN size_out;
           if end_ <=? zlen input then Some end_ else None) with
    | None => fail (ScaleOffsetError "scaleoffset: chunk too short for raw payload")
    | Some end_ => b ←? narrow current HEADER_LEN end_; ok (b, spare)
    end
  else if minbits =? 0 then
    bits ←? (if filavail p =? FILL_DEFINED then read_fill_bits cd (size p)
             else ok (Z.land minval (Parms.width_mask p)));
    out ← repeat_value bits p [];
    ok (replace current spare out)
  else if zlen input <? HEADER_LEN
  then fail (ScaleOffsetError "scaleoffset: chunk too short for packed payload")
  else
    payload ← slice input HEADER_LEN (zlen input);
    if zlen payload * 8 <? nelmts p * minbits
    then fail (ScaleOffsetError "scaleoffset: payload too short for packed data")
    else
      let reader := BitReader.new payload in
      out ←? (if class p =? CLS_INTEGER
              then reconstruct_integer [] reader p minbits minval cd
              else reconstruct_float [] reader p minbits minval cd);
      ok (replace current spare out).

Definition decompress (current : FilterBuffer) (cd : list Z) (max_output : option Z)
    (spare : InitializedBuffer) : filtered (FilterBuffer * InitializedBuffer) :=
  input ← as_slice current;
  p ←? Parms.parse cd;
  if scale_type p =? SO_FLOAT_ESCALE
  then fail (ScaleOffsetError "scaleoffset: float E-scale method is not supported")
  else
    let full_bits := size p * 8 in
    size_out ←? to_usize (nelmts p * size p);
    if match max_output with Some cap => cap <? size_out | None => false end
    then fail (ScaleOffsetError ("scaleoffset: chunk declares " +:+ pretty size_out
                 +:+ " decoded bytes, more than the " +:+ pretty (default 0 max_output)
                 +:+ " the chunk can hold"))
    else
      full ←? Ret (integer_scale_factor_is_full_width p);
      if (full : bool) then ok (current, spare)
      else if zlen input <? 5
      then fail (ScaleOffsetError "scaleoffset: chunk shorter than header")
      else
        stored ← slice input 0 4;
        let minbits := le_value stored in
        if full_bits <? minbits
        then fail (ScaleOffsetError "scaleoffset: minbits exceeds datatype size")
        else
          b4 ← index input 4;
          let minval_size := Z.min b4 8 in
          if zlen input <? 5 + minval_size
          then fail (ScaleOffsetError "scaleoffset: chunk too short for minval")
          else
            minval ← read_minval input minval_size;
            decompress_payload current cd p input size_out minbits minval spare.

End Codec.
