(* ===== verification/BitPacking.v ===== *)
(** * The bit stream of the Scale-Offset filter

    The packer emits its offsets most significant bit first as one number, and the
    reader finds each of them at its bit position. *)

From stdpp Require Import strings.
From S2P Require Import Prelude Addresses Words ByteFields ByteFieldFacts Checksums FilterErrors.
From S2P Require Import Lzf FilterBuffers ScaleOffset.

Local Open Scope Z_scope.

(** ** Big-endian numbers *)

Lemma be_value_app l1 l2 : be_value (l1 ++ l2) = be_value l1 * 256 ^ zlen l2 + be_value l2.
Proof.
  unfold be_value. rewrite reverse_app, le_value_app. unfold zlen. rewrite length_reverse. lia.
Qed.

Lemma be_value_single b : be_value [b] = b.
Proof. unfold be_value. simpl. lia. Qed.

Lemma be_value_bounds l : Forall byte l → 0 ≤ be_value l < 256 ^ zlen l.
Proof.
  intros Hl. unfold be_value. replace (zlen l) with (zlen (reverse l)).
  - by apply le_value_bounds, Forall_reverse.
  - unfold zlen. by rewrite length_reverse.
Qed.

Lemma be_value_bytes n v : be_value (be_bytes n v) = v mod 256 ^ Z.of_nat n.
Proof. unfold be_value, be_bytes. by rewrite reverse_involutive, le_value_bytes_mod. Qed.

Lemma be_bytes_byte n v : Forall byte (be_bytes n v).
Proof. apply Forall_reverse, le_bytes_byte. Qed.

Lemma zlen_be_bytes n v : zlen (be_bytes n v) = Z.of_nat n.
Proof. unfold be_bytes, zlen. by rewrite length_reverse, length_le_bytes. Qed.

Lemma be_value_zeros n : be_value (replicate n 0) = 0.
Proof.
  unfold be_value. assert (H : ∀ l, Forall (eq 0) l → le_value l = 0).
  { induction 1 as [|b l <- Hl IH]; [done|]. simpl. lia. }
  apply H, Forall_reverse, Forall_replicate. done.
Qed.

Lemma pow_256_bits n : 0 ≤ n → 256 ^ n = 2 ^ (8 * n).
Proof. intros Hn. rewrite Z.pow_mul_r by lia. done. Qed.

Lemma pow2_pos n : 0 ≤ n → 0 < 2 ^ n.
Proof. intros Hn. apply Z.pow_pos_nonneg; lia. Qed.

(** [x] by its high and its low bits. *)
Lemma mod_split x a b : 0 ≤ a → 0 ≤ b → x mod 2 ^ (a + b) = (x / 2 ^ a) mod 2 ^ b * 2 ^ a + x mod 2 ^ a.
Proof.
  intros Ha Hb. rewrite Z.pow_add_r by lia.
  rewrite Z.rem_mul_r; [lia|..]; pose proof (pow2_pos a Ha); pose proof (pow2_pos b Hb); lia.
Qed.

Lemma pow2_divide a b : 0 ≤ a ≤ b → (2 ^ a | 2 ^ b).
Proof. intros Hab. exists (2 ^ (b - a)). rewrite <- Z.pow_add_r by lia. f_equal. lia. Qed.

Lemma land_ones' x n : 0 ≤ n → Z.land x (Z.shiftl 1 n - 1) = x mod 2 ^ n.
Proof. intros Hn. rewrite Z.shiftl_1_l, <- Z.land_ones, Z.ones_equiv by done. f_equal. Qed.

(** ** The packer *)

(** The offsets as one number. *)
Definition stream (minbits : Z) (offsets : list Z) : Z := foldl (λ n v, n * 2 ^ minbits + v) 0 offsets.

Lemma foldl_stream minbits n offsets :
  0 ≤ minbits →
  foldl (λ n v, n * 2 ^ minbits + v) n offsets = n * 2 ^ (minbits * zlen offsets) + stream minbits offsets.
Proof.
  intros Hm. unfold stream. revert n.
  assert (H : ∀ offsets n k, foldl (λ n v, n * 2 ^ minbits + v) (n + k) offsets
    = n * 2 ^ (minbits * zlen offsets) + foldl (λ n v, n * 2 ^ minbits + v) k offsets).
  { induction offsets0 as [|v l IH]; intros n k; cbn [foldl].
    - rewrite zlen_nil, Z.mul_0_r. lia.
    - replace ((n + k) * 2 ^ minbits + v) with (n * 2 ^ minbits + (k * 2 ^ minbits + v)) by lia.
      rewrite IH, zlen_cons, Z.mul_add_distr_l, Z.pow_add_r, Z.mul_1_r by (pose proof (zlen_nonneg l); lia).
      lia. }
  intros n. rewrite <- (Z.add_0_r n) at 1. apply H.
Qed.

Lemma stream_app minbits l1 l2 :
  0 ≤ minbits → stream minbits (l1 ++ l2) = stream minbits l1 * 2 ^ (minbits * zlen l2) + stream minbits l2.
Proof. intros Hm. unfold stream at 1. by rewrite foldl_app, foldl_stream. Qed.

Lemma stream_single minbits v : stream minbits [v] = v.
Proof. unfold stream. simpl. lia. Qed.

Lemma stream_bounds minbits l :
  0 ≤ minbits → Forall (λ v, 0 ≤ v < 2 ^ minbits) l → 0 ≤ stream minbits l < 2 ^ (minbits * zlen l).
Proof.
  intros Hm. induction l as [|v l IH] using rev_ind; intros Hl.
  { change (zlen (@nil Z)) with 0. rewrite Z.mul_0_r. unfold stream. simpl. lia. }
  apply Forall_app in Hl as [Hl Hv]. apply Forall_cons in Hv as [Hv _]. specialize (IH Hl).
  rewrite stream_app, stream_single by done. autorewrite with zlen.
  replace (minbits * (zlen l + (1 + 0))) with (minbits * zlen l + minbits * (1 + 0)) by lia.
  rewrite Z.pow_add_r by (pose proof (zlen_nonneg l); lia).
  rewrite Z.add_0_r, Z.mul_1_r. set (P := 2 ^ (minbits * zlen l)) in *. set (Q := 2 ^ minbits) in *.
  assert ((stream minbits l) * Q ≤ (P - 1) * Q) by (apply Z.mul_le_mono_nonneg_r; lia). nia.
Qed.

(** [n] has been packed: whole bytes in [buf], the last [nbits] in [acc], whose higher
    bits are stale. *)
Definition packed (n acc nbits : Z) (buf : list Z) : Prop :=
  0 ≤ nbits ≤ 64 ∧ 0 ≤ acc < 2 ^ 64 ∧ Forall byte buf ∧ n = be_value buf * 2 ^ nbits + acc mod 2 ^ nbits.

Lemma drain_spec fuel n acc nbits buf :
  packed n acc nbits buf → nbits < 8 * (Z.of_nat fuel + 1) →
  ∃ nbits' buf', drain fuel acc nbits buf = Ret (nbits', buf') ∧ packed n acc nbits' buf' ∧
    nbits' < 8 ∧ 8 * zlen buf' + nbits' = 8 * zlen buf + nbits.
Proof.
  revert nbits buf. induction fuel as [|fuel IH]; intros nbits buf HP Hf; cbn [drain];
    (destruct (8 <=? nbits) eqn:E; [|exists nbits, buf; split_and!; (done || lia)]); [lia|].
  destruct HP as (Hn & Ha & Hb & ->).
  assert (Hbyte : Z.land (Z.shiftr acc (nbits - 8)) 0xFF = (acc / 2 ^ (nbits - 8)) mod 2 ^ 8).
  { rewrite Z.shiftr_div_pow2 by lia. by apply (Z.land_ones _ 8). }
  rewrite Hbyte. set (b := (acc / 2 ^ (nbits - 8)) mod 2 ^ 8).
  assert (Hbb : byte b) by (unfold byte, b; apply Z.mod_pos_bound; lia).
  destruct (IH (nbits - 8) (buf ++ [b])) as (nb & buf' & -> & HP & Hlt & Hlen).
  - split_and!; try lia; [by apply Forall_app_2, Forall_singleton|].
    rewrite be_value_app, be_value_single. change (256 ^ zlen [b]) with (2 ^ 8).
    replace nbits with ((nbits - 8) + 8) at 1 2 by lia.
    rewrite mod_split by lia. fold b. rewrite Z.pow_add_r by lia. ring.
  - lia.
  - exists nb, buf'. split_and!; try done. autorewrite with zlen in Hlen. lia.
Qed.

Lemma pack_one_spec n acc nbits buf minbits mask v :
  packed n acc nbits buf → 1 ≤ minbits ≤ 64 → 0 ≤ v < 2 ^ minbits → mask = Z.ones minbits →
  ∃ acc' nbits' buf', pack_one minbits mask v (acc, nbits, buf) = Ret (acc', nbits', buf') ∧
    packed (n * 2 ^ minbits + v) acc' nbits' buf' ∧
    8 * zlen buf' + nbits' = 8 * zlen buf + nbits + minbits.
Proof.
  intros HP Hm Hv ->. unfold pack_one.
  destruct (drain_spec 9 _ _ _ _ HP) as (nb & buf0 & -> & (Hnb & Ha & Hb & ->) & Hlt & Hlen).
  { destruct HP. lia. }
  cbn [mbind outcome_bind]. rewrite Z.land_ones, (Z.mod_small v) by lia.
  assert (Hc : Z.lor (Z.shiftl acc minbits mod 2 ^ 128) v = acc * 2 ^ minbits + v).
  { assert (2 ^ minbits ≤ 2 ^ 64) by (apply Z.pow_le_mono_r; lia).
    rewrite Z.mod_small.
    - rewrite Z.lor_comm, lor_shiftl_add by lia. lia.
    - rewrite Z.shiftl_mul_pow2 by lia. change (2 ^ 128) with (2 ^ 64 * 2 ^ 64). nia. }
  rewrite Hc. set (c := acc * 2 ^ minbits + v).
  assert (Hcm : c mod 2 ^ (nb + minbits) = acc mod 2 ^ nb * 2 ^ minbits + v).
  { rewrite (Z.add_comm nb), mod_split by lia. unfold c.
    rewrite Z.div_add_l, (Z.div_small v), Z.add_0_r by lia. f_equal.
    rewrite Z.add_comm, Z.mod_add, Z.mod_small by lia. done. }
  unfold as_u64. destruct (nb + minbits <=? 64) eqn:E.
  - eexists _, _, _. split; [done|]. split; [|lia]. split_and!; try lia; try done; try (apply Z.mod_pos_bound; lia).
    rewrite Z.mod_mod_divide by (apply pow2_divide; lia). rewrite Hcm, Z.pow_add_r by lia. ring.
  - set (d := nb + minbits - 64). assert (Hd : 1 ≤ d ≤ 7) by lia.
    rewrite Z.shiftr_div_pow2, land_ones' by lia.
    assert (Hcd : 0 ≤ c mod 2 ^ d < 2 ^ 7).
    { pose proof (Z.mod_pos_bound c (2 ^ d) (pow2_pos d ltac:(lia))).
      assert (2 ^ d ≤ 2 ^ 7) by (apply Z.pow_le_mono_r; lia). lia. }
    eexists _, _, _. split; [done|]. split; [|rewrite zlen_app, zlen_be_bytes; lia].
    split_and!; try lia; try (apply Z.mod_pos_bound; lia); [by apply Forall_app_2, be_bytes_byte|].
    rewrite (Z.mod_small (c mod 2 ^ d)) by lia. rewrite Z.mod_mod by (pose proof (pow2_pos d); lia).
    rewrite be_value_app, be_value_bytes, zlen_be_bytes. change (256 ^ Z.of_nat 8) with (2 ^ 64).
    rewrite Z.mod_mod by lia.
    transitivity (be_value buf0 * 2 ^ (nb + minbits) + c mod 2 ^ (d + 64)).
    + replace (d + 64) with (nb + minbits) by lia. rewrite Hcm, Z.pow_add_r by lia. ring.
    + rewrite mod_split by lia. replace (nb + minbits) with (64 + d) by lia.
      rewrite Z.pow_add_r by lia. ring.
Qed.

Lemma pack_loop_spec offsets n acc nbits buf minbits mask :
  packed n acc nbits buf → 1 ≤ minbits ≤ 64 → Forall (λ v, 0 ≤ v < 2 ^ minbits) offsets →
  mask = Z.ones minbits →
  ∃ acc' nbits' buf', pack_loop offsets minbits mask (acc, nbits, buf) = Ret (acc', nbits', buf') ∧
    packed (foldl (λ n v, n * 2 ^ minbits + v) n offsets) acc' nbits' buf' ∧
    8 * zlen buf' + nbits' = 8 * zlen buf + nbits + minbits * zlen offsets.
Proof.
  intros HP Hm Hvs Hmask. revert n acc nbits buf HP.
  induction Hvs as [|v offsets Hv Hvs IH]; intros n acc nbits buf HP; cbn [pack_loop foldl].
  - eexists _, _, _. split; [done|]. split; [done|]. rewrite zlen_nil. lia.
  - destruct (pack_one_spec _ _ _ _ minbits mask v HP Hm Hv Hmask) as (a1 & n1 & b1 & -> & HP1 & Hl1).
    cbn [mbind outcome_bind]. destruct (IH _ _ _ _ HP1) as (a2 & n2 & b2 & -> & HP2 & Hl2).
    eexists _, _, _. split; [done|]. split; [done|]. rewrite zlen_cons. lia.
Qed.

Section Streams.
Context `{Platform}.

(** The payload is the stream of the offsets, followed by zero bits. *)
Lemma pack_offsets_spec offsets minbits n :
  1 ≤ minbits ≤ 64 → Forall (λ v, 0 ≤ v < 2 ^ minbits) offsets → n = zlen offsets →
  n * minbits / 8 + 1 ≤ USIZE_MAX →
  ∃ payload, pack_offsets offsets minbits n = ok payload ∧ Forall byte payload ∧
    zlen payload = n * minbits / 8 + 1 ∧
    be_value payload = stream minbits offsets * 2 ^ (8 * zlen payload - minbits * n).
Proof.
  intros Hm Hvs -> Hsize. unfold pack_offsets, ScaleOffset.to_usize.
  destruct (_ <=? USIZE_MAX) eqn:E; [|lia]. rewrite and_then_ok.
  destruct (minbits =? 0) eqn:E0; [lia|].
  set (T := zlen offsets * minbits). set (len := T / 8 + 1).
  assert (Hmask : (if minbits =? 64 then U64_MAX else Z.shiftl 1 minbits - 1) = Z.ones minbits).
  { destruct (minbits =? 64) eqn:E64; [apply Z.eqb_eq in E64 as ->; done|].
    by rewrite Z.shiftl_1_l, Z.ones_equiv. }
  assert (H0 : packed 0 0 0 []) by (split_and!; (done || lia)).
  destruct (pack_loop_spec offsets 0 0 0 [] minbits _ H0 Hm Hvs Hmask) as (a & nb & buf & -> & HP & Hl).
  cbn [mbind outcome_bind]. fold (stream minbits offsets) in HP.
  destruct (drain_spec 9 _ _ _ _ HP) as (nb' & buf' & -> & (Hnb & Ha & Hb & Hn) & Hlt & Hl').
  { destruct HP. lia. }
  cbn [mbind outcome_bind]. change (zlen (@nil Z)) with 0 in Hl.
  assert (HT : 8 * zlen buf' + nb' = T) by (unfold T; lia).
  pose proof (Z.div_mod T 8 ltac:(lia)) as Hdm. pose proof (Z.mod_pos_bound T 8 ltac:(lia)).
  assert (Hlast : Z.land (as_u64 (Z.shiftl a (8 - nb'))) 255 = (a mod 2 ^ nb') * 2 ^ (8 - nb')).
  { change 255 with (Z.ones 8). unfold as_u64.
    rewrite Z.land_ones, Z.mod_mod_divide by (try apply (pow2_divide 8 64); lia).
    rewrite Z.shiftl_mul_pow2 by lia. replace (2 ^ 8) with (2 ^ nb' * 2 ^ (8 - nb')).
    - by rewrite Z.mul_mod_distr_r by (pose proof (pow2_pos (8 - nb')); pose proof (pow2_pos nb'); lia).
    - rewrite <- Z.pow_add_r by lia. f_equal. lia. }
  rewrite Hlast. set (last := (a mod 2 ^ nb') * 2 ^ (8 - nb')).
  set (full := if 0 <? nb' then buf' ++ [last] else buf').
  assert (Hfull : Forall byte full ∧ 8 * zlen full = T + (if 0 <? nb' then 8 - nb' else 0) ∧
    be_value full = stream minbits offsets * 2 ^ (8 * zlen full - T)).
  { unfold full. destruct (0 <? nb') eqn:En.
    - assert (Hz : zlen (buf' ++ [last]) = zlen buf' + 1) by (autorewrite with zlen; lia).
      assert (Hbl : byte last).
      { unfold byte, last. pose proof (Z.mod_pos_bound a (2 ^ nb') (pow2_pos nb' ltac:(lia))).
        assert (2 ^ nb' * 2 ^ (8 - nb') = 256) by (rewrite <- Z.pow_add_r by lia; by replace (nb' + (8 - nb')) with 8 by lia).
        pose proof (pow2_pos (8 - nb') ltac:(lia)). nia. }
      split_and!; [by apply Forall_app_2, Forall_singleton|lia|].
      rewrite Hz, be_value_app, be_value_single, Hn. unfold last. change (zlen [_]) with 1.
      replace (8 * (zlen buf' + 1) - T) with (8 - nb') by lia.
      replace (256 ^ 1) with (2 ^ nb' * 2 ^ (8 - nb'))
        by (rewrite <- Z.pow_add_r by lia; by replace (nb' + (8 - nb')) with 8 by lia). ring.
    - assert (nb' = 0) as -> by lia. split_and!; [done|lia|]. replace (8 * zlen buf' - T) with 0 by lia.
      rewrite Hn. change (2 ^ 0) with 1. rewrite Z.mod_1_r. lia. }
  destruct Hfull as (HF & HZ & HV).
  assert (Hpad : zlen full ≤ len) by (unfold len; destruct (0 <? nb') eqn:En; lia).
  assert (Hge : T ≤ 8 * zlen full) by (destruct (0 <? nb'); lia).
  eexists. split; [done|]. split_and!.
  - apply Forall_app_2; [done|]. apply Forall_replicate. unfold byte. lia.
  - rewrite zlen_app, zlen_replicate. unfold len in *. lia.
  - rewrite be_value_app, be_value_zeros, zlen_app, zlen_replicate, HV, Z.add_0_r.
    rewrite pow_256_bits, <- Z.mul_assoc, <- Z.pow_add_r by lia. f_equal. f_equal. unfold T. lia.
Qed.

End Streams.

(** ** The reader *)

(** The [m] bits at position [pos] of the payload. *)
Definition bits_at (payload : list Z) (pos m : Z) : Z :=
  (be_value payload / 2 ^ (8 * zlen payload - pos - m)) mod 2 ^ m.

(** The window of nine bytes, with zeros beyond the end, holds the bits. *)
Lemma window_bits payload pre w post (k : nat) pos m :
  payload ++ replicate k 0 = pre ++ w ++ post → zlen pre = pos / 8 → zlen w = 9 →
  Forall byte post → 1 ≤ m ≤ 64 → 0 ≤ pos → pos + m ≤ 8 * zlen payload →
  bits_at payload pos m = (be_value w / 2 ^ (72 - pos mod 8 - m)) mod 2 ^ m.
Proof.
  intros Heq Hpre Hw Hpost Hm Hpos Hle. unfold bits_at. set (off := pos mod 8).
  pose proof (Z.div_mod pos 8 ltac:(lia)) as Hdm.
  assert (Hoff : 0 ≤ off < 8) by (apply Z.mod_pos_bound; lia). fold off in Hdm.
  set (e := 8 * zlen payload - pos - m). set (f := 72 - off - m).
  assert (Hbe : be_value payload * 2 ^ (8 * Z.of_nat k)
    = (be_value pre * 2 ^ 72 + be_value w) * 2 ^ (8 * zlen post) + be_value post).
  { pose proof (be_value_app payload (replicate k 0)) as H1. rewrite be_value_zeros, zlen_replicate in H1.
    rewrite Heq, !be_value_app, zlen_app, Hw in H1. rewrite !pow_256_bits in H1 by (pose proof (zlen_nonneg post); lia).
    rewrite Z.mul_add_distr_l, Z.pow_add_r in H1 by (pose proof (zlen_nonneg post); lia).
    change (2 ^ (8 * 9)) with (2 ^ 72) in H1. lia. }
  assert (Hlen : zlen payload + Z.of_nat k = pos / 8 + 9 + zlen post).
  { assert (zlen (payload ++ replicate k 0) = zlen (pre ++ w ++ post)) as Hz by (by rewrite Heq).
    autorewrite with zlen in Hz. lia. }
  pose proof (zlen_nonneg post) as Hpl.
  pose proof (be_value_bounds post Hpost) as Hpb. rewrite pow_256_bits in Hpb by done.
  assert (Hdiv : be_value payload / 2 ^ e = be_value pre * 2 ^ (off + m) + be_value w / 2 ^ f).
  { rewrite <- (Z.div_mul_cancel_r _ _ (2 ^ (8 * Z.of_nat k))) by (pose proof (pow2_pos (8 * Z.of_nat k)); pose proof (pow2_pos e); lia).
    rewrite Hbe, <- Z.pow_add_r by lia. replace (e + 8 * Z.of_nat k) with (8 * zlen post + f) by lia.
    rewrite Z.pow_add_r, <- Z.div_div by (try apply Z.pow_nonzero; try apply pow2_pos; lia).
    rewrite Z.div_add_l, (Z.div_small (be_value post)), Z.add_0_r by lia.
    replace (2 ^ 72) with (2 ^ (off + m) * 2 ^ f) by (rewrite <- Z.pow_add_r by lia; f_equal; lia).
    rewrite Z.mul_assoc, Z.div_add_l by (apply Z.pow_nonzero; lia). done. }
  rewrite Hdiv, Z.pow_add_r, Z.mul_assoc, Z.add_comm, Z.mod_add by (try apply Z.pow_nonzero; lia). done.
Qed.

(** The aligned word the reader builds from the window. *)
Lemma combined_bits hi lo off m :
  0 ≤ hi < 2 ^ 64 → byte lo → 0 ≤ off < 8 → 1 ≤ m ≤ 64 →
  Z.shiftr (if off =? 0 then hi else Z.lor (as_u64 (Z.shiftl hi off)) (Z.shiftr lo (8 - off))) (64 - m)
  = ((hi * 256 + lo) / 2 ^ (72 - off - m)) mod 2 ^ m.
Proof.
  intros Hh Hlo Hoff Hm. unfold byte in Hlo. set (x := (hi * 256 + lo) / 2 ^ (8 - off)).
  assert (Hx : x = hi * 2 ^ off + lo / 2 ^ (8 - off)).
  { unfold x. replace 256 with (2 ^ off * 2 ^ (8 - off))
      by (rewrite <- Z.pow_add_r by lia; by replace (off + (8 - off)) with 8 by lia).
    rewrite Z.mul_assoc, Z.div_add_l by (apply Z.pow_nonzero; lia). done. }
  assert (Hlo' : 0 ≤ lo / 2 ^ (8 - off) < 2 ^ off).
  { split; [apply Z.div_pos; [lia|apply pow2_pos; lia]|]. apply Z.div_lt_upper_bound; [apply pow2_pos; lia|].
    rewrite <- Z.pow_add_r by lia. replace (8 - off + off) with 8 by lia. lia. }
  assert (Hc : (if off =? 0 then hi else Z.lor (as_u64 (Z.shiftl hi off)) (Z.shiftr lo (8 - off))) = x mod 2 ^ 64).
  { destruct (off =? 0) eqn:E.
    - apply Z.eqb_eq in E as ->. rewrite Hx. change (2 ^ (8 - 0)) with 256. change (2 ^ 0) with 1.
      rewrite (Z.div_small lo) by lia. rewrite Z.mod_small; lia.
    - unfold as_u64. rewrite Z.shiftl_mul_pow2, Z.shiftr_div_pow2 by lia.
      assert (Hp : 2 ^ 64 = 2 ^ (64 - off) * 2 ^ off) by (rewrite <- Z.pow_add_r by lia; f_equal; lia).
      rewrite Hp, Z.mul_mod_distr_r by (apply Z.pow_nonzero; lia).
      rewrite <- (Z.shiftl_mul_pow2 (hi mod _)), Z.lor_comm, lor_shiftl_add by lia.
      rewrite <- Hp, Hx. replace 64 with (off + (64 - off)) at 2 by lia. rewrite mod_split by lia.
      rewrite Z.div_add_l, (Z.div_small (lo / _)), Z.add_0_r by lia.
      rewrite (Z.add_comm (hi * 2 ^ off)), Z.mod_add, (Z.mod_small (lo / _)) by lia. lia. }
  rewrite Hc, Z.shiftr_div_pow2 by lia.
  assert (Hs := mod_split x (64 - m) m ltac:(lia) ltac:(lia)). replace (64 - m + m) with 64 in Hs by lia.
  rewrite Hs, Z.div_add_l, (Z.div_small (x mod _)), Z.add_0_r
    by (try apply Z.mod_pos_bound; try apply Z.pow_nonzero; try apply pow2_pos; lia).
  unfold x. rewrite Z.div_div by (try apply Z.pow_nonzero; try apply pow2_pos; lia).
  rewrite <- Z.pow_add_r by lia. do 3 f_equal. lia.
Qed.

Lemma read_bits `{Platform} `{Profile} payload pos m :
  Forall byte payload → 1 ≤ m ≤ 64 → 0 ≤ pos → pos + m ≤ 8 * zlen payload →
  BitReader.read {| payload := payload; bit_pos := pos |} m
  = (next ← usize_op (pos + m); Ret (bits_at payload pos m, {| payload := payload; bit_pos := next |})).
Proof.
  intros Hb Hm Hpos Hle. unfold BitReader.read. cbn [ScaleOffset.payload bit_pos].
  assert (Hdbg : debug_assert ((1 <=? m) && (m <=? 64)) = Ret tt).
  { unfold debug_assert. destruct debug_assertions; [|done]. unfold assert_.
    by destruct (_ && _) eqn:E; [|lia]. }
  rewrite Hdbg. cbn [mbind outcome_bind].
  rewrite Z.shiftr_div_pow2 by lia. change (2 ^ 3) with 8. change 7 with (Z.ones 3).
  rewrite Z.land_ones by lia. change (2 ^ 3) with 8. set (byte := pos / 8). set (off := pos mod 8).
  pose proof (Z.div_mod pos 8 ltac:(lia)) as Hdm. fold byte off in Hdm.
  assert (Hoff : 0 ≤ off < 8) by (apply Z.mod_pos_bound; lia).
  assert (Hbyte : 0 ≤ byte < zlen payload) by lia.
  enough (Hwin : ∃ hi lo pre w post (k : nat),
    (if byte + 9 <=? zlen payload then
       hi ← slice payload byte (byte + 8); lo ← index payload (byte + 8); Ret (be_value hi, lo)
     else
       part ← slice payload byte (byte + Z.min (Z.max 0 (zlen payload - byte)) 9);
       window ← splice (replicate 9 0) 0 part;
       hi ← slice window 0 8; lo ← index window 8; Ret (be_value hi, lo)) = Ret (be_value hi, lo) ∧
    w = hi ++ [lo] ∧ zlen hi = 8 ∧ payload ++ replicate k 0 = pre ++ w ++ post ∧ zlen pre = byte ∧
    Forall Words.byte w ∧ Forall Words.byte post).
  { destruct Hwin as (hi & lo & pre & w & post & k & Hwin & Hw & Hhi & Heq & Hpre & Hbw & Hpost).
    cbv zeta. rewrite Hwin. cbn [mbind outcome_bind]. destruct (usize_op (pos + m)) as [next|]; [|done].
    cbn [mbind outcome_bind]. f_equal. f_equal.
    rewrite (window_bits payload pre w post k pos m); try done; [|subst w; autorewrite with zlen; lia].
    subst w. apply Forall_app in Hbw as [Hbh Hbl]. apply Forall_cons in Hbl as [Hbl _].
    rewrite be_value_app, be_value_single. change (256 ^ zlen [lo]) with 256. fold off.
    apply combined_bits; try done. pose proof (be_value_bounds hi Hbh) as Hbd. by rewrite Hhi in Hbd. }
  destruct (byte + 9 <=? zlen payload) eqn:E.
  - assert (Hs : slice payload byte (byte + 8) = Ret (take 8 (drop (Z.to_nat byte) payload))).
    { apply slice_Ret, get_range_Some. split_and!; try lia. do 2 f_equal. lia. }
    destruct (index_input payload (byte + 8) ltac:(lia)) as (lo & Hlo & Hlk).
    set (hi := take 8 (drop (Z.to_nat byte) payload)) in *.
    assert (Hwe : take 9 (drop (Z.to_nat byte) payload) = hi ++ [lo]).
    { unfold hi. apply take_S_r. rewrite lookup_drop. rewrite <- Hlk. f_equal. lia. }
    eexists hi, lo, (take (Z.to_nat byte) payload), (hi ++ [lo]), (drop 9 (drop (Z.to_nat byte) payload)), 0%nat.
    rewrite Hs. cbn [mbind outcome_bind]. rewrite Hlo. cbn [mbind outcome_bind].
    split_and!; try done.
    + unfold hi, zlen in *. rewrite length_take, length_drop. lia.
    + rewrite app_nil_r, <- Hwe, take_drop, take_drop. done.
    + by apply zlen_take; lia.
    + rewrite <- Hwe. by apply Forall_take, Forall_drop.
    + by apply Forall_drop, Forall_drop.
  - set (part := drop (Z.to_nat byte) payload).
    assert (Hpart : zlen part = zlen payload - byte) by (apply zlen_drop; lia).
    assert (Hs : slice payload byte (byte + Z.min (Z.max 0 (zlen payload - byte)) 9) = Ret part).
    { apply slice_Ret, get_range_Some. split_and!; try lia. rewrite take_ge; [done|].
      unfold part, zlen in *. lia. }
    set (k := (9 - length part)%nat). set (w := part ++ replicate k 0).
    assert (Hk : (length part + k = 9)%nat) by (unfold k, zlen in *; lia).
    assert (Hw : length w = 9%nat) by (unfold w; rewrite length_app, length_replicate; lia).
    assert (Hsp : splice (replicate 9 0) 0 part = Ret w).
    { rewrite <- Hk, replicate_add.
      apply (splice_app [] (replicate (length part) 0) (replicate k 0) part).
      by rewrite length_replicate. }
    rewrite Hs. cbn [mbind outcome_bind]. rewrite Hsp. cbn [mbind outcome_bind].
    destruct (index_input w 8) as (lo & Hlo & Hlk); [unfold zlen; lia|].
    assert (Hsw : slice w 0 8 = Ret (take 8 w)) by (apply slice_Ret, get_range_0; unfold zlen; lia).
    rewrite Hsw. cbn [mbind outcome_bind]. rewrite Hlo. cbn [mbind outcome_bind].
    assert (Hwe : w = take 8 w ++ [lo]).
    { rewrite <- (take_S_r w 8 lo Hlk). symmetry. apply take_ge. lia. }
    exists (take 8 w), lo, (take (Z.to_nat byte) payload), w, [], k.
    split_and!; try done.
    + unfold zlen. rewrite length_take. lia.
    + unfold w, part. by rewrite app_nil_r, app_assoc, take_drop.
    + by apply zlen_take; lia.
    + unfold w. apply Forall_app_2; [by apply Forall_drop|]. apply Forall_replicate. unfold Words.byte. lia.
Qed.

Lemma read_spec `{Platform} `{Profile} payload pos m :
  Forall byte payload → 1 ≤ m ≤ 64 → 0 ≤ pos → pos + m ≤ 8 * zlen payload → pos + m ≤ USIZE_MAX →
  BitReader.read {| payload := payload; bit_pos := pos |} m
  = Ret (bits_at payload pos m, {| payload := payload; bit_pos := pos + m |}).
Proof. intros Hb Hm Hpos Hle Hu. rewrite read_bits by done. by rewrite usize_op_in by lia. Qed.

(** A payload with more bits than a [usize] counts, 512 MiB where it is 32 bits wide: at its
    last countable bit a build with overflow checks panics, and any other goes on to read at
    the start of the payload. *)
Lemma read_past_usize `{Platform} `{Profile} payload m :
  Forall byte payload → 1 ≤ m ≤ 64 → USIZE_MAX + 1 ≤ 8 * zlen payload →
  BitReader.read {| payload := payload; bit_pos := USIZE_MAX + 1 - m |} m
  = if debug_assertions then Panic
    else Ret (bits_at payload (USIZE_MAX + 1 - m) m, BitReader.new payload).
Proof.
  intros Hb Hm Hle. pose proof usize_bounds. rewrite read_bits by (done || lia).
  replace (USIZE_MAX + 1 - m + m) with (USIZE_MAX + 1) by lia. unfold usize_op.
  replace ((0 <=? USIZE_MAX + 1) && (USIZE_MAX + 1 <=? USIZE_MAX)) with false by lia.
  destruct debug_assertions; [done|]. cbn [mbind outcome_bind]. by rewrite Z.mod_same by lia.
Qed.

(** Every offset is found where it was packed. *)
Lemma bits_at_stream payload minbits l1 v l2 :
  0 ≤ minbits → Forall (λ v, 0 ≤ v < 2 ^ minbits) (l1 ++ v :: l2) →
  minbits * zlen (l1 ++ v :: l2) ≤ 8 * zlen payload →
  be_value payload
  = stream minbits (l1 ++ v :: l2) * 2 ^ (8 * zlen payload - minbits * zlen (l1 ++ v :: l2)) →
  bits_at payload (minbits * zlen l1) minbits = v.
Proof.
  intros Hm Hvs Hle Hbe. unfold bits_at. rewrite Hbe.
  apply Forall_app in Hvs as [Hv1 Hvs]. apply Forall_cons in Hvs as [Hv Hv2].
  pose proof (zlen_nonneg l2) as Hl2. autorewrite with zlen in *.
  set (r := 8 * zlen payload - minbits * (zlen l1 + (1 + zlen l2))).
  replace (8 * zlen payload - minbits * zlen l1 - minbits) with (minbits * zlen l2 + r) by lia.
  rewrite Z.pow_add_r, Z.div_mul_cancel_r by (try apply Z.pow_nonzero; lia).
  change (l1 ++ v :: l2) with (l1 ++ [v] ++ l2). rewrite app_assoc, stream_app by done.
  pose proof (stream_bounds minbits l2 Hm Hv2).
  rewrite Z.div_add_l, (Z.div_small (stream _ _)), Z.add_0_r by lia.
  rewrite stream_app, stream_single by done. change (zlen [v]) with 1. rewrite Z.mul_1_r.
  rewrite Z.add_comm, Z.mod_add, Z.mod_small by (try apply Z.pow_nonzero; lia). done.
Qed.
