(* ===== verification/ScaleOffsetFacts.v ===== *)
(** * Facts about the Scale-Offset filter

    The integer mode is lossless: what the encoder stores for a chunk is decoded to
    its bytes, for every width, sign, byte order and fill value. *)

From stdpp Require Import strings pretty.
From S2P Require Import Prelude Addresses Words ByteFields ByteFieldFacts Checksums FilterErrors.
From S2P Require Import Lzf ByteFilters FilterBuffers ScaleOffset BitPacking.

Local Open Scope Z_scope.

(** ** Elements *)

Section Elements.
Context (size order : Z).
Hypothesis Hsize : 1 ≤ size ≤ 8.

(** The bytes of the element with bit pattern [b]. *)
Definition elem (b : Z) : list Z :=
  if order =? ORDER_LE then le_bytes (Z.to_nat size) b else reverse (le_bytes (Z.to_nat size) b).

Definition element_bits (b : Z) : Prop := 0 ≤ b < 256 ^ size.

Definition elems (bs : list Z) : list Z := concat (map elem bs).

Lemma zlen_elem b : zlen (elem b) = size.
Proof.
  unfold elem, zlen. destruct (order =? ORDER_LE); rewrite ?length_reverse, length_le_bytes; lia.
Qed.

Lemma zlen_elems bs : zlen (elems bs) = zlen bs * size.
Proof.
  induction bs as [|b bs IH]; [done|]. unfold elems in *. cbn [map concat].
  rewrite zlen_app, zlen_elem, IH, zlen_cons. lia.
Qed.

Lemma elems_app bs1 bs2 : elems (bs1 ++ bs2) = elems bs1 ++ elems bs2.
Proof. unfold elems. by rewrite map_app, concat_app. Qed.

Lemma elems_byte bs : Forall byte (elems bs).
Proof.
  induction bs as [|b bs IH]; [constructor|]. unfold elems in *. cbn [map concat].
  apply Forall_app_2; [|done]. unfold elem.
  destruct (order =? ORDER_LE); [|apply Forall_reverse]; apply le_bytes_byte.
Qed.

Lemma write_value_elem out b : write_value out b size order = Ret (out ++ elem b).
Proof.
  unfold write_value.
  assert (Hs : slice (le_bytes 8 b) 0 size = Ret (le_bytes (Z.to_nat size) b)).
  { apply slice_Ret. rewrite get_range_0 by (rewrite zlen_le_bytes; lia).
    f_equal. apply take_le_bytes. lia. }
  rewrite Hs. done.
Qed.

Lemma read_value_elem b : element_bits b → read_value (elem b) size order = Ret b.
Proof.
  intros Hb. unfold read_value.
  assert (Hs : slice (elem b) 0 size = Ret (elem b)).
  { apply slice_Ret. rewrite <- (zlen_elem b). apply get_range_all. }
  rewrite Hs. cbn [mbind outcome_bind]. f_equal. unfold elem, element_bits in *.
  destruct (order =? ORDER_LE); rewrite ?reverse_involutive; apply le_value_bytes; rewrite Z2Nat.id by lia; done.
Qed.

Lemma repeat_elems (n : nat) start out b :
  for_range n start (λ _ out, write_value out b size order) out = Ret (out ++ elems (replicate n b)).
Proof.
  revert start out. induction n as [|n IH]; intros start out; cbn [for_range replicate].
  - unfold elems. simpl. by rewrite app_nil_r.
  - rewrite write_value_elem. cbn [mbind outcome_bind]. rewrite IH. unfold elems.
    cbn [map concat]. by rewrite <- app_assoc.
Qed.

(** Every chunk of whole elements is made of them. *)
Lemma elems_exist (n : nat) input :
  Forall byte input → zlen input = Z.of_nat n * size →
  ∃ bs, length bs = n ∧ Forall element_bits bs ∧ input = elems bs.
Proof.
  revert input. induction n as [|n IH]; intros input Hb Hz.
  - exists []. split_and!; [done|constructor|]. destruct input; [done|]. rewrite zlen_cons in Hz.
    pose proof (zlen_nonneg input). lia.
  - set (c := take (Z.to_nat size) input).
    assert (Hc : zlen c = size) by (apply zlen_take; lia).
    destruct (IH (drop (Z.to_nat size) input)) as (bs & Hl & Hbs & Hd).
    { by apply Forall_drop. } { rewrite zlen_drop by lia. lia. }
    assert (Hbc : Forall byte c) by (by apply Forall_take).
    set (nc := if order =? ORDER_LE then c else reverse c).
    assert (Hnc : Forall byte nc ∧ length nc = Z.to_nat size).
    { unfold nc, zlen in *. destruct (order =? ORDER_LE).
      - split; [done|lia].
      - rewrite length_reverse. split; [by apply Forall_reverse|lia]. }
    destruct Hnc as [Hnb Hnl].
    exists (le_value nc :: bs). split_and!; [simpl; lia| |].
    + constructor; [|done]. unfold element_bits. pose proof (le_value_bounds nc Hnb) as Hv.
      unfold zlen in Hv. rewrite Hnl, Z2Nat.id in Hv by lia. done.
    + change (input = elem (le_value nc) ++ elems bs).
      assert (Hv : le_bytes (Z.to_nat size) (le_value nc) = nc) by (by rewrite <- Hnl, le_bytes_value).
      assert (He : elem (le_value nc) = c).
      { unfold elem. rewrite Hv. unfold nc. by destruct (order =? ORDER_LE); rewrite ?reverse_involutive. }
      rewrite He, <- Hd. symmetry. apply take_drop.
Qed.

Lemma slice_elems bs (i : nat) b :
  bs !! i = Some b →
  slice (elems bs) (Z.of_nat i * size) ((Z.of_nat i + 1) * size) = Ret (elem b).
Proof.
  intros Hi. apply slice_Ret. rewrite <- (take_drop_middle bs i b Hi).
  change (b :: drop (S i) bs) with ([b] ++ drop (S i) bs). rewrite !elems_app.
  replace (elems [b]) with (elem b) by (unfold elems; simpl; by rewrite app_nil_r).
  assert (Hz : zlen (elems (take i bs)) = Z.of_nat i * size).
  { rewrite zlen_elems. unfold zlen. rewrite length_take. apply lookup_lt_Some in Hi. lia. }
  apply get_range_app; rewrite Hz; [done|]. rewrite zlen_elem. lia.
Qed.

(** ** Signed values *)

Definition value_of (signed : bool) (b : Z) : Z := if signed then sign_extend b size else b.

Lemma pow256_size : 256 ^ size = 2 ^ (8 * size).
Proof. apply pow_256_bits. lia. Qed.

Lemma sign_extend_mod b : element_bits b → sign_extend b size mod 256 ^ size = b.
Proof.
  unfold element_bits. rewrite pow256_size. intros Hb. unfold sign_extend, as_i64.
  assert (Hsplit : 2 ^ (8 * size) * 2 ^ (64 - size * 8) = 2 ^ 64).
  { rewrite <- Z.pow_add_r by lia. f_equal. lia. }
  pose proof (pow2_pos (64 - size * 8) ltac:(lia)) as Hp.
  destruct (8 <=? size) eqn:E.
  - assert (size = 8) as -> by lia. change (8 * 8) with 64 in *. destruct (b <? 2 ^ 63); [by apply Z.mod_small|].
    replace (b - 2 ^ 64) with (b + (-1) * 2 ^ 64) by lia. rewrite Z.mod_add by lia. by apply Z.mod_small.
  - unfold as_u64. rewrite Z.shiftl_mul_pow2, Z.shiftr_div_pow2 by lia.
    rewrite (Z.mod_small (b * _)) by nia. destruct (_ <? 2 ^ 63).
    + rewrite Z.div_mul by lia. by apply Z.mod_small.
    + rewrite <- Hsplit, <- Z.mul_sub_distr_r, Z.div_mul by lia.
      replace (b - 2 ^ (8 * size)) with (b + (-1) * 2 ^ (8 * size)) by lia.
      rewrite Z.mod_add by lia. by apply Z.mod_small.
Qed.

Lemma value_of_mod signed b : element_bits b → value_of signed b mod 256 ^ size = b.
Proof.
  intros Hb. unfold value_of. destruct signed; [by apply sign_extend_mod|].
  unfold element_bits in Hb. by apply Z.mod_small.
Qed.

End Elements.

(** ** Loops over the elements *)

Lemma for_range_read {S} (vs : list Z) start read (f : Z → S → S) s :
  (∀ i v, vs !! i = Some v → read (start + Z.of_nat i) = Ret v) →
  for_range (length vs) start (λ i s, v ← read i; Ret (f v s)) s = Ret (foldl (λ s v, f v s) s vs).
Proof.
  revert start s. induction vs as [|v vs IH]; intros start s Hr; cbn [for_range length foldl]; [done|].
  assert (Hv : read start = Ret v) by (rewrite <- (Hr 0%nat v eq_refl); f_equal; lia).
  rewrite Hv. cbn [mbind outcome_bind].
  apply IH. intros i w Hi. rewrite <- (Hr (Datatypes.S i) w Hi). f_equal. lia.
Qed.

Section Reads.
Context (read : Z → outcome Z) (vs : list Z).
Hypothesis Hread : ∀ i v, vs !! i = Some v → read (Z.of_nat i) = Ret v.

Lemma widen_bounds l s :
  let r := foldl (λ s v, widen Z.ltb v s) s l in
  r.1 ≤ s.1 ∧ s.2 ≤ r.2 ∧ Forall (λ v, r.1 ≤ v ≤ r.2) l.
Proof.
  revert s. induction l as [|v l IH]; intros s; cbn [foldl]; [split_and!; [lia|lia|constructor]|].
  specialize (IH (widen Z.ltb v s)). cbv zeta in IH. destruct IH as (H1 & H2 & H3).
  set (r := foldl _ _ l) in *.
  assert (Hw : (widen Z.ltb v s).1 ≤ s.1 ∧ (widen Z.ltb v s).1 ≤ v ∧ s.2 ≤ (widen Z.ltb v s).2 ∧ v ≤ (widen Z.ltb v s).2).
  { unfold widen. simpl. destruct (v <? s.1) eqn:E1; destruct (s.2 <? v) eqn:E2; lia. }
  split_and!; [lia|lia|]. constructor; [lia|done].
Qed.

Lemma scan_all_spec n :
  n = zlen vs → 0 < n →
  ∃ min max, scan_all Z.ltb read n = Ret (min, max) ∧ Forall (λ v, min ≤ v ≤ max) vs.
Proof.
  intros -> Hn. unfold scan_all. destruct vs as [|v l] eqn:E; [done|].
  assert (Hv : read 0 = Ret v) by exact (Hread 0%nat v eq_refl). rewrite Hv. cbn [mbind outcome_bind].
  replace (Z.to_nat (zlen (v :: l) - 1)) with (length l) by (rewrite zlen_cons; unfold zlen; lia).
  rewrite (for_range_read l 1 read (widen Z.ltb)).
  - pose proof (widen_bounds l (v, v)) as (H1 & H2 & H3). destruct (foldl _ _ l) as [min max].
    exists min, max. split; [done|]. simpl in *. constructor; [lia|done].
  - intros i w Hi. rewrite <- (Hread (S i) w Hi). f_equal. lia.
Qed.

Lemma scan_one_bounds is_fill l s :
  let r := foldl (λ s v, scan_one Z.ltb is_fill v s) s l in
  (s.1 = true → r.1 = true ∧ r.2.1 ≤ s.2.1 ∧ s.2.2 ≤ r.2.2) ∧ (r.1 = false → r.2 = s.2) ∧
  (s.2.1 ≤ s.2.2 → r.2.1 ≤ r.2.2) ∧
  Forall (λ v, is_fill v = false → r.2.1 ≤ v ≤ r.2.2) l.
Proof.
  revert s. induction l as [|v l IH]; intros s; cbn [foldl]; [split_and!; [naive_solver lia|done|done|constructor]|].
  specialize (IH (scan_one Z.ltb is_fill v s)). cbv zeta in IH. destruct IH as (H1 & H2 & H3 & H4).
  set (r := foldl _ _ l) in *. destruct s as [seen [lo hi]]. unfold scan_one in *.
  destruct (is_fill v) eqn:Ef; simpl in *.
  - split_and!; try done. constructor; [congruence|done].
  - destruct seen; simpl in *.
    + destruct H1 as (Hr & Hlo & Hhi); [done|]. destruct (v <? lo) eqn:E1; destruct (hi <? v) eqn:E2;
        (split_and!; [intros _; split_and!; (done || lia)|congruence|intros; apply H3; lia|
          constructor; [intros _; lia|done]]).
    + destruct H1 as (Hr & Hlo & Hhi); [done|]. split_and!; [done|congruence|intros; apply H3; lia|].
      constructor; [intros _; lia|done].
Qed.

Lemma scan_spec is_fill n :
  n = zlen vs →
  ∃ min max, scan Z.ltb is_fill read n 0 = Ret (min, max) ∧ min ≤ max ∧
    Forall (λ v, is_fill v = false → min ≤ v ≤ max) vs.
Proof.
  intros ->. unfold scan. replace (Z.to_nat (zlen vs)) with (length vs) by (unfold zlen; lia).
  rewrite (for_range_read vs 0 read (scan_one Z.ltb is_fill)).
  - cbn [mbind outcome_bind]. pose proof (scan_one_bounds is_fill vs (false, (0, 0))) as (_ & _ & H3 & H4).
    destruct (foldl _ _ vs) as [seen [min max]]. exists min, max. simpl in *. split_and!; [done|lia|done].
  - intros i v Hi. rewrite Z.add_0_l. by apply Hread.
Qed.

Lemma collect_offsets_spec offset n :
  n = zlen vs → collect_offsets read offset n = Ret (offset <$> vs).
Proof.
  intros ->. unfold collect_offsets. replace (Z.to_nat (zlen vs)) with (length vs) by (unfold zlen; lia).
  rewrite (for_range_read vs 0 read (λ v offsets, (offsets ++ [offset v])%list)).
  - f_equal. clear Hread. assert (H : ∀ acc, foldl (λ s v, s ++ [offset v]) acc vs = acc ++ (offset <$> vs)).
    { induction vs as [|v l IH]; intros acc; cbn [foldl fmap list_fmap]; [by rewrite app_nil_r|].
      rewrite IH, <- app_assoc. done. }
    by rewrite H.
  - intros i v Hi. rewrite Z.add_0_l. by apply Hread.
Qed.

End Reads.

(** ** Bit counts *)

Lemma log2_loop_spec fuel val v lower_bound :
  0 < val → Z.log2 val < Z.of_nat fuel → 0 ≤ v → v + Z.log2 val ≤ 63 → lower_bound = 2 ^ v →
  log2_loop fuel val v lower_bound = Ret (v + Z.log2 val, 2 ^ (v + Z.log2 val)).
Proof.
  revert val v lower_bound. induction fuel as [|fuel IH]; intros val v lb Hval Hf Hv Hle ->.
  { pose proof (Z.log2_nonneg val). lia. }
  cbn [log2_loop]. cbv zeta. rewrite Z.shiftr_div_pow2 by lia. change (2 ^ 1) with 2.
  destruct (val / 2 =? 0) eqn:E.
  - assert (val = 1) as ->.
    { apply Z.eqb_eq, Z.div_small_iff in E; lia. }
    by rewrite Z.add_0_r.
  - assert (Hpos : 0 < val / 2) by (pose proof (Z.div_pos val 2); lia).
    assert (Hlog : Z.log2 val = Z.log2 (val / 2) + 1).
    { pose proof (Z.log2_shiftr val 1 ltac:(lia)) as Hs. rewrite Z.shiftr_div_pow2 in Hs by lia.
      change (2 ^ 1) with 2 in Hs. assert (1 ≤ Z.log2 val); [|lia].
      apply (Z.log2_le_mono 2). pose proof (Z.div_mod val 2 ltac:(lia)). pose proof (Z.mod_pos_bound val 2). lia. }
    pose proof (Z.log2_nonneg (val / 2)).
    rewrite IH; try lia.
    + do 2 f_equal; [lia|f_equal; lia].
    + unfold as_u64. rewrite Z.shiftl_mul_pow2, <- Z.pow_add_r by lia. apply Z.mod_small.
      split; [apply Z.pow_nonneg; lia|apply Z.pow_lt_mono_r; lia].
Qed.

(** The number of bits that hold [num] codes. *)
Lemma ceil_log2_spec num :
  1 ≤ num < 2 ^ 64 →
  ∃ k, ceil_log2 num = Ret k ∧ 0 ≤ k ≤ 64 ∧ num ≤ 2 ^ k ∧ (k = 0 → num = 1).
Proof.
  intros Hn. unfold ceil_log2. pose proof (Z.log2_nonneg num) as Hl.
  assert (Hlog : Z.log2 num < 64) by (apply Z.log2_lt_pow2; lia).
  rewrite log2_loop_spec by (simpl; lia). cbn [mbind outcome_bind]. rewrite Z.add_0_l.
  pose proof (Z.log2_spec num ltac:(lia)) as Hs. rewrite Z.pow_succ_r in Hs by done.
  eexists. split; [done|]. destruct (num =? 2 ^ Z.log2 num) eqn:E.
  - split_and!; [lia|lia|lia|]. intros H0. rewrite H0 in E. simpl in E. lia.
  - rewrite Z.pow_add_r by lia. change (2 ^ 1) with 2. split_and!; lia.
Qed.

(** ** Integer packing *)

Lemma width_mask_ones p : 1 ≤ size p ≤ 8 → Parms.width_mask p = Z.ones (8 * size p).
Proof.
  intros Hs. unfold Parms.width_mask. destruct (8 <=? size p) eqn:E.
  - assert (size p = 8) as -> by lia. done.
  - rewrite Z.shiftl_1_l, Z.ones_equiv. by replace (size p * 8) with (8 * size p) by lia.
Qed.

Lemma land_width_mask p x : 1 ≤ size p ≤ 8 → Z.land x (Parms.width_mask p) = x mod 256 ^ size p.
Proof. intros Hs. rewrite width_mask_ones, Z.land_ones, pow_256_bits by lia. done. Qed.

Lemma size_divides p x : 1 ≤ size p ≤ 8 → (x mod 2 ^ 64) mod 256 ^ size p = x mod 256 ^ size p.
Proof. intros Hs. rewrite pow_256_bits by lia. apply Z.mod_mod_divide, pow2_divide. lia. Qed.

(** An offset from the minimum restores the bit pattern. *)
Lemma offset_restores p x minimum v b :
  1 ≤ size p ≤ 8 → x = v - minimum → v mod 256 ^ size p = b →
  Z.land (as_u64 (x + as_u64 minimum)) (Parms.width_mask p) = b.
Proof.
  intros Hs -> <-. unfold as_u64. rewrite land_width_mask by done.
  rewrite Z.add_mod_idemp_r, size_divides by lia. f_equal. lia.
Qed.

Section Precompress.
Context (p : Parms) (signed : bool) (bs : list Z) (filval : option Z).
Hypothesis Hsize : 1 ≤ size p ≤ 8.
Hypothesis Hbs : Forall (element_bits (size p)) bs.
Hypothesis Hn : nelmts p = zlen bs.
Hypothesis Hpos : 0 < nelmts p.
Hypothesis Hfill : match filval with Some fb => element_bits (size p) fb | None => True end.
Let input := elems (size p) (order p) bs.
Let vs := value_of (size p) signed <$> bs.

Lemma read_elements i v : vs !! i = Some v → read_as_i128 input p signed (Z.of_nat i) = Ret v.
Proof.
  unfold vs. rewrite list_lookup_fmap. intros Hi. destruct (bs !! i) as [b|] eqn:Eb; [|done].
  injection Hi as <-. unfold read_as_i128, input. rewrite (slice_elems _ _ Hsize _ _ _ Eb).
  cbn [mbind outcome_bind]. rewrite read_value_elem by (try done; by eapply Forall_lookup_1 in Hbs).
  done.
Qed.

(** The fill value, read as the elements are. *)
Let fill : option Z :=
  (λ bits, if signed then sign_extend bits (size p) else Z.land bits (Parms.width_mask p)) <$> filval.

Lemma fill_value fv : fill = Some fv → ∃ fb, filval = Some fb ∧ fv = value_of (size p) signed fb.
Proof.
  unfold fill. destruct filval as [fb|]; [|done]. cbn [fmap option_fmap option_map]. intros [= <-].
  exists fb. split; [done|]. unfold value_of. destruct signed; [done|].
  rewrite land_width_mask by done. by apply Z.mod_small.
Qed.

Lemma fill_none : fill = None → filval = None.
Proof. apply fmap_None. Qed.

Definition masked_fill : option Z := (λ fv, Z.land fv (Parms.width_mask p)) <$> filval.

(** The bounds both scans find: every element that is not a fill value is within. *)
Definition within (minimum maximum : Z) : Prop :=
  minimum ≤ maximum ∧ Forall (λ v, fill ≠ Some v → minimum ≤ v ≤ maximum) vs.

Lemma scan_within :
  ∃ minimum maximum,
    match fill with
    | None => scan_all Z.ltb (read_as_i128 input p signed) (nelmts p)
    | Some fv => scan Z.ltb (λ v, v =? fv) (read_as_i128 input p signed) (nelmts p) 0
    end = Ret (minimum, maximum) ∧ within minimum maximum.
Proof.
  assert (Hz : nelmts p = zlen vs) by (unfold vs, zlen in *; by rewrite length_fmap).
  destruct fill as [fv|] eqn:Ef.
  - destruct (scan_spec _ _ read_elements (λ v, v =? fv) (nelmts p) Hz) as (mn & mx & -> & Hle & Hall).
    exists mn, mx. split; [done|]. split; [done|]. rewrite Ef. eapply Forall_impl; [exact Hall|].
    simpl. intros v Hv Hne. apply Hv. apply Z.eqb_neq. congruence.
  - destruct (scan_all_spec _ _ read_elements (nelmts p) Hz Hpos) as (mn & mx & -> & Hall).
    exists mn, mx. split; [done|]. split.
    + destruct vs as [|v l]; [rewrite Hz in Hpos; done|]. apply Forall_cons in Hall as [Hv _]. lia.
    + eapply Forall_impl; [exact Hall|]. simpl. auto.
Qed.

Definition offset_of (minbits minimum v : Z) : Z :=
  match fill with
  | Some fv => if v =? fv then sentinel minbits else as_u64 (v - minimum)
  | None => as_u64 (v - minimum)
  end.

Definition codes (minimum maximum : Z) : Z := maximum - minimum + 1 + (if fill then 1 else 0).

Lemma codes_one minimum maximum : within minimum maximum → codes minimum maximum = 1 → fill = None.
Proof. unfold codes. intros [Hle _] Hc. destruct fill; [lia|done]. Qed.

Lemma sentinel_eq minbits : 0 ≤ minbits < 64 → sentinel minbits = 2 ^ minbits - 1.
Proof.
  intros Hm. unfold sentinel, as_u64. rewrite Z.shiftl_1_l.
  assert (2 ^ minbits < 2 ^ 64) by (apply Z.pow_lt_mono_r; lia).
  pose proof (pow2_pos minbits ltac:(lia)). rewrite (Z.mod_small (2 ^ minbits)) by lia.
  by rewrite Z.mod_small by lia.
Qed.

(** The offset of an element fits its code width and restores the element. *)
Lemma offset_correct minbits minimum maximum b :
  within minimum maximum → codes minimum maximum ≤ 2 ^ minbits → 0 ≤ minbits < 64 →
  maximum - minimum < 2 ^ 64 → b ∈ bs →
  let d := offset_of minbits minimum (value_of (size p) signed b) in
  0 ≤ d < 2 ^ minbits ∧
  reconstruct_value masked_fill minbits (as_u64 minimum) (Parms.width_mask p) d = b.
Proof.
  intros [Hle Hall] Hc Hm Hw Hb d. set (v := value_of (size p) signed b) in *.
  assert (Hbb : element_bits (size p) b) by (by eapply Forall_forall in Hbs).
  assert (Hvm : v mod 256 ^ size p = b) by (by apply value_of_mod).
  assert (Hv : fill ≠ Some v → minimum ≤ v ≤ maximum).
  { eapply Forall_forall in Hall; [exact Hall|]. apply list_elem_of_fmap. by exists b. }
  pose proof (pow2_pos minbits ltac:(lia)) as Hp2.
  unfold d, offset_of, reconstruct_value, masked_fill, codes in *. destruct fill as [fv|] eqn:Ef.
  - destruct (fill_value fv Ef) as (fb & Hfb & Hfv). rewrite Hfb in *. cbn [fmap option_fmap option_map].
    rewrite sentinel_eq by done. destruct (v =? fv) eqn:E.
    + apply Z.eqb_eq in E. split; [lia|]. rewrite Z.eqb_refl, land_width_mask by done.
      rewrite <- Hvm, E, Hfv, value_of_mod by done. by apply Z.mod_small.
    + assert (fv ≠ v) by (apply Z.eqb_neq in E; congruence).
      assert (Hvb : minimum ≤ v ≤ maximum) by (apply Hv; congruence).
      assert (Hd : as_u64 (v - minimum) = v - minimum) by (unfold as_u64; apply Z.mod_small; lia).
      rewrite Hd. split; [lia|]. destruct (v - minimum =? 2 ^ minbits - 1) eqn:E2; [lia|].
      by apply (offset_restores p _ minimum v).
  - assert (Hvb : minimum ≤ v ≤ maximum) by (by apply Hv).
    assert (Hd : as_u64 (v - minimum) = v - minimum) by (unfold as_u64; apply Z.mod_small; lia).
    assert (Hnf : filval = None) by (by apply fill_none).
    rewrite Hd, Hnf. split; [lia|]. by apply (offset_restores p _ minimum v).
Qed.

(** What the encoder packs: the chunk raw, or one code per element. *)
Definition packs_well (r : Z * Z * list Z) : Prop :=
  let '(minbits, minval, offsets) := r in
  0 ≤ minval < 2 ^ 64 ∧
  (minbits = 8 * size p ∨
   (0 ≤ minbits < 8 * size p ∧ length offsets = length bs ∧
    Forall (λ d, 0 ≤ d < 2 ^ minbits) offsets ∧
    Forall2 (λ b d, reconstruct_value masked_fill minbits minval (Parms.width_mask p) d = b) bs offsets ∧
    (minbits = 0 → filval = None ∧ Forall (λ b, Z.land minval (Parms.width_mask p) = b) bs))).

Lemma precompress_integer_spec : precompress_integer input p signed filval ⇝ packs_well.
Proof.
  unfold precompress_integer. fold fill. destruct scan_within as (mn & mx & -> & Hw).
  cbn [mbind outcome_bind]. pose proof (width_mask_ones p Hsize) as Hwm. rewrite Z.ones_equiv in Hwm.
  assert (Hbig : 2 ^ 8 ≤ 2 ^ (8 * size p) ≤ 2 ^ 64) by (split; apply Z.pow_le_mono_r; lia).
  assert (Hmv : 0 ≤ as_u64 mn < 2 ^ 64) by (unfold as_u64; apply Z.mod_pos_bound; lia).
  destruct (Z.max 0 _ <? _) eqn:Eg.
  { apply returns_ret. split; [|left; lia]. by destruct (_ && _); [|lia]. }
  set (num := if bool_decide (is_Some fill) then mx - mn + 1 + 1 else mx - mn + 1).
  assert (Hnum : num = codes mn mx) by (unfold num, codes; destruct fill; simpl; lia).
  assert (Hcodes : 1 ≤ codes mn mx < 2 ^ 64).
  { destruct Hw as [Hle _]. unfold codes. destruct fill; lia. }
  destruct (ceil_log2_spec num) as (k & -> & Hk & Hle & Hk0); [lia|]. cbn [mbind outcome_bind].
  destruct (size p * 8 <=? k) eqn:Ek; [apply returns_ret; split; [done|left; lia]|].
  assert (Hoff : match fill with
    | Some fv => collect_offsets (read_as_i128 input p signed)
        (λ v, if v =? fv then sentinel k else as_u64 (v - mn)) (nelmts p)
    | None => collect_offsets (read_as_i128 input p signed) (λ v, as_u64 (v - mn)) (nelmts p)
    end = Ret (offset_of k mn <$> vs)).
  { assert (Hz : nelmts p = zlen vs) by (unfold vs, zlen in *; by rewrite length_fmap).
    pose proof (collect_offsets_spec _ _ read_elements (offset_of k mn) (nelmts p) Hz) as Hcs.
    unfold offset_of in *. by destruct fill. }
  rewrite Hoff. cbn [mbind outcome_bind]. apply returns_ret. split; [done|]. right.
  assert (Hoc : ∀ b, b ∈ bs → let d := offset_of k mn (value_of (size p) signed b) in
    0 ≤ d < 2 ^ k ∧ reconstruct_value masked_fill k (as_u64 mn) (Parms.width_mask p) d = b).
  { intros b Hb. apply (offset_correct k mn mx b Hw); try done; try lia. }
  split_and!; [lia|lia|by unfold vs; rewrite !length_fmap|..].
  - unfold vs. rewrite !Forall_fmap. apply Forall_forall. intros b Hb. by apply Hoc.
  - unfold vs. rewrite !Forall2_fmap_r. apply Forall_Forall2_diag, Forall_forall. intros b Hb. by apply Hoc.
  - intros ->. specialize (Hk0 eq_refl). assert (Hf : fill = None) by (apply (codes_one mn mx); [done|lia]).
    assert (Hfn : filval = None) by (by apply fill_none). split; [done|].
    apply Forall_forall. intros b Hb. destruct (Hoc b Hb) as [Hd Hr]. change (2 ^ 0) with 1 in Hd.
    unfold reconstruct_value, masked_fill in Hr. rewrite Hfn in Hr. cbn [fmap option_fmap option_map] in Hr.
    set (d := offset_of 0 mn _) in *. assert (d = 0) as Hd0 by lia. rewrite Hd0, Z.add_0_l in Hr.
    unfold as_u64 in *. by rewrite Z.mod_mod in Hr by lia.
Qed.

End Precompress.

(** ** Reconstruction *)

Section Reconstruct.
Context `{Platform} `{Profile} (size order minbits : Z) (stored : list Z) (value : Z → Z).
Hypothesis Hsize : 1 ≤ size ≤ 8.
Hypothesis Hbits : 1 ≤ minbits ≤ 64.
Hypothesis Hbytes : Forall byte stored.

(** The loop returns as many elements as it is asked for. *)
Lemma reconstruct_loop_ret (n : nat) pos out :
  0 ≤ pos → pos + Z.of_nat n * minbits ≤ 8 * zlen stored → pos + Z.of_nat n * minbits ≤ USIZE_MAX →
  ∃ ds, length ds = n ∧
    reconstruct_loop n value minbits size order {| payload := stored; bit_pos := pos |} out
    = Ret (out ++ elems size order (value <$> ds)) ∧
    ∀ i d, ds !! i = Some d → d = bits_at stored (pos + Z.of_nat i * minbits) minbits.
Proof.
  revert pos out. induction n as [|n IH]; intros pos out Hpos Hle Hu; cbn [reconstruct_loop].
  - exists []. split_and!; [done| |done]. cbn [fmap list_fmap]. unfold elems. simpl. by rewrite app_nil_r.
  - rewrite Nat2Z.inj_succ in Hle, Hu. rewrite read_spec by (done || lia). cbn [mbind outcome_bind].
    rewrite write_value_elem by done. cbn [mbind outcome_bind].
    set (d := bits_at stored pos minbits).
    destruct (IH (pos + minbits) (out ++ elem size order (value d))) as (ds & Hl & -> & Hds); [lia..|].
    exists (d :: ds). split_and!; [simpl; lia|by rewrite <- app_assoc|].
    intros [|i] d' Hi; simpl in Hi.
    + injection Hi as <-. unfold d. f_equal. lia.
    + rewrite (Hds i d' Hi). f_equal. lia.
Qed.

(** A stored that packs [offsets] gives them back. *)
Lemma reconstruct_loop_offsets offsets out :
  Forall (λ v, 0 ≤ v < 2 ^ minbits) offsets → minbits * zlen offsets ≤ 8 * zlen stored → minbits * zlen offsets ≤ USIZE_MAX →
  be_value stored = stream minbits offsets * 2 ^ (8 * zlen stored - minbits * zlen offsets) →
  reconstruct_loop (length offsets) value minbits size order (BitReader.new stored) out
  = Ret (out ++ elems size order (value <$> offsets)).
Proof.
  intros Hv Hle Hu Hbe. destruct (reconstruct_loop_ret (length offsets) 0 out) as (ds & Hl & Hr & Hds);
    [lia|unfold zlen in *; lia..|].
  unfold BitReader.new. rewrite Hr. enough (ds = offsets) as -> by done.
  apply list_eq_same_length with (n := length offsets); try done. intros i d v Hi Hd Hvi. rewrite (Hds i d Hd), Z.add_0_l.
  rewrite <- (take_drop_middle offsets i v Hvi) in Hv, Hle, Hbe.
  rewrite <- (bits_at_stream stored minbits (take i offsets) v (drop (S i) offsets)) by (done || lia).
  f_equal. unfold zlen. rewrite length_take. lia.
Qed.

End Reconstruct.

(** ** The recorded fill value *)

Lemma le_value_zeros n : le_value (replicate n 0) = 0.
Proof. induction n as [|n IH]; [done|]. simpl. lia. Qed.

Lemma read_fill_loop_spec fuel cd s off idx pre :
  1 ≤ s ≤ 8 → 0 ≤ off ≤ s → 4 * (idx - 8) = off ∨ off = s → 32 + s ≤ 4 * zlen cd → 8 ≤ idx →
  s - off ≤ Z.of_nat fuel → Forall byte pre → zlen pre = off →
  read_fill_loop fuel cd (pre ++ replicate (Z.to_nat (8 - off)) 0) off idx s ⇝
    λ bytes, ∃ v, bytes = v ++ replicate (Z.to_nat (8 - s)) 0 ∧ zlen v = s ∧ Forall byte v.
Proof.
  intros Hs. revert off idx pre. induction fuel as [|fuel IH]; intros off idx pre Ho Hi Hcd Hidx Hf Hb Hz;
    cbn [read_fill_loop].
  { destruct (off <? s) eqn:E; [lia|]. apply returns_ret. exists pre.
    assert (off = s) as -> by lia. done. }
  destruct (off <? s) eqn:E.
  2:{ apply returns_ret. exists pre. assert (off = s) as -> by lia. done. }
  set (t := Z.min (s - off) 4).
  destruct (index_input cd idx) as (entry & -> & _); [lia|]. cbn [mbind outcome_bind].
  assert (Hp : slice (le_bytes 4 entry) 0 t = Ret (le_bytes (Z.to_nat t) entry)).
  { apply slice_Ret. rewrite get_range_0 by (rewrite zlen_le_bytes; lia). f_equal. apply take_le_bytes. lia. }
  rewrite Hp. cbn [mbind outcome_bind]. set (part := le_bytes (Z.to_nat t) entry).
  assert (Hpl : length part = Z.to_nat t) by apply length_le_bytes.
  assert (Hsp : splice (pre ++ replicate (Z.to_nat (8 - off)) 0) off part
    = Ret (pre ++ part ++ replicate (Z.to_nat (8 - (off + t))) 0)).
  { replace (Z.to_nat (8 - off)) with (Z.to_nat t + Z.to_nat (8 - (off + t)))%nat by lia.
    rewrite replicate_add, <- Hz. apply splice_app. by rewrite length_replicate. }
  rewrite Hsp. cbn [mbind outcome_bind]. rewrite app_assoc. apply IH; try lia.
  - apply Forall_app_2; [done|apply le_bytes_byte].
  - rewrite zlen_app. unfold zlen at 2. rewrite Hpl. lia.
Qed.

Lemma read_fill_bits_spec cd s :
  1 ≤ s ≤ 8 →
  match read_fill_bits cd s with
  | Ret (Ok fb) => element_bits s fb
  | Ret (Err _) => True
  | Panic => False
  end.
Proof.
  intros Hs. unfold read_fill_bits. destruct (_ <? _) eqn:E; [done|].
  assert (Hc : s ≤ 4 * div_ceil s 4).
  { unfold div_ceil. pose proof (Z.div_mod (s + 4 - 1) 4 ltac:(lia)).
    pose proof (Z.mod_pos_bound (s + 4 - 1) 4 ltac:(lia)). lia. }
  unfold PARM_FILVAL in *.
  destruct (read_fill_loop_spec (Z.to_nat s) cd s 0 8 [] Hs) as (bytes & Hr & v & Hv & Hz & Hb);
    [lia|lia|lia|lia|lia|done|done|].
  change ([] ++ replicate (Z.to_nat (8 - 0)) 0) with (replicate 8 0) in Hr. rewrite Hr.
  cbn [mbind outcome_bind ok]. unfold ok. rewrite Hv, le_value_app, le_value_zeros, Z.mul_0_r, Z.add_0_r.
  unfold element_bits. rewrite <- Hz. by apply le_value_bounds.
Qed.

(** ** Parameters *)

Definition u32 (n : Z) : Prop := 0 ≤ n < 2 ^ 32.

(** The bits of all elements, one less for each, can be counted in a [usize]: where 64 bits
    wide always, where 32 bits wide for chunks below 512 MiB. *)
Definition bits_countable `{Platform} (p : Parms) : Prop := nelmts p * (8 * size p - 1) ≤ USIZE_MAX.

Lemma bits_countable_le `{Platform} p minbits :
  bits_countable p → 0 ≤ nelmts p → minbits < size p * 8 → nelmts p * minbits ≤ USIZE_MAX.
Proof. unfold bits_countable. nia. Qed.

Definition parms_ok (p : Parms) : Prop :=
  1 ≤ size p ≤ 8 ∧ 0 ≤ nelmts p ∧ (class p = CLS_INTEGER ∨ class p = CLS_FLOAT ∧ (size p = 4 ∨ size p = 8)).

Section Chunks.
Context `{Platform} `{Profile}.
Import FilterBuffer.

Lemma parse_sound cd : Forall u32 cd → Parms.parse cd ⇝? λ p, parms_ok p ∧ 8 ≤ zlen cd.
Proof.
  intros Hcd. unfold Parms.parse, CORE_NPARMS, PARM_FILVAL. destruct (zlen cd <? 8) eqn:E; [apply sound_fail|].
  assert (Hidx : ∀ i, 0 ≤ i < 8 → ∃ x, index cd i = Ret x ∧ u32 x).
  { intros i Hi. destruct (index_input cd i ltac:(lia)) as (x & Hx & Hlk). exists x. split; [done|].
    by eapply Forall_lookup_1 in Hcd. }
  unfold PARM_CLASS, PARM_SIZE, PARM_ORDER, PARM_SCALETYPE, PARM_SCALEFACTOR, PARM_NELMTS, PARM_FILAVAIL.
  destruct (Hidx 3 ltac:(lia)) as (c & -> & Hc). cbn [mbind outcome_bind].
  destruct (_ && _) eqn:E1; [apply sound_fail|].
  destruct (Hidx 4 ltac:(lia)) as (sz & -> & Hsz). cbn [mbind outcome_bind].
  destruct (_ || _) eqn:E2; [apply sound_fail|].
  destruct ((c =? CLS_FLOAT) && _ && _) eqn:E3; [apply sound_fail|].
  destruct (Hidx 6 ltac:(lia)) as (o & -> & Ho). cbn [mbind outcome_bind].
  destruct (negb (o =? _) && _) eqn:E4; [apply sound_fail|].
  destruct (Hidx 0 ltac:(lia)) as (st & -> & _). cbn [mbind outcome_bind].
  destruct (Hidx 1 ltac:(lia)) as (sf & -> & _). cbn [mbind outcome_bind].
  destruct (Hidx 2 ltac:(lia)) as (n & -> & Hn). cbn [mbind outcome_bind].
  unfold ScaleOffset.to_usize. destruct (n <=? USIZE_MAX); [|rewrite and_then_fail; apply sound_fail].
  rewrite and_then_ok. destruct (Hidx 7 ltac:(lia)) as (fa & -> & _). cbn [mbind outcome_bind].
  apply sound_ok. unfold parms_ok, u32, CLS_INTEGER, CLS_FLOAT in *. cbn [size nelmts class]. lia.
Qed.

Lemma fill_bits_sound p cd :
  1 ≤ size p ≤ 8 →
  fill_bits p cd ⇝? λ fill, match fill with Some fb => element_bits (size p) fb | None => True end.
Proof.
  intros Hs. unfold fill_bits. destruct (_ =? _); [|by apply sound_ok].
  pose proof (read_fill_bits_spec cd (size p) Hs) as Hr.
  destruct (read_fill_bits cd (size p)) as [[fb|e]|]; [|by apply sound_fail|done].
  by apply sound_ok.
Qed.

(** ** Headers *)

Definition header (minbits minval : Z) : list Z := write_header [] minbits minval.

Lemma zlen_header minbits minval : zlen (header minbits minval) = 21.
Proof. unfold header, write_header. autorewrite with zlen. done. Qed.

Lemma emit_header minbits minval stored :
  emit minbits minval stored = header minbits minval ++ match stored with [] => [0] | _ => stored end.
Proof. unfold emit. by destruct stored. Qed.

Lemma header_byte minbits minval : Forall byte (header minbits minval).
Proof.
  unfold header, write_header. assert (byte 8 ∧ byte 0) as [H8 H0'] by (unfold byte; lia).
  repeat apply Forall_app_2; try apply le_bytes_byte; [done|by apply Forall_singleton|].
  by apply Forall_replicate.
Qed.

(** The fields of the header are read back. *)
Lemma header_fields minbits minval rest :
  let input := header minbits minval ++ rest in
  0 ≤ minval < 2 ^ 64 →
  slice input 0 4 = Ret (le_bytes 4 minbits) ∧ index input 4 = Ret 8 ∧ read_minval input 8 = Ret minval.
Proof.
  intros input Hm.
  assert (Hin : input = le_bytes 4 minbits ++ [8] ++ le_bytes 8 minval
                        ++ replicate (Z.to_nat (HEADER_LEN - 13)) 0 ++ rest).
  { unfold input, header, write_header. by rewrite <- !app_assoc. }
  split_and!.
  - apply slice_Ret. rewrite Hin. by apply (get_range_prefix (le_bytes 4 minbits)).
  - rewrite Hin. by apply (index_app (le_bytes 4 minbits)).
  - unfold read_minval.
    assert (Hs : slice input 5 (5 + 8) = Ret (le_bytes 8 minval)).
    { apply slice_Ret. rewrite Hin, app_assoc. by apply get_range_app. }
    rewrite Hs. cbn [mbind outcome_bind].
    assert (Hsp : splice (replicate 8 0) 0 (le_bytes 8 minval) = Ret (le_bytes 8 minval)).
    { pose proof (splice_app [] (replicate 8 0) [] (le_bytes 8 minval)) as Hsp.
      rewrite app_nil_r in Hsp. cbn [app] in Hsp. change (zlen (@nil Z)) with 0 in Hsp.
      rewrite Hsp; [by rewrite app_nil_r|done]. }
    rewrite Hsp. cbn [mbind outcome_bind]. f_equal. by apply le_value_bytes.
Qed.

End Chunks.

(** ** Integer chunks *)

Section Lossless.
Context `{Platform} `{Profile} (cd : list Z) (p : Parms) (sign : Z) (fill : option Z).
Import FilterBuffer.

(** The parameters of an integer chunk, as [build_cd_values] makes them. *)
Definition integer_parms : Prop :=
  Parms.parse cd = ok p ∧ parms_ok p ∧ class p = CLS_INTEGER ∧ scale_type p = SO_INT ∧
  scale_factor p ≤ size p * 8 ∧ index cd PARM_SIGN = Ret sign ∧ fill_bits p cd = ok fill.

Hypothesis Hcd : integer_parms.
Context (max_output : option Z).
Hypothesis Hcap : match max_output with Some cap => nelmts p * size p ≤ cap | None => True end.

Lemma full_width : integer_scale_factor_is_full_width p = Ok (scale_factor p =? size p * 8).
Proof.
  destruct Hcd as (_ & _ & _ & Hst & Hsf & _). unfold integer_scale_factor_is_full_width.
  rewrite Hst. change (SO_INT =? SO_FLOAT_DSCALE) with false. cbv iota zeta.
  by destruct (size p * 8 <? scale_factor p) eqn:E; [lia|].
Qed.

(** What both directions do before the header. *)
Lemma decompress_start cur input spare :
  views cur input → nelmts p * size p ≤ USIZE_MAX →
  decompress cur cd max_output spare =
    if scale_factor p =? size p * 8 then ok (cur, spare)
    else if zlen input <? 5 then fail (ScaleOffsetError "scaleoffset: chunk shorter than header")
    else
      stored ← slice input 0 4;
      if size p * 8 <? le_value stored
      then fail (ScaleOffsetError "scaleoffset: minbits exceeds datatype size")
      else
        b4 ← index input 4;
        if zlen input <? 5 + Z.min b4 8
        then fail (ScaleOffsetError "scaleoffset: chunk too short for minval")
        else
          minval ← read_minval input (Z.min b4 8);
          decompress_payload cur cd p input (nelmts p * size p) (le_value stored) minval spare.
Proof.
  intros Hv Hu. pose proof full_width as Hfw. destruct Hcd as (Hparse & _ & _ & Hst & _ & _ & _).
  unfold decompress. unfold views in Hv. rewrite Hv. cbn [mbind outcome_bind].
  rewrite Hparse, and_then_ok, Hst. change (SO_INT =? SO_FLOAT_ESCALE) with false. cbv iota zeta.
  unfold ScaleOffset.to_usize. destruct (_ <=? USIZE_MAX) eqn:E; [|lia]. rewrite and_then_ok.
  destruct (match max_output with Some cap => _ | None => _ end) eqn:Ec.
  { destruct max_output as [cap|]; [lia|done]. }
  rewrite Hfw. change (Ret (Ok ?x)) with (ok (E := FilterError) x). rewrite and_then_ok. done.
Qed.

Lemma decompress_header cur minbits minval rest spare :
  scale_factor p ≠ size p * 8 → views cur (header minbits minval ++ rest) →
  nelmts p * size p ≤ USIZE_MAX → 0 ≤ minbits ≤ size p * 8 → 0 ≤ minval < 2 ^ 64 →
  decompress cur cd max_output spare =
  decompress_payload cur cd p (header minbits minval ++ rest) (nelmts p * size p) minbits minval spare.
Proof.
  intros Hsf Hv Hu Hm Hmv. rewrite (decompress_start _ _ _ Hv Hu).
  destruct (header_fields minbits minval rest Hmv) as (H1 & H2 & H3).
  set (input := header minbits minval ++ rest) in *.
  assert (Hz : 21 ≤ zlen input) by (unfold input; rewrite zlen_app, zlen_header; pose proof (zlen_nonneg rest); lia).
  destruct (_ =? _) eqn:E; [lia|]. destruct (zlen input <? 5) eqn:E5; [lia|].
  rewrite H1. cbn [mbind outcome_bind].
  rewrite le_value_bytes by (destruct Hcd as (_ & (? & _) & _); change (256 ^ Z.of_nat 4) with (2 ^ 32); lia).
  destruct (size p * 8 <? minbits) eqn:E6; [lia|]. rewrite H2. cbn [mbind outcome_bind].
  change (Z.min 8 8) with 8. destruct (zlen input <? 5 + 8) eqn:E7; [lia|].
  rewrite H3. done.
Qed.

(** Full precision: the bytes follow the header. *)
Lemma decode_raw cur minval input spare :
  scale_factor p ≠ size p * 8 → 0 ≤ minval < 2 ^ 64 → zlen input = nelmts p * size p →
  zlen input + 21 ≤ USIZE_MAX → views cur (emit_raw (size p * 8) minval input) →
  ∃ b, decompress cur cd max_output spare = ok (b, spare) ∧ views b input.
Proof.
  intros Hsf Hmv Hz Hu Hv. destruct Hcd as (_ & (Hs & _) & _). change (views cur (header (size p * 8) minval ++ input)) in Hv.
  pose proof (zlen_nonneg input). rewrite (decompress_header _ _ _ _ _ Hsf Hv) by lia.
  unfold decompress_payload. rewrite Z.eqb_refl. unfold usize_checked_add, HEADER_LEN.
  destruct (21 + _ <=? USIZE_MAX) eqn:E; [|lia]. cbn [mbind option_bind].
  rewrite zlen_app, zlen_header. destruct (21 + _ <=? 21 + _) eqn:E2; [|lia].
  pose proof (narrow_spec cur _ 21 (21 + nelmts p * size p) Hv) as Hn.
  assert (Hr : get_range (header (size p * 8) minval ++ input) 21 (21 + nelmts p * size p) = Some input).
  { rewrite <- (app_nil_r input) at 1. apply get_range_app; rewrite zlen_header; lia. }
  rewrite Hr in Hn. destruct Hn as (b & -> & Hb). exists b. split; [done|done].
Qed.

(** No bits: every element is the minimum. *)
Lemma decode_constant cur minval bs rest spare :
  scale_factor p ≠ size p * 8 → 0 ≤ minval < 2 ^ 64 → zlen bs = nelmts p →
  nelmts p * size p ≤ USIZE_MAX → fill = None →
  Forall (λ b, Z.land minval (Parms.width_mask p) = b) bs → views cur (header 0 minval ++ rest) →
  ∃ b spare', decompress cur cd max_output spare = ok (b, spare') ∧ views b (elems (size p) (order p) bs).
Proof.
  intros Hsf Hmv Hz Hu Hf Hbs Hv. pose proof Hcd as (_ & (Hs & _) & _ & _ & _ & _ & Hfb).
  rewrite (decompress_header _ _ _ _ _ Hsf Hv) by lia. unfold decompress_payload.
  destruct (0 =? size p * 8) eqn:E; [lia|]. change (0 =? 0) with true. cbv iota.
  assert (Hfa : (filavail p =? FILL_DEFINED) = false).
  { unfold fill_bits in Hfb. destruct (_ =? _); [|done].
    apply and_then_ok_inv in Hfb as (bits & _ & Hb). unfold ok in Hb. congruence. }
  rewrite Hfa, and_then_ok. set (b0 := Z.land minval (Parms.width_mask p)).
  unfold repeat_value. rewrite repeat_elems by done. cbn [mbind outcome_bind app].
  assert (Hrb : replicate (Z.to_nat (nelmts p)) b0 = bs).
  { rewrite <- Hz. unfold zlen. rewrite Nat2Z.id. apply replicate_as_elem_of. split; [done|].
    intros b Hb. eapply Forall_forall in Hbs; [|done]. done. }
  rewrite Hrb. eexists _, _. split; [done|]. apply views_owned.
Qed.

(** Packed codes. *)
Lemma decode_packed cur minbits minval bs offsets stored spare :
  scale_factor p ≠ size p * 8 → 1 ≤ minbits < size p * 8 → 0 ≤ minval < 2 ^ 64 →
  nelmts p * size p ≤ USIZE_MAX → zlen offsets = nelmts p → Forall byte stored →
  Forall (λ d, 0 ≤ d < 2 ^ minbits) offsets →
  Forall2 (λ b d, reconstruct_value (masked_fill p fill) minbits minval (Parms.width_mask p) d = b) bs offsets →
  zlen stored = nelmts p * minbits / 8 + 1 → bits_countable p →
  be_value stored = stream minbits offsets * 2 ^ (8 * zlen stored - minbits * nelmts p) →
  views cur (header minbits minval ++ stored) →
  ∃ b spare', decompress cur cd max_output spare = ok (b, spare') ∧ views b (elems (size p) (order p) bs).
Proof.
  intros Hsf Hm Hmv Hu Hz Hb Hd Hbs Hlen Hfit Hbe Hv. pose proof (bits_countable_le p minbits Hfit) as Hbit.
  pose proof Hcd as (_ & (Hs & Hn & _) & Hcls & _ & _ & _ & Hfb).
  rewrite (decompress_header _ _ _ _ _ Hsf Hv) by lia. unfold decompress_payload.
  destruct (minbits =? size p * 8) eqn:E; [lia|]. destruct (minbits =? 0) eqn:E0; [lia|].
  unfold HEADER_LEN. pose proof (zlen_nonneg stored). rewrite zlen_app, zlen_header.
  destruct (21 + zlen stored <? 21) eqn:E1; [lia|].
  assert (Hsl : slice (header minbits minval ++ stored) 21 (21 + zlen stored) = Ret stored).
  { apply slice_Ret. rewrite <- (app_nil_r stored) at 1. apply get_range_app; by rewrite zlen_header. }
  rewrite Hsl. cbn [mbind outcome_bind].
  pose proof (Z.div_mod (nelmts p * minbits) 8 ltac:(lia)) as Hdm.
  pose proof (Z.mod_pos_bound (nelmts p * minbits) 8 ltac:(lia)).
  destruct (zlen stored * 8 <? _) eqn:E2; [lia|]. rewrite Hcls. change (CLS_INTEGER =? CLS_INTEGER) with true.
  cbv iota. unfold reconstruct_integer. rewrite Hfb, and_then_ok. cbv zeta. fold (masked_fill p fill).
  replace (Z.to_nat (nelmts p)) with (length offsets) by (unfold zlen in *; lia).
  rewrite reconstruct_loop_offsets; try done; try lia; [|by rewrite Hz].
  cbn [mbind outcome_bind app]. rewrite and_then_ok.
  assert (Heq : reconstruct_value (masked_fill p fill) minbits minval (Parms.width_mask p) <$> offsets = bs).
  { clear -Hbs. induction Hbs as [|b d bs offsets Hbd Hbs IH]; [done|]. cbn [fmap list_fmap]. by rewrite Hbd, <- IH at 1. }
  rewrite Heq. eexists _, _. split; [done|]. apply views_owned.
Qed.

(** The encoder's result is decoded to the chunk, and is at most a header longer. *)
Lemma lossless cur input spare :
  views cur input → Forall byte input → zlen input = nelmts p * size p → zlen input + 21 ≤ USIZE_MAX →
  bits_countable p →
  ∃ b spare' enc, compress cur cd spare = ok (b, spare') ∧ views b enc ∧ Forall byte enc ∧
    (0 < nelmts p → zlen enc ≤ zlen input + HEADER_LEN) ∧
    ∀ cur' spare2, views cur' enc →
      ∃ b' spare2', decompress cur' cd max_output spare2 = ok (b', spare2') ∧ views b' input.
Proof.
  intros Hv Hb Hz Hu Hfit. pose proof full_width as Hfw.
  pose proof Hcd as (Hparse & Hp & Hcls & Hst & Hsf & Hsg & Hfb).
  unfold compress. unfold views in Hv. rewrite Hv. cbn [mbind outcome_bind]. rewrite Hparse, and_then_ok, Hcls, Hst.
  change (CLS_INTEGER =? CLS_INTEGER) with true. change (SO_INT =? SO_INT) with true.
  change (CLS_INTEGER =? CLS_FLOAT) with false. cbn [negb andb]. rewrite Hfw.
  change (Ret (Ok ?x)) with (ok (E := FilterError) x). rewrite and_then_ok.
  pose proof (zlen_nonneg input). unfold HEADER_LEN.
  destruct (scale_factor p =? size p * 8) eqn:Efw.
  { exists cur, spare, input. split_and!; try done; [lia|]. intros cur' spare2 Hv'.
    rewrite (decompress_start _ _ _ Hv'), Efw by lia. eauto. }
  unfold ScaleOffset.to_usize at 1. destruct (_ <=? USIZE_MAX) eqn:E; [|lia]. rewrite and_then_ok.
  destruct (zlen input =? nelmts p * size p) eqn:E1; [|lia]. cbn [negb].
  destruct Hp as (Hs & Hn & _). destruct (nelmts p =? 0) eqn:En.
  { eexists _, _, _. split; [done|]. split; [apply views_owned|]. split_and!.
    - rewrite emit_header. apply Forall_app_2; [apply header_byte|]. by apply Forall_singleton.
    - lia.
    - intros cur' spare2 Hv'. rewrite emit_header in Hv'.
      assert (input = []) as -> by (destruct input; [done|]; rewrite zlen_cons in *; pose proof (zlen_nonneg input); lia).
      rewrite (decompress_header _ _ _ _ _ ltac:(lia) Hv') by lia. unfold decompress_payload.
      destruct (0 =? size p * 8) eqn:E8; [lia|]. change (0 =? 0) with true. cbv iota.
      unfold repeat_value. apply Z.eqb_eq in En. rewrite En. cbn [Z.to_nat for_range mbind outcome_bind].
      unfold fill_bits in Hfb. destruct (filavail p =? FILL_DEFINED).
      + apply and_then_ok_inv in Hfb as (bits & -> & _). rewrite and_then_ok.
        eexists _, _. split; [done|apply views_owned].
      + rewrite and_then_ok. eexists _, _. split; [done|apply views_owned]. }
  rewrite Hsg. cbn [mbind outcome_bind]. rewrite Hfb, and_then_ok.
  destruct (elems_exist (size p) (order p) Hs (Z.to_nat (nelmts p)) input Hb) as (bs & Hlb & Hbs & ->); [lia|].
  assert (Hzb : zlen bs = nelmts p) by (unfold zlen; lia).
  destruct (precompress_integer_spec p (sign =? SGN_2) bs fill) as ([[minbits minval] offsets] & -> & Hw); try done; try lia.
  { pose proof (fill_bits_sound p cd Hs) as Hfs. by rewrite Hfb in Hfs; eapply sound_eq in Hfs; [|done]. }
  cbn [mbind outcome_bind]. destruct Hw as (Hmv & [->|(Hmb & Hlo & Hoff & Hrec & Hmb0)]).
  { destruct (size p * 8 <=? 8 * size p) eqn:E8; [|lia].
    eexists _, _, _. split; [done|]. split; [apply views_owned|]. split_and!.
    - apply Forall_app_2; [apply header_byte|done].
    - unfold emit_raw. rewrite zlen_app. change (write_header [] ?a ?b) with (header a b). rewrite zlen_header. lia.
    - intros cur' spare2 Hv'. destruct (decode_raw cur' minval _ spare2 ltac:(lia) Hmv Hz Hu Hv') as (b & -> & Hb').
      eauto. }
  destruct (size p * 8 <=? minbits) eqn:E8; [lia|].
  assert (Hpl : nelmts p * minbits / 8 + 1 ≤ nelmts p * size p).
  { assert (nelmts p * minbits / 8 < nelmts p * size p); [apply Z.div_lt_upper_bound; nia|lia]. }
  assert (Hzo : zlen offsets = nelmts p) by (unfold zlen in *; lia).
  destruct (decide (minbits = 0)) as [->|Hm0].
  - destruct (Hmb0 eq_refl) as [Hf Hall]. set (pad := replicate (Z.to_nat (nelmts p * 0 / 8 + 1)) 0).
    assert (Hpk : pack_offsets offsets 0 (nelmts p) = ok pad).
    { unfold pack_offsets, ScaleOffset.to_usize.
      rewrite (proj2 (Z.leb_le (nelmts p * 0 / 8 + 1) USIZE_MAX)) by lia. done. }
    rewrite Hpk, and_then_ok. assert (Hpad : zlen pad = 1) by (unfold pad; rewrite zlen_replicate, Z.mul_0_r; done).
    assert (Hpb : Forall byte pad) by (apply Forall_replicate; unfold byte; lia).
    eexists _, _, _. split; [done|]. split; [apply views_owned|]. rewrite emit_header.
    assert (Hpe : match pad with [] => [0] | _ => pad end = pad) by (by destruct pad). rewrite Hpe. split_and!.
    + apply Forall_app_2; [apply header_byte|done].
    + rewrite zlen_app, zlen_header. lia.
    + intros cur' spare2 Hv'. apply (decode_constant cur' minval bs pad); try done; lia.
  - destruct (pack_offsets_spec offsets minbits (nelmts p)) as (stored & -> & Hsb & Hsz & Hbe); try done; try lia.
    rewrite and_then_ok. eexists _, _, _. split; [done|]. split; [apply views_owned|]. rewrite emit_header.
    assert (Hpe : match stored with [] => [0] | _ => stored end = stored).
    { destruct stored; [|done]. change (zlen (@nil Z)) with 0 in Hsz.
      pose proof (Z.div_pos (nelmts p * minbits) 8). lia. }
    rewrite Hpe. split_and!.
    + apply Forall_app_2; [apply header_byte|done].
    + rewrite zlen_app, zlen_header. lia.
    + intros cur' spare2 Hv'. apply (decode_packed cur' minbits minval bs offsets stored); try done; lia.
Qed.

End Lossless.

(** ** Buffers *)

(** The encoder's bytes depend on the live bytes alone, not on the storage. *)
Lemma compress_views `{Platform} `{Profile} cur1 cur2 input cd s1 s2 :
  views cur1 input → views cur2 input →
  match compress cur1 cd s1 with
  | Ret (Ok (b1, _)) => ∃ b2 s2', compress cur2 cd s2 = ok (b2, s2') ∧ ∀ l, views b1 l → views b2 l
  | Ret (Err e) => compress cur2 cd s2 = fail e
  | Panic => compress cur2 cd s2 = Panic
  end.
Proof.
  unfold views. intros H1 H2. unfold compress. rewrite H1, H2. cbn [mbind outcome_bind].
  destruct (Parms.parse cd) as [[p|e]|]; cbn [and_then]; [|done..].
  destruct (_ && _); [done|]. destruct (_ && _); [done|].
  destruct (integer_scale_factor_is_full_width p) as [[]|e]; cbn [and_then]; [|..|done].
  { eexists _, _. split; [done|]. intros l Hl. congruence. }
  destruct (ScaleOffset.to_usize _) as [[n|e]|]; cbn [and_then]; [|done..].
  destruct (negb _); [done|]. destruct (nelmts p =? 0); [cbn; eauto|].
  destruct (index cd PARM_SIGN) as [sg|]; cbn [mbind outcome_bind]; [|done].
  destruct (fill_bits p cd) as [[fill|e]|]; cbn [and_then]; [|done..].
  destruct (if class p =? CLS_INTEGER then _ else _) as [[[mb mv] offs]|]; cbn [mbind outcome_bind]; [|done].
  destruct (size p * 8 <=? mb); [cbn; eauto|].
  destruct (pack_offsets offs mb (nelmts p)) as [[pl|e]|]; cbn; eauto.
Qed.

(** ** The decoder on arbitrary bytes *)

Section Decoder.
Context `{Platform} `{Profile}.
Import FilterBuffer.

(** A decoded chunk: the input unchanged, or all of its declared elements. *)
Definition decoded (cd input : list Z) (max_output : option Z) (b : FilterBuffer) : Prop :=
  ∃ out p, views b out ∧ Forall byte out ∧ Parms.parse cd = ok p ∧
    match max_output with Some cap => nelmts p * size p ≤ cap | None => True end ∧
    (zlen out = nelmts p * size p ∨ out = input ∧ integer_scale_factor_is_full_width p = Ok true).

Lemma read_minval_ret input n :
  0 ≤ n ≤ 8 → 5 + n ≤ zlen input → ∃ v, read_minval input n = Ret v.
Proof.
  intros Hn Hz. unfold read_minval.
  destruct (get_range input 5 (5 + n)) as [s|] eqn:E; [|apply get_range_None in E; lia].
  rewrite (proj2 (slice_Ret _ _ _ _) E). cbn [mbind outcome_bind].
  pose proof (get_range_zlen _ _ _ _ E) as Hs. unfold splice.
  rewrite get_range_0 by (change (zlen (replicate 8 0)) with 8; lia). cbn [mbind outcome_bind]. eauto.
Qed.

Lemma reconstruct_sound p reader minbits minval cd (pl : list Z) :
  parms_ok p → 1 ≤ minbits ≤ 64 → Forall byte pl → reader = BitReader.new pl →
  nelmts p * minbits ≤ 8 * zlen pl → nelmts p * minbits ≤ USIZE_MAX →
  (if class p =? CLS_INTEGER then reconstruct_integer [] reader p minbits minval cd
   else reconstruct_float [] reader p minbits minval cd) ⇝?
  λ out, Forall byte out ∧ zlen out = nelmts p * size p.
Proof.
  intros (Hs & Hn & Hc) Hm Hb -> Hle Hu.
  assert (Hloop : ∀ value, ∃ out,
    reconstruct_loop (Z.to_nat (nelmts p)) value minbits (size p) (order p) (BitReader.new pl) [] = Ret out ∧
    Forall byte out ∧ zlen out = nelmts p * size p).
  { intros value. destruct (reconstruct_loop_ret (size p) (order p) minbits pl value Hs Hm Hb (Z.to_nat (nelmts p)) 0 [])
      as (ds & Hl & Hr & _); [lia..|]. unfold BitReader.new. rewrite Hr.
    eexists. split; [done|]. cbn [app]. split; [by apply elems_byte|].
    rewrite zlen_elems by done. unfold zlen. rewrite length_fmap. lia. }
  destruct (class p =? CLS_INTEGER) eqn:Ec.
  - unfold reconstruct_integer. eapply sound_bind; [by apply fill_bits_sound|]. intros fill _. cbv zeta.
    destruct (Hloop (reconstruct_value ((λ fv, Z.land fv (Parms.width_mask p)) <$> fill) minbits minval
      (Parms.width_mask p))) as (out & -> & Ho). by apply sound_ok.
  - unfold reconstruct_float. eapply sound_bind; [by apply fill_bits_sound|]. intros fill _. cbv zeta.
    assert (Hw : (if size p =? 4 then 4 else 8) = size p).
    { unfold CLS_INTEGER in *. destruct (size p =? 4) eqn:E4; lia. }
    rewrite Hw. match goal with |- context [reconstruct_loop _ ?v] => destruct (Hloop v) as (out & -> & Ho) end.
    by apply sound_ok.
Qed.

Lemma scale_offset_decompress_sound cur cd input max_output spare :
  views cur input → Forall byte input → Forall u32 cd →
  (∀ p, Parms.parse cd = ok p → match max_output with Some cap => nelmts p * size p ≤ cap | None => True end →
     bits_countable p) →
  decompress cur cd max_output spare ⇝? λ '(b, _), decoded cd input max_output b.
Proof.
  intros Hv Hb Hcd Hfit. unfold decompress. unfold views in Hv. rewrite Hv. cbn [mbind outcome_bind].
  destruct (parse_sound cd Hcd) as ([p|e] & Hparse & Hp); rewrite Hparse; [|by exists (Err e)].
  change (Ret (Ok p)) with (ok (E := FilterError) p). rewrite and_then_ok. destruct Hp as [Hp _].
  destruct (_ =? SO_FLOAT_ESCALE); [apply sound_fail|]. cbv zeta.
  unfold ScaleOffset.to_usize. destruct (_ <=? USIZE_MAX); [|apply sound_fail]. rewrite and_then_ok.
  destruct (match max_output with Some cap => _ | None => _ end) eqn:Ecap; [apply sound_fail|].
  assert (Hcap : match max_output with Some cap => nelmts p * size p ≤ cap | None => True end).
  { destruct max_output; [lia|done]. }
  destruct (integer_scale_factor_is_full_width p) as [full|e] eqn:Efw; [|by exists (Err e)].
  change (Ret (Ok full)) with (ok (E := FilterError) full). rewrite and_then_ok.
  destruct full; [apply sound_ok; exists input, p; by eauto 8|].
  destruct (zlen input <? 5) eqn:E5; [apply sound_fail|].
  rewrite (proj2 (slice_Ret _ _ _ _) (get_range_0 input 4 ltac:(lia))). cbn [mbind outcome_bind].
  set (stored := take (Z.to_nat 4) input).
  assert (Hmb : 0 ≤ le_value stored) by (apply le_value_bounds, Forall_take; done).
  destruct (size p * 8 <? le_value stored) eqn:E6; [apply sound_fail|].
  destruct (index_input input 4 ltac:(lia)) as (b4 & -> & H4). cbn [mbind outcome_bind].
  assert (Hb4 : byte b4) by (by eapply Forall_lookup_1 in Hb). unfold byte in Hb4.
  destruct (zlen input <? 5 + _) eqn:E7; [apply sound_fail|].
  destruct (read_minval_ret input (Z.min b4 8)) as (minval & ->); [lia|lia|]. cbn [mbind outcome_bind].
  unfold decompress_payload. destruct Hp as (Hs & Hn & Hc). destruct (le_value stored =? size p * 8) eqn:E8.
  { destruct (mbind _ _) as [end_|] eqn:Ee; [|apply sound_fail]. unfold usize_checked_add in Ee.
    destruct (HEADER_LEN + _ <=? USIZE_MAX); [|done]. cbn in Ee. destruct (_ <=? zlen input) eqn:E9; [|done].
    injection Ee as <-. unfold HEADER_LEN in *.
    pose proof (narrow_spec cur input 21 (21 + nelmts p * size p) Hv) as Hnr.
    destruct (get_range input 21 _) as [v|] eqn:Eg.
    - destruct Hnr as (b & -> & Hbv). rewrite and_then_ok. apply sound_ok. exists v, p.
      pose proof (get_range_zlen _ _ _ _ Eg). pose proof (get_range_Forall _ _ _ _ _ Hb Eg).
      split_and!; try done. left. lia.
    - rewrite Hnr. apply sound_fail. }
  destruct (le_value stored =? 0) eqn:E10.
  { eapply (sound_bind _ _ (λ _, True)).
    - destruct (_ =? FILL_DEFINED); [|by apply sound_ok].
      pose proof (read_fill_bits_spec cd (size p) Hs) as Hr.
      destruct (read_fill_bits cd (size p)) as [[fb|e]|]; [by apply sound_ok|by apply sound_fail|done].
    - intros bits _. unfold repeat_value.
      rewrite repeat_elems by done. cbn [mbind outcome_bind app]. apply sound_ok.
      exists (elems (size p) (order p) (replicate (Z.to_nat (nelmts p)) bits)), p.
      split_and!; try done; [apply views_owned|by apply elems_byte|]. left.
      rewrite zlen_elems, zlen_replicate by done. lia. }
  destruct (zlen input <? HEADER_LEN) eqn:E11; [apply sound_fail|]. unfold HEADER_LEN in *.
  destruct (get_range input 21 (zlen input)) as [pl|] eqn:Epl; [|apply get_range_None in Epl; lia].
  rewrite (proj2 (slice_Ret _ _ _ _) Epl). cbn [mbind outcome_bind].
  destruct (zlen pl * 8 <? _) eqn:E12; [apply sound_fail|].
  eapply sound_bind.
  { pose proof (bits_countable_le p (le_value stored) (Hfit p Hparse Hcap) Hn ltac:(lia)).
    apply (reconstruct_sound p _ _ _ cd pl); try done; try lia. by apply (get_range_Forall _ _ _ _ _ Hb Epl). }
  intros out [Ho Hz]. apply sound_ok. exists out, p. split_and!; try done; [apply views_owned|]. by left.
Qed.

End Decoder.

(** ** Building parameters *)

Lemma le_value_pad (n k : nat) v : le_value (le_bytes n v ++ replicate k 0) = v mod 256 ^ Z.of_nat n.
Proof. rewrite le_value_app, le_value_zeros, Z.mul_0_r, Z.add_0_r. apply le_value_bytes_mod. Qed.

Lemma drop_le_bytes (n k : nat) v : drop n (le_bytes (n + k) v) = le_bytes k (v / 256 ^ Z.of_nat n).
Proof.
  revert v. induction n as [|n IH]; intros v; [by rewrite Z.div_1_r|].
  cbn [Nat.add le_bytes drop]. rewrite IH, pow256_succ, Z.div_div by lia. done.
Qed.

Lemma slice_le_bytes bits a n :
  0 ≤ a → 0 ≤ n → a + n ≤ 8 → slice (le_bytes 8 bits) a (a + n) = Ret (le_bytes (Z.to_nat n) (bits / 256 ^ a)).
Proof.
  intros Ha Hn Hle. apply slice_Ret, get_range_Some. split_and!; try lia; [rewrite zlen_le_bytes; lia|].
  replace 8%nat with (Z.to_nat a + (8 - Z.to_nat a))%nat by lia.
  rewrite drop_le_bytes, take_le_bytes, Z2Nat.id by lia. f_equal. lia.
Qed.

Lemma splice_zeros (k : nat) part :
  (length part ≤ k)%nat → splice (replicate k 0) 0 part = Ret (part ++ replicate (k - length part) 0).
Proof.
  intros Hle. replace k with (length part + (k - length part))%nat at 1 by lia. rewrite replicate_add.
  apply (splice_app [] (replicate (length part) 0) _ part). by rewrite length_replicate.
Qed.

Section Entries.
Context (pre rest : list Z) (e0 e1 : Z).
Hypothesis Hpre : length pre = 8%nat.

Lemma set_entry0 x : set_index (pre ++ e0 :: e1 :: rest) 8 x = Ret (pre ++ x :: e1 :: rest).
Proof.
  unfold set_index. pose proof (zlen_nonneg rest).
  destruct (_ && _) eqn:E; [|autorewrite with zlen in E; unfold zlen at 1 in E; lia].
  f_equal. replace (Z.to_nat 8) with (length pre + 0)%nat by lia. by rewrite insert_app_r.
Qed.

Lemma set_entry1 x : set_index (pre ++ e0 :: e1 :: rest) (8 + 1) x = Ret (pre ++ e0 :: x :: rest).
Proof.
  unfold set_index. pose proof (zlen_nonneg rest).
  destruct (_ && _) eqn:E; [|autorewrite with zlen in E; unfold zlen at 1 in E; lia].
  f_equal. replace (Z.to_nat (8 + 1)) with (length pre + 1)%nat by lia. by rewrite insert_app_r.
Qed.

Lemma index_entry0 : index (pre ++ e0 :: e1 :: rest) 8 = Ret e0.
Proof. apply index_Ret; [lia|]. rewrite lookup_app_r by lia. by rewrite Hpre. Qed.

Lemma index_entry1 : index (pre ++ e0 :: e1 :: rest) (8 + 1) = Ret e1.
Proof. apply index_Ret; [lia|]. rewrite lookup_app_r by lia. by rewrite Hpre. Qed.

End Entries.

(** The entries that record the low [s] bytes of [bits]. *)
Definition fill_entries (bits s : Z) (e1 : Z) : Z * Z :=
  if s <=? 4 then (bits mod 256 ^ s, e1)
  else (bits mod 256 ^ 4, (bits / 256 ^ 4) mod 256 ^ (s - 4)).

Lemma write_fill_bits_spec pre rest e0 e1 bits s :
  length pre = 8%nat → 1 ≤ s ≤ 8 →
  write_fill_bits (pre ++ e0 :: e1 :: rest) bits s =
  Ret (pre ++ (fill_entries bits s e1).1 :: (fill_entries bits s e1).2 :: rest).
Proof.
  intros Hpre Hs. unfold write_fill_bits, PARM_FILVAL, fill_entries.
  destruct (Z.to_nat s) as [|f] eqn:Ef; [lia|]. cbn [write_fill_loop].
  destruct (0 <? s) eqn:E0; [|lia]. rewrite Z.sub_0_r. destruct (s <=? 4) eqn:E4.
  - rewrite Z.min_l by lia. rewrite slice_le_bytes by lia. rewrite Z.div_1_r. cbn [mbind outcome_bind].
    rewrite splice_zeros by (rewrite length_le_bytes; lia). cbn [mbind outcome_bind].
    rewrite le_value_pad, Z2Nat.id by lia. rewrite set_entry0 by done. cbn [mbind outcome_bind]. rewrite Z.add_0_l.
    destruct f; cbn [write_fill_loop]; by rewrite Z.ltb_irrefl.
  - rewrite Z.min_r by lia. rewrite slice_le_bytes by lia. rewrite Z.div_1_r. cbn [mbind outcome_bind].
    rewrite splice_zeros by (rewrite length_le_bytes; lia). cbn [mbind outcome_bind].
    rewrite le_value_pad, set_entry0 by done. cbn [mbind outcome_bind]. rewrite Z.add_0_l.
    destruct f as [|f]; [lia|]. cbn [write_fill_loop]. destruct (4 <? s) eqn:E5; [|lia].
    rewrite Z.min_l by lia. rewrite slice_le_bytes by lia. cbn [mbind outcome_bind].
    rewrite splice_zeros by (rewrite length_le_bytes; lia). cbn [mbind outcome_bind].
    rewrite le_value_pad, (Z2Nat.id (s - 4)) by lia. rewrite set_entry1 by done. cbn [mbind outcome_bind fst snd].
    replace (4 + (s - 4)) with s by lia. destruct f; cbn [write_fill_loop]; by rewrite Z.ltb_irrefl.
Qed.

(** The recorded entries give the low bytes back. *)
Lemma read_fill_entries pre rest bits s e1 :
  length pre = 8%nat → 1 ≤ s ≤ 8 → 0 ≤ bits →
  read_fill_bits (pre ++ (fill_entries bits s e1).1 :: (fill_entries bits s e1).2 :: rest) s
  = ok (bits mod 256 ^ s).
Proof.
  intros Hpre Hs Hbits. unfold read_fill_bits, PARM_FILVAL, fill_entries.
  assert (Hdc : div_ceil s 4 < 3) by (unfold div_ceil; apply Z.div_lt_upper_bound; lia).
  assert (Hpz : zlen pre = 8) by (unfold zlen; lia). pose proof (zlen_nonneg rest).
  destruct (zlen _ <? _) eqn:E; [autorewrite with zlen in E; lia|].
  clear E. destruct (Z.to_nat s) as [|f] eqn:Ef; [lia|]. cbn [read_fill_loop].
  destruct (0 <? s) eqn:E0; [|lia]. rewrite Z.sub_0_r. rewrite index_entry0 by done. cbn [mbind outcome_bind].
  assert (Hsl : ∀ v n, 0 ≤ n ≤ 4 → slice (le_bytes 4 v) 0 n = Ret (le_bytes (Z.to_nat n) v)).
  { intros v n Hn. apply slice_Ret. rewrite get_range_0 by (rewrite zlen_le_bytes; lia). f_equal. apply take_le_bytes. lia. }
  destruct (s <=? 4) eqn:E4; cbn [fst snd].
  - rewrite Z.min_l, Hsl by lia. cbn [mbind outcome_bind].
    rewrite splice_zeros by (rewrite length_le_bytes; lia). cbn [mbind outcome_bind]. rewrite Z.add_0_l.
    assert (Hend : ∀ cd b i, read_fill_loop f cd b s i s = Ret b) by (intros; destruct f; cbn [read_fill_loop]; by rewrite Z.ltb_irrefl).
    rewrite Hend. cbn [mbind outcome_bind]. rewrite le_value_pad, Z2Nat.id, Z.mod_mod by lia || (apply Z.pow_nonzero; lia). done.
  - rewrite Z.min_r, Hsl by lia. cbn [mbind outcome_bind].
    rewrite splice_zeros by (rewrite length_le_bytes; lia). cbn [mbind outcome_bind]. rewrite Z.add_0_l.
    destruct f as [|f]; [lia|]. cbn [read_fill_loop]. destruct (4 <? s) eqn:E5; [|lia].
    rewrite index_entry1 by done. cbn [mbind outcome_bind]. rewrite Z.min_l, Hsl by lia. cbn [mbind outcome_bind].
    set (lo := bits mod 256 ^ 4). set (hi := (bits / 256 ^ 4) mod 256 ^ (s - 4)).
    rewrite length_le_bytes. change (8 - Z.to_nat 4)%nat with 4%nat.
    replace (replicate 4 0) with (replicate (Z.to_nat (s - 4)) 0 ++ replicate (4 - Z.to_nat (s - 4)) 0)
      by (rewrite <- replicate_add; f_equal; lia).
    assert (Hsp := splice_app (le_bytes (Z.to_nat 4) lo) (replicate (Z.to_nat (s - 4)) 0)
      (replicate (4 - Z.to_nat (s - 4)) 0) (le_bytes (Z.to_nat (s - 4)) hi)).
    rewrite zlen_le_bytes in Hsp. change (Z.of_nat (Z.to_nat 4)) with 4 in Hsp.
    rewrite Hsp by (by rewrite length_le_bytes, length_replicate). cbn [mbind outcome_bind].
    replace (4 + (s - 4)) with s by lia.
    assert (Hend : ∀ cd b i, read_fill_loop f cd b s i s = Ret b) by (intros; destruct f; cbn [read_fill_loop]; by rewrite Z.ltb_irrefl).
    rewrite Hend. cbn [mbind outcome_bind]. unfold ok. do 2 f_equal.
    rewrite le_value_app, le_value_pad, zlen_le_bytes. change (Z.of_nat (Z.to_nat 4)) with 4.
    rewrite (Z2Nat.id (s - 4)) by lia. change (Z.to_nat 4) with 4%nat. rewrite le_value_bytes.
    2:{ unfold lo. apply Z.mod_pos_bound. lia. }
    unfold hi. rewrite Z.mod_mod by (apply Z.pow_nonzero; lia). unfold lo.
    replace (256 ^ s) with (256 ^ 4 * 256 ^ (s - 4)) by (rewrite <- Z.pow_add_r by lia; f_equal; lia).
    rewrite Z.rem_mul_r by (try apply Z.pow_nonzero; try apply Z.pow_pos_nonneg; lia). done.
Qed.

Section Build.
Context `{Platform} (minbits sz n : Z) (signed : bool) (byte_order : ScaleOffsetByteOrder) (fill : ScaleOffsetFill).
Hypothesis Hsz : 1 ≤ sz ≤ 8.
Hypothesis Hmin : 0 ≤ minbits ≤ 8 * sz.
Hypothesis Hn : u32 n.
Hypothesis Hplatform : n ≤ USIZE_MAX.
Let sign := if signed then SGN_2 else SGN_NONE.
Let code := order_code byte_order.

(** A fill value that is supplied has the size of an element. *)
Definition fill_matches : Prop :=
  match fill with Defined (Some b) => zlen b = sz ∧ Forall byte b | _ => True end.

(** The bit pattern of the fill value. *)
Definition fill_pattern : option Z :=
  match fill with
  | Undefined => None
  | Defined None => Some 0
  | Defined (Some b) => Some (le_value (if code =? ORDER_LE then b else reverse b))
  end.

Definition built (entry0 entry1 : Z) : list Z :=
  [SO_INT; minbits; n; CLS_INTEGER; sz; sign; code; if fill_pattern then FILL_DEFINED else FILL_UNDEFINED]
  ++ entry0 :: entry1 :: replicate 10 0.

Definition built_parms : Parms :=
  {| scale_type := SO_INT; scale_factor := minbits; nelmts := n; class := CLS_INTEGER; size := sz;
     order := code; filavail := if fill_pattern then FILL_DEFINED else FILL_UNDEFINED |}.

Lemma code_cases : code = ORDER_LE ∨ code = ORDER_BE.
Proof. unfold code. destruct byte_order; [by right|by left]. Qed.

Lemma sign_cases : sign = SGN_NONE ∨ sign = SGN_2.
Proof. unfold sign. destruct signed; [by right|by left]. Qed.

Lemma fill_pattern_bits : fill_matches → match fill_pattern with Some b => element_bits sz b | None => True end.
Proof.
  unfold fill_matches, fill_pattern, element_bits. destruct fill as [[b|]|]; [|intros _; split; [lia|apply Z.pow_pos_nonneg; lia]|done].
  intros [<- Hb]. destruct (code =? ORDER_LE); [by apply le_value_bounds|].
  replace (zlen b) with (zlen (reverse b)) by (unfold zlen; by rewrite length_reverse).
  by apply le_value_bounds, Forall_reverse.
Qed.

Lemma build_integer_eq :
  fill_matches →
  ∃ x0 x1, build_cd_values (Integer minbits) (ScaleOffsetType.integer signed byte_order) sz n fill
    = ok (built x0 x1) ∧ u32 x0 ∧ u32 x1 ∧
    match fill_pattern with Some b => read_fill_bits (built x0 x1) sz = ok b | None => True end.
Proof.
  intros Hf. pose proof (fill_pattern_bits Hf) as Hfb. pose proof usize_bounds.
  unfold build_cd_values. cbn [ScaleOffsetType.integer type_class type_sign type_order].
  change (CLS_INTEGER =? CLS_INTEGER) with true. cbv iota. rewrite and_then_ok.
  destruct (_ || _) eqn:E; [lia|]. cbv zeta. fold sign code.
  assert (Hset : ∀ A (k : list Z → filtered A),
    (cd ← set_index (replicate (Z.to_nat TOTAL_NPARMS) 0) PARM_SCALETYPE SO_INT;
     cd ← set_index cd PARM_SCALEFACTOR minbits; cd ← set_index cd PARM_NELMTS n;
     cd ← set_index cd PARM_CLASS CLS_INTEGER; cd ← set_index cd PARM_SIZE sz;
     cd ← set_index cd PARM_SIGN sign; cd ← set_index cd PARM_ORDER code; k cd)
    = k ([SO_INT; minbits; n; CLS_INTEGER; sz; sign; code; 0] ++ 0 :: 0 :: replicate 10 0)) by reflexivity.
  rewrite Hset. clear Hset.
  assert (Hfa : ∀ A (k : list Z → filtered A) fa,
    (cd ← set_index ([SO_INT; minbits; n; CLS_INTEGER; sz; sign; code; 0] ++ 0 :: 0 :: replicate 10 0)
       PARM_FILAVAIL fa; k cd)
    = k ([SO_INT; minbits; n; CLS_INTEGER; sz; sign; code; fa] ++ 0 :: 0 :: replicate 10 0)) by reflexivity.
  assert (Hz32 : u32 0) by (unfold u32; lia).
  destruct fill as [bytes|] eqn:Efill.
  2:{ rewrite Hfa. exists 0, 0. unfold built, fill_pattern. by rewrite Efill. }
  unfold ScaleOffset.to_usize. rewrite (proj2 (Z.leb_le sz USIZE_MAX)) by lia. rewrite and_then_ok.
  assert (Hbits : ∃ b, fill_pattern = Some b ∧
      match bytes with
      | None => ok 0
      | Some b => if zlen b =? sz then (bits ← read_value b sz code; ok bits)
        else fail (ScaleOffsetError ("scaleoffset: fill value is " +:+ pretty (zlen b)
                     +:+ " bytes for a " +:+ pretty sz +:+ "-byte datatype"))
      end = ok b).
  { unfold fill_pattern, fill_matches in *. rewrite Efill in *. destruct bytes as [b|]; [|eauto]. destruct Hf as [Hz Hb].
    eexists. split; [done|]. rewrite Hz, Z.eqb_refl. unfold read_value.
    rewrite (proj2 (slice_Ret b 0 sz b)) by (rewrite <- Hz; apply get_range_all). done. }
  destruct Hbits as (b & Hpat & ->). rewrite and_then_ok, Hfa.
  rewrite write_fill_bits_spec by done. cbn [mbind outcome_bind].
  exists (fill_entries b sz 0).1, (fill_entries b sz 0).2. unfold built. rewrite Hpat in *.
  split_and!; [done|..].
  - unfold fill_entries, u32. destruct (sz <=? 4) eqn:E4; cbn [fst].
    + assert (256 ^ sz ≤ 256 ^ 4) by (apply Z.pow_le_mono_r; lia).
      pose proof (Z.mod_pos_bound b (256 ^ sz)). change (2 ^ 32) with (256 ^ 4). lia.
    + change (2 ^ 32) with (256 ^ 4). apply Z.mod_pos_bound. lia.
  - unfold fill_entries, u32. destruct (sz <=? 4) eqn:E4; cbn [snd]; [lia|].
    assert (256 ^ (sz - 4) ≤ 256 ^ 4) by (apply Z.pow_le_mono_r; lia).
    pose proof (Z.mod_pos_bound (b / 256 ^ 4) (256 ^ (sz - 4)) ltac:(apply Z.pow_pos_nonneg; lia)).
    change (2 ^ 32) with (256 ^ 4). lia.
  - unfold element_bits in Hfb. rewrite read_fill_entries by (done || lia). by rewrite Z.mod_small.
Qed.

(** What is built is read back by both parsers. *)
Lemma build_integer :
  fill_matches →
  ∃ cd, build_cd_values (Integer minbits) (ScaleOffsetType.integer signed byte_order) sz n fill = ok cd ∧
    zlen cd = TOTAL_NPARMS ∧ Forall u32 cd ∧ integer_parms cd built_parms sign fill_pattern ∧
    (n ≠ 0 → parse_scale_offset_parameters cd = ok (Some (Integer minbits))) ∧
    scale_offset_mode cd
    = Some (Integer minbits, if fill_pattern then FillDefined else FillUndefined).
Proof.
  intros Hf. destruct (build_integer_eq Hf) as (x0 & x1 & Hb & Hx0 & Hx1 & Hread).
  exists (built x0 x1). split; [done|].
  set (cd := built x0 x1) in *. pose proof code_cases as Hcode. pose proof sign_cases as Hsign.
  assert (Hi1 : index cd PARM_CLASS = Ret CLS_INTEGER ∧ index cd PARM_SIZE = Ret sz ∧ index cd PARM_ORDER = Ret code ∧
    index cd PARM_SCALETYPE = Ret SO_INT ∧ index cd PARM_SCALEFACTOR = Ret minbits ∧ index cd PARM_NELMTS = Ret n ∧
    index cd PARM_SIGN = Ret sign ∧
    index cd PARM_FILAVAIL = Ret (if fill_pattern then FILL_DEFINED else FILL_UNDEFINED)) by done.
  destruct Hi1 as (H3 & H4 & H6 & H0' & H1 & H2 & H5 & H7).
  assert (Hc : negb (code =? ORDER_LE) && negb (code =? ORDER_BE) = false).
  { destruct Hcode as [->| ->]; done. }
  assert (Hparse : Parms.parse cd = ok built_parms).
  { unfold Parms.parse. change (zlen cd <? CORE_NPARMS) with false. cbv iota.
    rewrite H3. cbn [mbind outcome_bind]. change (negb (CLS_INTEGER =? CLS_INTEGER) && _) with false. cbv iota.
    rewrite H4. cbn [mbind outcome_bind]. destruct ((sz =? 0) || (8 <? sz)) eqn:E; [lia|].
    change ((CLS_INTEGER =? CLS_FLOAT) && _ && _) with false. cbv iota.
    rewrite H6. cbn [mbind outcome_bind]. rewrite Hc, H0'. cbn [mbind outcome_bind].
    rewrite H1. cbn [mbind outcome_bind]. rewrite H2. cbn [mbind outcome_bind].
    unfold ScaleOffset.to_usize. rewrite (proj2 (Z.leb_le n USIZE_MAX)) by done. rewrite and_then_ok, H7.
    cbn [mbind outcome_bind]. unfold built_parms, as_i32. by destruct (minbits <? 2 ^ 31) eqn:E31; [|lia]. }
  assert (Hmb32 : u32 minbits ∧ u32 sz ∧ u32 sign ∧ u32 code).
  { unfold u32. destruct Hcode as [->| ->]; destruct Hsign as [->| ->]; unfold SGN_2, SGN_NONE, ORDER_LE, ORDER_BE; lia. }
  assert (Hsmall : ∀ k, 0 ≤ k ≤ 2 → u32 k) by (unfold u32; lia).
  assert (Hdef : ∀ fa, fa = (if fill_pattern then FILL_DEFINED else FILL_UNDEFINED) → 0 ≤ fa ≤ 2).
  { intros fa ->. destruct fill_pattern; unfold FILL_DEFINED, FILL_UNDEFINED; lia. }
  split_and!.
  - done.
  - unfold cd, built. destruct Hmb32 as (? & ? & ? & ?). apply Forall_app_2.
    + repeat apply Forall_cons_2; try done; apply Hsmall;
        first [by apply Hdef|unfold SO_INT, CLS_INTEGER; lia].
    + repeat apply Forall_cons_2; try done; apply Forall_nil_2.
  - unfold integer_parms, parms_ok, built_parms in *. cbn [size nelmts class scale_type scale_factor].
    unfold u32 in Hn. split_and!; try done; try lia; try (by left).
    unfold fill_bits. cbn [filavail size]. destruct fill_pattern as [b|]; [|done].
    change (FILL_DEFINED =? FILL_DEFINED) with true. cbv iota. rewrite Hread. done.
  - intros Hn0. unfold parse_scale_offset_parameters. change (negb (zlen cd =? TOTAL_NPARMS)) with false. cbv iota.
    rewrite H2. cbn [mbind outcome_bind]. destruct (n =? 0) eqn:E0; [lia|]. rewrite H4. cbn [mbind outcome_bind].
    replace (negb ((1 <=? sz) && (sz <=? 8))) with false by lia. rewrite H6. cbn [mbind outcome_bind].
    replace (negb ((code =? ORDER_LE) || (code =? ORDER_BE))) with false by (destruct Hcode as [->| ->]; done).
    rewrite H7. cbn [mbind outcome_bind].
    assert (Hav : ∀ o : option Z, negb (((if o then FILL_DEFINED else FILL_UNDEFINED) =? FILL_UNDEFINED)
      || ((if o then FILL_DEFINED else FILL_UNDEFINED) =? FILL_DEFINED)) = false) by (by intros []).
    rewrite Hav.
    rewrite H0'. cbn [mbind outcome_bind]. rewrite H3. cbn [mbind outcome_bind]. rewrite H5. cbn [mbind outcome_bind].
    rewrite H1. cbn [mbind outcome_bind]. change ((SO_INT =? SO_INT) && (CLS_INTEGER =? CLS_INTEGER)) with true. cbv iota.
    replace (negb ((sign =? SGN_NONE) || (sign =? SGN_2))) with false by (destruct Hsign as [->| ->]; done).
    by destruct (sz * 8 <? minbits) eqn:E2; [lia|].
  - unfold scale_offset_mode, cd, built. by destruct fill_pattern.
Qed.

End Build.

(** ** Two remarks on the source's comments *)

(** An empty chunk is encoded in 22 bytes, one more than the header, so that the
    encoding of no bytes expands them by more than [HEADER_LEN]. *)
Example empty_chunk_expands :
  emit 0 0 [] = header 0 0 ++ [0] ∧ HEADER_LEN < zlen (emit 0 0 []) - zlen (@nil Z).
Proof. vm_compute. done. Qed.

(** The accumulator keeps bits that were already drained: after one offset of 60 ones,
    seven bytes of which are drained, the merged value of the branch for at most 64 bits
    has 120 bits.  The conversion to [u64] drops only drained bits. *)
Example merged_value_is_wider :
  pack_loop [2 ^ 60 - 1] 60 (2 ^ 60 - 1) (0, 0, []) = Ret (2 ^ 60 - 1, 60, []) ∧
  drain 9 (2 ^ 60 - 1) 60 [] = Ret (4, replicate 7 255) ∧ (4 + 60 <=? 64) = true ∧
  Z.log2 (Z.lor (Z.shiftl (2 ^ 60 - 1) 60 mod 2 ^ 128) (Z.land 0 (2 ^ 60 - 1))) = 119.
Proof. vm_compute. done. Qed.
