(* ===== verification/Deflate.v ===== *)
(** * Deflate

    Models the Deflate part of [crates/hdf5-pure-filter/src/pipeline/mod.rs] and the
    levels of [crates/hdf5-pure-core/src/deflate_level.rs].  The zlib codec is the
    [flate2] package, a parameter: [Flate2] is the interface the code calls,
    [Flate2Laws] the documented behaviour it relies on. *)

From stdpp Require Import strings.
From S2P Require Import Prelude Addresses Words ByteFields FilterErrors Lzf FilterBuffers.

Local Open Scope string_scope.
Local Open Scope Z_scope.

(** ** Levels *)

Inductive DeflateLevel := Zero | One | Two | Three | Four | Five | Six | Seven | Eight | Nine.

#[global] Instance DeflateLevel_eq_dec : EqDecision DeflateLevel.
Proof. solve_decision. Defined.

Definition level_get (l : DeflateLevel) : Z :=
  match l with
  | Zero => 0 | One => 1 | Two => 2 | Three => 3 | Four => 4
  | Five => 5 | Six => 6 | Seven => 7 | Eight => 8 | Nine => 9
  end.

Definition level_try_from (level : Z) : result DeflateLevel FormatError :=
  if level =? 0 then Ok Zero else if level =? 1 then Ok One else if level =? 2 then Ok Two
  else if level =? 3 then Ok Three else if level =? 4 then Ok Four else if level =? 5 then Ok Five
  else if level =? 6 then Ok Six else if level =? 7 then Ok Seven else if level =? 8 then Ok Eight
  else if level =? 9 then Ok Nine else Err (Addresses.InvalidDeflateLevel level).

(** ** The codec package *)

Inductive Status := StatusOk | BufError | StreamEnd.
#[global] Instance Status_eq_dec : EqDecision Status.
Proof. solve_decision. Defined.

Inductive FlushDecompress := FlushNone | FlushFinish.

Class Flate2 := {
  Decompress : Type;
  decompress_new : Decompress;
  decompress_reset : Decompress → Decompress;
  (** [decompress(input, output, flush)]: the output slice after the call. *)
  decompress_call : Decompress → list Z → list Z → FlushDecompress →
                    Decompress * list Z * result Status string;
  total_in : Decompress → Z;
  total_out : Decompress → Z;
  ZlibEncoder : Type;
  encoder_new : DeflateLevel → ZlibEncoder;
  write_all : ZlibEncoder → list Z → ZlibEncoder * result unit string;
  (** [reset(Vec::new())]: the bytes of the finished stream. *)
  encoder_reset : ZlibEncoder → ZlibEncoder * result (list Z) string;
}.

(** ** Decoding *)

Definition FILTER_DEFLATE : Z := 1.
Definition MAX_DEFLATE_EXPANSION : Z := 1032.
Definition DEFLATE_GROWTH_FLOOR : Z := 4096.
Definition C_UINT_MAX : Z := 2 ^ 32 - 1.

Definition deflate_corrupt (reason : string) : FilterError := FilterFailure ("deflate: " +:+ reason).

Inductive DeflateMode :=
| Complete (length : Z)
| Streaming (reservation : Z) (limit : option Z).

Section Decode.
Context `{Platform} `{Flate2}.
Import OutputWindow.

(** The limit of one C call is only tested where [usize] is wider than it. *)
Definition mode_parse (max_output : option Z) (input_len : Z) : DeflateMode :=
  let reservation := decode_reservation max_output input_len MAX_DEFLATE_EXPANSION in
  match max_output with
  | Some limit =>
    if reservation =? limit then
      match usize_checked_add limit 1 with
      | Some length =>
        if (USIZE_MAX =? U64_MAX) && ((C_UINT_MAX <? length) || (C_UINT_MAX <? input_len))
        then Streaming reservation max_output else Complete length
      | None => Streaming reservation max_output
      end
    else Streaming reservation max_output
  | None => Streaming reservation max_output
  end.

(** What a decoder call leaves: its result, the window and the codec. *)
Definition inflated : Type := outcome (result Z FilterError * OutputWindow * Decompress).

(** [CompleteOutputWindow::decompress] *)
Definition complete_decompress (length : Z) (decoder : Decompress) (data : list Z) (out : OutputWindow)
    : inflated :=
  let limit := length - 1 in
  out ← resize_exact out length;
  slice ← as_mut_slice out;
  let '(decoder, slice, status) := decompress_call decoder data slice FlushFinish in
  out ← overwritten out slice;
  let produced := total_out decoder in
  if USIZE_MAX <? produced
  then Ret (Err (Pipeline (Internal "deflate output count exceeds the platform index width")), out, decoder)
  else if limit <? produced then Ret (Err (DeflateSizeExceeded limit length), out, decoder)
  else
    match status with
    | Err e => Ret (Err (deflate_corrupt e), out, decoder)
    | Ok StreamEnd => Ret (Ok produced, out, decoder)
    | Ok _ => Ret (Err (deflate_corrupt "stream ended before the chunk was complete"), out, decoder)
    end.

Definition bomb (max_output : option Z) : FilterError :=
  DeflateSizeExceeded (default USIZE_MAX max_output) (usize_saturating_add (default USIZE_MAX max_output) 1).

Definition ceiling (max_output : option Z) : option Z := (λ limit, usize_saturating_add limit 1) <$> max_output.

(** The window from [produced] on, overwritten with [l]. *)
Definition overwritten_from (w : OutputWindow) (produced : Z) (l : list Z) : outcome OutputWindow :=
  bytes ← splice (window_bytes w) produced l;
  Ret {| window_bytes := bytes; window_end := window_end w |}.

Fixpoint streaming_loop (fuel : nat) (decoder : Decompress) (data : list Z) (max_output : option Z)
    (out : OutputWindow) (produced : Z) : inflated :=
  match fuel with
  | O => Panic
  | S fuel =>
    let consumed := Z.min (total_in decoder) USIZE_MAX in
    let input := default [] (get_from data consumed) in
    let before_in := total_in decoder in
    let before_out := produced in
    slice ← as_mut_slice out;
    match get_from slice produced with
    | None => Ret (Err (Pipeline (Internal "deflate output count exceeds its writable range")), out, decoder)
    | Some output =>
      let '(decoder, output, status) := decompress_call decoder input output FlushNone in
      out ← overwritten_from out produced output;
      match status with
      | Err e => Ret (Err (deflate_corrupt e), out, decoder)
      | Ok status =>
        let produced := total_out decoder in
        if USIZE_MAX <? produced
        then Ret (Err (Pipeline (Internal "deflate output count exceeds the platform index width")), out, decoder)
        else
          match status with
          | StreamEnd =>
            if match max_output with Some limit => limit <? produced | None => false end
            then Ret (Err (bomb max_output), out, decoder) else Ret (Ok produced, out, decoder)
          | _ =>
            if produced =? len out then
              if match ceiling max_output with Some cap => cap <=? produced | None => false end
              then Ret (Err (bomb max_output), out, decoder)
              else
                let want := Z.max (len out) DEFLATE_GROWTH_FLOOR in
                let growth := match ceiling max_output with
                              | Some cap => Z.min want (cap - len out)
                              | None => want
                              end in
                streaming_loop fuel decoder data max_output
                  (resize out (usize_saturating_add (len out) growth)) produced
            else if (total_in decoder =? before_in) && (produced =? before_out)
            then Ret (Err (deflate_corrupt "stream ended before the chunk was complete"), out, decoder)
            else streaming_loop fuel decoder data max_output out produced
          end
      end
    end
  end.

(** Turns the loop can take: it consumes input, produces output or grows the window,
    each within its bound. *)
Definition streaming_fuel (data : list Z) (max_output : option Z) : nat :=
  Z.to_nat (zlen data + 2 * default USIZE_MAX (ceiling max_output) + 1).

Definition deflate_decompress_streaming (decoder : Decompress) (data : list Z) (max_output : option Z)
    (reservation : Z) (out : OutputWindow) : inflated :=
  streaming_loop (streaming_fuel data max_output) decoder data max_output (resize out reservation) 0.

Definition deflate_decompress_into (decoder : Decompress) (data : list Z) (max_output : option Z)
    (out : OutputWindow) : inflated :=
  match mode_parse max_output (zlen data) with
  | Complete length => complete_decompress length decoder data out
  | Streaming reservation limit => deflate_decompress_streaming decoder data limit reservation out
  end.

End Decode.

(** ** Scratch state *)

(** The build without the [zfp] feature; [deflate] is a feature. *)
Class FilterBuild := {
  filter_platform :: Platform;
  filter_profile :: Profile;
  filter_codec :: Flate2;
  feature_deflate : bool;
}.

Record FilterScratch `{FilterBuild} := {
  spare : InitializedBuffer;
  encoder : option (DeflateLevel * ZlibEncoder);
  decoder : option Decompress;
}.

Module FilterScratch.
Section Ops.
Context `{FilterBuild}.

Definition new : FilterScratch := {| spare := []; encoder := None; decoder := None |}.

Definition set_spare (s : FilterScratch) (bytes : InitializedBuffer) : FilterScratch :=
  {| spare := bytes; encoder := encoder s; decoder := decoder s |}.

Definition zlib_encoder (s : FilterScratch) (level : DeflateLevel) : ZlibEncoder :=
  match encoder s with
  | Some (have, e) => if bool_decide (have = level) then e else encoder_new level
  | None => encoder_new level
  end.

Definition zlib_decoder (s : FilterScratch) : Decompress :=
  match decoder s with
  | Some d => decompress_reset d
  | None => decompress_new
  end.

Definition deflate_decompress (s : FilterScratch) (current : FilterBuffer) (max_output : option Z)
    : outcome (result FilterBuffer FilterError * FilterScratch) :=
  if feature_deflate then
    '(r, bytes, d) ← FilterBuffer.overwrite current (spare s) (λ input output,
                       deflate_decompress_into (zlib_decoder s) input max_output output);
    Ret (r, {| spare := bytes; encoder := encoder s; decoder := Some d |})
  else Ret (Err (UnsupportedFilter FILTER_DEFLATE), s).

Definition deflate_compress (s : FilterScratch) (data : list Z) (level : DeflateLevel)
    : result (list Z) FilterError * FilterScratch :=
  if feature_deflate then
    let '(e, r) := write_all (zlib_encoder s level) data in
    let '(e, r) := match r with
                   | Ok _ => encoder_reset e
                   | Err reason => (e, Err reason)
                   end in
    match r with
    | Ok bytes => (Ok bytes, {| spare := spare s; encoder := Some (level, e); decoder := decoder s |})
    | Err reason =>
      (Err (FilterFailure ("deflate: " +:+ reason)),
       {| spare := spare s; encoder := None; decoder := decoder s |})
    end
  else (Err (UnsupportedFilter FILTER_DEFLATE), s).

End Ops.
End FilterScratch.

(** ** Facts about the Deflate decoder

    The decoder restores what a codec that follows its documentation encoded, within
    every limit that admits it, and on arbitrary bytes it returns within its turns and
    its window. *)

Local Open Scope list_scope.
Local Open Scope Z_scope.

(** ** What the documentation of the codec promises *)

Class Flate2Laws `{Flate2} := {
  (** The stream the encoder makes of a whole input. *)
  zlib : DeflateLevel → list Z → list Z;
  zlib_byte : ∀ level data, Forall byte data → Forall byte (zlib level data);
  (** An encoder that has written nothing since it was made or reset. *)
  fresh_encoder : DeflateLevel → ZlibEncoder → Prop;
  encoder_new_fresh : ∀ level, fresh_encoder level (encoder_new level);
  encode_fresh : ∀ level e data, fresh_encoder level e →
    ∃ e' e'', write_all e data = (e', Ok tt) ∧ encoder_reset e' = (e'', Ok (zlib level data)) ∧
      fresh_encoder level e'';
  (** The stored blocks and framing of the worst case. *)
  zlib_bound : ∀ level data, zlen (zlib level data) ≤ zlen data + zlen data / 16 + 64;
  reset_new : ∀ d, decompress_reset d = decompress_new;
  totals_new : total_in decompress_new = 0 ∧ total_out decompress_new = 0;
  (** A call reads at most its input, writes at most its output slice, and counts both. *)
  call_counts : ∀ d input out flush d' out' st,
    decompress_call d input out flush = (d', out', st) →
    zlen out' = zlen out ∧ (Forall byte input → Forall byte out → Forall byte out') ∧
    total_in d ≤ total_in d' ≤ total_in d + zlen input ∧
    total_out d ≤ total_out d' ≤ total_out d + zlen out;
  (** The decoder has read the first [total_in] bytes of the stream of [data] and
      written the first [total_out] bytes of [data]. *)
  decoding : DeflateLevel → list Z → Decompress → Prop;
  decoding_new : ∀ level data, decoding level data decompress_new;
  (** A call with the rest of the stream fills its slice or ends the stream. *)
  call_decodes : ∀ level data d out flush d' out' st,
    decoding level data d →
    decompress_call d (drop (Z.to_nat (total_in d)) (zlib level data)) out flush = (d', out', st) →
    let n := Z.min (zlen out) (zlen data - total_out d) in
    decoding level data d' ∧ total_out d' = total_out d + n ∧
    out' = take (Z.to_nat n) (drop (Z.to_nat (total_out d)) data) ++ drop (Z.to_nat n) out ∧
    (∃ s, st = Ok s ∧ (zlen data - total_out d < zlen out → s = StreamEnd) ∧
          (s = StreamEnd → total_out d' = zlen data));
  decoding_totals : ∀ level data d, decoding level data d →
    0 ≤ total_in d ≤ zlen (zlib level data) ∧ 0 ≤ total_out d ≤ zlen data;
}.

Section Decode.
Context `{Platform} `{Flate2Laws}.
Import OutputWindow.

(** The window's bytes after a write from [produced] on. *)
Lemma overwritten_from_spec w produced slice output out' :
  as_mut_slice w = Ret slice → get_from slice produced = Some output → zlen out' = zlen output →
  ∃ w', overwritten_from w produced out' = Ret w' ∧ window_end w' = window_end w ∧
    zlen (window_bytes w') = zlen (window_bytes w) ∧ 0 ≤ produced ≤ window_end w ∧
    zlen output = window_end w - produced ∧ window_end w ≤ zlen (window_bytes w) ∧
    window_bytes w' = take (Z.to_nat produced) (window_bytes w) ++ out'
                      ++ drop (Z.to_nat (window_end w)) (window_bytes w).
Proof.
  unfold as_mut_slice. intros Hs Hg Hz. apply slice_Ret in Hs. pose proof (get_range_zlen _ _ _ _ Hs) as Hsz.
  apply get_range_Some in Hs as (Hwe & Hwb & _). unfold get_from in Hg.
  pose proof (get_range_zlen _ _ _ _ Hg) as Hgz. apply get_range_Some in Hg as (Hp & _ & _).
  unfold overwritten_from, splice.
  destruct (get_range (window_bytes w) produced (produced + zlen out')) as [g|] eqn:Eg;
    [|apply get_range_None in Eg; lia].
  cbn [mbind outcome_bind]. eexists. split; [done|]. cbn [window_bytes window_end].
  split_and!; try lia; try done.
  - unfold zlen in *. rewrite !length_app, length_take, length_drop. lia.
  - f_equal. f_equal. f_equal. unfold zlen in *. lia.
Qed.

(** ** The streaming loop on a stream of the codec *)

(** The first [produced] bytes of the window are those of the data. *)
Definition window_prefix (w : OutputWindow) (produced : Z) (data : list Z) : Prop :=
  0 ≤ produced ≤ window_end w ∧ window_end w ≤ zlen (window_bytes w) ∧ produced ≤ zlen data ∧
  take (Z.to_nat produced) (window_bytes w) = take (Z.to_nat produced) data.

Lemma prefix_holds w data :
  window_prefix w (zlen data) data → window_holds w data.
Proof.
  intros (Hp & Hw & _ & Ht). split_and!; [lia|lia|]. unfold zlen in Ht. rewrite Nat2Z.id in Ht.
  by rewrite Ht, take_ge.
Qed.

Lemma prefix_resize w n produced data :
  window_prefix w produced data → produced ≤ n → window_prefix (resize w n) produced data.
Proof.
  intros (Hp & Hw & Hd & Ht) Hn. destruct (resize_window w n ltac:(lia)) as (He & Hz & Htk & _).
  split_and!; try lia. rewrite <- Ht.
  replace (take (Z.to_nat produced) (window_bytes w))
    with (take (Z.to_nat produced) (take (length (window_bytes w)) (window_bytes (resize w n)))) by (by rewrite Htk).
  rewrite take_take. f_equal. unfold zlen in *. lia.
Qed.

Lemma prefix_write w produced data n output :
  window_prefix w produced data → 0 ≤ n → n ≤ window_end w - produced → n ≤ zlen data - produced →
  zlen output = window_end w - produced →
  ∀ w', window_end w' = window_end w → zlen (window_bytes w') = zlen (window_bytes w) →
  window_bytes w' = take (Z.to_nat produced) (window_bytes w) ++
    (take (Z.to_nat n) (drop (Z.to_nat produced) data) ++ drop (Z.to_nat n) output) ++
    drop (Z.to_nat (window_end w)) (window_bytes w) →
  window_prefix w' (produced + n) data.
Proof.
  intros (Hp & Hw & Hd & Ht) Hn Hn1 Hn2 Ho w' He Hz Hb. split_and!; try lia.
  rewrite Hb, Ht. rewrite Z2Nat.inj_add, <- (take_take_drop data) by lia.
  set (a := take (Z.to_nat produced) data). set (b := take (Z.to_nat n) (drop (Z.to_nat produced) data)).
  rewrite <- !app_assoc, (app_assoc a b). apply take_app_length'.
  unfold a, b, zlen in *. rewrite length_app, !length_take, length_drop. lia.
Qed.

Lemma streaming_loop_decodes fuel level data d w produced max_output :
  decoding level data d → produced = total_out d → window_prefix w produced data →
  match max_output with Some limit => zlen data ≤ limit | None => True end →
  zlen data < USIZE_MAX → zlen (zlib level data) ≤ USIZE_MAX →
  window_end w ≤ default USIZE_MAX (ceiling max_output) →
  (Z.to_nat (default USIZE_MAX (ceiling max_output) - window_end w) < fuel)%nat →
  ∃ w' d', streaming_loop fuel d (zlib level data) max_output w produced = Ret (Ok (zlen data), w', d') ∧
    window_holds w' data.
Proof.
  revert d w produced. induction fuel as [|fuel IH]; intros d w produced Hdec Hpr Hw Hmax Hud Hus Hce Hf; [lia|].
  cbn [streaming_loop]. destruct (decoding_totals level data d Hdec) as [Hti Hto].
  rewrite Z.min_l by lia.
  assert (Hin : get_from (zlib level data) (total_in d)
    = Some (drop (Z.to_nat (total_in d)) (zlib level data))).
  { apply get_range_Some. split_and!; try lia. symmetry. apply take_ge. rewrite length_drop. unfold zlen. lia. }
  rewrite Hin. cbn [default].
  destruct Hw as (Hp & Hwb & Hpd & Htk).
  assert (Hs : as_mut_slice w = Ret (take (Z.to_nat (window_end w)) (window_bytes w))).
  { apply slice_Ret, get_range_0. lia. }
  rewrite Hs. cbn [mbind outcome_bind].
  destruct (get_from (take (Z.to_nat (window_end w)) (window_bytes w)) produced) as [output|] eqn:Eo.
  2:{ unfold get_from in Eo. apply get_range_None in Eo. rewrite zlen_take in Eo by lia. lia. }
  destruct (decompress_call d _ output FlushNone) as [[d' out'] st] eqn:Ecall.
  destruct (call_counts _ _ _ _ _ _ _ Ecall) as (Hzo & _).
  destruct (call_decodes level data d output FlushNone d' out' st Hdec Ecall) as (Hdec' & Hout & Hout' & s & -> & Hroom & Hend).
  destruct (overwritten_from_spec w produced _ output out' Hs Eo Hzo) as (w' & -> & He & Hz & _ & Hoz & _ & Hb').
  cbn [mbind outcome_bind]. set (n := Z.min (zlen output) (zlen data - total_out d)) in *.
  assert (Hw' : window_prefix w' (produced + n) data).
  { apply (prefix_write w produced data n output); try done; try lia. by rewrite Hb', Hout', Hpr. }
  rewrite <- Hpr in Hout. rewrite Hout.
  destruct (USIZE_MAX <? produced + n) eqn:Eu; [lia|].
  assert (Hcont : s ≠ StreamEnd → produced + n = len w').
  { intros Hne. unfold len. destruct (decide (zlen data - total_out d < zlen output)) as [Hr|Hr];
      [by specialize (Hroom Hr)|]. lia. }
  destruct (decide (s = StreamEnd)) as [->|Hne].
  { specialize (Hend eq_refl). assert (Hfin : produced + n = zlen data) by lia. rewrite Hfin in *.
    assert ((match max_output with Some limit => limit <? zlen data | None => false end) = false) as ->.
    { destruct max_output; [lia|done]. }
    exists w', d'. split; [done|]. by apply prefix_holds. }
  specialize (Hcont Hne).
  assert (Hlt : ∀ cap, ceiling max_output = Some cap → zlen data < cap).
  { destruct max_output as [limit|]; [|done]. unfold ceiling, usize_saturating_add. cbn. intros cap [= <-]. lia. }
  assert (Hgoal : ∀ growth q, 1 ≤ growth → q = produced + n →
    usize_saturating_add (len w') growth ≤ default USIZE_MAX (ceiling max_output) →
    ∃ w'' d'', streaming_loop fuel d' (zlib level data) max_output
      (resize w' (usize_saturating_add (len w') growth)) q = Ret (Ok (zlen data), w'', d'') ∧
      window_holds w'' data).
  { intros growth q Hg -> Hle. unfold len in *. set (m := usize_saturating_add (window_end w') growth) in *.
    assert (Hm : window_end w' < m) by (unfold m, usize_saturating_add; lia).
    destruct (resize_window w' m ltac:(lia)) as (Hre & _).
    apply IH; try done; try lia. apply prefix_resize; [done|lia]. }
  assert (Hq : (produced + n =? len w') = true) by lia.
  assert (Hcap : match ceiling max_output with Some cap => cap <=? produced + n | None => false end = false).
  { destruct (ceiling max_output) as [cap|]; [specialize (Hlt cap eq_refl); lia|done]. }
  destruct s; [..|done]; rewrite Hq, Hcap; cbv zeta; apply Hgoal; try done; unfold DEFLATE_GROWTH_FLOOR;
    destruct (ceiling max_output) as [cap|]; cbn [default] in *; unfold usize_saturating_add;
    try specialize (Hlt _ eq_refl); unfold len, id in *; lia.
Qed.

(** ** The decoder *)

Lemma complete_decodes level data length w :
  zlen data < length → length ≤ ISIZE_MAX →
  ∃ w' d', complete_decompress length decompress_new (zlib level data) w = Ret (Ok (zlen data), w', d') ∧
    window_holds w' data.
Proof.
  intros Hl Hu. pose proof (zlen_nonneg data). pose proof isize_bounds. unfold complete_decompress, resize_exact.
  replace (ISIZE_MAX <? length) with false by lia. cbn [mbind outcome_bind].
  destruct (resize_window w length ltac:(lia)) as (He & Hz & _ & slice & Hs & Hsz & Hwr).
  rewrite Hs. cbn [mbind outcome_bind].
  destruct (decompress_call _ _ _ _) as [[d' out'] st] eqn:Ecall.
  destruct totals_new as [Hi Ho]. pose proof (decoding_new level data) as Hdec.
  destruct (call_counts _ _ _ _ _ _ _ Ecall) as (Hzo & _).
  pose proof (call_decodes level data decompress_new slice FlushFinish d' out' st Hdec) as Hcall.
  rewrite Hi in Hcall. change (drop (Z.to_nat 0) (zlib level data)) with (zlib level data) in Hcall.
  destruct (Hcall Ecall) as (_ & Hout & Hout' & s & -> & Hroom & _). rewrite Ho, Z.sub_0_r, Z.add_0_l in *.
  rewrite Z.min_r in * by lia. rewrite (Hroom ltac:(lia)).
  destruct (Hwr out' ltac:(lia)) as (w' & -> & (Hw1 & Hw2 & Hw3) & Hwe). cbn [mbind outcome_bind]. rewrite Hout.
  destruct (USIZE_MAX <? zlen data) eqn:E1; [lia|]. destruct (length - 1 <? zlen data) eqn:E2; [lia|].
  exists w', d'. split; [done|]. split_and!; [lia|lia|].
  change (Z.to_nat 0) with 0%nat in Hout'. rewrite drop_0 in Hout'. unfold zlen in Hout'.
  rewrite Nat2Z.id, firstn_all in Hout'. rewrite Hout' in Hw3. rewrite length_app in Hw3.
  assert (Ht : take (Datatypes.length data) (take (Datatypes.length data + Datatypes.length (drop (Datatypes.length data) slice)) (window_bytes w'))
    = take (Datatypes.length data) (data ++ drop (Datatypes.length data) slice)) by (by rewrite Hw3).
  rewrite take_take, Nat.min_l, take_app_length in Ht by lia. done.
Qed.

Lemma deflate_decompress_into_decodes level data max_output w :
  match max_output with Some limit => zlen data ≤ limit < ISIZE_MAX | None => True end →
  zlen data < USIZE_MAX → zlen (zlib level data) ≤ USIZE_MAX →
  ∃ w' d', deflate_decompress_into decompress_new (zlib level data) max_output w = Ret (Ok (zlen data), w', d') ∧
    window_holds w' data.
Proof.
  intros Hmax Hu Hs. unfold deflate_decompress_into, mode_parse.
  set (n := zlen (zlib level data)). set (r := decode_reservation max_output n MAX_DEFLATE_EXPANSION).
  assert (Hr : 0 ≤ r ≤ default USIZE_MAX max_output).
  { unfold r, decode_reservation, MAX_DEFLATE_EXPANSION. pose proof usize_bounds. pose proof (zlen_nonneg (zlib level data)).
    pose proof (zlen_nonneg data). destruct max_output; cbn; unfold n, id; lia. }
  assert (Hstream : ∃ w' d', deflate_decompress_streaming decompress_new (zlib level data) max_output r w
    = Ret (Ok (zlen data), w', d') ∧ window_holds w' data).
  { unfold deflate_decompress_streaming. destruct totals_new as [Hi Ho].
    destruct (resize_window w r ltac:(lia)) as (He & Hz & _).
    assert (Hce : r ≤ default USIZE_MAX (ceiling max_output)).
    { unfold ceiling, usize_saturating_add. pose proof usize_bounds. destruct max_output; cbn in *; unfold id in *; [|lia].
      unfold r, decode_reservation in *. lia. }
    apply streaming_loop_decodes; try done.
    - apply decoding_new.
    - pose proof (zlen_nonneg data). split_and!; [lia|lia|lia|lia|done].
    - destruct max_output; [lia|done].
    - unfold streaming_fuel. pose proof (zlen_nonneg (zlib level data)). lia. }
  destruct max_output as [limit|]; [|done]. destruct (r =? limit); [|done].
  destruct (usize_checked_add limit 1) as [length|] eqn:El; [|done].
  destruct (_ && _); [done|]. unfold usize_checked_add in El. destruct (limit + 1 <=? USIZE_MAX) eqn:E; [|done].
  injection El as <-. apply complete_decodes; lia.
Qed.

(** ** Arbitrary bytes *)

(** What a call leaves: initialized bytes, and a produced prefix within the limit. *)
Definition inflates_within (limit : Z) (r : result Z FilterError * OutputWindow * Decompress) : Prop :=
  let '(res, w, d) := r in
  Forall byte (window_bytes w) ∧
  match res with
  | Ok n => 0 ≤ n ≤ limit ∧ n ≤ window_end w ∧ window_end w ≤ zlen (window_bytes w)
  | Err _ => True
  end.

Lemma resize_byte w n : Forall byte (window_bytes w) → Forall byte (window_bytes (resize w n)).
Proof.
  intros Hb. unfold resize. cbn [window_bytes]. destruct (_ <? n); [|done].
  apply Forall_app_2; [done|]. apply Forall_replicate. unfold byte. lia.
Qed.

Lemma complete_sound length data w :
  0 < length ≤ ISIZE_MAX → Forall byte data → Forall byte (window_bytes w) →
  complete_decompress length decompress_new data w ⇝ inflates_within (length - 1).
Proof.
  intros Hl Hd Hb. unfold complete_decompress, resize_exact.
  replace (ISIZE_MAX <? length) with false by lia. cbn [mbind outcome_bind].
  destruct (resize_window w length ltac:(lia)) as (He & Hz & _ & slice & Hs & Hsz & Hwr).
  rewrite Hs. cbn [mbind outcome_bind].
  destruct (decompress_call _ _ _ _) as [[d' out'] st] eqn:Ecall.
  destruct (call_counts _ _ _ _ _ _ _ Ecall) as (Hzo & Hby & Hin & Hout). destruct totals_new as [Hi Ho].
  destruct (Hwr out' ltac:(lia)) as (w' & Hw' & (Hw1 & Hw2 & Hw3) & Hwe). rewrite Hw'. cbn [mbind outcome_bind].
  assert (Hb' : Forall byte (window_bytes w')).
  { unfold overwritten in Hw'. apply slice_Ret, get_range_Some in Hs as (_ & _ & ->).
    pose proof (resize_byte w length Hb) as Hrb. unfold splice in Hw'.
    destruct (get_range _ _ _); [|done]. cbn in Hw'. injection Hw' as <-. cbn [window_bytes].
    apply Forall_app_2; [|by apply Forall_drop]. apply Hby; [done|]. by apply Forall_take, Forall_drop. }
  destruct (USIZE_MAX <? _); [by apply returns_ret|]. destruct (length - 1 <? total_out d') eqn:E; [by apply returns_ret|].
  destruct st as [[]|]; apply returns_ret; split; try done. lia.
Qed.

Lemma streaming_loop_sound fuel d data limit w :
  0 ≤ limit → zlen data ≤ USIZE_MAX → Forall byte data → Forall byte (window_bytes w) →
  0 ≤ total_in d ≤ zlen data → 0 ≤ total_out d ≤ window_end w → window_end w ≤ zlen (window_bytes w) →
  window_end w ≤ usize_saturating_add limit 1 → limit < USIZE_MAX →
  zlen data - total_in d + (usize_saturating_add limit 1 - total_out d) +
    (usize_saturating_add limit 1 - window_end w) < Z.of_nat fuel →
  streaming_loop fuel d data (Some limit) w (total_out d) ⇝ inflates_within limit.
Proof.
  intros Hlim Hu Hd. set (C := usize_saturating_add limit 1). assert (HC : C ≤ limit + 1) by (unfold C, usize_saturating_add; lia).
  revert d w. induction fuel as [|fuel IH]; intros d w Hb Hti Hto Hwb Hwe Hlu Hf; [lia|].
  cbn [streaming_loop]. rewrite Z.min_l by lia.
  assert (Hin : get_from data (total_in d) = Some (drop (Z.to_nat (total_in d)) data)).
  { apply get_range_Some. split_and!; try lia. symmetry. apply take_ge. rewrite length_drop. unfold zlen. lia. }
  rewrite Hin. cbn [default].
  assert (Hs : as_mut_slice w = Ret (take (Z.to_nat (window_end w)) (window_bytes w))).
  { apply slice_Ret, get_range_0. lia. }
  rewrite Hs. cbn [mbind outcome_bind].
  destruct (get_from (take (Z.to_nat (window_end w)) (window_bytes w)) (total_out d)) as [output|] eqn:Eo.
  2:{ unfold get_from in Eo. apply get_range_None in Eo. rewrite zlen_take in Eo by lia. lia. }
  destruct (decompress_call d _ output FlushNone) as [[d' out'] st] eqn:Ecall.
  destruct (call_counts _ _ _ _ _ _ _ Ecall) as (Hzo & Hby & Hci & Hco).
  cbn [id] in Hci. rewrite zlen_drop in Hci by lia.
  destruct (overwritten_from_spec w _ _ output out' Hs Eo Hzo) as (w' & -> & He & Hz & _ & Hoz & _ & Hb').
  cbn [mbind outcome_bind].
  assert (HbO : Forall byte output).
  { unfold get_from in Eo. apply (get_range_Forall _ _ _ _ _ ltac:(by apply Forall_take) Eo). }
  assert (HB : Forall byte (window_bytes w')).
  { rewrite Hb'. repeat apply Forall_app_2; [by apply Forall_take|by apply Hby; [apply Forall_drop|]|by apply Forall_drop]. }
  destruct st as [s|e]; [|by apply returns_ret].
  destruct (USIZE_MAX <? _); [by apply returns_ret|].
  assert (Hcont : (if total_out d' =? len w' then
      if match ceiling (Some limit) with Some cap => cap <=? total_out d' | None => false end
      then Ret (Err (bomb (Some limit)), w', d')
      else
        let want := Z.max (len w') DEFLATE_GROWTH_FLOOR in
        let growth := match ceiling (Some limit) with Some cap => Z.min want (cap - len w') | None => want end in
        streaming_loop fuel d' data (Some limit) (resize w' (usize_saturating_add (len w') growth)) (total_out d')
    else if (total_in d' =? total_in d) && (total_out d' =? total_out d)
    then Ret (Err (deflate_corrupt "stream ended before the chunk was complete"), w', d')
    else streaming_loop fuel d' data (Some limit) w' (total_out d')) ⇝ inflates_within limit).
  { change (ceiling (Some limit)) with (Some C). cbv iota zeta. unfold len.
    destruct (total_out d' =? window_end w') eqn:E1.
    - destruct (C <=? total_out d') eqn:E2; [by apply returns_ret|].
      set (m := usize_saturating_add (window_end w') _).
      assert (Hm : window_end w' < m ≤ C) by (unfold m, C, usize_saturating_add, DEFLATE_GROWTH_FLOOR in *; lia).
      destruct (resize_window w' m ltac:(lia)) as (Hre & Hrz & _).
      apply IH; try lia. by apply resize_byte.
    - destruct (_ && _) eqn:E2; [by apply returns_ret|]. apply IH; try lia; done. }
  destruct s; try exact Hcont.
  destruct (limit <? total_out d') eqn:E3; apply returns_ret; (split; [done|]); [done|]. lia.
Qed.

Lemma deflate_decompress_into_sound data limit w :
  0 ≤ limit < ISIZE_MAX → zlen data ≤ USIZE_MAX → Forall byte data → Forall byte (window_bytes w) →
  deflate_decompress_into decompress_new data (Some limit) w ⇝ inflates_within limit.
Proof.
  intros Hl Hu Hd Hb. unfold deflate_decompress_into, mode_parse. pose proof (zlen_nonneg data). pose proof isize_bounds.
  set (r := decode_reservation (Some limit) (zlen data) MAX_DEFLATE_EXPANSION).
  assert (Hr : 0 ≤ r ≤ limit).
  { unfold r, decode_reservation, MAX_DEFLATE_EXPANSION. pose proof usize_bounds. lia. }
  assert (Hstream : deflate_decompress_streaming decompress_new data (Some limit) r w ⇝ inflates_within limit).
  { unfold deflate_decompress_streaming. destruct totals_new as [Hi Ho].
    destruct (resize_window w r ltac:(lia)) as (He & Hz & _).
    assert (HC : limit ≤ usize_saturating_add limit 1) by (unfold usize_saturating_add; lia).
    rewrite <- Ho. apply streaming_loop_sound; try lia; [done|by apply resize_byte|].
    unfold streaming_fuel. cbn [ceiling fmap option_fmap option_map default]. unfold id. lia. }
  destruct (r =? limit); [|done]. destruct (usize_checked_add limit 1) as [length|] eqn:El; [|done].
  destruct (_ && _); [done|]. unfold usize_checked_add in El. destruct (limit + 1 <=? USIZE_MAX); [|done].
  injection El as <-. replace limit with (limit + 1 - 1) at 2 by lia. apply complete_sound; [lia|done|done].
Qed.

End Decode.
