(* ===== verification/FilterPipelines.v ===== *)
(** * Filter pipelines

    Models the rest of [crates/hdf5-pure-filter/src/pipeline/mod.rs]: the ordering and
    classification of filters, the bounds of each stage, and the encoding and decoding
    of a chunk with reusable scratch state.  The build is one without the [zfp]
    feature, in which the ZFP identifier is unsupported. *)

From stdpp Require Import strings.
From S2P Require Import Prelude Addresses Words ByteFields FilterErrors Lzf ByteFilters FilterMasks FilterBuffers ScaleOffset Deflate.

Local Open Scope string_scope.
Local Open Scope Z_scope.

Definition FILTER_SHUFFLE : Z := 2.
Definition FILTER_FLETCHER32 : Z := 3.
Definition FILTER_LZF : Z := 32000.
Definition H5Z_FLAG_OPTIONAL : Z := 1.

(** One step of a pipeline: [FilterStep]. *)
Record Filter := { filter_id : Z; filter_flags : Z; filter_client_data : list Z }.

Definition optional (f : Filter) : bool := negb (Z.land (filter_flags f) H5Z_FLAG_OPTIONAL =? 0).

(** ** Order and classification *)

Definition canonical_rank (id : Z) : Z :=
  if id =? FILTER_SCALEOFFSET then 1
  else if id =? FILTER_SHUFFLE then 2
  else if id =? FILTER_LZF then 3
  else if id =? FILTER_DEFLATE then 4
  else if id =? FILTER_FLETCHER32 then 5
  else 255.

(** [take_while(..).count()] *)
Fixpoint canonical_filter_position (ids : list Z) (id : Z) : Z :=
  match ids with
  | existing :: ids =>
    if canonical_rank existing <=? canonical_rank id then 1 + canonical_filter_position ids id else 0
  | [] => 0
  end.

Definition first_filter_conflict (ids : list Z) : option (string * string) :=
  let has id := bool_decide (id ∈ ids) in
  if has FILTER_SCALEOFFSET && has FILTER_SHUFFLE then Some ("shuffle", "scale-offset")
  else if has FILTER_LZF && has FILTER_DEFLATE then Some ("lzf", "deflate")
  else None.

Definition filters_reencodable (filters : list Filter) : bool :=
  forallb (λ f, (filter_id f =? FILTER_DEFLATE) || (filter_id f =? FILTER_SHUFFLE)
                || (filter_id f =? FILTER_FLETCHER32) || (filter_id f =? FILTER_SCALEOFFSET)
                || (filter_id f =? FILTER_LZF)) filters.

Definition filters_lossless (filters : list Filter) : bool :=
  forallb (λ f,
    if (filter_id f =? FILTER_DEFLATE) || (filter_id f =? FILTER_SHUFFLE)
       || (filter_id f =? FILTER_FLETCHER32) || (filter_id f =? FILTER_LZF) then true
    else if filter_id f =? FILTER_SCALEOFFSET then
      match scale_offset_mode (filter_client_data f) with Some (Integer _, _) => true | _ => false end
    else false) filters.

(** ** Chunks *)

Record ChunkContext := {
  chunk_dims : list Z;
  element_size : Z;
  scale_offset_type : option ScaleOffsetType;
}.

Section Pipeline.
Context `{FilterBuild}.

Definition expected_chunk_len (ctx : ChunkContext) : option Z :=
  elems ← checked_product 1 (chunk_dims ctx);
  bytes ← checked_mul elems (element_size ctx);
  if (bytes <=? USIZE_MAX) && negb (bytes =? 0) then Some bytes else None.

Record MaskedFilters := { masked_filters : list Filter; mask : PipelineFilterMask }.

Definition masked_new (filters : list Filter) (bits : Z) : result MaskedFilters FilterError :=
  match PipelineFilterMask.from_raw_bits bits (zlen filters) with
  | Ok mask => Ok {| masked_filters := filters; mask := mask |}
  | Err e => Err (Pipeline e)
  end.

Definition max_forward_output (m : MaskedFilters) (index in_size : Z) : outcome Z :=
  f ← Words.index (masked_filters m) index;
  Ret (if filter_id f =? FILTER_FLETCHER32 then usize_saturating_add in_size 4
       else if filter_id f =? FILTER_LZF then usize_saturating_mul in_size 2
       else if filter_id f =? FILTER_SCALEOFFSET then usize_saturating_add in_size HEADER_LEN
       else if filter_id f =? FILTER_DEFLATE
       then usize_saturating_add (usize_saturating_add in_size (in_size / 16)) 64
       else in_size).

(** [for (index, skipped) in positions { if !skipped { size = .. } }] *)
Fixpoint forward_output (m : MaskedFilters) (positions : list (Z * bool)) (size : Z) : outcome Z :=
  match positions with
  | [] => Ret size
  | (index, skipped) :: positions =>
    size ← (if (skipped : bool) then Ret size else max_forward_output m index size);
    forward_output m positions size
  end.

Definition inner_output_cap (m : MaskedFilters) (expected : option Z) (filter_index : Z)
    : outcome (option Z) :=
  match expected with
  | None => Ret None
  | Some size =>
    size ← forward_output m (take (Z.to_nat filter_index) (PipelineFilterMask.positions (mask m))) size;
    Ret (Some size)
  end.

(** ** Decoding *)

Notation stage := (outcome (result FilterBuffer FilterError * FilterScratch)).

(** A stage that only uses the spare of the scratch. *)
Definition with_spare {X} (scratch : FilterScratch)
    (m : outcome (result FilterBuffer FilterError * InitializedBuffer * X)) : stage :=
  '(r, bytes, _) ← m; Ret (r, FilterScratch.set_spare scratch bytes).

(** The window is set to the length of the input and overwritten. *)
Definition shuffle_stage (shuffle : list Z → Z → list Z → outcome (list Z)) (current : FilterBuffer)
    (element_size : Z) (scratch : FilterScratch) : stage :=
  with_spare scratch (FilterBuffer.overwrite current (spare scratch) (λ input output,
    let output := OutputWindow.resize output (zlen input) in
    slice ← OutputWindow.as_mut_slice output;
    slice ← shuffle input element_size slice;
    output ← OutputWindow.overwritten output slice;
    Ret (Ok (zlen input), output, tt))).

(** A fallible stage that changes the spare only when it succeeds. *)
Definition scale_offset_stage (scratch : FilterScratch) (m : filtered (FilterBuffer * InitializedBuffer))
    : stage :=
  r ← m;
  match r with
  | Ok (b, bytes) => Ret (Ok b, FilterScratch.set_spare scratch bytes)
  | Err e => Ret (Err e, scratch)
  end.

Definition decode_filter (m : MaskedFilters) (expected : option Z) (ctx : ChunkContext)
    (scratch : FilterScratch) (i : Z) (current : FilterBuffer) : stage :=
  f ← Words.index (masked_filters m) i;
  let id := filter_id f in
  if id =? FILTER_SHUFFLE then
    if element_size ctx =? 1 then Ret (Ok current, scratch)
    else shuffle_stage shuffle_decompress_into current (element_size ctx) scratch
  else if id =? FILTER_DEFLATE then
    cap ← inner_output_cap m expected i;
    FilterScratch.deflate_decompress scratch current cap
  else if id =? FILTER_LZF then
    cap ← inner_output_cap m expected i;
    '(r, bytes) ← FilterBuffer.materialize current (spare scratch) (λ input output,
                    Lzf.decompress_into input cap output);
    Ret (r, FilterScratch.set_spare scratch bytes)
  else if id =? FILTER_FLETCHER32 then
    bytes ← FilterBuffer.as_slice current;
    r ← fletcher32_verify bytes;
    match r with
    | Err e => Ret (Err e, scratch)
    | Ok payload => r ← FilterBuffer.narrow current 0 (zlen payload); Ret (r, scratch)
    end
  else if id =? FILTER_SCALEOFFSET then
    cap ← inner_output_cap m expected i;
    scale_offset_stage scratch (ScaleOffset.decompress current (filter_client_data f) cap (spare scratch))
  else Ret (Err (UnsupportedFilter id), scratch).

Fixpoint decode_filters (m : MaskedFilters) (expected : option Z) (ctx : ChunkContext)
    (scratch : FilterScratch) (positions : list (Z * bool)) (current : FilterBuffer) : stage :=
  match positions with
  | [] => Ret (Ok current, scratch)
  | (i, skipped) :: positions =>
    if (skipped : bool) then decode_filters m expected ctx scratch positions current
    else
      '(r, scratch) ← decode_filter m expected ctx scratch i current;
      match r with
      | Ok current => decode_filters m expected ctx scratch positions current
      | Err e => Ret (Err e, scratch)
      end
  end.

(** [larger] compares the capacities of two allocations. *)
Definition decompress_chunk_with (larger : InitializedBuffer → InitializedBuffer → bool)
    (scratch : FilterScratch) (compressed : list Z) (filters : list Filter) (ctx : ChunkContext)
    (filter_mask : Z) : outcome (result (list Z) FilterError * FilterScratch) :=
  match masked_new filters filter_mask with
  | Err e => Ret (Err e, scratch)
  | Ok pipeline =>
    let expected := expected_chunk_len ctx in
    '(r, scratch) ← decode_filters pipeline expected ctx scratch
                      (reverse (PipelineFilterMask.positions (mask pipeline)))
                      (FilterBuffer.borrowed compressed);
    match r with
    | Err e => Ret (Err e, scratch)
    | Ok current =>
      bytes ← FilterBuffer.as_slice current;
      match expected with
      | Some expected =>
        if negb (zlen bytes =? expected) then
          Ret (Err (DataSizeMismatch expected (zlen bytes)),
               FilterScratch.set_spare scratch (FilterBuffer.recycle_larger larger current (spare scratch)))
        else data ← FilterBuffer.into_owned current; Ret (Ok data, scratch)
      | None => data ← FilterBuffer.into_owned current; Ret (Ok data, scratch)
      end
    end
  end.

Definition decompress_chunk (larger : InitializedBuffer → InitializedBuffer → bool) (compressed : list Z)
    (filters : list Filter) (ctx : ChunkContext) (filter_mask : Z) : filtered (list Z) :=
  '(r, _) ← decompress_chunk_with larger FilterScratch.new compressed filters ctx filter_mask; Ret r.

(** ** Encoding *)

(** The level of a Deflate step: its first parameter, or six. *)
Definition deflate_level (client_data : list Z) : result DeflateLevel FilterError :=
  match client_data with
  | level :: _ =>
    match level_try_from level with
    | Ok l => Ok l
    | Err _ => Err (InvalidDeflateLevel level)
    end
  | [] => Ok Six
  end.

Definition encode_filter (filters : list Filter) (ctx : ChunkContext) (scratch : FilterScratch) (i : Z)
    (current : FilterBuffer) : stage :=
  f ← Words.index filters i;
  let id := filter_id f in
  if id =? FILTER_SHUFFLE then
    if element_size ctx =? 1 then Ret (Ok current, scratch)
    else shuffle_stage shuffle_compress_into current (element_size ctx) scratch
  else if id =? FILTER_DEFLATE then
    match deflate_level (filter_client_data f) with
    | Err e => Ret (Err e, scratch)
    | Ok level =>
      bytes ← FilterBuffer.as_slice current;
      let '(r, scratch) := FilterScratch.deflate_compress scratch bytes level in
      match r with
      | Err e => Ret (Err e, scratch)
      | Ok output =>
        let '(current, bytes) := FilterBuffer.replace current (spare scratch) output in
        Ret (Ok current, FilterScratch.set_spare scratch bytes)
      end
    end
  else if id =? FILTER_LZF then
    '(r, bytes) ← FilterBuffer.materialize current (spare scratch) (λ input output,
                    output ← Lzf.compress_into input output; Ret (output, Ok tt));
    Ret (r, FilterScratch.set_spare scratch bytes)
  else if id =? FILTER_FLETCHER32 then
    bytes ← FilterBuffer.as_slice current;
    checksum ← fletcher32_compute bytes;
    '(current, bytes) ← FilterBuffer.append current (spare scratch) (le_bytes 4 checksum);
    Ret (Ok current, FilterScratch.set_spare scratch bytes)
  else if id =? FILTER_SCALEOFFSET then
    scale_offset_stage scratch (ScaleOffset.compress current (filter_client_data f) (spare scratch))
  else Ret (Err (UnsupportedFilter id), scratch).

Fixpoint encode_filters (filters : list Filter) (ctx : ChunkContext) (scratch : FilterScratch)
    (positions : list (Z * bool)) (current : FilterBuffer) : stage :=
  match positions with
  | [] => Ret (Ok current, scratch)
  | (i, _) :: positions =>
    '(r, scratch) ← encode_filter filters ctx scratch i current;
    match r with
    | Ok current => encode_filters filters ctx scratch positions current
    | Err e => Ret (Err e, scratch)
    end
  end.

Definition compress_chunk_with (scratch : FilterScratch) (data : list Z) (filters : list Filter)
    (ctx : ChunkContext) : outcome (result (list Z) FilterError * FilterScratch) :=
  match masked_new filters 0 with
  | Err e => Ret (Err e, scratch)
  | Ok pipeline =>
    '(r, scratch) ← encode_filters filters ctx scratch
                      (PipelineFilterMask.positions (mask pipeline)) (FilterBuffer.borrowed data);
    match r with
    | Err e => Ret (Err e, scratch)
    | Ok current => data ← FilterBuffer.into_owned current; Ret (Ok data, scratch)
    end
  end.

End Pipeline.
