(* ===== verification/FilterPipelineFacts.v ===== *)
(** * Facts about filter pipelines

    Each stage of a pipeline is undone by its inverse stage, within the bound that is
    computed for it, whatever the scratch state holds. *)

From stdpp Require Import strings.
From S2P Require Import Prelude Addresses Words ByteFields ByteFieldFacts FilterErrors Lzf.
From S2P Require Import ByteFilters FilterMasks FilterBuffers ScaleOffset ScaleOffsetFacts Deflate.
From S2P Require Import FilterPipelines.

Local Open Scope Z_scope.

(** Decides the comparisons of known filter identifiers. *)
Ltac pick_filter :=
  repeat match goal with
  | |- context [?a =? ?b] =>
    match eval vm_compute in (a =? b) with
    | true => change (a =? b) with true
    | false => change (a =? b) with false
    end
  end; cbv iota.

Section Facts.
Context `{FB : FilterBuild} `{!Flate2Laws}.
Import FilterBuffer.

(** ** Scratch state *)

(** The retained encoder is at the start of a stream. *)
Definition encoder_ok (s : FilterScratch) : Prop :=
  match encoder s with Some (level, e) => fresh_encoder level e | None => True end.

Lemma encoder_ok_new : encoder_ok FilterScratch.new.
Proof. done. Qed.

Lemma encoder_ok_spare s bytes : encoder_ok s → encoder_ok (FilterScratch.set_spare s bytes).
Proof. done. Qed.

Lemma zlib_encoder_fresh s level : encoder_ok s → fresh_encoder level (FilterScratch.zlib_encoder s level).
Proof.
  unfold encoder_ok, FilterScratch.zlib_encoder. destruct (encoder s) as [[have e]|]; [|by intros; apply encoder_new_fresh].
  intros He. destruct (bool_decide (have = level)) eqn:E; [|apply encoder_new_fresh].
  by apply bool_decide_eq_true in E as <-.
Qed.

Lemma zlib_decoder_new s : FilterScratch.zlib_decoder s = decompress_new.
Proof. unfold FilterScratch.zlib_decoder. destruct (decoder s); [apply reset_new|done]. Qed.

(** ** Bounds *)

(** The most a filter makes of [n] bytes. *)
Definition grow (id n : Z) : Z :=
  if id =? FILTER_FLETCHER32 then n + 4
  else if id =? FILTER_LZF then n * 2
  else if id =? FILTER_SCALEOFFSET then n + HEADER_LEN
  else if id =? FILTER_DEFLATE then n + n / 16 + 64
  else n.

Lemma grow_ge id n : 0 ≤ n → n ≤ grow id n.
Proof.
  intros Hn. pose proof (Z.div_pos n 16 Hn). unfold grow, HEADER_LEN.
  destruct (id =? _); [lia|]. destruct (id =? _); [lia|]. destruct (id =? _); [lia|]. destruct (id =? _); lia.
Qed.

Lemma grow_mono id n n' : 0 ≤ n ≤ n' → grow id n ≤ grow id n'.
Proof.
  intros Hn. pose proof (Z.div_le_mono n n' 16). unfold grow.
  destruct (id =? _); [lia|]. destruct (id =? _); [lia|]. destruct (id =? _); [lia|]. destruct (id =? _); lia.
Qed.

Lemma max_forward_grow m i f n :
  Words.index (masked_filters m) i = Ret f → 0 ≤ n ≤ USIZE_MAX →
  max_forward_output m i n = Ret (Z.min (grow (filter_id f) n) USIZE_MAX).
Proof.
  intros Hf Hn. unfold max_forward_output. rewrite Hf. cbn [mbind outcome_bind]. f_equal.
  unfold grow, usize_saturating_add, usize_saturating_mul. pose proof (Z.div_pos n 16).
  destruct (_ =? _); [lia|]. destruct (_ =? _); [lia|]. destruct (_ =? _); [lia|]. destruct (_ =? _); lia.
Qed.

Lemma forward_output_app m p1 p2 n :
  forward_output m (p1 ++ p2) n = (n ← forward_output m p1 n; forward_output m p2 n).
Proof.
  revert n. induction p1 as [|[i skipped] p1 IH]; intros n; [done|]. cbn [app forward_output].
  destruct (if skipped then _ else _) as [n'|]; [|done]. cbn [mbind outcome_bind]. apply IH.
Qed.

(** ** Stages *)

Lemma shuffle_stage_spec shuffle cur l l' esize scratch :
  views cur l → zlen l' = zlen l → encoder_ok scratch →
  (∀ slice, zlen slice = zlen l → shuffle l esize slice = Ret l') →
  ∃ cur' scratch', shuffle_stage shuffle cur esize scratch = Ret (Ok cur', scratch') ∧
    encoder_ok scratch' ∧ views cur' l'.
Proof.
  intros Hv Hz Hs Hsh. unfold shuffle_stage.
  set (write := λ input output, _).
  destruct (resize_window {| window_bytes := spare scratch; window_end := 0 |} (zlen l) (zlen_nonneg l))
    as (_ & _ & _ & sl & Hsl & Hslz & Hwr).
  destruct (Hwr l' Hz) as (w' & Hw' & Hh & _).
  assert (Hwrite : write l {| window_bytes := spare scratch; window_end := 0 |} = Ret (Ok (zlen l), w', tt)).
  { unfold write. rewrite Hsl. cbn [mbind outcome_bind]. rewrite Hsh by done. cbn [mbind outcome_bind].
    by rewrite Hw'. }
  destruct (overwrite_spec cur l (spare scratch) write _ w' tt Hv Hwrite l' Hh ltac:(lia)) as (b & sp & -> & Hb).
  unfold with_spare. cbn [mbind outcome_bind]. eexists _, _. split; [done|]. split; [|done]. by apply encoder_ok_spare.
Qed.

(** What the decoder does with a stage's bytes: [l'] is undone to [l]. *)
Definition undoes (filters : list Filter) (ctx : ChunkContext) (i : Z) (l l' : list Z) : Prop :=
  ∀ m expected cap scratch cur',
    masked_filters m = filters → inner_output_cap m expected i = Ret cap →
    match cap with Some c => zlen l ≤ c < ISIZE_MAX | None => True end → encoder_ok scratch → views cur' l' →
    ∃ cur scratch', decode_filter m expected ctx scratch i cur' = Ret (Ok cur, scratch') ∧
      encoder_ok scratch' ∧ views cur l.

(** What the encoder makes of [l], whatever the scratch state holds. *)
Definition makes (filters : list Filter) (ctx : ChunkContext) (i : Z) (l l' : list Z) : Prop :=
  ∀ scratch cur, encoder_ok scratch → views cur l →
    ∃ cur' scratch', encode_filter filters ctx scratch i cur = Ret (Ok cur', scratch') ∧
      encoder_ok scratch' ∧ views cur' l'.

Definition round_trips (filters : list Filter) (ctx : ChunkContext) (i id : Z) (l : list Z) : Prop :=
  ∃ l', Forall byte l' ∧ zlen l' ≤ grow id (zlen l) ∧ makes filters ctx i l l' ∧ undoes filters ctx i l l'.

Section Stage.
Context (filters : list Filter) (ctx : ChunkContext) (i : Z) (f : Filter) (l : list Z).
Hypothesis Hf : Words.index filters i = Ret f.
Hypothesis Hl : Forall byte l.
Hypothesis Hsize : 1 ≤ element_size ctx.

Lemma shuffle_round_trip : filter_id f = FILTER_SHUFFLE → round_trips filters ctx i FILTER_SHUFFLE l.
Proof.
  intros Hid. unfold round_trips. change (grow FILTER_SHUFFLE (zlen l)) with (zlen l).
  destruct (element_size ctx =? 1) eqn:E1.
  - exists l. split_and!; [done|lia|..].
    + intros scratch cur Hs Hv. unfold encode_filter. rewrite Hf. cbn [mbind outcome_bind]. rewrite Hid, E1. eauto.
    + intros m expected cap scratch cur Hm _ _ Hs Hv. unfold decode_filter. rewrite Hm, Hf. cbn [mbind outcome_bind].
      rewrite Hid, E1. eauto.
  - assert (Hes : 1 < element_size ctx) by lia. destruct (shuffle_compress_spec l _ Hes l eq_refl) as (l' & _ & Hsh).
    exists l'. split_and!; [by eapply shuffled_byte|by rewrite (proj1 Hsh)|..].
    + intros scratch cur Hs Hv. unfold encode_filter. rewrite Hf. cbn [mbind outcome_bind]. rewrite Hid, E1.
      apply (shuffle_stage_spec _ cur l l'); try done; [apply Hsh|]. intros sl Hsl.
      destruct (shuffle_compress_spec l _ Hes sl Hsl) as (r & -> & Hr). f_equal. by eapply shuffled_unique.
    + intros m expected cap scratch cur Hm _ _ Hs Hv. unfold decode_filter. rewrite Hm, Hf. cbn [mbind outcome_bind].
      rewrite Hid, E1. apply (shuffle_stage_spec _ cur l' l); try done; [symmetry; apply Hsh|]. intros sl Hsl.
      destruct (shuffle_decompress_spec l' _ Hes sl Hsl) as (r & -> & Hr). f_equal. by eapply unshuffle_shuffled.
Qed.

Lemma lzf_round_trip : filter_id f = FILTER_LZF → zlen l ≤ USIZE_MAX → round_trips filters ctx i FILTER_LZF l.
Proof.
  intros Hid Hu. destruct (compress_spec l Hl) as (enc & He & Hb & Hz & Hdec). unfold Lzf.compress in He.
  exists enc. split_and!; [done|unfold grow; simpl; lia|..].
  - intros scratch cur Hs Hv. unfold encode_filter. rewrite Hf. cbn [mbind outcome_bind]. rewrite Hid. pick_filter. rewrite (materialize_spec _ _ _ _ Hv).
    rewrite He. cbn [mbind outcome_bind]. eexists _, _. split; [done|]. split; [by apply encoder_ok_spare|apply views_owned].
  - intros m expected cap scratch cur Hm Hcap Hle Hs Hv. unfold decode_filter. rewrite Hm, Hf. cbn [mbind outcome_bind].
    rewrite Hid. pick_filter. rewrite Hcap. cbn [mbind outcome_bind].
    rewrite (materialize_spec _ _ _ _ Hv).
    assert (Hd : Lzf.decompress_into enc cap [] = Ret (l, Ok tt)).
    { destruct cap as [c|]; [apply Hdec; lia|]. exact (Hdec USIZE_MAX Hu). }
    rewrite Hd. cbn [mbind outcome_bind]. eexists _, _. split; [done|]. split; [by apply encoder_ok_spare|apply views_owned].
Qed.

Lemma fletcher_round_trip : filter_id f = FILTER_FLETCHER32 → round_trips filters ctx i FILTER_FLETCHER32 l.
Proof.
  intros Hid. set (sum := le_bytes 4 (fletcher32 l)). exists (l ++ sum).
  assert (Hsb : Forall byte sum) by apply le_bytes_byte.
  assert (Hsz : zlen sum = 4) by apply zlen_le_bytes. split_and!.
  - by apply Forall_app_2.
  - rewrite zlen_app. unfold grow. simpl. lia.
  - intros scratch cur Hs Hv. unfold encode_filter. rewrite Hf. cbn [mbind outcome_bind]. rewrite Hid. pick_filter.
    pose proof Hv as Hv'. unfold views in Hv'. rewrite Hv'. cbn [mbind outcome_bind].
    rewrite fletcher32_compute_ret by done. cbn [mbind outcome_bind].
    destruct (append_spec cur l (spare scratch) sum Hv) as (b & sp & Ha & Hb). fold sum. rewrite Ha.
    cbn [mbind outcome_bind]. eexists _, _. split; [done|]. split; [by apply encoder_ok_spare|done].
  - intros m expected cap scratch cur Hm _ _ Hs Hv. unfold decode_filter. rewrite Hm, Hf. cbn [mbind outcome_bind].
    rewrite Hid. pick_filter.
    pose proof Hv as Hv'. unfold views in Hv'. rewrite Hv'. cbn [mbind outcome_bind].
    rewrite fletcher32_verify_app by done.
    assert (Hsv : le_value sum = fletcher32 l) by (apply le_value_bytes, fletcher32_u32).
    rewrite Hsv, Z.eqb_refl. cbn [mbind outcome_bind ok].
    unfold ok. cbn [mbind outcome_bind].
    pose proof (narrow_spec cur (l ++ sum) 0 (zlen l) Hv) as Hn. rewrite get_range_prefix in Hn.
    destruct Hn as (b & -> & Hb). eexists _, _. split; [done|]. done.
Qed.

Lemma deflate_round_trip level :
  filter_id f = FILTER_DEFLATE → feature_deflate = true → deflate_level (filter_client_data f) = Ok level →
  grow FILTER_DEFLATE (zlen l) < USIZE_MAX → round_trips filters ctx i FILTER_DEFLATE l.
Proof.
  intros Hid Hfe Hlv Hu. pose proof (zlib_bound level l) as Hzb. pose proof (zlen_nonneg l).
  pose proof (Z.div_pos (zlen l) 16). change (grow FILTER_DEFLATE (zlen l)) with (zlen l + zlen l / 16 + 64) in *.
  exists (zlib level l). split_and!; [by apply zlib_byte|done|..].
  - intros scratch cur Hs Hv. unfold encode_filter. rewrite Hf. cbn [mbind outcome_bind]. rewrite Hid. pick_filter.
    rewrite Hlv. unfold views in Hv. rewrite Hv. cbn [mbind outcome_bind].
    unfold FilterScratch.deflate_compress. rewrite Hfe.
    destruct (encode_fresh level _ l (zlib_encoder_fresh scratch level Hs)) as (e' & e'' & -> & -> & Hfr).
    cbn [replace]. eexists _, _. split; [done|]. split; [by apply encoder_ok_spare|apply views_owned].
  - intros m expected cap scratch cur Hm Hcap Hle Hs Hv. unfold decode_filter. rewrite Hm, Hf. cbn [mbind outcome_bind].
    rewrite Hid. pick_filter. rewrite Hcap. cbn [mbind outcome_bind]. unfold FilterScratch.deflate_decompress. rewrite Hfe, zlib_decoder_new.
    destruct (deflate_decompress_into_decodes level l cap {| window_bytes := spare scratch; window_end := 0 |})
      as (w & d & Hw & Hh); [done|lia|lia|].
    destruct (overwrite_spec cur _ (spare scratch) (λ input output, deflate_decompress_into decompress_new input cap output)
      _ w d Hv Hw l Hh eq_refl) as (b & sp & -> & Hb).
    cbn [mbind outcome_bind]. eexists _, _. split; [done|]. done.
Qed.

Lemma scale_offset_round_trip p sign fill :
  filter_id f = FILTER_SCALEOFFSET → integer_parms (filter_client_data f) p sign fill →
  zlen l = nelmts p * size p → 0 < nelmts p → zlen l + 21 ≤ USIZE_MAX → bits_countable p →
  round_trips filters ctx i FILTER_SCALEOFFSET l.
Proof.
  intros Hid Hcd Hz Hn Hu Hfit. set (cd := filter_client_data f) in *.
  destruct (lossless cd p sign fill Hcd None I (borrowed l) l [] (views_borrowed l) Hl Hz Hu Hfit)
    as (b & sp & enc & Hc & Hb & Heb & Hze & _).
  exists enc. change (grow FILTER_SCALEOFFSET (zlen l)) with (zlen l + HEADER_LEN).
  assert (Hmk : ∀ cur sp2, views cur l → ∃ b2 sp2', compress cur cd sp2 = ok (b2, sp2') ∧ views b2 enc).
  { intros cur sp2 Hv. pose proof (compress_views (borrowed l) cur l cd [] sp2 (views_borrowed l) Hv) as Hcv.
    rewrite Hc in Hcv. destruct Hcv as (b2 & sp2' & -> & Himp). eauto. }
  split_and!; [done|by apply Hze|..].
  - intros scratch cur Hs Hv. unfold encode_filter. rewrite Hf. cbn [mbind outcome_bind]. rewrite Hid. pick_filter. fold cd.
    destruct (Hmk cur (spare scratch) Hv) as (b2 & sp2 & -> & Hb2). unfold scale_offset_stage, ok.
    cbn [mbind outcome_bind]. eexists _, _. split; [done|]. split; [by apply encoder_ok_spare|done].
  - intros m expected cap scratch cur Hm Hcap Hle Hs Hv. unfold decode_filter. rewrite Hm, Hf. cbn [mbind outcome_bind].
    rewrite Hid. pick_filter. fold cd. rewrite Hcap. cbn [mbind outcome_bind].
    assert (Hcap' : match cap with Some c => nelmts p * size p ≤ c | None => True end) by (destruct cap; [lia|done]).
    destruct (lossless cd p sign fill Hcd cap Hcap' (borrowed l) l [] (views_borrowed l) Hl Hz Hu Hfit)
      as (b' & sp' & enc' & Hc' & Hb' & _ & _ & Hd).
    assert (enc' = enc) as -> by (rewrite Hc in Hc'; injection Hc' as -> ->; unfold views in *; congruence).
    destruct (Hd cur (spare scratch) Hv) as (b2 & sp2 & -> & Hb2). unfold scale_offset_stage, ok.
    cbn [mbind outcome_bind]. eexists _, _. split; [done|]. split; [by apply encoder_ok_spare|done].
Qed.

End Stage.
End Facts.

(** ** Runs of a filter pipeline

    The stages of [FilterPipelineFacts] composed: what [compress_chunk_with] makes of a
    chunk, [decompress_chunk_with] undoes, within the bounds it computes for itself. *)

(** The positions [k .. k+n) of a pipeline, none skipped. *)
Definition unskipped (k n : nat) : list (Z * bool) := (λ i, (Z.of_nat i, false)) <$> seq k n.

Lemma unskipped_S k n : unskipped k (S n) = (Z.of_nat k, false) :: unskipped (S k) n.
Proof. done. Qed.

Lemma take_unskipped k n : (k ≤ n)%nat → take k (unskipped 0 n) = unskipped 0 k.
Proof. intros Hk. unfold unskipped. rewrite <- fmap_take, take_seq. by rewrite Nat.min_l. Qed.

Lemma unskipped_snoc k : unskipped 0 (S k) = unskipped 0 k ++ [(Z.of_nat k, false)].
Proof. unfold unskipped. by rewrite seq_S, fmap_app. Qed.

Lemma positions_unskipped m :
  (∀ i, 0 ≤ i < count m → Z.testbit (raw_bits (recorded_mask m)) i = false) →
  PipelineFilterMask.positions m = unskipped 0 (Z.to_nat (count m)).
Proof.
  intros Hb. apply list_eq. intros i. rewrite positions_lookup. unfold unskipped. rewrite list_lookup_fmap.
  case_decide; [rewrite lookup_seq_lt by done|by rewrite lookup_seq_ge by lia]. simpl. by rewrite Hb by lia.
Qed.

Section Runs.
Context `{FB : FilterBuild} `{!Flate2Laws}.
Import FilterBuffer.

Lemma decode_filters_app m expected ctx p1 p2 scratch cur :
  decode_filters m expected ctx scratch (p1 ++ p2) cur
  = ('(r, scratch) ← decode_filters m expected ctx scratch p1 cur;
     match r with
     | Ok current => decode_filters m expected ctx scratch p2 current
     | Err e => Ret (Err e, scratch)
     end).
Proof.
  revert scratch cur. induction p1 as [|[i skipped] p1 IH]; intros scratch cur; [done|].
  cbn [app decode_filters]. destruct skipped; [apply IH|].
  destruct (decode_filter _ _ _ _ _ _) as [[r s]|]; [|done]. cbn [mbind outcome_bind]. destruct r; [apply IH|done].
Qed.

(** The size a run of filters can make of [n] bytes. *)
Definition grown (filters : list Filter) (n : Z) : Z := foldl (λ n f, grow (filter_id f) n) n filters.

Lemma grown_ge filters n : 0 ≤ n → n ≤ grown filters n.
Proof.
  revert n. induction filters as [|f filters IH]; intros n Hn; [unfold grown; simpl; lia|]. unfold grown. cbn [foldl].
  pose proof (grow_ge (filter_id f) n Hn). etrans; [done|]. apply IH. lia.
Qed.

Lemma grown_mono filters n n' : 0 ≤ n ≤ n' → grown filters n ≤ grown filters n'.
Proof.
  revert n n'. induction filters as [|f filters IH]; intros n n' Hn; [unfold grown; simpl; lia|]. unfold grown. cbn [foldl]. apply IH.
  pose proof (grow_ge (filter_id f) n). pose proof (grow_mono (filter_id f) n n'). lia.
Qed.

Section Chain.
Context (filters : list Filter) (ctx : ChunkContext).

(** The filters from position [k] on encode [l] to [l'], whatever the scratch state
    holds, and are undone when their decoder's bound at [k] admits [l]. *)
Definition run_of (k : nat) (l l' : list Z) : Prop :=
  Forall byte l' ∧ zlen l' ≤ grown (drop k filters) (zlen l) ∧
  (∀ scratch cur, encoder_ok scratch → views cur l →
     ∃ cur' scratch', encode_filters filters ctx scratch (unskipped k (length filters - k)) cur = Ret (Ok cur', scratch') ∧
       encoder_ok scratch' ∧ views cur' l') ∧
  (∀ m expected cap scratch cur', masked_filters m = filters →
     PipelineFilterMask.positions (mask m) = unskipped 0 (length filters) →
     inner_output_cap m expected (Z.of_nat k) = Ret cap →
     match cap with Some c => zlen l ≤ c ∧ grown (drop k filters) c < ISIZE_MAX | None => True end →
     encoder_ok scratch → views cur' l' →
     ∃ cur scratch', decode_filters m expected ctx scratch (reverse (unskipped k (length filters - k))) cur' = Ret (Ok cur, scratch') ∧
       encoder_ok scratch' ∧ views cur l).

Lemma run_done l : Forall byte l → run_of (length filters) l l.
Proof.
  intros Hl. unfold run_of. rewrite Nat.sub_diag, drop_all. split_and!; [done|done|..]; intros; simpl; eauto.
Qed.

Lemma inner_output_cap_S m expected (k : nat) f cap :
  masked_filters m = filters → PipelineFilterMask.positions (mask m) = unskipped 0 (length filters) →
  filters !! k = Some f → inner_output_cap m expected (Z.of_nat k) = Ret cap →
  match cap with Some c => 0 ≤ c ≤ USIZE_MAX | None => True end →
  inner_output_cap m expected (Z.of_nat (S k))
  = Ret ((λ c, Z.min (grow (filter_id f) c) USIZE_MAX) <$> cap).
Proof.
  intros Hm Hp Hf Hcap Hc. pose proof (lookup_lt_Some _ _ _ Hf).
  unfold inner_output_cap in *. destruct expected as [n|]; [|by injection Hcap as <-].
  rewrite Hp, Nat2Z.id, take_unskipped in * by lia. rewrite unskipped_snoc, forward_output_app.
  destruct (forward_output m (unskipped 0 k) n) as [c|]; [|done]. cbn [mbind outcome_bind] in *.
  injection Hcap as <-. cbn [forward_output].
  rewrite (max_forward_grow m (Z.of_nat k) f); [done| |done].
  unfold Words.index. rewrite Hm. replace (Z.of_nat k <? 0) with false by lia. by rewrite Nat2Z.id, Hf.
Qed.

Lemma run_step (k : nat) f l l1 l' :
  filters !! k = Some f → Forall byte l1 → zlen l1 ≤ grow (filter_id f) (zlen l) → zlen l1 ≤ USIZE_MAX →
  makes filters ctx (Z.of_nat k) l l1 → undoes filters ctx (Z.of_nat k) l l1 →
  run_of (S k) l1 l' → run_of k l l'.
Proof.
  intros Hf Hb1 Hz1 Hu1 Hmk Hun (Hb & Hz & Henc & Hdec). pose proof (lookup_lt_Some _ _ _ Hf) as Hk.
  pose proof (zlen_nonneg l). pose proof (zlen_nonneg l1).
  assert (length filters - k = S (length filters - S k))%nat as Hlen by lia.
  unfold run_of. rewrite Hlen, unskipped_S. split_and!; [done|..].
  - rewrite (drop_S filters f k Hf). etrans; [exact Hz|]. apply (grown_mono (drop (S k) filters)). done.
  - intros scratch cur Hs Hv. cbn [encode_filters].
    destruct (Hmk scratch cur Hs Hv) as (cur1 & s1 & -> & Hs1 & Hv1). cbn [mbind outcome_bind]. by apply Henc.
  - intros m expected cap scratch cur' Hm Hp Hcap Hc Hs Hv. rewrite reverse_cons, decode_filters_app.
    pose proof isize_bounds. rewrite (drop_S filters f k Hf) in Hc.
    assert (Hgr : ∀ c, zlen l ≤ c → c ≤ grow (filter_id f) c ≤ grown (f :: drop (S k) filters) c).
    { intros c Hcl. pose proof (grow_ge (filter_id f) c ltac:(lia)). split; [done|].
      apply (grown_ge (drop (S k) filters) (grow (filter_id f) c)). lia. }
    assert (Hc0 : match cap with Some c => 0 ≤ c ≤ USIZE_MAX | None => True end).
    { destruct cap as [c|]; [|done]. specialize (Hgr c). lia. }
    pose proof (inner_output_cap_S m expected k f cap Hm Hp Hf Hcap Hc0) as HcS.
    destruct (Hdec m expected _ scratch cur' Hm Hp HcS) as (cur1 & s1 & -> & Hs1 & Hv1); [|done..|].
    { destruct cap as [c|]; [|done]. cbn. specialize (Hgr c). destruct Hc as [Hcl Hcg].
      rewrite Z.min_l by lia. pose proof (grow_mono (filter_id f) (zlen l) c). split; [lia|exact Hcg]. }
    cbn [mbind outcome_bind decode_filters].
    destruct (Hun m expected cap s1 cur1 Hm Hcap) as (cur0 & s0 & -> & Hs0 & Hv0); [destruct cap as [c|]; [specialize (Hgr c); lia|done]|done..|].
    cbn [mbind outcome_bind]. eauto.
Qed.

(** ** Supported filters *)

(** A filter that takes a chunk of any length. *)
Definition byte_filter (f : Filter) : Prop :=
  filter_id f = FILTER_SHUFFLE ∨ filter_id f = FILTER_LZF ∨ filter_id f = FILTER_FLETCHER32 ∨
  (filter_id f = FILTER_DEFLATE ∧ feature_deflate = true ∧ ∃ level, deflate_level (filter_client_data f) = Ok level).

Hypothesis Hsize : 1 ≤ element_size ctx.

Lemma index_lookup (k : nat) f : filters !! k = Some f → Words.index filters (Z.of_nat k) = Ret f.
Proof. intros Hf. unfold Words.index. replace (Z.of_nat k <? 0) with false by lia. by rewrite Nat2Z.id, Hf. Qed.

Lemma byte_filter_round_trip (k : nat) f l :
  filters !! k = Some f → byte_filter f → Forall byte l → grow (filter_id f) (zlen l) < USIZE_MAX →
  round_trips filters ctx (Z.of_nat k) (filter_id f) l.
Proof.
  intros Hf%index_lookup Hbf Hl Hg. pose proof (grow_ge (filter_id f) (zlen l) (zlen_nonneg l)).
  destruct Hbf as [Hid|[Hid|[Hid|(Hid & Hfe & level & Hlv)]]]; rewrite Hid in *.
  - by apply (shuffle_round_trip _ _ _ f).
  - by apply (lzf_round_trip _ _ _ f); [..|lia].
  - by apply (fletcher_round_trip _ _ _ f).
  - by eapply (deflate_round_trip _ _ _ f).
Qed.

Lemma byte_filters_run (k : nat) l :
  (k ≤ length filters)%nat → Forall byte_filter (drop k filters) → Forall byte l →
  grown (drop k filters) (zlen l) < USIZE_MAX → ∃ l', run_of k l l'.
Proof.
  remember (length filters - k)%nat as n eqn:Hn. revert k Hn l. induction n as [|n IH]; intros k Hn l Hk Hbf Hl Hg.
  { exists l. replace k with (length filters) by lia. by apply run_done. }
  destruct (lookup_lt_is_Some_2 filters k) as [f Hf]; [lia|].
  rewrite (drop_S filters f k Hf) in Hbf, Hg. apply Forall_cons in Hbf as [Hf1 Hbf]. unfold grown in Hg. cbn [foldl] in Hg.
  fold (grown (drop (S k) filters) (grow (filter_id f) (zlen l))) in Hg.
  pose proof (grow_ge (filter_id f) (zlen l) (zlen_nonneg l)). pose proof (zlen_nonneg l).
  pose proof (grown_ge (drop (S k) filters) (grow (filter_id f) (zlen l)) ltac:(lia)).
  destruct (byte_filter_round_trip k f l Hf Hf1 Hl ltac:(lia)) as (l1 & Hb1 & Hz1 & Hmk & Hun).
  pose proof (grown_mono (drop (S k) filters) (zlen l1) (grow (filter_id f) (zlen l))).
  destruct (IH (S k) ltac:(lia) l1 ltac:(lia) Hbf Hb1) as [l' Hr]; [pose proof (zlen_nonneg l1); lia|].
  exists l'. by apply (run_step k f l l1); [..|lia|done|done|done].
Qed.

(** A lossless pipeline for chunks of [n] bytes: scale-offset in its integer mode for
    just such chunks, if at all first; then any filters of bytes. *)
Definition lossless_pipeline (n : Z) : Prop :=
  Forall byte_filter filters ∨
  ∃ f p sign fill, filters !! 0%nat = Some f ∧ filter_id f = FILTER_SCALEOFFSET ∧
    integer_parms (filter_client_data f) p sign fill ∧ n = nelmts p * size p ∧ 0 < nelmts p ∧
    bits_countable p ∧ Forall byte_filter (drop 1 filters).

Lemma lossless_run l :
  lossless_pipeline (zlen l) → Forall byte l → grown filters (zlen l) < USIZE_MAX → ∃ l', run_of 0 l l'.
Proof.
  intros Hp Hl Hg. destruct Hp as [Hp|(f & p & sign & fill & Hf & Hid & Hcd & Hz & Hn & Hfit & Hp)].
  { by apply byte_filters_run; [lia|..]. }
  pose proof (lookup_lt_Some _ _ _ Hf) as Hlen. pose proof (zlen_nonneg l).
  assert (filters = f :: drop 1 filters) as Hfs by (by destruct filters; simplify_eq/=; rewrite drop_0).
  rewrite Hfs in Hg. unfold grown in Hg. cbn [foldl] in Hg. fold (grown (drop 1 filters) (grow (filter_id f) (zlen l))) in Hg.
  rewrite Hid in Hg. assert (Hgr : grow FILTER_SCALEOFFSET (zlen l) = zlen l + 21) by done. rewrite Hgr in Hg.
  pose proof (grown_ge (drop 1 filters) (zlen l + 21) ltac:(lia)).
  destruct (scale_offset_round_trip filters ctx 0 f l (index_lookup 0 f Hf) Hl p sign fill)
    as (l1 & Hb1 & Hz1 & Hmk & Hun); try done; [lia|]. rewrite Hgr in Hz1.
  pose proof (grown_mono (drop 1 filters) (zlen l1) (zlen l + 21)). pose proof (zlen_nonneg l1).
  destruct (byte_filters_run 1 l1) as [l' Hr]; [lia|done|done|lia|].
  exists l'. apply (run_step 0 f l l1); try done; [rewrite Hid; lia|lia].
Qed.

End Chain.

(** ** Whole chunks *)

Lemma masked_new_ok filters bits :
  zlen filters ≤ FILTER_COUNT_MAX →
  masked_new filters bits = Ok {| masked_filters := filters; mask := {| recorded_mask := {| raw_bits := bits |}; count := zlen filters |} |}.
Proof.
  intros Hc. unfold masked_new, PipelineFilterMask.from_raw_bits. by replace (_ <? _) with false by lia.
Qed.

(** No position of the pipeline is recorded as skipped. *)
Definition nothing_skipped (filters : list Filter) (bits : Z) : Prop :=
  ∀ i, 0 ≤ i < zlen filters → Z.testbit bits i = false.

Lemma chunk_round_trip larger filters ctx data bits s1 s2 :
  1 ≤ element_size ctx → zlen filters ≤ FILTER_COUNT_MAX → Forall byte data →
  lossless_pipeline filters (zlen data) → grown filters (zlen data) < ISIZE_MAX →
  match expected_chunk_len ctx with Some n => n = zlen data | None => True end →
  nothing_skipped filters bits → encoder_ok s1 → encoder_ok s2 →
  ∃ stored s1' s2',
    compress_chunk_with s1 data filters ctx = Ret (Ok stored, s1') ∧ encoder_ok s1' ∧
    Forall byte stored ∧ zlen stored ≤ grown filters (zlen data) ∧
    decompress_chunk_with larger s2 stored filters ctx bits = Ret (Ok data, s2') ∧ encoder_ok s2'.
Proof.
  intros Hsz Hc Hb Hl Hg He Hns Hs1 Hs2. pose proof isize_bounds.
  destruct (lossless_run filters ctx Hsz data Hl Hb ltac:(lia)) as (stored & Hbs & Hzs & Henc & Hdec).
  rewrite drop_0 in Hzs. rewrite Nat.sub_0_r in Henc, Hdec.
  destruct (Henc s1 (borrowed data) Hs1 (views_borrowed data)) as (cur' & s1' & Hen & Hs1' & Hv').
  set (m := {| masked_filters := filters; mask := {| recorded_mask := {| raw_bits := bits |}; count := zlen filters |} |}).
  assert (Hp : ∀ b, nothing_skipped filters b →
    PipelineFilterMask.positions {| recorded_mask := {| raw_bits := b |}; count := zlen filters |} = unskipped 0 (length filters)).
  { intros b Hbn. rewrite positions_unskipped by done. unfold zlen. simpl. by rewrite Nat2Z.id. }
  assert (Hcap : ∃ cap, inner_output_cap m (expected_chunk_len ctx) (Z.of_nat 0) = Ret cap ∧
    match cap with Some c => zlen data ≤ c ∧ grown (drop 0 filters) c < ISIZE_MAX | None => True end).
  { unfold inner_output_cap. destruct (expected_chunk_len ctx) as [n|]; [|by exists None].
    exists (Some n). split; [done|]. rewrite drop_0. subst n. done. }
  destruct Hcap as (cap & Hcap & Hcl).
  destruct (Hdec m (expected_chunk_len ctx) cap s2 (borrowed stored) eq_refl (Hp bits Hns) Hcap Hcl Hs2 (views_borrowed stored))
    as (cur & s2' & Hde & Hs2' & Hv).
  exists stored, s1', s2'. split_and!; try done.
  - unfold compress_chunk_with. rewrite masked_new_ok by done. cbn [mask].
    rewrite Hp by (intros i _; apply Z.testbit_0_l). rewrite Hen. cbn [mbind outcome_bind].
    by rewrite (into_owned_spec _ _ Hv').
  - unfold decompress_chunk_with. rewrite masked_new_ok by done. fold m. cbv zeta.
    replace (PipelineFilterMask.positions (mask m)) with (unskipped 0 (length filters)) by (symmetry; by apply Hp).
    rewrite Hde. cbn [mbind outcome_bind]. pose proof Hv as Hv2. unfold views in Hv2. rewrite Hv2. cbn [mbind outcome_bind].
    rewrite (into_owned_spec _ _ Hv). cbn [mbind outcome_bind].
    destruct (expected_chunk_len ctx) as [n|]; [|done]. subst n. by rewrite Z.eqb_refl.
Qed.

End Runs.

(** ** Decoding untrusted chunks

    Decoding any stored bytes with any pipeline returns: a chunk of the expected length
    or an error, within the memory bounds computed for the stages, and leaves scratch
    state that the next chunk can use. *)

(** The type invariant of a buffer: bytes, and a live range within them. *)
Definition storage_ok (b : FilterBuffer) : Prop :=
  match b with
  | Borrowed bytes => Forall byte bytes
  | Owned bytes live_start live_end => Forall byte bytes ∧ 0 ≤ live_start ≤ live_end ∧ live_end ≤ zlen bytes
  end.

Lemma storage_views b : storage_ok b → ∃ l, views b l ∧ Forall byte l.
Proof.
  destruct b as [bytes|bytes s e]; cbn [storage_ok]; [by exists bytes|]. intros (Hb & Hse & He).
  destruct (get_range bytes s e) as [l|] eqn:E; [|apply get_range_None in E; lia].
  exists l. split; [by apply slice_Ret|]. by eapply get_range_Forall.
Qed.

Lemma storage_owned l : Forall byte l → storage_ok (FilterBuffer.owned l).
Proof. intros Hl. split; [done|]. pose proof (zlen_nonneg l). lia. Qed.

Lemma recycle_byte b spare : storage_ok b → Forall byte spare → Forall byte (FilterBuffer.recycle b spare).
Proof. destruct b; cbn; [done|by intros []]. Qed.

Lemma storage_narrow b l s e b' :
  storage_ok b → views b l → FilterBuffer.narrow b s e = ok b' → storage_ok b'.
Proof.
  unfold views, FilterBuffer.narrow. intros Hb Hv. rewrite Hv. cbn [mbind outcome_bind].
  destruct (get_range l s e) as [v|] eqn:E; [|done]. destruct b as [bytes|bytes ls le]; cbn [FilterBuffer.as_slice] in Hv.
  - injection Hv as ->. rewrite (proj2 (slice_Ret _ _ _ _) E). cbn [mbind outcome_bind]. intros [= <-].
    by eapply get_range_Forall.
  - intros [= <-]. destruct Hb as (Hb & Hr & He). apply slice_Ret in Hv. pose proof (get_range_zlen _ _ _ _ Hv).
    apply get_range_Some in E as (Hse & Hel & _). split; [done|lia].
Qed.

Lemma overwritten_byte w l w' :
  OutputWindow.overwritten w l = Ret w' → Forall byte (window_bytes w) → Forall byte l → Forall byte (window_bytes w').
Proof.
  unfold OutputWindow.overwritten, splice. intros Hw Hb Hl. destruct (get_range _ _ _); [|done].
  cbn in Hw. injection Hw as <-. cbn [window_bytes]. apply Forall_app_2; [done|by apply Forall_drop].
Qed.

Section Safety.
Context `{FB : FilterBuild} `{!Flate2Laws}.
Import FilterBuffer.

Definition buffer_ok (b : FilterBuffer) : Prop := storage_ok b ∧ ∃ l, views b l ∧ Forall byte l ∧ zlen l ≤ USIZE_MAX.

Lemma buffer_ok_intro b l : storage_ok b → views b l → zlen l ≤ USIZE_MAX → buffer_ok b.
Proof.
  intros Hb Hv Hz. split; [done|]. destruct (storage_views b Hb) as (l' & Hv' & Hl).
  assert (l' = l) as -> by (unfold views in *; congruence). eauto.
Qed.

Definition outcome_ok (r : result FilterBuffer FilterError) : Prop :=
  match r with Ok b => buffer_ok b | Err _ => True end.

Lemma overwrite_sound {X} b l spare (write : list Z → OutputWindow → outcome (result Z FilterError * OutputWindow * X)) :
  storage_ok b → views b l →
  write l {| window_bytes := spare; window_end := 0 |} ⇝ (λ '(r, w, _), Forall byte (window_bytes w) ∧
    match r with
    | Ok n => 0 ≤ n ≤ USIZE_MAX ∧ n ≤ window_end w ∧ window_end w ≤ zlen (window_bytes w)
    | Err _ => True
    end) →
  overwrite b spare write ⇝ (λ '(r, bytes, _), Forall byte bytes ∧ outcome_ok r).
Proof.
  intros Hb Hv ([[r w] x] & Hw & Hwb & Hr). unfold overwrite. unfold views in Hv. rewrite Hv. cbn [mbind outcome_bind].
  rewrite Hw. cbn [mbind outcome_bind]. destruct r as [n|e]; [|by apply returns_ret]. destruct Hr as (Hn & Hnw & Hwe).
  unfold OutputWindow.finish. destruct (window_end w <? n) eqn:E; [by apply returns_ret|].
  apply returns_ret. split; [by apply recycle_byte|]. unfold outcome_ok.
  apply (buffer_ok_intro _ (take (Z.to_nat n) (window_bytes w))).
  - cbn. split; [done|lia].
  - apply slice_Ret, get_range_0. lia.
  - rewrite zlen_take by lia. lia.
Qed.

(** What a stage leaves. *)
Definition stage_ok (s : FilterScratch) : result FilterBuffer FilterError * FilterScratch → Prop :=
  λ '(r, s'), Forall byte (spare s') ∧ encoder s' = encoder s ∧ outcome_ok r.

Lemma shuffle_stage_sound cur l esize scratch :
  storage_ok cur → views cur l → zlen l ≤ USIZE_MAX → 1 < esize → Forall byte (spare scratch) →
  shuffle_stage shuffle_decompress_into cur esize scratch ⇝ stage_ok scratch.
Proof.
  intros Hc Hv Hz He Hs. unfold shuffle_stage, with_spare. eapply returns_bind.
  - apply (overwrite_sound cur l); [done|done|]. set (w0 := {| window_bytes := spare scratch; window_end := 0 |}).
    destruct (storage_views cur Hc) as (l' & Hv' & Hl). assert (l' = l) as -> by (unfold views in *; congruence).
    destruct (resize_window w0 (zlen l) (zlen_nonneg l)) as (_ & _ & _ & sl & Hsl & Hslz & Hwr).
    rewrite Hsl. cbn [mbind outcome_bind].
    destruct (shuffle_decompress_spec l _ He sl Hslz) as (r & -> & Hr). cbn [mbind outcome_bind].
    destruct (Hwr r (proj1 Hr)) as (w' & Hw' & (Hh1 & Hh2 & _) & Hwe). rewrite Hw'. cbn [mbind outcome_bind].
    apply returns_ret. split.
    + eapply overwritten_byte; [done|by apply resize_byte|by eapply unshuffled_byte].
    + pose proof (zlen_nonneg l). lia.
  - intros [[r bytes] x] [Hb Hr]. by apply returns_ret.
Qed.

Lemma deflate_stage_sound cur l limit scratch :
  storage_ok cur → views cur l → zlen l ≤ USIZE_MAX → 0 ≤ limit < ISIZE_MAX → Forall byte (spare scratch) →
  FilterScratch.deflate_decompress scratch cur (Some limit) ⇝ stage_ok scratch.
Proof.
  intros Hc Hv Hz Hlim Hs. pose proof isize_bounds. unfold FilterScratch.deflate_decompress. destruct feature_deflate; [|by apply returns_ret].
  eapply returns_bind.
  - apply (overwrite_sound cur l); [done|done|]. rewrite zlib_decoder_new.
    destruct (storage_views cur Hc) as (l' & Hv' & Hl). assert (l' = l) as -> by (unfold views in *; congruence).
    eapply returns_mono; [by apply (deflate_decompress_into_sound l limit)|].
    intros [[r w] d] [Hw Hr]. split; [done|]. destruct r; [lia|done].
  - intros [[r bytes] d] [Hb Hr]. by apply returns_ret.
Qed.

(** Where the storage of a decoded scale-offset chunk comes from. *)
Lemma scale_offset_storage cur l cd cap sp b sp' :
  storage_ok cur → views cur l → Forall byte sp → decompress cur cd cap sp = ok (b, sp') → (∀ v, views b v → Forall byte v) →
  storage_ok b ∧ Forall byte sp'.
Proof.
  intros Hc Hv Hsp Hd Hb. unfold decompress in Hd. pose proof Hv as Hv'. unfold views in Hv'. rewrite Hv' in Hd.
  cbn [mbind outcome_bind] in Hd.
  assert (Hown : ∀ out, (b, sp') = replace cur sp out → storage_ok b ∧ Forall byte sp').
  { intros out [= -> ->]. split; [apply storage_owned, Hb, views_owned|by apply recycle_byte]. }
  repeat match type of Hd with
  | and_then _ _ = ok _ => apply and_then_ok_inv in Hd as (? & ? & Hd)
  | mbind _ ?m = ok _ => destruct m; cbn [mbind outcome_bind] in Hd; [|discriminate]
  | (if ?c then _ else _) = ok _ => destruct c; try discriminate
  | context [decompress_payload] => unfold decompress_payload in Hd
  | match ?c with Some _ => _ | None => _ end = ok _ => destruct c; try discriminate
  | ok (_, _) = ok _ => injection Hd as <- <-; split; [first [done|by eapply storage_narrow]|done]
  end; cbv zeta in Hd; injection Hd as Hd1 Hd2; eapply Hown; unfold replace; by rewrite Hd1, Hd2.
Qed.

Lemma scale_offset_sound cur l cd limit scratch :
  storage_ok cur → views cur l → Forall byte l → zlen l ≤ USIZE_MAX → 0 ≤ limit < USIZE_MAX → 8 * limit ≤ USIZE_MAX →
  Forall byte (spare scratch) → Forall u32 cd →
  scale_offset_stage scratch (decompress cur cd (Some limit) (spare scratch)) ⇝ stage_ok scratch.
Proof.
  intros Hc Hv Hl Hz Hlim H8 Hs Hcd.
  destruct (scale_offset_decompress_sound cur cd l (Some limit) (spare scratch) Hv Hl Hcd) as (r & Hr & Hd).
  { intros p Hparse Hcap. pose proof (sound_eq _ _ _ (parse_sound cd Hcd) Hparse) as [(? & ? & _) _]. unfold bits_countable. lia. }
  unfold scale_offset_stage. rewrite Hr. cbn [mbind outcome_bind]. destruct r as [[b sp']|e]; [|by apply returns_ret].
  destruct Hd as (out & p & Hvb & Hob & _ & Hcap & Hout).
  destruct (scale_offset_storage cur l cd (Some limit) (spare scratch) b sp' Hc Hv Hs Hr) as [Hb Hsp].
  { intros v Hv'. assert (v = out) as -> by (unfold views in *; congruence). done. }
  apply returns_ret. split_and!; [done|done|]. apply (buffer_ok_intro b out); [done|done|].
  destruct Hout as [Hout|[-> _]]; lia.
Qed.

(** ** Bounds of the stages *)

(** With a scale-offset filter the bits of the largest stage are counted in a [usize]. *)
Definition bits_bounded (filters : list Filter) (n : Z) : Prop :=
  Forall (λ f, filter_id f = FILTER_SCALEOFFSET → 8 * grown filters n ≤ USIZE_MAX) filters.

Section Pipeline.
Context (m : MaskedFilters) (ctx : ChunkContext) (n : Z).
Let filters := masked_filters m.
Hypothesis Hn : 0 ≤ n.
Hypothesis Hg : grown filters n < ISIZE_MAX.
Hypothesis Hbits : bits_bounded filters n.
Hypothesis Hsize : 1 ≤ element_size ctx.
Hypothesis Hcd : Forall (λ f, Forall u32 (filter_client_data f)) filters.

(** The bound of any part of the pipeline is below that of the whole. *)
Lemma forward_output_le (bit : Z → bool) (k j : nat) a :
  (k + j ≤ length filters)%nat → 0 ≤ a → grown (drop k filters) a < USIZE_MAX →
  forward_output m ((λ index, (index, bit index)) <$> (Z.of_nat <$> seq k j)) a ⇝ (λ c, 0 ≤ c ≤ grown (drop k filters) a).
Proof.
  revert k a. induction j as [|j IH]; intros k a Hk Ha Hga.
  { apply returns_ret. pose proof (grown_ge (drop k filters) a Ha). lia. }
  destruct (lookup_lt_is_Some_2 filters k) as [f Hf]; [lia|].
  rewrite (drop_S filters f k Hf) in Hga |- *.
  change (grown (f :: drop (S k) filters) a) with (grown (drop (S k) filters) (grow (filter_id f) a)) in Hga |- *.
  pose proof (grow_ge (filter_id f) a Ha) as Hge. pose proof (grown_mono (drop (S k) filters) a (grow (filter_id f) a)).
  pose proof (grown_ge (drop (S k) filters) (grow (filter_id f) a) ltac:(lia)).
  cbn [seq fmap list_fmap forward_output]. destruct (bit (Z.of_nat k)); cbn [mbind outcome_bind].
  - eapply returns_mono; [apply IH; lia|]. intros c [? ?]. split; lia.
  - rewrite (max_forward_grow m (Z.of_nat k) f) by (try apply index_lookup; (done || lia)).
    cbn [mbind outcome_bind]. rewrite Z.min_l by lia. apply IH; lia.
Qed.

Hypothesis Hcount : count (mask m) = zlen filters.

Lemma inner_output_cap_sound (i : nat) :
  (i < length filters)%nat → ∃ c, inner_output_cap m (Some n) (Z.of_nat i) = Ret (Some c) ∧ 0 ≤ c ≤ grown filters n.
Proof.
  intros Hi. unfold inner_output_cap, PipelineFilterMask.positions. rewrite Hcount, Nat2Z.id, <- !fmap_take.
  unfold zlen. rewrite Nat2Z.id, take_seq, Nat.min_l by lia.
  destruct (forward_output_le (PipelineFilterMask.skip_bit (mask m)) 0 i n) as (c & -> & Hc);
    [lia|lia|rewrite drop_0; pose proof isize_bounds; lia|]. rewrite drop_0 in Hc.
  cbn [mbind outcome_bind]. eauto.
Qed.

Lemma decode_filter_sound scratch (i : nat) cur :
  (i < length filters)%nat → buffer_ok cur → Forall byte (spare scratch) →
  decode_filter m (Some n) ctx scratch (Z.of_nat i) cur ⇝ stage_ok scratch.
Proof.
  intros Hi [Hc (l & Hv & Hl & Hz)] Hs. destruct (lookup_lt_is_Some_2 filters i Hi) as [f Hf].
  unfold decode_filter. fold filters. rewrite (index_lookup _ _ _ Hf). cbn [mbind outcome_bind].
  destruct (inner_output_cap_sound i Hi) as (c & Hcap & Hcb). rewrite Hcap.
  pose proof (Forall_lookup_1 _ _ _ _ Hcd Hf) as Hu. pose proof (Forall_lookup_1 _ _ _ _ Hbits Hf) as H8. pose proof isize_bounds.
  assert (Hb : buffer_ok cur) by (by apply (buffer_ok_intro cur l)).
  destruct (filter_id f =? FILTER_SHUFFLE).
  { destruct (element_size ctx =? 1) eqn:E; [by apply returns_ret|]. apply (shuffle_stage_sound _ l); (done || lia). }
  destruct (filter_id f =? FILTER_DEFLATE); [apply (deflate_stage_sound _ l); (done || lia)|].
  destruct (filter_id f =? FILTER_LZF).
  { cbn [mbind outcome_bind]. rewrite (materialize_spec _ _ _ _ Hv).
    destruct (decompress_into_sound l (Some c) Hl (proj1 Hcb)) as ([out r] & -> & Ho & Hoz). cbn in Hoz.
    cbn [mbind outcome_bind]. apply returns_ret. destruct r as [[]|e]; split_and!; try done.
    - by apply recycle_byte.
    - apply (buffer_ok_intro _ out); [by apply storage_owned|apply views_owned|lia]. }
  destruct (filter_id f =? FILTER_FLETCHER32).
  { pose proof Hv as Hv'. unfold views in Hv'. rewrite Hv'. cbn [mbind outcome_bind]. rewrite fletcher32_verify_cases by done.
    destruct (zlen l <? 4) eqn:E4; [by apply returns_ret|]. cbv zeta. destruct (_ =? _); [|by apply returns_ret].
    unfold ok. cbn [mbind outcome_bind]. pose proof (narrow_spec cur l 0 (zlen (take (length l - 4) l)) Hv) as Hnr.
    destruct (get_range l 0 _) as [v|] eqn:Eg; [|rewrite Hnr; by apply returns_ret].
    destruct Hnr as (b & Hnb & Hvb). rewrite Hnb. unfold ok. cbn [mbind outcome_bind]. apply returns_ret.
    split_and!; [done|done|]. apply (buffer_ok_intro b v); [by eapply storage_narrow|done|].
    pose proof (get_range_zlen _ _ _ _ Eg). apply get_range_Some in Eg. lia. }
  destruct (filter_id f =? FILTER_SCALEOFFSET) eqn:Eso; [|by apply returns_ret].
  cbn [mbind outcome_bind]. apply Z.eqb_eq in Eso. specialize (H8 Eso). apply (scale_offset_sound _ l); (done || lia).
Qed.

Lemma decode_filters_sound positions scratch cur :
  Forall (λ '(i, _), ∃ k, i = Z.of_nat k ∧ (k < length filters)%nat) positions →
  buffer_ok cur → Forall byte (spare scratch) →
  decode_filters m (Some n) ctx scratch positions cur ⇝ stage_ok scratch.
Proof.
  revert scratch cur. induction positions as [|[i skipped] positions IH]; intros scratch cur Hp Hc Hs; [by apply returns_ret|].
  apply Forall_cons in Hp as [(k & -> & Hk) Hp]. cbn [decode_filters]. destruct skipped; [by apply IH|].
  eapply returns_bind; [by apply decode_filter_sound|]. intros [[b|e] s'] (Hs' & He & Hb); [|by apply returns_ret].
  eapply returns_mono; [by apply IH|]. intros [r s''] (Hs'' & He' & Hr). split_and!; [done|congruence|done].
Qed.

End Pipeline.

(** Scratch state between chunks. *)
Definition scratch_ok (s : FilterScratch) : Prop := Forall byte (spare s) ∧ encoder_ok s.

Lemma decompress_chunk_sound larger s stored filters ctx bits n :
  scratch_ok s → Forall byte stored → zlen stored ≤ USIZE_MAX → 1 ≤ element_size ctx →
  Forall (λ f, Forall u32 (filter_client_data f)) filters →
  expected_chunk_len ctx = Some n → 0 ≤ n → grown filters n < ISIZE_MAX → bits_bounded filters n →
  decompress_chunk_with larger s stored filters ctx bits ⇝ (λ '(r, s'), scratch_ok s' ∧
    match r with Ok data => Forall byte data ∧ zlen data = n | Err _ => True end).
Proof.
  intros [Hsp Hen] Hst Hz Hes Hcd He Hn Hg H8. unfold decompress_chunk_with.
  destruct (decide (zlen filters ≤ FILTER_COUNT_MAX)) as [Hc|Hc].
  2:{ unfold masked_new, PipelineFilterMask.from_raw_bits. replace (FILTER_COUNT_MAX <? zlen filters) with true by lia.
      by apply returns_ret. }
  rewrite masked_new_ok by done. set (m := {| masked_filters := filters; mask := _ |}). cbv zeta. rewrite He.
  eapply returns_bind.
  { apply (decode_filters_sound m ctx n); try done.
    - apply Forall_reverse, Forall_lookup_2. intros i [j skipped] Hj. rewrite positions_lookup in Hj.
      case_decide as Hd; [|done]. injection Hj as <- _. exists i. cbn [m mask count] in Hd. unfold zlen in Hd.
      split; [done|]. cbn. lia.
    - apply (buffer_ok_intro _ stored); [done|apply views_borrowed|done]. }
  intros [r s'] (Hs' & Hee & Hr).
  assert (Hok : scratch_ok s') by (split; [done|]; unfold encoder_ok in *; by rewrite Hee).
  destruct r as [b|e]; [|by apply returns_ret]. destruct Hr as [Hb (l & Hv & Hl & Hlz)].
  pose proof Hv as Hv'. unfold views in Hv'. rewrite Hv'. cbn [mbind outcome_bind].
  destruct (zlen l =? n) eqn:E; cbn [negb].
  - rewrite (into_owned_spec _ _ Hv). cbn [mbind outcome_bind]. apply returns_ret. split; [done|]. split; [done|lia].
  - apply returns_ret. split; [|done]. split; [|by apply encoder_ok_spare, Hok]. cbn [FilterScratch.set_spare spare].
    unfold recycle_larger. destruct b as [bytes|bytes ls le]; [done|]. destruct (larger bytes (spare s')); [apply Hb|done].
Qed.

End Safety.
