(* ===== verification/Utf8.v ===== *)
(** * Strings as bytes

    A [&str] is the list of its bytes.  The functions of the standard library the
    format crate uses of it: [core::str::from_utf8], [String::from_utf8_lossy],
    [is_ascii], and the position of the first NUL byte.  No file of the program is
    modelled here. *)

From S2P Require Import Prelude Addresses Words.

Local Open Scope Z_scope.

Definition between (lo hi b : Z) : bool := (lo <=? b) && (b <=? hi).

(** A continuation byte. *)
Definition cont (b : Z) : bool := between 0x80 0xBF b.

(** The second byte a leading byte of three or four admits: no surrogates, no overlong
    forms, nothing above U+10FFFF. *)
Definition second (a b : Z) : bool :=
  if a =? 0xE0 then between 0xA0 0xBF b
  else if a =? 0xED then between 0x80 0x9F b
  else if a =? 0xF0 then between 0x90 0xBF b
  else if a =? 0xF4 then between 0x80 0x8F b
  else cont b.

(** The character the bytes start with: its length, or the [error_len] of the failure,
    which is [None] at the end of the input. *)
Definition utf8_char (l : list Z) : result nat (option Z) :=
  match l with
  | [] => Err None
  | a :: l =>
    if between 0 0x7F a then Ok 1%nat
    else if between 0xC2 0xDF a then
      match l with
      | [] => Err None
      | b :: _ => if cont b then Ok 2%nat else Err (Some 1)
      end
    else if between 0xE0 0xEF a then
      match l with
      | [] => Err None
      | b :: l =>
        if second a b then
          match l with
          | [] => Err None
          | c :: _ => if cont c then Ok 3%nat else Err (Some 2)
          end
        else Err (Some 1)
      end
    else if between 0xF0 0xF4 a then
      match l with
      | [] => Err None
      | b :: l =>
        if second a b then
          match l with
          | [] => Err None
          | c :: l =>
            if cont c then
              match l with
              | [] => Err None
              | d :: _ => if cont d then Ok 4%nat else Err (Some 3)
              end
            else Err (Some 2)
          end
        else Err (Some 1)
      end
    else Err (Some 1)
  end.

(** Each turn consumes a byte at least, so the length of the input is enough fuel. *)
Fixpoint utf8_loop (fuel : nat) (pos : Z) (l : list Z) : option Utf8Error :=
  match fuel, l with
  | S fuel, _ :: _ =>
    match utf8_char l with
    | Ok n => utf8_loop fuel (pos + Z.of_nat n) (drop n l)
    | Err e => Some (mkUtf8Error pos e)
    end
  | _, _ => None
  end.

(** [core::str::from_utf8] *)
Definition from_utf8 (l : list Z) : result (list Z) Utf8Error :=
  match utf8_loop (length l) 0 l with None => Ok l | Some e => Err e end.

Definition utf8_valid (l : list Z) : bool :=
  match from_utf8 l with Ok _ => true | Err _ => false end.

(** U+FFFD *)
Definition REPLACEMENT : list Z := [0xEF; 0xBF; 0xBD].

Fixpoint lossy_loop (fuel : nat) (l : list Z) : list Z :=
  match fuel, l with
  | S fuel, _ :: _ =>
    match utf8_char l with
    | Ok n => take n l ++ lossy_loop fuel (drop n l)
    | Err (Some n) => REPLACEMENT ++ lossy_loop fuel (drop (Z.to_nat n) l)
    | Err None => REPLACEMENT
    end
  | _, _ => []
  end.

(** [String::from_utf8_lossy]: each maximal part of an ill-formed sequence becomes one
    replacement character. *)
Definition from_utf8_lossy (l : list Z) : list Z := lossy_loop (length l) l.

(** [str::is_ascii] *)
Definition is_ascii (l : list Z) : bool := forallb (between 0 0x7F) l.

(** [str::contains] of the NUL character, and [bytes.contains(&0)] *)
Definition contains_nul (l : list Z) : bool := existsb (Z.eqb 0) l.

(** [bytes.iter().position(|&byte| byte == 0)] *)
Fixpoint nul_position (l : list Z) : option Z :=
  match l with
  | [] => None
  | b :: l => if b =? 0 then Some 0 else (Z.add 1) <$> nul_position l
  end.

(** ** Lemmas *)

(** ASCII text is valid UTF-8. *)
Lemma ascii_utf8 l : is_ascii l = true → utf8_valid l = true.
Proof.
  unfold utf8_valid, from_utf8. generalize 0 as pos. induction l as [|b l IH]; intros pos Ha; [done|].
  cbn [is_ascii forallb] in Ha. apply andb_true_iff in Ha as [Hb Hl].
  cbn [length utf8_loop utf8_char]. rewrite Hb. specialize (IH (pos + Z.of_nat 1) Hl).
  cbn [drop]. by destruct (utf8_loop _ _ _).
Qed.

Lemma ascii_bytes l : is_ascii l = true → Forall byte l.
Proof.
  induction l as [|b l IH]; [done|]. cbn [is_ascii forallb]. unfold between.
  intros [H1 H2]%andb_true_iff. constructor; [unfold byte; lia|auto].
Qed.

Lemma utf8_char_length l n : utf8_char l = Ok n → (1 ≤ n ≤ length l)%nat.
Proof.
  destruct l as [|a [|b [|c [|d l]]]]; cbn [utf8_char];
    repeat match goal with |- context [if ?b then _ else _] => destruct b end;
    intros [= <-]; simpl; lia.
Qed.

Lemma lossy_of_valid fuel pos l :
  (length l ≤ fuel)%nat → utf8_loop fuel pos l = None → lossy_loop fuel l = l.
Proof.
  revert pos l. induction fuel as [|fuel IH]; intros pos l Hl Hv.
  - destruct l; [done|simpl in Hl; lia].
  - destruct l as [|a l]; [done|]. cbn [utf8_loop lossy_loop] in *.
    destruct (utf8_char (a :: l)) as [n|e] eqn:E; [|done].
    apply utf8_char_length in E. rewrite (IH (pos + Z.of_nat n)); [apply take_drop| |done].
    rewrite length_drop. simpl in *. lia.
Qed.

(** A valid string is kept as it is. *)
Lemma from_utf8_lossy_valid l : utf8_valid l = true → from_utf8_lossy l = l.
Proof.
  unfold utf8_valid, from_utf8, from_utf8_lossy. destruct (utf8_loop _ _ _) eqn:E; [done|].
  intros _. by apply (lossy_of_valid _ 0).
Qed.

Lemma from_utf8_valid l : utf8_valid l = true → from_utf8 l = Ok l.
Proof. unfold utf8_valid, from_utf8. by destruct (utf8_loop _ _ _). Qed.

Lemma from_utf8_Ok l s : from_utf8 l = Ok s → s = l ∧ utf8_valid l = true.
Proof. unfold utf8_valid. unfold from_utf8 at 1. destruct (utf8_loop _ _ _) eqn:E; [done|]. intros [= <-]. unfold from_utf8. by rewrite E. Qed.

(** The terminator of text without NUL bytes is where the text ends. *)
Lemma nul_position_text l r : contains_nul l = false → nul_position (l ++ 0 :: r) = Some (zlen l).
Proof.
  induction l as [|b l IH]; [done|]. cbn [contains_nul existsb app nul_position].
  intros [H1 H2]%orb_false_iff. rewrite Z.eqb_sym, H1. rewrite IH by done. simpl.
  by rewrite zlen_cons.
Qed.

(** The position of the first NUL byte splits the bytes there. *)
Lemma nul_position_Some l n :
  nul_position l = Some n →
  ∃ t r, l = t ++ 0 :: r ∧ contains_nul t = false ∧ zlen t = n.
Proof.
  revert n. induction l as [|b l IH]; intros n; [done|]. cbn [nul_position].
  destruct (b =? 0) eqn:E.
  - intros [= <-]. apply Z.eqb_eq in E as ->. by exists [], l.
  - intros H. destruct (nul_position l) as [m|] eqn:Hm; [|done]. simpl in H. injection H as <-.
    destruct (IH m eq_refl) as (t & r & -> & Ht & <-). exists (b :: t), r.
    split_and!; [done| |by rewrite zlen_cons].
    cbn [contains_nul existsb]. by rewrite Z.eqb_sym, E.
Qed.

Lemma nul_position_None l : nul_position l = None → contains_nul l = false.
Proof.
  induction l as [|b l IH]; [done|]. cbn [nul_position contains_nul existsb]. rewrite (Z.eqb_sym 0).
  destruct (b =? 0); [done|]. destruct (nul_position l); [done|]. by intros _; apply IH.
Qed.

(** Whether text is valid does not depend on the fuel or the position reported. *)
Lemma utf8_loop_fuel f1 f2 p1 p2 l :
  (length l ≤ f1)%nat → (length l ≤ f2)%nat → utf8_loop f1 p1 l = None → utf8_loop f2 p2 l = None.
Proof.
  revert f2 p1 p2 l. induction f1 as [|f1 IH]; intros f2 p1 p2 l H1 H2 Hv.
  - destruct l; [by destruct f2|simpl in H1; lia].
  - destruct l as [|a l]; [by destruct f2|]. destruct f2 as [|f2]; [simpl in H2; lia|]. cbn [utf8_loop] in *.
    destruct (utf8_char (a :: l)) as [n|e] eqn:E; [|done]. apply utf8_char_length in E.
    apply (IH f2 (p1 + Z.of_nat n)); [rewrite length_drop; simpl in *; lia..|done].
Qed.

Lemma utf8_valid_loop l : utf8_valid l = true ↔ utf8_loop (length l) 0 l = None.
Proof. unfold utf8_valid, from_utf8. by destruct (utf8_loop _ _ _). Qed.

(** A whole character is recognised by its own bytes. *)
Lemma utf8_char_take l n r : utf8_char l = Ok n → utf8_char (take n l ++ r) = Ok n.
Proof.
  destruct l as [|a l]; [done|]. cbn [utf8_char].
  destruct (between 0 127 a) eqn:E1; [intros [= <-]; cbn [take app utf8_char]; by rewrite E1|].
  destruct (between 194 223 a) eqn:E2.
  { destruct l as [|b l]; [done|]. destruct (cont b) eqn:Eb; [|done]. intros [= <-].
    cbn [take app utf8_char]. by rewrite E1, E2, Eb. }
  destruct (between 224 239 a) eqn:E3.
  { destruct l as [|b l]; [done|]. destruct (second a b) eqn:Eb; [|done]. destruct l as [|c l]; [done|].
    destruct (cont c) eqn:Ec; [|done]. intros [= <-]. cbn [take app utf8_char]. by rewrite E1, E2, E3, Eb, Ec. }
  destruct (between 240 244 a) eqn:E4; [|done]. destruct l as [|b l]; [done|]. destruct (second a b) eqn:Eb; [|done].
  destruct l as [|c l]; [done|]. destruct (cont c) eqn:Ec; [|done]. destruct l as [|d l]; [done|].
  destruct (cont d) eqn:Ed; [|done]. intros [= <-]. cbn [take app utf8_char]. by rewrite E1, E2, E3, E4, Eb, Ec, Ed.
Qed.

Lemma utf8_valid_char c n r :
  (length c = n)%nat → utf8_char (c ++ r) = Ok n → utf8_valid r = true → utf8_valid (c ++ r) = true.
Proof.
  rewrite !utf8_valid_loop. intros Hc Hch Hr. pose proof (utf8_char_length _ _ Hch).
  destruct (c ++ r) as [|b l] eqn:E; [done|]. cbn [length utf8_loop]. rewrite Hch, <- E.
  rewrite drop_app_length' by done. apply (utf8_loop_fuel (length r) _ 0); [done| |done].
  apply (f_equal length) in E. rewrite length_app in E. simpl in E. lia.
Qed.

(** What [from_utf8_lossy] returns is a string, and it adds no NUL byte. *)
Lemma from_utf8_lossy_utf8 l : utf8_valid (from_utf8_lossy l) = true.
Proof.
  unfold from_utf8_lossy. generalize (length l) as fuel. intros fuel. revert l.
  induction fuel as [|fuel IH]; intros l; [done|]. cbn [lossy_loop]. destruct l as [|a l]; [done|].
  destruct (utf8_char (a :: l)) as [n|[n|]] eqn:E; [|by apply (utf8_valid_char REPLACEMENT 3)|done].
  apply (utf8_valid_char _ n); [|by apply utf8_char_take|apply IH].
  apply utf8_char_length in E. rewrite length_take. lia.
Qed.

Lemma contains_nul_app l r : contains_nul (l ++ r) = contains_nul l || contains_nul r.
Proof. apply existsb_app. Qed.

Lemma from_utf8_lossy_nul l : contains_nul l = false → contains_nul (from_utf8_lossy l) = false.
Proof.
  unfold from_utf8_lossy. generalize (length l) as fuel. intros fuel. revert l.
  induction fuel as [|fuel IH]; intros l Hn; [done|]. cbn [lossy_loop]. destruct l as [|a l]; [done|].
  assert (Hd : ∀ n, contains_nul (take n (a :: l)) = false ∧ contains_nul (drop n (a :: l)) = false)
    by (intros n; rewrite <- (take_drop n (a :: l)), contains_nul_app in Hn; by apply orb_false_iff in Hn).
  destruct (utf8_char (a :: l)) as [n|[n|]]; [..|done]; rewrite contains_nul_app; apply orb_false_iff;
    (split; [by apply Hd || done|apply IH, Hd]).
Qed.

Module Utf8Tests.

(** "é€😀" is valid; a lone continuation byte, a surrogate and a cut character are not. *)
Example valid_text : utf8_valid [0xC3; 0xA9; 0xE2; 0x82; 0xAC; 0xF0; 0x9F; 0x98; 0x80] = true.
Proof. vm_compute. reflexivity. Qed.

Example invalid_text :
  from_utf8 [65; 0xED; 0xA0; 0x80] = Err (mkUtf8Error 1 (Some 1)) ∧
  from_utf8 [65; 0xE2; 0x82] = Err (mkUtf8Error 1 None) ∧
  from_utf8_lossy [65; 0xF0; 0x9F; 66; 0x80] = [65] ++ REPLACEMENT ++ [66] ++ REPLACEMENT.
Proof. vm_compute. auto. Qed.

End Utf8Tests.
