(* ===== verification/FilterMessages.v ===== *)
(** * The Filter Pipeline message

    Models [crates/hdf5-pure-format/src/filter_pipeline.rs]: the descriptions of the
    filters of a dataset, their writers and parsers in versions 1 and 2, and the
    coding of filter names.  A name is the list of its bytes ([Utf8]). *)

From stdpp Require Import strings.
From S2P Require Import Prelude Addresses Words ByteFields ByteFieldFacts FilterMasks Utf8.

Local Open Scope string_scope.
Local Open Scope Z_scope.

Definition VERSION_ONE : Z := 1.
Definition VERSION_TWO : Z := 2.
Definition PREDEFINED_FILTER_LIMIT : Z := 256.
Definition VERSION_ONE_HEADER_SIZE : Z := 8.
Definition VERSION_TWO_HEADER_SIZE : Z := 2.
Definition VERSION_ONE_FILTER_HEADER_SIZE : Z := 8.
Definition VERSION_TWO_FILTER_ID_SIZE : Z := 2.
Definition VERSION_TWO_FILTER_FIELDS_SIZE : Z := 4.
Definition VERSION_ONE_RESERVED_SIZE : nat := 6.
Definition NAME_ALIGNMENT : Z := 8.
Definition CLIENT_DATA_VALUE_SIZE : Z := 4.
Definition FIELD_LENGTH_MAX : Z := 65535.
Definition FILTER_FLAG_OPTIONAL : Z := 0x0001.

Record FilterDescription : Type := mkFilterDescription {
  desc_filter_id : Z;
  desc_name : option (list Z);
  desc_flags : Z;
  desc_client_data : list Z;
}.

Record FilterPipeline : Type := mkFilterPipeline {
  pipeline_version : Z;
  pipeline_filters : list FilterDescription;
}.

Inductive FilterPipelineError : Type :=
| FieldTooLarge (field : string) (value maximum : Z)
| Format (error : FormatError)
| InvalidName (filter_id : Z) (reason : string).

#[global] Instance FilterDescription_eq_dec : EqDecision FilterDescription.
Proof. solve_decision. Defined.

#[global] Instance FilterPipeline_eq_dec : EqDecision FilterPipeline.
Proof. solve_decision. Defined.

#[global] Instance FilterPipelineError_eq_dec : EqDecision FilterPipelineError.
Proof. solve_decision. Defined.

Notation piped A := (outcome (result A FilterPipelineError)).

(** [?] on a [FormatError], which [From] converts. *)
Definition from_format {A} (r : result A FormatError) : result A FilterPipelineError :=
  match r with Ok a => Ok a | Err e => Err (Format e) end.

Definition is_optional (f : FilterDescription) : bool :=
  negb (Z.land (desc_flags f) FILTER_FLAG_OPTIONAL =? 0).

(** ** Lengths and names *)

Definition field_length (field : string) (value maximum : Z) : result Z FilterPipelineError :=
  if maximum <? value then Err (FieldTooLarge field value maximum) else Ok (value mod 2 ^ 16).

(** [usize::next_multiple_of], for a value far below [usize::MAX]. *)
Definition next_multiple_of (a b : Z) : Z := if a mod b =? 0 then a else a + (b - a mod b).

Definition parse_name (bytes : list Z) (filter_id version : Z) : result (list Z) FilterPipelineError :=
  if (version =? VERSION_ONE) && negb (is_multiple_of (zlen bytes) NAME_ALIGNMENT) then
    Err (InvalidName filter_id "name length is not a multiple of eight")
  else
    match nul_position bytes with
    | None => Err (InvalidName filter_id "missing null terminator")
    | Some terminator =>
      if (version =? VERSION_ONE)
         && existsb (λ b, negb (b =? 0)) (drop (Z.to_nat terminator) bytes) then
        Err (InvalidName filter_id "nonzero byte after null terminator")
      else if (version =? VERSION_TWO) && negb (terminator + 1 =? zlen bytes) then
        Err (InvalidName filter_id "bytes after null terminator")
      else
        let name := take (Z.to_nat terminator) bytes in
        if negb (utf8_valid name) then Err (InvalidName filter_id "invalid UTF-8")
        else if negb (is_ascii name) then Err (InvalidName filter_id "non-ASCII name")
        else Ok name
    end.

Definition encoded_name (name : option (list Z)) (filter_id version : Z)
    : result (list Z) FilterPipelineError :=
  match name with
  | None => Ok []
  | Some name =>
    if negb (is_ascii name) || contains_nul name then
      Err (InvalidName filter_id "name must be ASCII without null bytes")
    else
      let length :=
        if version =? VERSION_ONE then next_multiple_of (zlen name + 1) NAME_ALIGNMENT
        else zlen name + 1 in
      result_bind (field_length "filter name length" length FIELD_LENGTH_MAX) (λ _,
      Ok (vec_resize name (Z.to_nat length) 0))
  end.

(** ** Writers *)

(** [for &val in &f.client_data { buf.extend_from_slice(&val.to_le_bytes()) }] *)
Fixpoint write_client_data (buf : list Z) (vals : list Z) : list Z :=
  match vals with
  | [] => buf
  | val :: vals => write_client_data (buf ++ le_bytes 4 val)%list vals
  end.

Definition write_filter_v1 (buf : list Z) (f : FilterDescription) : result (list Z) FilterPipelineError :=
  let buf := (buf ++ le_bytes 2 (desc_filter_id f))%list in
  result_bind (encoded_name (desc_name f) (desc_filter_id f) VERSION_ONE) (λ name_bytes,
  result_bind (field_length "filter name length" (zlen name_bytes) FIELD_LENGTH_MAX) (λ name_length,
  let buf := (buf ++ le_bytes 2 name_length)%list in
  let buf := (buf ++ le_bytes 2 (desc_flags f))%list in
  result_bind (field_length "client data count" (zlen (desc_client_data f)) FIELD_LENGTH_MAX)
    (λ client_count,
  let buf := (buf ++ le_bytes 2 client_count)%list in
  let buf := (buf ++ name_bytes)%list in
  let buf := write_client_data buf (desc_client_data f) in
  Ok (if negb (zlen (desc_client_data f) mod 2 =? 0)
      then (buf ++ replicate (Z.to_nat CLIENT_DATA_VALUE_SIZE) 0)%list else buf)))).

Definition write_filter_v2 (buf : list Z) (f : FilterDescription) : result (list Z) FilterPipelineError :=
  let buf := (buf ++ le_bytes 2 (desc_filter_id f))%list in
  result_bind
    (if PREDEFINED_FILTER_LIMIT <=? desc_filter_id f then
       result_bind (encoded_name (desc_name f) (desc_filter_id f) VERSION_TWO) (λ name_bytes,
       result_bind (field_length "filter name length" (zlen name_bytes) FIELD_LENGTH_MAX)
         (λ name_length,
       let buf := (buf ++ le_bytes 2 name_length)%list in
       let buf := (buf ++ le_bytes 2 (desc_flags f))%list in
       result_bind (field_length "client data count" (zlen (desc_client_data f)) FIELD_LENGTH_MAX)
         (λ client_count,
       let buf := (buf ++ le_bytes 2 client_count)%list in
       Ok (buf ++ name_bytes)%list)))
     else
       match desc_name f with
       | Some _ =>
         Err (InvalidName (desc_filter_id f) "predefined filters have no name field in version 2")
       | None =>
         let buf := (buf ++ le_bytes 2 (desc_flags f))%list in
         result_bind (field_length "client data count" (zlen (desc_client_data f)) FIELD_LENGTH_MAX)
           (λ client_count, Ok (buf ++ le_bytes 2 client_count)%list)
       end)
    (λ buf, Ok (write_client_data buf (desc_client_data f))).

(** [for f in &self.filters], with the body of one version. *)
Fixpoint write_filters (write : list Z → FilterDescription → result (list Z) FilterPipelineError)
    (buf : list Z) (fs : list FilterDescription) : result (list Z) FilterPipelineError :=
  match fs with
  | [] => Ok buf
  | f :: fs => result_bind (write buf f) (λ buf, write_filters write buf fs)
  end.

Definition serialize_v1 (p : FilterPipeline) : result (list Z) FilterPipelineError :=
  let buf := [VERSION_ONE; zlen (pipeline_filters p) mod 2 ^ 8] in
  let buf := (buf ++ replicate VERSION_ONE_RESERVED_SIZE 0)%list in
  write_filters write_filter_v1 buf (pipeline_filters p).

Definition serialize_v2 (p : FilterPipeline) : result (list Z) FilterPipelineError :=
  let buf := [VERSION_TWO; zlen (pipeline_filters p) mod 2 ^ 8] in
  write_filters write_filter_v2 buf (pipeline_filters p).

Definition serialize (p : FilterPipeline) : result (list Z) FilterPipelineError :=
  result_bind (field_length "filter count" (zlen (pipeline_filters p)) FILTER_COUNT_MAX) (λ _,
  if pipeline_version p =? VERSION_ONE then serialize_v1 p
  else if pipeline_version p =? VERSION_TWO then serialize_v2 p
  else Err (Format (InvalidFilterPipelineVersion (pipeline_version p)))).

(** ** Parsers *)

Section Parsers.
Context `{B : Build}.

Fixpoint read_client_data (n : nat) (data : list Z) (pos : Z) : outcome (list Z * Z) :=
  match n with
  | O => Ret ([], pos)
  | S n =>
    val ← u32_at data pos;
    '(vals, pos) ← read_client_data n data (pos + 4);
    Ret (val :: vals, pos)
  end.

Definition read_name (data : list Z) (pos name_length filter_id version : Z)
    : piped (option (list Z) * Z) :=
  if 0 <? name_length then
    try_ (from_format (ensure_len data pos name_length)) (λ _,
    name_bytes ← slice data pos (pos + name_length);
    try_ (parse_name name_bytes filter_id version) (λ name_str,
    ok (Some name_str, pos + name_length)))
  else ok (None, pos).

(** The client data are bounds-checked as a whole. *)
Definition read_values (data : list Z) (pos num_client_data : Z) : piped (list Z * Z) :=
  try_ (from_format (ensure_len data pos (num_client_data * CLIENT_DATA_VALUE_SIZE))) (λ _,
  Ok <$> read_client_data (Z.to_nat num_client_data) data pos).

Definition parse_filter_v1 (data : list Z) (pos : Z) : piped (FilterDescription * Z) :=
  try_ (from_format (ensure_len data pos VERSION_ONE_FILTER_HEADER_SIZE)) (λ _,
  filter_id ← u16_at data pos;
  name_length ← u16_at data (pos + 2);
  flags ← u16_at data (pos + 4);
  num_client_data ← u16_at data (pos + 6);
  let pos := pos + VERSION_ONE_FILTER_HEADER_SIZE in
  '(name, pos) ←? read_name data pos name_length filter_id VERSION_ONE;
  '(client_data, pos) ←? read_values data pos num_client_data;
  pos ←?
    (if negb (is_multiple_of num_client_data 2) then
       try_ (from_format (ensure_len data pos CLIENT_DATA_VALUE_SIZE)) (λ _,
       ok (pos + CLIENT_DATA_VALUE_SIZE))
     else ok pos);
  ok (mkFilterDescription filter_id name flags client_data, pos)).

Definition parse_filter_v2 (data : list Z) (pos : Z) : piped (FilterDescription * Z) :=
  try_ (from_format (ensure_len data pos VERSION_TWO_FILTER_ID_SIZE)) (λ _,
  filter_id ← u16_at data pos;
  let pos := pos + VERSION_TWO_FILTER_ID_SIZE in
  '(name_length, pos) ←?
    (if PREDEFINED_FILTER_LIMIT <=? filter_id then
       try_ (from_format (ensure_len data pos VERSION_TWO_FILTER_ID_SIZE)) (λ _,
       nl ← u16_at data pos;
       ok (nl, pos + VERSION_TWO_FILTER_ID_SIZE))
     else ok (0, pos));
  try_ (from_format (ensure_len data pos VERSION_TWO_FILTER_FIELDS_SIZE)) (λ _,
  flags ← u16_at data pos;
  num_client_data ← u16_at data (pos + 2);
  let pos := pos + VERSION_TWO_FILTER_FIELDS_SIZE in
  '(name, pos) ←? read_name data pos name_length filter_id VERSION_TWO;
  '(client_data, pos) ←? read_values data pos num_client_data;
  ok (mkFilterDescription filter_id name flags client_data, pos))).

(** [for _ in 0..number_of_filters], with the body of one version. *)
Fixpoint parse_filters (parse_filter : Z → piped (FilterDescription * Z)) (n : nat) (pos : Z)
    : piped (list FilterDescription) :=
  match n with
  | O => ok []
  | S n =>
    '(f, pos) ←? parse_filter pos;
    fs ←? parse_filters parse_filter n pos;
    ok (f :: fs)
  end.

Definition parse_v1 (data : list Z) (number_of_filters : Z) : piped FilterPipeline :=
  try_ (from_format (ensure_len data 0 VERSION_ONE_HEADER_SIZE)) (λ _,
  filters ←? parse_filters (parse_filter_v1 data) (Z.to_nat number_of_filters) VERSION_ONE_HEADER_SIZE;
  ok (mkFilterPipeline VERSION_ONE filters)).

Definition parse_v2 (data : list Z) (number_of_filters : Z) : piped FilterPipeline :=
  filters ←? parse_filters (parse_filter_v2 data) (Z.to_nat number_of_filters) VERSION_TWO_HEADER_SIZE;
  ok (mkFilterPipeline VERSION_TWO filters).

Definition parse (data : list Z) : piped FilterPipeline :=
  try_ (from_format (ensure_len data 0 VERSION_TWO_HEADER_SIZE)) (λ _,
  version ← index data 0;
  number_of_filters ← index data 1;
  try_ (field_length "filter count" number_of_filters FILTER_COUNT_MAX) (λ _,
  if version =? VERSION_ONE then parse_v1 data number_of_filters
  else if version =? VERSION_TWO then parse_v2 data number_of_filters
  else fail (Format (InvalidFilterPipelineVersion version)))).

End Parsers.

Module FilterMessageTests.
#[local] Existing Instance build64.

Definition deflate : FilterDescription := mkFilterDescription 1 (Some [100; 101]) 1 [6].
Definition custom : FilterDescription := mkFilterDescription 32000 (Some []) 0 [4; 2 ^ 32 - 1].

Example v1_runs :
  match serialize (mkFilterPipeline 1 [deflate; custom]) with
  | Ok b => parse (b ++ [7])%list | Err e => fail e end
  = ok (mkFilterPipeline 1 [deflate; custom]).
Proof. vm_compute. reflexivity. Qed.

Example v2_runs :
  match serialize (mkFilterPipeline 2 [custom]) with
  | Ok b => parse b | Err e => fail e end
  = ok (mkFilterPipeline 2 [custom]).
Proof. vm_compute. reflexivity. Qed.

(** The limits of the fields and names are enforced. *)
Example v2_names : serialize (mkFilterPipeline 2 [deflate])
  = Err (InvalidName 1 "predefined filters have no name field in version 2").
Proof. vm_compute. reflexivity. Qed.

End FilterMessageTests.

(** ** Facts about the Filter Pipeline message

    The writers produce [filter_bytes] exactly on the descriptions a version can hold
    ([desc_writable]), the parsers read them back, and what they return of arbitrary
    bytes is again a description the writers accept. *)

Local Open Scope list_scope.
Local Open Scope Z_scope.

(** ** What the fields hold *)

(** The values are values of their Rust types. *)
Definition desc_typed (f : FilterDescription) : Prop :=
  fits 2 (desc_filter_id f) ∧ fits 2 (desc_flags f) ∧ Forall (fits 4) (desc_client_data f).

Definition name_size (version : Z) (name : list Z) : Z :=
  if version =? VERSION_ONE then next_multiple_of (zlen name + 1) NAME_ALIGNMENT else zlen name + 1.

(** The bytes of the name field: the name, its terminator and the padding of version 1. *)
Definition name_field (version : Z) (name : option (list Z)) : list Z :=
  match name with
  | None => []
  | Some name => name ++ replicate (Z.to_nat (name_size version name - zlen name)) 0
  end.

Definition name_writable (version : Z) (name : option (list Z)) : Prop :=
  match name with
  | None => True
  | Some name =>
    is_ascii name = true ∧ contains_nul name = false ∧ name_size version name ≤ FIELD_LENGTH_MAX
  end.

Definition named (version : Z) (f : FilterDescription) : bool :=
  (version =? VERSION_ONE) || (PREDEFINED_FILTER_LIMIT <=? desc_filter_id f).

(** What a version can store: a count in 16 bits and, where there is a name field, an
    ASCII name that fits it. *)
Definition desc_writable (version : Z) (f : FilterDescription) : Prop :=
  name_writable version (desc_name f) ∧ zlen (desc_client_data f) ≤ FIELD_LENGTH_MAX ∧
  (named version f = false → desc_name f = None).

Definition values_bytes (vals : list Z) : list Z := concat (le_bytes 4 <$> vals).

Definition odd_padding (n : Z) : list Z := if n mod 2 =? 0 then [] else replicate 4 0.

Definition filter_bytes (version : Z) (f : FilterDescription) : list Z :=
  let name := name_field version (desc_name f) in
  le_bytes 2 (desc_filter_id f)
  ++ (if named version f then le_bytes 2 (zlen name) else [])
  ++ le_bytes 2 (desc_flags f) ++ le_bytes 2 (zlen (desc_client_data f))
  ++ name ++ values_bytes (desc_client_data f)
  ++ (if version =? VERSION_ONE then odd_padding (zlen (desc_client_data f)) else []).

Definition pipeline_typed (p : FilterPipeline) : Prop := Forall desc_typed (pipeline_filters p).

Definition pipeline_writable (p : FilterPipeline) : Prop :=
  (pipeline_version p = VERSION_ONE ∨ pipeline_version p = VERSION_TWO) ∧
  zlen (pipeline_filters p) ≤ FILTER_COUNT_MAX ∧
  Forall (desc_writable (pipeline_version p)) (pipeline_filters p).

Definition header_bytes (p : FilterPipeline) : list Z :=
  [pipeline_version p; zlen (pipeline_filters p)]
  ++ (if pipeline_version p =? VERSION_ONE then replicate VERSION_ONE_RESERVED_SIZE 0 else []).

Definition pipeline_bytes (p : FilterPipeline) : list Z :=
  header_bytes p ++ concat (filter_bytes (pipeline_version p) <$> pipeline_filters p).

(** ** Lengths *)

Lemma next_multiple_bounds a : 0 ≤ a → a ≤ next_multiple_of a 8 < a + 8 ∧ next_multiple_of a 8 mod 8 = 0.
Proof.
  intros Ha. unfold next_multiple_of. destruct (a mod 8 =? 0) eqn:E; [lia|].
  pose proof (Z.mod_pos_bound a 8). split; [lia|].
  replace (a + (8 - a mod 8)) with ((a / 8 + 1) * 8) by (pose proof (Z.div_mod a 8); lia).
  apply Z.mod_mul. lia.
Qed.

Lemma name_size_bounds version name : zlen name + 1 ≤ name_size version name < zlen name + 9.
Proof.
  pose proof (zlen_nonneg name). unfold name_size, NAME_ALIGNMENT. destruct (_ =? _); [|lia].
  pose proof (next_multiple_bounds (zlen name + 1)). lia.
Qed.

Lemma zlen_name_field version name :
  zlen (name_field version name) = match name with None => 0 | Some name => name_size version name end.
Proof.
  destruct name as [name|]; [|done]. simpl. rewrite zlen_app, zlen_replicate.
  pose proof (name_size_bounds version name). lia.
Qed.

Lemma field_length_ok s v m : 0 ≤ v ≤ m → m ≤ 65535 → field_length s v m = Ok v.
Proof.
  intros Hv Hm. unfold field_length. replace (m <? v) with false by lia.
  by rewrite Z.mod_small by lia.
Qed.

Lemma field_length_err s v m : m < v → field_length s v m = Err (FieldTooLarge s v m).
Proof. intros Hv. unfold field_length. by replace (m <? v) with true by lia. Qed.

Lemma zlen_values vals : zlen (values_bytes vals) = 4 * zlen vals.
Proof.
  unfold values_bytes. induction vals as [|v vals IH]; [done|].
  rewrite fmap_cons, concat_cons, zlen_app, IH, zlen_le_bytes, zlen_cons. lia.
Qed.

(** ** Writers *)

Lemma encoded_name_cases name filter_id version :
  (name_writable version name ∧ encoded_name name filter_id version = Ok (name_field version name)) ∨
  (¬ name_writable version name ∧ ∃ e, encoded_name name filter_id version = Err e).
Proof.
  destruct name as [name|]; [|by left]. unfold encoded_name, name_writable. fold (name_size version name).
  destruct (is_ascii name) eqn:Ha; [|right; split; [naive_solver|by eexists]].
  destruct (contains_nul name) eqn:Hn; [right; split; [naive_solver|by eexists]|].
  pose proof (name_size_bounds version name) as Hb. pose proof (zlen_nonneg name). simpl.
  destruct (Z.le_gt_cases (name_size version name) FIELD_LENGTH_MAX) as [Hle|Hgt].
  - left. split; [done|]. rewrite field_length_ok by (unfold FIELD_LENGTH_MAX in *; lia). simpl. f_equal.
    unfold vec_resize. rewrite take_ge by (unfold zlen in *; lia). do 2 f_equal. unfold zlen. lia.
  - right. split; [lia|]. rewrite field_length_err by done. by eexists.
Qed.

Lemma write_client_data_eq buf vals : write_client_data buf vals = buf ++ values_bytes vals.
Proof.
  unfold values_bytes. revert buf. induction vals as [|v vals IH]; intros buf; simpl; [by rewrite app_nil_r|].
  by rewrite IH, <- app_assoc.
Qed.

Lemma write_filter_v1_cases buf f :
  (desc_writable VERSION_ONE f ∧ write_filter_v1 buf f = Ok (buf ++ filter_bytes VERSION_ONE f)) ∨
  (¬ desc_writable VERSION_ONE f ∧ ∃ e, write_filter_v1 buf f = Err e).
Proof.
  unfold write_filter_v1, desc_writable.
  destruct (encoded_name_cases (desc_name f) (desc_filter_id f) VERSION_ONE) as [[Hn ->]|[Hn [e ->]]];
    [|right; split; [tauto|by eexists]].
  cbn [result_bind]. rewrite field_length_ok; [|split; [apply zlen_nonneg|]|done].
  2:{ rewrite zlen_name_field. destruct (desc_name f); [apply Hn|done]. }
  cbn [result_bind]. pose proof (zlen_nonneg (desc_client_data f)).
  destruct (Z.le_gt_cases (zlen (desc_client_data f)) FIELD_LENGTH_MAX) as [Hle|Hgt].
  - left. split; [done|]. rewrite field_length_ok by (unfold FIELD_LENGTH_MAX in *; lia).
    cbn [result_bind]. rewrite write_client_data_eq. unfold filter_bytes, odd_padding.
    change (VERSION_ONE =? VERSION_ONE) with true. cbn [named orb]. cbv iota.
    destruct (_ mod 2 =? 0); cbn [negb]; f_equal; by rewrite <- ?app_assoc, ?app_nil_r.
  - right. split; [lia|]. rewrite field_length_err by done. by eexists.
Qed.

Lemma write_filter_v2_cases buf f :
  (desc_writable VERSION_TWO f ∧ write_filter_v2 buf f = Ok (buf ++ filter_bytes VERSION_TWO f)) ∨
  (¬ desc_writable VERSION_TWO f ∧ ∃ e, write_filter_v2 buf f = Err e).
Proof.
  unfold write_filter_v2, desc_writable, named, filter_bytes, named.
  change (VERSION_TWO =? VERSION_ONE) with false. cbn [orb].
  pose proof (zlen_nonneg (desc_client_data f)).
  destruct (PREDEFINED_FILTER_LIMIT <=? desc_filter_id f) eqn:Hid.
  - destruct (encoded_name_cases (desc_name f) (desc_filter_id f) VERSION_TWO) as [[Hn ->]|[Hn [e ->]]];
      [|right; split; [tauto|by eexists]].
    cbn [result_bind]. rewrite field_length_ok; [|split; [apply zlen_nonneg|]|done].
    2:{ rewrite zlen_name_field. destruct (desc_name f); [apply Hn|done]. }
    cbn [result_bind].
    destruct (Z.le_gt_cases (zlen (desc_client_data f)) FIELD_LENGTH_MAX) as [Hle|Hgt].
    + left. split; [done|]. rewrite field_length_ok by (unfold FIELD_LENGTH_MAX in *; lia).
      cbn [result_bind]. rewrite write_client_data_eq. f_equal. by rewrite <- ?app_assoc, ?app_nil_r.
    + right. split; [lia|]. rewrite field_length_err by done. by eexists.
  - destruct (desc_name f) as [name|]; [right; split; [naive_solver|by eexists]|].
    destruct (Z.le_gt_cases (zlen (desc_client_data f)) FIELD_LENGTH_MAX) as [Hle|Hgt].
    + left. split; [done|]. rewrite field_length_ok by (unfold FIELD_LENGTH_MAX in *; lia).
      cbn [result_bind]. rewrite write_client_data_eq. f_equal. by rewrite <- ?app_assoc, ?app_nil_r.
    + right. split; [lia|]. rewrite field_length_err by done. by eexists.
Qed.

Lemma write_filters_cases write version :
  (∀ buf f, (desc_writable version f ∧ write buf f = Ok (buf ++ filter_bytes version f)) ∨
            (¬ desc_writable version f ∧ ∃ e, write buf f = Err e)) →
  ∀ fs buf,
  (Forall (desc_writable version) fs ∧
   write_filters write buf fs = Ok (buf ++ concat (filter_bytes version <$> fs))) ∨
  (¬ Forall (desc_writable version) fs ∧ ∃ e, write_filters write buf fs = Err e).
Proof.
  intros Hw fs. induction fs as [|f fs IH]; intros buf; simpl; [left; by rewrite app_nil_r|].
  destruct (Hw buf f) as [[Hf ->]|[Hf [e ->]]]; simpl.
  - destruct (IH (buf ++ filter_bytes version f)) as [[Hfs ->]|[Hfs [e ->]]].
    + left. split; [by constructor|by rewrite <- app_assoc].
    + right. split; [by inversion 1|by eexists].
  - right. split; [by inversion 1|by eexists].
Qed.

(** The writer succeeds exactly on writable pipelines. *)
Lemma serialize_cases p :
  (pipeline_writable p ∧ serialize p = Ok (pipeline_bytes p)) ∨
  (¬ pipeline_writable p ∧ ∃ e, serialize p = Err e).
Proof.
  unfold serialize, pipeline_writable. pose proof (zlen_nonneg (pipeline_filters p)) as Hnn.
  destruct (Z.le_gt_cases (zlen (pipeline_filters p)) FILTER_COUNT_MAX) as [Hle|Hgt].
  2:{ right. split; [lia|]. rewrite field_length_err by done. by eexists. }
  rewrite field_length_ok by (unfold FILTER_COUNT_MAX in *; lia). cbn [result_bind].
  unfold pipeline_bytes, header_bytes.
  destruct (pipeline_version p =? VERSION_ONE) eqn:E1.
  - apply Z.eqb_eq in E1. unfold serialize_v1. rewrite Z.mod_small by (unfold FILTER_COUNT_MAX in *; lia).
    rewrite E1. destruct (write_filters_cases _ _ write_filter_v1_cases (pipeline_filters p)
      ([VERSION_ONE; zlen (pipeline_filters p)] ++ replicate VERSION_ONE_RESERVED_SIZE 0))
      as [[Hf ->]|[Hf [e ->]]];
      [left; split; [tauto|by rewrite <- app_assoc]|right; split; [tauto|by eexists]].
  - destruct (pipeline_version p =? VERSION_TWO) eqn:E2.
    + apply Z.eqb_eq in E2. unfold serialize_v2. rewrite Z.mod_small by (unfold FILTER_COUNT_MAX in *; lia).
      rewrite E2. destruct (write_filters_cases _ _ write_filter_v2_cases (pipeline_filters p)
        [VERSION_TWO; zlen (pipeline_filters p)]) as [[Hf ->]|[Hf [e ->]]];
        [left; tauto|right; split; [tauto|by eexists]].
    + right. split; [lia|by eexists].
Qed.

(** ** Names *)

(** A stored name field is parsed back. *)
Lemma parse_name_field version name filter_id :
  version = VERSION_ONE ∨ version = VERSION_TWO → name_writable version (Some name) →
  parse_name (name_field version (Some name)) filter_id version = Ok name.
Proof.
  intros Hver (Ha & Hn & Hs). unfold parse_name.
  pose proof (name_size_bounds version name) as Hb. pose proof (zlen_nonneg name).
  pose proof (zlen_name_field version (Some name)) as Hz. cbv iota in Hz.
  assert (Hf : name_field version (Some name)
               = name ++ 0 :: replicate (Z.to_nat (name_size version name - zlen name) - 1) 0).
  { simpl. f_equal. by replace (Z.to_nat (name_size version name - zlen name))
      with (S (Z.to_nat (name_size version name - zlen name) - 1)) at 1 by lia. }
  rewrite Hz. replace (_ && negb (is_multiple_of _ _)) with false.
  2:{ destruct Hver as [-> | ->]; [|done]. simpl. unfold is_multiple_of, NAME_ALIGNMENT, name_size.
      pose proof (next_multiple_bounds (zlen name + 1)). unfold NAME_ALIGNMENT. simpl. lia. }
  rewrite Hf, nul_position_text by done.
  replace (Z.to_nat (zlen name)) with (length name) by (unfold zlen; lia).
  rewrite drop_app_length, take_app_length, (ascii_utf8 _ Ha), Ha. cbn [negb].
  replace (existsb _ _) with false; [rewrite andb_false_r|].
  - destruct Hver as [-> | ->]; [done|]. unfold name_size. simpl.
    by rewrite Z.eqb_refl.
  - symmetry. cbn [existsb]. simpl. generalize (Z.to_nat (name_size version name - zlen name) - 1)%nat as k.
    intros k. induction k as [|k IH]; [done|]. simpl. exact IH.
Qed.

(** A parsed name can be stored again. *)
Lemma parse_name_writable bytes filter_id version name :
  version = VERSION_ONE ∨ version = VERSION_TWO → zlen bytes ≤ FIELD_LENGTH_MAX →
  parse_name bytes filter_id version = Ok name → name_writable version (Some name).
Proof.
  intros Hver Hl. unfold parse_name. destruct (_ && negb (is_multiple_of _ _)) eqn:Em; [done|].
  destruct (nul_position bytes) as [t|] eqn:Et; [|done].
  destruct (_ && existsb _ _); [done|]. destruct (_ && negb (t + 1 =? _)) eqn:E2; [done|].
  destruct (negb (utf8_valid _)); [done|]. destruct (is_ascii (take _ _)) eqn:Ea; [|done].
  simpl. intros [= <-]. apply nul_position_Some in Et as (txt & r & -> & Htxt & <-).
  replace (Z.to_nat (zlen txt)) with (length txt) in * by (unfold zlen; lia).
  rewrite take_app_length in *. split_and!; [done|done|].
  rewrite zlen_app, zlen_cons in *. pose proof (zlen_nonneg r). pose proof (zlen_nonneg txt).
  unfold name_size. destruct Hver as [-> | ->]; simpl in *; [|lia].
  apply negb_false_iff, is_multiple_of_true in Em; [|done]. unfold NAME_ALIGNMENT in *.
  pose proof (next_multiple_bounds (zlen txt + 1)) as Hn.
  destruct (Z.le_gt_cases (next_multiple_of (zlen txt + 1) 8) (zlen txt + (1 + zlen r))) as [?|Hgt]; [lia|].
  pose proof (multiple_le_of_lt _ _ 8 ltac:(lia) Em (proj2 (Hn ltac:(lia))) ltac:(lia)). lia.
Qed.

(** ** Parsers *)

Section Parsers.
Context `{B : Build}.
Context (data : list Z) (Hdata : zlen data ≤ USIZE_MAX).

Lemma read_client_data_ok vals pos r :
  bytes_at data pos (values_bytes vals ++ r) → Forall (fits 4) vals →
  read_client_data (length vals) data pos = Ret (vals, pos + 4 * zlen vals).
Proof.
  intros Hat Hf. revert pos Hat. induction Hf as [|v vals Hv Hf IH]; intros pos Hat.
  - simpl. by rewrite Z.add_0_r.
  - unfold values_bytes in Hat. rewrite fmap_cons, concat_cons, <- app_assoc in Hat.
    cbn [read_client_data length]. unfold u32_at. rewrite (word_at data pos 4 v _ Hat Hv). cbn [mbind outcome_bind].
    apply (bytes_at_skip _ _ _ _ 4) in Hat; [|by rewrite zlen_le_bytes].
    rewrite (IH _ Hat). cbn [mbind outcome_bind]. rewrite zlen_cons. do 2 f_equal. lia.
Qed.

Lemma read_client_data_within n pos :
  Forall byte data → 0 ≤ pos → pos + 4 * Z.of_nat n ≤ zlen data →
  read_client_data n data pos
  ⇝ (λ '(vals, pos'), length vals = n ∧ Forall (fits 4) vals ∧ pos' = pos + 4 * Z.of_nat n).
Proof.
  intros Hb. revert pos. induction n as [|n IH]; intros pos Hp Hn; cbn [read_client_data].
  - exists ([], pos). split_and!; [done|done|done|lia].
  - destruct (word_within data pos 4 Hb Hp ltac:(lia)) as (v & Hv & Hf).
    unfold u32_at. rewrite Hv. cbn [mbind outcome_bind].
    destruct (IH (pos + 4) ltac:(lia) ltac:(lia)) as ([vals pos'] & -> & Hl & Hfs & ->).
    exists (v :: vals, pos + 4 + 4 * Z.of_nat n). split_and!; [done|simpl; lia|by constructor|lia].
Qed.

Lemma read_values_ok vals pos r :
  bytes_at data pos (values_bytes vals ++ r) → Forall (fits 4) vals →
  read_values data pos (zlen vals) = ok (vals, pos + 4 * zlen vals).
Proof.
  intros Hat Hf. unfold read_values, CLIENT_DATA_VALUE_SIZE.
  rewrite (ensure_len_at _ _ _ _ _ Hdata Hat) by (rewrite zlen_values; lia).
  cbn [from_format try_]. unfold zlen at 1. rewrite Nat2Z.id.
  by rewrite (read_client_data_ok _ _ _ Hat Hf).
Qed.

Lemma read_values_sound pos n :
  Forall byte data → 0 ≤ pos → 0 ≤ n →
  read_values data pos n ⇝? (λ '(vals, pos'), zlen vals = n ∧ Forall (fits 4) vals ∧ 0 ≤ pos').
Proof.
  intros Hb Hp Hn. unfold read_values, CLIENT_DATA_VALUE_SIZE.
  destruct (ensure_len_cases data pos (n * 4) Hdata) as [[-> Hle]|[e ->]]; [|apply sound_fail].
  cbn [from_format try_].
  destruct (read_client_data_within (Z.to_nat n) pos Hb Hp ltac:(lia)) as ([vals pos'] & -> & Hl & Hf & ->).
  apply sound_ok. split_and!; [unfold zlen; lia|done|lia].
Qed.

Lemma read_name_ok version name filter_id pos r :
  version = VERSION_ONE ∨ version = VERSION_TWO → name_writable version name →
  bytes_at data pos (name_field version name ++ r) →
  read_name data pos (zlen (name_field version name)) filter_id version
  = ok (name, pos + zlen (name_field version name)).
Proof.
  intros Hver Hw Hat. unfold read_name. destruct name as [name|]; [|simpl; by rewrite Z.add_0_r].
  pose proof (name_size_bounds version name). pose proof (zlen_nonneg name).
  rewrite (zlen_name_field version (Some name)). replace (0 <? _) with true by lia.
  rewrite (ensure_len_at _ _ _ _ _ Hdata Hat) by apply zlen_name_field. cbn [from_format try_].
  apply (bytes_at_app _ _ _ _ (name_size version name)) in Hat as [Hg _]; [|apply zlen_name_field].
  unfold slice. rewrite Hg. cbn [expect mbind outcome_bind]. by rewrite parse_name_field.
Qed.

Lemma filter_name_sound version name_length filter_id pos :
  version = VERSION_ONE ∨ version = VERSION_TWO → 0 ≤ pos → name_length ≤ FIELD_LENGTH_MAX →
  read_name data pos name_length filter_id version
  ⇝? (λ '(name, pos'), name_writable version name ∧ 0 ≤ pos' ∧ (name_length ≤ 0 → name = None)).
Proof.
  intros Hver Hp Hl. unfold read_name. destruct (0 <? name_length) eqn:E; [|by apply sound_ok].
  destruct (ensure_len_cases data pos name_length Hdata) as [[-> Hle]|[e ->]]; [|apply sound_fail].
  cbn [from_format try_]. unfold slice. destruct (get_range _ _ _) as [s|] eqn:Eg.
  - cbn [expect mbind outcome_bind]. destruct (parse_name s filter_id version) as [name|e] eqn:En;
      [|apply sound_fail]. apply sound_ok. split_and!; [|lia|lia].
    apply (parse_name_writable s filter_id); [done| |done]. rewrite (get_range_zlen _ _ _ _ Eg). lia.
  - apply get_range_None in Eg. lia.
Qed.

(** What a parser makes of one description at a position. *)
Definition reads_filter (version : Z) (parse_filter : Z → piped (FilterDescription * Z)) : Prop :=
  ∀ f pos r, desc_typed f → desc_writable version f → bytes_at data pos (filter_bytes version f ++ r) →
  parse_filter pos = ok (f, pos + zlen (filter_bytes version f)).

Definition safe_filter (version : Z) (parse_filter : Z → piped (FilterDescription * Z)) : Prop :=
  ∀ pos, 0 ≤ pos →
  parse_filter pos ⇝? (λ '(f, pos'), desc_typed f ∧ desc_writable version f ∧ 0 ≤ pos').

Lemma count_fits n : 0 ≤ n ≤ FIELD_LENGTH_MAX → fits 2 n.
Proof. unfold fits, FIELD_LENGTH_MAX. lia. Qed.

Lemma name_count_fits version name : name_writable version name → fits 2 (zlen (name_field version name)).
Proof.
  intros Hw. apply count_fits. split; [apply zlen_nonneg|]. rewrite zlen_name_field.
  destruct name; [apply Hw|done].
Qed.

Lemma fits2_max n : fits 2 n → 0 ≤ n ≤ FIELD_LENGTH_MAX.
Proof. unfold fits, FIELD_LENGTH_MAX. lia. Qed.

(** The lengths and the layout of a description, with the header of version 1 in front. *)
Lemma filter_bytes_v1 f :
  filter_bytes VERSION_ONE f
  = (le_bytes 2 (desc_filter_id f) ++ le_bytes 2 (zlen (name_field VERSION_ONE (desc_name f)))
     ++ le_bytes 2 (desc_flags f) ++ le_bytes 2 (zlen (desc_client_data f)))
    ++ name_field VERSION_ONE (desc_name f) ++ values_bytes (desc_client_data f)
    ++ odd_padding (zlen (desc_client_data f)).
Proof. unfold filter_bytes. by rewrite <- !app_assoc. Qed.

Lemma odd_padding_ok pos n r :
  bytes_at data pos (odd_padding n ++ r) →
  (if negb (is_multiple_of n 2)
   then try_ (from_format (ensure_len data pos CLIENT_DATA_VALUE_SIZE)) (λ _, ok (pos + CLIENT_DATA_VALUE_SIZE))
   else ok pos) = ok (pos + zlen (odd_padding n)).
Proof.
  intros Hat. unfold odd_padding, is_multiple_of, CLIENT_DATA_VALUE_SIZE in *. change (2 =? 0) with false.
  cbv iota. destruct (n mod 2 =? 0); cbn [negb].
  - change (zlen []) with 0. by rewrite Z.add_0_r.
  - by rewrite (ensure_len_at _ _ _ _ _ Hdata Hat).
Qed.

Lemma parse_filter_v1_reads : reads_filter VERSION_ONE (parse_filter_v1 data).
Proof.
  intros f pos r (Hid & Hfl & Hvals) (Hn & Hc & _) Hat.
  pose proof (conj (zlen_nonneg (desc_client_data f)) Hc) as Hc2%count_fits.
  assert (Hz : zlen (filter_bytes VERSION_ONE f) = 8 + zlen (name_field VERSION_ONE (desc_name f))
    + 4 * zlen (desc_client_data f) + zlen (odd_padding (zlen (desc_client_data f)))).
  { rewrite filter_bytes_v1, !zlen_app, !zlen_le_bytes, zlen_values. lia. }
  rewrite Hz. rewrite filter_bytes_v1, <- app_assoc in Hat.
  unfold parse_filter_v1, VERSION_ONE_FILTER_HEADER_SIZE.
  rewrite (ensure_len_at _ _ _ _ _ Hdata Hat) by (by rewrite !zlen_app, !zlen_le_bytes).
  cbn [from_format try_]. rewrite <- !app_assoc in Hat.
  apply u16_next in Hat as [-> Hat]; [|done]. cbn [mbind outcome_bind].
  apply u16_next in Hat as [-> Hat]; [|by apply name_count_fits]. cbn [mbind outcome_bind].
  rewrite <- Z.add_assoc in Hat. change (2 + 2) with 4 in Hat.
  apply u16_next in Hat as [-> Hat]; [|done]. cbn [mbind outcome_bind].
  rewrite <- Z.add_assoc in Hat. change (4 + 2) with 6 in Hat.
  apply u16_next in Hat as [-> Hat]; [|done]. cbn [mbind outcome_bind].
  rewrite <- Z.add_assoc in Hat. change (6 + 2) with 8 in Hat. cbv zeta.
  rewrite (read_name_ok VERSION_ONE _ _ _ _ (or_introl eq_refl) Hn Hat), and_then_ok.
  apply bytes_at_skip with (n := zlen (name_field VERSION_ONE (desc_name f))) in Hat; [|done].
  rewrite (read_values_ok _ _ _ Hat Hvals), and_then_ok.
  apply (bytes_at_skip _ _ _ _ (4 * zlen (desc_client_data f))) in Hat; [|apply zlen_values].
  rewrite (odd_padding_ok _ _ _ Hat), and_then_ok. rewrite !Z.add_assoc. by destruct f.
Qed.

Lemma parse_filter_v2_reads : reads_filter VERSION_TWO (parse_filter_v2 data).
Proof.
  intros f pos r (Hid & Hfl & Hvals) (Hn & Hc & Hnone) Hat.
  pose proof (conj (zlen_nonneg (desc_client_data f)) Hc) as Hc2%count_fits.
  set (named_field := if named VERSION_TWO f
     then le_bytes 2 (zlen (name_field VERSION_TWO (desc_name f))) else []).
  assert (Hz : zlen (filter_bytes VERSION_TWO f) = 6 + zlen named_field
    + zlen (name_field VERSION_TWO (desc_name f)) + 4 * zlen (desc_client_data f)).
  { unfold filter_bytes. rewrite !zlen_app, !zlen_le_bytes, zlen_values. fold named_field.
    change (zlen (if VERSION_TWO =? VERSION_ONE then _ else [])) with 0. lia. }
  rewrite Hz. unfold filter_bytes in Hat. fold named_field in Hat. rewrite <- !app_assoc in Hat.
  unfold parse_filter_v2, VERSION_TWO_FILTER_ID_SIZE, VERSION_TWO_FILTER_FIELDS_SIZE.
  rewrite (ensure_len_at _ _ _ _ _ Hdata Hat) by done. cbn [from_format try_].
  apply u16_next in Hat as [-> Hat]; [|done]. cbn [mbind outcome_bind].
  assert (Hlen : (if PREDEFINED_FILTER_LIMIT <=? desc_filter_id f then
       try_ (from_format (ensure_len data (pos + 2) 2)) (λ _,
       nl ← u16_at data (pos + 2); ok (nl, pos + 2 + 2)) else ok (0, pos + 2))
     = ok (E := FilterPipelineError)
         (zlen (name_field VERSION_TWO (desc_name f)), pos + 2 + zlen named_field)).
  { unfold named, named_field in *. change (VERSION_TWO =? VERSION_ONE) with false in *. cbn [orb] in *.
    unfold named in *. change (VERSION_TWO =? VERSION_ONE) with false in *. cbn [orb] in *.
    destruct (PREDEFINED_FILTER_LIMIT <=? desc_filter_id f).
    - rewrite (ensure_len_at _ _ _ _ _ Hdata Hat) by done. cbn [from_format try_].
      by apply u16_next in Hat as [-> Hat]; [|apply name_count_fits].
    - rewrite Hnone by done. by rewrite Z.add_0_r. }
  rewrite Hlen, and_then_ok.
  apply bytes_at_skip with (n := zlen named_field) in Hat; [|done].
  rewrite (ensure_len_at data _ (le_bytes 2 (desc_flags f) ++ le_bytes 2 (zlen (desc_client_data f)))
    _ _ Hdata) by (rewrite <- ?app_assoc; exact Hat || done). cbn [from_format try_].
  apply u16_next in Hat as [-> Hat]; [|done]. cbn [mbind outcome_bind].
  apply u16_next in Hat as [-> Hat]; [|done]. cbn [mbind outcome_bind].
  rewrite <- Z.add_assoc in Hat. change (2 + 2) with 4 in Hat. cbv zeta.
  rewrite (read_name_ok VERSION_TWO _ _ _ _ (or_intror eq_refl) Hn Hat), and_then_ok.
  apply bytes_at_skip with (n := zlen (name_field VERSION_TWO (desc_name f))) in Hat; [|done].
  rewrite (read_values_ok _ _ _ Hat Hvals), and_then_ok.
  match goal with |- ok (_, ?a) = ok (_, ?b) => replace b with a by lia end. by destruct f.
Qed.

Section Safety.
Context (Hbytes : Forall byte data).

Lemma safe_ensure {T} pos n (k : unit → piped T) Q :
  (pos + n ≤ zlen data → k tt ⇝? Q) → try_ (from_format (ensure_len data pos n)) k ⇝? Q.
Proof.
  intros Hk. destruct (ensure_len_cases data pos n Hdata) as [[-> Hle]|[e ->]];
    [by apply Hk|apply sound_fail].
Qed.

Lemma parse_filter_v1_safe : safe_filter VERSION_ONE (parse_filter_v1 data).
Proof.
  intros pos Hp. unfold parse_filter_v1, VERSION_ONE_FILTER_HEADER_SIZE. apply safe_ensure. intros Hle.
  apply within_u16; [done|lia|lia|]. intros id Hid. apply within_u16; [done|lia|lia|]. intros nl Hnl.
  apply within_u16; [done|lia|lia|]. intros fl Hfl. apply within_u16; [done|lia|lia|]. intros n Hn. cbv zeta.
  eapply sound_bind; [apply filter_name_sound; [by left|lia|apply fits2_max in Hnl; lia]|].
  intros [name p1] (Hw & Hp1 & _). pose proof (fits2_max _ Hn) as Hn'.
  eapply sound_bind; [apply read_values_sound; [done|done|lia]|]. intros [vals p2] (Hl & Hf & Hp2).
  eapply (sound_bind _ _ (λ p, 0 ≤ p)).
  - destruct (negb _); [|by apply sound_ok]. apply safe_ensure. intros _. apply sound_ok.
    unfold CLIENT_DATA_VALUE_SIZE. lia.
  - intros p3 Hp3. apply sound_ok. unfold desc_typed, desc_writable. cbn. split_and!; try done. lia.
Qed.

Lemma parse_filter_v2_safe : safe_filter VERSION_TWO (parse_filter_v2 data).
Proof.
  intros pos Hp. unfold parse_filter_v2, VERSION_TWO_FILTER_ID_SIZE, VERSION_TWO_FILTER_FIELDS_SIZE.
  apply safe_ensure. intros Hle. apply within_u16; [done|lia|lia|]. intros id Hid. cbv zeta.
  eapply (sound_bind _ _ (λ '(nl, p), fits 2 nl ∧ 0 ≤ p ∧ ((PREDEFINED_FILTER_LIMIT <=? id) = false → nl = 0))).
  { destruct (_ <=? id); [|by apply sound_ok; split_and!; [done|lia|done]].
    apply safe_ensure. intros Hle2. apply within_u16; [done|lia|lia|]. intros nl Hnl. apply sound_ok.
    split_and!; [done|lia|done]. }
  intros [nl p] (Hnl & Hp' & H0). apply safe_ensure. intros Hle2.
  apply within_u16; [done|lia|lia|]. intros fl Hfl. apply within_u16; [done|lia|lia|]. intros n Hn.
  eapply sound_bind; [apply filter_name_sound; [by right|lia|apply fits2_max in Hnl; lia]|].
  intros [name p1] (Hw & Hp1 & Hnone). pose proof (fits2_max _ Hn) as Hn'.
  eapply sound_bind; [apply read_values_sound; [done|done|lia]|]. intros [vals p2] (Hl & Hf & Hp2).
  apply sound_ok. unfold desc_typed, desc_writable. cbn. split_and!; try done; [lia|].
  intros Hid'. apply Hnone. rewrite H0; [done|exact Hid'].
Qed.

Lemma parse_filters_safe version parse_filter n pos :
  safe_filter version parse_filter → 0 ≤ pos →
  parse_filters parse_filter n pos
  ⇝? (λ fs, length fs = n ∧ Forall desc_typed fs ∧ Forall (desc_writable version) fs).
Proof.
  intros Hs. revert pos. induction n as [|n IH]; intros pos Hp; cbn [parse_filters]; [by apply sound_ok|].
  eapply sound_bind; [by apply Hs|]. intros [f p] (Ht & Hw & Hp').
  eapply sound_bind; [by apply IH|]. intros fs (<- & Hts & Hws). apply sound_ok.
  split_and!; [done|by constructor|by constructor].
Qed.

(** Parsing arbitrary bytes does not panic, and what it returns can be stored again. *)
Lemma pipeline_parse_sound : parse data ⇝? (λ p, pipeline_typed p ∧ pipeline_writable p).
Proof.
  unfold parse. apply safe_ensure. unfold VERSION_TWO_HEADER_SIZE. intros Hle.
  assert (Hd : ∃ v n rest, data = v :: n :: rest).
  { clear -Hle. destruct data as [|v [|n rest]]; [done..|by eexists _, _, _]. }
  destruct Hd as (v & n & rest & Hd). replace (index data 0) with (Ret v) by (by rewrite Hd).
  replace (index data 1) with (Ret n) by (by rewrite Hd). cbn [mbind outcome_bind].
  assert (Hn : 0 ≤ n).
  { rewrite Hd, !Forall_cons in Hbytes. unfold byte in Hbytes. lia. }
  destruct (Z.le_gt_cases n FILTER_COUNT_MAX) as [Hc|Hc];
    [|rewrite field_length_err by done; apply sound_fail].
  rewrite field_length_ok by (unfold FILTER_COUNT_MAX in *; lia). cbn [try_].
  destruct (v =? VERSION_ONE); [|destruct (v =? VERSION_TWO); [|apply sound_fail]].
  - unfold parse_v1. apply safe_ensure. intros _.
    eapply sound_bind; [apply parse_filters_safe; [apply parse_filter_v1_safe|done]|].
    intros fs (Hl & Ht & Hw). apply sound_ok. split; [done|].
    split_and!; [by left| |done]. simpl. unfold zlen. lia.
  - unfold parse_v2.
    eapply sound_bind; [apply parse_filters_safe; [apply parse_filter_v2_safe|done]|].
    intros fs (Hl & Ht & Hw). apply sound_ok. split; [done|].
    split_and!; [by right| |done]. simpl. unfold zlen. lia.
Qed.

End Safety.

Lemma parse_filters_ok version parse_filter fs pos r :
  reads_filter version parse_filter → Forall desc_typed fs → Forall (desc_writable version) fs →
  bytes_at data pos (concat (filter_bytes version <$> fs) ++ r) →
  parse_filters parse_filter (length fs) pos = ok fs.
Proof.
  intros Hr Ht. revert pos. induction Ht as [|f fs Hf Ht IH]; intros pos Hw Hat; [done|].
  apply Forall_cons in Hw as [Hwf Hw]. rewrite fmap_cons, concat_cons, <- app_assoc in Hat.
  cbn [parse_filters length]. rewrite (Hr _ _ _ Hf Hwf Hat), and_then_ok.
  apply bytes_at_skip with (n := zlen (filter_bytes version f)) in Hat; [|done].
  by rewrite (IH _ Hw Hat).
Qed.

(** A written message is read back, whatever follows it. *)
Lemma parse_pipeline_written p rest :
  data = pipeline_bytes p ++ rest → pipeline_typed p → pipeline_writable p → parse data = ok p.
Proof.
  intros Hd Ht (Hver & Hc & Hw). pose proof (zlen_nonneg (pipeline_filters p)) as Hnn.
  assert (Hcount : Z.to_nat (zlen (pipeline_filters p)) = length (pipeline_filters p)) by (unfold zlen; lia).
  unfold pipeline_bytes in Hd. rewrite <- app_assoc in Hd.
  assert (Hat : bytes_at data (zlen (header_bytes p))
    (concat (filter_bytes (pipeline_version p) <$> pipeline_filters p) ++ rest)) by (by exists (header_bytes p)).
  assert (Hh : ensure_len data 0 (zlen (header_bytes p)) = Ok tt)
    by (eapply ensure_len_at; [done|rewrite Hd; apply bytes_at_0|done]).
  assert (H2 : ensure_len data 0 2 = Ok tt).
  { eapply (ensure_len_at data 0 [pipeline_version p; zlen (pipeline_filters p)]); [done| |done].
    rewrite Hd. unfold header_bytes. rewrite <- app_assoc. apply bytes_at_0. }
  unfold parse, VERSION_TWO_HEADER_SIZE. rewrite H2. cbn [from_format try_].
  replace (index data 0) with (Ret (pipeline_version p)) by (by rewrite Hd).
  replace (index data 1) with (Ret (zlen (pipeline_filters p))) by (by rewrite Hd).
  cbn [mbind outcome_bind]. rewrite field_length_ok by (unfold FILTER_COUNT_MAX in *; lia). cbn [try_].
  destruct p as [version fs]. unfold pipeline_typed in Ht. cbn [pipeline_version pipeline_filters] in *.
  destruct Hver as [-> | ->].
  - change (VERSION_ONE =? VERSION_ONE) with true. cbv iota. unfold parse_v1, VERSION_ONE_HEADER_SIZE.
    change (zlen (header_bytes _)) with 8 in *. rewrite Hh, Hcount. cbn [from_format try_].
    by rewrite (parse_filters_ok VERSION_ONE _ _ _ _ parse_filter_v1_reads Ht Hw Hat).
  - change (VERSION_TWO =? VERSION_ONE) with false. change (VERSION_TWO =? VERSION_TWO) with true.
    cbv iota. unfold parse_v2, VERSION_TWO_HEADER_SIZE. change (zlen (header_bytes _)) with 2 in *. rewrite Hcount.
    by rewrite (parse_filters_ok VERSION_TWO _ _ _ _ parse_filter_v2_reads Ht Hw Hat).
Qed.

End Parsers.
