(* ===== verification/Dataspaces.v ===== *)
(** * Dataspaces

    Models [crates/hdf5-pure-format/src/dataspace.rs] and [dataspace.rs] of
    [hdf5-pure-core]: the dataspace message with its parsers (versions 1 and 2) and its
    writer (version 2), maximum dimensions and their stored form, and the pairing of a
    shape with its maximum. *)

From stdpp Require Import strings.
From S2P Require Import Prelude Addresses Words ByteFields ByteFieldFacts.

Local Open Scope string_scope.
Local Open Scope Z_scope.

(** ** Maximum sizes *)

Inductive MaxExtent : Type :=
| FixedExtent (size : Z)
| Unlimited.

#[global] Instance MaxExtent_eq_dec : EqDecision MaxExtent.
Proof. solve_decision. Defined.

Module MaxExtent.

Definition size (self : MaxExtent) : option Z :=
  match self with FixedExtent size => Some size | Unlimited => None end.

End MaxExtent.

Definition UNLIMITED_LENGTH : Z := U64_MAX.

Definition max_extent_from_length (length : Z) : MaxExtent :=
  if length =? UNLIMITED_LENGTH then Unlimited else FixedExtent length.

Definition max_extent_to_length (max : MaxExtent) : Z :=
  match max with FixedExtent size => size | Unlimited => UNLIMITED_LENGTH end.

Definition max_extent_admits (max : MaxExtent) (dim : Z) : bool :=
  match max with FixedExtent size => dim <=? size | Unlimited => true end.

Definition stored_max_extent (length_width : LengthWidth) (max : MaxExtent) : MaxExtent :=
  match length_width, max with
  | LengthEight, _ | _, FixedExtent _ => max
  | LengthTwo, Unlimited | LengthFour, Unlimited => FixedExtent (length_width_max length_width)
  end.

(** [dims.iter().try_for_each(|&dim| bytes::require_length(dim, length_width))] *)
Fixpoint require_lengths (dims : list Z) (w : LengthWidth) : result unit FormatError :=
  match dims with
  | [] => Ok tt
  | dim :: dims => result_bind (require_length dim w) (λ _, require_lengths dims w)
  end.

Definition stored_max_dimensions (length_width : LengthWidth) (dims : list Z)
    (max_dims : list MaxExtent) : result (list MaxExtent) FormatError :=
  result_bind (require_lengths dims length_width) (λ _,
  Ok (stored_max_extent length_width <$> max_dims)).

(** ** Dataspaces *)

Inductive DataspaceType : Type := Scalar | Simple | Null.

#[global] Instance DataspaceType_eq_dec : EqDecision DataspaceType.
Proof. solve_decision. Defined.

Record Dataspace : Type := mkDataspace {
  space_type : DataspaceType;
  rank : Z;
  dimensions : list Z;
  max_dimensions : option (list MaxExtent);
}.

#[global] Instance Dataspace_eq_dec : EqDecision Dataspace.
Proof. solve_decision. Defined.

Module Dataspace.

Definition VERSION_ONE : Z := 1.
Definition VERSION_TWO : Z := 2.
Definition V1_HEADER_SIZE : Z := 8.
Definition V2_HEADER_SIZE : Z := 4.
Definition TYPE_SCALAR : Z := 0.
Definition TYPE_SIMPLE : Z := 1.
Definition TYPE_NULL : Z := 2.
Definition MAX_DIMENSIONS_FLAG : Z := 0x01.

Section Parser.
Context `{B : Build}.

(** [for _ in 0..rank { read_length_width(data, pos, length_width)?; pos += ls }] *)
Fixpoint read_dims (n : nat) (data : list Z) (pos : Z) (w : LengthWidth) : exec (list Z * Z) :=
  match n with
  | O => ok ([], pos)
  | S n =>
    dim ←? read_length_width data pos w;
    '(dims, pos) ←? read_dims n data (pos + LengthWidth.get w) w;
    ok (dim :: dims, pos)
  end.

(** The space type and the header size. *)
Definition parse_header (data : list Z) (version rank : Z) : exec (DataspaceType * Z) :=
  if version =? VERSION_ONE then
    try_ (ensure_len data 0 V1_HEADER_SIZE) (λ _,
    ok (if rank =? 0 then Scalar else Simple, V1_HEADER_SIZE))
  else if version =? VERSION_TWO then
    type_byte ← index data 3;
    if type_byte =? TYPE_SCALAR then ok (Scalar, V2_HEADER_SIZE)
    else if type_byte =? TYPE_SIMPLE then ok (Simple, V2_HEADER_SIZE)
    else if type_byte =? TYPE_NULL then ok (Null, V2_HEADER_SIZE)
    else fail (InvalidDataspaceType type_byte)
  else fail (InvalidDataspaceVersion version).

(** The range of the dimension fields is its two ends. *)
Definition parse_with_dimension_fields (data : list Z) (length_width : LengthWidth)
    : exec (Dataspace * (Z * Z)) :=
  try_ (ensure_len data 0 V2_HEADER_SIZE) (λ _,
  version ← index data 0;
  rank ← index data 1;
  flags ← index data 2;
  '(space_type, header_size) ←? parse_header data version rank;
  '(dimensions, pos) ←? read_dims (Z.to_nat rank) data header_size length_width;
  let dimension_fields := (header_size, pos) in
  max_dimensions ←?
    (if negb (Z.land flags MAX_DIMENSIONS_FLAG =? 0) then
       '(max_dims, _) ←? read_dims (Z.to_nat rank) data pos length_width;
       ok (Some (max_extent_from_length <$> max_dims))
     else ok None);
  ok (mkDataspace space_type rank dimensions max_dimensions, dimension_fields)).

Definition parse_with_length_width (data : list Z) (length_width : LengthWidth) : exec Dataspace :=
  '(dataspace, _) ←? parse_with_dimension_fields data length_width; ok dataspace.

Definition parse (data : list Z) (length_size : Z) : exec Dataspace :=
  try_ (LengthWidth.try_from length_size) (λ w, parse_with_length_width data w).

End Parser.

(** [for &dim in &self.dimensions { try_write_length(&mut buf, dim, length_width)? }] *)
Fixpoint write_dims (buf : list Z) (dims : list Z) (w : LengthWidth) : exec (list Z) :=
  match dims with
  | [] => ok buf
  | dim :: dims => buf ←? try_write_length buf dim w; write_dims buf dims w
  end.

Definition type_code (t : DataspaceType) : Z :=
  match t with Scalar => TYPE_SCALAR | Simple => TYPE_SIMPLE | Null => TYPE_NULL end.

Definition serialize (self : Dataspace) (length_size : Z) : exec (list Z) :=
  try_ (LengthWidth.try_from length_size) (λ length_width,
  let flags := match max_dimensions self with Some _ => MAX_DIMENSIONS_FLAG | None => 0x00 end in
  let buf := [VERSION_TWO; rank self; flags; type_code (space_type self)] in
  buf ←? write_dims buf (dimensions self) length_width;
  match max_dimensions self with
  | Some max_dims => write_dims buf (max_extent_to_length <$> max_dims) length_width
  | None => ok buf
  end).

(** [u64::saturating_mul] *)
Definition saturating_mul (a b : Z) : Z := Z.min (a * b) U64_MAX.

Definition num_elements (self : Dataspace) : Z :=
  match space_type self with
  | Null => 0
  | Scalar => 1
  | Simple =>
    match dimensions self with
    | [] => 0
    | _ => fold_left saturating_mul (dimensions self) 1
    end
  end.

Definition extensible_max_dimensions (self : Dataspace) : option (list MaxExtent) :=
  max_dims ← max_dimensions self;
  let fixed_at_current :=
    Nat.eqb (length max_dims) (length (dimensions self))
    && forallb (λ '(max, dim), bool_decide (MaxExtent.size max = Some dim))
         (zip max_dims (dimensions self)) in
  if negb fixed_at_current then Some max_dims else None.

End Dataspace.

(** ** A shape beside the maximum shape that bounds it *)

Record DatasetExtent : Type := mkDatasetExtent {
  extent_dims : list Z;
  extent_max_dims : option (list MaxExtent);
}.

Module DatasetExtent.

Definition new (dims : list Z) (max_dims : option (list MaxExtent)) : result DatasetExtent string :=
  match max_dims with
  | Some maxs =>
    if negb (Nat.eqb (length maxs) (length dims)) then
      Err "maxshape must have the same rank as the dataset shape"
    else if existsb (λ '(max, dim), negb (max_extent_admits max dim)) (zip maxs dims) then
      Err "maxshape must be at least the current shape in every dimension"
    else if bool_decide (FixedExtent UNLIMITED_LENGTH ∈ maxs) then
      Err "a fixed maximum of u64::MAX is the format's unlimited marker; name MaxExtent::Unlimited for a dimension that grows without bound"
    else Ok (mkDatasetExtent dims max_dims)
  | None => Ok (mkDatasetExtent dims max_dims)
  end.

Definition dims (self : DatasetExtent) : list Z := extent_dims self.

Definition unlimited_dimensions (self : DatasetExtent) : Z :=
  match extent_max_dims self with
  | None => 0
  | Some max_dims => zlen (filter (λ max, max = Unlimited) max_dims)
  end.

End DatasetExtent.

Module DataspaceTests.
#[local] Existing Instance build64.

Definition grid : Dataspace := mkDataspace Simple 2 [3; 70000] (Some [Unlimited; FixedExtent 70000]).

Example grid_runs :
  (body ←? Dataspace.serialize grid 8; Dataspace.parse_with_dimension_fields (body ++ [1])%list LengthEight)
  = ok (grid, (4, 20)).
Proof. vm_compute. reflexivity. Qed.

Example grid_narrow : Dataspace.serialize grid 2 = fail (LengthTooLarge 70000 2).
Proof. vm_compute. reflexivity. Qed.

Example version_one :
  Dataspace.parse [1; 1; 1; 0; 0; 0; 0; 0; 5; 0; 255; 255] 2
  = ok (mkDataspace Simple 1 [5] (Some [FixedExtent 65535])).
Proof. vm_compute. reflexivity. Qed.

End DataspaceTests.

(** ** Facts about dataspaces

    The layout of a dataspace message, its parser and writer on that layout, and the
    arithmetic of element counts. *)

Local Open Scope list_scope.
Local Open Scope Z_scope.

(** The fields of a list of dimensions. *)
Definition dims_bytes (w : LengthWidth) (dims : list Z) : list Z := concat (le_bytes (Z.to_nat (LengthWidth.get w)) <$> dims).

Lemma zlen_lbytes w v : zlen (lbytes w v) = LengthWidth.get w.
Proof. rewrite zlen_le_bytes. destruct w; done. Qed.

Lemma zlen_dims w dims : zlen (dims_bytes w dims) = zlen dims * LengthWidth.get w.
Proof.
  unfold dims_bytes. induction dims as [|d dims IH]; [done|].
  rewrite fmap_cons, concat_cons, zlen_app, IH, zlen_lbytes, zlen_cons. lia.
Qed.

Lemma dims_bytes_app w d1 d2 : dims_bytes w (d1 ++ d2) = dims_bytes w d1 ++ dims_bytes w d2.
Proof. unfold dims_bytes. by rewrite fmap_app, concat_app. Qed.

Lemma length_get_pos w : 0 < LengthWidth.get w.
Proof. destruct w; done. Qed.

Section Facts.
Context `{B : Build}.
Import Dataspace.

(** ** Reading dimension fields *)

Lemma read_dims_ok data w dims pos r :
  zlen data ≤ USIZE_MAX → bytes_at data pos (dims_bytes w dims ++ r) →
  Forall (fits (LengthWidth.get w)) dims →
  read_dims (length dims) data pos w = ok (dims, pos + zlen (dims_bytes w dims)).
Proof.
  intros Hd Hat Hf. revert pos Hat. induction Hf as [|d dims Hv Hf IH]; intros pos Hat.
  - cbn [read_dims length]. change (zlen (dims_bytes w [])) with 0. by rewrite Z.add_0_r.
  - unfold dims_bytes in Hat. rewrite fmap_cons, concat_cons, <- app_assoc in Hat.
    pose proof (bytes_at_nonneg _ _ _ Hat). cbn [read_dims length].
    rewrite read_length_width_eq by done. unfold read_word.
    apply (bytes_at_app _ _ _ _ (LengthWidth.get w)) in Hat as [-> Hat]; [|apply zlen_lbytes].
    rewrite le_value_bytes by (unfold fits in Hv; by destruct w).
    rewrite and_then_ok, (IH _ Hat), and_then_ok.
    rewrite !zlen_dims, zlen_cons. match goal with |- ok (_, ?a) = ok (_, ?b) => by replace a with b by lia end.
Qed.

(** What was read is what the bytes hold. *)
Lemma read_dims_inv data w n pos dims pos' :
  zlen data ≤ USIZE_MAX → Forall byte data → 0 ≤ pos ≤ zlen data →
  read_dims n data pos w = ok (dims, pos') →
  length dims = n ∧ Forall (fits (LengthWidth.get w)) dims ∧
  pos' = pos + zlen (dims_bytes w dims) ∧
  ∃ r, bytes_at data pos (dims_bytes w dims ++ r).
Proof.
  intros Hd Hb. revert pos dims pos'. induction n as [|n IH]; intros pos dims pos' Hp Hr.
  - injection Hr as <- <-. split_and!; [done|done|change (zlen (dims_bytes w [])) with 0; lia|].
    exists (drop (Z.to_nat pos) data). exists (take (Z.to_nat pos) data).
    split; [symmetry; apply take_drop|apply zlen_take; lia].
  - cbn [read_dims] in Hr. apply and_then_ok_inv in Hr as (d & Hread & Hr).
    apply and_then_ok_inv in Hr as ([ds p] & Hds & Hr). injection Hr as <- <-.
    rewrite read_length_width_eq in Hread by lia. unfold read_word in Hread.
    destruct (get_range data pos (pos + LengthWidth.get w)) as [s|] eqn:Eg; [|done].
    injection Hread as <-. pose proof (get_range_zlen _ _ _ _ Eg) as Hz.
    pose proof (get_range_Forall _ _ _ _ _ Hb Eg) as Hs.
    pose proof (get_range_split _ _ _ _ Eg) as (p0 & q & Hdata & Hp0 & _).
    pose proof (length_get_pos w). pose proof (zlen_nonneg q).
    assert (Hl : zlen data = pos + LengthWidth.get w + zlen q) by (rewrite Hdata, !zlen_app; lia).
    destruct (IH (pos + LengthWidth.get w) _ _ ltac:(lia) Hds) as (Hlen & Hf & -> & r & Hat).
    assert (Hsv : lbytes w (le_value s) = s).
    { replace (Z.to_nat (LengthWidth.get w)) with (length s) by (unfold zlen in Hz; lia).
      by apply le_bytes_value. }
    split_and!; [simpl; lia| | |].
    + constructor; [|done]. pose proof (le_value_bounds s Hs). unfold fits. by replace (zlen s) with (LengthWidth.get w) in * by lia.
    + rewrite !zlen_dims, zlen_cons. lia.
    + exists r. unfold dims_bytes. rewrite fmap_cons, concat_cons, <- app_assoc, Hsv.
      exists p0. split; [|done]. destruct Hat as (p1 & Hdata1 & Hp1).
      assert (Hpre : p0 ++ s = p1).
      { rewrite Hdata1, (app_assoc p0) in Hdata.
        apply app_inj_1 in Hdata as [-> _]; [done|]. rewrite length_app. unfold zlen in *. lia. }
      rewrite Hdata1, <- Hpre. by rewrite <- app_assoc.
Qed.

Lemma read_dims_sound data w n pos :
  zlen data ≤ USIZE_MAX → Forall byte data → 0 ≤ pos ≤ zlen data →
  read_dims n data pos w ⇝? (λ '(dims, pos'), length dims = n ∧ pos ≤ pos' ≤ zlen data).
Proof.
  intros Hd Hb. revert pos. induction n as [|n IH]; intros pos Hp; cbn [read_dims].
  - apply sound_ok. split; [done|lia].
  - rewrite read_length_width_eq by lia. pose proof (length_get_pos w).
    eapply sound_bind; [by apply read_word_sound|]. intros d [_ Hle].
    eapply sound_bind; [apply IH; lia|]. intros [ds p] [Hl Hp2]. apply sound_ok. split; [simpl; lia|lia].
Qed.

(** ** Writing dimension fields *)

Lemma write_dims_cases buf dims w :
  Forall u64 dims →
  (Forall (fits (LengthWidth.get w)) dims ∧ write_dims buf dims w = ok (buf ++ dims_bytes w dims)) ∨
  (¬ Forall (fits (LengthWidth.get w)) dims ∧
   ∃ dim, dim ∈ dims ∧ write_dims buf dims w = fail (LengthTooLarge dim (LengthWidth.get w))).
Proof.
  intros Hu. revert buf. induction Hu as [|d dims Hd Hu IH]; intros buf; cbn [write_dims].
  - left. split; [done|]. unfold dims_bytes. simpl. by rewrite app_nil_r.
  - destruct (try_write_length_cases buf d w Hd) as [[Hf ->]|[Hf ->]].
    + rewrite and_then_ok. destruct (IH (buf ++ lbytes w d)) as [[Hfs ->]|[Hfs (dim & Hin & ->)]].
      * left. split; [by constructor|]. unfold dims_bytes. by rewrite fmap_cons, concat_cons, <- app_assoc.
      * right. split; [by inversion 1|]. exists dim. split; [by right|done].
    + right. split; [by inversion 1|]. exists d. split; [by left|done].
Qed.

(** ** Element counts *)

Definition product (dims : list Z) : Z := foldr Z.mul 1 dims.

Lemma saturated_fold dims acc :
  Forall u64 dims → 0 ≤ acc →
  fold_left saturating_mul dims (Z.min acc U64_MAX) = Z.min (acc * product dims) U64_MAX.
Proof.
  intros Hu. revert acc. induction Hu as [|d dims Hd Hu IH]; intros acc Ha; simpl.
  - unfold product. simpl. by rewrite Z.mul_1_r.
  - replace (saturating_mul (Z.min acc U64_MAX) d) with (Z.min (acc * d) U64_MAX).
    + rewrite IH by (unfold u64 in Hd; nia). unfold product. cbn [foldr]. by rewrite Z.mul_assoc.
    + unfold saturating_mul, u64 in *. assert (0 < U64_MAX) by done.
      destruct (Z.eq_dec d 0) as [->|?]; [by rewrite !Z.mul_0_r|]. nia.
Qed.

(** ** Messages *)

Definition extent_ok (max : MaxExtent) : Prop :=
  match max with FixedExtent size => u64 size ∧ size ≠ UNLIMITED_LENGTH | Unlimited => True end.

(** A dataspace as the writers build it: the stored rank is the number of dimensions, and
    no fixed maximum is the marker of an unlimited one. *)
Definition space_ok (ds : Dataspace) : Prop :=
  rank ds = zlen (dimensions ds) ∧ rank ds < 256 ∧ Forall u64 (dimensions ds) ∧
  match max_dimensions ds with
  | Some maxs => zlen maxs = rank ds ∧ Forall extent_ok maxs
  | None => True
  end.

Definition max_lengths (ds : Dataspace) : list Z :=
  match max_dimensions ds with Some maxs => max_extent_to_length <$> maxs | None => [] end.

(** What a file of this length width can store. *)
Definition space_fits (w : LengthWidth) (ds : Dataspace) : Prop :=
  Forall (fits (LengthWidth.get w)) (dimensions ds) ∧ Forall (fits (LengthWidth.get w)) (max_lengths ds).

Definition max_flag (ds : Dataspace) : Z :=
  match max_dimensions ds with Some _ => MAX_DIMENSIONS_FLAG | None => 0 end.

Definition space_header (ds : Dataspace) : list Z :=
  [VERSION_TWO; rank ds; max_flag ds; type_code (space_type ds)].

Definition space_bytes (w : LengthWidth) (ds : Dataspace) : list Z :=
  space_header ds ++ dims_bytes w (dimensions ds) ++ dims_bytes w (max_lengths ds).

Lemma extent_roundtrip max : extent_ok max → max_extent_from_length (max_extent_to_length max) = max.
Proof.
  destruct max as [n|]; [|done]. simpl. intros [_ Hn]. unfold max_extent_from_length.
  by destruct (n =? UNLIMITED_LENGTH) eqn:E; [apply Z.eqb_eq in E|].
Qed.

Lemma extents_roundtrip maxs :
  Forall extent_ok maxs → max_extent_from_length <$> (max_extent_to_length <$> maxs) = maxs.
Proof. induction 1 as [|m maxs Hm Hf IH]; [done|]. by rewrite !fmap_cons, extent_roundtrip, IH. Qed.

Lemma max_lengths_u64 ds : space_ok ds → Forall u64 (max_lengths ds).
Proof.
  intros (_ & _ & _ & Hm). unfold max_lengths. destruct (max_dimensions ds) as [maxs|]; [|done].
  destruct Hm as [_ Hm]. apply Forall_fmap. eapply Forall_impl; [exact Hm|].
  intros [n|]; simpl; [tauto|done].
Qed.

(** The writer succeeds exactly when every size fits the length width. *)
Lemma serialize_space_cases ds w :
  space_ok ds →
  (space_fits w ds ∧ serialize ds (LengthWidth.get w) = ok (space_bytes w ds)) ∨
  (¬ space_fits w ds ∧
   ∃ dim, dim ∈ dimensions ds ++ max_lengths ds ∧
   serialize ds (LengthWidth.get w) = fail (LengthTooLarge dim (LengthWidth.get w))).
Proof.
  intros Hok. pose proof Hok as (_ & _ & Hd & _). pose proof (max_lengths_u64 ds Hok) as Hm.
  unfold serialize, space_fits. replace (LengthWidth.try_from (LengthWidth.get w)) with (Ok (E := FormatError) w)
    by (by destruct w). cbn [try_]. fold (max_flag ds). fold (space_header ds).
  destruct (write_dims_cases (space_header ds) (dimensions ds) w Hd) as [[Hf ->]|[Hf (dim & Hin & ->)]].
  2:{ right. split; [tauto|]. exists dim. rewrite elem_of_app. auto. }
  rewrite and_then_ok.
  destruct (write_dims_cases (space_header ds ++ dims_bytes w (dimensions ds)) (max_lengths ds) w Hm)
    as [[Hf2 Hw]|[Hf2 (dim & Hin & Hw)]]; unfold max_lengths in Hw at 1; unfold space_bytes.
  - left. split; [done|]. unfold max_lengths in *. destruct (max_dimensions ds).
    + rewrite Hw. by rewrite <- app_assoc.
    + unfold dims_bytes at 2. simpl. by rewrite app_nil_r.
  - right. split; [tauto|]. exists dim. rewrite elem_of_app. split; [by right|].
    unfold max_lengths in *. destruct (max_dimensions ds); [exact Hw|]. by rewrite elem_of_nil in Hin.
Qed.

(** The maxima a message stores, from its flag and fields. *)
Definition stored_maxima (flags : Z) (maxs : list Z) : option (list MaxExtent) :=
  if negb (Z.land flags MAX_DIMENSIONS_FLAG =? 0) then Some (max_extent_from_length <$> maxs) else None.

(** A message of any version: a header, the dimension fields and, with the flag, the
    fields of the maxima. *)
Record layout (data : list Z) (w : LengthWidth) (hdr : list Z) (flags : Z) (ds : Dataspace)
    (maxs rest : list Z) : Prop := {
  lay_data : data = hdr ++ dims_bytes w (dimensions ds) ++ dims_bytes w maxs ++ rest;
  lay_size : zlen data ≤ USIZE_MAX;
  lay_start : ∃ version tail, hdr = version :: rank ds :: flags :: tail ∧
    parse_header data version (rank ds) = ok (space_type ds, zlen hdr);
  lay_four : 4 ≤ zlen hdr;
  lay_rank : rank ds = zlen (dimensions ds);
  lay_dims : Forall (fits (LengthWidth.get w)) (dimensions ds);
  lay_maxs : Forall (fits (LengthWidth.get w)) maxs;
  lay_count : Z.land flags MAX_DIMENSIONS_FLAG ≠ 0 → zlen maxs = rank ds;
  lay_stored : max_dimensions ds = stored_maxima flags maxs;
}.

(** The parser reads a layout. *)
Lemma parse_layout data w hdr flags ds maxs rest :
  layout data w hdr flags ds maxs rest →
  parse_with_dimension_fields data w = ok (ds, (zlen hdr, zlen hdr + zlen (dims_bytes w (dimensions ds)))).
Proof.
  intros [Hdata Hsize (version & tail & Hhdr & Hhead) Hfour Hrank Hdims Hmaxs Hcount Hstored].
  assert (Hat : bytes_at data (zlen hdr) (dims_bytes w (dimensions ds) ++ dims_bytes w maxs ++ rest))
    by (by exists hdr).
  unfold parse_with_dimension_fields, V2_HEADER_SIZE.
  assert (Hle : ensure_len data 0 4 = Ok tt).
  { unfold ensure_len. rewrite Hdata in *. rewrite zlen_app in *.
    pose proof (zlen_nonneg (dims_bytes w (dimensions ds) ++ dims_bytes w maxs ++ rest)).
    by replace (_ && _) with true by lia. }
  rewrite Hle. cbn [try_].
  replace (index data 0) with (Ret version) by (by rewrite Hdata, Hhdr).
  replace (index data 1) with (Ret (rank ds)) by (by rewrite Hdata, Hhdr).
  replace (index data 2) with (Ret flags) by (by rewrite Hdata, Hhdr).
  cbn [mbind outcome_bind]. rewrite Hhead, and_then_ok.
  replace (Z.to_nat (rank ds)) with (length (dimensions ds)) by (rewrite Hrank; unfold zlen; lia).
  rewrite (read_dims_ok data w _ _ _ Hsize Hat Hdims), and_then_ok. cbv zeta.
  apply (bytes_at_skip _ _ _ _ (zlen (dims_bytes w (dimensions ds)))) in Hat; [|done].
  unfold stored_maxima in Hstored.
  destruct (negb (Z.land flags MAX_DIMENSIONS_FLAG =? 0)) eqn:E.
  - replace (length (dimensions ds)) with (length maxs)
      by (apply negb_true_iff, Z.eqb_neq in E; specialize (Hcount E); unfold zlen in *; lia).
    rewrite (read_dims_ok data w _ _ _ Hsize Hat Hmaxs), !and_then_ok, <- Hstored. by destruct ds.
  - rewrite and_then_ok, <- Hstored. by destruct ds.
Qed.

(** A written message is a layout. *)
Lemma written_layout ds w rest :
  space_ok ds → space_fits w ds → zlen (space_bytes w ds ++ rest) ≤ USIZE_MAX →
  layout (space_bytes w ds ++ rest) w (space_header ds) (max_flag ds) ds (max_lengths ds) rest.
Proof.
  intros (Hrank & Hr & _ & Hm) [Hd Hl] Hs.
  split; try done.
  - unfold space_bytes. by rewrite <- !app_assoc.
  - exists VERSION_TWO, [type_code (space_type ds)]. split; [done|]. unfold parse_header.
    change (VERSION_TWO =? VERSION_ONE) with false. change (VERSION_TWO =? VERSION_TWO) with true.
    cbv iota. replace (index _ 3) with (Ret (type_code (space_type ds))) by done.
    by destruct (space_type ds).
  - unfold max_flag, max_lengths. destruct (max_dimensions ds) as [maxs|]; [|done].
    intros _. rewrite <- (proj1 Hm). unfold zlen. by rewrite length_fmap.
  - unfold max_flag, max_lengths, stored_maxima. destruct (max_dimensions ds) as [maxs|]; [|done].
    change (negb (Z.land MAX_DIMENSIONS_FLAG MAX_DIMENSIONS_FLAG =? 0)) with true. cbv iota.
    by rewrite extents_roundtrip by apply Hm.
Qed.

Lemma space_header_sound data version rank :
  4 ≤ zlen data → zlen data ≤ USIZE_MAX →
  parse_header data version rank ⇝? (λ '(_, hs), 4 ≤ hs ≤ zlen data ∧ (hs = 4 ∨ hs = 8)).
Proof.
  intros Hl Hu. unfold parse_header. destruct (version =? VERSION_ONE).
  - destruct (ensure_len_cases data 0 V1_HEADER_SIZE Hu) as [[-> Hle]|[e ->]]; [|apply sound_fail].
    apply sound_ok. unfold V1_HEADER_SIZE in *. lia.
  - destruct (version =? VERSION_TWO); [|apply sound_fail].
    destruct (lookup_lt_is_Some_2 data 3) as [t Ht]; [unfold zlen in Hl; lia|].
    rewrite (index_Ret data 3 t) by done. cbn [mbind outcome_bind].
    unfold V2_HEADER_SIZE. destruct (_ =? _); [apply sound_ok; lia|].
    destruct (_ =? _); [apply sound_ok; lia|].
    destruct (_ =? _); [apply sound_ok; lia|apply sound_fail].
Qed.

(** The header of a message says nothing about the fields behind it. *)
Lemma parse_header_prefix hdr a b version rank st :
  parse_header (hdr ++ a) version rank = ok (st, zlen hdr) → zlen a = zlen b → zlen hdr = 4 ∨ zlen hdr = 8 →
  parse_header (hdr ++ b) version rank = ok (st, zlen hdr).
Proof.
  intros Hp Hz Hh. unfold parse_header, ensure_len in *. rewrite !zlen_app in *. rewrite <- Hz.
  destruct (version =? VERSION_ONE); [exact Hp|]. destruct (version =? VERSION_TWO); [|done].
  replace (index (hdr ++ b) 3) with (index (hdr ++ a) 3); [done|].
  unfold index. simpl. by rewrite !lookup_app_l by (unfold zlen in Hh; lia).
Qed.

Lemma three_bytes (data : list Z) : 4 ≤ zlen data → ∃ a b c l, data = a :: b :: c :: l.
Proof. destruct data as [|a [|b [|c l]]]; [done..|]. intros _. by eexists _, _, _, _. Qed.

(** No bytes make the parser panic. *)
Lemma parse_space_sound data w :
  Forall byte data → zlen data ≤ USIZE_MAX →
  parse_with_dimension_fields data w
    ⇝? (λ '(ds, (s, e)), zlen (dimensions ds) = rank ds ∧ 4 ≤ s ≤ e ∧ e ≤ zlen data).
Proof.
  intros Hb Hu. unfold parse_with_dimension_fields, V2_HEADER_SIZE. apply within_ensure; [done|]. intros Hle.
  destruct (three_bytes data Hle) as (version & rk & flags & l & Hdata).
  replace (index data 0) with (Ret version) by (by rewrite Hdata).
  replace (index data 1) with (Ret rk) by (by rewrite Hdata).
  replace (index data 2) with (Ret flags) by (by rewrite Hdata). cbn [mbind outcome_bind].
  assert (Hrk : 0 ≤ rk) by (rewrite Hdata, !Forall_cons in Hb; unfold byte in Hb; lia).
  eapply sound_bind; [apply space_header_sound; [lia|done]|]. intros [st hs] [Hhs _].
  eapply sound_bind; [apply read_dims_sound; [done|done|lia]|]. intros [dims pos] [Hl Hp]. cbv zeta.
  eapply (sound_bind _ _ (λ _, True)).
  - destruct (negb _); [|by apply sound_ok].
    eapply sound_bind; [apply read_dims_sound; [done|done|lia]|]. intros [maxs q] _. by apply sound_ok.
  - intros maxs _. apply sound_ok. cbn. unfold zlen at 1. split_and!; lia.
Qed.

(** Whatever the parser accepts is a layout. *)
Lemma parse_inv data w ds s e :
  Forall byte data → zlen data ≤ USIZE_MAX →
  parse_with_dimension_fields data w = ok (ds, (s, e)) →
  ∃ hdr flags maxs rest, layout data w hdr flags ds maxs rest ∧
    s = zlen hdr ∧ e = s + zlen (dims_bytes w (dimensions ds)) ∧ (zlen hdr = 4 ∨ zlen hdr = 8).
Proof.
  intros Hb Hu Hp. unfold parse_with_dimension_fields, V2_HEADER_SIZE in Hp.
  destruct (ensure_len_cases data 0 4 Hu) as [[Hen Hle]|[err Hen]]; rewrite Hen in Hp; [|done].
  cbn [try_] in Hp. destruct (three_bytes data Hle) as (version & rk & flags & l & Hdata).
  replace (index data 0) with (Ret version) in Hp by (by rewrite Hdata).
  replace (index data 1) with (Ret rk) in Hp by (by rewrite Hdata).
  replace (index data 2) with (Ret flags) in Hp by (by rewrite Hdata).
  cbn [mbind outcome_bind] in Hp.
  assert (Hrk : 0 ≤ rk) by (rewrite Hdata, !Forall_cons in Hb; unfold byte in Hb; lia).
  apply and_then_ok_inv in Hp as ([st hs] & Hhead & Hp).
  pose proof (sound_eq _ _ _ (space_header_sound data version rk Hle Hu) Hhead) as [Hhs H48].
  apply and_then_ok_inv in Hp as ([dims pos] & Hdims & Hp).
  apply read_dims_inv in Hdims as (Hlen & Hfd & -> & r & Hat); [|done|done|lia].
  cbv zeta in Hp. apply and_then_ok_inv in Hp as (maxd & Hmax & Hp). injection Hp as <- <- <-.
  destruct Hat as (hdr & Hd & <-).
  assert (Hh : ∃ tail, hdr = version :: rk :: flags :: tail).
  { destruct (three_bytes hdr) as (a & b & c & tl & Eh); [lia|].
    rewrite Eh, Hdata in Hd. injection Hd as <- <- <- _. by exists tl. }
  destruct Hh as [tail Hh].
  destruct (negb (Z.land flags MAX_DIMENSIONS_FLAG =? 0)) eqn:Ef.
  - apply and_then_ok_inv in Hmax as ([maxs p2] & Hm & Hmax). injection Hmax as <-.
    apply read_dims_inv in Hm as (Hlm & Hfm & _ & rest & (pre & Hpre & Hzp)); [|done|done|].
    2:{ pose proof (zlen_nonneg r). pose proof (zlen_nonneg (dims_bytes w dims)).
        rewrite Hd, !zlen_app. pose proof (zlen_nonneg hdr). lia. }
    assert (r = dims_bytes w maxs ++ rest) as ->.
    { rewrite app_assoc in Hd. rewrite Hd in Hpre. apply app_inj_1 in Hpre as [_ H]; [done|].
      rewrite length_app. unfold zlen in Hzp. lia. }
    exists hdr, flags, maxs, rest. split_and!; [|done|done|lia].
    split; simpl; try done; [by exists version, tail|lia|unfold zlen; lia|intros _; unfold zlen; lia|].
    unfold stored_maxima. by rewrite Ef.
  - injection Hmax as <-. exists hdr, flags, [], r. split_and!; [|done|done|lia].
    split; simpl; try done; [by exists version, tail|lia|unfold zlen; lia| |].
    + apply negb_false_iff, Z.eqb_eq in Ef. lia.
    + unfold stored_maxima. by rewrite Ef.
Qed.

(** Whatever the parser accepts is a dataspace that the file can store, with as many fields
    as dimensions where it says they are. *)
Lemma parse_space_wf data w :
  Forall byte data → zlen data ≤ USIZE_MAX →
  parse_with_dimension_fields data w ⇝? (λ '(ds, (s, e)), space_ok ds ∧ space_fits w ds ∧
    4 ≤ s ∧ e = s + rank ds * LengthWidth.get w ∧ e ≤ zlen data).
Proof.
  intros Hb Hu. destruct (parse_space_sound data w Hb Hu) as ([[ds [s e]]|err] & Heq & HQ); rewrite Heq; [|by exists (Err err)].
  apply (sound_ok (E := FormatError)). destruct HQ as (_ & Hse & He).
  destruct (parse_inv data w ds s e Hb Hu Heq) as (hdr & flags & maxs & rest & Hlay & -> & Hend & _).
  destruct Hlay as [Hdata _ (version & tail & Hhdr & _) Hfour Hrank Hdims Hmaxs Hcount Hstored].
  assert (Hbyte : byte (rank ds)).
  { rewrite Hdata, Hhdr in Hb. cbn [app] in Hb. rewrite !Forall_cons in Hb. tauto. }
  assert (Hmax : ∀ m, fits (LengthWidth.get w) m →
    extent_ok (max_extent_from_length m) ∧ max_extent_to_length (max_extent_from_length m) = m).
  { intros m Hm. pose proof (length_fits_u64 w m Hm). unfold max_extent_from_length.
    destruct (m =? UNLIMITED_LENGTH) eqn:E; simpl; [split; [done|lia]|split; [split; [done|lia]|done]]. }
  unfold space_ok, space_fits, max_lengths. rewrite Hstored. unfold stored_maxima.
  split; [split_and!; [done|unfold byte in Hbyte; lia| |]|split; [split; [done|]|]].
  - eapply Forall_impl; [exact Hdims|]. intros d. apply length_fits_u64.
  - destruct (negb _) eqn:Ef; [|done]. split; [rewrite <- (Hcount ltac:(lia)); unfold zlen; by rewrite length_fmap|].
    apply Forall_fmap. eapply Forall_impl; [exact Hmaxs|]. intros m Hm. by apply Hmax.
  - destruct (negb _); [|by constructor]. rewrite <- list_fmap_compose. apply Forall_fmap.
    eapply Forall_impl; [exact Hmaxs|]. intros m Hm. unfold compose. by rewrite (proj2 (Hmax m Hm)).
  - split; [done|]. rewrite zlen_dims in Hend. split; [rewrite Hend, Hrank; lia|done].
Qed.

(** ** Overwriting a dimension in place *)

Lemma write_length_at_app p f r v w :
  zlen f = LengthWidth.get w → fits (LengthWidth.get w) v → zlen (p ++ f ++ r) ≤ USIZE_MAX →
  write_length_at (p ++ f ++ r) (zlen p) v w = ok (p ++ lbytes w v ++ r).
Proof.
  intros Hf Hv Hs. unfold write_length_at, require_length.
  rewrite (proj2 (length_holds w v (length_fits_u64 _ _ Hv)) Hv). cbn [negb try_].
  rewrite (ensure_len_at (p ++ f ++ r) (zlen p) f r) by (done || by exists p). cbn [try_].
  rewrite take_le_bytes by (destruct w; simpl; lia).
  rewrite splice_app; [done|]. rewrite length_le_bytes. unfold zlen in Hf. lia.
Qed.

Definition with_dimensions (ds : Dataspace) (dims : list Z) : Dataspace :=
  mkDataspace (space_type ds) (rank ds) dims (max_dimensions ds).

(** The layout with another list of dimensions of the same rank. *)
Lemma layout_with_dimensions data w hdr flags ds maxs rest dims :
  layout data w hdr flags ds maxs rest → zlen hdr = 4 ∨ zlen hdr = 8 →
  length dims = length (dimensions ds) → Forall (fits (LengthWidth.get w)) dims →
  layout (hdr ++ dims_bytes w dims ++ dims_bytes w maxs ++ rest) w hdr flags (with_dimensions ds dims) maxs rest.
Proof.
  intros [Hdata Hsize (version & tail & Hhdr & Hhead) Hfour Hrank Hdims Hmaxs Hcount Hstored] Hh Hl Hf.
  assert (Hz : zlen (dims_bytes w (dimensions ds) ++ dims_bytes w maxs ++ rest)
               = zlen (dims_bytes w dims ++ dims_bytes w maxs ++ rest)).
  { rewrite !zlen_app, !zlen_dims. unfold zlen. rewrite Hl. done. }
  split; simpl; try done.
  - rewrite zlen_app, <- Hz. by rewrite Hdata, zlen_app in Hsize.
  - exists version, tail. split; [done|]. rewrite Hdata in Hhead. by apply (parse_header_prefix _ _ _ _ _ _ Hhead).
  - rewrite Hrank. unfold zlen. by rewrite Hl.
Qed.

Lemma overwrite_dimension data w ds s e i v :
  Forall byte data → zlen data ≤ USIZE_MAX →
  parse_with_dimension_fields data w = ok (ds, (s, e)) → (i < length (dimensions ds))%nat →
  fits (LengthWidth.get w) v →
  ∃ data', write_length_at data (s + Z.of_nat i * LengthWidth.get w) v w = ok data' ∧
    zlen data' = zlen data ∧
    parse_with_dimension_fields data' w = ok (with_dimensions ds (<[i := v]> (dimensions ds)), (s, e)).
Proof.
  intros Hb Hu Hp Hi Hv.
  destruct (parse_inv _ _ _ _ _ Hb Hu Hp) as (hdr & flags & maxs & rest & Hlay & -> & -> & Hh).
  pose proof (lay_data _ _ _ _ _ _ _ Hlay) as Hdata. pose proof (lay_dims _ _ _ _ _ _ _ Hlay) as Hfd.
  destruct (lookup_lt_is_Some_2 _ _ Hi) as [d Hd].
  pose proof (take_drop_middle _ _ _ Hd) as Hsplit.
  set (d1 := take i (dimensions ds)) in *. set (d2 := drop (S i) (dimensions ds)) in *.
  assert (Hd1 : length d1 = i) by (unfold d1; rewrite length_take; lia).
  assert (Hins : <[i := v]> (dimensions ds) = d1 ++ v :: d2)
    by (rewrite <- Hsplit, <- Hd1; by rewrite insert_app_r_alt, Nat.sub_diag by lia).
  assert (Hf' : Forall (fits (LengthWidth.get w)) (d1 ++ v :: d2)).
  { rewrite <- Hsplit in Hfd. apply Forall_app in Hfd as [H1 H2]. apply Forall_cons in H2 as [_ H2].
    apply Forall_app_2; [done|by constructor]. }
  assert (Hcons : ∀ x, dims_bytes w (d1 ++ x :: d2) = dims_bytes w d1 ++ lbytes w x ++ dims_bytes w d2)
    by (intros x; by rewrite dims_bytes_app).
  assert (Hl' : length (d1 ++ v :: d2) = length (dimensions ds))
    by (rewrite <- Hsplit, !length_app; done).
  pose proof (layout_with_dimensions _ _ _ _ _ _ _ _ Hlay Hh Hl' Hf') as Hlay'.
  eexists. split; [|split; [|apply (parse_layout _ _ _ _ _ _ _) in Hlay'; rewrite Hins, Hlay']].
  - rewrite Hdata, <- Hsplit, Hcons.
    replace (hdr ++ (dims_bytes w d1 ++ lbytes w d ++ dims_bytes w d2) ++ dims_bytes w maxs ++ rest)
      with ((hdr ++ dims_bytes w d1) ++ lbytes w d ++ (dims_bytes w d2 ++ dims_bytes w maxs ++ rest))
      by (by rewrite <- !app_assoc).
    replace (zlen hdr + Z.of_nat i * LengthWidth.get w) with (zlen (hdr ++ dims_bytes w d1))
      by (rewrite zlen_app, zlen_dims; unfold zlen; by rewrite Hd1).
    rewrite write_length_at_app; [|apply zlen_lbytes|done|].
    + rewrite Hcons. by rewrite <- !app_assoc.
    + rewrite Hdata, <- Hsplit, Hcons in Hu. by rewrite <- !app_assoc in *.
  - rewrite Hdata, !zlen_app, !zlen_dims. unfold zlen. by rewrite Hl'.
  - simpl. rewrite !zlen_dims. unfold zlen. by rewrite Hl'.
Qed.

End Facts.
