(* ===== verification/Superblocks.v ===== *)
(** * The superblock

    Models [superblock.rs], [userblock_size.rs] and the signature of [hdf5-pure-core] and
    [hdf5-pure-format]: the versions and consistency flags, the writer of versions 2 and 3,
    the candidates of the signature search and the parser of all four versions. *)

From stdpp Require Import strings pretty.
From S2P Require Import Prelude Addresses Words ByteFields Checksums FileRegions.

Local Open Scope string_scope.
Local Open Scope Z_scope.

(** ** Userblocks *)

(** [u64::is_power_of_two] *)
Definition is_power_of_two (n : Z) : bool := (0 <? n) && (n =? 2 ^ Z.log2 n).

Module UserblockSize.

Definition NONE : Z := 0.
Definition MIN : Z := 512.

Definition try_from (size : Z) : result Z FormatError :=
  if (size =? NONE) || ((MIN <=? size) && is_power_of_two size) then Ok size
  else Err (InvalidUserblockSize size).

End UserblockSize.

(** ** Versions and flags *)

Inductive SuperblockVersion : Type := VersionZero | VersionOne | VersionTwo | VersionThree.

#[global] Instance SuperblockVersion_eq_dec : EqDecision SuperblockVersion.
Proof. solve_decision. Defined.

Module SuperblockVersion.

Definition get (v : SuperblockVersion) : Z :=
  match v with VersionZero => 0 | VersionOne => 1 | VersionTwo => 2 | VersionThree => 3 end.

Definition try_from (version : Z) : result SuperblockVersion FormatError :=
  if version =? 0 then Ok VersionZero
  else if version =? 1 then Ok VersionOne
  else if version =? 2 then Ok VersionTwo
  else if version =? 3 then Ok VersionThree
  else Err (UnsupportedVersion version).

End SuperblockVersion.

Inductive SuperblockStatusFlag : Type := WriteAccess | SwmrWriteAccess.

Definition flag_mask (f : SuperblockStatusFlag) : Z :=
  match f with WriteAccess => 0x01 | SwmrWriteAccess => 0x04 end.

(** [SuperblockStatusFlags] is its 32 bits. *)
Module SuperblockStatusFlags.

Definition new : Z := 0.
Definition write_marked : Z := flag_mask WriteAccess.
Definition swmr_write_marked : Z := Z.lor (flag_mask WriteAccess) (flag_mask SwmrWriteAccess).
Definition is_empty (bits : Z) : bool := bits =? 0.
Definition contains (bits : Z) (f : SuperblockStatusFlag) : bool := negb (Z.land bits (flag_mask f) =? 0).

Definition is_inconsistent (bits : Z) : bool :=
  contains bits SwmrWriteAccess && negb (contains bits WriteAccess).

Definition unknown_bits (bits : Z) : Z := Z.ldiff bits swmr_write_marked.

(** [u8::try_from(flags)] *)
Definition to_u8 (bits : Z) : result Z FormatError :=
  if bits <=? 255 then Ok bits else Err (SuperblockStatusFlagsTooWide bits).

End SuperblockStatusFlags.

Inductive SuperblockStatus : Type :=
| StatusZero (flags : Z)
| StatusOne (flags : Z)
| StatusTwo (flags : Z)
| StatusThree (flags : Z).

#[global] Instance SuperblockStatus_eq_dec : EqDecision SuperblockStatus.
Proof. solve_decision. Defined.

Module SuperblockStatus.

Definition new (version : SuperblockVersion) (flags : Z) : result SuperblockStatus FormatError :=
  match version with
  | VersionZero => Ok (StatusZero flags)
  | VersionOne => Ok (StatusOne flags)
  | VersionTwo => result_map StatusTwo (SuperblockStatusFlags.to_u8 flags)
  | VersionThree => result_map StatusThree (SuperblockStatusFlags.to_u8 flags)
  end.

Definition version (s : SuperblockStatus) : SuperblockVersion :=
  match s with
  | StatusZero _ => VersionZero | StatusOne _ => VersionOne
  | StatusTwo _ => VersionTwo | StatusThree _ => VersionThree
  end.

Definition flags (s : SuperblockStatus) : Z :=
  match s with StatusZero bits | StatusOne bits | StatusTwo bits | StatusThree bits => bits end.

End SuperblockStatus.

Record Superblock : Type := mkSuperblock {
  sb_status : SuperblockStatus;
  sb_offset_size : OffsetWidth;
  sb_length_size : LengthWidth;
  sb_base_address : Z;
  sb_eof_address : Z;
  sb_root_group_address : Z;
  sb_group_leaf_node_k : option Z;
  sb_group_internal_node_k : option Z;
  sb_indexed_storage_internal_node_k : option Z;
  sb_free_space_address : option Z;
  sb_driver_info_address : option Z;
  sb_superblock_extension_address : option Z;
  sb_checksum : option Z;
}.

Module Superblock.

Definition version (sb : Superblock) : SuperblockVersion := SuperblockStatus.version (sb_status sb).

Definition consistency_flags (sb : Superblock) : Z := SuperblockStatus.flags (sb_status sb).

Definition with_status (sb : Superblock) (status : SuperblockStatus) : Superblock :=
  mkSuperblock status (sb_offset_size sb) (sb_length_size sb) (sb_base_address sb)
    (sb_eof_address sb) (sb_root_group_address sb) (sb_group_leaf_node_k sb)
    (sb_group_internal_node_k sb) (sb_indexed_storage_internal_node_k sb)
    (sb_free_space_address sb) (sb_driver_info_address sb) (sb_superblock_extension_address sb)
    (sb_checksum sb).

Definition set_version (sb : Superblock) (version : SuperblockVersion)
    : result Superblock FormatError :=
  result_map (with_status sb) (SuperblockStatus.new version (consistency_flags sb)).

Definition set_consistency_flags (sb : Superblock) (flags : Z) : result Superblock FormatError :=
  result_map (with_status sb) (SuperblockStatus.new (version sb) flags).

End Superblock.

(** ** The writer *)

Definition HDF5_SIGNATURE : list Z := [0x89; 0x48; 0x44; 0x46; 0x0D; 0x0A; 0x1A; 0x0A].
Definition FIRST_CANDIDATE : Z := 0.
Definition SECOND_CANDIDATE : Z := 512.
Definition V0_V1_VERSION_FIELDS_LEN : Z := 4.
Definition V0_V1_FIXED_LEN : Z := 24.
Definition V1_FIELDS_LEN : Z := 4.
Definition V2_V3_FIXED_LEN : Z := 12.
Definition ADDRESS_COUNT : Z := 4.
Definition ROOT_ENTRY_TAIL_LEN : Z := 24.
Definition CHECKSUM_LEN : Z := 4.
Definition CANDIDATE_LEN : Z := 15.

Definition superblock_serialized_size (w : OffsetWidth) : Z :=
  V2_V3_FIXED_LEN + ADDRESS_COUNT * OffsetWidth.get w + CHECKSUM_LEN.

Section Writer.
Context `{B : Build}.

Definition write_address (buf : list Z) (w : OffsetWidth) (address : Z) : exec (list Z) :=
  try_write_defined_offset buf address w.

Definition serialize_superblock (sb : Superblock) : exec (list Z) :=
  let status := sb_status sb in
  match status with
  | StatusZero _ | StatusOne _ =>
    fail (UnsupportedVersion (SuperblockVersion.get (SuperblockStatus.version status)))
  | StatusTwo flags | StatusThree flags =>
    let w := sb_offset_size sb in
    let buf :=
      (HDF5_SIGNATURE
       ++ [SuperblockVersion.get (Superblock.version sb); OffsetWidth.get w;
           LengthWidth.get (sb_length_size sb); flags])%list in
    buf ←? write_address buf w (sb_base_address sb);
    buf ←? try_write_offset buf
             (default (StoredAddress.undefined w) (sb_superblock_extension_address sb)) w;
    buf ←? write_address buf w (sb_eof_address sb);
    buf ←? write_address buf w (sb_root_group_address sb);
    checksum ← jenkins_lookup3 buf;
    ok (buf ++ le_bytes 4 checksum)%list
  end.

End Writer.

(** ** The search for the signature *)

(** A locator is its candidate address, a signature its address. *)
Notation SuperblockLocator := Z (only parsing).
Notation SuperblockSignature := Z (only parsing).

Inductive SuperblockCandidateRead : Type :=
| BytesRead (region : FileRegion)
| EndOfSource (region : FileRegion)
| PastExtent.

Inductive SuperblockCandidate : Type :=
| Absent (next : SuperblockLocator)
| Exhausted
| Present (signature : SuperblockSignature).

Record SuperblockCandidateFields : Type := mkCandidateFields {
  candidate_version : SuperblockVersion;
  candidate_widths : FormatWidths;
}.

(** [bytes.starts_with(prefix)] *)
Definition starts_with (bytes prefix : list Z) : bool :=
  bool_decide (take (length prefix) bytes = prefix).

Section Locator.
Context `{B : Build}.

Definition locator_new : SuperblockLocator := FIRST_CANDIDATE.

Definition locator_parse_range (self : SuperblockLocator) : exec FileRange :=
  FileRange.new self CANDIDATE_LEN.

Definition locator_next (self : SuperblockLocator) : option SuperblockLocator :=
  if self =? FIRST_CANDIDATE then Some SECOND_CANDIDATE else checked_mul self 2.

Definition locator_parse (self : SuperblockLocator) (read : SuperblockCandidateRead)
    : exec SuperblockCandidate :=
  range ←? locator_parse_range self;
  let finish bytes next :=
    ok (if starts_with bytes HDF5_SIGNATURE then Present self
        else match next with Some next => Absent next | None => Exhausted end) in
  match read with
  | BytesRead region =>
    try_ (FileRegion.subregion region range) (λ r, finish (region_bytes r) (locator_next self))
  | EndOfSource region =>
    let end_ := Z.min (FileRange.end_ (region_range region)) (FileRange.end_ range) in
    held ←? FileRange.new (FileRange.start range) (Z.max 0 (end_ - FileRange.start range));
    try_ (FileRegion.subregion region held) (λ r, finish (region_bytes r) None)
  | PastExtent => ok Exhausted
  end.

End Locator.

(** ** The parser *)

Module CandidateFields.
Section Reader.
Context `{B : Build}.

Definition read (fields : Fields) : exec (SuperblockCandidateFields * Fields) :=
  '(signature, fields) ←? Fields.array 8 fields;
  if negb (bool_decide (signature = HDF5_SIGNATURE)) then fail SignatureNotFound
  else
    '(version, fields) ←? Fields.u8 fields;
    try_ (SuperblockVersion.try_from version) (λ version,
    '(_, fields) ←?
      (match version with
       | VersionZero | VersionOne => Fields.array V0_V1_VERSION_FIELDS_LEN fields
       | VersionTwo | VersionThree => ok ([], fields)
       end);
    '(offset_size, fields) ←? Fields.u8 fields;
    '(length_size, fields) ←? Fields.u8 fields;
    try_ (FormatWidths.from_sizes offset_size length_size) (λ widths,
    ok (mkCandidateFields version widths, fields))).

Definition parse (bytes : list Z) : exec SuperblockCandidateFields :=
  '(candidate, _) ←? read (Fields.new bytes 0); ok candidate.

Definition encoded_len (self : SuperblockCandidateFields) : Z :=
  let offset := OffsetWidth.get (offsets (candidate_widths self)) in
  let length := LengthWidth.get (lengths (candidate_widths self)) in
  let addresses := ADDRESS_COUNT * offset in
  let root_entry := length + offset + ROOT_ENTRY_TAIL_LEN in
  match candidate_version self with
  | VersionZero => V0_V1_FIXED_LEN + addresses + root_entry
  | VersionOne => V0_V1_FIXED_LEN + V1_FIELDS_LEN + addresses + root_entry
  | VersionTwo | VersionThree => V2_V3_FIXED_LEN + addresses + CHECKSUM_LEN
  end.

Definition read_v0_or_v1 (self : SuperblockCandidateFields) (fields : Fields)
    : exec (Superblock * Fields) :=
  let version := candidate_version self in
  let o := offsets (candidate_widths self) in
  let l := lengths (candidate_widths self) in
  '(_, fields) ←? Fields.u8 fields;
  '(group_leaf_node_k, fields) ←? Fields.u16 fields;
  if group_leaf_node_k =? 0 then fail InvalidGroupLeafNodeK
  else
    '(group_internal_node_k, fields) ←? Fields.u16 fields;
    '(flags, fields) ←? Fields.u32 fields;
    try_ (SuperblockStatus.new version flags) (λ status,
    '(indexed_storage_internal_node_k, fields) ←?
      (match version with
       | VersionOne =>
         '(k, fields) ←? Fields.u16 fields;
         '(_, fields) ←? Fields.u16 fields;
         ok (Some k, fields)
       | _ => ok (None, fields)
       end);
    '(base_address, fields) ←? Fields.offset o fields;
    '(free_space_address, fields) ←? Fields.address o fields;
    '(eof_address, fields) ←? Fields.offset o fields;
    '(driver_info_address, fields) ←? Fields.address o fields;
    '(_, fields) ←? Fields.length l fields;
    '(root_group_address, fields) ←? Fields.address o fields;
    '(_, fields) ←? Fields.array ROOT_ENTRY_TAIL_LEN fields;
    ok (mkSuperblock status o l base_address eof_address root_group_address
          (Some group_leaf_node_k) (Some group_internal_node_k) indexed_storage_internal_node_k
          (Some free_space_address) (Some driver_info_address) None None, fields)).

Definition read_v2_or_v3 (self : SuperblockCandidateFields) (fields : Fields)
    : exec (Superblock * Fields) :=
  let version := candidate_version self in
  let o := offsets (candidate_widths self) in
  let l := lengths (candidate_widths self) in
  '(flags, fields) ←? Fields.u8 fields;
  try_ (SuperblockStatus.new version flags) (λ status,
  '(base_address, fields) ←? Fields.offset o fields;
  '(superblock_extension_address, fields) ←? Fields.address o fields;
  '(eof_address, fields) ←? Fields.offset o fields;
  '(root_group_address, fields) ←? Fields.address o fields;
  '(checksum, fields) ←? Fields.u32 fields;
  ok (mkSuperblock status o l base_address eof_address root_group_address
        None None None None None (Some superblock_extension_address) (Some checksum), fields)).

End Reader.
End CandidateFields.

Section References.
Context `{B : Build}.

Definition signature_parse_range (self : SuperblockSignature) : exec FileRange :=
  FileRange.new self CANDIDATE_LEN.

(** A [SuperblockRef] is its range. *)
Definition signature_parse (self : SuperblockSignature) (region : FileRegion) : exec FileRange :=
  range ←? signature_parse_range self;
  try_ (FileRegion.subregion region range) (λ r,
  candidate ←? CandidateFields.parse (region_bytes r);
  FileRange.new self (CandidateFields.encoded_len candidate)).

Definition ref_parse (range : FileRange) (region : FileRegion) : exec (Superblock * FormatWidths) :=
  try_ (FileRegion.subregion region range) (λ held,
  '(candidate, fields) ←? CandidateFields.read (Fields.new (region_bytes held) 0);
  required ←? FileRange.new (FileRange.start range) (CandidateFields.encoded_len candidate);
  try_ (FileRegion.subregion held required) (λ r,
  let bytes := region_bytes r in
  '(superblock, fields) ←?
    (match candidate_version candidate with
     | VersionZero | VersionOne => CandidateFields.read_v0_or_v1 candidate fields
     | VersionTwo | VersionThree =>
       _ ←? verify_trailing bytes;
       CandidateFields.read_v2_or_v3 candidate fields
     end);
  if negb (Fields.pos fields =? zlen bytes) then
    fail (Internal ("the version " +:+ pretty (SuperblockVersion.get (candidate_version candidate))
                    +:+ " superblock reader consumed " +:+ pretty (Fields.pos fields)
                    +:+ " of its " +:+ pretty (zlen bytes) +:+ " bytes"))
  else ok (superblock, candidate_widths candidate))).

End References.
