(* ===== verification/SuperblockSearch.v ===== *)
(** * Opening a file: the superblock search

    Models [src/superblock/mod.rs] of the facade crate with what it uses of
    [source/backend.rs] and [convert.rs]: the reads of a source, the search over the
    candidate addresses and the read of the superblock at the signature.  A byte slice is
    the instance [slice_source]; a [Source] that reads a device is a parameter of the
    definitions, the record [SuperblockSource]. *)

From stdpp Require Import strings pretty.
From S2P Require Import Prelude Addresses Words ByteFields FileRegions Superblocks.

Local Open Scope string_scope.
Local Open Scope Z_scope.

(** The trait [SuperblockSource] and its supertrait [RangeReader]; [read_candidate offset n]
    returns what the method writes to its buffer of [n] bytes. *)
Record SuperblockSource : Type := mkSource {
  source_extent : Z;
  read_candidate : Z → Z → exec (list Z);
  read_range : FileRange → exec (list Z);
}.

Record LocatedSuperblock : Type := mkLocated {
  located_address : Z;
  located_superblock : Superblock;
  located_widths : FormatWidths;
}.

Section Search.
Context `{B : Build}.

(** ** Byte slices as sources *)

Definition slice_range (offset len : Z) : result (Z * Z) FormatError :=
  result_bind (ok_or (checked_add offset len) (OffsetOverflow offset len)) (λ end_,
  result_bind (to_usize offset) (λ offset,
  result_bind (to_usize end_) (λ end_, Ok (offset, end_)))).

Definition unexpected_eof (range : FileRange) (extent : Z) : FormatError :=
  UnexpectedSourceEof (FileRange.end_ range) extent.

Definition bytes_in (bytes : list Z) (range : FileRange) : result (list Z) FormatError :=
  if zlen bytes <? FileRange.end_ range then Err (unexpected_eof range (zlen bytes))
  else
    result_bind (slice_range (FileRange.start range) (FileRange.length range)) (λ '(a, b),
    ok_or (get_range bytes a b) (unexpected_eof range (zlen bytes))).

Definition slice_read_candidate (self : list Z) (offset n : Z) : exec (list Z) :=
  range ←? FileRange.new offset n;
  try_ (bytes_in self range) (λ bytes, _ ← assert_ (zlen bytes =? n); ok bytes).

(** [MetadataBytes::borrowed(range, bytes_in(self, range)?)], as its bytes. *)
Definition slice_read_range (self : list Z) (range : FileRange) : exec (list Z) :=
  try_ (bytes_in self range) (λ bytes,
  try_ (FileRegion.new range bytes) (λ region, ok (region_bytes region))).

Definition slice_source (bytes : list Z) : SuperblockSource := {|
  source_extent := zlen bytes;
  read_candidate := slice_read_candidate bytes;
  read_range := slice_read_range bytes;
|}.

(** ** The search *)

Definition candidate_overrun (held : FileRange) : FormatError :=
  Internal ("a " +:+ pretty (FileRange.length held) +:+ "-byte superblock candidate exceeds its "
            +:+ pretty CANDIDATE_LEN +:+ "-byte buffer").

(** [held == range] *)
Definition range_eqb (a b : FileRange) : bool :=
  (FileRange.start a =? FileRange.start b) && (FileRange.end_ a =? FileRange.end_ b).

(** One candidate: what it is, the part of its range in the file, and the buffer. *)
Definition search_step (file : SuperblockSource) (locator : SuperblockLocator) (candidate : list Z)
    : exec (SuperblockCandidate * FileRange * list Z) :=
  range ←? locator_parse_range locator;
  held ←? FileRange.new (FileRange.start range)
    (Z.min (Z.max 0 (source_extent file - FileRange.start range)) (FileRange.length range));
  try_ (to_usize (FileRange.length held)) (λ n,
  if zlen candidate <? n then fail (candidate_overrun held)
  else
    '(read, candidate) ←?
      (if FileRange.length held =? 0 then ok (PastExtent, candidate)
       else
         held_bytes ←? read_candidate file (FileRange.start held) n;
         let candidate := (held_bytes ++ drop (Z.to_nat n) candidate)%list in
         try_ (FileRegion.new held held_bytes) (λ region,
         ok (if range_eqb held range then BytesRead region else EndOfSource region, candidate)));
    found ←? locator_parse locator read;
    ok (found, held, candidate)).

(** The candidates double from 512, so there are 56 of them; running out of fuel is a
    panic, which the results exclude. *)
Fixpoint search_loop (fuel : nat) (file : SuperblockSource) (locator : SuperblockLocator)
    (candidate : list Z) : exec (option (SuperblockSignature * FileRange) * list Z) :=
  match fuel with
  | O => Panic
  | S fuel =>
    '(found, held, candidate) ←? search_step file locator candidate;
    match found with
    | Absent next => search_loop fuel file next candidate
    | Exhausted => ok (None, candidate)
    | Present signature => ok (Some (signature, held), candidate)
    end
  end.

Definition search_fuel : nat := 56.

Definition search (file : SuperblockSource) (candidate : list Z)
    : exec (option (SuperblockSignature * FileRange) * list Z) :=
  search_loop search_fuel file locator_new candidate.

Definition candidate_buffer : list Z := replicate (Z.to_nat CANDIDATE_LEN) 0.

Definition find_signature (file : SuperblockSource) : exec (option Z) :=
  '(found, _) ←? search file candidate_buffer; ok (fst <$> found).

Definition read_with_range (file : SuperblockSource) : exec (LocatedSuperblock * FileRange) :=
  '(found, candidate) ←? search file candidate_buffer;
  try_ (ok_or found SignatureNotFound) (λ '(signature, held),
  candidate_range ←? signature_parse_range signature;
  if negb (FileRange.contains held candidate_range) then
    fail (unexpected_eof candidate_range (source_extent file))
  else
    try_ (to_usize (FileRange.length held)) (λ n,
    try_ (ok_or (get_range candidate 0 n) (candidate_overrun held)) (λ held_bytes,
    try_ (FileRegion.new held held_bytes) (λ region,
    range ←? signature_parse signature region;
    bytes ←? read_range file range;
    try_ (FileRegion.new range bytes) (λ region,
    '(superblock, widths) ←? ref_parse range region;
    ok (mkLocated signature superblock widths, range)))))).

Definition read (file : SuperblockSource) : exec LocatedSuperblock :=
  '(located, _) ←? read_with_range file; ok located.

End Search.

Module SearchTests.
#[local] Existing Instance build64.

Definition sample : Superblock :=
  mkSuperblock (StatusThree 1) OffsetEight LengthEight 512 4096 48
    None None None None None None None.

(** A file with a userblock of 512 bytes. *)
Example opens :
  (sb ←? serialize_superblock sample; read (slice_source (replicate 512 7 ++ sb)%list))
  = ok (mkLocated 512
      (mkSuperblock (StatusThree 1) OffsetEight LengthEight 512 4096 48
         None None None None None (Some U64_MAX) (Some 1891268453)) (mkWidths OffsetEight LengthEight)).
Proof. vm_compute. reflexivity. Qed.

Example not_found : read (slice_source (replicate 600 7)) = fail SignatureNotFound.
Proof. vm_compute. reflexivity. Qed.

End SearchTests.
