(* ===== verification/SuperblockFacts.v ===== *)
(** * Facts about the superblock and its search

    The search over a byte slice returns the first candidate address that holds the
    signature, a superblock that was written is read back, and arbitrary bytes are read
    without a panic. *)

From stdpp Require Import strings.
From S2P Require Import Prelude Addresses Words ByteFields ByteFieldFacts Checksums FileRegions.
From S2P Require Import Superblocks SuperblockSearch.

Local Open Scope Z_scope.

(** ** Ranges *)

(** A range is determined by its ends. *)
Lemma range_eq (r1 r2 : FileRange) :
  range_start r1 = range_start r2 → range_end r1 = range_end r2 → r1 = r2.
Proof. destruct r1, r2; simpl. intros -> ->. f_equal. apply bool_eq_pi. Qed.

Lemma range_new_ok s n :
  0 ≤ s → 0 ≤ n → s + n ≤ U64_MAX →
  ∃ r, FileRange.new s n = ok r ∧ range_start r = s ∧ range_end r = s + n.
Proof.
  intros Hs Hn Hm. unfold FileRange.new, AddressRange.new, Address.checked_add.
  rewrite (proj2 (checked_add_Some s n (s + n))) by done. simpl.
  destruct (AddressRange_ordered_is_Some s (s + n)) as [r Hr]; [lia|]. rewrite Hr. exists r. split; [done|].
  by apply AddressRange_ordered_Some in Hr.
Qed.

Lemma range_new_sound s n :
  0 ≤ s → 0 ≤ n →
  FileRange.new s n ⇝? (λ r, range_start r = s ∧ range_end r = s + n ∧ s + n ≤ U64_MAX).
Proof.
  intros Hs Hn. destruct (Z.le_gt_cases (s + n) U64_MAX) as [Hle|Hgt].
  - destruct (range_new_ok s n Hs Hn Hle) as (r & -> & ? & ?). by apply sound_ok.
  - unfold FileRange.new, AddressRange.new, Address.checked_add.
    rewrite (proj2 (checked_add_None s n)) by done. apply sound_fail.
Qed.

Section Slices.
Context `{B : Build}.

(** A whole region is its own subregion. *)
Lemma subregion_all r bytes :
  FileRange.length r = zlen bytes → zlen bytes ≤ USIZE_MAX →
  FileRegion.subregion (mkRegion r bytes) r = Ok (mkRegion r bytes).
Proof.
  intros Hl Hm. unfold FileRegion.subregion. simpl.
  replace (FileRange.contains r r) with true
    by (unfold FileRange.contains, AddressRange.contains; lia). simpl.
  unfold FileRegion.usize_try_from, FileRange.length, FileRange.end_, FileRange.start in *.
  replace (range_start r - range_start r) with 0 by lia.
  pose proof (zlen_nonneg bytes). replace (0 <=? USIZE_MAX) with true by lia.
  replace (range_end r - range_start r <=? USIZE_MAX) with true by lia. rewrite Hl.
  pose proof (get_range_prefix bytes []) as Hg. rewrite app_nil_r in Hg. by rewrite Hg.
Qed.

Lemma region_new_ok r bytes :
  FileRange.length r = zlen bytes → FileRegion.new r bytes = Ok (mkRegion r bytes).
Proof. intros Hl. unfold FileRegion.new. by rewrite Hl, Z.eqb_refl. Qed.

(** The bytes of a file from an address on. *)
Definition piece (file : list Z) (a n : Z) : list Z := take (Z.to_nat n) (drop (Z.to_nat a) file).

Lemma bytes_in_ok file r :
  zlen file ≤ USIZE_MAX → 0 ≤ range_start r → range_end r ≤ zlen file →
  bytes_in file r = Ok (piece file (range_start r) (FileRange.length r)) ∧
  zlen (piece file (range_start r) (FileRange.length r)) = FileRange.length r.
Proof.
  intros Hu Hs He. pose proof (range_ordered r) as Ho. pose proof usize_bounds as Hub.
  unfold bytes_in, FileRange.end_, FileRange.length, FileRange.start, slice_range.
  replace (zlen file <? range_end r) with false by lia.
  rewrite (proj2 (checked_add_Some (range_start r) _ (range_end r))) by lia.
  cbn [ok_or result_bind]. unfold to_usize. replace (range_start r <=? USIZE_MAX) with true by lia.
  replace (range_end r <=? USIZE_MAX) with true by lia. cbn [result_bind].
  unfold get_range. replace (_ && _ && _) with true by lia. split; [done|].
  unfold piece. rewrite zlen_take; [done|]. rewrite zlen_drop by lia. lia.
Qed.

Lemma slice_read_candidate_ok file a n :
  zlen file ≤ USIZE_MAX → 0 ≤ a → 0 ≤ n → a + n ≤ zlen file →
  slice_read_candidate file a n = ok (piece file a n).
Proof.
  intros Hu Ha Hn Hl. pose proof usize_bounds. unfold slice_read_candidate.
  destruct (range_new_ok a n Ha Hn ltac:(lia)) as (r & -> & Hs & He). rewrite and_then_ok.
  destruct (bytes_in_ok file r Hu ltac:(lia) ltac:(lia)) as [-> Hz]. cbn [try_].
  assert (Hlen : FileRange.length r = n) by (unfold FileRange.length; lia).
  rewrite Hs, Hlen in *. rewrite Hz, Z.eqb_refl. done.
Qed.

Lemma slice_read_range_ok file r :
  zlen file ≤ USIZE_MAX → 0 ≤ range_start r → range_end r ≤ zlen file →
  slice_read_range file r = ok (piece file (range_start r) (FileRange.length r)).
Proof.
  intros Hu Hs He. unfold slice_read_range.
  destruct (bytes_in_ok file r Hu Hs He) as [-> Hz]. cbn [try_]. by rewrite region_new_ok.
Qed.

Lemma slice_read_range_sound file r :
  zlen file ≤ USIZE_MAX → Forall byte file → 0 ≤ range_start r →
  slice_read_range file r ⇝? (λ bytes, Forall byte bytes ∧ zlen bytes = FileRange.length r ∧ zlen bytes ≤ USIZE_MAX).
Proof.
  intros Hu Hb Hs. destruct (Z.le_gt_cases (range_end r) (zlen file)) as [He|He].
  - rewrite slice_read_range_ok by done. apply sound_ok.
    destruct (bytes_in_ok file r Hu Hs He) as [_ ->].
    split_and!; [by apply Forall_take, Forall_drop|done|unfold FileRange.length; lia].
  - unfold slice_read_range, bytes_in, FileRange.end_.
    replace (zlen file <? range_end r) with true by lia. apply sound_fail.
Qed.

(** ** One candidate *)

Definition signature_at (file : list Z) (a : Z) : bool :=
  bool_decide (take 8 (drop (Z.to_nat a) file) = HDF5_SIGNATURE).

Lemma starts_with_piece file a n :
  8 ≤ n ∨ zlen file ≤ a + n → 0 ≤ a → starts_with (piece file a n) HDF5_SIGNATURE = signature_at file a.
Proof.
  intros Hn Ha. unfold starts_with, signature_at, piece. simpl length. do 2 f_equal.
  rewrite take_take. destruct Hn as [Hn|Hn]; [by replace (8 `min` Z.to_nat n)%nat with 8%nat by lia|].
  destruct (decide (8 ≤ Z.to_nat n)%nat); [by replace (8 `min` Z.to_nat n)%nat with 8%nat by lia|].
  rewrite !take_ge; [done|rewrite length_drop; unfold zlen in *; lia..].
Qed.

Lemma signature_needs_eight file a : 0 ≤ a → signature_at file a = true → a + 8 ≤ zlen file.
Proof.
  unfold signature_at. intros Ha H%bool_decide_eq_true. apply (f_equal length) in H.
  rewrite length_take, length_drop in H. change (length HDF5_SIGNATURE) with 8%nat in H.
  unfold zlen. lia.
Qed.

(** What the search makes of a candidate, from the bytes of the file alone. *)
Definition classify (file : list Z) (a : Z) : SuperblockCandidate :=
  if signature_at file a then Present a
  else if a + CANDIDATE_LEN <=? zlen file then
    match locator_next a with Some next => Absent next | None => Exhausted end
  else Exhausted.

(** The candidate is classified by the part of its range inside the file. *)
Lemma locator_parse_held file a n held range :
  zlen file ≤ USIZE_MAX → 0 ≤ a → n = Z.min (Z.max 0 (zlen file - a)) 15 → zlen (piece file a n) = n →
  FileRange.new a 15 = ok range → range_start range = a → range_end range = a + 15 →
  FileRange.new a n = ok held → range_start held = a → range_end held = a + n →
  locator_parse a (if range_eqb held range then BytesRead (mkRegion held (piece file a n))
                   else EndOfSource (mkRegion held (piece file a n))) = ok (classify file a).
Proof.
  intros Hu Ha Hn Hz Hrange Hrs Hre Hheld Hhs Hhe. pose proof usize_bounds as Hub.
  unfold range_eqb, FileRange.start, FileRange.end_, locator_parse, locator_parse_range, classify, CANDIDATE_LEN.
  rewrite Hrange, and_then_ok, Hrs, Hre, Hhs, Hhe, Z.eqb_refl. cbn [andb].
  destruct (a + n =? a + 15) eqn:E15.
  - rewrite (range_eq held range) by lia. rewrite subregion_all by (unfold FileRange.length; lia).
    cbn [try_ region_bytes]. rewrite starts_with_piece by lia.
    replace (a + 15 <=? zlen file) with true by lia. by destruct (signature_at file a).
  - cbn [region_range]. unfold FileRange.end_, FileRange.start. rewrite Hrs, Hre, Hhe.
    replace (Z.max 0 (Z.min (a + n) (a + 15) - a)) with n by lia. rewrite Hheld, and_then_ok.
    rewrite subregion_all by (unfold FileRange.length; lia).
    cbn [try_ region_bytes]. rewrite starts_with_piece by lia.
    replace (a + 15 <=? zlen file) with false by lia. by destruct (signature_at file a).
Qed.

Lemma search_step_ok file a buf :
  zlen file ≤ USIZE_MAX → 0 ≤ a → a + CANDIDATE_LEN ≤ U64_MAX → zlen buf = CANDIDATE_LEN →
  ∃ held buf', search_step (slice_source file) a buf = ok (classify file a, held, buf') ∧
    zlen buf' = CANDIDATE_LEN ∧ range_start held = a ∧
    (signature_at file a = true →
       range_end held = Z.min (zlen file) (a + CANDIDATE_LEN) ∧
       take (Z.to_nat (FileRange.length held)) buf' = piece file a (FileRange.length held)).
Proof.
  intros Hu Ha Hm Hbuf. pose proof usize_bounds as Hub. unfold CANDIDATE_LEN in *.
  unfold search_step, locator_parse_range, CANDIDATE_LEN.
  destruct (range_new_ok a 15 Ha ltac:(lia) Hm) as (range & Hrange & Hrs & Hre).
  rewrite Hrange, and_then_ok. unfold FileRange.start, FileRange.length in *. rewrite Hrs, Hre.
  set (n := Z.min (Z.max 0 (source_extent (slice_source file) - a)) (a + 15 - a)).
  assert (Hn : n = Z.min (Z.max 0 (zlen file - a)) 15) by (unfold n; simpl; lia).
  destruct (range_new_ok a n Ha ltac:(lia) ltac:(lia)) as (held & Hheld & Hhs & Hhe).
  rewrite Hheld, and_then_ok, Hhs, Hhe. replace (a + n - a) with n by lia. unfold to_usize.
  replace (n <=? USIZE_MAX) with true by lia. cbn [try_]. rewrite Hbuf.
  replace (15 <? n) with false by lia.
  destruct (n =? 0) eqn:E0.
  - rewrite and_then_ok. unfold locator_parse, locator_parse_range, CANDIDATE_LEN.
    rewrite Hrange, !and_then_ok. exists held, buf.
    assert (Hsig : signature_at file a = false)
      by (apply not_true_is_false; intros H%signature_needs_eight; lia).
    unfold classify, CANDIDATE_LEN. rewrite Hsig. replace (a + 15 <=? zlen file) with false by lia. done.
  - cbn [read_candidate slice_source]. rewrite slice_read_candidate_ok by lia. rewrite and_then_ok.
    assert (Hz : zlen (piece file a n) = n)
      by (unfold piece; rewrite zlen_take; [done|rewrite zlen_drop by lia; lia]).
    rewrite region_new_ok by (unfold FileRange.length; lia). cbn [try_]. rewrite and_then_ok.
    exists held, (piece file a n ++ drop (Z.to_nat n) buf).
    assert (Hbuf' : zlen (piece file a n ++ drop (Z.to_nat n) buf) = 15)
      by (rewrite zlen_app, Hz, zlen_drop by lia; lia).
    assert (Hpre : take (Z.to_nat n) (piece file a n ++ drop (Z.to_nat n) buf) = piece file a n)
      by (apply take_app_length'; unfold zlen in Hz; lia).
    rewrite (locator_parse_held file a n held range) by done.
    rewrite and_then_ok. split_and!; [done..|]. intros Hsig. rewrite Hhs, Hhe.
    split; [lia|]. by replace (a + n - a) with n by lia.
Qed.

(** ** The search *)

(** The addresses the format defines: byte 0 and each power of two from 512 on. *)
Definition candidates : list Z := 0 :: ((λ k, 2 ^ (9 + Z.of_nat k)) <$> seq 0 55).

(** The first candidate from the [i]-th on that holds the signature. *)
Definition found_from (file : list Z) (i : nat) : option Z :=
  head (filter (λ a, signature_at file a = true) (drop i candidates)).

Definition first_signature (file : list Z) : option Z := found_from file 0.

Lemma candidates_next i (a : Z) :
  candidates !! i = Some a →
  locator_next a = candidates !! S i ∧ 0 ≤ a ∧ a + CANDIDATE_LEN ≤ U64_MAX.
Proof.
  assert (H : forallb (λ i, match candidates !! i with
    | Some a => bool_decide (locator_next a = candidates !! S i) && (0 <=? a)
                && (a + CANDIDATE_LEN <=? U64_MAX)
    | None => true end) (seq 0 56) = true) by (vm_compute; reflexivity).
  intros Hi. pose proof (lookup_lt_Some _ _ _ Hi) as Hl. change (length candidates) with 56%nat in Hl.
  rewrite forallb_forall in H. specialize (H i ltac:(apply in_seq; lia)). cbv beta in H.
  rewrite Hi in H. apply andb_true_iff in H as [[H1%bool_decide_eq_true H2]%andb_true_iff H3].
  split_and!; [done|lia|lia].
Qed.

Lemma candidates_apart i j a b :
  candidates !! i = Some a → candidates !! j = Some b → (i < j)%nat → a + CANDIDATE_LEN ≤ b.
Proof.
  assert (H : forallb (λ i, forallb (λ j, match candidates !! i, candidates !! j with
    | Some a, Some b => (j <=? i)%nat || (a + CANDIDATE_LEN <=? b)
    | _, _ => true end) (seq 0 56)) (seq 0 56) = true) by (vm_compute; reflexivity).
  intros Hi Hj Hlt. pose proof (lookup_lt_Some _ _ _ Hi) as Hli. pose proof (lookup_lt_Some _ _ _ Hj) as Hlj.
  change (length candidates) with 56%nat in *. rewrite forallb_forall in H.
  specialize (H i ltac:(apply in_seq; lia)). cbv beta in H. rewrite forallb_forall in H.
  specialize (H j ltac:(apply in_seq; lia)). cbv beta in H. rewrite Hi, Hj in H. lia.
Qed.

(** No candidate behind one that the file ends in holds the signature. *)
Lemma rest_absent file i a :
  candidates !! i = Some a → zlen file < a + CANDIDATE_LEN →
  filter (λ a, signature_at file a = true) (drop (S i) candidates) = [].
Proof.
  intros Hi Hl. destruct (filter _ _) as [|b l] eqn:Ef; [done|exfalso].
  assert (Hb : b ∈ filter (λ a, signature_at file a = true) (drop (S i) candidates))
    by (rewrite Ef; by left).
  apply list_elem_of_filter in Hb as [Hsig Hb]. apply list_elem_of_lookup in Hb as [k Hk]. rewrite lookup_drop in Hk.
  pose proof (candidates_apart i (S i + k) a b Hi Hk ltac:(lia)) as Hab.
  destruct (candidates_next i a Hi) as (_ & H0 & _). unfold CANDIDATE_LEN in *.
  pose proof (signature_needs_eight file b ltac:(lia) Hsig). lia.
Qed.

Lemma search_loop_ok file fuel i (a : Z) buf :
  zlen file ≤ USIZE_MAX → candidates !! i = Some a → (56 ≤ i + fuel)%nat → zlen buf = CANDIDATE_LEN →
  ∃ held buf', search_loop fuel (slice_source file) a buf
    = ok ((λ a, (a, held)) <$> found_from file i, buf') ∧
    zlen buf' = CANDIDATE_LEN ∧
    ∀ a, found_from file i = Some a →
      range_start held = a ∧ range_end held = Z.min (zlen file) (a + CANDIDATE_LEN) ∧
      take (Z.to_nat (FileRange.length held)) buf' = piece file a (FileRange.length held).
Proof.
  intros Hu. revert i a buf. induction fuel as [|fuel IH]; intros i a buf Hi Hf Hb.
  { apply lookup_lt_Some in Hi. change (length candidates) with 56%nat in Hi. lia. }
  destruct (candidates_next i a Hi) as (Hnext & Ha & Hm).
  destruct (search_step_ok file a buf Hu Ha Hm Hb) as (held & buf' & Hstep & Hb' & Hs & Hsig).
  cbn [search_loop]. rewrite Hstep, and_then_ok. unfold found_from. rewrite (drop_S _ _ _ Hi), filter_cons.
  fold (found_from file (S i)). unfold classify. destruct (signature_at file a) eqn:E.
  - rewrite decide_True by done. exists held, buf'. split_and!; [done|done|].
    intros ? [= <-]. destruct (Hsig eq_refl). auto.
  - rewrite decide_False by done. destruct (a + CANDIDATE_LEN <=? zlen file) eqn:El.
    + rewrite Hnext. destruct (candidates !! S i) as [next|] eqn:En.
      * apply (IH (S i)); [done|lia|done].
      * unfold found_from. rewrite drop_ge by (by apply lookup_ge_None). exists held, buf'. by split_and!.
    + unfold found_from. rewrite (rest_absent file i a) by (done || lia). exists held, buf'. by split_and!.
Qed.

(** The search finds the first candidate with the signature, and the buffer holds the
    bytes of its candidate range that are in the file. *)
Lemma search_ok file :
  zlen file ≤ USIZE_MAX →
  ∃ held buf, search (slice_source file) candidate_buffer
    = ok ((λ a, (a, held)) <$> first_signature file, buf) ∧
    zlen buf = CANDIDATE_LEN ∧
    ∀ a, first_signature file = Some a →
      range_start held = a ∧ range_end held = Z.min (zlen file) (a + CANDIDATE_LEN) ∧
      take (Z.to_nat (FileRange.length held)) buf = piece file a (FileRange.length held).
Proof. intros Hu. by apply (search_loop_ok file 56 0 0). Qed.

Lemma first_signature_elem file a :
  first_signature file = Some a → a ∈ candidates ∧ signature_at file a = true.
Proof.
  unfold first_signature, found_from. rewrite drop_0. intros H.
  destruct (filter _ _) as [|b l] eqn:Ef; [done|]. injection H as <-.
  assert (Hb : b ∈ filter (λ a, signature_at file a = true) candidates) by (rewrite Ef; by left).
  apply list_elem_of_filter in Hb as [? ?]. auto.
Qed.

Lemma first_signature_bounds file a : first_signature file = Some a → 0 ≤ a ∧ a + 8 ≤ zlen file.
Proof.
  intros [Ha Hs]%first_signature_elem. apply list_elem_of_lookup in Ha as [i Hi].
  destruct (candidates_next i a Hi) as (_ & H0 & _). split; [done|by apply signature_needs_eight].
Qed.

(** A file with its superblock behind a userblock in which no candidate holds the
    signature. *)
Lemma first_signature_at file n :
  UserblockSize.try_from n = Ok n → n ≤ 2 ^ 63 → signature_at file n = true →
  (∀ b, b ∈ candidates → b < n → signature_at file b = false) → first_signature file = Some n.
Proof.
  intros Hub Hmax Hsig Hbefore.
  assert (Hin : n ∈ candidates).
  { unfold UserblockSize.try_from, UserblockSize.NONE, UserblockSize.MIN, is_power_of_two in Hub.
    destruct (n =? 0) eqn:E0; [apply Z.eqb_eq in E0 as ->; by left|right]. simpl in Hub.
    destruct ((512 <=? n) && _) eqn:E; [|done]. apply andb_true_iff in E as [E1 E2].
    apply list_elem_of_fmap. exists (Z.to_nat (Z.log2 n - 9)).
    assert (9 ≤ Z.log2 n ≤ 63).
    { split; [apply (Z.log2_le_mono 512); lia|]. pose proof (Z.log2_le_mono n (2 ^ 63) Hmax) as H.
      by rewrite Z.log2_pow2 in H. }
    split; [|apply elem_of_seq; lia]. rewrite Z2Nat.id by lia.
    replace (9 + (Z.log2 n - 9)) with (Z.log2 n) by lia. lia. }
  apply list_elem_of_lookup in Hin as [i Hi]. unfold first_signature, found_from. rewrite drop_0.
  rewrite <- (take_drop_middle _ _ _ Hi), filter_app, filter_cons, decide_True by done.
  replace (filter _ (take i candidates)) with (@nil Z); [done|].
  destruct (filter _ (take i candidates)) as [|b l] eqn:Ef; [done|exfalso].
  assert (Hb : b ∈ filter (λ a, signature_at file a = true) (take i candidates)) by (rewrite Ef; by left).
  apply list_elem_of_filter in Hb as [Hs Hb]. apply list_elem_of_lookup in Hb as [j Hj].
  apply lookup_take_Some in Hj as [Hj Hji].
  pose proof (candidates_apart j i b n Hj Hi Hji) as Hlt. unfold CANDIDATE_LEN in Hlt.
  rewrite Hbefore in Hs; [done| |lia]. by eapply list_elem_of_lookup_2.
Qed.

(** The first signature is the one at the least candidate. *)
Lemma first_signature_least file :
  match first_signature file with
  | Some a => a ∈ candidates ∧ signature_at file a = true ∧
              ∀ b, b ∈ candidates → b < a → signature_at file b = false
  | None => ∀ b, b ∈ candidates → signature_at file b = false
  end.
Proof.
  destruct (first_signature file) as [a|] eqn:E; unfold first_signature, found_from in E; rewrite drop_0 in E.
  - destruct (first_signature_elem file a) as [Ha Hs]; [by unfold first_signature, found_from|].
    split_and!; [done|done|]. intros b Hb Hlt. apply not_true_is_false. intros Hsb.
    apply list_elem_of_lookup in Ha as [i Hi]. apply list_elem_of_lookup in Hb as [j Hj].
    destruct (Nat.lt_trichotomy j i) as [Hji|[->|Hij]].
    + rewrite <- (take_drop_middle _ _ _ Hj), filter_app, filter_cons, decide_True in E by done.
      destruct (filter _ (take j candidates)) as [|c l] eqn:Ef; simpl in E; injection E as <-; [lia|].
      assert (Hc : c ∈ take j candidates).
      { apply (list_elem_of_filter (λ a, signature_at file a = true)). rewrite Ef. by left. }
      apply list_elem_of_lookup in Hc as [k [Hk Hkj]%lookup_take_Some].
      pose proof (candidates_apart k j c b Hk Hj Hkj) as H1. unfold CANDIDATE_LEN in H1. lia.
    + assert (a = b) by congruence. lia.
    + pose proof (candidates_apart i j a b Hi Hj Hij) as H1. unfold CANDIDATE_LEN in H1. lia.
  - intros b Hb. apply not_true_is_false. intros Hsb.
    assert (Hin : b ∈ filter (λ a, signature_at file a = true) candidates) by (by apply list_elem_of_filter).
    destruct (filter _ candidates); [by apply elem_of_nil in Hin|done].
Qed.

End Slices.

(** ** The superblock is read back

    The writer of versions 2 and 3 succeeds exactly when its addresses fit, and opening a
    file that holds what it wrote returns the superblock; reading arbitrary bytes does not
    panic. *)

(** ** What is written *)

Definition sb_flags (sb : Superblock) : Z := SuperblockStatus.flags (sb_status sb).

(** The bits stored for the extension address: absent and [u64::MAX] are undefined. *)
Definition extension_bits (w : OffsetWidth) (ext : option Z) : Z :=
  match ext with
  | None => StoredAddress.undefined w
  | Some a => if a =? U64_MAX then StoredAddress.undefined w else a
  end.

Definition sb_body (sb : Superblock) : list Z :=
  let w := sb_offset_size sb in
  HDF5_SIGNATURE
  ++ [SuperblockVersion.get (Superblock.version sb); OffsetWidth.get w;
      LengthWidth.get (sb_length_size sb); sb_flags sb]
  ++ obytes w (sb_base_address sb)
  ++ obytes w (extension_bits w (sb_superblock_extension_address sb))
  ++ obytes w (sb_eof_address sb) ++ obytes w (sb_root_group_address sb).

Definition sb_bytes (sb : Superblock) : list Z := sb_body sb ++ le_bytes 4 (lookup3 (sb_body sb)).

(** The fields are values of their Rust types. *)
Definition sb_typed (sb : Superblock) : Prop :=
  match sb_status sb with
  | StatusZero bits | StatusOne bits => fits 4 bits
  | StatusTwo bits | StatusThree bits => fits 1 bits
  end ∧
  u64 (sb_base_address sb) ∧ u64 (sb_eof_address sb) ∧ u64 (sb_root_group_address sb) ∧
  match sb_superblock_extension_address sb with Some a => u64 a | None => True end.

Definition latest (v : SuperblockVersion) : Prop := v = VersionTwo ∨ v = VersionThree.

(** What a version 2 or 3 superblock can store at its offset width. *)
Definition sb_writable (sb : Superblock) : Prop :=
  latest (Superblock.version sb) ∧
  (let w := sb_offset_size sb in
   address_fits w (Defined (sb_base_address sb)) ∧ address_fits w (Defined (sb_eof_address sb)) ∧
   address_fits w (Defined (sb_root_group_address sb)) ∧
   match sb_superblock_extension_address sb with
   | Some a => fits (OffsetWidth.get w) a ∨ a = U64_MAX
   | None => True
   end).

(** The superblock as it is read back: the fields of versions 0 and 1 are absent, the
    extension address and the checksum are what was stored. *)
Definition stored_form (sb : Superblock) : Superblock :=
  mkSuperblock (sb_status sb) (sb_offset_size sb) (sb_length_size sb) (sb_base_address sb)
    (sb_eof_address sb) (sb_root_group_address sb) None None None None None
    (Some (extension_bits (sb_offset_size sb) (sb_superblock_extension_address sb)))
    (Some (lookup3 (sb_body sb))).

Section Codec.
Context `{B : Build}.

Lemma write_address_cases buf a w :
  u64 a →
  (address_fits w (Defined a) ∧ write_address buf w a = ok (buf ++ obytes w a)) ∨
  (¬ address_fits w (Defined a) ∧ ∃ e, write_address buf w a = fail e).
Proof. intros Ha. exact (try_write_decoded_cases buf (Defined a) w Ha). Qed.

Lemma extension_fits w ext :
  match ext with Some a => fits (OffsetWidth.get w) a ∨ a = U64_MAX | None => True end →
  fits (OffsetWidth.get w) (extension_bits w ext).
Proof.
  destruct ext as [a|]; simpl; [|intros _; apply fits_undefined].
  destruct (a =? U64_MAX) eqn:E; [intros _; apply fits_undefined|]. intros [H|H]; [done|lia].
Qed.

Lemma write_extension_cases buf ext w :
  match ext with Some a => u64 a | None => True end →
  (match ext with Some a => fits (OffsetWidth.get w) a ∨ a = U64_MAX | None => True end ∧
   try_write_offset buf (default (StoredAddress.undefined w) ext) w
   = ok (buf ++ obytes w (extension_bits w ext))) ∨
  (¬ (match ext with Some a => fits (OffsetWidth.get w) a ∨ a = U64_MAX | None => True end) ∧
   ∃ e, try_write_offset buf (default (StoredAddress.undefined w) ext) w = fail e).
Proof.
  intros Hu. destruct ext as [a|]; simpl.
  - destruct (try_write_offset_cases buf a w Hu) as [[Hf ->]|(Hf & Hn & ->)].
    + left. split; [done|]. destruct (a =? U64_MAX) eqn:E; [|done].
      apply Z.eqb_eq in E as ->. by rewrite obytes_max.
    + right. split; [tauto|by eexists].
  - destruct (try_write_offset_cases buf (StoredAddress.undefined w) w) as [[_ ->]|(Hf & _ & _)].
    + apply (offset_fits_u64 w). apply fits_undefined.
    + by left.
    + by destruct Hf; apply fits_undefined.
Qed.

Lemma Forall_byte_obytes w v : Forall byte (obytes w v).
Proof. apply le_bytes_byte. Qed.

Lemma sb_body_bytes sb : sb_typed sb → latest (Superblock.version sb) → Forall byte (sb_body sb).
Proof.
  intros (Hs & _) Hl. unfold sb_body. rewrite !Forall_app. split_and!; try apply le_bytes_byte.
  - unfold HDF5_SIGNATURE. repeat constructor; unfold byte; lia.
  - unfold Superblock.version, sb_flags, latest in *. unfold fits in Hs.
    repeat constructor; unfold byte; try lia.
    all: destruct (sb_status sb); simpl in *; destruct (sb_offset_size sb), (sb_length_size sb); simpl; lia || naive_solver lia.
Qed.

(** The writer succeeds exactly on writable superblocks. *)
Lemma serialize_superblock_cases sb :
  sb_typed sb →
  (sb_writable sb ∧ serialize_superblock sb = ok (sb_bytes sb)) ∨
  (¬ sb_writable sb ∧ ∃ e, serialize_superblock sb = fail e).
Proof.
  intros Ht. pose proof Ht as (Hs & Hb & He & Hr & Hx). unfold sb_writable, latest, Superblock.version.
  assert (Hcase : (∃ bits, (sb_status sb = StatusTwo bits ∨ sb_status sb = StatusThree bits)) ∨
    (∃ bits, (sb_status sb = StatusZero bits ∨ sb_status sb = StatusOne bits)))
    by (destruct (sb_status sb); eauto).
  destruct Hcase as [[bits Hst]|[bits Hst]].
  2:{ right. unfold serialize_superblock. destruct Hst as [-> | ->];
      (split; [intros [[|] _]; discriminate|by eexists]). }
  assert (Hl : latest (Superblock.version sb))
    by (unfold latest, Superblock.version; destruct Hst as [-> | ->]; auto).
  assert (Hw : serialize_superblock sb =
    buf ←? write_address (HDF5_SIGNATURE ++ [SuperblockVersion.get (Superblock.version sb);
      OffsetWidth.get (sb_offset_size sb); LengthWidth.get (sb_length_size sb); sb_flags sb])
      (sb_offset_size sb) (sb_base_address sb);
    buf ←? try_write_offset buf (default (StoredAddress.undefined (sb_offset_size sb))
             (sb_superblock_extension_address sb)) (sb_offset_size sb);
    buf ←? write_address buf (sb_offset_size sb) (sb_eof_address sb);
    buf ←? write_address buf (sb_offset_size sb) (sb_root_group_address sb);
    checksum ← jenkins_lookup3 buf; ok (buf ++ le_bytes 4 checksum)).
  { unfold serialize_superblock, sb_flags, Superblock.version. destruct Hst as [-> | ->]; done. }
  rewrite Hw. clear Hw.
  match goal with |- context [write_address ?b _ (sb_base_address sb)] =>
    destruct (write_address_cases b _ (sb_offset_size sb) Hb) as [[H1 ->]|[H1 [e ->]]] end;
    [rewrite and_then_ok|right; split; [tauto|by eexists]].
  match goal with |- context [try_write_offset ?b _ _] =>
    destruct (write_extension_cases b _ (sb_offset_size sb) Hx) as [[H2 ->]|[H2 [e ->]]] end;
    [rewrite and_then_ok|right; split; [tauto|by eexists]].
  match goal with |- context [write_address ?b _ (sb_eof_address sb)] =>
    destruct (write_address_cases b _ (sb_offset_size sb) He) as [[H3 ->]|[H3 [e ->]]] end;
    [rewrite and_then_ok|right; split; [tauto|by eexists]].
  match goal with |- context [write_address ?b _ (sb_root_group_address sb)] =>
    destruct (write_address_cases b _ (sb_offset_size sb) Hr) as [[H4 ->]|[H4 [e ->]]] end;
    [rewrite and_then_ok|right; split; [tauto|by eexists]].
  left. split; [tauto|]. pose proof (sb_body_bytes sb Ht Hl) as Hbody.
  match goal with |- context [jenkins_lookup3 ?b] =>
    replace b with (sb_body sb) by (unfold sb_body; by rewrite <- !app_assoc) end.
  rewrite jenkins_lookup3_ret by done. done.
Qed.

(** ** Reading a written superblock *)

Lemma version_roundtrip v : SuperblockVersion.try_from (SuperblockVersion.get v) = Ok v.
Proof. by destruct v. Qed.

Lemma widths_roundtrip o l : FormatWidths.from_sizes (OffsetWidth.get o) (LengthWidth.get l) = Ok (mkWidths o l).
Proof. by destruct o, l. Qed.

(** The fields a candidate's range holds, of version 2 or 3. *)
Lemma read_candidate_fields f version o l r :
  latest version →
  cursor f (HDF5_SIGNATURE ++ [SuperblockVersion.get version; OffsetWidth.get o; LengthWidth.get l] ++ r) →
  ∃ f', cursor f' r ∧ after f 11 f' ∧
    CandidateFields.read f = ok (mkCandidateFields version (mkWidths o l), f').
Proof.
  intros Hv Hc. destruct (cursor_range f _ _ Hc) as [_ Hc']. change (zlen HDF5_SIGNATURE) with 8 in *.
  assert (Hfin : cursor (Fields.advance f 11) r).
  { replace (Fields.advance f 11) with (Fields.advance (Fields.advance f 8) 3)
      by (unfold Fields.advance; simpl; f_equal; lia). by apply (cursor_range _ _ _ Hc'). }
  exists (Fields.advance f 11). split_and!; [done|done|].
  unfold CandidateFields.read. eapply read_array; [exact Hc|done|]. intros f1 Hc1 [D1 P1].
  rewrite bool_decide_eq_true_2 by done. cbn [negb].
  eapply read_u8; [exact Hc1|]. intros f2 Hc2 [D2 P2]. rewrite version_roundtrip. cbn [try_].
  replace (match version with VersionZero | VersionOne => _ | _ => _ end)
    with (ok (E := FormatError) (@nil Z, f2)) by (by destruct Hv as [-> | ->]).
  rewrite and_then_ok. eapply read_u8; [exact Hc2|]. intros f3 Hc3 [D3 P3].
  eapply read_u8; [exact Hc3|]. intros f4 Hc4 [D4 P4]. rewrite widths_roundtrip. cbn [try_].
  do 3 f_equal. destruct f4; unfold Fields.advance; simpl in *. f_equal; [congruence|lia].
Qed.

Lemma sb_bytes_fields sb :
  sb_bytes sb
  = HDF5_SIGNATURE ++ [SuperblockVersion.get (Superblock.version sb); OffsetWidth.get (sb_offset_size sb);
      LengthWidth.get (sb_length_size sb)]
    ++ sb_flags sb :: obytes (sb_offset_size sb) (sb_base_address sb)
    ++ obytes (sb_offset_size sb) (extension_bits (sb_offset_size sb) (sb_superblock_extension_address sb))
    ++ obytes (sb_offset_size sb) (sb_eof_address sb)
    ++ obytes (sb_offset_size sb) (sb_root_group_address sb)
    ++ le_bytes 4 (lookup3 (sb_body sb)).
Proof. unfold sb_bytes. set (c := le_bytes 4 _). unfold sb_body. by rewrite <- !app_assoc. Qed.

Lemma zlen_sb_bytes sb : zlen (sb_bytes sb) = superblock_serialized_size (sb_offset_size sb).
Proof.
  rewrite sb_bytes_fields. autorewrite with zlen.
  rewrite !Z2Nat.id by (destruct (sb_offset_size sb); simpl; lia).
  change (zlen HDF5_SIGNATURE) with 8. unfold superblock_serialized_size, V2_V3_FIXED_LEN, ADDRESS_COUNT, CHECKSUM_LEN. lia.
Qed.

Lemma candidate_len version o l :
  latest version →
  CandidateFields.encoded_len (mkCandidateFields version (mkWidths o l)) = superblock_serialized_size o.
Proof. by intros [-> | ->]. Qed.

Lemma address_fits_bits w a : address_fits w (Defined a) → fits (OffsetWidth.get w) a.
Proof. exact (stored_bits_fits w (Defined a)). Qed.

Lemma status_roundtrip sb :
  sb_typed sb → latest (Superblock.version sb) →
  SuperblockStatus.new (Superblock.version sb) (sb_flags sb) = Ok (sb_status sb).
Proof.
  intros (Hs & _). unfold latest, Superblock.version, sb_flags, SuperblockStatus.new, SuperblockStatusFlags.to_u8.
  destruct (sb_status sb); simpl; intros [H|H]; try discriminate; unfold fits in Hs;
    by replace (_ <=? 255) with true by lia.
Qed.

(** The fields behind the widths. *)
Lemma read_v2_or_v3_written sb f r :
  sb_typed sb → sb_writable sb →
  cursor f (sb_flags sb :: obytes (sb_offset_size sb) (sb_base_address sb)
    ++ obytes (sb_offset_size sb) (extension_bits (sb_offset_size sb) (sb_superblock_extension_address sb))
    ++ obytes (sb_offset_size sb) (sb_eof_address sb)
    ++ obytes (sb_offset_size sb) (sb_root_group_address sb)
    ++ le_bytes 4 (lookup3 (sb_body sb)) ++ r) →
  ∃ f', after f (1 + 4 * OffsetWidth.get (sb_offset_size sb) + 4) f' ∧
    CandidateFields.read_v2_or_v3 (mkCandidateFields (Superblock.version sb)
      (mkWidths (sb_offset_size sb) (sb_length_size sb))) f = ok (stored_form sb, f').
Proof.
  intros Ht (Hl & Hb & He & Hr & Hx) Hc.
  exists (Fields.advance f (1 + 4 * OffsetWidth.get (sb_offset_size sb) + 4)). split; [done|].
  unfold CandidateFields.read_v2_or_v3. cbn [candidate_version candidate_widths offsets lengths].
  eapply read_u8; [exact Hc|]. intros f1 Hc1 [D1 P1]. rewrite status_roundtrip by done. cbn [try_].
  eapply read_offset; [exact Hc1|by apply address_fits_bits|]. intros f2 Hc2 [D2 P2].
  unfold Fields.address.
  eapply read_offset; [exact Hc2|by apply extension_fits|]. intros f3 Hc3 [D3 P3].
  eapply read_offset; [exact Hc3|by apply address_fits_bits|]. intros f4 Hc4 [D4 P4].
  eapply read_offset; [exact Hc4|by apply address_fits_bits|]. intros f5 Hc5 [D5 P5].
  eapply read_u32; [exact Hc5|apply lookup3_u32|]. intros f6 Hc6 [D6 P6]. unfold stored_form.
  do 3 f_equal. destruct f6; unfold Fields.advance; simpl in *. f_equal; [congruence|lia].
Qed.

(** A region that holds exactly the written bytes. *)
Lemma ref_parse_written sb range :
  sb_typed sb → sb_writable sb → 0 ≤ range_start range → range_end range ≤ U64_MAX →
  FileRange.length range = zlen (sb_bytes sb) →
  ref_parse range (mkRegion range (sb_bytes sb))
  = ok (stored_form sb, mkWidths (sb_offset_size sb) (sb_length_size sb)).
Proof.
  intros Ht Hw Hs He Hlen. pose proof usize_bounds as Hub. pose proof (zlen_sb_bytes sb) as Hz.
  pose proof (proj1 Hw) as Hl.
  assert (Hsmall : zlen (sb_bytes sb) ≤ USIZE_MAX).
  { rewrite Hz. unfold superblock_serialized_size, V2_V3_FIXED_LEN, ADDRESS_COUNT, CHECKSUM_LEN.
    destruct (sb_offset_size sb); simpl; lia. }
  unfold ref_parse. rewrite subregion_all by done. cbn [try_ region_bytes].
  destruct (read_candidate_fields (Fields.new (sb_bytes sb) 0) _ _ _ _ Hl
    ltac:(rewrite sb_bytes_fields; apply cursor_new; rewrite <- sb_bytes_fields; exact Hsmall))
    as (f1 & Hc1 & [D1 P1] & Hread).
  rewrite Hread, and_then_ok, candidate_len by done. unfold FileRange.length, FileRange.start in *.
  destruct (range_new_ok (range_start range) (superblock_serialized_size (sb_offset_size sb)))
    as (req & -> & Hrs & Hre); [done|rewrite <- Hz; apply zlen_nonneg|lia|].
  rewrite and_then_ok, (range_eq req range) by lia.
  rewrite subregion_all by done. cbn [try_ region_bytes candidate_version].
  replace (match Superblock.version sb with VersionZero | VersionOne => _ | _ => _ end)
    with (_ ←? verify_trailing (sb_bytes sb); CandidateFields.read_v2_or_v3 (mkCandidateFields
      (Superblock.version sb) (mkWidths (sb_offset_size sb) (sb_length_size sb))) f1)
    by (by destruct Hl as [-> | ->]).
  unfold sb_bytes at 1. rewrite verify_trailing_app by (by apply sb_body_bytes). rewrite and_then_ok.
  destruct (read_v2_or_v3_written sb f1 [] Ht Hw) as (f2 & [D2 P2] & ->);
    [by rewrite app_nil_r|]. rewrite and_then_ok.
  unfold Fields.pos. rewrite P2, P1, Hz. simpl fields_pos.
  unfold superblock_serialized_size, V2_V3_FIXED_LEN, ADDRESS_COUNT, CHECKSUM_LEN.
  by replace (_ =? _) with true by lia.
Qed.

(** ** Opening a file *)

Lemma piece_app (p f r : list Z) : piece (p ++ f ++ r) (zlen p) (zlen f) = f.
Proof.
  unfold piece, zlen. rewrite !Nat2Z.id, drop_app_length. apply take_app_length.
Qed.

Lemma sb_prefix sb rest :
  ∃ r, piece (sb_bytes sb ++ rest) 0 15 = HDF5_SIGNATURE ++ [SuperblockVersion.get (Superblock.version sb);
    OffsetWidth.get (sb_offset_size sb); LengthWidth.get (sb_length_size sb)] ++ r ∧ zlen r = 4.
Proof.
  rewrite sb_bytes_fields, <- !app_assoc. set (x := (sb_flags sb :: _) ++ rest).
  assert (Hx : (4 ≤ length x)%nat).
  { unfold x. rewrite length_app. cbn [length]. rewrite !length_app, !length_le_bytes.
    destruct (sb_offset_size sb); simpl; lia. }
  exists (take 4 x). split; [done|]. unfold zlen. rewrite length_take. lia.
Qed.

Lemma piece_shift (p l : list Z) n : piece (p ++ l) (zlen p) n = piece l 0 n.
Proof. unfold piece, zlen. by rewrite Nat2Z.id, drop_app_length. Qed.

Lemma zlen_prefix sb rest : zlen (piece (sb_bytes sb ++ rest) 0 15) = 15.
Proof. destruct (sb_prefix sb rest) as (r & -> & Hr). rewrite !zlen_app, Hr. done. Qed.

(** The first 15 bytes fix the range of the whole superblock. *)
Lemma signature_parse_written sb rest a held :
  latest (Superblock.version sb) → FileRange.new a 15 = ok held → FileRange.length held = 15 →
  signature_parse a (mkRegion held (piece (sb_bytes sb ++ rest) 0 15))
  = FileRange.new a (superblock_serialized_size (sb_offset_size sb)).
Proof.
  intros Hl Hnew Hlen. pose proof usize_bounds as Hub. pose proof (zlen_prefix sb rest) as Hz.
  unfold signature_parse, signature_parse_range, CANDIDATE_LEN.
  rewrite Hnew, and_then_ok, subregion_all by lia. cbn [try_ region_bytes]. unfold CandidateFields.parse.
  destruct (sb_prefix sb rest) as (r & Hprefix & Hr). rewrite Hprefix in *.
  destruct (read_candidate_fields (Fields.new (HDF5_SIGNATURE ++ [SuperblockVersion.get (Superblock.version sb);
    OffsetWidth.get (sb_offset_size sb); LengthWidth.get (sb_length_size sb)] ++ r) 0) _ _ _ _ Hl
    ltac:(apply cursor_new; lia)) as (f1 & _ & _ & ->).
  by rewrite !and_then_ok, candidate_len.
Qed.

(** What is written at the first signature of a file is what the file is opened with. *)
Lemma read_written sb ub rest :
  sb_typed sb → sb_writable sb → zlen (ub ++ sb_bytes sb ++ rest) ≤ USIZE_MAX →
  first_signature (ub ++ sb_bytes sb ++ rest) = Some (zlen ub) →
  read (slice_source (ub ++ sb_bytes sb ++ rest))
  = ok (mkLocated (zlen ub) (stored_form sb) (mkWidths (sb_offset_size sb) (sb_length_size sb))).
Proof.
  intros Ht Hw Hu Hfirst. set (file := ub ++ sb_bytes sb ++ rest) in *.
  pose proof usize_bounds as Hub. pose proof (zlen_nonneg ub) as Hub0. pose proof (zlen_nonneg rest) as Hr0.
  pose proof (zlen_sb_bytes sb) as Hz. pose proof (proj1 Hw) as Hl.
  assert (Hsize : 24 ≤ zlen (sb_bytes sb)).
  { rewrite Hz. by destruct (sb_offset_size sb). }
  assert (Hfile : zlen file = zlen ub + zlen (sb_bytes sb) + zlen rest) by (unfold file; rewrite !zlen_app; lia).
  destruct (search_ok file Hu) as (held & buf & Hsearch & Hbuf & Hheld).
  destruct (Hheld _ Hfirst) as (Hhs & Hhe & Hpre). unfold CANDIDATE_LEN in *.
  replace (Z.min (zlen file) (zlen ub + 15)) with (zlen ub + 15) in Hhe by lia.
  assert (Hlen : FileRange.length held = 15) by (unfold FileRange.length; lia). rewrite Hlen in Hpre.
  unfold read, read_with_range. rewrite Hsearch, and_then_ok, Hfirst. cbn [fmap option_fmap option_map ok_or try_].
  unfold signature_parse_range, CANDIDATE_LEN.
  destruct (range_new_ok (zlen ub) 15 Hub0 ltac:(lia) ltac:(lia)) as (cr & Hcr & Hcs & Hce).
  rewrite Hcr, and_then_ok. assert (cr = held) as -> by (apply range_eq; lia).
  replace (FileRange.contains held held) with true
    by (unfold FileRange.contains, AddressRange.contains; lia). cbn [negb].
  rewrite Hlen. unfold to_usize. replace (15 <=? USIZE_MAX) with true by lia. cbn [try_].
  unfold get_range at 1. rewrite Hbuf. change (0 <=? 0) with true. change (0 <=? 15) with true.
  change (15 <=? 15) with true. cbn [andb ok_or try_]. change (Z.to_nat (15 - 0)) with (Z.to_nat 15).
  rewrite drop_0, Hpre. unfold file at 1. rewrite piece_shift.
  rewrite region_new_ok by (by rewrite zlen_prefix). cbn [try_].
  rewrite (signature_parse_written sb rest (zlen ub) held) by done.
  destruct (range_new_ok (zlen ub) (superblock_serialized_size (sb_offset_size sb)))
    as (range & Hrange & Hrs & Hre); [done|lia|lia|]. rewrite Hrange, and_then_ok.
  cbn [read_range slice_source]. rewrite slice_read_range_ok by lia. rewrite and_then_ok.
  replace (piece file (range_start range) (FileRange.length range)) with (sb_bytes sb).
  2:{ unfold FileRange.length. rewrite Hrs, Hre. replace (zlen ub + _ - zlen ub) with (zlen (sb_bytes sb)) by lia.
      symmetry. apply piece_app. }
  rewrite region_new_ok by (unfold FileRange.length; lia). cbn [try_].
  rewrite (ref_parse_written sb range) by (done || unfold FileRange.length; lia).
  by rewrite !and_then_ok.
Qed.

(** ** Arbitrary bytes *)

(** A superblock has the fields of its version, and its widths are the parser's. *)
Definition sb_shape (sb : Superblock) (widths : FormatWidths) : Prop :=
  sb_offset_size sb = offsets widths ∧ sb_length_size sb = lengths widths ∧
  match sb_status sb with
  | StatusZero flags | StatusOne flags =>
    fits 4 flags ∧ (∃ k, sb_group_leaf_node_k sb = Some k ∧ 0 < k < 65536) ∧
    is_Some (sb_group_internal_node_k sb) ∧ is_Some (sb_free_space_address sb) ∧
    is_Some (sb_driver_info_address sb) ∧
    (is_Some (sb_indexed_storage_internal_node_k sb) ↔ Superblock.version sb = VersionOne) ∧
    sb_superblock_extension_address sb = None ∧ sb_checksum sb = None
  | StatusTwo flags | StatusThree flags =>
    fits 1 flags ∧ sb_group_leaf_node_k sb = None ∧ sb_group_internal_node_k sb = None ∧
    sb_indexed_storage_internal_node_k sb = None ∧ sb_free_space_address sb = None ∧
    sb_driver_info_address sb = None ∧ is_Some (sb_superblock_extension_address sb) ∧
    is_Some (sb_checksum sb)
  end.

Lemma candidate_read_safe f : valid f → CandidateFields.read f ⇝? (λ '(_, f'), valid f').
Proof.
  intros Hv. unfold CandidateFields.read. eapply safe_array; [done|lia|]. intros s f1 _ _ H1 _.
  destruct (negb _); [apply sound_fail|]. eapply safe_u8; [done|]. intros v f2 _ H2 _.
  destruct (SuperblockVersion.try_from v) as [version|e]; [|apply sound_fail]. cbn [try_].
  eapply (sound_bind _ _ (λ '(_, f'), valid f')).
  { destruct version; try (by apply sound_ok).
    all: eapply sound_mono; [by apply array_sound|]; intros [? ?]; naive_solver. }
  intros [skipped f3] H3. eapply safe_u8; [done|]. intros osize f4 _ H4 _.
  eapply safe_u8; [done|]. intros lsize f5 _ H5 _.
  destruct (FormatWidths.from_sizes osize lsize); [by apply sound_ok|apply sound_fail].
Qed.

Lemma status_new_flags version flags status n :
  SuperblockStatus.new version flags = Ok status → fits n flags →
  SuperblockStatus.version status = version ∧ SuperblockStatus.flags status = flags ∧
  (latest version → fits 1 flags).
Proof.
  unfold SuperblockStatus.new, SuperblockStatusFlags.to_u8, latest.
  destruct version; simpl; try (intros [= <-]; naive_solver);
    (destruct (flags <=? 255) eqn:E; [|done]); intros [= <-] [H0 _]; split_and!; try done;
    intros _; unfold fits; lia.
Qed.

Lemma read_v0_or_v1_safe c f :
  valid f → ¬ latest (candidate_version c) →
  CandidateFields.read_v0_or_v1 c f ⇝? (λ '(sb, _), sb_shape sb (candidate_widths c)).
Proof.
  intros Hv Hl. unfold CandidateFields.read_v0_or_v1. eapply safe_u8; [done|]. intros ? f1 _ H1 _.
  eapply safe_u16; [done|]. intros k f2 Hk H2 _. destruct (k =? 0) eqn:Ek; [apply sound_fail|].
  eapply safe_u16; [done|]. intros ki f3 Hki H3 _. eapply safe_u32; [done|]. intros flags f4 Hfl H4 _.
  destruct (SuperblockStatus.new _ flags) as [status|e] eqn:Es; [|apply sound_fail]. cbn [try_].
  destruct (status_new_flags _ _ _ _ Es Hfl) as (Hsv & Hsf & _).
  eapply (sound_bind _ _ (λ '(i, f'), valid f' ∧ (is_Some i ↔ candidate_version c = VersionOne))).
  { destruct (candidate_version c); try (by apply sound_ok; split; [done|]; split; [intros []|]).
    eapply safe_u16; [done|]. intros i f5 _ H5 _. eapply safe_u16; [done|]. intros ? f6 _ H6 _.
    apply sound_ok. by split; [|split; [|eauto]]. }
  intros [i f5] [H5 Hi]. unfold Fields.address.
  eapply safe_offset; [done|]. intros ? f6 _ H6 _. eapply safe_offset; [done|]. intros ? f7 _ H7 _.
  eapply safe_offset; [done|]. intros ? f8 _ H8 _. eapply safe_offset; [done|]. intros ? f9 _ H9 _.
  eapply safe_length; [done|]. intros ? f10 _ H10 _. eapply safe_offset; [done|]. intros ? f11 _ H11 _.
  eapply safe_array; [done|done|]. intros ? f12 _ _ _ _. apply sound_ok. unfold sb_shape. simpl.
  split_and!; [done|done|]. unfold Superblock.version. simpl. rewrite Hsv. unfold latest in Hl.
  destruct status; simpl in *; subst; try (exfalso; apply Hl; rewrite <- Hsv; by auto); unfold fits in Hk;
    (split_and!; try done; try (by eexists); exists k; split; [done|lia]).
Qed.

Lemma read_v2_or_v3_safe c f :
  valid f → latest (candidate_version c) →
  CandidateFields.read_v2_or_v3 c f ⇝? (λ '(sb, _), sb_shape sb (candidate_widths c)).
Proof.
  intros Hv Hl. unfold CandidateFields.read_v2_or_v3. eapply safe_u8; [done|]. intros flags f1 Hfl H1 _.
  destruct (SuperblockStatus.new _ flags) as [status|e] eqn:Es; [|apply sound_fail]. cbn [try_].
  destruct (status_new_flags _ _ _ _ Es Hfl) as (Hsv & Hsf & H8). specialize (H8 Hl). unfold Fields.address.
  eapply safe_offset; [done|]. intros ? f2 _ H2 _. eapply safe_offset; [done|]. intros ? f3 _ H3 _.
  eapply safe_offset; [done|]. intros ? f4 _ H4 _. eapply safe_offset; [done|]. intros ? f5 _ H5 _.
  eapply safe_u32; [done|]. intros ? f6 _ H6 _. apply sound_ok. unfold sb_shape. simpl.
  split_and!; [done|done|]. rewrite <- Hsv in Hl. unfold latest in Hl.
  destruct status; simpl in *; subst; try (destruct Hl; discriminate); split_and!; eauto.
Qed.

Lemma signature_parse_sound a held bytes :
  Forall byte bytes → FileRange.length held = zlen bytes → zlen bytes = 15 → 0 ≤ a → range_start held = a →
  signature_parse a (mkRegion held bytes) ⇝? (λ r, range_start r = a ∧ range_end r ≤ U64_MAX).
Proof.
  intros Hb Hl Hz Ha Hs. pose proof usize_bounds as Hub.
  unfold signature_parse, signature_parse_range, CANDIDATE_LEN.
  eapply sound_bind; [apply range_new_sound; lia|]. intros r (Hrs & Hre & Hm).
  rewrite (range_eq r held) by (unfold FileRange.length in Hl; lia).
  rewrite subregion_all by lia. cbn [try_ region_bytes]. unfold CandidateFields.parse.
  eapply (sound_bind _ _ (λ _, True)).
  { eapply sound_bind; [apply candidate_read_safe; split_and!; simpl; [done|lia|done]|].
    intros [c ?] _. by apply sound_ok. }
  intros c _. eapply sound_mono; [apply range_new_sound; [done|]|].
  - unfold CandidateFields.encoded_len, V0_V1_FIXED_LEN, V1_FIELDS_LEN, V2_V3_FIXED_LEN, ADDRESS_COUNT,
      ROOT_ENTRY_TAIL_LEN, CHECKSUM_LEN.
    destruct (offsets (candidate_widths c)), (lengths (candidate_widths c)), (candidate_version c); simpl; lia.
  - intros r2 (? & ? & ?). lia.
Qed.

Lemma ref_parse_sound range bytes :
  Forall byte bytes → FileRange.length range = zlen bytes → zlen bytes ≤ USIZE_MAX → 0 ≤ range_start range →
  ref_parse range (mkRegion range bytes) ⇝? (λ '(sb, widths), sb_shape sb widths).
Proof.
  intros Hb Hl Hu Hs. unfold ref_parse. rewrite subregion_all by done. cbn [try_ region_bytes].
  eapply sound_bind; [apply candidate_read_safe; by split_and!|]. intros [c f] Hv.
  eapply sound_bind.
  { apply range_new_sound; [done|].
    unfold CandidateFields.encoded_len, V0_V1_FIXED_LEN, V1_FIELDS_LEN, V2_V3_FIXED_LEN, ADDRESS_COUNT,
      ROOT_ENTRY_TAIL_LEN, CHECKSUM_LEN.
    destruct (offsets (candidate_widths c)), (lengths (candidate_widths c)), (candidate_version c); simpl; lia. }
  intros req _.
  destruct (subregion_spec (mkRegion range bytes) req) as [(_ & p & q & held & Hheld & _ & -> & _)|[_ ->]];
    [by split| |apply sound_fail]. cbn [try_ region_bytes] in *.
  assert (Hhb : Forall byte held) by (rewrite Hheld, !Forall_app in Hb; tauto).
  eapply (sound_bind _ _ (λ '(sb, _), sb_shape sb (candidate_widths c))).
  - destruct (candidate_version c) eqn:Ev.
    + apply read_v0_or_v1_safe; [done|]. rewrite Ev. by intros [|].
    + apply read_v0_or_v1_safe; [done|]. rewrite Ev. by intros [|].
    + eapply sound_bind; [by apply verify_trailing_sound|]. intros _ _.
      apply read_v2_or_v3_safe; [done|]. rewrite Ev. by left.
    + eapply sound_bind; [by apply verify_trailing_sound|]. intros _ _.
      apply read_v2_or_v3_safe; [done|]. rewrite Ev. by right.
  - intros [sb f'] Hsb. destruct (negb _); [apply sound_fail|by apply sound_ok].
Qed.

(** Reading the superblock of arbitrary bytes does not panic. *)
Lemma read_sound file :
  zlen file ≤ USIZE_MAX → Forall byte file →
  read (slice_source file) ⇝? (λ located,
    first_signature file = Some (located_address located) ∧
    sb_shape (located_superblock located) (located_widths located)).
Proof.
  intros Hu Hb. pose proof usize_bounds as Hub.
  destruct (search_ok file Hu) as (held & buf & Hsearch & Hbuf & Hheld).
  unfold read, read_with_range. rewrite Hsearch, and_then_ok.
  destruct (first_signature file) as [a|] eqn:Hfirst; [|apply sound_fail].
  destruct (Hheld a eq_refl) as (Hhs & Hhe & Hpre).
  cbn [fmap option_fmap option_map ok_or try_]. unfold signature_parse_range, CANDIDATE_LEN in *.
  eapply (sound_bind _ _ (λ '(l, _), Some a = Some (located_address l) ∧
    sb_shape (located_superblock l) (located_widths l))); [|intros [l ?] H; apply sound_ok; exact H].
  assert (Ha : 0 ≤ a) by apply (first_signature_bounds file a Hfirst).
  eapply sound_bind; [apply range_new_sound; lia|]. intros cr (Hcs & Hce & Hcm).
  destruct (negb (FileRange.contains held cr)) eqn:Ec; [apply sound_fail|].
  assert (Hlen : FileRange.length held = 15).
  { apply negb_false_iff in Ec. unfold FileRange.contains, AddressRange.contains, FileRange.length in *. lia. }
  rewrite Hlen in *. unfold to_usize. replace (15 <=? USIZE_MAX) with true by lia. cbn [try_].
  unfold get_range at 1. rewrite Hbuf. change (0 <=? 0) with true. change (0 <=? 15) with true.
  change (15 <=? 15) with true. cbn [andb ok_or try_]. change (Z.to_nat (15 - 0)) with (Z.to_nat 15).
  rewrite drop_0, Hpre.
  assert (Hz : zlen (piece file a 15) = 15).
  { unfold piece. rewrite zlen_take; [done|]. unfold FileRange.length in Hlen. rewrite zlen_drop by lia. lia. }
  rewrite region_new_ok by lia. cbn [try_].
  eapply sound_bind; [apply (signature_parse_sound a held); try done; [by apply Forall_take, Forall_drop|lia]|].
  intros range [Hrs Hre]. cbn [read_range slice_source].
  eapply sound_bind; [apply slice_read_range_sound; [done|done|lia]|]. intros bytes (Hbb & Hzb & Hub').
  rewrite region_new_ok by done. cbn [try_].
  eapply sound_bind; [apply (ref_parse_sound range bytes); try done; lia|]. intros [sb w] Hs.
  by apply sound_ok.
Qed.

End Codec.
