(* ===== verification/FillValues.v ===== *)
(** * The Fill Value messages

    Models [crates/hdf5-pure-format/src/fill_value.rs] and [fill_time.rs] of
    [hdf5-pure-core]: the parsers of the old message and of versions 1 to 3, the writer of
    version 3, and the facts that it is read back and that no bytes make a parser panic. *)

From S2P Require Import Prelude Addresses Words ByteFields ByteFieldFacts.

Local Open Scope Z_scope.

Inductive FillTime : Type := Alloc | Never | IfSet.

#[global] Instance FillTime_eq_dec : EqDecision FillTime.
Proof. solve_decision. Defined.

Module FillTime.

Definition to_u8 (t : FillTime) : Z := match t with Alloc => 0 | Never => 1 | IfSet => 2 end.
Definition is_alloc (t : FillTime) : bool := match t with Alloc => true | _ => false end.
Definition is_never (t : FillTime) : bool := match t with Never => true | _ => false end.
Definition is_if_set (t : FillTime) : bool := match t with IfSet => true | _ => false end.

Definition try_from (value : Z) : result FillTime FormatError :=
  if value =? 0 then Ok Alloc
  else if value =? 1 then Ok Never
  else if value =? 2 then Ok IfSet
  else Err (InvalidFillTime value).

End FillTime.

(** [MessageType::FILL_VALUE_OLD] and [MessageType::FILL_VALUE] *)
Definition FILL_VALUE_OLD : Z := 0x0004.
Definition FILL_VALUE : Z := 0x0005.

Inductive FillValueError : Type := TooLarge (length : Z).

(** [FillValueView], and the owned [FillValueMessage] *)
Record FillValueView : Type := mkFillValue {
  fill_time : FillTime;
  fill_value : option (list Z);
}.

Module FillValueView.

Definition V3_FLAGS_DEFAULT : Z := 0x0A.
Definition VERSION_ONE : Z := 1.
Definition VERSION_TWO : Z := 2.
Definition VERSION_THREE : Z := 3.
Definition V1_V2_VALUE_OFFSET : Z := 8.
Definition V3_VALUE_OFFSET : Z := 6.
Definition V3_FLAG_UNDEFINED : Z := 0x10.
Definition V3_FLAG_DEFINED : Z := 0x20.
Definition V3_FLAGS_RESERVED : Z := 0xC0.
Definition V3_FILL_TIME_MASK : Z := 0x03.
Definition V3_FILL_TIME_SHIFT : Z := 2.
Definition SPACE_ALLOC_TIME_MAX : Z := 3.
Definition FILL_DEFINED_MAX : Z := 1.

(** ** Writers *)

Definition U32_FIELD_MAX : Z := 0xFFFFFFFF.

Definition fill_value_len (len : Z) : result Z FillValueError :=
  if len <=? U32_FIELD_MAX then Ok len else Err (TooLarge len).

Definition serialize_fill_value_message_v3 (time : FillTime) (fill : option (list Z))
    : result (list Z) FillValueError :=
  let flags :=
    Z.lor (Z.ldiff V3_FLAGS_DEFAULT (Z.shiftl V3_FILL_TIME_MASK V3_FILL_TIME_SHIFT))
          (Z.shiftl (FillTime.to_u8 time) V3_FILL_TIME_SHIFT) in
  match fill with
  | None => Ok [VERSION_THREE; flags]
  | Some bytes =>
    result_bind (fill_value_len (zlen bytes)) (λ len,
    let flags := Z.lor flags V3_FLAG_DEFINED in
    Ok ([VERSION_THREE; flags] ++ le_bytes 4 len ++ bytes))
  end.

Definition fill_value_message_v3 (fill : option (list Z)) : result (list Z) FillValueError :=
  serialize_fill_value_message_v3 IfSet fill.

Definition serialize (self : FillValueView) : result (list Z) FillValueError :=
  serialize_fill_value_message_v3 (fill_time self) (fill_value self).

(** ** Parsers *)

Section Parsers.
Context `{B : Build}.

Definition eof (expected available : Z) : FormatError := UnexpectedEof expected available.

Definition read_u32 (data : list Z) (offset : Z) : exec Z :=
  try_ (ok_or (usize_checked_add offset 4) (eof USIZE_MAX (zlen data))) (λ end_,
  try_ (ok_or (get_range data offset end_) (eof end_ (zlen data))) (λ slice,
  Ok <$> (le_value <$> index_bytes slice 0 4))).

(** [let size = read_u32(data, at)?.to_usize()?], the end of the value and the check that
    it lies in the message *)
Definition sized_value (data : list Z) (at_ value_offset : Z) : exec (Z * Z) :=
  size ←? read_u32 data at_;
  try_ (to_usize size) (λ size,
  try_ (ok_or (usize_checked_add value_offset size) (eof USIZE_MAX (zlen data))) (λ end_,
  if zlen data <? end_ then fail (eof end_ (zlen data)) else ok (size, end_))).

Definition parse_old (data : list Z) : exec FillValueView :=
  if zlen data <? 4 then fail (eof 4 (zlen data))
  else
    '(size, end_) ←? sized_value data 0 4;
    value ← (if size =? 0 then Ret None else Some <$> slice data 4 end_);
    ok (mkFillValue IfSet value).

(** The checks of the second to the fourth byte of versions 1 and 2. *)
Definition parse_times (data : list Z) : exec (FillTime * Z) :=
  if zlen data <? 4 then fail (eof 4 (zlen data))
  else
    space_alloc_time ← index data 1;
    if SPACE_ALLOC_TIME_MAX <? space_alloc_time then fail (InvalidSpaceAllocationTime space_alloc_time)
    else
      time ← index data 2;
      try_ (FillTime.try_from time) (λ time,
      defined ← index data 3;
      if FILL_DEFINED_MAX <? defined then fail (InvalidFillValueDefined defined)
      else ok (time, defined)).

Definition parse_v1 (data : list Z) : exec FillValueView :=
  '(time, defined) ←? parse_times data;
  if zlen data <? V1_V2_VALUE_OFFSET then fail (eof V1_V2_VALUE_OFFSET (zlen data))
  else
    '(size, end_) ←? sized_value data 4 V1_V2_VALUE_OFFSET;
    value ← (if (defined =? 0) || (size =? 0) then Ret None
             else Some <$> slice data V1_V2_VALUE_OFFSET end_);
    ok (mkFillValue time value).

Definition parse_v2 (data : list Z) : exec FillValueView :=
  '(time, defined) ←? parse_times data;
  if defined =? 0 then ok (mkFillValue time None)
  else if zlen data <? V1_V2_VALUE_OFFSET then fail (eof V1_V2_VALUE_OFFSET (zlen data))
  else
    '(size, end_) ←? sized_value data 4 V1_V2_VALUE_OFFSET;
    value ← (if size =? 0 then Ret None else Some <$> slice data V1_V2_VALUE_OFFSET end_);
    ok (mkFillValue time value).

Definition parse_v3 (data : list Z) : exec FillValueView :=
  if zlen data <? 2 then fail (eof 2 (zlen data))
  else
    flags ← index data 1;
    if negb (Z.land flags V3_FLAGS_RESERVED =? 0) then fail (InvalidFillValueFlags flags)
    else if negb (Z.land flags V3_FLAG_UNDEFINED =? 0) && negb (Z.land flags V3_FLAG_DEFINED =? 0)
    then fail (InvalidFillValueFlags flags)
    else
      let fill_time_code := Z.land (Z.shiftr flags V3_FILL_TIME_SHIFT) V3_FILL_TIME_MASK in
      try_ (FillTime.try_from fill_time_code) (λ time,
      if Z.land flags V3_FLAG_DEFINED =? 0 then ok (mkFillValue time None)
      else if zlen data <? V3_VALUE_OFFSET then fail (eof V3_VALUE_OFFSET (zlen data))
      else
        '(size, end_) ←? sized_value data 2 V3_VALUE_OFFSET;
        value ← (if size =? 0 then Ret None else Some <$> slice data V3_VALUE_OFFSET end_);
        ok (mkFillValue time value)).

Definition parse_versioned (data : list Z) : exec FillValueView :=
  try_ (ok_or (head data) (eof 1 (zlen data))) (λ version,
  if version =? VERSION_ONE then parse_v1 data
  else if version =? VERSION_TWO then parse_v2 data
  else if version =? VERSION_THREE then parse_v3 data
  else fail (UnsupportedFillValueVersion version)).

Definition parse (msg_type : Z) (data : list Z) : exec FillValueView :=
  if msg_type =? FILL_VALUE_OLD then parse_old data
  else if msg_type =? FILL_VALUE then parse_versioned data
  else fail (InvalidFillValueMessageType msg_type).

Definition fill_value_is_written (msg_type : Z) (data : list Z) : exec bool :=
  view ←? parse msg_type data; ok (negb (FillTime.is_never (fill_time view))).

Definition parse_defined_fill_value (msg_type : Z) (data : list Z) : exec (option (list Z)) :=
  view ←? parse msg_type data; ok (fill_value view).

End Parsers.
End FillValueView.

(** ** Facts *)

Section Facts.
Context `{B : Build}.
Import FillValueView.

(** An empty value is stored as a defined value of no bytes and read as none. *)
Definition nonempty (value : option (list Z)) : option (list Z) :=
  match value with Some [] => None | _ => value end.

Lemma read_u32_at data pos v r :
  zlen data ≤ USIZE_MAX → bytes_at data pos (le_bytes 4 v ++ r) → fits 4 v → read_u32 data pos = ok v.
Proof.
  intros Hu Hat Hv. pose proof (bytes_at_nonneg _ _ _ Hat).
  pose proof (ensure_len_at data pos _ _ 4 Hu Hat ltac:(by rewrite zlen_le_bytes)) as He.
  unfold ensure_len in He. destruct (_ && _) eqn:E; [|done]. unfold read_u32, usize_checked_add.
  replace (pos + 4 <=? USIZE_MAX) with true by lia. cbn [ok_or try_].
  apply (bytes_at_app _ _ _ _ 4) in Hat as [-> _]; [|by rewrite zlen_le_bytes]. cbn [ok_or try_].
  rewrite (index_bytes_range _ 0 4 (le_bytes 4 v)); [cbn [fmap outcome_fmap]; by rewrite le_value_bytes|].
  pose proof (get_range_prefix (le_bytes 4 v) []) as Hg. rewrite app_nil_r, zlen_le_bytes in Hg. exact Hg.
Qed.

Lemma read_u32_sound data pos :
  Forall byte data → 0 ≤ pos → read_u32 data pos ⇝? (λ v, fits 4 v ∧ pos + 4 ≤ zlen data).
Proof.
  intros Hb Hp. unfold read_u32. destruct (usize_checked_add pos 4) as [e|] eqn:E; [|apply sound_fail].
  unfold usize_checked_add in E. destruct (_ <=? _); [|done]. injection E as <-. cbn [ok_or try_].
  destruct (get_range data pos (pos + 4)) as [s|] eqn:Eg; [|apply sound_fail]. cbn [ok_or try_].
  pose proof (get_range_zlen _ _ _ _ Eg) as Hz.
  destruct (word_within s 0 4 (get_range_Forall _ _ _ _ _ Hb Eg) ltac:(lia) ltac:(lia)) as (v & -> & Hv).
  apply sound_ok. apply get_range_Some in Eg. split; [done|lia].
Qed.

(** The value lies in the message. *)
Lemma sized_value_sound data at_ value_offset :
  Forall byte data → 0 ≤ at_ → 0 ≤ value_offset →
  sized_value data at_ value_offset
  ⇝? (λ '(size, end_), 0 ≤ size ∧ end_ = value_offset + size ∧ end_ ≤ zlen data).
Proof.
  intros Hb Ha Hv. unfold sized_value. eapply sound_bind; [by apply read_u32_sound|].
  intros size [Hs _]. unfold to_usize, usize_checked_add.
  destruct (size <=? USIZE_MAX); [|apply sound_fail]. cbn [try_].
  destruct (_ <=? USIZE_MAX); [|apply sound_fail]. cbn [ok_or try_].
  destruct (zlen data <? value_offset + size) eqn:E; [apply sound_fail|].
  apply sound_ok. unfold fits in Hs. lia.
Qed.

(** Taking the value out of the message does not panic. *)
Lemma value_sound data value_offset size end_ (none : bool) time (Q : FillValueView → Prop) :
  0 ≤ value_offset → 0 ≤ size → end_ = value_offset + size → end_ ≤ zlen data → Forall byte data →
  (∀ value, match value with
            | Some v => none = false ∧ zlen v = size ∧ get_range data value_offset end_ = Some v
            | None => True
            end →
     Q (mkFillValue time value)) →
  (value ← (if none then Ret None else Some <$> slice data value_offset end_);
   ok (E := FormatError) (mkFillValue time value)) ⇝? Q.
Proof.
  intros Hv Hs -> He Hb HQ. destruct none; [by apply sound_ok, HQ|]. unfold slice.
  destruct (get_range _ _ _) as [s|] eqn:Eg; [|apply get_range_None in Eg; lia].
  cbn. apply sound_ok, HQ. split_and!; [done|rewrite (get_range_zlen _ _ _ _ Eg); lia|done].
Qed.

(** A parsed value is a part of the message, and not empty. *)
Definition view_within (data : list Z) (view : FillValueView) : Prop :=
  match fill_value view with Some v => v ≠ [] ∧ ∃ s e, get_range data s e = Some v | None => True end.

Lemma parse_times_sound data :
  Forall byte data → parse_times data ⇝? (λ '(_, defined), 4 ≤ zlen data).
Proof.
  intros Hb. unfold parse_times. destruct (zlen data <? 4) eqn:E; [apply sound_fail|].
  destruct data as [|a [|b [|c [|d l]]]]; try done. cbn [index]. simpl.
  destruct (_ <? b); [apply sound_fail|]. destruct (FillTime.try_from c); [|apply sound_fail]. simpl.
  destruct (_ <? d); [apply sound_fail|]. apply sound_ok. lia.
Qed.

Lemma sized_view_sound data at_ value_offset (none : Z → bool) time :
  Forall byte data → 0 ≤ at_ → 0 ≤ value_offset → none 0 = true →
  ('(size, end_) ←? sized_value data at_ value_offset;
   value ← (if none size then Ret None else Some <$> slice data value_offset end_);
   ok (mkFillValue time value)) ⇝? view_within data.
Proof.
  intros Hb Ha Hv Hnone. eapply sound_bind; [by apply sized_value_sound|]. intros [size e] (Hs & He & Hl).
  apply (value_sound _ _ size); try done. intros [v|]; unfold view_within; simpl; [|done].
  intros (Hn & Hz & Hg). split; [|eauto]. intros ->. change (zlen (@nil Z)) with 0 in Hz. congruence.
Qed.

(** No bytes make the parsers panic. *)
Lemma parse_fill_sound msg_type data :
  Forall byte data → parse msg_type data ⇝? view_within data.
Proof.
  intros Hb. unfold parse. destruct (msg_type =? FILL_VALUE_OLD).
  { unfold parse_old. destruct (_ <? _); [apply sound_fail|].
    by apply (sized_view_sound data 0 4 (λ size, size =? 0)). }
  destruct (msg_type =? FILL_VALUE); [|apply sound_fail]. unfold parse_versioned.
  destruct (head data) as [version|]; [|apply sound_fail]. cbn [ok_or try_].
  destruct (version =? VERSION_ONE).
  { unfold parse_v1. eapply sound_bind; [by apply parse_times_sound|]. intros [time defined] _.
    destruct (_ <? _); [apply sound_fail|].
    apply (sized_view_sound data 4 V1_V2_VALUE_OFFSET (λ size, (defined =? 0) || (size =? 0))); [done..|]. apply orb_true_r. }
  destruct (version =? VERSION_TWO).
  { unfold parse_v2. eapply sound_bind; [by apply parse_times_sound|]. intros [time defined] _.
    destruct (defined =? 0); [by apply sound_ok|]. destruct (_ <? _); [apply sound_fail|].
    by apply (sized_view_sound data 4 V1_V2_VALUE_OFFSET (λ size, size =? 0)). }
  destruct (version =? VERSION_THREE); [|apply sound_fail].
  unfold parse_v3. destruct (zlen data <? 2) eqn:E2; [apply sound_fail|].
  assert (Hd : ∃ a flags l, data = a :: flags :: l).
  { clear -E2. destruct data as [|a [|flags l]]; [done..|by eexists _, _, _]. }
  destruct Hd as (a & flags & l & Ed).
  replace (index data 1) with (Ret flags) by (by rewrite Ed). cbn [mbind outcome_bind].
  destruct (negb _); [apply sound_fail|]. destruct (_ && _); [apply sound_fail|]. cbv zeta.
  destruct (FillTime.try_from _) as [time|]; [|apply sound_fail]. cbn [try_].
  destruct (_ =? 0); [by apply sound_ok|]. destruct (zlen data <? V3_VALUE_OFFSET); [apply sound_fail|].
  by apply (sized_view_sound data 2 V3_VALUE_OFFSET (λ size, size =? 0)).
Qed.

Lemma Ok_inj {A E} (a b : A) : Ok (E := E) a = Ok b → a = b.
Proof. congruence. Qed.

(** The flags byte of version 3 for a fill time, without and with a value. *)
Definition v3_flags (time : FillTime) (defined : bool) : Z :=
  Z.lor (Z.lor 2 (Z.shiftl (FillTime.to_u8 time) 2)) (if defined then V3_FLAG_DEFINED else 0).

Lemma v3_flags_parse time defined :
  Z.land (v3_flags time defined) V3_FLAGS_RESERVED = 0 ∧
  Z.land (v3_flags time defined) V3_FLAG_UNDEFINED = 0 ∧
  FillTime.try_from (Z.land (Z.shiftr (v3_flags time defined) V3_FILL_TIME_SHIFT) V3_FILL_TIME_MASK) = Ok time ∧
  Z.land (v3_flags time defined) V3_FLAG_DEFINED = (if defined then V3_FLAG_DEFINED else 0).
Proof. by destruct time, defined. Qed.

(** A written message is read back, whatever follows it. *)
Lemma parse_fill_written view body rest :
  serialize view = Ok body → zlen (body ++ rest) ≤ USIZE_MAX →
  parse FILL_VALUE (body ++ rest) = ok (mkFillValue (fill_time view) (nonempty (fill_value view))).
Proof.
  destruct view as [time value]. unfold serialize. cbn [fill_time fill_value]. intros Hs Hu.
  change (parse FILL_VALUE (body ++ rest)) with (parse_versioned (body ++ rest)).
  unfold serialize_fill_value_message_v3 in Hs. destruct value as [v|].
  - unfold fill_value_len in Hs. destruct (zlen v <=? U32_FIELD_MAX) eqn:El; [|done]. cbn [result_bind] in Hs.
    apply Ok_inj in Hs as <-. change (Z.lor (Z.lor _ _) V3_FLAG_DEFINED) with (v3_flags time true) in *.
    pose proof (v3_flags_parse time true) as (H1 & H2 & H3 & H4). set (flags := v3_flags time true) in *.
    pose proof (zlen_nonneg v) as Hv0. pose proof (zlen_nonneg rest) as Hr0. unfold U32_FIELD_MAX in El.
    rewrite <- !app_assoc in *. set (data := _ ++ _) in *.
    change (parse_versioned data) with (parse_v3 data). unfold parse_v3.
    assert (Hat : bytes_at data 2 (le_bytes 4 (zlen v) ++ v ++ rest)).
    { exists [VERSION_THREE; flags]. unfold data. done. }
    assert (Hz : zlen data = 6 + zlen v + zlen rest).
    { unfold data. rewrite !zlen_app, zlen_le_bytes. change (zlen [VERSION_THREE; flags]) with 2. lia. }
    replace (zlen data <? 2) with false by lia. change (index data 1) with (Ret flags).
    cbn [mbind outcome_bind]. rewrite H1, H2, H4, H3. cbn [Z.eqb negb andb try_].
    change (V3_FLAG_DEFINED =? 0) with false. cbv iota. unfold V3_VALUE_OFFSET.
    replace (zlen data <? 6) with false by lia. unfold sized_value.
    rewrite (read_u32_at _ _ _ _ Hu Hat) by (unfold fits; lia). rewrite and_then_ok.
    unfold to_usize, usize_checked_add. replace (zlen v <=? USIZE_MAX) with true by lia. cbn [try_].
    replace (6 + zlen v <=? USIZE_MAX) with true by lia. cbn [ok_or try_].
    replace (zlen data <? 6 + zlen v) with false by lia. rewrite and_then_ok.
    apply (bytes_at_skip _ _ _ _ 4) in Hat; [|by rewrite zlen_le_bytes].
    apply (bytes_at_app _ _ _ _ (zlen v)) in Hat as [Hg _]; [|done].
    change (2 + 4) with 6 in Hg. unfold slice. rewrite Hg. destruct v as [|b v]; [done|].
    by replace (zlen (b :: v) =? 0) with false by (rewrite zlen_cons; pose proof (zlen_nonneg v); lia).
  - apply Ok_inj in Hs as <-. unfold parse_versioned. cbn [app head ok_or try_]. unfold parse_v3.
    rewrite !zlen_cons. pose proof (zlen_nonneg rest). replace (1 + (1 + zlen rest) <? 2) with false by lia.
    by destruct time.
Qed.

End Facts.
