(* ===== verification/InfoMessages.v ===== *)
(** * Link Info and Attribute Info messages

    Models [crates/hdf5-pure-format/src/link_info.rs] and [attribute_info.rs]: where a group
    keeps its links and an object its attributes when they are stored densely.  Both
    messages are flags, an optional creation index and two or three addresses; the facts
    say that what is written is read back and that parsing does not panic. *)

From S2P Require Import Prelude Addresses Words ByteFields ByteFieldFacts.

Local Open Scope Z_scope.

(** [address.map_or(Undefined, Defined)] *)
Definition decoded (address : option Z) : DecodedStoredAddress :=
  match address with Some a => Defined a | None => Undefined end.

(** ** Link Info *)

Record LinkInfoMessage : Type := mkLinkInfo {
  link_max_creation_order : option Z;
  link_fractal_heap_address : option Z;
  link_name_index_address : option Z;
  link_creation_order_address : option (option Z);
}.

Module LinkInfoMessage.

Definition LINK_INFO_VERSION : Z := 0.
Definition TRACKS_CREATION_ORDER : Z := 0x01.
Definition INDEXES_CREATION_ORDER : Z := 0x02.

Section Codec.
Context `{B : Build}.

Definition parse_with_offset_width (data : list Z) (w : OffsetWidth) : exec LinkInfoMessage :=
  try_ (ensure_len data 0 2) (λ _,
  version ← index data 0;
  if negb (version =? LINK_INFO_VERSION) then fail (InvalidLinkInfoVersion version)
  else
    flags ← index data 1;
    let has_max_creation_order := negb (Z.land flags TRACKS_CREATION_ORDER =? 0) in
    let has_creation_order_index := negb (Z.land flags INDEXES_CREATION_ORDER =? 0) in
    let pos := 2 in
    '(max_creation_order, pos) ←?
      (if has_max_creation_order then
         try_ (ensure_len data pos 8) (λ _, v ← u64_at data pos; ok (Some v, pos + 8))
       else ok (None, pos));
    fractal_heap_address ←? read_optional_offset_width data pos w;
    let pos := pos + OffsetWidth.get w in
    name_index_address ←? read_optional_offset_width data pos w;
    let pos := pos + OffsetWidth.get w in
    creation_order_address ←?
      (if has_creation_order_index then
         a ←? read_optional_offset_width data pos w; ok (Some a)
       else ok None);
    ok (mkLinkInfo max_creation_order fractal_heap_address name_index_address creation_order_address)).

Definition parse (data : list Z) (offset_size : Z) : exec LinkInfoMessage :=
  try_ (OffsetWidth.try_from offset_size) (λ w, parse_with_offset_width data w).

Definition flags (self : LinkInfoMessage) : Z :=
  Z.lor (match link_max_creation_order self with Some _ => TRACKS_CREATION_ORDER | None => 0 end)
        (match link_creation_order_address self with Some _ => INDEXES_CREATION_ORDER | None => 0 end).

Definition serialize (self : LinkInfoMessage) (w : OffsetWidth) : exec (list Z) :=
  let data := [LINK_INFO_VERSION; flags self] in
  let data := data ++ match link_max_creation_order self with
                      | Some max => le_bytes 8 max | None => [] end in
  data ←? try_write_decoded_address data (decoded (link_fractal_heap_address self)) w;
  data ←? try_write_decoded_address data (decoded (link_name_index_address self)) w;
  match link_creation_order_address self with
  | Some address => try_write_decoded_address data (decoded address) w
  | None => ok data
  end.

End Codec.
End LinkInfoMessage.

(** ** Attribute Info *)

Record AttributeInfoMessage : Type := mkAttributeInfo {
  attr_max_creation_index : option Z;
  attr_indexes_creation_order : bool;
  attr_fractal_heap_address : option Z;
  attr_name_index_address : option Z;
  attr_creation_order_address : option Z;
}.

Module AttributeInfoMessage.
Section Codec.
Context `{B : Build}.

Definition parse_with_offset_width (data : list Z) (w : OffsetWidth) : exec AttributeInfoMessage :=
  try_ (ensure_len data 0 2) (λ _,
  version ← index data 0;
  if negb (version =? 0) then fail (InvalidAttributeInfoVersion version)
  else
    flags ← index data 1;
    let has_max_creation_index := negb (Z.land flags 0x01 =? 0) in
    let has_creation_order_index := negb (Z.land flags 0x02 =? 0) in
    let pos := 2 in
    '(max_creation_index, pos) ←?
      (if has_max_creation_index then
         try_ (ensure_len data pos 2) (λ _, v ← u16_at data pos; ok (Some v, pos + 2))
       else ok (None, pos));
    fractal_heap_address ←? read_optional_offset_width data pos w;
    let pos := pos + OffsetWidth.get w in
    name_index_address ←? read_optional_offset_width data pos w;
    let pos := pos + OffsetWidth.get w in
    creation_order_address ←?
      (if has_creation_order_index then read_optional_offset_width data pos w else ok None);
    ok (mkAttributeInfo max_creation_index has_creation_order_index fractal_heap_address
          name_index_address creation_order_address)).

Definition parse (data : list Z) (offset_size : Z) : exec AttributeInfoMessage :=
  try_ (OffsetWidth.try_from offset_size) (λ w, parse_with_offset_width data w).

Definition write_optional_offset (data : list Z) (address : option Z) (w : OffsetWidth)
    : exec (list Z) := try_write_decoded_address data (decoded address) w.

(** [u8::from(b)] *)
Definition u8_from (b : bool) : Z := if b then 1 else 0.

Definition flags (self : AttributeInfoMessage) : Z :=
  Z.lor (u8_from (match attr_max_creation_index self with Some _ => true | None => false end))
        (Z.shiftl (u8_from (attr_indexes_creation_order self)) 1).

Definition serialize (self : AttributeInfoMessage) (w : OffsetWidth) : exec (list Z) :=
  let data := [0; flags self] in
  let data := data ++ match attr_max_creation_index self with
                      | Some max => le_bytes 2 max | None => [] end in
  data ←? write_optional_offset data (attr_fractal_heap_address self) w;
  data ←? write_optional_offset data (attr_name_index_address self) w;
  if attr_indexes_creation_order self
  then write_optional_offset data (attr_creation_order_address self) w
  else ok data.

End Codec.
End AttributeInfoMessage.

(** ** Facts *)

Section Facts.
Context `{B : Build}.

Definition address_bytes (w : OffsetWidth) (a : option Z) : list Z := obytes w (stored_bits w (decoded a)).

Definition optional_fits (w : OffsetWidth) (a : option Z) : Prop := address_fits w (decoded a).

Definition optional_u64 (a : option Z) : Prop := match a with Some a => u64 a | None => True end.

Lemma write_optional_cases buf a w :
  optional_u64 a →
  (optional_fits w a ∧ try_write_decoded_address buf (decoded a) w = ok (buf ++ address_bytes w a)) ∨
  (¬ optional_fits w a ∧ ∃ e, try_write_decoded_address buf (decoded a) w = fail e).
Proof. intros Ha. apply try_write_decoded_cases. by destruct a. Qed.

Lemma zlen_address w a : zlen (address_bytes w a) = OffsetWidth.get w.
Proof. unfold address_bytes. rewrite zlen_le_bytes. by destruct w. Qed.

(** A stored address is read back, the undefined one as none. *)
Lemma read_optional_ok data pos w a r :
  zlen data ≤ USIZE_MAX → bytes_at data pos (address_bytes w a ++ r) → optional_fits w a →
  read_optional_offset_width data pos w = ok a ∧ bytes_at data (pos + OffsetWidth.get w) r.
Proof.
  intros Hu Hat Hf. pose proof (bytes_at_nonneg _ _ _ Hat).
  split; [|by apply (bytes_at_skip _ _ _ _ _ Hat), zlen_address].
  unfold read_optional_offset_width. rewrite read_offset_width_eq by done. unfold read_word.
  apply (bytes_at_app _ _ _ _ (OffsetWidth.get w)) in Hat as [-> _]; [|apply zlen_address].
  rewrite and_then_ok. unfold address_bytes.
  rewrite le_value_bytes by (pose proof (stored_bits_fits w _ Hf) as H'; unfold fits in H'; by destruct w).
  destruct a as [a|]; unfold StoredAddress.is_undefined; simpl.
  - unfold optional_fits in Hf. simpl in Hf. by replace (a =? StoredAddress.undefined w) with false by lia.
  - by rewrite Z.eqb_refl.
Qed.

Lemma read_optional_sound data pos w :
  zlen data ≤ USIZE_MAX → Forall byte data → 0 ≤ pos →
  read_optional_offset_width data pos w ⇝? (λ a, optional_fits w a ∧ optional_u64 a).
Proof.
  intros Hu Hb Hp. unfold read_optional_offset_width. rewrite read_offset_width_eq by done.
  eapply sound_bind; [by apply read_word_sound|]. intros v [Hv _]. apply sound_ok.
  pose proof (offset_fits_u64 _ _ Hv) as Hv64. unfold StoredAddress.is_undefined, fits in *.
  destruct (v =? StoredAddress.undefined w) eqn:E; [done|]. unfold optional_fits. simpl.
  split; [|done]. rewrite undefined_eq in *. lia.
Qed.

Lemma offset_get_pos w : 0 < OffsetWidth.get w.
Proof. by destruct w. Qed.

Definition link_info_typed (m : LinkInfoMessage) : Prop :=
  match link_max_creation_order m with Some v => fits 8 v | None => True end ∧
  optional_u64 (link_fractal_heap_address m) ∧ optional_u64 (link_name_index_address m) ∧
  match link_creation_order_address m with Some a => optional_u64 a | None => True end.

Definition link_info_writable (w : OffsetWidth) (m : LinkInfoMessage) : Prop :=
  optional_fits w (link_fractal_heap_address m) ∧ optional_fits w (link_name_index_address m) ∧
  match link_creation_order_address m with Some a => optional_fits w a | None => True end.

Definition link_info_bytes (w : OffsetWidth) (m : LinkInfoMessage) : list Z :=
  [0; LinkInfoMessage.flags m]
  ++ match link_max_creation_order m with Some v => le_bytes 8 v | None => [] end
  ++ address_bytes w (link_fractal_heap_address m) ++ address_bytes w (link_name_index_address m)
  ++ match link_creation_order_address m with Some a => address_bytes w a | None => [] end.

Lemma serialize_link_info_cases m w :
  link_info_typed m →
  (link_info_writable w m ∧ LinkInfoMessage.serialize m w = ok (link_info_bytes w m)) ∨
  (¬ link_info_writable w m ∧ ∃ e, LinkInfoMessage.serialize m w = fail e).
Proof.
  intros (_ & H1 & H2 & H3). unfold LinkInfoMessage.serialize, link_info_writable, link_info_bytes.
  match goal with |- context [try_write_decoded_address ?b (decoded (link_fractal_heap_address m)) _] =>
    destruct (write_optional_cases b _ w H1) as [[F1 ->]|[F1 [e ->]]] end;
    [rewrite and_then_ok|right; split; [tauto|by eexists]].
  match goal with |- context [try_write_decoded_address ?b (decoded (link_name_index_address m)) _] =>
    destruct (write_optional_cases b _ w H2) as [[F2 ->]|[F2 [e ->]]] end;
    [rewrite and_then_ok|right; split; [tauto|by eexists]].
  destruct (link_creation_order_address m) as [a|].
  - match goal with |- context [try_write_decoded_address ?b (decoded a) _] =>
      destruct (write_optional_cases b a w H3) as [[F3 ->]|[F3 [e ->]]] end;
      [left; split; [tauto|by rewrite <- !app_assoc]|right; split; [tauto|by eexists]].
  - left. split; [tauto|]. by rewrite <- !app_assoc, app_nil_r.
Qed.

Lemma link_flags_parse m :
  negb (Z.land (LinkInfoMessage.flags m) LinkInfoMessage.TRACKS_CREATION_ORDER =? 0)
    = match link_max_creation_order m with Some _ => true | None => false end ∧
  negb (Z.land (LinkInfoMessage.flags m) LinkInfoMessage.INDEXES_CREATION_ORDER =? 0)
    = match link_creation_order_address m with Some _ => true | None => false end.
Proof.
  unfold LinkInfoMessage.flags. by destruct (link_max_creation_order m), (link_creation_order_address m).
Qed.

(** A written Link Info message is read back, whatever follows it. *)
Lemma parse_link_info_written m w rest :
  link_info_typed m → link_info_writable w m → zlen (link_info_bytes w m ++ rest) ≤ USIZE_MAX →
  LinkInfoMessage.parse_with_offset_width (link_info_bytes w m ++ rest) w = ok m.
Proof.
  intros (Hm & _) (F1 & F2 & F3) Hu. unfold link_info_bytes in *. rewrite <- !app_assoc in *.
  set (data := [0; LinkInfoMessage.flags m] ++ _) in *.
  assert (Hat : bytes_at data 2 (match link_max_creation_order m with Some v => le_bytes 8 v | None => [] end
    ++ address_bytes w (link_fractal_heap_address m) ++ address_bytes w (link_name_index_address m)
    ++ match link_creation_order_address m with Some a => address_bytes w a | None => [] end ++ rest))
    by (by exists [0; LinkInfoMessage.flags m]).
  unfold LinkInfoMessage.parse_with_offset_width.
  rewrite (ensure_len_at data 0 [0; LinkInfoMessage.flags m] _ _ Hu (bytes_at_0 data)) by done.
  cbn [try_]. change (index data 0) with (Ret 0). change (index data 1) with (Ret (LinkInfoMessage.flags m)).
  cbn [mbind outcome_bind]. change (negb (0 =? LinkInfoMessage.LINK_INFO_VERSION)) with false. cbv iota zeta.
  destruct (link_flags_parse m) as [-> ->].
  assert (Hmax : (if match link_max_creation_order m with Some _ => true | None => false end then
      try_ (ensure_len data 2 8) (λ _, v ← u64_at data 2; ok (Some v, 2 + 8)) else ok (None, 2))
    = ok (E := FormatError) (link_max_creation_order m,
        2 + zlen (match link_max_creation_order m with Some v => le_bytes 8 v | None => [] end))).
  { destruct (link_max_creation_order m) as [v|]; [|done].
    rewrite (ensure_len_at _ _ _ _ _ Hu Hat) by done. cbn [try_].
    by destruct (u64_next _ _ _ _ Hat Hm) as [-> _]. }
  rewrite Hmax, and_then_ok. eapply bytes_at_skip in Hat; [|done].
  destruct (read_optional_ok _ _ _ _ _ Hu Hat F1) as [-> Hat1]. rewrite and_then_ok.
  destruct (read_optional_ok _ _ _ _ _ Hu Hat1 F2) as [-> Hat2]. rewrite and_then_ok.
  destruct m as [mx h n [c|]]; cbn in *; [|done].
  by destruct (read_optional_ok _ _ _ _ _ Hu Hat2 F3) as [-> _].
Qed.

Lemma parse_link_info_sound data w :
  zlen data ≤ USIZE_MAX → Forall byte data →
  LinkInfoMessage.parse_with_offset_width data w ⇝? (λ m, link_info_typed m ∧ link_info_writable w m).
Proof.
  intros Hu Hb. unfold LinkInfoMessage.parse_with_offset_width. apply within_ensure; [done|]. intros Hl.
  assert (Hd : ∃ version flags l, data = version :: flags :: l)
    by (clear -Hl; destruct data as [|a [|b l]]; [done..|by eexists _, _, _]).
  destruct Hd as (version & flags & l & Hd).
  replace (index data 0) with (Ret version) by (by rewrite Hd).
  replace (index data 1) with (Ret flags) by (by rewrite Hd). cbn [mbind outcome_bind].
  destruct (negb (version =? _)); [apply sound_fail|]. cbv zeta. pose proof (offset_get_pos w).
  eapply (sound_bind _ _ (λ '(mx, p), match mx with Some v => fits 8 v | None => True end ∧ 0 ≤ p)).
  { destruct (negb _); [|by apply sound_ok]. apply within_ensure; [done|]. intros Hl8.
    apply within_u64; [done|lia|lia|]. intros v Hv. by apply sound_ok. }
  intros [mx p] [Hmx Hp]. eapply sound_bind; [by apply read_optional_sound|]. intros h [Hh1 Hh2].
  eapply sound_bind; [apply read_optional_sound; [done|done|lia]|]. intros n [Hn1 Hn2].
  eapply (sound_bind _ _ (λ c, match c with Some a => optional_fits w a ∧ optional_u64 a | None => True end)).
  { destruct (negb _); [|by apply sound_ok].
    eapply sound_bind; [apply read_optional_sound; [done|done|lia]|]. intros a Ha. by apply sound_ok. }
  intros c Hc. apply sound_ok. unfold link_info_typed, link_info_writable. cbn. destruct c; naive_solver.
Qed.

(** ** Attribute Info *)

Definition attr_info_typed (m : AttributeInfoMessage) : Prop :=
  match attr_max_creation_index m with Some v => fits 2 v | None => True end ∧
  optional_u64 (attr_fractal_heap_address m) ∧ optional_u64 (attr_name_index_address m) ∧
  optional_u64 (attr_creation_order_address m).

(** The creation-order address is stored only where the object indexes creation order. *)
Definition attr_stored_order (m : AttributeInfoMessage) : option Z :=
  if attr_indexes_creation_order m then attr_creation_order_address m else None.

Definition attr_info_writable (w : OffsetWidth) (m : AttributeInfoMessage) : Prop :=
  optional_fits w (attr_fractal_heap_address m) ∧ optional_fits w (attr_name_index_address m) ∧
  optional_fits w (attr_stored_order m).

Definition attr_info_bytes (w : OffsetWidth) (m : AttributeInfoMessage) : list Z :=
  [0; AttributeInfoMessage.flags m]
  ++ match attr_max_creation_index m with Some v => le_bytes 2 v | None => [] end
  ++ address_bytes w (attr_fractal_heap_address m) ++ address_bytes w (attr_name_index_address m)
  ++ (if attr_indexes_creation_order m then address_bytes w (attr_creation_order_address m) else []).

(** The message without an address it does not store. *)
Definition attr_stored_form (m : AttributeInfoMessage) : AttributeInfoMessage :=
  mkAttributeInfo (attr_max_creation_index m) (attr_indexes_creation_order m)
    (attr_fractal_heap_address m) (attr_name_index_address m) (attr_stored_order m).

Lemma serialize_attr_info_cases m w :
  attr_info_typed m →
  (attr_info_writable w m ∧ AttributeInfoMessage.serialize m w = ok (attr_info_bytes w m)) ∨
  (¬ attr_info_writable w m ∧ ∃ e, AttributeInfoMessage.serialize m w = fail e).
Proof.
  intros (_ & H1 & H2 & H3).
  unfold AttributeInfoMessage.serialize, AttributeInfoMessage.write_optional_offset, attr_info_writable,
    attr_info_bytes, attr_stored_order.
  match goal with |- context [try_write_decoded_address ?b (decoded (attr_fractal_heap_address m)) _] =>
    destruct (write_optional_cases b _ w H1) as [[F1 ->]|[F1 [e ->]]] end;
    [rewrite and_then_ok|right; split; [tauto|by eexists]].
  match goal with |- context [try_write_decoded_address ?b (decoded (attr_name_index_address m)) _] =>
    destruct (write_optional_cases b _ w H2) as [[F2 ->]|[F2 [e ->]]] end;
    [rewrite and_then_ok|right; split; [tauto|by eexists]].
  destruct (attr_indexes_creation_order m).
  - match goal with |- context [try_write_decoded_address ?b (decoded (attr_creation_order_address m)) _] =>
      destruct (write_optional_cases b _ w H3) as [[F3 ->]|[F3 [e ->]]] end;
      [left; split; [tauto|by rewrite <- !app_assoc]|right; split; [tauto|by eexists]].
  - left. split; [done|]. by rewrite <- !app_assoc, app_nil_r.
Qed.

Lemma attr_flags_parse m :
  negb (Z.land (AttributeInfoMessage.flags m) 0x01 =? 0)
    = match attr_max_creation_index m with Some _ => true | None => false end ∧
  negb (Z.land (AttributeInfoMessage.flags m) 0x02 =? 0) = attr_indexes_creation_order m.
Proof.
  unfold AttributeInfoMessage.flags. by destruct (attr_max_creation_index m), (attr_indexes_creation_order m).
Qed.

(** A written Attribute Info message is read back, whatever follows it. *)
Lemma parse_attr_info_written m w rest :
  attr_info_typed m → attr_info_writable w m → zlen (attr_info_bytes w m ++ rest) ≤ USIZE_MAX →
  AttributeInfoMessage.parse_with_offset_width (attr_info_bytes w m ++ rest) w = ok (attr_stored_form m).
Proof.
  intros (Hm & _) (F1 & F2 & F3) Hu. unfold attr_info_bytes in *. rewrite <- !app_assoc in *.
  set (data := [0; AttributeInfoMessage.flags m] ++ _) in *.
  assert (Hat : bytes_at data 2 (match attr_max_creation_index m with Some v => le_bytes 2 v | None => [] end
    ++ address_bytes w (attr_fractal_heap_address m) ++ address_bytes w (attr_name_index_address m)
    ++ (if attr_indexes_creation_order m then address_bytes w (attr_creation_order_address m) else []) ++ rest))
    by (by exists [0; AttributeInfoMessage.flags m]).
  unfold AttributeInfoMessage.parse_with_offset_width.
  rewrite (ensure_len_at data 0 [0; AttributeInfoMessage.flags m] _ _ Hu (bytes_at_0 data)) by done.
  cbn [try_]. change (index data 0) with (Ret 0). change (index data 1) with (Ret (AttributeInfoMessage.flags m)).
  cbn [mbind outcome_bind]. change (negb (0 =? 0)) with false. cbv iota zeta.
  destruct (attr_flags_parse m) as [-> ->].
  assert (Hmax : (if match attr_max_creation_index m with Some _ => true | None => false end then
      try_ (ensure_len data 2 2) (λ _, v ← u16_at data 2; ok (Some v, 2 + 2)) else ok (None, 2))
    = ok (E := FormatError) (attr_max_creation_index m,
        2 + zlen (match attr_max_creation_index m with Some v => le_bytes 2 v | None => [] end))).
  { destruct (attr_max_creation_index m) as [v|]; [|done].
    rewrite (ensure_len_at _ _ _ _ _ Hu Hat) by done. cbn [try_].
    by destruct (u16_next _ _ _ _ Hat Hm) as [-> _]. }
  rewrite Hmax, and_then_ok. eapply bytes_at_skip in Hat; [|done].
  destruct (read_optional_ok _ _ _ _ _ Hu Hat F1) as [-> Hat1]. rewrite and_then_ok.
  destruct (read_optional_ok _ _ _ _ _ Hu Hat1 F2) as [-> Hat2]. rewrite and_then_ok.
  unfold attr_stored_form, attr_stored_order in *. destruct (attr_indexes_creation_order m); [|done].
  by destruct (read_optional_ok _ _ _ _ _ Hu Hat2 F3) as [-> _].
Qed.

Lemma parse_attr_info_sound data w :
  zlen data ≤ USIZE_MAX → Forall byte data →
  AttributeInfoMessage.parse_with_offset_width data w
  ⇝? (λ m, attr_info_typed m ∧ attr_info_writable w m ∧ attr_stored_form m = m).
Proof.
  intros Hu Hb. unfold AttributeInfoMessage.parse_with_offset_width. apply within_ensure; [done|]. intros Hl.
  assert (Hd : ∃ version flags l, data = version :: flags :: l)
    by (clear -Hl; destruct data as [|a [|b l]]; [done..|by eexists _, _, _]).
  destruct Hd as (version & flags & l & Hd).
  replace (index data 0) with (Ret version) by (by rewrite Hd).
  replace (index data 1) with (Ret flags) by (by rewrite Hd). cbn [mbind outcome_bind].
  destruct (negb (version =? _)); [apply sound_fail|]. cbv zeta. pose proof (offset_get_pos w).
  eapply (sound_bind _ _ (λ '(mx, p), match mx with Some v => fits 2 v | None => True end ∧ 0 ≤ p)).
  { destruct (negb _); [|by apply sound_ok]. apply within_ensure; [done|]. intros Hl2.
    apply within_u16; [done|lia|lia|]. intros v Hv. by apply sound_ok. }
  intros [mx p] [Hmx Hp]. eapply sound_bind; [by apply read_optional_sound|]. intros h [Hh1 Hh2].
  eapply sound_bind; [apply read_optional_sound; [done|done|lia]|]. intros n [Hn1 Hn2].
  destruct (negb (Z.land flags 2 =? 0)).
  - eapply sound_bind; [apply read_optional_sound; [done|done|lia]|]. intros a [Ha1 Ha2]. by apply sound_ok.
  - rewrite and_then_ok. by apply sound_ok.
Qed.

End Facts.
