(* ===== verification/LinkMessages.v ===== *)
(** * The Link message

    Models [crates/hdf5-pure-format/src/link_message.rs]: the links of a group with their
    hard, soft and external targets, the parser of the message, the lookups that compare a
    name where it lies in the message, and the writer.  Strings are their bytes ([Utf8]). *)

From S2P Require Import Prelude Addresses Words ByteFields ByteFieldFacts Utf8.

Local Open Scope Z_scope.

(** [CharacterSet] of the datatype module *)
Inductive CharacterSet : Type := Ascii | Utf8.

#[global] Instance CharacterSet_eq_dec : EqDecision CharacterSet.
Proof. solve_decision. Defined.

Inductive SymbolicLinkTarget : Type :=
| Soft (target_path : list Z)
| External (filename object_path : list Z).

Inductive LinkTarget : Type :=
| Hard (object_header_address : Z)
| Indirect (target : SymbolicLinkTarget).

#[global] Instance SymbolicLinkTarget_eq_dec : EqDecision SymbolicLinkTarget.
Proof. solve_decision. Defined.

#[global] Instance LinkTarget_eq_dec : EqDecision LinkTarget.
Proof. solve_decision. Defined.

Module LinkTarget.

Definition soft (target_path : list Z) : LinkTarget := Indirect (Soft target_path).

Definition external (filename object_path : list Z) : LinkTarget := Indirect (External filename object_path).

End LinkTarget.

Record LinkMessage : Type := mkLink {
  link_name : list Z;
  link_target : LinkTarget;
  link_creation_order : option Z;
  link_charset : CharacterSet;
}.

#[global] Instance LinkMessage_eq_dec : EqDecision LinkMessage.
Proof. solve_decision. Defined.

Record LinkPrefix : Type := mkPrefix {
  prefix_name : list Z;
  prefix_link_type_code : Z;
  prefix_creation_order : option Z;
  prefix_charset : CharacterSet;
  prefix_target_pos : Z;
}.

Inductive LinkTargetView : Type :=
| ExternalView (filename object_path : list Z)
| HardView (object_header_address : Z)
| SoftView (target_path : list Z).

Definition LINK_INFORMATION_LENGTH_SIZE : Z := 2.
Definition HARD_LINK : Z := 0.
Definition SOFT_LINK : Z := 1.
Definition EXTERNAL_LINK : Z := 64.

Definition into_owned (view : LinkTargetView) : LinkTarget :=
  match view with
  | ExternalView filename object_path =>
    LinkTarget.external (from_utf8_lossy filename) (from_utf8_lossy object_path)
  | HardView address => Hard address
  | SoftView target_path => LinkTarget.soft target_path
  end.

Module LinkPrefix.
Section Parser.
Context `{B : Build}.

(** The optional fields of the message, each behind its flag: the field and the position
    behind it. *)
Definition read_link_type (data : list Z) (pos : Z) (has_link_type : bool) : exec (Z * Z) :=
  if has_link_type then try_ (ensure_len data pos 1) (λ _, v ← index data pos; ok (v, pos + 1))
  else ok (0, pos).

Definition read_creation_order (data : list Z) (pos : Z) (has_creation_order : bool)
    : exec (option Z * Z) :=
  if has_creation_order then
    try_ (ensure_len data pos 8) (λ _, co ← u64_at data pos; ok (Some co, pos + 8))
  else ok (None, pos).

Definition read_charset (data : list Z) (pos : Z) (has_charset : bool) : exec (CharacterSet * Z) :=
  if has_charset then
    try_ (ensure_len data pos 1) (λ _,
    cs ← index data pos;
    if cs =? 0 then ok (Ascii, pos + 1)
    else if cs =? 1 then ok (Utf8, pos + 1)
    else fail (InvalidCharacterSet cs))
  else ok (Ascii, pos).

Definition read_name (data : list Z) (pos : Z) (name_size_field_width : UintWidth)
    : exec (list Z * Z) :=
  name_len ←? read_uint_width data pos name_size_field_width;
  try_ (to_usize name_len) (λ name_len,
  let pos := pos + UintWidth.get name_size_field_width in
  try_ (ensure_len data pos name_len) (λ _,
  name ← slice data pos (pos + name_len);
  ok (name, pos + name_len))).

Definition parse (data : list Z) : exec LinkPrefix :=
  try_ (ensure_len data 0 2) (λ _,
  version ← index data 0;
  if negb (version =? 1) then fail (InvalidLinkVersion version)
  else
    flags ← index data 1;
    let name_size_field_width := UintWidth.from_flags flags in
    let has_creation_order := negb (Z.land flags 0x04 =? 0) in
    let has_link_type := negb (Z.land flags 0x08 =? 0) in
    let has_charset := negb (Z.land flags 0x10 =? 0) in
    '(link_type_code, pos) ←? read_link_type data 2 has_link_type;
    '(creation_order, pos) ←? read_creation_order data pos has_creation_order;
    '(charset, pos) ←? read_charset data pos has_charset;
    '(name, pos) ←? read_name data pos name_size_field_width;
    ok (mkPrefix name link_type_code creation_order charset pos)).

(** The value of a soft or an external link: a length of two bytes and that many bytes. *)
Definition link_value (data : list Z) (pos : Z) : exec (list Z) :=
  try_ (ensure_len data pos 2) (λ _,
  len ← u16_at data pos;
  let pos := pos + 2 in
  try_ (ensure_len data pos len) (λ _,
  Ok <$> slice data pos (pos + len))).

(** The file and object paths of an external link's value. *)
Definition external_view (ext_data : list Z) : outcome LinkTargetView :=
  let start := if Nat.eqb (length ext_data) 0 then 0 else 1 in
  rest ← slice_from ext_data start;
  let null1 := default (zlen rest) (nul_position rest) in
  filename ← slice rest 0 null1;
  let after_null1 := if null1 + 1 <? zlen rest then null1 + 1 else zlen rest in
  rest2 ← slice_from rest after_null1;
  let null2 := default (zlen rest2) (nul_position rest2) in
  object_path ← slice rest2 0 null2;
  Ret (ExternalView filename object_path).

Definition target_view (self : LinkPrefix) (data : list Z) (w : OffsetWidth) : exec LinkTargetView :=
  let pos := prefix_target_pos self in
  let code := prefix_link_type_code self in
  if code =? HARD_LINK then
    address ←? read_offset_width data pos w; ok (HardView address)
  else if code =? SOFT_LINK then
    value ←? link_value data pos;
    match from_utf8 value with
    | Ok target_path => ok (SoftView target_path)
    | Err source => fail (InvalidSoftLinkEncoding source)
    end
  else if code =? EXTERNAL_LINK then
    ext_data ←? link_value data pos; Ok <$> external_view ext_data
  else fail (InvalidLinkType code).

Definition target (self : LinkPrefix) (data : list Z) (w : OffsetWidth) : exec LinkTarget :=
  view ←? target_view self data w; ok (into_owned view).

Definition hard_link_address_range (self : LinkPrefix) (data : list Z) (w : OffsetWidth)
    : exec (option (Z * Z)) :=
  let code := prefix_link_type_code self in
  if code =? HARD_LINK then
    let address := (prefix_target_pos self, prefix_target_pos self + OffsetWidth.get w) in
    try_ (ensure_len data (fst address) (snd address - fst address)) (λ _, ok (Some address))
  else if (code =? SOFT_LINK) || (code =? EXTERNAL_LINK) then ok None
  else fail (InvalidLinkType code).

End Parser.
End LinkPrefix.

Definition name_matches (raw wanted : list Z) : bool :=
  bool_decide (raw = wanted)
  || (negb (utf8_valid raw) && bool_decide (from_utf8_lossy raw = wanted)).

Section Messages.
Context `{B : Build}.

Definition link_is_named (data name : list Z) : outcome bool :=
  prefix ← LinkPrefix.parse data;
  Ret (match prefix with Ok prefix => name_matches (prefix_name prefix) name | Err _ => true end).

Definition push_link_information_length (buf : list Z) (len : Z) : result (list Z) FormatError :=
  if len <=? 65535 then Ok (buf ++ le_bytes 2 len)
  else Err (LengthTooLarge len LINK_INFORMATION_LENGTH_SIZE).

End Messages.

Module LinkMessage.
Section Codec.
Context `{B : Build}.

Definition name_bytes (data : list Z) : exec (list Z) :=
  prefix ←? LinkPrefix.parse data; ok (prefix_name prefix).

Definition parsed_name_bytes (data : list Z) (w : OffsetWidth) : exec (list Z) :=
  prefix ←? LinkPrefix.parse data;
  _ ←? LinkPrefix.target_view prefix data w;
  ok (prefix_name prefix).

Definition hard_link_address_if_named_with_offset_width (data : list Z) (w : OffsetWidth)
    (name : list Z) : exec (option Z) :=
  prefix ←? LinkPrefix.parse data;
  if negb (name_matches (prefix_name prefix) name) then ok None
  else
    range ←? LinkPrefix.hard_link_address_range prefix data w;
    match range with
    | Some (start, _) => address ←? read_offset_width data start w; ok (Some address)
    | None => ok None
    end.

Definition hard_link_address_if_named (data : list Z) (offset_size : Z) (name : list Z)
    : exec (option Z) :=
  try_ (OffsetWidth.try_from offset_size) (λ w,
  hard_link_address_if_named_with_offset_width data w name).

Definition target_if_named (data : list Z) (w : OffsetWidth) (name : list Z)
    : exec (option LinkTarget) :=
  prefix ←? LinkPrefix.parse data;
  if negb (name_matches (prefix_name prefix) name) then ok None
  else target ←? LinkPrefix.target prefix data w; ok (Some target).

Definition hard_link_address_range (data : list Z) (w : OffsetWidth) : exec (option (Z * Z)) :=
  prefix ←? LinkPrefix.parse data; LinkPrefix.hard_link_address_range prefix data w.

Definition parse_with_offset_width (data : list Z) (w : OffsetWidth) : exec LinkMessage :=
  prefix ←? LinkPrefix.parse data;
  link_target ←? LinkPrefix.target prefix data w;
  ok (mkLink (from_utf8_lossy (prefix_name prefix)) link_target
        (prefix_creation_order prefix) (prefix_charset prefix)).

Definition parse (data : list Z) (offset_size : Z) : exec LinkMessage :=
  try_ (OffsetWidth.try_from offset_size) (λ w, parse_with_offset_width data w).

(** The flags byte: the width of the name length and which fields are present. *)
Definition flags (self : LinkMessage) : Z :=
  let flags := UintWidth.flag_bits (UintWidth.smallest_for_len (zlen (link_name self))) in
  let flags := match link_creation_order self with Some _ => Z.lor flags 0x04 | None => flags end in
  let flags := match link_target self with Indirect _ => Z.lor flags 0x08 | Hard _ => flags end in
  if bool_decide (link_charset self = Ascii) then flags else Z.lor flags 0x10.

Definition serialize (self : LinkMessage) (w : OffsetWidth) : exec (list Z) :=
  let buf := [1; flags self] in
  let name_len := zlen (link_name self) in
  let name_width := UintWidth.smallest_for_len name_len in
  let buf := buf ++ match link_target self with
                    | Indirect (Soft _) => [SOFT_LINK]
                    | Indirect (External _ _) => [EXTERNAL_LINK]
                    | Hard _ => []
                    end in
  let buf := buf ++ match link_creation_order self with Some co => le_bytes 8 co | None => [] end in
  let buf := if bool_decide (link_charset self = Ascii) then buf
             else buf ++ [match link_charset self with Ascii => 0 | Utf8 => 1 end] in
  buf ← UintWidth.write name_width buf name_len;
  let buf := buf ++ link_name self in
  match link_target self with
  | Hard address => try_write_decoded_address buf (Defined address) w
  | Indirect (Soft path) =>
    try_ (push_link_information_length buf (zlen path)) (λ buf, ok (buf ++ path))
  | Indirect (External filename object_path) =>
    let ext_data := [0] ++ filename ++ [0] ++ object_path ++ [0] in
    try_ (push_link_information_length buf (zlen ext_data)) (λ buf, ok (buf ++ ext_data))
  end.

End Codec.
End LinkMessage.

Module LinkTests.
#[local] Existing Instance build64.

Definition ext : LinkMessage := mkLink [108; 0xC3; 0xA9] (LinkTarget.external [102] [47; 120]) (Some 9) Utf8.

Example external_runs :
  (body ←? LinkMessage.serialize ext OffsetFour; LinkMessage.parse (body ++ [5]) 4) = ok ext.
Proof. vm_compute. reflexivity. Qed.

Example hard_named :
  (body ←? LinkMessage.serialize (mkLink [97] (Hard 4660) None Ascii) OffsetTwo;
   LinkMessage.hard_link_address_if_named body 2 [97]) = ok (Some 4660).
Proof. vm_compute. reflexivity. Qed.

End LinkTests.

(** ** Facts about the Link message

    A link that is written is read back; the lookups by name agree with the parser; the
    address range of a hard link is where its target can be rewritten; no bytes make the
    parsers panic. *)

(** ** The layout of a message *)

Definition type_code (t : LinkTarget) : Z :=
  match t with
  | Hard _ => HARD_LINK
  | Indirect (Soft _) => SOFT_LINK
  | Indirect (External _ _) => EXTERNAL_LINK
  end.

Definition type_bytes (t : LinkTarget) : list Z :=
  match t with Hard _ => [] | Indirect _ => [type_code t] end.

Definition order_bytes (order : option Z) : list Z :=
  match order with Some co => le_bytes 8 co | None => [] end.

Definition charset_bytes (c : CharacterSet) : list Z := match c with Ascii => [] | Utf8 => [1] end.

Definition name_width (name : list Z) : UintWidth := UintWidth.smallest_for_len (zlen name).

Definition prefix_bytes (m : LinkMessage) : list Z :=
  [1; LinkMessage.flags m] ++ type_bytes (link_target m) ++ order_bytes (link_creation_order m)
  ++ charset_bytes (link_charset m)
  ++ le_bytes (Z.to_nat (UintWidth.get (name_width (link_name m)))) (zlen (link_name m))
  ++ link_name m.

Definition external_bytes (filename object_path : list Z) : list Z :=
  [0] ++ filename ++ [0] ++ object_path ++ [0].

(** The bytes behind the name. *)
Definition target_bytes (w : OffsetWidth) (t : LinkTarget) : list Z :=
  match t with
  | Hard address => obytes w address
  | Indirect (Soft path) => le_bytes 2 (zlen path) ++ path
  | Indirect (External f o) => le_bytes 2 (zlen (external_bytes f o)) ++ external_bytes f o
  end.

Definition link_bytes (w : OffsetWidth) (m : LinkMessage) : list Z :=
  prefix_bytes m ++ target_bytes w (link_target m).

(** The strings are [String]s and the numbers values of their Rust types. *)
Definition link_typed (m : LinkMessage) : Prop :=
  utf8_valid (link_name m) = true ∧
  match link_creation_order m with Some co => fits 8 co | None => True end ∧
  match link_target m with
  | Hard a => u64 a
  | Indirect (Soft path) => utf8_valid path = true
  | Indirect (External f o) => utf8_valid f = true ∧ utf8_valid o = true
  end.

(** What the message can store: an address below the undefined marker, and values of at
    most 65535 bytes. *)
Definition link_writable (w : OffsetWidth) (m : LinkMessage) : Prop :=
  match link_target m with
  | Hard a => address_fits w (Defined a)
  | Indirect (Soft path) => zlen path ≤ 65535
  | Indirect (External f o) => zlen (external_bytes f o) ≤ 65535
  end.

(** The paths of an external link are stored up to their NUL terminators. *)
Definition link_paths_ok (m : LinkMessage) : Prop :=
  match link_target m with
  | Indirect (External f o) => contains_nul f = false ∧ contains_nul o = false
  | _ => True
  end.

Lemma uint_get_pos w : 0 < UintWidth.get w ≤ 8.
Proof. by destruct w. Qed.

Lemma name_len_fits name : u64 (zlen name) → fits (UintWidth.get (name_width name)) (zlen name).
Proof. intros Hu. by apply uint_holds, uint_smallest_holds. Qed.

(** The flags byte says what the message holds. *)
Lemma flags_parse m :
  let f := LinkMessage.flags m in
  UintWidth.from_flags f = name_width (link_name m) ∧
  negb (Z.land f 0x04 =? 0) = match link_creation_order m with Some _ => true | None => false end ∧
  negb (Z.land f 0x08 =? 0) = match link_target m with Indirect _ => true | Hard _ => false end ∧
  negb (Z.land f 0x10 =? 0) = match link_charset m with Utf8 => true | Ascii => false end.
Proof.
  unfold LinkMessage.flags, name_width. generalize (UintWidth.smallest_for_len (zlen (link_name m))) as w.
  intros w. destruct w, (link_creation_order m), (link_target m), (link_charset m); done.
Qed.

Section Facts.
Context `{B : Build}.

(** ** The writer *)

Lemma serialize_link_cases m w :
  link_typed m → zlen (link_name m) ≤ U64_MAX →
  (link_writable w m ∧ LinkMessage.serialize m w = ok (link_bytes w m)) ∨
  (¬ link_writable w m ∧ ∃ e, LinkMessage.serialize m w = fail e).
Proof.
  intros (_ & _ & Ht) Hn. pose proof (zlen_nonneg (link_name m)).
  unfold LinkMessage.serialize, link_writable, link_bytes, prefix_bytes. cbv zeta.
  fold (name_width (link_name m)).
  rewrite uint_write_eq by (done || by apply name_len_fits). cbn [mbind outcome_bind].
  replace (if bool_decide (link_charset m = Ascii) then _ else _)
    with (([1; LinkMessage.flags m] ++ match link_target m with Indirect (Soft _) => [SOFT_LINK]
       | Indirect (External _ _) => [EXTERNAL_LINK] | Hard _ => [] end)
      ++ order_bytes (link_creation_order m) ++ charset_bytes (link_charset m))
    by (destruct (link_charset m); simpl; by rewrite ?app_nil_r, <- ?app_assoc).
  unfold push_link_information_length.
  destruct (link_target m) as [a|[path|f o]].
  - match goal with |- context [try_write_decoded_address ?b _ _] =>
      destruct (try_write_decoded_cases b (Defined a) w Ht) as [[F ->]|[F [e ->]]] end;
      [left; split; [done|by rewrite <- !app_assoc]|right; split; [done|by eexists]].
  - destruct (zlen path <=? 65535) eqn:E; cbn [try_];
      [left; split; [lia|by rewrite <- !app_assoc]|right; split; [lia|by eexists]].
  - fold (external_bytes f o). destruct (zlen (external_bytes f o) <=? 65535) eqn:E; cbn [try_];
      [left; split; [lia|by rewrite <- !app_assoc]|right; split; [lia|by eexists]].
Qed.

(** ** The prefix *)

Lemma read_uint_at data pos w v r :
  zlen data ≤ USIZE_MAX → bytes_at data pos (le_bytes (Z.to_nat (UintWidth.get w)) v ++ r) →
  fits (UintWidth.get w) v →
  read_uint_width data pos w = ok v ∧ bytes_at data (pos + UintWidth.get w) r.
Proof.
  intros Hu Hat Hf. pose proof (bytes_at_nonneg _ _ _ Hat). pose proof (uint_get_pos w).
  rewrite read_uint_width_eq by done. unfold read_word.
  apply (bytes_at_app _ _ _ _ (UintWidth.get w)) in Hat as [-> Hat]; [|rewrite zlen_le_bytes; lia].
  split; [|done]. rewrite le_value_bytes; [done|]. unfold fits in Hf. rewrite Z2Nat.id by lia. done.
Qed.

Section Written.
Context (data : list Z) (Hu : zlen data ≤ USIZE_MAX).

Lemma read_link_type_at pos t r :
  bytes_at data pos (type_bytes t ++ r) →
  LinkPrefix.read_link_type data pos (match t with Indirect _ => true | Hard _ => false end)
    = ok (type_code t, pos + zlen (type_bytes t)) ∧
  bytes_at data (pos + zlen (type_bytes t)) r.
Proof.
  intros Hat. split; [|by apply (bytes_at_skip _ _ _ _ _ Hat)].
  destruct t as [a|t]; [simpl; by rewrite Z.add_0_r|].
  unfold LinkPrefix.read_link_type. rewrite (ensure_len_at _ _ _ _ 1 Hu Hat) by done. cbn [try_].
  by rewrite (index_at _ _ _ _ Hat).
Qed.

Lemma read_creation_order_at pos order r :
  bytes_at data pos (order_bytes order ++ r) →
  match order with Some co => fits 8 co | None => True end →
  LinkPrefix.read_creation_order data pos (match order with Some _ => true | None => false end)
    = ok (order, pos + zlen (order_bytes order)) ∧
  bytes_at data (pos + zlen (order_bytes order)) r.
Proof.
  intros Hat Hco. split; [|by apply (bytes_at_skip _ _ _ _ _ Hat)].
  destruct order as [co|]; [|simpl; by rewrite Z.add_0_r].
  unfold LinkPrefix.read_creation_order. rewrite (ensure_len_at _ _ _ _ 8 Hu Hat) by done. cbn [try_].
  by destruct (u64_next _ _ _ _ Hat Hco) as [-> _].
Qed.

Lemma read_charset_at pos c r :
  bytes_at data pos (charset_bytes c ++ r) →
  LinkPrefix.read_charset data pos (match c with Utf8 => true | Ascii => false end)
    = ok (c, pos + zlen (charset_bytes c)) ∧
  bytes_at data (pos + zlen (charset_bytes c)) r.
Proof.
  intros Hat. split; [|by apply (bytes_at_skip _ _ _ _ _ Hat)].
  destruct c; [simpl; by rewrite Z.add_0_r|].
  unfold LinkPrefix.read_charset. rewrite (ensure_len_at _ _ _ _ 1 Hu Hat) by done. cbn [try_].
  by rewrite (index_at _ _ _ _ Hat).
Qed.

Lemma read_name_at pos name r :
  let w := name_width name in
  bytes_at data pos (le_bytes (Z.to_nat (UintWidth.get w)) (zlen name) ++ name ++ r) →
  LinkPrefix.read_name data pos w = ok (name, pos + UintWidth.get w + zlen name).
Proof.
  intros w Hat. pose proof usize_bounds as Hub. pose proof (zlen_nonneg name) as Hn0.
  assert (Hn : zlen name ≤ USIZE_MAX).
  { destruct Hat as (p & -> & _). rewrite !zlen_app in Hu. pose proof (zlen_nonneg p). pose proof (zlen_nonneg r).
    pose proof (zlen_nonneg (le_bytes (Z.to_nat (UintWidth.get w)) (zlen name))). lia. }
  unfold LinkPrefix.read_name.
  destruct (read_uint_at _ _ _ _ _ Hu Hat) as [-> Hat2]; [apply name_len_fits; unfold u64; lia|].
  rewrite and_then_ok. unfold to_usize. replace (zlen name <=? USIZE_MAX) with true by lia. cbn [try_].
  rewrite (ensure_len_at _ _ _ _ _ Hu Hat2) by done. cbn [try_].
  apply (bytes_at_app _ _ _ _ (zlen name)) in Hat2 as [Hg2 _]; [|done].
  unfold slice. by rewrite Hg2.
Qed.

End Written.

Lemma zlen_link_prefix m :
  zlen (prefix_bytes m) = 2 + zlen (type_bytes (link_target m)) + zlen (order_bytes (link_creation_order m))
    + zlen (charset_bytes (link_charset m)) + UintWidth.get (name_width (link_name m)) + zlen (link_name m).
Proof.
  unfold prefix_bytes. rewrite !zlen_app, zlen_le_bytes. pose proof (uint_get_pos (name_width (link_name m))).
  change (zlen [1; LinkMessage.flags m]) with 2. lia.
Qed.

Lemma parse_prefix_written m r :
  link_typed m → zlen (prefix_bytes m ++ r) ≤ USIZE_MAX →
  LinkPrefix.parse (prefix_bytes m ++ r)
  = ok (mkPrefix (link_name m) (type_code (link_target m)) (link_creation_order m) (link_charset m)
          (zlen (prefix_bytes m))).
Proof.
  intros (_ & Hco & _) Hu. pose proof (flags_parse m) as (Hw & Hfo & Hft & Hfc). cbv zeta in *.
  rewrite zlen_link_prefix. unfold prefix_bytes in *. rewrite <- !app_assoc in *.
  set (data := [1; LinkMessage.flags m] ++ _) in *.
  assert (Hat : bytes_at data 2 (type_bytes (link_target m) ++ order_bytes (link_creation_order m)
    ++ charset_bytes (link_charset m)
    ++ le_bytes (Z.to_nat (UintWidth.get (name_width (link_name m)))) (zlen (link_name m))
    ++ link_name m ++ r)) by (by exists [1; LinkMessage.flags m]).
  unfold LinkPrefix.parse.
  rewrite (ensure_len_at data 0 [1; LinkMessage.flags m] _ _ Hu (bytes_at_0 data)) by done. cbn [try_].
  change (index data 0) with (Ret 1). change (index data 1) with (Ret (LinkMessage.flags m)).
  cbn [mbind outcome_bind]. change (negb (1 =? 1)) with false. cbv iota zeta. rewrite Hw, Hfo, Hft, Hfc.
  apply (read_link_type_at data Hu) in Hat as [-> Hat]. rewrite and_then_ok.
  apply (read_creation_order_at data Hu) in Hat as [-> Hat]; [|done]. rewrite and_then_ok.
  apply (read_charset_at data Hu) in Hat as [-> Hat]. rewrite and_then_ok.
  apply (read_name_at data Hu) in Hat as ->. by rewrite and_then_ok.
Qed.

(** ** The target *)

(** The two paths are found between their terminators. *)
Lemma external_view_written f o :
  contains_nul f = false → contains_nul o = false →
  LinkPrefix.external_view (external_bytes f o) = Ret (ExternalView f o).
Proof.
  intros Hf Ho. unfold LinkPrefix.external_view, external_bytes. cbn [length app Nat.eqb].
  change (slice_from (0 :: f ++ 0 :: o ++ [0]) 1) with (slice_from ([0] ++ f ++ 0 :: o ++ [0]) (zlen [0])).
  rewrite slice_from_app. cbn [mbind outcome_bind]. cbv zeta.
  rewrite nul_position_text by done. cbn [default id].
  pose proof (slice_app [] f (0 :: o ++ [0])) as H1. cbn [app] in H1. change (zlen (@nil Z)) with 0 in H1; rewrite Z.add_0_l in H1.
  unfold id. rewrite H1. cbn [mbind outcome_bind].
  replace (if _ <? _ then _ else _) with (zlen (f ++ [0])).
  2: { unfold zlen. rewrite !length_app. cbn [length]. rewrite length_app. cbn [length]. destruct (_ <? _) eqn:E; lia. }
  replace (f ++ 0 :: o ++ [0]) with ((f ++ [0]) ++ o ++ [0]) by (by rewrite <- app_assoc).
  rewrite slice_from_app. cbn [mbind outcome_bind].
  pose proof (slice_app [] o [0]) as H2. cbn [app] in H2. change (zlen (@nil Z)) with 0 in H2; rewrite Z.add_0_l in H2.
  rewrite nul_position_text by done. cbn [default id]. by rewrite H2.
Qed.

Lemma link_value_at data pos v r :
  zlen data ≤ USIZE_MAX → bytes_at data pos (le_bytes 2 (zlen v) ++ v ++ r) → zlen v ≤ 65535 →
  LinkPrefix.link_value data pos = ok v.
Proof.
  intros Hu Hat Hv. pose proof (zlen_nonneg v). unfold LinkPrefix.link_value.
  rewrite (ensure_len_at _ _ _ _ 2 Hu Hat) by done. cbn [try_].
  destruct (u16_next _ _ _ _ Hat) as [-> Hat2]; [unfold fits; lia|]. cbn [mbind outcome_bind]. cbv zeta.
  rewrite (ensure_len_at _ _ _ _ _ Hu Hat2) by done. cbn [try_].
  apply (bytes_at_app _ _ _ _ (zlen v)) in Hat2 as [Hg _]; [|done]. unfold slice. by rewrite Hg.
Qed.

Lemma read_offset_at data pos w v r :
  zlen data ≤ USIZE_MAX → bytes_at data pos (obytes w v ++ r) → fits (OffsetWidth.get w) v →
  read_offset_width data pos w = ok v.
Proof.
  intros Hu Hat Hf. pose proof (bytes_at_nonneg _ _ _ Hat). rewrite read_offset_width_eq by done. unfold read_word.
  apply (bytes_at_app _ _ _ _ (OffsetWidth.get w)) in Hat as [-> _];
    [|rewrite zlen_le_bytes; destruct w; done].
  rewrite le_value_bytes; [done|]. unfold fits in Hf. rewrite Z2Nat.id by (destruct w; done). done.
Qed.

Lemma target_written p data w t r :
  zlen data ≤ USIZE_MAX → bytes_at data (prefix_target_pos p) (target_bytes w t ++ r) →
  prefix_link_type_code p = type_code t →
  match t with
  | Hard a => address_fits w (Defined a)
  | Indirect (Soft path) => utf8_valid path = true ∧ zlen path ≤ 65535
  | Indirect (External f o) => utf8_valid f = true ∧ utf8_valid o = true ∧
      contains_nul f = false ∧ contains_nul o = false ∧ zlen (external_bytes f o) ≤ 65535
  end → LinkPrefix.target p data w = ok t.
Proof.
  intros Hu Hat Hc Ht. unfold LinkPrefix.target, LinkPrefix.target_view. cbv zeta. rewrite Hc.
  destruct t as [a|[path|f o]]; cbn [type_code target_bytes] in *.
  - change (HARD_LINK =? HARD_LINK) with true. cbv iota.
    rewrite (read_offset_at _ _ _ _ _ Hu Hat) by apply (stored_bits_fits w (Defined a) Ht).
    by rewrite !and_then_ok.
  - destruct Ht as [H1 H2]. change (SOFT_LINK =? HARD_LINK) with false. change (SOFT_LINK =? SOFT_LINK) with true.
    cbv iota. rewrite <- app_assoc in Hat. rewrite (link_value_at _ _ _ _ Hu Hat H2), and_then_ok.
    by rewrite from_utf8_valid.
  - destruct Ht as (H1 & H2 & H3 & H4 & H5).
    change (EXTERNAL_LINK =? HARD_LINK) with false. change (EXTERNAL_LINK =? SOFT_LINK) with false.
    change (EXTERNAL_LINK =? EXTERNAL_LINK) with true. cbv iota. rewrite <- app_assoc in Hat.
    rewrite (link_value_at _ _ _ _ Hu Hat H5), and_then_ok, external_view_written by done.
    cbn. by rewrite !from_utf8_lossy_valid.
Qed.

(** A written link is read back, whatever follows it. *)
Lemma parse_link_written m w rest :
  link_typed m → link_writable w m → link_paths_ok m → zlen (link_bytes w m ++ rest) ≤ USIZE_MAX →
  LinkMessage.parse_with_offset_width (link_bytes w m ++ rest) w = ok m.
Proof.
  intros Ht Hw Hp Hu. unfold LinkMessage.parse_with_offset_width, link_bytes in *.
  rewrite <- app_assoc in *. rewrite parse_prefix_written by done. rewrite and_then_ok.
  assert (Hat : bytes_at (prefix_bytes m ++ target_bytes w (link_target m) ++ rest) (zlen (prefix_bytes m))
                  (target_bytes w (link_target m) ++ rest)) by (by exists (prefix_bytes m)).
  unfold link_typed, link_writable, link_paths_ok in *. destruct Ht as (Hn & _ & Ht).
  match goal with |- context [LinkPrefix.target ?p _ _] =>
    rewrite (target_written p _ _ (link_target m) _ Hu Hat); [|done|] end.
  - rewrite and_then_ok. cbn [prefix_name prefix_creation_order prefix_charset].
    rewrite from_utf8_lossy_valid by done. by destruct m.
  - destruct (link_target m) as [a|[path|f o]]; naive_solver.
Qed.

(** ** Lookups by name

    A lookup compares the name where it lies in the message: for the text of a [str] this
    is the comparison with the decoded name. *)

Lemma name_matches_lossy raw wanted :
  utf8_valid wanted = true → name_matches raw wanted = bool_decide (from_utf8_lossy raw = wanted).
Proof.
  intros Hw. unfold name_matches. destruct (utf8_valid raw) eqn:Hr.
  - rewrite (from_utf8_lossy_valid raw Hr). by rewrite orb_false_r.
  - rewrite andb_true_l. rewrite (bool_decide_eq_false_2 (raw = wanted)); [done|]. intros ->. congruence.
Qed.

Lemma parse_link_inv data w m :
  LinkMessage.parse_with_offset_width data w = ok m →
  ∃ p, LinkPrefix.parse data = ok p ∧ LinkPrefix.target p data w = ok (link_target m) ∧
    m = mkLink (from_utf8_lossy (prefix_name p)) (link_target m) (prefix_creation_order p) (prefix_charset p).
Proof.
  unfold LinkMessage.parse_with_offset_width.
  intros (p & Hp & (t & Ht & [= <-])%and_then_ok_inv)%and_then_ok_inv. by exists p.
Qed.

Lemma target_if_named_parse data w name m :
  utf8_valid name = true → LinkMessage.parse_with_offset_width data w = ok m →
  LinkMessage.target_if_named data w name
  = ok (if bool_decide (link_name m = name) then Some (link_target m) else None).
Proof.
  intros Hn (p & Hp & Ht & ->)%parse_link_inv. unfold LinkMessage.target_if_named.
  rewrite Hp, and_then_ok, name_matches_lossy by done. cbn [link_name link_target].
  case_bool_decide; cbn [negb]; [|done]. by rewrite Ht, and_then_ok.
Qed.

(** The range of a hard link's address is where its target was read from. *)
Lemma target_hard p data w a :
  zlen data ≤ USIZE_MAX → 0 ≤ prefix_target_pos p →
  LinkPrefix.target p data w = ok (Hard a) ↔
  ∃ s, prefix_link_type_code p = HARD_LINK ∧
       get_range data (prefix_target_pos p) (prefix_target_pos p + OffsetWidth.get w) = Some s ∧ a = le_value s.
Proof.
  intros Hu Hp. unfold LinkPrefix.target, LinkPrefix.target_view. cbv zeta.
  rewrite read_offset_width_eq by done. unfold read_word.
  destruct (prefix_link_type_code p =? HARD_LINK) eqn:E1; [apply Z.eqb_eq in E1|apply Z.eqb_neq in E1].
  { destruct (get_range _ _ _) as [s|]; rewrite ?and_then_ok; cbn [into_owned]; split.
    - intros [= <-]. by exists s.
    - intros (s' & _ & [= <-] & ->). done.
    - done.
    - by intros (? & _ & ? & _). }
  split; [|by intros (s & ? & _)]. intros (v & Hv & Ha)%and_then_ok_inv. exfalso. destruct v; try done.
  destruct (_ =? SOFT_LINK); [|destruct (_ =? EXTERNAL_LINK)].
  - apply and_then_ok_inv in Hv as (b & _ & Hv). by destruct (from_utf8 b).
  - apply and_then_ok_inv in Hv as (b & _ & Hv). unfold LinkPrefix.external_view in Hv.
    repeat match type of Hv with context [mbind _ ?m] => destruct m; [|done]; cbn [mbind outcome_bind] in Hv end.
    done.
  - done.
Qed.

(** ** Arbitrary bytes *)

Section Arbitrary.
Context (data : list Z) (Hb : Forall byte data) (Hu : zlen data ≤ USIZE_MAX).

Lemma read_link_type_sound pos b :
  0 ≤ pos → LinkPrefix.read_link_type data pos b ⇝? (λ '(t, q), byte t ∧ pos ≤ q).
Proof.
  intros Hp. unfold LinkPrefix.read_link_type. destruct b; [|apply sound_ok; split; [done|lia]].
  apply within_ensure; [done|]. intros Hl. apply within_index; [done|done|done|]. intros v Hv. apply sound_ok.
  split; [done|lia].
Qed.

Lemma read_creation_order_sound pos b :
  0 ≤ pos → LinkPrefix.read_creation_order data pos b
    ⇝? (λ '(o, q), (match o with Some co => fits 8 co | None => True end) ∧ pos ≤ q).
Proof.
  intros Hp. unfold LinkPrefix.read_creation_order. destruct b; [|apply sound_ok; split; [done|lia]].
  apply within_ensure; [done|]. intros Hl. apply within_u64; [done|done|done|]. intros v Hv. apply sound_ok.
  split; [done|lia].
Qed.

Lemma read_charset_sound pos b :
  0 ≤ pos → LinkPrefix.read_charset data pos b ⇝? (λ '(_, q), pos ≤ q).
Proof.
  intros Hp. unfold LinkPrefix.read_charset. destruct b; [|apply sound_ok; lia].
  apply within_ensure; [done|]. intros Hl. apply within_index; [done|done|done|]. intros v Hv.
  destruct (v =? 0); [apply sound_ok; lia|]. destruct (v =? 1); [apply sound_ok; lia|apply sound_fail].
Qed.

Lemma read_name_sound pos w :
  0 ≤ pos → LinkPrefix.read_name data pos w
    ⇝? (λ '(name, q), (∃ s, get_range data s q = Some name) ∧ pos ≤ q ≤ zlen data).
Proof.
  intros Hp. unfold LinkPrefix.read_name. rewrite read_uint_width_eq by done.
  pose proof (uint_get_pos w). eapply sound_bind; [by apply read_word_sound|]. intros n [Hn Hle].
  unfold to_usize. destruct (n <=? USIZE_MAX); [|apply sound_fail]. cbn [try_].
  apply within_ensure; [done|]. intros Hl. unfold slice. unfold fits in Hn.
  destruct (get_range data _ _) as [s|] eqn:E; [|apply get_range_None in E; lia].
  cbn [expect mbind outcome_bind]. apply sound_ok. split; [eauto|lia].
Qed.

(** The prefix of any bytes ends within them. *)
Lemma parse_prefix_sound :
  LinkPrefix.parse data
    ⇝? (λ p, (∃ s, get_range data s (prefix_target_pos p) = Some (prefix_name p)) ∧ 0 ≤ prefix_target_pos p ≤ zlen data ∧
          match prefix_creation_order p with Some co => fits 8 co | None => True end).
Proof.
  unfold LinkPrefix.parse. apply within_ensure; [done|]. intros Hl.
  apply within_index; [done|done|lia|]. intros v Hv. destruct (negb _); [apply sound_fail|].
  apply within_index; [done|done|lia|]. intros f Hf. cbv zeta.
  eapply sound_bind; [apply read_link_type_sound; lia|]. intros [t p1] [Ht H1].
  eapply sound_bind; [apply read_creation_order_sound; lia|]. intros [o p2] [Ho H2].
  eapply sound_bind; [apply read_charset_sound; lia|]. intros [c p3] H3.
  eapply sound_bind; [apply read_name_sound; lia|]. intros [n p4] [Hn H4].
  apply sound_ok. cbn. split_and!; [done|lia|lia|done].
Qed.

Lemma link_value_sound pos :
  0 ≤ pos → LinkPrefix.link_value data pos ⇝? (λ v, zlen v ≤ 65535).
Proof.
  intros Hp. unfold LinkPrefix.link_value. apply within_ensure; [done|]. intros Hl.
  apply within_u16; [done|done|done|]. intros n Hn. unfold fits in Hn. cbv zeta.
  apply within_ensure; [done|]. intros Hl2. unfold slice.
  destruct (get_range data _ _) as [s|] eqn:E; [|apply get_range_None in E; lia].
  apply (sound_ok (E := FormatError)). rewrite (get_range_zlen _ _ _ _ E). unfold fits in Hn. lia.
Qed.

End Arbitrary.

Lemma nul_within l : 0 ≤ default (zlen l) (nul_position l) ≤ zlen l.
Proof.
  pose proof (zlen_nonneg l). destruct (nul_position l) as [n|] eqn:E; simpl; [|lia].
  apply nul_position_Some in E as (t & r & -> & _ & <-). rewrite zlen_app.
  pose proof (zlen_nonneg t). pose proof (zlen_nonneg (0 :: r)). lia.
Qed.

(** What precedes the first NUL byte has none. *)
Lemma before_nul l f : slice l 0 (default (zlen l) (nul_position l)) = Ret f → contains_nul f = false.
Proof.
  unfold slice. destruct (get_range l 0 _) as [t|] eqn:Hs; [|done]. intros [= <-].
  destruct (nul_position l) as [n|] eqn:E; cbn in Hs.
  - apply nul_position_Some in E as (p & r & -> & Hp & <-). rewrite get_range_prefix in Hs. by injection Hs as <-.
  - pose proof (get_range_prefix l []) as Hg. rewrite app_nil_r in Hg. unfold id in Hs. rewrite Hg in Hs. injection Hs as <-.
    by apply nul_position_None.
Qed.

(** The paths are sliced without a panic whatever the value holds, and end at a NUL byte. *)
Lemma external_view_total v :
  ∃ f o, LinkPrefix.external_view v = Ret (ExternalView f o) ∧ contains_nul f = false ∧ contains_nul o = false.
Proof.
  unfold LinkPrefix.external_view, slice_from, get_from. cbv zeta. pose proof (zlen_nonneg v).
  change (expect (get_range ?l ?a ?b)) with (slice l a b).
  edestruct (slice_within v (if Nat.eqb (length v) 0 then 0 else 1) (zlen v)) as [rest ->];
    [destruct v; unfold zlen in *; simpl in *; lia|done|].
  cbn [mbind outcome_bind]. pose proof (nul_within rest).
  destruct (slice_within rest 0 (default (zlen rest) (nul_position rest))) as [f Hf]; [lia|lia|]. rewrite Hf.
  cbn [mbind outcome_bind].
  edestruct (slice_within rest (if default (zlen rest) (nul_position rest) + 1 <? zlen rest
    then default (zlen rest) (nul_position rest) + 1 else zlen rest) (zlen rest)) as [rest2 ->];
    [destruct (_ <? _) eqn:E; lia|done|].
  cbn [mbind outcome_bind]. pose proof (nul_within rest2).
  destruct (slice_within rest2 0 (default (zlen rest2) (nul_position rest2))) as [o Ho]; [lia|lia|]. rewrite Ho.
  cbn [mbind outcome_bind]. exists f, o. split; [done|]. split; by eapply before_nul.
Qed.

(** A target the parser accepts: an address of the width of the file, a soft path of at most
    65535 bytes, or two paths without NUL bytes; the paths are strings. *)
Definition target_accepted (w : OffsetWidth) (t : LinkTarget) : Prop :=
  match t with
  | Hard a => fits (OffsetWidth.get w) a
  | Indirect (Soft path) => utf8_valid path = true ∧ zlen path ≤ 65535
  | Indirect (External f o) =>
    (utf8_valid f = true ∧ contains_nul f = false) ∧ utf8_valid o = true ∧ contains_nul o = false
  end.

(** A message the parser accepts: its name is a part of the message, decoded. *)
Definition link_accepted (data : list Z) (w : OffsetWidth) (m : LinkMessage) : Prop :=
  (∃ s e raw, get_range data s e = Some raw ∧ link_name m = from_utf8_lossy raw) ∧ utf8_valid (link_name m) = true ∧
  match link_creation_order m with Some co => fits 8 co | None => True end ∧ target_accepted w (link_target m).

(** No bytes make the lookups or the parser panic. *)
Lemma target_sound data w p :
  Forall byte data → zlen data ≤ USIZE_MAX → 0 ≤ prefix_target_pos p →
  LinkPrefix.target p data w ⇝? target_accepted w.
Proof.
  intros Hb Hu Hp. unfold LinkPrefix.target.
  eapply (sound_bind _ _ (λ v, target_accepted w (into_owned v))); [|intros; by apply sound_ok].
  unfold LinkPrefix.target_view. cbv zeta. rewrite read_offset_width_eq by done.
  destruct (_ =? HARD_LINK); [|destruct (_ =? SOFT_LINK); [|destruct (_ =? EXTERNAL_LINK)]].
  - eapply sound_bind; [by apply read_word_sound|]. intros v [Hv _]. by apply sound_ok.
  - eapply sound_bind; [by apply link_value_sound|]. intros v Hv.
    destruct (from_utf8 v) as [t|] eqn:E; [|apply sound_fail]. apply from_utf8_Ok in E as [-> Ev]. by apply sound_ok.
  - eapply sound_bind; [by apply link_value_sound|]. intros v _.
    destruct (external_view_total v) as (f & o & -> & Hf & Ho). apply (sound_ok (E := FormatError)).
    split; (split; [apply from_utf8_lossy_utf8|by apply from_utf8_lossy_nul]).
  - apply sound_fail.
Qed.

Lemma parse_link_sound data w :
  Forall byte data → zlen data ≤ USIZE_MAX → LinkMessage.parse_with_offset_width data w ⇝? link_accepted data w.
Proof.
  intros Hb Hu. unfold LinkMessage.parse_with_offset_width.
  eapply sound_bind; [by apply parse_prefix_sound|]. intros p ((s & Hs) & Hp & Ho).
  eapply sound_bind; [apply target_sound; [done|done|lia]|]. intros t Ht. apply sound_ok.
  split_and!; [by eexists s, _, _|apply from_utf8_lossy_utf8|done|done].
Qed.

(** A hard link has an address range, which lies within the message and holds the address
    the parser returns; the other links have none. *)
Lemma address_range_parse data w m :
  Forall byte data → zlen data ≤ USIZE_MAX → LinkMessage.parse_with_offset_width data w = ok m →
  match link_target m with
  | Hard a => ∃ start s, LinkMessage.hard_link_address_range data w = ok (Some (start, start + OffsetWidth.get w)) ∧
      get_range data start (start + OffsetWidth.get w) = Some s ∧ a = le_value s
  | Indirect _ => LinkMessage.hard_link_address_range data w = ok None
  end.
Proof.
  intros Hb Hu (p & Hp & Ht & _)%parse_link_inv. pose proof (parse_prefix_sound data Hb Hu) as Hs.
  apply (sound_eq _ _ _ Hs) in Hp as Hp'. destruct Hp' as (_ & Hpos & _).
  unfold LinkMessage.hard_link_address_range. rewrite Hp, and_then_ok.
  unfold LinkPrefix.hard_link_address_range. cbv zeta. destruct (link_target m) as [a|i].
  - apply target_hard in Ht as (s & -> & Hg & ->); [|done|lia]. exists (prefix_target_pos p), s.
    split; [|done]. change (HARD_LINK =? HARD_LINK) with true. cbv iota. cbn [fst snd].
    destruct (ensure_len_cases data (prefix_target_pos p) (prefix_target_pos p + OffsetWidth.get w - prefix_target_pos p) Hu)
      as [[-> _]|[e He]]; [done|exfalso]. apply get_range_Some in Hg as (Hg1 & Hg2 & _).
    unfold ensure_len in He. destruct (_ && _) eqn:E; [done|]. clear He. pose proof usize_bounds. lia.
  - unfold LinkPrefix.target, LinkPrefix.target_view in Ht. cbv zeta in Ht.
    destruct (_ =? HARD_LINK).
    + apply and_then_ok_inv in Ht as (v & (x & _ & [= <-])%and_then_ok_inv & [=]).
    + destruct (_ =? SOFT_LINK); [done|]. by destruct (_ =? EXTERNAL_LINK).
Qed.

(** The lookup of a hard link's address agrees with the parser. *)
Lemma address_if_named_parse data w name m :
  Forall byte data → zlen data ≤ USIZE_MAX → utf8_valid name = true →
  LinkMessage.parse_with_offset_width data w = ok m →
  LinkMessage.hard_link_address_if_named_with_offset_width data w name
  = ok (if bool_decide (link_name m = name)
        then match link_target m with Hard a => Some a | Indirect _ => None end else None).
Proof.
  intros Hb Hu Hn Hm. pose proof (address_range_parse _ _ _ Hb Hu Hm) as Hr.
  apply parse_link_inv in Hm as (p & Hp & _ & Heq).
  unfold LinkMessage.hard_link_address_if_named_with_offset_width, LinkMessage.hard_link_address_range in *.
  rewrite Hp, and_then_ok in Hr. rewrite Hp, and_then_ok, name_matches_lossy by done. rewrite Heq. cbn [link_name].
  case_bool_decide; cbn [negb]; [|done]. cbn [link_target]. destruct (link_target m) as [a|i].
  - destruct Hr as (start & s & -> & Hg & ->). rewrite and_then_ok.
    rewrite read_offset_width_eq by (done || (apply get_range_Some in Hg; lia)).
    unfold read_word. by rewrite Hg.
  - by rewrite Hr.
Qed.

(** ** Retargeting a hard link in place *)

Lemma write_defined_at_app p f r a w :
  zlen f = OffsetWidth.get w → address_fits w (Defined a) → zlen (p ++ f ++ r) ≤ USIZE_MAX →
  write_defined_stored_address_at (p ++ f ++ r) (zlen p) a w = ok (p ++ obytes w a ++ r).
Proof.
  intros Hf Ha Hu. unfold write_defined_stored_address_at, require_defined_offset. cbv zeta.
  pose proof (stored_bits_fits w (Defined a) Ha) as Hv. cbn [stored_bits] in Hv.
  cbn [address_fits] in Ha. rewrite undefined_eq in Ha. rewrite offset_width_max_eq.
  replace (_ <? a) with false by lia. replace (a =? _) with false by lia. cbn [try_].
  unfold write_stored_address_at.
  rewrite (proj2 (offset_holds w a (offset_fits_u64 _ _ Hv))) by (by left). cbn [negb].
  rewrite (ensure_len_at (p ++ f ++ r) (zlen p) f r) by (done || by exists p). cbn [try_].
  rewrite take_le_bytes by (destruct w; simpl; lia).
  rewrite splice_app; [done|]. rewrite length_le_bytes. unfold zlen in Hf. lia.
Qed.

Definition set_target (m : LinkMessage) (t : LinkTarget) : LinkMessage :=
  mkLink (link_name m) t (link_creation_order m) (link_charset m).

(** Writing an address over the range of a written hard link gives the message that would
    have been written for that address. *)
Lemma retarget_written m w a b rest :
  link_typed m → link_target m = Hard a → address_fits w (Defined b) →
  zlen (link_bytes w m ++ rest) ≤ USIZE_MAX →
  ∃ start, LinkMessage.hard_link_address_range (link_bytes w m ++ rest) w
             = ok (Some (start, start + OffsetWidth.get w)) ∧
    write_defined_stored_address_at (link_bytes w m ++ rest) start b w
      = ok (link_bytes w (set_target m (Hard b)) ++ rest).
Proof.
  intros Ht Ha Hb Hu. exists (zlen (prefix_bytes m)).
  assert (Hpre : prefix_bytes (set_target m (Hard b)) = prefix_bytes m).
  { unfold prefix_bytes, LinkMessage.flags, set_target. cbn. by rewrite Ha. }
  assert (Hz : zlen (obytes w a) = OffsetWidth.get w) by (rewrite zlen_le_bytes; by destruct w).
  unfold link_bytes in *. rewrite Hpre. cbn [set_target link_target]. rewrite Ha in *.
  cbn [target_bytes] in *. rewrite <- !app_assoc in *. split.
  - unfold LinkMessage.hard_link_address_range.
    rewrite parse_prefix_written by done. rewrite and_then_ok, Ha.
    unfold LinkPrefix.hard_link_address_range. cbn [prefix_link_type_code type_code prefix_target_pos].
    change (HARD_LINK =? HARD_LINK) with true. cbn [fst snd].
    rewrite (ensure_len_at (prefix_bytes m ++ obytes w a ++ rest) (zlen (prefix_bytes m)) (obytes w a) rest);
      [done|done|by exists (prefix_bytes m)|lia].
  - by apply write_defined_at_app.
Qed.

End Facts.
