(* ===== verification/Datatypes.v ===== *)
(** * Datatypes and the Datatype message

    Models [crates/hdf5-pure-core/src/datatype/mod.rs] and [layout/mod.rs] (the classes
    of datatypes and the checked layouts of the numeric ones),
    [crates/hdf5-pure-format/src/datatype/mod.rs] (the parser and the writer of the
    message, stored sizes, and the walk that locates object references) and
    [datatype/legacy_member.rs] (the dimension block of a version 1 compound member).

    A name is the list of its bytes.  A [NonZeroU32] or [NonZeroU16] is its value; the
    constructors check that it is positive. *)

From stdpp Require Import strings.
From S2P Require Import Prelude Addresses Words ByteFields ByteFieldFacts Utf8 LinkMessages.

Local Open Scope string_scope.
Local Open Scope Z_scope.

Definition U32_MAX : Z := 0xFFFFFFFF.

(** [u32::checked_mul] and [u32::saturating_mul] *)
Definition u32_checked_mul (a b : Z) : option Z := if a * b <=? U32_MAX then Some (a * b) else None.

Definition u32_saturating_mul (a b : Z) : Z := Z.min (a * b) U32_MAX.

(** [NonZeroU32::new] and [NonZeroU16::new] *)
Definition nonzero (v : Z) : option Z := if v =? 0 then None else Some v.

(** [filter] of an option. *)
Definition option_filter {A} (p : A → bool) (o : option A) : option A :=
  match o with Some a => if p a then Some a else None | None => None end.

(** [value as usize] of a [u32]. *)
Definition as_usize `{Build} (v : Z) : Z := v mod (USIZE_MAX + 1).

(** ** Classes and versions *)

Definition FIXED_POINT_CLASS : Z := 0.
Definition FLOATING_POINT_CLASS : Z := 1.
Definition TIME_CLASS : Z := 2.
Definition STRING_CLASS : Z := 3.
Definition BIT_FIELD_CLASS : Z := 4.
Definition OPAQUE_CLASS : Z := 5.
Definition COMPOUND_CLASS : Z := 6.
Definition REFERENCE_CLASS : Z := 7.
Definition ENUMERATION_CLASS : Z := 8.
Definition VARIABLE_LENGTH_CLASS : Z := 9.
Definition ARRAY_CLASS : Z := 10.
Definition COMPLEX_CLASS : Z := 11.
Definition DATATYPE_VERSION_ONE : Z := 1.
Definition DATATYPE_VERSION_TWO : Z := 2.
Definition DATATYPE_VERSION_THREE : Z := 3.
Definition DATATYPE_VERSION_FIVE : Z := 5.

(** ** Numeric types *)

Record FixedPointLayout : Type := mkFixedLayout {
  fixed_low_padding : bool;
  fixed_high_padding : bool;
  fixed_signed : bool;
  fixed_bit_offset : Z;
  fixed_bit_precision : Z;
}.

Record FixedPointType : Type := mkFixedPoint {
  fixed_size : Z;
  fixed_byte_order : DatatypeByteOrder;
  fixed_layout : FixedPointLayout;
}.

Inductive MantissaNormalization : Type := Unnormalized | LeadingOne | ImpliedLeadingOne.

Record FloatingPointLayout : Type := mkFloatLayout {
  float_low_padding : bool;
  float_high_padding : bool;
  float_internal_padding : bool;
  float_normalization : MantissaNormalization;
  float_sign_location : Z;
  float_bit_offset : Z;
  float_bit_precision : Z;
  float_exponent_location : Z;
  float_exponent_size : Z;
  float_mantissa_location : Z;
  float_mantissa_size : Z;
  float_exponent_bias : Z;
}.

Record FloatingPointType : Type := mkFloatingPoint {
  float_size : Z;
  float_byte_order : DatatypeByteOrder;
  float_layout : FloatingPointLayout;
}.

Record TimeType : Type := mkTime {
  time_size : Z;
  time_byte_order : DatatypeByteOrder;
  time_bit_precision : Z;
}.

Record BitFieldType : Type := mkBitField {
  bits_low_padding : bool;
  bits_high_padding : bool;
  bits_size : Z;
  bits_byte_order : DatatypeByteOrder;
  bits_bit_offset : Z;
  bits_bit_precision : Z;
}.

Module FixedPointType.

Definition new (size : Z) (byte_order : DatatypeByteOrder) (signed : bool) (bit_offset bit_precision : Z)
    : result FixedPointType FormatError :=
  result_bind (ok_or (nonzero size) (ZeroSizedDatatype FIXED_POINT_CLASS)) (λ size,
  if bool_decide (byte_order = Vax) then Err (InvalidNumericByteOrder FIXED_POINT_CLASS byte_order)
  else
    result_bind
      (ok_or (option_filter (λ precision, bit_offset + precision <=? size * 8) (nonzero bit_precision))
         (InvalidFixedPointRange size bit_offset bit_precision)) (λ bit_precision,
    Ok (mkFixedPoint size byte_order (mkFixedLayout false false signed bit_offset bit_precision)))).

Definition with_padding (self : FixedPointType) (low high : bool) : FixedPointType :=
  let l := fixed_layout self in
  mkFixedPoint (fixed_size self) (fixed_byte_order self)
    (mkFixedLayout low high (fixed_signed l) (fixed_bit_offset l) (fixed_bit_precision l)).

Definition from_layout (size : Z) (byte_order : DatatypeByteOrder) (layout : FixedPointLayout)
    : result FixedPointType FormatError :=
  result_bind (new size byte_order (fixed_signed layout) (fixed_bit_offset layout)
                 (fixed_bit_precision layout)) (λ self,
  Ok (with_padding self (fixed_low_padding layout) (fixed_high_padding layout))).

Definition i8 : FixedPointType := mkFixedPoint 1 LittleEndian (mkFixedLayout false false true 0 8).
Definition i16 : FixedPointType := mkFixedPoint 2 LittleEndian (mkFixedLayout false false true 0 16).
Definition i32 : FixedPointType := mkFixedPoint 4 LittleEndian (mkFixedLayout false false true 0 32).
Definition i64 : FixedPointType := mkFixedPoint 8 LittleEndian (mkFixedLayout false false true 0 64).
Definition u8 : FixedPointType := mkFixedPoint 1 LittleEndian (mkFixedLayout false false false 0 8).
Definition u16 : FixedPointType := mkFixedPoint 2 LittleEndian (mkFixedLayout false false false 0 16).
Definition u32 : FixedPointType := mkFixedPoint 4 LittleEndian (mkFixedLayout false false false 0 32).
Definition u64 : FixedPointType := mkFixedPoint 8 LittleEndian (mkFixedLayout false false false 0 64).

End FixedPointType.

Module FloatingPointLayout.

(** The loop over the fields that must lie in the bit range. *)
Fixpoint check_fields (bit_offset bit_precision end_ : Z) (fields : list (FloatingPointField * Z * Z))
    : result unit FormatError :=
  match fields with
  | [] => Ok tt
  | (field, location, size) :: fields =>
    if (size =? 0) || (location <? bit_offset) || (end_ <? location + size)
    then Err (InvalidFloatingPointField field location size bit_offset bit_precision)
    else check_fields bit_offset bit_precision end_ fields
  end.

(** The loop over the pairs of fields that must not overlap. *)
Fixpoint check_pairs (pairs : list ((FloatingPointField * Z * Z) * (FloatingPointField * Z * Z)))
    : result unit FormatError :=
  match pairs with
  | [] => Ok tt
  | ((first, first_start, first_size), (second, second_start, second_size)) :: pairs =>
    if (first_start <? second_start + second_size) && (second_start <? first_start + first_size)
    then Err (OverlappingFloatingPointFields first second first_start first_size second_start second_size)
    else check_pairs pairs
  end.

Definition parse (normalization : MantissaNormalization)
    (sign_location bit_offset bit_precision exponent_location exponent_size mantissa_location
     mantissa_size exponent_bias : Z) : result FloatingPointLayout FormatError :=
  let end_ := bit_offset + bit_precision in
  let sign := (FieldSign, sign_location, 1) in
  let exponent := (FieldExponent, exponent_location, exponent_size) in
  let mantissa := (FieldMantissa, mantissa_location, mantissa_size) in
  result_bind (check_fields bit_offset bit_precision end_ [sign; exponent; mantissa]) (λ _,
  result_bind (check_pairs [(sign, exponent); (sign, mantissa); (exponent, mantissa)]) (λ _,
  Ok (mkFloatLayout false false false normalization sign_location bit_offset bit_precision
        exponent_location exponent_size mantissa_location mantissa_size exponent_bias))).

Definition IEEE754_BINARY32 : FloatingPointLayout :=
  mkFloatLayout false false false ImpliedLeadingOne 31 0 32 23 8 0 23 127.

Definition IEEE754_BINARY64 : FloatingPointLayout :=
  mkFloatLayout false false false ImpliedLeadingOne 63 0 64 52 11 0 52 1023.

End FloatingPointLayout.

Module FloatingPointType.

Definition new (size : Z) (byte_order : DatatypeByteOrder) (normalization : MantissaNormalization)
    (sign_location bit_offset bit_precision exponent_location exponent_size mantissa_location
     mantissa_size exponent_bias : Z) : result FloatingPointType FormatError :=
  result_bind (ok_or (nonzero size) (ZeroSizedDatatype FLOATING_POINT_CLASS)) (λ size,
  result_bind
    (ok_or (option_filter (λ precision, bit_offset + precision <=? size * 8) (nonzero bit_precision))
       (InvalidFloatingPointRange size bit_offset bit_precision)) (λ bit_precision,
  result_bind (FloatingPointLayout.parse normalization sign_location bit_offset bit_precision
                 exponent_location exponent_size mantissa_location mantissa_size exponent_bias) (λ layout,
  Ok (mkFloatingPoint size byte_order layout)))).

Definition from_layout (size : Z) (byte_order : DatatypeByteOrder) (layout : FloatingPointLayout)
    : result FloatingPointType FormatError :=
  result_bind (ok_or (nonzero size) (ZeroSizedDatatype FLOATING_POINT_CLASS)) (λ size,
  if size * 8 <? float_bit_offset layout + float_bit_precision layout
  then Err (InvalidFloatingPointRange size (float_bit_offset layout) (float_bit_precision layout))
  else Ok (mkFloatingPoint size byte_order layout)).

Definition ieee754_binary32 (byte_order : DatatypeByteOrder) : FloatingPointType :=
  mkFloatingPoint 4 byte_order FloatingPointLayout.IEEE754_BINARY32.

Definition ieee754_binary64 (byte_order : DatatypeByteOrder) : FloatingPointType :=
  mkFloatingPoint 8 byte_order FloatingPointLayout.IEEE754_BINARY64.

Definition with_padding (self : FloatingPointType) (low high internal : bool) : FloatingPointType :=
  let l := float_layout self in
  mkFloatingPoint (float_size self) (float_byte_order self)
    (mkFloatLayout low high internal (float_normalization l) (float_sign_location l)
       (float_bit_offset l) (float_bit_precision l) (float_exponent_location l)
       (float_exponent_size l) (float_mantissa_location l) (float_mantissa_size l)
       (float_exponent_bias l)).

End FloatingPointType.

Module TimeType.

Definition new (size : Z) (byte_order : DatatypeByteOrder) (bit_precision : Z)
    : result TimeType FormatError :=
  result_bind (ok_or (nonzero size) (ZeroSizedDatatype TIME_CLASS)) (λ size,
  if bool_decide (byte_order = Vax) then Err (InvalidNumericByteOrder TIME_CLASS byte_order)
  else
    result_bind
      (ok_or (option_filter (λ precision, precision <=? size * 8) (nonzero bit_precision))
         (InvalidNumericBitRange TIME_CLASS size 0 bit_precision)) (λ bit_precision,
    Ok (mkTime size byte_order bit_precision))).

End TimeType.

Module BitFieldType.

Definition new (size : Z) (byte_order : DatatypeByteOrder) (bit_offset bit_precision : Z)
    : result BitFieldType FormatError :=
  result_bind (ok_or (nonzero size) (ZeroSizedDatatype BIT_FIELD_CLASS)) (λ size,
  if bool_decide (byte_order = Vax) then Err (InvalidNumericByteOrder BIT_FIELD_CLASS byte_order)
  else
    result_bind
      (ok_or (option_filter (λ precision, bit_offset + precision <=? size * 8) (nonzero bit_precision))
         (InvalidNumericBitRange BIT_FIELD_CLASS size bit_offset bit_precision)) (λ bit_precision,
    Ok (mkBitField false false size byte_order bit_offset bit_precision))).

Definition with_padding (self : BitFieldType) (low high : bool) : BitFieldType :=
  mkBitField low high (bits_size self) (bits_byte_order self) (bits_bit_offset self)
    (bits_bit_precision self).

End BitFieldType.

(** ** Datatypes

    The members of a compound and the kinds of a variable-length type are parametrised by
    the type of datatypes they hold, which ties the recursion. *)

Inductive StringPadding : Type := NullTerminate | NullPad | SpacePad.

Inductive ReferenceType : Type := RefObject | RefDatasetRegion.

Record ComplexType : Type := mkComplex {
  complex_component : FloatingPointType;
  complex_size : Z;
}.

Record MemberOf (D : Type) : Type := mkMember {
  member_name : list Z;
  member_offset : Z;
  member_datatype : D;
}.

Record EnumMember : Type := mkEnumMember {
  enum_name : list Z;
  enum_value : list Z;
}.

Record VariableLengthStringOf (D : Type) : Type := mkVlString {
  vls_padding : StringPadding;
  vls_charset : CharacterSet;
  vls_base_type : D;
}.

Inductive VariableLengthOf (D : Type) : Type :=
| VlSequence (element_type : D)
| VlString (string : VariableLengthStringOf D).

Arguments mkMember {D}.
Arguments member_name {D}.
Arguments member_offset {D}.
Arguments member_datatype {D}.
Arguments mkVlString {D}.
Arguments vls_padding {D}.
Arguments vls_charset {D}.
Arguments vls_base_type {D}.
Arguments VlSequence {D}.
Arguments VlString {D}.

(** [VariableLengthType::base_type] *)
Definition base_type {D} (self : VariableLengthOf D) : D :=
  match self with
  | VlSequence element_type => element_type
  | VlString string => vls_base_type string
  end.

Inductive Datatype : Type :=
| FixedPoint (datatype : FixedPointType)
| FloatingPoint (datatype : FloatingPointType)
| Time (datatype : TimeType)
| String_ (size : Z) (padding : StringPadding) (charset : CharacterSet)
| BitField (datatype : BitFieldType)
| Opaque (size : Z) (tag : list Z)
| Compound (size : Z) (members : list (MemberOf Datatype))
| Reference (size : Z) (ref_type : ReferenceType)
| Enumeration (size : Z) (base_type : Datatype) (members : list EnumMember)
| VariableLength (kind : VariableLengthOf Datatype)
| Array (base_type : Datatype) (dimensions : list Z)
| Complex (datatype : ComplexType).

Notation CompoundMember := (MemberOf Datatype).
Notation VariableLengthType := (VariableLengthOf Datatype).
Notation VariableLengthStringType := (VariableLengthStringOf Datatype).

Module Datatype.

Fixpoint type_size (self : Datatype) : Z :=
  match self with
  | FixedPoint datatype => fixed_size datatype
  | FloatingPoint datatype => float_size datatype
  | Time datatype => time_size datatype
  | String_ size _ _ => size
  | BitField datatype => bits_size datatype
  | Opaque size _ => size
  | Compound size _ => size
  | Reference size _ => size
  | Enumeration size _ _ => size
  | VariableLength _ => 16
  | Complex datatype => complex_size datatype
  | Array base_type dimensions =>
    u32_saturating_mul (type_size base_type) (fold_left u32_saturating_mul dimensions 1)
  end.

Definition class_code (self : Datatype) : Z :=
  match self with
  | FixedPoint _ => 0
  | FloatingPoint _ => 1
  | Time _ => 2
  | String_ _ _ _ => 3
  | BitField _ => 4
  | Opaque _ _ => 5
  | Compound _ _ => 6
  | Reference _ _ => 7
  | Enumeration _ _ _ => 8
  | VariableLength _ => 9
  | Array _ _ => 10
  | Complex _ => COMPLEX_CLASS
  end.

Definition element_size (self : Datatype) : result Z FormatError :=
  match self with
  | FixedPoint datatype => Ok (fixed_size datatype)
  | FloatingPoint datatype => Ok (float_size datatype)
  | Time datatype => Ok (time_size datatype)
  | BitField datatype => Ok (bits_size datatype)
  | Complex datatype => Ok (complex_size datatype)
  | _ => ok_or (nonzero (type_size self)) (ZeroSizedDatatype (class_code self))
  end.

End Datatype.

Module ComplexType.

Definition new (component : FloatingPointType) : result ComplexType FormatError :=
  result_bind
    (ok_or (size ← u32_checked_mul (float_size component) 2; nonzero size)
       (ComplexSizeOverflow (float_size component))) (λ size,
  Ok (mkComplex component size)).

End ComplexType.

Module VariableLengthStringType.

Definition new (padding : StringPadding) (charset : CharacterSet) : VariableLengthStringType :=
  mkVlString padding charset (FixedPoint FixedPointType.u8).

Definition with_base_type (padding : StringPadding) (charset : CharacterSet) (base_type : Datatype)
    : result VariableLengthStringType FormatError :=
  result_bind (Datatype.element_size base_type) (λ _, Ok (mkVlString padding charset base_type)).

End VariableLengthStringType.

(** [VariableLengthType::sequence] and [VariableLengthType::string] *)
Definition sequence (element_type : Datatype) : VariableLengthType := VlSequence element_type.

Definition string_ (padding : StringPadding) (charset : CharacterSet) : VariableLengthType :=
  VlString (VariableLengthStringType.new padding charset).

(** ** Stored sizes and what an element holds *)

Definition SEQUENCE_LENGTH_SIZE : Z := 4.
Definition HEAP_INDEX_SIZE : Z := 4.
Definition DATATYPE_SIZE_BYTES : Z := 4.

Definition element_size_usize `{Build} (datatype : Datatype) : result Z FormatError :=
  result_bind (Datatype.element_size datatype) (λ size,
  ok_or (size ← (if size <=? USIZE_MAX then Some size else None); nonzero size)
    (ValueTooLargeForPlatform (Datatype.type_size datatype) "usize")).

Fixpoint datatype_holds_variable_length (datatype : Datatype) : bool :=
  match datatype with
  | VariableLength _ => true
  | Array base_type _ => datatype_holds_variable_length base_type
  | Enumeration _ base_type _ => datatype_holds_variable_length base_type
  | Compound _ members => existsb (λ member, datatype_holds_variable_length (member_datatype member)) members
  | _ => false
  end.

(** [dimensions.iter().try_fold(base_size, ...)] *)
Fixpoint multiply_dimensions (size : Z) (dimensions : list Z) : result Z FormatError :=
  match dimensions with
  | [] => Ok size
  | dimension :: dimensions =>
    match u32_checked_mul size dimension with
    | Some size => multiply_dimensions size dimensions
    | None => Err (LengthTooLarge (size * dimension) DATATYPE_SIZE_BYTES)
    end
  end.

Definition array_type_size (base_size : Z) (dimensions : list Z) : result Z FormatError :=
  if existsb (Z.eqb 0) dimensions then Ok 0 else multiply_dimensions base_size dimensions.

Fixpoint stored_type_size (datatype : Datatype) (offset_width : OffsetWidth) : result Z FormatError :=
  match datatype with
  | VariableLength _ => Ok (SEQUENCE_LENGTH_SIZE + OffsetWidth.get offset_width + HEAP_INDEX_SIZE)
  | Array base_type dimensions =>
    result_bind (stored_type_size base_type offset_width) (λ size, array_type_size size dimensions)
  | _ => Ok (Datatype.type_size datatype)
  end.

Definition stored_element_size (datatype : Datatype) (offset_width : OffsetWidth) : result Z FormatError :=
  result_bind (stored_type_size datatype offset_width) (λ size,
  match nonzero size with
  | Some size => Ok size
  | None => Datatype.element_size datatype
  end).

Definition stored_element_size_usize `{Build} (datatype : Datatype) (offset_width : OffsetWidth)
    : result Z FormatError :=
  result_bind (stored_element_size datatype offset_width) (λ size,
  if size <=? USIZE_MAX then Ok size else Err (ValueTooLargeForPlatform size "usize")).

(** ** The bit fields of the classes *)

Definition LOW_PADDING_BIT : Z := 0x02.
Definition HIGH_PADDING_BIT : Z := 0x04.
Definition FLOAT_INTERNAL_PADDING_BIT : Z := 0x08.
Definition FLOAT_BYTE_ORDER_LOW_BIT : Z := 0x01.
Definition FLOAT_BYTE_ORDER_HIGH_BIT : Z := 0x40.
Definition FLOAT_NORMALIZATION_SHIFT : Z := 4.
Definition FLOAT_NORMALIZATION_MASK : Z := 0x03.
Definition FLOAT_NORMALIZATION_UNNORMALIZED : Z := 0.
Definition FLOAT_NORMALIZATION_LEADING_ONE : Z := 1.
Definition FLOAT_NORMALIZATION_IMPLIED_LEADING_ONE : Z := 2.
Definition FLOAT_RESERVED_MASK : Z := 0xFF0080.
Definition VARIABLE_LENGTH_FIELD_MASK : Z := 0x0F.
Definition VARIABLE_LENGTH_SEQUENCE : Z := 0.
Definition VARIABLE_LENGTH_STRING : Z := 1.
Definition VARIABLE_LENGTH_PADDING_SHIFT : Z := 4.
Definition VARIABLE_LENGTH_RESERVED_MASK : Z := 0xFFF000.
Definition DATATYPE_HEADER_SIZE : Z := 8.
Definition DATATYPE_CLASS_MASK : Z := 0x0F.
Definition DATATYPE_VERSION_SHIFT : Z := 4.
Definition COMPLEX_HOMOGENEOUS_BIT : Z := 0x01.
Definition COMPLEX_FORM_MASK : Z := 0x06.
Definition COMPLEX_FORM_SHIFT : Z := 1.
Definition COMPLEX_RECTANGULAR_FORM : Z := 0.
Definition COMPLEX_RESERVED_MASK : Z := 0xFFFFF8.
Definition OPAQUE_TAG_ALIGNMENT : Z := 8.
Definition OPAQUE_TAG_MAX_LEN : Z := 247.

(** [v & mask != 0] *)
Definition has_bit (v mask : Z) : bool := negb (Z.land v mask =? 0).

Definition padding_bits (low high : bool) : Z :=
  Z.lor (if low then LOW_PADDING_BIT else 0) (if high then HIGH_PADDING_BIT else 0).

(** [u32::from(a) | (u32::from(b) << 8) | (u32::from(c) << 16)] *)
Definition flags_24 (a b c : Z) : Z := Z.lor (Z.lor a (Z.shiftl b 8)) (Z.shiftl c 16).

Definition parse_string_padding (val : Z) : result StringPadding FormatError :=
  if val =? 0 then Ok NullTerminate
  else if val =? 1 then Ok NullPad
  else if val =? 2 then Ok SpacePad
  else Err (InvalidStringPadding val).

Definition parse_charset (val : Z) : result CharacterSet FormatError :=
  if val =? 0 then Ok Ascii
  else if val =? 1 then Ok Utf8
  else Err (InvalidCharacterSet val).

Definition parse_float_byte_order (bit_field : Z) : DatatypeByteOrder :=
  match has_bit bit_field FLOAT_BYTE_ORDER_HIGH_BIT, has_bit bit_field FLOAT_BYTE_ORDER_LOW_BIT with
  | false, false => LittleEndian
  | false, true => BigEndian
  | true, _ => Vax
  end.

(** [if bf0 & 0x01 == 0 { LittleEndian } else { BigEndian }] *)
Definition parse_byte_order (bf0 : Z) : DatatypeByteOrder :=
  if Z.land bf0 0x01 =? 0 then LittleEndian else BigEndian.

Inductive VariableLengthMetadata : Type :=
| MetaSequence
| MetaString (padding : StringPadding) (charset : CharacterSet).

Definition parse_variable_length_metadata (bf0 bf1 bf2 : Z) : result VariableLengthMetadata FormatError :=
  let subtype := Z.land bf0 VARIABLE_LENGTH_FIELD_MASK in
  if negb ((subtype =? VARIABLE_LENGTH_SEQUENCE) || (subtype =? VARIABLE_LENGTH_STRING))
  then Err (InvalidVariableLengthSubtype subtype)
  else
    let bits := Z.land (le_value [bf0; bf1; bf2; 0]) VARIABLE_LENGTH_RESERVED_MASK in
    if negb (bits =? 0) then Err (InvalidVariableLengthReservedBits bits)
    else
      let padding := Z.shiftr bf0 VARIABLE_LENGTH_PADDING_SHIFT in
      let charset := Z.land bf1 VARIABLE_LENGTH_FIELD_MASK in
      if subtype =? VARIABLE_LENGTH_STRING then
        result_bind (parse_string_padding padding) (λ padding,
        result_bind (parse_charset charset) (λ charset,
        Ok (MetaString padding charset)))
      else if negb (padding =? 0) || negb (charset =? 0)
      then Err (InvalidVariableLengthSequenceMetadata padding charset)
      else Ok MetaSequence.

(** ** Opaque tags *)

Record OpaqueTagWire : Type := mkOpaqueTag {
  tag_encoded_len : Z;
  tag_logical : list Z;
}.

(** [iter().position(|&byte| byte != 0)] *)
Fixpoint nonzero_position (l : list Z) : option Z :=
  match l with
  | [] => None
  | b :: l => if negb (b =? 0) then Some 0 else Z.add 1 <$> nonzero_position l
  end.

Module OpaqueTagWire.
Section Tags.
Context `{B : Build}.

Definition parse (encoded_len : Z) (data : list Z) : exec OpaqueTagWire :=
  if negb (is_multiple_of encoded_len OPAQUE_TAG_ALIGNMENT) then fail (InvalidOpaqueTagLength encoded_len)
  else
    try_ (ensure_len data 0 encoded_len) (λ _,
    property ← slice data 0 encoded_len;
    if Nat.eqb (length property) 0 then ok (mkOpaqueTag encoded_len property)
    else
      match nul_position property with
      | Some terminator =>
        rest ← slice_from property (terminator + 1);
        match nonzero_position rest with
        | Some offset =>
          let offset := terminator + 1 + offset in
          byte ← index property offset;
          fail (InvalidOpaqueTagPadding offset byte)
        | None =>
          logical ← slice property 0 terminator;
          ok (mkOpaqueTag encoded_len logical)
        end
      | None => ok (mkOpaqueTag encoded_len property)
      end).

Definition encode (logical : list Z) : exec OpaqueTagWire :=
  if OPAQUE_TAG_MAX_LEN <? zlen logical then fail (OpaqueTagTooLong (zlen logical))
  else
    match nul_position logical with
    | Some offset =>
      byte ← index logical offset;
      fail (InvalidOpaqueTagByte offset byte)
    | None =>
      if Nat.eqb (length logical) 0 then ok (mkOpaqueTag 0 logical)
      else
        let length := Z.ldiff (zlen logical + OPAQUE_TAG_ALIGNMENT) (OPAQUE_TAG_ALIGNMENT - 1) in
        if 255 <? length then fail (OpaqueTagTooLong (zlen logical))
        else ok (mkOpaqueTag length logical)
    end.

End Tags.
End OpaqueTagWire.

(** ** Version 1 compound members *)

Inductive Shape : Type :=
| ShapeFour (a b c d : Z)
| ShapeOne (a : Z)
| ShapeScalar
| ShapeThree (a b c : Z)
| ShapeTwo (a b : Z).

Module MemberShape.
Section Shapes.
Context `{B : Build}.

Definition DIMENSION_BLOCK_SIZE : Z := 28.
Definition DIMENSION_SIZES_OFFSET : Z := 12.
Definition MAX_RANK : Z := 4.

Definition multiply_size (size extent : Z) : result Z FormatError :=
  ok_or (u32_checked_mul size extent) (CompoundArraySizeOverflow size extent).

(** [try_fold(size, ...)] over the extents. *)
Fixpoint multiply_sizes (size : Z) (extents : list Z) : result Z FormatError :=
  match extents with
  | [] => Ok size
  | extent :: extents => result_bind (multiply_size size extent) (λ size, multiply_sizes size extents)
  end.

Fixpoint checked_size (datatype : Datatype) : result Z FormatError :=
  match datatype with
  | Array base_type dimensions =>
    result_bind (checked_size base_type) (λ size, multiply_sizes size dimensions)
  | _ => Ok (Datatype.type_size datatype)
  end.

Definition extent (block : list Z) (dimension : Z) : exec Z :=
  v ← u32_at block (DIMENSION_SIZES_OFFSET + dimension * 4);
  Ret (ok_or (nonzero v) (InvalidCompoundV1Extent dimension)).

Definition parse (data : list Z) (pos : Z) : exec (Shape * Z) :=
  try_ (ensure_len data pos DIMENSION_BLOCK_SIZE) (λ _,
  block ← slice data pos (pos + DIMENSION_BLOCK_SIZE);
  rank ← index block 0;
  if MAX_RANK <? rank then fail (InvalidCompoundV1Rank rank)
  else
    permutation ← u32_at block 4;
    if negb (permutation =? 0) then fail (UnsupportedCompoundV1Permutation permutation)
    else
      shape ←?
        (if rank =? 0 then ok ShapeScalar
         else if rank =? 1 then a ←? extent block 0; ok (ShapeOne a)
         else if rank =? 2 then a ←? extent block 0; b ←? extent block 1; ok (ShapeTwo a b)
         else if rank =? 3 then
           a ←? extent block 0; b ←? extent block 1; c ←? extent block 2; ok (ShapeThree a b c)
         else if rank =? 4 then
           a ←? extent block 0; b ←? extent block 1; c ←? extent block 2; d ←? extent block 3;
           ok (ShapeFour a b c d)
         else fail (InvalidCompoundV1Rank rank));
      ok (shape, DIMENSION_BLOCK_SIZE)).

Definition dimensions (self : Shape) : option (list Z) :=
  match self with
  | ShapeScalar => None
  | ShapeOne a => Some [a]
  | ShapeTwo a b => Some [a; b]
  | ShapeThree a b c => Some [a; b; c]
  | ShapeFour a b c d => Some [a; b; c; d]
  end.

Definition into_datatype (self : Shape) (base_type : Datatype) (name : list Z) (offset compound_size : Z)
    : result Datatype FormatError :=
  result_bind (checked_size base_type) (λ size,
  result_bind (multiply_sizes size (default [] (dimensions self))) (λ size,
  if match checked_add offset size with None => true | Some end_ => compound_size <? end_ end
  then Err (CompoundFieldOutOfBounds name offset size compound_size)
  else Ok (match dimensions self with
           | Some extents => Array base_type extents
           | None => base_type
           end))).

End Shapes.
End MemberShape.

(** ** The parser *)

Section Parser.
Context `{B : Build}.

Definition read_null_terminated_string (data : list Z) (offset : Z) : exec (list Z * Z) :=
  if zlen data <=? offset then fail (UnexpectedEof (offset + 1) (zlen data))
  else
    remaining ← slice_from data offset;
    match nul_position remaining with
    | None => fail (UnexpectedEof (offset + 1) (zlen data))
    | Some null_pos =>
      name ← slice remaining 0 null_pos;
      ok (from_utf8_lossy name, null_pos + 1)
    end.

(** [to_le_bytes().iter().rposition(|&byte| byte != 0).map_or(1, |index| index + 1)] *)
Fixpoint significant (l : list Z) : Z :=
  match l with
  | [] => 0
  | b :: l => let n := significant l in if n =? 0 then (if b =? 0 then 0 else 1) else n + 1
  end.

Definition offset_bytes_for_size (compound_size : Z) : Z :=
  let n := significant (le_bytes 4 compound_size) in if n =? 0 then 1 else n.

Definition read_uint (data : list Z) (offset nbytes : Z) : exec Z :=
  try_ (ensure_len data offset nbytes) (λ _,
  slice ← slice data offset (offset + nbytes);
  if (nbytes =? 1) || (nbytes =? 2) || (nbytes =? 3) || (nbytes =? 4) || (nbytes =? 8)
  then ok (le_value slice)
  else fail (UnexpectedEof (offset + nbytes) (zlen data))).

Definition parse_fixed_point (data : list Z) (pos bf0 size : Z) : exec (Datatype * Z) :=
  try_ (ensure_len data pos 4) (λ _,
  let byte_order := parse_byte_order bf0 in
  let signed := Z.land (Z.shiftr bf0 3) 0x01 =? 1 in
  bit_offset ← u16_at data pos;
  bit_precision ← u16_at data (pos + 2);
  try_ (FixedPointType.new size byte_order signed bit_offset bit_precision) (λ datatype,
  ok (FixedPoint (FixedPointType.with_padding datatype (has_bit bf0 LOW_PADDING_BIT)
                    (has_bit bf0 HIGH_PADDING_BIT)), pos + 4))).

Definition parse_normalization (bf0 : Z) : result MantissaNormalization FormatError :=
  let value := Z.land (Z.shiftr bf0 FLOAT_NORMALIZATION_SHIFT) FLOAT_NORMALIZATION_MASK in
  if value =? FLOAT_NORMALIZATION_UNNORMALIZED then Ok Unnormalized
  else if value =? FLOAT_NORMALIZATION_LEADING_ONE then Ok LeadingOne
  else if value =? FLOAT_NORMALIZATION_IMPLIED_LEADING_ONE then Ok ImpliedLeadingOne
  else Err (InvalidMantissaNormalization value).

Definition parse_floating_point (data : list Z) (pos bf0 bf1 size : Z) : exec (Datatype * Z) :=
  try_ (ensure_len data pos 12) (λ _,
  let byte_order := parse_float_byte_order bf0 in
  try_ (parse_normalization bf0) (λ normalization,
  bit_offset ← u16_at data pos;
  bit_precision ← u16_at data (pos + 2);
  exponent_location ← index data (pos + 4);
  exponent_size ← index data (pos + 5);
  mantissa_location ← index data (pos + 6);
  mantissa_size ← index data (pos + 7);
  exponent_bias ← u32_at data (pos + 8);
  try_ (FloatingPointType.new size byte_order normalization bf1 bit_offset bit_precision
          exponent_location exponent_size mantissa_location mantissa_size exponent_bias) (λ datatype,
  ok (FloatingPoint (FloatingPointType.with_padding datatype (has_bit bf0 LOW_PADDING_BIT)
                       (has_bit bf0 HIGH_PADDING_BIT) (has_bit bf0 FLOAT_INTERNAL_PADDING_BIT)),
      pos + 12)))).

Definition parse_time (data : list Z) (pos bf0 size : Z) : exec (Datatype * Z) :=
  try_ (ensure_len data pos 2) (λ _,
  bit_precision ← u16_at data pos;
  try_ (TimeType.new size (parse_byte_order bf0) bit_precision) (λ datatype, ok (Time datatype, pos + 2))).

Definition parse_string (pos bf0 size : Z) : exec (Datatype * Z) :=
  try_ (parse_string_padding (Z.land bf0 0x0F)) (λ padding,
  try_ (parse_charset (Z.land (Z.shiftr bf0 4) 0x0F)) (λ charset,
  ok (String_ size padding charset, pos))).

Definition parse_bit_field (data : list Z) (pos bf0 size : Z) : exec (Datatype * Z) :=
  try_ (ensure_len data pos 4) (λ _,
  bit_offset ← u16_at data pos;
  bit_precision ← u16_at data (pos + 2);
  try_ (BitFieldType.new size (parse_byte_order bf0) bit_offset bit_precision) (λ datatype,
  ok (BitField (BitFieldType.with_padding datatype (has_bit bf0 LOW_PADDING_BIT)
                  (has_bit bf0 HIGH_PADDING_BIT)), pos + 4))).

Definition parse_opaque (data : list Z) (pos bf0 bf1 bf2 size : Z) : exec (Datatype * Z) :=
  let reserved := le_value [bf1; bf2] in
  if negb (reserved =? 0) then fail (InvalidOpaqueReservedBits reserved)
  else
    rest ← slice_from data pos;
    tag ←? OpaqueTagWire.parse bf0 rest;
    ok (Opaque size (tag_logical tag), pos + tag_encoded_len tag).

Definition parse_reference (pos bf0 size : Z) : exec (Datatype * Z) :=
  let ref_type_val := Z.land bf0 0x0F in
  if ref_type_val =? 0 then ok (Reference size RefObject, pos)
  else if ref_type_val =? 1 then ok (Reference size RefDatasetRegion, pos)
  else fail (InvalidReferenceType ref_type_val).

(** [for _ in 0..ndims { dimensions.push(read_u32(&data[pos..pos + 4])); pos += 4 }] *)
Fixpoint read_dimensions (n : nat) (data : list Z) (pos : Z) : outcome (list Z * Z) :=
  match n with
  | O => Ret ([], pos)
  | S n =>
    d ← u32_at data pos;
    '(ds, pos) ← read_dimensions n data (pos + 4);
    Ret (d :: ds, pos)
  end.

(** [(name_len + 7) & !7] *)
Definition padded_name (name_len : Z) : Z := Z.ldiff (name_len + 7) 7.

(** The names of an enumeration, padded before version 3. *)
Fixpoint read_names (n : nat) (data : list Z) (pos version : Z) : exec (list (list Z) * Z) :=
  match n with
  | O => ok ([], pos)
  | S n =>
    '(name, name_len) ←? read_null_terminated_string data pos;
    let pos := if version <? DATATYPE_VERSION_THREE then pos + padded_name name_len else pos + name_len in
    '(names, pos) ←? read_names n data pos version;
    ok (name :: names, pos)
  end.

Fixpoint read_values (names : list (list Z)) (data : list Z) (pos base_size : Z)
    : exec (list EnumMember * Z) :=
  match names with
  | [] => ok ([], pos)
  | name :: names =>
    try_ (ensure_len data pos (as_usize base_size)) (λ _,
    value ← slice data pos (pos + as_usize base_size);
    '(members, pos) ←? read_values names data (pos + as_usize base_size) base_size;
    ok (mkEnumMember name value :: members, pos))
  end.

(** [(3..=5).contains(&version)] *)
Definition version_three_to_five (version : Z) : bool :=
  (DATATYPE_VERSION_THREE <=? version) && (version <=? DATATYPE_VERSION_FIVE).

(** The classes that hold a datatype; [parse_child] is the recursive call. *)
Section Containers.
Context (parse_child : list Z → exec (Datatype * Z)).

Definition parse_complex (data : list Z) (version f0 f1 f2 size : Z) : exec (Datatype * Z) :=
  if negb (version =? DATATYPE_VERSION_FIVE) then fail (InvalidDatatypeVersion COMPLEX_CLASS version)
  else
    let homogeneous := has_bit f0 COMPLEX_HOMOGENEOUS_BIT in
    let form := Z.shiftr (Z.land f0 COMPLEX_FORM_MASK) COMPLEX_FORM_SHIFT in
    let flags := flags_24 f0 f1 f2 in
    if has_bit flags COMPLEX_RESERVED_MASK then fail (InvalidComplexFlags flags)
    else if negb homogeneous || negb (form =? COMPLEX_RECTANGULAR_FORM)
    then fail (UnsupportedComplexForm homogeneous form)
    else
      try_ (ensure_len data DATATYPE_HEADER_SIZE DATATYPE_HEADER_SIZE) (λ _,
      parent ← slice_from data DATATYPE_HEADER_SIZE;
      p0 ← index parent 0;
      let class := Z.land p0 DATATYPE_CLASS_MASK in
      if negb (class =? FLOATING_POINT_CLASS) then fail (InvalidComplexParent class)
      else
        let version := Z.shiftr p0 DATATYPE_VERSION_SHIFT in
        if negb ((DATATYPE_VERSION_ONE <=? version) && (version <=? DATATYPE_VERSION_FIVE))
        then fail (InvalidDatatypeVersion class version)
        else
          p1 ← index parent 1;
          p2 ← index parent 2;
          p3 ← index parent 3;
          let flags := flags_24 p1 p2 p3 in
          let has_extended_order := has_bit flags FLOAT_BYTE_ORDER_HIGH_BIT in
          if has_bit flags FLOAT_RESERVED_MASK
             || (has_extended_order
                 && ((version <? DATATYPE_VERSION_THREE)
                     || (Z.land flags FLOAT_BYTE_ORDER_LOW_BIT =? 0)))
          then fail (InvalidComplexParentFlags version flags)
          else
            '(parent, consumed) ←? parse_child parent;
            try_ (ensure_len data DATATYPE_HEADER_SIZE consumed) (λ _,
            match parent with
            | FloatingPoint component =>
              try_ (ComplexType.new component) (λ complex,
              if negb (size =? complex_size complex)
              then fail (InvalidComplexSize size (float_size component))
              else ok (Complex complex, DATATYPE_HEADER_SIZE + consumed))
            | _ => fail (InvalidComplexParent class)
            end)).

(** The members of versions 3 to 5. *)
Fixpoint parse_members (n : nat) (data : list Z) (pos ob : Z) : exec (list CompoundMember * Z) :=
  match n with
  | O => ok ([], pos)
  | S n =>
    '(name, name_len) ←? read_null_terminated_string data pos;
    let pos := pos + name_len in
    byte_offset ←? read_uint data pos ob;
    let pos := pos + ob in
    rest ← slice_from data pos;
    '(member_dt, consumed) ←? parse_child rest;
    let pos := pos + consumed in
    '(members, pos) ←? parse_members n data pos ob;
    ok (mkMember name byte_offset member_dt :: members, pos)
  end.

(** The members of versions 1 and 2. *)
Fixpoint parse_padded_members (n : nat) (data : list Z) (pos version size : Z)
    : exec (list CompoundMember * Z) :=
  match n with
  | O => ok ([], pos)
  | S n =>
    '(name, name_len) ←? read_null_terminated_string data pos;
    let pos := pos + padded_name name_len in
    try_ (ensure_len data pos 4) (λ _,
    byte_offset ← u32_at data pos;
    let pos := pos + 4 in
    '(shape, pos) ←?
      (if version =? DATATYPE_VERSION_ONE then
         '(shape, consumed) ←? MemberShape.parse data pos;
         ok (Some shape, pos + consumed)
       else ok (None, pos));
    rest ← slice_from data pos;
    '(member_dt, consumed) ←? parse_child rest;
    let pos := pos + consumed in
    try_ (match shape with
          | Some shape => MemberShape.into_datatype shape member_dt name byte_offset size
          | None => Ok member_dt
          end) (λ member_dt,
    '(members, pos) ←? parse_padded_members n data pos version size;
    ok (mkMember name byte_offset member_dt :: members, pos)))
  end.

Definition parse_compound (data : list Z) (pos version bf0 bf1 size : Z) : exec (Datatype * Z) :=
  let num_members := Z.lor bf0 (Z.shiftl bf1 8) in
  '(members, pos) ←?
    (if version_three_to_five version then
       parse_members (Z.to_nat num_members) data pos (offset_bytes_for_size size)
     else if (version =? DATATYPE_VERSION_ONE) || (version =? DATATYPE_VERSION_TWO) then
       parse_padded_members (Z.to_nat num_members) data pos version size
     else fail (InvalidDatatypeVersion COMPOUND_CLASS version));
  ok (Compound size members, pos).

Definition parse_enumeration (data : list Z) (pos version bf0 bf1 size : Z) : exec (Datatype * Z) :=
  let num_members := Z.lor bf0 (Z.shiftl bf1 8) in
  rest ← slice_from data pos;
  '(base_type, base_consumed) ←? parse_child rest;
  let pos := pos + base_consumed in
  let base_size := Datatype.type_size base_type in
  '(member_names, pos) ←? read_names (Z.to_nat num_members) data pos version;
  '(members, pos) ←? read_values member_names data pos base_size;
  ok (Enumeration size base_type members, pos).

Definition parse_variable_length (data : list Z) (pos bf0 bf1 bf2 : Z) : exec (Datatype * Z) :=
  try_ (parse_variable_length_metadata bf0 bf1 bf2) (λ kind,
  rest ← slice_from data pos;
  '(base_type, consumed) ←? parse_child rest;
  let pos := pos + consumed in
  try_ (match kind with
        | MetaSequence => Ok (sequence base_type)
        | MetaString padding charset =>
          result_bind (VariableLengthStringType.with_base_type padding charset base_type) (λ string,
          Ok (VlString string))
        end) (λ kind, ok (VariableLength kind, pos))).

Definition parse_array (data : list Z) (pos version : Z) : exec (Datatype * Z) :=
  if version =? DATATYPE_VERSION_TWO then
    try_ (ensure_len data pos 4) (λ _,
    ndims ← index data pos;
    let pos := pos + 4 in
    try_ (ensure_len data pos (ndims * 4 + ndims * 4)) (λ _,
    '(dimensions, pos) ← read_dimensions (Z.to_nat ndims) data pos;
    let pos := pos + ndims * 4 in
    rest ← slice_from data pos;
    '(base_type, consumed) ←? parse_child rest;
    ok (Array base_type dimensions, pos + consumed)))
  else if version_three_to_five version then
    try_ (ensure_len data pos 1) (λ _,
    ndims ← index data pos;
    let pos := pos + 1 in
    try_ (ensure_len data pos (ndims * 4)) (λ _,
    '(dimensions, pos) ← read_dimensions (Z.to_nat ndims) data pos;
    rest ← slice_from data pos;
    '(base_type, consumed) ←? parse_child rest;
    ok (Array base_type dimensions, pos + consumed)))
  else fail (InvalidDatatypeVersion ARRAY_CLASS version).

(** [match class_id] *)
Definition parse_class (data : list Z) (class_id version bf0 bf1 bf2 size : Z) : exec (Datatype * Z) :=
  let pos := 8 in
  if class_id =? FIXED_POINT_CLASS then parse_fixed_point data pos bf0 size
  else if class_id =? FLOATING_POINT_CLASS then parse_floating_point data pos bf0 bf1 size
  else if class_id =? TIME_CLASS then parse_time data pos bf0 size
  else if class_id =? STRING_CLASS then parse_string pos bf0 size
  else if class_id =? BIT_FIELD_CLASS then parse_bit_field data pos bf0 size
  else if class_id =? OPAQUE_CLASS then parse_opaque data pos bf0 bf1 bf2 size
  else if class_id =? COMPOUND_CLASS then parse_compound data pos version bf0 bf1 size
  else if class_id =? REFERENCE_CLASS then parse_reference pos bf0 size
  else if class_id =? ENUMERATION_CLASS then parse_enumeration data pos version bf0 bf1 size
  else if class_id =? VARIABLE_LENGTH_CLASS then parse_variable_length data pos bf0 bf1 bf2
  else if class_id =? ARRAY_CLASS then parse_array data pos version
  else if class_id =? COMPLEX_CLASS then parse_complex data version bf0 bf1 bf2 size
  else fail (InvalidDatatypeClass class_id).

Definition parse_body (data : list Z) : exec (Datatype * Z) :=
  try_ (ensure_len data 0 8) (λ _,
  class_and_version ← index data 0;
  let class_id := Z.land class_and_version 0x0F in
  let version := Z.land (Z.shiftr class_and_version 4) 0x0F in
  bf0 ← index data 1;
  bf1 ← index data 2;
  bf2 ← index data 3;
  size ← u32_at data 4;
  '(datatype, consumed) ←? parse_class data class_id version bf0 bf1 bf2 size;
  try_ (Datatype.element_size datatype) (λ _, ok (datatype, consumed))).

End Containers.

(** A child is parsed from the bytes after the 8 of its parent's header at least, so the
    length of the message bounds the depth. *)
Fixpoint parse_within (fuel : nat) (data : list Z) : exec (Datatype * Z) :=
  match fuel with
  | O => Panic
  | S fuel => parse_body (parse_within fuel) data
  end.

Definition parse_datatype (data : list Z) : exec (Datatype * Z) := parse_within (S (length data)) data.

End Parser.

(** ** The writer

    [output] is the buffer the message is appended to; a function returns the new one. *)

Record EncodedNode : Type := mkNode {
  node_version : Z;
  node_type_size : Z;
}.

Record DatatypeHeader : Type := mkHeader {
  header_offset : Z;
  header_version : Z;
  header_type_size : Z;
}.

Definition append_header (output : list Z) (class version bf0 bf1 bf2 size : Z)
    : list Z * DatatypeHeader :=
  let offset := zlen output in
  let output := (output ++ [Z.lor (Z.land class 0x0F) (Z.shiftl (Z.land version 0x0F) 4); bf0; bf1; bf2])%list in
  ((output ++ le_bytes 4 size)%list, mkHeader offset version size).

(** [output[offset] = v] *)
Definition set_index (l : list Z) (i v : Z) : outcome (list Z) := splice l i [v].

Module DatatypeHeader.

Definition finish (self : DatatypeHeader) (output : list Z) : outcome (list Z * EncodedNode) :=
  first ← index output (header_offset self);
  output ← set_index output (header_offset self)
    (Z.lor (Z.land first DATATYPE_CLASS_MASK) (Z.shiftl (header_version self) DATATYPE_VERSION_SHIFT));
  output ← splice output (header_offset self + 4) (le_bytes 4 (header_type_size self));
  Ret (output, mkNode (header_version self) (header_type_size self)).

(** [append_child]; [into] is the recursive call. *)
Definition append_child (into : list Z → Datatype → exec (list Z * EncodedNode)) (self : DatatypeHeader)
    (output : list Z) (datatype : Datatype) : exec (list Z * DatatypeHeader * EncodedNode) :=
  '(output, child) ←? into output datatype;
  ok (output, mkHeader (header_offset self) (Z.max (header_version self) (node_version child))
                (header_type_size self), child).

End DatatypeHeader.

Definition normalization_code (n : MantissaNormalization) : Z :=
  match n with
  | Unnormalized => FLOAT_NORMALIZATION_UNNORMALIZED
  | LeadingOne => FLOAT_NORMALIZATION_LEADING_ONE
  | ImpliedLeadingOne => FLOAT_NORMALIZATION_IMPLIED_LEADING_ONE
  end.

Definition padding_code (p : StringPadding) : Z :=
  match p with NullTerminate => 0 | NullPad => 1 | SpacePad => 2 end.

Definition charset_code (c : CharacterSet) : Z := match c with Ascii => 0 | Utf8 => 1 end.

(** [u8::from(byte_order == BigEndian)] *)
Definition big_endian_bit (order : DatatypeByteOrder) : Z := if bool_decide (order = BigEndian) then 1 else 0.

Definition write_fixed_point (output : list Z) (datatype : FixedPointType) : list Z * DatatypeHeader :=
  let layout := fixed_layout datatype in
  let bf0 := padding_bits (fixed_low_padding layout) (fixed_high_padding layout) in
  let bf0 := if bool_decide (fixed_byte_order datatype = BigEndian) then Z.lor bf0 0x01 else bf0 in
  let bf0 := if fixed_signed layout then Z.lor bf0 0x08 else bf0 in
  let '(output, header) :=
    append_header output FIXED_POINT_CLASS DATATYPE_VERSION_ONE bf0 0 0 (fixed_size datatype) in
  let output := (output ++ le_bytes 2 (fixed_bit_offset layout))%list in
  ((output ++ le_bytes 2 (fixed_bit_precision layout))%list, header).

Definition write_floating_point (output : list Z) (datatype : FloatingPointType) : list Z * DatatypeHeader :=
  let layout := float_layout datatype in
  let bf0 := Z.lor (Z.shiftl (normalization_code (float_normalization layout)) FLOAT_NORMALIZATION_SHIFT)
               (padding_bits (float_low_padding layout) (float_high_padding layout)) in
  let bf0 := if float_internal_padding layout then Z.lor bf0 FLOAT_INTERNAL_PADDING_BIT else bf0 in
  let '(bf0, version) :=
    match float_byte_order datatype with
    | LittleEndian => (bf0, DATATYPE_VERSION_ONE)
    | BigEndian => (Z.lor bf0 FLOAT_BYTE_ORDER_LOW_BIT, DATATYPE_VERSION_ONE)
    | Vax => (Z.lor bf0 (Z.lor FLOAT_BYTE_ORDER_LOW_BIT FLOAT_BYTE_ORDER_HIGH_BIT), DATATYPE_VERSION_THREE)
    end in
  let '(output, header) :=
    append_header output FLOATING_POINT_CLASS version bf0 (float_sign_location layout) 0
      (float_size datatype) in
  let output := (output ++ le_bytes 2 (float_bit_offset layout))%list in
  let output := (output ++ le_bytes 2 (float_bit_precision layout))%list in
  let output := (output ++ [float_exponent_location layout])%list in
  let output := (output ++ [float_exponent_size layout])%list in
  let output := (output ++ [float_mantissa_location layout])%list in
  let output := (output ++ [float_mantissa_size layout])%list in
  ((output ++ le_bytes 4 (float_exponent_bias layout))%list, header).

Definition write_time (output : list Z) (datatype : TimeType) : list Z * DatatypeHeader :=
  let '(output, header) :=
    append_header output TIME_CLASS DATATYPE_VERSION_ONE (big_endian_bit (time_byte_order datatype)) 0 0
      (time_size datatype) in
  ((output ++ le_bytes 2 (time_bit_precision datatype))%list, header).

Definition write_bit_field (output : list Z) (datatype : BitFieldType) : list Z * DatatypeHeader :=
  let bf0 := Z.lor (padding_bits (bits_low_padding datatype) (bits_high_padding datatype))
               (big_endian_bit (bits_byte_order datatype)) in
  let '(output, header) :=
    append_header output BIT_FIELD_CLASS DATATYPE_VERSION_ONE bf0 0 0 (bits_size datatype) in
  let output := (output ++ le_bytes 2 (bits_bit_offset datatype))%list in
  ((output ++ le_bytes 2 (bits_bit_precision datatype))%list, header).

Definition write_opaque (output : list Z) (size : Z) (tag : list Z) : exec (list Z * DatatypeHeader) :=
  tag ←? OpaqueTagWire.encode tag;
  let '(output, header) :=
    append_header output OPAQUE_CLASS DATATYPE_VERSION_ONE (tag_encoded_len tag) 0 0 size in
  let output := (output ++ tag_logical tag)%list in
  ok (vec_resize output (Z.to_nat (header_offset header + DATATYPE_HEADER_SIZE + tag_encoded_len tag)) 0, header).

(** [members.len().narrow_or_else::<u16, _>] *)
Definition member_count (n : Z) : result Z FormatError :=
  if n <=? 0xFFFF then Ok n else Err (ValueTooLargeForRepresentation n "u16").

(** The names, then the values, of an enumeration. *)
Fixpoint write_names (output : list Z) (members : list EnumMember) : list Z :=
  match members with
  | [] => output
  | m :: members => write_names ((output ++ enum_name m) ++ [0])%list members
  end.

Fixpoint write_values (output : list Z) (members : list EnumMember) : list Z :=
  match members with
  | [] => output
  | m :: members => write_values (output ++ enum_value m)%list members
  end.

(** [for &d in dimensions { output.extend_from_slice(&d.to_le_bytes()) }] *)
Fixpoint write_dimensions (output : list Z) (dimensions : list Z) : list Z :=
  match dimensions with
  | [] => output
  | d :: dimensions => write_dimensions (output ++ le_bytes 4 d)%list dimensions
  end.

(** The loop over the members of a compound; [into] is the recursive call. *)
Section WriteMembers.
Context (into : list Z → Datatype → exec (list Z * EncodedNode)).
Context (offset_width : OffsetWidth) (size ob : Z).

Fixpoint write_members (output : list Z) (header : DatatypeHeader) (members : list CompoundMember)
    : exec (list Z * DatatypeHeader) :=
  match members with
  | [] => ok (output, header)
  | m :: members =>
    try_ (stored_type_size (member_datatype m) offset_width) (λ field_size,
    if match checked_add (member_offset m) field_size with None => true | Some end_ => size <? end_ end
    then fail (CompoundFieldOutOfBounds (member_name m) (member_offset m) field_size size)
    else
      let output := (output ++ member_name m)%list in
      let output := (output ++ [0])%list in
      bytes ← slice (le_bytes 8 (member_offset m)) 0 ob;
      let output := (output ++ bytes)%list in
      '(output, header, _) ←? DatatypeHeader.append_child into header output (member_datatype m);
      write_members output header members)
  end.

End WriteMembers.

(** The component of a complex type is not a part of the [Datatype] value, so its child
    is written here as the recursive call writes a [FloatingPoint]. *)
Fixpoint serialize_datatype_into (offset_width : OffsetWidth) (output : list Z) (datatype : Datatype)
    : exec (list Z * EncodedNode) :=
  '(output, header) ←?
    match datatype with
    | FixedPoint datatype => ok (write_fixed_point output datatype)
    | FloatingPoint datatype => ok (write_floating_point output datatype)
    | Complex complex =>
      let '(output, header) :=
        append_header output COMPLEX_CLASS DATATYPE_VERSION_FIVE COMPLEX_HOMOGENEOUS_BIT 0 0
          (complex_size complex) in
      let '(output, child) := write_floating_point output (complex_component complex) in
      '(output, child) ← DatatypeHeader.finish child output;
      ok (output, mkHeader (header_offset header) (Z.max (header_version header) (node_version child))
                    (header_type_size header))
    | String_ size padding charset =>
      let bf0 := Z.lor (padding_code padding) (Z.shiftl (charset_code charset) 4) in
      ok (append_header output STRING_CLASS DATATYPE_VERSION_ONE bf0 0 0 size)
    | VariableLength kind =>
      let '(bf0, bf1) :=
        match kind with
        | VlSequence _ => (VARIABLE_LENGTH_SEQUENCE, 0)
        | VlString string =>
          (Z.lor VARIABLE_LENGTH_STRING (Z.shiftl (padding_code (vls_padding string)) VARIABLE_LENGTH_PADDING_SHIFT),
           charset_code (vls_charset string))
        end in
      try_ (stored_element_size (VariableLength kind) offset_width) (λ size,
      let '(output, header) :=
        append_header output VARIABLE_LENGTH_CLASS DATATYPE_VERSION_ONE bf0 bf1 0 size in
      '(output, header, _) ←?
        match kind with
        | VlSequence element_type =>
          DatatypeHeader.append_child (serialize_datatype_into offset_width) header output element_type
        | VlString (mkVlString _ _ base_type) =>
          DatatypeHeader.append_child (serialize_datatype_into offset_width) header output base_type
        end;
      ok (output, header))
    | Compound size members =>
      try_ (member_count (zlen members)) (λ num,
      let bf0 := Z.land num 0xFF in
      let bf1 := Z.land (Z.shiftr num 8) 0xFF in
      let '(output, header) :=
        append_header output COMPOUND_CLASS DATATYPE_VERSION_THREE bf0 bf1 0 size in
      write_members (serialize_datatype_into offset_width) offset_width size (offset_bytes_for_size size)
        output header members)
    | Enumeration size base_type members =>
      try_ (member_count (zlen members)) (λ num,
      let bf0 := Z.land num 0xFF in
      let bf1 := Z.land (Z.shiftr num 8) 0xFF in
      let '(output, header) :=
        append_header output ENUMERATION_CLASS DATATYPE_VERSION_THREE bf0 bf1 0 size in
      '(output, header, _) ←?
        DatatypeHeader.append_child (serialize_datatype_into offset_width) header output base_type;
      ok (write_values (write_names output members) members, header))
    | Array base_type dimensions =>
      try_ (if zlen dimensions <=? 0xFF then Ok (zlen dimensions)
            else Err (ValueTooLargeForRepresentation (zlen dimensions) "u8")) (λ rank,
      let '(output, header) := append_header output ARRAY_CLASS DATATYPE_VERSION_THREE 0 0 0 0 in
      let output := (output ++ [rank])%list in
      let output := write_dimensions output dimensions in
      '(output, header, child) ←?
        DatatypeHeader.append_child (serialize_datatype_into offset_width) header output base_type;
      try_ (array_type_size (node_type_size child) dimensions) (λ type_size,
      ok (output, mkHeader (header_offset header) (header_version header) type_size)))
    | Reference size ref_type =>
      let bf0 := match ref_type with RefObject => 0 | RefDatasetRegion => 1 end in
      ok (append_header output REFERENCE_CLASS DATATYPE_VERSION_ONE bf0 0 0 size)
    | Time datatype => ok (write_time output datatype)
    | BitField datatype => ok (write_bit_field output datatype)
    | Opaque size tag => write_opaque output size tag
    end;
  Ok <$> DatatypeHeader.finish header output.

Definition serialize_datatype_with_offset_width (datatype : Datatype) (offset_width : OffsetWidth)
    : exec (list Z) :=
  '(output, _) ←? serialize_datatype_into offset_width [] datatype; ok output.

Definition serialize_datatype (datatype : Datatype) : exec (list Z) :=
  serialize_datatype_with_offset_width datatype OffsetEight.

(** ** Addresses in an element *)

Definition class_may_hold_object_address (class_and_version : Z) : bool :=
  let class := Z.land class_and_version 0x0F in
  (class =? COMPOUND_CLASS) || (class =? REFERENCE_CLASS) || (class =? ENUMERATION_CLASS)
  || (class =? VARIABLE_LENGTH_CLASS) || (class =? ARRAY_CLASS).

Fixpoint datatype_holds_object_address (dt : Datatype) : bool :=
  match dt with
  | Reference _ _ => true
  | Compound _ members => existsb (λ m, datatype_holds_object_address (member_datatype m)) members
  | Array base_type _ => datatype_holds_object_address base_type
  | Enumeration _ base_type _ => datatype_holds_object_address base_type
  | VariableLength kind =>
    match kind with
    | VlSequence element_type => datatype_holds_object_address element_type
    | VlString (mkVlString _ _ base_type) => datatype_holds_object_address base_type
    end
  | _ => false
  end.

Fixpoint datatype_holds_file_address (dt : Datatype) : bool :=
  match dt with
  | VariableLength _ | Reference _ _ => true
  | Compound _ members => existsb (λ m, datatype_holds_file_address (member_datatype m)) members
  | Array base_type _ => datatype_holds_file_address base_type
  | Enumeration _ base_type _ => datatype_holds_file_address base_type
  | _ => false
  end.

Section Slots.
Context `{B : Build}.

(** The slots of one array entry at [at_]; [inl] is the return of [true] when the slots
    exceed the capacity. *)
Fixpoint push_slots (probe : list Z) (at_ capacity : Z) (out : list Z) : option (list Z + list Z) :=
  match probe with
  | [] => Some (inr out)
  | slot :: probe =>
    match usize_checked_add at_ slot with
    | None => None
    | Some off =>
      let out := (out ++ [off])%list in
      if capacity <? zlen out then Some (inl out) else push_slots probe at_ capacity out
    end
  end.

(** [for i in 0..entries]; [None] is the return of [false]. *)
Fixpoint push_entries (n : nat) (i : Z) (probe : list Z) (base stride capacity : Z) (out : list Z)
    : option (list Z) :=
  match n with
  | O => Some out
  | S n =>
    match (off ← usize_checked_mul i stride; usize_checked_add base off) with
    | None => None
    | Some at_ =>
      match push_slots probe at_ capacity out with
      | None => None
      | Some (inl out) => Some out
      | Some (inr out) => push_entries n (i + 1) probe base stride capacity out
      end
    end
  end.

(** The loop over the members; [collect] is the recursive call. *)
Section CollectMembers.
Context (collect : Datatype → Z → list Z → option (list Z)).

Fixpoint collect_members (members : list CompoundMember) (base : Z) (out : list Z) : option (list Z) :=
  match members with
  | [] => Some out
  | m :: members =>
    match (off ← (if member_offset m <=? USIZE_MAX then Some (member_offset m) else None);
           usize_checked_add base off) with
    | None => None
    | Some at_ =>
      match collect (member_datatype m) at_ out with
      | None => None
      | Some out => collect_members members base out
      end
    end
  end.

End CollectMembers.

Fixpoint collect (capacity : Z) (datatype : Datatype) (base : Z) (out : list Z) : option (list Z) :=
  if capacity <? zlen out then Some out
  else
    match datatype with
    | Reference size ref_type =>
      match ref_type with
      | RefObject => if size =? 8 then Some (out ++ [base])%list else None
      | RefDatasetRegion => None
      end
    | Compound _ members => collect_members (collect capacity) members base out
    | Array base_type dimensions =>
      match collect capacity base_type 0 [] with
      | None => None
      | Some [] => Some out
      | Some probe =>
        let count := fold_left (λ a b, Z.min (a * b) U64_MAX) dimensions 1 in
        if capacity <? count then None
        else
          let entries := if count <=? USIZE_MAX then count else USIZE_MAX in
          push_entries (Z.to_nat entries) 0 probe base (as_usize (Datatype.type_size base_type)) capacity out
      end
    | Complex _ => Some out
    | _ => if datatype_holds_object_address datatype then None else Some out
    end.

Definition embedded_reference_slots (datatype : Datatype) : option (list Z) :=
  let element_size := as_usize (Datatype.type_size datatype) in
  let capacity := element_size / 8 in
  match collect capacity datatype 0 [] with
  | None => None
  | Some slots =>
    if (capacity <? zlen slots)
       || existsb (λ s, match usize_checked_add s 8 with None => true | Some end_ => element_size <? end_ end) slots
    then None else Some slots
  end.

(** The references of one element, the [i]th of the data. *)
Fixpoint element_references (element : list Z) (i element_size : Z) (slots : list Z)
    : outcome (list (Z * Z)) :=
  match slots with
  | [] => Ret []
  | at_ :: slots =>
    stored ← slice element at_ (at_ + 8);
    rest ← element_references element i element_size slots;
    Ret ((i * element_size + at_, le_value stored) :: rest)
  end.

(** [raw.chunks_exact(element_size.max(1)).enumerate()]; [n] bounds the number of whole
    elements. *)
Fixpoint references_from (n : nat) (i : Z) (raw : list Z) (element_size : Z) (slots : list Z)
    : outcome (list (Z * Z)) :=
  match n with
  | O => Ret []
  | S n =>
    match get_range raw 0 (Z.max element_size 1) with
    | None => Ret []
    | Some element =>
      refs ← element_references element i element_size slots;
      rest ← references_from n (i + 1) (drop (Z.to_nat (Z.max element_size 1)) raw) element_size slots;
      Ret (refs ++ rest)%list
    end
  end.

Definition stored_object_references (raw : list Z) (element_size : Z) (slots : list Z)
    : outcome (list (Z * Z)) := references_from (length raw) 0 raw element_size slots.

End Slots.

(** ** Checks against the source's own tests *)

Module DatatypeTests.
#[local] Existing Instance build64.

Definition pair_type : Datatype :=
  Compound 24 [mkMember [120] 0 (FloatingPoint (FloatingPointType.ieee754_binary64 BigEndian));
               mkMember [114] 8 (Array (Reference 8 RefObject) [2])].

Definition nested : Datatype :=
  Enumeration 1 (FixedPoint FixedPointType.u8) [mkEnumMember [97] [0]; mkEnumMember [98] [1]].

Definition all : list Datatype :=
  [pair_type; nested; VariableLength (string_ SpacePad Utf8); VariableLength (sequence pair_type);
   Opaque 3 [1; 2; 3]; Complex (mkComplex (FloatingPointType.ieee754_binary32 Vax) 8);
   Time (mkTime 4 BigEndian 32); BitField (mkBitField true false 2 BigEndian 3 9);
   Array (VariableLength (sequence nested)) [3; 5]; String_ 7 NullPad Ascii].

Example datatypes_run :
  forallb (λ dt, match (b ←? serialize_datatype dt; parse_datatype (b ++ [255])%list) with
                 | Ret (Ok (dt', _)) => match serialize_datatype dt, serialize_datatype dt' with
                                        | Ret (Ok a), Ret (Ok b) => bool_decide (a = b) | _, _ => false end
                 | _ => false end) all = true.
Proof. vm_compute. reflexivity. Qed.

Example slots_run :
  embedded_reference_slots pair_type = Some [8; 16] ∧
  embedded_reference_slots (VariableLength (sequence pair_type)) = None ∧
  stored_object_references (replicate 8 0 ++ [1] ++ replicate 7 0 ++ [2] ++ replicate 8 0) 24 [8; 16]
    = Ret [(8, 1); (16, 2)].
Proof. vm_compute. auto. Qed.

(** A version 1 member with a dimension block. *)
Example legacy_member_runs :
  parse_datatype ([0x16; 1; 0; 0; 4; 0; 0; 0] ++ [97; 0; 0; 0; 0; 0; 0; 0] ++ [0; 0; 0; 0]
    ++ [1; 0; 0; 0; 0; 0; 0; 0; 0; 0; 0; 0; 2; 0; 0; 0] ++ replicate 12 0
    ++ [0x10; 0; 0; 0; 2; 0; 0; 0; 0; 0; 16; 0])%list
  = ok (Compound 4 [mkMember [97] 0 (Array (FixedPoint FixedPointType.u16) [2])], 60).
Proof. vm_compute. reflexivity. Qed.

End DatatypeTests.
