(* ===== verification/DatatypeFacts.v ===== *)
(** * Facts about the Datatype message

    What the writer makes of a datatype ([dt_bytes]), when it succeeds ([dt_fits]), what the
    parser makes of these bytes and of arbitrary ones ([dt_ok]), and the walk that locates
    object references. *)

From stdpp Require Import strings.
From S2P Require Import Prelude Addresses Words ByteFields ByteFieldFacts Utf8 LinkMessages Datatypes.

Local Open Scope list_scope.
Local Open Scope Z_scope.

(** ** Induction *)

Definition children (dt : Datatype) : list Datatype :=
  match dt with
  | Compound _ members => member_datatype <$> members
  | Enumeration _ base _ => [base]
  | VariableLength kind => [base_type kind]
  | Array base _ => [base]
  | _ => []
  end.

Lemma datatype_induction (P : Datatype → Prop) :
  (∀ dt, Forall P (children dt) → P dt) → ∀ dt, P dt.
Proof.
  intros HP. fix IH 1. intros dt. apply HP.
  destruct dt as [| | | | | |size members| |size base members|kind|base dims|];
    cbn [children]; try apply Forall_nil_2.
  - induction members as [|[name offset dt] members IHm]; [apply Forall_nil_2|].
    apply Forall_cons_2; [apply IH|exact IHm].
  - apply Forall_cons_2; [apply IH|apply Forall_nil_2].
  - destruct kind as [element|[padding charset base]]; (apply Forall_cons_2; [apply IH|apply Forall_nil_2]).
  - apply Forall_cons_2; [apply IH|apply Forall_nil_2].
Qed.

(** ** Datatypes the parser returns

    The values are values of their Rust types, the numeric layouts are in range, names are
    UTF-8 without NUL bytes, the values of an enumeration are as long as its base type, and
    no element is empty. *)

Definition within_bits (n v : Z) : bool := (0 <=? v) && (v <? 2 ^ n).

Definition positive_u32 (v : Z) : bool := (0 <? v) && (v <? 2 ^ 32).

Definition name_ok (name : list Z) : bool := utf8_valid name && negb (contains_nul name).

Definition order_fixed (order : DatatypeByteOrder) : bool := bool_decide (order ≠ Vax).

Definition fixed_ok (t : FixedPointType) : bool :=
  let l := fixed_layout t in
  positive_u32 (fixed_size t) && order_fixed (fixed_byte_order t) && within_bits 16 (fixed_bit_offset l)
  && within_bits 16 (fixed_bit_precision l) && (0 <? fixed_bit_precision l)
  && (fixed_bit_offset l + fixed_bit_precision l <=? 8 * fixed_size t).

Definition inside (lo hi location size : Z) : bool := (0 <? size) && (lo <=? location) && (location + size <=? hi).

Definition apart (a n b m : Z) : bool := (a + n <=? b) || (b + m <=? a).

Definition float_ok (t : FloatingPointType) : bool :=
  let l := float_layout t in
  let lo := float_bit_offset l in
  let hi := lo + float_bit_precision l in
  positive_u32 (float_size t) && within_bits 16 lo && within_bits 16 (float_bit_precision l)
  && (0 <? float_bit_precision l) && (hi <=? 8 * float_size t)
  && within_bits 8 (float_sign_location l) && within_bits 8 (float_exponent_location l)
  && within_bits 8 (float_exponent_size l) && within_bits 8 (float_mantissa_location l)
  && within_bits 8 (float_mantissa_size l) && within_bits 32 (float_exponent_bias l)
  && inside lo hi (float_sign_location l) 1
  && inside lo hi (float_exponent_location l) (float_exponent_size l)
  && inside lo hi (float_mantissa_location l) (float_mantissa_size l)
  && apart (float_sign_location l) 1 (float_exponent_location l) (float_exponent_size l)
  && apart (float_sign_location l) 1 (float_mantissa_location l) (float_mantissa_size l)
  && apart (float_exponent_location l) (float_exponent_size l)
       (float_mantissa_location l) (float_mantissa_size l).

Definition time_ok (t : TimeType) : bool :=
  positive_u32 (time_size t) && order_fixed (time_byte_order t) && within_bits 16 (time_bit_precision t)
  && (0 <? time_bit_precision t) && (time_bit_precision t <=? 8 * time_size t).

Definition bits_ok (t : BitFieldType) : bool :=
  positive_u32 (bits_size t) && order_fixed (bits_byte_order t) && within_bits 16 (bits_bit_offset t)
  && within_bits 16 (bits_bit_precision t) && (0 <? bits_bit_precision t)
  && (bits_bit_offset t + bits_bit_precision t <=? 8 * bits_size t).

Definition enum_ok (size : Z) (m : EnumMember) : bool := name_ok (enum_name m) && (zlen (enum_value m) =? size).

Fixpoint dt_ok (dt : Datatype) : bool :=
  positive_u32 (Datatype.type_size dt) &&
  match dt with
  | FixedPoint t => fixed_ok t
  | FloatingPoint t => float_ok t
  | Time t => time_ok t
  | String_ _ _ _ => true
  | BitField t => bits_ok t
  | Opaque _ tag => zlen tag <=? 248
  | Compound _ members =>
    forallb (λ m, name_ok (member_name m) && within_bits 64 (member_offset m) && dt_ok (member_datatype m))
      members
  | Reference _ _ => true
  | Enumeration _ base members => dt_ok base && forallb (enum_ok (Datatype.type_size base)) members
  | VariableLength kind =>
    match kind with
    | VlSequence element => dt_ok element
    | VlString (mkVlString _ _ base) => dt_ok base
    end
  | Array base dimensions => dt_ok base && forallb (within_bits 32) dimensions
  | Complex t => float_ok (complex_component t) && (complex_size t =? 2 * float_size (complex_component t))
  end.

(** ** What the message can hold *)

Definition tag_fits (tag : list Z) : bool := (zlen tag <=? OPAQUE_TAG_MAX_LEN) && negb (contains_nul tag).

Definition sized (w : OffsetWidth) (dt : Datatype) : Z := default 0 (result_ok (stored_type_size dt w)).

Definition is_ok {A E} (r : result A E) : bool := match r with Ok _ => true | Err _ => false end.

Definition member_fits (w : OffsetWidth) (size : Z) (m : CompoundMember) : bool :=
  is_ok (stored_type_size (member_datatype m) w) && (member_offset m + sized w (member_datatype m) <=? size).

(** Tags fit their property, counts their fields, sizes of arrays 32 bits, and members lie
    in their compound. *)
Fixpoint dt_fits (w : OffsetWidth) (dt : Datatype) : bool :=
  match dt with
  | Opaque _ tag => tag_fits tag
  | Compound size members =>
    (zlen members <=? 0xFFFF) && forallb (λ m, member_fits w size m && dt_fits w (member_datatype m)) members
  | Enumeration _ base members => (zlen members <=? 0xFFFF) && dt_fits w base
  | VariableLength kind =>
    match kind with
    | VlSequence element => dt_fits w element
    | VlString (mkVlString _ _ base) => dt_fits w base
    end
  | Array base dimensions =>
    (zlen dimensions <=? 0xFF) && dt_fits w base && is_ok (stored_type_size (Array base dimensions) w)
  | _ => true
  end.

(** ** The bytes of a message *)

Definition head_bytes (class version : Z) (flags : Z * Z) (size : Z) : list Z :=
  [Z.lor class (Z.shiftl version 4); flags.1; flags.2; 0] ++ le_bytes 4 size.

Definition float_version (t : FloatingPointType) : Z := match float_byte_order t with Vax => 3 | _ => 1 end.

Fixpoint dt_version (dt : Datatype) : Z :=
  match dt with
  | FloatingPoint t => float_version t
  | Complex _ => 5
  | Compound _ members => fold_left (λ v m, Z.max v (dt_version (member_datatype m))) members 3
  | Enumeration _ base _ => Z.max 3 (dt_version base)
  | Array base _ => Z.max 3 (dt_version base)
  | VariableLength kind =>
    match kind with
    | VlSequence element => Z.max 1 (dt_version element)
    | VlString (mkVlString _ _ base) => Z.max 1 (dt_version base)
    end
  | _ => 1
  end.

Definition fixed_flags (t : FixedPointType) : Z :=
  let l := fixed_layout t in
  let bf0 := padding_bits (fixed_low_padding l) (fixed_high_padding l) in
  let bf0 := if bool_decide (fixed_byte_order t = BigEndian) then Z.lor bf0 0x01 else bf0 in
  if fixed_signed l then Z.lor bf0 0x08 else bf0.

Definition float_flags (t : FloatingPointType) : Z :=
  let l := float_layout t in
  let bf0 := Z.lor (Z.shiftl (normalization_code (float_normalization l)) FLOAT_NORMALIZATION_SHIFT)
               (padding_bits (float_low_padding l) (float_high_padding l)) in
  let bf0 := if float_internal_padding l then Z.lor bf0 FLOAT_INTERNAL_PADDING_BIT else bf0 in
  match float_byte_order t with
  | LittleEndian => bf0
  | BigEndian => Z.lor bf0 FLOAT_BYTE_ORDER_LOW_BIT
  | Vax => Z.lor bf0 (Z.lor FLOAT_BYTE_ORDER_LOW_BIT FLOAT_BYTE_ORDER_HIGH_BIT)
  end.

Definition kind_flags (kind : VariableLengthType) : Z * Z :=
  match kind with
  | VlSequence _ => (VARIABLE_LENGTH_SEQUENCE, 0)
  | VlString s =>
    (Z.lor VARIABLE_LENGTH_STRING (Z.shiftl (padding_code (vls_padding s)) VARIABLE_LENGTH_PADDING_SHIFT),
     charset_code (vls_charset s))
  end.

Definition count_flags (n : Z) : Z * Z := (Z.land n 0xFF, Z.land (Z.shiftr n 8) 0xFF).

Definition tag_len (tag : list Z) : Z := if Nat.eqb (length tag) 0 then 0 else Z.ldiff (zlen tag + 8) 7.

Definition dt_flags (dt : Datatype) : Z * Z :=
  match dt with
  | FixedPoint t => (fixed_flags t, 0)
  | FloatingPoint t => (float_flags t, float_sign_location (float_layout t))
  | Time t => (big_endian_bit (time_byte_order t), 0)
  | String_ _ padding charset => (Z.lor (padding_code padding) (Z.shiftl (charset_code charset) 4), 0)
  | BitField t =>
    (Z.lor (padding_bits (bits_low_padding t) (bits_high_padding t)) (big_endian_bit (bits_byte_order t)), 0)
  | Opaque _ tag => (tag_len tag, 0)
  | Compound _ members => count_flags (zlen members)
  | Reference _ ref_type => (match ref_type with RefObject => 0 | RefDatasetRegion => 1 end, 0)
  | Enumeration _ _ members => count_flags (zlen members)
  | VariableLength kind => kind_flags kind
  | Array _ _ => (0, 0)
  | Complex _ => (COMPLEX_HOMOGENEOUS_BIT, 0)
  end.

Definition float_fields (t : FloatingPointType) : list Z :=
  let l := float_layout t in
  le_bytes 2 (float_bit_offset l) ++ le_bytes 2 (float_bit_precision l)
  ++ [float_exponent_location l; float_exponent_size l; float_mantissa_location l; float_mantissa_size l]
  ++ le_bytes 4 (float_exponent_bias l).

Definition float_bytes (t : FloatingPointType) : list Z :=
  head_bytes FLOATING_POINT_CLASS (float_version t) (float_flags t, float_sign_location (float_layout t))
    (float_size t) ++ float_fields t.

Definition tag_bytes (tag : list Z) : list Z := tag ++ replicate (Z.to_nat (tag_len tag - zlen tag)) 0.

Definition names_bytes (members : list EnumMember) : list Z := concat ((λ m, enum_name m ++ [0]) <$> members).

Definition values_bytes (members : list EnumMember) : list Z := concat (enum_value <$> members).

Definition dims_bytes (dimensions : list Z) : list Z := concat (le_bytes 4 <$> dimensions).

Definition member_head (ob : Z) (m : CompoundMember) : list Z :=
  member_name m ++ [0] ++ le_bytes (Z.to_nat ob) (member_offset m).

Fixpoint dt_bytes (w : OffsetWidth) (dt : Datatype) : list Z :=
  head_bytes (Datatype.class_code dt) (dt_version dt) (dt_flags dt) (sized w dt) ++
  match dt with
  | FixedPoint t => le_bytes 2 (fixed_bit_offset (fixed_layout t)) ++ le_bytes 2 (fixed_bit_precision (fixed_layout t))
  | FloatingPoint t => float_fields t
  | Time t => le_bytes 2 (time_bit_precision t)
  | String_ _ _ _ => []
  | BitField t => le_bytes 2 (bits_bit_offset t) ++ le_bytes 2 (bits_bit_precision t)
  | Opaque _ tag => tag_bytes tag
  | Compound size members =>
    concat ((λ m, member_head (offset_bytes_for_size size) m ++ dt_bytes w (member_datatype m)) <$> members)
  | Reference _ _ => []
  | Enumeration _ base members => dt_bytes w base ++ names_bytes members ++ values_bytes members
  | VariableLength kind =>
    match kind with
    | VlSequence element => dt_bytes w element
    | VlString (mkVlString _ _ base) => dt_bytes w base
    end
  | Array base dimensions => [zlen dimensions] ++ dims_bytes dimensions ++ dt_bytes w base
  | Complex t => float_bytes (complex_component t)
  end.

(** ** The writer *)

Lemma zlen_head class version flags size : zlen (head_bytes class version flags size) = 8.
Proof. done. Qed.

(** Finishing a header rewrites its version and size in place. *)
Lemma finish_header output class c0 bf0 bf1 s0 body v s :
  Z.land c0 DATATYPE_CLASS_MASK = class →
  DatatypeHeader.finish (mkHeader (zlen output) v s) (output ++ ([c0; bf0; bf1; 0] ++ le_bytes 4 s0) ++ body)
  = Ret (output ++ head_bytes class v (bf0, bf1) s ++ body, mkNode v s).
Proof.
  intros <-. unfold DatatypeHeader.finish. cbn [header_offset header_version header_type_size].
  rewrite (index_at _ (zlen output) c0 ([bf0; bf1; 0] ++ le_bytes 4 s0 ++ body)) by (by exists output).
  cbn [mbind outcome_bind]. unfold set_index.
  change (output ++ ([c0; bf0; bf1; 0] ++ le_bytes 4 s0) ++ body)
    with (output ++ [c0] ++ ([bf0; bf1; 0] ++ le_bytes 4 s0 ++ body)).
  rewrite splice_app by done. cbn [mbind outcome_bind].
  set (c := Z.lor _ _).
  replace (output ++ [c] ++ [bf0; bf1; 0] ++ le_bytes 4 s0 ++ body)
    with ((output ++ [c; bf0; bf1; 0]) ++ le_bytes 4 s0 ++ body) by (by rewrite <- app_assoc).
  replace (zlen output + 4) with (zlen (output ++ [c; bf0; bf1; 0])) by (rewrite zlen_app; done).
  rewrite splice_app by (by rewrite !length_le_bytes). cbn [mbind outcome_bind].
  rewrite <- app_assoc. unfold head_bytes. by rewrite <- app_assoc.
Qed.

(** A header that was appended and whose version and size may have changed since. *)
Lemma finish_appended output class version bf0 bf1 size body v s :
  Z.land (Z.lor (Z.land class 0x0F) (Z.shiftl (Z.land version 0x0F) 4)) DATATYPE_CLASS_MASK = class →
  DatatypeHeader.finish (mkHeader (zlen output) v s)
    ((append_header output class version bf0 bf1 0 size).1 ++ body)
  = Ret (output ++ head_bytes class v (bf0, bf1) s ++ body, mkNode v s).
Proof.
  intros Hc. unfold append_header. cbn [fst]. rewrite <- !app_assoc.
  rewrite <- (finish_header output class _ bf0 bf1 size body v s Hc). by rewrite <- !app_assoc.
Qed.

Lemma floating_written output t :
  (let '(output, header) := write_floating_point output t in DatatypeHeader.finish header output)
  = Ret (output ++ float_bytes t, mkNode (float_version t) (float_size t)).
Proof.
  unfold write_floating_point.
  replace (match float_byte_order t with LittleEndian => _ | _ => _ end) with (float_flags t, float_version t)
    by (unfold float_flags, float_version; by destruct (float_byte_order t)).
  cbv zeta. unfold append_header. rewrite <- !app_assoc.
  rewrite (app_assoc _ (le_bytes 4 (float_size t))).
  rewrite (finish_header output FLOATING_POINT_CLASS); [by unfold float_bytes, float_fields|].
  unfold float_version. by destruct (float_byte_order t).
Qed.

Lemma tag_encoded tag :
  if tag_fits tag then OpaqueTagWire.encode tag = ok (mkOpaqueTag (tag_len tag) tag)
  else ∃ e, OpaqueTagWire.encode tag = fail e.
Proof.
  unfold tag_fits, OpaqueTagWire.encode, tag_len, OPAQUE_TAG_MAX_LEN, OPAQUE_TAG_ALIGNMENT.
  destruct (zlen tag <=? 247) eqn:El; cbn [andb].
  2:{ replace (247 <? zlen tag) with true by lia. by eexists. }
  replace (247 <? zlen tag) with false by lia.
  destruct (contains_nul tag) eqn:Ec; cbn [negb].
  - destruct (nul_position tag) as [n|] eqn:En.
    + destruct (nul_position_Some _ _ En) as (t & r & -> & _ & <-).
      rewrite (index_at _ _ 0 r) by (by exists t). by eexists.
    + exfalso. revert Ec En. induction tag as [|b tag IH]; [done|]. cbn [contains_nul existsb nul_position].
      rewrite Z.eqb_sym. destruct (b =? 0); [done|]. simpl. intros Hc. rewrite zlen_cons in El.
      destruct (nul_position tag); [done|]. intros _. apply IH; [lia|done|done].
  - destruct (nul_position tag) as [n|] eqn:En.
    + destruct (nul_position_Some _ _ En) as (t & r & -> & _ & _). exfalso.
      unfold contains_nul in Ec. rewrite existsb_app in Ec. cbn [existsb] in Ec.
      rewrite Z.eqb_refl, orb_true_r in Ec. done.
    + destruct (Nat.eqb _ _) eqn:E0; [done|]. replace (8 - 1) with 7 by lia.
      replace (255 <? _) with false; [done|].
      symmetry. apply Z.ltb_ge. change 7 with (Z.ones 3). rewrite Z.ldiff_ones_r by lia. rewrite Z.shiftl_mul_pow2, Z.shiftr_div_pow2 by lia.
      pose proof (Z.mul_div_le (zlen tag + 8) (2 ^ 3)). lia.
Qed.

(** The length of the property leaves room for the terminator. *)
Lemma tag_len_bounds tag :
  (tag = [] ∧ tag_len tag = 0) ∨ (0 < zlen tag < tag_len tag ∧ tag_len tag ≤ zlen tag + 8 ∧ tag_len tag mod 8 = 0).
Proof.
  destruct tag as [|b tag]; [by left|right]. unfold tag_len. cbn [length Nat.eqb].
  pose proof (zlen_nonneg tag). rewrite zlen_cons. change 7 with (Z.ones 3). rewrite Z.ldiff_ones_r by lia.
  rewrite Z.shiftl_mul_pow2, Z.shiftr_div_pow2 by lia. change (2 ^ 3) with 8.
  pose proof (Z.div_mod (1 + zlen tag + 8) 8 ltac:(lia)) as Hd.
  pose proof (Z.mod_pos_bound (1 + zlen tag + 8) 8 ltac:(lia)). split_and!; [lia|lia|lia|]. apply Z.mod_mul. lia.
Qed.

Lemma tag_len_ge tag : zlen tag ≤ tag_len tag.
Proof. destruct (tag_len_bounds tag) as [[-> ->]|?]; [done|lia]. Qed.

Lemma opaque_written output size tag :
  tag_fits tag = true →
  (('(output, header) ←? write_opaque output size tag; Ok <$> DatatypeHeader.finish header output) : exec _)
  = ok (output ++ head_bytes OPAQUE_CLASS 1 (tag_len tag, 0) size ++ tag_bytes tag, mkNode 1 size).
Proof.
  intros Ht. pose proof (tag_encoded tag) as He. rewrite Ht in He. unfold write_opaque. rewrite He.
  cbn [and_then ok tag_encoded_len tag_logical]. unfold append_header. cbv iota beta.
  cbn [header_offset]. unfold vec_resize, DATATYPE_HEADER_SIZE.
  pose proof (tag_len_ge tag) as Hb. pose proof (zlen_nonneg tag). pose proof (zlen_nonneg output).
  rewrite take_ge.
  2:{ apply Nat2Z.inj_le. rewrite Z2Nat.id by lia.
      fold (zlen ((((output ++ [Z.lor (Z.land OPAQUE_CLASS 15) (Z.shiftl (Z.land DATATYPE_VERSION_ONE 15) 4);
        tag_len tag; 0; 0]) ++ le_bytes 4 size) ++ tag))).
      rewrite !zlen_app, zlen_le_bytes. rewrite !zlen_cons, zlen_nil. lia. }
  replace (Z.to_nat _ - length _)%nat with (Z.to_nat (tag_len tag - zlen tag)).
  2:{ rewrite !length_app, length_le_bytes. cbn [length]. unfold zlen in *. lia. }
  rewrite <- !app_assoc. rewrite (app_assoc _ (le_bytes 4 size)).
  rewrite and_then_ok. cbv beta iota. by rewrite (finish_header output OPAQUE_CLASS).
Qed.

Lemma write_names_eq output members : write_names output members = output ++ names_bytes members.
Proof.
  unfold names_bytes. revert output. induction members as [|m ms IH]; intros output; simpl; [by rewrite app_nil_r|].
  rewrite IH, <- !app_assoc. done.
Qed.

Lemma write_values_eq output members : write_values output members = output ++ values_bytes members.
Proof.
  unfold values_bytes. revert output. induction members as [|m ms IH]; intros output; simpl; [by rewrite app_nil_r|].
  by rewrite IH, <- app_assoc.
Qed.

Lemma write_dimensions_eq output dims : write_dimensions output dims = output ++ dims_bytes dims.
Proof.
  unfold dims_bytes. revert output. induction dims as [|d ds IH]; intros output; simpl; [by rewrite app_nil_r|].
  by rewrite IH, <- app_assoc.
Qed.

Lemma member_count_cases n :
  (n ≤ 0xFFFF ∧ member_count n = Ok n) ∨ (0xFFFF < n ∧ ∃ e, member_count n = Err e).
Proof. unfold member_count. destruct (n <=? 0xFFFF) eqn:E; [left|right]; split; [lia|done|lia|by eexists]. Qed.

Lemma significant_bounds l : 0 ≤ significant l ≤ zlen l.
Proof.
  induction l as [|b l IH]; [done|]. cbn [significant]. rewrite zlen_cons.
  destruct (significant l =? 0); [destruct (b =? 0)|]; lia.
Qed.

Lemma offset_bytes_bounds size : 1 ≤ offset_bytes_for_size size ≤ 4.
Proof.
  unfold offset_bytes_for_size. pose proof (significant_bounds (le_bytes 4 size)) as H.
  rewrite zlen_le_bytes in H. destruct (_ =? 0) eqn:E; lia.
Qed.

(** What a datatype is written as, behind any output, or the writer fails. *)
Definition written (w : OffsetWidth) (dt : Datatype) : Prop :=
  ∀ output,
  (dt_fits w dt = true ∧ stored_type_size dt w = Ok (sized w dt) ∧
   serialize_datatype_into w output dt = ok (output ++ dt_bytes w dt, mkNode (dt_version dt) (sized w dt))) ∨
  (dt_fits w dt = false ∧ ∃ e, serialize_datatype_into w output dt = fail e).

Lemma write_members_cases w size ob members output header :
  positive_u32 size = true → 1 ≤ ob ≤ 4 →
  Forall (written w) (member_datatype <$> members) → Forall (λ m, 0 ≤ member_offset m) members →
  let version := fold_left (λ v m, Z.max v (dt_version (member_datatype m))) members (header_version header) in
  let fits := forallb (λ m, member_fits w size m && dt_fits w (member_datatype m)) members in
  (fits = true ∧
   write_members (serialize_datatype_into w) w size ob output header members
   = ok (output ++ concat ((λ m, member_head ob m ++ dt_bytes w (member_datatype m)) <$> members),
         mkHeader (header_offset header) version (header_type_size header))) ∨
  (fits = false ∧ ∃ e, write_members (serialize_datatype_into w) w size ob output header members = fail e).
Proof.
  intros Hs Hob. revert output header. induction members as [|m members IH]; intros output header Hw Hoff.
  - left. split; [done|]. simpl. rewrite app_nil_r. by destruct header.
  - apply Forall_cons in Hw as [Hm Hw]. apply Forall_cons in Hoff as [Ho Hoff].
    cbn [forallb fold_left write_members]. unfold member_fits at 1 3. unfold sized at 1 2.
    destruct (stored_type_size (member_datatype m) w) as [s|e] eqn:Es; [|right; split; [done|by eexists]].
    cbn [try_ is_ok result_ok default id andb]. apply andb_true_iff in Hs as [Hs1 Hs2].
    destruct (member_offset m + s <=? size) eqn:Ele; cbn [andb].
    2:{ right. split; [done|]. destruct (checked_add _ _) as [n|] eqn:Ec; [|by eexists].
        apply checked_add_Some in Ec as [-> _]. replace (size <? _) with true by lia. by eexists. }
    replace (checked_add _ _) with (Some (member_offset m + s))
      by (symmetry; apply checked_add_Some; unfold U64_MAX; lia).
    replace (size <? _) with false by lia.
    unfold slice. replace (get_range (le_bytes 8 (member_offset m)) 0 ob)
      with (Some (le_bytes (Z.to_nat ob) (member_offset m))).
    2:{ symmetry. apply get_range_Some. rewrite zlen_le_bytes. split_and!; [lia|lia|lia|].
        rewrite Z.sub_0_r, drop_0, take_le_bytes; [done|lia]. }
    cbn [expect mbind outcome_bind]. unfold DatatypeHeader.append_child.
    destruct (Hm (((output ++ member_name m) ++ [0]) ++ le_bytes (Z.to_nat ob) (member_offset m)))
      as [(Hf & _ & ->)|(Hf & e & ->)].
    2:{ right. rewrite Hf. split; [done|by eexists]. }
    rewrite Hf, !and_then_ok. cbn [andb node_version].
    set (output' := _ ++ dt_bytes w (member_datatype m)).
    destruct (IH output' (mkHeader (header_offset header) (Z.max (header_version header) (dt_version (member_datatype m)))
                 (header_type_size header)) Hw Hoff) as [[Hfs ->]|[Hfs [e ->]]].
    + left. split; [done|]. cbn [header_offset header_version header_type_size].
      rewrite fmap_cons, concat_cons. subst output'. unfold member_head at 2. by rewrite <- !app_assoc.
    + right. split; [done|by eexists].
Qed.

Lemma dt_ok_children dt : dt_ok dt = true → Forall (λ d, dt_ok d = true) (children dt).
Proof.
  destruct dt as [| | | | | |size members| |size base members|kind|base dims|]; cbn [dt_ok children];
    intros H; try apply Forall_nil_2.
  - rewrite !andb_true_iff in H. destruct H as (_ & H). rewrite forallb_forall in H.
    apply Forall_fmap, Forall_forall. intros m Hm%list_elem_of_In. specialize (H m Hm).
    rewrite !andb_true_iff in H. tauto.
  - rewrite !andb_true_iff in H. apply Forall_cons_2; [tauto|apply Forall_nil_2].
  - apply andb_true_iff in H as [_ H]. apply Forall_cons_2; [|apply Forall_nil_2].
    by destruct kind as [element|[padding charset base]].
  - rewrite !andb_true_iff in H. apply Forall_cons_2; [tauto|apply Forall_nil_2].
Qed.

(** A header without a body. *)
Lemma finish_bare output class version bf0 bf1 size :
  Z.land (Z.lor (Z.land class 0x0F) (Z.shiftl (Z.land version 0x0F) 4)) DATATYPE_CLASS_MASK = class →
  (let '(output, header) := append_header output class version bf0 bf1 0 size in
   DatatypeHeader.finish header output)
  = Ret (output ++ head_bytes class version (bf0, bf1) size ++ [], mkNode version size).
Proof.
  intros Hc. pose proof (finish_appended output class version bf0 bf1 size [] version size Hc) as H.
  rewrite app_nil_r in H. exact H.
Qed.

Lemma written_leaf w dt : children dt = [] → written w dt.
Proof.
  intros Hc output. destruct dt as [t|t|t|size padding charset|t|size tag|size members|size kind|size base members|kind|base dims|t];
    try discriminate Hc.
  - left. split_and!; [done|done|]. cbn [serialize_datatype_into]. rewrite and_then_ok.
    unfold write_fixed_point, append_header. cbv zeta beta iota.
    rewrite <- !app_assoc, (app_assoc _ (le_bytes 4 _)), (finish_header _ FIXED_POINT_CLASS) by done. done.
  - left. split_and!; [done|done|]. cbn [serialize_datatype_into]. rewrite and_then_ok.
    pose proof (floating_written output t) as H. destruct (write_floating_point output t). by rewrite H.
  - left. split_and!; [done|done|]. cbn [serialize_datatype_into]. rewrite and_then_ok.
    unfold write_time, append_header. cbv zeta beta iota.
    rewrite <- !app_assoc, (app_assoc _ (le_bytes 4 _)), (finish_header _ TIME_CLASS) by done. done.
  - left. split_and!; [done|done|]. cbn [serialize_datatype_into]. rewrite and_then_ok.
    pose proof (finish_bare output STRING_CLASS DATATYPE_VERSION_ONE
      (Z.lor (padding_code padding) (Z.shiftl (charset_code charset) 4)) 0 size eq_refl) as H.
    destruct (append_header _ _ _ _ _ _ _). by rewrite H.
  - left. split_and!; [done|done|]. cbn [serialize_datatype_into]. rewrite and_then_ok.
    unfold write_bit_field, append_header. cbv zeta beta iota.
    rewrite <- !app_assoc, (app_assoc _ (le_bytes 4 _)), (finish_header _ BIT_FIELD_CLASS) by done. done.
  - cbn [dt_fits serialize_datatype_into]. destruct (tag_fits tag) eqn:Ht.
    + left. split_and!; [done|done|]. by apply opaque_written.
    + right. split; [done|]. pose proof (tag_encoded tag) as He. rewrite Ht in He. destruct He as [e He].
      unfold write_opaque. rewrite He. by eexists.
  - destruct members; [|done]. left. split_and!; [done|done|]. cbn [serialize_datatype_into].
    change (member_count (zlen [])) with (Ok (E := FormatError) 0). cbn [try_].
    pose proof (finish_bare output COMPOUND_CLASS DATATYPE_VERSION_THREE 0 0 size eq_refl) as H.
    change (Z.land 0 255) with 0. change (Z.land (Z.shiftr 0 8) 255) with 0.
    destruct (append_header _ _ _ _ _ _ _). cbn [write_members]. rewrite and_then_ok. by rewrite H.
  - left. split_and!; [done|done|]. cbn [serialize_datatype_into]. rewrite and_then_ok.
    pose proof (finish_bare output REFERENCE_CLASS DATATYPE_VERSION_ONE
      (match kind with RefObject => 0 | RefDatasetRegion => 1 end) 0 size eq_refl) as H.
    destruct (append_header _ _ _ _ _ _ _). by rewrite H.
  - left. split_and!; [done|done|]. cbn [serialize_datatype_into].
    unfold append_header. cbv zeta beta iota.
    pose proof (floating_written ((output ++ [Z.lor (Z.land COMPLEX_CLASS 15)
      (Z.shiftl (Z.land DATATYPE_VERSION_FIVE 15) 4); COMPLEX_HOMOGENEOUS_BIT; 0; 0])
      ++ le_bytes 4 (complex_size t)) (complex_component t)) as H.
    destruct (write_floating_point _ _) as [o h]. rewrite H. cbn [mbind outcome_bind].
    rewrite and_then_ok. cbn [header_offset header_version header_type_size node_version]. cbv beta iota.
    rewrite <- !app_assoc, (app_assoc _ (le_bytes 4 _)), (finish_header _ COMPLEX_CLASS) by done.
    replace (Z.max DATATYPE_VERSION_FIVE (float_version (complex_component t))) with 5; [done|].
    unfold float_version. by destruct (float_byte_order _).
Qed.

(** The writer succeeds exactly on the datatypes that fit a message. *)
Lemma serialize_written w dt : dt_ok dt = true → written w dt.
Proof.
  induction dt as [dt IH] using datatype_induction. intros Hok output.
  pose proof (dt_ok_children dt Hok) as Hch.
  assert (Hw : Forall (written w) (children dt)) by (apply (Forall_impl _ _ _ (proj2 (Forall_and _ _) (conj IH Hch))); naive_solver).
  destruct dt as [t|t|t|size padding charset|t|size tag|size members|size kind|size base members|kind|base dims|t];
    try (by apply written_leaf).
  - cbn [dt_ok] in Hok. rewrite !andb_true_iff in Hok. destruct Hok as (Hs & Hm).
    cbn [serialize_datatype_into dt_fits].
    destruct (member_count_cases (zlen members)) as [[Hle ->]|[Hgt [e ->]]].
    2:{ right. replace (zlen members <=? 0xFFFF) with false by lia. split; [done|by eexists]. }
    replace (zlen members <=? 0xFFFF) with true by lia. cbn [try_ andb].
    pose proof (finish_appended output COMPOUND_CLASS DATATYPE_VERSION_THREE (Z.land (zlen members) 255)
      (Z.land (Z.shiftr (zlen members) 8) 255) size) as Hfin.
    destruct (append_header _ _ _ _ _ _ _) as [output' header] eqn:Eh. cbn [fst] in Hfin.
    injection Eh as Eo <-.
    destruct (write_members_cases w size (offset_bytes_for_size size) members output'
      (mkHeader (zlen output) DATATYPE_VERSION_THREE size) Hs (offset_bytes_bounds size) Hw)
      as [[Hf ->]|[Hf [e ->]]].
    { apply Forall_forall. intros m Hin%list_elem_of_In. rewrite forallb_forall in Hm. specialize (Hm m Hin).
      unfold within_bits in Hm. lia. }
    + left. split_and!; [done|done|]. rewrite and_then_ok. cbn [header_offset header_version header_type_size].
      cbv beta iota. by rewrite Hfin.
    + right. split; [done|by eexists].
  - apply Forall_inv in Hw. cbn [serialize_datatype_into dt_fits].
    destruct (member_count_cases (zlen members)) as [[Hle ->]|[Hgt [e ->]]].
    2:{ right. replace (zlen members <=? 0xFFFF) with false by lia. split; [done|by eexists]. }
    replace (zlen members <=? 0xFFFF) with true by lia. cbn [try_ andb].
    pose proof (finish_appended output ENUMERATION_CLASS DATATYPE_VERSION_THREE (Z.land (zlen members) 255)
      (Z.land (Z.shiftr (zlen members) 8) 255) size) as Hfin.
    destruct (append_header _ _ _ _ _ _ _) as [output' header] eqn:Eh. cbn [fst] in Hfin.
    injection Eh as Eo <-. unfold DatatypeHeader.append_child.
    destruct (Hw output') as [(Hf & _ & ->)|(Hf & e & ->)]; [|right; split; [done|by eexists]].
    left. split_and!; [done|done|]. rewrite !and_then_ok. cbn [header_offset header_version header_type_size node_version].
    cbv beta iota. rewrite write_values_eq, write_names_eq, <- !app_assoc. by rewrite Hfin.
  - apply Forall_inv in Hw. unfold written in Hw. cbn [serialize_datatype_into dt_fits].
    replace (stored_element_size (VariableLength kind) w) with (Ok (E := FormatError) (sized w (VariableLength kind)))
      by (by destruct w).
    replace (match kind with VlSequence _ => _ | VlString _ => _ end) with (kind_flags kind)
      by (by destruct kind). destruct (kind_flags kind) as [bf0 bf1] eqn:Ek. cbn [try_].
    pose proof (finish_appended output VARIABLE_LENGTH_CLASS DATATYPE_VERSION_ONE bf0 bf1
      (sized w (VariableLength kind))) as Hfin.
    destruct (append_header _ _ _ _ _ _ _) as [output' header] eqn:Eh. cbn [fst] in Hfin.
    injection Eh as Eo <-. unfold DatatypeHeader.append_child.
    destruct (Hw output') as [(Hf & _ & Hs)|(Hf & e & Hs)];
      destruct kind as [element|[padding charset base]]; cbn [base_type vls_base_type] in *; rewrite Hs.
    3-4: right; split; [done|by eexists].
    1-2: left; split_and!; [done|done|]; rewrite !and_then_ok; cbn [header_offset header_version header_type_size node_version];
      cbv beta iota; rewrite Hfin by done; cbn [dt_bytes dt_flags]; by rewrite Ek.
  - apply Forall_inv in Hw. cbn [serialize_datatype_into dt_fits].
    destruct (zlen dims <=? 0xFF) eqn:El; [|right; split; [done|by eexists]]. cbn [try_ andb].
    pose proof (finish_appended output ARRAY_CLASS DATATYPE_VERSION_THREE 0 0 0) as Hfin.
    destruct (append_header _ _ _ _ _ _ _) as [output' header] eqn:Eh. cbn [fst] in Hfin.
    injection Eh as Eo <-. unfold DatatypeHeader.append_child.
    destruct (Hw (write_dimensions (output' ++ [zlen dims]) dims)) as [(Hf & Hs & ->)|(Hf & e & ->)];
      [|right; rewrite Hf; split; [done|by eexists]].
    rewrite Hf, !and_then_ok. cbn [header_offset header_version header_type_size node_version node_type_size andb].
    cbv beta iota. unfold sized at 1 3. cbn [stored_type_size]. rewrite Hs. cbn [result_bind].
    destruct (array_type_size (sized w base) dims) as [s|e] eqn:Ea; [|right; split; [done|by eexists]].
    left. split_and!; [done|done|]. cbn [try_]. rewrite and_then_ok. cbv beta iota.
    rewrite write_dimensions_eq, <- !app_assoc, Hfin by done. cbn [result_ok default id].
    cbn [dt_bytes dt_flags]. unfold sized. cbn [stored_type_size]. rewrite Hs. cbn [result_bind]. by rewrite Ea.
Qed.

(** ** Reading what was written *)

Lemma version_cases dt : dt_version dt = 1 ∨ dt_version dt = 3 ∨ dt_version dt = 5.
Proof.
  induction dt as [dt IH] using datatype_induction.
  destruct dt as [t|t|t|size padding charset|t|size tag|size members|size kind|size base members|kind|base dims|t];
    cbn [dt_version]; try tauto.
  - unfold float_version. destruct (float_byte_order t); tauto.
  - cbn [children] in IH. assert (H : ∀ v, v = 1 ∨ v = 3 ∨ v = 5 →
      let f := fold_left (λ v m, Z.max v (dt_version (member_datatype m))) members v in f = 1 ∨ f = 3 ∨ f = 5).
    { induction members as [|m members IHm]; intros v Hv; [done|]. apply Forall_cons in IH as [Hm IH].
      cbn [fold_left]. apply IHm; [done|]. destruct Hv as [-> | [-> | ->]], Hm as [-> | [-> | ->]]; vm_compute; tauto. }
    apply H. tauto.
  - apply Forall_inv in IH as [-> | [-> | ->]]; vm_compute; tauto.
  - apply Forall_inv in IH. destruct kind as [e|[p c b]]; cbn [base_type vls_base_type] in IH;
      destruct IH as [-> | [-> | ->]]; vm_compute; tauto.
  - apply Forall_inv in IH as [-> | [-> | ->]]; vm_compute; tauto.
Qed.

(** Containers are written in version 3 or later. *)
Lemma container_version dt :
  match dt with
  | Compound _ _ | Enumeration _ _ _ | Array _ _ => dt_version dt = 3 ∨ dt_version dt = 5
  | _ => True
  end.
Proof.
  pose proof (version_cases dt) as H.
  destruct dt as [t|t|t|size padding charset|t|size tag|size members|size kind|size base members|kind|base dims|t];
    try done; cbn [dt_version] in *; [|lia|lia].
  assert (Hge : ∀ v, v ≤ fold_left (λ v m, Z.max v (dt_version (member_datatype m))) members v).
  { clear H. induction members as [|m members IH]; intros v; cbn [fold_left]; [lia|]. specialize (IH (Z.max v (dt_version (member_datatype m)))). lia. }
  specialize (Hge 3). lia.
Qed.

Lemma multiply_dimensions_bounds size dims s :
  0 ≤ size ≤ U32_MAX → Forall (λ d, 0 ≤ d) dims → multiply_dimensions size dims = Ok s → 0 ≤ s ≤ U32_MAX.
Proof.
  intros Hs Hd. revert size Hs. induction Hd as [|d dims Hd0 Hd IH]; intros size Hs; cbn [multiply_dimensions].
  - by intros [= <-].
  - unfold u32_checked_mul. destruct (_ <=? _) eqn:E; [|done]. apply IH. nia.
Qed.

Lemma dt_ok_size dt : dt_ok dt = true → 0 < Datatype.type_size dt ≤ U32_MAX.
Proof.
  intros H. assert (Hp : positive_u32 (Datatype.type_size dt) = true) by (destruct dt; cbn [dt_ok] in H; by apply andb_true_iff in H as [H _]).
  unfold positive_u32, U32_MAX in *. lia.
Qed.

Lemma sized_fits w dt : dt_ok dt = true → 0 ≤ sized w dt ≤ U32_MAX.
Proof.
  unfold sized. induction dt as [dt IH] using datatype_induction. intros Hok.
  pose proof (dt_ok_children dt Hok) as Hch. pose proof (dt_ok_size dt Hok) as Hts.
  destruct dt as [t|t|t|size padding charset|t|size tag|size members|size kind|size base members|kind|base dims|t];
    cbn [stored_type_size result_ok default id]; try lia.
  - destruct w; vm_compute; split; congruence.
  - apply Forall_inv in IH. apply Forall_inv in Hch. specialize (IH Hch).
    destruct (stored_type_size base w) as [s|e]; cbn [result_bind result_ok default id] in *; [|unfold U32_MAX; lia].
    unfold array_type_size. destruct (existsb _ _); [simpl; unfold U32_MAX; lia|].
    destruct (multiply_dimensions s dims) as [s'|e] eqn:E; [|simpl; unfold U32_MAX; lia].
    apply (multiply_dimensions_bounds s dims s' IH); [|done].
    cbn [dt_ok] in Hok. rewrite !andb_true_iff in Hok. destruct Hok as (_ & _ & Hd). rewrite forallb_forall in Hd.
    apply Forall_forall. intros d Hin%list_elem_of_In. specialize (Hd d Hin). unfold within_bits in Hd. lia.
Qed.

(** ** Bit fields *)

Lemma byte_cases (P : Z → bool) : forallb P (seqZ 0 256) = true → ∀ s, byte s → P s = true.
Proof.
  intros H s Hs. rewrite forallb_forall in H. apply H, list_elem_of_In, elem_of_seqZ. unfold byte in Hs. lia.
Qed.

Lemma fixed_flags_read t :
  order_fixed (fixed_byte_order t) = true →
  let f := fixed_flags t in let l := fixed_layout t in
  parse_byte_order f = fixed_byte_order t ∧ (Z.land (Z.shiftr f 3) 1 =? 1) = fixed_signed l ∧
  has_bit f LOW_PADDING_BIT = fixed_low_padding l ∧ has_bit f HIGH_PADDING_BIT = fixed_high_padding l.
Proof. destruct t as [s o [lo hi sg off p]]. destruct o, lo, hi, sg; vm_compute; intuition congruence. Qed.

Lemma float_flags_read t :
  let f := float_flags t in let l := float_layout t in
  parse_float_byte_order f = float_byte_order t ∧ parse_normalization f = Ok (float_normalization l) ∧
  has_bit f LOW_PADDING_BIT = float_low_padding l ∧ has_bit f HIGH_PADDING_BIT = float_high_padding l ∧
  has_bit f FLOAT_INTERNAL_PADDING_BIT = float_internal_padding l ∧
  Z.land f FLOAT_RESERVED_MASK = 0 ∧ has_bit f FLOAT_BYTE_ORDER_HIGH_BIT = bool_decide (float_byte_order t = Vax) ∧
  (float_byte_order t = Vax → Z.land f FLOAT_BYTE_ORDER_LOW_BIT ≠ 0).
Proof.
  destruct t as [s o [lo hi it n sl off p el es ml ms eb]].
  destruct o, n, lo, hi, it; vm_compute; intuition congruence.
Qed.

Lemma bits_flags_read t :
  order_fixed (bits_byte_order t) = true →
  let f := Z.lor (padding_bits (bits_low_padding t) (bits_high_padding t)) (big_endian_bit (bits_byte_order t)) in
  parse_byte_order f = bits_byte_order t ∧
  has_bit f LOW_PADDING_BIT = bits_low_padding t ∧ has_bit f HIGH_PADDING_BIT = bits_high_padding t.
Proof. destruct t as [lo hi s o off p]. destruct o, lo, hi; vm_compute; intuition congruence. Qed.

Lemma time_flags_read o : order_fixed o = true → parse_byte_order (big_endian_bit o) = o.
Proof. by destruct o. Qed.

(** The flags of a floating-point parent: a sign location in the middle byte sets none of the
    bits a complex type checks. *)
Lemma parent_flags_land f s mask :
  byte s → (mask = FLOAT_RESERVED_MASK ∨ mask = FLOAT_BYTE_ORDER_HIGH_BIT ∨ mask = FLOAT_BYTE_ORDER_LOW_BIT) →
  Z.land (flags_24 f s 0) mask = Z.land f mask.
Proof.
  intros Hs Hm. unfold flags_24. change (Z.shiftl 0 16) with 0. rewrite Z.lor_0_r, Z.land_lor_distr_l.
  replace (Z.land (Z.shiftl s 8) mask) with 0; [apply Z.lor_0_r|]. symmetry. apply Z.eqb_eq.
  revert s Hs. apply byte_cases. by destruct Hm as [-> | [-> | ->]].
Qed.

Lemma count_read n : 0 ≤ n ≤ 0xFFFF → Z.lor (count_flags n).1 (Z.shiftl (count_flags n).2 8) = n.
Proof.
  intros Hn. unfold count_flags. cbn [fst snd]. change 0xFF with (Z.ones 8).
  rewrite !Z.land_ones, Z.shiftr_div_pow2 by lia. rewrite (Z.mod_small (n / 2 ^ 8)) by (split; [apply Z.div_pos|apply Z.div_lt_upper_bound]; lia).
  apply Z.bits_inj'. intros k Hk. rewrite Z.lor_spec, <- Z.land_ones, Z.land_spec, Z.testbit_ones_nonneg by lia.
  destruct (k <? 8) eqn:E.
  - rewrite Z.shiftl_spec_low by lia. by rewrite andb_true_r, orb_false_r.
  - rewrite Z.shiftl_spec, <- Z.shiftr_div_pow2, Z.shiftr_spec by lia. rewrite andb_false_r, orb_false_l. f_equal. lia.
Qed.

(** ** Reading the classes *)

Lemma slice_from_at (data : list Z) pos r : bytes_at data pos r → slice_from data pos = Ret r.
Proof. intros (p & -> & <-). apply slice_from_app. Qed.

Section Reading.
Context `{B : Build}.
Context (data : list Z) (Hdata : zlen data ≤ USIZE_MAX).

Lemma u16_fits n : within_bits 16 n = true → fits 2 n.
Proof. unfold within_bits, fits. lia. Qed.

Lemma u32_fits n : within_bits 32 n = true → fits 4 n.
Proof. unfold within_bits, fits. lia. Qed.

Lemma u32_next pos v r :
  bytes_at data pos (le_bytes 4 v ++ r) → fits 4 v → u32_at data pos = Ret v ∧ bytes_at data (pos + 4) r.
Proof.
  intros Hat Hv. split; [by apply (word_at data pos 4 v _ Hat)|by apply (bytes_at_skip _ _ _ _ 4) in Hat].
Qed.

Lemma index_next pos x r : bytes_at data pos (x :: r) → index data pos = Ret x ∧ bytes_at data (pos + 1) r.
Proof. intros Hat. split; [by apply (index_at _ _ _ r)|by apply (bytes_at_skip data [x] r pos 1 Hat)]. Qed.

Lemma parse_fixed_written t pos r :
  fixed_ok t = true →
  bytes_at data pos (le_bytes 2 (fixed_bit_offset (fixed_layout t)) ++ le_bytes 2 (fixed_bit_precision (fixed_layout t)) ++ r) →
  parse_fixed_point data pos (fixed_flags t) (fixed_size t) = ok (FixedPoint t, pos + 4).
Proof.
  unfold fixed_ok. intros Hok Hat. rewrite !andb_true_iff in Hok. destruct Hok as (((((Hs & Ho) & Hoff) & Hp) & Hp0) & Hle).
  unfold parse_fixed_point. rewrite (ensure_len_at data pos (le_bytes 2 (fixed_bit_offset (fixed_layout t)) ++
    le_bytes 2 (fixed_bit_precision (fixed_layout t))) r 4 Hdata) by (by rewrite <- ?app_assoc).
  cbn [try_]. destruct (u16_next _ _ _ _ Hat (u16_fits _ Hoff)) as [-> Hat2].
  cbn [mbind outcome_bind]. destruct (u16_next _ _ _ _ Hat2 (u16_fits _ Hp)) as [-> _]. cbn [mbind outcome_bind].
  destruct (fixed_flags_read t Ho) as (-> & -> & -> & ->). unfold FixedPointType.new, nonzero.
  unfold positive_u32, order_fixed in *. replace (fixed_size t =? 0) with false by lia. cbn [ok_or result_bind].
  apply bool_decide_eq_true in Ho. rewrite bool_decide_eq_false_2 by done.
  replace (fixed_bit_precision (fixed_layout t) =? 0) with false by lia. cbn [option_filter].
  replace (_ <=? fixed_size t * 8) with true by lia. cbn [ok_or result_bind try_].
  unfold FixedPointType.with_padding. cbn. by destruct t as [s o [lo hi sg off p]].
Qed.

Lemma check_fields_ok lo p fields :
  forallb (λ '(_, location, size), inside lo (lo + p) location size) fields = true →
  FloatingPointLayout.check_fields lo p (lo + p) fields = Ok tt.
Proof.
  induction fields as [|[[f location] size] fields IH]; [done|]. cbn [forallb FloatingPointLayout.check_fields].
  intros [H1 H2]%andb_true_iff. unfold inside in H1. replace (_ || _) with false by lia. by apply IH.
Qed.

Lemma check_pairs_ok pairs :
  forallb (λ '((_, a, n), (_, b, m)), apart a n b m) pairs = true →
  FloatingPointLayout.check_pairs pairs = Ok tt.
Proof.
  induction pairs as [|[[[f a] n] [[g b] m]] pairs IH]; [done|]. cbn [forallb FloatingPointLayout.check_pairs].
  intros [H1 H2]%andb_true_iff. unfold apart in H1. replace (_ && _) with false by lia. by apply IH.
Qed.

Lemma float_new_ok t :
  float_ok t = true →
  let l := float_layout t in
  result_map (λ d, FloatingPointType.with_padding d (float_low_padding l) (float_high_padding l)
                     (float_internal_padding l))
    (FloatingPointType.new (float_size t) (float_byte_order t) (float_normalization l) (float_sign_location l)
       (float_bit_offset l) (float_bit_precision l) (float_exponent_location l) (float_exponent_size l)
       (float_mantissa_location l) (float_mantissa_size l) (float_exponent_bias l)) = Ok t.
Proof.
  unfold float_ok. rewrite !andb_true_iff. intros ((((((((((((((((Hs & Hlo) & Hp) & Hp0) & Hhi) & _) & _) & _) & _) & _) & _)
    & I1) & I2) & I3) & A1) & A2) & A3). cbv zeta. unfold FloatingPointType.new, nonzero, positive_u32 in *.
  replace (float_size t =? 0) with false by lia. cbn [ok_or result_bind].
  replace (float_bit_precision (float_layout t) =? 0) with false by lia. cbn [option_filter].
  replace (_ <=? float_size t * 8) with true by lia. cbn [ok_or result_bind].
  unfold FloatingPointLayout.parse. rewrite check_fields_ok by (cbn [forallb]; by rewrite I1, I2, I3).
  cbn [result_bind]. rewrite check_pairs_ok by (cbn [forallb]; by rewrite A1, A2, A3).
  cbn [result_bind result_map]. unfold FloatingPointType.with_padding. cbn.
  by destruct t as [s o [lo hi it n sl off p el es ml ms eb]].
Qed.

Lemma parse_float_written t pos r :
  float_ok t = true → bytes_at data pos (float_fields t ++ r) →
  parse_floating_point data pos (float_flags t) (float_sign_location (float_layout t)) (float_size t)
  = ok (FloatingPoint t, pos + 12).
Proof.
  intros Hok Hat. pose proof (float_new_ok t Hok) as Hn. unfold float_ok in Hok. rewrite !andb_true_iff in Hok.
  destruct Hok as ((((((((((((((((_ & Hlo) & Hp) & _) & _) & _) & _) & _) & _) & _) & Heb) & _) & _) & _) & _) & _) & _).
  unfold parse_floating_point. rewrite (ensure_len_at data pos (float_fields t) r 12 Hdata Hat) by done.
  cbn [try_]. destruct (float_flags_read t) as (-> & -> & -> & -> & -> & _). cbn [try_].
  unfold float_fields in Hat. rewrite <- !app_assoc in Hat.
  destruct (u16_next _ _ _ _ Hat (u16_fits _ Hlo)) as [-> Hat2]. cbn [mbind outcome_bind].
  destruct (u16_next _ _ _ _ Hat2 (u16_fits _ Hp)) as [-> Hat3]. cbn [mbind outcome_bind].
  replace (pos + 2 + 2) with (pos + 4) in Hat3 by lia.
  destruct (index_next _ _ _ Hat3) as [-> Hat4]. cbn [mbind outcome_bind].
  replace (pos + 4 + 1) with (pos + 5) in Hat4 by lia.
  destruct (index_next _ _ _ Hat4) as [-> Hat5]. cbn [mbind outcome_bind].
  replace (pos + 5 + 1) with (pos + 6) in Hat5 by lia.
  destruct (index_next _ _ _ Hat5) as [-> Hat6]. cbn [mbind outcome_bind].
  replace (pos + 6 + 1) with (pos + 7) in Hat6 by lia.
  destruct (index_next _ _ _ Hat6) as [-> Hat7]. cbn [mbind outcome_bind].
  replace (pos + 7 + 1) with (pos + 8) in Hat7 by lia.
  destruct (u32_next _ _ _ Hat7 (u32_fits _ Heb)) as [-> _]. cbn [mbind outcome_bind].
  cbv zeta in Hn. destruct (FloatingPointType.new _ _ _ _ _ _ _ _ _ _ _) as [d|e]; [|done].
  injection Hn as Hn. cbn [try_]. by rewrite Hn.
Qed.

Lemma parse_time_written t pos r :
  time_ok t = true → bytes_at data pos (le_bytes 2 (time_bit_precision t) ++ r) →
  parse_time data pos (big_endian_bit (time_byte_order t)) (time_size t) = ok (Time t, pos + 2).
Proof.
  unfold time_ok. intros Hok Hat. rewrite !andb_true_iff in Hok. destruct Hok as ((((Hs & Ho) & Hp) & Hp0) & Hle).
  unfold parse_time. rewrite (ensure_len_at data pos _ r 2 Hdata Hat) by (by rewrite zlen_le_bytes).
  cbn [try_]. destruct (u16_next _ _ _ _ Hat (u16_fits _ Hp)) as [-> _]. cbn [mbind outcome_bind].
  rewrite (time_flags_read _ Ho). unfold TimeType.new, nonzero, positive_u32, order_fixed in *.
  replace (time_size t =? 0) with false by lia. cbn [ok_or result_bind].
  apply bool_decide_eq_true in Ho. rewrite bool_decide_eq_false_2 by done.
  replace (time_bit_precision t =? 0) with false by lia. cbn [option_filter].
  replace (_ <=? time_size t * 8) with true by lia. cbn. by destruct t.
Qed.

Lemma parse_bits_written t pos r :
  bits_ok t = true →
  bytes_at data pos (le_bytes 2 (bits_bit_offset t) ++ le_bytes 2 (bits_bit_precision t) ++ r) →
  parse_bit_field data pos
    (Z.lor (padding_bits (bits_low_padding t) (bits_high_padding t)) (big_endian_bit (bits_byte_order t)))
    (bits_size t) = ok (BitField t, pos + 4).
Proof.
  unfold bits_ok. intros Hok Hat. rewrite !andb_true_iff in Hok. destruct Hok as (((((Hs & Ho) & Hoff) & Hp) & Hp0) & Hle).
  unfold parse_bit_field. rewrite (ensure_len_at data pos (le_bytes 2 (bits_bit_offset t) ++
    le_bytes 2 (bits_bit_precision t)) r 4 Hdata) by (by rewrite <- ?app_assoc).
  cbn [try_]. destruct (u16_next _ _ _ _ Hat (u16_fits _ Hoff)) as [-> Hat2].
  cbn [mbind outcome_bind]. destruct (u16_next _ _ _ _ Hat2 (u16_fits _ Hp)) as [-> _]. cbn [mbind outcome_bind].
  destruct (bits_flags_read t Ho) as (-> & -> & ->). unfold BitFieldType.new, nonzero.
  unfold positive_u32, order_fixed in *. replace (bits_size t =? 0) with false by lia. cbn [ok_or result_bind].
  apply bool_decide_eq_true in Ho. rewrite bool_decide_eq_false_2 by done.
  replace (bits_bit_precision t =? 0) with false by lia. cbn [option_filter].
  replace (_ <=? bits_size t * 8) with true by lia. cbn. by destruct t.
Qed.

Lemma string_code_read padding charset :
  let f := Z.lor (padding_code padding) (Z.shiftl (charset_code charset) 4) in
  parse_string_padding (Z.land f 0x0F) = Ok padding ∧ parse_charset (Z.land (Z.shiftr f 4) 0x0F) = Ok charset.
Proof. by destruct padding, charset. Qed.

Lemma kind_flags_read kind :
  parse_variable_length_metadata (kind_flags kind).1 (kind_flags kind).2 0
  = Ok (match kind with VlSequence _ => MetaSequence | VlString s => MetaString (vls_padding s) (vls_charset s) end).
Proof. destruct kind as [e|[p c b]]; [done|]. by destruct p, c. Qed.

End Reading.
