(* ===== verification/DatatypeReads.v ===== *)
(** * Reading Datatype messages

    The parser on what the writer produces: every class is read back, the datatypes a class
    holds by induction on the depth.  The parser on arbitrary bytes: it never panics, and
    what it returns is well formed. *)

From stdpp Require Import strings.
From S2P Require Import Prelude Addresses Words ByteFields ByteFieldFacts Utf8 LinkMessages Datatypes DatatypeFacts.

Local Open Scope list_scope.
Local Open Scope Z_scope.

(** ** Parts of a message *)

Section Parts.
Context `{B : Build}.
Context (data : list Z) (Hdata : zlen data ≤ USIZE_MAX).

Lemma tag_bytes_split tag :
  tag = [] ∨ ∃ n, tag_bytes tag = tag ++ 0 :: replicate n 0.
Proof.
  destruct (tag_len_bounds tag) as [[-> _]|(H & _ & _)]; [by left|right].
  unfold tag_bytes. destruct (Z.to_nat (tag_len tag - zlen tag)) as [|n] eqn:E; [lia|]. by exists n.
Qed.

Lemma zlen_tag_bytes tag : zlen (tag_bytes tag) = tag_len tag.
Proof. unfold tag_bytes. rewrite zlen_app, zlen_replicate. pose proof (tag_len_ge tag). lia. Qed.

Lemma nonzero_position_zeros n : nonzero_position (replicate n 0) = None.
Proof. induction n as [|n IH]; [done|]. cbn [replicate nonzero_position]. by rewrite IH. Qed.

Lemma slice_prefix (s r : list Z) n : zlen s = n → slice (s ++ r) 0 n = Ret s.
Proof. intros <-. unfold slice. by rewrite get_range_prefix. Qed.

Lemma opaque_tag_read tag pos r :
  tag_fits tag = true → bytes_at data pos (tag_bytes tag ++ r) →
  OpaqueTagWire.parse (tag_len tag) (tag_bytes tag ++ r) = ok (mkOpaqueTag (tag_len tag) tag).
Proof.
  unfold tag_fits. intros [_ Hn]%andb_true_iff (p & Hp & Hpos). apply negb_true_iff in Hn.
  assert (Hl : zlen (tag_bytes tag ++ r) ≤ USIZE_MAX) by (rewrite Hp, zlen_app in Hdata; pose proof (zlen_nonneg p); lia).
  unfold OpaqueTagWire.parse.
  replace (is_multiple_of (tag_len tag) OPAQUE_TAG_ALIGNMENT) with true.
  2:{ unfold is_multiple_of, OPAQUE_TAG_ALIGNMENT. destruct (tag_len_bounds tag) as [[_ ->]|(_ & _ & ->)]; done. }
  cbn [negb]. rewrite (ensure_len_at _ 0 (tag_bytes tag) r _ Hl (bytes_at_0 _) (zlen_tag_bytes tag)). cbn [try_].
  rewrite (slice_prefix _ _ _ (zlen_tag_bytes tag)). cbn [mbind outcome_bind].
  destruct (tag_bytes_split tag) as [-> |[n Ht]]; [done|]. rewrite Ht.
  replace (Nat.eqb (length _) 0) with false by (by rewrite length_app; symmetry; apply Nat.eqb_neq; simpl; lia).
  rewrite nul_position_text by done.
  replace (zlen tag + 1) with (zlen (tag ++ [0])) by (rewrite zlen_app; done).
  replace (tag ++ 0 :: replicate n 0) with ((tag ++ [0]) ++ replicate n 0) by (by rewrite <- app_assoc).
  rewrite slice_from_app. cbn [mbind outcome_bind]. rewrite nonzero_position_zeros.
  rewrite <- app_assoc, (slice_prefix _ _ _ eq_refl). done.
Qed.

Lemma string_read name pos r :
  name_ok name = true → bytes_at data pos (name ++ 0 :: r) →
  read_null_terminated_string data pos = ok (name, zlen name + 1) ∧ bytes_at data (pos + (zlen name + 1)) r.
Proof.
  unfold name_ok. intros [Hu Hn]%andb_true_iff Hat. apply negb_true_iff in Hn. split.
  2:{ apply (bytes_at_skip data (name ++ [0]) r pos); [by rewrite <- app_assoc|rewrite zlen_app; done]. }
  unfold read_null_terminated_string.
  replace (zlen data <=? pos) with false.
  2:{ destruct Hat as (p & -> & <-). rewrite !zlen_app, zlen_cons. pose proof (zlen_nonneg name). pose proof (zlen_nonneg r). lia. }
  rewrite (slice_from_at data _ _ Hat). cbn [mbind outcome_bind]. rewrite nul_position_text by done.
  rewrite (slice_prefix _ _ _ eq_refl). cbn [mbind outcome_bind]. by rewrite from_utf8_lossy_valid.
Qed.

Lemma significant_value l : Forall byte l → le_value l < 256 ^ significant l ∧ (significant l = 0 → le_value l = 0).
Proof.
  induction 1 as [|b l Hb Hl [IH1 IH2]]; [done|]. cbn [significant le_value]. unfold byte in Hb.
  pose proof (significant_bounds l). destruct (significant l =? 0) eqn:E.
  - rewrite IH2 by lia. destruct (b =? 0) eqn:Eb; split; simpl; lia.
  - rewrite Z.pow_add_r by lia. change (256 ^ 1) with 256. split; lia.
Qed.

(** The offsets of a compound's members fit the width its size selects. *)
Lemma offset_width_fits size v : 0 ≤ v ≤ size → size ≤ U32_MAX → fits (offset_bytes_for_size size) v.
Proof.
  intros Hv Hs. destruct (significant_value (le_bytes 4 size) (le_bytes_byte _ _)) as [H _].
  rewrite le_value_bytes in H by (unfold U32_MAX in Hs; lia). unfold offset_bytes_for_size, fits.
  destruct (_ =? 0) eqn:E; [|lia]. apply Z.eqb_eq in E. rewrite E in H. lia.
Qed.

Lemma member_offset_read pos ob v r :
  1 ≤ ob ≤ 4 → fits ob v → bytes_at data pos (le_bytes (Z.to_nat ob) v ++ r) →
  Datatypes.read_uint data pos ob = ok v ∧ bytes_at data (pos + ob) r.
Proof.
  intros Hob Hv Hat. assert (Hz : zlen (le_bytes (Z.to_nat ob) v) = ob) by (rewrite zlen_le_bytes; lia).
  destruct (bytes_at_app _ _ _ _ _ Hat Hz) as [Hg Hn]. split; [|done]. unfold Datatypes.read_uint.
  rewrite (ensure_len_at _ _ _ _ _ Hdata Hat Hz). cbn [try_]. unfold slice. rewrite Hg. cbn [expect mbind outcome_bind].
  replace (_ || _) with true by lia. rewrite le_value_bytes; [done|]. rewrite Z2Nat.id by lia. exact Hv.
Qed.

Lemma dimensions_read dims pos r :
  forallb (within_bits 32) dims = true → bytes_at data pos (dims_bytes dims ++ r) →
  read_dimensions (length dims) data pos = Ret (dims, pos + 4 * zlen dims) ∧ bytes_at data (pos + 4 * zlen dims) r.
Proof.
  unfold dims_bytes. revert pos. induction dims as [|d dims IH]; intros pos Hd Hat.
  - change (zlen []) with 0. replace (pos + 4 * 0) with pos by lia. done.
  - cbn [forallb] in Hd. apply andb_true_iff in Hd as [Hd Hds]. rewrite fmap_cons, concat_cons, <- app_assoc in Hat.
    destruct (u32_next data pos d _ Hat (u32_fits _ Hd)) as [Hu Hat']. cbn [length read_dimensions]. rewrite Hu.
    cbn [mbind outcome_bind]. destruct (IH _ Hds Hat') as [Hr Hn]. rewrite Hr. cbn [mbind outcome_bind].
    rewrite zlen_cons. replace (pos + 4 * (1 + zlen dims)) with (pos + 4 + 4 * zlen dims) by lia. done.
Qed.

Lemma zlen_dims_bytes dims : zlen (dims_bytes dims) = 4 * zlen dims.
Proof.
  unfold dims_bytes. induction dims as [|d dims IH]; [done|].
  rewrite fmap_cons, concat_cons, zlen_app, IH, zlen_le_bytes, zlen_cons. lia.
Qed.

Lemma names_read version size members pos r :
  3 ≤ version → forallb (enum_ok size) members = true → bytes_at data pos (names_bytes members ++ r) →
  let pos' := pos + zlen (names_bytes members) in
  read_names (length members) data pos version = ok (enum_name <$> members, pos') ∧ bytes_at data pos' r.
Proof.
  intros Hv. unfold names_bytes. revert pos. induction members as [|m members IH]; intros pos Hm Hat; cbv zeta.
  - change (zlen (concat _)) with 0. rewrite Z.add_0_r. done.
  - cbn [forallb] in Hm. apply andb_true_iff in Hm as [Hn Hms]. unfold enum_ok in Hn. apply andb_true_iff in Hn as [Hn _].
    rewrite fmap_cons, concat_cons, <- !app_assoc in Hat.
    destruct (string_read _ _ _ Hn Hat) as [Hs Hat']. cbn [length read_names]. rewrite Hs, and_then_ok. cbv beta iota.
    unfold DATATYPE_VERSION_THREE. replace (version <? 3) with false by lia.
    destruct (IH _ Hms Hat') as [Hr Hn']. rewrite Hr, and_then_ok.
    rewrite !fmap_cons, concat_cons, zlen_app.
    replace (zlen (enum_name m ++ [0])) with (zlen (enum_name m) + 1) by (by rewrite zlen_app).
    rewrite (Z.add_assoc pos (_ + 1)). done.
Qed.

Lemma values_read (Hwide : 2 ^ 32 ≤ USIZE_MAX + 1) size members pos r :
  0 ≤ size ≤ U32_MAX → forallb (enum_ok size) members = true → bytes_at data pos (values_bytes members ++ r) →
  read_values (enum_name <$> members) data pos size = ok (members, pos + zlen (values_bytes members)).
Proof.
  intros Hs. unfold values_bytes. revert pos. induction members as [|m members IH]; intros pos Hm Hat.
  - change (zlen (concat _)) with 0. rewrite Z.add_0_r. done.
  - cbn [forallb] in Hm. apply andb_true_iff in Hm as [Hn Hms]. unfold enum_ok in Hn. apply andb_true_iff in Hn as [_ Hn].
    apply Z.eqb_eq in Hn. rewrite !fmap_cons, concat_cons, <- !app_assoc in *. cbn [read_values].
    replace (as_usize size) with size by (unfold as_usize; rewrite Z.mod_small; [done|unfold U32_MAX in Hs; lia]).
    rewrite (ensure_len_at _ _ _ _ _ Hdata Hat Hn). cbn [try_]. unfold slice.
    destruct (bytes_at_app _ _ _ _ _ Hat Hn) as [-> Hat']. cbn [expect mbind outcome_bind].
    rewrite (IH _ Hms Hat'), and_then_ok. rewrite zlen_app, Hn, Z.add_assoc. by destruct m.
Qed.

End Parts.

(** ** Whole messages *)

Lemma head_read class v :
  0 ≤ class < 16 → v = 1 ∨ v = 3 ∨ v = 5 →
  let b := Z.lor class (Z.shiftl v 4) in
  Z.land b 0x0F = class ∧ Z.land (Z.shiftr b 4) 0x0F = v ∧ Z.shiftr b 4 = v.
Proof.
  intros Hc Hv. cbv zeta.
  assert (H : ∀ v, forallb (λ c, let b := Z.lor c (Z.shiftl v 4) in
    (Z.land b 15 =? c) && (Z.land (Z.shiftr b 4) 15 =? v) && (Z.shiftr b 4 =? v)) (seqZ 0 16) = true → 
    let b := Z.lor class (Z.shiftl v 4) in Z.land b 15 = class ∧ Z.land (Z.shiftr b 4) 15 = v ∧ Z.shiftr b 4 = v).
  { clear -Hc. intros v H. rewrite forallb_forall in H. specialize (H class). cbv zeta in H.
    rewrite !andb_true_iff, !Z.eqb_eq in H. destruct H as ((H1 & H2) & H3); [|done].
    apply list_elem_of_In, elem_of_seqZ. lia. }
  destruct Hv as [-> | [-> | ->]]; by apply H.
Qed.

Lemma element_sized d : dt_ok d = true → ∃ s, Datatype.element_size d = Ok s.
Proof.
  intros Hok. pose proof (dt_ok_size d Hok) as Hz. unfold Datatype.element_size, nonzero.
  destruct d; try by eexists. all: replace (_ =? 0) with false by lia; by eexists.
Qed.

Lemma index_four (a b c d : Z) l :
  index (a :: b :: c :: d :: l) 0 = Ret a ∧ index (a :: b :: c :: d :: l) 1 = Ret b ∧
  index (a :: b :: c :: d :: l) 2 = Ret c ∧ index (a :: b :: c :: d :: l) 3 = Ret d.
Proof. done. Qed.

Section Whole.
Context `{B : Build} (Hwide : 2 ^ 32 ≤ USIZE_MAX + 1).
Context (w : OffsetWidth) (parse_child : list Z → exec (Datatype * Z)).

(** A child is read from the front of the bytes that follow. *)
Definition reads (d : Datatype) : Prop :=
  ∀ rest, zlen (dt_bytes w d ++ rest) ≤ USIZE_MAX →
  parse_child (dt_bytes w d ++ rest) = ok (d, zlen (dt_bytes w d)).

(** The header of a message, once read. *)
Lemma body_read class v f0 f1 size body d n :
  0 ≤ class < 16 → v = 1 ∨ v = 3 ∨ v = 5 → fits 4 size →
  let data := head_bytes class v (f0, f1) size ++ body in
  zlen data ≤ USIZE_MAX → dt_ok d = true →
  parse_class parse_child data class v f0 f1 0 size = ok (d, n) → parse_body parse_child data = ok (d, n).
Proof.
  intros Hc Hv Hs data Hd Hok Hp. destruct (head_read class v Hc Hv) as (H1 & H2 & _). unfold parse_body.
  assert (Hat : bytes_at data 0 (head_bytes class v (f0, f1) size ++ body)) by apply bytes_at_0.
  rewrite (ensure_len_at data 0 _ body 8 Hd Hat) by done. cbn [try_]. unfold head_bytes in Hat. cbn [fst snd app] in Hat.
  destruct (index_next _ _ _ _ Hat) as [-> Hat1]. cbn [mbind outcome_bind]. rewrite H1, H2.
  destruct (index_next _ _ _ _ Hat1) as [E1 Hat2]. change (0 + 1) with 1 in E1. rewrite E1. cbn [mbind outcome_bind].
  destruct (index_next _ _ _ _ Hat2) as [E2 Hat3]. change (0 + 1 + 1) with 2 in E2. rewrite E2. cbn [mbind outcome_bind].
  destruct (index_next _ _ _ _ Hat3) as [E3 Hat4]. change (0 + 1 + 1 + 1) with 3 in E3. rewrite E3. cbn [mbind outcome_bind].
  change (0 + 1 + 1 + 1 + 1) with 4 in Hat4. destruct (u32_next data 4 size body Hat4 Hs) as [-> _]. cbn [mbind outcome_bind].
  rewrite Hp, and_then_ok. cbv beta iota.
  by destruct (element_sized d Hok) as [s ->].
Qed.

Lemma child_read d data pos rest :
  reads d → zlen data ≤ USIZE_MAX → bytes_at data pos (dt_bytes w d ++ rest) →
  (∃ r, slice_from data pos = Ret r ∧ parse_child r = ok (d, zlen (dt_bytes w d))) ∧
  bytes_at data (pos + zlen (dt_bytes w d)) rest.
Proof.
  intros Hr Hd Hat. split; [|by apply (bytes_at_skip _ _ _ _ _ Hat)].
  exists (dt_bytes w d ++ rest). split; [by apply slice_from_at|]. apply Hr.
  destruct Hat as (p & -> & _). rewrite zlen_app in Hd. pose proof (zlen_nonneg p). lia.
Qed.

Lemma members_read data size members pos rest :
  zlen data ≤ USIZE_MAX → 0 < size ≤ U32_MAX →
  Forall (λ m, reads (member_datatype m) ∧ name_ok (member_name m) = true ∧ 0 ≤ member_offset m ≤ size) members →
  let ob := offset_bytes_for_size size in
  let bytes := concat ((λ m, member_head ob m ++ dt_bytes w (member_datatype m)) <$> members) in
  bytes_at data pos (bytes ++ rest) →
  parse_members parse_child (length members) data pos ob = ok (members, pos + zlen bytes).
Proof.
  intros Hd Hs Hm ob. revert pos. induction Hm as [|m members (Hr & Hn & Ho) Hm IH]; intros pos bytes Hat.
  - subst bytes. change (zlen (concat _)) with 0. by rewrite Z.add_0_r.
  - subst bytes. rewrite fmap_cons, concat_cons in *. unfold member_head at 1 in Hat. rewrite <- !app_assoc in Hat.
    destruct (string_read data Hd _ _ _ Hn Hat) as [E1 Hat1]. cbn [length parse_members]. rewrite E1, and_then_ok. cbv beta iota zeta.
    destruct (member_offset_read data Hd _ ob _ _ (offset_bytes_bounds size) (offset_width_fits size _ Ho ltac:(lia)) Hat1) as [-> Hat2].
    rewrite and_then_ok. cbv beta. destruct (child_read _ _ _ _ Hr Hd Hat2) as [(r & -> & Hc) Hat3]. cbn [mbind outcome_bind].
    rewrite Hc, and_then_ok. cbv beta iota zeta. rewrite (IH _ Hat3), and_then_ok. cbv beta iota.
    rewrite !zlen_app. unfold member_head at 2. rewrite !zlen_app, zlen_le_bytes. change (zlen [0]) with 1.
    pose proof (offset_bytes_bounds size). rewrite Z2Nat.id by (unfold ob; lia). destruct m. do 2 f_equal. simpl. lia.
Qed.

Lemma complex_read c rest :
  let data := head_bytes COMPLEX_CLASS 5 (COMPLEX_HOMOGENEOUS_BIT, 0) (2 * float_size c) ++ float_bytes c ++ rest in
  float_ok c = true → 2 * float_size c ≤ U32_MAX → reads (FloatingPoint c) → zlen data ≤ USIZE_MAX →
  parse_complex parse_child data 5 COMPLEX_HOMOGENEOUS_BIT 0 0 (2 * float_size c)
  = ok (Complex (mkComplex c (2 * float_size c)), 28).
Proof.
  intros data Hok Hs Hr Hd. unfold parse_complex.
  change (negb (5 =? DATATYPE_VERSION_FIVE)) with false.
  change (has_bit (flags_24 COMPLEX_HOMOGENEOUS_BIT 0 0) COMPLEX_RESERVED_MASK) with false.
  change (negb (has_bit COMPLEX_HOMOGENEOUS_BIT COMPLEX_HOMOGENEOUS_BIT) || _) with false. cbv iota.
  assert (Hat : bytes_at data 8 (float_bytes c ++ rest)) by (by apply (bytes_at_skip _ _ _ 0 8 (bytes_at_0 data))).
  assert (Hat' := Hat). unfold float_bytes in Hat'. rewrite <- app_assoc in Hat'.
  unfold DATATYPE_HEADER_SIZE. rewrite (ensure_len_at data _ _ _ 8 Hd Hat') by done. cbn [try_]. rewrite (slice_from_at _ _ _ Hat). cbn [mbind outcome_bind].
  assert (Hv : float_version c = 1 ∨ float_version c = 3) by (unfold float_version; destruct (float_byte_order c); tauto).
  destruct (head_read FLOATING_POINT_CLASS (float_version c)) as (H1 & _ & H3); [done|tauto|].
  set (s := float_sign_location (float_layout c)) in *. assert (Hsb : byte s).
  { clear -Hok. unfold float_ok in Hok. rewrite !andb_true_iff in Hok.
    destruct Hok as ((((((((((((_ & H) & _) & _) & _) & _) & _) & _) & _) & _) & _) & _) & _). unfold within_bits, byte, s in *. lia. }
  set (tail := le_bytes 4 (float_size c) ++ float_fields c ++ rest).
  change (float_bytes c ++ rest) with ([Z.lor FLOATING_POINT_CLASS (Z.shiftl (float_version c) 4); float_flags c; s; 0] ++ tail) in *.
  cbn [app]. destruct (index_four (Z.lor FLOATING_POINT_CLASS (Z.shiftl (float_version c) 4)) (float_flags c) s 0 tail)
    as (-> & -> & -> & ->). cbn [mbind outcome_bind]. change DATATYPE_CLASS_MASK with 15. rewrite H1.
  change DATATYPE_VERSION_SHIFT with 4. rewrite H3. change (negb (FLOATING_POINT_CLASS =? FLOATING_POINT_CLASS)) with false.
  replace (negb _) with false by (unfold DATATYPE_VERSION_ONE, DATATYPE_VERSION_FIVE; destruct Hv as [-> | ->]; done).
  cbv iota. destruct (float_flags_read c) as (_ & _ & _ & _ & _ & F1 & F2 & F3).
  unfold has_bit in *. rewrite !parent_flags_land by tauto. rewrite F1, F2. cbn [negb Z.eqb orb].
  replace (_ && _) with false.
  2:{ symmetry. destruct (bool_decide_reflect (float_byte_order c = Vax)) as [E|E]; [|done]. cbn [andb].
      unfold float_version. rewrite E. apply Z.eqb_neq. by apply F3. }
  cbv iota. change (parse_child _) with (parse_child (dt_bytes w (FloatingPoint c) ++ rest)). rewrite Hr.
  2:{ destruct Hat as (p & Hp & _). rewrite Hp, zlen_app in Hd. pose proof (zlen_nonneg p). revert Hd.
      change (dt_bytes w (FloatingPoint c) ++ rest) with
        ([Z.lor FLOATING_POINT_CLASS (Z.shiftl (float_version c) 4); float_flags c; s; 0] ++ tail). lia. }
  rewrite and_then_ok. cbv beta iota. change (zlen (dt_bytes w (FloatingPoint c))) with 20.
  rewrite (ensure_len_at data 8 (dt_bytes w (FloatingPoint c)) rest 20 Hd Hat) by done. cbn [try_].
  unfold ComplexType.new, u32_checked_mul. replace (_ <=? U32_MAX) with true by lia. cbn [mbind option_bind].
  unfold nonzero. assert (Hp : 0 < float_size c).
  { clear -Hok. unfold float_ok in Hok. rewrite !andb_true_iff in Hok. unfold positive_u32 in Hok. lia. }
  replace (_ =? 0) with false by lia. cbn [ok_or result_bind try_ complex_size].
  replace (float_size c * 2) with (2 * float_size c) by lia. by rewrite Z.eqb_refl.
Qed.

(** The datatypes a message holds; the component of a complex type is one. *)
Definition parts (dt : Datatype) : list Datatype :=
  match dt with Complex t => [FloatingPoint (complex_component t)] | _ => children dt end.

Lemma compound_read size members data rest :
  let dt := Compound size members in
  zlen data ≤ USIZE_MAX → dt_ok dt = true → dt_fits w dt = true → Forall reads (children dt) →
  let bytes := concat ((λ m, member_head (offset_bytes_for_size size) m ++ dt_bytes w (member_datatype m)) <$> members) in
  bytes_at data 8 (bytes ++ rest) →
  parse_compound parse_child data 8 (dt_version dt) (dt_flags dt).1 (dt_flags dt).2 size = ok (dt, 8 + zlen bytes).
Proof.
  intros dt Hd Hok Hfits Hr bytes Hat. pose proof (dt_ok_size dt Hok) as Hsize. cbn [Datatype.type_size dt] in Hsize.
  pose proof (container_version dt) as Hv. cbn [dt_ok dt_fits dt] in Hok, Hfits.
  rewrite !andb_true_iff in Hok. rewrite !andb_true_iff in Hfits. destruct Hok as [_ Hok], Hfits as [Hn Hfits]. rewrite forallb_forall in Hok, Hfits.
  unfold parse_compound. cbn [dt_flags dt]. pose proof (zlen_nonneg members). rewrite count_read by lia.
  replace (version_three_to_five (dt_version dt)) with true by (subst dt; cbv iota in Hv; by destruct Hv as [-> | ->]).
  replace (Z.to_nat (zlen members)) with (length members) by (unfold zlen; lia).
  rewrite (members_read data size members 8 rest Hd Hsize); [by rewrite and_then_ok| |done].
  cbn [children dt] in Hr. rewrite Forall_fmap in Hr. apply Forall_forall. intros m Hm.
  pose proof (proj1 (Forall_forall _ _) Hr m Hm) as Hrm. apply list_elem_of_In in Hm.
  specialize (Hok m Hm). specialize (Hfits m Hm). rewrite !andb_true_iff in Hok. rewrite andb_true_iff in Hfits.
  destruct Hok as ((Hn1 & Hn2) & Hn3), Hfits as (Hf1 & _). split_and!; [done|done|unfold within_bits in Hn2; lia|].
  unfold member_fits in Hf1. pose proof (sized_fits w _ Hn3). lia.
Qed.

Lemma enumeration_read size base members data rest :
  let dt := Enumeration size base members in
  zlen data ≤ USIZE_MAX → dt_ok dt = true → dt_fits w dt = true → reads base →
  let bytes := dt_bytes w base ++ names_bytes members ++ values_bytes members in
  bytes_at data 8 (bytes ++ rest) →
  parse_enumeration parse_child data 8 (dt_version dt) (dt_flags dt).1 (dt_flags dt).2 size = ok (dt, 8 + zlen bytes).
Proof.
  intros dt Hd Hok Hfits Hr bytes Hat. pose proof (container_version dt) as Hv. cbn [dt_ok dt_fits dt] in Hok, Hfits.
  rewrite !andb_true_iff in Hok. rewrite !andb_true_iff in Hfits. destruct Hok as (_ & Hb & Hm), Hfits as [Hn Hfits].
  unfold parse_enumeration. cbn [dt_flags dt]. pose proof (zlen_nonneg members). rewrite count_read by lia.
  subst bytes. rewrite <- !app_assoc in Hat. destruct (child_read _ _ _ _ Hr Hd Hat) as [(r & -> & Hc) Hat1].
  cbn [mbind outcome_bind]. rewrite Hc, and_then_ok. cbv beta iota zeta.
  replace (Z.to_nat (zlen members)) with (length members) by (unfold zlen; lia).
  assert (H3 : 3 ≤ dt_version dt) by (subst dt; cbv iota in Hv; destruct Hv as [-> | ->]; lia).
  destruct (names_read data Hd (dt_version dt) _ members _ _ H3 Hm Hat1) as [Hnm Hat2].
  rewrite Hnm, and_then_ok. cbv beta iota. pose proof (dt_ok_size base Hb) as Hbs.
  rewrite (values_read data Hd Hwide (Datatype.type_size base) _ _ _ ltac:(lia) Hm Hat2), and_then_ok. cbv beta iota.
  rewrite !zlen_app. do 2 f_equal. lia.
Qed.

Lemma variable_length_read kind data rest :
  zlen data ≤ USIZE_MAX → dt_ok (base_type kind) = true → reads (base_type kind) →
  bytes_at data 8 (dt_bytes w (base_type kind) ++ rest) →
  parse_variable_length parse_child data 8 (kind_flags kind).1 (kind_flags kind).2 0
  = ok (VariableLength kind, 8 + zlen (dt_bytes w (base_type kind))).
Proof.
  intros Hd Hok Hr Hat. unfold parse_variable_length. rewrite kind_flags_read. cbn [try_].
  destruct (child_read _ _ _ _ Hr Hd Hat) as [(r & -> & Hc) _]. cbn [mbind outcome_bind]. rewrite Hc, and_then_ok.
  destruct kind as [e|[p c b]]; [done|]. cbn [base_type vls_padding vls_charset vls_base_type] in *.
  unfold VariableLengthStringType.with_base_type. destruct (element_sized _ Hok) as [s ->]. done.
Qed.

Lemma array_read base dims data rest :
  let dt := Array base dims in
  zlen data ≤ USIZE_MAX → dt_ok dt = true → dt_fits w dt = true → reads base →
  bytes_at data 8 (([zlen dims] ++ dims_bytes dims ++ dt_bytes w base) ++ rest) →
  parse_array parse_child data 8 (dt_version dt)
  = ok (dt, 8 + zlen ([zlen dims] ++ dims_bytes dims ++ dt_bytes w base)).
Proof.
  intros dt Hd Hok Hfits Hr Hat. pose proof (container_version dt) as Hv. cbn [dt_ok dt_fits dt] in Hok, Hfits.
  rewrite !andb_true_iff in Hok. rewrite !andb_true_iff in Hfits. destruct Hok as (_ & Hb & Hm), Hfits as [[Hn _] _].
  rewrite <- !app_assoc in Hat. unfold parse_array.
  replace (dt_version dt =? DATATYPE_VERSION_TWO) with false by (subst dt; cbv iota in Hv; by destruct Hv as [-> | ->]).
  replace (version_three_to_five (dt_version dt)) with true by (subst dt; cbv iota in Hv; by destruct Hv as [-> | ->]).
  rewrite (ensure_len_at _ _ _ _ 1 Hd Hat) by done. cbn [try_]. cbn [app] in Hat.
  destruct (index_next _ _ _ _ Hat) as [-> Hat1]. cbn [mbind outcome_bind].
  rewrite (ensure_len_at _ _ _ _ (zlen dims * 4) Hd Hat1) by (rewrite zlen_dims_bytes; lia). cbn [try_].
  replace (Z.to_nat (zlen dims)) with (length dims) by (unfold zlen; lia).
  destruct (dimensions_read data _ _ _ Hm Hat1) as [-> Hat2]. cbn [mbind outcome_bind].
  destruct (child_read _ _ _ _ Hr Hd Hat2) as [(r & -> & Hc) _]. cbn [mbind outcome_bind]. rewrite Hc, and_then_ok.
  cbv beta iota. rewrite !zlen_app, zlen_dims_bytes. change (zlen [zlen dims]) with 1. do 2 f_equal. lia.
Qed.

Lemma opaque_read size tag data rest :
  tag_fits tag = true → zlen data ≤ USIZE_MAX → bytes_at data 8 (tag_bytes tag ++ rest) →
  parse_opaque data 8 (tag_len tag) 0 0 size = ok (Opaque size tag, 8 + zlen (tag_bytes tag)).
Proof.
  intros Ht Hd Hat. unfold parse_opaque. change (negb (le_value [0; 0] =? 0)) with false. cbv iota zeta.
  rewrite (slice_from_at _ _ _ Hat). cbn [mbind outcome_bind]. rewrite (opaque_tag_read data Hd tag 8 rest Ht Hat), and_then_ok.
  cbn [tag_logical tag_encoded_len]. by rewrite zlen_tag_bytes.
Qed.

(** The branch of the class a datatype is stored with. *)
Ltac pick_class :=
  unfold parse_class;
  repeat match goal with
    | |- (if ?c then _ else _) = _ =>
      let v := eval vm_compute in c in
      match v with true => change c with true | false => change c with false end; cbv iota
    end.

Lemma read_class dt data rest :
  let f := dt_flags dt in
  dt_ok dt = true → dt_fits w dt = true → Forall reads (parts dt) → zlen data ≤ USIZE_MAX →
  data = dt_bytes w dt ++ rest →
  parse_class parse_child data (Datatype.class_code dt) (dt_version dt) f.1 f.2 0 (sized w dt)
  = ok (dt, zlen (dt_bytes w dt)).
Proof.
  intros f Hok Hfits Hparts Hd Hdata. pose proof (dt_ok_size dt Hok) as Hsize.
  assert (Hat : bytes_at data 8 (drop 8 (dt_bytes w dt) ++ rest)).
  { rewrite Hdata. rewrite <- (take_drop 8 (dt_bytes w dt)) at 1. rewrite <- app_assoc.
    apply (bytes_at_skip _ _ _ 0 8 (bytes_at_0 _)). by destruct dt. }
  assert (Hl : zlen (dt_bytes w dt) = 8 + zlen (drop 8 (dt_bytes w dt))).
  { rewrite <- (take_drop 8 (dt_bytes w dt)) at 1. rewrite zlen_app. by destruct dt. }
  rewrite Hl. assert (Hok' := Hok). subst f.
  destruct dt as [t|t|t|size padding charset|t|size tag|size members|size kind|size base members|kind|base dims|t];
    cbn [dt_ok] in Hok; apply andb_true_iff in Hok as [_ Hok]; cbn [Datatype.class_code]; pick_class;
    cbn [parts] in Hparts.
  - by apply (parse_fixed_written data Hd t 8 rest).
  - by apply (parse_float_written data Hd t 8 rest).
  - by apply (parse_time_written data Hd t 8 rest).
  - unfold parse_string. cbn [dt_flags fst]. destruct (string_code_read padding charset) as [-> ->]. done.
  - by apply (parse_bits_written data Hd t 8 rest).
  - by apply (opaque_read size tag data rest).
  - by apply (compound_read size members data rest).
  - unfold parse_reference. cbn [dt_flags fst]. by destruct kind.
  - apply Forall_inv in Hparts. by apply (enumeration_read size base members data rest).
  - apply Forall_inv in Hparts. cbn [dt_flags]. 
    transitivity (ok (E := FormatError) (VariableLength kind, 8 + zlen (dt_bytes w (base_type kind))));
      [|by destruct kind as [?|[]]].
    apply (variable_length_read kind data rest); by destruct kind as [?|[]].
  - apply Forall_inv in Hparts. by apply (array_read base dims data rest).
  - apply Forall_inv in Hparts. destruct t as [c s]. cbn [complex_component complex_size Datatype.type_size] in *.
    apply andb_true_iff in Hok as [Hc ->%Z.eqb_eq]. subst data. cbn [dt_flags fst snd dt_version].
    change (sized w _) with (2 * float_size c).
    change (dt_bytes w (Complex (mkComplex c (2 * float_size c))) ++ rest) with
      (head_bytes COMPLEX_CLASS 5 (COMPLEX_HOMOGENEOUS_BIT, 0) (2 * float_size c) ++ float_bytes c ++ rest) in *.
    apply (complex_read c rest); done || lia.
Qed.

Lemma body_written dt rest :
  dt_ok dt = true → dt_fits w dt = true → Forall reads (parts dt) → zlen (dt_bytes w dt ++ rest) ≤ USIZE_MAX →
  parse_body parse_child (dt_bytes w dt ++ rest) = ok (dt, zlen (dt_bytes w dt)).
Proof.
  intros Hok Hfits Hparts Hd. pose proof (read_class dt _ rest Hok Hfits Hparts Hd eq_refl) as Hc.
  assert (Hb : dt_bytes w dt = head_bytes (Datatype.class_code dt) (dt_version dt) (dt_flags dt) (sized w dt) ++ drop 8 (dt_bytes w dt))
    by (by destruct dt).
  remember (zlen (dt_bytes w dt)) as n eqn:En. clear En. remember (drop 8 (dt_bytes w dt)) as tail eqn:Et. clear Et.
  rewrite Hb, <- app_assoc in *. clear Hb. destruct (dt_flags dt) as [f0 f1].
  refine (body_read _ _ _ _ _ _ _ _ _ (version_cases dt) _ Hd Hok Hc); [destruct dt; done|].
  pose proof (sized_fits w dt Hok). unfold fits, U32_MAX in *. lia.
Qed.

End Whole.

(** ** The recursion *)

Lemma dt_parts_ok w dt :
  dt_ok dt = true → dt_fits w dt = true →
  Forall (λ d, dt_ok d = true ∧ dt_fits w d = true ∧ zlen (dt_bytes w d) + 8 ≤ zlen (dt_bytes w dt)) (parts dt).
Proof.
  intros Hok Hfits. pose proof (dt_ok_children dt Hok) as Hch. pose proof (dt_ok_size dt Hok) as Hsize.
  destruct dt as [t|t|t|size padding charset|t|size tag|size members|size kind|size base members|kind|base dims|t];
    cbn [parts children dt_fits] in *; try apply Forall_nil_2.
  - apply andb_true_iff in Hfits as [_ Hfits]. rewrite forallb_forall in Hfits. apply Forall_forall. intros d Hin.
    split; [by apply (proj1 (Forall_forall _ _) Hch)|]. apply list_elem_of_fmap in Hin as (m & -> & Hin). split.
    { apply list_elem_of_In in Hin. specialize (Hfits m Hin). apply andb_true_iff in Hfits. tauto. }
    cbn [dt_bytes]. rewrite zlen_app, zlen_head. apply list_elem_of_split in Hin as (l1 & l2 & ->).
    rewrite fmap_app, fmap_cons, concat_app, concat_cons, !zlen_app.
    repeat match goal with |- context [zlen (concat ?l)] => pose proof (zlen_nonneg (concat l)); generalize dependent (zlen (concat l)); intros end.
    pose proof (zlen_nonneg (member_head (offset_bytes_for_size size) m)). lia.
  - apply Forall_inv in Hch. apply andb_true_iff in Hfits as [_ Hfits]. apply Forall_cons_2; [|apply Forall_nil_2].
    split_and!; [done|done|]. cbn [dt_bytes]. rewrite !zlen_app, zlen_head.
    pose proof (zlen_nonneg (names_bytes members)). pose proof (zlen_nonneg (values_bytes members)). lia.
  - apply Forall_inv in Hch. apply Forall_cons_2; [|apply Forall_nil_2].
    destruct kind as [e|[p c b]]; (split_and!; [done|done|]); cbn [dt_bytes base_type vls_base_type]; rewrite !zlen_app, zlen_head; lia.
  - apply Forall_inv in Hch. rewrite !andb_true_iff in Hfits. apply Forall_cons_2; [|apply Forall_nil_2].
    split_and!; [done|tauto|]. cbn [dt_bytes]. rewrite !zlen_app, zlen_head, zlen_dims_bytes.
    pose proof (zlen_nonneg dims). pose proof (zlen_nonneg [zlen dims]). lia.
  - apply Forall_cons_2; [|apply Forall_nil_2]. cbn [dt_ok] in Hok. rewrite !andb_true_iff in Hok.
    destruct Hok as (_ & Hc & _). split_and!; [|done|done]. cbn [dt_ok Datatype.type_size]. apply andb_true_iff. split; [|done].
    unfold float_ok in Hc. rewrite !andb_true_iff in Hc. tauto.
Qed.

Lemma parse_within_written `{B : Build} w fuel dt rest :
  2 ^ 32 ≤ USIZE_MAX + 1 → dt_ok dt = true → dt_fits w dt = true →
  (length (dt_bytes w dt) < fuel)%nat → zlen (dt_bytes w dt ++ rest) ≤ USIZE_MAX →
  parse_within fuel (dt_bytes w dt ++ rest) = ok (dt, zlen (dt_bytes w dt)).
Proof.
  intros Hwide. revert dt rest. induction fuel as [|fuel IH]; intros dt rest Hok Hfits Hf Hd; [lia|].
  cbn [parse_within]. apply (body_written Hwide w); [done|done| |done].
  apply (Forall_impl _ _ _ (dt_parts_ok w dt Hok Hfits)). intros d (Hok' & Hfits' & Hl) r Hr.
  apply IH; [done|done| |done]. unfold zlen in Hl. lia.
Qed.

(** ** Arbitrary bytes

    On any bytes the parser returns an error or a well-formed datatype and how many of the
    bytes it read; it never indexes past the end, and the fuel is never what stops it. *)

(** What a class parser returns: once the element is not empty, a well-formed datatype. *)
Definition class_ok (dt : Datatype) : Prop :=
  0 ≤ Datatype.type_size dt ≤ U32_MAX ∧ (is_ok (Datatype.element_size dt) = true → dt_ok dt = true).

Lemma dt_ok_class dt : dt_ok dt = true → class_ok dt.
Proof. intros Hok. pose proof (dt_ok_size dt Hok). split; [lia|done]. Qed.

Lemma nonzero_Ok {E} v (e : E) a : ok_or (nonzero v) e = Ok a → a = v ∧ v ≠ 0.
Proof. unfold nonzero. destruct (v =? 0) eqn:E'; [done|]. intros [= <-]. split; [done|lia]. Qed.

Lemma filter_Ok {E} (p : Z → bool) v (e : E) a :
  ok_or (option_filter p (nonzero v)) e = Ok a → a = v ∧ v ≠ 0 ∧ p v = true.
Proof.
  unfold nonzero. destruct (v =? 0) eqn:E'; [done|]. cbn [option_filter]. destruct (p v) eqn:Ep; [|done].
  intros [= <-]. split_and!; [done|lia|done].
Qed.

Lemma class_ok_sized dt :
  (∀ s, Datatype.element_size dt = ok_or (nonzero s) (ZeroSizedDatatype (Datatype.class_code dt)) →
        s = Datatype.type_size dt → 0 < s → dt_ok dt = true) →
  Datatype.element_size dt = ok_or (nonzero (Datatype.type_size dt)) (ZeroSizedDatatype (Datatype.class_code dt)) →
  0 ≤ Datatype.type_size dt ≤ U32_MAX → class_ok dt.
Proof.
  intros H He Hs. split; [done|]. rewrite He. unfold nonzero. destruct (_ =? 0) eqn:E; [done|]. intros _.
  apply (H (Datatype.type_size dt)); [done|done|lia].
Qed.

Lemma fixed_new_ok size order signed off p t :
  fits 4 size → fits 2 off → fits 2 p → FixedPointType.new size order signed off p = Ok t →
  ∀ lo hi, fixed_ok (FixedPointType.with_padding t lo hi) = true.
Proof.
  unfold fits. intros Hs Ho Hp H lo hi. unfold FixedPointType.new in H.
  destruct (ok_or (nonzero size) _) as [s|e] eqn:E1; [|done]. apply nonzero_Ok in E1 as [-> H1]. cbn [result_bind] in H.
  destruct (bool_decide_reflect (order = Vax)) as [|Hv]; [done|].
  destruct (ok_or _ _) as [s|e] eqn:E2; [|done]. apply filter_Ok in E2 as (-> & H2 & H3). cbn [result_bind] in H.
  injection H as <-. unfold fixed_ok, positive_u32, within_bits, order_fixed. cbn.
  rewrite bool_decide_eq_true_2 by done. lia.
Qed.

Lemma time_new_ok size order p t :
  fits 4 size → fits 2 p → TimeType.new size order p = Ok t → time_ok t = true.
Proof.
  unfold fits. intros Hs Hp H. unfold TimeType.new in H.
  destruct (ok_or (nonzero size) _) as [s|e] eqn:E1; [|done]. apply nonzero_Ok in E1 as [-> H1]. cbn [result_bind] in H.
  destruct (bool_decide_reflect (order = Vax)) as [|Hv]; [done|].
  destruct (ok_or _ _) as [s|e] eqn:E2; [|done]. apply filter_Ok in E2 as (-> & H2 & H3). cbn [result_bind] in H.
  injection H as <-. unfold time_ok, positive_u32, within_bits, order_fixed. cbn.
  rewrite bool_decide_eq_true_2 by done. lia.
Qed.

Lemma bits_new_ok size order off p t :
  fits 4 size → fits 2 off → fits 2 p → BitFieldType.new size order off p = Ok t →
  ∀ lo hi, bits_ok (BitFieldType.with_padding t lo hi) = true.
Proof.
  unfold fits. intros Hs Ho Hp H lo hi. unfold BitFieldType.new in H.
  destruct (ok_or (nonzero size) _) as [s|e] eqn:E1; [|done]. apply nonzero_Ok in E1 as [-> H1]. cbn [result_bind] in H.
  destruct (bool_decide_reflect (order = Vax)) as [|Hv]; [done|].
  destruct (ok_or _ _) as [s|e] eqn:E2; [|done]. apply filter_Ok in E2 as (-> & H2 & H3). cbn [result_bind] in H.
  injection H as <-. unfold bits_ok, positive_u32, within_bits, order_fixed. cbn.
  rewrite bool_decide_eq_true_2 by done. lia.
Qed.

Lemma check_fields_Ok lo p fields u :
  FloatingPointLayout.check_fields lo p (lo + p) fields = Ok u → Forall (λ '(_, _, n), 0 ≤ n) fields →
  forallb (λ '(_, location, size), inside lo (lo + p) location size) fields = true.
Proof.
  induction fields as [|[[f location] size] fields IH]; [done|]. cbn [forallb FloatingPointLayout.check_fields].
  destruct (_ || _) eqn:E; [done|]. intros H [Hn Hf]%Forall_cons. rewrite (IH H Hf). unfold inside. lia.
Qed.

Lemma check_pairs_Ok pairs u :
  FloatingPointLayout.check_pairs pairs = Ok u → forallb (λ '((_, a, n), (_, b, m)), apart a n b m) pairs = true.
Proof.
  induction pairs as [|[[[f a] n] [[g b] m]] pairs IH]; [done|]. cbn [forallb FloatingPointLayout.check_pairs].
  destruct (_ && _) eqn:E; [done|]. intros H. rewrite (IH H). unfold apart. lia.
Qed.

Lemma float_new_sound size order norm sl off p el es ml ms eb t :
  fits 4 size → byte sl → fits 2 off → fits 2 p → byte el → byte es → byte ml → byte ms → fits 4 eb →
  FloatingPointType.new size order norm sl off p el es ml ms eb = Ok t →
  ∀ lo hi it, float_ok (FloatingPointType.with_padding t lo hi it) = true.
Proof.
  unfold fits, byte. intros Hs Hsl Ho Hp Hel Hes Hml Hms Heb H lo hi it. unfold FloatingPointType.new in H.
  destruct (ok_or (nonzero size) _) as [s|e] eqn:E1; [|done]. apply nonzero_Ok in E1 as [-> H1]. cbn [result_bind] in H.
  destruct (ok_or _ _) as [s|e] eqn:E2; [|done]. apply filter_Ok in E2 as (-> & H2 & H3). cbn [result_bind] in H.
  unfold FloatingPointLayout.parse in H. destruct (FloatingPointLayout.check_fields _ _ _ _) as [[]|] eqn:E3; [|done].
  apply check_fields_Ok in E3; [|repeat constructor; lia]. cbn [result_bind] in H.
  destruct (FloatingPointLayout.check_pairs _) as [[]|] eqn:E4; [|done]. apply check_pairs_Ok in E4. cbn [result_bind] in H.
  injection H as <-. cbn [forallb] in E3, E4. rewrite !andb_true_iff in E3. rewrite !andb_true_iff in E4.
  unfold float_ok. cbn [FloatingPointType.with_padding float_layout float_size float_bit_offset float_bit_precision
    float_sign_location float_exponent_location float_exponent_size float_mantissa_location float_mantissa_size float_exponent_bias].
  destruct E3 as (-> & -> & -> & _), E4 as (-> & -> & -> & _). rewrite !andb_true_r.
  unfold positive_u32, within_bits. repeat (apply andb_true_iff; split); lia.
Qed.

(** The sizes of an array. *)
Lemma saturating_dims dims s :
  0 ≤ s ≤ U32_MAX → forallb (within_bits 32) dims = true → 0 ≤ fold_left u32_saturating_mul dims s ≤ U32_MAX.
Proof.
  revert s. induction dims as [|d dims IH]; intros s Hs Hd; [done|]. cbn [forallb fold_left] in *.
  apply andb_true_iff in Hd as [Hd Hds]. apply IH; [|done]. unfold u32_saturating_mul, within_bits in *. nia.
Qed.

Lemma class_ok_array base dims :
  dt_ok base = true → forallb (within_bits 32) dims = true → class_ok (Array base dims).
Proof.
  intros Hb Hd. assert (Hs : 0 ≤ Datatype.type_size (Array base dims) ≤ U32_MAX).
  { cbn [Datatype.type_size]. pose proof (dt_ok_size base Hb). pose proof (saturating_dims dims 1 ltac:(done) Hd).
    unfold u32_saturating_mul at 1 3. nia. }
  apply class_ok_sized; [|done|done]. intros s _ -> Hp. cbn [dt_ok]. rewrite Hb, Hd. unfold positive_u32, U32_MAX in *. lia.
Qed.

Lemma class_ok_of dt s :
  Datatype.type_size dt = s → fits 4 s →
  Datatype.element_size dt = ok_or (nonzero s) (ZeroSizedDatatype (Datatype.class_code dt)) →
  (positive_u32 s = true → dt_ok dt = true) → class_ok dt.
Proof.
  intros Ht Hs He Hok. apply class_ok_sized; [|by rewrite Ht|rewrite Ht; unfold fits, U32_MAX in *; lia].
  intros s' _ -> Hp. apply Hok. rewrite Ht in Hp. unfold fits, positive_u32 in *. lia.
Qed.

Section Safety.
Context `{B : Build} (Hwide : 2 ^ 32 ≤ USIZE_MAX + 1).
Context (data : list Z) (Hb : Forall byte data) (Hd : zlen data ≤ USIZE_MAX) (Hmin : 8 ≤ zlen data).

Definition returned : Datatype * Z → Prop := λ '(dt, n), class_ok dt ∧ 8 ≤ n ≤ zlen data.

Lemma fixed_sound bf0 size : fits 4 size → parse_fixed_point data 8 bf0 size ⇝? returned.
Proof.
  intros Hs. unfold parse_fixed_point. apply within_ensure; [done|]. intros Hl.
  apply within_u16; [done|lia|lia|]. intros off Ho. apply within_u16; [done|lia|lia|]. intros p Hp.
  apply within_try. intros t Ht. apply sound_ok. split; [|lia]. apply dt_ok_class. cbn [dt_ok].
  pose proof (fixed_new_ok _ _ _ _ _ _ Hs Ho Hp Ht (has_bit bf0 LOW_PADDING_BIT) (has_bit bf0 HIGH_PADDING_BIT)) as H.
  rewrite H, andb_true_r. unfold fixed_ok in H. rewrite !andb_true_iff in H. cbn [Datatype.type_size]. tauto.
Qed.

Lemma float_sound bf0 bf1 size : fits 4 size → byte bf1 → parse_floating_point data 8 bf0 bf1 size ⇝? returned.
Proof.
  intros Hs H1. unfold parse_floating_point. apply within_ensure; [done|]. intros Hl. apply within_try. intros norm _.
  apply within_u16; [done|lia|lia|]. intros off Ho. apply within_u16; [done|lia|lia|]. intros p Hp.
  apply within_index; [done|lia|lia|]. intros el Hel. apply within_index; [done|lia|lia|]. intros es Hes.
  apply within_index; [done|lia|lia|]. intros ml Hml. apply within_index; [done|lia|lia|]. intros ms Hms.
  apply within_u32; [done|lia|lia|]. intros eb Heb. apply within_try. intros t Ht. apply sound_ok. split; [|lia].
  apply dt_ok_class. cbn [dt_ok].
  pose proof (float_new_sound _ _ _ _ _ _ _ _ _ _ _ _ Hs H1 Ho Hp Hel Hes Hml Hms Heb Ht (has_bit bf0 LOW_PADDING_BIT)
    (has_bit bf0 HIGH_PADDING_BIT) (has_bit bf0 FLOAT_INTERNAL_PADDING_BIT)) as H.
  rewrite H, andb_true_r. unfold float_ok in H. rewrite !andb_true_iff in H. cbn [Datatype.type_size]. tauto.
Qed.

Lemma time_sound bf0 size : fits 4 size → parse_time data 8 bf0 size ⇝? returned.
Proof.
  intros Hs. unfold parse_time. apply within_ensure; [done|]. intros Hl. apply within_u16; [done|lia|lia|]. intros p Hp.
  apply within_try. intros t Ht. apply sound_ok. split; [|lia]. apply dt_ok_class. cbn [dt_ok].
  pose proof (time_new_ok _ _ _ _ Hs Hp Ht) as H. rewrite H, andb_true_r.
  unfold time_ok in H. rewrite !andb_true_iff in H. cbn [Datatype.type_size]. tauto.
Qed.

Lemma bits_sound bf0 size : fits 4 size → parse_bit_field data 8 bf0 size ⇝? returned.
Proof.
  intros Hs. unfold parse_bit_field. apply within_ensure; [done|]. intros Hl.
  apply within_u16; [done|lia|lia|]. intros off Ho. apply within_u16; [done|lia|lia|]. intros p Hp.
  apply within_try. intros t Ht. apply sound_ok. split; [|lia]. apply dt_ok_class. cbn [dt_ok].
  pose proof (bits_new_ok _ _ _ _ _ Hs Ho Hp Ht (has_bit bf0 LOW_PADDING_BIT) (has_bit bf0 HIGH_PADDING_BIT)) as H.
  rewrite H, andb_true_r. unfold bits_ok in H. rewrite !andb_true_iff in H. cbn [Datatype.type_size]. tauto.
Qed.

Lemma string_sound bf0 size : fits 4 size → parse_string 8 bf0 size ⇝? returned.
Proof.
  intros Hs. unfold parse_string. apply within_try. intros p _. apply within_try. intros c _. apply sound_ok. split; [|lia].
  apply (class_ok_of _ size); [done|done|done|]. cbn [dt_ok Datatype.type_size]. by intros ->.
Qed.

Lemma reference_sound bf0 size : fits 4 size → parse_reference 8 bf0 size ⇝? returned.
Proof.
  intros Hs. unfold parse_reference.
  assert (H : ∀ k, (ok (Reference size k, 8) : exec _) ⇝? returned); [|repeat case_match; [apply H|apply H|apply sound_fail]].
  intros k. apply sound_ok. split; [|lia].
  apply (class_ok_of _ size); [done|done|done|]. cbn [dt_ok Datatype.type_size]. by intros ->.
Qed.

Lemma opaque_tag_sound len rest :
  Forall byte rest → zlen rest ≤ USIZE_MAX → byte len →
  OpaqueTagWire.parse len rest ⇝? (λ t, zlen (tag_logical t) ≤ 248 ∧ tag_encoded_len t = len ∧ len ≤ zlen rest).
Proof.
  intros Hr Hrl Hlen. unfold OpaqueTagWire.parse, is_multiple_of, OPAQUE_TAG_ALIGNMENT, byte in *. cbn [Z.eqb].
  destruct (len mod 8 =? 0) eqn:Em; cbn [negb]; [|apply sound_fail]. apply Z.eqb_eq in Em.
  assert (len ≤ 248) by (pose proof (Z.div_mod len 8 ltac:(lia)); lia).
  apply within_ensure; [done|]. intros Hl. apply within_slice; [done|lia|lia|]. intros s Hs Hz.
  destruct (Nat.eqb _ _); [apply sound_ok; cbn; lia|].
  destruct (nul_position s) as [n|] eqn:En; [|apply sound_ok; cbn; lia].
  destruct (nul_position_Some _ _ En) as (t & r & -> & _ & <-). rewrite zlen_app, zlen_cons in Hz.
  pose proof (zlen_nonneg t). pose proof (zlen_nonneg r).
  apply within_slice_from; [done|rewrite zlen_app, zlen_cons; lia|]. intros q Hq Hzq. rewrite zlen_app, zlen_cons in Hzq.
  assert (Hnz : ∀ l o, nonzero_position l = Some o → 0 ≤ o < zlen l).
  { clear. induction l as [|b l IH]; intros o; [done|]. cbn [nonzero_position]. rewrite zlen_cons. pose proof (zlen_nonneg l).
    destruct (negb _); [intros [= <-]; lia|]. destruct (nonzero_position l) as [o'|]; [|done].
    intros [= <-]. specialize (IH o' eq_refl). lia. }
  destruct (nonzero_position q) as [o|] eqn:Eo.
  - apply Hnz in Eo. apply within_index; [done|lia|rewrite zlen_app, zlen_cons; lia|]. intros v _. apply sound_fail.
  - apply within_slice; [done|lia|rewrite zlen_app, zlen_cons; lia|]. intros l _ Hzl. apply sound_ok. cbn. lia.
Qed.

Lemma opaque_sound bf0 bf1 bf2 size :
  fits 4 size → byte bf0 → parse_opaque data 8 bf0 bf1 bf2 size ⇝? returned.
Proof.
  intros Hs H0. unfold parse_opaque. destruct (negb _); [apply sound_fail|].
  apply within_slice_from; [done|lia|]. intros rest Hr Hz.
  eapply sound_bind; [by apply opaque_tag_sound; [done|lia|]|]. intros t (Ht & He & Hl). apply sound_ok. unfold byte in H0. split; [|lia].
  apply (class_ok_of _ size); [done|done|done|]. cbn [dt_ok Datatype.type_size]. intros ->. lia.
Qed.

Lemma string_at_sound pos :
  0 ≤ pos → read_null_terminated_string data pos ⇝? (λ '(name, n), name_ok name = true ∧ 1 ≤ n ∧ pos + n ≤ zlen data).
Proof.
  intros Hp. unfold read_null_terminated_string. destruct (_ <=? _) eqn:E; [apply sound_fail|].
  apply within_slice_from; [done|lia|]. intros r Hr Hz. destruct (nul_position r) as [n|] eqn:En; [|apply sound_fail].
  destruct (nul_position_Some _ _ En) as (t & q & -> & Hn & <-). rewrite zlen_app, zlen_cons in Hz.
  pose proof (zlen_nonneg t). pose proof (zlen_nonneg q). unfold slice. rewrite get_range_prefix. cbn [expect mbind outcome_bind].
  apply sound_ok. split; [|lia]. unfold name_ok. by rewrite from_utf8_lossy_utf8, from_utf8_lossy_nul.
Qed.

Lemma names_sound n pos version :
  0 ≤ pos ≤ zlen data →
  read_names n data pos version ⇝? (λ '(names, q), length names = n ∧ Forall (λ s, name_ok s = true) names ∧ pos ≤ q ∧ (n = O → q ≤ zlen data)).
Proof.
  revert pos. assert (H : ∀ pos, 0 ≤ pos → read_names n data pos version ⇝?
    (λ '(names, q), length names = n ∧ Forall (λ s, name_ok s = true) names ∧ pos ≤ q ∧ (n = O → q = pos))).
  { induction n as [|n IH]; intros pos Hp; cbn [read_names]; [by apply sound_ok|].
    eapply sound_bind; [by apply string_at_sound|]. intros [name len] (Hn & Hl & _). cbv zeta.
    assert (0 ≤ padded_name len) by (unfold padded_name; apply Z.ldiff_nonneg; left; lia).
    eapply sound_bind; [apply IH; destruct (_ <? _); lia|]. intros [names q] (Hl' & Hns & Hq & _). apply sound_ok.
    assert (pos ≤ q) by (destruct (_ <? _); lia).
    split_and!; [simpl; lia|by constructor|lia|done]. }
  intros pos Hp. apply (sound_mono _ _ _ (H pos ltac:(lia))). intros [names q] (? & ? & ? & Hz). split_and!; [done|done|done|].
  intros E. rewrite (Hz E). lia.
Qed.

Lemma values_sound names pos size :
  0 ≤ pos → 0 < size ≤ U32_MAX → Forall (λ s, name_ok s = true) names → (names = [] → pos ≤ zlen data) →
  Datatypes.read_values names data pos size ⇝? (λ '(ms, q), forallb (enum_ok size) ms = true ∧ pos ≤ q ≤ zlen data).
Proof.
  intros Hp Hs Hn. revert pos Hp. induction Hn as [|name names Hn1 Hn IH]; intros pos Hp He; cbn [Datatypes.read_values].
  - apply sound_ok. specialize (He eq_refl). split; [done|lia].
  - replace (as_usize size) with size by (unfold as_usize; rewrite Z.mod_small; [done|unfold U32_MAX in Hs; lia]).
    apply within_ensure; [done|]. intros Hl. apply within_slice; [done|lia|lia|]. intros v _ Hv.
    eapply sound_bind; [apply (IH (pos + size)); lia|]. intros [ms q] [Hms Hq]. apply sound_ok. split; [|lia].
    cbn [forallb]. rewrite Hms. unfold enum_ok. cbn [enum_name enum_value]. rewrite Hn1. lia.
Qed.

Lemma dims_sound n pos :
  0 ≤ pos → pos + 4 * Z.of_nat n ≤ zlen data →
  ∃ dims, read_dimensions n data pos = Ret (dims, pos + 4 * Z.of_nat n) ∧ forallb (within_bits 32) dims = true.
Proof.
  revert pos. induction n as [|n IH]; intros pos Hp Hl; cbn [read_dimensions].
  - exists []. replace (pos + 4 * Z.of_nat 0) with pos by lia. done.
  - assert (H4 : pos + Z.of_nat 4 ≤ zlen data) by lia.
    destruct (word_within data pos 4 Hb Hp H4) as (v & Hr & Hv). unfold u32_at. rewrite Hr. cbn [mbind outcome_bind].
    destruct (IH (pos + 4) ltac:(lia) ltac:(lia)) as (dims & Hdims & Hok). unfold u32_at in Hdims. rewrite Hdims. cbn [mbind outcome_bind].
    exists (v :: dims). cbn [forallb]. rewrite Hok. split; [do 2 f_equal; lia|]. unfold within_bits, fits in *. lia.
Qed.

(** ** The classes that hold datatypes *)

Context (parse_child : list Z → exec (Datatype * Z)).
Context (Hchild : ∀ d, Forall byte d → zlen d + 8 ≤ zlen data →
                       parse_child d ⇝? (λ '(dt, n), dt_ok dt = true ∧ 8 ≤ n ≤ zlen d)).

Lemma child_sound {T} pos (k : Datatype * Z → exec T) Q :
  8 ≤ pos ≤ zlen data → (∀ dt n, dt_ok dt = true → 8 ≤ n → pos + n ≤ zlen data → k (dt, n) ⇝? Q) →
  (rest ← slice_from data pos; and_then (parse_child rest) k) ⇝? Q.
Proof.
  intros Hp Hk. apply within_slice_from; [done|lia|]. intros s Hs Hz.
  eapply sound_bind; [apply Hchild; [done|lia]|]. intros [dt n] (Hok & Hn). apply Hk; [done|lia|lia].
Qed.

Definition member_ok (m : CompoundMember) : bool :=
  name_ok (member_name m) && within_bits 64 (member_offset m) && dt_ok (member_datatype m).

Lemma uint_sound pos ob : 0 ≤ pos → 1 ≤ ob ≤ 4 → Datatypes.read_uint data pos ob ⇝? (λ v, within_bits 64 v = true ∧ pos + ob ≤ zlen data).
Proof.
  intros Hp Ho. unfold Datatypes.read_uint. apply within_ensure; [done|]. intros Hl. apply within_slice; [done|lia|lia|].
  intros s Hs Hz. replace (_ || _) with true by lia. apply sound_ok. split; [|done].
  pose proof (le_value_bounds s Hs) as H. rewrite Hz in H. unfold within_bits.
  pose proof (Z.pow_le_mono_r 256 (pos + ob - pos) 4 ltac:(lia) ltac:(lia)). lia.
Qed.

Lemma members_sound n pos ob :
  8 ≤ pos ≤ zlen data → 1 ≤ ob ≤ 4 →
  parse_members parse_child n data pos ob ⇝? (λ '(ms, q), forallb member_ok ms = true ∧ pos ≤ q ≤ zlen data).
Proof.
  intros Hp Ho. revert pos Hp. induction n as [|n IH]; intros pos Hp; cbn [parse_members]; [apply sound_ok; split; [done|lia]|].
  eapply sound_bind; [apply string_at_sound; lia|]. intros [name len] (Hn & Hl & Hle). cbv zeta.
  eapply sound_bind; [apply uint_sound; lia|]. intros off (Hoff & Hle2). apply child_sound; [lia|]. intros dt m Hok Hm Hle3.
  eapply sound_bind; [apply IH; lia|]. intros [ms q] [Hms Hq]. apply sound_ok. split; [|lia].
  cbn [forallb]. rewrite Hms. unfold member_ok. cbn. by rewrite Hn, Hoff, Hok.
Qed.

Lemma extent_sound block i :
  Forall byte block → zlen block = 28 → 0 ≤ i < 4 →
  MemberShape.extent block i ⇝? (λ v, within_bits 32 v = true ∧ 0 < v).
Proof.
  intros Hbl Hz Hi. unfold MemberShape.extent, MemberShape.DIMENSION_SIZES_OFFSET. apply within_u32; [done|lia|lia|]. intros v Hv.
  unfold nonzero, within_bits, fits in *. destruct (v =? 0) eqn:E; [apply sound_fail|apply sound_ok]. lia.
Qed.

Lemma shape_sound pos :
  0 ≤ pos → MemberShape.parse data pos ⇝?
    (λ '(s, n), n = 28 ∧ pos + n ≤ zlen data ∧
       match MemberShape.dimensions s with Some e => forallb (λ v, within_bits 32 v && (0 <? v)) e = true | None => True end).
Proof.
  intros Hp. unfold MemberShape.parse, MemberShape.DIMENSION_BLOCK_SIZE. apply within_ensure; [done|]. intros Hl.
  apply within_slice; [done|lia|lia|]. intros b Hbb Hz. apply within_index; [done|lia|lia|]. intros rank Hr.
  destruct (_ <? rank); [apply sound_fail|]. apply within_u32; [done|lia|lia|]. intros perm _.
  destruct (negb _); [apply sound_fail|].
  eapply (sound_bind _ _ (λ s, match MemberShape.dimensions s with Some e => forallb (λ v, within_bits 32 v && (0 <? v)) e = true | None => True end)).
  2:{ intros s Hs. apply sound_ok. split_and!; [done|lia|done]. }
  assert (He : ∀ i, 0 ≤ i < 4 → MemberShape.extent b i ⇝? (λ v, within_bits 32 v && (0 <? v) = true)).
  { intros i Hi. apply (sound_mono _ _ _ (extent_sound b i Hbb ltac:(lia) Hi)). intros v [H1 H2]. rewrite H1. lia. }
  repeat (case_match; [repeat (eapply sound_bind; [apply He; lia|]; cbv beta; intros ? ?); apply sound_ok;
    cbn [MemberShape.dimensions forallb]; by repeat match goal with H : (_ && _) = true |- _ => rewrite H; clear H end|]).
  apply sound_fail.
Qed.

Lemma into_datatype_ok s base name off size dt :
  match MemberShape.dimensions s with Some e => forallb (λ v, within_bits 32 v && (0 <? v)) e = true | None => True end →
  dt_ok base = true → MemberShape.into_datatype s base name off size = Ok dt → dt_ok dt = true.
Proof.
  intros He Hbase H. unfold MemberShape.into_datatype in H. destruct (MemberShape.checked_size base); [|done]. cbn [result_bind] in H.
  destruct (MemberShape.multiply_sizes _ _); [|done]. cbn [result_bind] in H.
  destruct (match checked_add _ _ with None => true | _ => _ end); [done|]. injection H as <-.
  destruct (MemberShape.dimensions s) as [e|]; [|done]. rewrite forallb_forall in He.
  assert (H1 : forallb (within_bits 32) e = true) by (apply forallb_forall; intros v Hv; specialize (He v Hv); lia).
  assert (H2 : ∀ e s, (∀ v, In v e → 0 < v) → 0 < s ≤ U32_MAX → 0 < fold_left u32_saturating_mul e s ≤ U32_MAX).
  { clear. induction e as [|d e IH]; intros s Hv Hs; [done|]. cbn [fold_left]. apply IH; [intros v Hin; apply Hv; by right|].
    specialize (Hv d ltac:(by left)). unfold u32_saturating_mul. unfold U32_MAX in *. nia. }
  specialize (H2 e 1 ltac:(intros v Hv; specialize (He v Hv); lia) ltac:(done)). pose proof (dt_ok_size base Hbase).
  apply (class_ok_array base e Hbase H1). unfold Datatype.element_size, nonzero.
  replace (_ =? 0) with false; [done|]. symmetry. apply Z.eqb_neq. cbn [Datatype.type_size]. unfold u32_saturating_mul at 1. unfold U32_MAX in *. nia.
Qed.

Lemma padded_members_sound n pos version size :
  8 ≤ pos ≤ zlen data →
  parse_padded_members parse_child n data pos version size ⇝? (λ '(ms, q), forallb member_ok ms = true ∧ pos ≤ q ≤ zlen data).
Proof.
  revert pos. induction n as [|n IH]; intros pos Hp; cbn [parse_padded_members]; [apply sound_ok; split; [done|lia]|].
  eapply sound_bind; [apply string_at_sound; lia|]. intros [name len] (Hn & Hl & _). cbv zeta.
  assert (0 ≤ padded_name len) by (unfold padded_name; apply Z.ldiff_nonneg; left; lia).
  apply within_ensure; [done|]. intros Hle. apply within_u32; [done|lia|lia|]. intros off Hoff.
  eapply (sound_bind _ _ (λ '(s, q), pos ≤ q ≤ zlen data ∧ match s with
    | Some s => match MemberShape.dimensions s with Some e => forallb (λ v, within_bits 32 v && (0 <? v)) e = true | None => True end
    | None => True end)).
  { destruct (_ =? _); [|apply sound_ok; split; [lia|done]]. eapply sound_bind; [apply shape_sound; lia|].
    intros [s m] (-> & Hm & Hs). apply sound_ok. split; [lia|done]. }
  intros [s q] [Hq Hs]. apply child_sound; [lia|]. intros dt m Hok Hm Hle3. apply within_try. intros dt' Hdt'.
  assert (Hok' : dt_ok dt' = true).
  { destruct s as [s|]; [by apply (into_datatype_ok s dt name off size dt')|by injection Hdt' as <-]. }
  eapply sound_bind; [apply IH; lia|]. intros [ms q'] [Hms Hq']. apply sound_ok. split; [|lia].
  cbn [forallb]. rewrite Hms. unfold member_ok. cbn. rewrite Hn, Hok'. unfold within_bits, fits in *. lia.
Qed.

Lemma compound_sound version bf0 bf1 size : fits 4 size → parse_compound parse_child data 8 version bf0 bf1 size ⇝? returned.
Proof.
  intros Hs. unfold parse_compound.
  eapply (sound_bind _ _ (λ '(ms, q), forallb member_ok ms = true ∧ 8 ≤ q ≤ zlen data)).
  { destruct (version_three_to_five _); [apply members_sound; [lia|apply offset_bytes_bounds]|].
    destruct (_ || _); [apply padded_members_sound; lia|apply sound_fail]. }
  intros [ms q] [Hms Hq]. apply sound_ok. split; [|done].
  apply (class_ok_of _ size); [done|done|done|]. cbn [dt_ok Datatype.type_size]. intros ->. exact Hms.
Qed.

Lemma enumeration_sound version bf0 bf1 size : fits 4 size → parse_enumeration parse_child data 8 version bf0 bf1 size ⇝? returned.
Proof.
  intros Hs. unfold parse_enumeration. apply child_sound; [lia|]. intros base n Hok Hn Hle. cbv zeta.
  eapply sound_bind; [apply names_sound; lia|]. intros [names q] (Hl & Hns & Hq & Hz).
  eapply sound_bind; [apply values_sound; [lia|by apply dt_ok_size|done|]|].
  { intros ->. apply Hz. by rewrite <- Hl. }
  intros [ms q'] [Hms Hq']. apply sound_ok. split; [|lia].
  apply (class_ok_of _ size); [done|done|done|]. cbn [dt_ok Datatype.type_size]. intros ->. by rewrite Hok, Hms.
Qed.

Lemma variable_length_sound bf0 bf1 bf2 : parse_variable_length parse_child data 8 bf0 bf1 bf2 ⇝? returned.
Proof.
  unfold parse_variable_length. apply within_try. intros kind _. apply child_sound; [lia|]. intros base n Hok Hn Hle. cbv zeta.
  apply within_try. intros k Hk. apply sound_ok. split; [|lia]. apply dt_ok_class. cbn [dt_ok Datatype.type_size].
  destruct kind as [|p c]; [by injection Hk as <-|].
  unfold VariableLengthStringType.with_base_type in Hk. destruct (Datatype.element_size base); [|done]. by injection Hk as <-.
Qed.

Lemma array_class_sound version : parse_array parse_child data 8 version ⇝? returned.
Proof.
  unfold parse_array. destruct (_ =? _); [|destruct (version_three_to_five _); [|apply sound_fail]].
  all: apply within_ensure; [done|]; intros Hl; apply within_index; [done|lia|lia|]; intros n Hn; unfold byte in Hn; cbv zeta.
  all: apply within_ensure; [done|]; intros Hl'.
  - destruct (dims_sound (Z.to_nat n) (8 + 4)) as (dims & -> & Hdims); [lia|lia|]. cbn [mbind outcome_bind].
    rewrite Z2Nat.id by lia. apply child_sound; [lia|]. intros base m Hok Hm Hle. apply sound_ok. split; [by apply class_ok_array|lia].
  - destruct (dims_sound (Z.to_nat n) (8 + 1)) as (dims & -> & Hdims); [lia|lia|]. cbn [mbind outcome_bind].
    rewrite Z2Nat.id by lia. apply child_sound; [lia|]. intros base m Hok Hm Hle. apply sound_ok. split; [by apply class_ok_array|lia].
Qed.

Lemma complex_sound version f0 f1 f2 size : parse_complex parse_child data version f0 f1 f2 size ⇝? returned.
Proof.
  unfold parse_complex, DATATYPE_HEADER_SIZE. destruct (negb _); [apply sound_fail|]. cbv zeta.
  destruct (has_bit _ _); [apply sound_fail|]. destruct (_ || _); [apply sound_fail|].
  apply within_ensure; [done|]. intros Hl. apply within_slice_from; [done|lia|]. intros parent Hpb Hpz.
  apply within_index; [done|lia|lia|]. intros p0 _. destruct (negb _); [apply sound_fail|].
  destruct (negb _); [apply sound_fail|]. apply within_index; [done|lia|lia|]. intros p1 _.
  apply within_index; [done|lia|lia|]. intros p2 _. apply within_index; [done|lia|lia|]. intros p3 _.
  destruct (_ || _); [apply sound_fail|]. eapply sound_bind; [apply Hchild; [done|lia]|]. intros [dt n] (Hok & Hn).
  apply within_ensure; [done|]. intros Hle. destruct dt as [|c| | | | | | | | | |]; try apply sound_fail.
  apply within_try. intros complex Hc. destruct (negb _) eqn:Es; [apply sound_fail|]. apply sound_ok. split; [|lia].
  unfold ComplexType.new, u32_checked_mul in Hc. destruct (_ <=? U32_MAX) eqn:Eu; [|done]. cbn [mbind option_bind] in Hc.
  destruct (ok_or _ _) as [v|] eqn:En; [|done]. apply nonzero_Ok in En as [-> Hnz]. injection Hc as <-.
  apply dt_ok_class. cbn [dt_ok Datatype.type_size complex_size complex_component].
  cbn [dt_ok Datatype.type_size] in Hok. apply andb_true_iff in Hok as [Hp ->]. unfold positive_u32, U32_MAX in *. lia.
Qed.

Lemma class_sound class version bf0 bf1 bf2 size :
  fits 4 size → byte bf0 → byte bf1 → parse_class parse_child data class version bf0 bf1 bf2 size ⇝? returned.
Proof.
  intros Hs H0 H1. unfold parse_class.
  repeat (case_match; [eauto using fixed_sound, float_sound, time_sound, string_sound, bits_sound, opaque_sound,
    compound_sound, reference_sound, enumeration_sound, variable_length_sound, array_class_sound, complex_sound|]).
  apply sound_fail.
Qed.

End Safety.

Lemma within_sound `{B : Build} fuel data :
  2 ^ 32 ≤ USIZE_MAX + 1 → Forall byte data → zlen data ≤ USIZE_MAX → (length data < fuel)%nat →
  parse_within fuel data ⇝? (λ '(dt, n), dt_ok dt = true ∧ 8 ≤ n ≤ zlen data).
Proof.
  intros Hwide. revert data. induction fuel as [|fuel IH]; intros data Hb Hd Hf; [lia|]. cbn [parse_within]. unfold parse_body.
  apply within_ensure; [done|]. intros Hl. apply within_index; [done|lia|lia|]. intros c _.
  apply within_index; [done|lia|lia|]. intros bf0 H0. apply within_index; [done|lia|lia|]. intros bf1 H1.
  apply within_index; [done|lia|lia|]. intros bf2 H2. apply within_u32; [done|lia|lia|]. intros size Hs.
  eapply sound_bind.
  { apply (class_sound Hwide data Hb Hd ltac:(lia)); [|done..]. intros d Hdb Hdl. apply IH; [done|lia|unfold zlen in Hdl; lia]. }
  intros [dt n] [[_ Hok] Hn]. apply within_try. intros s He. apply sound_ok. rewrite He in Hok. auto.
Qed.
