(* ===== verification/ObjectHeaders.v ===== *)
(** * Object headers

    Models [crates/hdf5-pure-format/src/object_header/] (mod.rs, v1.rs, v2/mod.rs,
    v2/chunk.rs, v2/collector.rs, v2/worklist.rs, v2/splice.rs, observation/mod.rs), with
    [message_flags.rs], [access_mode.rs], [metadata_source.rs] and the message types of
    [hdf5-pure-core].  A header is read from a buffer or through a source of metadata; its
    continuations are followed depth-first in version 1 and breadth-first in version 2.  A
    filter is a function of the type and the body of a message, and an observer the list of
    the chunks it was called with. *)

From stdpp Require Import strings.
From S2P Require Import Prelude Addresses Words ByteFields ByteFieldFacts Checksums FileRegions.

Local Open Scope Z_scope.

(** ** Message types and flags *)

(** A [MessageType] is its [u16]. *)
Module MessageType.

Definition NIL : Z := 0x0000.
Definition DATASPACE : Z := 0x0001.
Definition LINK_INFO : Z := 0x0002.
Definition DATATYPE : Z := 0x0003.
Definition FILL_VALUE_OLD : Z := 0x0004.
Definition FILL_VALUE : Z := 0x0005.
Definition LINK : Z := 0x0006.
Definition EXTERNAL_DATA_FILES : Z := 0x0007.
Definition DATA_LAYOUT : Z := 0x0008.
Definition GROUP_INFO : Z := 0x000A.
Definition FILTER_PIPELINE : Z := 0x000B.
Definition ATTRIBUTE : Z := 0x000C.
Definition SHARED_MESSAGE_TABLE : Z := 0x000F.
Definition OBJECT_HEADER_CONTINUATION : Z := 0x0010.
Definition SYMBOL_TABLE : Z := 0x0011.
Definition OBJECT_MODIFICATION_TIME : Z := 0x0012.
Definition B_TREE_K_VALUES : Z := 0x0013.
Definition ATTRIBUTE_INFO : Z := 0x0015.
Definition OBJECT_REFERENCE_COUNT : Z := 0x0016.
Definition FILE_SPACE_INFO : Z := 0x0017.

Definition is_known (self : Z) : bool :=
  existsb (Z.eqb self)
    [NIL; DATASPACE; LINK_INFO; DATATYPE; FILL_VALUE_OLD; FILL_VALUE; LINK; EXTERNAL_DATA_FILES;
     DATA_LAYOUT; GROUP_INFO; FILTER_PIPELINE; ATTRIBUTE; SHARED_MESSAGE_TABLE;
     OBJECT_HEADER_CONTINUATION; SYMBOL_TABLE; OBJECT_MODIFICATION_TIME; B_TREE_K_VALUES;
     ATTRIBUTE_INFO; OBJECT_REFERENCE_COUNT; FILE_SPACE_INFO].

Definition unknown_id (self : Z) : option Z := if is_known self then None else Some self.

End MessageType.

Inductive AccessMode : Type := ReadOnly | ReadWrite.

Definition is_read_write (mode : AccessMode) : bool :=
  match mode with ReadWrite => true | ReadOnly => false end.

(** A [MessageFlags] is its byte. *)
Module MessageFlags.

Definition NONE : Z := 0x00.
Definition SHARED : Z := 0x02.
Definition FAIL_IF_UNKNOWN_AND_OPEN_FOR_WRITE : Z := 0x08.
Definition FAIL_IF_UNKNOWN_ALWAYS : Z := 0x80.

Definition contains (self other : Z) : bool := Z.land self other =? other.

Definition is_shared (self : Z) : bool := contains self SHARED.

Definition must_be_understood (self : Z) (access_mode : AccessMode) : bool :=
  contains self FAIL_IF_UNKNOWN_ALWAYS
  || (contains self FAIL_IF_UNKNOWN_AND_OPEN_FOR_WRITE && is_read_write access_mode).

End MessageFlags.

Inductive MessageFilter : Type :=
| All
| Only (f : Z → list Z → bool).

Module MessageFilter.

Definition keeps (self : MessageFilter) (msg_type : Z) (data : list Z) : bool :=
  match self with All => true | Only f => f msg_type data end.

Definition keeps_all (self : MessageFilter) : bool :=
  match self with All => true | Only _ => false end.

End MessageFilter.

(** ** Headers *)

Record MessageRecordLayout : Type := mkLayout { tracked : bool; indexed : bool }.

Record ObjectTimes : Type := mkTimes { access : Z; modification : Z; change : Z; birth : Z }.

Record AttributePhaseChange : Type := mkPhase { attr_max_compact : Z; attr_min_dense : Z }.

Record ObjectHeaderPrefix : Type := mkHeaderPrefix {
  layout : MessageRecordLayout;
  times : option ObjectTimes;
  attribute_phase_change : option AttributePhaseChange;
}.

Record HeaderMessage : Type := mkMessage {
  msg_type : Z;
  msg_size : Z;
  msg_flags : Z;
  creation_order : option Z;
  msg_data : list Z;
}.

Record ObjectHeader : Type := mkHeader {
  oh_version : Z;
  oh_prefix : option ObjectHeaderPrefix;
  oh_messages : list HeaderMessage;
  oh_reference_count : option Z;
  oh_flags : Z;
  oh_access_time : option Z;
  oh_modification_time : option Z;
  oh_change_time : option Z;
  oh_birth_time : option Z;
}.

Record ParseContext : Type := mkContext {
  access_mode : AccessMode;
  ctx_widths : FormatWidths;
  base_address : Z;
}.

Record ObjectHeaderChunk : Type := mkChunk {
  allocation : FileRange;
  chunk_records : FileRegion;
  v2_layout : option MessageRecordLayout;
}.

(** [MetadataSource]: reads of a range, and the length of the file *)
Record MetadataSource : Type := mkSource {
  read_metadata : Z → Z → exec (list Z);
  metadata_len : Z;
}.

(** The chunks an observer was called with, if there is one. *)
Notation Observer := (option (list ObjectHeaderChunk)).

Definition OHDR_SIGNATURE : list Z := [79; 72; 68; 82].
Definition OCHK_SIGNATURE : list Z := [79; 67; 72; 75].

Section Headers.
Context `{B : Build}.

Definition chunk_new (allocation : FileRange) (records : FileRegion)
    (v2_layout : option MessageRecordLayout) : outcome ObjectHeaderChunk :=
  _ ← debug_assert (FileRange.contains allocation (region_range records));
  Ret (mkChunk allocation records v2_layout).

(** [metadata_source::region] *)
Definition region (bytes : list Z) (offset len : Z) : result (list Z) FormatError :=
  result_bind (ok_or (checked_add offset len) (OffsetOverflow offset len)) (λ end_,
  if zlen bytes <? end_ then Err (UnexpectedSourceEof end_ (zlen bytes))
  else
    result_bind (to_usize offset) (λ start,
    result_bind (to_usize end_) (λ end',
    ok_or (get_range bytes start end') (UnexpectedSourceEof end_ (zlen bytes))))).

Definition slice_metadata (bytes : list Z) : MetadataSource :=
  mkSource (λ offset len, Ret (region bytes offset len)) (zlen bytes).

End Headers.

(** ** Version 1 *)

Module V1.
Section Parser.
Context `{B : Build}.

Definition MESSAGE_PREFIX_LEN : Z := 8.
Definition MAX_V1_CONTINUATION_DEPTH : Z := 32.
Definition MAX_V1_CONTINUATION_VISITS : Z := 256.
Definition UNPADDED_HEADER_PREFIX_LEN : Z := 12.
Definition ALIGNED_HEADER_PREFIX_LEN : Z := 16.

Record MessageRecord : Type := mkRecord { rec_type : Z; rec_flags : Z; rec_body : list Z }.

Definition parse_message_record (data : list Z) (mode : AccessMode) : exec (option (MessageRecord * Z)) :=
  if zlen data <? MESSAGE_PREFIX_LEN then ok None
  else
    kind ← u16_at data 0;
    body_len ← u16_at data 2;
    flags ← index data 4;
    try_ (ensure_len data MESSAGE_PREFIX_LEN body_len) (λ _,
    if negb (body_len mod 8 =? 0) then fail (InvalidObjectHeaderMessageSize body_len)
    else
      let record_len := MESSAGE_PREFIX_LEN + body_len in
      let parsed :=
        body ← slice data MESSAGE_PREFIX_LEN record_len;
        ok (Some (mkRecord kind flags body, record_len)) in
      match MessageType.unknown_id kind with
      | Some id => if MessageFlags.must_be_understood flags mode then fail (UnsupportedMessage id) else parsed
      | None => parsed
      end).

(** The collector's visits, the messages it kept, and the observer. *)
Record Collector : Type := mkCollector {
  visits : Z;
  messages : list HeaderMessage;
  observed : Observer;
}.

Record ContinuationVisit : Type := mkVisit { visit_range : FileRange; visit_depth : Z }.

Definition keep (filter : MessageFilter) (self : Collector) (record : MessageRecord) : Collector :=
  if negb (rec_type record =? MessageType.NIL)
     && MessageFilter.keeps filter (rec_type record) (rec_body record)
  then mkCollector (visits self)
         (messages self ++ [mkMessage (rec_type record) (zlen (rec_body record)) (rec_flags record)
                              None (rec_body record)])
         (observed self)
  else self.

(** [Traversal::admit] *)
Definition admit_visit (ctx : ParseContext) (self : Collector) (data : list Z) (parent_depth : Z)
    : exec (option ContinuationVisit * Collector) :=
  let ws := ctx_widths ctx in
  if zlen data <? OffsetWidth.get (offsets ws) + LengthWidth.get (lengths ws) then ok (None, self)
  else
    address ←? decode_stored_address (offsets ws) data 0;
    length ←? read_length_width data (OffsetWidth.get (offsets ws)) (lengths ws);
    match address with
    | Undefined => fail UndefinedContinuationAddress
    | Defined address =>
      if (MAX_V1_CONTINUATION_DEPTH <=? parent_depth) || (MAX_V1_CONTINUATION_VISITS <=? visits self)
      then fail NestingDepthExceeded
      else
        let self := mkCollector (visits self + 1) (messages self) (observed self) in
        try_ (BaseAddress.resolve (base_address ctx) address) (λ start,
        range ←? FileRange.new start length;
        ok (Some (mkVisit range (parent_depth + 1)), self))
    end.

(** The loop over the records of one chunk, [follow] the continuation of a visit. *)
Fixpoint collect_loop (ctx : ParseContext) (filter : MessageFilter)
    (follow : Collector → ContinuationVisit → exec Collector) (fuel : nat) (self : Collector)
    (records : list Z) (max_messages : option Z) (count depth : Z) : exec Collector :=
  match fuel with
  | O => Panic
  | S fuel =>
    if Nat.eqb (length records) 0 || match max_messages with Some max => max <=? count | None => false end
    then ok self
    else
      parsed ←? parse_message_record records (access_mode ctx);
      match parsed with
      | None =>
        match max_messages with
        | None => fail (UnexpectedEof MESSAGE_PREFIX_LEN (zlen records))
        | Some _ => ok self
        end
      | Some (record, record_len) =>
        let self := keep filter self record in
        records ← slice_from records record_len;
        self ←?
          (if rec_type record =? MessageType.OBJECT_HEADER_CONTINUATION then
             '(permit, self) ←? admit_visit ctx self (rec_body record) depth;
             match permit with Some permit => follow self permit | None => ok self end
           else ok self);
        collect_loop ctx filter follow fuel self records max_messages (count + 1) depth
      end
  end.

(** Each level follows one continuation: 33 levels are one more than the depth allowed. *)
Definition levels : nat := 33.

Fixpoint collect_buffered (ctx : ParseContext) (filter : MessageFilter) (data : list Z) (level : nat)
    (self : Collector) (records : list Z) (max_messages : option Z) (depth : Z) : exec Collector :=
  let follow_buffered (self : Collector) (permit : ContinuationVisit) : exec Collector :=
    match level with
    | O => Panic
    | S level =>
      let range := visit_range permit in
      try_ (to_usize (FileRange.start range)) (λ offset,
      try_ (to_usize (FileRange.length range)) (λ length,
      try_ (ensure_len data offset length) (λ _,
      records ← slice data offset (offset + length);
      collect_buffered ctx filter data level self records None (visit_depth permit))))
    end in
  collect_loop ctx filter follow_buffered (S (length records)) self records max_messages 0 depth.

Definition observe_chunk (bytes : list Z) (records allocation : FileRange) (observer : Observer)
    : exec Observer :=
  match observer with
  | Some seen =>
    try_ (FileRegion.new records bytes) (λ region,
    chunk ← chunk_new allocation region None;
    ok (Some (seen ++ [chunk])))
  | None => ok None
  end.

Fixpoint collect_from_source (ctx : ParseContext) (filter : MessageFilter) (source : MetadataSource)
    (level : nat) (self : Collector) (records : list Z) (max_messages : option Z) (depth : Z)
    : exec Collector :=
  let follow_from_source (self : Collector) (permit : ContinuationVisit) : exec Collector :=
    match level with
    | O => Panic
    | S level =>
      let range := visit_range permit in
      try_ (to_usize (FileRange.length range)) (λ len,
      region ←? read_metadata source (FileRange.start range) len;
      observer ←? observe_chunk region range range (observed self);
      collect_from_source ctx filter source level (mkCollector (visits self) (messages self) observer)
        region None (visit_depth permit))
    end in
  collect_loop ctx filter follow_from_source (S (length records)) self records max_messages 0 depth.

Definition header (messages : list HeaderMessage) (reference_count : Z) : ObjectHeader :=
  mkHeader 1 None messages (Some reference_count) 0 None None None None.

Definition parse_v1 (data : list Z) (ctx : ParseContext) (offset : Z) (filter : MessageFilter)
    : exec ObjectHeader :=
  try_ (ensure_len data offset UNPADDED_HEADER_PREFIX_LEN) (λ _,
  version ← index data offset;
  if negb (version =? 1) then fail (InvalidObjectHeaderVersion version)
  else
    num_messages ← u16_at data (offset + 2);
    reference_count ← u32_at data (offset + 4);
    size ← u32_at data (offset + 8);
    try_ (to_usize size) (λ header_data_size,
    try_ (ok_or (usize_checked_add offset (UNPADDED_HEADER_PREFIX_LEN + 4))
            (UnexpectedEof USIZE_MAX (zlen data))) (λ msg_start,
    try_ (ensure_len data msg_start header_data_size) (λ _,
    records ← slice data msg_start (msg_start + header_data_size);
    collector ←? collect_buffered ctx filter data levels (mkCollector 0 [] None) records
                   (Some num_messages) 0;
    ok (header (messages collector) reference_count))))).

Definition parse_v1_from_source (source : MetadataSource) (ctx : ParseContext) (address : Z)
    (filter : MessageFilter) (observer : Observer) : exec (ObjectHeader * Observer) :=
  prefix ←? read_metadata source address UNPADDED_HEADER_PREFIX_LEN;
  version ← index prefix 0;
  if negb (version =? 1) then fail (InvalidObjectHeaderVersion version)
  else
    num_messages ← u16_at prefix 2;
    reference_count ← u32_at prefix 4;
    header_data_size ← u32_at prefix 8;
    try_ (ok_or (checked_add address ALIGNED_HEADER_PREFIX_LEN)
            (OffsetOverflow address ALIGNED_HEADER_PREFIX_LEN)) (λ region_addr,
    try_ (if MessageFilter.keeps_all filter then to_usize (header_data_size / 8) else Ok 0) (λ _,
    records ←? FileRange.new region_addr header_data_size;
    try_ (ok_or (checked_add ALIGNED_HEADER_PREFIX_LEN header_data_size)
            (OffsetOverflow address header_data_size)) (λ allocation_len,
    allocation ←? FileRange.new address allocation_len;
    try_ (to_usize header_data_size) (λ len,
    region ←? read_metadata source region_addr len;
    observer ←? observe_chunk region records allocation observer;
    collector ←? collect_from_source ctx filter source levels (mkCollector 0 [] observer) region
                   (Some num_messages) 0;
    ok (header (messages collector) reference_count, observed collector))))).

End Parser.
End V1.

(** ** Version 2 *)

Definition OH_FLAG_CREATION_ORDER_TRACKED : Z := 0x04.
Definition OH_FLAG_CREATION_ORDER_INDEXED : Z := 0x08.
Definition OH_FLAG_ATTRIBUTE_PHASE_CHANGE : Z := 0x10.
Definition OH_FLAG_STORE_TIMES : Z := 0x20.
Definition OBJECT_HEADER_VERSION : Z := 2.
Definition OBJECT_HEADER_PREFIX_MAX_LEN : Z := 34.
Definition OBJECT_HEADER_MESSAGE_MAX : Z := 65535.
Definition HEADER_CHECKSUM_LEN : Z := 4.
Definition MAX_CONTINUATIONS : Z := 256.

Module ObjectTimes.

Definition LEN : Z := 16.

Definition parse (block : list Z) : ObjectTimes :=
  let field at_ := le_value (take 4 (drop at_ block)) in
  mkTimes (field 0%nat) (field 4%nat) (field 8%nat) (field 12%nat).

Definition to_bytes (self : ObjectTimes) : list Z :=
  le_bytes 4 (access self) ++ le_bytes 4 (modification self) ++ le_bytes 4 (change self)
  ++ le_bytes 4 (birth self).

Definition touched (self : ObjectTimes) (now : Z) : ObjectTimes :=
  mkTimes (access self) now now (birth self).

End ObjectTimes.

Module AttributePhaseChange.

Definition LEN : Z := 4.

Definition parse (block : list Z) : AttributePhaseChange :=
  mkPhase (le_value (take 2 block)) (le_value (take 2 (drop 2 block))).

Definition to_bytes (self : AttributePhaseChange) : list Z :=
  le_bytes 2 (attr_max_compact self) ++ le_bytes 2 (attr_min_dense self).

End AttributePhaseChange.

(** [MessageRecord] of a version 2 header; the range of the body is a pair. *)
Record MessageRecord : Type := mkRecord {
  record_type : Z;
  record_flags : Z;
  record_creation_index : option Z;
  record_body : list Z;
  record_body_range : Z * Z;
}.

Module MessageRecordLayout.
Section Layouts.
Context `{B : Build}.

Definition PLAIN : MessageRecordLayout := mkLayout false false.

Definition from_header_flags (flags : Z) : MessageRecordLayout :=
  mkLayout (negb (Z.land flags OH_FLAG_CREATION_ORDER_TRACKED =? 0))
           (negb (Z.land flags OH_FLAG_CREATION_ORDER_INDEXED =? 0)).

Definition prefix_len (self : MessageRecordLayout) : Z := if tracked self then 6 else 4.

Definition header_flags (self : MessageRecordLayout) : Z :=
  Z.lor (if tracked self then OH_FLAG_CREATION_ORDER_TRACKED else 0)
        (if indexed self then OH_FLAG_CREATION_ORDER_INDEXED else 0).

Definition next_message (self : MessageRecordLayout) (region : list Z) (msg_start : Z)
    : result (option MessageRecord) FormatError :=
  match get_from region msg_start with
  | Some (type_byte :: size_low :: size_high :: flags :: rest) =>
    let indexed :=
      if tracked self then
        match rest with a :: b :: rest => Some (Some (le_value [a; b]), rest) | _ => None end
      else Some (None, rest) in
    match indexed with
    | None => Ok None
    | Some (creation_index, rest) =>
      let body_start := msg_start + prefix_len self in
      let body_len := le_value [size_low; size_high] in
      match get_range rest 0 body_len with
      | None => Err (UnexpectedEof (body_start + body_len) (zlen region))
      | Some body =>
        Ok (Some (mkRecord type_byte flags creation_index body (body_start, body_start + body_len)))
      end
    end
  | _ => Ok None
  end.

Definition creation_index (self : MessageRecordLayout) (region : list Z) (msg_start : Z) : option Z :=
  if tracked self then
    match get_from region (msg_start + 4) with
    | Some (a :: b :: _) => Some (le_value [a; b])
    | _ => None
    end
  else None.

Definition write_record_prefix (self : MessageRecordLayout) (buf : list Z)
    (msg_type flags creation_index body_len : Z) : list Z :=
  buf ++ [msg_type] ++ le_bytes 2 body_len ++ [flags]
  ++ (if tracked self then le_bytes 2 creation_index else []).

Definition write_record (self : MessageRecordLayout) (buf : list Z)
    (msg_type flags creation_index : Z) (body : list Z) : outcome (list Z) :=
  _ ← assert_ (msg_type <=? 255);
  _ ← assert_ (zlen body <=? OBJECT_HEADER_MESSAGE_MAX);
  Ret (write_record_prefix self buf (msg_type mod 256) flags creation_index (zlen body mod 2 ^ 16) ++ body).

Definition record_with_creation_index (self : MessageRecordLayout) (msg_type flags creation_index : Z)
    (body : list Z) : outcome (list Z) :=
  write_record self [] msg_type flags creation_index body.

Definition record (self : MessageRecordLayout) (msg_type : Z) (body : list Z) : outcome (list Z) :=
  record_with_creation_index self msg_type MessageFlags.NONE 0 body.

End Layouts.
End MessageRecordLayout.

Record ParsedObjectHeaderPrefix : Type := mkParsedPrefix {
  parsed_prefix : ObjectHeaderPrefix;
  parsed_flags : Z;
  chunk0_size : Z;
  parsed_len : Z;
}.

Module ObjectHeaderPrefix.
Section Prefixes.
Context `{B : Build}.

Definition with_layout (layout : MessageRecordLayout) : ObjectHeaderPrefix := mkHeaderPrefix layout None None.

Definition PLAIN : ObjectHeaderPrefix := with_layout MessageRecordLayout.PLAIN.

(** The block of [n] bytes, if present, and the position behind it. *)
Definition optional_block (n : Z) (data : list Z) (pos : Z) (present : bool)
    : result (option (list Z) * Z) FormatError :=
  if negb present then Ok (None, pos)
  else
    result_bind
      (ok_or (rest ← get_from data pos; get_range rest 0 n)
         (UnexpectedEof (usize_saturating_add pos n) (zlen data))) (λ block,
    Ok (Some block, pos + n)).

Definition parse (data : list Z) : exec ParsedObjectHeaderPrefix :=
  try_ (ensure_len data 0 6) (λ _,
  signature ← slice data 0 4;
  if negb (bool_decide (signature = OHDR_SIGNATURE)) then fail InvalidObjectHeaderSignature
  else
    version ← index data 4;
    if negb (version =? OBJECT_HEADER_VERSION) then fail (InvalidObjectHeaderVersion version)
    else
      flags ← index data 5;
      try_ (optional_block ObjectTimes.LEN data 6 (negb (Z.land flags OH_FLAG_STORE_TIMES =? 0)))
        (λ '(times, pos),
      try_ (optional_block AttributePhaseChange.LEN data pos
              (negb (Z.land flags OH_FLAG_ATTRIBUTE_PHASE_CHANGE =? 0))) (λ '(phase, pos),
      let size_width := UintWidth.from_flags flags in
      chunk0_size ←? read_uint_width data pos size_width;
      ok (mkParsedPrefix
            (mkHeaderPrefix (MessageRecordLayout.from_header_flags flags) (ObjectTimes.parse <$> times)
               (AttributePhaseChange.parse <$> phase))
            flags chunk0_size (pos + UintWidth.get size_width))))).

Definition header_flags (self : ObjectHeaderPrefix) : Z :=
  Z.lor (Z.lor (MessageRecordLayout.header_flags (layout self))
           (match times self with Some _ => OH_FLAG_STORE_TIMES | None => 0 end))
        (match attribute_phase_change self with Some _ => OH_FLAG_ATTRIBUTE_PHASE_CHANGE | None => 0 end).

Definition optional_len (self : ObjectHeaderPrefix) : Z :=
  (match times self with Some _ => ObjectTimes.LEN | None => 0 end)
  + (match attribute_phase_change self with Some _ => AttributePhaseChange.LEN | None => 0 end).

Definition write_prefix (self : ObjectHeaderPrefix) (buf : list Z) (width : UintWidth)
    (messages_len : Z) : outcome (list Z) :=
  let buf := buf ++ OHDR_SIGNATURE ++ [OBJECT_HEADER_VERSION]
             ++ [Z.lor (UintWidth.flag_bits width) (header_flags self)]
             ++ match times self with Some t => ObjectTimes.to_bytes t | None => [] end
             ++ match attribute_phase_change self with
                | Some p => AttributePhaseChange.to_bytes p | None => [] end in
  UintWidth.write width buf messages_len.

(** [write_messages] appends to the buffer. *)
Definition encode_header_at_width (self : ObjectHeaderPrefix) (width : UintWidth) (messages_len : Z)
    (write_messages : list Z → list Z) : outcome (list Z) :=
  let prefix_len := zlen OHDR_SIGNATURE + 2 + optional_len self + UintWidth.get width in
  buf ← write_prefix self [] width messages_len;
  let buf := write_messages buf in
  _ ← assert_ (zlen buf =? prefix_len + messages_len);
  checksum ← jenkins_lookup3 buf;
  Ret (buf ++ le_bytes 4 checksum).

Definition encode_header_with (self : ObjectHeaderPrefix) (messages_len : Z)
    (write_messages : list Z → list Z) : outcome (list Z) :=
  encode_header_at_width self (UintWidth.smallest_for_len messages_len) messages_len write_messages.

Definition encode_header (self : ObjectHeaderPrefix) (messages : list Z) : outcome (list Z) :=
  encode_header_with self (zlen messages) (λ buf, buf ++ messages).

(** [ParsedObjectHeaderPrefix::chunk0_len] *)
Definition chunk0_len (self : ParsedObjectHeaderPrefix) : result Z FormatError :=
  result_bind
    (ok_or (len ← checked_add (parsed_len self) (chunk0_size self);
            checked_add len HEADER_CHECKSUM_LEN)
       (OffsetOverflow (parsed_len self) (chunk0_size self))) to_usize.

(** [ParsedObjectHeaderPrefix::object_header] *)
Definition object_header (self : ParsedObjectHeaderPrefix) (messages : list HeaderMessage) : ObjectHeader :=
  let times := times (parsed_prefix self) in
  mkHeader OBJECT_HEADER_VERSION (Some (parsed_prefix self)) messages None (parsed_flags self)
    (access <$> times) (modification <$> times) (change <$> times) (birth <$> times).

End Prefixes.
End ObjectHeaderPrefix.

(** [ObjectHeaderContinuation] *)
Record ObjectHeaderContinuation : Type := mkContinuation {
  continuation_address : Z;
  continuation_length : Z;
}.

Module V2.
Section Parser.
Context `{B : Build}.

Definition continuation_parse (body : list Z) (widths : FormatWidths) : exec ObjectHeaderContinuation :=
  address ←? read_optional_offset_width body 0 (offsets widths);
  try_ (ok_or address UndefinedContinuationAddress) (λ address,
  length ←? read_length_width body (OffsetWidth.get (offsets widths)) (lengths widths);
  ok (mkContinuation address length)).

Definition continuation_block_messages (block : list Z) : exec (Z * Z) :=
  let end_ := zlen block - HEADER_CHECKSUM_LEN in
  if (HEADER_CHECKSUM_LEN <=? zlen block) && (zlen OCHK_SIGNATURE <=? end_) then
    signature ← slice block 0 (zlen OCHK_SIGNATURE);
    if negb (bool_decide (signature = OCHK_SIGNATURE)) then fail InvalidObjectHeaderSignature
    else ok (zlen OCHK_SIGNATURE, end_)
  else fail (UnexpectedEof (zlen OCHK_SIGNATURE + HEADER_CHECKSUM_LEN) (zlen block)).

Definition checksummed (image : list Z) : exec (list Z) :=
  _ ←? verify_trailing image;
  if HEADER_CHECKSUM_LEN <=? zlen image then ok (take (length image - 4) image)
  else fail (UnexpectedEof HEADER_CHECKSUM_LEN (zlen image)).

(** The message records of one chunk. *)
Record HeaderChunk : Type := mkHeaderChunk {
  chunk_region : list Z;
  records_start : Z;
  chunk_layout : MessageRecordLayout;
}.

(** [RootChunk::parse]: the chunk 0 behind the prefix *)
Definition root_chunk (prefix : ParsedObjectHeaderPrefix) (image : list Z) : exec HeaderChunk :=
  region ←? checksummed image;
  ok (mkHeaderChunk region (parsed_len prefix) (layout (parsed_prefix prefix))).

Definition continuation_chunk (layout : MessageRecordLayout) (block : list Z) : exec HeaderChunk :=
  '(records_start, _) ←? continuation_block_messages block;
  region ←? checksummed block;
  ok (mkHeaderChunk region records_start layout).

Definition observation (self : HeaderChunk) (allocation : FileRange) : exec ObjectHeaderChunk :=
  try_ (ok_or (get_from (chunk_region self) (records_start self))
          (UnexpectedEof (records_start self) (zlen (chunk_region self)))) (λ records,
  try_ (Address.checked_add (FileRange.start allocation) (records_start self)) (λ start,
  range ←? FileRange.new start (zlen records);
  try_ (FileRegion.new range records) (λ region,
  chunk ← chunk_new allocation region (Some (chunk_layout self));
  ok chunk))).

(** The records from a position on: they end where none follows or its body runs past the
    region. *)
Fixpoint records_from (layout : MessageRecordLayout) (region : list Z) (fuel : nat) (msg_start : Z)
    : outcome (list MessageRecord) :=
  match fuel with
  | O => Panic
  | S fuel =>
    match MessageRecordLayout.next_message layout region msg_start with
    | Ok (Some record) =>
      rest ← records_from layout region fuel (snd (record_body_range record));
      Ret (record :: rest)
    | _ => Ret []
    end
  end.

Definition message_records (self : HeaderChunk) : outcome (list MessageRecord) :=
  records_from (chunk_layout self) (chunk_region self) (S (length (chunk_region self))) (records_start self).

Inductive ChunkRecord : Type :=
| Continuation (continuation : ObjectHeaderContinuation)
| Message (record : MessageRecord)
| Nil.

Definition classify (ctx : ParseContext) (record : MessageRecord) : exec ChunkRecord :=
  let classified :=
    if record_type record =? MessageType.NIL then ok Nil
    else if record_type record =? MessageType.OBJECT_HEADER_CONTINUATION then
      continuation ←? continuation_parse (record_body record) (ctx_widths ctx);
      ok (Continuation continuation)
    else ok (Message record) in
  match MessageType.unknown_id (record_type record) with
  | Some id =>
    if MessageFlags.must_be_understood (record_flags record) (access_mode ctx)
    then fail (UnsupportedMessage id) else classified
  | None => classified
  end.

(** [ContinuationWorklist]: the continuations found and how many of them were visited *)
Record ContinuationWorklist : Type := mkWorklist {
  discovered : list ObjectHeaderContinuation;
  visited : nat;
}.

Definition discover (self : ContinuationWorklist) (c : ObjectHeaderContinuation)
    : result ContinuationWorklist FormatError :=
  if MAX_CONTINUATIONS <=? zlen (discovered self) then Err NestingDepthExceeded
  else Ok (mkWorklist (discovered self ++ [c]) (visited self)).

Definition next_unvisited (self : ContinuationWorklist)
    : option ObjectHeaderContinuation * ContinuationWorklist :=
  match discovered self !! visited self with
  | Some next => (Some next, mkWorklist (discovered self) (S (visited self)))
  | None => (None, self)
  end.

Record Collector : Type := mkCollector { messages : list HeaderMessage; worklist : ContinuationWorklist }.

Definition keep_if_the_filter_keeps (filter : MessageFilter) (self : Collector) (record : MessageRecord)
    : Collector :=
  if MessageFilter.keeps filter (record_type record) (record_body record)
  then mkCollector
         (messages self ++ [mkMessage (record_type record) (zlen (record_body record)) (record_flags record)
                              (record_creation_index record) (record_body record)])
         (worklist self)
  else self.

Fixpoint ingest_records (ctx : ParseContext) (filter : MessageFilter) (self : Collector)
    (records : list MessageRecord) : exec Collector :=
  match records with
  | [] => ok self
  | record :: records =>
    kind ←? classify ctx record;
    self ←?
      match kind with
      | Continuation continuation =>
        try_ (discover (worklist self) continuation) (λ w, ok (mkCollector (messages self) w))
      | Message message => ok (keep_if_the_filter_keeps filter self message)
      | Nil => ok self
      end;
    ingest_records ctx filter self records
  end.

Definition ingest (ctx : ParseContext) (filter : MessageFilter) (self : Collector) (chunk : HeaderChunk)
    : exec Collector :=
  records ← message_records chunk;
  ingest_records ctx filter self records.

Definition collector_new (ctx : ParseContext) (filter : MessageFilter) (chunk : HeaderChunk) : exec Collector :=
  ingest ctx filter (mkCollector [] (mkWorklist [] 0)) chunk.

(** The next block as its absolute address and length. *)
Definition next_continuation (ctx : ParseContext) (self : Collector)
    : result (option (Z * Z) * Collector) FormatError :=
  let '(next, w) := next_unvisited (worklist self) in
  match next with
  | None => Ok (None, self)
  | Some c =>
    result_bind (BaseAddress.resolve (base_address ctx) (continuation_address c)) (λ address,
    Ok (Some (address, continuation_length c), mkCollector (messages self) w))
  end.

(** The loop over the blocks, [read_block] the bytes of one; 257 turns visit every
    continuation the worklist accepts. *)
Definition block_fuel : nat := 257.

Fixpoint continuation_loop {O} (ctx : ParseContext) (filter : MessageFilter)
    (next_chunk : O → Z → Z → exec (HeaderChunk * O)) (fuel : nat) (self : Collector) (obs : O)
    : exec (Collector * O) :=
  match fuel with
  | Datatypes.O => Panic
  | Datatypes.S fuel =>
    try_ (next_continuation ctx self) (λ '(block, self),
    match block with
    | None => ok (self, obs)
    | Some (address, length) =>
      '(chunk, obs) ←? next_chunk obs address length;
      self ←? ingest ctx filter self chunk;
      continuation_loop ctx filter next_chunk fuel self obs
    end)
  end.

Definition parse_v2 (data : list Z) (ctx : ParseContext) (offset : Z) (filter : MessageFilter)
    : exec ObjectHeader :=
  try_ (ensure_len data offset 6) (λ _,
  head ← slice_from data offset;
  prefix ←? ObjectHeaderPrefix.parse head;
  try_ (ObjectHeaderPrefix.chunk0_len prefix) (λ len,
  try_ (region data offset len) (λ image,
  root ←? root_chunk prefix image;
  collector ←? collector_new ctx filter root;
  let next_chunk (_ : unit) (address length : Z) : exec (HeaderChunk * unit) :=
    try_ (to_usize length) (λ length,
    try_ (region data address length) (λ bytes,
    chunk ←? continuation_chunk (layout (parsed_prefix prefix)) bytes;
    ok (chunk, tt))) in
  '(collector, _) ←? continuation_loop ctx filter next_chunk block_fuel collector tt;
  ok (ObjectHeaderPrefix.object_header prefix (messages collector))))).

(** The observer of one chunk. *)
Definition observe (chunk : HeaderChunk) (address length : Z) (observer : Observer) : exec Observer :=
  match observer with
  | Some seen =>
    allocation ←? FileRange.new address length;
    observed ←? observation chunk allocation;
    ok (Some (seen ++ [observed]))
  | None => ok None
  end.

Definition parse_v2_from_source (source : MetadataSource) (ctx : ParseContext) (address : Z)
    (filter : MessageFilter) (observer : Observer) : exec (ObjectHeader * Observer) :=
  try_ (to_usize (Z.min OBJECT_HEADER_PREFIX_MAX_LEN (Z.max 0 (metadata_len source - address)))) (λ head_len,
  head ←? read_metadata source address head_len;
  prefix ←? ObjectHeaderPrefix.parse head;
  try_ (ObjectHeaderPrefix.chunk0_len prefix) (λ len,
  image ←? read_metadata source address len;
  root ←? root_chunk prefix image;
  observer ←? observe root address (zlen image) observer;
  collector ←? collector_new ctx filter root;
  let next_chunk (observer : Observer) (address length : Z) : exec (HeaderChunk * Observer) :=
    try_ (to_usize length) (λ len,
    bytes ←? read_metadata source address len;
    chunk ←? continuation_chunk (layout (parsed_prefix prefix)) bytes;
    observer ←? observe chunk address length observer;
    ok (chunk, observer)) in
  '(collector, observer) ←? continuation_loop ctx filter next_chunk block_fuel collector observer;
  ok (ObjectHeaderPrefix.object_header prefix (messages collector), observer))).

End Parser.
End V2.

(** ** Both versions *)

Module ObjectHeader.
Section Parser.
Context `{B : Build}.

Definition parse_filtered_with_widths (data : list Z) (mode : AccessMode) (offset : Z)
    (widths : FormatWidths) (base : Z) (filter : MessageFilter) : exec ObjectHeader :=
  let ctx := mkContext mode widths base in
  try_ (ensure_len data offset 4) (λ _,
  signature ← slice data offset (offset + 4);
  if bool_decide (signature = OHDR_SIGNATURE) then V2.parse_v2 data ctx offset filter
  else V1.parse_v1 data ctx offset filter).

Definition parse_with_base_and_widths (data : list Z) (mode : AccessMode) (offset : Z)
    (widths : FormatWidths) (base : Z) : exec ObjectHeader :=
  parse_filtered_with_widths data mode offset widths base All.

Definition parse_with_widths (data : list Z) (mode : AccessMode) (offset : Z) (widths : FormatWidths)
    : exec ObjectHeader :=
  parse_with_base_and_widths data mode offset widths BaseAddress.ZERO.

Definition parse (data : list Z) (mode : AccessMode) (offset offset_size length_size : Z)
    : exec ObjectHeader :=
  try_ (FormatWidths.from_sizes offset_size length_size) (λ widths,
  parse_with_widths data mode offset widths).

Definition parse_from_source_observed (source : MetadataSource) (ctx : ParseContext) (address : Z)
    (filter : MessageFilter) (observer : Observer) : exec (ObjectHeader * Observer) :=
  sig ←? read_metadata source address 4;
  if bool_decide (sig = OHDR_SIGNATURE)
  then V2.parse_v2_from_source source ctx address filter observer
  else V1.parse_v1_from_source source ctx address filter observer.

Definition parse_from_source_filtered_with_widths (source : MetadataSource) (mode : AccessMode)
    (address : Z) (widths : FormatWidths) (base : Z) (filter : MessageFilter) : exec ObjectHeader :=
  '(header, _) ←? parse_from_source_observed source (mkContext mode widths base) address filter None;
  ok header.

Definition parse_from_source_with_chunk_observer (source : MetadataSource) (mode : AccessMode)
    (address : Z) (widths : FormatWidths) (base : Z) (filter : MessageFilter)
    : exec (ObjectHeader * Observer) :=
  parse_from_source_observed source (mkContext mode widths base) address filter (Some []).

End Parser.
End ObjectHeader.

(** ** Replacing one record *)

Record RecordSplice : Type := mkSplice {
  splice_layout : MessageRecordLayout;
  splice_head : list Z;
  splice_record : MessageRecord;
  splice_tail : list Z;
}.

Module RecordSplice.
Section Splices.
Context `{B : Build}.

Fixpoint first_from (layout : MessageRecordLayout) (region : list Z) (msg_type : Z) (fuel : nat)
    (msg_start : Z) : exec (option RecordSplice) :=
  match fuel with
  | O => Panic
  | S fuel =>
    try_ (MessageRecordLayout.next_message layout region msg_start) (λ record,
    match record with
    | None => ok None
    | Some record =>
      let end_ := snd (record_body_range record) in
      if record_type record =? msg_type then
        match get_range region 0 msg_start, get_from region end_ with
        | Some head, Some tail => ok (Some (mkSplice layout head record tail))
        | _, _ => fail (Internal "a message record read from the region lies outside it"%string)
        end
      else first_from layout region msg_type fuel end_
    end)
  end.

Definition first (layout : MessageRecordLayout) (region : list Z) (msg_type : Z)
    : exec (option RecordSplice) :=
  first_from layout region msg_type (S (length region)) 0.

Definition replacement_len (self : RecordSplice) (body : list Z) : result Z FormatError :=
  if OBJECT_HEADER_MESSAGE_MAX <? zlen body
  then Err (ObjectHeaderMessageTooLarge (record_type (splice_record self)) (zlen body))
  else Ok (zlen (splice_head self) + MessageRecordLayout.prefix_len (splice_layout self)
           + zlen body + zlen (splice_tail self)).

Definition replace_record_into (self : RecordSplice) (region : list Z) (flags creation_index : Z)
    (body : list Z) : exec (list Z) :=
  try_ (replacement_len self body) (λ _,
  let region := region ++ splice_head self in
  region ← MessageRecordLayout.write_record (splice_layout self) region
             (record_type (splice_record self)) flags creation_index body;
  ok (region ++ splice_tail self)).

Definition replace_record (self : RecordSplice) (flags creation_index : Z) (body : list Z)
    : exec (list Z) :=
  try_ (replacement_len self body) (λ _, replace_record_into self [] flags creation_index body).

Definition replace_body_into (self : RecordSplice) (region body : list Z) : exec (list Z) :=
  replace_record_into self region (record_flags (splice_record self))
    (default 0 (record_creation_index (splice_record self))) body.

Definition replace_body (self : RecordSplice) (body : list Z) : exec (list Z) :=
  replace_record self (record_flags (splice_record self))
    (default 0 (record_creation_index (splice_record self))) body.

End Splices.
End RecordSplice.

Module HeaderTests.
#[local] Existing Instance build64.

Definition prefix : ObjectHeaderPrefix :=
  mkHeaderPrefix (mkLayout true true) (Some (mkTimes 1 2 3 4)) (Some (mkPhase 8 6)).

Example header_v2_runs :
  (records ← MessageRecordLayout.record_with_creation_index (layout prefix) 1 2 7 [9; 9];
   bytes ← ObjectHeaderPrefix.encode_header prefix records;
   ObjectHeader.parse ([0; 0; 0] ++ bytes ++ [1]) ReadOnly 3 8 8)
  = ok (mkHeader 2 (Some prefix) [mkMessage 1 2 2 (Some 7) [9; 9]] None 60
          (Some 1) (Some 2) (Some 3) (Some 4)).
Proof. vm_compute. reflexivity. Qed.

(** A version 1 header of one continuation, whose block holds a NIL and an unknown message. *)
Definition v1_bytes : list Z :=
  [1; 0; 1; 0; 5; 0; 0; 0; 16; 0; 0; 0; 0; 0; 0; 0]
  ++ [16; 0; 8; 0; 0; 0; 0; 0; 32; 0; 16; 0; 0; 0; 0; 0]
  ++ [0; 0; 0; 0; 0; 0; 0; 0; 99; 0; 0; 0; 8; 0; 0; 0].

Example header_v1_runs :
  ObjectHeader.parse v1_bytes ReadOnly 0 2 2
  = ok (mkHeader 1 None [mkMessage 16 8 0 None [32; 0; 16; 0; 0; 0; 0; 0]; mkMessage 99 0 8 None []]
          (Some 5) 0 None None None None) ∧
  ObjectHeader.parse v1_bytes ReadWrite 0 2 2 = fail (UnsupportedMessage 99).
Proof. vm_compute. auto. Qed.

End HeaderTests.
