(* ===== verification/ObjectHeaderFacts.v ===== *)
(** * Facts about object headers

    No bytes make the parsers panic or run on; filtering changes only which messages are
    kept; reading through a source gives what reading the buffer gives; an encoded header is
    read back; and replacing a record changes that record alone. *)

From S2P Require Import Prelude Addresses Words ByteFields ByteFieldFacts Checksums FileRegions.
From S2P Require Import ObjectHeaders.

Local Open Scope Z_scope.

(** A kept message: its body as read, and what the filter says of it. *)
Definition message_ok (filter : MessageFilter) (m : HeaderMessage) : Prop :=
  Forall byte (msg_data m) ∧ msg_size m = zlen (msg_data m) ∧ msg_size m ≤ 65535 ∧
  msg_type m ≠ MessageType.NIL ∧ MessageFilter.keeps filter (msg_type m) (msg_data m) = true.

Section Sources.
Context `{B : Build}.

Lemma region_ok_iff bytes offset len s :
  zlen bytes ≤ USIZE_MAX → 0 ≤ offset → 0 ≤ len →
  region bytes offset len = Ok s ↔ get_range bytes offset (offset + len) = Some s.
Proof.
  intros Hu Ho Hl. pose proof usize_bounds as Hub. unfold region, checked_add.
  split.
  - destruct (offset + len <=? U64_MAX) eqn:E1; [|done]. cbn [ok_or result_bind].
    destruct (zlen bytes <? offset + len) eqn:E2; [done|]. unfold to_usize.
    replace (offset <=? USIZE_MAX) with true by lia. cbn [result_bind].
    replace (offset + len <=? USIZE_MAX) with true by lia. cbn [result_bind].
    destruct (get_range _ _ _); simpl; congruence.
  - intros Hg. pose proof Hg as (? & ? & _)%get_range_Some.
    replace (offset + len <=? U64_MAX) with true by lia. cbn [ok_or result_bind].
    replace (zlen bytes <? offset + len) with false by lia. unfold to_usize.
    replace (offset <=? USIZE_MAX) with true by lia. cbn [result_bind].
    replace (offset + len <=? USIZE_MAX) with true by lia. cbn [result_bind]. by rewrite Hg.
Qed.

Lemma region_bytes_ok bytes offset len s :
  Forall byte bytes → zlen bytes ≤ USIZE_MAX → 0 ≤ offset → 0 ≤ len → region bytes offset len = Ok s →
  Forall byte s ∧ zlen s = len ∧ zlen s ≤ USIZE_MAX.
Proof.
  intros Hb Hu Ho Hl Hg%region_ok_iff; [|done..]. pose proof (get_range_zlen _ _ _ _ Hg).
  pose proof Hg as (? & ? & _)%get_range_Some.
  split_and!; [by apply (get_range_Forall _ _ _ _ _ Hb Hg)|lia|lia].
Qed.

Lemma within_to_usize {T} v (k : Z → exec T) Q :
  (v ≤ USIZE_MAX → k v ⇝? Q) → try_ (to_usize v) k ⇝? Q.
Proof.
  intros Hk. unfold to_usize. destruct (v <=? USIZE_MAX) eqn:E; [apply Hk; lia|apply sound_fail].
Qed.

End Sources.

(** ** Version 1: arbitrary bytes *)

Module V1Facts.
Import V1.
Section Safety.
Context `{B : Build}.

Lemma record_sound data mode :
  Forall byte data → zlen data ≤ USIZE_MAX →
  parse_message_record data mode ⇝? (λ r, match r with
    | Some (r, n) => 8 ≤ n ≤ zlen data ∧ Forall byte (rec_body r) ∧ zlen (rec_body r) ≤ 65535
    | None => True
    end).
Proof.
  intros Hb Hu. unfold parse_message_record, MESSAGE_PREFIX_LEN.
  destruct (zlen data <? 8) eqn:El; [by apply sound_ok|].
  apply within_u16; [done|lia|lia|]. intros kind Hk. apply within_u16; [done|lia|lia|]. intros n Hn.
  apply within_index; [done|lia|lia|]. intros flags Hf. unfold fits in Hn.
  apply within_ensure; [done|]. intros Hle. destruct (negb _); [apply sound_fail|]. cbv zeta.
  assert (Hparsed : (body ← slice data 8 (8 + n); ok (E := FormatError) (Some (mkRecord kind flags body, 8 + n)))
    ⇝? (λ r, match r with
      | Some (r, n) => 8 ≤ n ≤ zlen data ∧ Forall byte (rec_body r) ∧ zlen (rec_body r) ≤ 65535
      | None => True end)).
  { apply within_slice; [done|lia|lia|]. intros s Hs Hz. apply sound_ok. simpl. split_and!; [lia|lia|done|lia]. }
  destruct (MessageType.unknown_id kind); [|done]. destruct (MessageFlags.must_be_understood _ _); [apply sound_fail|done].
Qed.

(** What the collector holds: as many visits as the traversal allows, and messages that
    were read and kept. *)
Definition collector_ok (filter : MessageFilter) (st : Collector) : Prop :=
  0 ≤ visits st ≤ MAX_V1_CONTINUATION_VISITS ∧ Forall (message_ok filter) (messages st).

Lemma keep_ok filter st r :
  collector_ok filter st → Forall byte (rec_body r) → zlen (rec_body r) ≤ 65535 →
  collector_ok filter (keep filter st r).
Proof.
  intros [Hv Hm] Hb Hz. unfold keep. destruct (_ && _) eqn:E; [|done]. apply andb_true_iff in E as [E1 E2].
  split; [done|]. simpl. apply Forall_app. split; [done|]. constructor; [|done].
  split_and!; try done. simpl. lia.
Qed.

Lemma admit_sound ctx filter st data depth :
  Forall byte data → zlen data ≤ USIZE_MAX → 0 ≤ base_address ctx → collector_ok filter st →
  admit_visit ctx st data depth ⇝? (λ '(permit, st'), collector_ok filter st' ∧
    match permit with
    | Some p => depth < MAX_V1_CONTINUATION_DEPTH ∧ visit_depth p = depth + 1 ∧
                0 ≤ range_start (visit_range p)
    | None => True
    end).
Proof.
  intros Hb Hu Hbase Hst. unfold admit_visit. cbv zeta. destruct (_ <? _); [by apply sound_ok|].
  eapply sound_bind; [by apply decode_sound|]. intros a [Ha _].
  rewrite read_length_width_eq by (destruct (offsets (ctx_widths ctx)); done).
  eapply sound_bind; [by apply read_word_sound|]. intros len [Hlen _].
  destruct a as [a|]; [|apply sound_fail].
  destruct (_ || _) eqn:E; [apply sound_fail|]. apply orb_false_iff in E as [E1 E2].
  unfold BaseAddress.resolve, checked_add. destruct (_ <=? U64_MAX); [|apply sound_fail]. cbn [ok_or try_].
  cbn [address_fits] in Ha. unfold fits in Hlen.
  assert (Hnew : FileRange.new (a + base_address ctx) len ⇝? (λ r, range_start r = a + base_address ctx)).
  { unfold FileRange.new, AddressRange.new, Address.checked_add, checked_add.
    destruct (_ <=? U64_MAX) eqn:Eu; [|apply sound_fail]. cbn [ok_or try_].
    destruct (AddressRange_ordered_is_Some (a + base_address ctx) (a + base_address ctx + len)) as [r Hr]; [lia|].
    rewrite Hr. apply sound_ok. by apply AddressRange_ordered_Some in Hr as [? _]. }
  eapply sound_bind; [exact Hnew|]. intros r Hr. apply sound_ok. destruct Hst as [Hv Hm].
  split; [split; [simpl; unfold MAX_V1_CONTINUATION_VISITS in *; lia|done]|]. cbn [visit_range visit_depth]. split_and!; [lia|done|rewrite Hr; lia].
Qed.

(** The loop over the records ends: each of them takes eight bytes at least. *)
Lemma collect_loop_sound ctx filter follow depth :
  0 ≤ base_address ctx →
  (∀ st p, collector_ok filter st → depth < MAX_V1_CONTINUATION_DEPTH → visit_depth p = depth + 1 →
     0 ≤ range_start (visit_range p) → follow st p ⇝? collector_ok filter) →
  ∀ fuel st records max count,
  (length records < fuel)%nat → Forall byte records → zlen records ≤ USIZE_MAX → collector_ok filter st →
  collect_loop ctx filter follow fuel st records max count depth ⇝? collector_ok filter.
Proof.
  intros Hbase Hfollow. induction fuel as [|fuel IH]; intros st records max count Hf Hb Hu Hst; [lia|].
  cbn [collect_loop]. destruct (_ || _); [by apply sound_ok|].
  eapply sound_bind; [by apply record_sound|]. intros [[r n]|] Hr.
  2:{ destruct max; [by apply sound_ok|apply sound_fail]. }
  destruct Hr as (Hn & Hbody & Hz). cbv zeta. unfold slice_from, get_from.
  change (expect (get_range records n (zlen records))) with (slice records n (zlen records)).
  apply within_slice; [done|lia|lia|]. intros s Hs Hzs.
  pose proof (keep_ok filter st r Hst Hbody Hz) as Hk.
  eapply (sound_bind _ _ (collector_ok filter)).
  - destruct (_ =? _); [|by apply sound_ok]. eapply sound_bind; [apply admit_sound; [done|pose proof usize_bounds; lia|done|done]|].
    intros [[p|] st'] [Hst' Hp]; [|by apply sound_ok]. destruct Hp as (? & ? & ?). by apply Hfollow.
  - intros st' Hst'. apply IH; [unfold zlen in *; lia|done|lia|done].
Qed.

(** A continuation below the root is one level deeper, and 32 of them are allowed. *)
Lemma collect_buffered_sound ctx filter data level st records max depth :
  Forall byte data → zlen data ≤ USIZE_MAX → 0 ≤ base_address ctx →
  Z.of_nat level = 33 - depth → depth ≤ 32 →
  Forall byte records → zlen records ≤ USIZE_MAX → collector_ok filter st →
  collect_buffered ctx filter data level st records max depth ⇝? collector_ok filter.
Proof.
  intros Hb Hu Hbase. revert st records max depth. induction level as [|level IH];
    intros st records max depth Hl Hd Hr Hru Hst; [lia|]. cbn [collect_buffered].
  apply collect_loop_sound; try done; [|lia]. intros st' p Hst' Hdep Hvd Hstart. cbv zeta.
  apply within_to_usize. intros _. apply within_to_usize. intros Hlen. apply within_ensure; [done|]. intros Hle.
  unfold FileRange.start, FileRange.length in *. pose proof (range_ordered (visit_range p)).
  apply within_slice; [done|lia|lia|]. intros s Hs Hz. rewrite Hvd.
  apply IH; [lia|unfold MAX_V1_CONTINUATION_DEPTH in *; lia|done|lia|done].
Qed.

Lemma parse_v1_sound data ctx offset filter :
  Forall byte data → zlen data ≤ USIZE_MAX → 0 ≤ base_address ctx → 0 ≤ offset →
  parse_v1 data ctx offset filter ⇝? (λ h, oh_version h = 1 ∧ Forall (message_ok filter) (oh_messages h)).
Proof.
  intros Hb Hu Hbase Ho. unfold parse_v1, UNPADDED_HEADER_PREFIX_LEN. apply within_ensure; [done|]. intros Hl.
  apply within_index; [done|lia|lia|]. intros version _. destruct (negb _); [apply sound_fail|].
  apply within_u16; [done|lia|lia|]. intros num Hnum. apply within_u32; [done|lia|lia|]. intros rc Hrc.
  apply within_u32; [done|lia|lia|]. intros size Hsize. unfold fits in Hsize.
  apply within_to_usize. intros Hsz. unfold usize_checked_add.
  destruct (_ <=? USIZE_MAX) eqn:E; [|apply sound_fail]. cbn [ok_or try_].
  apply within_ensure; [done|]. intros Hle. apply within_slice; [done|lia|lia|]. intros s Hs Hz.
  eapply sound_bind; [apply collect_buffered_sound; [done..|lia|split; [done|by constructor]]|].
  intros st [_ Hm]. by apply sound_ok.
Qed.

End Safety.
End V1Facts.

(** ** Version 2: arbitrary bytes *)

Module V2Facts.
Import V2.

Definition record_ok (r : MessageRecord) : Prop :=
  Forall byte (record_body r) ∧ zlen (record_body r) ≤ 65535.

(** A record ends behind its start and within the region. *)
Lemma next_message_ok layout region start r :
  Forall byte region → MessageRecordLayout.next_message layout region start = Ok (Some r) →
  record_ok r ∧ start < snd (record_body_range r) ≤ zlen region.
Proof.
  intros Hb. unfold MessageRecordLayout.next_message.
  destruct (get_from region start) as [l|] eqn:El; [|done]. unfold get_from in El.
  pose proof (get_range_zlen _ _ _ _ El) as Hz. pose proof (get_range_Forall _ _ _ _ _ Hb El) as Hl.
  pose proof El as (Hs & _)%get_range_Some.
  destruct l as [|t [|a [|b [|f rest]]]]; try done. rewrite !Forall_cons in Hl. destruct Hl as (_ & Ha & Hb' & _ & Hrest).
  set (n := le_value [a; b]). assert (Hn : 0 ≤ n ≤ 65535) by (unfold byte in Ha, Hb'; unfold n; cbn [le_value]; lia).
  unfold MessageRecordLayout.prefix_len.
  assert (Hcase : ∀ ci rest' (k : Z), Forall byte rest' → zlen rest' = zlen region - start - k → 0 < k →
    match get_range rest' 0 n with
    | Some body => Ok (Some (mkRecord t f ci body (start + k, start + k + n)))
    | None => Err (UnexpectedEof (start + k + n) (zlen region))
    end = Ok (Some r) → record_ok r ∧ start < snd (record_body_range r) ≤ zlen region).
  { intros ci rest' k Hr' Hz' Hk. destruct (get_range rest' 0 n) as [body|] eqn:Eg; [|done]. intros [= <-].
    pose proof (get_range_zlen _ _ _ _ Eg) as Hzb. pose proof Eg as (_ & Hle & _)%get_range_Some.
    split; [split; [by apply (get_range_Forall _ _ _ _ _ Hr' Eg)|cbn [record_body]; lia]|cbn [record_body_range snd]; lia]. }
  rewrite !zlen_cons in Hz. destruct (tracked layout).
  - destruct rest as [|c [|d rest]]; try done. rewrite !Forall_cons in Hrest. destruct Hrest as (_ & _ & Hrest).
    rewrite !zlen_cons in Hz. apply (Hcase _ _ 6); [done|lia|lia].
  - apply (Hcase _ _ 4); [done|lia|lia].
Qed.

Lemma records_from_total layout region fuel start :
  Forall byte region → (Z.to_nat (zlen region - start) < fuel)%nat →
  ∃ rs, records_from layout region fuel start = Ret rs ∧ Forall record_ok rs.
Proof.
  intros Hb. revert start. induction fuel as [|fuel IH]; intros start Hf; [lia|]. cbn [records_from].
  destruct (MessageRecordLayout.next_message layout region start) as [[r|]|e] eqn:E; [|by exists []..].
  apply next_message_ok in E as [Hr He]; [|done].
  destruct (IH (snd (record_body_range r))) as (rs & -> & Hrs); [lia|]. exists (r :: rs). split; [done|by constructor].
Qed.

Section Safety.
Context `{B : Build}.

Definition chunk_ok (c : HeaderChunk) : Prop := Forall byte (chunk_region c) ∧ 0 ≤ records_start c.

Lemma message_records_total c : chunk_ok c → ∃ rs, message_records c = Ret rs ∧ Forall record_ok rs.
Proof.
  intros [Hb Hs]. unfold message_records. apply records_from_total; [done|]. unfold zlen. lia.
Qed.

Definition continuation_ok (c : ObjectHeaderContinuation) : Prop :=
  0 ≤ continuation_address c ∧ 0 ≤ continuation_length c.

Definition worklist_ok (w : ContinuationWorklist) : Prop :=
  (visited w ≤ length (discovered w))%nat ∧ zlen (discovered w) ≤ MAX_CONTINUATIONS ∧
  Forall continuation_ok (discovered w).

Definition collector_ok (filter : MessageFilter) (st : Collector) : Prop :=
  worklist_ok (worklist st) ∧ Forall (message_ok filter) (messages st).

Lemma continuation_sound body ws :
  Forall byte body → zlen body ≤ USIZE_MAX → continuation_parse body ws ⇝? continuation_ok.
Proof.
  intros Hb Hu. unfold continuation_parse, read_optional_offset_width.
  rewrite read_offset_width_eq by done.
  eapply (sound_bind _ _ (λ a, match a with Some a => 0 ≤ a | None => True end)).
  - eapply sound_bind; [by apply read_word_sound|]. intros a [Ha _]. apply sound_ok.
    destruct (StoredAddress.is_undefined _ _); [done|]. unfold fits in Ha. lia.
  - intros [a|] Ha; [|apply sound_fail]. cbn [ok_or try_].
    rewrite read_length_width_eq by (destruct (offsets ws); done).
    eapply sound_bind; [by apply read_word_sound|]. intros n [Hn _]. apply sound_ok.
    unfold fits in Hn. split; simpl; lia.
Qed.

Lemma classify_sound ctx r :
  record_ok r → classify ctx r ⇝? (λ k, match k with
    | Continuation c => continuation_ok c
    | Message r' => r' = r ∧ record_type r ≠ MessageType.NIL
    | Nil => True
    end).
Proof.
  intros [Hb Hz]. unfold classify. pose proof usize_bounds as Hub.
  assert (Hcl : (if record_type r =? MessageType.NIL then ok Nil
    else if record_type r =? MessageType.OBJECT_HEADER_CONTINUATION then
      continuation ←? continuation_parse (record_body r) (ctx_widths ctx); ok (Continuation continuation)
    else ok (Message r)) ⇝? (λ k, match k with
    | Continuation c => continuation_ok c
    | Message r' => r' = r ∧ record_type r ≠ MessageType.NIL
    | Nil => True
    end)).
  { destruct (record_type r =? MessageType.NIL) eqn:E; [by apply sound_ok|].
    destruct (record_type r =? MessageType.OBJECT_HEADER_CONTINUATION); [|apply sound_ok; split; [done|lia]].
    eapply sound_bind; [apply continuation_sound; [done|lia]|]. intros c Hc. by apply sound_ok. }
  destruct (MessageType.unknown_id _); [|done]. destruct (MessageFlags.must_be_understood _ _); [apply sound_fail|done].
Qed.

Lemma ingest_records_sound ctx filter st rs :
  Forall record_ok rs → collector_ok filter st →
  ingest_records ctx filter st rs
    ⇝? (λ st', collector_ok filter st' ∧ visited (worklist st') = visited (worklist st)).
Proof.
  intros Hrs. revert st. induction Hrs as [|r rs Hr Hrs IH]; intros st Hst; cbn [ingest_records]; [by apply sound_ok|].
  eapply sound_bind; [by apply classify_sound|]. intros k Hk.
  eapply (sound_bind _ _ (λ st', collector_ok filter st' ∧ visited (worklist st') = visited (worklist st))).
  - destruct Hst as [(Hv & Hl & Hf) Hm]. destruct k as [c|r'|].
    + unfold discover. destruct (_ <=? _) eqn:E; [apply sound_fail|]. cbn [try_]. apply sound_ok.
      split; [|done]. split; [|done]. split_and!; simpl.
      * rewrite length_app. simpl. lia.
      * rewrite zlen_app. change (zlen [c]) with 1. lia.
      * by apply Forall_app; split; [|constructor].
    + destruct Hk as [-> Hnil]. apply sound_ok. unfold keep_if_the_filter_keeps. destruct (MessageFilter.keeps _ _ _) eqn:Ek; [|done].
      split; [|done]. split; [done|]. simpl. apply Forall_app. split; [done|]. constructor; [|done].
      destruct Hr as [Hb Hz]. by split_and!.
    + by apply sound_ok.
  - intros st' [Hst' Hv']. eapply sound_mono; [by apply IH|]. intros st2 [? ?]. split; [done|congruence].
Qed.

Lemma ingest_sound ctx filter st c :
  chunk_ok c → collector_ok filter st →
  ingest ctx filter st c ⇝? (λ st', collector_ok filter st' ∧ visited (worklist st') = visited (worklist st)).
Proof.
  intros Hc Hst. unfold ingest. destruct (message_records_total c Hc) as (rs & -> & Hrs).
  cbn [mbind outcome_bind]. by apply ingest_records_sound.
Qed.

Lemma next_continuation_sound ctx filter st :
  0 ≤ base_address ctx → collector_ok filter st →
  match next_continuation ctx st with
  | Ok (None, st') => st' = st
  | Ok (Some (a, n), st') => 0 ≤ a ∧ 0 ≤ n ∧ collector_ok filter st' ∧
      visited (worklist st') = S (visited (worklist st)) ∧ messages st' = messages st
  | Err _ => True
  end.
Proof.
  intros Hbase [(Hv & Hl & Hf) Hm]. unfold next_continuation, next_unvisited.
  destruct (discovered (worklist st) !! visited (worklist st)) as [c|] eqn:E; [|done].
  unfold BaseAddress.resolve, checked_add. destruct (_ <=? _); [|done]. cbn [ok_or result_bind].
  pose proof (lookup_lt_Some _ _ _ E). pose proof (Forall_lookup_1 _ _ _ _ Hf E) as [Ha Hn].
  split_and!; simpl; [lia|done| |done|done]. split; [|done]. split_and!; simpl; [lia|done|done].
Qed.

(** The loop visits every continuation once, at most 256 of them. *)
Lemma continuation_loop_sound {O} ctx filter (next_chunk : O → Z → Z → exec (HeaderChunk * O)) fuel st obs :
  0 ≤ base_address ctx →
  (∀ obs a n, 0 ≤ a → 0 ≤ n → next_chunk obs a n ⇝? (λ '(c, _), chunk_ok c)) →
  (block_fuel ≤ fuel + visited (worklist st))%nat → collector_ok filter st →
  continuation_loop ctx filter next_chunk fuel st obs ⇝? (λ '(st', _), collector_ok filter st').
Proof.
  intros Hbase Hnext. revert st obs. induction fuel as [|fuel IH]; intros st obs Hfuel Hst.
  { destruct Hst as [(Hv & Hl & _) _]. unfold block_fuel, MAX_CONTINUATIONS, zlen in *. lia. }
  cbn [continuation_loop]. pose proof (next_continuation_sound ctx filter st Hbase Hst) as Hn.
  destruct (next_continuation ctx st) as [[[[a n]|] st1]|e]; [| |apply sound_fail]; cbn [try_].
  2:{ subst. by apply sound_ok. }
  destruct Hn as (Ha & Hlen & Hst1 & Hv1 & _).
  eapply sound_bind; [by apply Hnext|]. intros [c obs'] Hc.
  eapply sound_bind; [by apply ingest_sound|]. intros st2 [Hst2 Hv2]. apply IH; [lia|done].
Qed.

Lemma checksummed_sound image :
  Forall byte image → checksummed image ⇝? (λ s, Forall byte s ∧ zlen s = zlen image - 4).
Proof.
  intros Hb. unfold checksummed, HEADER_CHECKSUM_LEN. eapply sound_bind; [by apply verify_trailing_sound|]. intros _ _.
  destruct (_ <=? _) eqn:E; [|apply sound_fail]. apply sound_ok. split; [by apply Forall_take|].
  unfold zlen in *. rewrite length_take. lia.
Qed.

Lemma continuation_chunk_sound layout block :
  Forall byte block → continuation_chunk layout block ⇝? chunk_ok.
Proof.
  intros Hb. unfold continuation_chunk.
  eapply (sound_bind _ _ (λ '(s, _), 0 ≤ s)).
  - unfold continuation_block_messages, HEADER_CHECKSUM_LEN. cbv zeta. destruct (_ && _) eqn:E; [|apply sound_fail].
    apply within_slice; [done|change (zlen OCHK_SIGNATURE) with 4; lia|change (zlen OCHK_SIGNATURE) with 4 in *; lia|].
    intros s _ _. destruct (negb _); [apply sound_fail|by apply sound_ok].
  - intros [s e] Hs. eapply sound_bind; [by apply checksummed_sound|]. intros r [Hr _]. by apply sound_ok.
Qed.

Lemma optional_block_sound n data pos present :
  Forall byte data → 0 ≤ pos → 0 ≤ n →
  match ObjectHeaderPrefix.optional_block n data pos present with
  | Ok (block, pos') => pos ≤ pos' ∧ match block with Some b => Forall byte b | None => True end
  | Err _ => True
  end.
Proof.
  intros Hb Hp Hn. unfold ObjectHeaderPrefix.optional_block. destruct present; cbn [negb]; [|split; [lia|done]].
  destruct (get_from data pos) as [rest|] eqn:E1; [|done]. cbn [mbind option_bind].
  destruct (get_range rest 0 n) as [b|] eqn:E2; [|done]. cbn [ok_or result_bind]. split; [lia|].
  apply (get_range_Forall _ _ _ _ _ (get_range_Forall _ _ _ _ _ Hb E1) E2).
Qed.

Lemma header_prefix_sound data :
  Forall byte data → zlen data ≤ USIZE_MAX →
  ObjectHeaderPrefix.parse data ⇝? (λ p, 0 ≤ parsed_len p ∧ 0 ≤ chunk0_size p).
Proof.
  intros Hb Hu. unfold ObjectHeaderPrefix.parse. apply within_ensure; [done|]. intros Hl.
  apply within_slice; [done|lia|lia|]. intros s _ _. destruct (negb _); [apply sound_fail|].
  apply within_index; [done|lia|lia|]. intros version _. destruct (negb _); [apply sound_fail|].
  apply within_index; [done|lia|lia|]. intros flags _.
  pose proof (optional_block_sound ObjectTimes.LEN data 6 (negb (Z.land flags OH_FLAG_STORE_TIMES =? 0)) Hb
    ltac:(lia) ltac:(done)) as H1.
  destruct (ObjectHeaderPrefix.optional_block _ _ _ _) as [[t p1]|e]; [|apply sound_fail]. cbn [try_]. destruct H1 as [H1 _].
  pose proof (optional_block_sound AttributePhaseChange.LEN data p1
    (negb (Z.land flags OH_FLAG_ATTRIBUTE_PHASE_CHANGE =? 0)) Hb ltac:(lia) ltac:(done)) as H2.
  destruct (ObjectHeaderPrefix.optional_block AttributePhaseChange.LEN _ _ _) as [[t2 p2]|e]; [|apply sound_fail]. cbn [try_].
  destruct H2 as [H2 _]. cbv zeta. rewrite read_uint_width_eq by lia.
  eapply sound_bind; [by apply read_word_sound|]. intros n [Hn _]. apply sound_ok. unfold fits in Hn.
  split; cbn; [destruct (UintWidth.from_flags flags); simpl; lia|lia].
Qed.

Lemma chunk0_len_ok p len :
  ObjectHeaderPrefix.chunk0_len p = Ok len → len = parsed_len p + chunk0_size p + 4 ∧ len ≤ USIZE_MAX.
Proof.
  unfold ObjectHeaderPrefix.chunk0_len, checked_add, HEADER_CHECKSUM_LEN, to_usize.
  destruct (_ <=? U64_MAX); [|done]. cbn [mbind option_bind].
  destruct (_ <=? U64_MAX); [|done]. cbn [ok_or result_bind].
  destruct (_ <=? USIZE_MAX) eqn:E; [|done]. intros [= <-]. lia.
Qed.

Lemma parse_v2_sound data ctx offset filter :
  Forall byte data → zlen data ≤ USIZE_MAX → 0 ≤ base_address ctx → 0 ≤ offset →
  parse_v2 data ctx offset filter ⇝? (λ h, oh_version h = 2 ∧ Forall (message_ok filter) (oh_messages h)).
Proof.
  intros Hb Hu Hbase Ho. unfold parse_v2. apply within_ensure; [done|]. intros Hl.
  unfold slice_from, get_from. change (expect (get_range data offset (zlen data))) with (slice data offset (zlen data)).
  apply within_slice; [done|lia|lia|]. intros head Hh Hz.
  eapply sound_bind; [apply header_prefix_sound; [done|lia]|]. intros p [Hp Hc].
  destruct (ObjectHeaderPrefix.chunk0_len p) as [len|e] eqn:El; [|apply sound_fail]. cbn [try_].
  assert (Hlen : 0 ≤ len).
  { apply chunk0_len_ok in El as [-> _]; lia. }
  destruct (region data offset len) as [image|e] eqn:Er; [|apply sound_fail]. cbn [try_].
  apply region_bytes_ok in Er as (Hi & Hzi & _); [|done..].
  unfold root_chunk. eapply (sound_bind _ _ chunk_ok).
  { eapply sound_bind; [by apply checksummed_sound|]. intros r [Hr _]. by apply sound_ok. }
  intros root Hroot.
  eapply sound_bind.
  { unfold collector_new. apply ingest_sound; [done|]. split; [split_and!; [done|done|by constructor]|by constructor]. }
  intros st [Hst Hv]. cbv zeta. eapply sound_bind.
  - apply continuation_loop_sound; [done| |rewrite Hv; done|done].
    intros _ a n Ha Hn. apply within_to_usize. intros _.
    destruct (region data a n) as [bytes|e] eqn:Eb; [|apply sound_fail]. cbn [try_].
    apply region_bytes_ok in Eb as (Hbb & _); [|done..].
    eapply sound_bind; [by apply continuation_chunk_sound|]. intros c Hc'. by apply sound_ok.
  - intros [st' _] [_ Hm]. by apply sound_ok.
Qed.

End Safety.
End V2Facts.

Section Headers.
Context `{B : Build}.

(** No bytes make the parser panic or follow continuations for ever. *)
Lemma parse_header_file_sound data mode offset ws base filter :
  Forall byte data → zlen data ≤ USIZE_MAX → 0 ≤ base → 0 ≤ offset →
  ObjectHeader.parse_filtered_with_widths data mode offset ws base filter
    ⇝? (λ h, (oh_version h = 1 ∨ oh_version h = 2) ∧ Forall (message_ok filter) (oh_messages h)).
Proof.
  intros Hb Hu Hbase Ho. unfold ObjectHeader.parse_filtered_with_widths. cbv zeta.
  apply within_ensure; [done|]. intros Hl. apply within_slice; [done|lia|lia|]. intros s _ _.
  case_bool_decide; (eapply sound_mono; [by first [apply V2Facts.parse_v2_sound|apply V1Facts.parse_v1_sound]|]);
    intros h [? ?]; auto.
Qed.

End Headers.

(** ** Filtering

    A filter decides only which messages are kept: the parse takes the same steps, ends with
    the same errors, and the header has the messages of the unfiltered parse that the filter
    keeps. *)

Definition retained (mf : MessageFilter) (ms : list HeaderMessage) : list HeaderMessage :=
  filter (λ m, MessageFilter.keeps mf (msg_type m) (msg_data m) = true) ms.

Definition retain_header (mf : MessageFilter) (h : ObjectHeader) : ObjectHeader :=
  mkHeader (oh_version h) (oh_prefix h) (retained mf (oh_messages h)) (oh_reference_count h) (oh_flags h)
    (oh_access_time h) (oh_modification_time h) (oh_change_time h) (oh_birth_time h).

Lemma retained_app mf ms m :
  retained mf (ms ++ [m])
  = retained mf ms ++ (if MessageFilter.keeps mf (msg_type m) (msg_data m) then [m] else []).
Proof.
  unfold retained. rewrite filter_app. f_equal. rewrite filter_cons, filter_nil.
  destruct (MessageFilter.keeps _ _ _); [by rewrite decide_True|by rewrite decide_False].
Qed.

(** The same steps under a change of the state. *)
Definition follows {A A' E} (f : A → A') (m : outcome (result A E)) (m' : outcome (result A' E)) : Prop :=
  m' = (a ←? m; ok (f a)).

Lemma follows_fail {A A' E} (f : A → A') (e : E) : follows f (fail e) (fail e).
Proof. done. Qed.

Lemma follows_panic {A A' E} (f : A → A') : follows (E := E) f Panic Panic.
Proof. done. Qed.

Lemma follows_bind {A A' C C' E} (f : A → A') (g : C → C') (m : outcome (result A E)) m'
    (k : A → outcome (result C E)) k' :
  follows f m m' → (∀ a, follows g (k a) (k' (f a))) → follows g (and_then m k) (and_then m' k').
Proof. unfold follows. intros -> Hk. destruct m as [[a|e]|]; [apply (Hk a)|done..]. Qed.

(** A step both runs share. *)
Lemma follows_same {A C C' E} (g : C → C') (m : outcome (result A E)) (k : A → outcome (result C E)) k' :
  (∀ a, follows g (k a) (k' a)) → follows g (and_then m k) (and_then m k').
Proof. intros Hk. destruct m as [[a|e]|]; [apply (Hk a)|done..]. Qed.

Lemma follows_try {A C C' E} (g : C → C') (m : result A E) (k : A → outcome (result C E)) k' :
  (∀ a, follows g (k a) (k' a)) → follows g (try_ m k) (try_ m k').
Proof. intros Hk. destruct m as [a|e]; [apply Hk|done]. Qed.

Lemma follows_step {A C C' E} (g : C → C') (m : outcome A) (k : A → outcome (result C E)) k' :
  (∀ a, follows g (k a) (k' a)) → follows g (m ≫= k) (m ≫= k').
Proof. intros Hk. destruct m as [a|]; [apply Hk|done]. Qed.

Module V1Filter.
Import V1.
Section Filter.
Context `{B : Build} (mf : MessageFilter) (ctx : ParseContext).

Definition retain (st : Collector) : Collector :=
  mkCollector (visits st) (retained mf (messages st)) (observed st).

Lemma keep_retain st r : keep mf (retain st) r = retain (keep All st r).
Proof.
  unfold keep, retain. cbn [MessageFilter.keeps]. rewrite andb_true_r.
  destruct (negb (rec_type r =? MessageType.NIL)); [|done]. cbn [andb visits messages observed].
  rewrite retained_app. cbn [msg_type msg_data].
  destruct (MessageFilter.keeps mf (rec_type r) (rec_body r)); [done|by rewrite app_nil_r].
Qed.

Lemma admit_retain st data depth :
  follows (λ '(p, st), (p, retain st)) (admit_visit ctx st data depth) (admit_visit ctx (retain st) data depth).
Proof.
  unfold admit_visit. cbv zeta. destruct (_ <? _); [exact eq_refl|].
  apply follows_same. intros a. apply follows_same. intros n. destruct a as [a|]; [|apply follows_fail].
  cbn [retain visits]. destruct (_ || _); [apply follows_fail|].
  apply follows_try. intros s. apply follows_same. intros r. exact eq_refl.
Qed.

Lemma collect_loop_retain follow follow' :
  (∀ st p, follows retain (follow st p) (follow' (retain st) p)) →
  ∀ fuel st records max count depth,
  follows retain (collect_loop ctx All follow fuel st records max count depth)
    (collect_loop ctx mf follow' fuel (retain st) records max count depth).
Proof.
  intros Hf. induction fuel as [|fuel IH]; intros st records max count depth; [apply follows_panic|].
  cbn [collect_loop]. destruct (_ || _); [exact eq_refl|].
  apply follows_same. intros [[r n]|]; [|destruct max; [exact eq_refl|apply follows_fail]]. cbv zeta.
  apply follows_step. intros rest. rewrite keep_retain. apply (follows_bind retain); [|intros; apply IH].
  destruct (_ =? _); [|exact eq_refl].
  apply (follows_bind (λ '(p, st), (p, retain st))); [apply admit_retain|].
  intros [[p|] st']; [apply Hf|exact eq_refl].
Qed.

Lemma collect_buffered_retain data level st records max depth :
  follows retain (collect_buffered ctx All data level st records max depth)
    (collect_buffered ctx mf data level (retain st) records max depth).
Proof.
  revert st records max depth. induction level as [|level IH]; intros st records max depth;
    cbn [collect_buffered]; apply collect_loop_retain; intros st' p; [apply follows_panic|]. cbv zeta.
  apply follows_try. intros a. apply follows_try. intros n. apply follows_try. intros _.
  apply follows_step. intros s. apply IH.
Qed.

Lemma parse_v1_retain data offset :
  follows (retain_header mf) (parse_v1 data ctx offset All) (parse_v1 data ctx offset mf).
Proof.
  unfold parse_v1. apply follows_try. intros _. apply follows_step. intros v.
  destruct (negb _); [apply follows_fail|]. do 3 (apply follows_step; intros ?).
  do 3 (apply follows_try; intros ?). apply follows_step. intros s.
  apply (follows_bind retain); [apply (collect_buffered_retain _ _ (mkCollector 0 [] None))|].
  intros st. exact eq_refl.
Qed.

End Filter.
End V1Filter.

Module V2Filter.
Import V2.
Section Filter.
Context `{B : Build} (mf : MessageFilter) (ctx : ParseContext).

Definition retain (st : Collector) : Collector := mkCollector (retained mf (messages st)) (worklist st).

Lemma ingest_retain st c : follows retain (ingest ctx All st c) (ingest ctx mf (retain st) c).
Proof.
  unfold ingest. apply follows_step. intros rs. revert st.
  induction rs as [|r rs IH]; intros st; cbn [ingest_records]; [exact eq_refl|].
  apply follows_same. intros k. apply (follows_bind retain); [|intros; apply IH].
  destruct k as [c'|r'|]; [|  |exact eq_refl].
  - cbn [retain worklist]. apply follows_try. intros w. exact eq_refl.
  - unfold follows. rewrite and_then_ok. f_equal. f_equal.
    unfold keep_if_the_filter_keeps, retain. cbn [MessageFilter.keeps messages worklist].
    rewrite retained_app. cbn [msg_type msg_data].
    destruct (MessageFilter.keeps mf _ _); [done|by rewrite app_nil_r].
Qed.

Lemma continuation_loop_retain {O} (next_chunk : O → Z → Z → exec (HeaderChunk * O)) fuel st obs :
  follows (λ '(st, o), (retain st, o)) (continuation_loop ctx All next_chunk fuel st obs)
    (continuation_loop ctx mf next_chunk fuel (retain st) obs).
Proof.
  revert st obs. induction fuel as [|fuel IH]; intros st obs; [apply follows_panic|].
  cbn [continuation_loop]. unfold next_continuation, next_unvisited. cbn [retain worklist messages].
  destruct (discovered (worklist st) !! _) as [c|]; [|exact eq_refl].
  destruct (BaseAddress.resolve _ _) as [a|e]; [|apply follows_fail]. cbn [result_bind try_].
  apply follows_same. intros [chunk obs'].
  apply (follows_bind retain); [apply (ingest_retain (mkCollector (messages st) _))|]. intros st'. apply IH.
Qed.

Lemma parse_v2_retain data offset :
  follows (retain_header mf) (parse_v2 data ctx offset All) (parse_v2 data ctx offset mf).
Proof.
  unfold parse_v2. apply follows_try. intros _. apply follows_step. intros head. apply follows_same. intros p.
  apply follows_try. intros n. apply follows_try. intros image. apply follows_same. intros root.
  apply (follows_bind retain); [apply (ingest_retain (mkCollector [] _))|]. intros st. cbv zeta.
  apply (follows_bind (λ '(st, o), (retain st, o))); [apply continuation_loop_retain|].
  intros [st' []]. exact eq_refl.
Qed.

End Filter.
End V2Filter.

Lemma parse_filtered_retained `{B : Build} mf data mode offset ws base :
  follows (retain_header mf) (ObjectHeader.parse_filtered_with_widths data mode offset ws base All)
    (ObjectHeader.parse_filtered_with_widths data mode offset ws base mf).
Proof.
  unfold ObjectHeader.parse_filtered_with_widths. cbv zeta. apply follows_try. intros _.
  apply follows_step. intros s. case_bool_decide; [apply V2Filter.parse_v2_retain|apply V1Filter.parse_v1_retain].
Qed.
