(* ===== verification/ObjectHeaderCodec.v ===== *)
(** * Writing object headers and reading them through a source

    The layout of a version 2 prefix and of its records: an encoded header is read back, a
    source gives what the buffer gives, and a spliced record changes that record alone. *)

From S2P Require Import Prelude Addresses Words ByteFields ByteFieldFacts Checksums FileRegions.
From S2P Require Import ObjectHeaders ObjectHeaderFacts.

Local Open Scope Z_scope.

(** ** The layout of a prefix *)

Definition flag_set (flags mask : Z) : bool := negb (Z.land flags mask =? 0).

(** The optional block of a prefix. *)
Definition block_of (n : Z) (present : bool) (b : list Z) : Prop := zlen b = if present then n else 0.

Definition block_option (present : bool) (b : list Z) : option (list Z) := if present then Some b else None.

(** The bytes [l] open with a prefix of these fields, and [rest] follows it. *)
Record prefix_layout (l : list Z) (flags : Z) (tb pb sb rest : list Z) : Prop := {
  pre_data : l = OHDR_SIGNATURE ++ [OBJECT_HEADER_VERSION; flags] ++ tb ++ pb ++ sb ++ rest;
  pre_times : block_of ObjectTimes.LEN (flag_set flags OH_FLAG_STORE_TIMES) tb;
  pre_phase : block_of AttributePhaseChange.LEN (flag_set flags OH_FLAG_ATTRIBUTE_PHASE_CHANGE) pb;
  pre_size : zlen sb = UintWidth.get (UintWidth.from_flags flags);
}.

Definition layout_prefix (flags : Z) (tb pb sb : list Z) : ParsedObjectHeaderPrefix :=
  mkParsedPrefix
    (mkHeaderPrefix (MessageRecordLayout.from_header_flags flags)
       (ObjectTimes.parse <$> block_option (flag_set flags OH_FLAG_STORE_TIMES) tb)
       (AttributePhaseChange.parse <$> block_option (flag_set flags OH_FLAG_ATTRIBUTE_PHASE_CHANGE) pb))
    flags (le_value sb) (6 + zlen tb + zlen pb + zlen sb).

Section Prefix.
Context `{B : Build}.

Lemma optional_block_at n data pos present b r :
  bytes_at data pos (b ++ r) → 0 ≤ n → block_of n present b →
  ObjectHeaderPrefix.optional_block n data pos present = Ok (block_option present b, pos + zlen b) ∧
  bytes_at data (pos + zlen b) r.
Proof.
  intros Hat Hn Hb. split; [|by apply (bytes_at_skip _ _ _ _ _ Hat)].
  unfold ObjectHeaderPrefix.optional_block, block_option, block_of in *. destruct present; cbn [negb].
  - destruct Hat as (p & -> & <-). unfold get_from.
    pose proof (get_range_app p (b ++ r) [] (zlen p) (zlen (p ++ b ++ r)) eq_refl) as Hg.
    rewrite app_nil_r in Hg. rewrite Hg by (by rewrite zlen_app). cbn [mbind option_bind].
    rewrite <- Hb, get_range_prefix. done.
  - by rewrite Hb, Z.add_0_r.
Qed.

Lemma parse_prefix_layout l flags tb pb sb rest :
  zlen l ≤ USIZE_MAX → prefix_layout l flags tb pb sb rest →
  ObjectHeaderPrefix.parse l = ok (layout_prefix flags tb pb sb).
Proof.
  intros Hu [Hl Ht Hp Hs]. unfold ObjectHeaderPrefix.parse.
  assert (Hat : bytes_at l 6 (tb ++ pb ++ sb ++ rest)) by (by exists (OHDR_SIGNATURE ++ [OBJECT_HEADER_VERSION; flags])).
  rewrite (ensure_len_at l 0 (OHDR_SIGNATURE ++ [OBJECT_HEADER_VERSION; flags]) (tb ++ pb ++ sb ++ rest) 6 Hu);
    [|rewrite Hl; apply bytes_at_0|done]. cbn [try_].
  assert (Hsig : slice l 0 4 = Ret OHDR_SIGNATURE).
  { unfold slice. rewrite Hl. pose proof (get_range_prefix OHDR_SIGNATURE
      ([OBJECT_HEADER_VERSION; flags] ++ tb ++ pb ++ sb ++ rest)) as Hg. change (zlen OHDR_SIGNATURE) with 4 in Hg.
    by rewrite Hg. }
  rewrite Hsig. cbn [mbind outcome_bind]. rewrite bool_decide_true by done. cbn [negb].
  assert (H4 : index l 4 = Ret OBJECT_HEADER_VERSION) by (by rewrite Hl).
  assert (H5 : index l 5 = Ret flags) by (by rewrite Hl). rewrite H4, H5. cbn [mbind outcome_bind].
  change (negb (OBJECT_HEADER_VERSION =? OBJECT_HEADER_VERSION)) with false. cbv iota.
  fold (flag_set flags OH_FLAG_STORE_TIMES). fold (flag_set flags OH_FLAG_ATTRIBUTE_PHASE_CHANGE).
  destruct (optional_block_at ObjectTimes.LEN l 6 _ tb _ Hat ltac:(done) Ht) as [-> Hat1]. cbn [try_].
  destruct (optional_block_at AttributePhaseChange.LEN l _ _ pb _ Hat1 ltac:(done) Hp) as [-> Hat2]. cbn [try_]. cbv zeta.
  pose proof (bytes_at_nonneg _ _ _ Hat2). rewrite read_uint_width_eq by done. unfold read_word. rewrite <- Hs.
  apply (bytes_at_app _ _ _ _ (zlen sb)) in Hat2 as [-> _]; [|done]. by rewrite and_then_ok.
Qed.

Lemma optional_block_inv n data pos present o pos' r :
  bytes_at data pos r → 0 ≤ n → ObjectHeaderPrefix.optional_block n data pos present = Ok (o, pos') →
  ∃ b r', r = b ++ r' ∧ block_of n present b ∧ o = block_option present b ∧ pos' = pos + zlen b.
Proof.
  intros (p & -> & <-) Hn. unfold ObjectHeaderPrefix.optional_block, block_of, block_option. destruct present; cbn [negb].
  - unfold get_from. pose proof (get_range_app p r [] (zlen p) (zlen (p ++ r)) eq_refl) as Hg.
    rewrite app_nil_r in Hg. rewrite Hg by (by rewrite zlen_app). cbn [mbind option_bind].
    destruct (get_range r 0 n) as [b|] eqn:E; [|done]. cbn [ok_or result_bind]. intros [= <- <-].
    apply get_range_split in E as (p' & r' & -> & Hp' & Hz). destruct p'; [|done].
    exists b, r'. split_and!; [done|lia|done|lia].
  - intros [= <- <-]. exists [], r. split_and!; [done|done|done|]. by rewrite Z.add_0_r.
Qed.

Lemma prefix_layout_inv l p :
  zlen l ≤ USIZE_MAX → ObjectHeaderPrefix.parse l = ok p →
  ∃ flags tb pb sb rest, prefix_layout l flags tb pb sb rest ∧ p = layout_prefix flags tb pb sb.
Proof.
  intros Hu Hp. unfold ObjectHeaderPrefix.parse in Hp.
  destruct (ensure_len_cases l 0 6 Hu) as [[He Hl]|[e He]]; rewrite He in Hp; [|done]. cbn [try_] in Hp.
  assert (Hsplit : ∃ a b c d v f l', l = a :: b :: c :: d :: v :: f :: l').
  { clear -Hl. destruct l as [|? [|? [|? [|? [|? [|? ?]]]]]]; try done. by eexists _, _, _, _, _, _, _. }
  destruct Hsplit as (a & b & c & d & v & f & l' & ->).
  assert (Hslice : slice (a :: b :: c :: d :: v :: f :: l') 0 4 = Ret [a; b; c; d]).
  { unfold slice. pose proof (get_range_prefix [a; b; c; d] (v :: f :: l')) as Hg.
    change (zlen [a; b; c; d]) with 4 in Hg. cbn [app] in Hg. by rewrite Hg. }
  rewrite Hslice in Hp. cbn [mbind outcome_bind] in Hp. case_bool_decide as Hsig; [|done]. cbn [negb] in Hp.
  change (index (a :: b :: c :: d :: v :: f :: l') 4) with (Ret v) in Hp.
  change (index (a :: b :: c :: d :: v :: f :: l') 5) with (Ret f) in Hp. cbn [mbind outcome_bind] in Hp.
  destruct (negb (v =? OBJECT_HEADER_VERSION)) eqn:Ev; [done|]. apply negb_false_iff, Z.eqb_eq in Ev as ->.
  fold (flag_set f OH_FLAG_STORE_TIMES) in Hp. fold (flag_set f OH_FLAG_ATTRIBUTE_PHASE_CHANGE) in Hp.
  set (l := a :: b :: c :: d :: OBJECT_HEADER_VERSION :: f :: l') in *.
  destruct (ObjectHeaderPrefix.optional_block ObjectTimes.LEN l 6 _) as [[t p1]|] eqn:E1; [|done]. cbn [try_] in Hp.
  apply (optional_block_inv _ _ _ _ _ _ l') in E1 as (tb & r1 & -> & Htb & -> & ->);
    [|by exists [a; b; c; d; OBJECT_HEADER_VERSION; f]|done].
  destruct (ObjectHeaderPrefix.optional_block AttributePhaseChange.LEN l _ _) as [[t2 p2]|] eqn:E2; [|done]. cbn [try_] in Hp.
  assert (Hat1 : bytes_at l (6 + zlen tb) r1).
  { exists ([a; b; c; d; OBJECT_HEADER_VERSION; f] ++ tb). split; [done|]. by rewrite zlen_app. }
  apply (optional_block_inv _ _ _ _ _ _ r1 Hat1) in E2 as (pb & r2 & -> & Hpb & -> & ->); [|done].
  assert (Hat2 : bytes_at l (6 + zlen tb + zlen pb) r2) by (by apply (bytes_at_skip _ pb)).
  cbv zeta in Hp. pose proof (bytes_at_nonneg _ _ _ Hat2). rewrite read_uint_width_eq in Hp by done.
  unfold read_word in Hp. destruct (get_range l _ _) as [sb|] eqn:E3; [|done]. rewrite and_then_ok in Hp.
  apply get_range_split in E3 as (pre & r3 & Heq & Hpre & Hsb).
  destruct Hat2 as (pre' & Heq' & Hpre'). rewrite Heq' in Heq.
  apply app_inj_1 in Heq as [_ ->]; [|unfold zlen in *; lia].
  exists f, tb, pb, sb, r3. split; [|injection Hp as <-; unfold layout_prefix; do 2 f_equal; lia].
  split; [|done|done|lia]. unfold l. by rewrite <- Hsig.
Qed.

Lemma prefix_len_bounds l flags tb pb sb rest :
  prefix_layout l flags tb pb sb rest →
  zlen l = parsed_len (layout_prefix flags tb pb sb) + zlen rest ∧
  7 ≤ parsed_len (layout_prefix flags tb pb sb) ≤ OBJECT_HEADER_PREFIX_MAX_LEN.
Proof.
  intros [-> Ht Hp Hs]. unfold block_of, ObjectTimes.LEN, AttributePhaseChange.LEN, OBJECT_HEADER_PREFIX_MAX_LEN in *. cbn [layout_prefix parsed_len].
  rewrite !zlen_app. change (zlen OHDR_SIGNATURE) with 4. change (zlen [_; _]) with 2.
  pose proof (uint_get_cases (UintWidth.from_flags flags)).
  destruct (flag_set flags OH_FLAG_STORE_TIMES), (flag_set flags OH_FLAG_ATTRIBUTE_PHASE_CHANGE); lia.
Qed.

(** A prefix lies in the first 34 bytes: a reader of those sees what a reader of all of
    them sees. *)
Lemma parse_prefix_head l n p :
  zlen l ≤ USIZE_MAX → OBJECT_HEADER_PREFIX_MAX_LEN ≤ n ∨ zlen l ≤ n →
  ObjectHeaderPrefix.parse (take (Z.to_nat n) l) = ok p ↔ ObjectHeaderPrefix.parse l = ok p.
Proof.
  intros Hu Hn. pose proof (zlen_nonneg l) as Hl0.
  assert (Htu : zlen (take (Z.to_nat n) l) ≤ USIZE_MAX) by (unfold zlen in *; rewrite length_take; lia).
  split; intros Hp.
  - apply prefix_layout_inv in Hp as (flags & tb & pb & sb & rest & Hlay & ->); [|done].
    apply (parse_prefix_layout _ _ _ _ _ (rest ++ drop (Z.to_nat n) l)); [done|]. destruct Hlay as [Hd ? ? ?].
    split; [|done..]. rewrite <- (take_drop (Z.to_nat n) l) at 1. rewrite Hd. by rewrite <- !app_assoc.
  - apply prefix_layout_inv in Hp as (flags & tb & pb & sb & rest & Hlay & ->); [|done].
    pose proof (prefix_len_bounds _ _ _ _ _ _ Hlay) as [Hz Hb]. cbn [layout_prefix parsed_len] in *.
    destruct (decide (zlen l ≤ n)) as [Hle|Hgt].
    { rewrite take_ge by (unfold zlen in *; lia). by apply (parse_prefix_layout _ _ _ _ _ rest). }
    apply (parse_prefix_layout _ _ _ _ _ (take (Z.to_nat (n - (6 + zlen tb + zlen pb + zlen sb))) rest)); [done|].
    destruct Hlay as [Hd ? ? ?]. split; [|done..]. rewrite Hd, !app_assoc, take_app.
    f_equal; [apply take_ge|f_equal]; rewrite !length_app; unfold zlen in *; simpl length; lia.
Qed.

End Prefix.

(** ** Encoded headers are read back *)

Definition record_bytes (ly : MessageRecordLayout) (t f ci : Z) (body : list Z) : list Z :=
  [t] ++ le_bytes 2 (zlen body) ++ [f] ++ (if tracked ly then le_bytes 2 ci else []) ++ body.

Definition message_bytes (ly : MessageRecordLayout) (m : HeaderMessage) : list Z :=
  record_bytes ly (msg_type m) (msg_flags m) (default 0 (creation_order m)) (msg_data m).

(** The record of a message that starts at [pos]. *)
Definition message_record (ly : MessageRecordLayout) (pos : Z) (m : HeaderMessage) : MessageRecord :=
  let body := pos + MessageRecordLayout.prefix_len ly in
  mkRecord (msg_type m) (msg_flags m) (creation_order m) (msg_data m) (body, body + zlen (msg_data m)).

(** A message a record of this layout holds. *)
Record message_fits (ly : MessageRecordLayout) (m : HeaderMessage) : Prop := {
  fits_type : byte (msg_type m);
  fits_flags : byte (msg_flags m);
  fits_size : msg_size m = zlen (msg_data m);
  fits_max : zlen (msg_data m) ≤ OBJECT_HEADER_MESSAGE_MAX;
  fits_data : Forall byte (msg_data m);
  fits_order : match creation_order m with Some i => tracked ly = true ∧ fits 2 i | None => tracked ly = false end;
}.

(** A message of an unknown type that [mode] must not skip. *)
Definition message_refused (mode : AccessMode) (m : HeaderMessage) : bool :=
  negb (MessageType.is_known (msg_type m)) && MessageFlags.must_be_understood (msg_flags m) mode.

(** What a header of these messages, none a continuation, is read as: the first refused one
    is reported, and otherwise all but the NIL messages, which are free space, are kept. *)
Definition read_messages (mode : AccessMode) (ms : list HeaderMessage) : result (list HeaderMessage) FormatError :=
  match list_find (λ m, message_refused mode m = true) ms with
  | Some (_, m) => Err (UnsupportedMessage (msg_type m))
  | None => Ok (filter (λ m, msg_type m ≠ MessageType.NIL) ms)
  end.

Lemma read_messages_cons mode m ms :
  read_messages mode (m :: ms)
  = if message_refused mode m then Err (UnsupportedMessage (msg_type m))
    else result_map (λ l, if decide (msg_type m ≠ MessageType.NIL) then m :: l else l) (read_messages mode ms).
Proof.
  unfold read_messages. cbn [list_find]. destruct (message_refused mode m) eqn:E.
  - by rewrite decide_True.
  - rewrite decide_False by done. destruct (list_find _ ms) as [[i x]|]; [done|].
    cbn [fmap option_fmap option_map prod_map result_map]. by rewrite filter_cons.
Qed.

Section Records.
Context `{B : Build}.

(** The records of messages, each appended with [write_record]. *)
Fixpoint write_records (ly : MessageRecordLayout) (buf : list Z) (ms : list HeaderMessage) : outcome (list Z) :=
  match ms with
  | [] => Ret buf
  | m :: ms =>
    buf ← MessageRecordLayout.write_record ly buf (msg_type m) (msg_flags m) (default 0 (creation_order m)) (msg_data m);
    write_records ly buf ms
  end.

Lemma write_record_eq ly buf t f ci body :
  byte t → zlen body ≤ OBJECT_HEADER_MESSAGE_MAX →
  MessageRecordLayout.write_record ly buf t f ci body = Ret (buf ++ record_bytes ly t f ci body).
Proof.
  intros Ht Hb. unfold MessageRecordLayout.write_record, MessageRecordLayout.write_record_prefix, record_bytes, byte in *.
  replace (t <=? 255) with true by lia. replace (zlen body <=? OBJECT_HEADER_MESSAGE_MAX) with true by lia.
  cbn [assert_ mbind outcome_bind]. rewrite low_bytes_2, Z.mod_small by lia. by rewrite <- !app_assoc.
Qed.

Lemma write_records_eq ly buf ms :
  Forall (message_fits ly) ms → write_records ly buf ms = Ret (buf ++ concat (message_bytes ly <$> ms)).
Proof.
  intros Hm. revert buf. induction Hm as [|m ms Hm Hms IH]; intros buf; cbn [write_records]; [by rewrite app_nil_r|].
  rewrite write_record_eq by apply Hm. cbn [mbind outcome_bind]. rewrite IH. by rewrite <- app_assoc.
Qed.

Lemma message_bytes_byte ly m : message_fits ly m → Forall byte (message_bytes ly m).
Proof.
  intros [? ? _ _ ? _]. unfold message_bytes, record_bytes. rewrite !Forall_app, !Forall_singleton.
  split_and!; [done|apply le_bytes_byte|done| |done]. destruct (tracked ly); [apply le_bytes_byte|done].
Qed.

Lemma zlen_message_bytes ly m :
  zlen (message_bytes ly m) = MessageRecordLayout.prefix_len ly + zlen (msg_data m).
Proof.
  unfold message_bytes, record_bytes, MessageRecordLayout.prefix_len. rewrite !zlen_app, !zlen_le_bytes, !zlen_cons.
  destruct (tracked ly); rewrite ?zlen_le_bytes; change (zlen []) with 0; lia.
Qed.

Lemma next_message_at ly region pos m r :
  message_fits ly m → bytes_at region pos (message_bytes ly m ++ r) →
  MessageRecordLayout.next_message ly region pos = Ok (Some (message_record ly pos m)).
Proof.
  intros Hm (p & -> & <-). pose proof (get_range_app p (message_bytes ly m ++ r) [] (zlen p)
    (zlen (p ++ message_bytes ly m ++ r)) eq_refl) as Hg. rewrite app_nil_r in Hg.
  unfold MessageRecordLayout.next_message, get_from. rewrite Hg by (by rewrite zlen_app).
  destruct Hm as [_ _ _ Hmax _ Ho]. unfold message_bytes, record_bytes, OBJECT_HEADER_MESSAGE_MAX in *.
  set (region := p ++ _). clearbody region. rewrite <- !app_assoc. rewrite le_bytes_2. cbn [app].
  assert (Hn : le_value [zlen (msg_data m) mod 256; zlen (msg_data m) / 256 mod 256] = zlen (msg_data m)).
  { apply le_value_2. pose proof (zlen_nonneg (msg_data m)). unfold fits. lia. }
  rewrite Hn. unfold message_record, MessageRecordLayout.prefix_len. destruct (creation_order m) as [i|].
  - destruct Ho as [-> Hi]. cbn [default]. rewrite le_bytes_2. cbn [app]. rewrite get_range_prefix.
    by rewrite le_value_2.
  - rewrite Ho. cbn [app]. by rewrite get_range_prefix.
Qed.

Lemma next_message_end ly region pos :
  bytes_at region pos [] → MessageRecordLayout.next_message ly region pos = Ok None.
Proof.
  intros (p & -> & <-). unfold MessageRecordLayout.next_message, get_from. rewrite app_nil_r.
  pose proof (get_range_app p [] [] (zlen p) (zlen p) eq_refl) as Hg. rewrite !app_nil_r in Hg.
  by rewrite Hg by (change (zlen []) with 0; lia).
Qed.

Fixpoint records_at (ly : MessageRecordLayout) (pos : Z) (ms : list HeaderMessage) : list MessageRecord :=
  match ms with
  | [] => []
  | m :: ms => message_record ly pos m :: records_at ly (pos + zlen (message_bytes ly m)) ms
  end.

Lemma records_from_at ly region fuel pos ms :
  Forall (message_fits ly) ms → bytes_at region pos (concat (message_bytes ly <$> ms)) → (length ms < fuel)%nat →
  V2.records_from ly region fuel pos = Ret (records_at ly pos ms).
Proof.
  intros Hm. revert pos fuel. induction Hm as [|m ms Hm Hms IH]; intros pos fuel Hat Hf;
    (destruct fuel as [|fuel]; [cbn [length] in *; lia|]); cbn [V2.records_from].
  - by rewrite next_message_end.
  - cbn [fmap list_fmap concat] in Hat. rewrite (next_message_at _ _ _ m _ Hm Hat). cbn [record_body_range message_record snd].
    replace (pos + MessageRecordLayout.prefix_len ly + zlen (msg_data m)) with (pos + zlen (message_bytes ly m))
      by (rewrite zlen_message_bytes; lia).
    rewrite IH; [done|by apply (bytes_at_skip _ _ _ _ _ Hat)|cbn [length] in Hf; lia].
Qed.

Lemma records_length ly ms :
  Forall (message_fits ly) ms → (length ms ≤ length (concat (message_bytes ly <$> ms)))%nat.
Proof.
  induction 1 as [|m ms Hm Hms IH]; [done|]. rewrite fmap_cons. cbn [concat length]. rewrite length_app.
  pose proof (zlen_message_bytes ly m) as Hz. unfold MessageRecordLayout.prefix_len in Hz.
  pose proof (zlen_nonneg (msg_data m)). unfold zlen in *. destruct (tracked ly); lia.
Qed.

Lemma ingest_messages ctx ly w ms0 ms pos :
  Forall (message_fits ly) ms → Forall (λ m, msg_type m ≠ MessageType.OBJECT_HEADER_CONTINUATION) ms →
  V2.ingest_records ctx All (V2.mkCollector ms0 w) (records_at ly pos ms)
  = Ret (result_map (λ l, V2.mkCollector (ms0 ++ l) w) (read_messages (access_mode ctx) ms)).
Proof.
  intros Hm Hp. revert pos ms0. induction Hm as [|m ms Hm Hms IH]; intros pos ms0; cbn [records_at V2.ingest_records].
  - cbn. by rewrite app_nil_r.
  - apply Forall_cons in Hp as [Hcont Hp]. apply Z.eqb_neq in Hcont. rewrite read_messages_cons.
    unfold V2.classify, message_refused. cbn [record_type record_flags message_record].
    rewrite Hcont. unfold MessageType.unknown_id. destruct (msg_type m =? MessageType.NIL) eqn:Enil.
    + apply Z.eqb_eq in Enil. rewrite Enil.
      change (MessageType.is_known MessageType.NIL) with true. cbn [negb andb]. rewrite !and_then_ok, IH by done.
      destruct (read_messages _ ms); cbn [result_map]; [|done]. by rewrite decide_False by tauto.
    + apply Z.eqb_neq in Enil.
      destruct (negb (MessageType.is_known (msg_type m)) && _) eqn:Er.
      { apply andb_true_iff in Er as [Hk%negb_true_iff Hu]. by rewrite Hk, Hu. }
      assert (Hc : (match (if MessageType.is_known (msg_type m) then None else Some (msg_type m)) with
        | Some id => if MessageFlags.must_be_understood (msg_flags m) (access_mode ctx) then fail (UnsupportedMessage id)
                     else ok (V2.Message (message_record ly pos m))
        | None => ok (V2.Message (message_record ly pos m)) end) = ok (V2.Message (message_record ly pos m))).
      { destruct (MessageType.is_known _); [done|]. by destruct (MessageFlags.must_be_understood _ _). }
      rewrite Hc, !and_then_ok. unfold V2.keep_if_the_filter_keeps.
      cbn [MessageFilter.keeps V2.messages V2.worklist record_body record_type record_flags record_creation_index message_record].
      rewrite IH by done. destruct (read_messages _ ms); cbn [result_map]; [|done]. rewrite decide_True, <- app_assoc by done. cbn [app].
      pose proof (fits_size _ _ Hm) as <-. by destruct m.
Qed.

End Records.

(** The fields of a prefix at their widths. *)
Definition times_fit (t : ObjectTimes) : Prop :=
  fits 4 (access t) ∧ fits 4 (modification t) ∧ fits 4 (change t) ∧ fits 4 (birth t).

Definition phase_fit (p : AttributePhaseChange) : Prop := fits 2 (attr_max_compact p) ∧ fits 2 (attr_min_dense p).

Definition prefix_fit (p : ObjectHeaderPrefix) : Prop :=
  match times p with Some t => times_fit t | None => True end ∧
  match attribute_phase_change p with Some a => phase_fit a | None => True end.

Lemma times_written t : times_fit t → ObjectTimes.parse (ObjectTimes.to_bytes t) = t.
Proof.
  intros (? & ? & ? & ?). unfold ObjectTimes.parse, ObjectTimes.to_bytes.
  destruct t as [a m c b]. cbn [access modification change birth] in *.
  change (mkTimes (le_value (le_bytes 4 a)) (le_value (le_bytes 4 m)) (le_value (le_bytes 4 c)) (le_value (le_bytes 4 b))
    = mkTimes a m c b). by rewrite !le_value_bytes.
Qed.

Lemma phase_written p : phase_fit p → AttributePhaseChange.parse (AttributePhaseChange.to_bytes p) = p.
Proof.
  intros [? ?]. destruct p as [a b]. unfold AttributePhaseChange.parse, AttributePhaseChange.to_bytes.
  cbn [attr_max_compact attr_min_dense] in *. rewrite !le_bytes_2. cbn [app take drop]. by rewrite !le_value_2.
Qed.

(** The bits of the flag byte do not overlap. *)
Lemma header_flags_bits p w :
  let flags := Z.lor (UintWidth.flag_bits w) (ObjectHeaderPrefix.header_flags p) in
  UintWidth.from_flags flags = w ∧ MessageRecordLayout.from_header_flags flags = layout p ∧
  flag_set flags OH_FLAG_STORE_TIMES = bool_decide (is_Some (times p)) ∧
  flag_set flags OH_FLAG_ATTRIBUTE_PHASE_CHANGE = bool_decide (is_Some (attribute_phase_change p)) ∧ byte flags.
Proof.
  destruct p as [[tr ix] t a]. unfold ObjectHeaderPrefix.header_flags, MessageRecordLayout.header_flags.
  cbn [layout times attribute_phase_change tracked indexed].
  destruct tr, ix, t, a, w; (split_and!; try done; try (by rewrite bool_decide_true by eauto); 
    try (by rewrite bool_decide_false by (by intros [? ?])); cbv -[Z.le Z.lt]; lia).
Qed.

Section Encoding.
Context `{B : Build}.

(** The header an encoding of a prefix and messages is read as. *)
Definition encoded_header (p : ObjectHeaderPrefix) (n : Z) (ms : list HeaderMessage) : ObjectHeader :=
  mkHeader OBJECT_HEADER_VERSION (Some p) ms None
    (Z.lor (UintWidth.flag_bits (UintWidth.smallest_for_len n)) (ObjectHeaderPrefix.header_flags p))
    (access <$> times p) (modification <$> times p) (change <$> times p) (birth <$> times p).

Definition times_bytes (p : ObjectHeaderPrefix) : list Z :=
  match times p with Some t => ObjectTimes.to_bytes t | None => [] end.

Definition phase_bytes (p : ObjectHeaderPrefix) : list Z :=
  match attribute_phase_change p with Some a => AttributePhaseChange.to_bytes a | None => [] end.

Lemma written_blocks p flags :
  prefix_fit p → flag_set flags OH_FLAG_STORE_TIMES = bool_decide (is_Some (times p)) →
  flag_set flags OH_FLAG_ATTRIBUTE_PHASE_CHANGE = bool_decide (is_Some (attribute_phase_change p)) →
  block_of ObjectTimes.LEN (flag_set flags OH_FLAG_STORE_TIMES) (times_bytes p) ∧
  block_of AttributePhaseChange.LEN (flag_set flags OH_FLAG_ATTRIBUTE_PHASE_CHANGE) (phase_bytes p) ∧
  ObjectTimes.parse <$> block_option (flag_set flags OH_FLAG_STORE_TIMES) (times_bytes p) = times p ∧
  AttributePhaseChange.parse <$> block_option (flag_set flags OH_FLAG_ATTRIBUTE_PHASE_CHANGE) (phase_bytes p)
    = attribute_phase_change p.
Proof.
  intros [Ht Ha] -> ->. unfold times_bytes, phase_bytes.
  destruct (times p) as [t|], (attribute_phase_change p) as [a|];
    rewrite ?(bool_decide_true (is_Some (Some _))), ?(bool_decide_false (is_Some None)) by (eauto || by intros [? ?]);
    cbn [block_option fmap option_fmap option_map]; rewrite ?times_written, ?phase_written by done; by split_and!.
Qed.

(** The bytes of an encoded header before its checksum. *)
Definition oh_body (p : ObjectHeaderPrefix) (records : list Z) : list Z :=
  let w := UintWidth.smallest_for_len (zlen records) in
  OHDR_SIGNATURE ++ [OBJECT_HEADER_VERSION; Z.lor (UintWidth.flag_bits w) (ObjectHeaderPrefix.header_flags p)]
  ++ times_bytes p ++ phase_bytes p ++ le_bytes (Z.to_nat (UintWidth.get w)) (zlen records) ++ records.

Lemma smallest_fits n : u64 n → fits (UintWidth.get (UintWidth.smallest_for_len n)) n.
Proof. intros Hn. apply uint_holds; [done|]. by apply uint_smallest_holds. Qed.

Lemma oh_body_byte p records : Forall byte records → Forall byte (oh_body p records).
Proof.
  intros Hr. unfold oh_body. cbv zeta. destruct (header_flags_bits p (UintWidth.smallest_for_len (zlen records))) as (_ & _ & _ & _ & Hf).
  rewrite !Forall_app, Forall_cons, Forall_singleton. split_and!; try done; try apply le_bytes_byte.
  - repeat constructor; unfold byte; lia.
  - unfold times_bytes. destruct (times p); [|done]. unfold ObjectTimes.to_bytes.
    rewrite !Forall_app. split_and!; apply le_bytes_byte.
  - unfold phase_bytes. destruct (attribute_phase_change p); [|done]. unfold AttributePhaseChange.to_bytes.
    rewrite !Forall_app. split_and!; apply le_bytes_byte.
Qed.

Lemma zlen_blocks p : zlen (times_bytes p) + zlen (phase_bytes p) = ObjectHeaderPrefix.optional_len p.
Proof.
  unfold times_bytes, phase_bytes, ObjectHeaderPrefix.optional_len. by destruct (times p), (attribute_phase_change p).
Qed.

Lemma encode_header_eq p records :
  Forall byte records → u64 (zlen records) →
  ObjectHeaderPrefix.encode_header p records
  = Ret (oh_body p records ++ le_bytes 4 (lookup3 (oh_body p records))).
Proof.
  intros Hr Hu. unfold ObjectHeaderPrefix.encode_header, ObjectHeaderPrefix.encode_header_with,
    ObjectHeaderPrefix.encode_header_at_width, ObjectHeaderPrefix.write_prefix. cbv zeta.
  rewrite uint_write_eq; [|apply Hu|apply smallest_fits, Hu]. cbn [mbind outcome_bind].
  fold (times_bytes p) (phase_bytes p).
  match goal with |- context [zlen ?b =? _] => assert (Hb : b = oh_body p records) end.
  { unfold oh_body. cbv zeta. rewrite <- !app_assoc. reflexivity. }
  rewrite Hb. pose proof (zlen_blocks p) as Hz. rewrite jenkins_lookup3_ret by (by apply oh_body_byte).
  assert (Hl : zlen (oh_body p records)
    = zlen OHDR_SIGNATURE + 2 + ObjectHeaderPrefix.optional_len p + UintWidth.get (UintWidth.smallest_for_len (zlen records))
      + zlen records).
  { unfold oh_body. cbv zeta. rewrite !zlen_app, zlen_le_bytes, Z2Nat.id, !zlen_cons by (destruct (UintWidth.smallest_for_len _); simpl; lia).
    change (zlen []) with 0. lia. }
  rewrite Hl, Z.eqb_refl. done.
Qed.

(** What the parser finds behind the prefix of an encoded header. *)
Lemma encoded_prefix p records tail :
  prefix_fit p → u64 (zlen records) →
  let w := UintWidth.smallest_for_len (zlen records) in
  let flags := Z.lor (UintWidth.flag_bits w) (ObjectHeaderPrefix.header_flags p) in
  let len := 6 + ObjectHeaderPrefix.optional_len p + UintWidth.get w in
  prefix_layout (oh_body p records ++ tail) flags (times_bytes p) (phase_bytes p)
    (le_bytes (Z.to_nat (UintWidth.get w)) (zlen records)) (records ++ tail) ∧
  layout_prefix flags (times_bytes p) (phase_bytes p) (le_bytes (Z.to_nat (UintWidth.get w)) (zlen records))
    = mkParsedPrefix p flags (zlen records) len ∧
  bytes_at (oh_body p records) len records ∧ zlen (oh_body p records) = len + zlen records.
Proof.
  intros Hp Hu w flags len. destruct (header_flags_bits p w) as (Hw & Hly & Ht & Ha & _). fold flags in Hw, Hly, Ht, Ha.
  destruct (written_blocks p flags Hp Ht Ha) as (Hbt & Hba & Hpt & Hpa). pose proof (zlen_blocks p) as Hz.
  assert (Hg : 0 ≤ UintWidth.get w) by (pose proof (uint_get_cases w); lia).
  assert (Hsz : zlen (le_bytes (Z.to_nat (UintWidth.get w)) (zlen records)) = UintWidth.get w)
    by (rewrite zlen_le_bytes, Z2Nat.id; done).
  assert (Hat : bytes_at (oh_body p records) len records).
  { exists (OHDR_SIGNATURE ++ [OBJECT_HEADER_VERSION; flags] ++ times_bytes p ++ phase_bytes p
            ++ le_bytes (Z.to_nat (UintWidth.get w)) (zlen records)).
    split; [unfold oh_body; cbv zeta; fold w flags; by rewrite <- !app_assoc|].
    rewrite !zlen_app, Hsz, !zlen_cons. change (zlen OHDR_SIGNATURE) with 4. change (zlen []) with 0. unfold len. lia. }
  split_and!; [split|..]; [|done|done|by rewrite Hw| |done|].
  - unfold oh_body. cbv zeta. fold w flags. by rewrite <- !app_assoc.
  - unfold layout_prefix. rewrite Hpt, Hpa, Hly, Hsz, le_value_bytes.
    + unfold len. rewrite <- Hz, Z.add_assoc. by destruct p.
    + rewrite Z2Nat.id by done. by apply smallest_fits.
  - destruct Hat as (q & -> & Hq). rewrite zlen_app. lia.
Qed.

Lemma encoded_chunk0_len p (records : list Z) flags len :
  0 ≤ len → len + zlen records + 4 ≤ USIZE_MAX →
  ObjectHeaderPrefix.chunk0_len (mkParsedPrefix p flags (zlen records) len) = Ok (len + zlen records + 4).
Proof.
  intros Hl Hu. pose proof usize_bounds. pose proof (zlen_nonneg records).
  unfold ObjectHeaderPrefix.chunk0_len, checked_add, HEADER_CHECKSUM_LEN, to_usize. cbn [parsed_len chunk0_size].
  replace (len + zlen records <=? U64_MAX) with true by lia. cbn [mbind option_bind].
  replace (len + zlen records + 4 <=? U64_MAX) with true by lia. cbn [ok_or result_bind].
  by replace (len + zlen records + 4 <=? USIZE_MAX) with true by lia.
Qed.

Lemma checksummed_body body :
  Forall byte body → V2.checksummed (body ++ le_bytes 4 (lookup3 body)) = ok body.
Proof.
  intros Hb. unfold V2.checksummed. rewrite verify_trailing_app by done. rewrite and_then_ok.
  pose proof (zlen_nonneg body). rewrite zlen_app, zlen_le_bytes. unfold HEADER_CHECKSUM_LEN.
  replace (4 <=? zlen body + Z.of_nat 4) with true by lia. f_equal. f_equal.
  rewrite length_app, length_le_bytes, Nat.add_sub. apply take_app_length.
Qed.

Lemma zlen_records_body p records : zlen records ≤ zlen (oh_body p records).
Proof.
  unfold oh_body. cbv zeta. rewrite !zlen_app. pose proof (zlen_nonneg (times_bytes p)).
  pose proof (zlen_nonneg (phase_bytes p)). rewrite zlen_le_bytes, !zlen_cons. pose proof (zlen_nonneg OHDR_SIGNATURE). change (zlen []) with 0. lia.
Qed.

(** Chunk 0 of an encoded header: its messages are ingested, and no continuation follows. *)
Lemma encoded_chunk_ingest ctx p ms len :
  Forall (message_fits (layout p)) ms → Forall (λ m, msg_type m ≠ MessageType.OBJECT_HEADER_CONTINUATION) ms →
  let body := oh_body p (concat (message_bytes (layout p) <$> ms)) in
  bytes_at body len (concat (message_bytes (layout p) <$> ms)) →
  V2.collector_new ctx All (V2.mkHeaderChunk body len (layout p))
  = Ret (result_map (λ l, V2.mkCollector l (V2.mkWorklist [] 0)) (read_messages (access_mode ctx) ms)).
Proof.
  intros Hm Hpl body Hat. unfold V2.collector_new, V2.ingest, V2.message_records.
  cbn [V2.chunk_layout V2.chunk_region V2.records_start]. pose proof (records_length _ _ Hm) as Hln.
  pose proof (zlen_records_body p (concat (message_bytes (layout p) <$> ms))) as Hz. fold body in Hz.
  rewrite (records_from_at _ _ _ _ ms) by (done || unfold zlen in Hz; lia). cbn [mbind outcome_bind].
  by rewrite ingest_messages.
Qed.

(** Encoding a prefix and messages gives a header that is read back, wherever it lies. *)
Lemma encoded_header_read p ms mode ws pre rest :
  prefix_fit p → Forall (message_fits (layout p)) ms →
  Forall (λ m, msg_type m ≠ MessageType.OBJECT_HEADER_CONTINUATION) ms →
  let records := concat (message_bytes (layout p) <$> ms) in
  let data := pre ++ (oh_body p records ++ le_bytes 4 (lookup3 (oh_body p records))) ++ rest in
  zlen data ≤ USIZE_MAX →
  ObjectHeader.parse_with_widths data mode (zlen pre) ws
  = Ret (result_map (encoded_header p (zlen records)) (read_messages mode ms)).
Proof.
  intros Hp Hm Hpl records data Hu. pose proof usize_bounds as Hub. pose proof (zlen_nonneg pre). pose proof (zlen_nonneg rest).
  assert (Hrb : Forall byte records).
  { apply Forall_concat, Forall_fmap. eapply Forall_impl; [exact Hm|]. intros m. apply message_bytes_byte. }
  set (body := oh_body p records) in *. set (image := body ++ le_bytes 4 (lookup3 body)) in *.
  assert (Hz : zlen data = zlen pre + (zlen body + 4) + zlen rest).
  { unfold data, image. rewrite !zlen_app, zlen_le_bytes. lia. }
  pose proof (zlen_nonneg records) as Hr0. pose proof (zlen_records_body p records) as Hr1. fold body in Hr1.
  destruct (encoded_prefix p records (le_bytes 4 (lookup3 body) ++ rest) Hp) as (Hlay & Hlp & Hat & Hzb); [unfold u64; lia|].
  set (flags := Z.lor _ _) in *. set (len := 6 + _ + _) in *. fold body in Hlay, Hat, Hzb.
  pose proof (prefix_len_bounds _ _ _ _ _ _ Hlay) as [_ Hb]. rewrite Hlp in Hb. cbn [parsed_len] in Hb.
  assert (H6 : bytes_at data (zlen pre) ((OHDR_SIGNATURE ++ [OBJECT_HEADER_VERSION; flags]) ++ drop 6 (image ++ rest)))
    by (by exists pre).
  assert (H4 := H6). rewrite <- app_assoc in H4.
  unfold ObjectHeader.parse_with_widths, ObjectHeader.parse_with_base_and_widths, ObjectHeader.parse_filtered_with_widths.
  cbv zeta. rewrite (ensure_len_at _ _ _ _ _ Hu H4) by done. cbn [try_].
  unfold slice at 1. rewrite (proj1 (bytes_at_app _ _ _ _ 4 H4 eq_refl)). cbn [expect mbind outcome_bind].
  rewrite bool_decide_true by done. unfold V2.parse_v2.
  rewrite (ensure_len_at _ _ _ _ _ Hu H6) by done. cbn [try_].
  assert (Hsf : slice_from data (zlen pre) = Ret (body ++ le_bytes 4 (lookup3 body) ++ rest)).
  { rewrite (app_assoc body). apply slice_from_app. }
  rewrite Hsf. cbn [mbind outcome_bind]. rewrite (parse_prefix_layout _ _ _ _ _ _) with (2 := Hlay), Hlp; cycle 1.
  { rewrite app_assoc. fold image. unfold data in Hu. rewrite zlen_app in Hu. lia. }
  rewrite and_then_ok. rewrite encoded_chunk0_len by lia. cbn [try_].
  assert (Hreg : region data (zlen pre) (len + zlen records + 4) = Ok image).
  { apply region_ok_iff; [done|lia|lia|]. apply get_range_app; [done|]. unfold image. rewrite zlen_app, zlen_le_bytes. lia. }
  rewrite Hreg. cbn [try_]. unfold V2.root_chunk, image. rewrite checksummed_body by (by apply oh_body_byte).
  rewrite !and_then_ok. cbn [parsed_len parsed_prefix]. 
  pose proof (encoded_chunk_ingest (mkContext mode ws BaseAddress.ZERO) p ms len Hm Hpl Hat) as Hc.
  fold records body in Hc. rewrite Hc. cbn [access_mode]. by destruct (read_messages mode ms).
Qed.

End Encoding.

(** ** Replacing the body of a record *)

Section Splicing.
Context `{B : Build}.

Definition with_body (body : list Z) (m : HeaderMessage) : HeaderMessage :=
  mkMessage (msg_type m) (zlen body) (msg_flags m) (creation_order m) body.

(** The records before the first of type [t], that record and the ones behind it. *)
Lemma first_from_spec ly t before ms fuel :
  Forall (message_fits ly) before → Forall (message_fits ly) ms → (length ms < fuel)%nat →
  let region := concat (message_bytes ly <$> before ++ ms) in
  RecordSplice.first_from ly region t fuel (zlen (concat (message_bytes ly <$> before))) =
  match list_find (λ m, msg_type m = t) ms with
  | Some (i, m) =>
    let head := concat (message_bytes ly <$> before ++ take i ms) in
    ok (Some (mkSplice ly head (message_record ly (zlen head) m) (concat (message_bytes ly <$> drop (S i) ms))))
  | None => ok None
  end.
Proof.
  intros Hb Hm. revert fuel before Hb. induction Hm as [|m ms Hm Hms IH]; intros fuel before Hb Hf region;
    (destruct fuel as [|fuel]; [cbn [length] in *; lia|]); cbn [RecordSplice.first_from].
  - rewrite next_message_end; [done|]. exists (concat (message_bytes ly <$> before)). unfold region. by rewrite !app_nil_r.
  - assert (Hreg : region = concat (message_bytes ly <$> before) ++ message_bytes ly m ++ concat (message_bytes ly <$> ms)).
    { unfold region. by rewrite fmap_app, concat_app. }
    rewrite (next_message_at _ _ _ m (concat (message_bytes ly <$> ms)) Hm) by (by exists (concat (message_bytes ly <$> before))).
    cbn [try_ record_type message_record]. cbv zeta. cbn [list_find].
    set (h := concat (message_bytes ly <$> before)) in *.
    assert (He : snd (record_body_range (message_record ly (zlen h) m)) = zlen (h ++ message_bytes ly m)).
    { cbn [message_record record_body_range snd]. rewrite zlen_app, zlen_message_bytes. lia. }
    fold (message_record ly (zlen h) m). rewrite He. destruct (decide (msg_type m = t)) as [Ht|Ht].
    + rewrite Ht, Z.eqb_refl. cbn [take]. rewrite app_nil_r. fold h. rewrite Hreg, get_range_prefix.
      unfold get_from. rewrite (app_assoc h).
      pose proof (get_range_app (h ++ message_bytes ly m) (concat (message_bytes ly <$> ms)) [] _
        (zlen ((h ++ message_bytes ly m) ++ concat (message_bytes ly <$> ms))) eq_refl) as Hg.
      rewrite app_nil_r in Hg. by rewrite Hg by (apply zlen_app).
    + apply Z.eqb_neq in Ht. rewrite Ht. pose proof (IH fuel (before ++ [m])) as IH'. cbv zeta in IH'.
      assert (Hh : concat (message_bytes ly <$> before ++ [m]) = h ++ message_bytes ly m).
      { rewrite fmap_app, concat_app. cbn [fmap list_fmap concat]. by rewrite app_nil_r. }
      rewrite Hh, <- app_assoc in IH'. cbn [app] in IH'. fold region in IH'.
      rewrite IH'; [|apply Forall_app; split; [done|by apply Forall_singleton]|cbn [length] in Hf; lia].
      destruct (list_find _ ms) as [[i m']|]; [|done]. cbn [fmap option_fmap option_map prod_map fst snd take drop].
      by rewrite <- app_assoc.
Qed.

(** Replacing the body of the first record of type [t] gives the records of the messages with
    that message's body replaced. *)
Lemma splice_body ly t ms body :
  Forall (message_fits ly) ms → zlen body ≤ OBJECT_HEADER_MESSAGE_MAX →
  (splice ←? RecordSplice.first ly (concat (message_bytes ly <$> ms)) t;
   match splice with Some s => region ←? RecordSplice.replace_body s body; ok (Some region) | None => ok None end)
  = ok ((λ '(i, m), concat (message_bytes ly <$> <[i := with_body body m]> ms))
          <$> list_find (λ m, msg_type m = t) ms).
Proof.
  intros Hm Hb. unfold RecordSplice.first.
  pose proof (first_from_spec ly t [] ms (S (length (concat (message_bytes ly <$> ms)))) (Forall_nil_2 _) Hm) as Hf.
  cbv zeta in Hf. cbn [app fmap list_fmap concat] in Hf. change (zlen []) with 0 in Hf.
  rewrite Hf by (pose proof (records_length ly ms Hm); lia). clear Hf.
  destruct (list_find _ ms) as [[i m]|] eqn:E; [|done]. rewrite and_then_ok. apply list_find_Some in E as (Hi & Ht & _).
  unfold RecordSplice.replace_body, RecordSplice.replace_record, RecordSplice.replace_record_into, RecordSplice.replacement_len.
  cbn [splice_record splice_head splice_tail splice_layout record_type record_flags record_creation_index message_record].
  destruct (_ <? _) eqn:El; [lia|]. cbn [try_].
  assert (Hmf : message_fits ly m) by (by apply (Forall_lookup_1 _ _ _ _ Hm Hi)).
  rewrite write_record_eq by (done || apply Hmf). cbn [mbind outcome_bind app]. rewrite and_then_ok.
  cbn [fmap option_fmap option_map]. do 3 f_equal. rewrite insert_take_drop by (by apply lookup_lt_Some in Hi).
  rewrite fmap_app, concat_app. cbn [fmap list_fmap concat]. by rewrite <- app_assoc.
Qed.

End Splicing.
