(* ===== verification/ObjectHeaderSource.v ===== *)
(** * Reading object headers through a source

    A source over a buffer gives the headers the buffered parsers give: the two parsers
    read different ranges (a source reads a prefix before it knows how long the header is)
    and check them differently, and they succeed on the same bytes with the same header. *)

From S2P Require Import Prelude Addresses Words ByteFields ByteFieldFacts Checksums FileRegions SuperblockFacts.
From S2P Require Import ObjectHeaders ObjectHeaderFacts ObjectHeaderCodec.

Local Open Scope Z_scope.

(** Two computations that succeed on the same occasions, with results [R] relates. *)
Definition agree {A A'} (R : A → A' → Prop) (m : exec A) (m' : exec A') : Prop :=
  (∀ a, m = ok a → ∃ a', m' = ok a' ∧ R a a') ∧ (∀ a', m' = ok a' → ∃ a, m = ok a ∧ R a a').

Lemma agree_ok {A A'} (R : A → A' → Prop) a a' : R a a' → agree R (ok a) (ok a').
Proof. intros HR. split; intros ? [= <-]; eauto. Qed.

Lemma agree_none {A A'} (R : A → A' → Prop) (m : exec A) (m' : exec A') :
  (∀ a, m ≠ ok a) → (∀ a, m' ≠ ok a) → agree R m m'.
Proof. intros H H'. split; intros a Ha; [by destruct (H a)|by destruct (H' a)]. Qed.

Lemma agree_fail {A A'} (R : A → A' → Prop) e e' : agree R (fail e) (fail e').
Proof. by apply agree_none. Qed.

Lemma agree_panic {A A'} (R : A → A' → Prop) : agree R Panic Panic.
Proof. by apply agree_none. Qed.

Lemma agree_bind {A A' C C'} (R : A → A' → Prop) (Q : C → C' → Prop) m m' k k' :
  agree R m m' → (∀ a a', R a a' → agree Q (k a) (k' a')) → agree Q (and_then m k) (and_then m' k').
Proof.
  intros [Hm Hm'] Hk. split; intros c (a & Ha & Hc)%and_then_ok_inv.
  - apply Hm in Ha as (a' & -> & HR). rewrite and_then_ok. by apply (Hk a a').
  - apply Hm' in Ha as (a' & -> & HR). rewrite and_then_ok. by apply (Hk a' a).
Qed.

(** A step both share. *)
Lemma agree_same {A C C'} (Q : C → C' → Prop) (m : exec A) k k' :
  (∀ a, m = ok a → agree Q (k a) (k' a)) → agree Q (and_then m k) (and_then m k').
Proof.
  intros Hk. apply (agree_bind (λ a a', a = a' ∧ m = ok a)); [|intros a ? [<- ?]; by apply Hk].
  split; intros a Ha; eauto.
Qed.

Lemma agree_step {A C C'} (Q : C → C' → Prop) (m : outcome A) k k' :
  (∀ a, agree Q (k a) (k' a)) → agree Q (m ≫= k) (m ≫= k').
Proof. intros Hk. destruct m as [a|]; [apply Hk|apply agree_panic]. Qed.

Lemma agree_refl {A} (m : exec A) : agree eq m m.
Proof. split; eauto. Qed.

(** Two computations that agree with a third. *)
Lemma agree_trans {A C C'} (R : C → C' → Prop) (m : exec C) (m1 : exec A) (f : A → C) m' :
  agree (λ c a, c = f a) m m1 → agree R m m' → agree (λ a c', R (f a) c') m1 m'.
Proof.
  intros [H1 H2] [H3 H4]. split.
  - intros a Ha. apply H2 in Ha as (c & Hc & ->). by apply H3.
  - intros c' Hc'. apply H4 in Hc' as (c & Hc & HR). apply H1 in Hc as (a & Ha & ->). eauto.
Qed.

(** ** One range of a buffer *)

(** Bytes of a range are bytes of the buffer. *)
Lemma index_in_range (data : list Z) a b s i :
  get_range data a b = Some s → 0 ≤ i < zlen s → index s i = index data (a + i).
Proof.
  intros (p & r & -> & <- & _)%get_range_split Hi. pose proof (zlen_nonneg p). unfold index.
  destruct (i <? 0) eqn:E1; [lia|]. destruct (zlen p + i <? 0) eqn:E2; [lia|]. f_equal. symmetry.
  unfold zlen in *. rewrite lookup_app_r by lia. rewrite lookup_app_l by lia. f_equal. lia.
Qed.

Lemma index_bytes_in_range data a b s i n :
  get_range data a b = Some s → 0 ≤ i → i + Z.of_nat n ≤ zlen s → index_bytes s i n = index_bytes data (a + i) n.
Proof.
  intros Hs. revert i. induction n as [|n IH]; intros i Hi Hn; [done|]. cbn [index_bytes].
  rewrite (index_in_range _ _ _ _ _ Hs) by lia. rewrite IH by lia. by rewrite Z.add_assoc.
Qed.

Section Ranges.
Context `{B : Build} (data : list Z).
Hypothesis Hu : zlen data ≤ USIZE_MAX.

(** What both parsers do with a range of the buffer. *)
Definition with_range {A} (a n : Z) (k : list Z → exec A) : exec A :=
  match get_range data a (a + n) with Some s => k s | None => Panic end.

Lemma with_range_region {A A'} a n (k : list Z → exec A) (k' : list Z → exec A') Q :
  (∀ s, get_range data a (a + n) = Some s → agree Q (k s) (k' s)) →
  agree Q (with_range a n k) (try_ (region data a n) k').
Proof.
  intros Hk. unfold with_range. destruct (get_range data a (a + n)) as [s|] eqn:E.
  - pose proof E as (? & ? & _)%get_range_Some.
    rewrite (proj2 (region_ok_iff data a n s Hu ltac:(lia) ltac:(lia)) E). by apply Hk.
  - apply agree_none; [done|]. intros c. destruct (region data a n) as [s|e] eqn:Er; [|done].
    exfalso. revert Er E. unfold region, checked_add. destruct (_ <=? _); [|done]. cbn [ok_or result_bind].
    destruct (_ <? _); [done|]. unfold to_usize. destruct (_ <=? _); [|done]. cbn [result_bind].
    destruct (_ <=? _); [|done]. cbn [result_bind]. intros H E. by rewrite E in H.
Qed.

(** The checks of the buffered parsers. *)
Lemma with_range_slice {A A'} a n (k : list Z → exec A) (k' : list Z → exec A') Q :
  (∀ s, get_range data a (a + n) = Some s → agree Q (k s) (k' s)) →
  agree Q (with_range a n k) (try_ (ensure_len data a n) (λ _, slice data a (a + n) ≫= k')).
Proof.
  intros Hk. unfold with_range, slice. destruct (get_range data a (a + n)) as [s|] eqn:E.
  - pose proof E as (? & ? & _)%get_range_Some. unfold ensure_len.
    replace (a + n <=? USIZE_MAX) with true by lia. replace (a + n <=? zlen data) with true by lia. by apply Hk.
  - apply agree_none; [done|]. intros c. by destruct (ensure_len data a n).
Qed.

(** A check of positions only. *)
Lemma with_range_ensure {A A'} a n (k : list Z → exec A) (k' : unit → exec A') Q :
  0 ≤ a → 0 ≤ n → (∀ s, get_range data a (a + n) = Some s → agree Q (k s) (k' tt)) →
  agree Q (with_range a n k) (try_ (ensure_len data a n) k').
Proof.
  intros Ha Hn Hk. unfold with_range, ensure_len. destruct (get_range data a (a + n)) as [s|] eqn:E.
  - pose proof E as (? & ? & _)%get_range_Some. replace (a + n <=? USIZE_MAX) with true by lia.
    replace (a + n <=? zlen data) with true by lia. by apply Hk.
  - apply get_range_None in E. apply agree_none; [done|]. intros c.
    by replace (a + n <=? zlen data) with false by lia; rewrite andb_false_r.
Qed.

(** A step that fails only where the range does. *)
Lemma with_range_guard {A A' T} a n (k : list Z → exec A) (m : exec T) (k' : T → exec A') Q :
  (0 ≤ a → 0 ≤ n → a + n ≤ zlen data → ∃ v, m = ok v) →
  (∀ v, m = ok v → agree Q (with_range a n k) (k' v)) →
  agree Q (with_range a n k) (and_then m k').
Proof.
  intros Hm Hk. destruct m as [[v|e]|]; [by apply Hk|..]; (apply agree_none; [|done]); intros c;
    unfold with_range; (destruct (get_range data a (a + n)) as [s|] eqn:E; [|done]);
    apply get_range_Some in E as (? & ? & _); (destruct Hm as [? Hm]; [lia..|]); discriminate Hm.
Qed.

Lemma with_range_usize {A A'} a n (k : list Z → exec A) v (k' : Z → exec A') Q :
  (0 ≤ a → 0 ≤ n → a + n ≤ zlen data → v ≤ USIZE_MAX) →
  agree Q (with_range a n k) (k' v) → agree Q (with_range a n k) (try_ (to_usize v) k').
Proof.
  intros Hv Hk. apply (with_range_guard a n k (Ret (to_usize v)) k'); unfold to_usize.
  - intros. exists v. by replace (v <=? USIZE_MAX) with true by lia.
  - intros w. destruct (_ <=? _); [by intros [= <-]|done].
Qed.

Lemma with_range_add {A A'} a n (k : list Z → exec A) x y e (k' : Z → exec A') Q :
  (0 ≤ a → 0 ≤ n → a + n ≤ zlen data → x + y ≤ U64_MAX) →
  agree Q (with_range a n k) (k' (x + y)) → agree Q (with_range a n k) (try_ (ok_or (checked_add x y) e) k').
Proof.
  intros Hv Hk. apply (with_range_guard a n k (Ret (ok_or (checked_add x y) e)) k'); unfold checked_add.
  - intros. exists (x + y). by replace (x + y <=? U64_MAX) with true by lia.
  - intros w. destruct (_ <=? _); [by intros [= <-]|done].
Qed.

Lemma with_range_new {A A'} a n (k : list Z → exec A) s l (k' : FileRange → exec A') Q :
  (0 ≤ a → 0 ≤ n → a + n ≤ zlen data → 0 ≤ s ∧ 0 ≤ l ∧ s + l ≤ U64_MAX) →
  (∀ r, agree Q (with_range a n k) (k' r)) → agree Q (with_range a n k) (and_then (FileRange.new s l) k').
Proof.
  intros Hv Hk. apply with_range_guard; [|by intros]. intros Ha Hn Hl. destruct (Hv Ha Hn Hl) as (? & ? & ?).
  destruct (range_new_ok s l) as (r & -> & _); eauto.
Qed.

End Ranges.

(** ** Version 1 *)

Module V1Source.
Import V1.
Section Agreement.
Context `{B : Build} (mf : MessageFilter) (ctx : ParseContext) (data : list Z).
Hypothesis Hu : zlen data ≤ USIZE_MAX.

(** The same collector, without an observer. *)
Definition unobserved (st st' : Collector) : Prop := st' = st ∧ observed st = None.

Lemma admit_unobserved st body depth p st' :
  admit_visit ctx st body depth = ok (p, st') → observed st = None → observed st' = None.
Proof.
  unfold admit_visit. cbv zeta. destruct (_ <? _); [by intros [= _ <-]|].
  intros (a & _ & (n & _ & H)%and_then_ok_inv)%and_then_ok_inv. destruct a as [a|]; [|done].
  destruct (_ || _); [done|]. destruct (BaseAddress.resolve _ _); [|done]. cbn [try_] in H.
  apply and_then_ok_inv in H as (r & _ & [= _ <-]). done.
Qed.

Lemma unobserved_refl st : observed st = None → unobserved st st.
Proof. done. Qed.

Lemma collect_loop_agree follow follow' :
  (∀ st p, observed st = None → agree unobserved (follow st p) (follow' st p)) →
  ∀ fuel st records max count depth, observed st = None →
  agree unobserved (collect_loop ctx mf follow fuel st records max count depth)
    (collect_loop ctx mf follow' fuel st records max count depth).
Proof.
  intros Hf. induction fuel as [|fuel IH]; intros st records max count depth Hst; [apply agree_panic|].
  cbn [collect_loop]. destruct (_ || _); [by apply agree_ok|].
  apply agree_same. intros [[r n]|] _; [|destruct max; [by apply agree_ok|apply agree_fail]]. cbv zeta.
  assert (Hk : observed (keep mf st r) = None) by (unfold keep; by destruct (_ && _)).
  apply agree_step. intros rest. apply (agree_bind unobserved); [|intros a ? [-> ?]; by apply IH].
  destruct (_ =? _); [|by apply agree_ok]. apply agree_same. intros [p st'] Ha.
  pose proof (admit_unobserved _ _ _ _ _ Ha Hk). destruct p as [p|]; [by apply Hf|by apply agree_ok].
Qed.

Lemma collect_agree level st records max depth :
  observed st = None →
  agree unobserved (collect_buffered ctx mf data level st records max depth)
    (collect_from_source ctx mf (slice_metadata data) level st records max depth).
Proof.
  revert st records max depth. induction level as [|level IH]; intros st records max depth Hst;
    cbn [collect_buffered collect_from_source]; (apply collect_loop_agree; [|done]); intros st' p Hst'; [apply agree_panic|].
  cbv zeta. set (a := FileRange.start _). set (n := FileRange.length _).
  apply (agree_trans _ (with_range data a n (λ s, collect_buffered ctx mf data level st' s None (visit_depth p))) _ id).
  - apply with_range_usize; [lia|]. apply with_range_usize; [lia|]. apply with_range_slice; [done|].
    intros s _. apply agree_refl.
  - apply with_range_usize; [lia|]. change (read_metadata (slice_metadata data) a n) with (Ret (region data a n)).
    apply with_range_region; [done|]. intros s _. unfold observe_chunk. rewrite Hst', and_then_ok, <- Hst'.
    replace (mkCollector (visits st') (messages st') (observed st')) with st' by (by destruct st'). by apply IH.
Qed.

(** The records of a header behind its prefix [s]. *)
Definition header_from (offset : Z) (s : list Z) : exec ObjectHeader :=
  version ← index s 0;
  if negb (version =? 1) then fail (InvalidObjectHeaderVersion version)
  else
    num_messages ← u16_at s 2;
    reference_count ← u32_at s 4;
    size ← u32_at s 8;
    with_range data (offset + 16) size (λ records,
      collector ←? collect_buffered ctx mf data levels (mkCollector 0 [] None) records (Some num_messages) 0;
      ok (header (messages collector) reference_count)).

Lemma parse_v1_agree offset :
  0 ≤ offset →
  agree (λ h '(h', _), h' = h) (parse_v1 data ctx offset mf)
    (parse_v1_from_source (slice_metadata data) ctx offset mf None).
Proof.
  intros Ho. pose proof usize_bounds as Hub. unfold parse_v1, parse_v1_from_source. cbn [read_metadata slice_metadata].
  apply (agree_trans _ (with_range data offset UNPADDED_HEADER_PREFIX_LEN (header_from offset)) _ id).
  - apply with_range_ensure; [done|done|done|]. intros s Hs. pose proof (get_range_zlen _ _ _ _ Hs) as Hz.
    unfold UNPADDED_HEADER_PREFIX_LEN in Hz. unfold header_from, u16_at, u32_at.
    rewrite (index_in_range _ _ _ s 0 Hs), Z.add_0_r by lia. rewrite !(index_bytes_in_range _ _ _ _ _ _ Hs) by lia.
    apply agree_step. intros v. destruct (negb _); [apply agree_fail|]. do 3 (apply agree_step; intros ?).
    apply with_range_usize; [lia|].
    apply (with_range_guard data _ _ _ (Ret (ok_or _ _))); unfold usize_checked_add, UNPADDED_HEADER_PREFIX_LEN; change (12 + 4) with 16.
    { intros. replace (offset + 16 <=? USIZE_MAX) with true by lia. by eexists. }
    intros w. destruct (_ <=? _); [intros [= <-]|done].
    apply with_range_slice; [done|]. intros records _. apply agree_refl.
  - change (and_then (Ret (region data offset UNPADDED_HEADER_PREFIX_LEN)))
      with (try_ (B := ObjectHeader * Observer) (region data offset UNPADDED_HEADER_PREFIX_LEN)).
    apply with_range_region; [done|]. intros s Hs.
    apply agree_step. intros v. destruct (negb _); [apply agree_fail|]. do 2 (apply agree_step; intros ?). apply agree_step. intros size.
    apply with_range_add; [unfold ALIGNED_HEADER_PREFIX_LEN; lia|]. change ALIGNED_HEADER_PREFIX_LEN with 16.
    apply (with_range_guard data _ _ _ (Ret (if MessageFilter.keeps_all mf then to_usize (size / 8) else Ok 0))).
    { intros. destruct (MessageFilter.keeps_all mf); [|by eexists]. unfold to_usize.
      pose proof (Z.div_le_upper_bound size 8 size). replace (size / 8 <=? USIZE_MAX) with true by lia. by eexists. }
    intros _ _. apply with_range_new; [lia|]. intros rr. apply with_range_add; [lia|].
    apply with_range_new; [lia|]. intros al. apply with_range_usize; [lia|].
    change (and_then (Ret (region data (offset + 16) size)))
      with (try_ (B := ObjectHeader * Observer) (region data (offset + 16) size)).
    apply with_range_region; [done|]. intros records _. cbn [observe_chunk]. rewrite and_then_ok.
    apply (agree_bind unobserved); [by apply collect_agree|]. intros c ? [-> ?]. by apply agree_ok.
Qed.

End Agreement.
End V1Source.

(** ** Version 2 *)

Lemma agree_try {A C C'} (Q : C → C' → Prop) (r : result A FormatError) k k' :
  (∀ a, agree Q (k a) (k' a)) → agree Q (try_ r k) (try_ r k').
Proof. intros Hk. destruct r as [a|e]; [apply Hk|apply agree_fail]. Qed.

Module V2Source.
Import V2.
Section Agreement.
Context `{B : Build} (mf : MessageFilter) (ctx : ParseContext) (data : list Z).
Hypothesis Hu : zlen data ≤ USIZE_MAX.

(** The same result, and no observer. *)
Definition unobserved {A O} (a : A * O) (a' : A * Observer) : Prop := fst a' = fst a ∧ snd a' = None.

Lemma continuation_loop_agree {O} (next : O → Z → Z → exec (HeaderChunk * O)) next' :
  (∀ o a n, agree unobserved (next o a n) (next' None a n)) →
  ∀ fuel st o, agree unobserved (continuation_loop ctx mf next fuel st o)
                 (continuation_loop ctx mf next' fuel st None).
Proof.
  intros Hn. induction fuel as [|fuel IH]; intros st o; [apply agree_panic|]. cbn [continuation_loop].
  apply agree_try. intros [[[a n]|] st']; [|by apply agree_ok].
  apply (agree_bind unobserved); [apply Hn|]. intros [c o1] [c' o1'] [Hc Ho]. cbn [fst snd] in Hc, Ho. subst c' o1'.
  apply agree_same. intros st1 _. apply IH.
Qed.

(** The first bytes of a header hold its prefix. *)
Lemma prefix_agree {C C'} offset (k : ParsedObjectHeaderPrefix → exec C) (k' : ParsedObjectHeaderPrefix → exec C') Q :
  0 ≤ offset → (∀ p, agree Q (k p) (k' p)) →
  agree Q
    (try_ (ensure_len data offset 6) (λ _, head ← slice_from data offset; p ←? ObjectHeaderPrefix.parse head; k p))
    (try_ (to_usize (Z.min OBJECT_HEADER_PREFIX_MAX_LEN (Z.max 0 (zlen data - offset)))) (λ n,
     try_ (region data offset n) (λ head, p ←? ObjectHeaderPrefix.parse head; k' p))).
Proof.
  intros Ho Hk. set (n := Z.min _ _). pose proof usize_bounds as Hub.
  assert (Hn : 0 ≤ n ≤ OBJECT_HEADER_PREFIX_MAX_LEN) by (unfold n, OBJECT_HEADER_PREFIX_MAX_LEN; lia).
  unfold to_usize. replace (n <=? USIZE_MAX) with true by (unfold OBJECT_HEADER_PREFIX_MAX_LEN in Hn; lia). cbn [try_].
  destruct (decide (offset ≤ zlen data)) as [Hle|Hgt].
  - assert (Hg : get_range data offset (zlen data) = Some (drop (Z.to_nat offset) data)).
    { apply get_range_Some. split; [lia|]. split; [lia|]. rewrite take_ge; [done|]. rewrite length_drop. unfold zlen. lia. }
    set (l := drop (Z.to_nat offset) data) in *. pose proof (get_range_zlen _ _ _ _ Hg) as Hz.
    assert (Hr : region data offset n = Ok (take (Z.to_nat n) l)).
    { apply region_ok_iff; [done|done|lia|]. apply get_range_Some. split; [lia|]. split; [lia|].
      by replace (offset + n - offset) with n by lia. }
    rewrite Hr. cbn [try_]. unfold slice_from, get_from. rewrite Hg. cbn [expect mbind outcome_bind].
    destruct (ensure_len_cases data offset 6 Hu) as [[-> _]|[e He]]; cbn [try_].
    + apply (agree_bind eq); [|intros p ? <-; apply Hk].
      assert (Hp : ∀ p, ObjectHeaderPrefix.parse (take (Z.to_nat n) l) = ok p ↔ ObjectHeaderPrefix.parse l = ok p).
      { intros p. apply parse_prefix_head; [lia|unfold n; lia]. }
      split; intros p Hq; apply Hp in Hq; eauto.
    + rewrite He. apply agree_none; [done|]. intros c (p & Hp & _)%and_then_ok_inv.
      apply parse_prefix_head in Hp; [|lia|unfold n; lia]. apply prefix_layout_inv in Hp as (? & ? & ? & ? & tl & Hl & _); [|lia].
      apply prefix_len_bounds in Hl as [Hl' Hl]. revert He. unfold ensure_len.
      pose proof (zlen_nonneg tl).
      replace (offset + 6 <=? USIZE_MAX) with true by lia. by replace (offset + 6 <=? zlen data) with true by lia.
  - apply agree_none; intros c.
    + unfold ensure_len. replace (offset + 6 <=? zlen data) with false by lia. by rewrite andb_false_r.
    + destruct (region data offset n) eqn:Er; [|done]. apply region_ok_iff in Er; [|lia..].
      apply get_range_Some in Er. lia.
Qed.

Lemma parse_v2_agree offset :
  0 ≤ offset →
  agree (λ h '(h', _), h' = h) (parse_v2 data ctx offset mf)
    (parse_v2_from_source (slice_metadata data) ctx offset mf None).
Proof.
  intros Ho. unfold parse_v2, parse_v2_from_source. cbn [read_metadata slice_metadata metadata_len].
  apply prefix_agree; [done|]. intros p. apply agree_try. intros len. apply agree_try. intros image.
  apply agree_same. intros root _. cbn [observe]. rewrite and_then_ok. apply agree_same. intros st _. cbv zeta.
  apply (agree_bind unobserved); [|intros [c o] [c' o'] [Hc _]; cbn [fst] in Hc; subst c'; by apply agree_ok].
  apply continuation_loop_agree. intros _ a n. apply agree_try. intros n'. apply agree_try. intros bytes.
  apply agree_same. intros chunk _. cbn [observe]. rewrite and_then_ok. by apply agree_ok.
Qed.

End Agreement.
End V2Source.

(** ** Both versions *)

Lemma parse_source_agree `{B : Build} data mode offset ws base mf :
  zlen data ≤ USIZE_MAX → 0 ≤ offset →
  agree eq (ObjectHeader.parse_filtered_with_widths data mode offset ws base mf)
    (ObjectHeader.parse_from_source_filtered_with_widths (slice_metadata data) mode offset ws base mf).
Proof.
  intros Hu Ho. unfold ObjectHeader.parse_filtered_with_widths, ObjectHeader.parse_from_source_filtered_with_widths,
    ObjectHeader.parse_from_source_observed. cbv zeta. cbn [read_metadata slice_metadata].
  set (ctx := mkContext mode ws base).
  apply (agree_trans eq (with_range data offset 4 (λ sig,
    if bool_decide (sig = OHDR_SIGNATURE) then V2.parse_v2 data ctx offset mf else V1.parse_v1 data ctx offset mf)) _ id).
  - apply with_range_slice; [done|]. intros s _. apply agree_refl.
  - destruct (with_range_region data Hu offset 4
      (λ sig, if bool_decide (sig = OHDR_SIGNATURE) then V2.parse_v2 data ctx offset mf else V1.parse_v1 data ctx offset mf)
      (λ sig, if bool_decide (sig = OHDR_SIGNATURE) then V2.parse_v2_from_source (slice_metadata data) ctx offset mf None
              else V1.parse_v1_from_source (slice_metadata data) ctx offset mf None) (λ h '(h', _), h' = h)) as [H1 H2].
    { intros s _. case_bool_decide; [by apply V2Source.parse_v2_agree|by apply V1Source.parse_v1_agree]. }
    split.
    + intros h Hh. apply H1 in Hh as ([h' o] & Hh & ->). exists h. split; [|done].
      change (and_then (Ret (region data offset 4))) with (try_ (B := ObjectHeader * Observer) (region data offset 4)).
      by rewrite Hh.
    + intros h' ([h'' o] & Hh & [= <-])%and_then_ok_inv. apply H2 in Hh as (h & Hh & ->). eauto.
Qed.
