(* ===== verification/Journals.v ===== *)
(** * The publication of allocations and the undo journal

    Models of the facade crate [src/edit/allocation.rs] (the state machine that grants
    references to allocations once their batch is published) and [src/edit/commit/rollback.rs]
    with [rollback/scoped.rs] (writes that are journaled, and undone when their scope fails).
    The theorem at the end says what a granted reference stands for; the facts about the
    journal are in [GlobalHeapTheorems]. *)

From stdpp Require Import strings relations.
From S2P Require Import Prelude Addresses Words FileRegions.

Local Open Scope string_scope.
Local Open Scope Z_scope.

(** What the modelled code makes of the crate's errors. *)
Inductive Error : Type :=
| ErrorFormat (error : FormatError)
| ErrorIo (code : Z)
| AllocationPublicationUncertain
| CommitPartiallyApplied (refusal restore : Error).

(** ** Publication of allocations *)

(** An [Arc] of the [SessionIdentity] is known by its address. *)
Definition AllocationSession : Type := Z.

Inductive State : Type :=
| Confirmed (generation : Z)
| Provisional (confirmed generation : Z)
| Uncertain (confirmed generation : Z).

Record AllocationPublication : Type := mkPublication {
  publication_session : AllocationSession;
  publication_state : State;
  publication_sequence : Z;
}.

Record ProvisionalAllocation : Type := mkProvisional {
  provisional_session : AllocationSession;
  provisional_generation : Z;
  provisional_range : FileRange;
}.

Record PublicationAttempt : Type := mkAttempt {
  attempt_session : AllocationSession;
  attempt_generation : Z;
}.

Record ConfirmedPublication : Type := mkConfirmedPublication {
  confirmation_session : AllocationSession;
  confirmation_generation : Z;
}.

Record ConfirmedAllocation : Type := mkConfirmedAllocation {
  confirmed_session : AllocationSession;
  confirmed_generation : Z;
  confirmed_range : FileRange;
}.

Inductive PublicationAction : Type :=
| Current (publication : ConfirmedPublication)
| Publish (attempt : PublicationAttempt).

Definition mismatched_publication : Error :=
  ErrorFormat (Internal "allocation belongs to another session or publication").

Module AllocationPublication.

Definition new (session : AllocationSession) : AllocationPublication := mkPublication session (Confirmed 0) 0.

Definition with_state (self : AllocationPublication) (state : State) : AllocationPublication :=
  mkPublication (publication_session self) state (publication_sequence self).

Definition provision (self : AllocationPublication) (range : FileRange)
    : result ProvisionalAllocation Error * AllocationPublication :=
  match publication_state self with
  | Confirmed confirmed =>
    match checked_add (publication_sequence self) 1 with
    | None => (Err (ErrorFormat (Internal "allocation publication generation exceeds u64")), self)
    | Some generation =>
      (Ok (mkProvisional (publication_session self) generation range),
       mkPublication (publication_session self) (Provisional confirmed generation) generation)
    end
  | Provisional _ generation => (Ok (mkProvisional (publication_session self) generation range), self)
  | Uncertain _ _ => (Err AllocationPublicationUncertain, self)
  end.

Definition begin_ (self : AllocationPublication) : result PublicationAction Error * AllocationPublication :=
  match publication_state self with
  | Confirmed generation => (Ok (Current (mkConfirmedPublication (publication_session self) generation)), self)
  | Provisional confirmed generation =>
    (Ok (Publish (mkAttempt (publication_session self) generation)), with_state self (Uncertain confirmed generation))
  | Uncertain _ _ => (Err AllocationPublicationUncertain, self)
  end.

Definition complete (self : AllocationPublication) (attempt : PublicationAttempt)
    : result ConfirmedPublication Error * AllocationPublication :=
  if negb (publication_session self =? attempt_session attempt)
     || negb match publication_state self with
             | Uncertain _ generation => generation =? attempt_generation attempt
             | _ => false
             end
  then (Err mismatched_publication, self)
  else
    (Ok (mkConfirmedPublication (attempt_session attempt) (attempt_generation attempt)),
     with_state self (Confirmed (attempt_generation attempt))).

Definition cancel (self : AllocationPublication) (attempt : PublicationAttempt)
    : result unit Error * AllocationPublication :=
  if negb (publication_session self =? attempt_session attempt) then (Err mismatched_publication, self)
  else
    match publication_state self with
    | Uncertain confirmed generation =>
      if negb (generation =? attempt_generation attempt) then (Err mismatched_publication, self)
      else (Ok tt, with_state self (Confirmed confirmed))
    | _ => (Err mismatched_publication, self)
    end.

Definition discard_provisional (self : AllocationPublication) : result unit Error * AllocationPublication :=
  match publication_state self with
  | Confirmed _ => (Ok tt, self)
  | Provisional confirmed _ => (Ok tt, with_state self (Confirmed confirmed))
  | Uncertain _ _ => (Err AllocationPublicationUncertain, self)
  end.

Definition make_uncertain (self : AllocationPublication) : AllocationPublication :=
  let '(confirmed, generation) :=
    match publication_state self with
    | Confirmed generation => (generation, generation)
    | Provisional confirmed generation | Uncertain confirmed generation => (confirmed, generation)
    end in
  with_state self (Uncertain confirmed generation).

Definition available (self : AllocationPublication) : result unit Error :=
  match publication_state self with
  | Uncertain _ _ => Err AllocationPublicationUncertain
  | Confirmed _ | Provisional _ _ => Ok tt
  end.

Definition before_reference (self : AllocationPublication) : result unit Error :=
  match publication_state self with
  | Confirmed _ => Ok tt
  | Provisional _ _ =>
    Err (ErrorFormat (Internal "reference publication precedes allocation ownership publication"))
  | Uncertain _ _ => Err AllocationPublicationUncertain
  end.

Definition require (self : AllocationPublication) (allocation : ConfirmedAllocation) : result FileRange Error :=
  result_bind (available self) (λ _,
  match publication_state self with
  | Confirmed confirmed | Provisional confirmed _ =>
    if negb (publication_session self =? confirmed_session allocation) || (confirmed <? confirmed_generation allocation)
    then Err mismatched_publication
    else Ok (confirmed_range allocation)
  | Uncertain _ _ => Err AllocationPublicationUncertain
  end).

End AllocationPublication.

(** [ConfirmedPublication::confirm] *)
Definition confirm (self : ConfirmedPublication) (allocation : ProvisionalAllocation)
    : result ConfirmedAllocation Error :=
  if negb (confirmation_session self =? provisional_session allocation)
     || negb (provisional_generation allocation =? confirmation_generation self)
  then Err mismatched_publication
  else
    Ok (mkConfirmedAllocation (provisional_session allocation) (provisional_generation allocation)
          (provisional_range allocation)).

(** ** The undo journal

    The image of the engine is an instance of the [FileImage] trait, the class [FileImage]:
    reads and writes at a position and the barriers that order writes, each of which may
    fail. *)

Inductive SyncPolicy : Type := SyncAlways | SyncOnClose.

Class FileImage (I : Type) := {
  image_len : I → Z;
  image_read : I → Z → Z → result (list Z) FormatError;
  image_write_at : I → Z → list Z → result unit Error * I;
  image_sync_all : I → result unit Error * I;
  image_sync_data : I → result unit Error * I;
  image_ordering_barrier : I → result unit Error * I;
  image_flush : I → result unit Error * I;
  image_discard_pending_writes : I → I;
}.

Inductive PublicationState : Type := PublicationPublished | PublicationReady | PublicationUncertain.

Definition attempted (self : PublicationState) : bool :=
  match self with PublicationReady => false | _ => true end.

(** What the journal uses of the [WriteEngine]; of its aggregation, if it has one, whether the
    publication of the aggregates is confirmed. *)
Record WriteEngine (I : Type) : Type := mkEngine {
  engine_image : I;
  engine_sync_policy : SyncPolicy;
  inplace_undo : list (Z * list Z);
  engine_publication : PublicationState;
  engine_allocations : AllocationPublication;
  aggregation_confirmed : option bool;
}.

Arguments mkEngine {I}.
Arguments engine_image {I}.
Arguments engine_sync_policy {I}.
Arguments inplace_undo {I}.
Arguments engine_publication {I}.
Arguments engine_allocations {I}.
Arguments aggregation_confirmed {I}.

Section Journal.
Context {I : Type} `{FileImage I}.

Definition with_image (self : WriteEngine I) (image : I) : WriteEngine I :=
  mkEngine image (engine_sync_policy self) (inplace_undo self) (engine_publication self) (engine_allocations self)
    (aggregation_confirmed self).

Definition with_undo (self : WriteEngine I) (undo : list (Z * list Z)) : WriteEngine I :=
  mkEngine (engine_image self) (engine_sync_policy self) undo (engine_publication self) (engine_allocations self)
    (aggregation_confirmed self).

Definition barrier (self : WriteEngine I) : result unit Error * WriteEngine I :=
  let '(r, image) :=
    match engine_sync_policy self with
    | SyncAlways => image_sync_all (engine_image self)
    | SyncOnClose => image_ordering_barrier (engine_image self)
    end in
  (r, with_image self image).

Definition barrier_data (self : WriteEngine I) : result unit Error * WriteEngine I :=
  let '(r, image) :=
    match engine_sync_policy self with
    | SyncAlways => image_sync_data (engine_image self)
    | SyncOnClose => image_ordering_barrier (engine_image self)
    end in
  (r, with_image self image).

Definition write_inplace_journaled (self : WriteEngine I) (at_ : Z) (raw : list Z) : result unit Error * WriteEngine I :=
  match image_read (engine_image self) at_ (zlen raw) with
  | Err e => (Err (ErrorFormat e), self)
  | Ok prior =>
    let self := with_undo self (inplace_undo self ++ [(at_, prior)])%list in
    let '(r, image) := image_write_at (engine_image self) at_ raw in
    (r, with_image self image)
  end.

(** [journal.drain(checkpoint..).rev()]: every restoration is attempted, the first failure kept. *)
Fixpoint restore_entries (image : I) (entries : list (Z * list Z)) (failed : option Error) : option Error * I :=
  match entries with
  | [] => (failed, image)
  | (at_, prior) :: entries =>
    let '(r, image) := image_write_at image at_ prior in
    restore_entries image entries
      (match r, failed with Err e, None => Some e | _, _ => failed end)
  end.

Definition undo_inplace_since (self : WriteEngine I) (checkpoint : nat) : result unit Error * WriteEngine I :=
  let journal := inplace_undo self in
  if bool_decide (length journal < checkpoint)%nat
  then (Err (ErrorFormat (Internal "an undo checkpoint exceeds its journal")), self)
  else
    let restore := bool_decide (checkpoint < length journal)%nat in
    let '(failed, image) := restore_entries (engine_image self) (reverse (drop checkpoint journal)) None in
    let self := with_undo (with_image self image) (take checkpoint journal) in
    if negb restore then (Ok tt, self)
    else
      match failed with
      | Some e => (Err e, self)
      | None => barrier_data self
      end.

Definition undo_inplace_writes (self : WriteEngine I) : result unit Error * WriteEngine I := undo_inplace_since self 0.

(** [JournalScope::complete] *)
Definition complete (self : WriteEngine I) (checkpoint : nat) (result : result unit Error)
    : Prelude.result unit Error * WriteEngine I :=
  if bool_decide (length (inplace_undo self) = checkpoint) then (result, self)
  else
    let '(result, self) :=
      match result with
      | Ok _ => barrier self
      | Err e => (Err e, self)
      end in
    match result with
    | Ok _ => (Ok tt, with_undo self (take checkpoint (inplace_undo self)))
    | Err refusal =>
      let '(r, self) := undo_inplace_since self checkpoint in
      match r with
      | Ok _ => (Err refusal, self)
      | Err restore => (Err (CommitPartiallyApplied refusal restore), self)
      end
    end.

(** [JournalScope::run] *)
Definition run (self : WriteEngine I) (apply : WriteEngine I → outcome (result unit Error * WriteEngine I))
    : outcome (result unit Error * WriteEngine I) :=
  let checkpoint := length (inplace_undo self) in
  '(result, self) ← apply self;
  Ret (complete self checkpoint result).

Definition make_allocation_uncertain (self : WriteEngine I) : WriteEngine I :=
  mkEngine (image_discard_pending_writes (engine_image self)) (engine_sync_policy self) (inplace_undo self)
    (engine_publication self) (AllocationPublication.make_uncertain (engine_allocations self))
    ((λ _, false) <$> aggregation_confirmed self).

Definition flush (self : WriteEngine I) : result unit Error * WriteEngine I :=
  let '(r, image) := image_flush (engine_image self) in
  (r, with_image self image).

(** [JournalScope::complete_issued] *)
Definition complete_issued (self : WriteEngine I) (checkpoint : nat) (result : result unit Error) (retain : bool)
    : Prelude.result unit Error * WriteEngine I :=
  if bool_decide (length (inplace_undo self) = checkpoint) then (result, self)
  else
    let '(result, self) :=
      match result with
      | Ok _ => flush self
      | Err e => (Err e, self)
      end in
    let '(result, self) :=
      match result with
      | Ok _ => barrier self
      | Err e => (Err e, self)
      end in
    match result with
    | Ok _ =>
      (Ok tt, if retain then self else with_undo self (take checkpoint (inplace_undo self)))
    | Err refusal =>
      let '(r, self) := undo_inplace_since self checkpoint in
      let '(r, self) :=
        match r with
        | Ok _ => flush self
        | Err e => (Err e, self)
        end in
      match r with
      | Ok _ => (Err refusal, self)
      | Err restore => (Err (CommitPartiallyApplied refusal restore), make_allocation_uncertain self)
      end
    end.

(** [JournalScope::run_issued] *)
Definition run_issued (self : WriteEngine I) (apply : WriteEngine I → outcome (result unit Error * WriteEngine I))
    : outcome (result unit Error * WriteEngine I) :=
  let checkpoint := length (inplace_undo self) in
  '(result, self) ← apply self;
  Ret (complete_issued self checkpoint result false).

(** [JournalScope::run_rootless] *)
Definition run_rootless (self : WriteEngine I) (apply : WriteEngine I → outcome (result unit Error * WriteEngine I))
    : outcome (result unit Error * WriteEngine I) :=
  if attempted (engine_publication self)
  then Ret (Err (ErrorFormat (Internal "rootless writes follow a publication attempt")), self)
  else
    '(result, self) ← apply self;
    Ret (complete_issued self 0 result true).

End Journal.

(** ** What a granted reference stands for

    The tokens a session hands out, and the steps that use them.  An attempt and a provisional
    allocation are used once, as their owners move them; [completed] and [provisioned] record
    what happened and decide nothing. *)

Local Open Scope list_scope.

Record Session : Type := mkSession {
  publication : AllocationPublication;
  provisional : list ProvisionalAllocation;
  attempts : list PublicationAttempt;
  confirmations : list ConfirmedPublication;
  allocations : list ConfirmedAllocation;
  completed : list Z;
  provisioned : list ProvisionalAllocation;
}.

Definition session_new (session : AllocationSession) : Session :=
  mkSession (AllocationPublication.new session) [] [] [] [] [] [].

Inductive session_step : Session → Session → Prop :=
| step_provision s range a p :
    AllocationPublication.provision (publication s) range = (Ok a, p) →
    session_step s (mkSession p (a :: provisional s) (attempts s) (confirmations s) (allocations s) (completed s)
                      (a :: provisioned s))
| step_current s c p :
    AllocationPublication.begin_ (publication s) = (Ok (Current c), p) →
    session_step s (mkSession p (provisional s) (attempts s) (c :: confirmations s) (allocations s) (completed s) (provisioned s))
| step_publish s a p :
    AllocationPublication.begin_ (publication s) = (Ok (Publish a), p) →
    session_step s (mkSession p (provisional s) (a :: attempts s) (confirmations s) (allocations s) (completed s) (provisioned s))
| step_complete s l1 a l2 c p :
    attempts s = l1 ++ a :: l2 → AllocationPublication.complete (publication s) a = (Ok c, p) →
    session_step s (mkSession p (provisional s) (l1 ++ l2) (c :: confirmations s) (allocations s)
                      (attempt_generation a :: completed s) (provisioned s))
| step_cancel s l1 a l2 p :
    attempts s = l1 ++ a :: l2 → AllocationPublication.cancel (publication s) a = (Ok tt, p) →
    session_step s (mkSession p (provisional s) (l1 ++ l2) (confirmations s) (allocations s) (completed s) (provisioned s))
| step_drop s l1 a l2 :
    attempts s = l1 ++ a :: l2 →
    session_step s (mkSession (publication s) (provisional s) (l1 ++ l2) (confirmations s) (allocations s) (completed s) (provisioned s))
| step_discard s p :
    AllocationPublication.discard_provisional (publication s) = (Ok tt, p) →
    session_step s (mkSession p (provisional s) (attempts s) (confirmations s) (allocations s) (completed s) (provisioned s))
| step_uncertain s :
    session_step s (mkSession (AllocationPublication.make_uncertain (publication s)) (provisional s) (attempts s)
                      (confirmations s) (allocations s) (completed s) (provisioned s))
| step_confirm s c l1 a l2 x :
    c ∈ confirmations s → provisional s = l1 ++ a :: l2 → confirm c a = Ok x →
    session_step s (mkSession (publication s) (l1 ++ l2) (attempts s) (confirmations s) (x :: allocations s) (completed s) (provisioned s)).

Definition session_reaches : Session → Session → Prop := rtc session_step.

(** The generation a state has confirmed, and the one it is about. *)
Definition state_confirmed (st : State) : Z :=
  match st with Confirmed g => g | Provisional c _ | Uncertain c _ => c end.

Definition state_generation (st : State) : Z :=
  match st with Confirmed g | Provisional _ g | Uncertain _ g => g end.

Definition published (s : Session) (g : Z) : Prop := g = 0 ∨ g ∈ completed s.

(** What is confirmed was completed, every completed generation is at most the confirmed one,
    and every token is of the session. *)
Record session_ok (id : AllocationSession) (s : Session) : Prop := {
  ok_session : publication_session (publication s) = id;
  ok_sequence : 0 ≤ state_confirmed (publication_state (publication s)) ≤ state_generation (publication_state (publication s)) ∧
    state_generation (publication_state (publication s)) ≤ publication_sequence (publication s);
  ok_confirmed : published s (state_confirmed (publication_state (publication s)));
  ok_provisional_state : match publication_state (publication s) with
    | Provisional c g => c < g
    | _ => True
    end;
  ok_completed : Forall (λ g, 1 ≤ g ≤ state_confirmed (publication_state (publication s))) (completed s);
  ok_attempts : Forall (λ a, attempt_session a = id ∧ 1 ≤ attempt_generation a ≤ publication_sequence (publication s)) (attempts s);
  ok_provisional : Forall (λ a, provisional_session a = id ∧ 1 ≤ provisional_generation a ∧ a ∈ provisioned s) (provisional s);
  ok_confirmations : Forall (λ c, confirmation_session c = id ∧ published s (confirmation_generation c)) (confirmations s);
  ok_allocations : Forall (λ x, confirmed_session x = id ∧ confirmed_generation x ∈ completed s ∧
    mkProvisional id (confirmed_generation x) (confirmed_range x) ∈ provisioned s) (allocations s);
}.

Lemma session_new_ok id : session_ok id (session_new id).
Proof. split; cbn; try done; by left. Qed.

(** The steps that change only the state of the publication and the attempts. *)
Lemma session_keeps id s p l :
  session_ok id s → publication_session p = id →
  0 ≤ state_confirmed (publication_state p) ≤ state_generation (publication_state p) →
  state_generation (publication_state p) ≤ publication_sequence p →
  state_confirmed (publication_state p) = state_confirmed (publication_state (publication s)) →
  match publication_state p with Provisional c g => c < g | _ => True end →
  Forall (λ a, attempt_session a = id ∧ 1 ≤ attempt_generation a ≤ publication_sequence p) l →
  session_ok id (mkSession p (provisional s) l (confirmations s) (allocations s) (completed s) (provisioned s)).
Proof. intros [] Hs H1 H2 Hc Hst Hl. split; cbn; rewrite ?Hc; try done. by rewrite <- Hc. Qed.

Lemma attempts_remove (P : PublicationAttempt → Prop) l1 a l2 : Forall P (l1 ++ a :: l2) → P a ∧ Forall P (l1 ++ l2).
Proof. rewrite !Forall_app, Forall_cons. tauto. Qed.

Lemma session_step_ok id s s' : session_ok id s → session_step s s' → session_ok id s'.
Proof.
  intros Hok Hstep. pose proof Hok as [Hs [Hg1 Hg2] Hc Hp Hcomp Hatt Hprov Hconf Hall].
  destruct Hstep as [s range a p Hpr|s c p Hb|s a p Hb|s l1 a l2 c p Ha Hco|s l1 a l2 p Ha Hca|s l1 a l2 Ha|s p Hd|s|s c l1 a l2 x Hin Hl Hx].
  - unfold AllocationPublication.provision in Hpr. destruct (publication_state (publication s)) as [g|c g|c g] eqn:Est; cbn in *; [| |done].
    + destruct (checked_add _ 1) as [n|] eqn:En; [|done]. injection Hpr as <- <-. apply checked_add_Some in En as [-> _].
      split; cbn; try done; [lia|lia| | |].
      * eapply Forall_impl; [exact Hatt|]. cbn. intros ? [? ?]. split; [done|lia].
      * constructor; [split_and!; [done|cbn; lia|left]|]. eapply Forall_impl; [exact Hprov|]. cbn. intros ? (? & ? & ?). split_and!; [done|done|by right].
      * eapply Forall_impl; [exact Hall|]. cbn. intros ? (? & ? & ?). split_and!; [done|done|by right].
    + injection Hpr as <- <-. split; cbn; rewrite ?Est; cbn; try done.
      * constructor; [split_and!; [done|cbn; lia|left]|]. eapply Forall_impl; [exact Hprov|]. cbn. intros ? (? & ? & ?). split_and!; [done|done|by right].
      * eapply Forall_impl; [exact Hall|]. cbn. intros ? (? & ? & ?). split_and!; [done|done|by right].
  - unfold AllocationPublication.begin_ in Hb. destruct (publication_state (publication s)) as [g|c' g|c' g] eqn:Est; cbn in *; [|done..].
    injection Hb as <- <-. split; cbn; rewrite ?Est; cbn; try done. by constructor.
  - unfold AllocationPublication.begin_ in Hb. destruct (publication_state (publication s)) as [g|c' g|c' g] eqn:Est; cbn in *; [done| |done].
    injection Hb as <- <-. apply (session_keeps id s); cbn; rewrite ?Est; cbn; try done. constructor; [cbn; split; [done|lia]|done].
  - unfold AllocationPublication.complete in Hco. destruct (_ || _) eqn:E; [done|]. injection Hco as <- <-.
    rewrite Ha in Hatt. apply attempts_remove in Hatt as [[Has Hag] Hatt].
    apply orb_false_iff in E as [_ E]. apply negb_false_iff in E.
    destruct (publication_state (publication s)) as [g|c' g|c' g] eqn:Est; cbn in *; [done..|]. apply Z.eqb_eq in E.
    split; cbn; try done; [lia|right; left| | |].
    + constructor; [lia|]. eapply Forall_impl; [exact Hcomp|]. cbn. lia.
    + constructor; [split; [done|right; left]|]. eapply Forall_impl; [exact Hconf|]. cbn. intros ? [? [?|?]]; (split; [done|]); [by left|by right; right].
    + eapply Forall_impl; [exact Hall|]. cbn. intros ? (? & ? & ?). split_and!; [done|by right|done].
  - unfold AllocationPublication.cancel in Hca. destruct (negb _); [done|]. rewrite Ha in Hatt. apply attempts_remove in Hatt as [_ Hatt].
    destruct (publication_state (publication s)) as [g|c' g|c' g] eqn:Est; cbn in *; [done..|]. destruct (negb _); [done|].
    injection Hca as <-. apply (session_keeps id s); cbn; rewrite ?Est; cbn; try done; lia.
  - rewrite Ha in Hatt. apply attempts_remove in Hatt as [_ Hatt]. by apply (session_keeps id s).
  - unfold AllocationPublication.discard_provisional in Hd.
    destruct (publication_state (publication s)) as [g|c' g|c' g] eqn:Est; cbn in *; [| |done]; injection Hd as <-;
      apply (session_keeps id s); cbn; rewrite ?Est; cbn; try done; lia.
  - unfold AllocationPublication.make_uncertain.
    destruct (publication_state (publication s)) as [g|c' g|c' g] eqn:Est; cbn in *;
      apply (session_keeps id s); cbn; rewrite ?Est; cbn; try done; lia.
  - unfold confirm in Hx. destruct (_ || _) eqn:E; [done|]. injection Hx as <-. rewrite Hl in Hprov.
    apply Forall_app in Hprov as [Hp1 Hp2]. apply Forall_cons in Hp2 as [(Has & Hag & Hain) Hp2].
    rewrite Forall_forall in Hconf. destruct (Hconf c Hin) as [_ Hpub]. split; cbn; try done.
    + by apply Forall_app.
    + by rewrite Forall_forall.
    + constructor; [|done]. cbn. split_and!; [done| |by destruct a; cbn in *; subst].
      destruct Hpub as [H0|?]; [lia|]. by replace (provisional_generation a) with (confirmation_generation c) by lia.
Qed.

Lemma session_reaches_ok id s : session_reaches (session_new id) s → session_ok id s.
Proof.
  intros Hr. eapply (rtc_ind_r (session_ok id) (session_new id)); [apply session_new_ok| |exact Hr].
  intros s1 s2 _ Hstep Hok. by eapply session_step_ok.
Qed.

(** Once uncertain with no attempt at the generation, a session stays so. *)
Definition stuck (s : Session) : Prop :=
  ∃ c g, publication_state (publication s) = Uncertain c g ∧ Forall (λ a, attempt_generation a ≠ g) (attempts s).

Lemma stuck_step s s' : stuck s → session_step s s' → stuck s'.
Proof.
  intros (c0 & g0 & Hst & Hf) Hstep.
  destruct Hstep as [s range a p Hpr|s c p Hb|s a p Hb|s l1 a l2 c p Ha Hco|s l1 a l2 p Ha Hca|s l1 a l2 Ha|s p Hd|s|s c l1 a l2 x Hin Hl Hx].
  - unfold AllocationPublication.provision in Hpr. by rewrite Hst in Hpr.
  - unfold AllocationPublication.begin_ in Hb. by rewrite Hst in Hb.
  - unfold AllocationPublication.begin_ in Hb. by rewrite Hst in Hb.
  - unfold AllocationPublication.complete in Hco. rewrite Hst in Hco. rewrite Ha in Hf. apply attempts_remove in Hf as [Hne _].
    replace (g0 =? attempt_generation a) with false in Hco by lia. by rewrite orb_true_r in Hco.
  - unfold AllocationPublication.cancel in Hca. destruct (negb _); [done|]. rewrite Hst in Hca. rewrite Ha in Hf.
    apply attempts_remove in Hf as [Hne _]. by replace (g0 =? attempt_generation a) with false in Hca by lia.
  - exists c0, g0. rewrite Ha in Hf. by apply attempts_remove in Hf as [_ Hf].
  - unfold AllocationPublication.discard_provisional in Hd. by rewrite Hst in Hd.
  - exists c0, g0. cbn. unfold AllocationPublication.make_uncertain. by rewrite Hst.
  - by exists c0, g0.
Qed.

(** C14: in every session that provisions, publishes, cancels, discards and confirms in any order,
    a reference is granted to a confirmed allocation exactly while no outcome is uncertain; its
    range is one that was provisioned in its generation, and the publication of that generation
    was completed.  Allocations of another session are refused.  A session whose outcome is
    uncertain with no attempt under way grants nothing ever again. *)
Theorem reference_permission_sound (id : AllocationSession) (s : Session) :
  session_reaches (session_new id) s →
  (∀ x, x ∈ allocations s →
     (AllocationPublication.available (publication s) = Ok tt ↔
      AllocationPublication.require (publication s) x = Ok (confirmed_range x)) ∧
     confirmed_generation x ∈ completed s ∧
     mkProvisional id (confirmed_generation x) (confirmed_range x) ∈ provisioned s) ∧
  (∀ x range, confirmed_session x ≠ id → AllocationPublication.require (publication s) x ≠ Ok range) ∧
  (∀ c g, publication_state (publication s) = Uncertain c g → Forall (λ a, attempt_generation a ≠ g) (attempts s) →
     ∀ s' x range, session_reaches s s' → AllocationPublication.require (publication s') x ≠ Ok range).
Proof.
  intros Hr. pose proof (session_reaches_ok id s Hr) as [Hs _ _ _ Hcomp _ _ _ Hall]. split; [|split].
  - intros x Hx. rewrite Forall_forall in Hall. destruct (Hall x Hx) as (Hxs & Hxg & Hxp). split; [|done].
    rewrite Forall_forall in Hcomp. specialize (Hcomp _ Hxg). cbn in Hcomp.
    unfold AllocationPublication.require, AllocationPublication.available.
    destruct (publication_state (publication s)) as [g|c g|c g]; cbn in *; [| |done];
      rewrite Hs, Hxs, Z.eqb_refl; cbn [negb orb]; by replace (_ <? _) with false by lia.
  - intros x range Hne. unfold AllocationPublication.require, AllocationPublication.available.
    destruct (publication_state (publication s)) as [g|c g|c g]; cbn; [| |done];
      (replace (publication_session (publication s) =? confirmed_session x) with false by lia); done.
  - intros c g Hst Hf s' x range Hreach.
    assert (Hstuck : stuck s').
    { eapply (rtc_ind_r stuck s); [by exists c, g| |exact Hreach]. intros s1 s2 _ Hstep Hk. by eapply stuck_step. }
    destruct Hstuck as (c' & g' & Hst' & _). unfold AllocationPublication.require, AllocationPublication.available. by rewrite Hst'.
Qed.

(** One allocation is provisioned, published and confirmed. *)
Lemma reference_permission_sound_witness :
  ∃ s x, session_reaches (session_new 7) s ∧ x ∈ allocations s ∧
    AllocationPublication.require (publication s) x = Ok (confirmed_range x).
Proof.
  set (range := mkAddressRange 16 32 eq_refl). set (a := mkProvisional 7 1 range). set (t := mkAttempt 7 1).
  set (x := mkConfirmedAllocation 7 1 range). set (c := mkConfirmedPublication 7 1).
  exists (mkSession (mkPublication 7 (Confirmed 1) 1) [] [] [c] [x] [1] [a]), x.
  assert (Hr : session_reaches (session_new 7) (mkSession (mkPublication 7 (Confirmed 1) 1) [] [] [c] [x] [1] [a])).
  { eapply rtc_l; [apply (step_provision (session_new 7) range a (mkPublication 7 (Provisional 0 1) 1)); reflexivity|].
    eapply rtc_l; [eapply (step_publish _ t (mkPublication 7 (Uncertain 0 1) 1)); reflexivity|].
    eapply rtc_l; [eapply (step_complete _ [] t [] c (mkPublication 7 (Confirmed 1) 1)); reflexivity|].
    eapply rtc_l; [eapply (step_confirm _ c [] a [] x); [left|reflexivity|reflexivity]|]. apply rtc_refl. }
  split; [exact Hr|]. split; [left|].
  destruct (reference_permission_sound 7 _ Hr) as [H _]. apply (H x); [left|reflexivity].
Defined.
