(* ===== verification/GlobalHeaps.v ===== *)
(** * Global heap collections

    Models [crates/hdf5-pure-format/src/global_heap/mod.rs] (the parser and the encoder of a
    collection) and [global_heap/compaction/mod.rs] (plans that pack a collection), and of the
    facade crate [src/global_heap.rs] (reads of objects through a window of header bytes) and
    [src/edit/commit/heap.rs] (applying plans through the undo journal of [Journals]).

    A [FnMut] callback is the function of what it is called with; the failure to reserve
    memory is left out. *)

From stdpp Require Import strings pretty gmap.
From S2P Require Import Prelude Addresses Words ByteFields ByteFieldFacts FileRegions ObjectHeaders Journals.

Local Open Scope string_scope.
Local Open Scope Z_scope.

Definition GCOL_SIGNATURE : list Z := [71; 67; 79; 76].
Definition GCOL_VERSION : Z := 1.
Definition GCOL_RESERVED_LEN : Z := 3.
Definition OBJECT_RESERVED_LEN : Z := 4.
Definition FIXED_HEADER_LEN : Z := 8.
Definition INDEX_WORDS : Z := 1024.
Definition ALIGNMENT : Z := 8.
Definition MIN_COLLECTION_SIZE : Z := 4096.
Definition GLOBAL_HEAP_MAX_OBJECTS : Z := 0xFFFF.
Definition FREE_HEADER_LEN : Z := 16.

(** [u64::next_multiple_of] where the sum fits. *)
Definition aligned (size : Z) : Z := if size mod ALIGNMENT =? 0 then size else size + (ALIGNMENT - size mod ALIGNMENT).

Definition header_len (lengths : LengthWidth) : Z := aligned (FIXED_HEADER_LEN + LengthWidth.get lengths).

(** ** Collections *)

Record GlobalHeapCollectionLocator : Type := mkCollectionLocator {
  locator_address : Z;
  locator_lengths : LengthWidth;
}.

Record GlobalHeapCollection : Type := mkCollection {
  collection_range : FileRange;
  collection_lengths : LengthWidth;
  collection_first : FileRange;
}.

Record GlobalHeapPayloadRef : Type := mkPayloadRef { payload_range : FileRange }.

Record GlobalHeapObject : Type := mkHeapObject {
  object_index : Z;
  object_reference_count : Z;
  object_range : FileRange;
  object_payload : GlobalHeapPayloadRef;
}.

Module GlobalHeapCollectionLocator.
Section Locator.
Context `{B : Build}.

Definition new (address : Z) (lengths : LengthWidth) : GlobalHeapCollectionLocator :=
  mkCollectionLocator address lengths.

Definition parse_range (self : GlobalHeapCollectionLocator) : exec FileRange :=
  FileRange.new (locator_address self) (header_len (locator_lengths self)).

Definition parse (self : GlobalHeapCollectionLocator) (region : FileRegion) : exec GlobalHeapCollection :=
  let address := locator_address self in
  let lengths := locator_lengths self in
  range ←? parse_range self;
  try_ (FileRegion.subregion region range) (λ region,
  let fields := Fields.new (region_bytes region) 0 in
  '(signature, fields) ←? Fields.array (zlen GCOL_SIGNATURE) fields;
  if negb (bool_decide (signature = GCOL_SIGNATURE)) then fail InvalidGlobalHeapSignature
  else
    '(version, fields) ←? Fields.u8 fields;
    if negb (version =? GCOL_VERSION) then fail (InvalidGlobalHeapVersion version)
    else
      '(_, fields) ←? Fields.array GCOL_RESERVED_LEN fields;
      '(size, _) ←? Fields.length lengths fields;
      if size <? MIN_COLLECTION_SIZE then fail (GlobalHeapCollectionTooSmall address size)
      else if negb (is_multiple_of size ALIGNMENT) then fail (UnalignedGlobalHeapCollection address size)
      else
        let header_len := header_len lengths in
        range ←? FileRange.new address size;
        try_ (Address.checked_add address header_len) (λ start,
        first ←? FileRange.new start header_len;
        ok (mkCollection range lengths first))).

End Locator.
End GlobalHeapCollectionLocator.

Module GlobalHeapCollection.
Section Collection.
Context `{B : Build}.

Definition range (self : GlobalHeapCollection) : FileRange := collection_range self.

Definition remaining (self : GlobalHeapCollection) (start : Z) : result Z FormatError :=
  ok_or (checked_sub (FileRange.end_ (collection_range self)) start)
    (Internal "a global heap object header starts past its collection").

Definition header_range (self : GlobalHeapCollection) (start : Z) : exec (option FileRange) :=
  try_ (remaining self start) (λ remaining,
  if remaining =? 0 then ok None
  else
    range ←? FileRange.new start (Z.min remaining (header_len (collection_lengths self)));
    ok (Some range)).

Definition parse_object (self : GlobalHeapCollection) (header : FileRegion) : exec (option GlobalHeapObject) :=
  let range := region_range header in
  let collection_end := FileRange.end_ (collection_range self) in
  let outside := λ index, GlobalHeapObjectOutsideCollection (FileRange.start range) index collection_end in
  let header_len := header_len (collection_lengths self) in
  let fields := Fields.new (region_bytes header) 0 in
  '(index, fields) ←? Fields.u16 fields;
  if FileRange.length range <? header_len then
    (if index =? 0 then ok None else fail (outside index))
  else
    '(reference_count, fields) ←? Fields.u16 fields;
    '(_, fields) ←? Fields.array OBJECT_RESERVED_LEN fields;
    '(size, _) ←? Fields.length (collection_lengths self) fields;
    try_ (remaining self (FileRange.start range)) (λ remaining,
    if index =? 0 then
      (if negb (size =? remaining)
       then fail (MisplacedGlobalHeapFreeSpace (FileRange.start range) size collection_end)
       else ok None)
    else
      match (padded ← checked_next_multiple_of size ALIGNMENT;
             extent ← checked_add padded header_len;
             if extent <=? remaining then Some extent else None) with
      | None => fail (outside index)
      | Some extent =>
        object ←? FileRange.new (FileRange.start range) extent;
        payload ←? FileRange.new (FileRange.end_ range) size;
        ok (Some (mkHeapObject index reference_count object (mkPayloadRef payload)))
      end).

End Collection.
End GlobalHeapCollection.

(** [GlobalHeapPayloadRef::parse] *)
Definition payload_parse `{Build} (self : GlobalHeapPayloadRef) (region : FileRegion)
    : result (list Z) FormatError :=
  result_map region_bytes (FileRegion.subregion region (payload_range self)).

(** ** The indices a walk has seen *)

(** The 64-bit words, one bit for each index. *)
Definition IndexSet : Type := list Z.

Module IndexSet.

Definition new : IndexSet := replicate (Z.to_nat INDEX_WORDS) 0.

Definition insert (self : IndexSet) (i : Z) : outcome (bool * IndexSet) :=
  word ← index self (i / 64);
  let bit := Z.shiftl 1 (i mod 64) in
  self ← splice self (i / 64) [Z.lor word bit];
  Ret (Z.land word bit =? 0, self).

End IndexSet.

(** ** Walks and lookups *)

Record GlobalHeapWalk : Type := mkHeapWalk {
  walk_collection_of : GlobalHeapCollection;
  walk_next : option FileRange;
  walk_seen : IndexSet;
}.

Record GlobalHeapLookup : Type := mkHeapLookup {
  lookup_walk : GlobalHeapWalk;
  lookup_index : Z;
  lookup_found : option GlobalHeapObject;
}.

Module GlobalHeapWalk.
Section Walk.
Context `{B : Build}.

(** [GlobalHeapCollection::walk] *)
Definition new (collection : GlobalHeapCollection) : GlobalHeapWalk :=
  mkHeapWalk collection (Some (collection_first collection)) IndexSet.new.

Definition parse_range (self : GlobalHeapWalk) : option FileRange := walk_next self.

(** A failed step leaves the walk as it was: the index it rejects was in the set. *)
Definition parse (self : GlobalHeapWalk) (region : FileRegion)
    : exec (option GlobalHeapObject * GlobalHeapWalk) :=
  match walk_next self with
  | None => ok (None, self)
  | Some range =>
    let collection := walk_collection_of self in
    try_ (FileRegion.subregion region range) (λ header,
    object ←? GlobalHeapCollection.parse_object collection header;
    next ←? match object with
            | None => ok None
            | Some object => GlobalHeapCollection.header_range collection (FileRange.end_ (object_range object))
            end;
    match object with
    | None => ok (object, mkHeapWalk collection next (walk_seen self))
    | Some o =>
      '(inserted, seen) ← IndexSet.insert (walk_seen self) (object_index o);
      if negb inserted
      then fail (DuplicateGlobalHeapObjectIndex (FileRange.start (collection_range collection)) (object_index o))
      else ok (object, mkHeapWalk collection next seen)
    end)
  end.

End Walk.
End GlobalHeapWalk.

Module GlobalHeapLookup.
Section Lookup.
Context `{B : Build}.

(** [GlobalHeapCollection::lookup] *)
Definition new (collection : GlobalHeapCollection) (index : Z) : GlobalHeapLookup :=
  mkHeapLookup (GlobalHeapWalk.new collection) index None.

Definition parse_range (self : GlobalHeapLookup) : option FileRange :=
  GlobalHeapWalk.parse_range (lookup_walk self).

Definition parse (self : GlobalHeapLookup) (region : FileRegion)
    : exec (option GlobalHeapObject * GlobalHeapLookup) :=
  '(object, walk) ←? GlobalHeapWalk.parse (lookup_walk self) region;
  let found :=
    match object with
    | Some o => if object_index o =? lookup_index self then Some o else lookup_found self
    | None => lookup_found self
    end in
  let self := mkHeapLookup walk (lookup_index self) found in
  if bool_decide (is_Some (GlobalHeapWalk.parse_range walk)) then ok (None, self)
  else
    match found with
    | Some o => ok (Some o, self)
    | None =>
      fail (GlobalHeapObjectNotFound (FileRange.start (collection_range (walk_collection_of walk)))
              (lookup_index self))
    end.

End Lookup.
End GlobalHeapLookup.

(** ** Encoding *)

Inductive GlobalHeapCollectionError : Type :=
| HeapFormat (error : FormatError)
| HeapTooLarge (size : Z) (length_width : LengthWidth)
| TooManyObjects (count : Z).

(** [From<GlobalHeapCollectionError> for FormatError] *)
Definition heap_error (error : GlobalHeapCollectionError) : FormatError :=
  match error with
  | HeapFormat error => error
  | HeapTooLarge size length_width => LengthTooLarge size (LengthWidth.get length_width)
  | TooManyObjects count => ValueTooLargeForRepresentation count "u16"
  end.

Definition add_collection_size (size additional : Z) : result Z FormatError :=
  ok_or (checked_add size additional) (OffsetOverflow size additional).

Definition aligned_collection_size (size : Z) : result Z FormatError :=
  let padding := (ALIGNMENT - size mod ALIGNMENT) mod ALIGNMENT in
  add_collection_size size padding.

(** [objects.iter().try_fold(header_size, ...)] *)
Fixpoint fold_sizes (header_size size : Z) (objects : list (list Z)) : result Z FormatError :=
  match objects with
  | [] => Ok size
  | object :: objects =>
    result_bind (add_collection_size size header_size) (λ size,
    result_bind (aligned_collection_size (zlen object)) (λ data,
    result_bind (add_collection_size size data) (λ size,
    fold_sizes header_size size objects)))
  end.

Section Encode.
Context `{B : Build}.

(** The objects, at the indices from [i + 1]. *)
Fixpoint write_objects (buf : list Z) (length_width : LengthWidth) (header_size i : Z) (objects : list (list Z))
    : outcome (list Z) :=
  match objects with
  | [] => Ret buf
  | obj :: objects =>
    let index := (i + 1) mod 65536 in
    let start := zlen buf in
    let buf := (buf ++ le_bytes 2 index)%list in
    let buf := (buf ++ le_bytes 2 1)%list in
    let buf := (buf ++ replicate 4 0)%list in
    buf ← write_length buf (zlen obj) length_width;
    let buf := vec_resize buf (Z.to_nat (start + header_size)) 0 in
    let buf := (buf ++ obj)%list in
    let buf := vec_resize buf (Z.to_nat (aligned (zlen buf))) 0 in
    write_objects buf length_width header_size (i + 1) objects
  end.

Definition lift {A} (r : result A FormatError) : result A GlobalHeapCollectionError :=
  match r with Ok a => Ok a | Err e => Err (HeapFormat e) end.

Definition encode_global_heap_collection (length_width : LengthWidth) (objects : list (list Z))
    : outcome (result (list Z) GlobalHeapCollectionError) :=
  if GLOBAL_HEAP_MAX_OBJECTS <? zlen objects then Ret (Err (TooManyObjects (zlen objects)))
  else
    try_ (lift (aligned_collection_size (FIXED_HEADER_LEN + LengthWidth.get length_width))) (λ header_size,
    try_ (lift (fold_sizes header_size header_size objects)) (λ collection_size,
    try_ (lift (add_collection_size collection_size header_size)) (λ total,
    try_ (lift (aligned_collection_size (Z.max total MIN_COLLECTION_SIZE))) (λ padded_collection,
    if negb (length_width_holds length_width padded_collection)
    then Ret (Err (HeapTooLarge padded_collection length_width))
    else
      try_ (lift (to_usize padded_collection)) (λ padded_collection,
      try_ (lift (to_usize header_size)) (λ header_size,
      let buf := GCOL_SIGNATURE in
      let buf := (buf ++ [GCOL_VERSION])%list in
      let buf := (buf ++ replicate 3 0)%list in
      buf ← write_length buf padded_collection length_width;
      let buf := vec_resize buf (Z.to_nat header_size) 0 in
      buf ← write_objects buf length_width header_size 0 objects;
      free_total_size ← expect (checked_sub padded_collection (zlen buf));
      let buf := (buf ++ le_bytes 2 0)%list in
      let buf := (buf ++ le_bytes 2 0)%list in
      let buf := (buf ++ replicate 4 0)%list in
      buf ← write_length buf free_total_size length_width;
      Ret (Ok (vec_resize buf (Z.to_nat padded_collection) 0)))))))).

End Encode.

(** ** Compaction *)

Record GlobalHeapMemberCollector : Type := mkCollector {
  collector_walk : GlobalHeapWalk;
  collector_members : list GlobalHeapObject;
}.

Record GlobalHeapMembers : Type := mkMembers {
  members_collection : GlobalHeapCollection;
  members_list : list GlobalHeapObject;
}.

Record GlobalHeapMove : Type := mkMove {
  move_object : GlobalHeapObject;
  move_destination : FileRange;
}.

Record GlobalHeapFreeSpace : Type := mkFreeSpace {
  free_range : FileRange;
  free_header : FileRange;
  free_bytes : list Z;
}.

Record GlobalHeapCompaction : Type := mkCompaction {
  compaction_collection : FileRange;
  compaction_moves : list GlobalHeapMove;
  compaction_free_space : option GlobalHeapFreeSpace;
  compaction_retained : Z;
}.

Module GlobalHeapMemberCollector.
Section Collector.
Context `{B : Build}.

Definition new (collection : GlobalHeapCollection) : GlobalHeapMemberCollector :=
  mkCollector (GlobalHeapWalk.new collection) [].

Definition parse (self : GlobalHeapMemberCollector) (region : FileRegion) : exec GlobalHeapMemberCollector :=
  '(object, walk) ←? GlobalHeapWalk.parse (collector_walk self) region;
  ok (mkCollector walk
        (match object with Some o => collector_members self ++ [o] | None => collector_members self end)%list).

Definition parse_range (self : GlobalHeapMemberCollector) : option FileRange :=
  GlobalHeapWalk.parse_range (collector_walk self).

Definition finish (self : GlobalHeapMemberCollector) : option GlobalHeapMembers :=
  if bool_decide (is_Some (GlobalHeapWalk.parse_range (collector_walk self))) then None
  else Some (mkMembers (walk_collection_of (collector_walk self)) (collector_members self)).

End Collector.
End GlobalHeapMemberCollector.

Module GlobalHeapMembers.
Section Members.
Context `{B : Build}.

(** The loop over the members: the packed end, the moves and the number removed. *)
Fixpoint pack (remove : GlobalHeapObject → bool) (members : list GlobalHeapObject) (destination : Z)
    (moves : list GlobalHeapMove) (removed : Z) : exec (Z * list GlobalHeapMove * Z) :=
  match members with
  | [] => ok (destination, moves, removed)
  | object :: members =>
    if remove object then pack remove members destination moves (removed + 1)
    else
      range ←? FileRange.new destination (FileRange.length (object_range object));
      let moves :=
        if negb (destination =? FileRange.start (object_range object))
        then (moves ++ [mkMove object range])%list else moves in
      pack remove members (FileRange.end_ range) moves removed
  end.

Definition compact (self : GlobalHeapMembers) (remove : GlobalHeapObject → bool) : exec GlobalHeapCompaction :=
  let collection := members_collection self in
  '(destination, moves, removed) ←?
    pack remove (members_list self) (FileRange.start (collection_first collection)) [] 0;
  free_space ←?
    (if removed =? 0 then ok None
     else
       length ← expect (checked_sub (FileRange.end_ (collection_range collection)) destination);
       range ←? FileRange.new destination length;
       header ←? FileRange.new destination FREE_HEADER_LEN;
       try_ (to_usize FIXED_HEADER_LEN) (λ pos,
       bytes ←? write_length_at (replicate (Z.to_nat FREE_HEADER_LEN) 0) pos length
                  (collection_lengths collection);
       ok (Some (mkFreeSpace range header bytes))));
  ok (mkCompaction (collection_range collection) moves free_space (zlen (members_list self) - removed)).

End Members.
End GlobalHeapMembers.

(** ** Reading a collection through a source *)

(** What the reader uses of the [Source] trait. *)
Record Source : Type := mkHeapSource {
  source_metadata : MetadataSource;
  read_exact_at : Z → Z → exec (list Z);
}.

Definition WINDOW : Z := 4096.
Definition STRIDE_HISTORY : Z := 8.
Definition LOOKAHEAD : Z := 32.

(** [u64::saturating_sub] and [u64::saturating_mul] *)
Definition u64_saturating_sub (a b : Z) : Z := Z.max (a - b) 0.

Definition u64_saturating_mul (a b : Z) : Z := Z.min (a * b) U64_MAX.

Record HeaderWindow : Type := mkWindow {
  window_collection : FileRange;
  window_held : option (FileRange * list Z);
  window_previous_header : option Z;
  window_strides : list Z;
}.

Section Reading.
Context `{B : Build}.

(** [read] *)
Definition read (source : Source) (range : FileRange) : exec (list Z) :=
  try_ (to_usize (FileRange.length range)) (λ len,
  read_metadata (source_metadata source) (FileRange.start range) len).

(** [rotate_left(1)], then the newest stride in the last place. *)
Definition push_stride (strides : list Z) (stride : Z) : list Z :=
  match strides with [] => [] | _ :: strides => (strides ++ [stride])%list end.

Definition window_new (collection : FileRange) : HeaderWindow :=
  mkWindow collection None None (replicate (Z.to_nat STRIDE_HISTORY) 0).

Definition span (self : HeaderWindow) (range : FileRange) : Z :=
  let need := FileRange.length range in
  let widest := fold_right Z.max 0 (window_strides self) in
  let ahead :=
    if WINDOW <? saturating_add widest need then need
    else Z.min (saturating_add (u64_saturating_mul widest LOOKAHEAD) need) WINDOW in
  Z.max (Z.min (u64_saturating_sub (FileRange.end_ (window_collection self)) (FileRange.start range)) ahead) need.

Definition window_region (self : HeaderWindow) (source : Source) (range : FileRange)
    : exec (FileRegion * HeaderWindow) :=
  let strides :=
    match window_previous_header self with
    | Some previous_header =>
      push_stride (window_strides self) (u64_saturating_sub (FileRange.start range) previous_header)
    | None => window_strides self
    end in
  let self := mkWindow (window_collection self) (window_held self) (Some (FileRange.start range)) strides in
  '(held, bytes) ←?
    match window_held self with
    | Some (held, bytes) =>
      if FileRange.contains held range then ok (held, bytes)
      else
        held ←? FileRange.new (FileRange.start range) (span self range);
        bytes ←? read source held;
        ok (held, bytes)
    | None =>
      held ←? FileRange.new (FileRange.start range) (span self range);
      bytes ←? read source held;
      ok (held, bytes)
    end;
  let self := mkWindow (window_collection self) (Some (held, bytes)) (window_previous_header self) strides in
  try_ (FileRegion.new held bytes) (λ region,
  try_ (FileRegion.subregion region range) (λ region, ok (region, self))).

Definition read_collection (source : Source) (lengths : LengthWidth) (address : Z) : exec GlobalHeapCollection :=
  let locator := GlobalHeapCollectionLocator.new address lengths in
  header_range ←? GlobalHeapCollectionLocator.parse_range locator;
  header ←? read source header_range;
  try_ (FileRegion.new header_range header) (λ region,
  collection ←? GlobalHeapCollectionLocator.parse locator region;
  let end_ := FileRange.end_ (collection_range collection) in
  if metadata_len (source_metadata source) <? end_
  then fail (UnexpectedSourceEof end_ (metadata_len (source_metadata source)))
  else ok collection).

(** The turns of a walk: one for each index, and one for the free space or the end. *)
Definition WALK_TURNS : nat := N.to_nat 65537.

(** The objects the callback is called with, in order. *)
Fixpoint walk_loop (fuel : nat) (source : Source) (window : HeaderWindow) (walk : GlobalHeapWalk)
    (visited : list GlobalHeapObject) : exec (list GlobalHeapObject) :=
  match GlobalHeapWalk.parse_range walk with
  | None => ok visited
  | Some range =>
    match fuel with
    | O => Panic
    | S fuel =>
      '(region, window) ←? window_region window source range;
      '(object, walk) ←? GlobalHeapWalk.parse walk region;
      walk_loop fuel source window walk
        (match object with Some o => visited ++ [o] | None => visited end)%list
    end
  end.

Definition walk_collection (source : Source) (lengths : LengthWidth) (address : Z)
    : exec (list GlobalHeapObject * FileRange) :=
  collection ←? read_collection source lengths address;
  visited ←? walk_loop WALK_TURNS source (window_new (collection_range collection))
               (GlobalHeapWalk.new collection) [];
  ok (visited, collection_range collection).

Fixpoint collect_loop (fuel : nat) (source : Source) (window : HeaderWindow)
    (collector : GlobalHeapMemberCollector) : exec GlobalHeapMemberCollector :=
  match GlobalHeapMemberCollector.parse_range collector with
  | None => ok collector
  | Some range =>
    match fuel with
    | O => Panic
    | S fuel =>
      '(region, window) ←? window_region window source range;
      collector ←? GlobalHeapMemberCollector.parse collector region;
      collect_loop fuel source window collector
    end
  end.

Definition collect_members (source : Source) (lengths : LengthWidth) (address : Z) : exec GlobalHeapMembers :=
  collection ←? read_collection source lengths address;
  collector ←? collect_loop WALK_TURNS source (window_new (collection_range collection))
                 (GlobalHeapMemberCollector.new collection);
  Ret (ok_or (GlobalHeapMemberCollector.finish collector)
         (Internal "global heap member collection is incomplete")).

End Reading.

(** ** The reader of objects *)

Record GlobalHeapId : Type := mkHeapId {
  id_collection : Z;
  id_index : Z;
}.

Record Directory : Type := mkDirectory {
  directory_objects : list (Z * option GlobalHeapPayloadRef);
  directory_walked : bool;
}.

(** The directories by the address of their collection. *)
Record GlobalHeapReader : Type := mkReader {
  reader_source : Source;
  reader_lengths : LengthWidth;
  reader_directories : gmap Z Directory;
}.

(** [binary_search_by_key] on indices in ascending order: where the index is. *)
Fixpoint search_index (objects : list (Z * option GlobalHeapPayloadRef)) (i : Z) : option nat :=
  match objects with
  | [] => None
  | (j, _) :: objects => if j =? i then Some O else S <$> search_index objects i
  end.

(** [sort_unstable_by_key] on the index, one entry at a time. *)
Fixpoint sort_insert (e : Z * option GlobalHeapPayloadRef) (l : list (Z * option GlobalHeapPayloadRef))
    : list (Z * option GlobalHeapPayloadRef) :=
  match l with
  | [] => [e]
  | x :: l => if e.1 <=? x.1 then e :: x :: l else x :: sort_insert e l
  end.

Definition sort_by_index (l : list (Z * option GlobalHeapPayloadRef)) : list (Z * option GlobalHeapPayloadRef) :=
  fold_right sort_insert [] l.

(** [dedup_by_key]: of neighbours with equal indices the first is kept. *)
Fixpoint dedup_by_index (l : list (Z * option GlobalHeapPayloadRef)) : list (Z * option GlobalHeapPayloadRef) :=
  match l with
  | [] => []
  | x :: l =>
    match dedup_by_index l with
    | [] => [x]
    | y :: l' => if x.1 =? y.1 then x :: l' else x :: y :: l'
    end
  end.

Module Directory.
Section Directory.
Context `{B : Build}.

(** The callback records the payload of each registered object.  The reader after a failed
    call is left out: a failed walk leaves [walked] unset, and the next call walks again. *)
Definition record (objects : list (Z * option GlobalHeapPayloadRef)) (object : GlobalHeapObject)
    : list (Z * option GlobalHeapPayloadRef) :=
  match search_index objects (object_index object) with
  | Some at_ => alter (λ '(i, _), (i, Some (object_payload object))) at_ objects
  | None => objects
  end.

Definition walk (self : Directory) (source : Source) (lengths : LengthWidth) (address : Z) : exec Directory :=
  '(visited, _) ←? walk_collection source lengths address;
  ok (mkDirectory (fold_left record visited (directory_objects self)) true).

End Directory.
End Directory.

Module GlobalHeapReader.
Section Reader.
Context `{B : Build}.

Definition register (directories : gmap Z Directory) (id : GlobalHeapId) : gmap Z Directory :=
  let d := default (mkDirectory [] false) (directories !! id_collection id) in
  <[id_collection id := mkDirectory (directory_objects d ++ [(id_index id, None)])%list (directory_walked d)]>
    directories.

Definition new (source : Source) (lengths : LengthWidth) (ids : list GlobalHeapId) : GlobalHeapReader :=
  let directories := fold_left register ids ∅ in
  mkReader source lengths
    ((λ d, mkDirectory (dedup_by_index (sort_by_index (directory_objects d))) (directory_walked d)) <$> directories).

Definition unregistered (id : GlobalHeapId) : FormatError :=
  Internal ("global heap object " +:+ pretty (id_index id) +:+ " of the collection at "
            +:+ pretty (id_collection id) +:+ " is not registered").

Definition payload (self : GlobalHeapReader) (id : GlobalHeapId)
    : exec (GlobalHeapPayloadRef * GlobalHeapReader) :=
  match reader_directories self !! id_collection id with
  | None => fail (unregistered id)
  | Some directory =>
    directory ←?
      (if directory_walked directory then ok directory
       else Directory.walk directory (reader_source self) (reader_lengths self) (id_collection id));
    let self := mkReader (reader_source self) (reader_lengths self)
                  (<[id_collection id := directory]> (reader_directories self)) in
    match search_index (directory_objects directory) (id_index id) with
    | Some at_ =>
      '(_, payload) ← expect (directory_objects directory !! at_);
      match payload with
      | Some payload => ok (payload, self)
      | None => fail (GlobalHeapObjectNotFound (id_collection id) (id_index id))
      end
    | None => fail (unregistered id)
    end
  end.

Definition read (self : GlobalHeapReader) (id : GlobalHeapId) (len : Z) : exec (list Z * GlobalHeapReader) :=
  '(payload, self) ←? payload self id;
  let payload := payload_range payload in
  if FileRange.length payload <? len
  then fail (VlDataError ("a " +:+ pretty len +:+ "-byte read exceeds global heap object size "
                          +:+ pretty (FileRange.length payload)))
  else
    try_ (to_usize len) (λ len,
    bytes ←? read_exact_at (reader_source self) (FileRange.start payload) len;
    ok (bytes, self)).

End Reader.
End GlobalHeapReader.

(** ** Applying a plan through the undo journal *)

Inductive HeapMutationState : Type := Restored | HeapUncertain.

Record HeapMutationFailure : Type := mkFailure {
  failure_completed : nat;
  failure_state : HeapMutationState;
  failure_error : Error;
}.

Section Journal.
Context `{B : Build} {I : Type} `{FileImage I}.

Definition COPY_BYTES : Z := 4096.

Definition contained (parent range : FileRange) : result unit FormatError :=
  if FileRange.contains parent range then Ok tt
  else Err (InsufficientRegion (FileRange.start range) (FileRange.length range)
              (FileRange.start parent) (FileRange.length parent)).

(** [FileRange::new(start.checked_add(copied)?, length)] *)
Definition copy_range (start copied length : Z) : exec FileRange :=
  try_ (Address.checked_add start copied) (λ start, FileRange.new start length).

(** [while copied < source.length()]: each turn but the last copies [COPY_BYTES]. *)
Fixpoint copy_loop (fuel : nat) (self : WriteEngine I) (parent source destination : FileRange) (copied : Z)
    : outcome (result unit Error * WriteEngine I) :=
  if FileRange.length source <=? copied then Ret (Ok tt, self)
  else
    match fuel with
    | O => Panic
    | S fuel =>
      let length := Z.min (FileRange.length source - copied) COPY_BYTES in
      ranges ← (read ←? copy_range (FileRange.start source) copied length;
                write ←? copy_range (FileRange.start destination) copied length;
                try_ (contained parent read) (λ _,
                try_ (contained parent write) (λ _,
                try_ (to_usize length) (λ length, ok (read, write, length)))));
      match ranges with
      | Err e => Ret (Err (ErrorFormat e), self)
      | Ok (read, write, length) =>
        match image_read (engine_image self) (FileRange.start read) length with
        | Err e => Ret (Err (ErrorFormat e), self)
        | Ok bytes =>
          let '(r, self) := write_inplace_journaled self (FileRange.start write) bytes in
          match r with
          | Err e => Ret (Err e, self)
          | Ok _ => copy_loop fuel self parent source destination (copied + length)
          end
        end
      end
    end.

(** The loop over the moves. *)
Fixpoint apply_moves (self : WriteEngine I) (parent : FileRange) (moves : list GlobalHeapMove)
    : outcome (result unit Error * WriteEngine I) :=
  match moves with
  | [] => Ret (Ok tt, self)
  | movement :: moves =>
    let source := object_range (move_object movement) in
    '(r, self) ← copy_loop (Z.to_nat (FileRange.length source)) self parent source (move_destination movement) 0;
    match r with
    | Err e => Ret (Err e, self)
    | Ok _ => apply_moves self parent moves
    end
  end.

(** [apply]; [unexpected_eof] names the range and the length of the image. *)
Definition apply (self : WriteEngine I) (plan : GlobalHeapCompaction) : outcome (result unit Error * WriteEngine I) :=
  let parent := compaction_collection plan in
  let len := image_len (engine_image self) in
  if len <? FileRange.end_ parent
  then Ret (Err (ErrorFormat (UnexpectedSourceEof (FileRange.end_ parent) len)), self)
  else
    match compaction_free_space plan with
    | None => Ret (Ok tt, self)
    | Some free =>
      '(r, self) ← apply_moves self parent (compaction_moves plan);
      match r with
      | Err e => Ret (Err e, self)
      | Ok _ =>
        match contained parent (free_header free) with
        | Err e => Ret (Err (ErrorFormat e), self)
        | Ok _ => Ret (write_inplace_journaled self (FileRange.start (free_header free)) (free_bytes free))
        end
      end
    end.

(** The plans of one scope, up to the first that fails. *)
Fixpoint apply_all (self : WriteEngine I) (plans : list GlobalHeapCompaction) : outcome (result unit Error * WriteEngine I) :=
  match plans with
  | [] => Ret (Ok tt, self)
  | plan :: plans =>
    '(r, self) ← apply self plan;
    match r with
    | Err e => Ret (Err e, self)
    | Ok _ => apply_all self plans
    end
  end.

Definition rootless (self : WriteEngine I) (plans : list GlobalHeapCompaction) : outcome (result unit Error * WriteEngine I) :=
  match AllocationPublication.before_reference (engine_allocations self) with
  | Err e => Ret (Err e, self)
  | Ok _ => run_rootless self (λ self, apply_all self plans)
  end.

(** One plan of [published_batch]: the permission, the bounds and the scope of its writes. *)
Definition published_plan (self : WriteEngine I) (plan : GlobalHeapCompaction) (end_ : Z)
    : outcome (result unit Error * WriteEngine I) :=
  match AllocationPublication.before_reference (engine_allocations self) with
  | Ok _ =>
    if end_ <? FileRange.end_ (compaction_collection plan)
    then Ret (Err (ErrorFormat (UnexpectedSourceEof (FileRange.end_ (compaction_collection plan)) end_)), self)
    else run_issued self (λ self, apply self plan)
  | Err e => Ret (Err e, make_allocation_uncertain self)
  end.

Fixpoint published_batch (self : WriteEngine I) (plans : list GlobalHeapCompaction) (end_ : Z) (completed : nat)
    : outcome (result unit HeapMutationFailure * WriteEngine I) :=
  match plans with
  | [] => Ret (Ok tt, self)
  | plan :: plans =>
    '(r, self) ← published_plan self plan end_;
    match r with
    | Ok _ => published_batch self plans end_ (S completed)
    | Err e =>
      let self :=
        match e with
        | AllocationPublicationUncertain | CommitPartiallyApplied _ _ => make_allocation_uncertain self
        | _ => self
        end in
      let state :=
        match AllocationPublication.available (engine_allocations self) with
        | Ok _ => Restored
        | Err _ => HeapUncertain
        end in
      Ret (Err (mkFailure completed state e), self)
    end
  end.

End Journal.
