(* ===== verification/GlobalHeapFacts.v ===== *)
(** * Facts about global heap collections

    A collection is described by its records and the bytes behind the last of them
    ([heap_at]).  A walk through the window of header bytes returns the records of the
    file, in order, exactly when the bytes are such a collection with distinct indices;
    the encoder produces such bytes.  No file of the program is modelled here. *)

From stdpp Require Import strings gmap.
From S2P Require Import Prelude Addresses Words ByteFields ByteFieldFacts FileRegions SuperblockFacts.
From S2P Require Import ObjectHeaders ObjectHeaderFacts GlobalHeaps.

Local Open Scope Z_scope.

(** ** The layout of a collection *)

(** An object: its index, its reference count, its data, and the bytes nothing reads. *)
Record HeapRecord : Type := mkRecord {
  rec_index : Z;
  rec_count : Z;
  rec_reserved : list Z;
  rec_gap : list Z;
  rec_data : list Z;
  rec_pad : list Z;
}.

Definition record_head (lw : LengthWidth) (r : HeapRecord) : list Z :=
  le_bytes 2 (rec_index r) ++ le_bytes 2 (rec_count r) ++ rec_reserved r ++
  lbytes lw (zlen (rec_data r)) ++ rec_gap r.

Definition record_bytes (lw : LengthWidth) (r : HeapRecord) : list Z :=
  record_head lw r ++ rec_data r ++ rec_pad r.

Definition records_bytes (lw : LengthWidth) (rs : list HeapRecord) : list Z := mjoin (record_bytes lw <$> rs).

Record record_ok (lw : LengthWidth) (r : HeapRecord) : Prop := {
  rec_index_range : 1 ≤ rec_index r ≤ 65535;
  rec_count_fits : fits 2 (rec_count r);
  rec_reserved_len : zlen (rec_reserved r) = 4;
  rec_gap_len : LengthWidth.get lw + zlen (rec_gap r) = 8;
  rec_size_fits : fits (LengthWidth.get lw) (zlen (rec_data r));
  rec_pad_len : zlen (rec_data r) + zlen (rec_pad r) = aligned (zlen (rec_data r));
}.

(** The bytes behind the last record: none, a remainder shorter than a header that starts
    with the index zero, or a free object that says how many bytes are left. *)
Definition tail_ok (lw : LengthWidth) (t : list Z) : Prop :=
  t = [] ∨
  (zlen t < 16 ∧ ∃ r, t = le_bytes 2 0 ++ r) ∨
  (16 ≤ zlen t ∧ ∃ count r s, t = le_bytes 2 0 ++ le_bytes 2 count ++ r ++ lbytes lw (zlen t) ++ s ∧
    fits 2 count ∧ zlen r = 4 ∧ fits (LengthWidth.get lw) (zlen t)).

Definition collection_head (lw : LengthWidth) (size : Z) (reserved gap : list Z) : list Z :=
  GCOL_SIGNATURE ++ [GCOL_VERSION] ++ reserved ++ lbytes lw size ++ gap.

(** The file holds a collection of the records [rs] at the address. *)
Record heap_at (file : list Z) (address : Z) (lw : LengthWidth) (rs : list HeapRecord) (t : list Z) : Prop := mkHeapAt {
  heap_layout : ∃ pre reserved gap post size,
    file = pre ++ collection_head lw size reserved gap ++ records_bytes lw rs ++ t ++ post ∧
    zlen pre = address ∧ zlen reserved = 3 ∧ LengthWidth.get lw + zlen gap = 8 ∧
    size = 16 + zlen (records_bytes lw rs) + zlen t ∧ fits (LengthWidth.get lw) size ∧
    4096 ≤ size ∧ size mod 8 = 0;
  heap_records : Forall (record_ok lw) rs;
  heap_tail : tail_ok lw t;
}.

(** The object a parser returns for a record at [pos]. *)
Definition describes (lw : LengthWidth) (pos : Z) (r : HeapRecord) (o : GlobalHeapObject) : Prop :=
  object_index o = rec_index r ∧ object_reference_count o = rec_count r ∧
  range_start (object_range o) = pos ∧ range_end (object_range o) = pos + zlen (record_bytes lw r) ∧
  range_start (payload_range (object_payload o)) = pos + 16 ∧
  range_end (payload_range (object_payload o)) = pos + 16 + zlen (rec_data r).

Fixpoint objects_at (lw : LengthWidth) (pos : Z) (rs : list HeapRecord) (os : list GlobalHeapObject) : Prop :=
  match rs, os with
  | [], [] => True
  | r :: rs, o :: os => describes lw pos r o ∧ objects_at lw (pos + zlen (record_bytes lw r)) rs os
  | _, _ => False
  end.

Lemma header_len_eq lw : header_len lw = 16.
Proof. by destruct lw. Qed.

Lemma aligned_spec n : 0 ≤ n → aligned n mod 8 = 0 ∧ n ≤ aligned n < n + 8.
Proof.
  intros Hn. unfold aligned, ALIGNMENT. pose proof (Z.mod_pos_bound n 8 ltac:(lia)).
  pose proof (Z.div_mod n 8 ltac:(lia)). destruct (n mod 8 =? 0) eqn:E; [lia|]. split; [|lia].
  replace (n + (8 - n mod 8)) with ((n / 8 + 1) * 8) by lia. by apply Z.mod_mul.
Qed.

Lemma record_head_len lw r : record_ok lw r → zlen (record_head lw r) = 16.
Proof.
  intros [_ _ Hr Hg _ _]. unfold record_head. autorewrite with zlen. pose proof (length_get_cases lw).
  unfold zlen in *. lia.
Qed.

Lemma record_len lw r : record_ok lw r → zlen (record_bytes lw r) = 16 + aligned (zlen (rec_data r)).
Proof.
  intros Hr. unfold record_bytes. rewrite !zlen_app, (record_head_len _ _ Hr). pose proof (rec_pad_len _ _ Hr). lia.
Qed.

Lemma record_len_bounds lw r :
  record_ok lw r → 16 ≤ zlen (record_bytes lw r) ∧ zlen (record_bytes lw r) mod 8 = 0 ∧
  16 + zlen (rec_data r) ≤ zlen (record_bytes lw r).
Proof.
  intros Hr. rewrite (record_len _ _ Hr). pose proof (aligned_spec (zlen (rec_data r)) (zlen_nonneg _)) as [H1 H2].
  pose proof (zlen_nonneg (rec_data r)). split_and!; [lia| |lia].
  rewrite <- Zplus_mod_idemp_r, H1. done.
Qed.

Lemma records_bytes_cons lw r rs : records_bytes lw (r :: rs) = record_bytes lw r ++ records_bytes lw rs.
Proof. done. Qed.

Lemma records_bytes_app lw rs rs' : records_bytes lw (rs ++ rs') = records_bytes lw rs ++ records_bytes lw rs'.
Proof. unfold records_bytes. by rewrite fmap_app, join_app. Qed.

(** ** The set of indices *)

(** The set has the bits of the indices [ids]. *)
Definition seen_ok (seen : list Z) (ids : list Z) : Prop :=
  length seen = 1024%nat ∧
  ∀ i, 0 ≤ i < 65536 → ∃ w, seen !! Z.to_nat (i / 64) = Some w ∧ Z.testbit w (i mod 64) = bool_decide (i ∈ ids).

Lemma seen_new : seen_ok IndexSet.new [].
Proof.
  unfold seen_ok, IndexSet.new. split; [by rewrite length_replicate|]. intros i Hi. exists 0. split; [|by rewrite Z.bits_0].
  apply lookup_replicate_2. change (Z.to_nat INDEX_WORDS) with (Z.to_nat 1024).
  assert (i / 64 < 1024) by (apply Z.div_lt_upper_bound; lia). pose proof (Z.div_pos i 64). lia.
Qed.

Lemma shiftl_bit k n : 0 ≤ k → 0 ≤ n → Z.testbit (Z.shiftl 1 k) n = bool_decide (n = k).
Proof.
  intros Hk Hn. rewrite Z.shiftl_1_l. destruct (bool_decide (n = k)) eqn:E.
  - apply bool_decide_eq_true in E as ->. by apply Z.pow2_bits_true.
  - apply bool_decide_eq_false in E. apply Z.pow2_bits_false. lia.
Qed.

Lemma bit_land_zero w k : 0 ≤ k → (Z.land w (Z.shiftl 1 k) =? 0) = negb (Z.testbit w k).
Proof.
  intros Hk. assert (Hb : ∀ n, 0 ≤ n → Z.testbit (Z.land w (Z.shiftl 1 k)) n = Z.testbit w n && bool_decide (n = k)).
  { intros n Hn. by rewrite Z.land_spec, shiftl_bit. }
  destruct (Z.testbit w k) eqn:E; cbn.
  - apply Z.eqb_neq. intros H0. specialize (Hb k Hk). rewrite H0, Z.bits_0, E in Hb. by rewrite bool_decide_eq_true_2 in Hb.
  - apply Z.eqb_eq, Z.bits_inj'. intros n Hn. rewrite (Hb n Hn), Z.bits_0.
    destruct (decide (n = k)) as [->|Hne]; [by rewrite E|]. by rewrite (bool_decide_eq_false_2 (n = k)), andb_false_r by done.
Qed.

Lemma splice_one (l : list Z) (i x y : Z) :
  0 ≤ i → l !! Z.to_nat i = Some x → splice l i [y] = Ret (<[Z.to_nat i := y]> l).
Proof.
  intros Hi Hx. pose proof (lookup_lt_Some _ _ _ Hx). unfold splice, get_range. cbn [length].
  replace (zlen [y]) with 1 by done. replace (_ && _ && _) with true by (unfold zlen; lia).
  rewrite insert_take_drop by done. cbn [app]. by rewrite Nat.add_1_r.
Qed.

Lemma seen_insert (seen : list Z) ids i :
  seen_ok seen ids → 0 ≤ i < 65536 →
  ∃ seen', IndexSet.insert seen i = Ret (bool_decide (i ∉ ids), seen') ∧ seen_ok seen' (i :: ids).
Proof.
  intros [Hl Hs] Hi. destruct (Hs i Hi) as (w & Hw & Hb).
  pose proof (Z.div_pos i 64 ltac:(lia) ltac:(lia)). pose proof (Z.mod_pos_bound i 64 ltac:(lia)).
  assert (Hlt : i / 64 < 1024) by (apply Z.div_lt_upper_bound; lia).
  set (w' := Z.lor w (Z.shiftl 1 (i mod 64))). exists (<[Z.to_nat (i / 64) := w']> (seen : list Z)). split.
  - unfold IndexSet.insert. rewrite (index_Ret seen (i / 64) w) by done. cbn [mbind outcome_bind].
    rewrite (splice_one _ _ w) by done. cbn [mbind outcome_bind]. by rewrite bit_land_zero, Hb, bool_decide_not by lia.
  - split; [by rewrite length_insert|]. intros j Hj. destruct (Hs j Hj) as (v & Hv & Hb').
    pose proof (Z.div_pos j 64 ltac:(lia) ltac:(lia)). pose proof (Z.mod_pos_bound j 64 ltac:(lia)).
    pose proof (Z.div_mod i 64 ltac:(lia)). pose proof (Z.div_mod j 64 ltac:(lia)).
    destruct (Z.eq_dec (j / 64) (i / 64)) as [He|Hne].
    + exists w'. rewrite He, list_lookup_insert_eq by lia. split; [done|]. unfold w'.
      rewrite He, Hw in Hv. injection Hv as <-. rewrite Z.lor_spec, shiftl_bit, Hb' by lia.
      destruct (decide (j = i)) as [->|Hn].
      * rewrite (bool_decide_eq_true_2 (i mod 64 = _)) by done. rewrite orb_true_r. symmetry. apply bool_decide_eq_true_2. left.
      * rewrite (bool_decide_eq_false_2 (j mod 64 = _)) by lia. rewrite orb_false_r.
        apply bool_decide_ext. rewrite elem_of_cons. naive_solver.
    + exists v. rewrite list_lookup_insert_ne by lia. split; [done|]. rewrite Hb'.
      apply bool_decide_ext. rewrite elem_of_cons. split; [tauto|]. intros [->|?]; [lia|done].
Qed.

(** ** Reads through the window *)

(** A source that reads the bytes of a file, and fails past its end. *)
Record serves (source : Source) (file : list Z) : Prop := mkServes {
  serves_len : metadata_len (source_metadata source) = zlen file;
  serves_read : ∀ off n, 0 ≤ off → 0 ≤ n →
    match get_range file off (off + n) with
    | Some b => read_metadata (source_metadata source) off n = ok b
    | None => ∃ e, read_metadata (source_metadata source) off n = fail e
    end;
  serves_exact : ∀ off n, 0 ≤ off → 0 ≤ n →
    match get_range file off (off + n) with
    | Some b => read_exact_at source off n = ok b
    | None => ∃ e, read_exact_at source off n = fail e
    end;
}.

Lemma get_range_within {A} (l : list A) a b : 0 ≤ a ≤ b → b ≤ zlen l → ∃ s, get_range l a b = Some s.
Proof. intros H1 H2. destruct (get_range l a b) as [s|] eqn:E; [by exists s|]. apply get_range_None in E. lia. Qed.

(** A range of a range. *)
Lemma header_range_sub {A} (l s : list A) a b c d :
  get_range l a b = Some s → a ≤ c → d ≤ b → get_range s (c - a) (d - a) = get_range l c d.
Proof.
  intros Hs Hc Hd. destruct (get_range_split _ _ _ _ Hs) as (p & r & -> & <- & Hz).
  pose proof (zlen_nonneg p). destruct (get_range s _ _) as [u|] eqn:E.
  - destruct (get_range_split _ _ _ _ E) as (p' & r' & -> & Hp' & Hu). symmetry.
    replace (p ++ (p' ++ u ++ r') ++ r) with ((p ++ p') ++ u ++ r' ++ r) by (by rewrite <- !app_assoc).
    apply get_range_app; rewrite ?zlen_app; lia.
  - apply get_range_None in E. symmetry. apply get_range_None. rewrite !zlen_app. pose proof (zlen_nonneg r). lia.
Qed.

Section Windows.
Context `{B : Build} (source : Source) (file : list Z).
Hypothesis Hserves : serves source file.

Lemma read_range range :
  0 ≤ range_start range → FileRange.length range ≤ USIZE_MAX →
  match get_range file (range_start range) (range_end range) with
  | Some b => read source range = ok b
  | None => ∃ e, read source range = fail e
  end.
Proof.
  intros Hs Hl. pose proof (range_ordered range) as Ho. unfold read, to_usize.
  replace (FileRange.length range <=? USIZE_MAX) with true by lia. cbn [try_].
  pose proof (serves_read _ _ Hserves (range_start range) (FileRange.length range) Hs) as Hr.
  unfold FileRange.length, FileRange.start in *. replace (range_start range + _) with (range_end range) in Hr by lia.
  apply Hr. lia.
Qed.

(** The window holds bytes of the file. *)
Definition window_ok (collection : FileRange) (w : HeaderWindow) : Prop :=
  window_collection w = collection ∧
  match window_held w with
  | Some (held, bytes) => get_range file (range_start held) (range_end held) = Some bytes ∧ zlen bytes ≤ USIZE_MAX
  | None => True
  end.

Lemma span_bounds w range :
  range_start range ≤ range_end (window_collection w) → range_end range ≤ range_end (window_collection w) →
  FileRange.length range ≤ span w range ≤ Z.max WINDOW (FileRange.length range) ∧
  range_start range + span w range ≤ range_end (window_collection w).
Proof.
  intros H1 H2. pose proof (range_ordered range) as Ho. unfold span, u64_saturating_sub. cbv zeta. fold (FileRange.length range).
  unfold FileRange.end_, FileRange.start in *. assert (FileRange.length range = range_end range - range_start range) as Hl by done.
  destruct (_ <? _) eqn:E; [lia|]. set (ahead := saturating_add _ _) in *. lia.
Qed.

Lemma held_region collection held bytes range k :
  get_range file (range_start held) (range_end held) = Some bytes → zlen bytes ≤ USIZE_MAX →
  FileRange.contains held range = true →
  ∃ s, get_range file (range_start range) (range_end range) = Some s ∧
    try_ (FileRegion.new held bytes) (λ region,
      try_ (FileRegion.subregion region range) (λ region, ok (region, mkWindow collection (Some (held, bytes)) k.1 k.2)))
    = ok (mkRegion range s, mkWindow collection (Some (held, bytes)) k.1 k.2) ∧ zlen s ≤ USIZE_MAX.
Proof.
  intros Hb Hu Hc. pose proof (get_range_zlen _ _ _ _ Hb) as Hz.
  assert (Hl : FileRange.length held = zlen bytes) by (unfold FileRange.length; lia).
  rewrite (region_new_ok _ _ Hl). cbn [try_].
  destruct (subregion_spec (mkRegion held bytes) range (conj Hl Hu)) as [[_ (p & q & s & Hs & Hp & -> & Hok & Hsu)]|[Hf _]];
    cbn in *; [|by rewrite Hc in Hf].
  exists s. split; [|split; [done|exact Hsu]]. rewrite <- (header_range_sub _ _ _ _ (range_start range) (range_end range) Hb).
  - rewrite Hs. unfold FileRange.start in Hp. unfold FileRange.length in Hok. apply get_range_app; lia.
  - unfold FileRange.contains, AddressRange.contains in Hc. lia.
  - unfold FileRange.contains, AddressRange.contains in Hc. lia.
Qed.

(** Whatever the window held, the region it returns has the bytes of the file. *)
Lemma window_region_ok collection w range :
  window_ok collection w → 0 ≤ range_start range → range_end range ≤ range_end collection →
  range_end collection ≤ zlen file → range_end collection ≤ U64_MAX → FileRange.length range ≤ 16 →
  ∃ s w', window_region w source range = ok (mkRegion range s, w') ∧ window_ok collection w' ∧
    get_range file (range_start range) (range_end range) = Some s ∧ zlen s ≤ USIZE_MAX.
Proof.
  intros [Hwc Hh] Hs He Hf Hm Hl. pose proof usize_bounds as Hub. pose proof (range_ordered range) as Ho.
  unfold window_region. cbv zeta. set (strides := match window_previous_header w with Some _ => _ | None => _ end).
  cbn [window_held window_collection window_previous_header window_strides].
  set (w1 := mkWindow (window_collection w) (window_held w) (Some (FileRange.start range)) strides).
  assert (Hread : ∃ held bytes, (held ←? FileRange.new (FileRange.start range) (span w1 range); bytes ←? read source held; ok (held, bytes))
      = ok (held, bytes) ∧ get_range file (range_start held) (range_end held) = Some bytes ∧ zlen bytes ≤ USIZE_MAX ∧
      FileRange.contains held range = true).
  { destruct (span_bounds w1 range) as [Hsp Hse]; cbn [window_collection w1]; [rewrite Hwc; lia..|].
    cbn [window_collection w1] in Hse. rewrite Hwc in Hse. unfold WINDOW in Hsp. change (FileRange.start range) with (range_start range).
    assert (FileRange.length range = range_end range - range_start range) as Hlr by done.
    destruct (range_new_ok (range_start range) (span w1 range)) as (held & -> & Hh1 & Hh2); [lia..|]. rewrite and_then_ok.
    destruct (get_range_within file (range_start held) (range_end held)) as [bytes Hb]; [lia..|].
    pose proof (read_range held) as Hr. rewrite Hb in Hr. rewrite Hr by (unfold FileRange.length; lia). rewrite and_then_ok.
    exists held, bytes. split_and!; [done|done|rewrite (get_range_zlen _ _ _ _ Hb); lia|].
    unfold FileRange.contains, AddressRange.contains. lia. }
  assert (Hgot : ∃ held bytes, match window_held w with
      | Some (held, bytes) =>
        if FileRange.contains held range then ok (held, bytes)
        else held ←? FileRange.new (FileRange.start range) (span w1 range); bytes ←? read source held; ok (held, bytes)
      | None => held ←? FileRange.new (FileRange.start range) (span w1 range); bytes ←? read source held; ok (held, bytes)
      end = ok (held, bytes) ∧ get_range file (range_start held) (range_end held) = Some bytes ∧ zlen bytes ≤ USIZE_MAX ∧
      FileRange.contains held range = true).
  { destruct (window_held w) as [[held bytes]|]; [|done]. destruct (FileRange.contains held range) eqn:E; [|done].
    destruct Hh. by exists held, bytes. }
  destruct Hgot as (held & bytes & -> & Hb & Hu & Hc). rewrite and_then_ok. cbv beta iota.
  destruct (held_region (window_collection w) held bytes range (Some (FileRange.start range), strides) Hb Hu Hc)
    as (s & Hg & Heq & Hsu). cbn [fst snd] in Heq. eexists s, _. split_and!; [exact Heq| |done|done]. by split.
Qed.

End Windows.

(** ** The header of an object *)

Lemma split_word (s : list Z) (n : nat) :
  Forall byte s → Z.of_nat n ≤ zlen s →
  ∃ v r, s = le_bytes n v ++ r ∧ fits (Z.of_nat n) v ∧ Forall byte r.
Proof.
  intros Hb Hn. pose proof (Forall_take _ n _ Hb) as H1. pose proof (Forall_drop _ n _ Hb) as H2.
  assert (Hl : length (take n s) = n) by (rewrite length_take; unfold zlen in Hn; lia).
  exists (le_value (take n s)), (drop n s). pose proof (le_bytes_value _ H1) as He. rewrite Hl in He. rewrite He.
  split_and!; [by rewrite take_drop| |done].
  pose proof (le_value_bounds _ H1) as Hv. unfold zlen in Hv. by rewrite Hl in Hv.
Qed.

Lemma split_bytes (s : list Z) (n : Z) :
  Forall byte s → 0 ≤ n ≤ zlen s → ∃ u r, s = u ++ r ∧ zlen u = n ∧ Forall byte u ∧ Forall byte r.
Proof.
  intros Hb Hn. exists (take (Z.to_nat n) s), (drop (Z.to_nat n) s). rewrite take_drop, zlen_take by done.
  split_and!; [done|done|by apply Forall_take|by apply Forall_drop].
Qed.

(** The fields of a header of 16 bytes. *)
Definition head_bytes (lw : LengthWidth) (i c : Z) (reserved : list Z) (n : Z) (gap : list Z) : list Z :=
  le_bytes 2 i ++ le_bytes 2 c ++ reserved ++ lbytes lw n ++ gap.

Lemma split_head lw (s : list Z) :
  Forall byte s → 16 ≤ zlen s →
  ∃ i c reserved n gap r, s = head_bytes lw i c reserved n gap ++ r ∧ fits 2 i ∧ fits 2 c ∧ zlen reserved = 4 ∧
    fits (LengthWidth.get lw) n ∧ LengthWidth.get lw + zlen gap = 8.
Proof.
  intros Hb Hl. pose proof (length_get_cases lw) as Hw.
  destruct (split_word s 2 Hb) as (i & s1 & -> & Hi & Hb1); [lia|]. rewrite zlen_app, zlen_le_bytes in Hl.
  destruct (split_word s1 2 Hb1) as (c & s2 & -> & Hc & Hb2); [lia|]. rewrite zlen_app, zlen_le_bytes in Hl.
  destruct (split_bytes s2 4 Hb2) as (res & s3 & -> & Hr & _ & Hb3); [lia|]. rewrite zlen_app in Hl.
  destruct (split_word s3 (Z.to_nat (LengthWidth.get lw)) Hb3) as (n & s4 & -> & Hn & Hb4); [lia|].
  rewrite zlen_app, zlen_le_bytes in Hl.
  destruct (split_bytes s4 (8 - LengthWidth.get lw) Hb4) as (gap & r & -> & Hg & _ & _); [lia|].
  exists i, c, res, n, gap, r. rewrite Z2Nat.id in Hn by lia. split_and!; [|done..|lia].
  unfold head_bytes. by rewrite <- !app_assoc.
Qed.

Lemma head_bytes_len lw i c reserved n gap :
  zlen reserved = 4 → LengthWidth.get lw + zlen gap = 8 → zlen (head_bytes lw i c reserved n gap) = 16.
Proof.
  intros Hr Hg. unfold head_bytes. autorewrite with zlen. pose proof (length_get_cases lw). unfold zlen in *. lia.
Qed.

Lemma object_extent n remaining :
  0 ≤ n → remaining ≤ U64_MAX →
  (padded ← checked_next_multiple_of n ALIGNMENT;
   extent ← checked_add padded 16;
   if extent <=? remaining then Some extent else None)
  = if aligned n + 16 <=? remaining then Some (aligned n + 16) else None.
Proof.
  intros Hn Hr. unfold checked_next_multiple_of, aligned, ALIGNMENT, checked_add. cbn [Z.eqb].
  pose proof (Z.mod_pos_bound n 8 ltac:(lia)).
  destruct (n mod 8 =? 0) eqn:E; cbn [mbind option_bind].
  - destruct (n + 16 <=? U64_MAX) eqn:E1; cbn [mbind option_bind]; [done|]. by replace (n + 16 <=? remaining) with false by lia.
  - destruct (n + (8 - n mod 8) <=? U64_MAX) eqn:E1; cbn [mbind option_bind].
    + destruct (_ + 16 <=? U64_MAX) eqn:E2; cbn [mbind option_bind]; [done|]. by replace (_ <=? remaining) with false by lia.
    + by replace (_ <=? remaining) with false by lia.
Qed.

(** What a walk needs of a collection. *)
Record collection_ok (file : list Z) (lw : LengthWidth) (c : GlobalHeapCollection) : Prop := {
  coll_lengths : collection_lengths c = lw;
  coll_start : 0 ≤ range_start (collection_range c);
  coll_file : range_end (collection_range c) ≤ zlen file;
  coll_u64 : range_end (collection_range c) ≤ U64_MAX;
}.

Section Objects.
Context `{B : Build} (file : list Z) (lw : LengthWidth) (c : GlobalHeapCollection).
Hypothesis Hc : collection_ok file lw c.

Lemma remaining_eq pos :
  pos ≤ range_end (collection_range c) →
  GlobalHeapCollection.remaining c pos = Ok (range_end (collection_range c) - pos).
Proof.
  intros Hp. unfold GlobalHeapCollection.remaining, FileRange.end_, checked_sub. by replace (pos <=? _) with true by lia.
Qed.

Lemma header_range_eq pos :
  0 ≤ pos ≤ range_end (collection_range c) →
  if range_end (collection_range c) =? pos then GlobalHeapCollection.header_range c pos = ok None
  else ∃ range, GlobalHeapCollection.header_range c pos = ok (Some range) ∧ range_start range = pos ∧
    range_end range = pos + Z.min (range_end (collection_range c) - pos) 16.
Proof.
  intros Hp. pose proof (coll_u64 _ _ _ Hc). unfold GlobalHeapCollection.header_range. rewrite remaining_eq by lia. cbn [try_].
  rewrite header_len_eq. destruct (range_end (collection_range c) =? pos) eqn:E.
  - by replace (_ - pos =? 0) with true by lia.
  - replace (_ - pos =? 0) with false by lia.
    destruct (range_new_ok pos (Z.min (range_end (collection_range c) - pos) 16)) as (range & -> & H1 & H2); [lia..|].
    exists range. by rewrite and_then_ok.
Qed.

(** The parser on a full header. *)
Lemma parse_full range pos i count reserved n gap :
  range_start range = pos → range_end range = pos + 16 → 0 ≤ pos → pos + 16 ≤ range_end (collection_range c) →
  fits 2 i → fits 2 count → zlen reserved = 4 → fits (LengthWidth.get lw) n → LengthWidth.get lw + zlen gap = 8 →
  let remaining := range_end (collection_range c) - pos in
  let m := GlobalHeapCollection.parse_object c (mkRegion range (head_bytes lw i count reserved n gap)) in
  if i =? 0 then (if n =? remaining then m = ok None else ∃ e, m = fail e)
  else if aligned n + 16 <=? remaining
    then ∃ o, m = ok (Some o) ∧ object_index o = i ∧ object_reference_count o = count ∧
      range_start (object_range o) = pos ∧ range_end (object_range o) = pos + 16 + aligned n ∧
      range_start (payload_range (object_payload o)) = pos + 16 ∧
      range_end (payload_range (object_payload o)) = pos + 16 + n
    else ∃ e, m = fail e.
Proof.
  intros Hs He Hp Hle Hi Hcount Hr Hn Hg. cbv zeta. pose proof (coll_u64 _ _ _ Hc) as Hu. pose proof usize_bounds as Hub.
  pose proof (head_bytes_len lw i count reserved n gap Hr Hg) as Hl.
  set (m := GlobalHeapCollection.parse_object _ _).
  set (k := (if i =? 0 then (if negb (n =? range_end (collection_range c) - pos)
       then fail (MisplacedGlobalHeapFreeSpace pos n (range_end (collection_range c))) else ok None)
     else match (if aligned n + 16 <=? range_end (collection_range c) - pos then Some (aligned n + 16) else None) with
      | None => fail (GlobalHeapObjectOutsideCollection pos i (range_end (collection_range c)))
      | Some extent => object ←? FileRange.new pos extent; payload ←? FileRange.new (pos + 16) n;
        ok (Some (mkHeapObject i count object (mkPayloadRef payload))) end) : exec (option GlobalHeapObject)).
  assert (Hm : m = k).
  { unfold m, GlobalHeapCollection.parse_object. cbn [region_range region_bytes]. cbv zeta.
    rewrite header_len_eq, (coll_lengths _ _ _ Hc).
    eapply read_u16; [apply cursor_new; unfold head_bytes in Hl; rewrite Hl; lia|done|]. intros f1 Hc1 _. cbv beta iota.
    unfold FileRange.length, FileRange.start, FileRange.end_. replace (_ <? 16) with false by lia.
    eapply read_u16; [exact Hc1|done|]. intros f2 Hc2 _. cbv beta iota.
    eapply read_array; [exact Hc2|done|]. intros f3 Hc3 _. cbv beta iota.
    eapply read_length; [exact Hc3|done|]. intros f4 _ _. cbv beta iota.
    rewrite Hs, He, remaining_eq by lia. cbn [try_]. unfold fits in Hn. rewrite object_extent by lia. done. }
  rewrite Hm. unfold k. pose proof (aligned_spec n ltac:(unfold fits in Hn; lia)) as [_ Ha]. unfold fits in Hn.
  destruct (i =? 0) eqn:Ei.
  - destruct (n =? _); [done|]. by eexists.
  - destruct (aligned n + 16 <=? _) eqn:Ea; [|by eexists].
    destruct (range_new_ok pos (aligned n + 16)) as (ro & -> & Ho1 & Ho2); [lia..|].
    destruct (range_new_ok (pos + 16) n) as (rp & -> & Hp1 & Hp2); [lia..|]. rewrite !and_then_ok.
    eexists. split; [done|]. cbn. split_and!; [done|done|done|lia|done|lia].
Qed.

(** The parser on a remainder shorter than a header. *)
Lemma parse_short range i r :
  range_end range - range_start range < 16 → fits 2 i → zlen r ≤ 14 →
  let m := GlobalHeapCollection.parse_object c (mkRegion range (le_bytes 2 i ++ r)) in
  if i =? 0 then m = ok None else ∃ e, m = fail e.
Proof.
  intros Hl Hi Hr. cbv zeta. pose proof usize_bounds as Hub.
  assert (Hm : GlobalHeapCollection.parse_object c (mkRegion range (le_bytes 2 i ++ r)) =
    if i =? 0 then ok None else fail (GlobalHeapObjectOutsideCollection (FileRange.start range) i (FileRange.end_ (collection_range c)))).
  { unfold GlobalHeapCollection.parse_object. cbn [region_range region_bytes]. cbv zeta. rewrite header_len_eq.
    eapply read_u16; [apply cursor_new; rewrite zlen_app, zlen_le_bytes; lia|done|]. intros f1 _ _. cbv beta iota.
    unfold FileRange.length. by replace (_ <? 16) with true by lia. }
  rewrite Hm. destruct (i =? 0); [done|]. by eexists.
Qed.

End Objects.

(** ** Walks *)

Lemma indices_bound (ids : list Z) : NoDup ids → Forall (λ i, 1 ≤ i ≤ 65535) ids → (length ids ≤ N.to_nat 65535)%nat.
Proof.
  intros Hnd Hall. change (N.to_nat 65535) with (Z.to_nat 65535). rewrite <- (length_seqZ 1 65535). apply NoDup_incl_length.
  - by apply NoDup_ListNoDup.
  - intros i Hi. apply list_elem_of_In, elem_of_seqZ. rewrite Forall_forall in Hall. apply list_elem_of_In in Hi. specialize (Hall i Hi). lia.
Qed.

Section Walks.
Context `{B : Build} (file : list Z) (lw : LengthWidth) (c : GlobalHeapCollection).
Hypothesis Hc : collection_ok file lw c.
Hypothesis Hbytes : Forall byte file.

Notation E := (range_end (collection_range c)).

(** The walk is before the header at [pos], and saw the indices [ids]. *)
Definition walk_at (walk : GlobalHeapWalk) (pos : Z) (ids : list Z) : Prop :=
  walk_collection_of walk = c ∧ seen_ok (walk_seen walk) ids ∧ 0 ≤ pos ≤ E ∧
  match walk_next walk with
  | None => pos = E
  | Some range => pos < E ∧ range_start range = pos ∧ range_end range = pos + Z.min (E - pos) 16
  end.

(** The header bytes are the first bytes of what is left of the collection. *)
Lemma header_bytes pos range s rest :
  range_start range = pos → range_end range = pos + Z.min (E - pos) 16 →
  get_range file (range_start range) (range_end range) = Some s → get_range file pos E = Some rest →
  zlen s = Z.min (zlen rest) 16 ∧ ∃ r, rest = s ++ r.
Proof.
  intros Hs He Hg Hr. pose proof (get_range_zlen _ _ _ _ Hg) as Hz. pose proof (get_range_zlen _ _ _ _ Hr) as Hz'.
  split; [lia|]. rewrite <- (header_range_sub _ _ _ _ (range_start range) (range_end range) Hr) in Hg by lia.
  apply get_range_split in Hg as (p & r & -> & Hp & _). exists r.
  destruct p; [done|]. rewrite zlen_cons in Hp. pose proof (zlen_nonneg p). lia.
Qed.

Lemma header_prefix pos range s head r :
  range_start range = pos → range_end range = pos + Z.min (E - pos) 16 →
  get_range file (range_start range) (range_end range) = Some s → get_range file pos E = Some (head ++ r) →
  zlen head = Z.min (zlen (head ++ r)) 16 → s = head.
Proof.
  intros Hs He Hg Hr Hl. destruct (header_bytes pos range s (head ++ r) Hs He Hg Hr) as [Hz [r' Heq]].
  apply app_inj_1 in Heq as [-> _]; [done|]. unfold zlen in *. lia.
Qed.

Lemma subregion_self range s :
  get_range file (range_start range) (range_end range) = Some s → zlen s ≤ USIZE_MAX →
  FileRegion.subregion (mkRegion range s) range = Ok (mkRegion range s).
Proof.
  intros Hg Hu. apply subregion_all; [|done]. rewrite (get_range_zlen _ _ _ _ Hg). done.
Qed.

(** After an object the walk is before the next header. *)
Lemma walk_after walk range s pos ids o :
  walk_at walk pos ids → walk_next walk = Some range →
  get_range file (range_start range) (range_end range) = Some s → zlen s ≤ USIZE_MAX →
  GlobalHeapCollection.parse_object c (mkRegion range s) = ok (Some o) →
  0 ≤ object_index o < 65536 → pos ≤ range_end (object_range o) ≤ E →
  if bool_decide (object_index o ∈ ids) then ∃ e, GlobalHeapWalk.parse walk (mkRegion range s) = fail e
  else ∃ walk', GlobalHeapWalk.parse walk (mkRegion range s) = ok (Some o, walk') ∧
    walk_at walk' (range_end (object_range o)) (object_index o :: ids).
Proof.
  intros (Hcoll & Hseen & Hp & _) Hnext Hg Hu Hparse Hi Hend. unfold GlobalHeapWalk.parse.
  rewrite Hnext, (subregion_self _ _ Hg Hu). cbn [try_]. rewrite Hcoll, Hparse, and_then_ok.
  pose proof (header_range_eq file lw c Hc (range_end (object_range o)) ltac:(lia)) as Hh. unfold FileRange.end_.
  destruct (seen_insert (walk_seen walk) ids (object_index o) Hseen Hi) as (seen' & Hins & Hseen').
  destruct (E =? range_end (object_range o)) eqn:Ee; [|destruct Hh as (next & Hh & Hn1 & Hn2)];
    rewrite Hh, and_then_ok, Hins; cbn [mbind outcome_bind]; rewrite bool_decide_not;
    destruct (bool_decide (object_index o ∈ ids)); cbn [negb]; [by eexists| |by eexists|];
    (eexists; split; [done|]); (split; [done|]); (split; [done|]); cbn [walk_next]; lia.
Qed.

(** One step over a record. *)
Lemma walk_record walk range s pos ids r rest :
  walk_at walk pos ids → walk_next walk = Some range →
  get_range file (range_start range) (range_end range) = Some s → zlen s ≤ USIZE_MAX →
  get_range file pos E = Some (record_bytes lw r ++ rest) → record_ok lw r → rec_index r ∉ ids →
  ∃ o walk', GlobalHeapWalk.parse walk (mkRegion range s) = ok (Some o, walk') ∧ describes lw pos r o ∧
    walk_at walk' (pos + zlen (record_bytes lw r)) (rec_index r :: ids).
Proof.
  intros Hw Hnext Hg Hu Hrest Hr Hfresh. pose proof Hw as (_ & _ & Hp & Hn). rewrite Hnext in Hn. destruct Hn as (Hlt & Hs & He).
  pose proof (get_range_zlen _ _ _ _ Hrest) as Hz. rewrite zlen_app, (record_len _ _ Hr) in Hz.
  pose proof (zlen_nonneg rest). pose proof (aligned_spec (zlen (rec_data r)) (zlen_nonneg _)) as [_ Ha].
  pose proof (zlen_nonneg (rec_data r)). pose proof (record_head_len _ _ Hr) as Hhl.
  assert (s = record_head lw r) as ->.
  { apply (header_prefix pos range s _ (rec_data r ++ rec_pad r ++ rest)); [done..| |].
    - rewrite Hrest. unfold record_bytes. by rewrite <- !app_assoc.
    - rewrite zlen_app, Hhl. pose proof (zlen_nonneg (rec_data r ++ rec_pad r ++ rest)). lia. }
  destruct Hr as [Hi Hcount Hres Hgap Hsize Hpad].
  pose proof (parse_full file lw c Hc range pos (rec_index r) (rec_count r) (rec_reserved r) (zlen (rec_data r)) (rec_gap r))
    as Hparse. cbv zeta in Hparse.
  destruct (rec_index r =? 0) eqn:Ei; [lia|]. replace (_ + 16 <=? E - pos) with true in Hparse by lia.
  destruct Hparse as (o & Hparse & Hoi & Hoc & Ho1 & Ho2 & Ho3 & Ho4); [done|lia|lia|lia|unfold fits; lia|done..|].
  pose proof (walk_after walk range _ pos ids o Hw Hnext Hg Hu Hparse) as Hafter.
  rewrite Hoi, bool_decide_eq_false_2 in Hafter by done. destruct Hafter as (walk' & Hwp & Hw'); [lia|lia|].
  assert (Hl : zlen (record_bytes lw r) = 16 + aligned (zlen (rec_data r))) by by apply record_len.
  exists o, walk'. rewrite Hl. split_and!; [done| |by replace (pos + _) with (range_end (object_range o)) by lia].
  unfold describes. rewrite Hl. split_and!; (done || lia).
Qed.

(** The step over the bytes behind the last record. *)
Lemma walk_tail walk range s pos ids t :
  walk_at walk pos ids → walk_next walk = Some range →
  get_range file (range_start range) (range_end range) = Some s → zlen s ≤ USIZE_MAX →
  get_range file pos E = Some t → tail_ok lw t →
  ∃ walk', GlobalHeapWalk.parse walk (mkRegion range s) = ok (None, walk') ∧ walk_next walk' = None ∧ walk_collection_of walk' = c.
Proof.
  intros Hw Hnext Hg Hu Ht Htail. pose proof Hw as (Hcoll & _ & Hp & Hn). rewrite Hnext in Hn. destruct Hn as (Hlt & Hs & He).
  pose proof (get_range_zlen _ _ _ _ Ht) as Hz.
  assert (Hparse : GlobalHeapCollection.parse_object c (mkRegion range s) = ok None).
  { destruct Htail as [->|[[Hshort [r ->]]|(Hfull & count & r & s' & Heq & Hcount & Hr & Hf)]].
    - rewrite zlen_nil in Hz. lia.
    - assert (s = le_bytes 2 0 ++ r) as ->.
      { apply (header_prefix pos range s _ []); [done..|by rewrite app_nil_r|]. rewrite app_nil_r. lia. }
      rewrite zlen_app, zlen_le_bytes in Hz, Hshort. apply (parse_short c range 0 r); [lia|unfold fits; lia|lia].
    - pose proof (length_get_cases lw) as Hlw.
      assert (Hgl : 8 - LengthWidth.get lw ≤ zlen s').
      { rewrite Heq in Hfull. autorewrite with zlen in Hfull. unfold zlen in *. lia. }
      set (gap := take (Z.to_nat (8 - LengthWidth.get lw)) s').
      assert (Hgap : zlen gap = 8 - LengthWidth.get lw) by (apply zlen_take; lia).
      assert (s = head_bytes lw 0 count r (zlen t) gap) as ->.
      { pose proof (head_bytes_len lw 0 count r (zlen t) gap Hr ltac:(lia)) as Hhl.
        apply (header_prefix pos range s _ (drop (Z.to_nat (8 - LengthWidth.get lw)) s')); [done..| |].
        - rewrite Ht. f_equal. rewrite Heq at 1. unfold head_bytes. rewrite <- !app_assoc. unfold gap. by rewrite take_drop.
        - rewrite zlen_app, Hhl. pose proof (zlen_nonneg (drop (Z.to_nat (8 - LengthWidth.get lw)) s')). lia. }
      pose proof (parse_full file lw c Hc range pos 0 count r (zlen t) gap) as Hparse. cbv zeta in Hparse.
      replace (zlen t =? E - pos) with true in Hparse by lia. apply Hparse; [done|lia|lia|lia|unfold fits; lia|done..|lia]. }
  unfold GlobalHeapWalk.parse. rewrite Hnext, (subregion_self _ _ Hg Hu). cbn [try_]. rewrite Hcoll, Hparse, !and_then_ok.
  eexists. split; [done|]. by cbn.
Qed.

(** A record starts with its header, when the collection has room for it. *)
Lemma record_of_head i count reserved n gap r :
  1 ≤ i ≤ 65535 → fits 2 count → zlen reserved = 4 → fits (LengthWidth.get lw) n → LengthWidth.get lw + zlen gap = 8 →
  aligned n ≤ zlen r →
  ∃ rc rest, head_bytes lw i count reserved n gap ++ r = record_bytes lw rc ++ rest ∧ record_ok lw rc ∧
    rec_index rc = i ∧ rec_count rc = count ∧ zlen (rec_data rc) = n.
Proof.
  intros Hi Hcount Hres Hn Hgap Hr. pose proof (aligned_spec n ltac:(unfold fits in Hn; lia)) as [_ Ha].
  assert (Hn0 : 0 ≤ n) by (unfold fits in Hn; lia).
  set (data := take (Z.to_nat n) r). set (pad := take (Z.to_nat (aligned n - n)) (drop (Z.to_nat n) r)).
  assert (Hd : zlen data = n) by (apply zlen_take; lia).
  assert (Hp : zlen pad = aligned n - n) by (apply zlen_take; rewrite zlen_drop; lia).
  exists (mkRecord i count reserved gap data pad), (drop (Z.to_nat (aligned n - n)) (drop (Z.to_nat n) r)).
  split_and!; [|split; cbn; rewrite ?Hd; (done || lia)|done|done|done].
  unfold record_bytes, record_head, head_bytes. cbn. rewrite Hd, <- !app_assoc. do 5 f_equal.
  unfold data, pad. by rewrite !take_drop.
Qed.

(** What one step of a walk returns. *)
Definition stepped (pos : Z) (ids rest : list Z) (x : option GlobalHeapObject * GlobalHeapWalk) : Prop :=
  match x.1 with
  | None => tail_ok lw rest ∧ walk_next x.2 = None ∧ walk_collection_of x.2 = c
  | Some o => ∃ r rest', rest = record_bytes lw r ++ rest' ∧ record_ok lw r ∧ rec_index r ∉ ids ∧ describes lw pos r o ∧
      walk_at x.2 (pos + zlen (record_bytes lw r)) (rec_index r :: ids)
  end.

Lemma parse_none walk range s pos ids :
  walk_at walk pos ids → walk_next walk = Some range →
  get_range file (range_start range) (range_end range) = Some s → zlen s ≤ USIZE_MAX →
  GlobalHeapCollection.parse_object c (mkRegion range s) ⇝? (λ o, o = None) →
  GlobalHeapWalk.parse walk (mkRegion range s)
    ⇝? (λ x, x.1 = None ∧ walk_next x.2 = None ∧ walk_collection_of x.2 = c ∧
             GlobalHeapCollection.parse_object c (mkRegion range s) = ok None).
Proof.
  intros (Hcoll & _) Hnext Hg Hu ([o|e] & Hparse & Hq); unfold GlobalHeapWalk.parse;
    rewrite Hnext, (subregion_self _ _ Hg Hu); cbn [try_]; rewrite Hcoll, Hparse; [|apply sound_fail]. subst o.
  cbn [and_then]. rewrite and_then_ok. by apply sound_ok.
Qed.

Lemma step_short walk range s pos ids rest :
  walk_at walk pos ids → walk_next walk = Some range →
  get_range file (range_start range) (range_end range) = Some s → zlen s ≤ USIZE_MAX →
  get_range file pos E = Some rest → zlen rest < 16 →
  GlobalHeapWalk.parse walk (mkRegion range s) ⇝? stepped pos ids rest.
Proof.
  intros Hw Hnext Hg Hu Hrest Hl. pose proof Hw as (_ & _ & Hp & Hn). rewrite Hnext in Hn. destruct Hn as (Hlt & Hs & He).
  pose proof (get_range_zlen _ _ _ _ Hrest) as Hz. pose proof (get_range_Forall _ _ _ _ _ Hbytes Hrest) as Hb.
  assert (s = rest) as ->.
  { apply (header_prefix pos range s _ []); [done..|by rewrite app_nil_r|]. rewrite app_nil_r. lia. }
  destruct (Z.le_gt_cases 2 (zlen rest)) as [Hge|Hlt2].
  - destruct (split_word rest 2 Hb) as (i & r & -> & Hi & _); [lia|]. rewrite zlen_app, zlen_le_bytes in Hl, Hz.
    pose proof (parse_short c range i r ltac:(lia) Hi ltac:(lia)) as Hparse. cbv zeta in Hparse.
    eapply sound_mono; [apply (parse_none walk range _ pos ids Hw Hnext Hg Hu)|].
    + destruct (i =? 0); [rewrite Hparse; by apply sound_ok|]. destruct Hparse as [e ->]. apply sound_fail.
    + intros [o w'] (Ho & Hn' & Hc' & Hok). cbn [fst snd] in *. subst o. split; [|done]. right. left.
      destruct (i =? 0) eqn:Ei; [|destruct Hparse as [e He']; rewrite He' in Hok; discriminate].
      rewrite zlen_app, zlen_le_bytes. split; [lia|]. exists r. by replace i with 0 by lia.
  - eapply sound_mono; [apply (parse_none walk range _ pos ids Hw Hnext Hg Hu)|].
    + unfold GlobalHeapCollection.parse_object. cbn [region_range region_bytes]. cbv zeta.
      apply safe_u16; [by apply valid_new|]. intros v f' _ _ [[Hd Hf'] Hle]. rewrite Hd in Hle. cbn in Hle, Hf'. lia.
    + intros [o w'] (Ho & Hn' & Hc' & Hok). exfalso. revert Hok. unfold GlobalHeapCollection.parse_object.
      cbn [region_range region_bytes]. cbv zeta. intros ([v f'] & Hv & _)%and_then_ok_inv. 
      pose proof (safe_u16 (λ x, ok x) (λ x, 2 ≤ zlen rest) (Fields.new rest 0)) as Hsafe.
      rewrite Hv, and_then_ok in Hsafe. destruct Hsafe as (? & [= <-] & Hsafe); [by apply valid_new| |lia].
      intros v' f'' _ _ [[Hd Hf'] Hle]. apply sound_ok. rewrite Hd in Hle. cbn in Hle, Hf'. lia.
Qed.

Lemma step_full walk range s pos ids rest :
  walk_at walk pos ids → walk_next walk = Some range →
  get_range file (range_start range) (range_end range) = Some s → zlen s ≤ USIZE_MAX →
  get_range file pos E = Some rest → 16 ≤ zlen rest →
  GlobalHeapWalk.parse walk (mkRegion range s) ⇝? stepped pos ids rest.
Proof.
  intros Hw Hnext Hg Hu Hrest Hl. pose proof Hw as (_ & _ & Hp & Hn). rewrite Hnext in Hn. destruct Hn as (Hlt & Hs & He).
  pose proof (get_range_zlen _ _ _ _ Hrest) as Hz. pose proof (get_range_Forall _ _ _ _ _ Hbytes Hrest) as Hb.
  destruct (split_head lw rest Hb Hl) as (i & count & res & n & gap & r & Heq & Hi & Hcount & Hres & Hn & Hgap).
  pose proof (head_bytes_len lw i count res n gap Hres Hgap) as Hhl.
  assert (s = head_bytes lw i count res n gap) as ->.
  { apply (header_prefix pos range s _ r); [done..|by rewrite <- Heq|]. rewrite <- Heq. lia. }
  pose proof (parse_full file lw c Hc range pos i count res n gap Hs ltac:(lia) ltac:(lia) ltac:(lia) Hi Hcount Hres Hn Hgap) as Hparse.
  cbv zeta in Hparse. destruct (i =? 0) eqn:Ei.
  - eapply sound_mono; [apply (parse_none walk range _ pos ids Hw Hnext Hg Hu)|].
    + destruct (n =? _); [rewrite Hparse; by apply sound_ok|]. destruct Hparse as [e ->]. apply sound_fail.
    + intros [o w'] (Ho & Hn' & Hc' & Hok). cbn [fst snd] in *. subst o. split; [|done]. right. right. split; [done|].
      destruct (n =? _) eqn:En; [|destruct Hparse as [e He']; rewrite He' in Hok; discriminate].
      exists count, res, (gap ++ r). replace (zlen rest) with n by lia. split_and!; [|done..].
      rewrite Heq. unfold head_bytes. replace i with 0 by lia. by rewrite <- !app_assoc.
  - assert (Hzr : zlen rest = 16 + zlen r) by (rewrite Heq, zlen_app; lia).
    destruct (aligned n + 16 <=? _) eqn:Ea.
    + destruct Hparse as (o & Hparse & Hoi & Hoc & Ho1 & Ho2 & Ho3 & Ho4).
      pose proof (aligned_spec n ltac:(unfold fits in Hn; lia)) as [_ Ha]. unfold fits in Hi, Hn.
      destruct (record_of_head i count res n gap r) as (rc & rest' & Hrc & Hok & Hri & Hrcount & Hrd); [lia|done|done|done|done|lia|].
      pose proof (record_len _ _ Hok) as Hrl. rewrite Hrd in Hrl.
      pose proof (walk_after walk range _ pos ids o Hw Hnext Hg Hu Hparse ltac:(lia) ltac:(lia)) as Hafter.
      destruct (bool_decide _) eqn:Eb; [destruct Hafter as [e ->]; apply sound_fail|].
      destruct Hafter as (walk' & -> & Hw'). apply sound_ok. apply bool_decide_eq_false in Eb.
      exists rc, rest'. cbn [fst snd]. rewrite Hoi in Eb, Hw'.
      split_and!; [by rewrite Heq|done|by rewrite Hri| |].
      * unfold describes. rewrite Hrl, Hrd. split_and!; (done || lia).
      * rewrite Hrl, Hri. by replace (pos + _) with (range_end (object_range o)) by lia.
    + destruct Hparse as [e Hparse].
      eapply sound_mono; [apply (parse_none walk range _ pos ids Hw Hnext Hg Hu)|]; [rewrite Hparse; apply sound_fail|].
      intros x (_ & _ & _ & Hok). rewrite Hparse in Hok. discriminate.
Qed.

Lemma walk_step walk range s pos ids rest :
  walk_at walk pos ids → walk_next walk = Some range →
  get_range file (range_start range) (range_end range) = Some s → zlen s ≤ USIZE_MAX →
  get_range file pos E = Some rest →
  GlobalHeapWalk.parse walk (mkRegion range s) ⇝? stepped pos ids rest.
Proof.
  intros. destruct (Z.le_gt_cases 16 (zlen rest)); [by eapply step_full|by eapply step_short].
Qed.

Lemma get_range_advance pos s r :
  get_range file pos E = Some (s ++ r) → get_range file (pos + zlen s) E = Some r.
Proof.
  intros Hg. pose proof (get_range_zlen _ _ _ _ Hg) as Hz. rewrite zlen_app in Hz. pose proof (zlen_nonneg s). pose proof (zlen_nonneg r).
  rewrite <- (header_range_sub _ _ _ _ (pos + zlen s) E Hg) by lia.
  pose proof (get_range_app s r [] (pos + zlen s - pos) (E - pos)) as H'. rewrite app_nil_r in H'. apply H'; lia.
Qed.

End Walks.

Section Loops.
Context `{B : Build} (source : Source) (file : list Z) (lw : LengthWidth) (c : GlobalHeapCollection).
Hypothesis Hserves : serves source file.
Hypothesis Hc : collection_ok file lw c.
Hypothesis Hbytes : Forall byte file.

Notation E := (range_end (collection_range c)).

Lemma next_region w walk pos ids range :
  window_ok file (collection_range c) w → walk_at c walk pos ids → walk_next walk = Some range →
  ∃ s w', window_region w source range = ok (mkRegion range s, w') ∧ window_ok file (collection_range c) w' ∧
    get_range file (range_start range) (range_end range) = Some s ∧ zlen s ≤ USIZE_MAX.
Proof.
  intros Hw (_ & _ & Hp & Hn) Hnext. rewrite Hnext in Hn. destruct Hn as (Hlt & Hs & He). destruct Hc.
  apply window_region_ok; [done..|lia|lia|lia|lia|unfold FileRange.length; lia].
Qed.

(** A walk from [pos] visits the records of the bytes that are left. *)
Lemma walk_loop_complete rs : ∀ fuel w walk visited pos ids t,
  window_ok file (collection_range c) w → walk_at c walk pos ids →
  get_range file pos E = Some (records_bytes lw rs ++ t) → Forall (record_ok lw) rs → tail_ok lw t →
  NoDup ((rec_index <$> rs) ++ ids) → (length rs < fuel)%nat →
  ∃ os, walk_loop fuel source w walk visited = ok (visited ++ os) ∧ objects_at lw pos rs os.
Proof.
  induction rs as [|r rs IH]; intros fuel w walk visited pos ids t Hw Hat Hrest Hrs Ht Hnd Hfuel.
  - exists []. rewrite app_nil_r. split; [|done]. destruct fuel as [|fuel]; [lia|].
    cbn [walk_loop]. unfold GlobalHeapWalk.parse_range. destruct (walk_next walk) as [range|] eqn:En; [|done].
    destruct (next_region w walk pos ids range Hw Hat En) as (s & w' & -> & Hw' & Hg & Hu). rewrite and_then_ok. cbv beta iota.
    destruct (walk_tail file lw c Hc walk range s pos ids t Hat En Hg Hu Hrest Ht) as (walk' & -> & Hn' & _).
    rewrite and_then_ok. cbv beta iota. destruct fuel; cbn [walk_loop]; unfold GlobalHeapWalk.parse_range; by rewrite Hn'.
  - destruct fuel as [|fuel]; [cbn in Hfuel; lia|]. inversion Hrs as [|? ? Hr Hrs']; subst.
    rewrite records_bytes_cons, <- app_assoc in Hrest. cbn in Hnd. apply NoDup_cons in Hnd as [Hni Hnd].
    cbn [walk_loop]. unfold GlobalHeapWalk.parse_range. destruct (walk_next walk) as [range|] eqn:En.
    2:{ destruct Hat as (_ & _ & _ & Hn). rewrite En in Hn. subst pos. apply get_range_zlen in Hrest. rewrite zlen_app in Hrest.
        pose proof (record_len_bounds _ _ Hr) as (? & _). pose proof (zlen_nonneg (records_bytes lw rs ++ t)). lia. }
    destruct (next_region w walk pos ids range Hw Hat En) as (s & w' & -> & Hw' & Hg & Hu). rewrite and_then_ok. cbv beta iota.
    destruct (walk_record file lw c Hc walk range s pos ids r _ Hat En Hg Hu Hrest Hr) as (o & walk' & -> & Hd & Hat').
    { intros Hin. apply Hni, elem_of_app. by right. }
    rewrite and_then_ok. cbv beta iota.
    destruct (IH fuel w' walk' (visited ++ [o]) _ _ t Hw' Hat') as (os & Hos & Hobj); [by apply get_range_advance|done|done| |cbn in Hfuel; lia|].
    + apply (NoDup_Permutation_proper _ (rec_index r :: (rec_index <$> rs) ++ ids)); [by rewrite Permutation_middle|].
      by apply NoDup_cons.
    + exists (o :: os). rewrite Hos. split; [by rewrite <- app_assoc|]. by split.
Qed.

(** The turns suffice, and a walk that succeeds visited all the records. *)
Lemma walk_loop_sound fuel : ∀ w walk visited pos ids rest,
  window_ok file (collection_range c) w → walk_at c walk pos ids → get_range file pos E = Some rest →
  NoDup ids → Forall (λ i, 1 ≤ i ≤ 65535) ids → (N.to_nat 65537 ≤ fuel + length ids)%nat →
  walk_loop fuel source w walk visited ⇝? (λ v, ∃ rs t os,
    v = visited ++ os ∧ rest = records_bytes lw rs ++ t ∧ Forall (record_ok lw) rs ∧ tail_ok lw t ∧
    NoDup ((rec_index <$> rs) ++ ids) ∧ objects_at lw pos rs os).
Proof.
  induction fuel as [|fuel IH]; intros w walk visited pos ids rest Hw Hat Hrest Hnd Hids Hfuel.
  { exfalso. pose proof (indices_bound ids Hnd Hids). lia. }
  cbn [walk_loop]. unfold GlobalHeapWalk.parse_range. destruct (walk_next walk) as [range|] eqn:En.
  2:{ apply sound_ok. exists [], [], []. destruct Hat as (_ & _ & _ & Hn). rewrite En in Hn. subst pos.
      apply get_range_zlen in Hrest. destruct rest; [|rewrite zlen_cons in Hrest; pose proof (zlen_nonneg rest); lia].
      rewrite app_nil_r. split_and!; [done|done|constructor|by left|done|done]. }
  destruct (next_region w walk pos ids range Hw Hat En) as (s & w' & -> & Hw' & Hg & Hu). rewrite and_then_ok. cbv beta iota.
  eapply sound_bind; [by apply (walk_step file lw c Hc Hbytes walk range s pos ids rest Hat En Hg Hu Hrest)|].
  intros [[o|] walk']; cbn [fst snd].
  - intros (r & rest' & -> & Hr & Hni & Hd & Hat'). cbn [fst snd] in *.
    eapply sound_mono; [apply (IH w' walk' (visited ++ [o]) _ _ rest' Hw' Hat')|].
    + by apply get_range_advance.
    + by apply NoDup_cons.
    + constructor; [apply (rec_index_range _ _ Hr)|done].
    + cbn [length]. lia.
    + intros v (rs & t & os & -> & -> & Hrs & Ht & Hnd' & Hobj). exists (r :: rs), t, (o :: os). 
      split_and!; [by rewrite <- app_assoc|by rewrite records_bytes_cons, <- app_assoc|by constructor|done| |by split].
      cbn. by rewrite Permutation_middle.
  - intros (Ht & Hn' & _). cbn [fst snd] in *. destruct fuel; cbn [walk_loop]; unfold GlobalHeapWalk.parse_range; rewrite Hn'; apply sound_ok.
    all: exists [], rest, []; rewrite app_nil_r; by split_and!.
Qed.

End Loops.

(** ** The header of a collection *)

Section Headers.
Context `{B : Build} (source : Source) (file : list Z) (lw : LengthWidth).
Hypothesis Hserves : serves source file.
Hypothesis Hbytes : Forall byte file.
Hypothesis Hfile : zlen file ≤ U64_MAX.

(** The collection whose header is at the address. *)
Record collection_at (address size : Z) (c : GlobalHeapCollection) : Prop := {
  at_lengths : collection_lengths c = lw;
  at_start : range_start (collection_range c) = address;
  at_end : range_end (collection_range c) = address + size;
  at_first : range_start (collection_first c) = address + 16;
  at_first_end : range_end (collection_first c) = address + 32;
}.

Lemma locator_parse range address signature version reserved size gap :
  range_start range = address → range_end range = address + 16 → 0 ≤ address → address + 16 ≤ U64_MAX →
  zlen signature = 4 → zlen reserved = 3 → fits (LengthWidth.get lw) size → LengthWidth.get lw + zlen gap = 8 →
  let m := GlobalHeapCollectionLocator.parse (mkCollectionLocator address lw)
             (mkRegion range (signature ++ version :: reserved ++ lbytes lw size ++ gap)) in
  if decide (signature = GCOL_SIGNATURE ∧ version = GCOL_VERSION ∧ 4096 ≤ size ∧ size mod 8 = 0 ∧ address + size ≤ U64_MAX)
  then ∃ c, m = ok c ∧ collection_at address size c
  else ∃ e, m = fail e.
Proof.
  intros Hs He Ha Ha' Hsig Hres Hsize Hgap. cbv zeta. pose proof usize_bounds as Hub. pose proof (length_get_cases lw) as Hlw.
  set (s := signature ++ version :: reserved ++ lbytes lw size ++ gap).
  assert (Hl : zlen s = 16) by (unfold s; rewrite zlen_app, zlen_cons, !zlen_app, zlen_le_bytes; lia).
  set (k := (if negb (bool_decide (signature = GCOL_SIGNATURE)) then fail InvalidGlobalHeapSignature
    else if negb (version =? GCOL_VERSION) then fail (InvalidGlobalHeapVersion version)
    else if size <? MIN_COLLECTION_SIZE then fail (GlobalHeapCollectionTooSmall address size)
    else if negb (is_multiple_of size ALIGNMENT) then fail (UnalignedGlobalHeapCollection address size)
    else range ←? FileRange.new address size; try_ (Address.checked_add address 16) (λ start,
      first ←? FileRange.new start 16; ok (mkCollection range lw first))) : exec GlobalHeapCollection).
  assert (Hk : GlobalHeapCollectionLocator.parse (mkCollectionLocator address lw) (mkRegion range s) = k).
  { unfold GlobalHeapCollectionLocator.parse, GlobalHeapCollectionLocator.parse_range. cbn [locator_address locator_lengths]. cbv zeta.
    rewrite header_len_eq. destruct (range_new_ok address 16) as (r & -> & Hr1 & Hr2); [lia..|]. rewrite and_then_ok.
    destruct (subregion_spec (mkRegion range s) r) as [[_ (p & q & b & Hb & Hp & -> & Hbo)]|[Hf _]].
    { split; cbn; unfold FileRange.length; lia. }
    2:{ cbn in Hf. unfold FileRange.contains, AddressRange.contains in Hf. lia. }
    cbn [region_range region_bytes FileRange.start] in Hb, Hp. unfold FileRange.start in Hp.
    assert (p = []) as -> by (apply length_zero_iff_nil; unfold zlen in Hp; lia).
    destruct Hbo as [Hbl _]. cbn [region_range region_bytes] in Hbl. unfold FileRange.length in Hbl.
    assert (q = []) as ->.
    { apply length_zero_iff_nil. rewrite Hb, !zlen_app in Hl. unfold zlen in *. cbn in Hl. lia. }
    rewrite app_nil_l, app_nil_r in Hb. subst b. cbn [try_ region_bytes].
    eapply read_array; [apply cursor_new; unfold s in Hl; rewrite Hl; lia|done|]. intros f1 Hc1 _. cbv beta iota. unfold k.
    destruct (negb _); [done|]. eapply read_u8; [exact Hc1|]. intros f2 Hc2 _. cbv beta iota. destruct (negb _); [done|].
    eapply read_array; [exact Hc2|done|]. intros f3 Hc3 _. cbv beta iota.
    eapply read_length; [exact Hc3|done|]. intros f4 _ _. done. }
  rewrite Hk. unfold k. unfold fits in Hsize. clear k Hk.
  destruct (decide (signature = GCOL_SIGNATURE)) as [->|Hns].
  2:{ rewrite bool_decide_eq_false_2, decide_False by tauto. by eexists. }
  rewrite bool_decide_eq_true_2 by done. cbn [negb]. unfold MIN_COLLECTION_SIZE.
  destruct (version =? GCOL_VERSION) eqn:Ev; cbn [negb]; [|rewrite decide_False by lia; by eexists].
  destruct (size <? 4096) eqn:E1; [rewrite decide_False by lia; by eexists|].
  destruct (is_multiple_of size ALIGNMENT) eqn:E2; cbn [negb].
  2:{ rewrite decide_False; [by eexists|]. intros (_ & _ & _ & H8 & _).
      rewrite (proj2 (is_multiple_of_true size ALIGNMENT ltac:(done))) in E2; done. }
  apply is_multiple_of_true in E2; [|done].
  destruct (Z.le_gt_cases (address + size) U64_MAX) as [Hle|Hgt].
  - rewrite decide_True by (split_and!; (done || lia)).
    destruct (range_new_ok address size) as (r & -> & Hr1 & Hr2); [lia..|]. rewrite and_then_ok.
    unfold Address.checked_add. rewrite (proj2 (checked_add_Some address 16 (address + 16))) by (split; [done|lia]). cbn [ok_or try_].
    destruct (range_new_ok (address + 16) 16) as (r' & -> & Hr1' & Hr2'); [lia..|]. rewrite and_then_ok. eexists. split; [done|].
    split; cbn; (done || lia).
  - rewrite decide_False by lia. pose proof (range_new_sound address size Ha ltac:(lia)) as ([r|e] & -> & Hr); [lia|].
    by eexists.
Qed.

(** What [read_collection] returns, on every branch. *)
Lemma read_collection_cases address :
  0 ≤ address →
  match get_range file address (address + 16) with
  | None => ∃ e, read_collection source lw address = fail e
  | Some s => ∃ signature version reserved size gap,
    s = signature ++ version :: reserved ++ lbytes lw size ++ gap ∧ zlen signature = 4 ∧ zlen reserved = 3 ∧
    fits (LengthWidth.get lw) size ∧ LengthWidth.get lw + zlen gap = 8 ∧
    if decide (signature = GCOL_SIGNATURE ∧ version = GCOL_VERSION ∧ 4096 ≤ size ∧ size mod 8 = 0 ∧ address + size ≤ zlen file)
    then ∃ c, read_collection source lw address = ok c ∧ collection_at address size c
    else ∃ e, read_collection source lw address = fail e
  end.
Proof.
  intros Ha. pose proof usize_bounds as Hub. pose proof (length_get_cases lw) as Hlw.
  assert (Heq : read_collection source lw address =
    (range ←? FileRange.new address 16; header ←? read source range; try_ (FileRegion.new range header) (λ region,
     collection ←? GlobalHeapCollectionLocator.parse (mkCollectionLocator address lw) region;
     if zlen file <? range_end (collection_range collection)
     then fail (UnexpectedSourceEof (range_end (collection_range collection)) (zlen file)) else ok collection))).
  { unfold read_collection, GlobalHeapCollectionLocator.parse_range. cbv zeta. cbn [locator_address locator_lengths].
    by rewrite header_len_eq, (serves_len _ _ Hserves). }
  rewrite Heq. clear Heq. destruct (get_range file address (address + 16)) as [s|] eqn:Es.
  2:{ pose proof (range_new_sound address 16 Ha ltac:(lia)) as ([range|e] & -> & Hr); [|by eexists].
      destruct Hr as (Hr1 & Hr2 & _). cbn [and_then]. pose proof (read_range source file Hserves range) as Hread.
      rewrite Hr1, Hr2, Es in Hread. destruct Hread as [e ->]; [lia|unfold FileRange.length; lia|]. by eexists. }
  pose proof (get_range_Forall _ _ _ _ _ Hbytes Es) as Hb. pose proof (get_range_zlen _ _ _ _ Es) as Hz.
  pose proof Es as (_ & Hend & _)%get_range_Some.
  destruct (split_bytes s 4 Hb) as (signature & s1 & -> & Hsig & _ & Hb1); [lia|]. rewrite zlen_app in Hz.
  destruct s1 as [|version s1]; [rewrite zlen_nil in Hz; lia|]. rewrite zlen_cons in Hz. apply Forall_cons in Hb1 as [_ Hb1].
  destruct (split_bytes s1 3 Hb1) as (reserved & s2 & -> & Hres & _ & Hb2); [lia|]. rewrite zlen_app in Hz.
  destruct (split_word s2 (Z.to_nat (LengthWidth.get lw)) Hb2) as (size & gap & -> & Hsize & _); [lia|].
  rewrite zlen_app, zlen_le_bytes in Hz. rewrite Z2Nat.id in Hsize by lia.
  exists signature, version, reserved, size, gap. split_and!; [done|done|done|done|lia|].
  destruct (range_new_ok address 16) as (range & -> & Hr1 & Hr2); [lia..|]. rewrite and_then_ok.
  pose proof (read_range source file Hserves range) as Hread. rewrite Hr1, Hr2, Es in Hread.
  rewrite Hread by (try unfold FileRange.length; lia). rewrite and_then_ok.
  rewrite region_new_ok by (rewrite (get_range_zlen _ _ _ _ Es); unfold FileRange.length; lia). cbn [try_].
  pose proof (locator_parse range address signature version reserved size gap Hr1 Hr2 Ha ltac:(lia) Hsig Hres Hsize ltac:(lia)) as Hp.
  cbv zeta in Hp.
  destruct (decide (signature = GCOL_SIGNATURE ∧ version = GCOL_VERSION ∧ 4096 ≤ size ∧ size mod 8 = 0 ∧ address + size ≤ U64_MAX)) as [Hd|Hd].
  - destruct Hp as (c & -> & Hat). rewrite and_then_ok. rewrite (at_end _ _ _ Hat). destruct Hd as (H1 & H2 & H3 & H4 & H5).
    destruct (zlen file <? address + size) eqn:El; [rewrite decide_False by lia; by eexists|].
    rewrite decide_True by (split_and!; (done || lia)). by exists c.
  - destruct Hp as [e ->]. rewrite decide_False; [by eexists|]. intros (H1 & H2 & H3 & H4 & H5). apply Hd. split_and!; (done || lia).
Qed.

Lemma collection_at_ok address size c :
  0 ≤ address → collection_at address size c → address + size ≤ zlen file → collection_ok file lw c.
Proof. intros Ha [] Hs. split; [done|lia..]. Qed.

(** The walk starts before the first header. *)
Lemma walk_at_new address size c :
  0 ≤ address → collection_at address size c → 4096 ≤ size →
  walk_at c (GlobalHeapWalk.new c) (address + 16) [].
Proof.
  intros Ha [] Hs. split; [done|]. split; [apply seen_new|]. cbn [GlobalHeapWalk.new walk_next]. lia.
Qed.

Lemma window_ok_new c : window_ok file c (window_new c).
Proof. done. Qed.

(** Reading the header of a collection that the file holds. *)
Lemma read_collection_heap address rs t :
  heap_at file address lw rs t →
  ∃ c, read_collection source lw address = ok c ∧
    collection_at address (16 + zlen (records_bytes lw rs) + zlen t) c ∧ collection_ok file lw c ∧
    get_range file (address + 16) (range_end (collection_range c)) = Some (records_bytes lw rs ++ t).
Proof.
  intros [(pre & reserved & gap & post & size & Heq & Hpre & Hres & Hgap & -> & Hf & Hmin & Hmod) _ _].
  pose proof (length_get_cases lw) as Hlw. pose proof (zlen_nonneg pre). pose proof (zlen_nonneg post).
  set (size := 16 + zlen (records_bytes lw rs) + zlen t) in *.
  set (head := collection_head lw size reserved gap) in *.
  assert (Hhead : zlen head = 16).
  { unfold head, collection_head. rewrite !zlen_app, zlen_le_bytes. change (zlen GCOL_SIGNATURE) with 4.
    change (zlen [GCOL_VERSION]) with 1. lia. }
  assert (Hg : get_range file address (address + 16) = Some head).
  { rewrite Heq. apply get_range_app; lia. }
  assert (Hlen : address + size ≤ zlen file).
  { rewrite Heq, !zlen_app, Hhead. unfold size. lia. }
  pose proof (read_collection_cases address ltac:(lia)) as Hcases. rewrite Hg in Hcases.
  destruct Hcases as (signature & version & reserved' & size' & gap' & Hsplit & Hs1 & Hs2 & Hs3 & Hs4 & Hcases).
  unfold head, collection_head in Hsplit.
  apply app_inj_1 in Hsplit as [<- Hsplit]; [|unfold zlen in Hs1; by apply Nat2Z.inj; rewrite Hs1].
  injection Hsplit as <- Hsplit. apply app_inj_1 in Hsplit as [<- Hsplit]; [|unfold zlen in *; lia].
  apply app_inj_1 in Hsplit as [Hsize _]; [|by rewrite !length_le_bytes].
  assert (size = size') as <-.
  { rewrite <- (le_value_bytes (Z.to_nat (LengthWidth.get lw)) size), <- (le_value_bytes (Z.to_nat (LengthWidth.get lw)) size'), Hsize;
      [done|..]; rewrite Z2Nat.id by lia; done. }
  rewrite decide_True in Hcases by (split_and!; (done || lia)). destruct Hcases as (c & Hread & Hat).
  exists c. split; [done|]. split; [done|]. split; [by apply (collection_at_ok address size); [lia|done|done]|].
  rewrite (at_end _ _ _ Hat), Heq.
  replace (pre ++ head ++ records_bytes lw rs ++ t ++ post) with ((pre ++ head) ++ (records_bytes lw rs ++ t) ++ post) by (by rewrite <- !app_assoc).
  apply get_range_app; rewrite !zlen_app; [lia|]. unfold size. lia.
Qed.

(** ** Whole walks *)

Lemma walk_turns (rs : list HeapRecord) :
  Forall (record_ok lw) rs → NoDup (rec_index <$> rs) → (length rs < WALK_TURNS)%nat.
Proof.
  intros Hrs Hnd. assert (Hi : Forall (λ i, 1 ≤ i ≤ 65535) (rec_index <$> rs)).
  { apply Forall_fmap. eapply Forall_impl; [exact Hrs|]. intros r Hr. apply (rec_index_range _ _ Hr). }
  pose proof (indices_bound _ Hnd Hi) as Hl. rewrite length_fmap in Hl. unfold WALK_TURNS. lia.
Qed.

Lemma walk_collection_complete address rs t :
  heap_at file address lw rs t → NoDup (rec_index <$> rs) →
  ∃ os range, walk_collection source lw address = ok (os, range) ∧ objects_at lw (address + 16) rs os ∧
    range_start range = address ∧ range_end range = address + 16 + zlen (records_bytes lw rs) + zlen t.
Proof.
  intros Hh Hnd. pose proof Hh as [(pre & _ & _ & _ & size & _ & Hpre & _ & _ & -> & _ & Hmin & _) Hrs Ht].
  pose proof (zlen_nonneg pre). destruct (read_collection_heap address rs t Hh) as (c & Hread & Hat & Hok & Hg).
  destruct (walk_loop_complete source file lw c Hserves Hok rs WALK_TURNS (window_new (collection_range c))
    (GlobalHeapWalk.new c) [] (address + 16) [] t) as (os & Hloop & Hobj).
  - apply window_ok_new.
  - by eapply walk_at_new; [|exact Hat|]; lia.
  - done.
  - done.
  - done.
  - by rewrite app_nil_r.
  - by apply walk_turns.
  - exists os, (collection_range c). unfold walk_collection. rewrite Hread, and_then_ok, Hloop, and_then_ok.
    split_and!; [done|done|by apply (at_start _ _ _ Hat)|]. rewrite (at_end _ _ _ Hat). lia.
Qed.

(** The bytes of a file around two neighbouring ranges. *)
Lemma get_range_join a b d s r :
  get_range file a b = Some s → get_range file b d = Some r →
  ∃ pre post, file = pre ++ s ++ r ++ post ∧ zlen pre = a.
Proof.
  intros Hs Hr. destruct (get_range_split _ _ _ _ Hs) as (p & q & He & Hp & Hzs).
  destruct (get_range_split _ _ _ _ Hr) as (p' & q' & He' & Hp' & _). exists p, q'. split; [|done].
  assert (p' = p ++ s) as ->; [|by rewrite He', <- app_assoc].
  rewrite He in He'. rewrite app_assoc in He'. apply app_inj_1 in He' as [<- _]; [done|].
  rewrite length_app. unfold zlen in *. lia.
Qed.

Lemma walk_collection_sound address :
  0 ≤ address →
  walk_collection source lw address ⇝? (λ '(os, range), ∃ rs t,
    heap_at file address lw rs t ∧ NoDup (rec_index <$> rs) ∧ objects_at lw (address + 16) rs os ∧
    range_start range = address ∧ range_end range = address + 16 + zlen (records_bytes lw rs) + zlen t).
Proof.
  intros Ha. unfold walk_collection. pose proof (read_collection_cases address Ha) as Hcases.
  destruct (get_range file address (address + 16)) as [s|] eqn:Es; [|destruct Hcases as [e ->]; apply sound_fail].
  destruct Hcases as (signature & version & reserved & size & gap & -> & Hsig & Hres & Hsize & Hgap & Hcases).
  destruct (decide _) as [(-> & -> & Hmin & Hmod & Hend)|_]; [|destruct Hcases as [e ->]; apply sound_fail].
  destruct Hcases as (c & -> & Hat). rewrite and_then_ok. pose proof (collection_at_ok _ _ _ Ha Hat Hend) as Hok.
  destruct (get_range_within file (address + 16) (range_end (collection_range c))) as [rest Hrest];
    [rewrite (at_end _ _ _ Hat); lia..|].
  eapply sound_bind; [apply (walk_loop_sound source file lw c Hserves Hok Hbytes WALK_TURNS _ _ _ (address + 16) [] rest)|].
  - apply window_ok_new.
  - by eapply walk_at_new; [|exact Hat|].
  - done.
  - constructor.
  - constructor.
  - unfold WALK_TURNS. lia.
  - intros v (rs & t & os & -> & -> & Hrs & Ht & Hnd & Hobj). rewrite app_nil_r in Hnd. apply sound_ok.
    pose proof (get_range_zlen _ _ _ _ Hrest) as Hz. rewrite zlen_app, (at_end _ _ _ Hat) in Hz.
    destruct (get_range_join _ _ _ _ _ Es Hrest) as (pre & post & Heq & Hpre).
    exists rs, t. split_and!; [|done|done|by apply (at_start _ _ _ Hat)|rewrite (at_end _ _ _ Hat); lia].
    split; [|done|done]. exists pre, reserved, gap, post, size. split_and!; [|done..|lia|done|done|done].
    rewrite Heq. unfold collection_head. rewrite <- !app_assoc. cbn [app]. by rewrite <- !app_assoc.
Qed.

(** Collecting the members is the same walk. *)
Lemma collect_loop_eq fuel : ∀ w walk visited,
  match walk_loop fuel source w walk visited with
  | Ret (Ok os) => ∃ walk', collect_loop fuel source w (mkCollector walk visited) = ok (mkCollector walk' os) ∧
      walk_next walk' = None ∧ walk_collection_of walk' = walk_collection_of walk
  | Ret (Err e) => collect_loop fuel source w (mkCollector walk visited) = fail e
  | Panic => collect_loop fuel source w (mkCollector walk visited) = Panic
  end.
Proof.
  induction fuel as [|fuel IH]; intros w walk visited; cbn [walk_loop collect_loop];
    unfold GlobalHeapMemberCollector.parse_range; cbn [collector_walk]; unfold GlobalHeapWalk.parse_range;
    destruct (walk_next walk) as [range|] eqn:En; [done|by exists walk| |by exists walk].
  destruct (window_region w source range) as [[[region w']|e]|]; cbn [and_then]; [|done..].
  unfold GlobalHeapMemberCollector.parse. cbn [collector_walk collector_members].
  destruct (GlobalHeapWalk.parse walk region) as [[[o walk']|e]|] eqn:Ep; cbn [and_then]; [|done..].
  rewrite and_then_ok. specialize (IH w' walk' (match o with Some o => visited ++ [o] | None => visited end)).
  assert (Hsame : walk_collection_of walk' = walk_collection_of walk).
  { revert Ep. unfold GlobalHeapWalk.parse. rewrite En. destruct (FileRegion.subregion region range); [|done]. cbn [try_].
    intros (o' & _ & Ep)%and_then_ok_inv. apply and_then_ok_inv in Ep as (next & _ & Ep).
    destruct o' as [o'|]; [|by injection Ep as <- <-]. destruct (IndexSet.insert _ _) as [[ins seen]|]; [|done].
    cbn [mbind outcome_bind] in Ep. destruct (negb ins); [done|by injection Ep as <- <-]. }
  by rewrite Hsame in IH.
Qed.

Lemma collect_members_eq address :
  match walk_collection source lw address with
  | Ret (Ok (os, range)) => ∃ c, collect_members source lw address = ok (mkMembers c os) ∧ collection_range c = range ∧
      read_collection source lw address = ok c
  | Ret (Err e) => collect_members source lw address = fail e
  | Panic => collect_members source lw address = Panic
  end.
Proof.
  unfold walk_collection, collect_members. destruct (read_collection source lw address) as [[c|e]|]; cbn [and_then]; [|done..].
  pose proof (collect_loop_eq WALK_TURNS (window_new (collection_range c)) (GlobalHeapWalk.new c) []) as Hl.
  unfold GlobalHeapMemberCollector.new. destruct (walk_loop _ _ _ _ _) as [[os|e]|]; cbn [and_then]; [|by rewrite Hl..].
  destruct Hl as (walk' & -> & Hn & Hcoll). rewrite and_then_ok. cbn [and_then ok]. exists c.
  unfold GlobalHeapMemberCollector.finish, GlobalHeapWalk.parse_range. cbn [collector_walk collector_members].
  rewrite Hn, bool_decide_eq_false_2 by (by intros []). rewrite Hcoll. done.
Qed.

End Headers.

(** ** The encoder *)

(** The records the encoder writes: the indices from [i + 1], the count one. *)
Fixpoint encoded_records (lw : LengthWidth) (i : Z) (objects : list (list Z)) : list HeapRecord :=
  match objects with
  | [] => []
  | obj :: objects =>
    mkRecord (i + 1) 1 (replicate 4 0) (replicate (Z.to_nat (8 - LengthWidth.get lw)) 0) obj
      (replicate (Z.to_nat (aligned (zlen obj) - zlen obj)) 0) :: encoded_records lw (i + 1) objects
  end.

Definition objects_len (objects : list (list Z)) : Z := sum_of (λ obj, 16 + aligned (zlen obj)) objects.

(** The length of the collection: the two headers, the objects, at least the minimum. *)
Definition encoded_size (objects : list (list Z)) : Z := aligned (Z.max (16 + objects_len objects + 16) 4096).

Lemma aligned_collection_size_eq n :
  0 ≤ n → aligned_collection_size n = if aligned n <=? U64_MAX then Ok (aligned n) else
    Err (OffsetOverflow n ((ALIGNMENT - n mod ALIGNMENT) mod ALIGNMENT)).
Proof.
  intros Hn. unfold aligned_collection_size, add_collection_size, checked_add.
  assert (n + (ALIGNMENT - n mod ALIGNMENT) mod ALIGNMENT = aligned n) as ->; [|by destruct (_ <=? _)].
  unfold aligned, ALIGNMENT. pose proof (Z.mod_pos_bound n 8 ltac:(lia)). destruct (n mod 8 =? 0) eqn:E.
  - replace (8 - n mod 8) with 8 by lia. rewrite Z.mod_same; lia.
  - rewrite Z.mod_small; lia.
Qed.

Lemma objects_len_nonneg objects : 0 ≤ objects_len objects.
Proof.
  apply sum_of_nonneg. intros obj. pose proof (aligned_spec (zlen obj) (zlen_nonneg _)). pose proof (zlen_nonneg obj). lia.
Qed.

Lemma fold_sizes_eq objects : ∀ size,
  0 ≤ size ≤ U64_MAX →
  if size + objects_len objects <=? U64_MAX then fold_sizes 16 size objects = Ok (size + objects_len objects)
  else ∃ e, fold_sizes 16 size objects = Err e.
Proof.
  induction objects as [|obj objects IH]; intros size Hs.
  - cbn [objects_len sum_of foldr fold_sizes]. change (objects_len []) with 0. rewrite Z.add_0_r. by replace (size <=? _) with true by lia.
  - unfold objects_len. rewrite sum_of_cons. fold (objects_len objects). pose proof (objects_len_nonneg objects) as Hn.
    pose proof (aligned_spec (zlen obj) (zlen_nonneg _)) as [_ Ha]. pose proof (zlen_nonneg obj).
    cbn [fold_sizes]. unfold add_collection_size, checked_add. destruct (size + 16 <=? U64_MAX) eqn:E1; cbn [ok_or result_bind].
    2:{ replace (_ <=? U64_MAX) with false by lia. by eexists. }
    rewrite aligned_collection_size_eq by lia. destruct (aligned (zlen obj) <=? U64_MAX) eqn:E2; cbn [result_bind].
    2:{ replace (_ <=? U64_MAX) with false by lia. by eexists. }
    destruct (size + 16 + aligned (zlen obj) <=? U64_MAX) eqn:E3; cbn [ok_or result_bind].
    2:{ replace (_ <=? U64_MAX) with false by lia. by eexists. }
    specialize (IH (size + 16 + aligned (zlen obj)) ltac:(lia)).
    by replace (size + (16 + aligned (zlen obj) + objects_len objects)) with (size + 16 + aligned (zlen obj) + objects_len objects) by lia.
Qed.

Section Encoder.
Context `{B : Build} (lw : LengthWidth).

Lemma encoded_records_ok objects : ∀ i,
  0 ≤ i → i + zlen objects ≤ 65535 → Forall (λ obj, fits (LengthWidth.get lw) (zlen obj)) objects →
  Forall (record_ok lw) (encoded_records lw i objects).
Proof.
  pose proof (length_get_cases lw) as Hlw.
  induction objects as [|obj objects IH]; intros i Hi Hl Hf; cbn [encoded_records]; [constructor|].
  rewrite zlen_cons in Hl. pose proof (zlen_nonneg objects). inversion Hf; subst. constructor; [|apply IH; [lia|lia|done]].
  pose proof (aligned_spec (zlen obj) (zlen_nonneg _)) as [_ Ha].
  split; cbn [rec_index rec_count rec_reserved rec_gap rec_data rec_pad]; rewrite ?zlen_replicate; [lia|unfold fits; lia|done|lia|done|lia].
Qed.

Lemma encoded_records_len objects : ∀ i,
  0 ≤ i → i + zlen objects ≤ 65535 → Forall (λ obj, fits (LengthWidth.get lw) (zlen obj)) objects →
  zlen (records_bytes lw (encoded_records lw i objects)) = objects_len objects.
Proof.
  induction objects as [|obj objects IH]; intros i Hi Hl Hf; [done|].
  pose proof (encoded_records_ok (obj :: objects) i Hi Hl Hf) as Hok. cbn [encoded_records] in *.
  apply Forall_cons in Hok as [Hr _]. apply Forall_cons in Hf as [_ Hf]. rewrite zlen_cons in Hl. pose proof (zlen_nonneg objects).
  rewrite records_bytes_cons, zlen_app, (record_len _ _ Hr), IH by (done || lia). done.
Qed.

Lemma encoded_indices objects : ∀ i, rec_index <$> encoded_records lw i objects = seqZ (i + 1) (zlen objects).
Proof.
  induction objects as [|obj objects IH]; intros i; [done|].
  change (rec_index <$> encoded_records lw i (obj :: objects)) with ((i + 1) :: (rec_index <$> encoded_records lw (i + 1) objects)).
  rewrite IH, zlen_cons. pose proof (zlen_nonneg objects). rewrite (seqZ_cons (i + 1)) by lia.
  by replace (Z.pred (1 + zlen objects)) with (zlen objects) by lia.
Qed.

Lemma resize_pad (l : list Z) (n : Z) : zlen l ≤ n → vec_resize l (Z.to_nat n) 0 = l ++ replicate (Z.to_nat (n - zlen l)) 0.
Proof.
  intros Hl. unfold vec_resize. rewrite take_ge by (unfold zlen in Hl; lia). do 2 f_equal. unfold zlen in *. lia.
Qed.

Lemma write_objects_eq objects : ∀ buf i,
  0 ≤ i → i + zlen objects ≤ 65535 → zlen buf mod 8 = 0 →
  Forall (λ obj, fits (LengthWidth.get lw) (zlen obj)) objects →
  write_objects buf lw 16 i objects = Ret (buf ++ records_bytes lw (encoded_records lw i objects)).
Proof.
  pose proof (length_get_cases lw) as Hlw.
  induction objects as [|obj objects IH]; intros buf i Hi Hl Hmod Hf; cbn [write_objects encoded_records].
  { by rewrite app_nil_r. }
  rewrite zlen_cons in Hl. pose proof (zlen_nonneg objects). inversion Hf as [|? ? Hfo Hf']; subst.
  pose proof (aligned_spec (zlen obj) (zlen_nonneg _)) as [Hm Ha]. pose proof (zlen_nonneg obj). pose proof (zlen_nonneg buf).
  rewrite (Z.mod_small (i + 1)) by lia. rewrite write_length_eq by (done || by apply (length_fits_u64 lw)). cbn [mbind outcome_bind].
  set (r := mkRecord (i + 1) 1 (replicate 4 0) (replicate (Z.to_nat (8 - LengthWidth.get lw)) 0) obj
      (replicate (Z.to_nat (aligned (zlen obj) - zlen obj)) 0)).
  rewrite (resize_pad (_ ++ lbytes lw (zlen obj))) by (rewrite !zlen_app, !zlen_le_bytes, zlen_replicate; lia).
  set (buf1 := (_ ++ replicate (Z.to_nat (zlen buf + 16 - _)) 0) ++ obj).
  assert (Hbuf1 : buf1 = buf ++ record_head lw r ++ obj).
  { unfold buf1, record_head. cbn [rec_index rec_count rec_reserved rec_gap rec_data r]. rewrite <- !app_assoc. do 6 f_equal.
    f_equal. rewrite !zlen_app, !zlen_le_bytes, zlen_replicate. lia. }
  assert (Hh : zlen (record_head lw r) = 16).
  { unfold record_head. cbn [rec_index rec_count rec_reserved rec_gap rec_data r].
    rewrite !zlen_app, !zlen_le_bytes, !zlen_replicate. lia. }
  assert (Hb1 : zlen buf1 = zlen buf + 16 + zlen obj) by (rewrite Hbuf1, !zlen_app, Hh; lia).
  assert (Hal : aligned (zlen buf1) = zlen buf + 16 + aligned (zlen obj)).
  { rewrite Hb1. unfold aligned, ALIGNMENT. 
    assert ((zlen buf + 16 + zlen obj) mod 8 = zlen obj mod 8) as ->.
    { rewrite <- Zplus_mod_idemp_l, <- (Zplus_mod_idemp_l (zlen buf)), Hmod. done. }
    destruct (_ =? 0); lia. }
  rewrite resize_pad by lia. rewrite Hal, Hb1. rewrite IH; [|lia|lia| |done].
  - rewrite records_bytes_cons. unfold record_bytes. cbn [rec_data rec_pad r]. rewrite Hbuf1. rewrite <- !app_assoc. do 6 f_equal. lia.
  - rewrite zlen_app, zlen_replicate, Hb1.
    replace (_ + Z.of_nat _) with (zlen buf + (16 + aligned (zlen obj))) by lia.
    rewrite <- Zplus_mod_idemp_l, Hmod, Z.add_0_l, <- Zplus_mod_idemp_r, Hm. done.
Qed.

Lemma objects_fit objects size :
  fits (LengthWidth.get lw) size → objects_len objects ≤ size →
  Forall (λ obj, fits (LengthWidth.get lw) (zlen obj)) objects.
Proof.
  unfold fits. intros Hf. induction objects as [|obj objects IH]; intros Hl; [constructor|].
  unfold objects_len in Hl. rewrite sum_of_cons in Hl. fold (objects_len objects) in Hl.
  pose proof (objects_len_nonneg objects). pose proof (aligned_spec (zlen obj) (zlen_nonneg _)) as [_ Ha].
  pose proof (zlen_nonneg obj). constructor; [lia|apply IH; lia].
Qed.

Lemma encoded_size_bounds objects :
  encoded_size objects mod 8 = 0 ∧ 4096 ≤ encoded_size objects ∧ 32 + objects_len objects ≤ encoded_size objects.
Proof.
  pose proof (objects_len_nonneg objects). unfold encoded_size.
  pose proof (aligned_spec (Z.max (16 + objects_len objects + 16) 4096) ltac:(lia)) as [Hm Ha]. split_and!; [done|lia|lia].
Qed.

(** The bytes of an encoded collection. *)
Definition encoded_tail (objects : list (list Z)) : list Z :=
  let n := encoded_size objects - 16 - objects_len objects in
  le_bytes 2 0 ++ le_bytes 2 0 ++ replicate 4 0 ++ lbytes lw n ++ replicate (Z.to_nat (n - 8 - LengthWidth.get lw)) 0.

Definition encoded_bytes (objects : list (list Z)) : list Z :=
  collection_head lw (encoded_size objects) (replicate 3 0) (replicate (Z.to_nat (8 - LengthWidth.get lw)) 0) ++
  records_bytes lw (encoded_records lw 0 objects) ++ encoded_tail objects.

Lemma encoded_tail_ok objects :
  fits (LengthWidth.get lw) (encoded_size objects) →
  tail_ok lw (encoded_tail objects) ∧ zlen (encoded_tail objects) = encoded_size objects - 16 - objects_len objects.
Proof.
  intros Hf. pose proof (length_get_cases lw) as Hlw. pose proof (encoded_size_bounds objects) as (_ & _ & Hb).
  pose proof (objects_len_nonneg objects). unfold fits in Hf.
  assert (Hz : zlen (encoded_tail objects) = encoded_size objects - 16 - objects_len objects).
  { unfold encoded_tail. cbv zeta. rewrite !zlen_app, !zlen_le_bytes, !zlen_replicate. lia. }
  split; [|done]. right. right. rewrite Hz. split; [lia|]. unfold encoded_tail. cbv zeta.
  eexists 0, (replicate 4 0), _. split_and!; [done|unfold fits; lia|done|unfold fits; lia].
Qed.

(** The encoder, on every branch. *)
Definition encode_result (objects : list (list Z)) (r : result (list Z) GlobalHeapCollectionError) : Prop :=
  if 65535 <? zlen objects then r = Err (TooManyObjects (zlen objects))
  else if U64_MAX <? encoded_size objects then ∃ e, r = Err (HeapFormat e)
  else if negb (length_width_holds lw (encoded_size objects)) then r = Err (HeapTooLarge (encoded_size objects) lw)
  else if USIZE_MAX <? encoded_size objects
    then r = Err (HeapFormat (ValueTooLargeForPlatform (encoded_size objects) "usize"))
  else r = Ok (encoded_bytes objects).

(** The bytes, once the sizes fit. *)
Lemma encode_body objects :
  zlen objects ≤ 65535 → fits (LengthWidth.get lw) (encoded_size objects) →
  (buf ← write_length (GCOL_SIGNATURE ++ [GCOL_VERSION] ++ replicate 3 0) (encoded_size objects) lw;
   let buf := vec_resize buf (Z.to_nat 16) 0 in
   buf ← write_objects buf lw 16 0 objects;
   free_total_size ← expect (checked_sub (encoded_size objects) (zlen buf));
   let buf := (buf ++ le_bytes 2 0)%list in
   let buf := (buf ++ le_bytes 2 0)%list in
   let buf := (buf ++ replicate 4 0)%list in
   buf ← write_length buf free_total_size lw;
   Ret (Ok (E := GlobalHeapCollectionError) (vec_resize buf (Z.to_nat (encoded_size objects)) 0))) = Ret (Ok (encoded_bytes objects)).
Proof.
  intros Hmax Hf. pose proof (length_get_cases lw) as Hlw. pose proof (objects_len_nonneg objects) as Hn.
  pose proof (encoded_size_bounds objects) as (Hm & Hmin & Hb).
  pose proof (objects_fit objects _ Hf ltac:(lia)) as Hfo. pose proof (encoded_tail_ok objects Hf) as [_ Htl].
  rewrite write_length_eq by (done || by apply (length_fits_u64 lw)). cbn [mbind outcome_bind]. cbv zeta.
  set (head := collection_head lw (encoded_size objects) (replicate 3 0) (replicate (Z.to_nat (8 - LengthWidth.get lw)) 0)).
  assert (Hhead : vec_resize ((GCOL_SIGNATURE ++ [GCOL_VERSION] ++ replicate 3 0) ++ lbytes lw (encoded_size objects)) (Z.to_nat 16) 0 = head).
  { rewrite resize_pad; rewrite ?zlen_app, ?zlen_le_bytes, ?zlen_replicate; change (zlen GCOL_SIGNATURE) with 4;
      change (zlen [GCOL_VERSION]) with 1; [|lia].
    unfold head, collection_head. rewrite <- !app_assoc. do 5 f_equal. lia. }
  rewrite Hhead. assert (Hhl : zlen head = 16).
  { unfold head, collection_head. rewrite !zlen_app, zlen_le_bytes, !zlen_replicate. change (zlen GCOL_SIGNATURE) with 4.
    change (zlen [GCOL_VERSION]) with 1. lia. }
  rewrite write_objects_eq by (rewrite ?Hhl; (done || lia)). cbn [mbind outcome_bind].
  assert (Hrl : zlen (head ++ records_bytes lw (encoded_records lw 0 objects)) = 16 + objects_len objects).
  { rewrite zlen_app, Hhl, encoded_records_len by (done || lia). done. }
  rewrite Hrl. unfold checked_sub. replace (_ <=? encoded_size objects) with true by lia. cbn [expect mbind outcome_bind].
  assert (Hff : fits (LengthWidth.get lw) (encoded_size objects - (16 + objects_len objects))) by (unfold fits in *; lia).
  rewrite write_length_eq by (done || by apply (length_fits_u64 lw)). cbn [mbind outcome_bind]. do 2 f_equal.
  rewrite zlen_app in Hrl. rewrite resize_pad by (rewrite !zlen_app, !zlen_le_bytes, zlen_replicate; lia).
  unfold encoded_bytes, encoded_tail. fold head. cbv zeta. rewrite <- !app_assoc.
  replace (encoded_size objects - (16 + objects_len objects)) with (encoded_size objects - 16 - objects_len objects) by lia.
  do 7 f_equal. f_equal. rewrite !zlen_app, !zlen_le_bytes, zlen_replicate. lia.
Qed.

Lemma encode_spec objects : encode_global_heap_collection lw objects ⇝ encode_result objects.
Proof.
  unfold encode_global_heap_collection, encode_result, GLOBAL_HEAP_MAX_OBJECTS.
  destruct (65535 <? zlen objects) eqn:Emax; [by apply returns_ret|]. pose proof (length_get_cases lw) as Hlw. pose proof usize_bounds as Hub.
  pose proof (objects_len_nonneg objects) as Hn. pose proof (encoded_size_bounds objects) as (Hm & Hmin & Hb).
  assert (aligned_collection_size (FIXED_HEADER_LEN + LengthWidth.get lw) = Ok 16) as -> by (by destruct lw). cbn [lift try_].
  pose proof (aligned_spec (Z.max (16 + objects_len objects + 16) 4096) ltac:(lia)) as [_ Ha].
  fold (encoded_size objects) in Ha.
  pose proof (fold_sizes_eq objects 16 ltac:(unfold U64_MAX; lia)) as Hfold.
  destruct (16 + objects_len objects <=? U64_MAX) eqn:E1.
  2:{ destruct Hfold as [e ->]. cbn [lift try_]. replace (U64_MAX <? _) with true by lia. apply returns_ret. by eexists. }
  rewrite Hfold. cbn [lift try_]. unfold add_collection_size, checked_add.
  destruct (16 + objects_len objects + 16 <=? U64_MAX) eqn:E2; cbn [ok_or lift try_].
  2:{ replace (U64_MAX <? _) with true by lia. apply returns_ret. by eexists. }
  change (Z.max _ MIN_COLLECTION_SIZE) with (Z.max (16 + objects_len objects + 16) 4096).
  rewrite aligned_collection_size_eq by lia. fold (encoded_size objects).
  destruct (encoded_size objects <=? U64_MAX) eqn:E3; cbn [lift try_].
  2:{ replace (U64_MAX <? _) with true by lia. apply returns_ret. by eexists. }
  replace (U64_MAX <? _) with false by lia.
  destruct (length_width_holds lw (encoded_size objects)) eqn:E4; cbn [negb]; [|by apply returns_ret].
  apply length_holds in E4; [|split; [lia|by apply Z.leb_le in E3]]. unfold to_usize.
  destruct (encoded_size objects <=? USIZE_MAX) eqn:E5; cbn [lift try_].
  2:{ replace (USIZE_MAX <? _) with true by lia. by apply returns_ret. }
  replace (USIZE_MAX <? _) with false by lia. replace (16 <=? USIZE_MAX) with true by lia. cbn [lift try_].
  exists (Ok (encoded_bytes objects)). split; [|done]. rewrite <- (encode_body objects) by (done || lia). done.
Qed.

(** What the encoder writes is a collection, wherever it is placed. *)
Lemma encoded_heap objects pre post :
  zlen objects ≤ 65535 → fits (LengthWidth.get lw) (encoded_size objects) →
  heap_at (pre ++ encoded_bytes objects ++ post) (zlen pre) lw (encoded_records lw 0 objects) (encoded_tail objects).
Proof.
  intros Hmax Hf. pose proof (length_get_cases lw) as Hlw. pose proof (encoded_size_bounds objects) as (Hm & Hmin & Hb).
  pose proof (objects_fit objects _ Hf ltac:(lia)) as Hfo. pose proof (encoded_tail_ok objects Hf) as [Ht Htl].
  split; [|apply encoded_records_ok; (done || lia)|done].
  exists pre, (replicate 3 0), (replicate (Z.to_nat (8 - LengthWidth.get lw)) 0), post, (encoded_size objects).
  rewrite encoded_records_len, Htl by (done || lia). unfold encoded_bytes. rewrite <- !app_assoc, !zlen_replicate.
  split_and!; (done || lia).
Qed.

End Encoder.
