(* ===== verification/SymbolTables.v ===== *)
(** * Groups with symbol tables

    Models the structures of a group that stores its links in a symbol table, and their
    traversal: [local_heap.rs], [symbol_table.rs] and [btree/v1.rs] of
    [crates/hdf5-pure-format], [src/btree/v1/mod.rs] and [visit.rs] (the depth-first walk of
    the B-tree) and the resident half of [src/group/v1/mod.rs] (the links of a group).  A
    name is its bytes.  The closures the code passes down are function arguments: [read] of
    the walk, [read_range] of the reader of a file, [visit] with the state it updates. *)

From stdpp Require Import strings gmap.
From S2P Require Import Prelude Addresses Words ByteFields ByteFieldFacts FileRegions Utf8 LinkMessages.
From S2P Require Import SuperblockSearch ObjectHeaders.

Local Open Scope Z_scope.

(** ** The local heap *)

Record LocalHeapLocator : Type := mkHeapLocator {
  heap_widths : FormatWidths;
  heap_base : Z;
  heap_address : Z;
}.

(** A [LocalHeap] is the range of its data segment. *)
Record LocalHeap : Type := mkLocalHeap { data_segment_range : FileRange }.

(** A [LocalHeapDataSegment] is its bytes. *)
Definition LocalHeapDataSegment : Type := list Z.

Module LocalHeapLocator.
Section Locator.
Context `{B : Build}.

Definition SIGNATURE : list Z := [72; 69; 65; 80].
Definition VERSION : Z := 0.
Definition RESERVED_LEN : Z := 3.
Definition PREFIX_LEN : Z := zlen SIGNATURE + 1 + RESERVED_LEN.

Definition header_len (ws : FormatWidths) : Z :=
  PREFIX_LEN + 2 * LengthWidth.get (lengths ws) + OffsetWidth.get (offsets ws).

Definition parse_range (self : LocalHeapLocator) : exec FileRange :=
  try_ (BaseAddress.resolve (heap_base self) (heap_address self)) (λ start,
  FileRange.new start (header_len (heap_widths self))).

Definition parse (self : LocalHeapLocator) (region : FileRegion) : exec LocalHeap :=
  let widths := heap_widths self in
  range ←? parse_range self;
  try_ (FileRegion.subregion region range) (λ region,
  let fields := Fields.new (region_bytes region) 0 in
  '(signature, fields) ←? Fields.array (zlen SIGNATURE) fields;
  if negb (bool_decide (signature = SIGNATURE)) then fail InvalidLocalHeapSignature
  else
    '(version, fields) ←? Fields.u8 fields;
    if negb (version =? VERSION) then fail (InvalidLocalHeapVersion version)
    else
      '(_, fields) ←? Fields.array RESERVED_LEN fields;
      '(data_segment_size, fields) ←? Fields.length (lengths widths) fields;
      '(_, fields) ←? Fields.length (lengths widths) fields;
      '(data_segment_address, fields) ←? Fields.decoded_address (offsets widths) fields;
      match data_segment_address with
      | Undefined => fail UndefinedLocalHeapDataSegment
      | Defined data_segment_address =>
        try_ (BaseAddress.resolve (heap_base self) data_segment_address) (λ start,
        range ←? FileRange.new start data_segment_size;
        ok (mkLocalHeap range))
      end).

End Locator.
End LocalHeapLocator.

Module LocalHeap.
Section Heaps.
Context `{B : Build}.

Definition data_segment (self : LocalHeap) (region : FileRegion)
    : result LocalHeapDataSegment FormatError :=
  result_bind (FileRegion.subregion region (data_segment_range self)) (λ region,
  Ok (region_bytes region)).

(** The bytes before the first NUL. *)
Fixpoint until_nul (l : list Z) : option (list Z) :=
  match l with
  | [] => None
  | b :: l => if b =? 0 then Some [] else cons b <$> until_nul l
  end.

(** [LocalHeapDataSegment::name] *)
Definition name (self : LocalHeapDataSegment) (offset : Z) : result (list Z) FormatError :=
  let rest :=
    start ← (if offset <=? USIZE_MAX then Some offset else None);
    rest ← get_from self start;
    if Nat.eqb (length rest) 0 then None else Some rest in
  result_bind (ok_or rest (InvalidLocalHeapNameOffset offset (zlen self))) (λ rest,
  result_bind (ok_or (until_nul rest) (UnterminatedLocalHeapName offset)) (λ name,
  match from_utf8 name with
  | Ok name => Ok name
  | Err source => Err (InvalidLocalHeapName offset source)
  end)).

End Heaps.
End LocalHeap.

(** ** The symbol table *)

Record SymbolTableMessage : Type := mkSymbolTable {
  btree_address : Z;
  local_heap_address : Z;
}.

Record SymbolTableNodeLocator : Type := mkNodeLocator {
  node_widths : FormatWidths;
  node_base : Z;
  node_address : Z;
  node_k : option Z;
}.

Record SymbolTableEntriesRef : Type := mkEntriesRef {
  entries_range : FileRange;
  entries_widths : FormatWidths;
  symbols : Z;
}.

Record SymbolTableEntry : Type := mkEntry {
  link_name_offset : Z;
  object_header_address : Z;
  cache_type : Z;
  scratch_pad : list Z;
}.

Definition NODE_SIGNATURE : list Z := [83; 78; 79; 68].
Definition NODE_VERSION : Z := 1.
Definition NODE_PREFIX_LEN : Z := 8.
Definition ENTRY_RESERVED_LEN : Z := 4.
Definition SCRATCH_PAD_LEN : Z := 16.
Definition ENTRY_FIXED_LEN : Z := 4 + ENTRY_RESERVED_LEN + SCRATCH_PAD_LEN.

Definition entry_len (ws : FormatWidths) : Z :=
  LengthWidth.get (lengths ws) + OffsetWidth.get (offsets ws) + ENTRY_FIXED_LEN.

Module SymbolTable.
Section Tables.
Context `{B : Build}.

Definition parse_with_offset_width (data : list Z) (w : OffsetWidth) : exec SymbolTableMessage :=
  let os := OffsetWidth.get w in
  if zlen data <? os * 2 then fail (UnexpectedEof (os * 2) (zlen data))
  else
    btree_address ←? read_offset_width data 0 w;
    local_heap_address ←? read_offset_width data os w;
    ok (mkSymbolTable btree_address local_heap_address).

Definition parse (data : list Z) (offset_size : Z) : exec SymbolTableMessage :=
  try_ (OffsetWidth.try_from offset_size) (λ w, parse_with_offset_width data w).

(** [SymbolTableNodeLocator::parse_range] *)
Definition node_parse_range (self : SymbolTableNodeLocator) : exec FileRange :=
  try_ (BaseAddress.resolve (node_base self) (node_address self)) (λ start,
  FileRange.new start NODE_PREFIX_LEN).

(** [SymbolTableNodeLocator::parse] *)
Definition node_parse (self : SymbolTableNodeLocator) (region : FileRegion) : exec SymbolTableEntriesRef :=
  range ←? node_parse_range self;
  try_ (FileRegion.subregion region range) (λ region,
  let fields := Fields.new (region_bytes region) 0 in
  '(signature, fields) ←? Fields.array (zlen NODE_SIGNATURE) fields;
  if negb (bool_decide (signature = NODE_SIGNATURE)) then fail InvalidSymbolTableNodeSignature
  else
    '(version, fields) ←? Fields.u8 fields;
    if negb (version =? NODE_VERSION) then fail (InvalidSymbolTableNodeVersion version)
    else
      '(_, fields) ←? Fields.u8 fields;
      '(symbols, fields) ←? Fields.u16 fields;
      let found :=
        range ←? FileRange.new (FileRange.end_ range) (symbols * entry_len (node_widths self));
        ok (mkEntriesRef range (node_widths self) symbols) in
      match node_k self with
      | Some k =>
        if 2 * k <? symbols then fail (InvalidSymbolTableNodeSymbolCount symbols (2 * k)) else found
      | None => found
      end).

Fixpoint parse_entries (ws : FormatWidths) (n : nat) (fields : Fields)
    : exec (list SymbolTableEntry * Fields) :=
  match n with
  | O => ok ([], fields)
  | S n =>
    '(link_name_offset, fields) ←? Fields.length (lengths ws) fields;
    '(object_header_address, fields) ←? Fields.address (offsets ws) fields;
    '(cache_type, fields) ←? Fields.u32 fields;
    '(_, fields) ←? Fields.array ENTRY_RESERVED_LEN fields;
    '(scratch_pad, fields) ←? Fields.array SCRATCH_PAD_LEN fields;
    '(entries, fields) ←? parse_entries ws n fields;
    ok (mkEntry link_name_offset object_header_address cache_type scratch_pad :: entries, fields)
  end.

(** [SymbolTableEntriesRef::parse]; a [SymbolTableNode] is the list of its entries. *)
Definition entries_parse (self : SymbolTableEntriesRef) (region : FileRegion) : exec (list SymbolTableEntry) :=
  try_ (FileRegion.subregion region (entries_range self)) (λ region,
  let fields := Fields.new (region_bytes region) 0 in
  '(entries, _) ←? parse_entries (entries_widths self) (Z.to_nat (symbols self)) fields;
  ok entries).

End Tables.
End SymbolTable.

(** ** Nodes of a version 1 B-tree *)

Definition BTREE_V1_NODE_PREFIX_LEN : Z := 8.
Definition BTREE_V1_SIGNATURE : list Z := [84; 82; 69; 69].
Definition BTREE_V1_CHUNK_NODE_TYPE : Z := 1.

Definition btree_v1_node_header_size (offset_size : Z) : Z := BTREE_V1_NODE_PREFIX_LEN + offset_size * 2.

Record BTreeV1Node : Type := mkBTreeV1Node {
  node_type : Z;
  node_level : Z;
  entries_used : Z;
  left_sibling : option Z;
  right_sibling : option Z;
  keys : list Z;
  children : list Z;
}.

Module BTreeV1Node.
Section Nodes.
Context `{B : Build}.

(** The alternating keys and children, and the position behind them. *)
Fixpoint read_entries (ws : FormatWidths) (file_data : list Z) (n : nat) (pos : Z)
    : exec (list Z * list Z * Z) :=
  match n with
  | O => ok ([], [], pos)
  | S n =>
    key ←? read_length_width file_data pos (lengths ws);
    let pos := pos + LengthWidth.get (lengths ws) in
    child ←? read_offset_width file_data pos (offsets ws);
    let pos := pos + OffsetWidth.get (offsets ws) in
    '(keys, children, pos) ←? read_entries ws file_data n pos;
    ok (key :: keys, child :: children, pos)
  end.

Definition parse_with_widths (file_data : list Z) (offset : Z) (ws : FormatWidths) : exec BTreeV1Node :=
  let os := OffsetWidth.get (offsets ws) in
  let ls := LengthWidth.get (lengths ws) in
  let header_size := btree_v1_node_header_size os in
  if (zlen file_data <? header_size) || (zlen file_data - header_size <? offset)
  then fail (UnexpectedEof (usize_saturating_add offset header_size) (zlen file_data))
  else
    signature ← slice file_data offset (offset + 4);
    if negb (bool_decide (signature = BTREE_V1_SIGNATURE)) then fail InvalidBTreeSignature
    else
      node_type ← index file_data (offset + 4);
      node_level ← index file_data (offset + 5);
      entries_used ← u16_at file_data (offset + 6);
      let pos := offset + BTREE_V1_NODE_PREFIX_LEN in
      left_sibling ←? read_optional_offset_width file_data pos (offsets ws);
      let pos := pos + os in
      right_sibling ←? read_optional_offset_width file_data pos (offsets ws);
      let pos := pos + os in
      needed ← usize_op (entries_used * (ls + os) + ls);
      if (zlen file_data <? needed) || (zlen file_data - needed <? pos)
      then fail (UnexpectedEof (usize_saturating_add pos needed) (zlen file_data))
      else
        '(keys, children, pos) ←? read_entries ws file_data (Z.to_nat entries_used) pos;
        key ←? read_length_width file_data pos (lengths ws);
        ok (mkBTreeV1Node node_type node_level entries_used left_sibling right_sibling
              (keys ++ [key]) children).

Definition parse (file_data : list Z) (offset offset_size length_size : Z) : exec BTreeV1Node :=
  try_ (FormatWidths.from_sizes offset_size length_size) (λ ws, parse_with_widths file_data offset ws).

Definition parse_from_source_with_widths (source : MetadataSource) (address : Z) (ws : FormatWidths)
    : exec BTreeV1Node :=
  let header_size := btree_v1_node_header_size (OffsetWidth.get (offsets ws)) in
  header ←? read_metadata source address header_size;
  signature ← slice header 0 4;
  if negb (bool_decide (signature = BTREE_V1_SIGNATURE)) then fail InvalidBTreeSignature
  else
    entries_used ← u16_at header 6;
    let os := OffsetWidth.get (offsets ws) in
    let ls := LengthWidth.get (lengths ws) in
    total ← usize_op (header_size + entries_used * (ls + os) + ls);
    buf ←? read_metadata source address total;
    parse_with_widths buf 0 ws.

Definition parse_from_source (source : MetadataSource) (address offset_size length_size : Z)
    : exec BTreeV1Node :=
  try_ (FormatWidths.from_sizes offset_size length_size) (λ ws,
  parse_from_source_with_widths source address ws).

End Nodes.
End BTreeV1Node.

Record ChunkNodeLayout : Type := mkNodeLayout {
  layout_level : Z;
  layout_entries_used : Z;
  key_size : Z;
  offset_width : OffsetWidth;
  node_len : Z;
}.

(** The key of a chunk; its offsets are the groups of eight bytes. *)
Record BTreeV1ChunkKey : Type := mkChunkKey {
  chunk_size : Z;
  filter_mask : Z;
  chunk_offsets : list Z;
}.

Record BTreeV1ChunkNode : Type := mkChunkNode {
  chunk_layout : ChunkNodeLayout;
  chunk_entries : list Z;
}.

(** The bytes read from a source, and where the entries lie in them. *)
Record BTreeV1ChunkNodeBytes : Type := mkChunkNodeBytes {
  bytes_layout : ChunkNodeLayout;
  bytes_entries : Z * Z;
  bytes_body : list Z;
}.

Module ChunkNodeLayout.
Section Layouts.
Context `{B : Build}.

Definition chunk_key_size (ndims : Z) : result Z FormatError :=
  ok_or (offsets ← usize_checked_mul ndims 8; usize_checked_add offsets (4 + 4)) (OffsetOverflow ndims 8).

Definition btree_v1_chunk_node_len (key_size : Z) (w : OffsetWidth) (entries_used : Z) : exec Z :=
  entry_len ← usize_op (key_size + OffsetWidth.get w);
  try_ (ok_or
          (entries ← usize_checked_mul entries_used entry_len;
           body ← usize_checked_add entries key_size;
           usize_checked_add body (btree_v1_node_header_size (OffsetWidth.get w)))
          (OffsetOverflow entries_used entry_len)) (λ len, ok len).

(** The prefix is an array of 8 bytes. *)
Definition parse (prefix : list Z) (w : OffsetWidth) (ndims : Z) : exec ChunkNodeLayout :=
  match prefix with
  | [s0; s1; s2; s3; node_type; node_level; used0; used1] =>
    if negb (bool_decide ([s0; s1; s2; s3] = BTREE_V1_SIGNATURE)) then fail InvalidBTreeSignature
    else if negb (node_type =? BTREE_V1_CHUNK_NODE_TYPE) then fail (InvalidBTreeNodeType node_type)
    else
      let entries_used := le_value [used0; used1] in
      try_ (chunk_key_size ndims) (λ key_size,
      node_len ←? btree_v1_chunk_node_len key_size w entries_used;
      ok (mkNodeLayout node_level entries_used key_size w node_len))
  | _ => Panic
  end.

Definition body_len (self : ChunkNodeLayout) : outcome Z :=
  usize_op (node_len self - BTREE_V1_NODE_PREFIX_LEN).

Definition entries (self : ChunkNodeLayout) : outcome (Z * Z) :=
  body_len ← body_len self;
  end_ ← usize_op (body_len - key_size self);
  Ret (2 * OffsetWidth.get (offset_width self), end_).

Definition entry_len (self : ChunkNodeLayout) : outcome Z :=
  usize_op (key_size self + OffsetWidth.get (offset_width self)).

(** The groups of eight bytes of [offsets]. *)
Fixpoint as_words (n : nat) (l : list Z) : list Z :=
  match n with
  | O => []
  | S n => if Nat.leb 8 (length l) then le_value (take 8 l) :: as_words n (drop 8 l) else []
  end.

Definition split_entry (self : ChunkNodeLayout) (entry : list Z) : exec (BTreeV1ChunkKey * Z) :=
  let internal := Internal "a chunk node entry is shorter than its key"%string in
  match get_range entry 0 (key_size self), get_from entry (key_size self) with
  | Some key, Some child =>
    match get_range key 0 4, get_range key 4 8, get_from key 8 with
    | Some chunk_size, Some filter_mask, Some offsets =>
      address ←? read_offset_width child 0 (offset_width self);
      ok (mkChunkKey (le_value chunk_size) (le_value filter_mask) (as_words (length offsets) offsets), address)
    | _, _, _ => fail internal
    end
  | _, _ => fail internal
  end.

End Layouts.
End ChunkNodeLayout.

Module BTreeV1ChunkNode.
Section Nodes.
Context `{B : Build}.

Definition parse_with_offset_width (file_data : list Z) (offset : Z) (w : OffsetWidth) (ndims : Z)
    : exec BTreeV1ChunkNode :=
  let rest := default [] (get_from file_data offset) in
  let eof len := UnexpectedEof (usize_saturating_add offset len) (zlen file_data) in
  try_ (ok_or (get_range rest 0 BTREE_V1_NODE_PREFIX_LEN)
          (eof (btree_v1_node_header_size (OffsetWidth.get w)))) (λ prefix,
  layout ←? ChunkNodeLayout.parse prefix w ndims;
  match get_from rest BTREE_V1_NODE_PREFIX_LEN with
  | None => fail (eof (node_len layout))
  | Some body =>
    '(a, b) ← ChunkNodeLayout.entries layout;
    match get_range body a b with
    | Some entries =>
      if node_len layout <=? zlen rest then ok (mkChunkNode layout entries) else fail (eof (node_len layout))
    | None => fail (eof (node_len layout))
    end
  end).

Definition parse (file_data : list Z) (offset offset_size ndims : Z) : exec BTreeV1ChunkNode :=
  try_ (OffsetWidth.try_from offset_size) (λ w, parse_with_offset_width file_data offset w ndims).

(** [chunks_exact] of the entries, each split. *)
Fixpoint split_entries (layout : ChunkNodeLayout) (entry_len : Z) (n : nat) (l : list Z)
    : exec (list (BTreeV1ChunkKey * Z)) :=
  match n with
  | O => ok []
  | S n =>
    match get_range l 0 entry_len, get_from l entry_len with
    | Some entry, Some rest =>
      first ←? ChunkNodeLayout.split_entry layout entry;
      others ←? split_entries layout entry_len n rest;
      ok (first :: others)
    | _, _ => ok []
    end
  end.

(** The items of the iterator, the first error instead of them. *)
Definition entries (self : BTreeV1ChunkNode) : exec (list (BTreeV1ChunkKey * Z)) :=
  entry_len ← ChunkNodeLayout.entry_len (chunk_layout self);
  _ ← assert_ (negb (entry_len =? 0));
  split_entries (chunk_layout self) entry_len (length (chunk_entries self)) (chunk_entries self).

Definition children (self : BTreeV1ChunkNode) : exec (list Z) :=
  entries ←? entries self; ok (snd <$> entries).

(** [BTreeV1ChunkNodeBytes::read_from_source_with_offset_width] *)
Definition read_from_source_with_offset_width (source : MetadataSource) (address : Z) (w : OffsetWidth)
    (ndims : Z) : exec BTreeV1ChunkNodeBytes :=
  header ←? read_metadata source address BTREE_V1_NODE_PREFIX_LEN;
  try_ (ok_or (get_range header 0 BTREE_V1_NODE_PREFIX_LEN)
          (UnexpectedEof BTREE_V1_NODE_PREFIX_LEN (zlen header))) (λ prefix,
  layout ←? ChunkNodeLayout.parse prefix w ndims;
  try_ (ok_or (checked_add address BTREE_V1_NODE_PREFIX_LEN)
          (OffsetOverflow address BTREE_V1_NODE_PREFIX_LEN)) (λ body_address,
  body_len ← ChunkNodeLayout.body_len layout;
  body ←? read_metadata source body_address body_len;
  '(a, b) ← ChunkNodeLayout.entries layout;
  match (body ← get_range body 0 body_len; get_range body a b) with
  | Some _ => ok (mkChunkNodeBytes layout (a, b) body)
  | None => fail (UnexpectedEof (node_len layout) (BTREE_V1_NODE_PREFIX_LEN + zlen body))
  end)).

(** [BTreeV1ChunkNodeBytes::node] *)
Definition node (self : BTreeV1ChunkNodeBytes) : outcome BTreeV1ChunkNode :=
  entries ← slice (bytes_body self) (fst (bytes_entries self)) (snd (bytes_entries self));
  Ret (mkChunkNode (bytes_layout self) entries).

End Nodes.
End BTreeV1ChunkNode.

(** ** The walk of a group's tree *)

Record PendingV1Node : Type := mkPending { pending_address : Z; pending_level : option Z }.

Record AdmittedV1Node : Type := mkAdmitted { admitted_address : Z; expected_level : option Z }.

(** A [V1InternalNode] is its child level. *)
Inductive V1NodeLevel : Type :=
| InternalLevel (child_level : Z)
| LeafLevel.

(** The stack is a vector: its last element is the next node. *)
Record V1TreeVisitState : Type := mkVisits {
  visit_width : OffsetWidth;
  visited : gset Z;
  pending : list PendingV1Node;
  work : Z;
  limit : Z;
}.

Module V1TreeVisitState.

Definition DEFAULT_WORK_LIMIT : Z := 16777216.

Definition with_limit (root : Z) (w : OffsetWidth) (limit : Z) : V1TreeVisitState :=
  mkVisits w ∅ [mkPending root None] 0 limit.

Definition new (root : Z) (w : OffsetWidth) : V1TreeVisitState := with_limit root w DEFAULT_WORK_LIMIT.

Definition charge (self : V1TreeVisitState) : result V1TreeVisitState FormatError :=
  let required := saturating_add (work self) 1 in
  if (work self =? U64_MAX) || (limit self <? required)
  then Err (ResourceLimit (limit self) required)
  else Ok (mkVisits (visit_width self) (visited self) (pending self) required (limit self)).

Definition next (self : V1TreeVisitState) : result (option AdmittedV1Node * V1TreeVisitState) FormatError :=
  match last (pending self) with
  | None => Ok (None, self)
  | Some node =>
    let address := pending_address node in
    let max := StoredAddress.undefined (visit_width self) in
    if max <? address then Err (AddressTooLarge address (OffsetWidth.get (visit_width self)))
    else if StoredAddress.is_undefined address (visit_width self) || bool_decide (address ∈ visited self)
    then Err InvalidBTreeSignature
    else
      let self := mkVisits (visit_width self) ({[address]} ∪ visited self)
                    (take (length (pending self) - 1) (pending self)) (work self) (limit self) in
      result_bind (charge self) (λ self,
      Ok (Some (mkAdmitted address (pending_level node)), self))
  end.

Definition push (self : V1TreeVisitState) (node : PendingV1Node) : V1TreeVisitState :=
  mkVisits (visit_width self) (visited self) (pending self ++ [node]) (work self) (limit self).

Fixpoint push_each (self : V1TreeVisitState) (child_level : Z) (children : list (result Z FormatError))
    : result V1TreeVisitState FormatError :=
  match children with
  | [] => Ok self
  | address :: children =>
    result_bind (charge self) (λ self,
    result_bind address (λ address,
    push_each (push self (mkPending address (Some child_level))) child_level children))
  end.

Definition push_children (self : V1TreeVisitState) (child_level : Z)
    (children : list (result Z FormatError)) : result V1TreeVisitState FormatError :=
  let start := length (pending self) in
  result_bind (push_each self child_level children) (λ self,
  Ok (mkVisits (visit_width self) (visited self)
        (take start (pending self) ++ reverse (drop start (pending self))) (work self) (limit self))).

(** [AdmittedV1Node::parse_level] *)
Definition parse_level (self : AdmittedV1Node) (level : Z) : result V1NodeLevel FormatError :=
  if match expected_level self with Some expected => negb (level =? expected) | None => false end
  then Err InvalidBTreeSignature
  else Ok (match checked_sub level 1 with
           | Some child_level => InternalLevel child_level
           | None => LeafLevel
           end).

End V1TreeVisitState.

Inductive GroupNode : Type :=
| GroupInternal (level : Z) (children : list Z)
| GroupLeaf (children : list Z).

Module GroupNode.

Definition GROUP_NODE_TYPE : Z := 0.

Definition parse (node : BTreeV1Node) (admitted : AdmittedV1Node) : result GroupNode FormatError :=
  if negb (node_type node =? GROUP_NODE_TYPE) then Err (InvalidBTreeNodeType (node_type node))
  else if negb (zlen (children node) =? entries_used node)
          || negb (zlen (keys node) =? entries_used node + 1)
  then Err InvalidBTreeSignature
  else
    result_bind (V1TreeVisitState.parse_level admitted (node_level node)) (λ level,
    Ok (match level with
        | InternalLevel level => GroupInternal level (children node)
        | LeafLevel => GroupLeaf (children node)
        end)).

End GroupNode.

(** At most [n] turns of a loop; [inr] is the value it returns. *)
Fixpoint turns {S R} (step : S → exec (S + R)) (n : positive) (s : S) : exec (S + R) :=
  let again (n : positive) (r : S + R) : exec (S + R) :=
    match r with inl s => turns step n s | inr r => ok (inr r) end in
  match n with
  | xH => step s
  | xO n => r ←? turns step n s; again n r
  | xI n => r ←? step s; r ←? again n r; again n r
  end.

Module BTreeV1.
Section Walk.
Context `{B : Build}.

(** One turn of the loop: the state of the visits and the addresses found so far. *)
Definition collect_step (read : Z → exec BTreeV1Node) (state : V1TreeVisitState * list Z)
    : exec ((V1TreeVisitState * list Z) + list Z) :=
  let '(visits, result) := state in
  try_ (V1TreeVisitState.next visits) (λ '(admitted, visits),
  match admitted with
  | None => ok (inr result)
  | Some admitted =>
    node ←? read (admitted_address admitted);
    try_ (GroupNode.parse node admitted) (λ node,
    match node with
    | GroupInternal level children =>
      try_ (V1TreeVisitState.push_children visits level (Ok <$> children)) (λ visits,
      ok (inl (visits, result)))
    | GroupLeaf children => ok (inl (visits, result ++ children))
    end)
  end).

Definition collect_within (read : Z → exec BTreeV1Node) (visits : V1TreeVisitState) : exec (list Z) :=
  r ←? turns (collect_step read) (Z.to_pos (limit visits + 1)) (visits, []);
  match r with inr result => ok result | inl _ => Panic end.

Definition collect_group_nodes (read : Z → exec BTreeV1Node) (ws : FormatWidths) (root : Z)
    : exec (list Z) :=
  collect_within read (V1TreeVisitState.new root (offsets ws)).

(** [physical] as the bytes of the image and its effective base. *)
Definition collect_symbol_table_nodes (bytes : list Z) (base btree_address : Z) (ws : FormatWidths)
    : exec (list Z) :=
  collect_group_nodes (λ address,
    try_ (BaseAddress.resolve base address) (λ address,
    try_ (to_usize address) (λ offset,
    BTreeV1Node.parse_with_widths bytes offset ws))) ws btree_address.

(** A [StoredSource] as the metadata of the parsers: positions are resolved against the base. *)
Definition stored_metadata (base : Z) (source : MetadataSource) : MetadataSource :=
  mkSource (λ offset len, try_ (BaseAddress.resolve base offset) (λ address, read_metadata source address len))
    (Z.max 0 (metadata_len source - base)).

Definition collect_symbol_table_nodes_from_source (source : MetadataSource) (btree_address : Z)
    (ws : FormatWidths) : exec (list Z) :=
  collect_group_nodes (λ address, BTreeV1Node.parse_from_source_with_widths source address ws) ws btree_address.

End Walk.
End BTreeV1.

(** ** The links of a group *)

Record GroupEntry : Type := mkGroupEntry { entry_name : list Z; entry_address : Z }.

Record SoftValue : Type := mkSoftValue { soft_names : LocalHeapDataSegment; soft_offset : Z }.

Inductive TargetRef : Type :=
| HardRef (address : Z)
| SoftRef (value : SoftValue).

Record LinkRef : Type := mkLinkRef { ref_name : list Z; ref_target : TargetRef }.

Module GroupV1.
Section Groups.
Context `{B : Build}.

Definition UNCACHED : Z := 0.
Definition CACHED_GROUP : Z := 1.
Definition SYMBOLIC_LINK : Z := 2.

(** [SoftValue::path] *)
Definition path (self : SoftValue) : result (list Z) FormatError :=
  LocalHeap.name (soft_names self) (soft_offset self).

(** [LinkRef::parse] *)
Definition link_parse (names : LocalHeapDataSegment) (entry : SymbolTableEntry) : result LinkRef FormatError :=
  result_bind (LocalHeap.name names (link_name_offset entry)) (λ name,
  if (cache_type entry =? UNCACHED) || (cache_type entry =? CACHED_GROUP)
  then Ok (mkLinkRef name (HardRef (object_header_address entry)))
  else if cache_type entry =? SYMBOLIC_LINK
  then Ok (mkLinkRef name (SoftRef (mkSoftValue names (le_value (take 4 (scratch_pad entry))))))
  else Err (InvalidSymbolTableCacheType (cache_type entry))).

Definition into_group_entry (self : LinkRef) : result (option GroupEntry) FormatError :=
  match ref_target self with
  | HardRef address => Ok (Some (mkGroupEntry (ref_name self) address))
  | SoftRef value => result_bind (path value) (λ _, Ok None)
  end.

Definition to_link_target (self : TargetRef) : result LinkTarget FormatError :=
  match self with
  | HardRef address => Ok (Hard address)
  | SoftRef value => result_bind (path value) (λ path, Ok (LinkTarget.soft path))
  end.

Definition read_local_heap (read_range : FileRange → exec (list Z)) (msg : SymbolTableMessage)
    (ws : FormatWidths) (base : Z) : exec LocalHeap :=
  let locator := mkHeapLocator ws base (local_heap_address msg) in
  range ←? LocalHeapLocator.parse_range locator;
  bytes ←? read_range range;
  try_ (FileRegion.new range bytes) (λ region,
  LocalHeapLocator.parse locator region).

Definition read_symbol_table_node (read_range : FileRange → exec (list Z)) (ws : FormatWidths) (base : Z)
    (group_leaf_node_k : option Z) (address : Z) : exec (list SymbolTableEntry) :=
  let locator := mkNodeLocator ws base address group_leaf_node_k in
  range ←? SymbolTable.node_parse_range locator;
  bytes ←? read_range range;
  try_ (FileRegion.new range bytes) (λ region,
  entries ←? SymbolTable.node_parse locator region;
  let range := entries_range entries in
  bytes ←? read_range range;
  try_ (FileRegion.new range bytes) (λ region,
  SymbolTable.entries_parse entries region)).

(** The loops over the nodes and their entries; [visit] updates the state of the closure. *)
Fixpoint visit_entries {A} (names : LocalHeapDataSegment) (visit : A → LinkRef → exec A) (st : A)
    (entries : list SymbolTableEntry) : exec A :=
  match entries with
  | [] => ok st
  | entry :: entries =>
    try_ (link_parse names entry) (λ link,
    st ←? visit st link;
    visit_entries names visit st entries)
  end.

Fixpoint visit_nodes {A} (read_node : Z → exec (list SymbolTableEntry)) (names : LocalHeapDataSegment)
    (visit : A → LinkRef → exec A) (st : A) (addresses : list Z) : exec A :=
  match addresses with
  | [] => ok st
  | address :: addresses =>
    entries ←? read_node address;
    st ←? visit_entries names visit st entries;
    visit_nodes read_node names visit st addresses
  end.

Definition visit_links {A} (read_range : FileRange → exec (list Z)) (msg : SymbolTableMessage)
    (ws : FormatWidths) (base : Z) (group_leaf_node_k : option Z)
    (symbol_table_nodes : exec (list Z)) (visit : A → LinkRef → exec A) (st : A) : exec A :=
  heap ←? read_local_heap read_range msg ws base;
  let range := data_segment_range heap in
  bytes ←? read_range range;
  try_ (FileRegion.new range bytes) (λ region,
  try_ (LocalHeap.data_segment heap region) (λ names,
  addresses ←? symbol_table_nodes;
  visit_nodes (read_symbol_table_node read_range ws base group_leaf_node_k) names visit st addresses)).

Definition visit_v1_group_links {A} (bytes : list Z) (base : Z) (msg : SymbolTableMessage)
    (ws : FormatWidths) (group_leaf_node_k : option Z) (visit : A → LinkRef → exec A) (st : A) : exec A :=
  visit_links (slice_read_range bytes) msg ws base group_leaf_node_k
    (BTreeV1.collect_symbol_table_nodes bytes base (btree_address msg) ws) visit st.

Definition resolve_v1_group_entries (bytes : list Z) (base : Z) (msg : SymbolTableMessage)
    (ws : FormatWidths) (group_leaf_node_k : option Z) : exec (list GroupEntry) :=
  visit_v1_group_links bytes base msg ws group_leaf_node_k (λ entries link,
    try_ (into_group_entry link) (λ entry,
    ok (entries ++ match entry with Some e => [e] | None => [] end))) [].

Definition find_link (bytes : list Z) (base : Z) (msg : SymbolTableMessage) (ws : FormatWidths)
    (group_leaf_node_k : option Z) (name : list Z) : exec (option LinkTarget) :=
  visit_v1_group_links bytes base msg ws group_leaf_node_k (λ found link,
    if negb (bool_decide (is_Some found)) && bool_decide (ref_name link = name)
    then try_ (to_link_target (ref_target link)) (λ target, ok (Some target))
    else ok found) None.

End Groups.
End GroupV1.

Module GroupTests.
#[local] Existing Instance build64.

Definition ws : FormatWidths := mkWidths OffsetTwo LengthTwo.

(** A heap (14 bytes) with its segment of 12, an internal node and its leaf, and a symbol
    table node with a hard link ["a"], a soft link ["s"] to ["/a"] and a second ["a"]. *)
Definition image : list Z :=
  [72; 69; 65; 80; 0; 0; 0; 0; 12; 0; 255; 255; 14; 0]
  ++ [0; 0; 97; 0; 115; 0; 47; 97; 0; 0; 0; 0]
  ++ [84; 82; 69; 69; 0; 1; 1; 0; 255; 255; 255; 255; 0; 0; 44; 0; 4; 0]
  ++ [84; 82; 69; 69; 0; 0; 1; 0; 255; 255; 255; 255; 0; 0; 62; 0; 4; 0]
  ++ [83; 78; 79; 68; 1; 0; 3; 0]
  ++ [2; 0; 200; 0] ++ replicate 24 0
  ++ [4; 0; 255; 255; 2; 0; 0; 0; 0; 0; 0; 0; 6; 0; 0; 0] ++ replicate 12 0
  ++ [2; 0; 201; 0] ++ replicate 24 0.

Definition message : SymbolTableMessage := mkSymbolTable 26 0.

Example group_runs :
  BTreeV1.collect_symbol_table_nodes image 0 26 ws = ok [62] ∧
  GroupV1.resolve_v1_group_entries image 0 message ws (Some 4)
    = ok [mkGroupEntry [97] 200; mkGroupEntry [97] 201] ∧
  GroupV1.find_link image 0 message ws (Some 4) [115] = ok (Some (LinkTarget.soft [47; 97])) ∧
  GroupV1.find_link image 0 message ws (Some 4) [97] = ok (Some (Hard 200)) ∧
  GroupV1.find_link image 0 message ws (Some 4) [98] = ok None ∧
  GroupV1.find_link image 0 message ws (Some 1) [97] = fail (InvalidSymbolTableNodeSymbolCount 3 2).
Proof. vm_compute. auto 6. Qed.

(** A chunk node of one dimension (and the offset in the datatype) with two chunks. *)
Definition chunk_image : list Z :=
  [84; 82; 69; 69; 1; 0; 2; 0; 255; 255; 255; 255]
  ++ [16; 0; 0; 0; 1; 0; 0; 0] ++ replicate 16 0 ++ [100; 0]
  ++ [17; 0; 0; 0; 0; 0; 0; 0; 10; 0; 0; 0; 0; 0; 0; 0] ++ replicate 8 0 ++ [200; 0]
  ++ replicate 24 0.

Example chunk_node_runs :
  (node ←? BTreeV1ChunkNode.parse chunk_image 0 2 2; BTreeV1ChunkNode.entries node)
  = ok [(mkChunkKey 16 1 [0; 0], 100); (mkChunkKey 17 0 [10; 0], 200)] ∧
  (bytes ←? BTreeV1ChunkNode.read_from_source_with_offset_width (slice_metadata chunk_image) 0 OffsetTwo 2;
   node ← BTreeV1ChunkNode.node bytes;
   BTreeV1ChunkNode.children node) = ok [100; 200].
Proof. vm_compute. auto. Qed.

(** The length of an entry is added without a check: a number of dimensions whose key still
    fits a [usize] overflows it. *)
Example chunk_entry_len_overflow :
  ChunkNodeLayout.chunk_key_size (2 ^ 61 - 2) = Ok (2 ^ 64 - 8) ∧
  BTreeV1ChunkNode.parse chunk_image 0 8 (2 ^ 61 - 2) = Panic.
Proof. vm_compute. auto. Qed.

End GroupTests.
