(* ===== verification/SymbolTableFacts.v ===== *)
(** * Facts about groups with symbol tables

    The walk of a version 1 B-tree ends for every reader and returns the leaves of the tree it
    walked in order; listings and lookups are folds over one list of links; no bytes make a
    parser panic. *)

From stdpp Require Import gmap.
From S2P Require Import Prelude Addresses Words ByteFields ByteFieldFacts FileRegions Utf8 LinkMessages.
From S2P Require Import SuperblockSearch SuperblockFacts ObjectHeaders ObjectHeaderFacts ObjectHeaderSource SymbolTables.

Local Open Scope Z_scope.

(** ** Loops *)

Section Turns.
Context {S R : Type} (step : S → exec (S + R)).

Fixpoint turns_nat (n : nat) (s : S) : exec (S + R) :=
  match n with
  | Datatypes.O => ok (inl s)
  | Datatypes.S n => r ←? step s; match r with inl s => turns_nat n s | inr r => ok (inr r) end
  end.

Lemma turns_nat_add a b s :
  turns_nat (a + b) s = (r ←? turns_nat a s; match r with inl s => turns_nat b s | inr r => ok (inr r) end).
Proof.
  revert s. induction a as [|a IH]; intros s; cbn [turns_nat Nat.add]; [by rewrite and_then_ok|].
  destruct (step s) as [[[s'|r]|e]|]; [|done..]. cbn [and_then]. apply IH.
Qed.

Lemma turns_nat_eq n s : turns step n s = turns_nat (Pos.to_nat n) s.
Proof.
  revert s. induction n as [n IH|n IH|]; intros s; cbn [turns].
  - rewrite Pos2Nat.inj_xI. cbn [turns_nat]. destruct (step s) as [[[s'|r]|e]|]; [|done..]. cbn [and_then].
    replace (2 * Pos.to_nat n)%nat with (Pos.to_nat n + Pos.to_nat n)%nat by lia. rewrite IH, turns_nat_add. destruct (turns_nat _ s') as [[[?|?]|?]|]; [apply IH|done..].
  - rewrite Pos2Nat.inj_xO. replace (2 * Pos.to_nat n)%nat with (Pos.to_nat n + Pos.to_nat n)%nat by lia.
    rewrite turns_nat_add, IH. destruct (turns_nat _ s) as [[[?|?]|?]|]; [apply IH|done..].
  - change (Pos.to_nat 1) with 1%nat. cbn [turns_nat]. by destruct (step s) as [[[?|?]|?]|].
Qed.

(** A loop whose measure decreases ends within it. *)
Lemma turns_end (f : S → Z) n s :
  (∀ s s', step s = ok (inl s') → 0 ≤ f s' < f s) → (Z.to_nat (f s) < n)%nat →
  ∀ s', turns_nat n s ≠ ok (inl s').
Proof.
  intros Hf. revert s. induction n as [|n IH]; intros s Hn s'; [lia|]. cbn [turns_nat].
  intros (r & Hr & Ht)%and_then_ok_inv. destruct r as [s1|]; [|done]. apply Hf in Hr. eapply IH; [|exact Ht]. lia.
Qed.

End Turns.

(** ** Trees *)

(** A tree of B-tree nodes: a leaf has the addresses of symbol table nodes. *)
Inductive gtree : Type :=
| GLeaf (address : Z) (snods : list Z)
| GNode (address level : Z) (ts : list gtree).

Definition address_of (t : gtree) : Z := match t with GLeaf a _ | GNode a _ _ => a end.

(** The addresses of its nodes, its leaves from left to right, and the work it costs: one unit
    for each node and each child of an internal node. *)
Fixpoint nodes (t : gtree) : list Z :=
  match t with GLeaf a _ => [a] | GNode a _ ts => a :: concat (map nodes ts) end.

Fixpoint leaves (t : gtree) : list Z :=
  match t with GLeaf _ snods => snods | GNode _ _ ts => concat (map leaves ts) end.

Fixpoint cost (t : gtree) : Z :=
  match t with GLeaf _ _ => 1 | GNode _ _ ts => 1 + zlen ts + foldr Z.add 0 (map cost ts) end.

(** A node of a group's tree as the format has it: of the group type, with as many children as
    it says and one key more, and at the level its parent asks for. *)
Definition group_node (n : BTreeV1Node) (level : option Z) : Prop :=
  node_type n = 0 ∧ zlen (children n) = entries_used n ∧ zlen (keys n) = entries_used n + 1 ∧
  match level with Some l => node_level n = l | None => True end.

(** The tree is what [read] gives, with levels that decrease by one to the leaves: a leaf has
    level 0 (a level is unsigned), the children of a node at level [l + 1] have level [l]. *)
Fixpoint describes (read : Z → exec BTreeV1Node) (level : option Z) (t : gtree) : Prop :=
  match t with
  | GLeaf a snods =>
    ∃ n, read a = ok n ∧ group_node n level ∧ node_level n < 1 ∧ children n = snods
  | GNode a l ts =>
    (∃ n, read a = ok n ∧ group_node n level ∧ 0 ≤ l ∧ node_level n = l + 1 ∧ children n = map address_of ts) ∧
    (fix all ts := match ts with [] => True | t :: ts => describes read (Some l) t ∧ all ts end) ts
  end.

Definition all_nodes (ts : list gtree) : list Z := concat (map nodes ts).
Definition all_leaves (ts : list gtree) : list Z := concat (map leaves ts).
Definition total_cost (ts : list gtree) : Z := foldr Z.add 0 (map cost ts).

(** A pending node and the tree below it. *)
Definition pends (read : Z → exec BTreeV1Node) (p : PendingV1Node) (t : gtree) : Prop :=
  address_of t = pending_address p ∧ describes read (pending_level p) t.

(** The code's classification of a node is the format's. *)
Lemma parse_group_node n a level :
  (∃ g, GroupNode.parse n (mkAdmitted a level) = Ok g) ↔ group_node n level.
Proof.
  unfold GroupNode.parse, V1TreeVisitState.parse_level, GroupNode.GROUP_NODE_TYPE, group_node. cbn [expected_level].
  destruct (node_type n =? 0) eqn:Ht, (zlen (children n) =? entries_used n) eqn:Hc, (zlen (keys n) =? entries_used n + 1) eqn:Hk,
    level as [l|]; try destruct (node_level n =? l) eqn:Hl; cbn [negb orb result_bind];
    (split; [intros [g Hg]; try done; split_and!; (done || lia) | intros (? & ? & ? & ?); try lia; by eexists]).
Qed.

Lemma parse_level_kind n a level g :
  GroupNode.parse n (mkAdmitted a level) = Ok g →
  (node_level n < 1 ∧ g = GroupLeaf (children n)) ∨ (1 ≤ node_level n ∧ g = GroupInternal (node_level n - 1) (children n)).
Proof.
  unfold GroupNode.parse, V1TreeVisitState.parse_level. cbn [expected_level].
  repeat (match goal with |- context [if ?b then Err _ else _] => destruct b; [done|] end). cbn [result_bind].
  unfold checked_sub. destruct (1 <=? node_level n) eqn:E; intros [= <-]; [right|left]; split; (done || lia).
Qed.

Lemma parse_leaf n a level snods :
  GroupNode.parse n (mkAdmitted a level) = Ok (GroupLeaf snods) ↔
  group_node n level ∧ node_level n < 1 ∧ children n = snods.
Proof.
  split.
  - intros H. split; [by apply (parse_group_node n a); eexists|]. by destruct (parse_level_kind _ _ _ _ H) as [[? [= ->]]|[? ?]].
  - intros (Hg & Hl & <-). apply (parse_group_node n a) in Hg as [g Hg]. rewrite Hg.
    destruct (parse_level_kind _ _ _ _ Hg) as [[? ->]|[? ?]]; [done|lia].
Qed.

Lemma parse_internal n a level l addresses :
  GroupNode.parse n (mkAdmitted a level) = Ok (GroupInternal l addresses) ↔
  group_node n level ∧ 0 ≤ l ∧ node_level n = l + 1 ∧ children n = addresses.
Proof.
  split.
  - intros H. split; [by apply (parse_group_node n a); eexists|]. destruct (parse_level_kind _ _ _ _ H) as [[? ?]|[? [= -> ->]]]; [done|]. split_and!; (done || lia).
  - intros (Hg & Hl & Hn & <-). apply (parse_group_node n a) in Hg as [g Hg]. rewrite Hg.
    destruct (parse_level_kind _ _ _ _ Hg) as [[? ?]|[? ->]]; [lia|]. do 2 f_equal. lia.
Qed.

Lemma describes_leaf read level a snods :
  describes read level (GLeaf a snods) ↔
  ∃ n, read a = ok n ∧ GroupNode.parse n (mkAdmitted a level) = Ok (GroupLeaf snods).
Proof. cbn [describes]. by setoid_rewrite (parse_leaf _ a). Qed.

Lemma describes_node read level a l ts :
  describes read level (GNode a l ts) ↔
  (∃ n, read a = ok n ∧ GroupNode.parse n (mkAdmitted a level) = Ok (GroupInternal l (map address_of ts))) ∧
  Forall (describes read (Some l)) ts.
Proof.
  cbn [describes]. setoid_rewrite (parse_internal _ a). apply and_iff_compat_l.
  induction ts as [|t ts IH]; [split; [by constructor|done]|]. rewrite Forall_cons. by rewrite <- IH.
Qed.

Lemma total_cost_app ts1 ts2 : total_cost (ts1 ++ ts2) = total_cost ts1 + total_cost ts2.
Proof. unfold total_cost. rewrite map_app. induction ts1 as [|t ts1 IH]; cbn [map app foldr]; lia. Qed.

Lemma cost_nonneg t : 0 ≤ cost t.
Proof.
  revert t. fix IH 1. intros [a s|a l ts]; cbn [cost]; [lia|]. pose proof (zlen_nonneg ts) as Hz.
  assert (0 ≤ foldr Z.add 0 (map cost ts)); [|lia]. clear Hz.
  induction ts as [|t ts IHts]; cbn [map foldr]; [lia|]. pose proof (IH t). lia.
Qed.

Lemma total_cost_nonneg ts : 0 ≤ total_cost ts.
Proof. induction ts as [|t ts IH]; cbn; [lia|]. pose proof (cost_nonneg t). unfold total_cost in IH. lia. Qed.

(** The children of an internal node, pending, are the trees below it. *)
Lemma pends_children read l addresses ts :
  Forall2 (pends read) (map (λ a, mkPending a (Some l)) addresses) ts ↔
  addresses = map address_of ts ∧ Forall (describes read (Some l)) ts.
Proof.
  split.
  - revert ts. induction addresses as [|a addresses IH]; intros ts H; inversion H as [|? t ? ts' [Ha Hd] Hts]; subst; [done|].
    apply IH in Hts as [-> Hf]. cbn [pending_address] in Ha. rewrite <- Ha. split; [done|by constructor].
  - intros [-> Hf]. induction Hf as [|t ts Ht Hts IH]; cbn [map]; constructor; done.
Qed.

(** ** The state of the visits *)

Definition visits_ok (v : V1TreeVisitState) : Prop := 0 ≤ work v ≤ limit v ∧ limit v < U64_MAX.

Lemma charge_cases v :
  visits_ok v →
  (work v < limit v ∧
   V1TreeVisitState.charge v = Ok (mkVisits (visit_width v) (visited v) (pending v) (work v + 1) (limit v))) ∨
  (limit v ≤ work v ∧ ∃ e, V1TreeVisitState.charge v = Err e).
Proof.
  intros [Hw Hl]. unfold V1TreeVisitState.charge, saturating_add. rewrite Z.min_l by lia.
  destruct (_ || _) eqn:E; [right; split; [lia|by eexists]|left; split; [lia|done]].
Qed.

Lemma next_cases v p stk :
  visits_ok v → pending v = reverse (p :: stk) →
  let a := pending_address p in
  let good := a < StoredAddress.undefined (visit_width v) ∧ a ∉ visited v ∧ work v < limit v in
  (good ∧ V1TreeVisitState.next v
          = Ok (Some (mkAdmitted a (pending_level p)),
                mkVisits (visit_width v) ({[a]} ∪ visited v) (reverse stk) (work v + 1) (limit v))) ∨
  (¬ good ∧ ∃ e, V1TreeVisitState.next v = Err e).
Proof.
  intros Hv Hp a good. unfold V1TreeVisitState.next. rewrite Hp, reverse_cons, last_snoc, length_app, length_reverse.
  fold a. destruct (_ <? a) eqn:E1; [right; split; [unfold good; lia|by eexists]|].
  unfold StoredAddress.is_undefined. destruct (a =? _) eqn:E2; [right; split; [unfold good; lia|by eexists]|].
  case_bool_decide as E3; [right; split; [by intros (_ & ? & _)|by eexists]|]. cbn [orb].
  rewrite Nat.add_sub, take_app_length' by (by rewrite length_reverse).
  destruct (charge_cases (mkVisits (visit_width v) ({[a]} ∪ visited v) (reverse stk) (work v) (limit v)))
    as [[Hw Hc]|[Hw [e Hc]]]; [done| |]; rewrite Hc; cbn [result_bind].
  - left. split; [|done]. cbn [work limit] in Hw. unfold good. split_and!; [lia|done|lia].
  - right. split; [|by eexists]. cbn [work limit] in Hw. unfold good. lia.
Qed.

Lemma push_each_cases v l cs :
  visits_ok v →
  (work v + zlen cs ≤ limit v ∧
   V1TreeVisitState.push_each v l (Ok <$> cs)
   = Ok (mkVisits (visit_width v) (visited v) (pending v ++ map (λ a, mkPending a (Some l)) cs)
           (work v + zlen cs) (limit v))) ∨
  (limit v < work v + zlen cs ∧ ∃ e, V1TreeVisitState.push_each v l (Ok <$> cs) = Err e).
Proof.
  revert v. induction cs as [|c cs IH]; intros v Hv.
  - left. rewrite zlen_nil, Z.add_0_r. split; [destruct Hv; lia|]. cbn [map fmap list_fmap V1TreeVisitState.push_each].
    rewrite app_nil_r. by destruct v.
  - rewrite zlen_cons. pose proof (zlen_nonneg cs). cbn [map fmap list_fmap V1TreeVisitState.push_each].
    destruct (charge_cases v Hv) as [[Hw ->]|[Hw [e ->]]]; cbn [result_bind];
      [|right; split; [destruct Hv; lia|by eexists]].
    destruct (IH (V1TreeVisitState.push (mkVisits (visit_width v) (visited v) (pending v) (work v + 1) (limit v))
      (mkPending c (Some l)))) as [[Hle Hp]|[Hgt [e Hp]]]; cbn [V1TreeVisitState.push work limit visit_width visited pending] in *.
    + destruct Hv. split; simpl; lia.
    + left. split; [lia|]. rewrite Hp, <- app_assoc. do 2 f_equal. lia.
    + right. split; [lia|eauto].
Qed.

Lemma push_children_cases v l cs stk :
  visits_ok v → pending v = reverse stk →
  (work v + zlen cs ≤ limit v ∧
   V1TreeVisitState.push_children v l (Ok <$> cs)
   = Ok (mkVisits (visit_width v) (visited v) (reverse (map (λ a, mkPending a (Some l)) cs ++ stk))
           (work v + zlen cs) (limit v))) ∨
  (limit v < work v + zlen cs ∧ ∃ e, V1TreeVisitState.push_children v l (Ok <$> cs) = Err e).
Proof.
  intros Hv Hp. unfold V1TreeVisitState.push_children.
  destruct (push_each_cases v l cs Hv) as [[Hle ->]|[Hgt [e ->]]]; cbn [result_bind]; [left|right; eauto].
  split; [done|]. cbn [pending visit_width visited work limit]. rewrite take_app_length, drop_app_length.
  by rewrite reverse_app, Hp.
Qed.

(** Every turn of the walk does work. *)
Lemma collect_step_work read v res v' res' :
  visits_ok v → BTreeV1.collect_step read (v, res) = ok (inl (v', res')) →
  visits_ok v' ∧ limit v' = limit v ∧ work v < work v'.
Proof.
  intros Hv. unfold BTreeV1.collect_step. destruct (pending v) as [|p0 q0 _] eqn:Epend using rev_ind.
  - unfold V1TreeVisitState.next. rewrite Epend. done.
  - destruct (next_cases v p0 (reverse q0) Hv) as [[(Ha & Hn & Hw) ->]|[_ [e ->]]];
      [by rewrite reverse_cons, reverse_involutive| |done]. cbn [try_].
    intros (n & _ & H)%and_then_ok_inv. destruct (GroupNode.parse _ _) as [[l cs|cs]|]; [| |done]; cbn [try_] in H.
    + destruct (push_children_cases (mkVisits (visit_width v) ({[pending_address p0]} ∪ visited v) (reverse (reverse q0))
        (work v + 1) (limit v)) l cs (reverse q0)) as [[Hle Hp]|[_ [e Hp]]]; [destruct Hv; split; cbn; lia|done| |];
        rewrite Hp in H; [|done]. injection H as <- <-. cbn [work limit] in *. pose proof (zlen_nonneg cs).
      destruct Hv. split_and!; [split; cbn; lia|done|lia].
    + injection H as <- <-. destruct Hv. split_and!; [split; cbn; lia|done|cbn; lia].
Qed.

(** ** The walk *)

(** What a walk of pending nodes finds: the trees below them, no node of them twice or visited
    before, within the work that is left. *)
Definition walks (read : Z → exec BTreeV1Node) (v : V1TreeVisitState) (stk : list PendingV1Node)
    (ts : list gtree) : Prop :=
  Forall2 (pends read) stk ts ∧ NoDup (all_nodes ts) ∧
  (∀ a, a ∈ all_nodes ts → a < StoredAddress.undefined (visit_width v) ∧ a ∉ visited v) ∧
  work v + total_cost ts ≤ limit v.

Lemma address_in_nodes t : address_of t ∈ nodes t.
Proof. destruct t; by left. Qed.

Lemma cost_pos t : 1 ≤ cost t.
Proof.
  destruct t as [|a l ts]; cbn [cost]; [lia|]. pose proof (zlen_nonneg ts). pose proof (total_cost_nonneg ts).
  unfold total_cost in *. lia.
Qed.

Lemma describes_inv read level t :
  describes read level t →
  ∃ n, read (address_of t) = ok n ∧ GroupNode.parse n (mkAdmitted (address_of t) level)
       = Ok (match t with GLeaf _ s => GroupLeaf s | GNode _ l ts => GroupInternal l (map address_of ts) end).
Proof. destruct t as [a s|a l ts]; [by rewrite describes_leaf|]. rewrite describes_node. by intros [? _]. Qed.

Lemma walks_first read v p stk ts :
  walks read v (p :: stk) ts →
  ∃ t ts', ts = t :: ts' ∧ pends read p t ∧
    pending_address p < StoredAddress.undefined (visit_width v) ∧ pending_address p ∉ visited v ∧ work v < limit v.
Proof.
  intros (Hf & _ & Ha & Hw). inversion Hf as [|? t ? ts' [Hadr Hd] Hts]; subst. exists t, ts'.
  destruct (Ha (pending_address p)) as [? ?].
  { cbn [all_nodes map concat]. apply elem_of_app. left. rewrite <- Hadr. apply address_in_nodes. }
  cbn [total_cost map foldr] in Hw. pose proof (cost_pos t). pose proof (total_cost_nonneg ts'). unfold total_cost in *.
  split_and!; [done|done|done|done|lia].
Qed.

Lemma all_nodes_app ts1 ts2 : all_nodes (ts1 ++ ts2) = all_nodes ts1 ++ all_nodes ts2.
Proof. unfold all_nodes. by rewrite map_app, concat_app. Qed.

(** The visit of a node [a] whose parts are [ts]: its address joins the visited ones. *)
Lemma walks_visit read v a stk' ts pend k :
  0 ≤ k →
  (NoDup (a :: all_nodes ts) ∧
   (∀ x, x ∈ a :: all_nodes ts → x < StoredAddress.undefined (visit_width v) ∧ x ∉ visited v) ∧
   work v + (1 + k + total_cost ts) ≤ limit v) ∧ Forall2 (pends read) stk' ts ↔
  (a < StoredAddress.undefined (visit_width v) ∧ a ∉ visited v) ∧
  walks read (mkVisits (visit_width v) ({[a]} ∪ visited v) pend (work v + 1 + k) (limit v)) stk' ts.
Proof.
  intros Hk. unfold walks. cbn [visit_width visited work limit]. rewrite NoDup_cons. split.
  - intros (((Hna & Hnd) & Hall & Hw) & Hf). split; [apply Hall; by left|]. split_and!; [done|done| |lia].
    intros x Hx. destruct (Hall x) as [? ?]; [by right|]. split; [done|]. rewrite elem_of_union, elem_of_singleton.
    intros [->|?]; done.
  - intros ((Hau & Hav) & Hf & Hnd & Hall & Hw). split_and!; [|done| |lia|done].
    + intros Hin. destruct (Hall a Hin) as [_ Hn]. apply Hn. set_solver.
    + intros x [->|Hx]%elem_of_cons; [done|]. destruct (Hall x Hx) as [? Hn]. split; [done|]. set_solver.
Qed.

Lemma walks_leaf read v p stk ts cs n pend :
  read (pending_address p) = ok n →
  GroupNode.parse n (mkAdmitted (pending_address p) (pending_level p)) = Ok (GroupLeaf cs) →
  pending_address p < StoredAddress.undefined (visit_width v) → pending_address p ∉ visited v →
  walks read v (p :: stk) ts ↔
  ∃ ts', ts = GLeaf (pending_address p) cs :: ts' ∧
    walks read (mkVisits (visit_width v) ({[pending_address p]} ∪ visited v) pend (work v + 1) (limit v)) stk ts'.
Proof.
  intros Hr Hp Hu Hv. set (a := pending_address p) in *. split.
  - intros Hw. destruct (walks_first _ _ _ _ _ Hw) as (t & ts' & -> & [Ha Hd] & _). fold a in Ha.
    destruct (describes_inv _ _ _ Hd) as (n' & Hr' & Hp'). rewrite Ha, Hr in Hr'. injection Hr' as <-. rewrite Ha, Hp in Hp'.
    destruct t as [a' s|]; [|done]. injection Hp' as <-. cbn [address_of] in Ha. subst a'. exists ts'. split; [done|].
    rewrite <- (Z.add_0_r (work v + 1)). destruct Hw as (Hf & Hnd & Hall & Hw). inversion Hf; subst.
    apply (proj1 (walks_visit read v a stk ts' pend 0 ltac:(lia))). split; [|done]. split_and!; [done|done|].
    cbn [total_cost map foldr cost] in Hw. unfold total_cost. lia.
  - intros (ts' & -> & Hw). rewrite <- (Z.add_0_r (work v + 1)) in Hw.
    pose proof (proj2 (walks_visit read v a stk ts' pend 0 ltac:(lia)) (conj (conj Hu Hv) Hw)) as ((Hnd & Hall & Hc) & Hf).
    split_and!; [constructor; [split; [done|by apply describes_leaf; exists n]|done]|done|done|]. cbn [total_cost map foldr cost]. unfold total_cost in Hc. lia.
Qed.

Lemma walks_internal read v p stk ts l cs n pend :
  read (pending_address p) = ok n →
  GroupNode.parse n (mkAdmitted (pending_address p) (pending_level p)) = Ok (GroupInternal l cs) →
  pending_address p < StoredAddress.undefined (visit_width v) → pending_address p ∉ visited v →
  walks read v (p :: stk) ts ↔
  ∃ ts1 ts2, ts = GNode (pending_address p) l ts1 :: ts2 ∧ zlen ts1 = zlen cs ∧
    walks read (mkVisits (visit_width v) ({[pending_address p]} ∪ visited v) pend (work v + 1 + zlen cs) (limit v))
      (map (λ a, mkPending a (Some l)) cs ++ stk) (ts1 ++ ts2).
Proof.
  intros Hr Hp Hu Hv. set (a := pending_address p) in *. pose proof (zlen_nonneg cs) as Hz. split.
  - intros Hw. destruct (walks_first _ _ _ _ _ Hw) as (t & ts2 & -> & [Ha Hd] & _). fold a in Ha.
    destruct (describes_inv _ _ _ Hd) as (n' & Hr' & Hp'). rewrite Ha, Hr in Hr'. injection Hr' as <-. rewrite Ha, Hp in Hp'.
    destruct t as [|a' l' ts1]; [done|]. injection Hp' as <- ->. cbn [address_of] in Ha. subst a'. exists ts1, ts2.
    assert (Hl : zlen ts1 = zlen (map address_of ts1)) by (unfold zlen; by rewrite length_map).
    split_and!; [done|done|]. apply describes_node in Hd as [_ Hd]. destruct Hw as (Hf & Hnd & Hall & Hw). inversion Hf; subst.
    apply (proj1 (walks_visit read v a _ (ts1 ++ ts2) pend _ Hz)).
    split; [|apply Forall2_app; [by apply pends_children|done]].
    rewrite all_nodes_app, total_cost_app. split_and!; [done|done|].
    cbn [total_cost map foldr cost] in Hw. unfold total_cost. lia.
  - intros (ts1 & ts2 & -> & Hl & Hw).
    pose proof (proj2 (walks_visit read v a _ (ts1 ++ ts2) pend _ Hz) (conj (conj Hu Hv) Hw)) as ((Hnd & Hall & Hc) & Hf).
    apply Forall2_app_inv in Hf as [Hf1 Hf2]; [|unfold zlen in Hl; rewrite length_map; lia].
    apply pends_children in Hf1 as [-> Hf1]. rewrite all_nodes_app in Hnd, Hall. rewrite total_cost_app in Hc.
    split_and!; [constructor; [split; [done|]|done]|done|done|].
    + apply describes_node. split; [by exists n|done].
    + cbn [total_cost map foldr cost]. unfold total_cost in Hc. lia.
Qed.

(** One turn on an admitted node. *)
Lemma walk_turn read n v p stk res m g :
  visits_ok v → pending v = reverse (p :: stk) →
  let a := pending_address p in
  a < StoredAddress.undefined (visit_width v) → a ∉ visited v → work v < limit v →
  read a = ok m → GroupNode.parse m (mkAdmitted a (pending_level p)) = Ok g →
  let v1 := mkVisits (visit_width v) ({[a]} ∪ visited v) (reverse stk) (work v + 1) (limit v) in
  turns_nat (BTreeV1.collect_step read) (S n) (v, res) =
  match g with
  | GroupInternal l cs =>
    try_ (V1TreeVisitState.push_children v1 l (Ok <$> cs)) (λ v2, turns_nat (BTreeV1.collect_step read) n (v2, res))
  | GroupLeaf cs => turns_nat (BTreeV1.collect_step read) n (v1, res ++ cs)
  end.
Proof.
  intros Hv Hp a Ha Hnv Hw Hr Hg v1. cbn [turns_nat]. unfold BTreeV1.collect_step at 1.
  destruct (next_cases v p stk Hv Hp) as [[_ ->]|[[] _]]; [|done]. cbn [try_ admitted_address]. fold a.
  rewrite Hr, and_then_ok, Hg. cbn [try_]. destruct g as [l cs|cs]; [|by rewrite and_then_ok].
  fold v1. destruct (V1TreeVisitState.push_children _ _ _); cbn [try_]; [by rewrite and_then_ok|done].
Qed.

Lemma walk_stuck read n v p stk res ls :
  visits_ok v → pending v = reverse (p :: stk) →
  let a := pending_address p in
  turns_nat (BTreeV1.collect_step read) (S n) (v, res) = ok (inr ls) →
  (a < StoredAddress.undefined (visit_width v) ∧ a ∉ visited v ∧ work v < limit v) ∧
  ∃ m g, read a = ok m ∧ GroupNode.parse m (mkAdmitted a (pending_level p)) = Ok g.
Proof.
  intros Hv Hp a. cbn [turns_nat]. unfold BTreeV1.collect_step at 1.
  destruct (next_cases v p stk Hv Hp) as [[Hgood ->]|[_ [e ->]]]; [|done]. cbn [try_ admitted_address]. fold a.
  intros (r & (m & Hm & Hr)%and_then_ok_inv & _)%and_then_ok_inv. split; [done|].
  destruct (GroupNode.parse m _) as [g|] eqn:Eg; [|done]. eauto.
Qed.

Lemma all_leaves_app ts1 ts2 : all_leaves (ts1 ++ ts2) = all_leaves ts1 ++ all_leaves ts2.
Proof. unfold all_leaves. by rewrite map_app, concat_app. Qed.

(** The walk returns the leaves of the trees it finds, and nothing else. *)
Lemma walk_spec read n v stk res ls :
  visits_ok v → pending v = reverse stk → (Z.to_nat (limit v - work v) < n)%nat →
  turns_nat (BTreeV1.collect_step read) n (v, res) = ok (inr ls) ↔
  ∃ ts, walks read v stk ts ∧ ls = res ++ all_leaves ts.
Proof.
  revert v stk res. induction n as [|n IH]; intros v stk res Hv Hp Hn; [lia|]. destruct stk as [|p stk].
  { cbn [turns_nat]. unfold BTreeV1.collect_step at 1, V1TreeVisitState.next. rewrite Hp. cbn [reverse rev_append last try_]. rewrite and_then_ok. split.
    - intros [= <-]. exists []. cbn [all_leaves map concat]. rewrite app_nil_r. split; [|done]. destruct Hv.
      split_and!; [done|by apply NoDup_nil|by intros ? ?%elem_of_nil|cbn; lia].
    - intros (ts & (Hf & _) & ->). inversion Hf. cbn. by rewrite app_nil_r. }
  set (a := pending_address p).
  assert (Hgo : (turns_nat (BTreeV1.collect_step read) (S n) (v, res) = ok (inr ls) ∨ ∃ ts, walks read v (p :: stk) ts) →
    (a < StoredAddress.undefined (visit_width v) ∧ a ∉ visited v ∧ work v < limit v) ∧
    ∃ m g, read a = ok m ∧ GroupNode.parse m (mkAdmitted a (pending_level p)) = Ok g).
  { intros [Ht|(ts & (t & _ & _ & [Hat Hdt] & ?)%walks_first)]; [by eapply walk_stuck|]. split; [done|].
    apply describes_inv in Hdt as (m & Hm & Hg). rewrite Hat in Hm, Hg. eauto. }
  split; [intros Ht; pose proof (Hgo (or_introl Ht)) as ((Ha & Hnv & Hw) & m & g & Hm & Hg); revert Ht|
          intros (ts & Hts & ->); pose proof (Hgo (or_intror (ex_intro _ ts Hts))) as ((Ha & Hnv & Hw) & m & g & Hm & Hg); clear Hgo];
    rewrite (walk_turn read n v p stk res m g Hv Hp Ha Hnv Hw Hm Hg); fold a;
    (set (v1 := mkVisits _ _ _ _ _); assert (Hv1 : visits_ok v1) by (destruct Hv; split; cbn; lia);
     assert (Hw1 : work v1 = work v + 1) by done; assert (Hl1 : limit v1 = limit v) by done); destruct g as [l cs|cs].
  - destruct (push_children_cases v1 l cs stk Hv1 eq_refl) as [[Hle ->]|[_ [e ->]]]; [|done]. cbn [try_].
    pose proof (zlen_nonneg cs). intros Ht.
    apply (IH _ (map (λ a, mkPending a (Some l)) cs ++ stk)) in Ht as (ts & Hts & ->); [|destruct Hv1; split; cbn [work limit]; lia|done|cbn [work limit]; lia].
    pose proof Hts as (Hf & _). apply Forall2_app_inv_l in Hf as (ts1 & ts2 & Hf1 & Hf2 & ->).
    exists (GNode a l ts1 :: ts2). split; [|by rewrite all_leaves_app].
    eapply (walks_internal read v p stk _ l cs m); [done|done|done|done|]. exists ts1, ts2. split_and!; [done| |exact Hts].
    apply Forall2_length in Hf1. rewrite length_map in Hf1. unfold zlen. lia.
  - intros Ht. apply (IH v1 stk) in Ht as (ts & Hts & ->); [|done|done|lia].
    exists (GLeaf a cs :: ts). split; [|unfold all_leaves; cbn [map concat leaves]; by rewrite app_assoc].
    eapply (walks_leaf read v p stk); [done|done|done|done|]. by exists ts.
  - eapply (walks_internal read v p stk ts l cs m) in Hts as (ts1 & ts2 & -> & _ & Hts); [|done..]. pose proof (zlen_nonneg cs).
    pose proof Hts as (_ & _ & _ & Hc). cbn [work limit] in Hc. pose proof (total_cost_nonneg (ts1 ++ ts2)).
    destruct (push_children_cases v1 l cs stk Hv1 eq_refl) as [[Hle ->]|[Hgt _]]; [|lia]. cbn [try_].
    apply (IH _ (map (λ a, mkPending a (Some l)) cs ++ stk)); [destruct Hv1; split; cbn [work limit]; lia|done|cbn [work limit]; lia|].
    exists (ts1 ++ ts2). split; [exact Hts|by rewrite all_leaves_app].
  - eapply (walks_leaf read v p stk ts cs m) in Hts as (ts' & -> & Hts); [|done..].
    apply (IH v1 stk); [done|done|lia|]. exists ts'. split; [exact Hts|].
    unfold all_leaves. cbn [map concat leaves]. by rewrite app_assoc.
Qed.

Lemma walk_ends read n v res :
  visits_ok v → (Z.to_nat (limit v - work v) < n)%nat →
  ∀ s, turns_nat (BTreeV1.collect_step read) n (v, res) ≠ ok (inl s).
Proof.
  revert v res. induction n as [|n IH]; intros v res Hv Hn s; [lia|]. cbn [turns_nat].
  intros (r & Hr & Ht)%and_then_ok_inv. destruct r as [[v' res']|]; [|done].
  apply collect_step_work in Hr as (Hv' & Hl & Hw); [|done]. eapply (IH v' res'); [done| |exact Ht].
  destruct Hv', Hv. lia.
Qed.

(** The walk returns exactly the leaves of a tree that the reader describes, whose nodes have
    distinct, defined addresses and which is within the limit of work. *)
Lemma collect_nodes_spec read root w lim ls :
  0 ≤ lim < U64_MAX →
  BTreeV1.collect_within read (V1TreeVisitState.with_limit root w lim) = ok ls ↔
  ∃ t, address_of t = root ∧ describes read None t ∧ NoDup (nodes t) ∧
    Forall (λ a, a < StoredAddress.undefined w) (nodes t) ∧ cost t ≤ lim ∧ ls = leaves t.
Proof.
  intros Hlim. set (v := V1TreeVisitState.with_limit root w lim).
  assert (Hv : visits_ok v) by (split; cbn; lia). unfold BTreeV1.collect_within. rewrite turns_nat_eq.
  assert (Hn : (Z.to_nat (limit v - work v) < Pos.to_nat (Z.to_pos (limit v + 1)))%nat) by (cbn; lia).
  transitivity (turns_nat (BTreeV1.collect_step read) (Pos.to_nat (Z.to_pos (limit v + 1))) (v, []) = ok (inr ls)).
  { destruct (turns_nat _ _ _) as [[[s|r]|e]|] eqn:E; cbn [and_then]; [|split; [by intros [= ->]|by intros [= ->]]|done..].
    exfalso. by apply (walk_ends read _ v [] Hv Hn s). }
  rewrite (walk_spec read _ v [mkPending root None]) by done. unfold walks. split.
  - intros (ts & (Hf & Hnd & Hall & Hc) & ->). inversion Hf as [|? t ? ts' [Ha Hd] Hts]; subst. inversion Hts; subst.
    cbn [all_nodes all_leaves total_cost map concat foldr] in *. rewrite app_nil_r in *. exists t. cbn in Hc.
    split_and!; [done|done|done| |lia|by rewrite app_nil_l]. apply Forall_forall. intros a Hin. by apply Hall.
  - intros (t & Ha & Hd & Hnd & Hall & Hc & ->). exists [t]. cbn [all_nodes all_leaves total_cost map concat foldr].
    rewrite !app_nil_r. split_and!; [|done| |cbn; lia|done].
    + constructor; [by split|constructor].
    + intros a Hin. rewrite Forall_forall in Hall. split; [by apply Hall|]. cbn. set_solver.
Qed.

(** No reader makes the walk run on; it fails where the reader does. *)
Definition walk_inv (s : V1TreeVisitState * list Z) : Prop :=
  visits_ok (fst s) ∧ Forall (λ p, 0 ≤ pending_address p) (pending (fst s)) ∧ Forall (λ a, 0 ≤ a) (snd s).

Lemma collect_step_sound `{B : Build} read s :
  (∀ a, 0 ≤ a → read a ⇝? (λ n, Forall (λ c, 0 ≤ c) (children n))) → walk_inv s →
  BTreeV1.collect_step read s
    ⇝? (λ r, match r with inl s' => walk_inv s' | inr ls => Forall (λ a, 0 ≤ a) ls end).
Proof.
  intros Hread (Hv & Hp & Hr). destruct s as [v res]. cbn [fst snd] in *. unfold BTreeV1.collect_step.
  destruct (pending v) as [|p0 q0 _] eqn:Epend using rev_ind.
  { unfold V1TreeVisitState.next. rewrite Epend. by apply sound_ok. }
  rewrite Forall_app, Forall_singleton in Hp. destruct Hp as [Hq Hp0].
  destruct (next_cases v p0 (reverse q0) Hv) as [[(Ha & Hn & Hw) ->]|[_ [e ->]]];
    [by rewrite reverse_cons, reverse_involutive| |apply sound_fail]. cbn [try_ admitted_address]. rewrite reverse_involutive.
  eapply sound_bind; [by apply Hread|]. intros n Hc. cbn beta in Hc.
  assert (Hg : ∀ g, GroupNode.parse n (mkAdmitted (pending_address p0) (pending_level p0)) = Ok g →
    Forall (λ c, 0 ≤ c) match g with GroupInternal _ cs | GroupLeaf cs => cs end).
  { intros g. unfold GroupNode.parse. destruct (negb _); [done|]. destruct (_ || _); [done|].
    destruct (V1TreeVisitState.parse_level _ _) as [[l|]|]; cbn [result_bind]; [| |done]; by intros [= <-]. }
  destruct (GroupNode.parse n _) as [[l cs|cs]|e]; cbn [try_]; [| |apply sound_fail]; specialize (Hg _ eq_refl); cbn in Hg.
  - destruct (push_children_cases (mkVisits (visit_width v) ({[pending_address p0]} ∪ visited v) q0
      (work v + 1) (limit v)) l cs (reverse q0)) as [[Hle ->]|[_ [e ->]]];
      [destruct Hv; split; cbn; lia|cbn; by rewrite reverse_involutive| |apply sound_fail].
    apply sound_ok. cbn [work limit] in Hle. pose proof (zlen_nonneg cs). destruct Hv.
    split_and!; [split; cbn; lia| |done]. cbn [fst pending]. apply Forall_reverse, Forall_app. split.
    + clear -Hg. induction Hg; cbn [map]; by constructor.
    + by apply Forall_reverse.
  - apply sound_ok. destruct Hv. split_and!; [split; cbn; lia|done|]. cbn [snd]. by apply Forall_app.
Qed.

Lemma turns_nat_sound {S R} (step : S → exec (S + R)) (I : S → Prop) (Q : R → Prop) n s :
  (∀ s, I s → step s ⇝? (λ r, match r with inl s' => I s' | inr r => Q r end)) → I s →
  turns_nat step n s ⇝? (λ r, match r with inl s' => I s' | inr r => Q r end).
Proof.
  intros Hstep. revert s. induction n as [|n IH]; intros s Hs; cbn [turns_nat]; [by apply sound_ok|].
  eapply sound_bind; [by apply Hstep|]. intros [s'|r] H; [by apply IH|by apply sound_ok].
Qed.

Lemma collect_sound `{B : Build} read w root :
  (∀ a, 0 ≤ a → read a ⇝? (λ n, Forall (λ c, 0 ≤ c) (children n))) → 0 ≤ root →
  BTreeV1.collect_within read (V1TreeVisitState.new root w) ⇝? (λ ls, Forall (λ a, 0 ≤ a) ls).
Proof.
  intros Hread Hroot. set (v := V1TreeVisitState.new root w). unfold BTreeV1.collect_within. rewrite turns_nat_eq.
  assert (Hv : visits_ok v).
  { unfold visits_ok, v, V1TreeVisitState.new, V1TreeVisitState.with_limit, V1TreeVisitState.DEFAULT_WORK_LIMIT, U64_MAX.
    cbn [work limit]. lia. }
  assert (Hn : (Z.to_nat (limit v - work v) < Pos.to_nat (Z.to_pos (limit v + 1)))%nat) by (destruct Hv; lia).
  assert (Hinv : walk_inv (v, [])) by (split_and!; [done|by repeat constructor|done]).
  pose proof (walk_ends read _ v [] Hv Hn) as Hend.
  destruct (turns_nat_sound (BTreeV1.collect_step read) walk_inv (Forall (λ a, 0 ≤ a)) (Pos.to_nat (Z.to_pos (limit v + 1))) _
    (λ s, collect_step_sound read s Hread) Hinv) as ([[s|ls]|e] & Hr & Hq); rewrite Hr.
  - by destruct (Hend s).
  - by apply sound_ok.
  - apply sound_fail.
Qed.

(** ** Listing and finding links *)

Section Links.
Context `{B : Build}.

(** The links of a group in the order of its tree, as one list. *)
Fixpoint links_of (names : LocalHeapDataSegment) (entries : list SymbolTableEntry) : result (list LinkRef) FormatError :=
  match entries with
  | [] => Ok []
  | entry :: entries =>
    result_bind (GroupV1.link_parse names entry) (λ link,
    result_bind (links_of names entries) (λ links, Ok (link :: links)))
  end.

Fixpoint node_links (read_node : Z → exec (list SymbolTableEntry)) (names : LocalHeapDataSegment)
    (addresses : list Z) : exec (list LinkRef) :=
  match addresses with
  | [] => ok []
  | address :: addresses =>
    entries ←? read_node address;
    try_ (links_of names entries) (λ links,
    others ←? node_links read_node names addresses;
    ok (links ++ others))
  end.

Definition group_links (bytes : list Z) (base : Z) (msg : SymbolTableMessage) (ws : FormatWidths)
    (k : option Z) : exec (list LinkRef) :=
  let read_range := slice_read_range bytes in
  heap ←? GroupV1.read_local_heap read_range msg ws base;
  segment ←? read_range (data_segment_range heap);
  try_ (FileRegion.new (data_segment_range heap) segment) (λ region,
  try_ (LocalHeap.data_segment heap region) (λ names,
  addresses ←? BTreeV1.collect_symbol_table_nodes bytes base (btree_address msg) ws;
  node_links (GroupV1.read_symbol_table_node read_range ws base k) names addresses)).

Fixpoint fold_links {A} (visit : A → LinkRef → exec A) (st : A) (links : list LinkRef) : exec A :=
  match links with
  | [] => ok st
  | link :: links => st ←? visit st link; fold_links visit st links
  end.

Context {A : Type} (visit : A → LinkRef → exec A).

Lemma fold_links_app st l1 l2 :
  fold_links visit st (l1 ++ l2) = (st ←? fold_links visit st l1; fold_links visit st l2).
Proof.
  revert st. induction l1 as [|l l1 IH]; intros st; cbn [app fold_links]; [by rewrite and_then_ok|].
  destruct (visit st l) as [[st'|e]|]; [|done..]. apply IH.
Qed.

Lemma visit_entries_fold names st entries r :
  GroupV1.visit_entries names visit st entries = ok r ↔
  ∃ links, links_of names entries = Ok links ∧ fold_links visit st links = ok r.
Proof.
  revert st. induction entries as [|e entries IH]; intros st; cbn [GroupV1.visit_entries links_of].
  { split; [intros [= <-]; by exists []|by intros (? & [= <-] & ?)]. }
  destruct (GroupV1.link_parse names e) as [link|]; cbn [try_ result_bind]; [|split; [done|by intros (? & ? & _)]]. split.
  - intros (st' & Hv & (links & Hl & Hf)%IH)%and_then_ok_inv. exists (link :: links). rewrite Hl. cbn [fold_links].
    by rewrite Hv, and_then_ok.
  - intros (links & Hl & Hf). destruct (links_of names entries) as [ls|] eqn:E; [|done]. cbn [result_bind] in Hl.
    injection Hl as <-. apply and_then_ok_inv in Hf as (st' & Hv & Hf). rewrite Hv, and_then_ok. apply IH. eauto.
Qed.

Lemma visit_nodes_fold read_node names st addresses r :
  GroupV1.visit_nodes read_node names visit st addresses = ok r ↔
  ∃ links, node_links read_node names addresses = ok links ∧ fold_links visit st links = ok r.
Proof.
  revert st. induction addresses as [|a addresses IH]; intros st; cbn [GroupV1.visit_nodes node_links].
  { split; [intros [= <-]; by exists []|by intros (? & [= <-] & ?)]. }
  destruct (read_node a) as [[entries|e]|]; [|split; [done|by intros (? & ? & _)]..]. cbn [and_then]. split.
  - intros (st' & (links & Hl & Hf)%visit_entries_fold & (others & Ho & Hf')%IH)%and_then_ok_inv.
    exists (links ++ others). rewrite Hl, Ho, fold_links_app, Hf. done.
  - intros (links & Hl & Hf). destruct (links_of names entries) as [l1|] eqn:E; [|done]. cbn [try_] in Hl.
    apply and_then_ok_inv in Hl as (l2 & Hl2 & [= <-]). rewrite fold_links_app in Hf.
    apply and_then_ok_inv in Hf as (st' & Hf1 & Hf2).
    rewrite (proj2 (visit_entries_fold names st entries st')) by eauto. rewrite and_then_ok. apply IH. eauto.
Qed.

Lemma visit_group_fold bytes base msg ws k st r :
  GroupV1.visit_v1_group_links bytes base msg ws k visit st = ok r ↔
  ∃ links, group_links bytes base msg ws k = ok links ∧ fold_links visit st links = ok r.
Proof.
  unfold GroupV1.visit_v1_group_links, GroupV1.visit_links, group_links. cbv zeta.
  destruct (GroupV1.read_local_heap _ _ _ _) as [[heap|e]|]; [|split; [done|by intros (? & ? & _)]..]. cbn [and_then].
  destruct (slice_read_range _ _) as [[segment|e]|]; [|split; [done|by intros (? & ? & _)]..]. cbn [and_then].
  destruct (FileRegion.new _ _) as [region|e]; cbn [try_]; [|split; [done|by intros (? & ? & _)]].
  destruct (LocalHeap.data_segment _ _) as [names|e]; cbn [try_]; [|split; [done|by intros (? & ? & _)]].
  destruct (BTreeV1.collect_symbol_table_nodes _ _ _ _) as [[addresses|e]|]; [|split; [done|by intros (? & ? & _)]..].
  apply visit_nodes_fold.
Qed.

End Links.

Section Lookups.
Context `{B : Build}.

(** The entries of the hard links. *)
Definition hard_entries (links : list LinkRef) : list GroupEntry :=
  omap (λ l, match ref_target l with HardRef a => Some (mkGroupEntry (ref_name l) a) | SoftRef _ => None end) links.

(** The target of the link is hard or a soft link whose value parses. *)
Definition target_parses (l : LinkRef) : Prop := ∃ t, GroupV1.to_link_target (ref_target l) = Ok t.

Definition list_visit (entries : list GroupEntry) (link : LinkRef) : exec (list GroupEntry) :=
  try_ (GroupV1.into_group_entry link) (λ entry,
  ok (entries ++ match entry with Some e => [e] | None => [] end)).

Lemma fold_entries acc links es :
  fold_links list_visit acc links = ok es ↔
  Forall target_parses links ∧ es = acc ++ hard_entries links.
Proof.
  revert acc. induction links as [|l links IH]; intros acc; cbn [fold_links].
  { rewrite app_nil_r. split; [by intros [= <-]|by intros [_ ->]]. }
  rewrite Forall_cons. unfold target_parses at 1, list_visit at 1, GroupV1.into_group_entry, GroupV1.to_link_target, hard_entries. cbn [omap list_omap].
  fold (hard_entries links).
  destruct (ref_target l) as [a|v]; cbn [try_].
  - rewrite and_then_ok, IH, <- app_assoc. split; [intros [? ->]; by eauto|by intros [[_ ?] ->]].
  - destruct (GroupV1.path v) as [p|e]; cbn [result_bind try_].
    + rewrite and_then_ok, IH, app_nil_r. split; [intros [? ->]; by eauto|by intros [[_ ?] ->]].
    + split; [done|by intros [[[? ?] _] _]].
Qed.

Definition find_visit (name : list Z) (found : option LinkTarget) (link : LinkRef) : exec (option LinkTarget) :=
  if negb (bool_decide (is_Some found)) && bool_decide (ref_name link = name)
  then try_ (GroupV1.to_link_target (ref_target link)) (λ target, ok (Some target))
  else ok found.

Lemma fold_found name t links : fold_links (find_visit name) (Some t) links = ok (Some t).
Proof.
  induction links as [|l links IH]; cbn [fold_links]; [done|]. unfold find_visit at 1.
  rewrite bool_decide_true by eauto. cbn [negb andb]. by rewrite and_then_ok.
Qed.

Lemma fold_find name links r :
  fold_links (find_visit name) None links = ok r ↔
  match list_find (λ l, ref_name l = name) links with
  | Some (_, l) => ∃ t, GroupV1.to_link_target (ref_target l) = Ok t ∧ r = Some t
  | None => r = None
  end.
Proof.
  induction links as [|l links IH]; cbn [fold_links list_find]; [split; [by intros [= <-]|by intros ->]|].
  unfold find_visit at 1. rewrite bool_decide_false by (by intros [? ?]). cbn [negb andb].
  destruct (decide (ref_name l = name)) as [Hn|Hn].
  - rewrite bool_decide_true by done. destruct (GroupV1.to_link_target _) as [t|e]; cbn [try_].
    + rewrite and_then_ok, fold_found. split; [intros [= <-]; eauto|by intros (? & [= <-] & ->)].
    + split; [done|by intros (? & ? & _)].
  - rewrite bool_decide_false by done. rewrite and_then_ok, IH. by destruct (list_find _ links) as [[i l']|].
Qed.

Lemma resolve_entries_links bytes base msg ws k es :
  GroupV1.resolve_v1_group_entries bytes base msg ws k = ok es ↔
  ∃ links, group_links bytes base msg ws k = ok links ∧ Forall target_parses links ∧ es = hard_entries links.
Proof.
  unfold GroupV1.resolve_v1_group_entries. fold list_visit. rewrite visit_group_fold. split; intros (links & Hl & H); exists links; (split; [done|]).
  - by apply fold_entries in H.
  - by apply fold_entries.
Qed.

Lemma find_link_links bytes base msg ws k name r :
  GroupV1.find_link bytes base msg ws k name = ok r ↔
  ∃ links, group_links bytes base msg ws k = ok links ∧
    match list_find (λ l, ref_name l = name) links with
    | Some (_, l) => ∃ t, GroupV1.to_link_target (ref_target l) = Ok t ∧ r = Some t
    | None => r = None
    end.
Proof.
  unfold GroupV1.find_link. fold (find_visit name). rewrite visit_group_fold.
  split; intros (links & Hl & H); exists links; (split; [done|]); by apply fold_find.
Qed.

End Lookups.

(** ** Arbitrary bytes *)

Section Safety.
Context `{B : Build}.
(** A [usize] of at least 32 bits. *)
Hypothesis Hwide : 2 ^ 32 ≤ USIZE_MAX + 1.

Lemma usize_op_small v : 0 ≤ v < 2 ^ 32 → usize_op v = Ret v.
Proof. intros Hv. apply usize_op_in. lia. Qed.

Lemma resolve_sound {T} base a (k : Z → exec T) Q :
  0 ≤ base → 0 ≤ a → (∀ v, 0 ≤ v → k v ⇝? Q) → try_ (BaseAddress.resolve base a) k ⇝? Q.
Proof.
  intros Hb Ha Hk. unfold BaseAddress.resolve, checked_add. destruct (_ <=? _); cbn [ok_or try_]; [apply Hk; lia|apply sound_fail].
Qed.

(** A range of the file, read and framed. *)
Lemma framed_sound {T} file range (k : FileRegion → exec T) Q :
  Forall byte file → zlen file ≤ USIZE_MAX → 0 ≤ range_start range →
  (∀ bytes, Forall byte bytes → zlen bytes ≤ USIZE_MAX → FileRange.length range = zlen bytes → k (mkRegion range bytes) ⇝? Q) →
  (bytes ←? slice_read_range file range; try_ (FileRegion.new range bytes) k) ⇝? Q.
Proof.
  intros Hb Hu Hs Hk. eapply sound_bind; [by apply slice_read_range_sound|]. intros bytes (? & ? & ?).
  rewrite region_new_ok by done. by apply Hk.
Qed.

Lemma heap_sound file msg ws base :
  Forall byte file → zlen file ≤ USIZE_MAX → 0 ≤ base → 0 ≤ local_heap_address msg →
  GroupV1.read_local_heap (slice_read_range file) msg ws base ⇝? (λ h, 0 ≤ range_start (data_segment_range h)).
Proof.
  intros Hb Hu Hbase Ha. unfold GroupV1.read_local_heap. cbv zeta. set (loc := mkHeapLocator _ _ _).
  assert (Hlen : 0 ≤ LocalHeapLocator.header_len ws).
  { unfold LocalHeapLocator.header_len, LocalHeapLocator.PREFIX_LEN, LocalHeapLocator.RESERVED_LEN.
    change (zlen LocalHeapLocator.SIGNATURE) with 4. destruct (offsets ws), (lengths ws); simpl; lia. }
  destruct (LocalHeapLocator.parse_range loc) as [[range|e]|] eqn:Er; [| apply sound_fail |].
  2:{ assert (Hs : LocalHeapLocator.parse_range loc ⇝? (λ _, True)); [|rewrite Er in Hs; by destruct Hs as (? & ? & _)].
      apply resolve_sound; [done|done|]. intros v Hv. eapply sound_mono; [by apply range_new_sound|done]. }
  assert (Hrs : 0 ≤ range_start range).
  { eapply (sound_eq _ range (λ r, 0 ≤ range_start r)); [|exact Er]. apply resolve_sound; [done|done|]. intros v Hv.
    eapply sound_mono; [by apply range_new_sound|]. intros r (-> & _). done. }
  cbn [and_then]. apply framed_sound; [done..|]. intros bytes Hbb Hbu Hbl. unfold LocalHeapLocator.parse. cbv zeta.
  rewrite Er. cbn [and_then]. rewrite subregion_all by done. cbn [try_ region_bytes].
  apply safe_array; [by apply valid_new|done|]. intros s f1 _ _ Hv1 _. destruct (negb _); [apply sound_fail|].
  apply safe_u8; [done|]. intros v f2 _ Hv2 _. destruct (negb _); [apply sound_fail|].
  apply safe_array; [done|done|]. intros _ f3 _ _ Hv3 _. apply safe_length; [done|]. intros size f4 Hsize Hv4 _.
  apply safe_length; [done|]. intros _ f5 _ Hv5 _. apply safe_decoded; [done|]. intros a f6 Haf _ _.
  destruct a as [a|]; [|apply sound_fail]. apply resolve_sound; [done|unfold address_fits, fits in Haf; lia|]. intros v' Hv'.
  eapply sound_bind; [apply range_new_sound; [done|unfold fits in Hsize; lia]|]. intros r (Hr & _). apply sound_ok. cbn. lia.
Qed.

Definition entry_ok (e : SymbolTableEntry) : Prop :=
  0 ≤ link_name_offset e ∧ 0 ≤ object_header_address e ∧ Forall byte (scratch_pad e) ∧ zlen (scratch_pad e) = SCRATCH_PAD_LEN.

Lemma entries_sound ws n f :
  valid f → SymbolTable.parse_entries ws n f ⇝? (λ '(es, _), Forall entry_ok es ∧ length es = n).
Proof.
  revert f. induction n as [|n IH]; intros f Hv; cbn [SymbolTable.parse_entries]; [by apply sound_ok|].
  apply safe_length; [done|]. intros o f1 Ho Hv1 _. unfold Fields.address. apply safe_offset; [done|]. intros a f2 Ha Hv2 _.
  apply safe_u32; [done|]. intros c f3 _ Hv3 _. apply safe_array; [done|done|]. intros _ f4 _ _ Hv4 _.
  apply safe_array; [done|done|]. intros pad f5 Hp Hpl Hv5 _. eapply sound_bind; [by apply IH|]. intros [es f6] [Hes Hl].
  apply sound_ok. unfold fits in *. split; [constructor; [|done]|cbn [length]; lia]. split_and!; cbn; (done || lia).
Qed.

Lemma node_sound file ws base k a :
  Forall byte file → zlen file ≤ USIZE_MAX → 0 ≤ base → 0 ≤ a →
  GroupV1.read_symbol_table_node (slice_read_range file) ws base k a ⇝? (λ es, Forall entry_ok es).
Proof.
  intros Hb Hu Hbase Ha. unfold GroupV1.read_symbol_table_node. cbv zeta. set (loc := mkNodeLocator _ _ _ _).
  assert (Hs : SymbolTable.node_parse_range loc ⇝? (λ r, 0 ≤ range_start r)).
  { apply resolve_sound; [done|done|]. intros v Hv. eapply sound_mono; [by apply range_new_sound|]. intros r (-> & _). done. }
  destruct Hs as ([range|e] & Er & Hrs); rewrite Er; [|apply sound_fail]. cbn [and_then].
  apply framed_sound; [done..|]. intros bytes Hbb Hbu Hbl.
  eapply (sound_bind _ _ (λ r, 0 ≤ range_start (entries_range r))).
  - unfold SymbolTable.node_parse. rewrite Er. cbn [and_then].
    rewrite subregion_all by done. cbn [try_ region_bytes]. cbv zeta.
    apply safe_array; [by apply valid_new|done|]. intros s f1 _ _ Hv1 _. destruct (negb _); [apply sound_fail|].
    apply safe_u8; [done|]. intros v f2 _ Hv2 _. destruct (negb _); [apply sound_fail|].
    apply safe_u8; [done|]. intros _ f3 _ Hv3 _. apply safe_u16; [done|]. intros n f4 Hn _ _.
    assert (Hfound : (r ←? FileRange.new (FileRange.end_ range) (n * entry_len (node_widths loc));
      ok (mkEntriesRef r (node_widths loc) n)) ⇝? (λ r, 0 ≤ range_start (entries_range r))).
    { pose proof (range_ordered range). unfold fits in Hn. eapply sound_bind.
      - apply range_new_sound; [unfold FileRange.end_; lia|].
        unfold entry_len, ENTRY_FIXED_LEN, ENTRY_RESERVED_LEN, SCRATCH_PAD_LEN.
        pose proof (length_get_cases (lengths (node_widths loc))). pose proof (offset_get_cases (offsets (node_widths loc))). nia.
      - intros r (Hr & _). apply sound_ok. cbn [entries_range]. unfold FileRange.end_ in Hr. lia. }
    destruct (node_k loc); [|done]. destruct (_ <? _); [apply sound_fail|done].
  - intros es Hes. apply framed_sound; [done..|]. intros b2 Hb2 Hu2 Hl2. unfold SymbolTable.entries_parse.
    rewrite subregion_all by done. cbn [try_ region_bytes]. cbv zeta.
    eapply sound_bind; [apply entries_sound; by apply valid_new|]. intros [l f] [Hl _]. by apply sound_ok.
Qed.

Lemma read_entries_sound ws data n pos :
  Forall byte data → zlen data ≤ USIZE_MAX → 0 ≤ pos →
  BTreeV1Node.read_entries ws data n pos
    ⇝? (λ '(ks, cs, p), Forall (λ c, 0 ≤ c) cs ∧ length ks = n ∧ length cs = n ∧
                         p = pos + Z.of_nat n * (LengthWidth.get (lengths ws) + OffsetWidth.get (offsets ws))).
Proof.
  intros Hb Hu. revert pos. pose proof (length_get_cases (lengths ws)). pose proof (offset_get_cases (offsets ws)).
  induction n as [|n IH]; intros pos Hp; cbn [BTreeV1Node.read_entries].
  { apply sound_ok. split_and!; [done|done|done|lia]. }
  rewrite read_length_width_eq by done. eapply sound_bind; [by apply read_word_sound|]. intros key [_ _]. cbv zeta.
  rewrite read_offset_width_eq by (done || lia). eapply sound_bind; [by apply read_word_sound|]. intros c [Hc _].
  eapply sound_bind; [apply IH; lia|]. intros [[ks cs] p] (Hcs & Hks & Hl & ->). apply sound_ok. unfold fits in Hc.
  split_and!; [constructor; [lia|done]|cbn [length]; lia|cbn [length]; lia|]. lia.
Qed.

Lemma optional_offset_sound data pos w :
  Forall byte data → zlen data ≤ USIZE_MAX → 0 ≤ pos → read_optional_offset_width data pos w ⇝? (λ _, True).
Proof.
  intros Hb Hu Hp. unfold read_optional_offset_width. rewrite read_offset_width_eq by done.
  eapply sound_bind; [by apply read_word_sound|]. intros a _. by apply sound_ok.
Qed.

(** A node that is read has as many children as it says, and one key more. *)
Definition node_ok (n : BTreeV1Node) : Prop :=
  zlen (children n) = entries_used n ∧ zlen (keys n) = entries_used n + 1 ∧ Forall (λ c, 0 ≤ c) (children n).

Lemma btree_node_sound data offset ws :
  Forall byte data → zlen data ≤ USIZE_MAX → 0 ≤ offset →
  BTreeV1Node.parse_with_widths data offset ws ⇝? node_ok.
Proof.
  intros Hb Hu Ho. unfold BTreeV1Node.parse_with_widths. cbv zeta.
  pose proof (length_get_cases (lengths ws)). pose proof (offset_get_cases (offsets ws)).
  destruct (_ || _) eqn:E; [apply sound_fail|]. apply orb_false_iff in E as [E E'].
  unfold btree_v1_node_header_size, BTREE_V1_NODE_PREFIX_LEN in *.
  apply within_slice; [done|lia|lia|]. intros s _ _. destruct (negb _); [apply sound_fail|].
  apply within_index; [done|lia|lia|]. intros ty _. apply within_index; [done|lia|lia|]. intros lv _.
  apply within_u16; [done|lia|lia|]. intros eu Heu. unfold fits in Heu.
  eapply sound_bind; [apply optional_offset_sound; (done || lia)|]. intros l _.
  eapply sound_bind; [apply optional_offset_sound; (done || lia)|]. intros r _.
  rewrite usize_op_small by nia. cbn [mbind outcome_bind]. destruct (_ || _) eqn:E2; [apply sound_fail|].
  eapply sound_bind; [apply read_entries_sound; (done || lia)|]. intros [[ks cs] p] (Hcs & Hks & Hl & ->).
  rewrite read_length_width_eq by (done || nia). eapply sound_bind; [by apply read_word_sound|]. intros key _.
  apply sound_ok. unfold node_ok. cbn [children keys entries_used]. rewrite zlen_app. unfold zlen in *. cbn [length].
  split_and!; [lia|lia|done].
Qed.

Lemma collect_nodes_sound data base root ws :
  Forall byte data → zlen data ≤ USIZE_MAX → 0 ≤ base → 0 ≤ root →
  BTreeV1.collect_symbol_table_nodes data base root ws ⇝? (λ ls, Forall (λ a, 0 ≤ a) ls).
Proof.
  intros Hb Hu Hbase Hroot. apply collect_sound; [|done]. intros a Ha. apply resolve_sound; [done|done|]. intros v Hv.
  apply within_to_usize. intros _. eapply sound_mono; [by apply btree_node_sound|]. intros n (_ & _ & ?). done.
Qed.

(** Visiting the links of any bytes returns when [visit] does. *)
Lemma visit_group_sound {A} data base msg ws k (visit : A → LinkRef → exec A) (I : A → Prop) st :
  Forall byte data → zlen data ≤ USIZE_MAX → 0 ≤ base → 0 ≤ local_heap_address msg → 0 ≤ btree_address msg →
  (∀ st l, I st → visit st l ⇝? I) → I st →
  GroupV1.visit_v1_group_links data base msg ws k visit st ⇝? I.
Proof.
  intros Hb Hu Hbase Hheap Htree Hvisit Hst. unfold GroupV1.visit_v1_group_links, GroupV1.visit_links.
  eapply sound_bind; [by apply heap_sound|]. intros heap Hh. cbv zeta. apply framed_sound; [done..|]. intros bytes _ Hbu Hbl.
  unfold LocalHeap.data_segment. rewrite subregion_all by done. cbn [result_bind try_ region_bytes].
  eapply sound_bind; [by apply collect_nodes_sound|]. intros addresses Hadr. cbn beta in Hadr.
  revert st Hst. induction Hadr as [|a addresses Ha Hadr IH]; intros st Hst; cbn [GroupV1.visit_nodes]; [by apply sound_ok|].
  eapply sound_bind; [by apply node_sound|]. intros es _. eapply (sound_bind _ _ I); [|by apply IH].
  revert st Hst. induction es as [|e es IHes]; intros st Hst; cbn [GroupV1.visit_entries]; [by apply sound_ok|].
  destruct (GroupV1.link_parse bytes e) as [l|]; cbn [try_]; [|apply sound_fail].
  eapply sound_bind; [by apply Hvisit|]. by apply IHes.
Qed.

Lemma resolve_entries_sound data base msg ws k :
  Forall byte data → zlen data ≤ USIZE_MAX → 0 ≤ base → 0 ≤ local_heap_address msg → 0 ≤ btree_address msg →
  GroupV1.resolve_v1_group_entries data base msg ws k ⇝? (λ _, True).
Proof.
  intros. apply visit_group_sound; [done..| |done]. intros st l _.
  destruct (GroupV1.into_group_entry l); cbn [try_]; [by apply sound_ok|apply sound_fail].
Qed.

Lemma find_link_sound data base msg ws k name :
  Forall byte data → zlen data ≤ USIZE_MAX → 0 ≤ base → 0 ≤ local_heap_address msg → 0 ≤ btree_address msg →
  GroupV1.find_link data base msg ws k name ⇝? (λ _, True).
Proof.
  intros. apply visit_group_sound; [done..| |done]. intros st l _. destruct (_ && _); [|by apply sound_ok].
  destruct (GroupV1.to_link_target _); cbn [try_]; [by apply sound_ok|apply sound_fail].
Qed.

End Safety.

(** ** Nodes through a source *)

Section Sources.
Context `{B : Build}.
Hypothesis Hwide : 2 ^ 32 ≤ USIZE_MAX + 1.

Lemma get_range_local (data s : list Z) a b c d :
  get_range data a b = Some s → 0 ≤ c ≤ d → d ≤ zlen s → get_range data (a + c) (a + d) = get_range s c d.
Proof.
  intros (p & r & -> & <- & _)%get_range_split Hc Hd.
  destruct (get_range s c d) as [t|] eqn:E; [|apply get_range_None in E; lia].
  apply get_range_split in E as (p' & r' & -> & Hp' & Hz).
  rewrite <- !app_assoc, app_assoc. apply get_range_app; rewrite zlen_app; lia.
Qed.

Lemma read_word_local (data s : list Z) a b i n :
  get_range data a b = Some s → 0 ≤ i → 0 ≤ n → i + n ≤ zlen s → read_word data (a + i) n = read_word s i n.
Proof.
  intros Hs Hi Hn Hl. unfold read_word. rewrite <- Z.add_assoc, (get_range_local _ _ _ _ _ _ Hs) by lia.
  destruct (get_range s i (i + n)) eqn:E; [done|]. apply get_range_None in E. lia.
Qed.

Lemma read_entries_pos ws data n pos ks cs p :
  BTreeV1Node.read_entries ws data n pos = ok (ks, cs, p) →
  p = pos + Z.of_nat n * (LengthWidth.get (lengths ws) + OffsetWidth.get (offsets ws)).
Proof.
  revert pos ks cs. induction n as [|n IH]; intros pos ks cs; cbn [BTreeV1Node.read_entries]; [intros [= _ _ <-]; lia|].
  intros (key & _ & (c & _ & ([[ks' cs'] p'] & Hr & [= _ _ <-])%and_then_ok_inv)%and_then_ok_inv)%and_then_ok_inv.
  apply IH in Hr. lia.
Qed.

Lemma read_entries_local ws data s a b n i :
  get_range data a b = Some s → zlen data ≤ USIZE_MAX → 0 ≤ i →
  i + Z.of_nat n * (LengthWidth.get (lengths ws) + OffsetWidth.get (offsets ws)) ≤ zlen s →
  BTreeV1Node.read_entries ws data n (a + i)
  = ('(ks, cs, p) ←? BTreeV1Node.read_entries ws s n i; ok (ks, cs, a + p)).
Proof.
  intros Hs Hu. pose proof Hs as (Hab & Hbl & _)%get_range_Some. pose proof (get_range_zlen _ _ _ _ Hs) as Hz.
  pose proof (length_get_cases (lengths ws)). pose proof (offset_get_cases (offsets ws)).
  revert i. induction n as [|n IH]; intros i Hi Hl; cbn [BTreeV1Node.read_entries]; [done|].
  rewrite !read_length_width_eq by lia. rewrite (read_word_local _ s a b i) by (done || lia).
  destruct (read_word s i _) as [[key|e]|]; [|done..]. cbn [and_then]. cbv zeta.
  rewrite <- Z.add_assoc. rewrite !read_offset_width_eq by lia. rewrite (read_word_local _ s a b) by (done || lia).
  destruct (read_word s (i + _) _) as [[c|e]|]; [|done..]. cbn [and_then].
  rewrite <- Z.add_assoc, IH by lia. by destruct (BTreeV1Node.read_entries ws s n _) as [[[[ks cs] q]|e]|].
Qed.

(** The length of a node, from its number of entries. *)
Definition stored_len (ws : FormatWidths) (eu : Z) : Z :=
  btree_v1_node_header_size (OffsetWidth.get (offsets ws))
  + eu * (LengthWidth.get (lengths ws) + OffsetWidth.get (offsets ws)) + LengthWidth.get (lengths ws).

Lemma optional_local data s a b i w :
  get_range data a b = Some s → zlen data ≤ USIZE_MAX → 0 ≤ i → i + OffsetWidth.get w ≤ zlen s →
  read_optional_offset_width data (a + i) w = read_optional_offset_width s i w.
Proof.
  intros Hs Hu Hi Hl. pose proof Hs as (? & ? & _)%get_range_Some. pose proof (get_range_zlen _ _ _ _ Hs).
  pose proof (offset_get_cases w). unfold read_optional_offset_width.
  rewrite !read_offset_width_eq by lia. by rewrite (read_word_local _ s a b) by (done || lia).
Qed.

(** A node lies in its stored bytes: they are parsed where they lie and on their own alike. *)
Lemma btree_node_local data a ws s eu :
  zlen data ≤ USIZE_MAX → 0 ≤ eu < 2 ^ 16 → u16_at s 6 = Ret eu →
  get_range data a (a + stored_len ws eu) = Some s →
  BTreeV1Node.parse_with_widths data a ws = BTreeV1Node.parse_with_widths s 0 ws.
Proof.
  intros Hu Heu He Hs. pose proof Hs as (Ha & Hl & _)%get_range_Some. pose proof (get_range_zlen _ _ _ _ Hs) as Hz.
  pose proof (length_get_cases (lengths ws)). pose proof (offset_get_cases (offsets ws)).
  unfold stored_len, btree_v1_node_header_size, BTREE_V1_NODE_PREFIX_LEN in *.
  unfold BTreeV1Node.parse_with_widths, btree_v1_node_header_size, BTREE_V1_NODE_PREFIX_LEN. cbv zeta.
  set (os := OffsetWidth.get (offsets ws)) in *. set (ls := LengthWidth.get (lengths ws)) in *.
  assert (Hneed : 0 ≤ eu * (ls + os)) by nia.
  destruct (_ || _) eqn:E1; [lia|]. clear E1. destruct (_ || _) eqn:E1; [lia|]. clear E1.
  assert (Hsl : slice data a (a + 4) = slice s (0 : Z) (0 + 4)).
  { unfold slice. pose proof (get_range_local _ _ _ _ 0 4 Hs ltac:(lia) ltac:(lia)) as Hg. rewrite Z.add_0_r in Hg. by rewrite Hg. }
  rewrite Hsl. destruct (slice s 0 _) as [sig|]; [|done]. cbn [mbind outcome_bind]. destruct (negb _); [done|].
  rewrite <- !(index_in_range data _ _ s _ Hs) by lia. unfold u16_at in *. rewrite <- (index_bytes_in_range data _ _ s _ _ Hs) by lia.
  rewrite !Z.add_0_l. destruct (index s 4) as [ty|]; [|done]. destruct (index s 5) as [lv|]; [|done]. rewrite He. cbn [mbind outcome_bind].
  rewrite (optional_local _ s _ _ 8 _ Hs) by lia. destruct (read_optional_offset_width s 8 _) as [[l|e]|]; [|done..]. cbn [and_then].
  rewrite <- (Z.add_assoc a 8). rewrite (optional_local _ s _ _ _ _ Hs) by lia.
  destruct (read_optional_offset_width s _ _) as [[r|e]|]; [|done..]. cbn [and_then].
  rewrite usize_op_small by (done || nia). cbn [mbind outcome_bind].
  destruct (_ || _) eqn:E1; [lia|]. clear E1. destruct (_ || _) eqn:E1; [lia|]. clear E1.
  rewrite <- (Z.add_assoc a (8 + os)). rewrite (read_entries_local _ _ s _ _ _ _ Hs) by (fold ls os; lia).
  destruct (BTreeV1Node.read_entries ws s _ _) as [[[[ks cs] q]|e]|] eqn:Ere; [|done..]. cbn [and_then].
  apply read_entries_pos in Ere. fold ls os in Ere. rewrite Z2Nat.id in Ere by lia.
  rewrite and_then_ok. rewrite !read_length_width_eq by (lia || done). by rewrite (read_word_local _ s _ _ _ _ Hs) by lia.
Qed.

Lemma u16_in_range data a b s i :
  get_range data a b = Some s → 0 ≤ i → i + 2 ≤ zlen s → u16_at s i = u16_at data (a + i).
Proof. intros Hs Hi Hl. unfold u16_at. by rewrite (index_bytes_in_range _ _ _ _ _ _ Hs) by lia. Qed.

(** The parse of a node needs its stored bytes. *)
Lemma btree_node_needs data a ws n :
  zlen data ≤ USIZE_MAX → 0 ≤ a → Forall byte data → BTreeV1Node.parse_with_widths data a ws = ok n →
  ∃ eu, u16_at data (a + 6) = Ret eu ∧ 0 ≤ eu < 2 ^ 16 ∧ a + stored_len ws eu ≤ zlen data ∧
    slice data a (a + 4) = Ret BTREE_V1_SIGNATURE.
Proof.
  intros Hu Ha Hb. pose proof (length_get_cases (lengths ws)). pose proof (offset_get_cases (offsets ws)).
  unfold BTreeV1Node.parse_with_widths, stored_len, btree_v1_node_header_size, BTREE_V1_NODE_PREFIX_LEN. cbv zeta.
  destruct (_ || _) eqn:E; [done|]. apply orb_false_iff in E as [E1 E2].
  destruct (slice data a (a + 4)) as [sig|]; [|done]. cbn [mbind outcome_bind]. case_bool_decide as Hsig; [|done]. cbn [negb].
  destruct (index data (a + 4)) as [ty|]; [|done]. destruct (index data (a + 5)) as [lv|]; [|done]. cbn [mbind outcome_bind].
  destruct (u16_at_within data (a + 6) Hb ltac:(lia) ltac:(lia)) as (eu & He & Hf). unfold fits in Hf. rewrite He. cbn [mbind outcome_bind].
  intros (l & _ & (r & _ & H')%and_then_ok_inv)%and_then_ok_inv. exists eu. rewrite usize_op_small in H' by (done || nia).
  cbn [mbind outcome_bind] in H'. destruct (_ || _) eqn:E; [done|]. apply orb_false_iff in E as [E3 E4].
  split_and!; [done|lia|lia|lia|by rewrite Hsig].
Qed.

Lemma btree_node_source data a ws :
  zlen data ≤ USIZE_MAX → 0 ≤ a → Forall byte data →
  agree eq (BTreeV1Node.parse_with_widths data a ws)
    (BTreeV1Node.parse_from_source_with_widths (slice_metadata data) a ws).
Proof.
  intros Hu Ha Hb. pose proof (length_get_cases (lengths ws)) as Hlw. pose proof (offset_get_cases (offsets ws)) as How.
  unfold BTreeV1Node.parse_from_source_with_widths. cbv zeta. cbn [read_metadata slice_metadata].
  set (hs := btree_v1_node_header_size (OffsetWidth.get (offsets ws))).
  assert (Hhs : 12 ≤ hs ≤ 24) by (unfold hs, btree_v1_node_header_size, BTREE_V1_NODE_PREFIX_LEN; lia).
  destruct (get_range data a (a + hs)) as [h|] eqn:Eh.
  2:{ apply agree_none.
      - intros n Hn. apply btree_node_needs in Hn as (eu & _ & Heu & Hl & _); [|done..]. apply get_range_None in Eh.
        unfold stored_len in Hl. fold hs in Hl. nia.
      - intros n (r & Hr & _)%and_then_ok_inv. injection Hr as Hr. apply region_ok_iff in Hr; [|lia..]. congruence. }
  rewrite (proj2 (region_ok_iff data a hs h Hu Ha ltac:(lia)) Eh). cbn [and_then]. pose proof (get_range_zlen _ _ _ _ Eh) as Hz.
  assert (Hsl : slice h 0 4 = slice data a (a + 4)).
  { unfold slice. pose proof (get_range_local _ _ _ _ 0 4 Eh ltac:(lia) ltac:(lia)) as Hg. rewrite Z.add_0_r in Hg. by rewrite Hg. }
  rewrite Hsl, (u16_in_range _ _ _ _ _ Eh) by lia.
  destruct (u16_at_within data (a + 6) Hb ltac:(lia)) as (eu & He & Hf); [apply get_range_Some in Eh; lia|]. unfold fits in Hf.
  assert (Hno : (slice data a (a + 4) ≠ Ret BTREE_V1_SIGNATURE ∨ zlen data < a + stored_len ws eu) →
    ∀ n, BTreeV1Node.parse_with_widths data a ws ≠ ok n).
  { intros Hor n Hn. apply btree_node_needs in Hn as (eu' & He' & _ & Hl & Hsig); [|done..]. rewrite He in He'. injection He' as <-.
    destruct Hor; [done|lia]. }
  destruct (slice data a (a + 4)) as [sig|]; [|apply agree_none; [by apply Hno; left|done]]. cbn [mbind outcome_bind].
  case_bool_decide as Hsig; cbn [negb]; [|apply agree_none; [apply Hno; left; congruence|done]].
  rewrite He. cbn [mbind outcome_bind]. rewrite usize_op_small by (done || nia). cbn [mbind outcome_bind].
  change (hs + eu * (LengthWidth.get (lengths ws) + OffsetWidth.get (offsets ws)) + LengthWidth.get (lengths ws))
    with (stored_len ws eu). destruct (get_range data a (a + stored_len ws eu)) as [s|] eqn:Es.
  - assert (Hl0 : 8 ≤ stored_len ws eu) by (unfold stored_len; fold hs; nia).
    rewrite (proj2 (region_ok_iff data a (stored_len ws eu) s Hu Ha ltac:(lia)) Es). cbn [and_then].
    rewrite (btree_node_local data a ws s eu); [apply agree_refl|done|lia| |done].
    pose proof (get_range_zlen _ _ _ _ Es). by rewrite (u16_in_range _ _ _ _ _ Es) by lia.
  - apply get_range_None in Es. assert (Hl0 : 0 ≤ stored_len ws eu) by (unfold stored_len; fold hs; nia).
    apply agree_none; [apply Hno; right; lia|]. intros n. destruct (region data a _) as [s|] eqn:Er; [|done].
    apply region_ok_iff in Er; [|lia..]. apply get_range_Some in Er. lia.
Qed.

(** The walk reads a node at a resolved address, through either. *)
Lemma resident_reads data base ws a n :
  zlen data ≤ USIZE_MAX → Forall byte data →
  try_ (BaseAddress.resolve base a) (λ v, try_ (to_usize v) (λ o, BTreeV1Node.parse_with_widths data o ws)) = ok n ↔
  BTreeV1Node.parse_from_source_with_widths (BTreeV1.stored_metadata base (slice_metadata data)) a ws = ok n.
Proof.
  intros Hu Hb. destruct (BaseAddress.resolve base a) as [v|e] eqn:Ev; cbn [try_].
  2:{ unfold BTreeV1Node.parse_from_source_with_widths, BTreeV1.stored_metadata. cbn [read_metadata]. by rewrite Ev. }
  transitivity (BTreeV1Node.parse_from_source_with_widths (slice_metadata data) v ws = ok n).
  2:{ unfold BTreeV1Node.parse_from_source_with_widths, BTreeV1.stored_metadata. cbn [read_metadata]. by rewrite Ev. }
  pose proof (length_get_cases (lengths ws)). pose proof (offset_get_cases (offsets ws)).
  assert (Hsmall : ∀ m, BTreeV1Node.parse_from_source_with_widths (slice_metadata data) v ws = ok m → 0 ≤ v ≤ zlen data).
  { intros m. unfold BTreeV1Node.parse_from_source_with_widths. cbv zeta. cbn [read_metadata slice_metadata].
    destruct (region data v _) as [h|] eqn:Er; [|done]. intros _. revert Er. unfold region, checked_add.
    destruct (_ <=? _); [|done]. cbn [ok_or result_bind]. destruct (_ <? _); [done|]. unfold to_usize.
    destruct (v <=? USIZE_MAX); [|done]. cbn [result_bind]. destruct (_ <=? USIZE_MAX); [|done]. cbn [result_bind].
    destruct (get_range data v _) eqn:Eg; [|done]. intros _. apply get_range_Some in Eg. lia. }
  destruct (decide (0 ≤ v)) as [Hv|Hv].
  - destruct (btree_node_source data v ws Hu Hv Hb) as [H1 H2]. unfold to_usize. destruct (v <=? USIZE_MAX) eqn:Ele; cbn [try_].
    + split; intros Hn; [apply H1 in Hn as (? & ? & <-)|apply H2 in Hn as (? & ? & <-)]; done.
    + split; [done|]. intros Hn. apply Hsmall in Hn. lia.
  - split; [|intros Hn; apply Hsmall in Hn; lia]. pose proof usize_bounds. unfold to_usize.
    replace (v <=? USIZE_MAX) with true by lia. cbn [try_]. unfold BTreeV1Node.parse_with_widths. cbv zeta.
    destruct (_ || _); [done|]. unfold slice. destruct (get_range data v (v + 4)) eqn:Eg; [|done]. apply get_range_Some in Eg. lia.
Qed.

Lemma describes_ext read read' level t :
  (∀ a n, read a = ok n ↔ read' a = ok n) → describes read level t → describes read' level t.
Proof.
  intros He. revert level t. fix IH 2. intros level [a s|a l ts]; cbn [describes].
  - intros (n & Hn & Hp). exists n. by rewrite <- He.
  - intros [(n & Hn & Hp) Hall]. split; [exists n; by rewrite <- He|]. clear Hn Hp. induction ts as [|t ts IHts]; [done|].
    destruct Hall as [Ht Hall]. split; [by apply IH|by apply IHts].
Qed.

Lemma collect_source data base root ws ls :
  zlen data ≤ USIZE_MAX → Forall byte data →
  BTreeV1.collect_symbol_table_nodes data base root ws = ok ls ↔
  BTreeV1.collect_symbol_table_nodes_from_source (BTreeV1.stored_metadata base (slice_metadata data)) root ws = ok ls.
Proof.
  intros Hu Hb. unfold BTreeV1.collect_symbol_table_nodes, BTreeV1.collect_symbol_table_nodes_from_source,
    BTreeV1.collect_group_nodes, V1TreeVisitState.new. rewrite !collect_nodes_spec by (unfold V1TreeVisitState.DEFAULT_WORK_LIMIT, U64_MAX; lia).
  pose proof (λ a n, resident_reads data base ws a n Hu Hb) as He.
  split; intros (t & Ha & Hd & H); exists t; (split; [done|]); (split; [|done]); (eapply describes_ext; [|exact Hd]); intros a n; [apply He|symmetry; apply He].
Qed.

End Sources.

(** ** Chunk nodes *)

Section ChunkNodes.
Context `{B : Build} (ndims : Z).
(** Keys of [ndims] offsets, with an address behind them, fit a [usize]. *)
Hypothesis Hdims : 0 ≤ ndims ∧ 8 * ndims + 16 ≤ USIZE_MAX.


(** The sizes of the parts of a node. *)
Record layout_ok (w : OffsetWidth) (l : ChunkNodeLayout) : Prop := {
  layout_key : key_size l = 8 * ndims + 8;
  layout_width : offset_width l = w;
  layout_used : 0 ≤ layout_entries_used l < 2 ^ 16;
  layout_len : node_len l = 8 + 2 * OffsetWidth.get w + layout_entries_used l * (key_size l + OffsetWidth.get w) + key_size l;
  layout_max : node_len l ≤ USIZE_MAX;
}.

Lemma layout_sound prefix w :
  Forall byte prefix → zlen prefix = 8 → ChunkNodeLayout.parse prefix w ndims ⇝? layout_ok w.
Proof.
  intros Hb Hz. pose proof (offset_get_cases w). destruct Hdims as [Hd Hdm].
  destruct prefix as [|s0 [|s1 [|s2 [|s3 [|ty [|lv [|u0 [|u1 [|]]]]]]]]]; try (unfold zlen in Hz; cbn in Hz; lia).
  unfold ChunkNodeLayout.parse. destruct (negb _); [apply sound_fail|]. destruct (negb _); [apply sound_fail|].
  rewrite !Forall_cons in Hb. destruct Hb as (_ & _ & _ & _ & _ & _ & Hu0 & Hu1 & _). pose proof (fits_pair _ _ Hu0 Hu1) as Hf.
  unfold fits in Hf. set (eu := le_value [u0; u1]) in *. cbv zeta.
  unfold ChunkNodeLayout.chunk_key_size, usize_checked_mul, usize_checked_add. replace (ndims * 8 <=? USIZE_MAX) with true by lia.
  cbn [mbind option_bind]. replace (ndims * 8 + (4 + 4) <=? USIZE_MAX) with true by lia. cbn [ok_or try_].
  unfold ChunkNodeLayout.btree_v1_chunk_node_len, usize_checked_mul, usize_checked_add, btree_v1_node_header_size, BTREE_V1_NODE_PREFIX_LEN.
  rewrite usize_op_in by lia. cbn [mbind outcome_bind]. set (el := ndims * 8 + (4 + 4) + OffsetWidth.get w).
  destruct (eu * el <=? USIZE_MAX) eqn:E1; [|apply sound_fail]. cbn [mbind option_bind].
  destruct (eu * el + (ndims * 8 + (4 + 4)) <=? USIZE_MAX) eqn:E2; [|apply sound_fail]. cbn [mbind option_bind].
  destruct (eu * el + _ + _ <=? USIZE_MAX) eqn:E3; [|apply sound_fail]. cbn [ok_or try_]. rewrite and_then_ok. apply sound_ok.
  split; cbn [key_size offset_width layout_entries_used node_len]; [lia|done|lia|unfold el; ring|lia].
Qed.

Definition entries_len (l : ChunkNodeLayout) : Z :=
  layout_entries_used l * (key_size l + OffsetWidth.get (offset_width l)).

Lemma layout_entries w l :
  layout_ok w l →
  ChunkNodeLayout.body_len l = Ret (node_len l - 8) ∧
  ChunkNodeLayout.entries l = Ret (2 * OffsetWidth.get w, 2 * OffsetWidth.get w + entries_len l) ∧
  ChunkNodeLayout.entry_len l = Ret (key_size l + OffsetWidth.get w).
Proof.
  intros [Hk Hw Hu Hl Hm]. pose proof (offset_get_cases w). destruct Hdims as [Hd Hdm].
  unfold ChunkNodeLayout.entries, ChunkNodeLayout.entry_len, ChunkNodeLayout.body_len, BTREE_V1_NODE_PREFIX_LEN, entries_len.
  rewrite Hw. assert (0 ≤ layout_entries_used l * (key_size l + OffsetWidth.get w)) by nia.
  rewrite usize_op_in by nia. split; [done|]. cbn [mbind outcome_bind]. rewrite !usize_op_in by nia. cbn [mbind outcome_bind].
  split; [|done]. f_equal. f_equal. lia.
Qed.

Lemma as_words_length fuel (l : list Z) n :
  length l = (8 * n)%nat → (n ≤ fuel)%nat → length (ChunkNodeLayout.as_words fuel l) = n.
Proof.
  revert l n. induction fuel as [|fuel IH]; intros l n Hl Hf; [cbn; lia|]. cbn [ChunkNodeLayout.as_words].
  destruct (Nat.leb 8 (length l)) eqn:E; [apply Nat.leb_le in E|apply Nat.leb_gt in E; cbn; lia].
  destruct n as [|n]; [lia|]. cbn [length]. f_equal. apply IH; [rewrite length_drop; lia|lia].
Qed.

(** An entry of the right length splits into a key of [ndims] offsets and an address. *)
Lemma split_entry_ok w l entry :
  layout_ok w l → zlen entry = key_size l + OffsetWidth.get w → zlen entry ≤ USIZE_MAX →
  ∃ key a, ChunkNodeLayout.split_entry l entry = ok (key, a) ∧ zlen (chunk_offsets key) = ndims.
Proof.
  intros [Hk Hw Hu Hl Hm] Hz Hzu. pose proof (offset_get_cases w). destruct Hdims as [Hd Hdm]. unfold ChunkNodeLayout.split_entry.
  destruct (get_range entry 0 (key_size l)) as [key|] eqn:E1; [|apply get_range_None in E1; lia].
  unfold get_from. destruct (get_range entry (key_size l) (zlen entry)) as [child|] eqn:E2; [|apply get_range_None in E2; lia].
  pose proof (get_range_zlen _ _ _ _ E1). pose proof (get_range_zlen _ _ _ _ E2).
  destruct (get_range key 0 4) as [cs|] eqn:E3; [|apply get_range_None in E3; lia].
  destruct (get_range key 4 8) as [fm|] eqn:E4; [|apply get_range_None in E4; lia].
  destruct (get_range key 8 (zlen key)) as [os|] eqn:E5; [|apply get_range_None in E5; lia].
  pose proof (get_range_zlen _ _ _ _ E5) as Hzo. rewrite Hw, read_offset_width_eq by lia. unfold read_word.
  destruct (get_range child 0 _) as [ab|] eqn:E6; [|apply get_range_None in E6; lia]. rewrite and_then_ok.
  eexists _, _. split; [done|]. cbn [chunk_offsets]. unfold zlen. rewrite (as_words_length _ _ (Z.to_nat ndims)); unfold zlen in *; lia.
Qed.

Lemma split_entries_ok w l n fuel bytes :
  layout_ok w l → zlen bytes = Z.of_nat n * (key_size l + OffsetWidth.get w) → zlen bytes ≤ USIZE_MAX → (n ≤ fuel)%nat →
  ∃ es, BTreeV1ChunkNode.split_entries l (key_size l + OffsetWidth.get w) fuel bytes = ok es ∧ length es = n ∧
    Forall (λ e, zlen (chunk_offsets (fst e)) = ndims) es.
Proof.
  intros Hl. pose proof (offset_get_cases w). pose proof (layout_key _ _ Hl) as Hk. destruct Hdims as [Hd Hdm].
  set (el := key_size l + OffsetWidth.get w). assert (Hel : 10 ≤ el) by (unfold el; lia). revert fuel bytes.
  induction n as [|n IH]; intros fuel bytes Hz Hzu Hf; (destruct fuel as [|fuel]; [try lia; by exists []|]);
    cbn [BTreeV1ChunkNode.split_entries].
  - destruct (get_range bytes 0 el) eqn:E; [apply get_range_Some in E; lia|]. by exists [].
  - destruct (get_range bytes 0 el) as [entry|] eqn:E1; [|apply get_range_None in E1; nia].
    unfold get_from. destruct (get_range bytes el (zlen bytes)) as [rest|] eqn:E2; [|apply get_range_None in E2; nia].
    pose proof (get_range_zlen _ _ _ _ E1). pose proof (get_range_zlen _ _ _ _ E2).
    destruct (split_entry_ok w l entry Hl) as (key & a & -> & Ho); [fold el; lia|nia|]. rewrite and_then_ok.
    destruct (IH fuel rest) as (es & -> & He & Hes); [lia|lia|lia|]. rewrite and_then_ok.
    exists ((key, a) :: es). split_and!; [done|cbn [length]; lia|by constructor].
Qed.

(** What both readers do with a node at [a]: the prefix gives its layout, and its length must
    lie in the file. *)
Definition chunk_at (data : list Z) (w : OffsetWidth) (a : Z) : exec BTreeV1ChunkNode :=
  with_range data a 8 (λ prefix,
    layout ←? ChunkNodeLayout.parse prefix w ndims;
    with_range data a (node_len layout) (λ node,
      entries ← slice node (8 + 2 * OffsetWidth.get w) (8 + 2 * OffsetWidth.get w + entries_len layout);
      ok (mkChunkNode layout entries))).

Lemma layout_len_entries w l :
  layout_ok w l →
  0 ≤ entries_len l ∧ node_len l = 8 + 2 * OffsetWidth.get w + entries_len l + key_size l ∧ 8 ≤ key_size l.
Proof.
  intros [Hk Hw Hu Hl Hm]. pose proof (offset_get_cases w). destruct Hdims as [Hd Hdm]. unfold entries_len. rewrite Hw. split_and!; nia.
Qed.

Lemma chunk_parse_at data w a :
  Forall byte data → zlen data ≤ USIZE_MAX → 0 ≤ a →
  agree eq (chunk_at data w a) (BTreeV1ChunkNode.parse_with_offset_width data a w ndims).
Proof.
  intros Hb Hu Ha. pose proof (offset_get_cases w). unfold chunk_at, with_range, BTreeV1ChunkNode.parse_with_offset_width, get_from. cbv zeta.
  unfold BTREE_V1_NODE_PREFIX_LEN. destruct (get_range data a (zlen data)) as [rest|] eqn:Er; cbn [default id].
  2:{ apply get_range_None in Er. destruct (get_range data a (a + 8)) as [p|] eqn:Ep; [apply get_range_Some in Ep; lia|].
      apply agree_none; [done|]. by intros c. }
  pose proof (get_range_zlen _ _ _ _ Er) as Hz. pose proof Er as (? & _ & _)%get_range_Some.
  destruct (decide (8 ≤ zlen rest)) as [H8|H8].
  2:{ destruct (get_range data a (a + 8)) as [p|] eqn:Ep; [apply get_range_Some in Ep; lia|].
      destruct (get_range rest 0 8) as [p|] eqn:Ep'; [apply get_range_Some in Ep'; lia|].
      apply agree_none; [done|]. by intros c. }
  pose proof (get_range_local _ _ _ _ 0 8 Er ltac:(lia) H8) as Hg. rewrite Z.add_0_r in Hg. rewrite Hg.
  destruct (get_range rest 0 8) as [prefix|] eqn:Ep; [|apply get_range_None in Ep; lia]. cbn [ok_or try_].
  pose proof (get_range_Forall _ _ _ _ _ Hb Hg) as Hpb. pose proof (get_range_zlen _ _ _ _ Ep) as Hpz.
  apply agree_same. intros l Hl. apply (sound_eq _ _ _ (layout_sound prefix w Hpb ltac:(lia))) in Hl.
  destruct (layout_entries w l Hl) as (_ & -> & _). destruct (layout_len_entries w l Hl) as (He0 & Hnl & Hk).
  destruct (get_range rest 8 (zlen rest)) as [body|] eqn:Eb; [|apply get_range_None in Eb; lia].
  pose proof (get_range_zlen _ _ _ _ Eb) as Hbz. cbn [mbind outcome_bind].
  destruct (get_range data a (a + node_len l)) as [node|] eqn:En.
  - pose proof (get_range_zlen _ _ _ _ En). pose proof En as (_ & ? & _)%get_range_Some. unfold slice.
    destruct (node_len l <=? zlen rest) eqn:E; [|lia].
    rewrite <- (get_range_local _ _ _ _ _ _ En), <- (get_range_local _ _ _ _ _ _ Eb) by lia.
    rewrite <- (get_range_local _ _ _ _ _ _ Er) by lia. rewrite !Z.add_assoc.
    destruct (get_range data (a + 8 + _) _) eqn:Ef; [by apply agree_ok|]. apply get_range_None in Ef. lia.
  - apply get_range_None in En. destruct (node_len l <=? zlen rest) eqn:E; [lia|].
    apply agree_none; [done|]. intros c. by destruct (get_range body _ _).
Qed.

Lemma chunk_source_at data w a :
  Forall byte data → zlen data ≤ USIZE_MAX → 0 ≤ a →
  agree eq (chunk_at data w a)
    (bytes ←? BTreeV1ChunkNode.read_from_source_with_offset_width (slice_metadata data) a w ndims;
     node ← BTreeV1ChunkNode.node bytes; ok node).
Proof.
  intros Hb Hu Ha. pose proof (offset_get_cases w). pose proof usize_bounds.
  unfold chunk_at, BTreeV1ChunkNode.read_from_source_with_offset_width, with_range, BTREE_V1_NODE_PREFIX_LEN.
  cbn [read_metadata slice_metadata]. destruct (get_range data a (a + 8)) as [prefix|] eqn:Ep.
  2:{ apply agree_none; [done|]. intros c. destruct (region data a 8) eqn:Er; [|done]. apply region_ok_iff in Er; [|lia..]. congruence. }
  rewrite (proj2 (region_ok_iff data a 8 prefix Hu Ha ltac:(lia)) Ep). cbn [and_then].
  pose proof (get_range_Forall _ _ _ _ _ Hb Ep) as Hpb. pose proof (get_range_zlen _ _ _ _ Ep) as Hpz.
  pose proof (get_range_prefix prefix []) as Hg. rewrite app_nil_r in Hg. replace (zlen prefix) with 8 in Hg by lia. rewrite Hg. cbn [ok_or try_].
  destruct (ChunkNodeLayout.parse prefix w ndims) as [[l|e]|] eqn:El; [|by apply agree_none..]. cbn [and_then].
  apply (sound_eq _ _ _ (layout_sound prefix w Hpb ltac:(lia))) in El. destruct (layout_entries w l El) as (-> & -> & _).
  destruct (layout_len_entries w l El) as (He0 & Hnl & Hk). unfold checked_add. cbn [mbind outcome_bind].
  pose proof Ep as (_ & ? & _)%get_range_Some.
  destruct (_ <=? U64_MAX) eqn:E; [|lia]. cbn [ok_or try_]. clear E.
  destruct (get_range data a (a + node_len l)) as [node|] eqn:En.
  - pose proof (get_range_zlen _ _ _ _ En) as Hzn. pose proof (get_range_local _ _ _ _ 8 (node_len l) En ltac:(lia) ltac:(lia)) as Hbody.
    destruct (get_range node 8 (node_len l)) as [body|] eqn:Eb; [|apply get_range_None in Eb; lia].
    pose proof (get_range_zlen _ _ _ _ Eb) as Hzb.
    replace (a + node_len l) with (a + 8 + (node_len l - 8)) in Hbody by lia.
    rewrite (proj2 (region_ok_iff data (a + 8) (node_len l - 8) body Hu ltac:(lia) ltac:(lia)) Hbody). cbn [and_then].
    pose proof (get_range_prefix body []) as Hg'. rewrite app_nil_r, Hzb in Hg'. rewrite Hg'. cbn [mbind option_bind].
    pose proof (get_range_local _ _ _ _ (2 * OffsetWidth.get w) (2 * OffsetWidth.get w + entries_len l) Eb ltac:(lia) ltac:(lia)) as Hent.
    rewrite !Z.add_assoc in Hent. unfold slice at 1. rewrite Hent.
    destruct (get_range body (2 * OffsetWidth.get w) (2 * OffsetWidth.get w + entries_len l)) as [es|] eqn:Ees;
      [|apply get_range_None in Ees; lia].
    unfold BTreeV1ChunkNode.node, slice. cbn [ok and_then bytes_body bytes_entries bytes_layout fst snd]. rewrite Ees. by apply agree_ok.
  - apply get_range_None in En. apply agree_none; [done|]. intros c. destruct (region data (a + 8) _) eqn:Er; [|done].
    apply region_ok_iff in Er; [|lia..]. apply get_range_Some in Er. lia.
Qed.

Lemma chunk_parse_sound data w a :
  Forall byte data → zlen data ≤ USIZE_MAX → 0 ≤ a →
  BTreeV1ChunkNode.parse_with_offset_width data a w ndims
    ⇝? (λ node, layout_ok w (chunk_layout node) ∧ zlen (chunk_entries node) = entries_len (chunk_layout node) ∧
                 zlen (chunk_entries node) ≤ USIZE_MAX).
Proof.
  intros Hb Hu Ha. unfold BTreeV1ChunkNode.parse_with_offset_width. cbv zeta.
  assert (Hrest : Forall byte (default [] (get_from data a))).
  { unfold get_from. destruct (get_range data a _) eqn:E; [by apply (get_range_Forall _ _ _ _ _ Hb E)|done]. }
  set (rest := default [] _) in *. destruct (get_range rest 0 BTREE_V1_NODE_PREFIX_LEN) as [prefix|] eqn:Ep; [|apply sound_fail].
  cbn [ok_or try_]. eapply sound_bind; [apply layout_sound; [by apply (get_range_Forall _ _ _ _ _ Hrest Ep)|by apply (get_range_zlen _ _ _ _ Ep)]|].
  intros l Hl. destruct (get_from rest _) as [body|]; [|apply sound_fail]. destruct (layout_entries w l Hl) as (_ & -> & _).
  destruct (layout_len_entries w l Hl) as (He0 & Hnl & Hk). pose proof (layout_max _ _ Hl). pose proof (offset_get_cases w).
  cbn [mbind outcome_bind]. destruct (get_range body _ _) as [es|] eqn:Ee; [|apply sound_fail].
  pose proof (get_range_zlen _ _ _ _ Ee). destruct (_ <=? _); [|apply sound_fail]. apply sound_ok. cbn [chunk_layout chunk_entries].
  split_and!; [done|lia|lia].
Qed.

(** The entries of a node that is read: as many as it says, each with [ndims] offsets. *)
Lemma chunk_entries_ok w node :
  layout_ok w (chunk_layout node) → zlen (chunk_entries node) = entries_len (chunk_layout node) →
  zlen (chunk_entries node) ≤ USIZE_MAX →
  ∃ es, BTreeV1ChunkNode.entries node = ok es ∧ zlen es = layout_entries_used (chunk_layout node) ∧
    Forall (λ e, zlen (chunk_offsets (fst e)) = ndims) es ∧ BTreeV1ChunkNode.children node = ok (snd <$> es).
Proof.
  intros Hl Hz Hu. destruct (layout_entries w _ Hl) as (_ & _ & He). pose proof (layout_used _ _ Hl). pose proof (layout_key _ _ Hl).
  pose proof (offset_get_cases w). destruct Hdims as [Hd Hdm]. unfold entries_len in Hz. rewrite (layout_width _ _ Hl) in Hz.
  destruct (split_entries_ok w (chunk_layout node) (Z.to_nat (layout_entries_used (chunk_layout node)))
    (length (chunk_entries node)) (chunk_entries node) Hl) as (es & Hes & Hlen & Hall); [rewrite Z2Nat.id by lia; lia|lia|unfold zlen in Hz; nia|].
  assert (Hent : BTreeV1ChunkNode.entries node = ok es).
  { unfold BTreeV1ChunkNode.entries. rewrite He. cbn [mbind outcome_bind].
    destruct (key_size (chunk_layout node) + OffsetWidth.get w =? 0) eqn:E; [lia|]. done. }
  exists es. split_and!; [done|unfold zlen; lia|done|]. unfold BTreeV1ChunkNode.children. by rewrite Hent, and_then_ok.
Qed.

End ChunkNodes.
