(* ===== verification/DatatypeTheorems.v ===== *)
(** * Properties of the Datatype message

    The writer decides on the datatypes a message can hold and what it writes is read back;
    the parser is safe on any bytes; the slots of object references are exact. *)

From stdpp Require Import strings.
From S2P Require Import Prelude Addresses Words ByteFields ByteFieldFacts Utf8 LinkMessages Datatypes DatatypeFacts.
From S2P Require Import DatatypeReads.

Local Open Scope list_scope.
Local Open Scope Z_scope.

(** ** Object references in an element *)

(** The number of entries of an array. *)
Definition entries (dims : list Z) : Z := fold_left Z.mul dims 1.

(** [inline dt o d]: an element of type [dt] holds a part of type [d] at offset [o]. *)
Inductive inline : Datatype → Z → Datatype → Prop :=
| inline_here dt : inline dt 0 dt
| inline_member size members m o d :
    m ∈ members → inline (member_datatype m) o d → inline (Compound size members) (member_offset m + o) d
| inline_entry base dims i o d :
    0 ≤ i < entries dims → inline base o d → inline (Array base dims) (i * Datatype.type_size base + o) d
| inline_base size base members o d : inline base o d → inline (Enumeration size base members) o d.

Definition object_reference : Datatype := Reference 8 RefObject.

(** A part the rewriting of references can handle: an object reference of eight bytes, or
    something that holds no object address. *)
Definition handled (d : Datatype) : Prop :=
  match d with
  | Reference size kind => size = 8 ∧ kind = RefObject
  | VariableLength kind => datatype_holds_object_address (base_type kind) = false
  | _ => True
  end.

(** What holds no object address has no references inline, nor through sequences. *)
Lemma unheld dt o d :
  inline dt o d → datatype_holds_object_address dt = false →
  match d with
  | Reference _ _ => False
  | VariableLength kind => datatype_holds_object_address (base_type kind) = false
  | _ => True
  end.
Proof.
  induction 1 as [dt|size members m o d Hm Hi IH|base dims i o d Hr Hi IH|size base members o d Hi IH]; cbn [datatype_holds_object_address].
  - destruct dt as [| | | | | | | | |[e|[p c b]]| |]; try done.
  - intros H. apply IH. destruct (datatype_holds_object_address (member_datatype m)) eqn:E; [|done].
    apply list_elem_of_In in Hm. assert (Ht : existsb (λ m, datatype_holds_object_address (member_datatype m)) members = true)
      by (apply existsb_exists; by exists m). congruence.
  - apply IH.
  - apply IH.
Qed.

Lemma entries_pos dims : Forall (λ d, 0 < d) dims → ∀ s, 0 < s → 0 < fold_left Z.mul dims s.
Proof. induction 1 as [|d dims Hd Hds IH]; intros s Hs; [done|]. cbn [fold_left]. apply IH. nia. Qed.

Lemma saturating_positive l s :
  0 ≤ s → Forall (λ d, 0 ≤ d) l → 0 < fold_left u32_saturating_mul l s → 0 < s ∧ Forall (λ d, 0 < d) l.
Proof.
  revert s. induction l as [|d l IH]; intros s H0 Hl H; [split; [exact H|constructor]|]. cbn [fold_left] in H.
  apply Forall_cons in Hl as [Hd Hl]. unfold u32_saturating_mul at 2 in H.
  apply IH in H as [H1 H2]; [|unfold U32_MAX; nia|done].
  assert (H3 : 0 < s * d) by lia. apply Z.lt_0_mul in H3. split; [lia|]. constructor; [lia|done].
Qed.

Lemma saturating_factor a b : 0 < a → 0 < u32_saturating_mul a b → 0 < b.
Proof. unfold u32_saturating_mul. intros Ha H. assert (H3 : 0 < a * b) by lia. apply Z.lt_0_mul in H3. lia. Qed.

Lemma array_size base dims :
  Datatype.type_size (Array base dims) = u32_saturating_mul (Datatype.type_size base) (fold_left u32_saturating_mul dims 1).
Proof. reflexivity. Qed.

Lemma dims_positive base dims : dt_ok (Array base dims) = true → Forall (λ d, 0 < d) dims.
Proof.
  intros Hok. pose proof (dt_ok_size _ Hok) as [Hs _]. rewrite array_size in Hs.
  pose proof (dt_ok_children _ Hok) as Hb. apply Forall_inv in Hb. apply dt_ok_size in Hb as [Hb _].
  apply saturating_factor in Hs; [|done]. apply (saturating_positive _ 1); [lia| |done].
  cbn [dt_ok] in Hok. rewrite !andb_true_iff in Hok. destruct Hok as (_ & _ & Hd). rewrite forallb_forall in Hd.
  apply Forall_forall. intros d Hin%list_elem_of_In. specialize (Hd d Hin). unfold within_bits in Hd. lia.
Qed.

(** The saturated count is the count, when it is below the limit. *)
Lemma saturated_entries dims s :
  Forall (λ d, 0 < d) dims → 0 < s →
  let c := fold_left (λ a b, Z.min (a * b) U64_MAX) dims s in
  0 < c ∧ (c < U64_MAX → c = fold_left Z.mul dims s).
Proof.
  intros Hd Hs. cbv zeta.
  assert (H : ∀ s t, 0 < s → 0 < t → (s = t ∨ s = U64_MAX ∧ U64_MAX ≤ t) →
    let c := fold_left (λ a b, Z.min (a * b) U64_MAX) dims s in
    0 < c ∧ (c = fold_left Z.mul dims t ∨ c = U64_MAX ∧ U64_MAX ≤ fold_left Z.mul dims t)).
  { clear s Hs. induction Hd as [|d dims Hd0 Hd IH]; intros s t Hs Ht Hst; [split; [done|tauto]|]. cbn [fold_left].
    apply IH; [unfold U64_MAX; nia|nia|]. unfold U64_MAX in *. nia. }
  destruct (H s s Hs Hs (or_introl eq_refl)) as [Hp Hc]. split; [done|]. intros Hlt. lia.
Qed.

Lemma inline_nonneg dt o d : inline dt o d → dt_ok dt = true → 0 ≤ o.
Proof.
  induction 1 as [dt|size members m o d Hm Hi IH|base dims i o d Hr Hi IH|size base members o d Hi IH]; intros Hok; [lia|..].
  - pose proof (dt_ok_children _ Hok) as Hch. cbn [children] in Hch. rewrite Forall_fmap in Hch.
    specialize (IH (proj1 (Forall_forall _ _) Hch m Hm)). cbn [dt_ok] in Hok. rewrite !andb_true_iff in Hok. destruct Hok as [_ Hok].
    rewrite forallb_forall in Hok. apply list_elem_of_In in Hm. specialize (Hok m Hm). unfold within_bits in Hok. lia.
  - pose proof (dt_ok_children _ Hok) as Hch. apply Forall_inv in Hch. specialize (IH Hch). pose proof (dt_ok_size base Hch). nia.
  - pose proof (dt_ok_children _ Hok) as Hch. apply Forall_inv in Hch. auto.
Qed.

(** ** The walk *)

Section Walk.
Context `{B : Build} (Hwide : 2 ^ 32 ≤ USIZE_MAX + 1).

Lemma push_slots_spec probe at_ cap out r :
  push_slots probe at_ cap out = Some r →
  match r with
  | inr out' => out' = out ++ (Z.add at_ <$> probe)
  | inl out' => cap < zlen out' ∧ ∃ new, out' = out ++ new
  end.
Proof.
  revert out. induction probe as [|slot probe IH]; intros out; cbn [push_slots].
  - intros [= <-]. by rewrite app_nil_r.
  - unfold usize_checked_add. destruct (_ <=? _); [|done]. destruct (cap <? _) eqn:E.
    + intros [= <-]. split; [lia|by eexists].
    + intros H. apply IH in H. destruct r as [out'|out']; [|by rewrite H, <- app_assoc].
      destruct H as [H [new ->]]. split; [done|]. exists ([at_ + slot] ++ new). by rewrite app_assoc.
Qed.

(** The slots of the entries [i], ..., [i + n - 1]. *)
Fixpoint entry_slots (n : nat) (i : Z) (probe : list Z) (base stride : Z) : list Z :=
  match n with
  | O => []
  | S n => (Z.add (base + i * stride) <$> probe) ++ entry_slots n (i + 1) probe base stride
  end.

Lemma elem_entry_slots n i probe base stride o :
  o ∈ entry_slots n i probe base stride ↔ ∃ j s, i ≤ j < i + Z.of_nat n ∧ s ∈ probe ∧ o = base + j * stride + s.
Proof.
  revert i. induction n as [|n IH]; intros i; cbn [entry_slots].
  - split; [by intros ?%elem_of_nil|]. intros (j & s & Hj & _). lia.
  - rewrite elem_of_app, IH, list_elem_of_fmap. split.
    + intros [(s & -> & Hs)|(j & s & Hj & Hs & ->)]; [exists i, s; split_and!; [lia|lia|done|done]|exists j, s; split_and!; [lia|lia|done|done]].
    + intros (j & s & Hj & Hs & ->). destruct (decide (j = i)) as [->|Hne]; [left; by exists s|right].
      exists j, s. split_and!; [lia|lia|done|done].
Qed.

Lemma push_entries_grows n i probe base stride cap out out' :
  push_entries n i probe base stride cap out = Some out' → ∃ new, out' = out ++ new.
Proof.
  revert i out. induction n as [|n IH]; intros i out; cbn [push_entries]; [intros [= <-]; exists []; by rewrite app_nil_r|].
  destruct (mbind (M := option) _ _) as [at_|]; [|done].
  destruct (push_slots probe at_ cap out) as [[o|o]|] eqn:Ep; [| |done]; apply push_slots_spec in Ep.
  - intros [= <-]. tauto.
  - intros H. apply IH in H as [new ->]. subst o. rewrite <- app_assoc. by eexists.
Qed.

Lemma push_entries_spec n i probe base stride cap out out' :
  0 ≤ i → push_entries n i probe base stride cap out = Some out' → zlen out' ≤ cap →
  out' = out ++ entry_slots n i probe base stride.
Proof.
  revert i out. induction n as [|n IH]; intros i out Hi; cbn [push_entries entry_slots]; [intros [= <-] _; by rewrite app_nil_r|].
  unfold usize_checked_mul, usize_checked_add. cbn [mbind option_bind]. destruct (_ <=? _); [|done]. cbn [mbind option_bind].
  destruct (_ <=? _); [|done].
  destruct (push_slots probe _ cap out) as [[o|o]|] eqn:Ep; [| |done]; apply push_slots_spec in Ep.
  - intros [= <-] Hle. lia.
  - intros H Hle. apply IH in H; [|lia|done]. subst o. by rewrite H, <- app_assoc.
Qed.

Lemma collect_grows cap dt base out out' :
  collect cap dt base out = Some out' → ∃ new, out' = out ++ new.
Proof.
  revert base out out'. induction dt as [dt IH] using datatype_induction. intros base out out'.
  assert (Hnil : ∃ new, out = out ++ new) by (exists []; by rewrite app_nil_r).
  assert (Hleaf : (if datatype_holds_object_address dt then None else Some out) = Some out' → ∃ new, out' = out ++ new)
    by (destruct (datatype_holds_object_address dt); [done|by intros [= <-]]).
  destruct dt as [t|t|t|size padding charset|t|size tag|size members|size kind|size ebase members|kind|abase dims|t];
    cbn [collect]; (destruct (cap <? zlen out); [by intros [= <-]|]); try exact Hleaf.
  - cbn [children] in IH. clear Hleaf Hnil. revert out. induction members as [|m members IHm]; intros out; cbn [collect_members].
    { intros [= <-]. exists []. by rewrite app_nil_r. }
    apply Forall_cons in IH as [Hm IH]. destruct (mbind (M := option) _ _) as [at_|]; [|done].
    destruct (collect cap (member_datatype m) at_ out) as [o|] eqn:E; [|done]. apply Hm in E as [new ->].
    intros H. apply (IHm IH) in H as [new' ->]. rewrite <- app_assoc. by eexists.
  - destruct kind; [|done]. destruct (size =? 8); [|done]. intros [= <-]. by eexists.
  - destruct (collect cap abase 0 []) as [[|s probe]|]; [by intros [= <-]| |done].
    destruct (cap <? _); [done|]. apply push_entries_grows.
Qed.

(** The slots collected from an element at [base]. *)
Definition collected (dt : Datatype) (base : Z) (new : list Z) : Prop :=
  (∀ o, o ∈ new ↔ ∃ o', o = base + o' ∧ inline dt o' object_reference) ∧ (∀ o d, inline dt o d → handled d).

Lemma collected_leaf dt base :
  datatype_holds_object_address dt = false → collected dt base [].
Proof.
  intros H. split.
  - intros o. split; [by intros ?%elem_of_nil|]. intros (o' & _ & Hi). by apply unheld in Hi.
  - intros o d Hi. apply unheld in Hi; [|done]. by destruct d.
Qed.

Lemma inline_reference_inv size kind o d : inline (Reference size kind) o d → o = 0 ∧ d = Reference size kind.
Proof. by inversion 1. Qed.

Lemma collected_members members size base news :
  Forall2 (λ m new, collected (member_datatype m) (base + member_offset m) new) members news →
  collected (Compound size members) base (concat news).
Proof.
  intros H. split.
  - intros o. split.
    + intros Hin. assert (Hc : ∃ m new, m ∈ members ∧ o ∈ new ∧ collected (member_datatype m) (base + member_offset m) new).
      { clear -H Hin. induction H as [|m new members news Hm H IH]; [by apply elem_of_nil in Hin|]. cbn [concat] in Hin.
        apply elem_of_app in Hin as [Hin|Hin]; [exists m, new; split_and!; [left|done|done]|].
        destruct (IH Hin) as (m' & new' & H1 & H2). exists m', new'. split; [by right|done]. }
      destruct Hc as (m & new & Hm & Ho & [Hc _]). apply Hc in Ho as (o' & -> & Hi).
      exists (member_offset m + o'). split; [lia|by apply inline_member].
    + intros (o' & -> & Hi). inversion Hi as [|? ? m o1 ? Hm Hi'| |]; subst.
      clear Hi. induction H as [|m0 new members news [Hc _] H IH]; [by apply elem_of_nil in Hm|].
      cbn [concat]. apply elem_of_app. apply elem_of_cons in Hm as [<-|Hm]; [left|right; by apply IH].
      apply Hc. exists o1. split; [lia|done].
  - intros o d Hi. inversion Hi as [|? ? m o1 ? Hm Hi'| |]; subst; [done|].
    clear Hi. induction H as [|m0 new members news [_ Hc] H IH]; [by apply elem_of_nil in Hm|].
    apply elem_of_cons in Hm as [<-|Hm]; [by apply (Hc o1)|by apply IH].
Qed.

Lemma collected_entries abase dims base probe :
  collected abase 0 probe → 0 ≤ entries dims →
  collected (Array abase dims) base
    (entry_slots (Z.to_nat (entries dims)) 0 probe base (Datatype.type_size abase)).
Proof.
  intros [Hc Hh] He. split.
  - intros o. rewrite elem_entry_slots, Z2Nat.id by done. split.
    + intros (j & s & Hj & Hs & ->). apply Hc in Hs as (o' & -> & Hi).
      exists (j * Datatype.type_size abase + o'). split; [lia|]. apply inline_entry; [lia|done].
    + intros (o' & -> & Hi). inversion Hi as [| |? ? i o1 ? Hr Hi'|]; subst.
      exists i, o1. split_and!; [lia|lia| |lia]. apply Hc. by exists o1.
  - intros o d Hi. inversion Hi as [| |? ? i o1 ? Hr Hi'|]; subst; [done|]. by apply (Hh o1).
Qed.

Lemma entry_slots_nil n i base stride : entry_slots n i [] base stride = [].
Proof. revert i. induction n as [|n IH]; intros i; [done|]. cbn [entry_slots]. by rewrite IH. Qed.

Lemma collect_slots_spec cap dt base out out' :
  cap < U64_MAX → cap ≤ USIZE_MAX → dt_ok dt = true →
  collect cap dt base out = Some out' → zlen out' ≤ cap → ∃ new, out' = out ++ new ∧ collected dt base new.
Proof.
  intros Hcap Hcap'. revert base out out'. induction dt as [dt IH] using datatype_induction. intros base out out' Hok Hcol Hle.
  pose proof (dt_ok_children dt Hok) as Hch.
  destruct (collect_grows _ _ _ _ _ Hcol) as [grown Hg].
  assert (Hlen : zlen out ≤ cap) by (rewrite Hg, zlen_app in Hle; pose proof (zlen_nonneg grown); lia).
  assert (Hleaf : (if datatype_holds_object_address dt then None else Some out) = Some out' → ∃ new, out' = out ++ new ∧ collected dt base new).
  { destruct (datatype_holds_object_address dt) eqn:E; [done|]. intros [= <-]. exists []. split; [by rewrite app_nil_r|by apply collected_leaf]. }
  destruct dt as [t|t|t|size padding charset|t|size tag|size members|size kind|size ebase members|kind|abase dims|t];
    cbn [collect] in Hcol; replace (cap <? zlen out) with false in Hcol by lia; try exact (Hleaf Hcol).
  - clear Hleaf Hg grown Hlen Hok. cbn [children] in IH, Hch.
    assert (H : ∃ news, out' = out ++ concat news ∧
      Forall2 (λ m new, collected (member_datatype m) (base + member_offset m) new) members news).
    { revert out Hcol. induction members as [|m members IHm]; intros out Hcol; cbn [collect_members] in Hcol.
      - injection Hcol as <-. exists []. split; [by rewrite app_nil_r|constructor].
      - apply Forall_cons in IH as [Hm IH]. apply Forall_cons in Hch as [Hcm Hch].
        destruct (member_offset m <=? USIZE_MAX); [|done]. cbn [mbind option_bind] in Hcol. unfold usize_checked_add in Hcol.
        destruct (_ <=? USIZE_MAX); [|done].
        destruct (collect cap (member_datatype m) (base + member_offset m) out) as [o|] eqn:E; [|done].
        destruct (IHm IH Hch o Hcol) as (news & -> & Hnews).
        destruct (Hm _ _ _ Hcm E) as (new & -> & Hnew).
        { rewrite zlen_app in Hle. pose proof (zlen_nonneg (concat news)). lia. }
        exists (new :: news). cbn [concat]. rewrite app_assoc. split; [done|by constructor]. }
    destruct H as (news & -> & Hnews). exists (concat news). split; [done|by apply collected_members].
  - destruct kind; [|done]. destruct (size =? 8) eqn:E8; [|done]. apply Z.eqb_eq in E8 as ->. injection Hcol as <-.
    exists [base]. split; [done|]. split.
    + intros o. rewrite list_elem_of_singleton. split; [intros ->; exists 0; split; [lia|constructor]|].
      intros (o' & -> & [-> _]%inline_reference_inv). lia.
    + intros o d [_ ->]%inline_reference_inv. done.
  - apply Forall_inv in IH. apply Forall_inv in Hch. pose proof (dims_positive _ _ Hok) as Hdims.
    assert (Hpos : 0 < entries dims) by (by apply entries_pos). pose proof (dt_ok_size _ Hch) as Hbs.
    destruct (collect cap abase 0 []) as [probe|] eqn:Ep; [|done].
    destruct (decide (probe = [])) as [->|Hne].
    { injection Hcol as <-. exists []. split; [by rewrite app_nil_r|].
      rewrite <- (entry_slots_nil (Z.to_nat (entries dims)) 0 base (Datatype.type_size abase)).
      apply collected_entries; [|lia]. destruct (IH _ _ _ Hch Ep) as (new & Hnew & Hc); [pose proof (zlen_nonneg out); done || (change (zlen []) with 0; lia)|].
      by simpl in Hnew; subst new. }
    destruct (saturated_entries dims 1 Hdims ltac:(lia)) as [Hc0 Hc1]. set (count := fold_left _ dims 1) in *.
    assert (Hcol' : (if cap <? count then None else push_entries (Z.to_nat (if count <=? USIZE_MAX then count else USIZE_MAX))
      0 probe base (as_usize (Datatype.type_size abase)) cap out) = Some out') by (by destruct probe). clear Hcol.
    destruct (cap <? count) eqn:Ec; [done|]. replace (count <=? USIZE_MAX) with true in Hcol' by lia.
    rewrite Hc1 in Hcol' by lia. fold (entries dims) in Hcol'.
    replace (as_usize (Datatype.type_size abase)) with (Datatype.type_size abase) in Hcol'
      by (unfold as_usize; rewrite Z.mod_small; [done|unfold U32_MAX in Hbs; lia]).
    apply push_entries_spec in Hcol'; [|lia|done]. eexists. split; [exact Hcol'|]. apply collected_entries; [|lia].
    destruct (IH _ _ _ Hch Ep) as (new & Hnew & Hc); [|by simpl in Hnew; subst new].
    rewrite Hcol', zlen_app in Hle. destruct (Z.to_nat (entries dims)) as [|n] eqn:En; [lia|]. cbn [entry_slots] in Hle.
    rewrite zlen_app in Hle. unfold zlen in *. rewrite length_fmap in Hle. lia.
Qed.

End Walk.


(** ** Reading the references *)

(** The reference at a slot of the [i]th element: where it is, and what is stored. *)
Definition reference_at (raw : list Z) (size i slot : Z) : Z * Z :=
  (i * size + slot, le_value (take 8 (drop (Z.to_nat (i * size + slot)) raw))).

Definition reference_list (raw : list Z) (size : Z) (slots : list Z) : list (Z * Z) :=
  concat ((λ i, reference_at raw size i <$> slots) <$> seqZ 0 (zlen raw / size)).

Lemma element_references_spec raw size i slots :
  0 < size → 0 ≤ i → (i + 1) * size ≤ zlen raw → Forall (λ s, 0 ≤ s ∧ s + 8 ≤ size) slots →
  element_references (take (Z.to_nat size) (drop (Z.to_nat (i * size)) raw)) i size slots
  = Ret (reference_at raw size i <$> slots).
Proof.
  intros Hs Hi Hl Hslots. set (element := take _ _).
  assert (Hz : zlen element = size) by (unfold element; apply zlen_take; rewrite zlen_drop by nia; lia).
  induction Hslots as [|s slots Hs1 Hslots IH]; [done|]. cbn [element_references].
  unfold slice. destruct (get_range element s (s + 8)) as [st|] eqn:E; [|apply get_range_None in E; lia].
  apply get_range_Some in E as (_ & _ & ->). cbn [expect mbind outcome_bind]. rewrite IH. cbn [mbind outcome_bind].
  rewrite fmap_cons. unfold reference_at at 2. do 4 f_equal.
  replace (s + 8 - s) with 8 by lia. unfold element. rewrite skipn_firstn_comm, take_take, drop_drop.
  f_equal; [lia|]. f_equal. lia.
Qed.

Lemma references_spec n raw size slots i :
  0 < size → 0 ≤ i ≤ zlen raw / size → zlen raw / size - i ≤ Z.of_nat n → Forall (λ s, 0 ≤ s ∧ s + 8 ≤ size) slots →
  references_from n i (drop (Z.to_nat (i * size)) raw) size slots
  = Ret (concat ((λ i, reference_at raw size i <$> slots) <$> seqZ i (zlen raw / size - i))).
Proof.
  intros Hs Hi Hn Hslots. revert i Hi Hn. induction n as [|n IH]; intros i Hi Hn; cbn [references_from].
  - replace (zlen raw / size - i) with 0 by lia. done.
  - rewrite Z.max_l by lia. pose proof (Z.mul_div_le (zlen raw) size Hs).
    assert (Hdl : zlen (drop (Z.to_nat (i * size)) raw) = zlen raw - i * size) by (apply zlen_drop; nia).
    destruct (get_range _ _ _) as [e|] eqn:E.
    + apply get_range_Some in E as (_ & Hle & ->). rewrite Hdl in Hle. rewrite Z.sub_0_r. change (Z.to_nat 0) with 0%nat. rewrite drop_0.
      assert (Hlt : i < zlen raw / size) by (assert (i + 1 ≤ zlen raw / size); [apply Z.div_le_lower_bound; nia|lia]).
      rewrite element_references_spec by (done || lia). cbn [mbind outcome_bind]. rewrite drop_drop.
      replace (Z.to_nat (i * size) + Z.to_nat size)%nat with (Z.to_nat ((i + 1) * size)) by nia.
      rewrite IH by lia. cbn [mbind outcome_bind].
      rewrite (seqZ_cons i) by lia. rewrite fmap_cons. cbn [concat]. replace (Z.succ i) with (i + 1) by lia. by replace (Z.pred (zlen raw / size - i)) with (zlen raw / size - (i + 1)) by lia.
    + apply get_range_None in E. rewrite Hdl in E.
      assert (zlen raw < (i + 1) * size) by nia.
      replace (zlen raw / size - i) with 0; [done|]. assert (zlen raw / size < i + 1); [apply Z.div_lt_upper_bound; nia|lia].
Qed.

(** ** The results *)

#[local] Existing Instance build64.

(** What the writer returns at the top level. *)
Lemma serialize_datatype_cases w dt :
  dt_ok dt = true →
  (dt_fits w dt = true ∧ serialize_datatype_with_offset_width dt w = ok (dt_bytes w dt)) ∨
  (dt_fits w dt = false ∧ ∃ e, serialize_datatype_with_offset_width dt w = fail e).
Proof.
  intros Hok. unfold serialize_datatype_with_offset_width.
  destruct (serialize_written w dt Hok []) as [(Hf & _ & ->)|(Hf & e & ->)]; [left|right]; (split; [done|]).
  - by rewrite and_then_ok.
  - by eexists.
Qed.

(** C25: for every well-formed datatype, nested to any depth, the writer succeeds exactly when
    the tags, counts, array sizes and member ranges fit a message; and what it writes is read
    back as the same datatype, with its length, whatever follows it. *)
Theorem datatype_roundtrip (B : Build) (w : OffsetWidth) (dt : Datatype) :
  2 ^ 32 ≤ USIZE_MAX + 1 → dt_ok dt = true →
  (dt_fits w dt = true ∧
   ∃ bytes, serialize_datatype_with_offset_width dt w = ok bytes ∧
     ∀ rest, zlen (bytes ++ rest) ≤ USIZE_MAX → parse_datatype (bytes ++ rest) = ok (dt, zlen bytes)) ∨
  (dt_fits w dt = false ∧ ∃ e, serialize_datatype_with_offset_width dt w = fail e).
Proof.
  intros Hwide Hok. destruct (serialize_datatype_cases w dt Hok) as [[Hf Hs]|H]; [left|by right]. split; [done|].
  exists (dt_bytes w dt). split; [done|]. intros rest Hl. apply parse_within_written; [done|done|done| |done].
  rewrite length_app. lia.
Qed.

Definition sample_type : Datatype :=
  Compound 40
    [mkMember [120] 0 (FloatingPoint (FloatingPointType.ieee754_binary64 BigEndian));
     mkMember [114] 8 (Array object_reference [2]);
     mkMember [118] 24 (VariableLength (string_ SpacePad Utf8))].

Lemma datatype_roundtrip_witness :
  dt_ok sample_type = true ∧ dt_fits OffsetEight sample_type = true ∧
  ∃ bytes, serialize_datatype_with_offset_width sample_type OffsetEight = ok bytes ∧
    parse_datatype (bytes ++ [1; 2; 3]) = ok (sample_type, zlen bytes).
Proof.
  split; [vm_compute; reflexivity|]. split; [vm_compute; reflexivity|].
  destruct (datatype_roundtrip build64 OffsetEight sample_type) as [(_ & bytes & Hs & Hp)|[Hf _]].
  - vm_compute. discriminate.
  - vm_compute. reflexivity.
  - exists bytes. split; [exact Hs|]. apply Hp.
    assert (Hb : bytes = dt_bytes OffsetEight sample_type)
      by (destruct (serialize_datatype_cases OffsetEight sample_type eq_refl) as [[_ H]|[H _]]; [rewrite Hs in H; injection H as H; exact H|discriminate H]).
    rewrite Hb. vm_compute. discriminate.
  - vm_compute in Hf. discriminate Hf.
Defined.

(** C26: on any bytes the parser of datatypes ends without a panic, with an error or with a
    well-formed datatype read from a prefix of them: numeric layouts in range, names that are
    strings without NUL bytes, enumeration values as long as the base type, no empty element. *)
Theorem datatype_parse_safe (B : Build) (data : list Z) :
  2 ^ 32 ≤ USIZE_MAX + 1 → Forall byte data → zlen data ≤ USIZE_MAX →
  parse_datatype data ⇝? (λ '(dt, n), dt_ok dt = true ∧ 8 ≤ n ≤ zlen data).
Proof. intros Hwide Hb Hl. apply within_sound; [done|done|done|lia]. Qed.

Lemma datatype_parse_safe_witness :
  parse_datatype (replicate 40 0x16) ⇝? (λ '(dt, n), dt_ok dt = true ∧ 8 ≤ n ≤ zlen (replicate 40 0x16)).
Proof.
  apply (datatype_parse_safe build64); [vm_compute; discriminate| |vm_compute; discriminate].
  apply Forall_replicate. unfold byte. lia.
Defined.

(** C27: the slots reported for an element are exactly the offsets of the object references
    stored inline in it, each inside the element; no other kind of reference is in it, and none
    behind its variable-length parts; and reading the references of any data gives, for every
    whole element and slot, where the reference lies and the eight bytes stored there. *)
Theorem reference_slots_exact (B : Build) (dt : Datatype) (slots raw : list Z) :
  2 ^ 32 ≤ USIZE_MAX + 1 → dt_ok dt = true → embedded_reference_slots dt = Some slots →
  let size := Datatype.type_size dt in
  (∀ o, o ∈ slots ↔ inline dt o object_reference) ∧ (∀ o d, inline dt o d → handled d) ∧
  Forall (λ s, 0 ≤ s ∧ s + 8 ≤ size) slots ∧
  stored_object_references raw (as_usize size) slots = Ret (reference_list raw size slots).
Proof.
  intros Hwide Hok Hslots size. pose proof (dt_ok_size dt Hok) as Hsize. fold size in Hsize.
  assert (Hus : as_usize size = size) by (unfold as_usize; rewrite Z.mod_small; [done|unfold U32_MAX in Hsize; lia]).
  unfold embedded_reference_slots in Hslots. fold size in Hslots. rewrite Hus in *.
  destruct (collect (size / 8) dt 0 []) as [got|] eqn:Ec; [|done].
  destruct (_ || _) eqn:Eb; [done|]. injection Hslots as ->. apply orb_false_iff in Eb as [Ecap Eout].
  assert (Hcap : 0 ≤ size / 8 ≤ size) by (split; [apply Z.div_pos; lia|apply Z.div_le_upper_bound; lia]).
  destruct (collect_slots_spec Hwide (size / 8) dt 0 [] slots) as (new & Hnew & Hin & Hh);
    [unfold U64_MAX, U32_MAX in *; lia|unfold U32_MAX in *; lia|done|done|lia|]. simpl in Hnew. subst new.
  assert (Hex : ∀ o, o ∈ slots ↔ inline dt o object_reference).
  { intros o. rewrite Hin. split; [by intros (o' & -> & Hi)|intros Hi; by exists o]. }
  assert (Hrange : Forall (λ s, 0 ≤ s ∧ s + 8 ≤ size) slots).
  { apply Forall_forall. intros s Hs. split; [apply (inline_nonneg dt s object_reference); [by apply Hex|done]|].
    destruct (usize_checked_add s 8) as [e|] eqn:E; [|exfalso].
    - apply list_elem_of_In in Hs. destruct (size <? e) eqn:El.
      + assert (Ht : existsb (λ s, match usize_checked_add s 8 with None => true | Some end_ => size <? end_ end) slots = true)
          by (apply existsb_exists; exists s; split; [done|by rewrite E]). congruence.
      + unfold usize_checked_add in E. destruct (_ <=? _); [|done]. injection E as <-. lia.
    - apply list_elem_of_In in Hs.
      assert (Ht : existsb (λ s, match usize_checked_add s 8 with None => true | Some end_ => size <? end_ end) slots = true)
        by (apply existsb_exists; exists s; split; [done|by rewrite E]). congruence. }
  split_and!; [exact Hex|exact Hh|exact Hrange|].
  unfold stored_object_references, reference_list.
  pose proof (Z.div_pos (zlen raw) size (zlen_nonneg raw) ltac:(lia)).
  assert (zlen raw / size ≤ zlen raw) by (apply Z.div_le_upper_bound; [lia|]; pose proof (zlen_nonneg raw); nia).
  pose proof (references_spec (length raw) raw size slots 0 ltac:(lia) ltac:(lia) ltac:(unfold zlen in *; lia) Hrange) as Hr.
  rewrite Z.mul_0_l, Z.sub_0_r in Hr. exact Hr.
Qed.

Lemma reference_slots_exact_witness :
  embedded_reference_slots sample_type = Some [8; 16] ∧
  inline sample_type 16 object_reference ∧
  stored_object_references (seqZ 0 100) 40 [8; 16] = Ret (reference_list (seqZ 0 100) 40 [8; 16]).
Proof.
  split; [vm_compute; reflexivity|].
  destruct (reference_slots_exact build64 sample_type [8; 16] (seqZ 0 100)) as (Hin & _ & _ & Hr).
  - vm_compute. discriminate.
  - vm_compute. reflexivity.
  - vm_compute. reflexivity.
  - split; [|exact Hr]. apply Hin. right. left.
Defined.
