(* ===== verification/GlobalHeapTheorems.v ===== *)
(** * Theorems about global heaps

    The walk of a collection finds exactly what the bytes hold; what the encoder writes is
    read back; the reader of objects returns prefixes of their data; a compaction keeps the
    records it does not remove, and a failed one is undone through the journal. *)

From stdpp Require Import strings gmap.
From S2P Require Import Prelude Addresses Words ByteFields ByteFieldFacts FileRegions SuperblockFacts.
From S2P Require Import ObjectHeaders ObjectHeaderFacts Journals GlobalHeaps GlobalHeapFacts.

Local Open Scope Z_scope.

(** ** Directories *)

Notation Entry := (Z * option GlobalHeapPayloadRef)%type.

(** What a directory has at an index. *)
Definition entry (l : list Entry) (i : Z) : option (option GlobalHeapPayloadRef) :=
  at_ ← search_index l i; snd <$> l !! at_.

Lemma entry_cons (j : Z) p l i : entry ((j, p) :: l) i = if j =? i then Some p else entry l i.
Proof. unfold entry. cbn. destruct (j =? i); [done|]. by destruct (search_index l i). Qed.

Lemma search_entry l i p : entry l i = Some p → ∃ at_ j, search_index l i = Some at_ ∧ l !! at_ = Some (j, p).
Proof.
  unfold entry. destruct (search_index l i) as [at_|]; [|done]. cbn. destruct (l !! at_) as [[j p']|] eqn:E; [|done].
  cbn. intros [= ->]. by exists at_, j.
Qed.

Lemma record_cons j p l o :
  Directory.record ((j, p) :: l) o =
  if j =? object_index o then (j, Some (object_payload o)) :: l else (j, p) :: Directory.record l o.
Proof.
  unfold Directory.record. cbn [search_index]. destruct (j =? object_index o); [done|]. by destruct (search_index l (object_index o)).
Qed.

Lemma record_entry l o i :
  entry (Directory.record l o) i =
  if object_index o =? i then (λ _, Some (object_payload o)) <$> entry l i else entry l i.
Proof.
  induction l as [|[j p] l IH]; [by destruct (_ =? i)|]. rewrite record_cons. 
  destruct (j =? object_index o) eqn:Ej; rewrite !entry_cons.
  - destruct (j =? i) eqn:Ei; [|by replace (object_index o =? i) with false by lia].
    by replace (object_index o =? i) with true by lia.
  - rewrite IH. destruct (j =? i) eqn:Ei; [by replace (object_index o =? i) with false by lia|]. done.
Qed.

(** The payload a walk found at an index. *)
Definition payload_of (os : list GlobalHeapObject) (i : Z) : option GlobalHeapPayloadRef :=
  (λ x, object_payload x.2) <$> list_find (λ o, object_index o = i) os.

Lemma payload_of_cons o os i :
  payload_of (o :: os) i = if object_index o =? i then Some (object_payload o) else payload_of os i.
Proof.
  unfold payload_of. cbn [list_find]. destruct (object_index o =? i) eqn:E; [by rewrite decide_True by lia|].
  rewrite decide_False by lia. by destruct (list_find _ os) as [[n x]|].
Qed.

Lemma payload_of_None os i : i ∉ (object_index <$> os) → payload_of os i = None.
Proof.
  induction os as [|o os IH]; [done|]. rewrite fmap_cons, not_elem_of_cons, payload_of_cons. intros [Hne Hni].
  destruct (object_index o =? i) eqn:E; [lia|by apply IH].
Qed.

Lemma record_all os : ∀ l i,
  NoDup (object_index <$> os) →
  entry (fold_left Directory.record os l) i =
  match payload_of os i with Some p => (λ _, Some p) <$> entry l i | None => entry l i end.
Proof.
  induction os as [|o os IH]; intros l i Hnd; [done|]. rewrite fmap_cons in Hnd. apply NoDup_cons in Hnd as [Hni Hnd]. cbn [fold_left].
  rewrite IH, payload_of_cons, record_entry by done. destruct (object_index o =? i) eqn:E; [|done].
  rewrite payload_of_None; [done|]. by replace i with (object_index o) by lia.
Qed.

(** Sorting and removing neighbours with equal indices keeps what is at an index when
    nothing is recorded yet. *)
Definition unrecorded (l : list Entry) (ids : list Z) : Prop :=
  ∀ i, entry l i = if bool_decide (i ∈ ids) then Some None else None.

Lemma unrecorded_fresh l : Forall (λ e : Entry, e.2 = None) l → unrecorded l (fst <$> l).
Proof.
  intros Hall i. induction l as [|[j p] l IH]; [done|]. apply Forall_cons in Hall as [Hp Hall]. cbn in Hp. subst p.
  rewrite entry_cons, (IH Hall), fmap_cons. cbn [fst]. destruct (j =? i) eqn:E.
  - rewrite bool_decide_eq_true_2; [done|]. apply elem_of_cons. left. lia.
  - erewrite bool_decide_ext; [done|]. rewrite elem_of_cons. split; [tauto|]. intros [->|?]; [lia|done].
Qed.

Lemma sort_insert_perm e l : sort_insert e l ≡ₚ e :: l.
Proof. induction l as [|x l IH]; [done|]. cbn. destruct (_ <=? _); [done|]. rewrite IH. by rewrite Permutation_swap. Qed.

Lemma sort_perm l : sort_by_index l ≡ₚ l.
Proof. induction l as [|e l IH]; [done|]. cbn. rewrite sort_insert_perm. by f_equiv. Qed.

Lemma dedup_keys l i : i ∈ (dedup_by_index l).*1 ↔ i ∈ l.*1.
Proof.
  induction l as [|x l IH]; [done|]. cbn [dedup_by_index]. rewrite fmap_cons, elem_of_cons, <- IH.
  destruct (dedup_by_index l) as [|y l']; [cbn; by rewrite elem_of_cons|]. destruct (x.1 =? y.1) eqn:E;
    rewrite !fmap_cons, !elem_of_cons; [|done]. assert (x.1 = y.1) as -> by lia. tauto.
Qed.

Lemma dedup_Forall (P : Entry → Prop) l : Forall P l → Forall P (dedup_by_index l).
Proof.
  induction l as [|x l IH]; [done|]. intros [Hx Hl]%Forall_cons. cbn [dedup_by_index]. specialize (IH Hl).
  destruct (dedup_by_index l) as [|y l']; [by repeat constructor|]. apply Forall_cons in IH as [Hy Hl'].
  destruct (x.1 =? y.1); by repeat constructor.
Qed.

(** ** The objects of a walk and the records of the file *)

Lemma objects_at_indices lw rs : ∀ pos os, objects_at lw pos rs os → object_index <$> os = rec_index <$> rs.
Proof.
  induction rs as [|r rs IH]; intros pos [|o os]; try done. intros [(Hi & _) Hos]. rewrite !fmap_cons, Hi. f_equal. by apply (IH _ os Hos).
Qed.

Lemma objects_at_app lw rs1 : ∀ pos rs2 os,
  objects_at lw pos (rs1 ++ rs2) os → ∃ os1 os2, os = os1 ++ os2 ∧ objects_at lw pos rs1 os1 ∧
    objects_at lw (pos + zlen (records_bytes lw rs1)) rs2 os2.
Proof.
  induction rs1 as [|r rs1 IH]; intros pos rs2 os Hos.
  { exists [], os. split_and!; [done|done|]. change (zlen (records_bytes lw [])) with 0. by rewrite Z.add_0_r. }
  destruct os as [|o os]; [done|]. destruct Hos as [Hd Hos]. destruct (IH _ _ _ Hos) as (os1 & os2 & -> & H1 & H2).
  exists (o :: os1), os2. split_and!; [done|by split|]. rewrite records_bytes_cons, zlen_app. by rewrite Z.add_assoc.
Qed.

(** A payload that was found is the data of the record. *)
Lemma payload_of_record lw pos rs os r :
  objects_at lw pos rs os → NoDup (rec_index <$> rs) → r ∈ rs →
  ∃ rs1 rs2 o, rs = rs1 ++ r :: rs2 ∧ payload_of os (rec_index r) = Some (object_payload o) ∧
    describes lw (pos + zlen (records_bytes lw rs1)) r o.
Proof.
  intros Hos Hnd (rs1 & rs2 & ->)%list_elem_of_split. destruct (objects_at_app _ _ _ _ _ Hos) as (os1 & os2 & -> & H1 & H2).
  destruct os2 as [|o os2]; [done|]. destruct H2 as [Hd _]. exists rs1, rs2, o. split_and!; [done| |done].
  pose proof (objects_at_indices _ _ _ _ H1) as Hi1. rewrite fmap_app in Hnd. apply NoDup_app in Hnd as (_ & Hdis & _).
  assert (Hni : rec_index r ∉ (object_index <$> os1)).
  { rewrite Hi1. intros Hin. apply (Hdis _ Hin). rewrite fmap_cons. left. }
  clear -Hni Hd. induction os1 as [|o1 os1 IH]; cbn [app]; rewrite payload_of_cons.
  - destruct Hd as (-> & _). by rewrite Z.eqb_refl.
  - rewrite fmap_cons, not_elem_of_cons in Hni. destruct Hni as [Hne Hni]. destruct (_ =? _) eqn:E; [lia|by apply IH].
Qed.

Lemma record_data file address lw rs1 r rs2 t len :
  heap_at file address lw (rs1 ++ r :: rs2) t → 0 ≤ len ≤ zlen (rec_data r) →
  let pos := address + 16 + zlen (records_bytes lw rs1) + 16 in
  get_range file pos (pos + len) = Some (take (Z.to_nat len) (rec_data r)).
Proof.
  intros [(pre & reserved & gap & post & size & -> & Hpre & Hres & Hgap & _ & _ & _ & _) Hrs _] Hlen. cbv zeta.
  apply Forall_app in Hrs as [_ Hrs]. apply Forall_cons in Hrs as [Hr _]. pose proof (record_head_len _ _ Hr) as Hhl.
  pose proof (length_get_cases lw) as Hlw. rewrite records_bytes_app, records_bytes_cons. unfold record_bytes.
  set (head := collection_head lw size reserved gap).
  assert (Hh : zlen head = 16).
  { unfold head, collection_head. rewrite !zlen_app, zlen_le_bytes. change (zlen GCOL_SIGNATURE) with 4.
    change (zlen [GCOL_VERSION]) with 1. lia. }
  rewrite <- (take_drop (Z.to_nat len) (rec_data r)) at 1.
  replace (pre ++ head ++ _) with
    ((pre ++ head ++ records_bytes lw rs1 ++ record_head lw r) ++ take (Z.to_nat len) (rec_data r) ++
     drop (Z.to_nat len) (rec_data r) ++ rec_pad r ++ records_bytes lw rs2 ++ t ++ post) by (by rewrite <- !app_assoc).
  apply get_range_app; rewrite ?zlen_app, ?zlen_take by done; lia.
Qed.

(** ** The reader *)

Section Readers.
Context `{B : Build} (source : Source) (file : list Z) (lw : LengthWidth) (ids : list GlobalHeapId).
Hypothesis Hserves : serves source file.
Hypothesis Hbytes : Forall byte file.
Hypothesis Hfile : zlen file ≤ U64_MAX.
Hypothesis Hids : Forall (λ id, 0 ≤ id_collection id) ids.

(** A directory records nothing before its walk, and what the walk found after it. *)
Definition dir_ok (address : Z) (d : Directory) : Prop :=
  if directory_walked d
  then ∃ os range, walk_collection source lw address = ok (os, range) ∧
    ∀ i p, entry (directory_objects d) i = Some p → p = payload_of os i
  else ∀ i p, entry (directory_objects d) i = Some p → p = None.

Definition reader_ok (rd : GlobalHeapReader) : Prop :=
  reader_source rd = source ∧ reader_lengths rd = lw ∧
  (∀ a d, reader_directories rd !! a = Some d → 0 ≤ a ∧ dir_ok a d) ∧
  ∀ id, id ∈ ids → ∃ d, reader_directories rd !! id_collection id = Some d ∧
    is_Some (entry (directory_objects d) (id_index id)).

(** The readers that reads lead to. *)
Inductive reader_reaches : GlobalHeapReader → Prop :=
| reaches_new : reader_reaches (GlobalHeapReader.new source lw ids)
| reaches_read rd id len bytes rd' :
    reader_reaches rd → GlobalHeapReader.read rd id len = ok (bytes, rd') → reader_reaches rd'.

(** Registration. *)
Definition fresh (ds : gmap Z Directory) (seen : list GlobalHeapId) : Prop :=
  (∀ a d, ds !! a = Some d → 0 ≤ a ∧ directory_walked d = false ∧ Forall (λ e : Entry, e.2 = None) (directory_objects d)) ∧
  ∀ id, id ∈ seen → ∃ d, ds !! id_collection id = Some d ∧ id_index id ∈ (directory_objects d).*1.

Lemma register_fresh ds seen id :
  fresh ds seen → 0 ≤ id_collection id → fresh (GlobalHeapReader.register ds id) (seen ++ [id]).
Proof.
  intros [H1 H2] Hid. unfold GlobalHeapReader.register. set (d0 := default (mkDirectory [] false) (ds !! id_collection id)).
  assert (Hd0 : directory_walked d0 = false ∧ Forall (λ e : Entry, e.2 = None) (directory_objects d0)).
  { unfold d0. destruct (ds !! id_collection id) as [d|] eqn:E; cbn; [by apply H1 in E as (_ & ?)|by repeat constructor]. }
  split.
  - intros a d. rewrite lookup_insert_Some. intros [[<- <-]|[_ Hd]]; [|by apply (H1 a)]. cbn. split_and!; [done|apply Hd0|].
    apply Forall_app. split; [apply Hd0|by repeat constructor].
  - intros id' [Hin|Heq%list_elem_of_singleton]%elem_of_app; [|subst id'].
    + destruct (H2 id' Hin) as (d & Hd & Hi). destruct (decide (id_collection id' = id_collection id)) as [He|Hne].
      * eexists. rewrite He, lookup_insert_eq. split; [done|]. cbn. rewrite fmap_app, elem_of_app. left.
        unfold d0. rewrite <- He, Hd. done.
      * exists d. by rewrite lookup_insert_ne.
    + eexists. rewrite lookup_insert_eq. split; [done|]. cbn. rewrite fmap_app, elem_of_app. right. left.
Qed.

Lemma register_all l : ∀ ds seen,
  fresh ds seen → Forall (λ id, 0 ≤ id_collection id) l → fresh (fold_left GlobalHeapReader.register l ds) (seen ++ l).
Proof.
  induction l as [|id l IH]; intros ds seen Hf Hl; [by rewrite app_nil_r|]. apply Forall_cons in Hl as [Hid Hl]. cbn [fold_left].
  replace (seen ++ id :: l) with ((seen ++ [id]) ++ l) by (by rewrite <- app_assoc). apply IH; [by apply register_fresh|done].
Qed.

Lemma reader_new_ok : reader_ok (GlobalHeapReader.new source lw ids).
Proof.
  destruct (register_all ids ∅ [] ) as [H1 H2]; [|done|].
  { split; [intros a d; by rewrite lookup_empty|]. intros id Hid. by apply elem_of_nil in Hid. }
  split; [done|]. split; [done|]. unfold GlobalHeapReader.new. cbn [reader_directories].
  assert (Hent : ∀ a d, fold_left GlobalHeapReader.register ids ∅ !! a = Some d →
    unrecorded (dedup_by_index (sort_by_index (directory_objects d))) (dedup_by_index (sort_by_index (directory_objects d))).*1).
  { intros a d Hd. apply unrecorded_fresh, dedup_Forall. rewrite sort_perm. by apply (H1 a d Hd). }
  split.
  - intros a d. rewrite lookup_fmap, fmap_Some. intros (d' & Hd' & ->). destruct (H1 _ _ Hd') as (Ha & Hw & _). split; [done|].
    unfold dir_ok. cbn [directory_walked directory_objects]. rewrite Hw. intros i p. rewrite (Hent _ _ Hd' i). destruct (bool_decide _); naive_solver.
  - intros id Hid. destruct (H2 id Hid) as (d & Hd & Hi). eexists. rewrite lookup_fmap, Hd. split; [done|]. cbn [directory_objects].
    rewrite (Hent _ _ Hd (id_index id)), bool_decide_eq_true_2; [done|]. rewrite dedup_keys, sort_perm. done.
Qed.

Lemma walk_NoDup address os range :
  0 ≤ address → walk_collection source lw address = ok (os, range) → NoDup (object_index <$> os).
Proof.
  intros Ha Hw. pose proof (sound_eq _ _ _ (walk_collection_sound source file lw Hserves Hbytes Hfile address Ha) Hw) as
    (rs & t & _ & Hnd & Hobj & _). by rewrite (objects_at_indices _ _ _ _ Hobj).
Qed.

(** A directory that was walked, or is walked now. *)
Definition walk_dir (rd : GlobalHeapReader) (address : Z) (d : Directory) : exec Directory :=
  if directory_walked d then ok d else Directory.walk d (reader_source rd) (reader_lengths rd) address.

Lemma walk_dir_ok rd address d d' :
  reader_ok rd → reader_directories rd !! address = Some d → walk_dir rd address d = ok d' →
  directory_walked d' = true ∧ dir_ok address d' ∧
  ∀ i, is_Some (entry (directory_objects d') i) ↔ is_Some (entry (directory_objects d) i).
Proof.
  intros (Hs & Hl & Hd & _) Hlook. destruct (Hd _ _ Hlook) as [Ha Hok]. unfold walk_dir.
  destruct (directory_walked d) eqn:Ew; [by intros [= <-]|]. unfold Directory.walk. rewrite Hs, Hl.
  intros ([os range] & Hw & Heq)%and_then_ok_inv. injection Heq as <-. pose proof (walk_NoDup _ _ _ Ha Hw) as Hnd.
  unfold dir_ok in Hok. rewrite Ew in Hok. cbn [directory_walked directory_objects]. split; [done|]. split.
  - exists os, range. split; [done|]. intros i p. cbn [directory_objects]. rewrite record_all by done.
    destruct (payload_of os i) as [q|]; [|by apply Hok]. destruct (entry _ i); [by intros [= <-]|done].
  - intros i. rewrite record_all by done. destruct (payload_of os i); [|done]. by rewrite fmap_is_Some.
Qed.

Lemma reader_update rd address d d' :
  reader_ok rd → reader_directories rd !! address = Some d → dir_ok address d' →
  (∀ i, is_Some (entry (directory_objects d') i) ↔ is_Some (entry (directory_objects d) i)) →
  reader_ok (mkReader (reader_source rd) (reader_lengths rd) (<[address := d']> (reader_directories rd))).
Proof.
  intros (Hs & Hl & Hd & Hi) Hlook Hok Hkeys. split; [done|]. split; [done|]. cbn [reader_directories]. split.
  - intros a x. rewrite lookup_insert_Some. intros [[<- <-]|[_ Hx]]; [|by apply Hd]. split; [by apply (Hd _ _ Hlook)|done].
  - intros id Hid. destruct (Hi id Hid) as (x & Hx & Hk). destruct (decide (id_collection id = address)) as [<-|Hne].
    + exists d'. rewrite lookup_insert_eq. split; [done|]. rewrite Hlook in Hx. injection Hx as ->. by apply Hkeys.
    + exists x. by rewrite lookup_insert_ne by done.
Qed.

Lemma payload_ok rd id p rd' :
  reader_ok rd → GlobalHeapReader.payload rd id = ok (p, rd') → reader_ok rd'.
Proof.
  intros Hrd. unfold GlobalHeapReader.payload. destruct (_ !! id_collection id) as [d|] eqn:El; [|done].
  fold (walk_dir rd (id_collection id) d). intros (d' & Hw & Heq)%and_then_ok_inv.
  destruct (walk_dir_ok _ _ _ _ Hrd El Hw) as (_ & Hok & Hkeys).
  destruct (search_index _ _) as [at_|]; [|done]. destruct (directory_objects d' !! at_) as [[j q]|]; [|done].
  cbn [expect mbind outcome_bind] in Heq. destruct q as [q|]; [|done]. injection Heq as <- <-. by apply (reader_update _ _ d).
Qed.

Lemma reaches_ok rd : reader_reaches rd → reader_ok rd.
Proof.
  induction 1 as [|rd id len bytes rd' _ IH Hread]; [apply reader_new_ok|].
  unfold GlobalHeapReader.read in Hread. apply and_then_ok_inv in Hread as ([p rd1] & Hp & Hread).
  destruct (_ <? len); [done|]. destruct (to_usize len) as [n|]; [|done]. cbn [try_] in Hread.
  apply and_then_ok_inv in Hread as (b & _ & Heq). injection Heq as <- <-. by apply (payload_ok rd id p).
Qed.

(** A registered object: its payload where the collection holds it. *)
Lemma payload_registered rd id os range :
  reader_ok rd → id ∈ ids → walk_collection source lw (id_collection id) = ok (os, range) →
  match payload_of os (id_index id) with
  | Some p => ∃ rd', GlobalHeapReader.payload rd id = ok (p, rd')
  | None => GlobalHeapReader.payload rd id = fail (GlobalHeapObjectNotFound (id_collection id) (id_index id))
  end.
Proof.
  intros Hrd Hid Hwalk. pose proof Hrd as (Hs & Hl & _ & Hi). destruct (Hi id Hid) as (d & El & Hkey).
  unfold GlobalHeapReader.payload. rewrite El. fold (walk_dir rd (id_collection id) d).
  assert (Hw : ∃ d', walk_dir rd (id_collection id) d = ok d').
  { unfold walk_dir, Directory.walk. rewrite Hs, Hl, Hwalk. destruct (directory_walked d); [by eexists|]. rewrite and_then_ok. by eexists. }
  destruct Hw as [d' Hw]. destruct (walk_dir_ok _ _ _ _ Hrd El Hw) as (Ht & Hok & Hkeys). rewrite Hw, and_then_ok. cbv zeta.
  destruct (proj2 (Hkeys _) Hkey) as [p Hp]. unfold dir_ok in Hok. rewrite Ht in Hok. destruct Hok as (os' & range' & Hwalk' & Hpay).
  rewrite Hwalk in Hwalk'. injection Hwalk' as <- <-. rewrite <- (Hpay _ _ Hp).
  destruct (search_entry _ _ _ Hp) as (at_ & j & -> & ->). cbn [expect mbind outcome_bind]. destruct p; [by eexists|done].
Qed.

(** A read of a registered object of a collection that the file holds. *)
Lemma read_record rd address rs t r len :
  reader_reaches rd → heap_at file address lw rs t → NoDup (rec_index <$> rs) → r ∈ rs →
  mkHeapId address (rec_index r) ∈ ids → 0 ≤ len ≤ zlen (rec_data r) → len ≤ USIZE_MAX →
  ∃ rd', GlobalHeapReader.read rd (mkHeapId address (rec_index r)) len = ok (take (Z.to_nat len) (rec_data r), rd') ∧
    reader_reaches rd'.
Proof.
  intros Hreach Hh Hnd Hr Hid Hlen Hu. pose proof (reaches_ok rd Hreach) as Hrd.
  destruct (walk_collection_complete source file lw Hserves Hbytes Hfile address rs t Hh Hnd) as (os & range & Hwalk & Hobj & _).
  destruct (payload_of_record lw _ rs os r Hobj Hnd Hr) as (rs1 & rs2 & o & Heq & Hp & (_ & _ & _ & _ & Hps & Hpe)).
  pose proof (payload_registered rd _ os range Hrd Hid Hwalk) as Hpay. cbn [id_index id_collection] in Hpay. rewrite Hp in Hpay.
  destruct Hpay as [rd' Hpay].
  assert (Hread : GlobalHeapReader.read rd (mkHeapId address (rec_index r)) len = ok (take (Z.to_nat len) (rec_data r), rd')).
  { unfold GlobalHeapReader.read. rewrite Hpay, and_then_ok. cbv beta iota zeta. unfold FileRange.length.
    replace (_ <? len) with false by lia. unfold to_usize. replace (len <=? USIZE_MAX) with true by lia. cbn [try_].
    rewrite Heq in Hh. pose proof (record_data file address lw rs1 r rs2 t len Hh Hlen) as Hg. cbv zeta in Hg.
    assert (Ha : 0 ≤ address).
    { destruct Hh as [(pre & _ & _ & _ & _ & _ & <- & _) _ _]. apply zlen_nonneg. }
    pose proof (zlen_nonneg (records_bytes lw rs1)).
    pose proof (serves_exact _ _ Hserves (range_start (payload_range (object_payload o))) len ltac:(lia) ltac:(lia)) as Hx.
    rewrite Hps, Hg in Hx. assert (reader_source rd' = source) as ->.
    { pose proof (payload_ok rd _ _ rd' Hrd Hpay) as (Hs & _). done. }
    unfold FileRange.start. rewrite Hps, Hx. by rewrite and_then_ok. }
  exists rd'. split; [done|]. by eapply reaches_read.
Qed.

Lemma read_too_long rd address rs t r len :
  reader_reaches rd → heap_at file address lw rs t → NoDup (rec_index <$> rs) → r ∈ rs →
  mkHeapId address (rec_index r) ∈ ids → zlen (rec_data r) < len →
  ∃ e, GlobalHeapReader.read rd (mkHeapId address (rec_index r)) len = fail e.
Proof.
  intros Hreach Hh Hnd Hr Hid Hlen. pose proof (reaches_ok rd Hreach) as Hrd.
  destruct (walk_collection_complete source file lw Hserves Hbytes Hfile address rs t Hh Hnd) as (os & range & Hwalk & Hobj & _).
  destruct (payload_of_record lw _ rs os r Hobj Hnd Hr) as (rs1 & rs2 & o & Heq & Hp & (_ & _ & _ & _ & Hps & Hpe)).
  pose proof (payload_registered rd _ os range Hrd Hid Hwalk) as Hpay. cbn [id_index id_collection] in Hpay. rewrite Hp in Hpay.
  destruct Hpay as [rd' Hpay]. unfold GlobalHeapReader.read. rewrite Hpay, and_then_ok. cbv beta iota zeta. unfold FileRange.length.
  replace (_ <? len) with true by lia. by eexists.
Qed.

Lemma read_missing rd address rs t i len :
  reader_reaches rd → heap_at file address lw rs t → NoDup (rec_index <$> rs) → i ∉ (rec_index <$> rs) →
  mkHeapId address i ∈ ids →
  GlobalHeapReader.read rd (mkHeapId address i) len = fail (GlobalHeapObjectNotFound address i).
Proof.
  intros Hreach Hh Hnd Hi Hid. pose proof (reaches_ok rd Hreach) as Hrd.
  destruct (walk_collection_complete source file lw Hserves Hbytes Hfile address rs t Hh Hnd) as (os & range & Hwalk & Hobj & _).
  pose proof (payload_registered rd _ os range Hrd Hid Hwalk) as Hpay. cbn [id_index id_collection] in Hpay.
  rewrite payload_of_None in Hpay by (by rewrite (objects_at_indices _ _ _ _ Hobj)).
  unfold GlobalHeapReader.read. rewrite Hpay. done.
Qed.

End Readers.

(** The records an encoder writes hold the objects. *)
Lemma encoded_lookup lw objects : ∀ i (n : nat) obj,
  objects !! n = Some obj → ∃ r, r ∈ encoded_records lw i objects ∧ rec_index r = i + 1 + Z.of_nat n ∧ rec_data r = obj.
Proof.
  induction objects as [|x objects IH]; intros i n obj Hl; [done|]. destruct n as [|n]; cbn [lookup list_lookup] in Hl; cbn [encoded_records].
  - injection Hl as <-. eexists. split; [left|]. cbn. split; [lia|done].
  - destruct (IH (i + 1) n obj Hl) as (r & Hr & Hi & Hd). exists r. split; [by right|]. split; [lia|done].
Qed.

Lemma heap_record_byte lw r :
  Forall byte (rec_reserved r) → Forall byte (rec_gap r) → Forall byte (rec_data r) → Forall byte (rec_pad r) →
  Forall byte (record_bytes lw r).
Proof.
  intros. unfold record_bytes, record_head. rewrite !Forall_app. split_and!; (done || apply le_bytes_byte).
Qed.

Lemma zeros_byte n : Forall byte (replicate n 0).
Proof. apply Forall_replicate. unfold byte. lia. Qed.

Lemma encoded_byte lw objects : Forall (Forall byte) objects → Forall byte (encoded_bytes lw objects).
Proof.
  intros Hall. unfold encoded_bytes, collection_head, encoded_tail. cbv zeta. rewrite !Forall_app.
  split_and!; try apply le_bytes_byte; try apply zeros_byte.
  - repeat (constructor; [unfold byte, GCOL_VERSION; lia|]). constructor.
  - repeat (constructor; [unfold byte, GCOL_VERSION; lia|]). constructor.
  - generalize 0 at 1. induction objects as [|x objects IH]; intros i; [constructor|]. apply Forall_cons in Hall as [Hx Hall].
    cbn [encoded_records]. rewrite records_bytes_cons. apply Forall_app. split; [|by apply IH].
    apply heap_record_byte; (done || apply zeros_byte).
Qed.

(** ** The image and its undo journal *)

(** The bytes from a position on replaced. *)
Definition overwrite (l : list Z) (at_ : Z) (raw : list Z) : list Z :=
  take (Z.to_nat at_) l ++ raw ++ drop (Z.to_nat (at_ + zlen raw)) l.

(** What the journal relies on: reads return the bytes of the image, a write replaces the
    bytes of its range, a failed write touches no others, and barriers and flushes change none. *)
Class ImageLaws (I : Type) `{FileImage I} := {
  image_view : I → list Z;
  image_len_view i : image_len i = zlen (image_view i);
  image_read_view i at_ n b : image_read i at_ n = Ok b → get_range (image_view i) at_ (at_ + n) = Some b;
  image_write_view i at_ raw r i' : image_write_at i at_ raw = (r, i') → 0 ≤ at_ → at_ + zlen raw ≤ zlen (image_view i) →
    match r with
    | Ok _ => image_view i' = overwrite (image_view i) at_ raw
    | Err _ => ∃ other, zlen other = zlen raw ∧ image_view i' = overwrite (image_view i) at_ other
    end;
  image_sync_all_view i : image_view (image_sync_all i).2 = image_view i;
  image_sync_data_view i : image_view (image_sync_data i).2 = image_view i;
  image_ordering_view i : image_view (image_ordering_barrier i).2 = image_view i;
  image_flush_view i : image_view (image_flush i).2 = image_view i;
}.

Lemma overwrite_app (p s q raw : list Z) : zlen raw = zlen s → overwrite (p ++ s ++ q) (zlen p) raw = p ++ raw ++ q.
Proof.
  intros Hl. unfold overwrite. rewrite Hl. unfold zlen. rewrite Nat2Z.id, take_app_length.
  replace (Z.to_nat (Z.of_nat (length p) + Z.of_nat (length s))) with (length (p ++ s)) by (rewrite length_app; lia).
  by rewrite (app_assoc p s q), drop_app_length.
Qed.

Lemma overwrite_at (l raw : list Z) at_ :
  0 ≤ at_ → at_ + zlen raw ≤ zlen l →
  ∃ p s q, l = p ++ s ++ q ∧ zlen p = at_ ∧ zlen s = zlen raw ∧ overwrite l at_ raw = p ++ raw ++ q.
Proof.
  intros Ha Hl. pose proof (zlen_nonneg raw). destruct (get_range_within l at_ (at_ + zlen raw)) as [s Hs]; [lia|lia|].
  destruct (get_range_split _ _ _ _ Hs) as (p & q & -> & <- & Hz). exists p, s, q.
  split_and!; [done|done|lia|]. apply overwrite_app. lia.
Qed.

Lemma overwrite_len l raw at_ : 0 ≤ at_ → at_ + zlen raw ≤ zlen l → zlen (overwrite l at_ raw) = zlen l.
Proof. intros Ha Hl. destruct (overwrite_at l raw at_ Ha Hl) as (p & s & q & -> & <- & Hs & ->). rewrite !zlen_app. lia. Qed.

(** Putting back what was there. *)
Lemma overwrite_back l raw at_ prior :
  0 ≤ at_ → get_range l at_ (at_ + zlen raw) = Some prior → overwrite (overwrite l at_ raw) at_ prior = l.
Proof.
  intros Ha Hg. destruct (get_range_split _ _ _ _ Hg) as (p & q & -> & <- & Hz).
  rewrite (overwrite_app p prior q raw) by lia. by rewrite overwrite_app by lia.
Qed.

(** Two files that differ only from [address] to [address + size]. *)
Definition same_outside (file file' : list Z) (address size : Z) : Prop :=
  ∃ pre s s' post, file = pre ++ s ++ post ∧ file' = pre ++ s' ++ post ∧ zlen pre = address ∧ zlen s = size ∧ zlen s' = size.

Lemma same_outside_refl v address size : 0 ≤ address → 0 ≤ size → address + size ≤ zlen v → same_outside v v address size.
Proof.
  intros Ha Hs Hl. destruct (get_range_within v address (address + size)) as [x Hx]; [lia|lia|].
  destruct (get_range_split _ _ _ _ Hx) as (p & q & -> & <- & Hz). exists p, x, x, q. split_and!; (done || lia).
Qed.

Lemma same_outside_len v v' address size :
  same_outside v v' address size → zlen v' = zlen v ∧ 0 ≤ address ∧ address + size ≤ zlen v.
Proof.
  intros (p & x & y & q & -> & -> & <- & Hx & Hy). rewrite !zlen_app. pose proof (zlen_nonneg p). pose proof (zlen_nonneg q). lia.
Qed.

(** Overwriting in the range keeps what is outside it. *)
Lemma overwrite_outside v v' address size at_ raw :
  same_outside v v' address size → address ≤ at_ → at_ + zlen raw ≤ address + size →
  same_outside v (overwrite v' at_ raw) address size.
Proof.
  intros (p & x & y & q & -> & -> & <- & Hx & Hy) Ha Hl.
  destruct (overwrite_at y raw (at_ - zlen p)) as (p' & s' & q' & -> & Hp' & Hs' & _); [lia|lia|].
  exists p, x, (p' ++ raw ++ q'), q. rewrite !zlen_app in *. split_and!; [done| |done|done|lia].
  replace (p ++ (p' ++ s' ++ q') ++ q) with ((p ++ p') ++ s' ++ q' ++ q) by (by rewrite <- !app_assoc).
  replace at_ with (zlen (p ++ p')) by (rewrite zlen_app; lia). rewrite overwrite_app by done. by rewrite <- !app_assoc.
Qed.

(** The bytes the entries put back, the last entry first. *)
Definition undone (view : list Z) (entries : list (Z * list Z)) : list Z :=
  fold_left (λ v e, overwrite v e.1 e.2) (reverse entries) view.

Lemma undone_snoc view entries at_ prior :
  undone view (entries ++ [(at_, prior)]) = undone (overwrite view at_ prior) entries.
Proof. unfold undone. by rewrite reverse_app. Qed.

(** What a scope starts from, and the range it writes in. *)
Record Checkpoint : Type := mkCheckpoint {
  ck_start : Z;
  ck_size : Z;
  ck_bytes : list Z;
  ck_journal : list (Z * list Z);
  ck_allocations : AllocationPublication;
}.

(** The image with its pending writes discarded, any number of times. *)
Definition discarded {I : Type} `{FileImage I} (image image' : I) : Prop :=
  ∃ k, image' = Nat.iter k image_discard_pending_writes image.

Lemma discarded_refl {I : Type} `{FileImage I} (image : I) : discarded image image.
Proof. by exists 0%nat. Qed.


Section Journals.
Context `{B : Build} {I : Type} `{FileImage I} `{!ImageLaws I}.
Implicit Types (self : WriteEngine I).

Notation view self := (image_view (engine_image self)).

(** An entry within the range of the scope. *)
Definition entry_within (ck : Checkpoint) (e : Z * list Z) : Prop :=
  ck_start ck ≤ e.1 ∧ e.1 + zlen e.2 ≤ ck_start ck + ck_size ck.

(** The bytes outside the range of the scope are those of the checkpoint. *)
Definition confined (ck : Checkpoint) (v : list Z) : Prop := same_outside (ck_bytes ck) v (ck_start ck) (ck_size ck).

(** The journal holds that of the checkpoint, and behind it the entries that lead back to it. *)
Definition journaled (ck : Checkpoint) (self : WriteEngine I) : Prop :=
  engine_allocations self = ck_allocations ck ∧ confined ck (view self) ∧
  ∃ entries, inplace_undo self = ck_journal ck ++ entries ∧ undone (view self) entries = ck_bytes ck ∧
    Forall (entry_within ck) entries.

Definition checkpoint_of (self : WriteEngine I) (start size : Z) : Checkpoint :=
  mkCheckpoint start size (view self) (inplace_undo self) (engine_allocations self).

Lemma journaled_start self start size :
  0 ≤ start → 0 ≤ size → start + size ≤ zlen (view self) → journaled (checkpoint_of self start size) self.
Proof.
  intros Ha Hs Hl. split; [done|]. split; [by apply same_outside_refl|]. exists []. rewrite app_nil_r. by split_and!.
Qed.

(** A write of any bytes, or of some when it fails, stays within the range. *)
Lemma write_confined ck image at_ raw r image' :
  confined ck (image_view image) → entry_within ck (at_, raw) → image_write_at image at_ raw = (r, image') →
  confined ck (image_view image') ∧
  ∃ other, zlen other = zlen raw ∧ image_view image' = overwrite (image_view image) at_ other ∧ (r = Ok tt → other = raw).
Proof.
  intros Hc [Ha Hl] Hw. cbn [fst snd] in *. pose proof (same_outside_len _ _ _ _ Hc) as (Hz & H0 & Hle).
  assert (Hb : 0 ≤ at_ ∧ at_ + zlen raw ≤ zlen (image_view image)) by lia.
  pose proof (image_write_view _ _ _ _ _ Hw (proj1 Hb) (proj2 Hb)) as Hv.
  assert (∃ other, zlen other = zlen raw ∧ image_view image' = overwrite (image_view image) at_ other ∧ (r = Ok tt → other = raw))
    as (other & Ho & Hv' & Hr).
  { destruct r as [[]|e]; [by exists raw|]. destruct Hv as (other & ? & ?). by exists other. }
  split; [|by exists other]. rewrite Hv'. apply overwrite_outside; [done|done|lia].
Qed.

(** A write adds the entry that undoes it, whether it succeeds or not. *)
Lemma write_journaled ck self at_ raw r self' :
  journaled ck self → entry_within ck (at_, raw) → write_inplace_journaled self at_ raw = (r, self') →
  journaled ck self' ∧ (r = Ok tt → view self' = overwrite (view self) at_ raw).
Proof.
  intros (Hal & Hc & entries & Hu & Hb & Hall) Hin. unfold write_inplace_journaled.
  destruct (image_read (engine_image self) at_ (zlen raw)) as [prior|e] eqn:Er.
  2:{ intros [= <- <-]. split; [|done]. split; [done|]. split; [done|]. by exists entries. }
  apply image_read_view in Er. pose proof (get_range_zlen _ _ _ _ Er) as Hz. cbn [engine_image with_undo].
  destruct (image_write_at (engine_image self) at_ raw) as [r' i'] eqn:Ew. intros [= <- <-].
  destruct (write_confined _ _ _ _ _ _ Hc Hin Ew) as (Hc' & other & Ho & Hv & Hr). cbn [with_image engine_image].
  split; [|intros Hok; by rewrite Hv, Hr]. destruct Hin as [Hin1 Hin2]. cbn [fst snd] in *.
  pose proof (same_outside_len _ _ _ _ Hc) as (Hlen & H0 & Hle). split; [done|]. split; [done|]. exists (entries ++ [(at_, prior)]). cbn.
  rewrite Hu, undone_snoc, Hv, overwrite_back, app_assoc; [|lia|by rewrite Ho].
  split_and!; [done|done|]. apply Forall_app. split; [done|]. constructor; [|done]. split; cbn [fst snd]; lia.
Qed.

Lemma restore_spec ck entries : ∀ image failed failed' image',
  Forall (entry_within ck) entries → confined ck (image_view image) →
  restore_entries image entries failed = (failed', image') →
  confined ck (image_view image') ∧
  (failed' = None → failed = None ∧ image_view image' = fold_left (λ v e, overwrite v e.1 e.2) entries (image_view image)).
Proof.
  induction entries as [|[at_ prior] entries IH]; intros image failed failed' image' Hall Hc; cbn [restore_entries fold_left].
  { by intros [= -> <-]. }
  apply Forall_cons in Hall as [He Hall]. destruct (image_write_at image at_ prior) as [r i'] eqn:Ew.
  destruct (write_confined _ _ _ _ _ _ Hc He Ew) as (Hc' & other & _ & Hv & Hr).
  intros Hrs. destruct (IH _ _ _ _ Hall Hc' Hrs) as [Hc2 Hn]. split; [done|]. intros Hnone. destruct (Hn Hnone) as [Hf Hv2].
  destruct r as [[]|e]; [|by destruct failed]. split; [done|]. cbn [fst snd]. by rewrite Hv2, Hv, Hr.
Qed.

(** A step that may fail and changes neither the bytes, the journal nor the allocations. *)
Definition quiet (self : WriteEngine I) (x : result unit Error * WriteEngine I) : Prop :=
  view x.2 = view self ∧ inplace_undo x.2 = inplace_undo self ∧ engine_allocations x.2 = engine_allocations self.

Lemma barrier_data_quiet self : quiet self (barrier_data self).
Proof.
  unfold barrier_data. destruct (engine_sync_policy self).
  - pose proof (image_sync_data_view (engine_image self)) as Hv. by destruct (image_sync_data _) as [r' i'].
  - pose proof (image_ordering_view (engine_image self)) as Hv. by destruct (image_ordering_barrier _) as [r' i'].
Qed.

Lemma barrier_quiet self : quiet self (barrier self).
Proof.
  unfold barrier. destruct (engine_sync_policy self).
  - pose proof (image_sync_all_view (engine_image self)) as Hv. by destruct (image_sync_all _) as [r' i'].
  - pose proof (image_ordering_view (engine_image self)) as Hv. by destruct (image_ordering_barrier _) as [r' i'].
Qed.


Lemma journaled_quiet ck self x : journaled ck self → quiet self x → journaled ck x.2.
Proof. intros (Hal & Hc & entries & Hj) (Hv & Hu & Ha). split; [by rewrite Ha|]. split; [by rewrite Hv|]. exists entries. by rewrite Hv, Hu. Qed.

(** The undo puts the image back, unless a restoration fails; it stays within the range. *)
Lemma undo_spec ck self r self' :
  journaled ck self → undo_inplace_since self (length (ck_journal ck)) = (r, self') →
  inplace_undo self' = ck_journal ck ∧ engine_allocations self' = ck_allocations ck ∧ confined ck (view self') ∧
  (r = Ok tt → view self' = ck_bytes ck).
Proof.
  intros (Hal & Hc & entries & Hu & Hb & Hall). unfold undo_inplace_since. rewrite Hu, drop_app_length, take_app_length.
  rewrite bool_decide_eq_false_2 by (rewrite length_app; lia).
  destruct (restore_entries (engine_image self) (reverse entries) None) as [failed image] eqn:Er.
  destruct (restore_spec ck _ _ _ _ _ ltac:(by apply Forall_reverse) Hc Er) as [Hc' Hv].
  destruct (negb _) eqn:En.
  - intros [= <- <-]. cbn. split_and!; [done|done|done|]. intros _. apply negb_true_iff, bool_decide_eq_false in En.
    rewrite length_app in En. assert (entries = []) as -> by (apply length_zero_iff_nil; lia). cbn in Er. by injection Er as <- <-.
  - destruct failed as [e|]; [by intros [= <- <-]|]. destruct (Hv eq_refl) as [_ Hv']. intros Hq.
    match type of Hq with barrier_data ?e = _ => pose proof (barrier_data_quiet e) as (Hbv & Hbu & Hba) end.
    rewrite Hq in Hbv, Hbu, Hba. cbn in Hbv, Hbu, Hba. rewrite Hbv. split_and!; [done|by rewrite Hba|done|]. intros _. by rewrite Hv'.
Qed.

(** Failing in a scope: the writes are taken back, or the error says that they were not; then
    the image may differ in the range of the scope, and nowhere else, up to the pending writes
    that are discarded. *)
Definition taken_back (ck : Checkpoint) (self : WriteEngine I) : Prop :=
  view self = ck_bytes ck ∧ inplace_undo self = ck_journal ck ∧ engine_allocations self = ck_allocations ck.

Definition half_written (ck : Checkpoint) (self : WriteEngine I) (e : Error) : Prop :=
  (∃ refusal restore, e = CommitPartiallyApplied refusal restore) ∧ inplace_undo self = ck_journal ck ∧
  ∃ image, discarded image (engine_image self) ∧ confined ck (image_view image).

Lemma nothing_written ck self :
  journaled ck self → length (inplace_undo self) = length (ck_journal ck) → taken_back ck self.
Proof.
  intros (Hal & _ & entries & Hu & Hb & _) Hl. rewrite Hu, length_app in Hl. assert (entries = []) as -> by (apply length_zero_iff_nil; lia).
  rewrite app_nil_r in Hu. by split_and!.
Qed.

(** A scope that completes keeps its writes, one that fails takes them back. *)
Lemma complete_spec ck self res :
  journaled ck self →
  let x := complete self (length (ck_journal ck)) res in
  match x.1 with
  | Ok _ => res = Ok tt ∧ view x.2 = view self ∧ inplace_undo x.2 = ck_journal ck ∧ engine_allocations x.2 = ck_allocations ck
  | Err e => taken_back ck x.2 ∨ half_written ck x.2 e
  end.
Proof.
  intros Hj. cbv zeta. unfold complete. destruct (bool_decide _) eqn:Ed.
  { apply bool_decide_eq_true in Ed. destruct (nothing_written _ _ Hj Ed) as (H1 & H2 & H3). cbn [fst snd].
    destruct res as [[]|e]; [by split_and!|]. by left. }
  assert (Hundo : ∀ self1 refusal, journaled ck self1 →
    let x := let '(r, self) := undo_inplace_since self1 (length (ck_journal ck)) in
      match r with Ok _ => (Err (A := unit) refusal, self) | Err restore => (Err (CommitPartiallyApplied refusal restore), self) end in
    ∃ e, x.1 = Err e ∧ (taken_back ck x.2 ∨ half_written ck x.2 e)).
  { intros self1 refusal Hj1. cbv zeta. destruct (undo_inplace_since self1 _) as [r2 self3] eqn:Eu.
    destruct (undo_spec _ _ _ _ Hj1 Eu) as (Hp & Ha & Hc & Hv). destruct r2 as [[]|e]; cbn [fst snd]; eexists; (split; [done|]).
    - left. split_and!; [by apply Hv|done|done].
    - right. split_and!; [by do 2 eexists|done|]. eexists. split; [apply discarded_refl|done]. }
  destruct res as [[]|e].
  - pose proof (barrier_quiet self) as Hq. pose proof (journaled_quiet _ _ _ Hj Hq) as Hj1. destruct Hq as (Hbv & Hbu & Hba).
    destruct (barrier self) as [[[]|e] self1]; cbn [fst snd] in *.
    + destruct Hj1 as (Hal & _ & entries & Hu & _). cbn. rewrite Hu, take_app_length. by split_and!.
    + destruct (Hundo self1 e Hj1) as (e' & -> & Hor). exact Hor.
  - destruct (Hundo self e Hj) as (e' & -> & Hor). exact Hor.
Qed.


End Journals.

(** ** Moving records towards the start *)

Section Moves.
Context `{B : Build} {I : Type} `{FileImage I} `{!ImageLaws I}.
Context (ck : Checkpoint) (parent : FileRange).
Hypothesis Hparent : range_end parent ≤ U64_MAX.
Hypothesis Hck : ck_start ck = range_start parent ∧ ck_start ck + ck_size ck = range_end parent.

Notation view self := (image_view (engine_image (I := I) self)).

Lemma copy_range_ok start copied length :
  0 ≤ start → 0 ≤ copied → 0 ≤ length → start + copied + length ≤ U64_MAX →
  ∃ r, copy_range start copied length = ok r ∧ range_start r = start + copied ∧ range_end r = start + copied + length.
Proof.
  intros. unfold copy_range, Address.checked_add, checked_add. replace (_ <=? U64_MAX) with true by lia. cbn [ok_or try_].
  by apply range_new_ok; lia.
Qed.

Lemma contained_ok range :
  range_start parent ≤ range_start range → range_end range ≤ range_end parent → contained parent range = Ok tt.
Proof. intros. unfold contained, FileRange.contains, AddressRange.contains. by replace (_ && _) with true by lia. Qed.

(** The bytes [R2] of a record that are left to copy: behind the gap [J], which they move over. *)
Lemma copy_loop_spec fuel : ∀ (self : WriteEngine I) source destination A R1 J R2 X,
  journaled ck self → view self = A ++ R1 ++ J ++ R2 ++ X →
  range_start destination = zlen A → range_start source = zlen A + zlen J →
  range_end source = zlen A + zlen J + zlen R1 + zlen R2 →
  range_start parent ≤ zlen A → range_end source ≤ range_end parent → zlen R2 ≤ Z.of_nat fuel →
  copy_loop fuel self parent source destination (zlen R1) ⇝ (λ '(r, self'),
    journaled ck self' ∧
    (r = Ok tt → ∃ J', zlen J' = zlen J ∧ view self' = A ++ R1 ++ R2 ++ J' ++ X)).
Proof.
  induction fuel as [|fuel IH]; intros self source destination A R1 J R2 X Hj Hv Hd Hs He Hp1 Hp2 Hf;
    pose proof (zlen_nonneg A); pose proof (zlen_nonneg R1); pose proof (zlen_nonneg R2); pose proof (zlen_nonneg J);
    cbn [copy_loop]; unfold FileRange.length, FileRange.start.
  { replace (_ <=? zlen R1) with true by lia. apply returns_ret. split; [done|]. intros _. exists J. split; [done|].
    destruct R2; [done|rewrite zlen_cons in Hf; pose proof (zlen_nonneg R2); lia]. }
  destruct (_ <=? zlen R1) eqn:E.
  { apply returns_ret. split; [done|]. intros _. exists J. split; [done|].
    destruct R2; [done|]. rewrite zlen_cons in He. pose proof (zlen_nonneg R2). lia. }
  pose proof usize_bounds as Hub. unfold COPY_BYTES. set (len := Z.min _ 4096).
  assert (Hlen : len = Z.min (zlen R2) 4096) by lia. clearbody len.
  destruct (copy_range_ok (range_start source) (zlen R1) len) as (read & -> & Hr1 & Hr2); [lia..|]. rewrite and_then_ok.
  destruct (copy_range_ok (range_start destination) (zlen R1) len) as (write & -> & Hw1 & Hw2); [lia..|]. rewrite and_then_ok.
  rewrite !contained_ok by lia. cbn [try_]. unfold to_usize. replace (len <=? USIZE_MAX) with true by lia.
  cbn [try_ ok mbind outcome_bind]. rewrite Hr1, Hw1.
  set (C := take (Z.to_nat len) R2). set (R2' := drop (Z.to_nat len) R2).
  assert (HR : R2 = C ++ R2') by (unfold C, R2'; by rewrite take_drop).
  assert (HC : zlen C = len) by (apply zlen_take; lia).
  destruct (image_read (engine_image self) (range_start source + zlen R1) len) as [bytes|e] eqn:Er.
  2:{ apply returns_ret. by split. }
  apply image_read_view in Er. rewrite Hv, HR in Er.
  replace (A ++ R1 ++ J ++ (C ++ R2') ++ X) with ((A ++ R1 ++ J) ++ C ++ R2' ++ X) in Er by (by rewrite <- !app_assoc).
  rewrite (get_range_app (A ++ R1 ++ J) C (R2' ++ X)) in Er by (rewrite ?zlen_app; lia). injection Er as <-.
  destruct (write_inplace_journaled self (range_start destination + zlen R1) C) as [r self'] eqn:Ew.
  apply (write_journaled ck) in Ew as [Hj' Hok]; [|done|].
  2:{ split; cbn [fst snd]; lia. }
  destruct r as [[]|e]; [|apply returns_ret; by split].
  set (S0 := take (Z.to_nat len) (J ++ C)). set (J' := drop (Z.to_nat len) (J ++ C)).
  assert (HJ : J ++ C = S0 ++ J') by (unfold S0, J'; by rewrite take_drop).
  assert (HS : zlen S0 = len) by (apply zlen_take; rewrite zlen_app; lia).
  assert (HJl : zlen J' = zlen J) by (apply (f_equal zlen) in HJ; rewrite !zlen_app in HJ; lia).
  assert (Hv' : view self' = A ++ (R1 ++ C) ++ J' ++ R2' ++ X).
  { rewrite Hok by done. rewrite Hv, HR.
    replace (A ++ R1 ++ J ++ (C ++ R2') ++ X) with ((A ++ R1) ++ S0 ++ J' ++ R2' ++ X)
      by (rewrite (app_assoc S0), <- HJ; by rewrite <- !app_assoc).
    rewrite Hd, <- zlen_app, overwrite_app by lia. by rewrite <- !app_assoc. }
  assert (HR1 : zlen (R1 ++ C) = zlen R1 + len) by (rewrite zlen_app; lia).
  assert (HR2 : zlen R2 = len + zlen R2') by (rewrite HR, zlen_app; lia).
  rewrite <- HR1. eapply returns_mono; [apply (IH self' source destination A (R1 ++ C) J' R2' X Hj' Hv'); [done|lia..]|].
  intros [r self''] [Hj'' Hr]. split; [done|]. intros Hrok. destruct (Hr Hrok) as (J'' & HJ'' & ->).
  exists J''. split; [lia|]. rewrite HR. by rewrite <- !app_assoc.
Qed.

Context (lw : LengthWidth) (remove : GlobalHeapObject → bool).

(** The records whose objects are not removed. *)
Fixpoint kept (rs : list HeapRecord) (os : list GlobalHeapObject) : list HeapRecord :=
  match rs, os with
  | r :: rs, o :: os => if remove o then kept rs os else r :: kept rs os
  | _, _ => []
  end.

(** The moves that pack the records from [pos] on at [dest]. *)
Fixpoint packs (dest pos : Z) (rs : list HeapRecord) (os : list GlobalHeapObject) (ms : list GlobalHeapMove) : Prop :=
  match rs, os with
  | [], [] => ms = []
  | r :: rs, o :: os =>
    let n := zlen (record_bytes lw r) in
    if remove o then packs dest (pos + n) rs os ms
    else if dest =? pos then packs (dest + n) (pos + n) rs os ms
    else match ms with
      | m :: ms => move_object m = o ∧ range_start (move_destination m) = dest ∧ packs (dest + n) (pos + n) rs os ms
      | [] => False
      end
  | _, _ => False
  end.

Definition count_removed (os : list GlobalHeapObject) : Z := zlen (filter (λ o, remove o = true) os).

Lemma count_removed_cons o os : count_removed (o :: os) = if remove o then 1 + count_removed os else count_removed os.
Proof.
  unfold count_removed. rewrite filter_cons. destruct (remove o) eqn:E; [by rewrite decide_True, zlen_cons by done|].
  by rewrite decide_False by done.
Qed.

Lemma pack_spec rs : ∀ pos os dest moves removed,
  objects_at lw pos rs os → 0 ≤ dest ≤ pos → pos + zlen (records_bytes lw rs) ≤ U64_MAX →
  ∃ ms, GlobalHeapMembers.pack remove os dest moves removed =
      ok (dest + zlen (records_bytes lw (kept rs os)), moves ++ ms, removed + count_removed os) ∧
    packs dest pos rs os ms.
Proof.
  induction rs as [|r rs IH]; intros pos [|o os] dest moves removed Hos Hd Hu; [|by destruct Hos..|].
  { exists []. cbn. rewrite app_nil_r. change (zlen _) with 0. change (count_removed []) with 0. by rewrite !Z.add_0_r. }
  destruct Hos as [(Hi & Hc & Ho1 & Ho2 & _) Hos]. rewrite records_bytes_cons, zlen_app in Hu.
  pose proof (zlen_nonneg (record_bytes lw r)) as Hn. pose proof (zlen_nonneg (records_bytes lw rs)).
  cbn [GlobalHeapMembers.pack kept packs]. cbv zeta. rewrite count_removed_cons. destruct (remove o) eqn:Er.
  - destruct (IH _ os dest moves (removed + 1) Hos) as (ms & -> & Hms); [lia|lia|]. exists ms. split; [|done]. by rewrite Z.add_assoc.
  - unfold FileRange.length. replace (range_end (object_range o) - range_start (object_range o)) with (zlen (record_bytes lw r)) by lia.
    destruct (range_new_ok dest (zlen (record_bytes lw r))) as (range & -> & Hr1 & Hr2); [lia..|]. rewrite and_then_ok. cbv zeta.
    unfold FileRange.end_, FileRange.start. rewrite Hr2, Ho1. rewrite records_bytes_cons, zlen_app.
    destruct (dest =? pos) eqn:Ed; cbn [negb].
    + destruct (IH _ os (dest + zlen (record_bytes lw r)) moves removed Hos) as (ms & -> & Hms); [lia|lia|].
      exists ms. split; [|done]. by rewrite Z.add_assoc.
    + destruct (IH _ os (dest + zlen (record_bytes lw r)) (moves ++ [mkMove o range]) removed Hos) as (ms & -> & Hms); [lia|lia|].
      exists (mkMove o range :: ms). split; [|by cbn]. by rewrite <- app_assoc, Z.add_assoc.
Qed.

(** The moves turn the records into the kept ones; the rest of their room is a gap. *)
Lemma apply_moves_spec rs : ∀ (self : WriteEngine I) pos os ms A J X,
  journaled ck self → view self = A ++ J ++ records_bytes lw rs ++ X → pos = zlen A + zlen J →
  objects_at lw pos rs os → packs (zlen A) pos rs os ms →
  range_start parent ≤ zlen A → pos + zlen (records_bytes lw rs) ≤ range_end parent →
  apply_moves self parent ms ⇝ (λ '(r, self'),
    journaled ck self' ∧
    (r = Ok tt → ∃ J', view self' = A ++ records_bytes lw (kept rs os) ++ J' ++ X ∧
       zlen J' = zlen J + zlen (records_bytes lw rs) - zlen (records_bytes lw (kept rs os)))).
Proof.
  induction rs as [|r rs IH]; intros self pos [|o os] ms A J X Hj Hv -> Hos Hp Hp1 Hp2; [|by destruct Hos..|].
  { cbn in Hp. subst ms. apply returns_ret. split; [done|]. intros _. exists J. split; [done|]. cbn [kept]. lia. }
  destruct Hos as [(Hi & Hc & Ho1 & Ho2 & _) Hos]. rewrite records_bytes_cons in Hv, Hp2. rewrite zlen_app in Hp2.
  rewrite records_bytes_cons, zlen_app. cbn [kept packs] in *. cbv zeta in Hp.
  pose proof (zlen_nonneg (record_bytes lw r)) as Hn. pose proof (zlen_nonneg (records_bytes lw rs)). pose proof (zlen_nonneg A).
  destruct (remove o) eqn:Er.
  - eapply returns_mono; [apply (IH self (zlen A + zlen J + zlen (record_bytes lw r)) os ms A (J ++ record_bytes lw r) X Hj)|].
    + by rewrite Hv, <- !app_assoc.
    + by rewrite zlen_app, Z.add_assoc.
    + done.
    + done.
    + done.
    + lia.
    + intros [r' self'] [Hj' Hr]. split; [done|]. intros Hok. destruct (Hr Hok) as (J' & Hv' & HJ). exists J'. split; [done|].
      rewrite zlen_app in HJ. lia.
  - rewrite records_bytes_cons, zlen_app. destruct (zlen A =? zlen A + zlen J) eqn:Ed.
    + assert (J = []) as -> by (apply length_zero_iff_nil; unfold zlen in Ed; lia). rewrite zlen_nil in *. rewrite Z.add_0_r in *.
      eapply returns_mono; [apply (IH self (zlen A + zlen (record_bytes lw r)) os ms (A ++ record_bytes lw r) [] X Hj)|].
      * rewrite Hv. cbn [app]. by rewrite <- !app_assoc.
      * rewrite zlen_app, zlen_nil. lia.
      * done.
      * by rewrite zlen_app.
      * rewrite zlen_app. lia.
      * lia.
      * intros [r' self'] [Hj' Hr]. split; [done|]. intros Hok. destruct (Hr Hok) as (J' & Hv' & HJ). exists J'.
        split; [by rewrite Hv', <- !app_assoc|]. rewrite zlen_nil in HJ. lia.
    + destruct ms as [|m ms]; [done|]. destruct Hp as (Hm & Hm1 & Hp). cbn [apply_moves]. rewrite Hm.
      eapply returns_bind; [apply (copy_loop_spec _ self _ _ A [] J (record_bytes lw r) (records_bytes lw rs ++ X) Hj)|].
      * rewrite Hv. cbn [app]. by rewrite <- !app_assoc.
      * done.
      * lia.
      * rewrite zlen_nil. lia.
      * done.
      * lia.
      * unfold FileRange.length. lia.
      * intros [r1 self1] [Hj1 Hr1]. destruct r1 as [[]|e]; [|apply returns_ret; by split].
        destruct (Hr1 eq_refl) as (J1 & HJ1 & Hv1). cbn [app] in Hv1.
        eapply returns_mono; [apply (IH self1 (zlen A + zlen J + zlen (record_bytes lw r)) os ms (A ++ record_bytes lw r) J1 X Hj1)|].
        -- by rewrite Hv1, <- !app_assoc.
        -- rewrite zlen_app, HJ1. lia.
        -- done.
        -- by rewrite zlen_app.
        -- rewrite zlen_app. lia.
        -- lia.
        -- intros [r' self'] [Hj' Hr]. split; [done|]. intros Hok. destruct (Hr Hok) as (J' & Hv' & HJ). exists J'.
           split; [by rewrite Hv', <- !app_assoc|]. lia.
Qed.

Lemma kept_all rs : ∀ pos os, objects_at lw pos rs os → count_removed os = 0 → kept rs os = rs.
Proof.
  induction rs as [|r rs IH]; intros pos [|o os] Hos Hc; [done|by destruct Hos..|]. destruct Hos as [_ Hos].
  rewrite count_removed_cons in Hc. cbn [kept]. destruct (remove o).
  - assert (0 ≤ count_removed os) by apply zlen_nonneg. lia.
  - f_equal. by eapply IH.
Qed.

Lemma kept_len rs : ∀ pos os,
  objects_at lw pos rs os → Forall (record_ok lw) rs →
  zlen (records_bytes lw (kept rs os)) + 16 * count_removed os ≤ zlen (records_bytes lw rs) ∧
  (zlen (records_bytes lw rs) - zlen (records_bytes lw (kept rs os))) mod 8 = 0.
Proof.
  induction rs as [|r rs IH]; intros pos [|o os] Hos Hrs; [done|by destruct Hos..|]. destruct Hos as [_ Hos].
  apply Forall_cons in Hrs as [Hr Hrs]. destruct (IH _ os Hos Hrs) as [IH1 IH2]. pose proof (record_len_bounds _ _ Hr) as (H16 & Hm8 & _).
  rewrite count_removed_cons. cbn [kept]. rewrite records_bytes_cons, zlen_app. destruct (remove o).
  - split; [lia|]. replace (_ - _) with (zlen (record_bytes lw r) + (zlen (records_bytes lw rs) - zlen (records_bytes lw (kept rs os)))) by lia.
    by rewrite Zplus_mod, Hm8, IH2.
  - rewrite records_bytes_cons, zlen_app. split; [lia|].
    by replace (_ - _) with (zlen (records_bytes lw rs) - zlen (records_bytes lw (kept rs os))) by lia.
Qed.

Lemma kept_Forall (P : HeapRecord → Prop) rs : ∀ os, Forall P rs → Forall P (kept rs os).
Proof.
  induction rs as [|r rs IH]; intros [|o os] Hrs; cbn [kept]; try done. apply Forall_cons in Hrs as [Hr Hrs].
  destruct (remove o); [by apply IH|]. constructor; [done|by apply IH].
Qed.

Lemma kept_indices rs : ∀ os, (rec_index <$> kept rs os) `sublist_of` (rec_index <$> rs).
Proof.
  induction rs as [|r rs IH]; intros [|o os]; cbn [kept]; try apply sublist_nil_l. rewrite !fmap_cons.
  destruct (remove o); rewrite ?fmap_cons; by constructor.
Qed.

Lemma kept_count rs : ∀ pos os, objects_at lw pos rs os → zlen (kept rs os) = zlen os - count_removed os.
Proof.
  induction rs as [|r rs IH]; intros pos [|o os] Hos; [done|by destruct Hos..|]. destruct Hos as [_ Hos].
  specialize (IH _ os Hos). rewrite count_removed_cons, zlen_cons. cbn [kept]. destruct (remove o); rewrite ?zlen_cons; lia.
Qed.

(** The header of the free space of [n] bytes. *)
Definition free_head (n : Z) : list Z :=
  le_bytes 2 0 ++ le_bytes 2 0 ++ replicate 4 0 ++ lbytes lw n ++ replicate (Z.to_nat (8 - LengthWidth.get lw)) 0.

Lemma free_head_len n : zlen (free_head n) = 16.
Proof.
  pose proof (length_get_cases lw). unfold free_head. rewrite !zlen_app, !zlen_le_bytes, !zlen_replicate. lia.
Qed.

Lemma free_head_write n :
  fits (LengthWidth.get lw) n → write_length_at (replicate (Z.to_nat FREE_HEADER_LEN) 0) 8 n lw = ok (free_head n).
Proof.
  intros Hf. pose proof (length_get_cases lw) as Hlw. pose proof usize_bounds as Hub. unfold write_length_at, require_length.
  rewrite (proj2 (length_holds lw n (length_fits_u64 _ _ Hf)) Hf). cbn [negb try_]. unfold ensure_len.
  change (Z.to_nat FREE_HEADER_LEN) with 16%nat. rewrite zlen_replicate. replace (_ && _) with true by lia. cbn [try_].
  rewrite take_le_bytes by lia.
  replace (replicate 16 0) with (replicate 8 0 ++ replicate (Z.to_nat (LengthWidth.get lw)) 0 ++ replicate (Z.to_nat (8 - LengthWidth.get lw)) 0).
  2:{ rewrite <- !replicate_add. f_equal. lia. }
  pose proof (splice_app (replicate 8 0) (replicate (Z.to_nat (LengthWidth.get lw)) 0) (replicate (Z.to_nat (8 - LengthWidth.get lw)) 0)
    (lbytes lw n)) as Hs. change (zlen (replicate 8 0)) with 8 in Hs. by rewrite Hs by (by rewrite length_replicate, length_le_bytes).
Qed.

(** The plan of a compaction. *)
Lemma compact_spec c address size rs os :
  collection_at lw address size c → 0 ≤ address → objects_at lw (address + 16) rs os → Forall (record_ok lw) rs →
  16 + zlen (records_bytes lw rs) ≤ size → address + size ≤ U64_MAX → fits (LengthWidth.get lw) size →
  ∃ plan, GlobalHeapMembers.compact (mkMembers c os) remove = ok plan ∧
    compaction_collection plan = collection_range c ∧ packs (address + 16) (address + 16) rs os (compaction_moves plan) ∧
    compaction_retained plan = zlen os - count_removed os ∧
    match compaction_free_space plan with
    | None => count_removed os = 0
    | Some free => 0 < count_removed os ∧ range_start (free_header free) = address + 16 + zlen (records_bytes lw (kept rs os)) ∧
        range_end (free_header free) = address + 32 + zlen (records_bytes lw (kept rs os)) ∧
        free_bytes free = free_head (size - 16 - zlen (records_bytes lw (kept rs os)))
    end.
Proof.
  intros Hat Ha Hos Hrs Hsz Hu Hf. pose proof usize_bounds as Hub. destruct (kept_len rs _ os Hos Hrs) as [Hk _].
  pose proof (zlen_nonneg (records_bytes lw (kept rs os))) as Hk0. assert (Hc0 : 0 ≤ count_removed os) by apply zlen_nonneg.
  unfold GlobalHeapMembers.compact. cbn [members_collection members_list]. unfold FileRange.start, FileRange.end_.
  rewrite (at_first _ _ _ _ Hat), (at_end _ _ _ _ Hat), (at_lengths _ _ _ _ Hat).
  destruct (pack_spec rs (address + 16) os (address + 16) [] 0 Hos) as (ms & -> & Hms); [lia|lia|]. rewrite and_then_ok. cbv beta iota.
  cbn [app]. rewrite Z.add_0_l. destruct (count_removed os =? 0) eqn:E0.
  - rewrite and_then_ok. eexists. split; [done|]. cbn. split_and!; [done|done|done|lia].
  - unfold checked_sub. replace (_ <=? address + size) with true by lia. cbn [expect mbind outcome_bind].
    set (dest := address + 16 + _) in *. 
    destruct (range_new_ok dest (address + size - dest)) as (r1 & -> & _ & _); [lia..|]. rewrite and_then_ok.
    unfold FREE_HEADER_LEN at 1. destruct (range_new_ok dest 16) as (r2 & -> & Hr1 & Hr2); [lia..|]. rewrite and_then_ok.
    unfold to_usize, FIXED_HEADER_LEN. replace (8 <=? USIZE_MAX) with true by lia. cbn [try_].
    rewrite free_head_write by (unfold fits in *; lia). rewrite !and_then_ok. eexists. split; [done|]. unfold dest in *. cbn [compaction_collection compaction_moves compaction_retained compaction_free_space free_header free_bytes].
    split_and!; [done|done|done|lia|done|lia|]. f_equal. lia.
Qed.

End Moves.

(** ** Applying the plan of a compaction *)

Lemma collection_head_len lw size reserved gap :
  zlen reserved = 3 → LengthWidth.get lw + zlen gap = 8 → zlen (collection_head lw size reserved gap) = 16.
Proof.
  intros Hr Hg. pose proof (length_get_cases lw). unfold collection_head. rewrite !zlen_app, zlen_le_bytes.
  change (zlen GCOL_SIGNATURE) with 4. change (zlen [GCOL_VERSION]) with 1. lia.
Qed.

Section Apply.
Context `{B : Build} {I : Type} `{FileImage I} `{!ImageLaws I}.
Context (ck : Checkpoint) (lw : LengthWidth) (remove : GlobalHeapObject → bool).

Notation view self := (image_view (engine_image (I := I) self)).

Lemma apply_spec (self : WriteEngine I) c address rs t os plan :
  journaled ck self → ck_start ck = address → ck_size ck = 16 + zlen (records_bytes lw rs) + zlen t →
  heap_at (view self) address lw rs t → zlen (view self) ≤ U64_MAX →
  collection_at lw address (16 + zlen (records_bytes lw rs) + zlen t) c → objects_at lw (address + 16) rs os →
  GlobalHeapMembers.compact (mkMembers c os) remove = ok plan →
  apply self plan ⇝ (λ '(r, self'), journaled ck self' ∧
    (r = Ok tt → ∃ t', heap_at (view self') address lw (kept remove rs os) t' ∧
       zlen (records_bytes lw (kept remove rs os)) + zlen t' = zlen (records_bytes lw rs) + zlen t ∧
       same_outside (view self) (view self') address (16 + zlen (records_bytes lw rs) + zlen t))).
Proof.
  intros Hj Hcs Hcz Hh Hu Hat Hos Hplan.
  pose proof Hh as [(pre & reserved & gap & post & size & Hv & Hpre & Hres & Hgap & Hsize & Hf & Hmin & Hmod) Hrs Ht].
  pose proof (zlen_nonneg pre). pose proof (zlen_nonneg t). pose proof (zlen_nonneg post).
  pose proof (zlen_nonneg (records_bytes lw rs)). rewrite <- Hsize in Hat, Hcz |- *.
  set (head := collection_head lw size reserved gap) in *. assert (Hhead : zlen head = 16) by by apply collection_head_len.
  assert (Hend : address + size ≤ zlen (view self)) by (rewrite Hv, !zlen_app; lia).
  destruct (compact_spec lw remove c address size rs os Hat ltac:(lia) Hos Hrs ltac:(lia) ltac:(lia) Hf)
    as (plan' & Hplan' & Hcoll & Hms & _ & Hfree).
  rewrite Hplan in Hplan'. injection Hplan' as <-. unfold apply. rewrite Hcoll, image_len_view. unfold FileRange.end_.
  rewrite (at_end _ _ _ _ Hat). replace (_ <? address + size) with false by lia.
  destruct (kept_len lw remove rs _ os Hos Hrs) as [Hk Hk8]. pose proof (zlen_nonneg (records_bytes lw (kept remove rs os))).
  destruct (compaction_free_space plan) as [free|].
  2:{ apply returns_ret. split; [done|]. intros _. exists t. rewrite (kept_all lw remove rs _ os Hos Hfree). split; [done|]. split; [done|].
      exists pre, (head ++ records_bytes lw rs ++ t), (head ++ records_bytes lw rs ++ t), post. rewrite Hv, !zlen_app.
      split_and!; [by rewrite <- !app_assoc|by rewrite <- !app_assoc|done|lia|lia]. }
  destruct Hfree as (Hrem & Hf1 & Hf2 & Hfb).
  pose proof (apply_moves_spec ck (collection_range c) ltac:(rewrite (at_end _ _ _ _ Hat); lia)
    ltac:(rewrite (at_start _ _ _ _ Hat), (at_end _ _ _ _ Hat); lia) lw remove rs self (address + 16) os (compaction_moves plan) (pre ++ head) [] (t ++ post) Hj) as Hmoves.
  eapply returns_bind; [apply Hmoves|].
  - rewrite Hv. cbn [app]. by rewrite <- !app_assoc.
  - rewrite zlen_app, zlen_nil. lia.
  - done.
  - rewrite zlen_app, Hhead, Hpre. done.
  - rewrite (at_start _ _ _ _ Hat), zlen_app. lia.
  - rewrite (at_end _ _ _ _ Hat). lia.
  - intros [r self1] [Hj1 Hr1]. destruct r as [[]|e]; [|apply returns_ret; by split].
    destruct (Hr1 eq_refl) as (J & Hv1 & HJ). rewrite zlen_nil in HJ.
    rewrite contained_ok by (rewrite ?(at_start _ _ _ _ Hat), ?(at_end _ _ _ _ Hat); lia).
    set (n := size - 16 - zlen (records_bytes lw (kept remove rs os))) in *. unfold FileRange.start. rewrite Hf1, Hfb.
    destruct (write_inplace_journaled self1 _ _) as [r self2] eqn:Ew.
    pose proof (free_head_len lw n) as Hfl.
    assert (Hlen1 : zlen (view self1) = zlen (view self)).
    { rewrite Hv1, Hv, !zlen_app. lia. }
    apply (write_journaled ck) in Ew as [Hj2 Hr2]; [|done|split; cbn [fst snd]; rewrite ?Hfl; lia].
    apply returns_ret. split; [done|]. intros ->.
    set (hole := take 16 J). set (rest := drop 16 J).
    assert (HJ' : J = hole ++ rest) by (unfold hole, rest; by rewrite take_drop).
    assert (Hhole : zlen hole = 16) by (apply (zlen_take 16); lia).
    assert (Hrest : zlen rest = zlen J - 16) by (apply (f_equal zlen) in HJ'; rewrite zlen_app in HJ'; lia).
    set (t' := free_head lw n ++ rest ++ t).
    assert (Hv2 : view self2 = pre ++ head ++ records_bytes lw (kept remove rs os) ++ t' ++ post).
    { rewrite Hr2 by done. rewrite Hv1, HJ'.
      replace ((pre ++ head) ++ records_bytes lw (kept remove rs os) ++ (hole ++ rest) ++ t ++ post) with
        ((pre ++ head ++ records_bytes lw (kept remove rs os)) ++ hole ++ rest ++ t ++ post) by (by rewrite <- !app_assoc).
      replace (address + 16 + _) with (zlen (pre ++ head ++ records_bytes lw (kept remove rs os))) by (rewrite !zlen_app; lia).
      rewrite overwrite_app by lia. unfold t'. by rewrite <- !app_assoc. }
    assert (Ht' : zlen t' = n) by (unfold t'; rewrite !zlen_app, Hfl; unfold n in *; lia).
    exists t'. split; [|split; [unfold n in Ht'; lia|]].
    + split; [|by apply kept_Forall|].
      * exists pre, reserved, gap, post, size. split_and!; [done|done|done|done|unfold n in Ht'; lia|done|done|done].
      * right. right. rewrite Ht'. split; [unfold n; lia|]. eexists 0, (replicate 4 0), _. unfold t', free_head.
        rewrite <- !app_assoc. split_and!; [done|unfold fits; lia|done|unfold fits, n in *; lia].
    + exists pre, (head ++ records_bytes lw rs ++ t), (head ++ records_bytes lw (kept remove rs os) ++ t'), post.
      rewrite Hv2, Hv, !zlen_app, Ht'. unfold n. split_and!; [by rewrite <- !app_assoc|by rewrite <- !app_assoc|done|lia|lia].
Qed.

End Apply.

(** ** Batches of compactions *)






Section Frames.
Context `{B : Build} (lw : LengthWidth).


Lemma heap_at_bounds v address rs t :
  heap_at v address lw rs t → 0 ≤ address ∧ address + 16 + zlen (records_bytes lw rs) + zlen t ≤ zlen v.
Proof.
  intros [(pre & reserved & gap & post & size & -> & <- & Hres & Hgap & _) _ _]. rewrite !zlen_app, collection_head_len by done.
  pose proof (zlen_nonneg pre). pose proof (zlen_nonneg post). lia.
Qed.






End Frames.

Section Batches.
Context `{B : Build} {I : Type} `{FileImage I} `{!ImageLaws I} (lw : LengthWidth).

Notation view self := (image_view (engine_image (I := I) self)).
















End Batches.


(** ** Samples *)

#[local] Existing Instance build64.

(** A source over the bytes of a file. *)
Definition file_source (file : list Z) : Source :=
  let read := λ off n, Ret (ok_or (get_range file off (off + n)) (UnexpectedSourceEof (off + n) (zlen file))) in
  mkHeapSource (mkSource read (zlen file)) read.

Lemma serves_file file : serves (file_source file) file.
Proof.
  split; [done|..]; intros off n _ _; cbn; destruct (get_range file off (off + n)); cbn; (done || by eexists).
Qed.

(** An image in memory, whose [n]th write from now fails half way. *)
Record Memory : Type := mkMemory {
  memory_bytes : list Z;
  memory_fault : option nat;
}.

#[export] Instance memory_image : FileImage Memory := {
  image_len m := zlen (memory_bytes m);
  image_read m at_ n := ok_or (get_range (memory_bytes m) at_ (at_ + n)) (UnexpectedSourceEof (at_ + n) (zlen (memory_bytes m)));
  image_write_at m at_ raw :=
    match memory_fault m with
    | Some O =>
      let other := (take (length raw / 2) raw ++ replicate (length raw - length raw / 2) 0)%list in
      (Err (ErrorIo 5), mkMemory (overwrite (memory_bytes m) at_ other) None)
    | fault => (Ok tt, mkMemory (overwrite (memory_bytes m) at_ raw) (pred <$> fault))
    end;
  image_sync_all m := (Ok tt, m);
  image_sync_data m := (Ok tt, m);
  image_ordering_barrier m := (Ok tt, m);
  image_flush m := (Ok tt, m);
  image_discard_pending_writes m := m;
}.

#[export] Instance memory_laws : ImageLaws Memory.
Proof.
  refine {| image_view := memory_bytes |}; try done.
  - intros m at_ n b. cbn. destruct (get_range _ _ _); [by intros [= <-]|done].
  - intros m at_ raw r m' Hw _ _. cbn in Hw. destruct (memory_fault m) as [[|n]|]; injection Hw as <- <-; cbn [memory_bytes]; [|done..].
    eexists. split; [|done]. rewrite zlen_app, zlen_replicate. unfold zlen. rewrite length_take. pose proof (Nat.div_le_upper_bound (length raw) 2 (length raw)). lia.
Defined.

(** Three objects at the address 8, the second of which is removed. *)
Definition sample_objects : list (list Z) := [[1; 2; 3]; replicate 30 7; [9; 9]].

Definition sample_heap : list Z := replicate 8 5 ++ encoded_bytes LengthEight sample_objects ++ [6; 6; 6].

Definition sample_remove (o : GlobalHeapObject) : bool := object_index o =? 2.

Lemma sample_heap_at :
  heap_at sample_heap 8 LengthEight (encoded_records LengthEight 0 sample_objects) (encoded_tail LengthEight sample_objects).
Proof. apply (encoded_heap LengthEight sample_objects (replicate 8 5) [6; 6; 6]); [vm_compute; discriminate|split; vm_compute; congruence]. Qed.

Lemma sample_heap_byte : Forall byte sample_heap.
Proof.
  apply Forall_app. split; [apply Forall_replicate; unfold byte; lia|]. apply Forall_app.
  split; [|repeat (constructor; [unfold byte; lia|]); constructor]. apply encoded_byte.
  repeat constructor; unfold byte; lia.
Qed.

Lemma sample_indices : NoDup (rec_index <$> encoded_records LengthEight 0 sample_objects).
Proof. rewrite encoded_indices. apply NoDup_seqZ. Qed.

(** ** The theorems *)

(** C12: walking the collection at an address of any file through the window of header bytes
    never panics (the turns of the loop suffice, since no index repeats); it succeeds exactly
    when the bytes there are a collection of records with distinct indices, and then visits one
    object for each record, in order, with its index, reference count, range and data range;
    collecting the members returns the same objects. *)
Theorem heap_walk_exact (B : Build) (source : Source) (file : list Z) (lw : LengthWidth) (address : Z) :
  serves source file → Forall byte file → zlen file ≤ U64_MAX → 0 ≤ address →
  (walk_collection source lw address ≠ Panic) ∧
  (∀ os range, walk_collection source lw address = ok (os, range) →
     (∃ c, collect_members source lw address = ok (mkMembers c os) ∧ collection_range c = range) ∧
     ∃ rs t, heap_at file address lw rs t ∧ NoDup (rec_index <$> rs) ∧ objects_at lw (address + 16) rs os ∧
       range_start range = address ∧ range_end range = address + 16 + zlen (records_bytes lw rs) + zlen t) ∧
  (∀ rs t, heap_at file address lw rs t → NoDup (rec_index <$> rs) →
     ∃ os range, walk_collection source lw address = ok (os, range) ∧ objects_at lw (address + 16) rs os).
Proof.
  intros Hs Hb Hf Ha. pose proof (walk_collection_sound source file lw Hs Hb Hf address Ha) as Hsound. split; [|split].
  - destruct Hsound as (r & -> & _). done.
  - intros os range Hw. split; [|by apply (sound_eq _ _ _ Hsound Hw)].
    pose proof (collect_members_eq source lw address) as Hc. rewrite Hw in Hc. cbn in Hc. destruct Hc as (c & ? & ? & _). by exists c.
  - intros rs t Hh Hnd. destruct (walk_collection_complete source file lw Hs Hb Hf address rs t Hh Hnd) as (os & range & ? & ? & _).
    by exists os, range.
Qed.

Lemma heap_walk_exact_witness :
  ∃ os range, walk_collection (file_source sample_heap) LengthEight 8 = ok (os, range) ∧
    objects_at LengthEight 24 (encoded_records LengthEight 0 sample_objects) os.
Proof.
  destruct (heap_walk_exact build64 (file_source sample_heap) sample_heap LengthEight 8) as (_ & _ & H).
  - apply serves_file.
  - apply sample_heap_byte.
  - vm_compute. discriminate.
  - lia.
  - exact (H _ _ sample_heap_at sample_indices).
Defined.

(** C11: encoding objects returns on every input, with the error that names the reason or with
    the bytes of a collection; placed anywhere in a file, the reader returns for the [n]th
    object, under the index [n + 1], any prefix of its bytes, however often and in whatever
    order objects are read. *)
Theorem heap_roundtrip (B : Build) (lw : LengthWidth) (objects : list (list Z)) :
  Forall (Forall byte) objects →
  (encode_global_heap_collection lw objects ⇝ encode_result lw objects) ∧
  ∀ bytes, encode_global_heap_collection lw objects = Ret (Ok bytes) →
  ∀ source pre post ids rd, Forall byte (pre ++ post) → zlen (pre ++ bytes ++ post) ≤ U64_MAX →
    serves source (pre ++ bytes ++ post) → Forall (λ id, 0 ≤ id_collection id) ids → reader_reaches source lw ids rd →
  ∀ (n : nat) obj len, objects !! n = Some obj → mkHeapId (zlen pre) (1 + Z.of_nat n) ∈ ids → 0 ≤ len ≤ zlen obj →
  ∃ rd', GlobalHeapReader.read rd (mkHeapId (zlen pre) (1 + Z.of_nat n)) len = ok (take (Z.to_nat len) obj, rd') ∧
    reader_reaches source lw ids rd'.
Proof.
  intros Hall. pose proof (encode_spec lw objects) as Hspec. split; [done|].
  intros bytes Hb source pre post ids rd Hpp Hu Hs Hids Hr n obj len Hn Hid Hlen.
  destruct Hspec as (r & Hr' & Hres). rewrite Hb in Hr'. injection Hr' as <-. unfold encode_result in Hres.
  destruct (65535 <? zlen objects) eqn:E1; [done|]. destruct (U64_MAX <? encoded_size objects) eqn:E2; [by destruct Hres|].
  destruct (length_width_holds lw (encoded_size objects)) eqn:E3; [|done]. cbn [negb] in Hres.
  destruct (USIZE_MAX <? encoded_size objects) eqn:E4; [done|]. injection Hres as ->.
  pose proof (encoded_size_bounds objects) as (_ & Hmin & Hsz). apply length_holds in E3; [|unfold u64; lia].
  pose proof (encoded_heap lw objects pre post ltac:(lia) E3) as Hh.
  destruct (encoded_lookup lw objects 0 n obj Hn) as (rc & Hin & Hi & Hd). subst obj. rewrite Z.add_0_l in Hi. rewrite <- Hi in Hid |- *.
  apply Forall_app in Hpp as [Hpre Hpost].
  apply (read_record source (pre ++ encoded_bytes lw objects ++ post) lw ids Hs) with (rs := encoded_records lw 0 objects) (t := encoded_tail lw objects);
    [|done|done|done|done| |done|done|done|].
  - apply Forall_app. split; [done|]. apply Forall_app. split; [by apply encoded_byte|done].
  - rewrite encoded_indices. apply NoDup_seqZ.
  - assert (Hle : zlen (rec_data rc) ≤ objects_len objects); [|lia]. clear -Hn.
    revert n Hn. induction objects as [|x objects IH]; intros n Hn; [done|].
    unfold objects_len. rewrite sum_of_cons. fold (objects_len objects). pose proof (objects_len_nonneg objects).
    pose proof (aligned_spec (zlen x) (zlen_nonneg _)) as [_ Ha]. pose proof (zlen_nonneg x).
    destruct n as [|n]; cbn in Hn; [injection Hn as ->; lia|]. specialize (IH n Hn). lia.
Qed.

Lemma heap_roundtrip_witness :
  ∃ rd', GlobalHeapReader.read (GlobalHeapReader.new (file_source sample_heap) LengthEight [mkHeapId 8 3; mkHeapId 8 1])
           (mkHeapId 8 1) 2 = ok ([1; 2], rd').
Proof.
  destruct (heap_roundtrip build64 LengthEight sample_objects) as [_ H].
  - repeat constructor; unfold byte; lia.
  - specialize (H (encoded_bytes LengthEight sample_objects) ltac:(vm_compute; reflexivity)).
    destruct (H (file_source sample_heap) (replicate 8 5) [6; 6; 6] [mkHeapId 8 3; mkHeapId 8 1]
      (GlobalHeapReader.new (file_source sample_heap) LengthEight [mkHeapId 8 3; mkHeapId 8 1])) with (n := 0%nat) (obj := [1; 2; 3]) (len := 2)
      as (rd' & Hr & _).
    + repeat constructor; unfold byte; lia.
    + vm_compute. discriminate.
    + apply serves_file.
    + repeat constructor; cbn; lia.
    + constructor.
    + reflexivity.
    + right. left.
    + split; vm_compute; discriminate.
    + exists rd'. exact Hr.
Defined.

(** C13: over any file with a collection of distinct indices, and after any reads, a read of a
    registered object returns the prefix of its data and keeps the reader able to read on; a
    longer read than the data is refused, and so is an index the collection does not hold. *)
Theorem heap_reader_exact (B : Build) (source : Source) (file : list Z) (lw : LengthWidth) (ids : list GlobalHeapId)
    (rd : GlobalHeapReader) (address : Z) (rs : list HeapRecord) (t : list Z) :
  serves source file → Forall byte file → zlen file ≤ U64_MAX → Forall (λ id, 0 ≤ id_collection id) ids →
  reader_reaches source lw ids rd → heap_at file address lw rs t → NoDup (rec_index <$> rs) →
  ∀ i len, mkHeapId address i ∈ ids → 0 ≤ len ≤ USIZE_MAX →
  (∀ r, r ∈ rs → rec_index r = i → len ≤ zlen (rec_data r) →
     ∃ rd', GlobalHeapReader.read rd (mkHeapId address i) len = ok (take (Z.to_nat len) (rec_data r), rd') ∧
       reader_reaches source lw ids rd') ∧
  (∀ r, r ∈ rs → rec_index r = i → zlen (rec_data r) < len →
     ∃ e, GlobalHeapReader.read rd (mkHeapId address i) len = fail e) ∧
  (i ∉ (rec_index <$> rs) → GlobalHeapReader.read rd (mkHeapId address i) len = fail (GlobalHeapObjectNotFound address i)).
Proof.
  intros Hs Hb Hf Hids Hr Hh Hnd i len Hid Hlen. split; [|split].
  - intros r Hin <- Hle. eapply (read_record source file lw ids); eauto; lia.
  - intros r Hin <- Hlt. eapply (read_too_long source file lw ids); eauto; lia.
  - intros Hni. eapply (read_missing source file lw ids); eauto; lia.
Qed.

Lemma heap_reader_exact_witness :
  GlobalHeapReader.read (GlobalHeapReader.new (file_source sample_heap) LengthEight [mkHeapId 8 4]) (mkHeapId 8 4) 2
  = fail (GlobalHeapObjectNotFound 8 4).
Proof.
  eapply (heap_reader_exact build64 (file_source sample_heap) sample_heap LengthEight [mkHeapId 8 4]).
  - apply serves_file.
  - apply sample_heap_byte.
  - vm_compute. discriminate.
  - repeat constructor; cbn; lia.
  - constructor.
  - exact sample_heap_at.
  - exact sample_indices.
  - left.
  - split; vm_compute; discriminate.
  - rewrite encoded_indices, elem_of_seqZ. vm_compute. intros [_ H]. discriminate H.
Defined.

Section Compactions.
Context {I : Type} `{FileImage I} `{!ImageLaws I}.

Notation view self := (image_view (engine_image (I := I) self)).

(** C10: the members of a collection of an image can be compacted whatever the predicate says.
    Applying the plan does not panic, and if it succeeds the collection holds the records that
    were not removed, in order, byte for byte, with the free space behind them, every byte
    outside the collection is as it was, and a walk of the result finds the kept objects; the
    plan counts them. *)
Theorem heap_compaction_exact (B : Build) (source : Source) (lw : LengthWidth) (address : Z) (remove : GlobalHeapObject → bool)
    (self : WriteEngine I) (members : GlobalHeapMembers) :
  serves source (view self) → Forall byte (view self) → zlen (view self) ≤ U64_MAX → 0 ≤ address →
  collect_members source lw address = ok members →
  ∃ plan rs t, GlobalHeapMembers.compact members remove = ok plan ∧
    heap_at (view self) address lw rs t ∧ objects_at lw (address + 16) rs (members_list members) ∧
    compaction_retained plan = zlen (kept remove rs (members_list members)) ∧
    apply self plan ⇝ (λ '(r, self'), r = Ok tt →
      (∃ t', heap_at (view self') address lw (kept remove rs (members_list members)) t') ∧
      same_outside (view self) (view self') address (16 + zlen (records_bytes lw rs) + zlen t) ∧
      ∀ source', serves source' (view self') → Forall byte (view self') →
        ∃ os range, walk_collection source' lw address = ok (os, range) ∧
          objects_at lw (address + 16) (kept remove rs (members_list members)) os).
Proof.
  intros Hs Hb Hu Ha Hm. pose proof (collect_members_eq source lw address) as Heq.
  pose proof (walk_collection_sound source (view self) lw Hs Hb Hu address Ha) as ([[os range]|e] & Hw & Hsound).
  2:{ rewrite Hw, Hm in Heq. discriminate. }
  rewrite Hw in Heq. destruct Heq as (c & Hc & Hrange & Hread). rewrite Hm in Hc. injection Hc as ->.
  destruct Hsound as (rs & t & Hh & Hnd & Hos & _). cbn [members_list].
  destruct (read_collection_heap source (view self) lw Hs Hb Hu address rs t Hh) as (c' & Hread' & Hat & _).
  rewrite Hread in Hread'. injection Hread' as <-.
  pose proof Hh as [(pre & reserved & gap & post & size & Hv & Hpre & Hres & Hgap & Hsize & Hf & _) Hrs _].
  pose proof (zlen_nonneg pre). pose proof (zlen_nonneg t). pose proof (zlen_nonneg post). rewrite <- Hsize in Hat.
  assert (Hend : address + size ≤ U64_MAX).
  { rewrite Hv, !zlen_app, collection_head_len in Hu by done. lia. }
  destruct (compact_spec lw remove c address size rs os Hat Ha Hos Hrs ltac:(lia) Hend Hf) as (plan & Hplan & _ & _ & Hret & _).
  exists plan, rs, t. split; [done|]. split; [done|]. split; [done|]. split; [by rewrite Hret, (kept_count lw remove rs (address + 16) os Hos)|].
  rewrite Hsize in Hat.
  assert (Hj : journaled (checkpoint_of self address (16 + zlen (records_bytes lw rs) + zlen t)) self).
  { pose proof (heap_at_bounds lw _ _ _ _ Hh). pose proof (zlen_nonneg (records_bytes lw rs)). apply journaled_start; lia. }
  eapply returns_mono; [apply (apply_spec _ lw remove self c address rs t os plan Hj eq_refl eq_refl Hh Hu Hat Hos Hplan)|].
  intros [r self'] [_ Hok] Hr. destruct (Hok Hr) as (t' & Hh' & _ & Hsame). split; [by exists t'|]. split; [done|].
  intros source' Hs' Hb'. destruct (walk_collection_complete source' (view self') lw Hs' Hb') with (address := address) (rs := kept remove rs os) (t := t')
    as (os' & range' & Hw' & Hos' & _); [|done| |by exists os', range'].
  - destruct Hsame as (p & s1 & s2 & q & Hv1 & -> & _ & Hs1 & Hs2). rewrite Hv1 in Hu. rewrite !zlen_app in *. lia.
  - apply (sublist_NoDup _ _ Hnd). apply kept_indices.
Qed.


End Compactions.

(** The sample in memory: the members and the plan, as the program computes them. *)
Definition sample_members : GlobalHeapMembers :=
  match collect_members (file_source sample_heap) LengthEight 8 with
  | Ret (Ok members) => members
  | _ => mkMembers (mkCollection (mkAddressRange 0 0 eq_refl) LengthEight (mkAddressRange 0 0 eq_refl)) []
  end.


Definition sample_engine (fault : option nat) : WriteEngine Memory :=
  mkEngine (mkMemory sample_heap fault) SyncAlways [(0, [1])] PublicationPublished (AllocationPublication.new 7) None.

Lemma heap_compaction_exact_witness :
  ∃ plan rs t, GlobalHeapMembers.compact sample_members sample_remove = ok plan ∧
    heap_at sample_heap 8 LengthEight rs t ∧ compaction_retained plan = zlen (kept sample_remove rs (members_list sample_members)).
Proof.
  destruct (heap_compaction_exact build64 (file_source sample_heap) LengthEight 8 sample_remove (sample_engine None) sample_members)
    as (plan & rs & t & H1 & H2 & _ & H4 & _).
  - apply serves_file.
  - apply sample_heap_byte.
  - vm_compute. discriminate.
  - lia.
  - vm_compute. reflexivity.
  - exists plan, rs, t. split; [exact H1|]. split; [exact H2|exact H4].
Defined.




