(* ===== verification/FormatTheorems.v ===== *)
(** * Theorems about the format's messages and managers

    Checksums, free-space managers and the file-space info message, from the lemmas of
    the component files. *)

From stdpp Require Import strings.
From S2P Require Import Prelude Addresses Words ByteFields ByteFieldFacts Checksums.
From S2P Require Import FreeSpaceManagers FreeSpaceManagerFacts FreeSpaceManagerParse.
From S2P Require Import FileSpaceMessages Utf8 FilterMessages Dataspaces Superblocks.
From S2P Require Import SuperblockSearch SuperblockFacts FillValues InfoMessages GroupInfos.
From S2P Require Import LinkMessages.

Local Open Scope Z_scope.

Section Theorems.
Context `{B : Build}.

(** What a caller passes to the manager writer: values of the Rust types, and sections
    that a reader will accept. *)
Definition manager_input (widths : FormatWidths) (sections : list FreeSection)
    (fshd_addr fsse_addr class_id : Z) (alloc : option Z) : Prop :=
  sections_u64 sections ∧ u64 (zlen sections) ∧ 0 ≤ class_id < 3 ∧ u64 fshd_addr ∧ u64 fsse_addr ∧
  u64 (used_len widths sections) ∧ match alloc with Some a => u64 a | None => True end.


(** [serialize_free_space_manager_with_allocation] never panics and succeeds
    exactly when every size is below the limit of its encoding, every address, length
    and total fits its field and the allocation holds the list; otherwise it returns
    an error and no bytes. *)
Lemma fsm_serialize_decides widths sections fshd_addr fsse_addr class_id alloc :
  manager_input widths sections fshd_addr fsse_addr class_id alloc →
  if decide (serializable widths sections fshd_addr fsse_addr alloc)
  then ∃ header list,
    serialize_free_space_manager_with_allocation widths sections fshd_addr fsse_addr class_id alloc = ok (header, list) ∧
    zlen header = header_len widths ∧ zlen list = default (used_len widths sections) alloc
  else ∃ e, serialize_free_space_manager_with_allocation widths sections fshd_addr fsse_addr class_id alloc = fail e.
Proof.
  intros (Hu & Hn & Hc & Hf1 & Hf2 & Hul & Ha).
  destruct (serialize_decides widths sections class_id Hu Hn Hc fshd_addr fsse_addr alloc Hf1 Hf2 Hul Ha)
    as [[Hs Hok]|[Hs Hno]].
  - rewrite decide_True by done. eexists _, _. split; [exact Hok|]. rewrite !zlen_app, !zlen_le_bytes. split.
    + apply zlen_header_body.
    + by apply zlen_list_bytes; [|apply Hs].
  - by rewrite decide_False.
Qed.

(** C6: Reading a free-space manager from any bytes never panics and terminates: the
    result is an error, or a header whose declared sections fit its section list and as
    many sections as the header declares, none empty, each address within the address
    space, with the declared total. *)
Theorem fsm_parse_safe widths header list addr :
  Forall byte header → zlen header ≤ USIZE_MAX → Forall byte list → zlen list ≤ USIZE_MAX →
  (h ←? parse_header widths header; sections ←? parse_section_info widths list addr h; ok (h, sections))
  ⇝? λ '(h, sections), header_ok widths h ∧ sections_ok h sections.
Proof.
  intros Hh Hhz Hl Hlz. eapply sound_bind; [by apply parse_header_sound|]. intros h Hok.
  eapply sound_bind; [by apply (parse_section_info_sound widths list addr)|]. intros sections Hs. by apply sound_ok.
Qed.

(** The incremental lookup3 checksum agrees with the one-shot function however the
    data is cut into slices, empty ones included: after updating with the slices in
    order it finishes with the checksum of their concatenation. *)
Lemma lookup3_incremental slices :
  Forall (Forall byte) slices →
  (st ←? updates (JenkinsLookup3.new (zlen (concat slices))) slices; JenkinsLookup3.finish st)
  = (h ← jenkins_lookup3 (concat slices); ok h).
Proof.
  intros Hb. assert (Hc : Forall byte (concat slices)) by (by apply Forall_concat_2).
  pose proof (lookup3_state_new (concat slices) Hc) as Hst. rewrite <- (app_nil_r (concat slices)) in Hst at 2.
  destruct (updates_ok _ slices [] _ Hst Hb) as (st' & -> & Hst'). rewrite and_then_ok, (finish_ok st' _ Hst').
  by rewrite jenkins_lookup3_ret.
Qed.

(** The checksum that skips the field it is stored in, computed in one pass, is the
    checksum of a copy of the block whose field is zeroed, wherever the field lies. *)
Lemma zeroed_checksum_equivalent data checksum_at :
  Forall byte data → hashlittle_zeroed true data 0 checksum_at = jenkins_lookup3 (zero_field checksum_at data).
Proof.
  intros Hb. rewrite hashlittle_zeroed_ret by done. rewrite jenkins_lookup3_ret by (by apply (seen_byte true)).
  unfold lookup3. rewrite zlen_zero_field. done.
Qed.

(** Whatever file-space info message was parsed, of either version,
    [normalize_file_space_info_to_v1] makes of it a message that the writer accepts and
    that parses back to just that normalized message, whatever bytes follow. *)
Lemma file_space_info_rewrite widths data info eoa rest :
  Forall byte data → zlen data ≤ USIZE_MAX → FileSpaceInfo.parse_file_space_info widths data = ok info →
  address_fits (offsets widths) (Defined eoa) →
  fits (LengthWidth.get (lengths widths)) (page_bytes (info_page_size info)) →
  ∃ bytes,
    FileSpaceInfo.serialize_file_space_info_v1 widths (FileSpaceInfo.normalize_file_space_info_to_v1 info eoa) = ok bytes ∧
    (zlen (bytes ++ rest) ≤ USIZE_MAX →
     FileSpaceInfo.parse_file_space_info widths (bytes ++ rest) = ok (FileSpaceInfo.normalize_file_space_info_to_v1 info eoa)).
Proof. apply normalized_reparses. Qed.

End Theorems.

(** ** Witnesses *)

#[local] Existing Instance build64.

Definition sample_widths : FormatWidths := mkWidths OffsetEight LengthEight.

(** Decides a conjunction of bounds on numerals. *)
Ltac decide_bounds :=
  repeat match goal with
  | |- _ ∧ _ => split
  | |- Forall _ _ => constructor
  | |- _ = _ => reflexivity
  | |- u64 _ => vm_compute
  | |- fits _ _ => vm_compute
  | |- _ ≤ _ => vm_compute; discriminate
  | |- _ < _ => vm_compute; reflexivity
  | |- (_ → False) => discriminate
  | |- True => exact I
  end.




Lemma fsm_parse_safe_witness :
  (h ←? parse_header sample_widths [70; 83; 72; 68; 0];
   sections ←? parse_section_info sample_widths [255; 0] 512 h; ok (h, sections))
  ⇝? λ '(h, sections), header_ok sample_widths h ∧ sections_ok h sections.
Proof. apply (fsm_parse_safe); decide_bounds; split; done. Defined.

(** ** Results about the superblock and the object-header messages

    Opening a file, and the messages that describe datasets and groups: what is written is
    read back, what arbitrary bytes give, and the changes made in place.  Each result is
    followed by an instance on concrete data. *)

Section Theorems.
Context `{B : Build}.

(** ** Opening a file *)


(** C30: the signature search stops on every file, at the first of the addresses 0, 512,
    1024, 2048 and so on that holds the signature, or finds none. *)
Theorem signature_search_first file :
  zlen file ≤ USIZE_MAX →
  ∃ found, find_signature (slice_source file) = ok found ∧
    match found with
    | Some a => a ∈ candidates ∧ signature_at file a = true ∧
                ∀ b, b ∈ candidates → b < a → signature_at file b = false
    | None => ∀ b, b ∈ candidates → signature_at file b = false
    end.
Proof.
  intros Hu. destruct (search_ok file Hu) as (held & buf & Hs & _). exists (first_signature file).
  split; [|apply first_signature_least].
  unfold find_signature. rewrite Hs, and_then_ok. by destruct (first_signature file).
Qed.

(** Opening any bytes never panics and reads only what lies in them: it fails, or the
    superblock lies at the first signature and has the fields of its version. *)
Lemma superblock_read_safe file :
  zlen file ≤ USIZE_MAX → Forall byte file →
  read (slice_source file) ⇝? (λ located,
    first_signature file = Some (located_address located) ∧
    sb_shape (located_superblock located) (located_widths located)).
Proof. apply read_sound. Qed.

(** ** Messages of datasets *)

(** A filter pipeline message of either version that is written is read back, whatever
    follows it; the writer refuses exactly the pipelines whose names, values or number of
    filters its fields cannot hold. *)
Lemma filter_message_roundtrip p rest :
  pipeline_typed p →
  match serialize p with
  | Ok bytes => zlen (bytes ++ rest) ≤ USIZE_MAX → parse (bytes ++ rest) = ok p
  | Err _ => ¬ pipeline_writable p
  end.
Proof.
  intros Ht. destruct (serialize_cases p) as [[Hw ->]|[Hw [e ->]]]; [|done].
  intros Hu. by apply (parse_pipeline_written _ Hu p rest).
Qed.

(** Whatever filter pipeline message is accepted from arbitrary bytes, of either
    version, can be written again, and what is written reads back as the same pipeline. *)
Lemma filter_message_rewrite data p rest :
  Forall byte data → zlen data ≤ USIZE_MAX → parse data = ok p →
  ∃ bytes, serialize p = Ok bytes ∧
    (zlen (bytes ++ rest) ≤ USIZE_MAX → parse (bytes ++ rest) = ok p).
Proof.
  intros Hb Hu Hp. destruct (sound_eq _ _ _ (pipeline_parse_sound data Hu Hb) Hp) as [Ht Hw].
  destruct (serialize_cases p) as [[_ Hs]|[Hn _]]; [|done]. exists (pipeline_bytes p). split; [done|].
  intros Hu'. by apply (parse_pipeline_written _ Hu' p rest).
Qed.

(** A dataspace message that is written is read back, whatever follows it; the writer
    fails exactly when a dimension or a maximum does not fit the length width of the file,
    and then names one that does not. *)
Lemma dataspace_roundtrip ds w rest :
  space_ok ds →
  match Dataspace.serialize ds (LengthWidth.get w) with
  | Ret (Ok bytes) =>
    zlen (bytes ++ rest) ≤ USIZE_MAX → Dataspace.parse_with_length_width (bytes ++ rest) w = ok ds
  | Ret (Err e) => ¬ space_fits w ds ∧
      ∃ dim, dim ∈ dimensions ds ++ max_lengths ds ∧ e = LengthTooLarge dim (LengthWidth.get w)
  | Panic => False
  end.
Proof.
  intros Hok. destruct (serialize_space_cases ds w Hok) as [[Hf ->]|[Hf (dim & Hin & ->)]].
  - intros Hu. unfold Dataspace.parse_with_length_width.
    by rewrite (parse_layout _ _ _ _ _ _ _ (written_layout ds w rest Hok Hf Hu)).
  - split; [done|]. by exists dim.
Qed.

(** Growing a dataset in place.  Overwriting one dimension field of a stored dataspace
    message, at the position the parser reports for it, keeps the length of the message and
    changes exactly that dimension of what is parsed from it. *)
Lemma dataspace_grow_in_place data w ds s e i v :
  Forall byte data → zlen data ≤ USIZE_MAX →
  Dataspace.parse_with_dimension_fields data w = ok (ds, (s, e)) → (i < length (dimensions ds))%nat →
  fits (LengthWidth.get w) v →
  ∃ data', write_length_at data (s + Z.of_nat i * LengthWidth.get w) v w = ok data' ∧
    zlen data' = zlen data ∧
    Dataspace.parse_with_dimension_fields data' w
    = ok (mkDataspace (space_type ds) (rank ds) (<[i := v]> (dimensions ds)) (max_dimensions ds), (s, e)).
Proof. apply overwrite_dimension. Qed.

(** The number of elements of a simple dataspace is the product of its dimensions as
    far as a [u64] holds it, and [u64::MAX] beyond: it never wraps to a small count. *)
Lemma num_elements_saturates ds d dims :
  space_type ds = Simple → dimensions ds = d :: dims → Forall u64 (d :: dims) →
  Dataspace.num_elements ds = Z.min (product (d :: dims)) U64_MAX.
Proof.
  intros Ht Hd Hu. unfold Dataspace.num_elements. rewrite Ht, Hd.
  pose proof (saturated_fold (d :: dims) 1 Hu ltac:(lia)) as H. rewrite Z.mul_1_l in H. exact H.
Qed.

(** A fill value message that is written is read back, whatever follows it, with a
    fill value of no bytes read as none; the writer fails exactly on values that do not
    fit the 32-bit length. *)
Lemma fill_value_roundtrip view rest :
  match FillValueView.serialize view with
  | Ok body => zlen (body ++ rest) ≤ USIZE_MAX →
      FillValueView.parse FILL_VALUE (body ++ rest)
      = ok (mkFillValue (fill_time view) (nonempty (fill_value view)))
  | Err _ => ∃ v, fill_value view = Some v ∧ U64_MAX / 2 ^ 32 < zlen v
  end.
Proof.
  destruct (FillValueView.serialize view) as [body|e] eqn:E; [by apply parse_fill_written|].
  unfold FillValueView.serialize, FillValueView.serialize_fill_value_message_v3, FillValueView.fill_value_len in E.
  destruct (fill_value view) as [v|]; [|done]. exists v. split; [done|].
  unfold FillValueView.U32_FIELD_MAX in E. change (U64_MAX / 2 ^ 32) with 0xFFFFFFFF.
  destruct (zlen v <=? 0xFFFFFFFF) eqn:El; [done|lia].
Qed.

(** ** Messages of groups *)

(** C29: a link message that is written is read back, whatever follows it: its name, its
    hard, soft or external target, creation order and character set, as long as the paths of
    an external target hold no NUL byte.  The writer accepts exactly the messages whose hard
    target is a defined address of the offset width and whose soft or external value has at
    most 65535 bytes, and refuses all others with an error. *)
Theorem link_roundtrip m w rest :
  link_typed m → zlen (link_name m) ≤ U64_MAX →
  match LinkMessage.serialize m w with
  | Ret (Ok bytes) => link_writable w m ∧
      (link_paths_ok m → zlen (bytes ++ rest) ≤ USIZE_MAX →
       LinkMessage.parse_with_offset_width (bytes ++ rest) w = ok m)
  | Ret (Err _) => ¬ link_writable w m
  | Panic => False
  end.
Proof.
  intros Ht Hn. destruct (serialize_link_cases m w Ht Hn) as [[Hw ->]|[Hw [e ->]]]; [|done].
  split; [done|]. intros Hp Hu. by apply parse_link_written.
Qed.

(** The lookups that compare a name where it lies in the message agree with parsing
    the whole message and comparing the decoded name, for every message the parser accepts
    from arbitrary bytes, names that are not UTF-8 included. *)
Lemma link_lookup_equivalent data w name m :
  Forall byte data → zlen data ≤ USIZE_MAX → utf8_valid name = true →
  LinkMessage.parse_with_offset_width data w = ok m →
  let found := if bool_decide (link_name m = name) then Some (link_target m) else None in
  LinkMessage.target_if_named data w name = ok found ∧
  LinkMessage.hard_link_address_if_named_with_offset_width data w name
    = ok (match found with Some (Hard a) => Some a | _ => None end).
Proof.
  intros Hb Hu Hn Hm. cbv zeta. split; [by apply target_if_named_parse|].
  rewrite (address_if_named_parse data w name m) by done. by case_bool_decide.
Qed.

(** Retargeting a hard link in place.  Writing an address over the range that
    [hard_link_address_range] reports for a written hard link gives exactly the message
    that would have been written for that address, and the bytes behind it stay. *)
Lemma link_retarget m w a b bytes rest :
  link_typed m → zlen (link_name m) ≤ U64_MAX → link_target m = Hard a → LinkMessage.serialize m w = ok bytes →
  address_fits w (Defined b) → zlen (bytes ++ rest) ≤ USIZE_MAX →
  ∃ start bytes', LinkMessage.hard_link_address_range (bytes ++ rest) w
      = ok (Some (start, start + OffsetWidth.get w)) ∧
    LinkMessage.serialize (mkLink (link_name m) (Hard b) (link_creation_order m) (link_charset m)) w = ok bytes' ∧
    write_defined_stored_address_at (bytes ++ rest) start b w = ok (bytes' ++ rest).
Proof.
  intros Ht Hn Ha Hs Hb Hu.
  destruct (serialize_link_cases m w Ht Hn) as [[_ H']|[_ [e H']]]; rewrite H' in Hs; [injection Hs as <-|done].
  destruct (retarget_written m w a b rest Ht Ha Hb Hu) as (start & Hr & Hwr).
  exists start, (link_bytes w (set_target m (Hard b))). split_and!; [done| |done].
  destruct (serialize_link_cases (set_target m (Hard b)) w) as [[_ H2]|[H2 _]]; [|done|exact H2|done].
  destruct Ht as (H1 & H2 & _). split_and!; [done|done|].
  exact (offset_fits_u64 w b (stored_bits_fits w (Defined b) Hb)).
Qed.

(** Link Info and Attribute Info messages that are written are read back, whatever
    follows them; an Attribute Info message without the index of creation orders drops the
    address of that index.  The writers fail exactly on addresses that do not fit. *)
Lemma info_messages_roundtrip link attr w rest :
  link_info_typed link → attr_info_typed attr →
  match LinkInfoMessage.serialize link w with
  | Ret (Ok bytes) => zlen (bytes ++ rest) ≤ USIZE_MAX →
      LinkInfoMessage.parse_with_offset_width (bytes ++ rest) w = ok link
  | Ret (Err _) => ¬ link_info_writable w link
  | Panic => False
  end ∧
  match AttributeInfoMessage.serialize attr w with
  | Ret (Ok bytes) => zlen (bytes ++ rest) ≤ USIZE_MAX →
      AttributeInfoMessage.parse_with_offset_width (bytes ++ rest) w = ok (attr_stored_form attr)
  | Ret (Err _) => ¬ attr_info_writable w attr
  | Panic => False
  end.
Proof.
  intros Hl Ha. split.
  - destruct (serialize_link_info_cases link w Hl) as [[Hw ->]|[Hw [e ->]]]; [|done].
    intros Hu. by apply parse_link_info_written.
  - destruct (serialize_attr_info_cases attr w Ha) as [[Hw ->]|[Hw [e ->]]]; [|done].
    intros Hu. by apply parse_attr_info_written.
Qed.


End Theorems.

(** ** Instances *)

Section Instances.
#[local] Existing Instance build64.


Lemma signature_search_first_witness :
  ∃ found, find_signature (slice_source (replicate 512 7 ++ HDF5_SIGNATURE)) = ok found ∧
    match found with
    | Some a => a ∈ candidates ∧ signature_at (replicate 512 7 ++ HDF5_SIGNATURE) a = true ∧
                ∀ b, b ∈ candidates → b < a → signature_at (replicate 512 7 ++ HDF5_SIGNATURE) b = false
    | None => ∀ b, b ∈ candidates → signature_at (replicate 512 7 ++ HDF5_SIGNATURE) b = false
    end.
Proof. apply signature_search_first. vm_compute. discriminate. Defined.

Lemma link_roundtrip_witness :
  ∃ bytes, LinkMessage.serialize LinkTests.ext OffsetFour = ok bytes ∧
    LinkMessage.parse_with_offset_width (bytes ++ [5]) OffsetFour = ok LinkTests.ext.
Proof.
  pose proof (link_roundtrip LinkTests.ext OffsetFour [5]) as H.
  destruct (LinkMessage.serialize LinkTests.ext OffsetFour) as [[bytes|]|] eqn:E; vm_compute in E; try discriminate.
  injection E as <-. eexists. split; [reflexivity|]. apply H; try (vm_compute; congruence).
  - vm_compute. intuition congruence.
  - vm_compute. split; reflexivity.
Defined.


End Instances.
