(* ===== verification/HeaderTheorems.v ===== *)
(** * Results about object headers

    What the parsers make of arbitrary bytes, what a filter and a source change, and what an
    encoded or edited header is read as.  Each result is followed by an instance on concrete
    bytes. *)

From stdpp Require Import gmap.
From S2P Require Import Prelude Addresses Words ByteFields ByteFieldFacts Checksums FileRegions.
From S2P Require Import Utf8 SuperblockSearch LinkMessages ObjectHeaders ObjectHeaderFacts.
From S2P Require Import ObjectHeaderCodec ObjectHeaderSource SymbolTables SymbolTableFacts.

Local Open Scope Z_scope.

Section Theorems.
Context `{B : Build}.

(** C17: reading an object header of either version from any bytes neither panics nor follows
    continuations for ever, cyclic ones included: it fails or returns a header of version 1
    or 2 whose messages have bodies of at most 65535 bytes, as long as their size field says,
    are not NIL, and pass the filter. *)
Theorem header_parse_safe data mode offset ws base filter :
  Forall byte data → zlen data ≤ USIZE_MAX → 0 ≤ base → 0 ≤ offset →
  ∃ r, ObjectHeader.parse_filtered_with_widths data mode offset ws base filter = Ret r ∧
  ∀ h, r = Ok h → (oh_version h = 1 ∨ oh_version h = 2) ∧ Forall (message_ok filter) (oh_messages h).
Proof.
  intros Hb Hu Hbase Ho. destruct (parse_header_file_sound data mode offset ws base filter Hb Hu Hbase Ho) as (r & Hr & Hq).
  exists r. split; [done|]. intros h ->. exact Hq.
Qed.

(** A filter decides only which messages are kept: a filtered parse takes the steps of
    the full parse, fails with its errors, and otherwise returns its header with the messages
    the filter keeps, in the same order. *)
Lemma header_filter_equivalent data mode offset ws base mf :
  ObjectHeader.parse_filtered_with_widths data mode offset ws base mf
  = (h ←? ObjectHeader.parse_with_base_and_widths data mode offset ws base; ok (retain_header mf h)).
Proof. exact (parse_filtered_retained mf data mode offset ws base). Qed.

(** C19: a source over a buffer gives the headers the buffered parser gives, for both
    versions, with their continuations: the one succeeds with a header exactly when the other
    does, although the source reads a prefix before it knows how long the header is. *)
Theorem header_source_equivalent data mode offset ws base mf h :
  zlen data ≤ USIZE_MAX → 0 ≤ offset →
  ObjectHeader.parse_from_source_filtered_with_widths (slice_metadata data) mode offset ws base mf = ok h
  ↔ ObjectHeader.parse_filtered_with_widths data mode offset ws base mf = ok h.
Proof.
  intros Hu Ho. destruct (parse_source_agree data mode offset ws base mf Hu Ho) as [H1 H2].
  split; intros Hh; [apply H2 in Hh as (h' & ? & <-)|apply H1 in Hh as (h' & ? & <-)]; done.
Qed.

(** C18: a version 2 header that is encoded from a prefix and message records, none of them a
    continuation, is read back wherever it lies in the file: its prefix, the times, and all
    messages but the NIL ones, in order with their flags and creation indexes.  If there is a
    message of an unknown type that the access mode must understand, reading fails with the
    first of them instead.  The size field is the smallest that holds the length. *)
Theorem header_roundtrip p ms mode ws :
  prefix_fit p → Forall (message_fits (layout p)) ms →
  Forall (λ m, msg_type m ≠ MessageType.OBJECT_HEADER_CONTINUATION) ms →
  zlen (concat (message_bytes (layout p) <$> ms)) ≤ U64_MAX →
  ∃ records bytes,
    write_records (layout p) [] ms = Ret records ∧ ObjectHeaderPrefix.encode_header p records = Ret bytes ∧
    ∀ pre rest, zlen (pre ++ bytes ++ rest) ≤ USIZE_MAX →
      ObjectHeader.parse_with_widths (pre ++ bytes ++ rest) mode (zlen pre) ws
      = match list_find (λ m, message_refused mode m = true) ms with
        | Some (_, m) => fail (UnsupportedMessage (msg_type m))
        | None => ok (encoded_header p (zlen records) (filter (λ m, msg_type m ≠ MessageType.NIL) ms))
        end.
Proof.
  intros Hp Hm Hpl Hz. eexists _, _. split; [by apply write_records_eq|]. cbn [app]. split.
  - apply encode_header_eq; [|unfold u64; pose proof (zlen_nonneg (concat (message_bytes (layout p) <$> ms))); lia].
    apply Forall_concat, Forall_fmap. eapply Forall_impl; [exact Hm|]. intros m. apply message_bytes_byte.
  - intros pre rest Hu. rewrite encoded_header_read by done. unfold read_messages.
    by destruct (list_find _ ms) as [[i m]|].
Qed.

(** C20: replacing the body of the first record of a type gives exactly the records of the
    messages with that message's body replaced: its type, flags and creation index stay, and
    so do all other records; where no record has the type, nothing is found. *)
Theorem record_splice_correct ly t ms body :
  Forall (message_fits ly) ms → zlen body ≤ OBJECT_HEADER_MESSAGE_MAX →
  ∃ records, write_records ly [] ms = Ret records ∧
  match list_find (λ m, msg_type m = t) ms with
  | Some (i, m) =>
    ∃ splice region, RecordSplice.first ly records t = ok (Some splice) ∧
      RecordSplice.replace_body splice body = ok region ∧
      (Forall byte body → write_records ly [] (<[i := with_body body m]> ms) = Ret region)
  | None => RecordSplice.first ly records t = ok None
  end.
Proof.
  intros Hm Hb. pose proof (splice_body ly t ms body Hm Hb) as Hs. eexists. split; [by apply write_records_eq|]. cbn [app].
  apply and_then_ok_inv in Hs as (o & -> & Hs). destruct (list_find _ ms) as [[i m]|] eqn:E, o as [s|]; try done.
  - apply and_then_ok_inv in Hs as (region & Hr & [= ->]). eexists _, _. split_and!; [done|done|].
    intros Hbb. apply write_records_eq. apply list_find_Some in E as (Hi & _).
    apply Forall_insert; [done|]. destruct (Forall_lookup_1 _ _ _ _ Hm Hi). by split.
  - by apply and_then_ok_inv in Hs as (region & _ & ?).
Qed.

End Theorems.

(** ** Instances *)

Section Instances.
#[local] Existing Instance build64.
Import HeaderTests.

Definition sample_messages : list HeaderMessage :=
  [mkMessage 1 3 0 (Some 4) [1; 2; 3]; mkMessage 99 0 1 (Some 5) []; mkMessage 3 2 2 (Some 6) [7; 8]; mkMessage 0 1 0 (Some 7) [0]].

Lemma sample_prefix_fit : prefix_fit prefix.
Proof. repeat split; vm_compute; congruence. Qed.

Lemma sample_messages_fit : Forall (message_fits (layout prefix)) sample_messages.
Proof.
  repeat apply Forall_cons_2; try apply Forall_nil_2;
    (split; [unfold byte; cbn; lia|unfold byte; cbn; lia|reflexivity|vm_compute; congruence| |split; [reflexivity|unfold fits; lia]]);
    cbn [msg_data]; repeat apply Forall_cons_2; try apply Forall_nil_2; unfold byte; lia.
Qed.

Lemma sample_messages_local : Forall (λ m, msg_type m ≠ MessageType.OBJECT_HEADER_CONTINUATION) sample_messages.
Proof. repeat apply Forall_cons_2; try apply Forall_nil_2; done. Qed.

(** A version 1 header whose continuation is itself. *)
Definition cyclic : list Z :=
  [1; 0; 1; 0; 5; 0; 0; 0; 16; 0; 0; 0; 0; 0; 0; 0] ++ [16; 0; 8; 0; 0; 0; 0; 0; 16; 0; 16; 0; 0; 0; 0; 0].

Lemma header_parse_safe_witness :
  ObjectHeader.parse_filtered_with_widths cyclic ReadOnly 0 (mkWidths OffsetTwo LengthTwo) 0 All
    = fail NestingDepthExceeded ∧
  ∃ r, ObjectHeader.parse_filtered_with_widths cyclic ReadOnly 0 (mkWidths OffsetTwo LengthTwo) 0 All = Ret r ∧
  ∀ h, r = Ok h → (oh_version h = 1 ∨ oh_version h = 2) ∧ Forall (message_ok All) (oh_messages h).
Proof.
  split; [vm_compute; reflexivity|]. apply header_parse_safe; [|vm_compute; congruence|done|done].
  unfold cyclic. repeat apply Forall_cons_2; try apply Forall_nil_2; unfold byte; lia.
Defined.

Lemma header_source_equivalent_witness :
  ObjectHeader.parse_from_source_filtered_with_widths (slice_metadata v1_bytes) ReadOnly 0 (mkWidths OffsetTwo LengthTwo) 0 All
    = ok (V1.header [mkMessage 16 8 0 None [32; 0; 16; 0; 0; 0; 0; 0]; mkMessage 99 0 8 None []] 5).
Proof.
  apply header_source_equivalent; [vm_compute; congruence|done|]. vm_compute. reflexivity.
Defined.

Lemma header_roundtrip_witness :
  ∃ records bytes,
    write_records (layout prefix) [] sample_messages = Ret records ∧
    ObjectHeaderPrefix.encode_header prefix records = Ret bytes ∧
    ObjectHeader.parse_with_widths ([1; 2] ++ bytes ++ [3]) ReadOnly 2 (mkWidths OffsetEight LengthEight)
    = ok (encoded_header prefix (zlen records) (take 3 sample_messages)).
Proof.
  destruct (header_roundtrip prefix sample_messages ReadOnly (mkWidths OffsetEight LengthEight) sample_prefix_fit
    sample_messages_fit sample_messages_local ltac:(vm_compute; congruence)) as (records & bytes & Hr & He & Hp).
  exists records, bytes. split; [exact Hr|]. split; [exact He|]. apply (Hp [1; 2] [3]).
  vm_compute in Hr. injection Hr as <-. vm_compute in He. injection He as <-. vm_compute. congruence.
Defined.

Lemma record_splice_correct_witness :
  ∃ records, write_records (layout prefix) [] sample_messages = Ret records ∧
  ∃ splice region, RecordSplice.first (layout prefix) records 3 = ok (Some splice) ∧
    RecordSplice.replace_body splice [9] = ok region ∧
    (Forall byte [9] →
     write_records (layout prefix) [] (<[2%nat := mkMessage 3 1 2 (Some 6) [9]]> sample_messages) = Ret region).
Proof.
  exact (record_splice_correct (layout prefix) 3 sample_messages [9] sample_messages_fit ltac:(vm_compute; congruence)).
Defined.

End Instances.

(** ** Results about groups with symbol tables and version 1 B-trees

    The walk of a group's B-tree against the trees it stands for, the lookups against the list
    of links, and what arbitrary bytes give.  Each result is followed by an instance on
    concrete bytes. *)

Section Theorems.
Context `{B : Build}.

(** C21: for every reader of nodes, the walk of a group's B-tree returns addresses exactly when
    the reader gives a tree below the root of group nodes that have the children and keys they
    count, whose levels decrease by one to the leaves at level 0, whose nodes have distinct
    defined addresses, and whose nodes and child pointers are within the work limit; the
    addresses are those of its leaves, from left to right.  In particular cycles, shared nodes,
    levels that do not fit and trees that are too large are refused. *)
Theorem group_walk_refines_tree read ws root ls :
  BTreeV1.collect_group_nodes read ws root = ok ls ↔
  ∃ t, address_of t = root ∧ describes read None t ∧ NoDup (nodes t) ∧
    Forall (λ a, a < StoredAddress.undefined (offsets ws)) (nodes t) ∧
    cost t ≤ V1TreeVisitState.DEFAULT_WORK_LIMIT ∧ ls = leaves t.
Proof.
  apply collect_nodes_spec. unfold V1TreeVisitState.DEFAULT_WORK_LIMIT, U64_MAX. lia.
Qed.

(** C23: listing the entries of a group and finding a link in it, from any bytes and any
    symbol table message, neither panic nor run on, cyclic trees included. *)
Theorem group_read_safe data base msg ws k name :
  2 ^ 32 ≤ USIZE_MAX + 1 → Forall byte data → zlen data ≤ USIZE_MAX →
  0 ≤ base → 0 ≤ local_heap_address msg → 0 ≤ btree_address msg →
  (∃ r, GroupV1.resolve_v1_group_entries data base msg ws k = Ret r) ∧
  (∃ r, GroupV1.find_link data base msg ws k name = Ret r).
Proof.
  intros Hw Hb Hu Hbase Hh Ht. destruct (resolve_entries_sound Hw data base msg ws k Hb Hu Hbase Hh Ht) as (r & Hr & _).
  destruct (find_link_sound Hw data base msg ws k name Hb Hu Hbase Hh Ht) as (r' & Hr' & _). eauto.
Qed.

(** C22: listing and lookup read the same links: the listing succeeds exactly when every link of
    the group parses, soft values included, and gives the hard links in the order of the tree;
    a lookup gives the target of the first link with the name, and parses no other soft
    value. *)
Theorem group_lookup_correct data base msg ws k :
  (∀ es, GroupV1.resolve_v1_group_entries data base msg ws k = ok es ↔
     ∃ links, group_links data base msg ws k = ok links ∧ Forall target_parses links ∧ es = hard_entries links) ∧
  (∀ name r, GroupV1.find_link data base msg ws k name = ok r ↔
     ∃ links, group_links data base msg ws k = ok links ∧
       match list_find (λ l, ref_name l = name) links with
       | Some (_, l) => ∃ t, GroupV1.to_link_target (ref_target l) = Ok t ∧ r = Some t
       | None => r = None
       end).
Proof. split; intros; [apply resolve_entries_links|apply find_link_links]. Qed.

(** Walking the B-tree of a group through the stored view of a source over the file gives
    the addresses the resident walk gives, and succeeds when it does. *)
Lemma group_walk_source_equivalent data base root ws ls :
  2 ^ 32 ≤ USIZE_MAX + 1 → zlen data ≤ USIZE_MAX → Forall byte data →
  BTreeV1.collect_symbol_table_nodes_from_source (BTreeV1.stored_metadata base (slice_metadata data)) root ws = ok ls
  ↔ BTreeV1.collect_symbol_table_nodes data base root ws = ok ls.
Proof. intros Hw Hu Hb. symmetry. by apply collect_source. Qed.

(** C24: a chunk node read from any bytes has, when the parse succeeds, as many entries as its
    count, each with one offset per dimension, and no entry fails to parse; reading it through
    a source gives the same node; and no bytes make either panic, as long as the key of the
    given number of dimensions fits a [usize]. *)
Theorem chunk_node_complete data a w ndims :
  0 ≤ ndims ∧ 8 * ndims + 16 ≤ USIZE_MAX → Forall byte data → zlen data ≤ USIZE_MAX → 0 ≤ a →
  ∃ r, BTreeV1ChunkNode.parse_with_offset_width data a w ndims = Ret r ∧
    (∀ node, r = Ok node →
       ∃ es, BTreeV1ChunkNode.entries node = ok es ∧ zlen es = layout_entries_used (chunk_layout node) ∧
         Forall (λ e, zlen (chunk_offsets (fst e)) = ndims) es ∧ BTreeV1ChunkNode.children node = ok (snd <$> es)) ∧
    (∀ node, r = Ok node ↔
       (bytes ←? BTreeV1ChunkNode.read_from_source_with_offset_width (slice_metadata data) a w ndims;
        node ← BTreeV1ChunkNode.node bytes; ok node) = ok node).
Proof.
  intros Hd Hb Hu Ha. destruct (chunk_parse_sound ndims Hd data w a Hb Hu Ha) as (r & Hr & Hq). exists r. split; [done|].
  destruct (chunk_parse_at ndims Hd data w a Hb Hu Ha) as [P1 P2]. destruct (chunk_source_at ndims Hd data w a Hb Hu Ha) as [S1 S2].
  rewrite Hr in P1, P2. split.
  - intros node ->. destruct Hq as (Hl & Hz & Hzu). by apply (chunk_entries_ok ndims Hd w).
  - intros node. split.
    + intros ->. destruct (P2 node eq_refl) as (n & Hn & <-). by destruct (S1 n Hn) as (? & ? & <-).
    + intros Hn. apply S2 in Hn as (n & Hn & <-). apply P1 in Hn as (n' & [= ->] & ->). done.
Qed.

End Theorems.

(** ** Instances *)

Section Instances.
#[local] Existing Instance build64.
Import GroupTests.

Lemma image_bytes : Forall byte image.
Proof. unfold image. cbn [app replicate]. repeat apply Forall_cons_2; try apply Forall_nil_2; unfold byte; lia. Qed.

Lemma chunk_image_bytes : Forall byte chunk_image.
Proof. unfold chunk_image. cbn [app replicate]. repeat apply Forall_cons_2; try apply Forall_nil_2; unfold byte; lia. Qed.

Lemma group_read_safe_witness :
  (∃ r, GroupV1.resolve_v1_group_entries image 0 message ws (Some 4) = Ret r) ∧
  (∃ r, GroupV1.find_link image 0 message ws (Some 4) [97] = Ret r).
Proof.
  apply group_read_safe; [vm_compute; congruence|exact image_bytes|vm_compute; congruence|vm_compute; congruence..].
Defined.

Lemma chunk_node_complete_witness :
  ∃ r, BTreeV1ChunkNode.parse_with_offset_width chunk_image 0 OffsetTwo 2 = Ret r ∧
    (∀ node, r = Ok node →
       ∃ es, BTreeV1ChunkNode.entries node = ok es ∧ zlen es = layout_entries_used (chunk_layout node) ∧
         Forall (λ e, zlen (chunk_offsets (fst e)) = 2) es ∧ BTreeV1ChunkNode.children node = ok (snd <$> es)) ∧
    (∀ node, r = Ok node ↔
       (bytes ←? BTreeV1ChunkNode.read_from_source_with_offset_width (slice_metadata chunk_image) 0 OffsetTwo 2;
        node ← BTreeV1ChunkNode.node bytes; ok node) = ok node).
Proof.
  apply chunk_node_complete; [vm_compute; split; congruence|exact chunk_image_bytes|vm_compute; congruence|done].
Defined.

(** The tree of the sample group: an internal root over one leaf. *)
Example sample_tree :
  let read := λ a, BTreeV1Node.parse_with_widths image a ws in
  let t := GNode 26 0 [GLeaf 44 [62]] in
  describes read None t ∧ cost t = 3 ∧ BTreeV1.collect_group_nodes read ws 26 = ok (leaves t).
Proof.
  cbv zeta. split; [|split; [reflexivity|vm_compute; reflexivity]].
  split; [|split; [|done]]; (eexists; split; [vm_compute; reflexivity|]); vm_compute; repeat split; congruence.
Qed.

End Instances.
