(* ===== verification/FilterTheorems.v ===== *)
(** * Theorems about the filters

    The round trips, bounds and safety of the filters and of whole pipelines, after an
    instance of the codec interface of [Deflate], whose stream is its input: the hypotheses
    about the codec can hold, and pipelines can be evaluated on concrete chunks. *)

From stdpp Require Import strings.
From S2P Require Import Prelude Addresses Words ByteFields ByteFieldFacts FilterErrors Lzf.
From S2P Require Import ByteFilters FilterMasks FilterBuffers ScaleOffset ScaleOffsetFacts Deflate.
From S2P Require Import FilterPipelines FilterPipelineFacts.

Local Open Scope Z_scope.

(** ** A concrete codec *)

(** The decoder counts what it has copied. *)
Definition copy_codec : Flate2 := {|
  Decompress := Z;
  decompress_new := 0;
  decompress_reset _ := 0;
  decompress_call d input out _ :=
    let n := Nat.min (length input) (length out) in
    (d + Z.of_nat n, take n input ++ drop n out,
     Ok (if Nat.leb (length input) (length out) then StreamEnd else StatusOk));
  total_in d := d;
  total_out d := d;
  ZlibEncoder := list Z;
  encoder_new _ := [];
  write_all e data := (e ++ data, Ok tt);
  encoder_reset e := ([], Ok e);
|}.

Program Definition copy_laws : Flate2Laws (H := copy_codec) := {|
  zlib _ data := data;
  fresh_encoder _ e := e = [];
  decoding _ data d := 0 ≤ d ≤ zlen data;
|}.
Next Obligation. done. Qed.
Next Obligation. done. Qed.
Next Obligation. intros level e data ->. by eexists _, _. Qed.
Next Obligation. intros; simpl. pose proof (zlen_nonneg data). pose proof (Z.div_pos (zlen data) 16). lia. Qed.
Next Obligation. done. Qed.
Next Obligation. done. Qed.
Next Obligation.
  simpl. intros d input out flush d' out' st [= <- <- <-]. unfold zlen.
  rewrite length_app, length_take, length_drop. split_and!; try lia.
  intros Hi Ho. apply Forall_app_2; [by apply Forall_take|by apply Forall_drop].
Qed.
Next Obligation. simpl. intros. pose proof (zlen_nonneg data). lia. Qed.
Next Obligation.
  simpl. intros level data d out flush d' out' st Hd [= <- <- <-]. rewrite length_drop.
  assert (Hn : Z.to_nat (Z.min (zlen out) (zlen data - d)) = Nat.min (length data - Z.to_nat d) (length out)).
  { unfold zlen in *. lia. }
  split_and!.
  - unfold zlen in *. lia.
  - unfold zlen in *. lia.
  - unfold zlen in *. lia.
  - by rewrite Hn.
  - eexists. split; [done|]. unfold zlen in *. split.
    + intros Hlt. by rewrite (proj2 (Nat.leb_le _ _)) by lia.
    + destruct (Nat.leb _ _) eqn:E; [|done]. apply Nat.leb_le in E. lia.
Qed.
Next Obligation. simpl. intros. lia. Qed.

(** A 64-bit build with the [deflate] feature. *)
Definition filters64 : FilterBuild := {|
  filter_platform := {| USIZE_MAX := U64_MAX; usize_bounds := ltac:(unfold U64_MAX; lia) |};
  filter_profile := true;
  filter_codec := copy_codec;
  feature_deflate := true;
|}.

Definition filters64_laws : Flate2Laws (H := filter_codec (FilterBuild := filters64)) := copy_laws.

(** ** Pipelines *)

Section Pipelines.
Context `{FB : FilterBuild} `{!Flate2Laws}.

(** C3: What [compress_chunk_with] makes of a chunk, [decompress_chunk_with] turns back
    into it: for any pipeline of at most 32 filters among shuffle, LZF, Deflate and
    Fletcher32, if at all preceded by one integer scale-offset filter made for chunks of
    that size whose bits a [usize] can count, as long as the bound of the pipeline is below
    [isize::MAX]; whatever either scratch state was used for before, and whatever the mask
    bits beyond the pipeline are.  The stored chunk is within that bound, and both scratch
    states stay usable. *)
Theorem pipeline_round_trip larger filters ctx data bits s1 s2 :
  1 ≤ element_size ctx → zlen filters ≤ FILTER_COUNT_MAX → Forall byte data →
  lossless_pipeline filters (zlen data) → grown filters (zlen data) < ISIZE_MAX →
  match expected_chunk_len ctx with Some n => n = zlen data | None => True end →
  nothing_skipped filters bits → encoder_ok s1 → encoder_ok s2 →
  ∃ stored s1' s2',
    compress_chunk_with s1 data filters ctx = Ret (Ok stored, s1') ∧ encoder_ok s1' ∧
    Forall byte stored ∧ zlen stored ≤ grown filters (zlen data) ∧
    decompress_chunk_with larger s2 stored filters ctx bits = Ret (Ok data, s2') ∧ encoder_ok s2'.
Proof. apply chunk_round_trip. Qed.

(** C4: Decoding any stored bytes with any pipeline and any mask neither panics nor
    runs on when the context gives the length of the chunk and the bound of the pipeline for
    it is below [isize::MAX], and, with a scale-offset filter, its bits can be counted in a
    [usize]: it returns a chunk of exactly that length or an error, and leaves a scratch
    state that is valid for the next chunk. *)
Theorem pipeline_decode_safe larger s stored filters ctx bits n :
  scratch_ok s → Forall byte stored → zlen stored ≤ USIZE_MAX → 1 ≤ element_size ctx →
  Forall (λ f, Forall u32 (filter_client_data f)) filters →
  expected_chunk_len ctx = Some n → 0 ≤ n → grown filters n < ISIZE_MAX → bits_bounded filters n →
  decompress_chunk_with larger s stored filters ctx bits ⇝ (λ '(r, s'), scratch_ok s' ∧
    match r with Ok data => Forall byte data ∧ zlen data = n | Err _ => True end).
Proof. apply decompress_chunk_sound. Qed.

(** C8: Inflating within a limit below [isize::MAX] makes progress until it ends, on any
    input and with any window: the loop returns within its bound, having consumed input, produced
    output or grown the window in every turn, and what it reports as produced is within
    the limit and the window; on the stream of some data within the limit it produces
    just that data. *)
Theorem inflate_progress data limit w :
  0 ≤ limit < ISIZE_MAX → zlen data ≤ USIZE_MAX → Forall byte data → Forall byte (window_bytes w) →
  deflate_decompress_into decompress_new data (Some limit) w ⇝ inflates_within limit ∧
  ∀ level original, data = zlib level original → zlen original ≤ limit →
    ∃ w' d, deflate_decompress_into decompress_new data (Some limit) w = Ret (Ok (zlen original), w', d) ∧
      window_holds w' original.
Proof.
  intros Hl Hz Hd Hw. pose proof isize_bounds. split; [by apply deflate_decompress_into_sound|]. intros level original -> Ho.
  destruct (deflate_decompress_into_decodes level original (Some limit) w) as (w' & d & Hw' & Hh); [lia..|].
  by exists w', d.
Qed.

End Pipelines.

Section Filters.
Context `{P : Platform} `{Q : Profile}.

(** The parameters that [build_cd_values] computes for an integer type are a
    well-formed parameter vector of 32-bit words; the parameter parser, the mode query
    and the codec read the same mode, width, order, sign and fill value back from it. *)
Lemma scale_offset_parameters minbits sz n signed byte_order fill :
  1 ≤ sz ≤ 8 → 0 ≤ minbits ≤ 8 * sz → u32 n → n ≤ USIZE_MAX → fill_matches sz fill →
  ∃ cd, build_cd_values (Integer minbits) (ScaleOffsetType.integer signed byte_order) sz n fill = ok cd ∧
    zlen cd = TOTAL_NPARMS ∧ Forall u32 cd ∧
    integer_parms cd (built_parms minbits sz n byte_order fill) (if signed then SGN_2 else SGN_NONE) (fill_pattern byte_order fill) ∧
    (n ≠ 0 → parse_scale_offset_parameters cd = ok (Some (Integer minbits))) ∧
    scale_offset_mode cd = Some (Integer minbits, if fill_pattern byte_order fill then FillDefined else FillUndefined).
Proof. intros. by apply build_integer. Qed.

(** C7: Integer scale-offset is lossless from the builder on: with the parameters built
    for an integer type, any chunk of that many elements whose bits, one less for each, a
    [usize] can count, fill values included, is
    compressed to at most 21 bytes more than its size and decompressed to itself, under
    any bound that admits it and whatever storage the buffers reuse. *)
Theorem scale_offset_lossless minbits sz n signed byte_order fill input cur spare max_output :
  1 ≤ sz ≤ 8 → 0 ≤ minbits ≤ 8 * sz → u32 n → 0 < n → n ≤ USIZE_MAX → fill_matches sz fill →
  views cur input → Forall byte input → zlen input = n * sz → zlen input + 21 ≤ USIZE_MAX →
  n * (8 * sz - 1) ≤ USIZE_MAX →
  match max_output with Some cap => zlen input ≤ cap | None => True end →
  ∃ cd b spare' enc,
    build_cd_values (Integer minbits) (ScaleOffsetType.integer signed byte_order) sz n fill = ok cd ∧
    ScaleOffset.compress cur cd spare = ok (b, spare') ∧ views b enc ∧ Forall byte enc ∧
    zlen enc ≤ zlen input + HEADER_LEN ∧
    ∀ cur' spare2, views cur' enc →
      ∃ b' spare2', ScaleOffset.decompress cur' cd max_output spare2 = ok (b', spare2') ∧ views b' input.
Proof.
  intros Hsz Hmin Hu Hn Hnu Hf Hv Hb Hz Huz Hbits Hcap.
  destruct (build_integer minbits sz n signed byte_order fill Hsz Hmin Hu Hnu Hf) as (cd & Hcd & _ & _ & Hp & _).
  destruct (lossless cd _ _ _ Hp max_output) with (cur := cur) (input := input) (spare := spare)
    as (b & spare' & enc & H1 & H2 & H3 & H4 & H5); try done.
  { destruct max_output; [|done]. cbn [built_parms nelmts size]. lia. }
  exists cd, b, spare', enc. split_and!; try done. by apply H4.
Qed.

(** LZF compression of any bytes returns, at most doubles them, and is undone by
    the decoder under exactly the bounds that admit the original. *)
Lemma lzf_roundtrip input :
  Forall byte input →
  ∃ enc, Lzf.compress input = Ret enc ∧ Forall byte enc ∧ zlen enc ≤ 2 * zlen input ∧
    ∀ cap, zlen input ≤ cap → Lzf.decompress_into enc (Some cap) [] = Ret (input, Ok tt).
Proof. apply compress_spec. Qed.

(** C40: LZF decoding of any bytes returns, with a result or an error, without indexing
    outside its input or output, and never holds more than the bound. *)
Theorem lzf_decode_bounded input max_output :
  Forall byte input → match max_output with Some m => 0 ≤ m | None => True end →
  Lzf.decompress_into input max_output [] ⇝
  (λ '(out, _), Forall byte out ∧ zlen out ≤ default USIZE_MAX max_output).
Proof. apply decompress_into_sound. Qed.

End Filters.

(** [shuffle_compress_into] groups the bytes of the elements by their position and
    keeps the tail that is no whole element, overwriting every byte of its output, and
    [shuffle_decompress_into] restores the elements, whatever the output slices held. *)
Lemma shuffle_roundtrip data size out out' :
  1 < size → zlen out = zlen data → zlen out' = zlen data →
  ∃ r, shuffle_compress_into data size out = Ret r ∧ shuffled data size r ∧
    shuffle_decompress_into r size out' = Ret data.
Proof.
  intros Hs Ho Ho'. destruct (shuffle_compress_spec data size Hs out Ho) as (r & -> & Hr).
  exists r. split_and!; [done|done|].
  destruct (shuffle_decompress_spec r size Hs out') as (r' & -> & Hr'); [by rewrite (proj1 Hr)|].
  f_equal. by eapply unshuffle_shuffled.
Qed.

(** The blocked 32-bit Fletcher computation never overflows and equals the
    checksum of unbounded sums in one's complement; verification accepts exactly the
    data followed by its checksum, so that data with any one byte changed is refused. *)
Lemma fletcher32_exact data (i : nat) b b' :
  Forall byte data → data !! i = Some b → byte b' →
  fletcher32_compute data = Ret (fletcher32 data) ∧
  fletcher32_verify (<[i:=b']> data ++ le_bytes 4 (fletcher32 data))
  = if b' =? b then ok data else fail (Fletcher32Mismatch (fletcher32 data) (fletcher32 (<[i:=b']> data))).
Proof.
  intros Hd Hi Hb'. split; [by apply fletcher32_compute_ret|].
  rewrite fletcher32_verify_app by (apply le_bytes_byte || apply length_le_bytes || by apply Forall_insert).
  rewrite le_value_bytes by apply fletcher32_u32. destruct (b' =? b) eqn:E.
  - assert (b' = b) as -> by lia. by rewrite list_insert_id, Z.eqb_refl.
  - pose proof (fletcher32_detects data i b b' Hd Hi Hb' ltac:(lia)). by replace (_ =? _) with false by lia.
Qed.

(** The ranks of the filters in the order they are applied. *)
Definition canonical (ids : list Z) : Prop := StronglySorted Z.le (canonical_rank <$> ids).

Lemma position_split ids id :
  ∃ pre post, ids = pre ++ post ∧ canonical_filter_position ids id = zlen pre ∧
    Forall (λ x, canonical_rank x ≤ canonical_rank id) pre ∧
    match post with x :: _ => canonical_rank id < canonical_rank x | [] => True end.
Proof.
  induction ids as [|x ids IH]; [by exists [], []|]. cbn [canonical_filter_position].
  destruct (canonical_rank x <=? canonical_rank id) eqn:E.
  - destruct IH as (pre & post & -> & Hp & Hpre & Hpost). exists (x :: pre), post. rewrite Hp, zlen_cons.
    split_and!; [done|lia| |done]. constructor; [lia|done].
  - exists [], (x :: ids). split_and!; [done|done|constructor|lia].
Qed.

(** A filter inserted at [canonical_filter_position] keeps a canonical pipeline
    canonical, after every filter of its own rank. *)
Lemma canonical_insert ids id :
  canonical ids →
  0 ≤ canonical_filter_position ids id ≤ zlen ids ∧
  let n := Z.to_nat (canonical_filter_position ids id) in
  canonical (take n ids ++ id :: drop n ids) ∧
  Forall (λ x, canonical_rank x ≤ canonical_rank id) (take n ids) ∧
  Forall (λ x, canonical_rank id < canonical_rank x) (drop n ids).
Proof.
  intros Hc. destruct (position_split ids id) as (pre & post & -> & -> & Hpre & Hpost).
  unfold canonical in *. rewrite zlen_app. pose proof (zlen_nonneg pre). pose proof (zlen_nonneg post).
  split; [lia|]. cbn zeta. unfold zlen. rewrite Nat2Z.id, take_app_length, drop_app_length.
  rewrite fmap_app in Hc. apply StronglySorted_app_iff in Hc as (H1 & H2 & H3).
  assert (Hpo : Forall (λ x, canonical_rank id < canonical_rank x) post).
  { destruct post as [|x post]; [done|]. constructor; [done|]. cbn in H2.
    apply StronglySorted_cons_iff in H2 as [Hx _]. rewrite Forall_fmap in Hx.
    eapply Forall_impl; [exact Hx|]. simpl. lia. }
  split_and!; [|done|done]. rewrite fmap_app. cbn [fmap list_fmap].
  apply StronglySorted_app_iff. split_and!; [done| |].
  - apply StronglySorted_cons_iff. split; [|done]. rewrite Forall_fmap. eapply Forall_impl; [exact Hpo|]. simpl. lia.
  - intros x y (u & -> & Hu)%list_elem_of_fmap Hy. rewrite Forall_forall in Hpre, Hpo. specialize (Hpre u Hu).
    apply elem_of_cons in Hy as [->|(v & -> & Hv)%list_elem_of_fmap]; [done|]. specialize (Hpo v Hv). lia.
Qed.

(** ** Witnesses *)

#[local] Existing Instance filters64.
#[local] Existing Instance filters64_laws.

Definition sample_filters : list Filter :=
  [{| filter_id := FILTER_SHUFFLE; filter_flags := 0; filter_client_data := [4] |};
   {| filter_id := FILTER_DEFLATE; filter_flags := 0; filter_client_data := [6] |};
   {| filter_id := FILTER_LZF; filter_flags := 0; filter_client_data := [] |};
   {| filter_id := FILTER_FLETCHER32; filter_flags := 0; filter_client_data := [] |}].
Definition sample_chunk : list Z := [1; 2; 3; 4; 5; 6; 7; 8; 9; 10; 11; 12].
Definition sample_context : ChunkContext :=
  {| chunk_dims := [3]; element_size := 4; scale_offset_type := None |}.
Definition no_larger (_ _ : InitializedBuffer) : bool := false.

Lemma sample_chunk_byte : Forall byte sample_chunk.
Proof. repeat constructor; unfold byte; lia. Qed.

Lemma pipeline_round_trip_witness :
  ∃ stored s1' s2',
    compress_chunk_with FilterScratch.new sample_chunk sample_filters sample_context = Ret (Ok stored, s1') ∧ encoder_ok s1' ∧
    Forall byte stored ∧ zlen stored ≤ grown sample_filters (zlen sample_chunk) ∧
    decompress_chunk_with no_larger FilterScratch.new stored sample_filters sample_context 256 = Ret (Ok sample_chunk, s2') ∧
    encoder_ok s2'.
Proof.
  apply (pipeline_round_trip no_larger sample_filters sample_context sample_chunk 256 FilterScratch.new FilterScratch.new).
  - vm_compute. discriminate.
  - vm_compute. discriminate.
  - apply sample_chunk_byte.
  - left. unfold sample_filters, byte_filter. repeat (apply Forall_cons; split; [cbn [filter_id filter_client_data]|]).
    + by left.
    + right; right; right. split_and!; [done|done|by exists Six].
    + by right; left.
    + by right; right; left.
    + by apply Forall_nil.
  - vm_compute. reflexivity.
  - reflexivity.
  - intros i Hi. change (zlen sample_filters) with 4 in Hi. change 256 with (2 ^ 8). apply Z.pow2_bits_false. lia.
  - apply encoder_ok_new.
  - apply encoder_ok_new.
Defined.

Lemma pipeline_decode_safe_witness :
  decompress_chunk_with no_larger FilterScratch.new [255; 0; 7; 9; 1] sample_filters sample_context 0 ⇝ (λ '(r, s'), scratch_ok s' ∧
    match r with Ok data => Forall byte data ∧ zlen data = 12 | Err _ => True end).
Proof.
  apply (pipeline_decode_safe no_larger FilterScratch.new [255; 0; 7; 9; 1] sample_filters sample_context 0 12).
  - split; [constructor|apply encoder_ok_new].
  - repeat constructor; unfold byte; lia.
  - vm_compute. discriminate.
  - vm_compute. discriminate.
  - repeat constructor; unfold u32; lia.
  - reflexivity.
  - lia.
  - vm_compute. reflexivity.
  - repeat constructor; vm_compute; discriminate.
Defined.

Lemma inflate_progress_witness :
  deflate_decompress_into decompress_new sample_chunk (Some 12) {| window_bytes := []; window_end := 0 |} ⇝ inflates_within 12 ∧
  ∀ level original, sample_chunk = zlib level original → zlen original ≤ 12 →
    ∃ w' d, deflate_decompress_into decompress_new sample_chunk (Some 12) {| window_bytes := []; window_end := 0 |}
              = Ret (Ok (zlen original), w', d) ∧ window_holds w' original.
Proof.
  apply (inflate_progress sample_chunk 12 {| window_bytes := []; window_end := 0 |}).
  - split; [lia|vm_compute; reflexivity].
  - vm_compute. discriminate.
  - apply sample_chunk_byte.
  - constructor.
Defined.

Definition sample_fill : ScaleOffsetFill := ScaleOffset.Defined (Some [255; 255; 255; 255]).

Lemma sample_fill_matches : fill_matches 4 sample_fill.
Proof. split; [reflexivity|]. repeat constructor; unfold byte; lia. Qed.

Lemma scale_offset_lossless_witness :
  ∃ cd b spare' enc,
    build_cd_values (Integer 0) (ScaleOffsetType.integer true LittleEndian) 4 3 sample_fill = ok cd ∧
    ScaleOffset.compress (FilterBuffer.borrowed sample_chunk) cd [] = ok (b, spare') ∧ views b enc ∧ Forall byte enc ∧
    zlen enc ≤ zlen sample_chunk + HEADER_LEN ∧
    ∀ cur' spare2, views cur' enc →
      ∃ b' spare2', ScaleOffset.decompress cur' cd (Some 12) spare2 = ok (b', spare2') ∧ views b' sample_chunk.
Proof.
  apply (scale_offset_lossless 0 4 3 true LittleEndian sample_fill sample_chunk (FilterBuffer.borrowed sample_chunk) [] (Some 12));
    try lia; try (vm_compute; discriminate); [unfold u32; lia|apply sample_fill_matches|apply views_borrowed|apply sample_chunk_byte|reflexivity].
Defined.

Lemma lzf_decode_bounded_witness :
  Lzf.decompress_into sample_chunk (Some 3) [] ⇝ (λ '(out, _), Forall byte out ∧ zlen out ≤ 3).
Proof. apply (lzf_decode_bounded sample_chunk (Some 3)); [apply sample_chunk_byte|lia]. Defined.

